(* ===== verification/_CoqProject ===== *)
-Q . S2P
Prelude.v
GoStd.v
Decimal.v
DecimalLimbs.v
DecimalDiv.v
DecimalArith.v
DecimalBits.v
Rational.v
Literal.v
ConstValue.v
Float.v
GoBytes.v
Constraint.v
TypeTable.v
TypeTableSafe.v
TypeRelations.v
TypeIdentity.v
Wire.v
RpcValue.v
RpcContract.v
RpcFrame.v
Fragment.v
TaskOwnership.v
Mutex.v
Heap.v
WaitableRing.v
Channel.v
ChannelBuffers.v
Operators.v
Allocator.v
AllocatorSafe.v
AllocatorRun.v
MapStorage.v
MapMemory.v
MapRep.v
MapShape.v
MapTable.v
MapUpdate.v
MapGrow.v
MapOps.v
MapRun.v
Collector.v
CollectorMark.v
CollectorPages.v
CollectorSweep.v
CollectorCards.v
CollectorCopy.v
CollectorFlip.v
CollectorClean.v
CollectorMajor.v
CollectorFinish.v
CollectorWhole.v
CollectorRun.v
Source.v
Diagnostics.v
Scanner.v
ScannerSafe.v
ScannerSteps.v
ScannerRun.v
ScannerView.v
