(* ===== verification/Prelude.v ===== *)
(** * Mini-Go: a verification of the compiler's scanner, exact constants and type algebra, of the
      runtime's synchronisation and memory core, and of the RPC wire layer

    Mini-Go compiles a Go-like language to bytecode and runs it in an embeddable virtual machine;
    guests and hosts talk over an RPC layer.  The compiler (src/compiler) scans sources into
    lossless documents, folds constants exactly and keeps the types of a program in tables; the
    virtual machine (src/runtime) schedules tasks, which share objects in a managed heap and synchronise
    through channels and mutexes; the RPC layer (src/rpc) turns calls and values into bounded binary
    frames and moves them in fragments.  The development models the parts of the three that other parts
    rely on for correctness.

    ** Files and the code they model

    - [Prelude] (this file): results and their notation [let?], automation, generic lemmas.
    - [GoStd], [GoBytes]: machine integers with their wrap-around, [strings], [strconv],
      [unicode/utf8], [encoding/binary], as the sources use them.
    - Constants (src/compiler/constant).  [Decimal], [DecimalLimbs], [DecimalDiv], [DecimalArith] and
      [DecimalBits] model decimal.go: integers of any size as decimal texts, with 64-bit fast paths, base
      10^9 limbs, Knuth's division and two's complement bit lists.  [Rational] and [Literal] model
      rational.go and the literal parsers of value.go; [ConstValue] the operators of value.go and
      complex.go and the tests of representable.go; [Float] the rounding of float.go.
    - Types (src/compiler/types).  [TypeTable] models model.go, table.go, validate.go, query.go, exact.go
      and the printer of format.go: nodes, references, the indexes and caches of a table; its invariant and
      theorems are in [TypeTableSafe].  [TypeRelations] models relations.go and view.go: aliases, identity, method sets,
      implementation and assignability; [TypeIdentity] shows what identity decides.
    - Build constraints (src/compiler/target).  [Constraint] models target.go and constraint.go: targets,
      the lexer and parser of constraints, and the scan of a file's header.
    - Front end (src/compiler/source, token, scanner).  [Source] models input.go, token.go and names.go:
      files with the starts of their lines, positions and spans, token kinds, character classes;
      [Diagnostics] models diagnostic.go.  [Scanner] models scanner.go, literals.go, numbers.go and
      document.go: the tape of records, elements and tokens, limits, views.  Lines and emissions are proved
      in [ScannerSafe], each scan of a token as a step in [ScannerSteps], whole documents in [ScannerRun],
      documents made from views in [ScannerView].
    - RPC (src/rpc).  [Wire] models wire_codec.go; [RpcValue] value.go, limits.go, resource.go and
      endpoint_value_codec.go; [RpcContract] contract.go, status.go and the negotiation of limits;
      [RpcFrame] endpoint_frame.go, endpoint_codec.go and ffi_codec.go; [Fragment] endpoint_fragment.go
      and the loops of endpoint_transport.go.
    - Runtime (src/runtime).  [TaskOwnership] models task_ownership.go, the state machine of a task's
      execution lease and its wait tickets; [Mutex] mutex_intrinsic.go with the scheduler's resumption of
      a waiter; [Heap] the access operations and the write barrier of managed_heap.go; [WaitableRing] the
      channel buffer of managed_waitable.go on that heap; [Channel] channel_select.go, waitable.go and
      wait.go with the scheduler's start and cancellation of a select; [ChannelBuffers] the two buffers a
      channel can have; [Operators] the integer operators of operators.go, numeric.go and comparison.go; [Allocator] the
      owner's allocation path of managed_heap.go, with its invariant in [AllocatorSafe] and its executions
      in [AllocatorRun]; [MapStorage] the maps of managed_map.go on that allocator, with their memory in
      [MapMemory], [MapRep] and [MapShape], the hash table in [MapTable] and [MapUpdate], growth in
      [MapGrow], the operations in [MapOps] and whole executions in [MapRun]; [Collector] the generational collector of managed_gc.go, with marking proved in
      [CollectorMark], pages and sweeping in [CollectorPages] and [CollectorSweep], the cards in
      [CollectorCards], the copy of the nursery in [CollectorCopy], [CollectorFlip] and [CollectorClean],
      and whole major collections in [CollectorMajor], [CollectorFinish], [CollectorWhole] and
      [CollectorRun].

    ** How the code is modelled

    A [(value, error)] result is a [result]; decoders and heap operations thread their state through a
    small error monad ([let!] in [Wire], [let^] in [WaitableRing], [let@] in [Allocator],
    [let&] in [Collector], [let~] in [MapStorage]).  Words are [Z] with [u32], [u64] and
    [i64] written where the code wraps; bytes are [Z] below 256 and a string is the list of its bytes.
    Objects that the code shares through pointers (mutex waiters, wait tickets, the cases of a selection
    in their channels' doubly linked lists) live in stores indexed by address, so that aliasing is as in
    the code.  A Go panic is an error value of its own, or [None].  Methods that run under one lock, or
    inside the scheduler's control transaction, are single transitions; an execution is any sequence of
    them.

    ** Interfaces

    [Channel] is proved against the class [Buffers] (a buffer promises to be a bounded FIFO queue,
    [BuffersLaws]); [ChannelBuffers] discharges it for Go slices and, with the theorems of
    [WaitableRing], for rings in the managed heap.  [WaitableRing] is proved against [InlineCodec], what
    the ring relies on of the encoder of inline values, and against an allocator that is a parameter.
    The memory ledger's decisions and the typing of channel values are parameters of [Mutex] and
    [Channel].  [MapStorage] takes the encoding of keys and values, the identity of a key and the hash
    function from the class [MapElements], and is proved against [elements_ok], which asks only that
    inline values have the size of their layout and are read back.

    ** What the theorems show

    - Channels: every execution of sends, receives, selects, closes and cancellations keeps each channel a
      FIFO queue with nothing lost, duplicated or invented; a selection commits exactly one case, with the
      effect of the abstract rendezvous or queue operation; no two parked selections that could meet stay
      parked.  Mutexes refine an abstract lock with a FIFO queue, and every waiter gets the lock after the
      ones before it.  A task has at most one lease; a notification wakes exactly the wait it was issued
      for.  The ring refines the queue; heap operations have their exact effect on the payload, leave
      every other object as it was, mark the cards they touch, and refuse stale references and ranges
      outside the payload.
    - Allocation: executions of up to 2^30 operations never panic and refine an abstract memory of
      published and reserved objects: fresh references, zeroed bytes, no object disturbed by another; the
      slot lists and the byte ledgers are exact and within the budgets.  The bound keeps slots, pages and
      list indices, all 32-bit words, from wrapping.  A released reference never resolves again, after any
      number of operations through heaps of at most 2^29 slots and 2^30 pages: a slot whose generation
      would wrap is retired.
    - Maps: from its construction on, through any number of stores, deletions and clears in heaps of those
      sizes, a managed map is a finite map; a refused store or construction leaves every object as it was, growth keeps the
      entries, and nothing outside the map's own objects changes; the identity of a deleted entry never
      resolves again, although its place is reused; iteration and snapshots meet every entry once.
    - Collection: a major collection of a heap in good order succeeds and deletes exactly the objects that
      the roots do not reach; what is reachable keeps its references and bytes, whether it was left in
      place, promoted or evacuated; the charged bytes are those of the reachable objects; the heap is in
      good order again.  Refused collections change nothing, or nothing but marks.
    - Operators: both paths compute exact integer arithmetic wrapped once to the operand's width, and the
      comparisons of the integers.
    - Constants: every operation on texts is the exact operation on the integers, rationals or complex
      numbers they denote; literals denote their values; rounding to floats is to nearest, ties to even.
    - Types: a table answers as its list of nodes does and its caches stay coherent; validation accepts
      exactly the well-formed tables; named types resolve to the end of their chain, exactness and
      reachability are what their graphs say, on cyclic tables too; identity is equality of the trees that
      types denote.  Two defects of the relations, and two of validation and reindexing, are shown by examples.
    - Build constraints: a file is selected exactly when its header's constraint, read by the grammar,
      holds of the target; the grammar is unambiguous; normalisation of a target is canonical.
    - Scanner: the elements of a document tile its text and are spelled as their kinds say; its tokens are
      those of the elements with the semicolons of the language, cut at the limit; every span is the one
      the file gives; every loop ends; a document made from a view shows that view.  Diagnostics: the
      collector keeps its budget, the normal form is sorted by file and offset, without repetitions next to each other, complete up to
      repetitions and hides no error.
    - RPC: decoders invert encoders (frames exactly when they have no empty label key and no negative limit,
      which the encoder does not ask for), accept only what validation allows, and never read outside their
      input; validation is characterised exactly; the transport delivers the messages that were sent, in
      order, and the reader never panics on arbitrary frames.

    ** Fuel

    Loops that are not structural take fuel that is proved, or by construction seen, to be enough: a walk
    over a linked list has one unit per stored node ([cancel_fuel], [walk_fuel], [find_fuel] for the chains
    of a map: the lists are acyclic by the invariant); the number of buckets is doubled at most 32 times,
    since it is a 32-bit word; [swap_fuel] is the number of bytes; [gcd_fuel64] covers Euclid's algorithm on 64-bit
    words, [exponent_fuel] the correction of an exponent estimate; [drain_fuel] is one more than the number
    of published objects, each of which is queued once, and [clean_fuel] the number of young slots; [chain_fuel] is two more than the number of nodes, which a
    chain of aliases meets at most once each, [reach_fuel] the number of references that can be queued,
    [exact_fuel] bounds the references a traversal can mark, and [parse_fuel] is three calls for each byte
    of a constraint; identity of types takes its fuel as an argument, since the code's recursion does not
    end on every table; [value_fuel] is the nesting limit that
    the decoder itself enforces; the loops of the scanner have no result when
    their fuel is used up, and [scan_loops_end] shows that one round more than the bytes ahead is enough; [format_fuel] is one more than
    the number of nodes, of which a printed path meets each once; the digit and limb loops take the length of their text.  The theorems
    state the result for the fuel the definitions use, never only for runs that end.

    ** Not modelled

    The rest of the front end (parser, semantic analysis, lowering, optimiser, emitter), the bytecode codec
    (mostly generated), the instruction loop and its frames, worker allocation batches, marking
    and sweeping by several workers, the path of map stores whose values need allocations of their own,
    slices, structs and reflection, timers, the debugger, endpoint sessions and routing (goroutines, deadlines, sockets), host
    bindings, tools and commands.  JSON forms of constants depend on [encoding/json].
    The generated tables of letters and digits, SHA-256 and the quoting verb of [fmt] are parameters of the
    scanner; views whose spans lie outside their file are not modelled.
    Minor collections are modelled but nothing is proved about their copy of the nursery.

    ** Plan

    Timers, the inline encoding of values, worker allocation batches, the parser
    of type references, and the endpoint's request bookkeeping. *)

From Stdlib Require Export ZArith Lia Bool Ascii String Znumtheory.
From stdpp Require Export base numbers list list_numbers option gmap strings sorting.

#[global] Open Scope Z_scope.
#[global] Set Default Goal Selector "!".

(** ** Go strings and byte slices

    A Go string or a [[]byte] is the list of its bytes, each a [Z] in [0, 256). *)

Abbreviation gostring := (list Z).

(** The bytes of a source literal. *)
Definition lit (s : string) : gostring :=
  map (fun c => Z.of_N (N_of_ascii c)) (list_ascii_of_string s).

Definition is_byte (c : Z) : Prop := 0 <= c < 256.

(** ** Results

    A Go function that returns [(value, error)] is a function to [result E A]. *)

Inductive result (E A : Type) : Type :=
| Ok (a : A)
| Err (e : E).
Arguments Ok {E A} a.
Arguments Err {E A} e.

Definition result_bind {E A B} (m : result E A) (f : A -> result E B) : result E B :=
  match m with Ok a => f a | Err e => Err e end.

Definition result_map_err {E F A} (f : E -> F) (m : result E A) : result F A :=
  match m with Ok a => Ok a | Err e => Err (f e) end.

Definition is_ok {E A} (m : result E A) : bool :=
  match m with Ok _ => true | Err _ => false end.

Declare Scope go_scope.
Delimit Scope go_scope with go.

Notation "'let?' x := m 'in' k" := (result_bind m (fun x => k))
  (at level 10, x binder, m at level 150, k at level 200,
   format "'[v' 'let?'  x  :=  m  'in' '/' k ']'") : go_scope.
#[global] Open Scope go_scope.

(** [early 'if' c 'return' e] is a Go guard with an early return of an error. *)
Definition guard_err {E} (c : bool) (e : E) : result E unit :=
  if c then Err e else Ok tt.

Lemma result_bind_ok {E A B} (m : result E A) (f : A -> result E B) b :
  result_bind m f = Ok b <-> exists a, m = Ok a /\ f a = Ok b.
Proof.
  destruct m as [a|e]; simpl; split.
  - intros H. eauto.
  - intros (a' & Ha & H). by injection Ha as ->.
  - discriminate.
  - intros (a' & Ha & _). discriminate.
Qed.

Lemma guard_err_ok {E} c (e : E) : guard_err c e = Ok tt <-> c = false.
Proof. destruct c; simpl; split; congruence. Qed.

(** ** Automation *)

(** [bool_lia] reflects the boolean comparisons of the hypotheses and the goal. *)
Ltac breflect :=
  repeat match goal with
  | H : (_ && _)%bool = true |- _ => apply andb_true_iff in H as [? ?]
  | H : (_ && _)%bool = false |- _ => apply andb_false_iff in H
  | H : (_ || _)%bool = true |- _ => apply orb_true_iff in H
  | H : (_ || _)%bool = false |- _ => apply orb_false_iff in H as [? ?]
  | H : negb _ = true |- _ => apply negb_true_iff in H
  | H : negb _ = false |- _ => apply negb_false_iff in H
  | H : (_ =? _) = true |- _ => apply Z.eqb_eq in H
  | H : (_ =? _) = false |- _ => apply Z.eqb_neq in H
  | H : (_ <? _) = true |- _ => apply Z.ltb_lt in H
  | H : (_ <? _) = false |- _ => apply Z.ltb_ge in H
  | H : (_ <=? _) = true |- _ => apply Z.leb_le in H
  | H : (_ <=? _) = false |- _ => apply Z.leb_gt in H
  end.

(** [case_if] splits on the condition of an [if] on a boolean and keeps the equation. *)
Ltac case_if :=
  match goal with
  | |- context [if ?b then _ else _] =>
      lazymatch type of b with
      | bool => let E := fresh "Hif" in destruct b eqn:E; breflect
      | _ => case_decide
      end
  end.

(** [opt_simpl] reduces the option combinators and nothing else. *)
Tactic Notation "opt_simpl" := cbn [fmap option_fmap option_map default from_option mbind option_bind id].
Tactic Notation "opt_simpl" "in" hyp(H) := cbn [fmap option_fmap option_map default from_option mbind option_bind id] in H.

(** [inv_result] decomposes a hypothesis that a chain of binds succeeded. *)
Ltac inv_result H :=
  repeat match type of H with
  | result_bind _ _ = Ok _ =>
      let a := fresh "a" in let Ha := fresh "Hm" in
      apply result_bind_ok in H as (a & Ha & H)
  end.

Create HintDb go.
#[export] Hint Resolve Z.mod_pos_bound : go.
#[export] Hint Extern 5 (_ <= _) => lia : go.
#[export] Hint Extern 5 (_ < _) => lia : go.

(** ** Generic lemmas on lists *)

Lemma Forall_rev_iff {A} (P : A -> Prop) l : Forall P (rev l) <-> Forall P l.
Proof.
  split; intros H; [rewrite <- (rev_involutive l)|]; by apply List.Forall_rev.
Qed.

Lemma rev_nil_iff {A} (l : list A) : rev l = [] <-> l = [].
Proof.
  split; [|by intros ->]. intros H.
  rewrite <- (rev_involutive l), H. done.
Qed.

Lemma length_rev' {A} (l : list A) : length (rev l) = length l.
Proof. apply List.length_rev. Qed.

Lemma list_last_split {A} (l : list A) :
  l <> [] -> exists l' x, l = l' ++ [x].
Proof.
  intros H. destruct (List.exists_last H) as (l' & x & ->). eauto.
Qed.

(** Dropping the leading elements that satisfy a test. *)
Fixpoint drop_while {A} (f : A -> bool) (l : list A) : list A :=
  match l with
  | [] => []
  | x :: l' => if f x then drop_while f l' else l
  end.

Lemma drop_while_hd {A} (f : A -> bool) l x l' :
  drop_while f l = x :: l' -> f x = false.
Proof.
  induction l as [|y l IH]; simpl; [discriminate|].
  destruct (f y) eqn:E; [exact IH|]. intros H. by injection H as -> _.
Qed.

Lemma drop_while_suffix {A} (f : A -> bool) l :
  exists k, l = k ++ drop_while f l /\ Forall (fun x => f x = true) k.
Proof.
  induction l as [|y l (k & IH & Hk)]; simpl; [by exists []|].
  destruct (f y) eqn:E.
  - exists (y :: k). simpl. rewrite <- IH. auto.
  - exists []. auto.
Qed.

Lemma drop_while_Forall {A} (P : A -> Prop) (f : A -> bool) l :
  Forall P l -> Forall P (drop_while f l).
Proof.
  intros H. destruct (drop_while_suffix f l) as (k & E & _).
  rewrite E in H. by apply Forall_app in H as [_ ?].
Qed.

Lemma drop_while_id {A} (f : A -> bool) x l :
  f x = false -> drop_while f (x :: l) = x :: l.
Proof. simpl. by intros ->. Qed.

Lemma forallb_Forall {A} (f : A -> bool) l :
  forallb f l = true <-> Forall (fun x => f x = true) l.
Proof. rewrite forallb_forall, List.Forall_forall. done. Qed.

Lemma drop_S_app {A} (a : list A) c b : drop (S (length a)) (a ++ c :: b) = b.
Proof. induction a as [|x a IH]; [done|exact IH]. Qed.

Lemma last_In {A} (l : list A) d : l <> [] -> In (List.last l d) l.
Proof.
  intros H. rewrite (app_removelast_last d H) at 2. apply in_or_app. right. by left.
Qed.

Lemma list_filter_ext {A} (P Q : A -> Prop) `{forall x, Decision (P x)} `{forall x, Decision (Q x)} (l : list A) :
  (forall x, x ∈ l -> P x <-> Q x) -> filter P l = filter Q l.
Proof.
  induction l as [|y l IH]; [done|]. intros Hpq. rewrite !filter_cons, IH by (intros x Hx; apply Hpq; by right).
  specialize (Hpq y ltac:(left)). destruct (decide (P y)), (decide (Q y)); tauto.
Qed.

Lemma list_filter_true {A} (P : A -> Prop) `{forall x, Decision (P x)} (l : list A) : (forall x, x ∈ l -> P x) -> filter P l = l.
Proof.
  induction l as [|y l IH]; [done|]. intros Hp. rewrite filter_cons_True by (apply Hp; left). f_equal. apply IH. intros x Hx. apply Hp. by right.
Qed.

(** Removing one element of a list. *)
Lemma filter_absent {A} `{EqDecision A} (x : A) (l : list A) : x ∉ l -> filter (fun y : A => y <> x) l = l.
Proof.
  induction l as [|y l IH]; [done|]. rewrite not_elem_of_cons. intros [H1 H2]. rewrite filter_cons_True by congruence. by rewrite IH.
Qed.

Lemma filter_remove {A} `{EqDecision A} (x : A) (l1 l2 : list A) :
  NoDup (l1 ++ x :: l2) -> filter (fun y : A => y <> x) (l1 ++ x :: l2) = l1 ++ l2.
Proof.
  intros H. apply NoDup_app in H as (_ & H1 & H2). apply NoDup_cons in H2 as [H2 _].
  rewrite filter_app, filter_cons_False by congruence. rewrite !filter_absent; [done|done|].
  intros Hx. apply (H1 x Hx). left.
Qed.

(** ** Generic lemmas on [Z] *)

Lemma mod_unique_pos a b q r : 0 <= r < b -> a = b * q + r -> a mod b = r /\ a / b = q.
Proof.
  intros Hr Ha. split; symmetry.
  - apply Z.mod_unique_pos with q; lia.
  - apply Z.div_unique_pos with r; lia.
Qed.

Lemma div_bounds a b q : 0 < b -> b * q <= a < b * (q + 1) -> a / b = q.
Proof. intros Hb H. symmetry. apply Z.div_unique_pos with (a - b * q); lia. Qed.

Lemma div_mod_pos a b : 0 < b -> a = b * (a / b) + a mod b /\ 0 <= a mod b < b.
Proof. intros Hb. split; [apply Z.div_mod; lia | by apply Z.mod_pos_bound]. Qed.

Lemma div_lt_mul a b c : 0 < b -> a < b * c -> a / b < c.
Proof. intros. apply Z.div_lt_upper_bound; lia. Qed.

#[export] Hint Resolve div_lt_mul : go.
