(* ===== verification/GoStd.v ===== *)
(** * The Go language and standard library, as the modelled sources use them

    Machine integers with their wrap-around, [strings], [strconv], [unicode/utf8] and
    [encoding/binary].  Nothing here is code of the repository: these definitions state what
    the language and its library do, on byte lists, and prove the lemmas the components share. *)

From S2P Require Import Prelude.

(** ** Machine integers *)

Definition u8 (x : Z) : Z := x mod 2 ^ 8.
Definition u32 (x : Z) : Z := x mod 2 ^ 32.
Definition u64 (x : Z) : Z := x mod 2 ^ 64.
Definition i64 (x : Z) : Z := (x + 2 ^ 63) mod 2 ^ 64 - 2 ^ 63.
Definition maxUint64 : Z := 2 ^ 64 - 1.

Lemma u64_id x : 0 <= x < 2 ^ 64 -> u64 x = x.
Proof. apply Z.mod_small. Qed.

Lemma u8_id x : 0 <= x < 2 ^ 8 -> u8 x = x.
Proof. apply Z.mod_small. Qed.

Lemma u64_range x : 0 <= u64 x < 2 ^ 64.
Proof. apply Z.mod_pos_bound. lia. Qed.

Lemma i64_range x : - 2 ^ 63 <= i64 x < 2 ^ 63.
Proof. unfold i64. pose proof (Z.mod_pos_bound (x + 2 ^ 63) (2 ^ 64)). lia. Qed.

Lemma i64_id x : - 2 ^ 63 <= x < 2 ^ 63 -> i64 x = x.
Proof. intros H. unfold i64. rewrite Z.mod_small; lia. Qed.

#[export] Hint Resolve u64_range i64_range : go.

(** ** Decimal digits *)

Definition is_digit (c : Z) : bool := (48 <=? c) && (c <=? 57).

(** The number a string of decimal digits denotes, most significant first. *)
Definition dval (s : gostring) : Z := fold_left (fun a c => 10 * a + (c - 48)) s 0.

Definition digit_byte (c : Z) : Prop := 48 <= c <= 57.

Lemma is_digit_spec c : is_digit c = true <-> digit_byte c.
Proof. unfold is_digit, digit_byte. rewrite andb_true_iff, !Z.leb_le. done. Qed.

Lemma forallb_is_digit s : forallb is_digit s = true <-> Forall digit_byte s.
Proof.
  rewrite forallb_Forall. apply Forall_iff. intros c. apply is_digit_spec.
Qed.

Lemma fold_dval s a :
  fold_left (fun a c => 10 * a + (c - 48)) s a = a * 10 ^ Z.of_nat (length s) + dval s.
Proof.
  unfold dval. revert a. induction s as [|c s IH]; intros a; cbn [fold_left length].
  - rewrite Z.mul_1_r. lia.
  - rewrite (IH (10 * a + (c - 48))), (IH (10 * 0 + (c - 48))).
    rewrite Nat2Z.inj_succ, Z.pow_succ_r by lia. ring.
Qed.

Lemma dval_cons c s : dval (c :: s) = (c - 48) * 10 ^ Z.of_nat (length s) + dval s.
Proof. unfold dval. cbn [fold_left]. rewrite fold_dval. unfold dval. lia. Qed.

Lemma dval_app s t : dval (s ++ t) = dval s * 10 ^ Z.of_nat (length t) + dval t.
Proof. unfold dval at 1. rewrite fold_left_app. apply fold_dval. Qed.

Lemma dval_snoc s c : dval (s ++ [c]) = 10 * dval s + (c - 48).
Proof. rewrite dval_app, dval_cons. simpl length. rewrite Z.pow_0_r. unfold dval at 2. cbn. lia. Qed.

Lemma dval_bound s : Forall digit_byte s -> 0 <= dval s < 10 ^ Z.of_nat (length s).
Proof.
  induction 1 as [|c s Hc Hs IH]; [by cbn|].
  rewrite dval_cons. simpl length. rewrite Nat2Z.inj_succ, Z.pow_succ_r by lia.
  unfold digit_byte in Hc. nia.
Qed.

Lemma dval_zeros s : Forall (fun c => (c =? 48) = true) s -> dval s = 0.
Proof.
  induction 1 as [|c s Hc Hs IH]; [done|]. breflect. rewrite dval_cons, IH. subst. lia.
Qed.

(** A canonical unsigned decimal: "0", or digits that do not start with '0'. *)
Definition canonical (s : gostring) : Prop :=
  s = [48] \/ (exists c s', s = c :: s' /\ c <> 48 /\ Forall digit_byte s).

Lemma canonical_digits s : canonical s -> Forall digit_byte s.
Proof.
  intros [->|(c & s' & -> & _ & H)]; [|done].
  repeat constructor; unfold digit_byte; lia.
Qed.

Lemma canonical_nonempty s : canonical s -> s <> [].
Proof. intros [->|(c & s' & -> & _)]; done. Qed.

Lemma canonical_lower c s : c <> 48 -> Forall digit_byte (c :: s) ->
  10 ^ Z.of_nat (length s) <= dval (c :: s).
Proof.
  intros Hc H. inversion H as [|? ? Hd Hs]; subst. rewrite dval_cons.
  pose proof (dval_bound _ Hs). unfold digit_byte in Hd. nia.
Qed.

Lemma canonical_pos s : canonical s -> s <> [48] -> 0 < dval s.
Proof.
  intros [->|(c & s' & -> & Hc & H)] Hs; [done|].
  pose proof (canonical_lower _ _ Hc H). lia.
Qed.

Lemma canonical_zero s : canonical s -> dval s = 0 -> s = [48].
Proof.
  intros Hs H. destruct (decide (s = [48])) as [|Hn]; [done|].
  pose proof (canonical_pos s Hs Hn). lia.
Qed.

Lemma dval_length_lt s t :
  canonical s -> canonical t -> (length s < length t)%nat -> dval s < dval t.
Proof.
  intros Hs Ht Hlen. pose proof (dval_bound s (canonical_digits s Hs)) as Bs.
  destruct Ht as [->|(c & t' & -> & Hc & Ht)].
  - apply canonical_nonempty in Hs. destruct s; simpl in *; [done|lia].
  - pose proof (canonical_lower _ _ Hc Ht). simpl in Hlen.
    assert (10 ^ Z.of_nat (length s) <= 10 ^ Z.of_nat (length t')).
    { apply Z.pow_le_mono_r; lia. }
    lia.
Qed.

Lemma dval_inj_same_length s t :
  Forall digit_byte s -> Forall digit_byte t -> length s = length t ->
  dval s = dval t -> s = t.
Proof.
  intros Hs. revert t. induction Hs as [|c s Hc Hs IH]; intros t Ht Hlen Hv.
  - by destruct t.
  - destruct t as [|d t]; [done|]. inversion Ht as [|? ? Hd Ht']; subst.
    injection Hlen as Hlen. rewrite !dval_cons, Hlen in Hv.
    pose proof (dval_bound s Hs) as B1. pose proof (dval_bound t Ht') as B2.
    rewrite Hlen in B1. unfold digit_byte in *.
    assert (c = d) as -> by nia. f_equal. apply IH; [done|done|]. lia.
Qed.

Lemma canonical_inj s t : canonical s -> canonical t -> dval s = dval t -> s = t.
Proof.
  intros Hs Ht Hv. apply dval_inj_same_length; [by apply canonical_digits..| |done].
  destruct (Nat.lt_trichotomy (length s) (length t)) as [H|[H|H]]; [|done|].
  - pose proof (dval_length_lt s t Hs Ht H). lia.
  - pose proof (dval_length_lt t s Ht Hs H). lia.
Qed.

(** ** [strconv] *)

Fixpoint format_loop (fuel : nat) (n : Z) (acc : gostring) : gostring :=
  match fuel with
  | O => acc
  | S fuel' =>
      if n <? 10 then (48 + n) :: acc
      else format_loop fuel' (n / 10) ((48 + n mod 10) :: acc)
  end.

(** [strconv.FormatUint(n, 10)]; the fuel is at least the number of decimal digits. *)
Definition FormatUint (n : Z) : gostring := format_loop (S (Z.to_nat (Z.log2 n))) n [].

(** [strconv.FormatInt(n, 10)] and [strconv.Itoa]. *)
Definition FormatInt (n : Z) : gostring :=
  if n <? 0 then 45 :: FormatUint (- n) else FormatUint n.

Lemma format_loop_canonical fuel n acc :
  0 <= n < 10 ^ Z.of_nat fuel -> (0 < fuel)%nat ->
  exists s, format_loop fuel n acc = s ++ acc /\ canonical s /\ dval s = n.
Proof.
  revert n acc. induction fuel as [|fuel IH]; intros n acc Hn Hf; [lia|].
  cbn [format_loop]. case_if.
  - exists [48 + n]. split; [done|]. split; [|unfold dval; cbn; lia].
    destruct (decide (n = 0)) as [->|]; [by left|].
    right. exists (48 + n), []. repeat split; [lia|].
    repeat constructor; unfold digit_byte; lia.
  - rewrite Nat2Z.inj_succ, Z.pow_succ_r in Hn by lia.
    pose proof (div_mod_pos n 10 ltac:(lia)) as [Hdm Hmod].
    assert (0 <= n / 10 < 10 ^ Z.of_nat fuel) as Hq.
    { split; [apply Z.div_pos; lia|]. apply Z.div_lt_upper_bound; lia. }
    destruct fuel as [|fuel']; [simpl in Hq; lia|].
    destruct (IH (n / 10) ((48 + n mod 10) :: acc) Hq ltac:(lia)) as (s & -> & Hs & Hv).
    exists (s ++ [48 + n mod 10]). split; [by rewrite <- app_assoc|].
    split; [|rewrite dval_snoc; lia].
    assert (digit_byte (48 + n mod 10)) by (unfold digit_byte; lia).
    destruct Hs as [->|(c & s' & -> & Hc & Hd)].
    + unfold dval in Hv. cbn in Hv. lia.
    + right. exists c, (s' ++ [48 + n mod 10]). split; [done|]. split; [done|].
      change (Forall digit_byte ((c :: s') ++ [48 + n mod 10])). apply Forall_app; auto.
Qed.

Lemma log2_fuel n : 0 <= n -> n < 10 ^ Z.of_nat (S (Z.to_nat (Z.log2 n))).
Proof.
  intros Hn. rewrite Nat2Z.inj_succ, Z2Nat.id by apply Z.log2_nonneg.
  destruct (decide (n = 0)) as [->|]; [reflexivity|].
  pose proof (Z.log2_spec n ltac:(lia)).
  assert (2 ^ Z.succ (Z.log2 n) <= 10 ^ Z.succ (Z.log2 n)).
  { apply Z.pow_le_mono_l. pose proof (Z.log2_nonneg n). lia. }
  lia.
Qed.

Lemma FormatUint_spec n : 0 <= n -> canonical (FormatUint n) /\ dval (FormatUint n) = n.
Proof.
  intros Hn. unfold FormatUint.
  destruct (format_loop_canonical (S (Z.to_nat (Z.log2 n))) n [])
    as (s & E & Hs & Hv); [split; [done|by apply log2_fuel]|lia|].
  rewrite E, app_nil_r. done.
Qed.

Lemma FormatUint_canonical n : 0 <= n -> canonical (FormatUint n).
Proof. apply FormatUint_spec. Qed.

Lemma dval_FormatUint n : 0 <= n -> dval (FormatUint n) = n.
Proof. apply FormatUint_spec. Qed.

Lemma FormatUint_dval s : canonical s -> FormatUint (dval s) = s.
Proof.
  intros Hs. pose proof (dval_bound s (canonical_digits s Hs)).
  apply canonical_inj; [by apply FormatUint_canonical; lia|done|].
  apply dval_FormatUint. lia.
Qed.

Lemma canonical_eq_Format s n : canonical s -> dval s = n -> s = FormatUint n.
Proof. intros Hs <-. by rewrite FormatUint_dval. Qed.

#[export] Hint Resolve FormatUint_canonical canonical_digits canonical_nonempty : go.

(** The digit value of a byte for [strconv.ParseUint]: digits, then letters of either case. *)
Definition parse_digit (c : Z) : option Z :=
  if (48 <=? c) && (c <=? 57) then Some (c - 48)
  else if (97 <=? c) && (c <=? 122) then Some (c - 97 + 10)
  else if (65 <=? c) && (c <=? 90) then Some (c - 65 + 10)
  else None.

Fixpoint parse_uint_loop (base : Z) (s : gostring) (n : Z) : option Z :=
  match s with
  | [] => Some n
  | c :: s' =>
      match parse_digit c with
      | None => None
      | Some d =>
          if base <=? d then None
          else if maxUint64 / base + 1 <=? n then None
          else let n1 := n * base + d in
               if maxUint64 <? n1 then None else parse_uint_loop base s' n1
      end
  end.

(** [strconv.ParseUint(s, base, 64)] with a base that is not 0: the value, or any error. *)
Definition ParseUint (s : gostring) (base : Z) : option Z :=
  match s with [] => None | _ => parse_uint_loop base s 0 end.

(** [strconv.ParseInt(s, 10, 64)]. *)
Definition ParseInt (s : gostring) : option Z :=
  match s with
  | [] => None
  | c :: s' =>
      let neg := c =? 45 in
      let digits := if (c =? 43) || (c =? 45) then s' else s in
      match ParseUint digits 10 with
      | None => None
      | Some un =>
          if negb neg && (2 ^ 63 <=? un) then None
          else if neg && (2 ^ 63 <? un) then None
          else Some (if neg then i64 (- i64 un) else i64 un)
      end
  end.

Lemma parse_digit_dec c : digit_byte c -> parse_digit c = Some (c - 48).
Proof.
  intros H. unfold parse_digit, digit_byte in *.
  destruct ((48 <=? c) && (c <=? 57)) eqn:E; [done|]. breflect. destruct E; breflect; lia.
Qed.

Lemma parse_uint_loop_dec s n :
  Forall digit_byte s -> 0 <= n <= maxUint64 ->
  parse_uint_loop 10 s n =
    let v := n * 10 ^ Z.of_nat (length s) + dval s in
    if maxUint64 <? v then None else Some v.
Proof.
  intros Hs. revert n. induction Hs as [|c s Hc Hs IH]; intros n Hn; cbn [parse_uint_loop length].
  - cbn zeta. rewrite Z.pow_0_r. unfold dval. cbn [fold_left].
    destruct (maxUint64 <? n * 1 + 0) eqn:E; breflect; [lia|f_equal; lia].
  - rewrite parse_digit_dec by done. pose proof (dval_bound s Hs) as Hb.
    rewrite Nat2Z.inj_succ, Z.pow_succ_r by lia. rewrite dval_cons.
    set (p := 10 ^ Z.of_nat (length s)) in *.
    assert (0 < p) by (apply Z.pow_pos_nonneg; lia). unfold digit_byte in Hc.
    destruct (10 <=? c - 48) eqn:E1; breflect; [lia|]. cbn zeta.
    destruct (maxUint64 / 10 + 1 <=? n) eqn:E2; breflect.
    { assert (maxUint64 / 10 = 1844674407370955161) by reflexivity.
      assert (maxUint64 = 18446744073709551615) by reflexivity.
      case_if; [done|]. nia. }
    destruct (maxUint64 <? n * 10 + (c - 48)) eqn:E3; breflect.
    { case_if; [done|]. nia. }
    rewrite IH by lia. cbn zeta.
    replace (n * (10 * p) + ((c - 48) * p + dval s))
      with ((n * 10 + (c - 48)) * p + dval s) by ring.
    done.
Qed.

(** On decimal digits [ParseUint] is the denoted number, exactly when it fits 64 bits. *)
Lemma ParseUint_digits s :
  Forall digit_byte s -> s <> [] ->
  ParseUint s 10 = if maxUint64 <? dval s then None else Some (dval s).
Proof.
  intros Hs Hne. unfold ParseUint. destruct s as [|c s]; [done|].
  rewrite parse_uint_loop_dec by (done || unfold maxUint64; lia). cbn zeta.
  by rewrite Z.mul_0_l, Z.add_0_l.
Qed.

Lemma ParseUint_FormatUint n :
  0 <= n -> ParseUint (FormatUint n) 10 = if maxUint64 <? n then None else Some n.
Proof.
  intros Hn. rewrite ParseUint_digits by auto with go. by rewrite dval_FormatUint.
Qed.

Lemma digits_hd_not_sign c s : Forall digit_byte (c :: s) -> (c =? 43) = false /\ (c =? 45) = false.
Proof.
  intros H. inversion H; subst. unfold digit_byte in *. rewrite !Z.eqb_neq. lia.
Qed.

Lemma ParseInt_FormatInt z :
  ParseInt (FormatInt z) =
    if (- 2 ^ 63 <=? z) && (z <? 2 ^ 63) then Some z else None.
Proof.
  unfold FormatInt. destruct (z <? 0) eqn:Ez; breflect.
  - unfold ParseInt. cbn [Z.eqb Pos.eqb orb]. rewrite ParseUint_FormatUint by lia.
    change (45 =? 45) with true. change (45 =? 43) with false. cbn [orb negb andb].
    destruct (maxUint64 <? - z) eqn:E1; breflect.
    { unfold maxUint64 in *. destruct (- 2 ^ 63 <=? z) eqn:E; breflect; [lia|done]. }
    destruct (2 ^ 63 <? - z) eqn:E2; breflect.
    { destruct (- 2 ^ 63 <=? z) eqn:E; breflect; [lia|done]. }
    destruct (- 2 ^ 63 <=? z) eqn:E3; breflect; [|lia].
    destruct (z <? 2 ^ 63) eqn:E4; breflect; [|lia]. cbn [andb]. f_equal.
    destruct (decide (- z = 2 ^ 63)) as [H|H].
    + assert (z = - 2 ^ 63) by lia. subst z. reflexivity.
    + rewrite (i64_id (- z)) by lia. rewrite i64_id; lia.
  - pose proof (FormatUint_spec z ltac:(lia)) as [Hc Hv].
    pose proof (canonical_digits _ Hc) as Hd. unfold ParseInt.
    destruct (FormatUint z) as [|c s] eqn:E; [by apply canonical_nonempty in Hc|].
    destruct (digits_hd_not_sign c s Hd) as [-> ->]. cbn [orb negb andb].
    rewrite ParseUint_digits by done. rewrite Hv.
    destruct (- 2 ^ 63 <=? z) eqn:E3; breflect; [|lia]. cbn [andb].
    destruct (maxUint64 <? z) eqn:E1; breflect.
    { unfold maxUint64 in *. destruct (z <? 2 ^ 63) eqn:E5; breflect; [lia|done]. }
    destruct (2 ^ 63 <=? z) eqn:E2; breflect.
    { destruct (z <? 2 ^ 63) eqn:E5; breflect; [lia|done]. }
    destruct (z <? 2 ^ 63) eqn:E5; breflect; [|lia]. f_equal. apply i64_id. lia.
Qed.

(** ** [strings] *)

(** [strings.Compare]: lexicographic on bytes, -1, 0 or 1. *)
Fixpoint strings_Compare (s t : gostring) : Z :=
  match s, t with
  | [], [] => 0
  | [], _ :: _ => -1
  | _ :: _, [] => 1
  | a :: s', b :: t' => if a <? b then -1 else if b <? a then 1 else strings_Compare s' t'
  end.

Fixpoint HasPrefix (s p : gostring) {struct p} : bool :=
  match p, s with
  | [], _ => true
  | _ :: _, [] => false
  | b :: p', a :: s' => (a =? b) && HasPrefix s' p'
  end.

Definition TrimPrefix (s p : gostring) : gostring :=
  if HasPrefix s p then drop (length p) s else s.

Definition HasSuffix (s p : gostring) : bool := HasPrefix (rev s) (rev p).

(** [strings.ReplaceAll(s, c, "")] for a one-byte [c]. *)
Definition remove_byte (c : Z) (s : gostring) : gostring := List.filter (fun x => negb (x =? c)) s.

(** [strings.IndexByte], [None] standing for -1. *)
Fixpoint IndexByte (s : gostring) (c : Z) : option nat :=
  match s with
  | [] => None
  | x :: s' => if x =? c then Some O else option_map S (IndexByte s' c)
  end.

(** [strings.Contains(s, c)] for a one-byte [c]. *)
Definition ContainsByte (s : gostring) (c : Z) : bool :=
  match IndexByte s c with Some _ => true | None => false end.

(** [strings.IndexAny] and [strings.ContainsAny] for sets of ASCII characters. *)
Fixpoint IndexAny (s cs : gostring) : option nat :=
  match s with
  | [] => None
  | x :: s' => if existsb (Z.eqb x) cs then Some O else option_map S (IndexAny s' cs)
  end.

Definition ContainsAny (s cs : gostring) : bool :=
  match IndexAny s cs with Some _ => true | None => false end.

(** [strings.Repeat(s, n)] for a count that is not negative. *)
Definition strings_Repeat (s : gostring) (n : Z) : gostring := concat (replicate (Z.to_nat n) s).

(** The number of bytes of the white-space character (Unicode [White_Space]) the string starts
    with, 0 when it starts with none. *)
Definition space_prefix (s : gostring) : nat :=
  match s with
  | c :: s1 =>
      if ((9 <=? c) && (c <=? 13)) || (c =? 32) then 1%nat
      else match s1 with
      | d :: s2 =>
          if (c =? 194) && ((d =? 133) || (d =? 160)) then 2%nat
          else match s2 with
          | e :: _ =>
              if ((c =? 225) && (d =? 154) && (e =? 128))
                 || ((c =? 226) && (d =? 128) &&
                     (((128 <=? e) && (e <=? 138)) || (e =? 168) || (e =? 169) || (e =? 175)))
                 || ((c =? 226) && (d =? 129) && (e =? 159))
                 || ((c =? 227) && (d =? 128) && (e =? 128))
              then 3%nat else O
          | [] => O
          end
      | [] => O
      end
  | [] => O
  end.

(** The same for the white-space character a string ends with; the argument is the reversed
    string. *)
Definition space_suffix (r : gostring) : nat :=
  match r with
  | e :: r1 =>
      if ((9 <=? e) && (e <=? 13)) || (e =? 32) then 1%nat
      else match r1 with
      | d :: r2 =>
          if (space_prefix [d; e] =? 2)%nat then 2%nat
          else match r2 with
          | c :: _ => if (space_prefix [c; d; e] =? 3)%nat then 3%nat else O
          | [] => O
          end
      | [] => O
      end
  | [] => O
  end.

Fixpoint trim_by (sp : gostring -> nat) (fuel : nat) (s : gostring) : gostring :=
  match fuel with
  | O => s
  | S fuel' => match sp s with O => s | n => trim_by sp fuel' (drop n s) end
  end.

(** [strings.TrimSpace]: every white-space character has at least one byte, so the length of the
    string bounds the number of characters removed on each side. *)
Definition TrimSpace (s : gostring) : gostring :=
  let l := trim_by space_prefix (length s) s in
  rev (trim_by space_suffix (length l) (rev l)).

(** A byte that starts and ends no white-space character. *)
Definition solid (c : Z) : Prop := 32 < c < 128.

Lemma solid_space_prefix c s : solid c -> space_prefix (c :: s) = O.
Proof.
  unfold solid. intros H. cbn [space_prefix].
  assert (((9 <=? c) && (c <=? 13)) = false) as ->.
  { apply andb_false_iff. right. apply Z.leb_gt. lia. }
  assert ((c =? 32) = false) as -> by (apply Z.eqb_neq; lia). cbn [orb].
  destruct s as [|d s]; [done|].
  assert ((c =? 194) = false) as -> by (apply Z.eqb_neq; lia). cbn [andb].
  destruct s as [|e s]; [done|].
  assert ((c =? 225) = false) as -> by (apply Z.eqb_neq; lia).
  assert ((c =? 226) = false) as -> by (apply Z.eqb_neq; lia).
  assert ((c =? 227) = false) as -> by (apply Z.eqb_neq; lia). done.
Qed.

Lemma solid_not_continuation c : solid c ->
  ((9 <=? c) && (c <=? 13)) || (c =? 32) = false /\
  (forall d, space_prefix [d; c] = 2%nat -> False) /\
  (forall d e, space_prefix [d; e; c] = 3%nat -> False).
Proof.
  unfold solid. intros H. repeat split.
  - apply orb_false_iff. split; [apply andb_false_iff; right; apply Z.leb_gt; lia|].
    apply Z.eqb_neq. lia.
  - intros d. cbn [space_prefix].
    assert ((c =? 133) = false) as -> by (apply Z.eqb_neq; lia).
    assert ((c =? 160) = false) as -> by (apply Z.eqb_neq; lia).
    cbn [orb]. rewrite andb_false_r. by repeat case_if.
  - intros d e. cbn [space_prefix].
    assert ((c =? 128) = false) as -> by (apply Z.eqb_neq; lia).
    assert ((c =? 159) = false) as -> by (apply Z.eqb_neq; lia).
    assert ((c =? 168) = false) as -> by (apply Z.eqb_neq; lia).
    assert ((c =? 169) = false) as -> by (apply Z.eqb_neq; lia).
    assert ((c =? 175) = false) as -> by (apply Z.eqb_neq; lia).
    assert ((128 <=? c) = false) as -> by (apply Z.leb_gt; lia).
    cbn [orb andb]. rewrite !andb_false_r. cbn [orb]. by repeat case_if.
Qed.

Lemma solid_space_suffix c s : solid c -> space_suffix (c :: s) = O.
Proof.
  intros H. destruct (solid_not_continuation c H) as (H1 & H2 & H3).
  cbn [space_suffix]. rewrite H1. destruct s as [|d s]; [done|].
  destruct (space_prefix [d; c] =? 2)%nat eqn:E2.
  { apply Nat.eqb_eq in E2. by apply H2 in E2. }
  destruct s as [|e s]; [done|].
  destruct (space_prefix [e; d; c] =? 3)%nat eqn:E3; [|done].
  apply Nat.eqb_eq in E3. by apply H3 in E3.
Qed.

Lemma trim_by_stop sp fuel s : sp s = O -> trim_by sp fuel s = s.
Proof. destruct fuel; [done|]. simpl. by intros ->. Qed.

(** [TrimSpace] keeps a string whose first and last bytes are neither white space nor part of a
    multi-byte character. *)
Lemma TrimSpace_solid c t :
  solid c -> solid (List.last (c :: t) 0) -> TrimSpace (c :: t) = c :: t.
Proof.
  intros Hc Hd. unfold TrimSpace.
  rewrite (trim_by_stop space_prefix) by (by apply solid_space_prefix). cbn zeta.
  rewrite trim_by_stop; [apply rev_involutive|].
  rewrite (app_removelast_last 0 (l := c :: t)) by done. rewrite rev_unit.
  by apply solid_space_suffix.
Qed.

Lemma trim_by_sublist sp fuel s : exists k, s = k ++ trim_by sp fuel s.
Proof.
  revert s. induction fuel as [|fuel IH]; intros s; simpl; [by exists []|].
  destruct (sp s) as [|n]; [by exists []|].
  destruct (IH (drop (S n) s)) as (k & Hk). exists (take (S n) s ++ k).
  rewrite <- app_assoc, <- Hk. by rewrite take_drop.
Qed.

Lemma strings_Compare_refl s : strings_Compare s s = 0.
Proof. induction s as [|a s IH]; simpl; [done|]. by rewrite Z.ltb_irrefl. Qed.

Lemma strings_Compare_eq s t : strings_Compare s t = 0 <-> s = t.
Proof.
  split; [|intros ->; apply strings_Compare_refl].
  revert t. induction s as [|a s IH]; intros [|b t]; simpl; try done.
  repeat case_if; try done. intros H. f_equal; [lia|by apply IH].
Qed.

Lemma strings_Compare_antisym s t : strings_Compare t s = - strings_Compare s t.
Proof.
  revert t. induction s as [|a s IH]; intros [|b t]; simpl; try done.
  destruct (Z.ltb_spec a b), (Z.ltb_spec b a); done || lia || apply IH.
Qed.

(** On digit strings of one length the order of bytes is the order of numbers. *)
Lemma strings_Compare_digits s t :
  Forall digit_byte s -> Forall digit_byte t -> length s = length t ->
  strings_Compare s t = Z.sgn (dval s - dval t).
Proof.
  intros Hs. revert t. induction Hs as [|c s Hc Hs IH]; intros [|d t] Ht Hlen; try done.
  inversion Ht as [|? ? Hd Ht']; subst. injection Hlen as Hlen.
  pose proof (dval_bound s Hs) as B1. pose proof (dval_bound t Ht') as B2.
  cbn [strings_Compare]. rewrite !dval_cons, Hlen. rewrite Hlen in B1.
  set (p := 10 ^ Z.of_nat (length t)) in *. unfold digit_byte in *.
  case_if; [symmetry; apply Z.sgn_neg; nia|].
  case_if; [symmetry; apply Z.sgn_pos; nia|].
  assert (c = d) as -> by lia. rewrite IH by done. f_equal. lia.
Qed.

Lemma HasPrefix_spec s p : HasPrefix s p = true <-> exists t, s = p ++ t.
Proof.
  revert s. induction p as [|b p IH]; intros s; simpl.
  - split; [intros _; by exists s|done].
  - destruct s as [|a s]; [split; [done|by intros (? & ?)]|].
    rewrite andb_true_iff, Z.eqb_eq, IH. split.
    + intros [-> (t & ->)]. by exists t.
    + intros (t & H). injection H as -> ->. eauto.
Qed.

Lemma HasPrefix_app p t : HasPrefix (p ++ t) p = true.
Proof. apply HasPrefix_spec. eauto. Qed.

Lemma TrimPrefix_app p t : TrimPrefix (p ++ t) p = t.
Proof. unfold TrimPrefix. rewrite HasPrefix_app. apply drop_app_length. Qed.

Lemma TrimPrefix_not s p : HasPrefix s p = false -> TrimPrefix s p = s.
Proof. unfold TrimPrefix. by intros ->. Qed.
