(* ===== verification/Decimal.v ===== *)
(** * Exact decimal integers (src/compiler/constant/decimal.go)

    The compiler keeps an integer constant of any size as its decimal text.  This file models
    the normalisation, the comparison and the digit-by-digit addition, subtraction, negation and
    halving; [DecimalLimbs], [DecimalArith] and [DecimalBits] model the routines that work on
    base-10^9 limbs and on bit lists.

    Every operation is characterised for every input string through [dec_int] and [dec_nat], the
    number a text denotes: an operation succeeds exactly when its operands denote numbers, and
    its result is then the canonical text [FormatInt] of the number the operation means. *)

From S2P Require Import Prelude GoStd.

(** ** Normalisation *)

(** The guard in front of [strings.TrimSpace]. *)
Definition trimDecimal (text : gostring) : gostring :=
  match text with
  | [] => text
  | c :: _ =>
      let d := List.last text 0 in
      if (c <=? 32) || (d <=? 32) || (128 <=? c) || (128 <=? d) then TrimSpace text else text
  end.

Definition normalizeUnsignedDecimal (text : gostring) : option gostring :=
  let text := trimDecimal text in
  if decide (text = []) then None
  else
    let rest := drop_while (Z.eqb 48) text in
    if decide (rest = []) then Some (lit "0")
    else if forallb is_digit rest then Some rest else None.

Definition NormalizeSignedDecimal (text : gostring) : option gostring :=
  match trimDecimal text with
  | [] => None
  | c :: t =>
      let sign := if c =? 45 then lit "-" else [] in
      let text := if (c =? 43) || (c =? 45) then t else c :: t in
      match normalizeUnsignedDecimal text with
      | None => None
      | Some unsigned =>
          if decide (unsigned = lit "0") then Some (lit "0") else Some (sign ++ unsigned)
      end
  end.

Definition SignedDecimalInt64 (text : gostring) : option Z :=
  match NormalizeSignedDecimal text with
  | None => None
  | Some text => ParseInt text
  end.

(** ** Comparison *)

Definition compareCanonicalDecimal (left right : gostring) : Z :=
  if (length left <? length right)%nat then -1
  else if (length right <? length left)%nat then 1
  else strings_Compare left right.

Definition CompareUnsignedDecimal (left right : gostring) : Z :=
  match normalizeUnsignedDecimal left, normalizeUnsignedDecimal right with
  | Some l, Some r => compareCanonicalDecimal l r
  | l, r => strings_Compare (default [] l) (default [] r)
  end.

Definition CompareSignedDecimal (left right : gostring) : Z :=
  match NormalizeSignedDecimal left, NormalizeSignedDecimal right with
  | Some l, Some r =>
      let leftNegative := HasPrefix l (lit "-") in
      let rightNegative := HasPrefix r (lit "-") in
      if leftNegative && negb rightNegative then -1
      else if negb leftNegative && rightNegative then 1
      else
        let comparison := compareCanonicalDecimal (TrimPrefix l (lit "-")) (TrimPrefix r (lit "-")) in
        if leftNegative then - comparison else comparison
  | l, r => strings_Compare (default [] l) (default [] r)
  end.

(** ** Addition, subtraction, negation *)

(** The loop of [addCanonicalDecimal]; the digits come least significant first, and the result
    is the output buffer before it is reversed.  One iteration runs while a digit or a carry is
    left, so the two lengths and one bound the iterations. *)
Fixpoint add_digits (fuel : nat) (l r : gostring) (carry : Z) : gostring :=
  match fuel with
  | O => []
  | S fuel' =>
      match l, r, carry with
      | [], [], 0 => []
      | _, _, _ =>
          let sum := carry + match l with [] => 0 | c :: _ => u8 (c - 48) end
                           + match r with [] => 0 | c :: _ => u8 (c - 48) end in
          u8 (48 + sum mod 10) :: add_digits fuel' (tail l) (tail r) (sum / 10)
      end
  end.

Definition addCanonicalDecimal (left right : gostring) : gostring :=
  rev (add_digits (S (length left + length right)) (rev left) (rev right) 0).

Definition AddUnsignedDecimal (left right : gostring) : gostring :=
  addCanonicalDecimal (default [] (normalizeUnsignedDecimal left))
                      (default [] (normalizeUnsignedDecimal right)).

(** The loop of [subtractCanonicalDecimal], least significant digit first. *)
Fixpoint sub_digits (l r : gostring) (borrow : Z) : gostring :=
  match l with
  | [] => []
  | c :: l' =>
      let difference := u8 (c - 48) - borrow - match r with [] => 0 | d :: _ => u8 (d - 48) end in
      if difference <? 0 then u8 (48 + (difference + 10)) :: sub_digits l' (tail r) 1
      else u8 (48 + difference) :: sub_digits l' (tail r) 0
  end.

(** Drops leading '0' bytes but keeps the last byte. *)
Fixpoint strip_zeros (s : gostring) : gostring :=
  match s with
  | c :: ((_ :: _) as s') => if c =? 48 then strip_zeros s' else s
  | _ => s
  end.

Definition subtractCanonicalDecimal (left right : gostring) : gostring :=
  strip_zeros (rev (sub_digits (rev left) (rev right) 0)).

Definition SubtractUnsignedDecimal (left right : gostring) : option gostring :=
  match normalizeUnsignedDecimal left, normalizeUnsignedDecimal right with
  | Some l, Some r =>
      if compareCanonicalDecimal l r <? 0 then None else Some (subtractCanonicalDecimal l r)
  | _, _ => None
  end.

Definition NegateSignedDecimal (text : gostring) : option gostring :=
  match NormalizeSignedDecimal text with
  | None => None
  | Some text =>
      if decide (text = lit "0") then Some (lit "0")
      else if HasPrefix text (lit "-") then Some (TrimPrefix text (lit "-"))
      else Some (lit "-" ++ text)
  end.

(** ["-" + text] unless the text is "0". *)
Definition withSign (negative : bool) (text : gostring) : gostring :=
  if negative && negb (bool_decide (text = lit "0")) then lit "-" ++ text else text.

Definition AddSignedDecimal (left right : gostring) : option gostring :=
  match NormalizeSignedDecimal left, NormalizeSignedDecimal right with
  | Some l, Some r =>
      let leftNegative := HasPrefix l (lit "-") in
      let rightNegative := HasPrefix r (lit "-") in
      let leftMagnitude := TrimPrefix l (lit "-") in
      let rightMagnitude := TrimPrefix r (lit "-") in
      if Bool.eqb leftNegative rightNegative then
        Some (withSign leftNegative (addCanonicalDecimal leftMagnitude rightMagnitude))
      else
        let comparison := compareCanonicalDecimal leftMagnitude rightMagnitude in
        if comparison =? 0 then Some (lit "0")
        else if 0 <? comparison then
          Some (withSign leftNegative (subtractCanonicalDecimal leftMagnitude rightMagnitude))
        else
          Some (withSign rightNegative (subtractCanonicalDecimal rightMagnitude leftMagnitude))
  | _, _ => None
  end.

Definition SubtractSignedDecimal (left right : gostring) : option gostring :=
  match NegateSignedDecimal right with
  | None => None
  | Some negated => AddSignedDecimal left negated
  end.

(** ** Halving *)

Fixpoint halve_digits (text : gostring) (carry : Z) : gostring :=
  match text with
  | [] => []
  | c :: text' =>
      let value := carry * 10 + u8 (c - 48) in
      u8 (48 + value / 2) :: halve_digits text' (value mod 2)
  end.

Definition HalveUnsignedDecimal (text : gostring) : gostring :=
  match normalizeUnsignedDecimal text with
  | None => lit "0"
  | Some text =>
      if decide (text = lit "0") then lit "0"
      else default [] (normalizeUnsignedDecimal (halve_digits text 0))
  end.

(** ** What a text denotes *)

Definition dec_nat (text : gostring) : option Z :=
  let t := TrimSpace text in
  if decide (t = []) then None else if forallb is_digit t then Some (dval t) else None.

Definition dec_int (text : gostring) : option Z :=
  match TrimSpace text with
  | [] => None
  | c :: t =>
      if c =? 45 then Z.opp <$> dec_nat t
      else if c =? 43 then dec_nat t
      else dec_nat (c :: t)
  end.

(** ** Lemmas: normalisation *)

Lemma trimDecimal_TrimSpace text : trimDecimal text = TrimSpace text.
Proof.
  unfold trimDecimal. destruct text as [|c t]; [done|]. cbn zeta.
  destruct (_ || _) eqn:E; [done|]. breflect. symmetry.
  apply TrimSpace_solid; unfold solid; lia.
Qed.

Lemma strip_leading_zeros t :
  Forall digit_byte t -> t <> [] ->
  dval (drop_while (Z.eqb 48) t) = dval t /\
  (drop_while (Z.eqb 48) t <> [] -> canonical (drop_while (Z.eqb 48) t)).
Proof.
  intros Ht Hne. destruct (drop_while_suffix (Z.eqb 48) t) as (k & E & Hk). split.
  - rewrite E at 2. rewrite dval_app, (dval_zeros k); [lia|].
    eapply Forall_impl; [exact Hk|]. intros c. rewrite !Z.eqb_eq. lia.
  - intros Hr. destruct (drop_while (Z.eqb 48) t) as [|c r] eqn:Er; [done|].
    right. exists c, r. split; [done|]. split.
    + apply drop_while_hd in Er. breflect. lia.
    + rewrite <- Er. by apply drop_while_Forall.
Qed.

Lemma forallb_digit_drop_zeros t :
  forallb is_digit (drop_while (Z.eqb 48) t) = forallb is_digit t.
Proof.
  induction t as [|c t IH]; [done|]. cbn [drop_while].
  destruct (48 =? c) eqn:E; [|done]. breflect. subst. by rewrite IH.
Qed.

Lemma normalizeUnsignedDecimal_spec text :
  normalizeUnsignedDecimal text = FormatUint <$> dec_nat text.
Proof.
  unfold normalizeUnsignedDecimal, dec_nat. rewrite trimDecimal_TrimSpace. cbn zeta.
  set (t := TrimSpace text). case_decide as Ht; [done|].
  rewrite <- (forallb_digit_drop_zeros t).
  destruct (forallb is_digit (drop_while (Z.eqb 48) t)) eqn:E; opt_simpl.
  - pose proof E as E'. rewrite forallb_digit_drop_zeros, forallb_is_digit in E'.
    destruct (strip_leading_zeros t E' Ht) as [Hv Hc]. case_decide as Hr; f_equal.
    + rewrite Hr in Hv. rewrite <- Hv. done.
    + apply canonical_eq_Format; [by apply Hc|done].
  - case_decide as Hr; [by rewrite Hr in E|done].
Qed.

Lemma dec_nat_nonneg text n : dec_nat text = Some n -> 0 <= n.
Proof.
  unfold dec_nat. case_decide as Ht; [done|]. destruct (forallb is_digit _) eqn:E; [|done].
  intros H. injection H as <-. apply forallb_is_digit in E.
  pose proof (dval_bound _ E). lia.
Qed.

Lemma FormatUint_zero_iff n : 0 <= n -> FormatUint n = lit "0" <-> n = 0.
Proof.
  intros Hn. split; [|by intros ->]. intros H.
  rewrite <- (dval_FormatUint n Hn), H. done.
Qed.

Lemma NormalizeSignedDecimal_spec text :
  NormalizeSignedDecimal text = FormatInt <$> dec_int text.
Proof.
  unfold NormalizeSignedDecimal, dec_int. rewrite trimDecimal_TrimSpace.
  destruct (TrimSpace text) as [|c t]; [done|]. cbn zeta.
  destruct (c =? 45) eqn:E45.
  - rewrite orb_true_r. rewrite normalizeUnsignedDecimal_spec.
    destruct (dec_nat t) as [n|] eqn:En; [|done]. opt_simpl. apply dec_nat_nonneg in En.
    unfold FormatInt. case_decide as Hz.
    + apply FormatUint_zero_iff in Hz; [|done]. by subst.
    + rewrite FormatUint_zero_iff in Hz by done.
      destruct (- n <? 0) eqn:Es; breflect; [|lia]. by rewrite Z.opp_involutive.
  - rewrite orb_false_r. destruct (c =? 43) eqn:E43; rewrite normalizeUnsignedDecimal_spec;
    (destruct (dec_nat _) as [n|] eqn:En; [|done]); opt_simpl; apply dec_nat_nonneg in En;
    unfold FormatInt; destruct (n <? 0) eqn:Es; breflect; try lia;
    case_decide as Hz; try done; by rewrite Hz.
Qed.

(** ** Lemmas: the canonical text of an integer *)

Lemma digits_no_minus s : Forall digit_byte s -> HasPrefix s (lit "-") = false.
Proof.
  intros H. destruct s as [|c s]; [done|].
  change (HasPrefix (c :: s) (lit "-")) with ((c =? 45) && true).
  by destruct (digits_hd_not_sign c s H) as [_ ->].
Qed.

Lemma HasPrefix_FormatInt z : HasPrefix (FormatInt z) (lit "-") = (z <? 0).
Proof.
  unfold FormatInt. destruct (z <? 0) eqn:E; breflect; [done|].
  apply digits_no_minus. auto with go.
Qed.

Lemma TrimPrefix_FormatInt z : TrimPrefix (FormatInt z) (lit "-") = FormatUint (Z.abs z).
Proof.
  unfold FormatInt. destruct (z <? 0) eqn:E; breflect.
  - rewrite Z.abs_neq by lia. apply (TrimPrefix_app (lit "-")).
  - rewrite TrimPrefix_not by (apply digits_no_minus; auto with go).
    by rewrite Z.abs_eq.
Qed.

Lemma FormatInt_nonneg n : 0 <= n -> FormatInt n = FormatUint n.
Proof. intros H. unfold FormatInt. destruct (n <? 0) eqn:E; breflect; [lia|done]. Qed.

Lemma FormatInt_neg n : n < 0 -> FormatInt n = lit "-" ++ FormatUint (- n).
Proof. intros H. unfold FormatInt. destruct (n <? 0) eqn:E; breflect; [done|lia]. Qed.

Lemma FormatInt_zero_iff z : FormatInt z = lit "0" <-> z = 0.
Proof.
  split; [|by intros ->]. intros H. destruct (Z.lt_ge_cases z 0).
  - by rewrite FormatInt_neg in H.
  - rewrite FormatInt_nonneg in H by lia. by apply FormatUint_zero_iff.
Qed.

Lemma withSign_Format neg n :
  0 <= n -> withSign neg (FormatUint n) = FormatInt (if neg then - n else n).
Proof.
  intros Hn. unfold withSign. destruct neg; cbn [andb]; [|by rewrite FormatInt_nonneg].
  case_bool_decide as Hz; cbn [negb].
  - apply FormatUint_zero_iff in Hz; [|done]. by subst.
  - rewrite FormatUint_zero_iff in Hz by done.
    rewrite FormatInt_neg by lia. by rewrite Z.opp_involutive.
Qed.

Lemma last_digit_solid c s : Forall digit_byte (c :: s) -> solid (List.last (c :: s) 0).
Proof.
  intros H. assert (digit_byte (List.last (c :: s) 0)) as Hd.
  { rewrite List.Forall_forall in H. apply H.
    rewrite (app_removelast_last 0 (l := c :: s)) at 2 by done.
    apply in_or_app. right. by left. }
  unfold solid, digit_byte in *. lia.
Qed.

Lemma TrimSpace_digits s : Forall digit_byte s -> TrimSpace s = s.
Proof.
  intros H. destruct s as [|c s]; [done|].
  apply TrimSpace_solid; [|by apply last_digit_solid].
  inversion H; subst. unfold solid, digit_byte in *. lia.
Qed.

Lemma TrimSpace_minus_digits c s : Forall digit_byte (c :: s) -> TrimSpace (45 :: c :: s) = 45 :: c :: s.
Proof.
  intros H. apply TrimSpace_solid; [unfold solid; lia|].
  change (List.last (45 :: c :: s) 0) with (List.last (c :: s) 0). by apply last_digit_solid.
Qed.

Lemma dec_nat_digits s : Forall digit_byte s -> s <> [] -> dec_nat s = Some (dval s).
Proof.
  intros H Hne. unfold dec_nat. rewrite TrimSpace_digits by done. cbn zeta.
  case_decide as He; [done|]. apply forallb_is_digit in H. by rewrite H.
Qed.

Lemma dec_nat_FormatUint n : 0 <= n -> dec_nat (FormatUint n) = Some n.
Proof.
  intros Hn. rewrite dec_nat_digits by auto with go. by rewrite dval_FormatUint.
Qed.

Lemma dec_int_digits s : Forall digit_byte s -> s <> [] -> dec_int s = Some (dval s).
Proof.
  intros H Hne. unfold dec_int. rewrite TrimSpace_digits by done.
  destruct s as [|c s]; [done|]. destruct (digits_hd_not_sign c s H) as [-> ->].
  by apply dec_nat_digits.
Qed.

Lemma dec_int_minus_digits s :
  Forall digit_byte s -> s <> [] -> dec_int (lit "-" ++ s) = Some (- dval s).
Proof.
  intros H Hne. destruct s as [|c s]; [done|]. unfold dec_int.
  change (lit "-" ++ c :: s) with (45 :: c :: s). rewrite TrimSpace_minus_digits by done.
  cbn -[dec_nat]. by rewrite dec_nat_digits.
Qed.

Lemma dec_int_FormatInt z : dec_int (FormatInt z) = Some z.
Proof.
  destruct (Z.lt_ge_cases z 0) as [Hz|Hz].
  - rewrite FormatInt_neg, dec_int_minus_digits by auto with go.
    rewrite dval_FormatUint by lia. f_equal. lia.
  - rewrite FormatInt_nonneg, dec_int_digits by auto with go. by rewrite dval_FormatUint.
Qed.

Lemma dec_int_FormatUint n : 0 <= n -> dec_int (FormatUint n) = Some n.
Proof. intros H. rewrite <- FormatInt_nonneg by done. apply dec_int_FormatInt. Qed.

Lemma Normalize_FormatInt z : NormalizeSignedDecimal (FormatInt z) = Some (FormatInt z).
Proof. by rewrite NormalizeSignedDecimal_spec, dec_int_FormatInt. Qed.

Lemma normalize_FormatUint n : 0 <= n -> normalizeUnsignedDecimal (FormatUint n) = Some (FormatUint n).
Proof. intros. by rewrite normalizeUnsignedDecimal_spec, dec_nat_FormatUint. Qed.

Lemma FormatInt_inj a b : FormatInt a = FormatInt b -> a = b.
Proof.
  intros H. assert (Some a = Some b) as E; [|by injection E].
  by rewrite <- !dec_int_FormatInt, H.
Qed.

(** ** Lemmas: the digit loops *)

Lemma compareCanonicalDecimal_spec a b :
  0 <= a -> 0 <= b ->
  compareCanonicalDecimal (FormatUint a) (FormatUint b) = Z.sgn (a - b).
Proof.
  intros Ha Hb. unfold compareCanonicalDecimal.
  pose proof (FormatUint_spec a Ha) as [Ca Va]. pose proof (FormatUint_spec b Hb) as [Cb Vb].
  destruct (Nat.ltb_spec (length (FormatUint a)) (length (FormatUint b))) as [H|H].
  { pose proof (dval_length_lt _ _ Ca Cb H). symmetry. apply Z.sgn_neg. lia. }
  destruct (Nat.ltb_spec (length (FormatUint b)) (length (FormatUint a))) as [H'|H'].
  { pose proof (dval_length_lt _ _ Cb Ca H'). symmetry. apply Z.sgn_pos. lia. }
  rewrite strings_Compare_digits by (auto with go || lia). by rewrite Va, Vb.
Qed.

(** The number of a digit string given least significant digit first. *)
Definition rval (s : gostring) : Z := dval (rev s).

Lemma rval_cons c s : rval (c :: s) = (c - 48) + 10 * rval s.
Proof. unfold rval. simpl rev. rewrite dval_snoc. lia. Qed.

Lemma rval_bound s : Forall digit_byte s -> 0 <= rval s < 10 ^ Z.of_nat (length s).
Proof.
  intros H. unfold rval. rewrite <- (length_rev' s). apply dval_bound.
  by apply Forall_rev_iff.
Qed.

Lemma u8_digit c : digit_byte c -> u8 (c - 48) = c - 48.
Proof. intros H. apply u8_id. unfold digit_byte in H. lia. Qed.

Definition top_nonzero (s : gostring) : Prop := s = [] \/ List.last s 0 <> 48.

Lemma add_digits_step fuel l r carry :
  ~ (l = [] /\ r = [] /\ carry = 0) ->
  add_digits (S fuel) l r carry =
    let sum := carry + match l with [] => 0 | c :: _ => u8 (c - 48) end
                     + match r with [] => 0 | c :: _ => u8 (c - 48) end in
    u8 (48 + sum mod 10) :: add_digits fuel (tail l) (tail r) (sum / 10).
Proof.
  intros H. destruct l, r; try done. cbn [add_digits].
  destruct carry; [by exfalso; apply H|done..].
Qed.

Lemma add_digits_done fuel : add_digits fuel [] [] 0 = [].
Proof. by destruct fuel. Qed.

(** The head digit of a number, 0 when none is left. *)
Lemma head_digit s :
  Forall digit_byte s ->
  exists d, match s with [] => 0 | c :: _ => u8 (c - 48) end = d /\ 0 <= d <= 9 /\
            rval s = d + 10 * rval (tail s) /\ Forall digit_byte (tail s).
Proof.
  intros H. destruct s as [|c s]; [exists 0; by repeat split|].
  inversion H as [|? ? Hc Hs]; subst. exists (c - 48). rewrite u8_digit, rval_cons by done.
  unfold digit_byte in Hc. repeat split; try done; lia.
Qed.

Lemma add_digits_val fuel l r carry :
  Forall digit_byte l -> Forall digit_byte r -> 0 <= carry <= 1 ->
  (length l < fuel)%nat -> (length r < fuel)%nat ->
  Forall digit_byte (add_digits fuel l r carry) /\
  rval (add_digits fuel l r carry) = rval l + rval r + carry.
Proof.
  revert l r carry. induction fuel as [|fuel IH]; intros l r carry Hl Hr Hc Fl Fr; [lia|].
  destruct (decide (l = [] /\ r = [] /\ carry = 0)) as [(-> & -> & ->)|Hn]; [done|].
  rewrite add_digits_step by done. cbn zeta.
  destruct (head_digit l Hl) as (a & -> & Ha & Va & Hl').
  destruct (head_digit r Hr) as (b & -> & Hb & Vb & Hr').
  pose proof (div_mod_pos (carry + a + b) 10 ltac:(lia)) as [Hdm Hm].
  assert (0 <= (carry + a + b) / 10 <= 1) as Hq by lia.
  rewrite u8_id by lia.
  destruct fuel as [|fuel'].
  { destruct l, r; simpl in Fl, Fr; try lia. cbn [add_digits]. split.
    - repeat constructor; unfold digit_byte; lia.
    - rewrite rval_cons. unfold rval in *. cbn in *. lia. }
  destruct (IH (tail l) (tail r) ((carry + a + b) / 10)) as [D V]; try done.
  { destruct l; simpl in *; lia. }
  { destruct r; simpl in *; lia. }
  split.
  - constructor; [unfold digit_byte; lia|done].
  - rewrite rval_cons, V. lia.
Qed.

Lemma top_nonzero_tail s : top_nonzero s -> top_nonzero (tail s).
Proof.
  intros [->|H]; [by left|]. destruct s as [|c [|d s]]; [by left|by left|]. by right.
Qed.

Lemma last_cons_nonempty (x d : Z) s : s <> [] -> List.last (x :: s) d = List.last s d.
Proof. by destruct s. Qed.

Lemma add_digits_top fuel l r carry :
  Forall digit_byte l -> Forall digit_byte r -> 0 <= carry <= 1 ->
  (length l < fuel)%nat -> (length r < fuel)%nat ->
  top_nonzero l -> top_nonzero r -> ~ (l = [] /\ r = [] /\ carry = 0) ->
  add_digits fuel l r carry <> [] /\ List.last (add_digits fuel l r carry) 0 <> 48.
Proof.
  revert l r carry. induction fuel as [|fuel IH]; intros l r carry Hl Hr Hc Fl Fr Tl Tr Hn; [lia|].
  rewrite add_digits_step by done. cbn zeta. split; [done|].
  destruct (head_digit l Hl) as (a & Ea & Ha & Va & Hl'). rewrite Ea.
  destruct (head_digit r Hr) as (b & Eb & Hb & Vb & Hr'). rewrite Eb.
  set (sum := carry + a + b) in *.
  pose proof (div_mod_pos sum 10 ltac:(lia)) as [Hdm Hm].
  rewrite u8_id by lia.
  destruct (decide (tail l = [] /\ tail r = [] /\ sum / 10 = 0)) as [(El & Er & Es)|Hn'].
  - rewrite El, Er, Es, add_digits_done. cbn [List.last].
    assert (sum <> 0); [|lia]. unfold sum.
    destruct l as [|c [|? ?]], r as [|d [|? ?]]; simpl in El, Er; try discriminate.
    + assert (carry <> 0) by (intros ->; by apply Hn). lia.
    + destruct Tr as [|Tr]; [done|]. cbn in Tr. rewrite u8_digit in Eb by (by inversion Hr).
      inversion Hr; unfold digit_byte in *; lia.
    + destruct Tl as [|Tl]; [done|]. cbn in Tl. rewrite u8_digit in Ea by (by inversion Hl).
      inversion Hl; unfold digit_byte in *; lia.
    + destruct Tl as [|Tl]; [done|]. cbn in Tl. rewrite u8_digit in Ea by (by inversion Hl).
      inversion Hl; unfold digit_byte in *; lia.
  - destruct (IH (tail l) (tail r) (sum / 10)) as [Ne La]; try done.
    + unfold sum in *. lia.
    + destruct fuel; [|destruct l; simpl in *; lia].
      destruct l, r; simpl in *; try lia. cbn in Hn'. unfold sum in *.
      exfalso. apply Hn'. repeat split; try done. lia.
    + destruct fuel; [|destruct r; simpl in *; lia].
      destruct l, r; simpl in *; try lia. cbn in Hn'. unfold sum in *.
      exfalso. apply Hn'. repeat split; try done. lia.
    + by apply top_nonzero_tail.
    + by apply top_nonzero_tail.
    + by rewrite last_cons_nonempty.
Qed.

Lemma last_rev_hd c s : List.last (rev (c :: s)) 0 = c.
Proof. simpl rev. by rewrite List.last_last. Qed.

Lemma canonical_top s : canonical s -> s <> [48] -> top_nonzero (rev s).
Proof.
  intros [->|(c & s' & -> & Hc & H)] Hs; [done|]. right. by rewrite last_rev_hd.
Qed.

Lemma canonical_of_top s :
  Forall digit_byte s -> s <> [] -> List.last s 0 <> 48 -> canonical (rev s).
Proof.
  intros Hd Hne Hl. right. destruct (list_last_split s Hne) as (s' & x & ->).
  rewrite List.last_last in Hl. rewrite rev_unit. exists x, (rev s').
  split; [done|]. split; [done|]. rewrite <- rev_unit. by apply Forall_rev_iff.
Qed.

(** Addition of canonical texts, one operand possibly "0". *)
Lemma add_digits_zero_l fuel c s :
  add_digits (S fuel) [48] (c :: s) 0 = add_digits (S fuel) [] (c :: s) 0.
Proof. by rewrite !add_digits_step by (by intros (? & ? & ?)). Qed.

Lemma add_digits_zero_r fuel c s :
  add_digits (S fuel) (c :: s) [48] 0 = add_digits (S fuel) (c :: s) [] 0.
Proof. by rewrite !add_digits_step by (by intros (? & ? & ?)). Qed.

Lemma add_digits_canonical fuel l r :
  canonical l -> canonical r -> (length l < S fuel)%nat -> (length r < S fuel)%nat ->
  canonical (rev (add_digits (S fuel) (rev l) (rev r) 0)) /\
  rval (add_digits (S fuel) (rev l) (rev r) 0) = dval l + dval r.
Proof.
  intros Hl Hr Fl Fr.
  pose proof (canonical_digits _ Hl) as Dl. pose proof (canonical_digits _ Hr) as Dr.
  apply Forall_rev_iff in Dl. apply Forall_rev_iff in Dr.
  rewrite <- length_rev' in Fl, Fr.
  destruct (add_digits_val (S fuel) (rev l) (rev r) 0 Dl Dr ltac:(lia) Fl Fr) as [D V].
  split; [|rewrite V; unfold rval; rewrite !rev_involutive; lia].
  destruct (decide (l = [48])) as [->|Zl], (decide (r = [48])) as [->|Zr].
  - left. change (rev [48]) with [48]. rewrite add_digits_step by (by intros (? & _)).
    cbn [tail]. by rewrite add_digits_done.
  - pose proof (canonical_top r Hr Zr) as Tr. change (rev [48]) with [48] in *.
    apply canonical_nonempty in Hr. rewrite <- rev_nil_iff in Hr.
    destruct (rev r) as [|c s] eqn:E; [done|]. rewrite add_digits_zero_l in *.
    apply canonical_of_top; [done|..]; apply add_digits_top; try done; try lia;
      first [by left | by intros (_ & ? & _) | by constructor | cbn; lia].
  - pose proof (canonical_top l Hl Zl) as Tl. change (rev [48]) with [48] in *.
    apply canonical_nonempty in Hl. rewrite <- rev_nil_iff in Hl.
    destruct (rev l) as [|c s] eqn:E; [done|]. rewrite add_digits_zero_r in *.
    apply canonical_of_top; [done|..]; apply add_digits_top; try done; try lia;
      first [by left | by intros (? & _) | by constructor | cbn; lia].
  - apply canonical_nonempty in Hl as Nl. rewrite <- rev_nil_iff in Nl.
    apply canonical_of_top; [done|..]; apply add_digits_top; try done; try lia;
      first [by apply canonical_top | by intros (? & _)].
Qed.

Lemma addCanonicalDecimal_spec a b :
  0 <= a -> 0 <= b -> addCanonicalDecimal (FormatUint a) (FormatUint b) = FormatUint (a + b).
Proof.
  intros Ha Hb. unfold addCanonicalDecimal.
  destruct (add_digits_canonical (length (FormatUint a) + length (FormatUint b))
              (FormatUint a) (FormatUint b)) as [C V]; try lia; auto with go.
  apply canonical_eq_Format; [done|]. unfold rval in V. rewrite V.
  by rewrite !dval_FormatUint.
Qed.

Lemma sub_digits_val l r borrow :
  Forall digit_byte l -> Forall digit_byte r -> 0 <= borrow <= 1 -> (length r <= length l)%nat ->
  exists bo, 0 <= bo <= 1 /\ Forall digit_byte (sub_digits l r borrow) /\
    length (sub_digits l r borrow) = length l /\
    rval (sub_digits l r borrow) = rval l - rval r - borrow + bo * 10 ^ Z.of_nat (length l).
Proof.
  intros Hl. revert r borrow. induction Hl as [|c l Hc Hl IH]; intros r borrow Hr Hb Hlen.
  - destruct r; [|simpl in Hlen; lia]. exists borrow. cbn. repeat split; try done; try lia.
  - destruct (head_digit r Hr) as (d & Ed & Hd & Vd & Hr'). cbn [sub_digits].
    rewrite Ed, u8_digit by done. unfold digit_byte in Hc.
    assert (length (tail r) <= length l)%nat as Hlen' by (destruct r; simpl in *; lia).
    rewrite rval_cons. simpl length. rewrite Nat2Z.inj_succ, Z.pow_succ_r by lia.
    case_if.
    + destruct (IH (tail r) 1 Hr' ltac:(lia) Hlen') as (bo & Hbo & D & L & V).
      exists bo. split; [done|]. rewrite u8_id by lia. split; [|split].
      * constructor; [unfold digit_byte; lia|done].
      * simpl. by rewrite L.
      * rewrite rval_cons, V, Vd. lia.
    + destruct (IH (tail r) 0 Hr' ltac:(lia) Hlen') as (bo & Hbo & D & L & V).
      exists bo. split; [done|]. rewrite u8_id by lia. split; [|split].
      * constructor; [unfold digit_byte; lia|done].
      * simpl. by rewrite L.
      * rewrite rval_cons, V, Vd. lia.
Qed.

Lemma strip_zeros_spec s :
  Forall digit_byte s -> s <> [] -> canonical (strip_zeros s) /\ dval (strip_zeros s) = dval s.
Proof.
  induction 1 as [|c s Hc Hs IH]; intros Hne; [done|].
  destruct s as [|d s].
  - split; [|done]. destruct (decide (c = 48)) as [->|]; [by left|].
    right. exists c, []. split; [done|]. split; [done|]. by constructor.
  - cbn [strip_zeros]. destruct (c =? 48) eqn:E; breflect.
    + destruct (IH ltac:(done)) as [C V]. split; [exact C|]. rewrite dval_cons.
      transitivity (dval (d :: s)); [exact V|]. lia.
    + split; [|done]. right. exists c, (d :: s). split; [done|]. split; [done|].
      by constructor.
Qed.

Lemma subtractCanonicalDecimal_spec a b :
  0 <= b <= a -> subtractCanonicalDecimal (FormatUint a) (FormatUint b) = FormatUint (a - b).
Proof.
  intros H. unfold subtractCanonicalDecimal.
  pose proof (FormatUint_spec a ltac:(lia)) as [Ca Va].
  pose proof (FormatUint_spec b ltac:(lia)) as [Cb Vb].
  pose proof (canonical_digits _ Ca) as Da. pose proof (canonical_digits _ Cb) as Db.
  assert (length (FormatUint b) <= length (FormatUint a))%nat as Hlen.
  { destruct (Nat.le_gt_cases (length (FormatUint b)) (length (FormatUint a))); [done|].
    pose proof (dval_length_lt _ _ Ca Cb ltac:(lia)). lia. }
  destruct (sub_digits_val (rev (FormatUint a)) (rev (FormatUint b)) 0)
    as (bo & Hbo & D & L & V); try (by apply Forall_rev_iff); [lia|by rewrite !length_rev'|].
  pose proof (rval_bound _ D) as B. rewrite L in B.
  unfold rval in V at 2 3. rewrite !rev_involutive, Va, Vb in V.
  assert (bo = 0) as -> by nia.
  set (out := sub_digits _ _ _) in *.
  destruct (strip_zeros_spec (rev out)) as [C V'].
  - by apply Forall_rev_iff.
  - rewrite rev_nil_iff. intros ->. apply canonical_nonempty in Ca.
    rewrite length_rev' in L. by destruct (FormatUint a).
  - apply canonical_eq_Format; [done|]. rewrite V'. unfold rval in V. lia.
Qed.

Lemma halve_digits_val text carry :
  Forall digit_byte text -> 0 <= carry <= 1 ->
  Forall digit_byte (halve_digits text carry) /\
  length (halve_digits text carry) = length text /\
  dval (halve_digits text carry) = (carry * 10 ^ Z.of_nat (length text) + dval text) / 2.
Proof.
  intros H. revert carry. induction H as [|c t Hc Ht IH]; intros carry Hcar.
  - cbn. split; [done|]. split; [done|]. rewrite Z.add_0_r, Z.mul_1_r. symmetry.
    apply Z.div_small. lia.
  - cbn [halve_digits]. rewrite u8_digit by done. unfold digit_byte in Hc.
    set (v := carry * 10 + (c - 48)).
    pose proof (div_mod_pos v 2 ltac:(lia)) as [Hdm Hm].
    destruct (IH (v mod 2) ltac:(lia)) as (D & L & V).
    rewrite u8_id by lia. split; [|split].
    + constructor; [unfold digit_byte; lia|done].
    + simpl. by rewrite L.
    + rewrite !dval_cons, L, V. simpl length. rewrite Nat2Z.inj_succ, Z.pow_succ_r by lia.
      set (p := 10 ^ Z.of_nat (length t)).
      replace (carry * (10 * p) + ((c - 48) * p + dval t))
        with ((v mod 2 * p + dval t) + (v / 2 * p) * 2) by (unfold v in *; nia).
      rewrite Z.div_add by lia. lia.
Qed.

Lemma HalveUnsignedDecimal_Format n :
  0 <= n -> HalveUnsignedDecimal (FormatUint n) = FormatUint (n / 2).
Proof.
  intros Hn. unfold HalveUnsignedDecimal. rewrite normalize_FormatUint by done.
  case_decide as Hz.
  - apply FormatUint_zero_iff in Hz; [|done]. by subst.
  - pose proof (FormatUint_spec n Hn) as [C Vn].
    destruct (halve_digits_val (FormatUint n) 0) as (D & L & V); [auto with go|lia|].
    rewrite normalizeUnsignedDecimal_spec, dec_nat_digits; [|done|].
    + opt_simpl. by rewrite V, Vn.
    + intros E. rewrite E in L. apply canonical_nonempty in C. by destruct (FormatUint n).
Qed.

(** ** The operations on arbitrary texts *)

(** The result of a binary operation on the numbers two texts denote. *)
Definition dec_op (f : Z -> Z -> Z) (left right : gostring) : option gostring :=
  match dec_int left, dec_int right with
  | Some a, Some b => Some (FormatInt (f a b))
  | _, _ => None
  end.

Lemma AddSigned_Format a b :
  AddSignedDecimal (FormatInt a) (FormatInt b) = Some (FormatInt (a + b)).
Proof.
  unfold AddSignedDecimal. rewrite !Normalize_FormatInt, !HasPrefix_FormatInt, !TrimPrefix_FormatInt.
  cbn zeta. rewrite compareCanonicalDecimal_spec by lia.
  destruct (Bool.eqb (a <? 0) (b <? 0)) eqn:E.
  - apply eqb_prop in E. rewrite addCanonicalDecimal_spec, withSign_Format by lia.
    do 2 f_equal. destruct (a <? 0) eqn:Ea; symmetry in E; breflect; lia.
  - apply eqb_false_iff in E.
    destruct (Z.sgn (Z.abs a - Z.abs b) =? 0) eqn:E0; breflect.
    { change (lit "0") with (FormatInt 0). do 2 f_equal. apply Z.sgn_null_iff in E0.
      destruct (a <? 0) eqn:Ea, (b <? 0) eqn:Eb; breflect; try done; lia. }
    destruct (0 <? Z.sgn (Z.abs a - Z.abs b)) eqn:E1; breflect.
    + apply Z.sgn_pos_iff in E1. rewrite subtractCanonicalDecimal_spec, withSign_Format by lia.
      do 2 f_equal. destruct (a <? 0) eqn:Ea, (b <? 0) eqn:Eb; breflect; try done; lia.
    + assert (Z.abs a < Z.abs b) by (destruct (Z.abs a - Z.abs b) eqn:Ed; simpl in *; lia).
      rewrite subtractCanonicalDecimal_spec, withSign_Format by lia.
      do 2 f_equal. destruct (a <? 0) eqn:Ea, (b <? 0) eqn:Eb; breflect; try done; lia.
Qed.

(** An operation that normalises its operands depends on the numbers they denote only. *)
Lemma AddSigned_spec left right : AddSignedDecimal left right = dec_op Z.add left right.
Proof.
  unfold dec_op. destruct (dec_int left) as [a|] eqn:Ea, (dec_int right) as [b|] eqn:Eb.
  - rewrite <- AddSigned_Format. unfold AddSignedDecimal.
    rewrite !NormalizeSignedDecimal_spec, Ea, Eb, !dec_int_FormatInt. done.
  - unfold AddSignedDecimal. rewrite !NormalizeSignedDecimal_spec, Ea, Eb. done.
  - unfold AddSignedDecimal. rewrite !NormalizeSignedDecimal_spec, Ea, Eb. done.
  - unfold AddSignedDecimal. rewrite !NormalizeSignedDecimal_spec, Ea, Eb. done.
Qed.

Lemma NegateSigned_spec text :
  NegateSignedDecimal text = (fun z => FormatInt (- z)) <$> dec_int text.
Proof.
  unfold NegateSignedDecimal. rewrite NormalizeSignedDecimal_spec.
  destruct (dec_int text) as [z|]; [|done]. opt_simpl.
  rewrite HasPrefix_FormatInt, TrimPrefix_FormatInt. case_decide as Hz.
  - apply FormatInt_zero_iff in Hz. by subst.
  - rewrite FormatInt_zero_iff in Hz. destruct (z <? 0) eqn:E; breflect; f_equal.
    + rewrite FormatInt_nonneg by lia. f_equal. lia.
    + rewrite (FormatInt_neg (- z)) by lia. by rewrite FormatInt_nonneg, Z.opp_involutive by lia.
Qed.

Lemma SubtractSigned_spec left right : SubtractSignedDecimal left right = dec_op Z.sub left right.
Proof.
  unfold SubtractSignedDecimal, dec_op. rewrite NegateSigned_spec.
  destruct (dec_int right) as [b|]; opt_simpl; [|by destruct (dec_int left)].
  rewrite AddSigned_spec. unfold dec_op. rewrite dec_int_FormatInt.
  destruct (dec_int left); [|done]. done.
Qed.

Lemma CompareSigned_spec left right a b :
  dec_int left = Some a -> dec_int right = Some b ->
  CompareSignedDecimal left right = Z.sgn (a - b).
Proof.
  intros Ha Hb. unfold CompareSignedDecimal. rewrite !NormalizeSignedDecimal_spec, Ha, Hb.
  opt_simpl. rewrite !HasPrefix_FormatInt, !TrimPrefix_FormatInt.
  rewrite compareCanonicalDecimal_spec by lia. cbn zeta.
  destruct (a <? 0) eqn:Ea, (b <? 0) eqn:Eb; breflect; cbn [andb negb]; lia.
Qed.

Lemma CompareUnsigned_spec left right a b :
  dec_nat left = Some a -> dec_nat right = Some b ->
  CompareUnsignedDecimal left right = Z.sgn (a - b).
Proof.
  intros Ha Hb. unfold CompareUnsignedDecimal. rewrite !normalizeUnsignedDecimal_spec, Ha, Hb.
  opt_simpl. apply compareCanonicalDecimal_spec; by eapply dec_nat_nonneg.
Qed.

Lemma SubtractUnsigned_spec left right :
  SubtractUnsignedDecimal left right =
    match dec_nat left, dec_nat right with
    | Some a, Some b => if a <? b then None else Some (FormatUint (a - b))
    | _, _ => None
    end.
Proof.
  unfold SubtractUnsignedDecimal. rewrite !normalizeUnsignedDecimal_spec.
  destruct (dec_nat left) as [a|] eqn:Ea, (dec_nat right) as [b|] eqn:Eb; try done. opt_simpl.
  apply dec_nat_nonneg in Ea, Eb. rewrite compareCanonicalDecimal_spec by lia.
  destruct (Z.sgn (a - b) <? 0) eqn:E, (a <? b) eqn:E'; breflect; try done.
  - apply Z.sgn_neg_iff in E. lia.
  - assert (Z.sgn (a - b) < 0) by (apply Z.sgn_neg_iff; lia). lia.
  - by rewrite subtractCanonicalDecimal_spec by lia.
Qed.

Lemma AddUnsigned_Format a b :
  0 <= a -> 0 <= b -> AddUnsignedDecimal (FormatUint a) (FormatUint b) = FormatUint (a + b).
Proof.
  intros Ha Hb. unfold AddUnsignedDecimal. rewrite !normalize_FormatUint by done.
  by apply addCanonicalDecimal_spec.
Qed.

(** ** Properties *)

(** [NormalizeSignedDecimal] accepts a text exactly when, white space aside, it is an
    optional sign and decimal digits, and returns the canonical text of the number it denotes;
    so two accepted texts have one normal form exactly when they denote one number, and
    normalising again changes nothing. *)
Theorem normalize_signed_canonical :
  (forall text, NormalizeSignedDecimal text = FormatInt <$> dec_int text) /\
  (forall s t a b, dec_int s = Some a -> dec_int t = Some b ->
     (NormalizeSignedDecimal s = NormalizeSignedDecimal t <-> a = b)) /\
  (forall text n, NormalizeSignedDecimal text = Some n -> NormalizeSignedDecimal n = Some n).
Proof.
  split; [exact NormalizeSignedDecimal_spec|split].
  - intros s t a b Ha Hb. rewrite !NormalizeSignedDecimal_spec, Ha, Hb. opt_simpl.
    split; [|by intros ->]. intros H. injection H as H. by apply FormatInt_inj.
  - intros text n H. rewrite NormalizeSignedDecimal_spec in H.
    destruct (dec_int text) as [z|]; [|done]. opt_simpl in H. injection H as <-.
    apply Normalize_FormatInt.
Qed.

(** Addition, subtraction and negation of decimal texts are exact: on every pair of texts
    they fail exactly when an operand denotes no number, and otherwise return the canonical
    text of the sum, the difference or the opposite. *)
Theorem signed_add_sub_exact :
  forall left right,
    AddSignedDecimal left right = dec_op Z.add left right /\
    SubtractSignedDecimal left right = dec_op Z.sub left right /\
    NegateSignedDecimal left = (fun z => FormatInt (- z)) <$> dec_int left.
Proof. auto using AddSigned_spec, SubtractSigned_spec, NegateSigned_spec. Qed.

(** [CompareSignedDecimal] orders texts as it orders the numbers they denote, and
    [SignedDecimalInt64] returns the denoted number exactly when a signed 64-bit integer holds
    it. *)
Theorem signed_compare_and_int64 left right a b :
  dec_int left = Some a -> dec_int right = Some b ->
  CompareSignedDecimal left right = Z.sgn (a - b) /\
  SignedDecimalInt64 left = (if (- 2 ^ 63 <=? a) && (a <? 2 ^ 63) then Some a else None).
Proof.
  intros Ha Hb. split; [by apply CompareSigned_spec|].
  unfold SignedDecimalInt64. rewrite NormalizeSignedDecimal_spec, Ha. opt_simpl.
  apply ParseInt_FormatInt.
Qed.

Lemma signed_compare_and_int64_witness :
  CompareSignedDecimal (lit " -00120 ") (lit "+7") = -1 /\
  SignedDecimalInt64 (lit " -00120 ") = Some (-120).
Proof.
  destruct (signed_compare_and_int64 (lit " -00120 ") (lit "+7") (-120) 7) as [H1 H2];
    [vm_compute; reflexivity..|].
  split; [rewrite H1|rewrite H2]; vm_compute; reflexivity.
Defined.
