(* ===== verification/DecimalLimbs.v ===== *)
(** * Base-10^9 limbs (src/compiler/constant/decimal.go)

    Numbers too large for 64 bits are multiplied and divided on slices of base-10^9 limbs, least
    significant first.  The limbs are [uint64]; every product, sum and difference of the code is
    written with its wrap-around ([u64]), and the proofs show that none of them wraps.  The
    division is Knuth's algorithm D with the two-limb quotient estimate of the source. *)

From S2P Require Import Prelude GoStd Decimal.

Definition decimalLimbBase : Z := 1000000000.

(** ** Conversions *)

(** The inner loop of [decimalLimbs] on [text[start:end]]. *)
Definition limb_of (chunk : gostring) : Z :=
  fold_left (fun limb c => u64 (u64 (limb * 10) + u8 (c - 48))) chunk 0.

(** The outer loop; [e] is the variable [end], and [start] is [end - 9], or 0 when that is
    negative.  Every iteration lowers [end], so its initial value bounds the iterations. *)
Fixpoint decimalLimbs_loop (fuel : nat) (text : gostring) (e : nat) : list Z :=
  match fuel, e with
  | S fuel', S _ =>
      let start := (e - 9)%nat in
      limb_of (drop start (take e text)) :: decimalLimbs_loop fuel' text start
  | _, _ => []
  end.

Definition decimalLimbs (text : gostring) : list Z :=
  decimalLimbs_loop (length text) text (length text).

(** Drops leading zero limbs of a list given most significant first, but keeps the last. *)
Fixpoint strip_limbs (l : list Z) : list Z :=
  match l with
  | d :: ((_ :: _) as l') => if d =? 0 then strip_limbs l' else l
  | _ => l
  end.

(** [for len(limbs) > 1 && limbs[len(limbs)-1] == 0 { limbs = limbs[:len(limbs)-1] }] *)
Definition trim_limbs (l : list Z) : list Z := rev (strip_limbs (rev l)).

(** One limb below the top: its text, padded with '0' to nine bytes. *)
Definition pad_limb (limb : Z) : gostring :=
  let part := FormatUint limb in replicate (9 - length part) 48 ++ part.

(** The code indexes the last limb, so it is called on slices that are not empty. *)
Definition formatDecimalLimbs (limbs : list Z) : gostring :=
  match rev (trim_limbs limbs) with
  | [] => []
  | top :: rest => FormatUint top ++ concat (map pad_limb rest)
  end.

(** ** Multiplication *)

(** The inner loop of [MultiplySignedDecimal] for one limb [a] of the left operand.  [ps] is
    [product[i:]]: its element [j] is [product[i+j]], and the element after the last limb of the
    right operand, [product[i+len(rightLimbs)]], is set to the carry. *)
Fixpoint mul_row (a : Z) (rs ps : list Z) (carry : Z) : list Z :=
  match rs, ps with
  | b :: rs', p :: ps' =>
      let value := u64 (u64 (u64 (a * b) + p) + carry) in
      value mod decimalLimbBase :: mul_row a rs' ps' (value / decimalLimbBase)
  | [], _ :: ps' => carry :: ps'
  | _, [] => []
  end.

(** The outer loop over the limbs of the left operand; [ps] is [product[i:]]. *)
Fixpoint mul_rows (ls rs ps : list Z) : list Z :=
  match ls with
  | [] => ps
  | a :: ls' =>
      match mul_row a rs ps 0 with
      | p :: ps' => p :: mul_rows ls' rs ps'
      | [] => []
      end
  end.

Definition mul_limbs (ls rs : list Z) : list Z :=
  mul_rows ls rs (replicate (length ls + length rs) 0).

(** ** Division *)

(** The loop for a one-limb divisor, from the top limb down. *)
Fixpoint short_div (i : nat) (dividend : list Z) (d remainder : Z) (quotient : option (list Z))
  : Z * option (list Z) :=
  match i with
  | O => (remainder, quotient)
  | S i' =>
      let value := u64 (u64 (remainder * decimalLimbBase) + dividend !!! i') in
      short_div i' dividend d (value mod d) ((fun q => <[i' := value / d]> q) <$> quotient)
  end.

(** Multiplies a limb slice by [scale] in place and returns the carry out of it. *)
Fixpoint scale_limbs (l : list Z) (scale carry : Z) : list Z * Z :=
  match l with
  | [] => ([], carry)
  | limb :: l' =>
      let value := u64 (u64 (limb * scale) + carry) in
      let '(out, carry') := scale_limbs l' scale (value / decimalLimbBase) in
      (value mod decimalLimbBase :: out, carry')
  end.

(** The correction of the quotient estimate.  [d1] and [d2] are the two leading limbs of the
    divisor and [u2] is [dividend[offset+width-2]]. *)
Fixpoint adjust_estimate (fuel : nat) (estimate remainder d1 d2 u2 : Z) : Z :=
  match fuel with
  | O => estimate
  | S fuel' =>
      if (decimalLimbBase <=? estimate)
         || (u64 (u64 (remainder * decimalLimbBase) + u2) <? u64 (estimate * d2))
      then
        let estimate := u64 (estimate - 1) in
        let remainder := u64 (remainder + d1) in
        if decimalLimbBase <=? remainder then estimate
        else adjust_estimate fuel' estimate remainder d1 d2 u2
      else estimate
  end.

(** Subtracts [estimate * divisor] from the limbs [dividend[offset:offset+width]]. *)
Fixpoint mul_sub (divisor win : list Z) (estimate borrow : Z) : list Z * Z :=
  match divisor, win with
  | limb :: ds, w :: ws =>
      let product := u64 (u64 (estimate * limb) + borrow) in
      let borrow := product / decimalLimbBase in
      let low := product mod decimalLimbBase in
      let '(w, borrow) :=
        if w <? low then (u64 (w + decimalLimbBase), u64 (borrow + 1)) else (w, borrow) in
      let '(out, borrow') := mul_sub ds ws estimate borrow in
      (u64 (w - low) :: out, borrow')
  | _, _ => ([], borrow)
  end.

(** Adds the divisor back to [dividend[offset:offset+width]]. *)
Fixpoint add_back (divisor win : list Z) (carry : Z) : list Z * Z :=
  match divisor, win with
  | limb :: ds, w :: ws =>
      let value := u64 (u64 (w + limb) + carry) in
      let '(out, carry') := add_back ds ws (value / decimalLimbBase) in
      (value mod decimalLimbBase :: out, carry')
  | _, _ => ([], carry)
  end.

(** One quotient limb: [win] is [dividend[offset:offset+width]] and [top] is
    [dividend[offset+width]]; the result is their new content and the quotient limb.  The
    estimate is corrected at most twice, so three rounds reach the end of that loop. *)
Definition div_window (divisor win : list Z) (top : Z) : list Z * Z * Z :=
  let width := length divisor in
  let d1 := divisor !!! (width - 1)%nat in
  let d2 := divisor !!! (width - 2)%nat in
  let leading := u64 (u64 (top * decimalLimbBase) + win !!! (width - 1)%nat) in
  let estimate :=
    adjust_estimate 3 (leading / d1) (leading mod d1) d1 d2 (win !!! (width - 2)%nat) in
  let '(win', borrow) := mul_sub divisor win estimate 0 in
  let negative := top <? borrow in
  let top' := u64 (u64 (top + decimalLimbBase) - borrow) mod decimalLimbBase in
  if negative then
    let '(win'', carry) := add_back divisor win' 0 in
    (win'', u64 (top' + carry) mod decimalLimbBase, u64 (estimate - 1))
  else (win', top', estimate).

(** The loop over [offset], from [quotientWidth - 1] down to 0. *)
Fixpoint div_loop (n : nat) (dividend divisor : list Z) (quotient : option (list Z))
  : list Z * option (list Z) :=
  match n with
  | O => (dividend, quotient)
  | S offset =>
      let width := length divisor in
      let '(win, top, estimate) :=
        div_window divisor (take width (drop offset dividend)) (dividend !!! (offset + width)%nat) in
      div_loop offset
        (take offset dividend ++ win ++ top :: drop (S (offset + width)) dividend)
        divisor ((fun q => <[offset := estimate]> q) <$> quotient)
  end.

(** Divides a limb slice by [scale] in place, from the top limb down. *)
Fixpoint unscale_limbs (l : list Z) (scale : Z) : list Z * Z :=
  match l with
  | [] => ([], 0)
  | limb :: l' =>
      let '(out, carry) := unscale_limbs l' scale in
      let value := u64 (u64 (carry * decimalLimbBase) + limb) in
      (value / scale :: out, value mod scale)
  end.

(** The result is the remainder, the divisor slice after the call and the quotient slice after
    the call; [None] is the nil quotient. *)
Definition divideDecimalLimbs (dividend divisor : list Z) (quotient : option (list Z))
  : list Z * list Z * option (list Z) :=
  if (length dividend <? length divisor)%nat then (dividend, divisor, quotient)
  else if (length divisor =? 1)%nat then
    let '(remainder, quotient) := short_div (length dividend) dividend (divisor !!! 0%nat) 0 quotient in
    ([remainder], divisor, quotient)
  else
    let width := length divisor in
    let quotientWidth := (length dividend - width + 1)%nat in
    let scale := decimalLimbBase / u64 (divisor !!! (width - 1)%nat + 1) in
    let '(divisor, _) := scale_limbs divisor scale 0 in
    let '(dividend, carry) := scale_limbs dividend scale 0 in
    let '(dividend, quotient) := div_loop quotientWidth (dividend ++ [carry]) divisor quotient in
    let '(remainder, _) := unscale_limbs (take width dividend) scale in
    let '(divisor, _) := unscale_limbs divisor scale in
    (trim_limbs remainder, divisor, quotient).

(** ** Powers of two *)

Fixpoint pow2_loop (fuel : nat) (bits : Z) (limbs : list Z) : list Z :=
  match fuel with
  | O => limbs
  | S fuel' =>
      if 0 <? bits then
        let shift := if 29 <? bits then 29 else bits in
        let factor := u64 (Z.shiftl 1 shift) in
        let '(limbs, carry) := scale_limbs limbs factor 0 in
        pow2_loop fuel' (bits - shift) (if carry =? 0 then limbs else limbs ++ [carry])
      else limbs
  end.

Definition Pow2UnsignedDecimal (bits : Z) : gostring :=
  if bits <=? 0 then lit "1"
  else formatDecimalLimbs (pow2_loop (Z.to_nat bits) bits [1]).

(** ** The number a limb slice denotes *)

Local Abbreviation B := decimalLimbBase.

Fixpoint lval (l : list Z) : Z :=
  match l with [] => 0 | d :: l' => d + B * lval l' end.

Definition limb (d : Z) : Prop := 0 <= d < B.
Definition limbs_ok (l : list Z) : Prop := Forall limb l.

(** A canonical slice: not empty, and its top limb is not 0 unless it is the only one. *)
Definition limbs_canonical (l : list Z) : Prop :=
  limbs_ok l /\ l <> [] /\ (length l = 1%nat \/ 0 < List.last l 0).

Lemma B_pos : 0 < B. Proof. reflexivity. Qed.
Lemma B_val : B = 1000000000. Proof. reflexivity. Qed.
Lemma B_pow n : 0 < B ^ Z.of_nat n.
Proof. apply Z.pow_pos_nonneg; [apply B_pos|lia]. Qed.
Lemma B_sq : B * B < 2 ^ 60. Proof. reflexivity. Qed.
Lemma two64 : 2 ^ 64 = 16 * 2 ^ 60. Proof. reflexivity. Qed.
Global Opaque decimalLimbBase.

Lemma B_succ n : B ^ Z.of_nat (S n) = B * B ^ Z.of_nat n.
Proof. rewrite Nat2Z.inj_succ, Z.pow_succ_r by lia. done. Qed.

Lemma lval_bound l : limbs_ok l -> 0 <= lval l < B ^ Z.of_nat (length l).
Proof.
  induction 1 as [|d l Hd Hl IH]; [by cbn|]. cbn [lval]. simpl length. rewrite B_succ.
  unfold limb in Hd. pose proof B_pos. nia.
Qed.

Lemma lval_app l1 l2 : lval (l1 ++ l2) = lval l1 + B ^ Z.of_nat (length l1) * lval l2.
Proof.
  induction l1 as [|d l1 IH]; cbn [app lval].
  - change (Z.of_nat (length (@nil Z))) with 0. rewrite Z.pow_0_r. lia.
  - simpl length. rewrite IH, B_succ. ring.
Qed.

Lemma lval_snoc l d : lval (l ++ [d]) = lval l + B ^ Z.of_nat (length l) * d.
Proof. rewrite lval_app. cbn [lval]. f_equal. f_equal. lia. Qed.

Lemma lval_zeros n : lval (replicate n 0) = 0.
Proof. induction n as [|n IH]; [done|]. cbn [replicate lval]. rewrite IH. lia. Qed.

Lemma lval_lower l : limbs_ok l -> 0 < List.last l 0 -> B ^ Z.of_nat (length l - 1) <= lval l.
Proof.
  intros Hl Ht. destruct (decide (l = [])) as [->|Hne]; [by cbn in Ht|].
  destruct (list_last_split l Hne) as (l' & d & ->). rewrite List.last_last in Ht.
  apply Forall_app in Hl as [Hl' _]. rewrite lval_snoc, length_app.
  simpl length. replace (length l' + 1 - 1)%nat with (length l') by lia.
  pose proof (lval_bound l' Hl'). pose proof (B_pow (length l')). nia.
Qed.

(** ** Lemmas: conversions *)

Lemma limb_of_val chunk :
  Forall digit_byte chunk -> (length chunk <= 9)%nat -> limb_of chunk = dval chunk.
Proof.
  intros H. unfold limb_of, dval.
  induction chunk as [|c s IH] using rev_ind; intros Hlen; [done|].
  apply Forall_app in H as [Hs Hc]. inversion Hc as [|? ? Hd _]; subst.
  rewrite length_app in Hlen. simpl in Hlen.
  rewrite !fold_left_app. cbn [fold_left]. rewrite IH by (done || lia).
  change (fold_left (fun a c => 10 * a + (c - 48)) s 0) with (dval s).
  pose proof (dval_bound s Hs) as Hb.
  assert (10 ^ Z.of_nat (length s) <= 10 ^ 8) by (apply Z.pow_le_mono_r; lia).
  change (10 ^ 8) with 100000000 in *. rewrite u8_digit by done. unfold digit_byte in Hd.
  rewrite (u64_id (dval s * 10)) by lia. rewrite u64_id by lia. lia.
Qed.

Lemma decimalLimbs_loop_val fuel text e :
  Forall digit_byte text -> (e <= length text)%nat -> (e <= fuel)%nat ->
  limbs_ok (decimalLimbs_loop fuel text e) /\
  lval (decimalLimbs_loop fuel text e) = dval (take e text).
Proof.
  intros Ht. revert e. induction fuel as [|fuel IH]; intros e He Hf.
  { assert (e = 0)%nat as -> by lia. split; [constructor|done]. }
  destruct e as [|e']; [split; [constructor|done]|].
  cbn [decimalLimbs_loop]. remember (S e') as e eqn:Ee. remember (e - 9)%nat as start eqn:Es.
  set (chunk := drop start (take e text)).
  assert (Forall digit_byte chunk) as Hc by (by apply Forall_drop, Forall_take).
  assert (length chunk = e - start)%nat as Hlc.
  { unfold chunk. rewrite length_drop, length_take. lia. }
  destruct (IH start ltac:(lia) ltac:(lia)) as [Hok Hv].
  pose proof (dval_bound chunk Hc) as Hb.
  assert (take e text = take start text ++ chunk) as Hsplit.
  { unfold chunk. rewrite <- (take_drop start (take e text)) at 1.
    by rewrite take_take, Nat.min_l by lia. }
  rewrite limb_of_val by (done || lia). split.
  - constructor; [|done]. unfold limb. rewrite B_val.
    assert (10 ^ Z.of_nat (length chunk) <= 10 ^ 9) by (apply Z.pow_le_mono_r; lia).
    change (10 ^ 9) with 1000000000 in *. lia.
  - cbn [lval]. rewrite Hv, Hsplit, dval_app. destruct (decide (start = 0%nat)) as [->|Hs].
    + rewrite take_0. unfold dval at 2 3. cbn [fold_left]. lia.
    + replace (length chunk) with 9%nat by lia. change (10 ^ Z.of_nat 9) with 1000000000.
      rewrite B_val. lia.
Qed.

Lemma decimalLimbs_val text :
  Forall digit_byte text ->
  limbs_ok (decimalLimbs text) /\ lval (decimalLimbs text) = dval text.
Proof.
  intros H. unfold decimalLimbs.
  destruct (decimalLimbs_loop_val (length text) text (length text) H) as [Hok Hv]; try lia.
  split; [done|]. by rewrite Hv, take_ge by lia.
Qed.

(** The number of limbs is the number of nine-digit groups. *)
Lemma decimalLimbs_loop_length fuel text e :
  (e <= fuel)%nat ->
  (e <= 9 * length (decimalLimbs_loop fuel text e) < e + 9)%nat.
Proof.
  revert e. induction fuel as [|fuel IH]; intros e Hf.
  { assert (e = 0)%nat as -> by lia. simpl. lia. }
  destruct e as [|e']; [simpl; lia|]. cbn [decimalLimbs_loop length].
  specialize (IH (S e' - 9)%nat ltac:(lia)). lia.
Qed.

Lemma decimalLimbs_canonical text :
  canonical text -> limbs_canonical (decimalLimbs text).
Proof.
  intros Hc. pose proof (canonical_digits _ Hc) as Hd.
  destruct (decimalLimbs_val text Hd) as [Hok Hv].
  pose proof (decimalLimbs_loop_length (length text) text (length text) ltac:(lia)) as Hl.
  fold (decimalLimbs text) in Hl.
  assert (length text <> 0)%nat as Hlt.
  { apply canonical_nonempty in Hc. by destruct text. }
  split; [done|]. split; [intros E; rewrite E in Hl; simpl in Hl; lia|].
  destruct (decide (length text <= 9)%nat) as [Hs|Hs]; [left; lia|right].
  destruct Hc as [->|(c & t & -> & Hn & Hd')]; [simpl in Hs; lia|].
  pose proof (canonical_lower _ _ Hn Hd') as Hlow. cbn [length] in Hl, Hs, Hlt.
  destruct (list_last_split (decimalLimbs (c :: t))) as (l' & d & E).
  { intros E. rewrite E in Hl. cbn [length] in Hl. lia. }
  rewrite E in *. rewrite List.last_last. apply Forall_app in Hok as [Hl' Hd1].
  inversion Hd1 as [|? ? Hd2 _]; subst. unfold limb in Hd2.
  destruct (decide (d = 0)) as [->|]; [|lia]. exfalso.
  rewrite lval_snoc in Hv. pose proof (lval_bound l' Hl') as Hb.
  rewrite length_app in Hl. cbn [length] in Hl.
  assert (B ^ Z.of_nat (length l') <= 10 ^ Z.of_nat (length t)); [|lia].
  rewrite B_val. change 1000000000 with (10 ^ 9). rewrite <- Z.pow_mul_r by lia.
  apply Z.pow_le_mono_r; lia.
Qed.

Lemma strip_limbs_spec l :
  limbs_ok l -> l <> [] ->
  lval (rev (strip_limbs l)) = lval (rev l) /\ limbs_ok (strip_limbs l) /\
  exists d r, strip_limbs l = d :: r /\ (r = [] \/ 0 < d).
Proof.
  induction 1 as [|d l Hd Hl IH]; intros Hne; [done|]. destruct l as [|e l].
  - split; [done|]. split; [by constructor|]. exists d, []. auto.
  - cbn [strip_limbs]. destruct (d =? 0) eqn:E; breflect.
    + destruct (IH ltac:(done)) as (V & Ok & Hs). split; [|split; [exact Ok|exact Hs]].
      etransitivity; [exact V|]. change (rev (d :: e :: l)) with (rev (e :: l) ++ [d]).
      rewrite (lval_snoc _ d), E. lia.
    + split; [done|]. split; [by constructor|]. exists d, (e :: l). split; [done|].
      right. unfold limb in Hd. lia.
Qed.

Lemma trim_limbs_spec l :
  limbs_ok l -> l <> [] -> limbs_canonical (trim_limbs l) /\ lval (trim_limbs l) = lval l.
Proof.
  intros Hl Hne. unfold trim_limbs.
  destruct (strip_limbs_spec (rev l)) as (V & Ok & d & r & E & Ht).
  { by apply Forall_rev_iff. }
  { by rewrite rev_nil_iff. }
  rewrite rev_involutive in V. split; [|done]. split; [by apply Forall_rev_iff|].
  rewrite E. simpl rev. split; [by destruct (rev r)|].
  rewrite length_app, List.last_last. destruct Ht as [->|Ht]; [by left|by right].
Qed.

Lemma dval_replicate_zero n s : dval (replicate n 48 ++ s) = dval s.
Proof.
  rewrite dval_app, (dval_zeros (replicate n 48)); [lia|]. apply Forall_replicate. done.
Qed.

Lemma FormatUint_length_le n k :
  0 <= n < 10 ^ Z.of_nat k -> (0 < k)%nat -> (length (FormatUint n) <= k)%nat.
Proof.
  intros Hn Hk. pose proof (FormatUint_spec n ltac:(lia)) as [Hc Hv].
  destruct Hc as [->|(c & s & E & Hc & Hd)]; [simpl; lia|].
  rewrite E in *. pose proof (canonical_lower c s Hc Hd).
  simpl. destruct (decide (k <= length s)%nat) as [H'|]; [|lia].
  assert (10 ^ Z.of_nat k <= 10 ^ Z.of_nat (length s)) by (apply Z.pow_le_mono_r; lia). lia.
Qed.

Lemma pad_limb_spec d :
  limb d -> Forall digit_byte (pad_limb d) /\ length (pad_limb d) = 9%nat /\ dval (pad_limb d) = d.
Proof.
  unfold limb. rewrite B_val. intros Hd. unfold pad_limb. cbn zeta.
  assert (length (FormatUint d) <= 9)%nat as Hl.
  { apply FormatUint_length_le; [change (10 ^ Z.of_nat 9) with 1000000000|]; lia. }
  split; [|split].
  - apply Forall_app. split; [|by auto with go].
    apply Forall_replicate. unfold digit_byte. lia.
  - rewrite length_app, length_replicate. lia.
  - rewrite dval_replicate_zero. apply dval_FormatUint. lia.
Qed.

Lemma concat_pad_spec rest :
  limbs_ok rest ->
  Forall digit_byte (concat (map pad_limb rest)) /\
  B ^ Z.of_nat (length rest) = 10 ^ Z.of_nat (length (concat (map pad_limb rest))) /\
  dval (concat (map pad_limb rest)) = lval (rev rest).
Proof.
  induction 1 as [|d l Hd Hl (D & L & V)]; [done|].
  destruct (pad_limb_spec d Hd) as (Dp & Lp & Vp). cbn [map concat]. split; [|split].
  - by apply Forall_app.
  - rewrite length_app, Lp, Nat2Z.inj_add, Z.pow_add_r by lia. simpl length.
    rewrite B_succ, L, B_val. done.
  - rewrite dval_app, Vp, V. simpl rev. rewrite lval_snoc, length_rev', L. lia.
Qed.

Lemma formatDecimalLimbs_spec l :
  limbs_ok l -> l <> [] -> formatDecimalLimbs l = FormatUint (lval l).
Proof.
  intros Hl Hne. unfold formatDecimalLimbs, trim_limbs. rewrite rev_involutive.
  destruct (strip_limbs_spec (rev l)) as (V & Ok & d & r & E & Ht).
  { by apply Forall_rev_iff. }
  { by rewrite rev_nil_iff. }
  rewrite rev_involutive in V. rewrite E in *. inversion Ok as [|? ? Hd Hr]; subst.
  simpl rev in V. rewrite lval_snoc, length_rev' in V.
  destruct (concat_pad_spec r Hr) as (D & L & Vr). unfold limb in Hd.
  pose proof (FormatUint_spec d ltac:(lia)) as [Cd Vd].
  apply canonical_eq_Format; [|rewrite dval_app, Vd, Vr, <- L; lia].
  destruct Ht as [->|Ht]; [by rewrite app_nil_r|].
  destruct Cd as [E'|(c & s & E' & Hc & Hs)].
  { rewrite E' in Vd. by vm_compute in Vd; lia. }
  rewrite E' in *. right. exists c, (s ++ concat (map pad_limb r)). split; [done|].
  split; [done|]. change (Forall digit_byte ((c :: s) ++ concat (map pad_limb r))).
  by apply Forall_app.
Qed.

(** ** Lemmas: multiplication *)

Lemma mul_row_spec a rs k z carry :
  limb a -> limbs_ok rs -> limbs_ok k -> length k = length rs -> limb carry ->
  exists k', mul_row a rs (k ++ 0 :: z) carry = k' ++ z /\ limbs_ok k' /\
    length k' = S (length rs) /\ lval k' = lval k + a * lval rs + carry.
Proof.
  intros Ha Hrs. revert k carry. induction Hrs as [|b rs Hb Hrs IH]; intros k carry Hk Hlen Hc.
  - destruct k; [|done]. exists [carry]. cbn. split; [done|]. split; [by constructor|].
    split; [done|lia].
  - destruct k as [|p k]; [done|]. inversion Hk as [|? ? Hp Hk']; subst.
    injection Hlen as Hlen. cbn [mul_row app]. unfold limb in *.
    pose proof B_sq. pose proof two64. pose proof B_pos.
    assert (0 <= a * b <= (B - 1) * (B - 1)) by nia.
    assert (0 <= a * b + p + carry < B * B) as Hv by nia.
    rewrite (u64_id (a * b)) by lia. rewrite (u64_id (a * b + p)) by lia.
    rewrite u64_id by lia. set (v := a * b + p + carry) in *.
    destruct (div_mod_pos v B B_pos) as [Hdm Hm].
    destruct (IH k (v / B) Hk' Hlen) as (k' & E & Ok & L & V).
    { split; [apply Z.div_pos; lia|apply Z.div_lt_upper_bound; lia]. }
    exists (v mod B :: k'). rewrite E. split; [done|]. split; [by constructor|].
    split; [simpl; by rewrite L|]. cbn [lval]. rewrite V. unfold v in *. lia.
Qed.

Lemma mul_rows_spec ls rs k :
  limbs_ok ls -> limbs_ok rs -> limbs_ok k -> length k = length rs ->
  limbs_ok (mul_rows ls rs (k ++ replicate (length ls) 0)) /\
  length (mul_rows ls rs (k ++ replicate (length ls) 0)) = (length ls + length rs)%nat /\
  lval (mul_rows ls rs (k ++ replicate (length ls) 0)) = lval k + lval ls * lval rs.
Proof.
  intros Hls Hrs. revert k. induction Hls as [|a ls Ha Hls IH]; intros k Hk Hlen.
  - cbn. rewrite app_nil_r. split; [done|]. split; [done|lia].
  - simpl length. cbn [replicate mul_rows].
    destruct (mul_row_spec a rs k (replicate (length ls) 0) 0 Ha Hrs Hk Hlen) as (k' & E & Ok & L & V).
    { split; [lia|apply B_pos]. }
    rewrite E. destruct k' as [|p k']; [done|]. inversion Ok as [|? ? Hp Hk']; subst.
    injection L as L. cbn [app]. destruct (IH k' Hk' L) as (Ok' & L' & V').
    split; [by constructor|]. split; [simpl; by rewrite L'|].
    cbn [lval] in *. rewrite V'. lia.
Qed.

Lemma mul_limbs_spec ls rs :
  limbs_ok ls -> limbs_ok rs ->
  limbs_ok (mul_limbs ls rs) /\ length (mul_limbs ls rs) = (length ls + length rs)%nat /\
  lval (mul_limbs ls rs) = lval ls * lval rs.
Proof.
  intros Hls Hrs. unfold mul_limbs.
  replace (replicate (length ls + length rs) 0)
    with (replicate (length rs) 0 ++ replicate (length ls) 0)
    by (by rewrite <- replicate_add, Nat.add_comm).
  destruct (mul_rows_spec ls rs (replicate (length rs) 0) Hls Hrs) as (Ok & L & V).
  - apply Forall_replicate. split; [lia|apply B_pos].
  - apply length_replicate.
  - rewrite lval_zeros in V. auto.
Qed.
