(* ===== verification/DecimalDiv.v ===== *)
(** * Correctness of the limb division ([divideDecimalLimbs], src/compiler/constant/decimal.go)

    The division is Knuth's algorithm D.  The estimate of a quotient limb is at most one too
    large after its correction loop ([estimate_spec]), the multiply-and-subtract step with its
    conditional add-back then leaves the exact remainder of the window ([div_window_spec]), and
    the loop over the quotient limbs divides the whole number ([div_loop_spec]). *)

From S2P Require Import Prelude GoStd Decimal DecimalLimbs.

Local Abbreviation B := decimalLimbBase.

(** ** The quotient estimate *)

(** The test of the correction loop implies that the estimate is above the quotient. *)
Lemma overestimate W D P Wt Dt est :
  0 < P -> 0 <= est -> Dt * P <= D -> W < (Wt + 1) * P -> Wt < est * Dt -> W < est * D.
Proof.
  intros HP He HD HW H.
  assert ((Wt + 1) * P <= est * Dt * P) by nia.
  assert (est * (Dt * P) <= est * D) by nia. lia.
Qed.

(** When the loop stops on its test, the estimate is at most one above the quotient. *)
Lemma stop_on_test W D P Wt Dt d1 d2 est :
  0 < P -> 0 <= est < B -> D < (Dt + 1) * P -> Dt * P <= D -> Wt * P <= W ->
  Dt = d1 * B + d2 -> 1 <= d1 -> 0 <= d2 -> est * Dt <= Wt -> (est - 1) * D <= W.
Proof.
  intros HP He HD HD' HW -> Hd1 Hd2 H.
  assert (est * D <= est * ((d1 * B + d2 + 1) * P)) by nia.
  assert (est * (d1 * B + d2) * P <= Wt * P) by nia.
  assert (est * P <= B * P) by nia.
  assert (B * P <= D). { assert (B * P <= (d1 * B + d2) * P) by nia. lia. }
  nia.
Qed.

(** When it stops because the remainder left the base, the estimate is at most the quotient. *)
Lemma stop_on_break W D P lead d1 d2 u2 est rem :
  0 < P -> 0 <= est <= B -> D < (d1 * B + d2 + 1) * P -> (lead * B + u2) * P <= W ->
  0 <= u2 -> 0 <= d2 < B -> est * d1 + rem = lead -> B <= rem -> est * D <= W.
Proof.
  intros HP He HD HW Hu2 Hd2 Hl Hr. pose proof B_pos.
  assert (est * D <= est * ((d1 + 1) * B * P)).
  { apply Z.mul_le_mono_nonneg_l; [lia|].
    assert ((d1 * B + d2 + 1) * P <= (d1 * B + B) * P) by (apply Z.mul_le_mono_nonneg_r; lia).
    lia. }
  assert (est * (d1 + 1) <= lead) by lia.
  assert (est * (d1 + 1) * (B * P) <= lead * (B * P)) by (apply Z.mul_le_mono_nonneg_r; nia).
  assert (0 <= u2 * P) by nia. lia.
Qed.

Section Estimate.
Context (W D P u0 u1 u2 d1 d2 : Z).
Hypothesis HP : 0 < P.
Hypothesis Hu0 : limb u0.
Hypothesis Hu1 : limb u1.
Hypothesis Hu2 : limb u2.
Hypothesis Hd1 : limb d1.
Hypothesis Hd2 : limb d2.
Hypothesis Hhalf : B <= 2 * d1.
Hypothesis HD : (d1 * B + d2) * P <= D < (d1 * B + d2 + 1) * P.
Hypothesis HW : ((u0 * B + u1) * B + u2) * P <= W < ((u0 * B + u1) * B + u2 + 1) * P.
Hypothesis HWD : W < B * D.

Lemma divisor_pos : 0 < D.
Proof. unfold limb in *. rewrite B_val in *. assert (0 < (d1 * 1000000000 + d2) * P) by nia. lia. Qed.

Lemma leading_bound : u0 <= d1.
Proof.
  destruct (Z.le_gt_cases u0 d1) as [|Hlt]; [done|]. exfalso. unfold limb in *. pose proof B_pos.
  assert ((d1 + 1) * B * B * P <= u0 * B * B * P) by nia.
  assert (u0 * B * B * P <= W) by nia.
  assert (B * D < B * ((d1 * B + B) * P)).
  { apply Z.mul_lt_mono_pos_l; [lia|].
    assert ((d1 * B + d2 + 1) * P <= (d1 * B + B) * P) by nia. lia. }
  nia.
Qed.

Lemma adjust_spec fuel est rem :
  0 <= est -> est * d1 + rem = u0 * B + u1 -> 0 <= rem < B -> W / D <= est <= B + 1 ->
  B <= rem + Z.of_nat fuel * d1 -> (1 <= fuel)%nat ->
  let e := adjust_estimate fuel est rem d1 d2 u2 in
  W / D <= e <= W / D + 1 /\ e <= B - 1.
Proof.
  pose proof divisor_pos as HDp. pose proof B_sq as HBB. pose proof two64 as H64.
  pose proof B_pos as HB. unfold limb in *.
  assert (W / D < B) as HqB by (apply Z.div_lt_upper_bound; lia).
  revert est rem. induction fuel as [|fuel IH]; intros est rem He Hlead Hrem Hest Hfuel Hf; [lia|].
  cbn [adjust_estimate]. cbn zeta.
  assert (0 <= est * d2 < 2 ^ 64) by nia.
  assert (0 <= rem * B + u2 < B * B) by nia.
  rewrite (u64_id (rem * B)) by nia. rewrite (u64_id (rem * B + u2)) by lia.
  rewrite (u64_id (est * d2)) by lia.
  destruct (_ || _) eqn:E.
  - assert (W < est * D) as Hover.
    { apply orb_true_iff in E as [E|E]; breflect.
      - assert (B * D <= est * D) by nia. lia.
      - eapply overestimate; [exact HP|lia|apply HD|apply HW|]. nia. }
    assert (W / D < est) as Hlt by (apply Z.div_lt_upper_bound; lia).
    assert (0 <= W).
    { assert (0 <= ((u0 * B + u1) * B + u2) * P) by (apply Z.mul_nonneg_nonneg; nia). lia. }
    assert (0 <= W / D) by (apply Z.div_pos; lia).
    pose proof B_val as HBv.
    rewrite (u64_id (est - 1)) by lia. rewrite (u64_id (rem + d1)) by lia.
    destruct (B <=? rem + d1) eqn:Er; breflect.
    + assert ((est - 1) * D <= W) as Hle.
      { eapply (stop_on_break W D P (u0 * B + u1) d1 d2 u2); try done; try lia. }
      assert (est - 1 <= W / D) by (apply Z.div_le_lower_bound; lia). lia.
    + apply IH; lia.
  - breflect. assert ((est - 1) * D <= W) as Hle.
    { eapply (stop_on_test W D P ((u0 * B + u1) * B + u2) (d1 * B + d2) d1 d2);
        done || lia. }
    assert (est - 1 <= W / D) by (apply Z.div_le_lower_bound; lia). lia.
Qed.

Lemma estimate_spec :
  let leading := u64 (u64 (u0 * B) + u1) in
  let e := adjust_estimate 3 (leading / d1) (leading mod d1) d1 d2 u2 in
  W / D <= e <= W / D + 1 /\ e <= B - 1.
Proof.
  pose proof divisor_pos as HDp. pose proof leading_bound as Hlb.
  pose proof B_sq. pose proof two64. pose proof B_pos. cbn zeta. unfold limb in *.
  rewrite (u64_id (u0 * B)) by nia. rewrite u64_id by nia.
  set (lead := u0 * B + u1).
  destruct (div_mod_pos lead d1 ltac:(lia)) as [Hdm Hm].
  assert (0 <= lead) by nia.
  assert (0 <= lead / d1) by (apply Z.div_pos; lia).
  apply adjust_spec; try (unfold lead in *; lia).
  split.
  - (* the quotient of the leading limbs is never below the true quotient *)
    assert (W / D < lead / d1 + 1); [|lia]. apply Z.div_lt_upper_bound; [done|].
    assert (lead + 1 <= (lead / d1 + 1) * d1) by lia.
    assert (((lead + 1) * B) * P <= (lead / d1 + 1) * ((d1 * B + d2) * P)) by nia.
    assert (W < (lead + 1) * B * P) by (unfold lead; nia). nia.
  - assert (lead / d1 < B + 2); [|lia]. apply Z.div_lt_upper_bound; [lia|]. unfold lead. nia.
Qed.
End Estimate.

(** ** Multiply and subtract, add back *)

Lemma mul_sub_spec ds ws est borrow :
  limbs_ok ds -> limbs_ok ws -> length ws = length ds -> 0 <= est < B -> 0 <= borrow <= est ->
  let '(out, bo) := mul_sub ds ws est borrow in
  limbs_ok out /\ length out = length ds /\ 0 <= bo <= est /\
  lval out - B ^ Z.of_nat (length ds) * bo = lval ws - est * lval ds - borrow.
Proof.
  intros Hds. revert ws borrow. induction Hds as [|d ds Hd Hds IH]; intros ws borrow Hws Hlen He Hb.
  - destruct ws; [|done]. cbn [mul_sub]. split; [constructor|]. split; [done|]. split; [done|].
    change (Z.of_nat (length [])) with 0. rewrite Z.pow_0_r. cbn [lval]. lia.
  - destruct ws as [|w ws]; [done|]. inversion Hws as [|? ? Hw Hws']; subst.
    injection Hlen as Hlen. cbn [mul_sub]. unfold limb in Hd, Hw.
    pose proof B_sq. pose proof two64. pose proof B_pos. pose proof B_val as HBv.
    assert (0 <= est * d <= est * (B - 1)) by nia.
    rewrite (u64_id (est * d)) by nia. rewrite (u64_id (est * d + borrow)) by nia.
    set (p := est * d + borrow). destruct (div_mod_pos p B B_pos) as [Hdm Hm].
    assert (0 <= p / B) by (apply Z.div_pos; lia).
    assert (p / B <= est) by (apply Z.div_le_upper_bound; unfold p; nia).
    destruct (w <? p mod B) eqn:E; breflect.
    + assert (p / B + 1 <= est).
      { destruct (Z.le_gt_cases (p / B + 1) est); [done|].
        assert (p / B = est) by lia. unfold p in *. nia. }
      rewrite (u64_id (p / B + 1)) by lia. rewrite (u64_id (w + B)) by lia.
      specialize (IH ws (p / B + 1) Hws' Hlen He ltac:(lia)).
      destruct (mul_sub ds ws est (p / B + 1)) as [out bo].
      destruct IH as (Ok & L & Hbo & V). rewrite u64_id by lia.
      split; [constructor; [unfold limb; lia|done]|]. split; [simpl; by rewrite L|].
      split; [done|]. cbn [lval]. simpl length. rewrite B_succ. unfold p in *. nia.
    + specialize (IH ws (p / B) Hws' Hlen He ltac:(lia)).
      destruct (mul_sub ds ws est (p / B)) as [out bo].
      destruct IH as (Ok & L & Hbo & V). rewrite u64_id by lia.
      split; [constructor; [unfold limb; lia|done]|]. split; [simpl; by rewrite L|].
      split; [done|]. cbn [lval]. simpl length. rewrite B_succ. unfold p in *. nia.
Qed.

Lemma add_back_spec ds ws carry :
  limbs_ok ds -> limbs_ok ws -> length ws = length ds -> 0 <= carry <= 1 ->
  let '(out, co) := add_back ds ws carry in
  limbs_ok out /\ length out = length ds /\ 0 <= co <= 1 /\
  lval out + B ^ Z.of_nat (length ds) * co = lval ws + lval ds + carry.
Proof.
  intros Hds. revert ws carry. induction Hds as [|d ds Hd Hds IH]; intros ws carry Hws Hlen Hc.
  - destruct ws; [|done]. cbn [add_back]. split; [constructor|]. split; [done|]. split; [done|].
    change (Z.of_nat (length [])) with 0. rewrite Z.pow_0_r. cbn [lval]. lia.
  - destruct ws as [|w ws]; [done|]. inversion Hws as [|? ? Hw Hws']; subst.
    injection Hlen as Hlen. cbn [add_back]. unfold limb in Hd, Hw.
    pose proof B_pos. pose proof B_val.
    rewrite (u64_id (w + d)) by lia. rewrite u64_id by lia.
    set (v := w + d + carry). destruct (div_mod_pos v B B_pos) as [Hdm Hm].
    assert (0 <= v / B <= 1) as Hq.
    { split; [apply Z.div_pos; lia|]. assert (v / B < 2); [|lia].
      apply Z.div_lt_upper_bound; lia. }
    specialize (IH ws (v / B) Hws' Hlen Hq). destruct (add_back ds ws (v / B)) as [out co].
    destruct IH as (Ok & L & Hco & V).
    split; [by constructor|]. split; [simpl; by rewrite L|]. split; [done|].
    cbn [lval]. simpl length. rewrite B_succ. unfold v in *. nia.
Qed.

(** ** One quotient limb *)

(** The two leading limbs of a slice of at least two limbs. *)
Lemma lval_lead2 l :
  limbs_ok l -> (2 <= length l)%nat ->
  let x1 := l !!! (length l - 1)%nat in
  let x2 := l !!! (length l - 2)%nat in
  let P := B ^ Z.of_nat (length l - 2) in
  limb x1 /\ limb x2 /\ (x1 * B + x2) * P <= lval l < (x1 * B + x2 + 1) * P /\
  B ^ Z.of_nat (length l) = B * B * P.
Proof.
  intros Hl Hlen. destruct (list_last_split l) as (l1 & x1 & ->); [intros ->; simpl in *; lia|].
  rewrite length_app in *. simpl length in *.
  destruct (list_last_split l1) as (l2 & x2 & ->); [intros ->; simpl in *; lia|].
  rewrite length_app in *. simpl length in *.
  replace (length l2 + 1 + 1 - 1)%nat with (length l2 + 1)%nat by lia.
  replace (length l2 + 1 + 1 - 2)%nat with (length l2) by lia. cbn zeta.
  apply Forall_app in Hl as [Hl1 Hx1]. apply Forall_app in Hl1 as [Hl2 Hx2].
  inversion Hx1 as [|? ? Hx1' _]; subst. inversion Hx2 as [|? ? Hx2' _]; subst.
  assert (((l2 ++ [x2]) ++ [x1]) !!! (length l2 + 1)%nat = x1) as ->.
  { rewrite lookup_total_app_r by (rewrite length_app; simpl; lia).
    rewrite length_app. simpl length. by rewrite Nat.sub_diag. }
  assert (((l2 ++ [x2]) ++ [x1]) !!! length l2 = x2) as ->.
  { rewrite lookup_total_app_l by (rewrite length_app; simpl; lia).
    rewrite lookup_total_app_r by lia. by rewrite Nat.sub_diag. }
  split; [done|]. split; [done|].
  rewrite lval_snoc, lval_snoc, length_app. simpl length.
  pose proof (lval_bound l2 Hl2) as Hb.
  replace (length l2 + 1 + 1)%nat with (S (S (length l2))) by lia.
  replace (length l2 + 1)%nat with (S (length l2)) by lia. rewrite !B_succ.
  set (P := B ^ Z.of_nat (length l2)) in *. split; nia.
Qed.

(** A divisor whose top limb is at least half the base. *)
Definition normalized (divisor : list Z) : Prop :=
  limbs_ok divisor /\ (2 <= length divisor)%nat /\ B <= 2 * divisor !!! (length divisor - 1)%nat.

Lemma normalized_pos divisor : normalized divisor -> 0 < lval divisor.
Proof.
  intros (Hd & Hlen & Hh). destruct (lval_lead2 divisor Hd Hlen) as (H1 & H2 & H3 & _).
  unfold limb in *. pose proof (B_pow (length divisor - 2)). pose proof B_pos.
  set (P := B ^ Z.of_nat (length divisor - 2)) in *.
  assert (0 < (divisor !!! (length divisor - 1)%nat * B + divisor !!! (length divisor - 2)%nat) * P)
    by (apply Z.mul_pos_pos; nia). lia.
Qed.

(** The borrow out of the window tells the sign of the difference. *)
Lemma borrow_sign x Bn t v :
  0 <= x < Bn -> - Bn <= v < Bn -> x + Bn * t = v -> t = (if v <? 0 then -1 else 0).
Proof.
  intros Hx Hv E. destruct (v <? 0) eqn:Es; breflect.
  - assert (-2 < t) by (apply Z.mul_lt_mono_pos_l with Bn; lia).
    assert (t < 0) by (apply Z.mul_lt_mono_pos_l with Bn; lia). lia.
  - assert (-1 < t) by (apply Z.mul_lt_mono_pos_l with Bn; lia).
    assert (t < 1) by (apply Z.mul_lt_mono_pos_l with Bn; lia). lia.
Qed.

Lemma div_window_spec divisor win top :
  normalized divisor -> limbs_ok win -> length win = length divisor -> limb top ->
  let D := lval divisor in
  let W := lval win + B ^ Z.of_nat (length divisor) * top in
  W < B * D ->
  let '(win', top', q) := div_window divisor win top in
  limbs_ok win' /\ length win' = length divisor /\ top' = 0 /\ limb q /\
  q = W / D /\ lval win' = W mod D.
Proof.
  intros Hn Hwin Hlen Htop D W HWD. pose proof (normalized_pos _ Hn) as HD0.
  destruct Hn as (Hd & Hn2 & Hh). unfold div_window.
  destruct (lval_lead2 divisor Hd Hn2) as (H1 & H2 & H3 & HB2).
  destruct (lval_lead2 win Hwin) as (W1 & W2 & W3 & _); [lia|]. rewrite Hlen in W1, W2, W3.
  set (n := length divisor) in *. set (d1 := divisor !!! (n - 1)%nat) in *.
  set (d2 := divisor !!! (n - 2)%nat) in *. set (u1 := win !!! (n - 1)%nat) in *.
  set (u2 := win !!! (n - 2)%nat) in *. set (P := B ^ Z.of_nat (n - 2)) in *. cbn zeta.
  assert (0 < P) as HP by apply B_pow.
  assert (((top * B + u1) * B + u2) * P <= W < ((top * B + u1) * B + u2 + 1) * P) as HW.
  { unfold W. rewrite HB2. lia. }
  destruct (estimate_spec W D P top u1 u2 d1 d2 HP Htop W1 W2 H1 H2 Hh H3 HW HWD) as [Hq HqB].
  set (est := adjust_estimate _ _ _ _ _ _) in *.
  pose proof B_pos. pose proof B_val as HBv. fold D in HD0.
  assert (0 <= W).
  { unfold limb in *. assert (0 <= ((top * B + u1) * B + u2) * P) by (apply Z.mul_nonneg_nonneg; nia). lia. }
  assert (0 <= W / D) by (apply Z.div_pos; lia).
  pose proof (mul_sub_spec divisor win est 0 Hd Hwin Hlen ltac:(lia) ltac:(lia)) as Hms.
  destruct (mul_sub divisor win est 0) as [win' borrow].
  destruct Hms as (Okw & Lw & Hbo & Vw). fold n D in Lw, Vw.
  pose proof (lval_bound win' Okw) as Bw. rewrite Lw in Bw.
  pose proof (lval_bound divisor Hd) as BD. fold n D in BD.
  set (Bn := B ^ Z.of_nat n) in *. destruct (div_mod_pos W D HD0) as [Hdm Hm].
  unfold limb in Htop.
  (* the true quotient is the estimate, or one below it *)
  destruct (decide (est = W / D)) as [He|He].
  - assert (lval win' + Bn * (top - borrow) = W mod D) as Heq by (rewrite He in Vw; unfold W in *; lia).
    pose proof (borrow_sign (lval win') Bn (top - borrow) (W mod D) Bw ltac:(lia) Heq) as Ht.
    destruct (W mod D <? 0) eqn:Es; breflect; [lia|].
    assert (top = borrow) as Htb by lia.
    destruct (top <? borrow) eqn:E; breflect; [lia|].
    rewrite (u64_id (top + B)) by lia. rewrite u64_id by lia.
    split; [done|]. split; [done|]. split.
    { replace (top + B - borrow) with B by lia. apply Z_mod_same_full. }
    split; [unfold limb; lia|]. split; [done|]. rewrite Htb, Z.sub_diag in Heq. lia.
  - assert (est = W / D + 1) as He' by lia.
    assert (lval win' + Bn * (top - borrow) = W mod D - D) as Heq by (rewrite He' in Vw; unfold W in *; lia).
    pose proof (borrow_sign (lval win') Bn (top - borrow) (W mod D - D) Bw ltac:(lia) Heq) as Htb.
    destruct (W mod D - D <? 0) eqn:Es; breflect; [|lia].
    rewrite Htb in Heq.
    destruct (top <? borrow) eqn:E; breflect; [|lia].
    pose proof (add_back_spec divisor win' 0 Hd Okw Lw ltac:(lia)) as Hab.
    destruct (add_back divisor win' 0) as [win'' carry].
    destruct Hab as (Oka & La & Hca & Va). fold n D Bn in La, Va.
    pose proof (lval_bound win'' Oka) as Ba. rewrite La in Ba. fold Bn in Ba.
    assert (carry = 1) as ->.
    { destruct (decide (carry = 0)) as [->|]; lia. }
    rewrite (u64_id (top + B)) by lia. rewrite (u64_id (top + B - borrow)) by lia.
    replace (top + B - borrow) with (B - 1) by lia.
    rewrite (Z.mod_small (B - 1)) by lia. rewrite (u64_id (B - 1 + 1)) by lia.
    split; [done|]. split; [done|]. split.
    { replace (B - 1 + 1) with B by lia. apply Z_mod_same_full. }
    rewrite u64_id by lia. split; [unfold limb; lia|]. split; [lia|]. lia.
Qed.

(** ** The loop over the quotient limbs *)

(** The content of a quotient slice after its limbs below [n] are written: [None] for nil. *)
Definition quotient_written (n : nat) (before after : option (list Z)) (Q : Z) : Prop :=
  match before, after with
  | None, None => True
  | Some q, Some q' =>
      (n <= length q)%nat ->
      exists low, q' = low ++ drop n q /\ length low = n /\ limbs_ok low /\ lval low = Q
  | _, _ => False
  end.

Lemma quotient_written_step n q q' x Q :
  limb x ->
  quotient_written n ((fun l => <[n := x]> l) <$> q) q' Q ->
  quotient_written (S n) q q' (Q + B ^ Z.of_nat n * x).
Proof.
  intros Hx H. destruct q as [q|], q' as [q'|]; cbn in *; try done.
  intros Hlen. destruct H as (low & -> & L & Ok & V); [rewrite length_insert; lia|].
  exists (low ++ [x]). split; [|split; [|split]].
  - rewrite <- app_assoc. f_equal. rewrite insert_take_drop by lia.
    apply drop_app_length'. rewrite length_take. lia.
  - rewrite length_app. simpl. lia.
  - apply Forall_app. split; [done|]. by constructor.
  - rewrite lval_snoc, L, V. done.
Qed.

Lemma limbs_take n l : limbs_ok l -> limbs_ok (take n l).
Proof. apply Forall_take. Qed.

Lemma limbs_drop n l : limbs_ok l -> limbs_ok (drop n l).
Proof. apply Forall_drop. Qed.

Lemma limbs_lookup l i : limbs_ok l -> (i < length l)%nat -> limb (l !!! i).
Proof. intros H Hi. eapply Forall_lookup_total_1; done. Qed.

Lemma lval_split_window l offset width :
  (offset + width < length l)%nat ->
  lval (drop offset l) =
    lval (take width (drop offset l)) + B ^ Z.of_nat width *
      (l !!! (offset + width)%nat + B * lval (drop (S (offset + width)) l)).
Proof.
  intros H. rewrite <- (take_drop width (drop offset l)) at 1.
  rewrite lval_app, length_take, length_drop, Nat.min_l by lia. rewrite drop_drop.
  f_equal. f_equal.
  destruct (lookup_lt_is_Some_2 l (offset + width)%nat H) as [x Hx].
  rewrite (list_lookup_total_correct _ _ _ Hx).
  by rewrite (drop_S l x (offset + width)%nat Hx).
Qed.

Lemma lval_take_drop n l : (n <= length l)%nat ->
  lval l = lval (take n l) + B ^ Z.of_nat n * lval (drop n l).
Proof.
  intros H. rewrite <- (take_drop n l) at 1. rewrite lval_app, length_take, Nat.min_l by lia. done.
Qed.

Lemma div_loop_spec n dividend divisor quotient :
  normalized divisor -> limbs_ok dividend -> (n + length divisor <= length dividend)%nat ->
  lval (drop (n + length divisor) dividend) = 0 -> lval (drop n dividend) < lval divisor ->
  let '(rest, quotient') := div_loop n dividend divisor quotient in
  limbs_ok rest /\ length rest = length dividend /\
  lval rest = lval dividend mod lval divisor /\
  quotient_written n quotient quotient' (lval dividend / lval divisor).
Proof.
  intros Hn. pose proof (normalized_pos _ Hn) as HD. revert dividend quotient.
  set (D := lval divisor) in *. set (w := length divisor) in *.
  induction n as [|n IH]; intros U quotient HU Hlen Hhi Hlow; cbn [div_loop].
  - rewrite drop_0 in Hlow. pose proof (lval_bound U HU).
    rewrite Z.mod_small, Z.div_small by lia. split; [done|]. split; [done|]. split; [done|].
    destruct quotient; cbn; [|done]. intros _. exists []. rewrite drop_0.
    split; [done|]. split; [done|]. split; [constructor|done].
  - fold w. set (win := take w (drop n U)). set (top := U !!! (n + w)%nat).
    assert (length win = w) as Hlw by (unfold win; rewrite length_take, length_drop; lia).
    assert (limb top) as Htop by (apply limbs_lookup; [done|lia]).
    assert (limbs_ok win) as Hwin by (by apply limbs_take, limbs_drop).
    pose proof (lval_split_window U n w ltac:(lia)) as HsplitU. fold win top in HsplitU.
    change (S n + w)%nat with (S (n + w)) in Hhi. rewrite Hhi in HsplitU.
    assert (lval (drop n U) = U !!! n + B * lval (drop (S n) U)) as Hcons.
    { destruct (lookup_lt_is_Some_2 U n ltac:(lia)) as [x Hx].
      rewrite (list_lookup_total_correct _ _ _ Hx). by rewrite (drop_S U x n Hx). }
    assert (limb (U !!! n)) as HUn by (apply limbs_lookup; [done|lia]).
    set (W := lval win + B ^ Z.of_nat w * top).
    assert (W = lval (drop n U)) as HWU by (unfold W; lia).
    assert (W < B * D) as HWD by (unfold limb in HUn; pose proof B_pos; nia).
    pose proof (div_window_spec divisor win top Hn Hwin Hlw Htop HWD) as Hdw.
    destruct (div_window divisor win top) as [[win' top'] q].
    destruct Hdw as (Okw & Lw & -> & Hq & Eq & Vw). fold w D W in Lw, Eq, Vw.
    set (U' := take n U ++ win' ++ 0 :: drop (S (n + w)) U).
    assert (length U' = length U) as HlU.
    { unfold U'. rewrite !length_app, length_take, Lw. cbn [length].
      rewrite length_drop. lia. }
    assert (drop n U' = win' ++ 0 :: drop (S (n + w)) U) as HdU.
    { unfold U'. apply drop_app_length'. rewrite length_take. lia. }
    assert (lval (drop n U') = W mod D) as HvdU.
    { rewrite HdU, lval_app, Vw. cbn [lval]. rewrite Hhi. lia. }
    assert (limbs_ok U') as HokU.
    { unfold U'. apply Forall_app. split; [by apply limbs_take|]. apply Forall_app.
      split; [done|]. constructor; [split; [lia|apply B_pos]|by apply limbs_drop]. }
    pose proof (Z.mod_pos_bound W D HD) as Hmb.
    assert (lval (drop (n + w) U') = 0) as HhiU.
    { rewrite <- drop_drop, HdU, drop_app_length' by (by rewrite Lw). cbn [lval]. lia. }
    specialize (IH U' ((fun q0 => <[n:=q]> q0) <$> quotient) HokU ltac:(lia) HhiU ltac:(lia)).
    destruct (div_loop n U' divisor ((fun q0 => <[n:=q]> q0) <$> quotient)) as [rest quotient'].
    destruct IH as (Okr & Lr & Vr & Hquot).
    (* the step removes q * B^n times the divisor *)
    assert (lval U = lval U' + B ^ Z.of_nat n * q * D) as Hstep.
    { rewrite (lval_take_drop n U), (lval_take_drop n U') by lia.
      assert (take n U' = take n U) as ->.
      { unfold U'. apply take_app_length'. rewrite length_take. lia. }
      rewrite HvdU, <- HWU. destruct (div_mod_pos W D HD) as [Hdm _]. rewrite Eq. nia. }
    split; [done|]. split; [lia|]. split.
    + rewrite Vr, Hstep. by rewrite Z_mod_plus_full.
    + rewrite Hstep, Z.div_add by lia. by apply quotient_written_step.
Qed.

(** ** Scaling *)

Lemma scale_limbs_spec l scale carry :
  limbs_ok l -> 0 < scale <= B -> 0 <= carry < scale ->
  let '(out, co) := scale_limbs l scale carry in
  limbs_ok out /\ length out = length l /\ 0 <= co < scale /\
  lval out + B ^ Z.of_nat (length l) * co = scale * lval l + carry.
Proof.
  intros Hl Hs. revert carry. induction Hl as [|d l Hd Hl IH]; intros carry Hc; cbn [scale_limbs].
  - split; [constructor|]. split; [done|]. split; [done|].
    change (Z.of_nat (length [])) with 0. rewrite Z.pow_0_r. cbn [lval]. lia.
  - unfold limb in Hd. pose proof B_sq. pose proof two64. pose proof B_pos.
    assert (0 <= d * scale <= (B - 1) * scale) by nia.
    assert ((B - 1) * scale <= (B - 1) * B) by nia.
    rewrite (u64_id (d * scale)) by lia. rewrite u64_id by lia.
    set (v := d * scale + carry). destruct (div_mod_pos v B B_pos) as [Hdm Hm].
    assert (0 <= v / B < scale) as Hq.
    { split; [apply Z.div_pos; lia|]. apply Z.div_lt_upper_bound; lia. }
    specialize (IH (v / B) Hq). destruct (scale_limbs l scale (v / B)) as [out co].
    destruct IH as (Ok & L & Hco & V). split; [by constructor|]. split; [simpl; by rewrite L|].
    split; [done|]. cbn [lval]. simpl length. rewrite B_succ. unfold v in *. lia.
Qed.

Lemma unscale_limbs_spec l scale :
  limbs_ok l -> 0 < scale <= B ->
  let '(out, carry) := unscale_limbs l scale in
  limbs_ok out /\ length out = length l /\ 0 <= carry < scale /\
  lval l = scale * lval out + carry.
Proof.
  intros Hl Hs. induction Hl as [|d l Hd Hl IH]; cbn [unscale_limbs].
  - split; [constructor|]. split; [done|]. split; [lia|]. cbn. lia.
  - destruct (unscale_limbs l scale) as [out carry]. destruct IH as (Ok & L & Hc & V).
    unfold limb in Hd. pose proof B_sq. pose proof two64. pose proof B_pos.
    assert (0 <= carry * B <= (scale - 1) * B) by nia.
    assert ((scale - 1) * B <= (B - 1) * B) by nia.
    rewrite (u64_id (carry * B)) by lia. rewrite u64_id by lia.
    set (v := carry * B + d). destruct (div_mod_pos v scale ltac:(lia)) as [Hdm Hm].
    split.
    { constructor; [|done]. split; [apply Z.div_pos; lia|]. apply Z.div_lt_upper_bound; lia. }
    split; [simpl; by rewrite L|]. split; [done|]. cbn [lval]. rewrite V. unfold v in *. lia.
Qed.

Lemma lval_inj l1 l2 :
  limbs_ok l1 -> limbs_ok l2 -> length l1 = length l2 -> lval l1 = lval l2 -> l1 = l2.
Proof.
  intros H1. revert l2. induction H1 as [|d l1 Hd H1 IH]; intros [|e l2] H2 Hlen Hv; try done.
  inversion H2 as [|? ? He H2']; subst. injection Hlen as Hlen. cbn [lval] in Hv.
  unfold limb in *. pose proof (lval_bound l1 H1). pose proof (lval_bound l2 H2').
  assert (d = e) as ->.
  { rewrite <- (Z.mod_small d B), <- (Z.mod_small e B) by lia.
    rewrite <- (Z_mod_plus_full d (lval l1) B), <- (Z_mod_plus_full e (lval l2) B).
    f_equal. lia. }
  f_equal. apply IH; try done. pose proof B_pos. nia.
Qed.

Lemma lval_top l :
  limbs_ok l -> l <> [] ->
  let t := l !!! (length l - 1)%nat in
  let P := B ^ Z.of_nat (length l - 1) in
  limb t /\ t = List.last l 0 /\ t * P <= lval l < (t + 1) * P.
Proof.
  intros Hl Hne. destruct (list_last_split l Hne) as (l' & x & ->).
  rewrite length_app. cbn [length]. replace (length l' + 1 - 1)%nat with (length l') by lia.
  cbn zeta. rewrite lookup_total_app_r, Nat.sub_diag by lia. cbn [list_lookup_total lookup_total].
  apply Forall_app in Hl as [Hl' Hx]. inversion Hx as [|? ? Hx' _]; subst.
  rewrite List.last_last, lval_snoc. pose proof (lval_bound l' Hl'). change ([x] !!! 0%nat) with x.
  split; [done|]. split; [done|]. lia.
Qed.

(** Knuth's choice of the scale: it keeps the divisor's length and lifts its top limb to at
    least half the base. *)
Lemma scale_choice v :
  1 <= v < B -> let s := B / (v + 1) in 0 < s <= B /\ s * (v + 1) <= B /\ B <= 2 * (s * v).
Proof.
  intros Hv. cbn zeta. destruct (div_mod_pos B (v + 1) ltac:(lia)) as [Hdm Hm].
  pose proof B_val as HBv. set (s := B / (v + 1)) in *.
  assert (0 < s) by (apply Z.div_str_pos; lia).
  assert (s * (v + 1) <= B) by lia.
  split; [split; [done|nia]|]. split; [done|].
  (* otherwise (v + 1) * (s + 1) would not exceed the base *)
  destruct (Z.le_gt_cases B (2 * (s * v))) as [|Hlt]; [done|exfalso].
  assert (s + v <= s * v + 1) by nia.
  assert (B < (v + 1) * (s + 1)) by lia. lia.
Qed.

Lemma normalize_divisor divisor :
  limbs_canonical divisor -> (2 <= length divisor)%nat ->
  let scale := B / (divisor !!! (length divisor - 1)%nat + 1) in
  let '(out, _) := scale_limbs divisor scale 0 in
  0 < scale <= B /\ normalized out /\ length out = length divisor /\
  lval out = scale * lval divisor.
Proof.
  intros (Hd & Hne & Htop) Hlen. destruct Htop as [|Htop]; [lia|].
  destruct (lval_top divisor Hd Hne) as (Ht & Elast & Hb). rewrite <- Elast in Htop.
  set (t := divisor !!! _) in *. unfold limb in Ht.
  destruct (scale_choice t ltac:(lia)) as (Hs & Hs1 & Hs2).
  set (scale := B / (t + 1)) in *. cbn zeta.
  pose proof (scale_limbs_spec divisor scale 0 Hd Hs ltac:(lia)) as Hsc.
  destruct (scale_limbs divisor scale 0) as [out co]. destruct Hsc as (Ok & L & Hco & V).
  pose proof (lval_bound out Ok) as Bo. rewrite L in Bo.
  set (P := B ^ Z.of_nat (length divisor - 1)) in *.
  assert (0 < P) by apply B_pow.
  assert (B ^ Z.of_nat (length divisor) = B * P) as HBn.
  { unfold P. rewrite <- B_succ. do 2 f_equal. lia. }
  assert (scale * lval divisor < B * P) as Hlt.
  { assert (scale * lval divisor < scale * ((t + 1) * P)) by (apply Z.mul_lt_mono_pos_l; lia).
    assert (scale * (t + 1) * P <= B * P) by (apply Z.mul_le_mono_nonneg_r; lia). lia. }
  assert (co = 0) as ->.
  { destruct (decide (co = 0)) as [|]; [done|]. exfalso. rewrite HBn in V.
    assert (B * P * 1 <= B * P * co); [|lia].
    apply Z.mul_le_mono_nonneg_l; [|lia]. pose proof B_pos. nia. }
  assert (lval out = scale * lval divisor) as Vo by lia.
  split; [done|]. split; [|done]. split; [done|]. split; [lia|].
  destruct (lval_top out Ok) as (Ht' & _ & Hb'); [by destruct out, divisor|].
  rewrite L in *. fold P in Hb'. set (t' := out !!! _) in *.
  assert (scale * t * P <= scale * lval divisor) by nia.
  assert (scale * t < t' + 1); [|lia]. apply Z.mul_lt_mono_pos_r with P; lia.
Qed.

(** ** One-limb divisors *)

Lemma short_div_spec i dividend d rem quotient :
  limbs_ok dividend -> (i <= length dividend)%nat -> limb d -> 0 <= rem < d ->
  let V := lval (take i dividend) + B ^ Z.of_nat i * rem in
  let '(r, quotient') := short_div i dividend d rem quotient in
  r = V mod d /\ quotient_written i quotient quotient' (V / d).
Proof.
  intros Hl. revert rem quotient. induction i as [|i IH]; intros rem quotient Hi Hd Hrem; cbn [short_div].
  - rewrite take_0. change (Z.of_nat 0) with 0. rewrite Z.pow_0_r. cbn [lval].
    replace (0 + 1 * rem) with rem by lia. rewrite Z.mod_small, Z.div_small by lia.
    split; [done|]. destruct quotient; cbn; [|done]. intros _. exists []. rewrite drop_0.
    split; [done|]. split; [done|]. split; [constructor|done].
  - pose proof (limbs_lookup dividend i Hl ltac:(lia)) as Hx. set (x := dividend !!! i) in *.
    unfold limb in *. pose proof B_sq. pose proof two64. pose proof B_pos.
    assert (0 <= rem * B <= (d - 1) * B) by nia.
    assert ((d - 1) * B <= (B - 1) * B) by nia.
    rewrite (u64_id (rem * B)) by lia. rewrite u64_id by lia.
    set (v := rem * B + x). destruct (div_mod_pos v d ltac:(lia)) as [Hdm Hm].
    specialize (IH (v mod d) ((fun q => <[i:=v / d]> q) <$> quotient) ltac:(lia) Hd Hm).
    cbn zeta in *. destruct (short_div i dividend d (v mod d) _) as [r quotient'].
    destruct IH as [Hr Hq].
    assert (lval (take (S i) dividend) + B ^ Z.of_nat (S i) * rem
            = lval (take i dividend) + B ^ Z.of_nat i * (v mod d) + (B ^ Z.of_nat i * (v / d)) * d) as ->.
    { destruct (lookup_lt_is_Some_2 dividend i ltac:(lia)) as [y Hy].
      rewrite (take_S_r _ _ _ Hy), lval_snoc, length_take, Nat.min_l by lia.
      assert (x = y) as Exy by (apply list_lookup_total_correct; done).
      rewrite B_succ. unfold v in *. nia. }
    rewrite Z_mod_plus_full, Z.div_add by lia. split; [done|].
    apply quotient_written_step; [|done].
    split; [apply Z.div_pos; lia|]. apply Z.div_lt_upper_bound; lia.
Qed.

(** ** The division *)

Lemma mod_scaled a b s : 0 < s -> 0 < b -> (s * a) mod (s * b) = s * (a mod b) /\ (s * a) / (s * b) = a / b.
Proof. intros. rewrite Z.mul_mod_distr_l, Z.div_mul_cancel_l by lia. done. Qed.

(** [divideDecimalLimbs] returns the remainder in canonical form, restores the divisor slice
    and, when it is given a quotient slice, fills it with the quotient. *)
Lemma divideDecimalLimbs_spec dividend divisor quotient :
  limbs_canonical dividend -> limbs_canonical divisor -> 0 < lval divisor ->
  let '(remainder, divisor', quotient') := divideDecimalLimbs dividend divisor quotient in
  limbs_canonical remainder /\ lval remainder = lval dividend mod lval divisor /\
  divisor' = divisor /\
  ((length divisor <= length dividend)%nat ->
   quotient_written (length dividend - length divisor + 1) quotient quotient'
                    (lval dividend / lval divisor)).
Proof.
  intros Hu Hd HD0. unfold divideDecimalLimbs.
  destruct (Nat.ltb_spec (length dividend) (length divisor)) as [Hlt|Hge].
  { destruct Hd as (Hd & Hne & [Hl1|Htop]).
    { destruct Hu as (_ & Hne' & _). destruct dividend; [done|]. simpl in Hlt. lia. }
    destruct Hu as (Hu & Hne' & Ht). pose proof (lval_bound dividend Hu) as Hb.
    pose proof (lval_lower divisor Hd Htop) as Hlow.
    assert (B ^ Z.of_nat (length dividend) <= B ^ Z.of_nat (length divisor - 1)).
    { apply Z.pow_le_mono_r; [apply B_pos|lia]. }
    rewrite Z.mod_small by lia. split; [done|]. split; [done|]. split; [done|lia]. }
  destruct (Nat.eqb_spec (length divisor) 1) as [H1|H1].
  { destruct Hd as (Hd & _ & _). destruct divisor as [|d [|? ?]]; try done.
    inversion Hd as [|? ? Hdd _]; subst. change ([d] !!! 0%nat) with d.
    assert (lval [d] = d) as Ed by (cbn [lval]; lia). rewrite Ed in *.
    destruct Hu as (Hu & _ & _).
    pose proof (short_div_spec (length dividend) dividend d 0 quotient Hu ltac:(lia) Hdd ltac:(lia)) as Hs.
    destruct (short_div _ _ _ _ _) as [r quotient']. cbn zeta in Hs.
    rewrite take_ge, Z.mul_0_r, Z.add_0_r in Hs by lia. destruct Hs as [-> Hq].
    pose proof (Z.mod_pos_bound (lval dividend) d HD0). unfold limb in Hdd.
    split. { split; [constructor; [unfold limb; lia|constructor]|]. split; [done|by left]. }
    split; [cbn [lval]; lia|]. split; [done|]. intros _.
    cbn [length]. replace (length dividend - 1 + 1)%nat with (length dividend) by (simpl in Hge; lia).
    done. }
  assert (2 <= length divisor)%nat as H2.
  { destruct Hd as (_ & Hne & _). destruct divisor as [|? [|? ?]]; simpl in *; try done; lia. }
  cbn zeta. pose proof (normalize_divisor divisor Hd H2) as Hnd. cbn zeta in Hnd.
  destruct Hd as (Hd & Hne & [|Htop]); [lia|]. destruct Hu as (Hu & Hune & _).
  pose proof (lval_top divisor Hd Hne) as (Hlt & _ & _). unfold limb in Hlt.
  pose proof B_val as HBv. rewrite (u64_id (_ + 1)) by lia.
  set (scale := B / (divisor !!! (length divisor - 1)%nat + 1)) in *.
  destruct (scale_limbs divisor scale 0) as [dn co]. destruct Hnd as (Hs & Hn & Ln & Vn).
  pose proof (scale_limbs_spec dividend scale 0 Hu Hs ltac:(lia)) as Hsu.
  destruct (scale_limbs dividend scale 0) as [un cu]. destruct Hsu as (Oku & Lu & Hcu & Vu).
  set (U := un ++ [cu]).
  assert (limbs_ok U) as HokU.
  { apply Forall_app. split; [done|]. constructor; [unfold limb; lia|constructor]. }
  assert (lval U = scale * lval dividend) as HvU.
  { unfold U. rewrite lval_snoc, Lu. lia. }
  set (qw := (length dividend - length divisor + 1)%nat).
  assert (length U = (qw + length dn)%nat) as HlU.
  { unfold U. rewrite length_app. cbn [length]. unfold qw. lia. }
  (* the limbs above the first window are below the divisor *)
  assert (lval (drop qw U) < lval dn) as Hfirst.
  { pose proof (lval_lower divisor Hd Htop) as Hlow. pose proof (lval_bound dividend Hu) as Hb.
    pose proof (lval_take_drop qw U ltac:(lia)) as Hsplit. rewrite HvU in Hsplit.
    pose proof (lval_bound (take qw U) (limbs_take _ _ HokU)) as Hlo.
    pose proof (B_pow qw) as Hpq. rewrite Vn.
    assert (B ^ Z.of_nat (length dividend)
            = B ^ Z.of_nat qw * B ^ Z.of_nat (length divisor - 1)) as Hpow.
    { rewrite <- Z.pow_add_r, <- Nat2Z.inj_add by lia. do 2 f_equal. unfold qw. lia. }
    assert (lval (drop qw U) < scale * B ^ Z.of_nat (length divisor - 1)); [|nia].
    apply Z.mul_lt_mono_pos_l with (B ^ Z.of_nat qw); [done|].
    assert (scale * lval dividend < scale * B ^ Z.of_nat (length dividend)).
    { apply Z.mul_lt_mono_pos_l; lia. }
    rewrite Hpow in *. lia. }
  pose proof (div_loop_spec qw U dn quotient Hn HokU ltac:(lia)) as Hdl.
  rewrite (drop_ge U (qw + length dn)) in Hdl by lia. specialize (Hdl eq_refl Hfirst).
  destruct (div_loop qw U dn quotient) as [rest quotient'].
  destruct Hdl as (Okr & Lr & Vr & Hq). rewrite HvU, Vn in Vr, Hq.
  destruct (mod_scaled (lval dividend) (lval divisor) scale ltac:(lia) HD0) as [Hms Hds].
  rewrite Hms in Vr. rewrite Hds in Hq.
  pose proof (Z.mod_pos_bound (lval dividend) (lval divisor) HD0) as Hmb.
  (* the remainder occupies the low limbs *)
  assert (lval (take (length divisor) rest) = lval rest) as Htake.
  { pose proof (lval_take_drop (length divisor) rest ltac:(lia)) as Hsplit.
    pose proof (lval_bound _ (limbs_take (length divisor) rest Okr)) as Hb1.
    pose proof (lval_bound _ (limbs_drop (length divisor) rest Okr)) as Hb2.
    pose proof (lval_bound dn (proj1 Hn)) as Hb3. rewrite Ln, Vn in Hb3.
    destruct (decide (lval (drop (length divisor) rest) = 0)) as [E|E]; [rewrite E in Hsplit; lia|].
    exfalso. pose proof (B_pow (length divisor)).
    assert (B ^ Z.of_nat (length divisor) <= lval rest) by nia. nia. }
  pose proof (unscale_limbs_spec (take (length divisor) rest) scale (limbs_take _ _ Okr) Hs) as Hur.
  destruct (unscale_limbs (take (length divisor) rest) scale) as [rem cr].
  destruct Hur as (Okm & Lm & Hcr & Vm). rewrite Htake, Vr in Vm.
  pose proof (unscale_limbs_spec dn scale (proj1 Hn) Hs) as Hud.
  destruct (unscale_limbs dn scale) as [dd cd]. destruct Hud as (Okd & Ld & Hcd & Vd).
  rewrite Vn in Vd.
  assert (lval dd = lval divisor) by nia.
  assert (lval rem = lval dividend mod lval divisor) as Hrem by nia.
  destruct (trim_limbs_spec rem Okm) as [Hcan Vt].
  { intros ->. rewrite length_take in Lm. simpl in Lm. lia. }
  split; [done|]. split; [lia|]. split; [|by intros _].
  apply lval_inj; try done. lia.
Qed.
