(* ===== verification/DecimalArith.v ===== *)
(** * Products, quotients, greatest common divisors and powers of two of decimal texts
    (src/compiler/constant/decimal.go)

    Each operation has a fast path through 64-bit integers and a slow path through limbs; the
    theorems hold for both and say nothing about which one ran. *)

From S2P Require Import Prelude GoStd Decimal DecimalLimbs DecimalDiv.

Local Abbreviation B := decimalLimbBase.

(** ** Multiplication *)

(** The 64-bit path of [MultiplySignedDecimal]; [None] when an operand or the product does not
    fit. *)
Definition mul_uint64 (left right : gostring) : option gostring :=
  if (length left <=? 20)%nat && (length right <=? 20)%nat then
    match ParseUint left 10 with
    | Some leftValue =>
        match ParseUint right 10 with
        | Some rightValue =>
            if (rightValue =? 0) || (leftValue <=? maxUint64 / rightValue)
            then Some (FormatUint (u64 (leftValue * rightValue)))
            else None
        | None => None
        end
    | None => None
    end
  else None.

Definition MultiplySignedDecimal (left right : gostring) : option gostring :=
  match NormalizeSignedDecimal left, NormalizeSignedDecimal right with
  | Some l, Some r =>
      let negative := xorb (HasPrefix l (lit "-")) (HasPrefix r (lit "-")) in
      let l := TrimPrefix l (lit "-") in
      let r := TrimPrefix r (lit "-") in
      if bool_decide (l = lit "0") || bool_decide (r = lit "0") then Some (lit "0")
      else if bool_decide (l = lit "1") || bool_decide (r = lit "1") then
        let out := if bool_decide (l = lit "1") then r else l in
        Some (if negative then lit "-" ++ out else out)
      else
        match mul_uint64 l r with
        | Some out => Some (if negative then lit "-" ++ out else out)
        | None => Some (withSign negative (formatDecimalLimbs (mul_limbs (decimalLimbs l) (decimalLimbs r))))
        end
  | _, _ => None
  end.

(** ** Division *)

(** The 64-bit path of [divideCanonicalDecimal]. *)
Definition div_uint64 (left right : gostring) : option (gostring * gostring) :=
  if (length left <=? 20)%nat && (length right <=? 20)%nat then
    match ParseUint left 10 with
    | Some leftValue =>
        match ParseUint right 10 with
        | Some rightValue =>
            Some (FormatUint (leftValue / rightValue), FormatUint (leftValue mod rightValue))
        | None => None
        end
    | None => None
    end
  else None.

Definition divideCanonicalDecimal (left right : gostring) : gostring * gostring :=
  if decide (right = lit "1") then (left, lit "0")
  else
    let comparison := compareCanonicalDecimal left right in
    if comparison <? 0 then (lit "0", left)
    else if comparison =? 0 then (lit "1", lit "0")
    else
      match div_uint64 left right with
      | Some qr => qr
      | None =>
          let dividend := decimalLimbs left in
          let divisor := decimalLimbs right in
          let quotient := replicate (length dividend - length divisor + 1) 0 in
          let '(remainder, _, quotient) := divideDecimalLimbs dividend divisor (Some quotient) in
          (formatDecimalLimbs (default [] quotient), formatDecimalLimbs remainder)
      end.

Definition DivideSignedDecimal (left right : gostring) : option (gostring * gostring) :=
  match NormalizeSignedDecimal left, NormalizeSignedDecimal right with
  | Some l, Some r =>
      if decide (r = lit "0") then None
      else
        let quotientNegative := xorb (HasPrefix l (lit "-")) (HasPrefix r (lit "-")) in
        let remainderNegative := HasPrefix l (lit "-") in
        let '(quotient, remainder) :=
          divideCanonicalDecimal (TrimPrefix l (lit "-")) (TrimPrefix r (lit "-")) in
        Some (withSign quotientNegative quotient, withSign remainderNegative remainder)
  | _, _ => None
  end.

Definition DivideUnsignedDecimal (left right : gostring) : option (gostring * gostring) :=
  match normalizeUnsignedDecimal left, normalizeUnsignedDecimal right with
  | Some l, Some r => if decide (r = lit "0") then None else Some (divideCanonicalDecimal l r)
  | _, _ => None
  end.

(** ** Greatest common divisor *)

(** [for b != 0 { a, b = b, a%b }] on [uint64]. *)
Fixpoint gcd_uint64 (fuel : nat) (a b : Z) : Z :=
  match fuel with
  | O => a
  | S fuel' => if b =? 0 then a else gcd_uint64 fuel' b (a mod b)
  end.

(** Two rounds of Euclid's loop halve the second number, so 129 rounds end it on 64 bits. *)
Definition gcd_fuel64 : nat := 129.

(** [for len(divisor) > 1 { ... }]: the dividend takes the divisor slice, which the division
    restores, and the divisor takes the remainder. *)
Fixpoint gcd_limbs (fuel : nat) (dividend divisor : list Z) : list Z * list Z :=
  match fuel with
  | O => (dividend, divisor)
  | S fuel' =>
      if (1 <? length divisor)%nat then
        let '(remainder, divisor, _) := divideDecimalLimbs dividend divisor None in
        gcd_limbs fuel' divisor remainder
      else (dividend, divisor)
  end.

(** The remainder of a limb slice by one limb: [b = (b*base + dividend[i]) % a] from the top. *)
Fixpoint rem_limbs (l : list Z) (a : Z) : Z :=
  match l with
  | [] => 0
  | d :: l' => u64 (u64 (rem_limbs l' a * decimalLimbBase) + d) mod a
  end.

(** The 64-bit path of [gcdCanonicalDecimal]. *)
Definition gcd_parsed (left right : gostring) : option gostring :=
  if (length left <=? 20)%nat && (length right <=? 20)%nat then
    match ParseUint left 10 with
    | Some a =>
        match ParseUint right 10 with
        | Some b => Some (FormatUint (gcd_uint64 gcd_fuel64 a b))
        | None => None
        end
    | None => None
    end
  else None.

Definition gcdCanonicalDecimal (left right : gostring) : gostring :=
  if decide (right = lit "0") then left
  else if bool_decide (right = lit "1") || bool_decide (left = lit "1") then lit "1"
  else
    match gcd_parsed left right with
    | Some g => g
    | None =>
        let r := decimalLimbs right in
        (* a limb has 30 bits at most *)
        let '(dividend, divisor) := gcd_limbs (2 * (30 * length r) + 1) (decimalLimbs left) r in
        let a := divisor !!! 0%nat in
        if a =? 0 then formatDecimalLimbs dividend
        else FormatUint (gcd_uint64 gcd_fuel64 a (rem_limbs dividend a))
    end.

Definition GCDUnsignedDecimal (left right : gostring) : gostring :=
  match normalizeUnsignedDecimal left, normalizeUnsignedDecimal right with
  | Some l, Some r => gcdCanonicalDecimal l r
  | _, _ => lit "1"
  end.

(** ** Lemmas: multiplication *)

Lemma FormatUint_one_iff n : 0 <= n -> FormatUint n = lit "1" <-> n = 1.
Proof.
  intros Hn. split; [|by intros ->]. intros H. rewrite <- (dval_FormatUint n Hn), H. done.
Qed.

Lemma decimalLimbs_Format n :
  0 <= n -> limbs_canonical (decimalLimbs (FormatUint n)) /\ lval (decimalLimbs (FormatUint n)) = n.
Proof.
  intros Hn. split; [apply decimalLimbs_canonical; auto with go|].
  destruct (decimalLimbs_val (FormatUint n)) as [_ ->]; [auto with go|]. by apply dval_FormatUint.
Qed.

(** What the 64-bit parse of a canonical text yields. *)
Lemma ParseUint_Some_Format n v :
  0 <= n -> ParseUint (FormatUint n) 10 = Some v -> v = n /\ n < 2 ^ 64.
Proof.
  intros Hn. rewrite ParseUint_FormatUint by done. unfold maxUint64.
  case_if; [done|]. intros H. injection H as <-. lia.
Qed.

Lemma mul_uint64_spec a b out :
  0 <= a -> 0 <= b -> mul_uint64 (FormatUint a) (FormatUint b) = Some out -> out = FormatUint (a * b).
Proof.
  intros Ha Hb. unfold mul_uint64. case_if; [|done].
  destruct (ParseUint (FormatUint a) 10) as [x|] eqn:Ex; [|done].
  destruct (ParseUint (FormatUint b) 10) as [y|] eqn:Ey; [|done].
  apply ParseUint_Some_Format in Ex as [-> Hx]; [|done].
  apply ParseUint_Some_Format in Ey as [-> Hy]; [|done].
  destruct ((b =? 0) || (a <=? maxUint64 / b)) eqn:E; [|done].
  intros Hout. injection Hout as <-. f_equal. apply u64_id. split; [nia|].
  apply orb_true_iff in E as [E|E]; breflect; [subst; lia|].
  destruct (decide (b = 0)) as [->|]; [lia|].
  pose proof (Z.mul_div_le maxUint64 b ltac:(lia)). unfold maxUint64 in *. nia.
Qed.

Lemma signed_text (neg : bool) n :
  0 < n -> (if neg then lit "-" ++ FormatUint n else FormatUint n) = FormatInt (if neg then - n else n).
Proof.
  intros Hn. destruct neg; [|by rewrite FormatInt_nonneg by lia].
  by rewrite FormatInt_neg, Z.opp_involutive by lia.
Qed.

Lemma sign_abs_mul a b :
  (if xorb (a <? 0) (b <? 0) then - (Z.abs a * Z.abs b) else Z.abs a * Z.abs b) = a * b.
Proof. destruct (a <? 0) eqn:Ea, (b <? 0) eqn:Eb; breflect; cbn [xorb]; nia. Qed.

Lemma MultiplySigned_Format a b :
  MultiplySignedDecimal (FormatInt a) (FormatInt b) = Some (FormatInt (a * b)).
Proof.
  unfold MultiplySignedDecimal.
  rewrite !Normalize_FormatInt, !HasPrefix_FormatInt, !TrimPrefix_FormatInt. cbn zeta.
  rewrite <- (sign_abs_mul a b).
  assert (0 <= Z.abs a) as Ha by lia. assert (0 <= Z.abs b) as Hb by lia.
  set (neg := xorb (a <? 0) (b <? 0)). generalize dependent (Z.abs b). intros y Hy.
  generalize dependent (Z.abs a). intros x Hx. clearbody neg. clear a b.
  destruct (bool_decide (FormatUint x = lit "0") || _) eqn:E0.
  { f_equal. change (lit "0") with (FormatInt 0). f_equal.
    apply orb_true_iff in E0 as [E0|E0]; apply bool_decide_eq_true, FormatUint_zero_iff in E0;
      try done; subst; destruct neg; lia. }
  apply orb_false_iff in E0 as [Ex0 Ey0].
  rewrite bool_decide_eq_false, FormatUint_zero_iff in Ex0, Ey0 by done.
  destruct (_ || _) eqn:E1.
  { f_equal. case_bool_decide as Hx1.
    - apply FormatUint_one_iff in Hx1; [|done]. subst. rewrite Z.mul_1_l.
      apply signed_text. lia.
    - cbn [orb] in E1. apply bool_decide_eq_true, FormatUint_one_iff in E1; [|done].
      subst. rewrite Z.mul_1_r. apply signed_text. lia. }
  destruct (mul_uint64 _ _) as [out|] eqn:E2.
  { f_equal. apply mul_uint64_spec in E2; [|done..]. subst. apply signed_text. nia. }
  f_equal. destruct (decimalLimbs_Format x Hx) as [(Okx & Nx & _) Vx].
  destruct (decimalLimbs_Format y Hy) as [(Oky & Ny & _) Vy].
  destruct (mul_limbs_spec _ _ Okx Oky) as (Ok & L & V).
  rewrite formatDecimalLimbs_spec; [|done|].
  - rewrite V, Vx, Vy. apply withSign_Format. nia.
  - intros E. rewrite E in L. destruct (decimalLimbs (FormatUint x)); [done|]. simpl in L. lia.
Qed.

Lemma MultiplySigned_spec left right : MultiplySignedDecimal left right = dec_op Z.mul left right.
Proof.
  unfold dec_op. destruct (dec_int left) as [a|] eqn:Ea, (dec_int right) as [b|] eqn:Eb.
  - rewrite <- MultiplySigned_Format. unfold MultiplySignedDecimal.
    by rewrite !NormalizeSignedDecimal_spec, Ea, Eb, !dec_int_FormatInt.
  - unfold MultiplySignedDecimal. by rewrite !NormalizeSignedDecimal_spec, Ea, Eb.
  - unfold MultiplySignedDecimal. by rewrite !NormalizeSignedDecimal_spec, Ea, Eb.
  - unfold MultiplySignedDecimal. by rewrite !NormalizeSignedDecimal_spec, Ea, Eb.
Qed.

(** ** Lemmas: division *)

Lemma div_uint64_spec a b qr :
  0 <= a -> 0 < b -> div_uint64 (FormatUint a) (FormatUint b) = Some qr ->
  qr = (FormatUint (a / b), FormatUint (a mod b)).
Proof.
  intros Ha Hb. unfold div_uint64. case_if; [|done].
  destruct (ParseUint (FormatUint a) 10) as [x|] eqn:Ex; [|done].
  destruct (ParseUint (FormatUint b) 10) as [y|] eqn:Ey; [|done].
  apply ParseUint_Some_Format in Ex as [-> _]; [|done].
  apply ParseUint_Some_Format in Ey as [-> _]; [|lia].
  intros Hout. by injection Hout as <-.
Qed.

Lemma limbs_length_le x y :
  limbs_canonical x -> limbs_canonical y -> lval x <= lval y -> (length x <= length y)%nat.
Proof.
  intros (Hx & Nx & Tx) (Hy & Ny & _) Hle.
  destruct (Nat.le_gt_cases (length x) (length y)) as [|Hgt]; [done|exfalso].
  destruct Tx as [T1|T1]; [destruct y; [done|simpl in *; lia]|].
  pose proof (lval_lower x Hx T1). pose proof (lval_bound y Hy).
  assert (B ^ Z.of_nat (length y) <= B ^ Z.of_nat (length x - 1)).
  { apply Z.pow_le_mono_r; [apply B_pos|lia]. }
  lia.
Qed.

Lemma divideCanonicalDecimal_spec a b :
  0 <= a -> 0 < b ->
  divideCanonicalDecimal (FormatUint a) (FormatUint b) = (FormatUint (a / b), FormatUint (a mod b)).
Proof.
  intros Ha Hb. unfold divideCanonicalDecimal. case_decide as H1.
  { apply FormatUint_one_iff in H1; [|lia]. subst. by rewrite Z.div_1_r, Z.mod_1_r. }
  cbn zeta. rewrite compareCanonicalDecimal_spec by lia.
  destruct (Z.sgn (a - b) <? 0) eqn:E1; breflect.
  { apply Z.sgn_neg_iff in E1. by rewrite Z.div_small, Z.mod_small by lia. }
  destruct (Z.sgn (a - b) =? 0) eqn:E2; breflect.
  { apply Z.sgn_null_iff in E2. assert (a = b) as -> by lia.
    by rewrite Z_div_same_full, Z_mod_same_full by lia. }
  assert (b < a) as Hlt by lia.
  destruct (div_uint64 _ _) as [qr|] eqn:E3; [by apply div_uint64_spec|].
  destruct (decimalLimbs_Format a Ha) as [Ca Va].
  destruct (decimalLimbs_Format b ltac:(lia)) as [Cb Vb].
  set (da := decimalLimbs (FormatUint a)) in *. set (db := decimalLimbs (FormatUint b)) in *.
  pose proof (divideDecimalLimbs_spec da db (Some (replicate (length da - length db + 1) 0)) Ca Cb) as Hd.
  rewrite Va, Vb in Hd. specialize (Hd Hb).
  destruct (divideDecimalLimbs da db _) as [[remainder divisor'] quotient'].
  destruct Hd as ((Okr & Nr & _) & Vr & _ & Hq).
  specialize (Hq (limbs_length_le db da Cb Ca ltac:(lia))).
  destruct quotient' as [q|]; [|done]. destruct Hq as (low & -> & Ll & Okl & Vl).
  { rewrite length_replicate. lia. }
  rewrite drop_ge, app_nil_r by (rewrite length_replicate; lia). opt_simpl.
  rewrite !formatDecimalLimbs_spec by (done || (intros ->; simpl in Ll; lia)).
  by rewrite Vl, Vr.
Qed.

Lemma sign_quot a b :
  b <> 0 ->
  (if xorb (a <? 0) (b <? 0) then - (Z.abs a / Z.abs b) else Z.abs a / Z.abs b) = Z.quot a b /\
  (if a <? 0 then - (Z.abs a mod Z.abs b) else Z.abs a mod Z.abs b) = Z.rem a b.
Proof.
  intros Hb. rewrite <- Z.quot_div_nonneg, <- Z.rem_mod_nonneg by lia.
  rewrite Z.quot_abs, Z.rem_abs by done.
  assert (Z.abs (Z.rem a b) = if a <? 0 then - Z.rem a b else Z.rem a b) as ->.
  { destruct (a <? 0) eqn:Ea; breflect.
    - pose proof (Z.rem_nonpos a b Hb ltac:(lia)). lia.
    - pose proof (Z.rem_nonneg a b Hb ltac:(lia)). lia. }
  assert (Z.abs (Z.quot a b) = if xorb (a <? 0) (b <? 0) then - Z.quot a b else Z.quot a b) as ->.
  { rewrite <- Z.quot_abs by done.
    destruct (a <? 0) eqn:Ea, (b <? 0) eqn:Eb; breflect; cbn [xorb].
    - rewrite !Z.abs_neq by lia. by rewrite Z.quot_opp_opp by lia.
    - rewrite (Z.abs_neq a), (Z.abs_eq b) by lia. by rewrite Z.quot_opp_l by lia.
    - rewrite (Z.abs_eq a), (Z.abs_neq b) by lia. by rewrite Z.quot_opp_r by lia.
    - by rewrite !Z.abs_eq by lia. }
  destruct (xorb _ _), (a <? 0); lia.
Qed.

Lemma DivideSigned_Format a b :
  DivideSignedDecimal (FormatInt a) (FormatInt b) =
    if b =? 0 then None else Some (FormatInt (Z.quot a b), FormatInt (Z.rem a b)).
Proof.
  unfold DivideSignedDecimal. rewrite !Normalize_FormatInt.
  destruct (b =? 0) eqn:E; breflect.
  { subst. by case_decide. }
  case_decide as Hz; [by apply FormatInt_zero_iff in Hz|].
  cbn zeta. rewrite !HasPrefix_FormatInt, !TrimPrefix_FormatInt.
  rewrite divideCanonicalDecimal_spec by lia.
  assert (0 <= Z.abs a / Z.abs b) by (apply Z.div_pos; lia).
  pose proof (Z.mod_pos_bound (Z.abs a) (Z.abs b) ltac:(lia)).
  rewrite !withSign_Format by lia. by destruct (sign_quot a b E) as [-> ->].
Qed.

Lemma DivideSigned_spec left right :
  DivideSignedDecimal left right =
    match dec_int left, dec_int right with
    | Some a, Some b =>
        if b =? 0 then None else Some (FormatInt (Z.quot a b), FormatInt (Z.rem a b))
    | _, _ => None
    end.
Proof.
  destruct (dec_int left) as [a|] eqn:Ea, (dec_int right) as [b|] eqn:Eb.
  - rewrite <- DivideSigned_Format. unfold DivideSignedDecimal.
    by rewrite !NormalizeSignedDecimal_spec, Ea, Eb, !dec_int_FormatInt.
  - unfold DivideSignedDecimal. by rewrite !NormalizeSignedDecimal_spec, Ea, Eb.
  - unfold DivideSignedDecimal. by rewrite !NormalizeSignedDecimal_spec, Ea, Eb.
  - unfold DivideSignedDecimal. by rewrite !NormalizeSignedDecimal_spec, Ea, Eb.
Qed.

Lemma DivideUnsigned_spec left right :
  DivideUnsignedDecimal left right =
    match dec_nat left, dec_nat right with
    | Some a, Some b => if b =? 0 then None else Some (FormatUint (a / b), FormatUint (a mod b))
    | _, _ => None
    end.
Proof.
  unfold DivideUnsignedDecimal. rewrite !normalizeUnsignedDecimal_spec.
  destruct (dec_nat left) as [a|] eqn:Ea, (dec_nat right) as [b|] eqn:Eb; try done. opt_simpl.
  apply dec_nat_nonneg in Ea, Eb. destruct (b =? 0) eqn:E; breflect.
  { subst. by case_decide. }
  case_decide as Hz; [by apply FormatUint_zero_iff in Hz|].
  by rewrite divideCanonicalDecimal_spec by lia.
Qed.

(** ** Lemmas: greatest common divisor *)

(** Two rounds of Euclid's loop halve the second number. *)
Lemma mod_halves b r : 0 < r < b -> 2 * (b mod r) < b.
Proof.
  intros H. destruct (div_mod_pos b r ltac:(lia)) as [Hdm Hm].
  assert (1 <= b / r) by (apply Z.div_le_lower_bound; lia). nia.
Qed.

Lemma gcd_step a b : 0 < b -> Z.gcd b (a mod b) = Z.gcd a b.
Proof. intros Hb. rewrite Z.gcd_comm, Z.gcd_mod by lia. apply Z.gcd_comm. Qed.

Lemma gcd_uint64_spec k a b fuel :
  0 <= a -> 0 <= b < 2 ^ Z.of_nat k -> (2 * k + 1 <= fuel)%nat -> gcd_uint64 fuel a b = Z.gcd a b.
Proof.
  revert a b fuel. induction k as [|k IH]; intros a b fuel Ha Hb Hf.
  - assert (b = 0) as -> by lia. destruct fuel; [lia|]. cbn. rewrite Z.gcd_0_r. lia.
  - destruct fuel as [|[|fuel]]; [lia..|]. cbn [gcd_uint64].
    destruct (b =? 0) eqn:E0; breflect; [subst; rewrite Z.gcd_0_r; lia|].
    rewrite <- (gcd_step a b) by lia. pose proof (Z.mod_pos_bound a b ltac:(lia)) as Hr.
    destruct (a mod b =? 0) eqn:E1; breflect; [rewrite E1, Z.gcd_0_r; lia|].
    rewrite <- (gcd_step b (a mod b)) by lia.
    apply IH; [lia| |lia]. pose proof (Z.mod_pos_bound b (a mod b) ltac:(lia)).
    pose proof (mod_halves b (a mod b) ltac:(lia)).
    rewrite Nat2Z.inj_succ, Z.pow_succ_r in Hb by lia. lia.
Qed.

Lemma gcd_uint64_64 a b : 0 <= a -> 0 <= b < 2 ^ 64 -> gcd_uint64 gcd_fuel64 a b = Z.gcd a b.
Proof. intros. apply (gcd_uint64_spec 64); [done|done|unfold gcd_fuel64; lia]. Qed.

#[local] Opaque gcd_fuel64.

(** One round of the limb loop is one round of Euclid's loop. *)
Lemma gcd_round dividend divisor :
  limbs_canonical dividend -> limbs_canonical divisor -> (1 < length divisor)%nat ->
  exists remainder,
    divideDecimalLimbs dividend divisor None = (remainder, divisor, None) /\
    limbs_canonical remainder /\ lval remainder = lval dividend mod lval divisor /\
    0 < lval divisor.
Proof.
  intros Hu Hd Hl. assert (0 < lval divisor) as H0.
  { destruct Hd as (Hd & _ & [|Ht]); [lia|]. pose proof (lval_lower _ Hd Ht).
    pose proof (B_pow (length divisor - 1)). lia. }
  pose proof (divideDecimalLimbs_spec dividend divisor None Hu Hd H0) as H.
  destruct (divideDecimalLimbs dividend divisor None) as [[rem d'] q] eqn:E.
  destruct H as (Cr & Vr & -> & Hq). exists rem. split; [|done].
  destruct (Nat.le_gt_cases (length divisor) (length dividend)) as [Hle|Hgt].
  - specialize (Hq Hle). by destruct q.
  - unfold divideDecimalLimbs in E. apply Nat.ltb_lt in Hgt. rewrite Hgt in E. by injection E as <- <-.
Qed.

Lemma gcd_limbs_spec k dividend divisor fuel :
  limbs_canonical dividend -> limbs_canonical divisor -> lval divisor < 2 ^ Z.of_nat k ->
  (2 * k + 1 <= fuel)%nat ->
  let '(u, d) := gcd_limbs fuel dividend divisor in
  limbs_canonical u /\ limbs_canonical d /\ length d = 1%nat /\
  Z.gcd (lval u) (lval d) = Z.gcd (lval dividend) (lval divisor).
Proof.
  assert (Hone : forall l, limbs_canonical l -> (1 <? length l)%nat = false -> length l = 1%nat).
  { intros l (_ & Hne & _) H. apply Nat.ltb_ge in H. destruct l; [done|]. simpl in *. lia. }
  revert dividend divisor fuel. induction k as [|k IH]; intros u d fuel Hu Hd Hk Hf.
  - destruct fuel as [|fuel]; [lia|]. cbn [gcd_limbs].
    destruct (1 <? length d)%nat eqn:Hl; [|by auto]. apply Nat.ltb_lt in Hl.
    destruct (gcd_round u d Hu Hd Hl) as (? & _ & _ & _ & H0).
    change (2 ^ Z.of_nat 0) with 1 in Hk. lia.
  - destruct fuel as [|[|fuel]]; [lia..|]. cbn [gcd_limbs].
    destruct (1 <? length d)%nat eqn:El; [|by auto].
    apply Nat.ltb_lt in El.
    destruct (gcd_round u d Hu Hd El) as (r & -> & Cr & Vr & H0).
    pose proof (Z.mod_pos_bound (lval u) (lval d) H0) as Hm.
    destruct (1 <? length r)%nat eqn:Er.
    + apply Nat.ltb_lt in Er. destruct (gcd_round d r Hd Cr Er) as (r' & -> & Cr' & Vr' & H1).
      pose proof (mod_halves (lval d) (lval r) ltac:(lia)) as Hh.
      pose proof (Z.mod_pos_bound (lval d) (lval r) H1).
      rewrite Nat2Z.inj_succ, Z.pow_succ_r in Hk by lia.
      specialize (IH r r' fuel Cr Cr' ltac:(lia) ltac:(lia)).
      destruct (gcd_limbs fuel r r') as [u' d']. destruct IH as (? & ? & ? & ->).
      split; [done|]. split; [done|]. split; [done|]. rewrite Vr', gcd_step, Vr by lia.
      by apply gcd_step.
    + split; [done|]. split; [done|]. split; [by apply Hone|]. rewrite Vr. by apply gcd_step.
Qed.

Lemma rem_limbs_spec l a : limbs_ok l -> limb a -> 0 < a -> rem_limbs l a = lval l mod a.
Proof.
  intros Hl Ha Hp. induction Hl as [|d l Hd Hl IH]; cbn [rem_limbs lval]; [by rewrite Z.mod_0_l by lia|].
  rewrite IH. unfold limb in *. pose proof (Z.mod_pos_bound (lval l) a Hp).
  pose proof B_sq. pose proof two64. pose proof B_pos.
  assert (0 <= (lval l mod a) * B <= (B - 1) * B) by nia.
  rewrite (u64_id ((lval l mod a) * B)) by lia. rewrite u64_id by lia.
  rewrite <- Z.add_mod_idemp_l, Z.mul_mod_idemp_l, Z.add_mod_idemp_l by lia.
  f_equal. lia.
Qed.

Lemma gcd_parsed_spec a b g :
  0 <= a -> 0 <= b -> gcd_parsed (FormatUint a) (FormatUint b) = Some g -> g = FormatUint (Z.gcd a b).
Proof.
  intros Ha Hb. unfold gcd_parsed. case_if; [|done].
  destruct (ParseUint (FormatUint a) 10) as [x|] eqn:Ex; [|done].
  destruct (ParseUint (FormatUint b) 10) as [y|] eqn:Ey; [|done].
  apply ParseUint_Some_Format in Ex as [-> _]; [|done].
  apply ParseUint_Some_Format in Ey as [-> Hy]; [|done].
  intros Hout. injection Hout as <-. f_equal. apply gcd_uint64_64; lia.
Qed.

Lemma B_bits n : B ^ Z.of_nat n <= 2 ^ Z.of_nat (30 * n).
Proof.
  rewrite Nat2Z.inj_mul, Z.pow_mul_r by lia. apply Z.pow_le_mono_l. pose proof B_val. lia.
Qed.

Lemma gcdCanonicalDecimal_spec a b :
  0 <= a -> 0 <= b -> gcdCanonicalDecimal (FormatUint a) (FormatUint b) = FormatUint (Z.gcd a b).
Proof.
  intros Ha Hb. unfold gcdCanonicalDecimal. case_decide as Hz.
  { apply FormatUint_zero_iff in Hz; [|done]. subst. rewrite Z.gcd_0_r. f_equal. lia. }
  rewrite FormatUint_zero_iff in Hz by done.
  destruct (_ || _) eqn:E1.
  { apply orb_true_iff in E1 as [E1|E1]; apply bool_decide_eq_true, FormatUint_one_iff in E1;
      try done; subst; [by rewrite Z.gcd_1_r|by rewrite Z.gcd_1_l]. }
  destruct (gcd_parsed _ _) as [g|] eqn:E2; [by apply gcd_parsed_spec|].
  destruct (decimalLimbs_Format a Ha) as [Ca Va]. destruct (decimalLimbs_Format b Hb) as [Cb Vb].
  set (la := decimalLimbs (FormatUint a)) in *. set (lb := decimalLimbs (FormatUint b)) in *. cbn zeta.
  pose proof (gcd_limbs_spec (30 * length lb) la lb (2 * (30 * length lb) + 1) Ca Cb) as Hg.
  pose proof (lval_bound lb (proj1 Cb)). pose proof (B_bits (length lb)).
  specialize (Hg ltac:(lia) ltac:(lia)). rewrite Va, Vb in Hg.
  destruct (gcd_limbs _ la lb) as [u d]. destruct Hg as ((Oku & Nu & _) & (Okd & _ & _) & Ld & Hg).
  destruct d as [|x [|? ?]]; try done. change ([x] !!! 0%nat) with x.
  pose proof (Forall_inv Okd) as Hx. assert (lval [x] = x) as Ex by (cbn [lval]; lia).
  rewrite Ex in Hg. destruct (x =? 0) eqn:E0; breflect.
  - rewrite formatDecimalLimbs_spec by done. f_equal. rewrite E0, Z.gcd_0_r in Hg.
    pose proof (lval_bound u Oku). lia.
  - unfold limb in Hx. rewrite rem_limbs_spec by (done || lia).
    pose proof (Z.mod_pos_bound (lval u) x ltac:(lia)). pose proof B_val.
    rewrite gcd_uint64_64, gcd_step by lia. by rewrite Hg.
Qed.

(** ** Lemmas: powers of two *)

Lemma pow2_loop_spec fuel bits limbs :
  limbs_ok limbs -> limbs <> [] -> 0 <= bits <= Z.of_nat fuel ->
  limbs_ok (pow2_loop fuel bits limbs) /\ pow2_loop fuel bits limbs <> [] /\
  lval (pow2_loop fuel bits limbs) = 2 ^ bits * lval limbs.
Proof.
  revert bits limbs. induction fuel as [|fuel IH]; intros bits limbs Hl Hne Hb; cbn [pow2_loop].
  { assert (bits = 0) as -> by lia. split; [done|]. split; [done|]. rewrite Z.pow_0_r. lia. }
  destruct (0 <? bits) eqn:E; breflect.
  2: { assert (bits = 0) as -> by lia. split; [done|]. split; [done|]. rewrite Z.pow_0_r. lia. }
  set (shift := if 29 <? bits then 29 else bits).
  assert (1 <= shift <= 29 /\ shift <= bits) as Hs by (unfold shift; destruct (29 <? bits) eqn:?; breflect; lia).
  assert (2 ^ shift <= 2 ^ 29) by (apply Z.pow_le_mono_r; lia).
  assert (0 < 2 ^ shift) by (apply Z.pow_pos_nonneg; lia).
  rewrite Z.shiftl_1_l. rewrite u64_id by lia. pose proof B_val as HB.
  pose proof (scale_limbs_spec limbs (2 ^ shift) 0 Hl ltac:(lia) ltac:(lia)) as Hsc.
  destruct (scale_limbs limbs (2 ^ shift) 0) as [out co]. destruct Hsc as (Ok & L & Hco & V).
  assert (out <> []) by (destruct out, limbs; done).
  assert (2 ^ bits = 2 ^ (bits - shift) * 2 ^ shift) as ->.
  { rewrite <- Z.pow_add_r by lia. f_equal. lia. }
  destruct (co =? 0) eqn:Ec; breflect.
  - destruct (IH (bits - shift) out) as (Ok' & Ne' & V'); try done; [lia|].
    split; [done|]. split; [done|]. rewrite V'. subst. nia.
  - destruct (IH (bits - shift) (out ++ [co])) as (Ok' & Ne' & V').
    + apply Forall_app. split; [done|]. constructor; [unfold limb; lia|constructor].
    + by destruct out.
    + lia.
    + split; [done|]. split; [done|]. rewrite V', lval_snoc, L. rewrite V. lia.
Qed.

Lemma Pow2_spec bits : 0 <= bits -> Pow2UnsignedDecimal bits = FormatUint (2 ^ bits).
Proof.
  intros Hb. unfold Pow2UnsignedDecimal. destruct (bits <=? 0) eqn:E; breflect.
  { by assert (bits = 0) as -> by lia. }
  destruct (pow2_loop_spec (Z.to_nat bits) bits [1]) as (Ok & Ne & V); try done; [|lia|].
  - constructor; [|constructor]. pose proof B_val. unfold limb. lia.
  - rewrite formatDecimalLimbs_spec, V by done. f_equal. cbn [lval]. lia.
Qed.

(** ** Properties *)

(** [MultiplySignedDecimal] is the exact product on every pair of texts that denote
    numbers, whichever path it takes (the shortcut operands 0 and 1, the 64-bit path guarded
    against overflow, or the limb product), and fails on every other pair. *)
Theorem signed_multiply_exact left right :
  MultiplySignedDecimal left right = dec_op Z.mul left right.
Proof. apply MultiplySigned_spec. Qed.

(** C37. [DivideSignedDecimal] is exact division truncated towards zero, with a remainder of the
    dividend's sign; it fails exactly when an operand denotes no number or the divisor is 0.
    [DivideUnsignedDecimal] is Euclidean division of natural numbers. *)
Theorem signed_divide_exact :
  (forall left right,
     DivideSignedDecimal left right =
       match dec_int left, dec_int right with
       | Some a, Some b =>
           if b =? 0 then None else Some (FormatInt (Z.quot a b), FormatInt (Z.rem a b))
       | _, _ => None
       end) /\
  (forall left right,
     DivideUnsignedDecimal left right =
       match dec_nat left, dec_nat right with
       | Some a, Some b => if b =? 0 then None else Some (FormatUint (a / b), FormatUint (a mod b))
       | _, _ => None
       end).
Proof. split; [exact DivideSigned_spec|exact DivideUnsigned_spec]. Qed.

(** The limb division: for canonical slices and a divisor that is not 0 it returns the
    canonical remainder, leaves the divisor slice as it was, and fills a quotient slice of the
    length its callers allocate with exactly the quotient.  The [uint64] operations of the
    definition wrap, so this includes that no intermediate value overflows. *)
Theorem limb_division_correct dividend divisor :
  limbs_canonical dividend -> limbs_canonical divisor -> 0 < lval divisor ->
  (length divisor <= length dividend)%nat ->
  let '(remainder, divisor', quotient') :=
    divideDecimalLimbs dividend divisor (Some (replicate (length dividend - length divisor + 1) 0)) in
  limbs_canonical remainder /\ lval remainder = lval dividend mod lval divisor /\
  divisor' = divisor /\
  exists q, quotient' = Some q /\ limbs_ok q /\ lval q = lval dividend / lval divisor.
Proof.
  intros Hu Hd H0 Hl.
  pose proof (divideDecimalLimbs_spec dividend divisor
                (Some (replicate (length dividend - length divisor + 1) 0)) Hu Hd H0) as H.
  destruct (divideDecimalLimbs _ _ _) as [[r d'] q']. destruct H as (Cr & Vr & Ed & Hq).
  split; [done|]. split; [done|]. split; [done|]. specialize (Hq Hl).
  destruct q' as [q|]; [|done]. destruct Hq as (low & -> & Ll & Ok & V); [by rewrite length_replicate|].
  exists low. rewrite drop_ge by (rewrite length_replicate; lia). by rewrite app_nil_r.
Qed.

(** A division of four limbs by three whose second quotient limb needs the add-back step. *)
Lemma limb_division_correct_witness :
  exists r q,
    divideDecimalLimbs [0; 0; 499999999; 250000000] [999999999; 0; 500000000] (Some (replicate 2 0))
      = (r, [999999999; 0; 500000000], Some q) /\
    lval q = lval [0; 0; 499999999; 250000000] / lval [999999999; 0; 500000000].
Proof.
  assert (limbs_canonical [0; 0; 499999999; 250000000]) as H1.
  { split; [|split; [done|right; reflexivity]].
    repeat (apply List.Forall_cons; [unfold limb; rewrite B_val; lia|]). apply List.Forall_nil. }
  assert (limbs_canonical [999999999; 0; 500000000]) as H2.
  { split; [|split; [done|right; reflexivity]].
    repeat (apply List.Forall_cons; [unfold limb; rewrite B_val; lia|]). apply List.Forall_nil. }
  pose proof (limb_division_correct _ _ H1 H2 ltac:(vm_compute; reflexivity) ltac:(simpl; lia)) as H.
  cbn [length Nat.sub Nat.add] in H.
  destruct (divideDecimalLimbs _ _ (Some (replicate 2 0))) as [[r d'] q'].
  destruct H as (_ & _ & -> & q & -> & _ & Hq). exists r, q. split; [reflexivity|exact Hq].
Defined.

(** [GCDUnsignedDecimal] terminates with the greatest common divisor of the numbers its
    texts denote, through the 64-bit loop or through the limb loop, and
    [Pow2UnsignedDecimal bits] is the text of 2^bits. *)
Theorem gcd_and_pow2_exact left right a b bits :
  dec_nat left = Some a -> dec_nat right = Some b -> 0 <= bits ->
  GCDUnsignedDecimal left right = FormatUint (Z.gcd a b) /\
  Pow2UnsignedDecimal bits = FormatUint (2 ^ bits).
Proof.
  intros Ha Hb Hbits. split; [|by apply Pow2_spec]. unfold GCDUnsignedDecimal.
  rewrite !normalizeUnsignedDecimal_spec, Ha, Hb. opt_simpl.
  apply gcdCanonicalDecimal_spec; by eapply dec_nat_nonneg.
Qed.

Lemma gcd_and_pow2_exact_witness :
  GCDUnsignedDecimal (lit "0360000000000000000000000000") (lit "840000000000000000000000") =
    lit "120000000000000000000000" /\
  Pow2UnsignedDecimal 70 = lit "1180591620717411303424".
Proof.
  destruct (gcd_and_pow2_exact (lit "0360000000000000000000000000") (lit "840000000000000000000000")
              360000000000000000000000000 840000000000000000000000 70) as [H1 H2];
    [vm_compute; reflexivity..|lia|].
  rewrite H1, H2. split; vm_compute; reflexivity.
Defined.
