(* ===== verification/DecimalBits.v ===== *)
(** * Bitwise operations on decimal texts (src/compiler/constant/decimal.go)

    [BitwiseSignedDecimal] converts its operands to two's complement bit lists wide enough for
    both, combines them bit by bit and converts back.  The theorem is that this is the bitwise
    operation of Go's integers of unbounded width, [Z.land], [Z.lor], [Z.lxor], [Z.ldiff]. *)

From S2P Require Import Prelude GoStd Decimal.

(** ** Bit lists, least significant first *)

(** [for text != "0" { ... }]: each round halves the number; a decimal digit has less than four
    bits. *)
Fixpoint decimal_bits_loop (fuel : nat) (text : gostring) : list Z :=
  match fuel with
  | O => []
  | S fuel' =>
      if decide (text = lit "0") then []
      else u8 (List.last text 0 - 48) mod 2 :: decimal_bits_loop fuel' (HalveUnsignedDecimal text)
  end.

Definition unsignedDecimalBits (text : gostring) : list Z :=
  let text := default [] (normalizeUnsignedDecimal text) in
  decimal_bits_loop (4 * length text) text.

(** The carry loop of [twosComplementBits]; it stops when the carry is 0. *)
Fixpoint carry_bits (bits : list Z) (carry : Z) : list Z :=
  match bits with
  | [] => []
  | b :: bits' =>
      if carry =? 0 then bits
      else let sum := b + carry in Z.land sum 1 :: carry_bits bits' (Z.shiftr sum 1)
  end.

Definition twosComplementBits (bits : list Z) : list Z :=
  carry_bits (map (fun b => Z.lxor b 1) bits) 1.

Definition signedDecimalBits (value : gostring) (width : nat) : list Z :=
  let negative := HasPrefix value (lit "-") in
  let magnitude := unsignedDecimalBits (TrimPrefix value (lit "-")) in
  let out := take width magnitude ++ replicate (width - length magnitude) 0 in
  if negative then twosComplementBits out else out.

(** The loop runs from the most significant bit: the tail of the list is done first. *)
Fixpoint unsignedBitsDecimal (bits : list Z) : gostring :=
  match bits with
  | [] => lit "0"
  | b :: bits' =>
      let out := unsignedBitsDecimal bits' in
      let out := AddUnsignedDecimal out out in
      if b =? 0 then out else AddUnsignedDecimal out (lit "1")
  end.

(** The operator switch on two bits; [None] is the default case. *)
Definition bit_operator (operator : gostring) : option (Z -> Z -> Z) :=
  if decide (operator = lit "&") then Some Z.land
  else if decide (operator = lit "|") then Some Z.lor
  else if decide (operator = lit "^") then Some Z.lxor
  else if decide (operator = lit "&^") then Some (fun l r => Z.land l (Z.lxor r 1))
  else None.

Definition BitwiseSignedDecimal (operator left right : gostring) : option gostring :=
  match NormalizeSignedDecimal left, NormalizeSignedDecimal right with
  | Some l, Some r =>
      let leftMagnitude := unsignedDecimalBits (TrimPrefix l (lit "-")) in
      let rightMagnitude := unsignedDecimalBits (TrimPrefix r (lit "-")) in
      let width := (Nat.max (length leftMagnitude) (length rightMagnitude) + 2)%nat in
      let leftBits := signedDecimalBits l width in
      let rightBits := signedDecimalBits r width in
      match bit_operator operator with
      | None => None
      | Some f =>
          let out := zip_with f leftBits rightBits in
          if List.last out 0 =? 0 then Some (unsignedBitsDecimal out)
          else
            let magnitude := unsignedBitsDecimal (twosComplementBits out) in
            Some (if decide (magnitude = lit "0") then lit "0" else lit "-" ++ magnitude)
      end
  | _, _ => None
  end.

(** ** Lemmas: the number of a bit list *)

Definition bit (b : Z) : Prop := b = 0 \/ b = 1.

Fixpoint bval (l : list Z) : Z :=
  match l with [] => 0 | b :: l' => b + 2 * bval l' end.

Lemma pow2_succ n : 2 ^ Z.of_nat (S n) = 2 * 2 ^ Z.of_nat n.
Proof. rewrite Nat2Z.inj_succ, Z.pow_succ_r by lia. done. Qed.

Lemma pow2_pos n : 0 < 2 ^ Z.of_nat n.
Proof. apply Z.pow_pos_nonneg; lia. Qed.

Lemma bval_bound l : Forall bit l -> 0 <= bval l < 2 ^ Z.of_nat (length l).
Proof.
  induction 1 as [|b l Hb Hl IH]; [by cbn|]. cbn [bval]. simpl length. rewrite pow2_succ.
  unfold bit in Hb. lia.
Qed.

Lemma bval_app l1 l2 : bval (l1 ++ l2) = bval l1 + 2 ^ Z.of_nat (length l1) * bval l2.
Proof.
  induction l1 as [|b l1 IH]; cbn [app bval]; [change (Z.of_nat (length [])) with 0; lia|].
  simpl length. rewrite IH, pow2_succ. ring.
Qed.

Lemma bval_zeros n : bval (replicate n 0) = 0.
Proof. induction n as [|n IH]; [done|]. cbn [replicate bval]. rewrite IH. lia. Qed.

Lemma last_parity n : 0 <= n -> u8 (List.last (FormatUint n) 0 - 48) mod 2 = n mod 2.
Proof.
  intros Hn. pose proof (FormatUint_spec n Hn) as [Hc Hv].
  destruct (list_last_split (FormatUint n) (canonical_nonempty _ Hc)) as (s & c & E).
  rewrite E in *. rewrite List.last_last. apply canonical_digits, Forall_app in Hc as [_ Hd].
  rewrite u8_digit by (by inversion Hd). rewrite dval_snoc in Hv. rewrite <- Hv.
  replace (10 * dval s + (c - 48)) with (c - 48 + (5 * dval s) * 2) by lia.
  by rewrite Z_mod_plus_full.
Qed.

Lemma decimal_bits_loop_spec fuel n :
  0 <= n < 2 ^ Z.of_nat fuel ->
  Forall bit (decimal_bits_loop fuel (FormatUint n)) /\
  bval (decimal_bits_loop fuel (FormatUint n)) = n.
Proof.
  revert n. induction fuel as [|fuel IH]; intros n Hn; cbn [decimal_bits_loop].
  { change (2 ^ Z.of_nat 0) with 1 in Hn. split; [constructor|cbn; lia]. }
  case_decide as Hz.
  { apply FormatUint_zero_iff in Hz; [|lia]. subst. split; [constructor|done]. }
  rewrite last_parity, HalveUnsignedDecimal_Format by lia. rewrite pow2_succ in Hn.
  destruct (div_mod_pos n 2 ltac:(lia)) as [Hdm Hm].
  destruct (IH (n / 2)) as [Hb V]; [lia|].
  split; [constructor; [unfold bit; lia|done]|]. cbn [bval]. rewrite V. lia.
Qed.

Lemma unsignedDecimalBits_Format n :
  0 <= n ->
  Forall bit (unsignedDecimalBits (FormatUint n)) /\ bval (unsignedDecimalBits (FormatUint n)) = n.
Proof.
  intros Hn. unfold unsignedDecimalBits. rewrite normalize_FormatUint by done. opt_simpl. cbn zeta.
  apply decimal_bits_loop_spec. split; [done|].
  pose proof (dval_bound (FormatUint n) ltac:(auto with go)) as Hb. rewrite dval_FormatUint in Hb by done.
  assert (10 ^ Z.of_nat (length (FormatUint n)) <= 2 ^ Z.of_nat (4 * length (FormatUint n))); [|lia].
  rewrite Nat2Z.inj_mul, Z.pow_mul_r by lia. apply Z.pow_le_mono_l. lia.
Qed.

Lemma flip_bits l :
  Forall bit l ->
  Forall bit (map (fun b => Z.lxor b 1) l) /\
  bval (map (fun b => Z.lxor b 1) l) = 2 ^ Z.of_nat (length l) - 1 - bval l.
Proof.
  induction 1 as [|b l Hb Hl [IH1 IH2]]; [done|]. cbn [map bval]. simpl length.
  assert (Z.lxor b 1 = 1 - b) as -> by (by destruct Hb as [-> | ->]).
  rewrite pow2_succ, IH2. unfold bit in Hb. split; [|lia].
  constructor; [unfold bit; lia|done].
Qed.

Lemma carry_bits_spec l carry :
  Forall bit l -> bit carry ->
  Forall bit (carry_bits l carry) /\ length (carry_bits l carry) = length l /\
  bval (carry_bits l carry) = (bval l + carry) mod 2 ^ Z.of_nat (length l).
Proof.
  intros Hl. revert carry. induction Hl as [|b l Hb Hl IH]; intros carry Hc; cbn [carry_bits].
  { split; [constructor|]. split; [done|]. by rewrite Z.mod_1_r. }
  pose proof (bval_bound l Hl) as Hbl. pose proof (pow2_pos (length l)) as Hp.
  assert (Forall bit (b :: l)) as Hbl' by (by constructor).
  pose proof (bval_bound _ Hbl') as Hbb. cbn [bval length] in Hbb. rewrite pow2_succ in Hbb.
  simpl length. rewrite pow2_succ. cbn [bval].
  destruct Hc as [-> | ->].
  { split; [done|]. split; [done|]. cbn [Z.eqb bval]. rewrite Z.mod_small; lia. }
  cbn [Z.eqb].
  destruct Hb as [-> | ->].
  - change (Z.land (0 + 1) 1) with 1. change (Z.shiftr (0 + 1) 1) with 0.
    destruct (IH 0 ltac:(by left)) as (B1 & L1 & V1).
    split; [constructor; [by right|done]|]. split; [simpl; by rewrite L1|].
    cbn [bval]. rewrite V1. rewrite !Z.mod_small; lia.
  - change (Z.land (1 + 1) 1) with 0. change (Z.shiftr (1 + 1) 1) with 1.
    destruct (IH 1 ltac:(by right)) as (B1 & L1 & V1).
    split; [constructor; [by left|done]|]. split; [simpl; by rewrite L1|].
    cbn [bval]. rewrite V1. replace (1 + 2 * bval l + 1) with (2 * (bval l + 1)) by lia.
    rewrite Z.mul_mod_distr_l by lia. lia.
Qed.

Lemma twosComplementBits_spec l :
  Forall bit l ->
  Forall bit (twosComplementBits l) /\ length (twosComplementBits l) = length l /\
  bval (twosComplementBits l) = (- bval l) mod 2 ^ Z.of_nat (length l).
Proof.
  intros Hl. unfold twosComplementBits. destruct (flip_bits l Hl) as [Hb V].
  destruct (carry_bits_spec _ 1 Hb ltac:(by right)) as (B1 & L1 & V1).
  rewrite length_map in L1, V1. split; [done|]. split; [done|]. rewrite V1, V.
  replace (2 ^ Z.of_nat (length l) - 1 - bval l + 1)
    with (- bval l + 1 * 2 ^ Z.of_nat (length l)) by lia.
  by rewrite Z_mod_plus_full.
Qed.

Lemma signedDecimalBits_spec z width :
  (length (unsignedDecimalBits (FormatUint (Z.abs z))) <= width)%nat ->
  Forall bit (signedDecimalBits (FormatInt z) width) /\
  length (signedDecimalBits (FormatInt z) width) = width /\
  bval (signedDecimalBits (FormatInt z) width) = z mod 2 ^ Z.of_nat width.
Proof.
  intros Hw. unfold signedDecimalBits. rewrite HasPrefix_FormatInt, TrimPrefix_FormatInt. cbn zeta.
  destruct (unsignedDecimalBits_Format (Z.abs z) ltac:(lia)) as [Hb V].
  set (m := unsignedDecimalBits (FormatUint (Z.abs z))) in *. rewrite (take_ge m) by lia.
  set (out := m ++ replicate (width - length m) 0).
  assert (Forall bit out) as Ho.
  { apply Forall_app. split; [done|]. apply Forall_replicate. by left. }
  assert (length out = width) as Lo by (unfold out; rewrite length_app, length_replicate; lia).
  assert (bval out = Z.abs z) as Vo by (unfold out; rewrite bval_app, bval_zeros; lia).
  destruct (z <? 0) eqn:E; breflect.
  - destruct (twosComplementBits_spec out Ho) as (B1 & L1 & V1). rewrite Lo, Vo in *.
    split; [done|]. split; [done|]. rewrite V1. f_equal. lia.
  - split; [done|]. split; [done|]. pose proof (bval_bound out Ho) as Hbo. rewrite Lo, Vo in *.
    rewrite Z.mod_small; lia.
Qed.

Lemma unsignedBitsDecimal_spec l : Forall bit l -> unsignedBitsDecimal l = FormatUint (bval l).
Proof.
  induction 1 as [|b l Hb Hl IH]; [done|]. cbn [unsignedBitsDecimal bval].
  pose proof (bval_bound l Hl). rewrite IH, AddUnsigned_Format by lia.
  destruct Hb as [-> | ->]; cbn [Z.eqb].
  - f_equal. lia.
  - change (lit "1") with (FormatUint 1). rewrite AddUnsigned_Format by lia. f_equal. lia.
Qed.

(** ** Lemmas: bitwise operations on two's complement *)

(** A bitwise operation of [Z] and the function on bits that [BitwiseSignedDecimal] applies. *)
Record bitwise (f zop : Z -> Z -> Z) (g : bool -> bool -> bool) : Prop := {
  bw_bit : forall a b, f (Z.b2z a) (Z.b2z b) = Z.b2z (g a b);
  bw_spec : forall a b i, 0 <= i -> Z.testbit (zop a b) i = g (Z.testbit a i) (Z.testbit b i);
  bw_shift : forall a b k, 0 <= k -> Z.shiftr (zop a b) k = zop (Z.shiftr a k) (Z.shiftr b k);
  bw_signs : forall a b, (a = 0 \/ a = -1) -> (b = 0 \/ b = -1) -> zop a b = 0 \/ zop a b = -1
}.

(** The integer operation a Go operator means. *)
Definition bit_meaning (operator : gostring) : option (Z -> Z -> Z) :=
  if decide (operator = lit "&") then Some Z.land
  else if decide (operator = lit "|") then Some Z.lor
  else if decide (operator = lit "^") then Some Z.lxor
  else if decide (operator = lit "&^") then Some Z.ldiff
  else None.

Lemma bit_operator_bitwise operator :
  match bit_operator operator, bit_meaning operator with
  | Some f, Some zop => exists g, bitwise f zop g
  | None, None => True
  | _, _ => False
  end.
Proof.
  unfold bit_operator, bit_meaning. repeat case_decide; try done.
  - exists andb. split.
    + by intros [] [].
    + intros. by apply Z.land_spec.
    + intros. by apply Z.shiftr_land.
    + intros a b [-> | ->] [-> | ->]; cbn; auto.
  - exists orb. split.
    + by intros [] [].
    + intros. by apply Z.lor_spec.
    + intros. by apply Z.shiftr_lor.
    + intros a b [-> | ->] [-> | ->]; cbn; auto.
  - exists xorb. split.
    + by intros [] [].
    + intros. by apply Z.lxor_spec.
    + intros. by apply Z.shiftr_lxor.
    + intros a b [-> | ->] [-> | ->]; cbn; auto.
  - exists (fun a b => a && negb b). split.
    + by intros [] [].
    + intros. by apply Z.ldiff_spec.
    + intros. by apply Z.shiftr_ldiff.
    + intros a b [-> | ->] [-> | ->]; cbn; auto.
Qed.

Lemma bit_b2z b : bit b -> b = Z.b2z (Z.odd b).
Proof. by intros [-> | ->]. Qed.

Lemma bval_cons_mod z b l :
  bit b -> bval (b :: l) = z mod 2 ^ Z.of_nat (S (length l)) ->
  Forall bit l -> b = Z.b2z (Z.testbit z 0) /\ bval l = (z / 2) mod 2 ^ Z.of_nat (length l).
Proof.
  intros Hb Hv Hl. cbn [bval] in Hv. rewrite pow2_succ, Z.rem_mul_r in Hv by (lia || apply pow2_pos).
  pose proof (Z.mod_pos_bound z 2 ltac:(lia)). unfold bit in Hb.
  assert (b = z mod 2) as -> by lia. split; [|lia].
  by rewrite Z.bit0_mod.
Qed.

(** Combining two's complement representations bit by bit represents the combined integers. *)
Lemma zip_bits f zop g la lb a b :
  bitwise f zop g -> Forall bit la -> Forall bit lb -> length la = length lb ->
  bval la = a mod 2 ^ Z.of_nat (length la) -> bval lb = b mod 2 ^ Z.of_nat (length lb) ->
  Forall bit (zip_with f la lb) /\ length (zip_with f la lb) = length la /\
  bval (zip_with f la lb) = zop a b mod 2 ^ Z.of_nat (length la).
Proof.
  intros Hop Hla. revert lb a b. induction Hla as [|x la Hx Hla IH]; intros lb a b Hlb Hlen Ha Hb.
  { cbn. split; [constructor|]. split; [done|]. by rewrite Z.mod_1_r. }
  destruct lb as [|y lb]; [done|]. inversion Hlb as [|? ? Hy Hlb']; subst. injection Hlen as Hlen.
  destruct (bval_cons_mod a x la Hx Ha Hla) as [-> Va].
  destruct (bval_cons_mod b y lb Hy Hb Hlb') as [-> Vb].
  destruct (IH lb (a / 2) (b / 2) Hlb' Hlen Va Vb) as (B1 & L1 & V1).
  cbn [zip_with bval]. rewrite (bw_bit _ _ _ Hop). split; [|split].
  - constructor; [|done]. destruct (g _ _); [by right|by left].
  - simpl. by rewrite L1.
  - simpl length. rewrite pow2_succ, Z.rem_mul_r by (lia || apply pow2_pos).
    rewrite V1, <- (bw_spec _ _ _ Hop), Z.bit0_mod by lia. f_equal. f_equal. f_equal.
    pose proof (bw_shift _ _ _ Hop a b 1 ltac:(lia)) as Hs.
    rewrite !Z.shiftr_div_pow2 in Hs by lia. change (2 ^ 1) with 2 in Hs. by rewrite Hs.
Qed.

Lemma fits_shift z k : 0 <= k -> - 2 ^ k <= z < 2 ^ k <-> Z.shiftr z k = 0 \/ Z.shiftr z k = -1.
Proof.
  intros Hk. rewrite Z.shiftr_div_pow2 by done.
  assert (0 < 2 ^ k) by (apply Z.pow_pos_nonneg; lia).
  destruct (div_mod_pos z (2 ^ k) ltac:(lia)) as [Hdm Hm]. split.
  - intros H'. destruct (Z.lt_ge_cases z 0).
    + right. apply div_bounds; lia.
    + left. apply Z.div_small. lia.
  - intros [E|E]; rewrite E in Hdm; lia.
Qed.

Lemma top_bit l z :
  Forall bit l -> l <> [] -> bval l = z mod 2 ^ Z.of_nat (length l) ->
  - 2 ^ (Z.of_nat (length l) - 1) <= z < 2 ^ (Z.of_nat (length l) - 1) ->
  (List.last l 0 =? 0) = (0 <=? z).
Proof.
  intros Hl Hne Hv Hz. destruct (list_last_split l Hne) as (l' & t & ->).
  rewrite List.last_last. apply Forall_app in Hl as [Hl' Ht]. inversion Ht as [|? ? Ht' _]; subst.
  pose proof (bval_bound l' Hl') as Hb. rewrite length_app in *. cbn [length] in *.
  replace (length l' + 1)%nat with (S (length l')) in * by lia.
  rewrite bval_app, pow2_succ in Hv. cbn [bval] in Hv.
  replace (Z.of_nat (S (length l')) - 1) with (Z.of_nat (length l')) in Hz by lia.
  set (p := 2 ^ Z.of_nat (length l')) in *.
  destruct (Z.lt_ge_cases z 0) as [Hneg|Hpos].
  - assert (z mod (2 * p) = z + 2 * p) as E.
    { rewrite <- (Z_mod_plus_full z 1 (2 * p)). rewrite Z.mod_small; lia. }
    assert (t = 1) as -> by (destruct Ht' as [-> | ->]; lia).
    destruct (0 <=? z) eqn:E'; breflect; [lia|done].
  - rewrite Z.mod_small in Hv by lia.
    assert (t = 0) as -> by (destruct Ht' as [-> | ->]; lia).
    destruct (0 <=? z) eqn:E'; breflect; [done|lia].
Qed.

Lemma decimal_width z :
  let n := length (unsignedDecimalBits (FormatUint (Z.abs z))) in
  - 2 ^ Z.of_nat n <= z < 2 ^ Z.of_nat n.
Proof.
  destruct (unsignedDecimalBits_Format (Z.abs z) ltac:(lia)) as [Hb V].
  pose proof (bval_bound _ Hb) as H. rewrite V in H. cbn zeta. lia.
Qed.

Lemma BitwiseSigned_Format operator a b :
  BitwiseSignedDecimal operator (FormatInt a) (FormatInt b) =
    (fun zop => FormatInt (zop a b)) <$> bit_meaning operator.
Proof.
  unfold BitwiseSignedDecimal. rewrite !Normalize_FormatInt, !TrimPrefix_FormatInt. cbn zeta.
  set (na := length (unsignedDecimalBits (FormatUint (Z.abs a)))).
  set (nb := length (unsignedDecimalBits (FormatUint (Z.abs b)))).
  set (m := Nat.max na nb). pose proof (bit_operator_bitwise operator) as Hop.
  destruct (bit_operator operator) as [f|], (bit_meaning operator) as [zop|]; try done.
  destruct Hop as [g Hop]. opt_simpl.
  destruct (signedDecimalBits_spec a (m + 2)) as (Ba & La & Va); [unfold m, na; lia|].
  destruct (signedDecimalBits_spec b (m + 2)) as (Bb & Lb & Vb); [unfold m, nb; lia|].
  destruct (zip_bits f zop g _ _ a b Hop Ba Bb) as (Bo & Lo & Vo); try congruence.
  set (out := zip_with f _ _) in *. rewrite La in Lo, Vo.
  (* the combined integer fits the width with its sign bit *)
  assert (- 2 ^ Z.of_nat m <= zop a b < 2 ^ Z.of_nat m) as Hr.
  { assert (forall z n, (n <= m)%nat -> - 2 ^ Z.of_nat n <= z < 2 ^ Z.of_nat n ->
              Z.shiftr z (Z.of_nat m) = 0 \/ Z.shiftr z (Z.of_nat m) = -1) as Hs.
    { intros z n Hn Hz. apply fits_shift; [lia|].
      assert (2 ^ Z.of_nat n <= 2 ^ Z.of_nat m) by (apply Z.pow_le_mono_r; lia). lia. }
    apply fits_shift; [lia|]. rewrite (bw_shift _ _ _ Hop) by lia.
    apply (bw_signs _ _ _ Hop).
    - apply (Hs a na); [unfold m; lia|apply decimal_width].
    - apply (Hs b nb); [unfold m; lia|apply decimal_width]. }
  assert (2 ^ (Z.of_nat (m + 2) - 1) = 2 * 2 ^ Z.of_nat m) as Hp1.
  { rewrite <- pow2_succ. f_equal. lia. }
  assert (2 ^ Z.of_nat (m + 2) = 4 * 2 ^ Z.of_nat m) as Hp2.
  { replace (m + 2)%nat with (S (S m)) by lia. rewrite !pow2_succ. lia. }
  pose proof (pow2_pos m) as Hpm.
  rewrite (top_bit out (zop a b)); [|done| |by rewrite Lo|rewrite Lo, Hp1; lia].
  2: { intros E. rewrite E in Lo. simpl in Lo. lia. }
  destruct (0 <=? zop a b) eqn:E; breflect; f_equal.
  - rewrite unsignedBitsDecimal_spec, Vo by done. rewrite FormatInt_nonneg by done.
    f_equal. apply Z.mod_small. lia.
  - destruct (twosComplementBits_spec out Bo) as (Bt & Lt & Vt). rewrite Lo, Vo in Vt.
    rewrite unsignedBitsDecimal_spec by done.
    assert (bval (twosComplementBits out) = - zop a b) as ->.
    { rewrite Vt.
      replace (- (zop a b mod 2 ^ Z.of_nat (m + 2)))
        with (0 - zop a b mod 2 ^ Z.of_nat (m + 2)) by lia.
      rewrite Zminus_mod_idemp_r. apply Z.mod_small. lia. }
    case_decide as Hz; [apply FormatUint_zero_iff in Hz; lia|].
    by rewrite FormatInt_neg by lia.
Qed.

Lemma BitwiseSigned_spec operator left right :
  BitwiseSignedDecimal operator left right =
    match bit_meaning operator with
    | Some zop => dec_op zop left right
    | None => None
    end.
Proof.
  pose proof (bit_operator_bitwise operator) as Hop. unfold dec_op.
  destruct (dec_int left) as [a|] eqn:Ea, (dec_int right) as [b|] eqn:Eb.
  { pose proof (BitwiseSigned_Format operator a b) as H. unfold BitwiseSignedDecimal in *.
    rewrite !NormalizeSignedDecimal_spec, !dec_int_FormatInt in H.
    rewrite !NormalizeSignedDecimal_spec, Ea, Eb. rewrite H. by destruct (bit_meaning operator). }
  all: unfold BitwiseSignedDecimal; rewrite !NormalizeSignedDecimal_spec, Ea, Eb;
    opt_simpl; by destruct (bit_meaning operator).
Qed.

(** ** Property *)

(** [BitwiseSignedDecimal] computes Go's [&], [|], [^] and [&^] of integers of any size,
    negative ones in two's complement: on texts that denote numbers the result is the canonical
    text of [Z.land], [Z.lor], [Z.lxor] or [Z.ldiff]; on any other operator or operand it
    fails. *)
Theorem bitwise_exact operator left right :
  BitwiseSignedDecimal operator left right =
    match bit_meaning operator with
    | Some zop => dec_op zop left right
    | None => None
    end.
Proof. apply BitwiseSigned_spec. Qed.
