(* ===== verification/Rational.v ===== *)
(** * Exact rational constants (src/compiler/constant/rational.go)

    A source constant that is not an integer is a reduced fraction of two decimal texts.  The
    arithmetic is characterised through [rat_of_Q], the canonical representation of a rational
    number: it respects [Qeq], so the theorems rewrite under the equivalence of fractions. *)

From Stdlib Require Import QArith.
From S2P Require Import Prelude GoStd Decimal DecimalLimbs DecimalArith.
Local Open Scope Z_scope.

Record Rational : Type := mkRational { Numerator : gostring; Denominator : gostring }.

#[export] Instance Rational_eq_dec : EqDecision Rational.
Proof. solve_decision. Defined.

Definition NewRational (numerator denominator : gostring) : option Rational :=
  match NormalizeSignedDecimal numerator, NormalizeSignedDecimal denominator with
  | Some num, Some den =>
      if decide (den = lit "0") then None
      else
        let '(num, den) :=
          if HasPrefix den (lit "-")
          then (default [] (NegateSignedDecimal num), TrimPrefix den (lit "-"))
          else (num, den) in
        if decide (num = lit "0") then Some (mkRational (lit "0") (lit "1"))
        else if decide (den = lit "1") then Some (mkRational num den)
        else
          let absNumerator := TrimPrefix num (lit "-") in
          let divisor := gcdCanonicalDecimal absNumerator den in
          if decide (divisor = lit "1") then Some (mkRational num den)
          else
            let absNumerator := fst (divideCanonicalDecimal absNumerator divisor) in
            let den := fst (divideCanonicalDecimal den divisor) in
            Some (mkRational (if HasPrefix num (lit "-") then lit "-" ++ absNumerator else absNumerator) den)
  | _, _ => None
  end.

Definition Rational_Valid (r : Rational) : bool := negb (bool_decide (Denominator r = [])).

Definition Rational_IsZero (r : Rational) : bool :=
  Rational_Valid r && bool_decide (Numerator r = lit "0").

(** [Integer]: the numerator, and whether the value is an integer. *)
Definition Rational_Integer (r : Rational) : gostring * bool :=
  (Numerator r, Rational_Valid r && bool_decide (Denominator r = lit "1")).

Definition Rational_String (r : Rational) : gostring :=
  if negb (Rational_Valid r) then []
  else if decide (Denominator r = lit "1") then Numerator r
  else Numerator r ++ lit "/" ++ Denominator r.

Definition NegateRational (value : Rational) : option Rational :=
  (fun numerator => mkRational numerator (Denominator value)) <$> NegateSignedDecimal (Numerator value).

Definition AddRational (left right : Rational) : option Rational :=
  leftNumerator ← MultiplySignedDecimal (Numerator left) (Denominator right);
  rightNumerator ← MultiplySignedDecimal (Numerator right) (Denominator left);
  numerator ← AddSignedDecimal leftNumerator rightNumerator;
  denominator ← MultiplySignedDecimal (Denominator left) (Denominator right);
  NewRational numerator denominator.

Definition SubtractRational (left right : Rational) : option Rational :=
  negated ← NegateRational right;
  AddRational left negated.

Definition MultiplyRational (left right : Rational) : option Rational :=
  numerator ← MultiplySignedDecimal (Numerator left) (Numerator right);
  denominator ← MultiplySignedDecimal (Denominator left) (Denominator right);
  NewRational numerator denominator.

Definition DivideRational (left right : Rational) : option Rational :=
  if Rational_IsZero right then None
  else
    numerator ← MultiplySignedDecimal (Numerator left) (Denominator right);
    denominator ← MultiplySignedDecimal (Denominator left) (Numerator right);
    NewRational numerator denominator.

Definition CompareRational (left right : Rational) : Z :=
  match MultiplySignedDecimal (Numerator left) (Denominator right),
        MultiplySignedDecimal (Numerator right) (Denominator left) with
  | Some leftScaled, Some rightScaled => CompareSignedDecimal leftScaled rightScaled
  | _, _ => 0
  end.

(** ** The canonical representation of a rational number *)

Definition rat_of_Q (x : Q) : Rational :=
  mkRational (FormatInt (Qnum (Qred x))) (FormatUint (Zpos (Qden (Qred x)))).

#[export] Instance Qeq_decision x y : Decision (x == y)%Q := Qeq_dec x y.

#[export] Instance rat_of_Q_proper : Proper (Qeq ==> eq) rat_of_Q.
Proof. intros x y H. unfold rat_of_Q. by rewrite (Qred_complete x y H). Qed.

(** A fraction of integers whose denominator is not 0. *)
Definition frac (p q : Z) : Q := Qmake (Z.sgn q * p) (Z.to_pos (Z.abs q)).

Lemma Qred_components n d :
  let g := Z.gcd n (Zpos d) in
  Qnum (Qred (n # d)) = n / g /\ Zpos (Qden (Qred (n # d))) = Zpos d / g.
Proof.
  cbn zeta. unfold Qred.
  pose proof (Z.ggcd_gcd n (Zpos d)) as Hg. pose proof (Z.ggcd_correct_divisors n (Zpos d)) as Hd.
  destruct (Z.ggcd n (Zpos d)) as [g [r1 r2]]. cbn [fst snd] in *. rewrite <- Hg.
  destruct Hd as [H1 H2]. pose proof (Z.gcd_nonneg n (Zpos d)) as Hn. rewrite <- Hg in Hn.
  pose proof (Pos2Z.is_pos d) as Hd.
  assert (0 < g) by (destruct (decide (g = 0)) as [->|]; lia).
  assert (0 < r2) by (apply (Z.mul_pos_cancel_l g); lia). cbn [Qnum Qden].
  rewrite Z2Pos.id by assumption. split; symmetry.
  - rewrite H1, Z.mul_comm. apply Z.div_mul. lia.
  - rewrite H2, Z.mul_comm. apply Z.div_mul. lia.
Qed.

Lemma frac_rat_components p q :
  q <> 0 ->
  let g := Z.gcd p q in
  rat_of_Q (frac p q) = mkRational (FormatInt (Z.sgn q * p / g)) (FormatUint (Z.abs q / g)).
Proof.
  intros Hq. cbn zeta. unfold rat_of_Q, frac.
  destruct (Qred_components (Z.sgn q * p) (Z.to_pos (Z.abs q))) as [-> ->].
  rewrite Z2Pos.id by lia.
  assert (Z.gcd (Z.sgn q * p) (Z.abs q) = Z.gcd p q) as ->; [|done].
  rewrite Z.gcd_abs_r. destruct (Z.lt_trichotomy q 0) as [H|[H|H]]; [|lia|].
  - rewrite Z.sgn_neg by lia. replace (-1 * p) with (- p) by lia. apply Z.gcd_opp_l.
  - rewrite Z.sgn_pos by lia. f_equal. lia.
Qed.

(** The last step of [NewRational], for a positive denominator. *)
Lemma reduce_positive n d :
  n <> 0 -> 0 < d ->
  let g := Z.gcd n d in
  fst (divideCanonicalDecimal (FormatUint (Z.abs n)) (FormatUint g)) = FormatUint (Z.abs n / g) /\
  fst (divideCanonicalDecimal (FormatUint d) (FormatUint g)) = FormatUint (d / g) /\
  0 < g /\ FormatInt (n / g) = (if n <? 0 then lit "-" ++ FormatUint (Z.abs n / g) else FormatUint (Z.abs n / g)).
Proof.
  intros Hn Hd g.
  assert (0 < g) as Hg.
  { pose proof (Z.gcd_nonneg n d). destruct (decide (g = 0)) as [E|]; [|unfold g in *; lia].
    apply Z.gcd_eq_0 in E. lia. }
  rewrite !divideCanonicalDecimal_spec by lia. split; [done|]. split; [done|]. split; [done|].
  destruct (Z.gcd_divide_l n d) as [k Hk]. fold g in Hk. rewrite Hk.
  rewrite Z.abs_mul, (Z.abs_eq g), !Z.div_mul by lia.
  assert (k <> 0) by (intros ->; lia).
  destruct (k * g <? 0) eqn:E; breflect.
  - rewrite FormatInt_neg by nia. do 2 f_equal. nia.
  - rewrite FormatInt_nonneg by nia. f_equal. nia.
Qed.

Lemma NewRational_Format p q :
  NewRational (FormatInt p) (FormatInt q) = if q =? 0 then None else Some (rat_of_Q (frac p q)).
Proof.
  unfold NewRational. rewrite !Normalize_FormatInt.
  destruct (q =? 0) eqn:Eq; breflect.
  { subst. by case_decide. }
  case_decide as Hz; [by apply FormatInt_zero_iff in Hz|].
  rewrite frac_rat_components by done.
  assert ((if HasPrefix (FormatInt q) (lit "-")
           then (default [] (NegateSignedDecimal (FormatInt p)), TrimPrefix (FormatInt q) (lit "-"))
           else (FormatInt p, FormatInt q))
          = (FormatInt (Z.sgn q * p), FormatUint (Z.abs q))) as ->.
  { rewrite HasPrefix_FormatInt, TrimPrefix_FormatInt, NegateSigned_spec, dec_int_FormatInt.
    opt_simpl. destruct (q <? 0) eqn:E; breflect.
    - rewrite Z.sgn_neg by lia. by replace (-1 * p) with (- p) by lia.
    - rewrite Z.sgn_pos, (FormatInt_nonneg q), Z.abs_eq by lia. by replace (1 * p) with p by lia. }
  assert (Z.gcd p q = Z.gcd (Z.sgn q * p) (Z.abs q)) as ->.
  { rewrite Z.gcd_abs_r. destruct (Z.lt_trichotomy q 0) as [H|[H|H]]; [|lia|].
    - rewrite Z.sgn_neg by lia. replace (-1 * p) with (- p) by lia. by rewrite Z.gcd_opp_l.
    - rewrite Z.sgn_pos by lia. f_equal. lia. }
  set (n := Z.sgn q * p). assert (0 < Z.abs q) as Hd by lia. generalize dependent (Z.abs q).
  intros d Hd. clearbody n. clear p q Eq Hz.
  case_decide as Hn.
  { apply FormatInt_zero_iff in Hn. subst. rewrite Z.gcd_0_l, Z.abs_eq by lia.
    by rewrite Z_div_same_full by lia. }
  rewrite FormatInt_zero_iff in Hn.
  case_decide as Hd1.
  { apply FormatUint_one_iff in Hd1; [|lia]. subst. by rewrite Z.gcd_1_r, !Z.div_1_r. }
  cbn zeta. rewrite HasPrefix_FormatInt, TrimPrefix_FormatInt, gcdCanonicalDecimal_spec by lia.
  rewrite Z.gcd_abs_l. destruct (reduce_positive n d Hn Hd) as (-> & -> & Hg & Hf).
  case_decide as Hg1; f_equal.
  - apply FormatUint_one_iff in Hg1; [|lia]. by rewrite Hg1, !Z.div_1_r.
  - by rewrite <- Hf.
Qed.

(** [NewRational] on arbitrary texts. *)
Lemma NewRational_spec numerator denominator :
  NewRational numerator denominator =
    match dec_int numerator, dec_int denominator with
    | Some p, Some q => if q =? 0 then None else Some (rat_of_Q (frac p q))
    | _, _ => None
    end.
Proof.
  destruct (dec_int numerator) as [a|] eqn:Ea, (dec_int denominator) as [b|] eqn:Eb.
  { rewrite <- NewRational_Format. unfold NewRational.
    by rewrite !NormalizeSignedDecimal_spec, Ea, Eb, !dec_int_FormatInt. }
  all: unfold NewRational; by rewrite !NormalizeSignedDecimal_spec, Ea, Eb.
Qed.

(** ** Lemmas: arithmetic *)

(** The components of a canonical representation as integers. *)
Lemma rat_components x :
  exists n d, rat_of_Q x = mkRational (FormatInt n) (FormatInt (Zpos d)) /\ (n # d == x)%Q /\
              Qred x = n # d.
Proof.
  exists (Qnum (Qred x)), (Qden (Qred x)). unfold rat_of_Q.
  rewrite (FormatInt_nonneg (Zpos (Qden (Qred x)))) by lia. split; [done|].
  split; [|by destruct (Qred x)]. transitivity (Qred x); [by destruct (Qred x)|apply Qred_correct].
Qed.

Lemma mul_texts a b : MultiplySignedDecimal (FormatInt a) (FormatInt b) = Some (FormatInt (a * b)).
Proof. apply MultiplySigned_Format. Qed.

Lemma new_rational_Q p q x :
  q <> 0 -> (frac p q == x)%Q -> NewRational (FormatInt p) (FormatInt q) = Some (rat_of_Q x).
Proof.
  intros Hq Hx. rewrite NewRational_Format. apply Z.eqb_neq in Hq. by rewrite Hq, Hx.
Qed.

Lemma frac_pos p d : (frac p (Zpos d) == p # d)%Q.
Proof. unfold frac, Qeq. cbn [Z.sgn Z.abs Qnum Qden]. rewrite Z2Pos.id; lia. Qed.

Lemma NegateRational_spec x : NegateRational (rat_of_Q x) = Some (rat_of_Q (- x)).
Proof.
  unfold NegateRational, rat_of_Q. cbn [Numerator Denominator].
  rewrite NegateSigned_spec, dec_int_FormatInt. opt_simpl. by rewrite Qred_opp.
Qed.

Lemma AddRational_spec x y : AddRational (rat_of_Q x) (rat_of_Q y) = Some (rat_of_Q (x + y)).
Proof.
  destruct (rat_components x) as (a & b & -> & Hx & _).
  destruct (rat_components y) as (c & d & -> & Hy & _).
  unfold AddRational. cbn [Numerator Denominator]. rewrite !mul_texts. opt_simpl.
  rewrite AddSigned_Format. opt_simpl. apply new_rational_Q; [lia|].
  rewrite <- Hx, <- Hy. change (Zpos b * Zpos d) with (Zpos (b * d)). rewrite frac_pos.
  unfold Qeq, Qplus. cbn [Qnum Qden]. lia.
Qed.

Lemma SubtractRational_spec x y : SubtractRational (rat_of_Q x) (rat_of_Q y) = Some (rat_of_Q (x - y)).
Proof. unfold SubtractRational. rewrite NegateRational_spec. opt_simpl. apply AddRational_spec. Qed.

Lemma MultiplyRational_spec x y : MultiplyRational (rat_of_Q x) (rat_of_Q y) = Some (rat_of_Q (x * y)).
Proof.
  destruct (rat_components x) as (a & b & -> & Hx & _).
  destruct (rat_components y) as (c & d & -> & Hy & _).
  unfold MultiplyRational. cbn [Numerator Denominator]. rewrite !mul_texts. opt_simpl.
  apply new_rational_Q; [lia|]. rewrite <- Hx, <- Hy.
  change (Zpos b * Zpos d) with (Zpos (b * d)). rewrite frac_pos. done.
Qed.

Lemma rat_IsZero x : Rational_IsZero (rat_of_Q x) = bool_decide (x == 0)%Q.
Proof.
  destruct (rat_components x) as (a & b & -> & Hx & _). unfold Rational_IsZero, Rational_Valid.
  cbn [Numerator Denominator].
  assert (FormatInt (Zpos b) <> []) as Hne.
  { rewrite FormatInt_nonneg by lia. auto with go. }
  rewrite (bool_decide_eq_false_2 _ Hne). cbn [negb andb]. apply bool_decide_ext.
  rewrite FormatInt_zero_iff, <- Hx. unfold Qeq. cbn. lia.
Qed.

Lemma DivideRational_spec x y :
  DivideRational (rat_of_Q x) (rat_of_Q y) =
    if bool_decide (y == 0)%Q then None else Some (rat_of_Q (x / y)).
Proof.
  unfold DivideRational. rewrite rat_IsZero. case_bool_decide as Hz; [done|].
  destruct (rat_components x) as (a & b & -> & Hx & _).
  destruct (rat_components y) as (c & d & -> & Hy & _).
  cbn [Numerator Denominator]. rewrite !mul_texts. opt_simpl.
  assert (c <> 0) as Hc.
  { intros ->. apply Hz. rewrite <- Hy. unfold Qeq. cbn. lia. }
  apply new_rational_Q; [lia|]. rewrite <- Hx, <- Hy. unfold frac, Qdiv, Qinv, Qmult, Qeq.
  cbn [Qnum Qden]. destruct c as [|c|c]; [done| |].
  - change (Zpos b * Zpos c) with (Zpos (b * c)). rewrite Z2Pos.id by lia. cbn [Z.sgn Z.abs]. cbn [Qnum Qden]. lia.
  - change (Zpos b * Zneg c) with (Zneg (b * c)). rewrite Z2Pos.id by lia. cbn [Z.sgn Z.abs]. cbn [Qnum Qden]. lia.
Qed.

(** The sign of a comparison. *)
Definition comparison_sign (c : comparison) : Z :=
  match c with Lt => -1 | Eq => 0 | Gt => 1 end.

Lemma CompareRational_spec x y : CompareRational (rat_of_Q x) (rat_of_Q y) = comparison_sign (x ?= y)%Q.
Proof.
  destruct (rat_components x) as (a & b & -> & Hx & _).
  destruct (rat_components y) as (c & d & -> & Hy & _).
  unfold CompareRational. cbn [Numerator Denominator]. rewrite !mul_texts.
  rewrite (CompareSigned_spec _ _ (a * Zpos d) (c * Zpos b)) by apply dec_int_FormatInt.
  rewrite <- Hx, <- Hy. unfold Qcompare. cbn [Qnum Qden].
  destruct (Z.compare_spec (a * Zpos d) (c * Zpos b)); cbn [comparison_sign]; lia.
Qed.

(** ** Properties *)

(** [NewRational] accepts two texts exactly when both denote integers and the second is not
    0, and returns the reduced fraction with a positive denominator; equal fractions have one
    representation. *)
Theorem new_rational_canonical :
  (forall numerator denominator,
     NewRational numerator denominator =
       match dec_int numerator, dec_int denominator with
       | Some p, Some q => if q =? 0 then None else Some (rat_of_Q (frac p q))
       | _, _ => None
       end) /\
  (forall x y, rat_of_Q x = rat_of_Q y <-> (x == y)%Q) /\
  (forall x, exists n d, rat_of_Q x = mkRational (FormatInt n) (FormatUint d) /\ 0 < d /\ Z.gcd n d = 1).
Proof.
  split; [exact NewRational_spec|split].
  - intros x y. split; [|by intros ->]. intros H.
    destruct (rat_components x) as (a & b & Ex & Hx & _).
    destruct (rat_components y) as (c & d & Ey & Hy & _). rewrite Ex, Ey in H.
    injection H as H1 H2. apply FormatInt_inj in H1, H2. injection H2 as ->. subst.
    by rewrite <- Hx, <- Hy.
  - intros x. exists (Qnum (Qred x)), (Zpos (Qden (Qred x))). split; [done|]. split; [lia|].
    assert (Qred (Qred x) = Qred x) as E by apply Qred_involutive || (apply Qred_complete, Qred_correct).
    destruct (Qred x) as [n d]. cbn [Qnum Qden].
    destruct (Qred_components n d) as [H1 H2]. rewrite E in H1, H2. cbn [Qnum Qden] in *.
    pose proof (Z.gcd_nonneg n (Zpos d)). destruct (Z.gcd_divide_r n (Zpos d)) as [k Hk].
    set (g := Z.gcd n (Zpos d)) in *. assert (0 < g) by (destruct (decide (g = 0)) as [->|]; lia).
    assert (Zpos d = k) as Hdk by (rewrite H2, Hk, Z.div_mul; lia).
    rewrite <- Hdk in Hk. apply (Z.mul_cancel_l _ _ (Zpos d)); lia.
Qed.

(** C38. Rational arithmetic is exact: on canonical fractions addition, subtraction,
    multiplication and division are the operations of the field of rationals with a canonical
    result, division fails exactly on a zero divisor, and comparison is the order of
    rationals. *)
Theorem rational_arithmetic_exact x y :
  AddRational (rat_of_Q x) (rat_of_Q y) = Some (rat_of_Q (x + y)) /\
  SubtractRational (rat_of_Q x) (rat_of_Q y) = Some (rat_of_Q (x - y)) /\
  MultiplyRational (rat_of_Q x) (rat_of_Q y) = Some (rat_of_Q (x * y)) /\
  DivideRational (rat_of_Q x) (rat_of_Q y) =
    (if bool_decide (y == 0)%Q then None else Some (rat_of_Q (x / y))) /\
  NegateRational (rat_of_Q x) = Some (rat_of_Q (- x)) /\
  CompareRational (rat_of_Q x) (rat_of_Q y) = comparison_sign (x ?= y)%Q.
Proof.
  rewrite AddRational_spec, SubtractRational_spec, MultiplyRational_spec, DivideRational_spec,
    NegateRational_spec, CompareRational_spec. by repeat split.
Qed.
