(* ===== verification/Literal.v ===== *)
(** * Numeric literals (src/compiler/constant/value.go and rational.go)

    The exact values of source literals: integer literals of base 2, 8, 10 and 16 with a machine
    word fast path and an arbitrary-precision loop, decimal and hexadecimal floating-point
    literals, and the canonical [n/d] spelling of a fact.  The source iterates over runes where
    this file iterates over bytes: a byte of a multi-byte character and the character itself are
    rejected by the same digit test. *)

From Stdlib Require Import QArith Qpower.
From S2P Require Import Prelude GoStd Decimal DecimalLimbs DecimalArith Rational.
Local Open Scope Z_scope.

(** ** Exact facts *)

Record Value : Type := mkValue {
  Text : gostring;
  Type_ : gostring;
  Untyped : bool;
  IsString : bool;
  Real : gostring;
  Imag : gostring;
  canonicalNumber : gostring;
  numeratorEnd : nat
}.

#[export] Instance Value_eq_dec : EqDecision Value.
Proof. solve_decision. Defined.

Definition numericFact (number : Rational) (typ : gostring) (untyped : bool) : Value :=
  let text := Rational_String number in
  mkValue text typ untyped false [] [] text
    (if decide (Denominator number = lit "1") then O else length (Numerator number)).

(** ** Digits *)

Definition integerDigit (digit : Z) : Z :=
  if (48 <=? digit) && (digit <=? 57) then digit - 48
  else if (97 <=? digit) && (digit <=? 102) then digit - 97 + 10
  else if (65 <=? digit) && (digit <=? 70) then digit - 65 + 10
  else -1.

Definition numericDigit (digit : Z) : Z :=
  if (48 <=? digit) && (digit <=? 57) then digit - 48
  else if (97 <=? digit) && (digit <=? 102) then digit - 97 + 10
  else if (65 <=? digit) && (digit <=? 70) then digit - 65 + 10
  else -1.

(** The accumulation loop of [ParseIntegerLiteral] and [parseHexRational]. *)
Fixpoint accumulate_digits (digitOf : Z -> Z) (base : Z) (digits : gostring) (value : gostring) : option gostring :=
  match digits with
  | [] => Some value
  | digit :: rest =>
      let n := digitOf digit in
      if (n <? 0) || (base <=? n) then None
      else
        let value := default [] (MultiplySignedDecimal value (FormatInt base)) in
        let value := default [] (AddSignedDecimal value (FormatInt n)) in
        accumulate_digits digitOf base rest value
  end.

(** ** Integer literals *)

(** An optional sign: the sign the result carries and the text after it. *)
Definition literal_sign (text : gostring) : gostring * gostring :=
  match text with
  | c :: rest => if (c =? 43) || (c =? 45) then (if c =? 45 then lit "-" else [], rest) else ([], text)
  | [] => ([], text)
  end.

Definition literal_base (text : gostring) : Z * gostring :=
  match text with
  | c :: d :: rest =>
      if c =? 48 then
        if (d =? 98) || (d =? 66) then (2, rest)
        else if (d =? 111) || (d =? 79) then (8, rest)
        else if (d =? 120) || (d =? 88) then (16, rest)
        else (8, d :: rest)
      else (10, text)
  | _ => (10, text)
  end.

Definition int_type : gostring := lit "Int".

(** The part of [ParseIntegerLiteral] after the sign. *)
Definition parse_unsigned_literal (sign text : gostring) : option Value :=
  if decide (text = []) then None
  else
    let '(base, digits) := literal_base text in
    if decide (digits = []) then
      if decide (text = lit "0")
      then Some (numericFact (mkRational (lit "0") (lit "1")) int_type true)
      else None
    else if base =? 10 then
      if forallb is_digit digits then
        let sign := if decide (digits = lit "0") then [] else sign in
        Some (numericFact (mkRational (sign ++ digits) (lit "1")) int_type true)
      else None
    else
      let firstDigit := integerDigit (hd 0 digits) in
      if (firstDigit <? 0) || (base <=? firstDigit) then None
      else
        match ParseUint digits base with
        | Some parsed =>
            let value := FormatUint parsed in
            let value := if parsed =? 0 then value else sign ++ value in
            Some (numericFact (mkRational value (lit "1")) int_type true)
        | None =>
            value ← accumulate_digits integerDigit base digits (lit "0");
            value ← NormalizeSignedDecimal (sign ++ value);
            Some (numericFact (mkRational value (lit "1")) int_type true)
        end.

Definition ParseIntegerLiteral (text : gostring) : option Value :=
  let text := TrimSpace (remove_byte 95 text) in
  if decide (text = []) then None
  else let '(sign, text) := literal_sign text in parse_unsigned_literal sign text.

(** ** Rational literals *)

Definition maxLiteralExponent : Z := 100000.

Fixpoint exponent_loop (text : gostring) (value : Z) : option Z :=
  match text with
  | [] => Some value
  | digit :: rest =>
      if (digit <? 48) || (57 <? digit) then None
      else
        let value := value * 10 + (digit - 48) in
        if maxLiteralExponent <? value then None else exponent_loop rest value
  end.

Definition parseLiteralExponent (text : gostring) : option Z :=
  match text with
  | [] => None
  | c :: rest =>
      let '(negative, text) := if (c =? 43) || (c =? 45) then (c =? 45, rest) else (false, text) in
      if decide (text = []) then None
      else (fun value => if negative then - value else value) <$> exponent_loop text 0
  end.

(** Splitting the fraction off a mantissa: the number of fraction digits and the mantissa without
    its point. *)
Definition split_fraction (text : gostring) : option (Z * gostring) :=
  match IndexByte text 46 with
  | Some pos =>
      if ContainsByte (drop (S pos) text) 46 then None
      else Some (Z.of_nat (length text) - Z.of_nat pos - 1, take pos text ++ drop (S pos) text)
  | None => Some (0, text)
  end.

Definition parseDecimalRational (text : gostring) : option Rational :=
  let '(sign, text) := literal_sign text in
  '(exponent, text) ←
    (match IndexAny text (lit "eE") with
     | Some pos =>
         parsed ← parseLiteralExponent (drop (S pos) text);
         Some (parsed, take pos text)
     | None => Some (0, text)
     end);
  '(fractionDigits, text) ← split_fraction text;
  if decide (text = []) then None
  else if negb (forallb is_digit text) then None
  else
    coefficient ← NormalizeSignedDecimal (sign ++ text);
    let power := exponent - fractionDigits in
    if 0 <=? power then NewRational (coefficient ++ strings_Repeat (lit "0") power) (lit "1")
    else NewRational coefficient (lit "1" ++ strings_Repeat (lit "0") (- power)).

Definition parseHexRational (text : gostring) : option Rational :=
  let '(sign, text) := literal_sign text in
  match text with
  | c :: d :: _ :: _ =>
      if negb ((c =? 48) && ((d =? 120) || (d =? 88))) then None
      else
        match IndexAny text (lit "pP") with
        | None =>
            if ContainsByte text 46 then None
            else
              value ← ParseIntegerLiteral (sign ++ text);
              NewRational (Text value) (lit "1")
        | Some exponentAt =>
            exponent ← parseLiteralExponent (drop (S exponentAt) text);
            '(fractionDigits, mantissa) ← split_fraction (drop 2 (take exponentAt text));
            if decide (mantissa = []) then None
            else
              coefficient ← accumulate_digits numericDigit 16 mantissa (lit "0");
              let coefficient := default [] (NormalizeSignedDecimal (sign ++ coefficient)) in
              let power := exponent - fractionDigits * 4 in
              if 0 <=? power then
                coefficient ← MultiplySignedDecimal coefficient (Pow2UnsignedDecimal power);
                NewRational coefficient (lit "1")
              else NewRational coefficient (Pow2UnsignedDecimal (- power))
        end
  | _ => None
  end.

Definition ParseRationalLiteral (text : gostring) : option Rational :=
  let text := TrimSpace (remove_byte 95 text) in
  if bool_decide (text = []) || HasSuffix text (lit "i") then None
  else
    match IndexByte text 47 with
    | Some slash =>
        if ContainsByte (drop (S slash) text) 47 then None
        else NewRational (take slash text) (drop (S slash) text)
    | None =>
        if HasPrefix text (lit "0x") || HasPrefix text (lit "0X") || ContainsAny text (lit "pP")
        then parseHexRational text
        else if negb (ContainsAny text (lit ".eE")) then
          value ← ParseIntegerLiteral text;
          NewRational (Text value) (lit "1")
        else parseDecimalRational text
    end.

(** Spot checks. *)
Example parse_hex_float : ParseRationalLiteral (lit "0x1.8p-1") = Some (mkRational (lit "3") (lit "4")).
Proof. vm_compute. reflexivity. Qed.
Example parse_decimal : ParseRationalLiteral (lit "-1_0.50e1") = Some (mkRational (lit "-105") (lit "1")).
Proof. vm_compute. reflexivity. Qed.
Example parse_big_hex : option_map Text (ParseIntegerLiteral (lit "0xFFFFFFFFFFFFFFFFFF")) = Some (lit "4722366482869645213695").
Proof. vm_compute. reflexivity. Qed.
Example parse_signed_hex : ParseRationalLiteral (lit "-0xF") = Some (mkRational (lit "-15") (lit "1")).
Proof. vm_compute. reflexivity. Qed.
Example parse_signed_hex_e : ParseRationalLiteral (lit "-0xE") = None.
Proof. vm_compute. reflexivity. Qed.

(** ** The value of a digit string *)

Definition base_val (base : Z) (s : gostring) : Z :=
  fold_left (fun a c => base * a + integerDigit c) s 0.

Definition base_digit (base c : Z) : Prop := 0 <= integerDigit c < base.

Lemma numericDigit_integerDigit c : numericDigit c = integerDigit c.
Proof. reflexivity. Qed.

Lemma integerDigit_cases c :
  0 <= integerDigit c -> 48 <= c <= 57 \/ 97 <= c <= 102 \/ 65 <= c <= 70.
Proof.
  unfold integerDigit.
  destruct ((48 <=? c) && (c <=? 57)) eqn:E1; breflect; [lia|].
  destruct ((97 <=? c) && (c <=? 102)) eqn:E2; breflect; [lia|].
  destruct ((65 <=? c) && (c <=? 70)) eqn:E3; breflect; lia.
Qed.

Lemma integerDigit_dec c : digit_byte c -> integerDigit c = c - 48.
Proof. unfold digit_byte, integerDigit. intros H. rewrite !(proj2 (Z.leb_le _ _)) by lia. done. Qed.

Lemma base_digit_solid base c : base_digit base c -> solid c.
Proof. intros [H _]. apply integerDigit_cases in H. unfold solid. lia. Qed.

Lemma base_digit_dec c : base_digit 10 c <-> digit_byte c.
Proof.
  split; unfold base_digit.
  - intros [H1 H2]. unfold integerDigit, digit_byte in *.
    destruct ((48 <=? c) && (c <=? 57)) eqn:E1; breflect; [lia|].
    destruct ((97 <=? c) && (c <=? 102)) eqn:E2; breflect; [lia|].
    destruct ((65 <=? c) && (c <=? 70)) eqn:E3; breflect; lia.
  - intros H. rewrite (integerDigit_dec _ H). unfold digit_byte in H. lia.
Qed.

Lemma fold_base_dec s n : Forall digit_byte s ->
  fold_left (fun a c => 10 * a + integerDigit c) s n = fold_left (fun a c => 10 * a + (c - 48)) s n.
Proof.
  intros H. revert n. induction H as [|c s Hc _ IH]; intros n; [done|]. cbn [fold_left].
  by rewrite (integerDigit_dec _ Hc), IH.
Qed.

Lemma base_val_dec s : Forall digit_byte s -> base_val 10 s = dval s.
Proof. apply fold_base_dec. Qed.

Lemma base_val_nonneg_from base s n :
  0 < base -> 0 <= n -> Forall (base_digit base) s ->
  0 <= fold_left (fun a c => base * a + integerDigit c) s n.
Proof.
  intros Hb Hn H. revert n Hn. induction H as [|c s [Hc _] _ IH]; intros n Hn; [done|].
  cbn [fold_left]. apply IH. nia.
Qed.

Lemma accumulate_digits_spec base digits n :
  0 < base -> 0 <= n ->
  accumulate_digits integerDigit base digits (FormatUint n) =
    if decide (Forall (base_digit base) digits)
    then Some (FormatUint (fold_left (fun a c => base * a + integerDigit c) digits n)) else None.
Proof.
  intros Hb. revert n. induction digits as [|c digits IH]; intros n Hn; cbn [accumulate_digits fold_left].
  { by rewrite decide_True by constructor. }
  destruct ((integerDigit c <? 0) || (base <=? integerDigit c)) eqn:E.
  { rewrite decide_False; [done|]. intros H. inversion H as [|? ? [Hc1 Hc2] _]; subst.
    apply orb_true_iff in E as [E|E]; breflect; lia. }
  breflect. rewrite <- (FormatInt_nonneg n) by done. rewrite MultiplySigned_Format. opt_simpl.
  rewrite AddSigned_Format. opt_simpl. rewrite FormatInt_nonneg, IH by nia.
  rewrite (Z.mul_comm n base). case_decide as H1; case_decide as H2; try done.
  - destruct H2. by constructor.
  - destruct H1. by inversion H2.
Qed.

(** The machine-word fast path agrees with the loop. *)
Lemma parse_uint_loop_base base s n v :
  0 < base <= 16 -> 0 <= n -> parse_uint_loop base s n = Some v ->
  Forall (base_digit base) s /\ v = fold_left (fun a c => base * a + integerDigit c) s n.
Proof.
  intros Hb. revert n. induction s as [|c s IH]; intros n Hn; cbn [parse_uint_loop fold_left].
  { intros H. by injection H as ->. }
  destruct (parse_digit c) as [d|] eqn:Ed; [|done]. destruct (base <=? d) eqn:Eb; [done|].
  destruct (maxUint64 / base + 1 <=? n); [done|]. cbn zeta.
  destruct (maxUint64 <? n * base + d); [done|]. breflect.
  assert (integerDigit c = d /\ 0 <= d) as [Hc Hd].
  { unfold parse_digit in Ed. unfold integerDigit.
    destruct ((48 <=? c) && (c <=? 57)) eqn:E1; [injection Ed as <-; breflect; split; [done|lia]|].
    destruct ((97 <=? c) && (c <=? 122)) eqn:E2.
    { injection Ed as <-. breflect. rewrite !(proj2 (Z.leb_le _ _)) by lia. split; [done|lia]. }
    destruct ((65 <=? c) && (c <=? 90)) eqn:E3; [|done]. injection Ed as <-. breflect.
    rewrite (proj2 (Z.leb_gt 97 c)) by lia. cbn [andb]. rewrite !(proj2 (Z.leb_le _ _)) by lia.
    split; [done|lia]. }
  intros H. apply IH in H as [H1 H2]; [|nia]. split.
  - constructor; [|done]. unfold base_digit. lia.
  - rewrite H2, Hc. f_equal. lia.
Qed.

(** ** The grammar of integer literals *)

Definition literal_prefixes : list (Z * gostring) :=
  [(2, lit "0b"); (2, lit "0B"); (8, lit "0o"); (8, lit "0O"); (16, lit "0x"); (16, lit "0X"); (8, lit "0")].

(** The spellings of a natural number: decimal without a leading zero, or a prefix and digits. *)
Inductive spelled : gostring -> Z -> Prop :=
| spelled_decimal ds : canonical ds -> spelled ds (dval ds)
| spelled_prefixed base p ds :
    In (base, p) literal_prefixes -> ds <> [] -> Forall (base_digit base) ds ->
    spelled (p ++ ds) (base_val base ds).

Inductive sign_spelling : gostring -> Z -> Prop :=
| sign_none : sign_spelling [] 1
| sign_plus : sign_spelling (lit "+") 1
| sign_minus : sign_spelling (lit "-") (-1).

Definition int_fact (z : Z) : Value := numericFact (mkRational (FormatInt z) (lit "1")) int_type true.

Lemma prefixes_base base p : In (base, p) literal_prefixes -> 0 < base <= 16 /\ base <> 10.
Proof. intros H. cbn in H. decompose [or] H; try done; injection H0 as <- _ || injection H1 as <- _; lia. Qed.

Lemma literal_base_inv text base digits :
  text <> [] -> literal_base text = (base, digits) ->
  (base = 10 /\ digits = text /\ (text = [48] \/ hd 0 text <> 48)) \/
  (base <> 10 /\ exists p, In (base, p) literal_prefixes /\ text = p ++ digits).
Proof.
  intros Hne. destruct text as [|c [|d rest]]; [done| |]; cbn [literal_base].
  { intros H. injection H as <- <-. left. split; [done|]. split; [done|]. cbn.
    destruct (decide (c = 48)) as [->|]; auto. }
  destruct (c =? 48) eqn:Ec; breflect.
  2: { intros H. injection H as <- <-. left. cbn. auto. }
  subst c. intros H. right.
  assert (forall b x, In (b, [48; x]) literal_prefixes -> d = x -> b <> 10 -> (b, rest) = (base, digits) ->
    base <> 10 /\ exists p, In (base, p) literal_prefixes /\ 48 :: d :: rest = p ++ digits) as Hgo.
  { intros b x Hin -> Hb E. injection E as <- <-. split; [done|]. by exists [48; x]. }
  destruct ((d =? 98) || (d =? 66)) eqn:E1.
  { apply orb_true_iff in E1 as [E1|E1]; breflect;
      (eapply Hgo; [|exact E1| |exact H]); [cbn; tauto|done|cbn; tauto|done]. }
  destruct ((d =? 111) || (d =? 79)) eqn:E2.
  { apply orb_true_iff in E2 as [E2|E2]; breflect;
      (eapply Hgo; [|exact E2| |exact H]); [cbn; tauto|done|cbn; tauto|done]. }
  destruct ((d =? 120) || (d =? 88)) eqn:E3.
  { apply orb_true_iff in E3 as [E3|E3]; breflect;
      (eapply Hgo; [|exact E3| |exact H]); [cbn; tauto|done|cbn; tauto|done]. }
  injection H as <- <-. split; [done|]. exists [48]. split; [cbn; tauto|done].
Qed.

Lemma literal_base_prefixed base p ds :
  In (base, p) literal_prefixes -> ds <> [] -> Forall (base_digit base) ds ->
  literal_base (p ++ ds) = (base, ds).
Proof.
  intros Hin Hne Hds. unfold literal_prefixes, In in Hin.
  destruct Hin as [H|[H|[H|[H|[H|[H|[H|[]]]]]]]]; injection H as <- <-; try done.
  destruct ds as [|c ds]; [done|]. inversion Hds as [|? ? [H1 H2] _]; subst.
  pose proof (integerDigit_cases c H1) as Hc.
  assert (c < 58).
  { unfold integerDigit in H2. destruct ((48 <=? c) && (c <=? 57)) eqn:E1; breflect; [lia|].
    destruct ((97 <=? c) && (c <=? 102)) eqn:E2; breflect; [lia|].
    destruct ((65 <=? c) && (c <=? 70)) eqn:E3; breflect; lia. }
  change (lit "0" ++ c :: ds) with (48 :: c :: ds). cbn [literal_base].
  rewrite !(proj2 (Z.eqb_neq c _)) by lia. done.
Qed.

Lemma literal_base_decimal ds : canonical ds -> literal_base ds = (10, ds).
Proof.
  intros H. destruct ds as [|c [|d ds]]; [done..|]. destruct H as [H|(c' & s' & E & H & _)]; [done|].
  injection E as -> <-. cbn [literal_base]. by rewrite (proj2 (Z.eqb_neq c' 48)).
Qed.

(** The sign a literal carries into its result. *)
Definition out_sign (sign : gostring) (s : Z) : Prop := sign = [] /\ s = 1 \/ sign = lit "-" /\ s = -1.

Lemma out_sign_text sign s n : out_sign sign s -> 0 < n -> sign ++ FormatUint n = FormatInt (s * n).
Proof.
  intros [[-> ->]|[-> ->]] Hn.
  - by rewrite Z.mul_1_l, FormatInt_nonneg by lia.
  - rewrite FormatInt_neg by lia. by replace (- (-1 * n)) with n by lia.
Qed.

Lemma normalize_signed_digits sign s ds :
  out_sign sign s -> Forall digit_byte ds -> ds <> [] ->
  NormalizeSignedDecimal (sign ++ ds) = Some (FormatInt (s * dval ds)).
Proof.
  intros [[-> ->]|[-> ->]] Hds Hne; rewrite NormalizeSignedDecimal_spec.
  - cbn [app]. rewrite dec_int_digits by done. by rewrite Z.mul_1_l.
  - rewrite dec_int_minus_digits by done. opt_simpl. by replace (-1 * dval ds) with (- dval ds) by lia.
Qed.

Lemma base_val_nonneg base s : 0 < base -> Forall (base_digit base) s -> 0 <= base_val base s.
Proof. intros. by apply base_val_nonneg_from. Qed.

Lemma parse_unsigned_complete sign s body n :
  out_sign sign s -> spelled body n -> parse_unsigned_literal sign body = Some (int_fact (s * n)).
Proof.
  intros Hs Hsp. unfold parse_unsigned_literal. destruct Hsp as [ds Hc|base p ds Hin Hne Hds].
  - pose proof (canonical_nonempty _ Hc) as Hne. rewrite decide_False by done.
    rewrite literal_base_decimal by done. rewrite decide_False by done.
    change (10 =? 10) with true. cbn iota.
    rewrite (proj2 (forallb_is_digit ds)) by auto with go. cbn zeta. unfold int_fact. do 3 f_equal.
    cbn [Denominator Numerator]. case_decide as Hz.
    + subst. change (dval (lit "0")) with 0. by rewrite Z.mul_0_r.
    + pose proof (canonical_pos _ Hc Hz). rewrite <- (FormatUint_dval ds) at 1 by done.
      by apply out_sign_text.
  - destruct (prefixes_base _ _ Hin) as [Hb Hb10].
    rewrite decide_False by (intros E; apply app_eq_nil in E as [_ E]; done).
    rewrite (literal_base_prefixed base), decide_False by done. rewrite (proj2 (Z.eqb_neq base 10)) by done.
    destruct ds as [|c ds]; [done|]. cbn zeta. cbn [hd].
    inversion Hds as [|? ? [Hc1 Hc2] _]; subst.
    rewrite (proj2 (Z.ltb_ge _ _)), (proj2 (Z.leb_gt _ _)) by done. cbn [orb].
    destruct (ParseUint (c :: ds) base) as [parsed|] eqn:E.
    + apply parse_uint_loop_base in E as [_ ->]; [|lia..]. fold (base_val base (c :: ds)).
      unfold int_fact. do 3 f_equal. pose proof (base_val_nonneg base _ ltac:(lia) Hds).
      case_if; [rewrite Hif, Z.mul_0_r; done|]. apply out_sign_text; [done|lia].
    + change (lit "0") with (FormatUint 0). rewrite accumulate_digits_spec, decide_True by (lia || done).
      opt_simpl. fold (base_val base (c :: ds)).
      pose proof (base_val_nonneg base _ ltac:(lia) Hds).
      rewrite (normalize_signed_digits sign s) by auto with go. opt_simpl.
      by rewrite dval_FormatUint.
Qed.

Lemma parse_unsigned_sound sign s body v :
  out_sign sign s -> parse_unsigned_literal sign body = Some v -> exists n, spelled body n.
Proof.
  intros Hs. unfold parse_unsigned_literal. case_decide as Hne; [done|].
  destruct (literal_base body) as [base digits] eqn:Eb. cbn iota.
  apply literal_base_inv in Eb as [(-> & -> & Hhd)|(Hb10 & p & Hin & ->)]; [| |done].
  - rewrite decide_False by done. change (10 =? 10) with true. cbn iota.
    destruct (forallb is_digit body) eqn:E; [|done]. intros _. apply forallb_is_digit in E.
    exists (dval body). constructor. destruct Hhd as [->|Hhd]; [by left|]. right.
    destruct body as [|c body]; [done|]. eauto.
  - destruct (prefixes_base _ _ Hin) as [Hb _]. case_decide as Hd.
    { subst. case_decide as H0; [|done]. intros _. exists 0. rewrite H0. constructor. by left. }
    rewrite (proj2 (Z.eqb_neq base 10)) by done. cbn zeta.
    destruct ((_ <? 0) || _); [done|].
    assert (Forall (base_digit base) digits -> exists n, spelled (p ++ digits) n) as Hgo.
    { intros H. eexists. by econstructor. }
    destruct (ParseUint digits base) as [parsed|] eqn:E.
    { intros _. destruct digits as [|c digits]; [done|]. apply parse_uint_loop_base in E as [H _]; [auto|lia..]. }
    change (lit "0") with (FormatUint 0). rewrite accumulate_digits_spec by lia.
    case_decide as Hf; [auto|done].
Qed.

Lemma literal_sign_spelled sg s body n :
  sign_spelling sg s -> spelled body n ->
  sg ++ body <> [] /\ exists sign, literal_sign (sg ++ body) = (sign, body) /\ out_sign sign s.
Proof.
  intros Hsg Hb.
  assert (exists c rest, body = c :: rest /\ 48 <= c <= 57) as (c & rest & -> & Hc).
  { destruct Hb as [ds Hc|base p ds Hin _ _].
    - pose proof (canonical_digits _ Hc) as Hd. pose proof (canonical_nonempty _ Hc).
      destruct ds as [|c ds]; [done|]. inversion Hd; subst. eauto.
    - unfold literal_prefixes, In in Hin.
      destruct Hin as [H|[H|[H|[H|[H|[H|[H|[]]]]]]]]; injection H as <- <-; eexists _, _; (split; [reflexivity|vm_compute; split; discriminate]). }
  destruct Hsg; (split; [done|]).
  - exists []. split; [|by left]. cbn [app literal_sign].
    by rewrite (proj2 (Z.eqb_neq c 43)), (proj2 (Z.eqb_neq c 45)) by lia.
  - exists []. split; [done|by left].
  - exists (lit "-"). split; [done|by right].
Qed.

Lemma literal_sign_inv text sign body :
  literal_sign text = (sign, body) ->
  exists sg s, sign_spelling sg s /\ text = sg ++ body /\ out_sign sign s.
Proof.
  destruct text as [|c rest]; cbn [literal_sign].
  { intros H. injection H as <- <-. exists [], 1. split; [constructor|]. split; [done|by left]. }
  destruct ((c =? 43) || (c =? 45)) eqn:E.
  2: { intros H. injection H as <- <-. exists [], 1. split; [constructor|]. split; [done|by left]. }
  intros H. injection H as <- <-. apply orb_true_iff in E as [E|E]; breflect; subst c.
  - exists (lit "+"), 1. split; [constructor|]. split; [done|by left].
  - exists (lit "-"), (-1). split; [constructor|]. split; [done|by right].
Qed.

(** An integer literal is accepted exactly when it spells an integer, which is its value. *)
Lemma ParseIntegerLiteral_spec text v :
  ParseIntegerLiteral text = Some v <->
  exists sg s body n, TrimSpace (remove_byte 95 text) = sg ++ body /\ sign_spelling sg s /\
                      spelled body n /\ v = int_fact (s * n).
Proof.
  unfold ParseIntegerLiteral. cbn zeta. split.
  - case_decide as Hne; [done|]. destruct (literal_sign _) as [sign body] eqn:E.
    apply literal_sign_inv in E as (sg & s & Hsg & Ht & Hs). intros H.
    destruct (parse_unsigned_sound _ _ _ _ Hs H) as [n Hn].
    rewrite (parse_unsigned_complete _ _ _ _ Hs Hn) in H. injection H as <-.
    exists sg, s, body, n. auto.
  - intros (sg & s & body & n & -> & Hsg & Hb & ->).
    destruct (literal_sign_spelled _ _ _ _ Hsg Hb) as (Hne & sign & E & Hs).
    rewrite decide_False, E by done. by apply parse_unsigned_complete.
Qed.

(** ** Lemmas: searching and cleaning texts *)

Lemma IndexByte_absent s c : Forall (fun x => x <> c) s -> IndexByte s c = None.
Proof.
  induction 1 as [|x s Hx _ IH]; [done|]. cbn [IndexByte]. rewrite (proj2 (Z.eqb_neq x c)) by done.
  by rewrite IH.
Qed.

Lemma IndexByte_app s t c : Forall (fun x => x <> c) s -> IndexByte (s ++ c :: t) c = Some (length s).
Proof.
  induction 1 as [|x s Hx _ IH]; cbn [IndexByte app].
  - by rewrite Z.eqb_refl.
  - rewrite (proj2 (Z.eqb_neq x c)) by done. by rewrite IH.
Qed.

Lemma IndexAny_absent s cs : Forall (fun x => ~ In x cs) s -> IndexAny s cs = None.
Proof.
  induction 1 as [|x s Hx _ IH]; [done|]. cbn [IndexAny].
  destruct (existsb (Z.eqb x) cs) eqn:E; [|by rewrite IH].
  apply existsb_exists in E as (y & Hy & E). apply Z.eqb_eq in E. by subst.
Qed.

Lemma IndexAny_app s t c cs :
  Forall (fun x => ~ In x cs) s -> In c cs -> IndexAny (s ++ c :: t) cs = Some (length s).
Proof.
  intros H Hc. induction H as [|x s Hx _ IH]; cbn [IndexAny app].
  - rewrite (proj2 (existsb_exists _ _)); [done|]. exists c. split; [done|apply Z.eqb_refl].
  - destruct (existsb (Z.eqb x) cs) eqn:E; [|by rewrite IH].
    apply existsb_exists in E as (y & Hy & E). apply Z.eqb_eq in E. by subst.
Qed.

Lemma remove_byte_absent c s : Forall (fun x => x <> c) s -> remove_byte c s = s.
Proof.
  induction 1 as [|x s Hx _ IH]; [done|]. cbn. rewrite (proj2 (Z.eqb_neq x c)) by done.
  cbn [negb]. f_equal. exact IH.
Qed.

(** A byte of a number that needs no cleaning. *)
Definition plain (c : Z) : Prop := solid c /\ c <> 95.

Lemma clean_plain text :
  text <> [] -> Forall plain text -> TrimSpace (remove_byte 95 text) = text.
Proof.
  intros Hne H. rewrite remove_byte_absent by (eapply Forall_impl; [exact H|intros ? []; done]).
  destruct text as [|c t]; [done|]. apply TrimSpace_solid.
  - inversion H as [|? ? []]; done.
  - rewrite List.Forall_forall in H. by apply H, last_In.
Qed.

Lemma HasSuffix_last text c : text <> [] -> HasSuffix text [c] = (List.last text 0 =? c).
Proof.
  intros Hne. destruct (list_last_split text Hne) as (t & x & ->). unfold HasSuffix.
  rewrite rev_unit, List.last_last. cbn. apply andb_true_r.
Qed.

Lemma HasSuffix_absent text c : text <> [] -> Forall (fun x => x <> c) text -> HasSuffix text [c] = false.
Proof.
  intros Hne H. rewrite HasSuffix_last by done. apply Z.eqb_neq.
  rewrite List.Forall_forall in H. by apply H, last_In.
Qed.

(** The dispatch of [ParseRationalLiteral] on a clean text that is no fraction. *)
Lemma ParseRational_plain text :
  text <> [] -> Forall (fun c => plain c /\ c <> 47 /\ c <> 105) text ->
  ParseRationalLiteral text =
    if HasPrefix text (lit "0x") || HasPrefix text (lit "0X") || ContainsAny text (lit "pP")
    then parseHexRational text
    else if negb (ContainsAny text (lit ".eE"))
    then value ← ParseIntegerLiteral text; NewRational (Text value) (lit "1")
    else parseDecimalRational text.
Proof.
  intros Hne H. unfold ParseRationalLiteral.
  rewrite clean_plain by (done || (eapply Forall_impl; [exact H|by intros ? (? & ? & ?)])). cbn zeta.
  rewrite bool_decide_eq_false_2 by done. cbn [orb].
  change (lit "i") with [105].
  rewrite HasSuffix_absent; [|done|eapply Forall_impl; [exact H|by intros ? (? & ? & ?)]].
  rewrite IndexByte_absent; [done|]. eapply Forall_impl; [exact H|by intros ? (? & ? & ?)].
Qed.

(** ** Lemmas: exponents and fractions *)

Inductive fraction_spelling : gostring -> gostring -> Prop :=
| fraction_none : fraction_spelling [] []
| fraction_point b : fraction_spelling (lit "." ++ b) b.

Inductive exponent_spelling (marks : gostring) : gostring -> Z -> Prop :=
| exponent_none : exponent_spelling marks [] 0
| exponent_some m sg s ds :
    In m marks -> sign_spelling sg s -> ds <> [] -> Forall digit_byte ds -> dval ds <= maxLiteralExponent ->
    exponent_spelling marks (m :: sg ++ ds) (s * dval ds).

Lemma exponent_loop_spec ds n :
  Forall digit_byte ds -> 0 <= n ->
  exponent_loop ds n =
    let v := n * 10 ^ Z.of_nat (length ds) + dval ds in
    if decide (ds = []) then Some n else if v <=? maxLiteralExponent then Some v else None.
Proof.
  intros H. revert n. induction H as [|c ds Hc Hds IH]; intros n Hn; [done|]. cbn [exponent_loop].
  rewrite (decide_False (P := c :: ds = [])) by done. unfold digit_byte in Hc.
  rewrite (proj2 (Z.ltb_ge c 48)), (proj2 (Z.ltb_ge 57 c)) by lia. cbn [orb]. cbn zeta.
  assert (n * 10 ^ Z.of_nat (length (c :: ds)) + dval (c :: ds) =
          (n * 10 + (c - 48)) * 10 ^ Z.of_nat (length ds) + dval ds) as ->.
  { rewrite dval_cons. cbn [length]. rewrite Nat2Z.inj_succ, Z.pow_succ_r by lia. lia. }
  pose proof (dval_bound ds Hds). set (m := n * 10 + (c - 48)) in *. assert (0 <= m) by lia.
  destruct (maxLiteralExponent <? m) eqn:E; breflect.
  - rewrite (proj2 (Z.leb_gt _ _)); [done|]. nia.
  - rewrite IH by done. cbn zeta. case_decide as Hd; [|done]. subst. cbn. rewrite Z.mul_1_r, Z.add_0_r.
    by rewrite (proj2 (Z.leb_le _ _)).
Qed.

Lemma parseLiteralExponent_spec sg s ds :
  sign_spelling sg s -> Forall digit_byte ds -> ds <> [] ->
  parseLiteralExponent (sg ++ ds) = if dval ds <=? maxLiteralExponent then Some (s * dval ds) else None.
Proof.
  intros Hsg Hds Hne.
  assert (exponent_loop ds 0 = if dval ds <=? maxLiteralExponent then Some (dval ds) else None) as E.
  { rewrite exponent_loop_spec by done. by rewrite decide_False by done. }
  assert (forall negative : bool,
    (if decide (ds = []) then None
     else (fun value => if negative then - value else value) <$> exponent_loop ds 0) =
    if dval ds <=? maxLiteralExponent then Some (if negative then - dval ds else dval ds) else None) as Hgo.
  { intros negative. rewrite decide_False, E by done. by destruct (dval ds <=? maxLiteralExponent). }
  destruct Hsg; unfold parseLiteralExponent.
  - destruct ds as [|c ds]; [done|]. cbn [app]. destruct (digits_hd_not_sign c ds Hds) as [-> ->].
    cbn [orb]. rewrite (Hgo false). by rewrite Z.mul_1_l.
  - change (lit "+" ++ ds) with (43 :: ds). cbn [orb Z.eqb Pos.eqb]. rewrite (Hgo false).
    by rewrite Z.mul_1_l.
  - change (lit "-" ++ ds) with (45 :: ds). cbn [orb Z.eqb Pos.eqb]. rewrite (Hgo true).
    by destruct (dval ds).
Qed.

Lemma split_fraction_spec a fr b :
  Forall (fun c => c <> 46) a -> Forall (fun c => c <> 46) b -> fraction_spelling fr b ->
  split_fraction (a ++ fr) = Some (Z.of_nat (length b), a ++ b).
Proof.
  intros Ha Hb Hfr. unfold split_fraction. destruct Hfr as [|b].
  - rewrite app_nil_r, IndexByte_absent by done. done.
  - change (lit "." ++ b) with (46 :: b). rewrite IndexByte_app by done.
    rewrite drop_S_app.
    unfold ContainsByte. rewrite IndexByte_absent by done. rewrite take_app_length.
    do 2 f_equal. rewrite length_app. cbn [length]. lia.
Qed.

(** ** Lemmas: scaling by a power *)

Lemma scaled_nonneg base z p : 0 <= p -> (frac (z * base ^ p) 1 == inject_Z z * inject_Z base ^ p)%Q.
Proof.
  intros Hp. rewrite <- Zpower_Qpower by done. rewrite <- inject_Z_mult. unfold frac, Qeq, inject_Z.
  cbn [Qnum Qden Z.sgn]. lia.
Qed.

Lemma scaled_neg base z p :
  0 < base -> p < 0 -> (frac z (base ^ (- p)) == inject_Z z * inject_Z base ^ p)%Q.
Proof.
  intros Hb Hp. pose proof (Z.pow_pos_nonneg base (- p) Hb ltac:(lia)) as Hpos.
  replace p with (- - p) at 2 by lia. rewrite Qpower_opp, <- Zpower_Qpower by lia.
  destruct (base ^ (- p)) as [|d|] eqn:E; [lia| |lia]. unfold frac, inject_Z, Qinv, Qmult, Qeq.
  cbn [Qnum Qden Z.sgn Z.abs Z.to_pos]. rewrite Z2Pos.id by lia. lia.
Qed.

Lemma repeat_zeros k : strings_Repeat (lit "0") k = replicate (Z.to_nat k) 48.
Proof.
  unfold strings_Repeat. induction (Z.to_nat k) as [|n IH]; [done|].
  cbn [replicate concat]. by rewrite IH.
Qed.

Lemma zeros_digits n : Forall digit_byte (replicate n 48).
Proof. apply Forall_replicate. unfold digit_byte. lia. Qed.

Lemma dval_zero_padding s n : dval (s ++ replicate n 48) = dval s * 10 ^ Z.of_nat n.
Proof.
  rewrite dval_app, length_replicate, (dval_zeros (replicate n 48)).
  - lia.
  - by apply Forall_replicate.
Qed.

Lemma dec_int_zero_padding z k :
  0 <= k -> dec_int (FormatInt z ++ strings_Repeat (lit "0") k) = Some (z * 10 ^ k).
Proof.
  intros Hk. rewrite repeat_zeros.
  assert (forall n, 0 <= n -> Forall digit_byte (FormatUint n ++ replicate (Z.to_nat k) 48)) as Hd.
  { intros n Hn. apply Forall_app. split; [auto with go|apply zeros_digits]. }
  assert (forall n, 0 <= n -> FormatUint n ++ replicate (Z.to_nat k) 48 <> []) as Hne.
  { intros n Hn E. apply app_eq_nil in E as [E _]. by apply (canonical_nonempty _ (FormatUint_canonical n Hn)). }
  destruct (Z.lt_ge_cases z 0) as [Hz|Hz].
  - rewrite FormatInt_neg, <- app_assoc by lia. rewrite dec_int_minus_digits by (apply Hd || apply Hne; lia).
    rewrite dval_zero_padding, dval_FormatUint, Z2Nat.id by lia. f_equal. lia.
  - rewrite FormatInt_nonneg, dec_int_digits by (lia || apply Hd || apply Hne; lia).
    rewrite dval_zero_padding, dval_FormatUint, Z2Nat.id by lia. done.
Qed.

Lemma dec_int_power_of_ten k : 0 <= k -> dec_int (lit "1" ++ strings_Repeat (lit "0") k) = Some (10 ^ k).
Proof.
  intros Hk. change (lit "1") with (FormatInt 1). rewrite dec_int_zero_padding by done. f_equal. lia.
Qed.

Lemma dec_int_one : dec_int (lit "1") = Some 1.
Proof. reflexivity. Qed.

(** ** Floating-point literals *)

(** The bytes a decimal literal is made of. *)
Definition decimal_byte (c : Z) : Prop := digit_byte c \/ In c (lit "+-.eE").

Lemma decimal_byte_plain c : decimal_byte c -> plain c /\ c <> 47 /\ c <> 105.
Proof.
  intros [H|H]; unfold plain, solid.
  - unfold digit_byte in H. lia.
  - cbn in H. lia.
Qed.

Lemma sign_bytes sg s (P : Z -> Prop) : sign_spelling sg s -> P 43 -> P 45 -> Forall P sg.
Proof. intros []; repeat constructor; done. Qed.

Lemma digits_Forall ds (P : Z -> Prop) : Forall digit_byte ds -> (forall c, digit_byte c -> P c) -> Forall P ds.
Proof. intros H HP. eapply Forall_impl; [exact H|exact HP]. Qed.

Lemma exponent_bytes marks ex e (P : Z -> Prop) :
  exponent_spelling marks ex e -> (forall c, digit_byte c -> P c) -> P 43 -> P 45 ->
  (forall m, In m marks -> P m) -> Forall P ex.
Proof.
  intros [|m sg s ds Hm Hsg _ Hds _] Hd Hp Hmi HP; [constructor|]. constructor; [auto|].
  apply Forall_app. split; [by eapply sign_bytes|by apply digits_Forall].
Qed.

Lemma fraction_bytes fr b (P : Z -> Prop) : fraction_spelling fr b -> Forall P b -> P 46 -> Forall P fr.
Proof. intros [|b'] Hb Hp; [constructor|]. by constructor. Qed.

Lemma HasPrefix_second text c d : ~ In d text -> HasPrefix text [c; d] = false.
Proof.
  intros H. destruct text as [|x [|y t]]; [done|cbn; apply andb_false_r|]. cbn.
  rewrite (proj2 (Z.eqb_neq y d)), andb_false_r; [done|]. intros ->. apply H. cbn. tauto.
Qed.

Lemma ContainsAny_absent s cs : Forall (fun x => ~ In x cs) s -> ContainsAny s cs = false.
Proof. intros H. unfold ContainsAny. by rewrite IndexAny_absent. Qed.

Lemma ContainsAny_present s c t cs : In c cs -> ContainsAny (s ++ c :: t) cs = true.
Proof.
  intros Hc. unfold ContainsAny. induction s as [|x s IH]; cbn [app IndexAny].
  - rewrite (proj2 (existsb_exists _ _)); [done|]. exists c. split; [done|apply Z.eqb_refl].
  - destruct (existsb _ _); [done|]. by destruct (IndexAny (s ++ c :: t) cs).
Qed.

(** Splitting a literal at its exponent mark. *)
Lemma exponent_split marks ex e t :
  exponent_spelling marks ex e -> Forall (fun c => ~ In c marks) t ->
  match IndexAny (t ++ ex) marks with
  | Some pos => parsed ← parseLiteralExponent (drop (S pos) (t ++ ex)); Some (parsed, take pos (t ++ ex))
  | None => Some (0, t ++ ex)
  end = Some (e, t).
Proof.
  intros [|m sg s ds Hm Hsg Hne Hds Hv] Ht.
  - by rewrite app_nil_r, IndexAny_absent.
  - rewrite IndexAny_app by done. rewrite drop_S_app, take_app_length.
    rewrite (parseLiteralExponent_spec sg s) by done. by rewrite (proj2 (Z.leb_le _ _)).
Qed.

(** After the sign of a literal that starts with a digit or a point. *)
Lemma literal_sign_float sg s rest :
  sign_spelling sg s -> (exists c r, rest = c :: r /\ c <> 43 /\ c <> 45) ->
  exists sign, literal_sign (sg ++ rest) = (sign, rest) /\ out_sign sign s.
Proof.
  intros Hsg (c & r & -> & H1 & H2). destruct Hsg.
  - exists []. split; [|by left]. cbn [app literal_sign].
    by rewrite (proj2 (Z.eqb_neq c 43)), (proj2 (Z.eqb_neq c 45)).
  - exists []. split; [done|by left].
  - exists (lit "-"). split; [done|by right].
Qed.

Lemma mantissa_head a fr b (P : Z -> Prop) ex :
  Forall P a -> fraction_spelling fr b -> P 46 -> a ++ b <> [] ->
  exists c r, a ++ fr ++ ex = c :: r /\ P c.
Proof.
  intros Ha Hfr Hp Hne. destruct a as [|c a].
  - destruct Hfr as [|b]; [done|]. eexists _, _. split; [reflexivity|exact Hp].
  - inversion Ha; subst. eexists _, _. split; [reflexivity|done].
Qed.

Lemma parseDecimal_scaled z p :
  (if 0 <=? p then NewRational (FormatInt z ++ strings_Repeat (lit "0") p) (lit "1")
   else NewRational (FormatInt z) (lit "1" ++ strings_Repeat (lit "0") (- p)))
  = Some (rat_of_Q (inject_Z z * inject_Z 10 ^ p)).
Proof.
  destruct (0 <=? p) eqn:E; breflect; rewrite NewRational_spec.
  - rewrite dec_int_zero_padding, dec_int_one by done. change (1 =? 0) with false. cbn iota.
    by rewrite scaled_nonneg.
  - rewrite dec_int_FormatInt, dec_int_power_of_ten by lia.
    pose proof (Z.pow_pos_nonneg 10 (- p) ltac:(lia) ltac:(lia)).
    rewrite (proj2 (Z.eqb_neq _ _)) by lia. by rewrite scaled_neg by lia.
Qed.

(** The bytes of a decimal literal, and its head. *)
Lemma decimal_literal_bytes sg s a fr b ex e :
  sign_spelling sg s -> Forall digit_byte a -> fraction_spelling fr b -> Forall digit_byte b ->
  exponent_spelling (lit "eE") ex e -> Forall decimal_byte (sg ++ a ++ fr ++ ex).
Proof.
  intros Hsg Ha Hfr Hb Hex. assert (forall c, digit_byte c -> decimal_byte c) as Hd by (by left).
  rewrite !Forall_app. repeat split.
  - eapply sign_bytes; [exact Hsg|right; cbn; tauto..].
  - by apply digits_Forall.
  - eapply fraction_bytes; [exact Hfr|by apply digits_Forall|right; cbn; tauto].
  - eapply exponent_bytes; [exact Hex|exact Hd|right; cbn; tauto..|].
    intros m Hm. right. cbn in *. tauto.
Qed.

(** A decimal literal with a point or an exponent is dispatched to [parseDecimalRational]. *)
Lemma decimal_dispatch sg s a fr b ex e :
  sign_spelling sg s -> Forall digit_byte a -> fraction_spelling fr b -> Forall digit_byte b ->
  a ++ b <> [] -> exponent_spelling (lit "eE") ex e -> fr <> [] \/ ex <> [] ->
  ParseRationalLiteral (sg ++ a ++ fr ++ ex) = parseDecimalRational (sg ++ a ++ fr ++ ex).
Proof.
  intros Hsg Ha Hfr Hb Hne Hex Hmark.
  pose proof (decimal_literal_bytes _ _ _ _ _ _ _ Hsg Ha Hfr Hb Hex) as Hbytes.
  destruct (mantissa_head a fr b (fun _ => True) ex) as (c & r & Hhd & _);
    [by apply digits_Forall|done..|].
  rewrite ParseRational_plain;
    [|rewrite Hhd; by destruct sg|eapply Forall_impl; [exact Hbytes|exact decimal_byte_plain]].
  assert (forall x, ~ In x (lit "+-.eE") -> ~ (48 <= x <= 57) -> ~ In x (sg ++ a ++ fr ++ ex)) as Habs.
  { intros x H1 H2 Hin. rewrite List.Forall_forall in Hbytes. by apply Hbytes in Hin as [Hin|Hin]. }
  change (lit "0x") with [48; 120]. change (lit "0X") with [48; 88].
  rewrite !HasPrefix_second by (apply Habs; cbn; lia). cbn [orb].
  rewrite ContainsAny_absent.
  2: { apply List.Forall_forall. intros x Hx Hin. cbn in Hin. revert Hx. apply Habs; cbn; lia. }
  assert (ContainsAny (sg ++ a ++ fr ++ ex) (lit ".eE") = true) as ->; [|done].
  destruct Hfr as [|b']; [destruct Hmark as [?|Hx]; [done|]|].
  - destruct Hex as [|m sg' s' ds Hm]; [done|]. rewrite app_nil_l, app_assoc.
    apply ContainsAny_present. cbn in *. tauto.
  - rewrite app_assoc. apply ContainsAny_present. cbn. tauto.
Qed.

Lemma decimal_literal sg s a fr b ex e :
  sign_spelling sg s -> Forall digit_byte a -> fraction_spelling fr b -> Forall digit_byte b ->
  a ++ b <> [] -> exponent_spelling (lit "eE") ex e -> fr <> [] \/ ex <> [] ->
  ParseRationalLiteral (sg ++ a ++ fr ++ ex)
  = Some (rat_of_Q (inject_Z (s * dval (a ++ b)) * inject_Z 10 ^ (e - Z.of_nat (length b)))).
Proof.
  intros Hsg Ha Hfr Hb Hne Hex Hmark.
  rewrite (decimal_dispatch sg s a fr b ex e) by done. unfold parseDecimalRational.
  assert (forall c, digit_byte c -> ~ In c (lit "eE") /\ c <> 46) as Hd.
  { intros c Hc. unfold digit_byte in Hc. cbn. lia. }
  destruct (literal_sign_float sg s (a ++ fr ++ ex) Hsg) as (sign & -> & Hs).
  { destruct (mantissa_head a fr b (fun c => c <> 43 /\ c <> 45) ex) as (c & r & E & Hc);
      [apply digits_Forall; [done|unfold digit_byte; lia]|done|lia|done|]. eauto. }
  cbn iota. rewrite app_assoc, (exponent_split _ _ e) by
    (done || (apply Forall_app; split; [by apply digits_Forall; [|apply Hd]|
       eapply fraction_bytes; [exact Hfr|by apply digits_Forall; [|apply Hd]|cbn; lia]])).
  opt_simpl. rewrite (split_fraction_spec a fr b) by (done || by apply digits_Forall; [|apply Hd]).
  opt_simpl. rewrite decide_False by done.
  assert (Forall digit_byte (a ++ b)) as Hab by (by apply Forall_app).
  rewrite (proj2 (forallb_is_digit _)) by done. cbn [negb].
  rewrite (normalize_signed_digits sign s) by done. opt_simpl. apply parseDecimal_scaled.
Qed.

(** An exponent beyond the limit is rejected. *)
Lemma decimal_exponent_limit a m ds :
  Forall digit_byte a -> a <> [] -> In m (lit "eE") -> Forall digit_byte ds -> ds <> [] ->
  maxLiteralExponent < dval ds -> parseDecimalRational (a ++ m :: ds) = None.
Proof.
  intros Ha Hne Hm Hds Hd Hbig. unfold parseDecimalRational.
  destruct a as [|c a]; [done|]. cbn [app literal_sign]. destruct (digits_hd_not_sign c a Ha) as [-> ->].
  cbn [orb]. change (c :: a ++ m :: ds) with ((c :: a) ++ m :: ds).
  rewrite IndexAny_app by (done || (apply digits_Forall; [done|intros x Hx; unfold digit_byte in Hx; cbn; lia])).
  rewrite drop_S_app, <- (app_nil_l ds), (parseLiteralExponent_spec [] 1) by (done || constructor).
  by rewrite (proj2 (Z.leb_gt _ _)).
Qed.

Definition hex_byte (c : Z) : Prop := base_digit 16 c \/ In c (lit "+-.xXpP").

Lemma hex_byte_plain c : hex_byte c -> plain c /\ c <> 47 /\ c <> 105.
Proof.
  intros [[H _]|H]; unfold plain, solid.
  - apply integerDigit_cases in H. lia.
  - cbn in H. lia.
Qed.

Lemma hex_literal_bytes sg s hx a fr b ex e :
  sign_spelling sg s -> In hx [lit "0x"; lit "0X"] -> Forall (base_digit 16) a ->
  fraction_spelling fr b -> Forall (base_digit 16) b -> exponent_spelling (lit "pP") ex e ->
  Forall hex_byte (sg ++ hx ++ a ++ fr ++ ex).
Proof.
  intros Hsg Hhx Ha Hfr Hb Hex. assert (forall c, base_digit 16 c -> hex_byte c) as Hd by (by left).
  assert (forall l, Forall (base_digit 16) l -> Forall hex_byte l) as Hl.
  { intros l H. eapply Forall_impl; [exact H|exact Hd]. }
  rewrite !Forall_app. repeat split.
  - eapply sign_bytes; [exact Hsg|right; cbn; tauto..].
  - assert (hex_byte 48 /\ hex_byte 120 /\ hex_byte 88) as (H0 & Hx & HX).
    { split; [left; by vm_compute|split; right; cbn; tauto]. }
    destruct Hhx as [<-|[<-|[]]]; apply Forall_cons; (split; [done|by apply Forall_singleton]).
  - by apply Hl.
  - eapply fraction_bytes; [exact Hfr|by apply Hl|right; cbn; tauto].
  - eapply exponent_bytes; [exact Hex| |right; cbn; tauto..|].
    + intros c Hc. apply Hd. split; rewrite integerDigit_dec by done; unfold digit_byte in Hc; lia.
    + intros m Hm. right. cbn in *. tauto.
Qed.

Lemma parseHex_scaled z p :
  (if 0 <=? p
   then coefficient ← MultiplySignedDecimal (FormatInt z) (Pow2UnsignedDecimal p); NewRational coefficient (lit "1")
   else NewRational (FormatInt z) (Pow2UnsignedDecimal (- p)))
  = Some (rat_of_Q (inject_Z z * inject_Z 2 ^ p)).
Proof.
  destruct (0 <=? p) eqn:E; breflect.
  - rewrite Pow2_spec by done. rewrite <- FormatInt_nonneg by (apply Z.pow_nonneg; lia).
    rewrite MultiplySigned_Format. opt_simpl. rewrite NewRational_spec, dec_int_FormatInt, dec_int_one.
    change (1 =? 0) with false. cbn iota. by rewrite scaled_nonneg.
  - rewrite Pow2_spec by lia. pose proof (Z.pow_pos_nonneg 2 (- p) ltac:(lia) ltac:(lia)).
    rewrite NewRational_spec, dec_int_FormatInt, dec_int_FormatUint by lia.
    rewrite (proj2 (Z.eqb_neq _ _)) by lia. by rewrite scaled_neg by lia.
Qed.

Lemma hex_literal sg s hx a fr b ex e :
  sign_spelling sg s -> In hx [lit "0x"; lit "0X"] -> Forall (base_digit 16) a ->
  fraction_spelling fr b -> Forall (base_digit 16) b -> a ++ b <> [] ->
  exponent_spelling (lit "pP") ex e -> ex <> [] ->
  ParseRationalLiteral (sg ++ hx ++ a ++ fr ++ ex)
  = Some (rat_of_Q (inject_Z (s * base_val 16 (a ++ b)) * inject_Z 2 ^ (e - Z.of_nat (length b) * 4))).
Proof.
  intros Hsg Hhx Ha Hfr Hb Hne Hex Hexne.
  pose proof (hex_literal_bytes _ _ _ _ _ _ _ _ Hsg Hhx Ha Hfr Hb Hex) as Hbytes.
  assert (forall l, Forall (base_digit 16) l -> Forall (fun c => ~ In c (lit "pP") /\ c <> 46) l) as Hd.
  { intros l H. eapply Forall_impl; [exact H|]. intros c [Hc _]. apply integerDigit_cases in Hc. cbn. lia. }
  assert (exists x, hx = [48; x] /\ (x = 120 \/ x = 88)) as (x & -> & Hx).
  { destruct Hhx as [<-|[<-|[]]]; eexists; (split; [reflexivity|tauto]). }
  rewrite ParseRational_plain;
    [|by destruct sg|eapply Forall_impl; [exact Hbytes|exact hex_byte_plain]].
  assert (ContainsAny (sg ++ [48; x] ++ a ++ fr ++ ex) (lit "pP") = true) as ->.
  { destruct Hex as [|m sg' s' ds Hm]; [done|]. rewrite !app_assoc. by apply ContainsAny_present. }
  rewrite orb_true_r. unfold parseHexRational.
  destruct (literal_sign_float sg s ([48; x] ++ a ++ fr ++ ex) Hsg) as (sign & -> & Hs).
  { eexists _, _. split; [reflexivity|lia]. }
  cbn iota. assert (exists y t, a ++ fr ++ ex = y :: t) as (y & t & Ht).
  { destruct (mantissa_head a fr b (fun _ => True) ex) as (y & t & E & _);
      [eapply Forall_impl; [exact Ha|done]|done..|eauto]. }
  rewrite Ht. cbn [app]. rewrite <- Ht.
  assert ((48 =? 48) && ((x =? 120) || (x =? 88)) = true) as -> by (destruct Hx as [->| ->]; done).
  cbn [negb]. change (48 :: x :: a ++ fr ++ ex) with ([48; x] ++ a ++ fr ++ ex).
  assert ([48; x] ++ a ++ fr ++ ex = ([48; x] ++ a ++ fr) ++ ex) as -> by (by rewrite !app_assoc).
  destruct Hex as [|m sg' s' ds Hm Hsg' Hdne Hds Hv]; [done|].
  rewrite IndexAny_app; [|rewrite !Forall_app; repeat split|done].
  2: { repeat constructor; cbn; lia. }
  2: { eapply Forall_impl; [apply Hd, Ha|tauto]. }
  2: { eapply fraction_bytes; [exact Hfr| |cbn; lia]. eapply Forall_impl; [apply Hd, Hb|tauto]. }
  rewrite drop_S_app, take_app_length, (parseLiteralExponent_spec sg' s') by done.
  rewrite (proj2 (Z.leb_le _ _)) by done. opt_simpl. change (drop 2 ([48; x] ++ a ++ fr)) with (a ++ fr).
  rewrite (split_fraction_spec a fr b); [|eapply Forall_impl; [apply Hd; done|tauto]..|done].
  opt_simpl. rewrite decide_False by done. change (lit "0") with (FormatUint 0).
  change numericDigit with integerDigit. rewrite accumulate_digits_spec by lia.
  assert (Forall (base_digit 16) (a ++ b)) as Hab by (by apply Forall_app).
  rewrite decide_True by done. opt_simpl. fold (base_val 16 (a ++ b)).
  pose proof (base_val_nonneg 16 _ ltac:(lia) Hab).
  rewrite (normalize_signed_digits sign s) by auto with go. opt_simpl.
  rewrite dval_FormatUint by done. apply parseHex_scaled.
Qed.

(** ** Printing and parsing facts *)

Lemma ParseIntegerLiteral_Format z : ParseIntegerLiteral (FormatInt z) = Some (int_fact z).
Proof.
  apply ParseIntegerLiteral_spec.
  assert (forall n, 0 <= n -> spelled (FormatUint n) n) as Hsp.
  { intros n Hn. rewrite <- (dval_FormatUint n) at 2 by done. constructor. auto with go. }
  assert (forall n, 0 <= n -> Forall plain (FormatUint n)) as Hpl.
  { intros n Hn. apply digits_Forall; [auto with go|]. intros c Hc. unfold digit_byte, plain, solid in *. lia. }
  destruct (Z.lt_ge_cases z 0) as [Hz|Hz].
  - exists (lit "-"), (-1), (FormatUint (- z)), (- z). rewrite FormatInt_neg by done.
    split; [|split; [constructor|split; [apply Hsp; lia|]]].
    + apply clean_plain; [done|]. apply Forall_app. split; [|apply Hpl; lia].
      apply Forall_singleton. change (plain 45). unfold plain, solid. lia.
    + f_equal. lia.
  - exists [], 1, (FormatUint z), z. rewrite FormatInt_nonneg by lia.
    split; [|split; [constructor|split; [apply Hsp; lia|]]].
    + apply clean_plain; [by apply canonical_nonempty, FormatUint_canonical|apply Hpl; lia].
    + f_equal. lia.
Qed.

Lemma FormatInt_bytes z : Forall (fun c => digit_byte c \/ c = 45) (FormatInt z).
Proof.
  assert (forall n, 0 <= n -> Forall (fun c => digit_byte c \/ c = 45) (FormatUint n)) as Hd.
  { intros n Hn. apply digits_Forall; [auto with go|]. by left. }
  destruct (Z.lt_ge_cases z 0) as [Hz|Hz].
  - rewrite FormatInt_neg by done. constructor; [by right|]. apply Hd. lia.
  - rewrite FormatInt_nonneg by lia. apply Hd. lia.
Qed.

Lemma FormatInt_nonempty z : FormatInt z <> [].
Proof.
  destruct (Z.lt_ge_cases z 0) as [Hz|Hz].
  - by rewrite FormatInt_neg.
  - rewrite FormatInt_nonneg by lia. auto with go.
Qed.

Lemma rat_of_Q_Valid x : Rational_Valid (rat_of_Q x) = true.
Proof.
  unfold Rational_Valid, rat_of_Q. cbn [Denominator]. rewrite bool_decide_eq_false_2; [done|].
  auto with go.
Qed.

(** The text of an integer parses as the integer. *)
Lemma ParseRational_FormatInt z : ParseRationalLiteral (FormatInt z) = Some (rat_of_Q (inject_Z z)).
Proof.
  pose proof (FormatInt_bytes z) as Hb. pose proof (FormatInt_nonempty z) as Hne.
  assert (forall x, x <> 45 -> ~ (48 <= x <= 57) -> ~ In x (FormatInt z)) as Habs.
  { intros x H1 H2 Hin. rewrite List.Forall_forall in Hb. by destruct (Hb x Hin). }
  rewrite ParseRational_plain; [|done|].
  2: { eapply Forall_impl; [exact Hb|]. intros c [Hc| ->]; unfold digit_byte, plain, solid in *; lia. }
  change (lit "0x") with [48; 120]. change (lit "0X") with [48; 88].
  rewrite !HasPrefix_second by (apply Habs; lia). cbn [orb].
  rewrite !ContainsAny_absent by
    (apply List.Forall_forall; intros x Hx Hin; cbn in Hin; revert Hx; apply Habs; lia).
  cbn [negb]. rewrite ParseIntegerLiteral_Format. opt_simpl. change (lit "1") with (FormatInt 1).
  apply new_rational_Q; [done|]. unfold frac, Qeq, inject_Z. cbn [Qnum Qden Z.sgn]. lia.
Qed.

Lemma rat_of_Q_integer x :
  Denominator (rat_of_Q x) = lit "1" -> exists z, Numerator (rat_of_Q x) = FormatInt z /\ (x == inject_Z z)%Q.
Proof.
  destruct (rat_components x) as (n & d & -> & Hx & _). cbn [Numerator Denominator]. intros Hd.
  change (lit "1") with (FormatInt 1) in Hd. apply FormatInt_inj in Hd. injection Hd as ->.
  exists n. split; [done|]. rewrite <- Hx. done.
Qed.

Lemma ParseRational_fraction n d x :
  (n # d == x)%Q ->
  ParseRationalLiteral (FormatInt n ++ lit "/" ++ FormatInt (Zpos d)) = Some (rat_of_Q x).
Proof.
  intros Hx. change (lit "/" ++ FormatInt (Zpos d)) with (47 :: FormatInt (Zpos d)).
  assert (forall z, Forall (fun c => (plain c /\ c <> 105) /\ c <> 47) (FormatInt z)) as Hb.
  { intros z. eapply Forall_impl; [apply FormatInt_bytes|].
    intros c [Hc| ->]; unfold digit_byte, plain, solid in *; lia. }
  assert (Forall (fun c => plain c /\ c <> 105) (FormatInt n ++ 47 :: FormatInt (Zpos d))) as Hall.
  { apply Forall_app. split; [|constructor; [unfold plain, solid; lia|]];
      (eapply Forall_impl; [apply Hb|by intros ? [? _]]). }
  assert (forall z, Forall (fun c => c <> 47) (FormatInt z)) as Hs.
  { intros z. eapply Forall_impl; [apply Hb|by intros ? [_ ?]]. }
  assert (FormatInt n ++ 47 :: FormatInt (Zpos d) <> []) as Hne by (by intros E; apply app_eq_nil in E as []).
  unfold ParseRationalLiteral.
  rewrite clean_plain; [|done|eapply Forall_impl; [exact Hall|by intros ? [? _]]].
  cbn zeta. rewrite bool_decide_eq_false_2 by done. change (lit "i") with [105].
  rewrite HasSuffix_absent; [|done|eapply Forall_impl; [exact Hall|by intros ? [_ ?]]].
  cbn [orb]. rewrite IndexByte_app, drop_S_app, take_app_length by apply Hs.
  unfold ContainsByte. rewrite IndexByte_absent by apply Hs.
  apply new_rational_Q; [done|]. by rewrite frac_pos.
Qed.

Lemma ParseRational_String x : ParseRationalLiteral (Rational_String (rat_of_Q x)) = Some (rat_of_Q x).
Proof.
  unfold Rational_String. rewrite rat_of_Q_Valid. cbn [negb]. case_decide as Hd.
  - destruct (rat_of_Q_integer x Hd) as (z & -> & Hz). rewrite Hz. apply ParseRational_FormatInt.
  - destruct (rat_components x) as (n & d & E & Hx & _). rewrite E. cbn [Numerator Denominator].
    rewrite (ParseRational_fraction n d x Hx). by rewrite <- E.
Qed.

(** ** Properties *)

(** Integer literals: [ParseIntegerLiteral] accepts a text exactly when, without underscores
    and surrounding white space, it is an optional sign and a decimal number without a leading
    zero or a binary, octal (also with the single 0 prefix) or hexadecimal digit string after its
    prefix; the fact is the number it spells, whether the machine-word path or the
    arbitrary-precision loop computes it. *)
Theorem integer_literal_value text v :
  ParseIntegerLiteral text = Some v <->
  exists sg s body n, TrimSpace (remove_byte 95 text) = sg ++ body /\ sign_spelling sg s /\
                      spelled body n /\ v = int_fact (s * n).
Proof. apply ParseIntegerLiteral_spec. Qed.

(** Decimal literals: an optional sign, digits with an optional fraction part and an optional
    exponent of at most 100000 (one of the two present) denote exactly the digits scaled by the
    power of ten, and an exponent beyond the limit is rejected. *)
Theorem decimal_literal_value sg s a fr b ex e m ds :
  sign_spelling sg s -> Forall digit_byte a -> fraction_spelling fr b -> Forall digit_byte b ->
  a ++ b <> [] -> exponent_spelling (lit "eE") ex e -> fr <> [] \/ ex <> [] ->
  In m (lit "eE") -> Forall digit_byte ds -> ds <> [] -> maxLiteralExponent < dval ds ->
  ParseRationalLiteral (sg ++ a ++ fr ++ ex)
    = Some (rat_of_Q (inject_Z (s * dval (a ++ b)) * inject_Z 10 ^ (e - Z.of_nat (length b)))) /\
  (a <> [] -> parseDecimalRational (a ++ m :: ds) = None).
Proof.
  intros. split; [by apply decimal_literal|intros; by apply decimal_exponent_limit].
Qed.

Lemma decimal_literal_value_witness :
  ParseRationalLiteral (lit "-1.50e+3")
    = Some (rat_of_Q (inject_Z (-1 * dval (lit "150")) * inject_Z 10 ^ (1 * dval (lit "3") - 2))) /\
  (lit "1" <> [] -> parseDecimalRational (lit "1E100001") = None).
Proof.
  apply (decimal_literal_value (lit "-") (-1) (lit "1") (lit ".50") (lit "50") (lit "e+3") (1 * dval (lit "3"))
           69 (lit "100001")).
  - constructor.
  - by apply forallb_is_digit.
  - apply (fraction_point (lit "50")).
  - by apply forallb_is_digit.
  - discriminate.
  - apply (exponent_some _ 101 (lit "+") 1 (lit "3")); [by left|constructor|discriminate|by apply forallb_is_digit|by vm_compute].
  - left. discriminate.
  - right. by left.
  - by apply forallb_is_digit.
  - discriminate.
  - by vm_compute.
Defined.

(** Hexadecimal floating-point literals: an optional sign, the prefix, hexadecimal digits with
    an optional fraction part and a binary exponent of at most 100000 denote exactly the digits
    scaled by the power of two. *)
Theorem hex_float_literal_value sg s hx a fr b ex e :
  sign_spelling sg s -> In hx [lit "0x"; lit "0X"] -> Forall (base_digit 16) a ->
  fraction_spelling fr b -> Forall (base_digit 16) b -> a ++ b <> [] ->
  exponent_spelling (lit "pP") ex e -> ex <> [] ->
  ParseRationalLiteral (sg ++ hx ++ a ++ fr ++ ex)
  = Some (rat_of_Q (inject_Z (s * base_val 16 (a ++ b)) * inject_Z 2 ^ (e - Z.of_nat (length b) * 4))).
Proof. apply hex_literal. Qed.

Lemma hex_float_literal_value_witness :
  ParseRationalLiteral (lit "0x1.8p-3")
  = Some (rat_of_Q (inject_Z (1 * base_val 16 (lit "18")) * inject_Z 2 ^ (-1 * dval (lit "3") - 1 * 4))).
Proof.
  apply (hex_float_literal_value [] 1 (lit "0x") (lit "1") (lit ".8") (lit "8") (lit "p-3") (-1 * dval (lit "3"))).
  - constructor.
  - by left.
  - by repeat constructor.
  - apply (fraction_point (lit "8")).
  - by repeat constructor.
  - discriminate.
  - apply (exponent_some _ 112 (lit "-") (-1) (lit "3")); [by left|constructor|discriminate|by apply forallb_is_digit|by vm_compute].
  - discriminate.
Defined.

(** The text of a fact is faithful: printing a canonical fraction and parsing the text gives
    the fraction back, and so do printing and parsing an integer. *)
Theorem rational_print_parse x z :
  ParseRationalLiteral (Rational_String (rat_of_Q x)) = Some (rat_of_Q x) /\
  ParseIntegerLiteral (FormatInt z) = Some (int_fact z).
Proof. split; [apply ParseRational_String|apply ParseIntegerLiteral_Format]. Qed.
