(* ===== verification/ConstValue.v ===== *)
(** * Constant operators (src/compiler/constant/value.go, complex.go and representable.go)

    The unary and binary operators of exact constants, the complex constants, and the tests for
    the representability of a constant in a target type.  An operator takes and returns facts
    ([Value]); a fact built by a constructor carries its canonical text, from which [Rational]
    reads the fraction without parsing. *)

From Stdlib Require Import QArith.
From S2P Require Import Prelude GoStd Decimal DecimalLimbs DecimalArith DecimalBits Rational Literal.
Local Open Scope Z_scope.

(** ** Facts *)

(** [Rational]: a constructor-owned fact is sliced at its recorded numerator end. *)
Definition Value_Rational (value : Value) : option Rational :=
  if IsString value then None
  else if negb (bool_decide (canonicalNumber value = [])) && bool_decide (Text value = canonicalNumber value)
  then
    if negb (numeratorEnd value =? 0)%nat
    then Some (mkRational (take (numeratorEnd value) (Text value)) (drop (S (numeratorEnd value)) (Text value)))
    else Some (mkRational (Text value) (lit "1"))
  else ParseRationalLiteral (Text value).

Inductive Kind : Type := Invalid | Boolean | Number | StringValue | ComplexValue | NilValue.

#[export] Instance Kind_eq_dec : EqDecision Kind.
Proof. solve_decision. Defined.

Definition Value_Kind (value : Value) : Kind :=
  if IsString value then StringValue
  else if decide (Text value = lit "null") then NilValue
  else if decide (Imag value <> []) then ComplexValue
  else if bool_decide (Text value = lit "true") || bool_decide (Text value = lit "false") then Boolean
  else if decide (Text value <> []) then Number
  else Invalid.

(** A literal of the struct with only the fields of a scalar. *)
Definition scalar (text typ : gostring) (untyped : bool) : Value :=
  mkValue text typ untyped false [] [] [] O.

Definition String_ (text typ : gostring) (untyped : bool) : Value :=
  mkValue text typ untyped true [] [] [] O.

Definition Scalar (text : gostring) : Value := scalar text [] false.

Definition Integer (text typ : gostring) (untyped : bool) : option Value :=
  (fun text => numericFact (mkRational text (lit "1")) (TrimSpace typ) untyped) <$> NormalizeSignedDecimal text.

Definition Numeric (text typ : gostring) (untyped : bool) : option Value :=
  (fun value => numericFact value (TrimSpace typ) untyped) <$> ParseRationalLiteral text.

Definition Value_Int64 (value : Value) : option Z :=
  if IsString value then None
  else
    rational ← Value_Rational value;
    let '(integer, ok) := Rational_Integer rational in
    if ok : bool then SignedDecimalInt64 integer else None.

Definition FormatBool (b : bool) : gostring := if b then lit "true" else lit "false".

(** Assignments to a field of a value. *)
Definition set_text (v : Value) (text : gostring) : Value :=
  mkValue text (Type_ v) (Untyped v) (IsString v) (Real v) (Imag v) (canonicalNumber v) (numeratorEnd v).
Definition set_type (v : Value) (typ : gostring) : Value :=
  mkValue (Text v) typ (Untyped v) (IsString v) (Real v) (Imag v) (canonicalNumber v) (numeratorEnd v).
Definition set_untyped (v : Value) (untyped : bool) : Value :=
  mkValue (Text v) (Type_ v) untyped (IsString v) (Real v) (Imag v) (canonicalNumber v) (numeratorEnd v).
Definition set_parts (v : Value) (realPart imaginaryPart : gostring) : Value :=
  mkValue (Text v) (Type_ v) (Untyped v) (IsString v) realPart imaginaryPart (canonicalNumber v) (numeratorEnd v).

Definition integer_types : list gostring :=
  map lit ["Int"; "Int8"; "Int16"; "Int32"; "Int64"; "Uint"; "Uint8"; "Uint16"; "Uint32"; "Uint64";
           "Uintptr"; "Byte"; "Rune"]%string.

Definition integerType (typ : gostring) : bool := bool_decide (TrimSpace typ ∈ integer_types).

Definition shiftCount (text : gostring) : option Z :=
  text ← NormalizeSignedDecimal text;
  if HasPrefix text (lit "-") then None
  else
    value ← ParseUint text 10;
    if 4096 <? value then None else Some value.

(** ** Unary operators *)

(** The zero [Rational] that a failed operation leaves in an ignored result. *)
Definition zeroRational : Rational := mkRational [] [].

Definition is_op (operator : gostring) (s : string) : bool := bool_decide (operator = lit s).

Definition Unary (operator : gostring) (value : Value) : option Value :=
  if IsString value then None
  else if decide (Imag value <> []) then
    if is_op operator "+" then Some value
    else if negb (is_op operator "-") then None
    else
      realPart ← ParseRationalLiteral (Real value);
      imaginaryPart ← ParseRationalLiteral (Imag value);
      let realPart := default zeroRational (NegateRational realPart) in
      let imaginaryPart := default zeroRational (NegateRational imaginaryPart) in
      Some (set_parts value (Rational_String realPart) (Rational_String imaginaryPart))
  else if is_op operator "!" && (bool_decide (Text value = lit "true") || bool_decide (Text value = lit "false"))
  then Some (set_text value (FormatBool (bool_decide (Text value = lit "false"))))
  else
    match (if is_op operator "+" || is_op operator "-" then Value_Rational value else None) with
    | Some rational =>
        rational ← (if is_op operator "-" then NegateRational rational else Some rational);
        Some (numericFact rational (Type_ value) (Untyped value))
    | None =>
        out ← (if is_op operator "+" then NormalizeSignedDecimal (Text value)
               else if is_op operator "-" then NegateSignedDecimal (Text value)
               else if is_op operator "^" then
                 negated ← NegateSignedDecimal (Text value);
                 SubtractSignedDecimal negated (lit "1")
               else None);
        Some (numericFact (mkRational out (lit "1")) (Type_ value) (Untyped value))
    end.

(** ** Complex constants *)

Definition complex_value (realPart imaginaryPart : gostring) (typ : gostring) (untyped : bool) : Value :=
  mkValue [] typ untyped false realPart imaginaryPart [] O.

Definition Complex (realPart imaginaryPart : Value) (typ : gostring) (untyped : bool) : option Value :=
  r ← Value_Rational realPart;
  i ← Value_Rational imaginaryPart;
  Some (complex_value (Rational_String r) (Rational_String i) typ untyped).

(** A result whose success flag the source ignores. *)
Definition ignore (r : option Rational) : Rational := default zeroRational r.

Definition complexBinary (operator : gostring) (left right : Value) : option Value :=
  let leftComplex := negb (bool_decide (Imag left = [])) in
  let left := if decide (Imag left = []) then set_parts left (Text left) (lit "0") else left in
  let right := if decide (Imag right = []) then set_parts right (Text right) (lit "0") else right in
  a ← ParseRationalLiteral (Real left);
  b ← ParseRationalLiteral (Imag left);
  c ← ParseRationalLiteral (Real right);
  d ← ParseRationalLiteral (Imag right);
  parts ←
    (if is_op operator "+" then Some (ignore (AddRational a c), ignore (AddRational b d))
     else if is_op operator "-" then Some (ignore (SubtractRational a c), ignore (SubtractRational b d))
     else if is_op operator "*" || is_op operator "/" then
       let ac := ignore (MultiplyRational a c) in
       let bd := ignore (MultiplyRational b d) in
       let ad := ignore (MultiplyRational a d) in
       let bc := ignore (MultiplyRational b c) in
       if is_op operator "*" then Some (ignore (SubtractRational ac bd), ignore (AddRational ad bc))
       else
         let cc := ignore (MultiplyRational c c) in
         let dd := ignore (MultiplyRational d d) in
         let denominator := ignore (AddRational cc dd) in
         let nr := ignore (AddRational ac bd) in
         let ni := ignore (SubtractRational bc ad) in
         realPart ← DivideRational nr denominator;
         imaginaryPart ← DivideRational ni denominator;
         Some (realPart, imaginaryPart)
     else None);
  let typ := if negb leftComplex || (Untyped left && negb (Untyped right)) then Type_ right else Type_ left in
  Some (complex_value (Rational_String (fst parts)) (Rational_String (snd parts)) typ (Untyped left && Untyped right)).

(** ** Binary operators *)

Definition bool_fact (value : bool) : Value := scalar (FormatBool value) (lit "Bool") true.

(** The branch for two booleans. *)
Definition binary_boolean (operator : gostring) (left right : Value) : option Value :=
  let leftTrue := bool_decide (Text left = lit "true") in
  let rightTrue := bool_decide (Text right = lit "true") in
  value ←
    (if is_op operator "&&" then Some (leftTrue && rightTrue)
     else if is_op operator "||" then Some (leftTrue || rightTrue)
     else if is_op operator "==" then Some (bool_decide (Text left = Text right))
     else if is_op operator "!=" then Some (negb (bool_decide (Text left = Text right)))
     else None);
  if is_op operator "==" || is_op operator "!=" then Some (bool_fact value)
  else
    let left := if Untyped left && negb (Untyped right) then set_type left (Type_ right) else left in
    let left := set_text left (FormatBool value) in
    Some (set_untyped left (Untyped left && Untyped right)).

Definition is_comparison (operator : gostring) : bool :=
  is_op operator "==" || is_op operator "!=" || is_op operator "<" ||
  is_op operator "<=" || is_op operator ">" || is_op operator ">=".

Definition comparison_result (operator : gostring) (comparison : Z) : bool :=
  if is_op operator "==" then comparison =? 0
  else if is_op operator "!=" then negb (comparison =? 0)
  else if is_op operator "<" then comparison <? 0
  else if is_op operator "<=" then comparison <=? 0
  else if is_op operator ">" then 0 <? comparison
  else if is_op operator ">=" then 0 <=? comparison
  else false.

(** The branch for the comparison operators. *)
Definition binary_comparison (operator : gostring) (left right : Value) : option Value :=
  comparison ←
    (if bool_decide (Value_Kind left = ComplexValue) || bool_decide (Value_Kind right = ComplexValue) then
       if negb (is_op operator "==") && negb (is_op operator "!=") then None
       else
         difference ← complexBinary (lit "-") left right;
         r ← ParseRationalLiteral (Real difference);
         i ← ParseRationalLiteral (Imag difference);
         Some (if negb (bool_decide (Numerator r = lit "0")) || negb (bool_decide (Numerator i = lit "0")) then 1 else 0)
     else if bool_decide (Value_Kind left = StringValue) && bool_decide (Value_Kind right = StringValue) then
       Some (strings_Compare (Text left) (Text right))
     else
       l ← Value_Rational left;
       r ← Value_Rational right;
       Some (CompareRational l r));
  Some (bool_fact (comparison_result operator comparison)).

(** The branch for arithmetic where an operand has no integer type. *)
Definition binary_rational (operator : gostring) (left right : Value) : option Value :=
  leftValue ← Value_Rational left;
  rightValue ← Value_Rational right;
  result ←
    (if is_op operator "+" then AddRational leftValue rightValue
     else if is_op operator "-" then SubtractRational leftValue rightValue
     else if is_op operator "*" then MultiplyRational leftValue rightValue
     else DivideRational leftValue rightValue);
  let left := if integerType (Type_ left) && negb (integerType (Type_ right)) then set_type left (Type_ right) else left in
  Some (numericFact result (Type_ left) (Untyped left && Untyped right)).

(** The integer operation on the texts of the operands. *)
Definition binary_integer_text (operator left right : gostring) : option gostring :=
  if is_op operator "+" then AddSignedDecimal left right
  else if is_op operator "-" then SubtractSignedDecimal left right
  else if is_op operator "*" then MultiplySignedDecimal left right
  else if is_op operator "/" then fst <$> DivideSignedDecimal left right
  else if is_op operator "%" then snd <$> DivideSignedDecimal left right
  else if is_op operator "&" || is_op operator "|" || is_op operator "^" || is_op operator "&^" then
    BitwiseSignedDecimal operator left right
  else if is_op operator "<<" || is_op operator ">>" then
    shift ← shiftCount right;
    let factor := Pow2UnsignedDecimal shift in
    if is_op operator "<<" then MultiplySignedDecimal left factor
    else
      '(out, remainder) ← DivideSignedDecimal left factor;
      if HasPrefix left (lit "-") && negb (bool_decide (remainder = lit "0"))
      then SubtractSignedDecimal out (lit "1") else Some out
  else None.

Definition binary_integer (operator : gostring) (left right : Value) : option Value :=
  out ← binary_integer_text operator (Text left) (Text right);
  let left := numericFact (mkRational out (lit "1")) (Type_ left) (Untyped left) in
  if is_op operator "<<" || is_op operator ">>" then Some left
  else
    let left := if Untyped left && negb (Untyped right) then set_type left (Type_ right) else left in
    Some (set_untyped left (Untyped left && Untyped right)).

Definition Binary (operator : gostring) (left right : Value) : option Value :=
  if bool_decide (Value_Kind left = Boolean) && bool_decide (Value_Kind right = Boolean) then
    binary_boolean operator left right
  else if is_comparison operator then binary_comparison operator left right
  else if negb (bool_decide (Imag left = [])) || negb (bool_decide (Imag right = [])) then
    complexBinary operator left right
  else if is_op operator "+" && IsString left && IsString right then
    let left := if Untyped left && negb (Untyped right) then set_type left (Type_ right) else left in
    Some (String_ (Text left ++ Text right) (Type_ left) (Untyped left && Untyped right))
  else if (is_op operator "+" || is_op operator "-" || is_op operator "*" || is_op operator "/") &&
          (negb (integerType (Type_ left)) || negb (integerType (Type_ right))) then
    binary_rational operator left right
  else binary_integer operator left right.

(** ** Representability *)

Definition SignedIntegerBounds (bits : Z) : gostring * gostring :=
  if bits =? 8 then (lit "-128", lit "127")
  else if bits =? 16 then (lit "-32768", lit "32767")
  else if bits =? 32 then (lit "-2147483648", lit "2147483647")
  else if bits =? 64 then (lit "-9223372036854775808", lit "9223372036854775807")
  else if bits <=? 0 then (lit "0", lit "0")
  else
    let maxBase := Pow2UnsignedDecimal (bits - 1) in
    let upper := default [] (SubtractUnsignedDecimal maxBase (lit "1")) in
    (lit "-" ++ maxBase, upper).

Definition UnsignedIntegerMax (bits : Z) : gostring :=
  if bits =? 8 then lit "255"
  else if bits =? 16 then lit "65535"
  else if bits =? 32 then lit "4294967295"
  else if bits =? 64 then lit "18446744073709551615"
  else if bits <=? 0 then lit "0"
  else default [] (SubtractUnsignedDecimal (Pow2UnsignedDecimal bits) (lit "1")).

Definition IntegerRepresentable (value : Rational) (bits : Z) (signed : bool) : bool :=
  let '(integer, ok) := Rational_Integer value in
  if negb ok || (bits <? 1) then false
  else if signed then
    let '(lower, upper) := SignedIntegerBounds bits in
    (0 <=? CompareSignedDecimal integer lower) && (CompareSignedDecimal integer upper <=? 0)
  else
    let upper := UnsignedIntegerMax bits in
    negb (HasPrefix integer (lit "-")) && (CompareUnsignedDecimal integer upper <=? 0).

Definition float_cutoff (bits : Z) : gostring :=
  if bits =? 32 then lit "340282356779733661637539395458142568448"
  else lit "179769313486231580793728971405303415079934132710037826936173778980444968292764750946649017977587207096330286416692887910946555547851940402630657488671505820681908902000708383676273854845817711531764475730270069855571366959622842914819860834936475292719074168444365510704342711559699508093042880177904174497792".

Definition FloatRepresentable (value : Rational) (bits : Z) : bool :=
  if negb (Rational_Valid value) || (negb (bits =? 32) && negb (bits =? 64)) then false
  else
    let cutoff := float_cutoff bits in
    let value := mkRational (TrimPrefix (Numerator value) (lit "-")) (Denominator value) in
    if (length (Numerator value) <? length cutoff)%nat then true
    else CompareRational value (mkRational cutoff (lit "1")) <? 0.

(** ** Lemmas: facts and their cached fraction *)

(** The fact of a rational number, and of an integer. *)
Definition fact (x : Q) (typ : gostring) (untyped : bool) : Value := numericFact (rat_of_Q x) typ untyped.
Definition ifact (z : Z) (typ : gostring) (untyped : bool) : Value :=
  numericFact (mkRational (FormatInt z) (lit "1")) typ untyped.

Lemma rat_of_Z z : rat_of_Q (inject_Z z) = mkRational (FormatInt z) (lit "1").
Proof.
  unfold rat_of_Q. destruct (Qred_components z 1) as [H1 H2]. fold (inject_Z z) in *.
  rewrite H1, H2, Z.gcd_1_r, !Z.div_1_r. done.
Qed.

Lemma ifact_fact z typ untyped : ifact z typ untyped = fact (inject_Z z) typ untyped.
Proof. unfold fact. by rewrite rat_of_Z. Qed.

(** What the cache of a value may hold: nothing, or the text of a canonical fraction with the
    length of its numerator. *)
Definition cache_ok (v : Value) : Prop :=
  canonicalNumber v = [] \/
  exists x, canonicalNumber v = Rational_String (rat_of_Q x) /\
            numeratorEnd v = (if decide (Denominator (rat_of_Q x) = lit "1") then O
                              else length (Numerator (rat_of_Q x))).

Lemma numericFact_cache_ok x typ untyped : cache_ok (numericFact (rat_of_Q x) typ untyped).
Proof. right. by exists x. Qed.

Lemma ifact_cache_ok z typ untyped : cache_ok (ifact z typ untyped).
Proof. rewrite ifact_fact. apply numericFact_cache_ok. Qed.

Lemma empty_cache_ok v : canonicalNumber v = [] -> cache_ok v.
Proof. by left. Qed.

#[export] Hint Resolve numericFact_cache_ok ifact_cache_ok empty_cache_ok : go.

Lemma Value_Rational_cached v :
  cache_ok v -> Value_Rational v = if IsString v then None else ParseRationalLiteral (Text v).
Proof.
  intros Hc. unfold Value_Rational. destruct (IsString v); [done|].
  destruct Hc as [->|(x & Hn & He)]; [by rewrite bool_decide_eq_true_2|].
  rewrite Hn, He. case_bool_decide as Hne; [done|]. case_bool_decide as Ht; [|done].
  cbn [negb andb]. rewrite Ht, ParseRational_String. unfold Rational_String.
  rewrite rat_of_Q_Valid. cbn [negb]. destruct (rat_of_Q x) as [n d] eqn:E. cbn [Numerator Denominator].
  destruct (decide (d = lit "1")) as [->|Hd]; [done|].
  assert (n <> []) as Hnn.
  { destruct (rat_components x) as (n' & d' & E' & _). rewrite E in E'. injection E' as -> _.
    apply FormatInt_nonempty. }
  destruct n as [|c n]; [done|]. cbn [length Nat.eqb negb].
  change (S (length n)) with (length (c :: n)). rewrite take_app_length. f_equal.
  f_equal. apply drop_S_app.
Qed.

Lemma Value_Rational_fact x typ untyped : Value_Rational (fact x typ untyped) = Some (rat_of_Q x).
Proof.
  rewrite Value_Rational_cached by apply numericFact_cache_ok. cbn [fact numericFact IsString Text].
  apply ParseRational_String.
Qed.

(** ** Lemmas: parsers return canonical fractions *)

Lemma NewRational_canonical n d r : NewRational n d = Some r -> exists x, r = rat_of_Q x.
Proof.
  rewrite NewRational_spec. destruct (dec_int n), (dec_int d) as [q|]; try done.
  destruct (q =? 0); [done|]. intros H. injection H as <-. eauto.
Qed.

Ltac opt_inv H :=
  repeat match type of H with
  | mbind _ ?m = Some _ => let E := fresh "E" in destruct m eqn:E; opt_simpl in H; [|discriminate H]
  | (let '(_, _) := ?p in _) = Some _ => destruct p
  | (if ?b then _ else _) = Some _ => let E := fresh "E" in destruct b eqn:E; try discriminate H
  | match ?m with _ => _ end = Some _ => let E := fresh "E" in destruct m eqn:E; try discriminate H
  end.

Lemma parseDecimal_canonical text r : parseDecimalRational text = Some r -> exists x, r = rat_of_Q x.
Proof.
  unfold parseDecimalRational. intros H. opt_inv H; by eapply NewRational_canonical.
Qed.

Lemma parseHex_canonical text r : parseHexRational text = Some r -> exists x, r = rat_of_Q x.
Proof. unfold parseHexRational. intros H. opt_inv H; by eapply NewRational_canonical. Qed.

Lemma ParseRational_canonical text r : ParseRationalLiteral text = Some r -> exists x, r = rat_of_Q x.
Proof.
  unfold ParseRationalLiteral. cbn zeta. intros H.
  opt_inv H; eauto using NewRational_canonical, parseDecimal_canonical, parseHex_canonical.
Qed.

Lemma Value_Rational_canonical v r : cache_ok v -> Value_Rational v = Some r -> exists x, r = rat_of_Q x.
Proof.
  intros Hc. rewrite Value_Rational_cached by done. destruct (IsString v); [done|].
  apply ParseRational_canonical.
Qed.

(** ** Lemmas: operators keep the cache coherent *)

Lemma cache_ok_same v w :
  canonicalNumber v = canonicalNumber w -> numeratorEnd v = numeratorEnd w -> cache_ok v -> cache_ok w.
Proof. unfold cache_ok. by intros -> ->. Qed.

(** The decimal operations return canonical texts. *)
Definition canonical_text (text : gostring) : Prop := exists z, text = FormatInt z.

Lemma Normalize_text text out : NormalizeSignedDecimal text = Some out -> canonical_text out.
Proof.
  rewrite NormalizeSignedDecimal_spec. destruct (dec_int text); [|done]. intros H. injection H as <-. by eexists.
Qed.

Lemma Negate_text text out : NegateSignedDecimal text = Some out -> canonical_text out.
Proof.
  rewrite NegateSigned_spec. destruct (dec_int text); [|done]. intros H. injection H as <-. by eexists.
Qed.

Lemma dec_op_text f l r out : dec_op f l r = Some out -> canonical_text out.
Proof. unfold dec_op. intros H. opt_inv H. injection H as <-. by eexists. Qed.

Lemma Add_text l r out : AddSignedDecimal l r = Some out -> canonical_text out.
Proof. rewrite AddSigned_spec. apply dec_op_text. Qed.
Lemma Subtract_text l r out : SubtractSignedDecimal l r = Some out -> canonical_text out.
Proof. rewrite SubtractSigned_spec. apply dec_op_text. Qed.
Lemma Multiply_text l r out : MultiplySignedDecimal l r = Some out -> canonical_text out.
Proof. rewrite MultiplySigned_spec. apply dec_op_text. Qed.
Lemma Divide_text l r out : DivideSignedDecimal l r = Some out -> canonical_text (fst out) /\ canonical_text (snd out).
Proof. rewrite DivideSigned_spec. intros H. opt_inv H. injection H as <-. split; by eexists. Qed.
Lemma Bitwise_text op l r out : BitwiseSignedDecimal op l r = Some out -> canonical_text out.
Proof.
  rewrite BitwiseSigned_spec. destruct (bit_meaning op); [apply dec_op_text|done].
Qed.

#[export] Hint Resolve Normalize_text Negate_text Add_text Subtract_text Multiply_text Bitwise_text : go.

Lemma text_cache_ok out typ untyped :
  canonical_text out -> cache_ok (numericFact (mkRational out (lit "1")) typ untyped).
Proof. intros [z ->]. apply ifact_cache_ok. Qed.

#[export] Hint Resolve text_cache_ok : go.

Lemma Unary_cache_ok operator v w : cache_ok v -> Unary operator v = Some w -> cache_ok w.
Proof.
  intros Hc. unfold Unary. destruct (IsString v); [done|]. case_decide as Hi.
  { intros H. opt_inv H; injection H as <-; [done|by eapply cache_ok_same]. }
  destruct (_ && _); [intros H; injection H as <-; by eapply cache_ok_same|].
  destruct (if is_op operator "+" || is_op operator "-" then _ else _) as [r|] eqn:E.
  - assert (exists x, r = rat_of_Q x) as [x ->].
    { destruct (is_op operator "+" || is_op operator "-"); [|done]. by eapply Value_Rational_canonical. }
    rewrite NegateRational_spec. destruct (is_op operator "-"); intros H; injection H as <-; auto with go.
  - intros H. opt_inv H. injection H as <-. opt_inv E0; eauto with go.
Qed.

Lemma binary_integer_text_canonical operator l r out :
  binary_integer_text operator l r = Some out -> canonical_text out.
Proof.
  unfold binary_integer_text.
  destruct (is_op operator "+"); [apply Add_text|].
  destruct (is_op operator "-"); [apply Subtract_text|].
  destruct (is_op operator "*"); [apply Multiply_text|].
  destruct (DivideSignedDecimal l r) as [qr|] eqn:Ed; [apply Divide_text in Ed as [Hq Hr]|]; opt_simpl.
  all: destruct (is_op operator "/"); [intros H; try done; by injection H as <-|].
  all: destruct (is_op operator "%"); [intros H; try done; by injection H as <-|].
  all: destruct (_ || is_op operator "&^"); [apply Bitwise_text|].
  all: destruct (is_op operator "<<" || is_op operator ">>"); [|done].
  all: destruct (shiftCount r) as [shift|]; [|done]; opt_simpl; cbn zeta.
  all: destruct (is_op operator "<<"); [apply Multiply_text|].
  all: destruct (DivideSignedDecimal l (Pow2UnsignedDecimal shift)) as [[q m]|] eqn:Es; [apply Divide_text in Es as [Hq2 _]|done].
  all: opt_simpl; destruct (_ && _); [apply Subtract_text|intros H; by injection H as <-].
Qed.

Lemma Binary_cache_ok operator l r w :
  cache_ok l -> cache_ok r -> Binary operator l r = Some w -> cache_ok w.
Proof.
  intros Hl Hr. unfold Binary.
  destruct (_ && _).
  { unfold binary_boolean. intros H. opt_inv H; injection H as <-; [by left|].
    eapply cache_ok_same; [..|exact Hl]; by destruct (Untyped l && negb (Untyped r)). }
  destruct (is_comparison operator).
  { unfold binary_comparison. intros H. opt_inv H; injection H as <-; by left. }
  destruct (_ || _).
  { unfold complexBinary. cbn zeta. intros H. opt_inv H; injection H as <-; by left. }
  destruct (_ && IsString r); [intros H; injection H as <-; by left|].
  destruct (_ && _).
  - unfold binary_rational.
    destruct (Value_Rational l) as [x|] eqn:El; [|done]. destruct (Value_Rational r) as [y|] eqn:Er; [|done].
    apply Value_Rational_canonical in El as [x' ->]; [|done].
    apply Value_Rational_canonical in Er as [y' ->]; [|done]. opt_simpl.
    rewrite AddRational_spec, SubtractRational_spec, MultiplyRational_spec, DivideRational_spec.
    destruct (is_op operator "+"), (is_op operator "-"), (is_op operator "*"), (bool_decide (y' == 0)%Q);
      opt_simpl; intros H; try done; injection H as <-; auto with go.
  - unfold binary_integer. destruct (binary_integer_text _ _ _) as [out|] eqn:E; [|done].
    apply binary_integer_text_canonical in E. opt_simpl. cbn zeta.
    intros H. destruct (is_op operator "<<" || is_op operator ">>"); injection H as <-; [auto with go|].
    eapply cache_ok_same; [..|exact (text_cache_ok out (Type_ l) (Untyped l) E)]; by destruct (_ && negb _).
Qed.

(** ** Lemmas: integer operators *)

(** What an operator means on integers; [None] when the operation has no value. *)
Definition integer_meaning (operator : gostring) (a b : Z) : option Z :=
  if is_op operator "+" then Some (a + b)
  else if is_op operator "-" then Some (a - b)
  else if is_op operator "*" then Some (a * b)
  else if is_op operator "/" then if b =? 0 then None else Some (Z.quot a b)
  else if is_op operator "%" then if b =? 0 then None else Some (Z.rem a b)
  else if is_op operator "&" then Some (Z.land a b)
  else if is_op operator "|" then Some (Z.lor a b)
  else if is_op operator "^" then Some (Z.lxor a b)
  else if is_op operator "&^" then Some (Z.ldiff a b)
  else if is_op operator "<<" then if (0 <=? b) && (b <=? 4096) then Some (Z.shiftl a b) else None
  else if is_op operator ">>" then if (0 <=? b) && (b <=? 4096) then Some (Z.shiftr a b) else None
  else None.

Lemma shiftCount_Format b :
  shiftCount (FormatInt b) = if (0 <=? b) && (b <=? 4096) then Some b else None.
Proof.
  unfold shiftCount. rewrite Normalize_FormatInt. opt_simpl. rewrite HasPrefix_FormatInt.
  destruct (b <? 0) eqn:E; breflect.
  - by rewrite (proj2 (Z.leb_gt 0 b)) by lia.
  - rewrite FormatInt_nonneg, ParseUint_FormatUint, (proj2 (Z.leb_le 0 b)) by lia. cbn [andb].
    assert (4096 <= maxUint64) by done.
    destruct (maxUint64 <? b) eqn:E64; breflect; opt_simpl.
    + by rewrite (proj2 (Z.leb_gt _ _)) by lia.
    + destruct (4096 <? b) eqn:E1, (b <=? 4096) eqn:E2; breflect; try done; lia.
Qed.

(** Truncated division corrected for a negative remainder is the arithmetic shift. *)
Lemma floor_of_quot a b :
  0 < b -> (if (a <? 0) && negb (Z.rem a b =? 0) then Z.quot a b - 1 else Z.quot a b) = a / b.
Proof.
  intros Hb. pose proof (Z.quot_rem' a b) as Hq.
  destruct (a <? 0) eqn:Ea; breflect; cbn [andb].
  - pose proof (Z.rem_bound_pos_neg a b ltac:(lia) ltac:(lia)) as Hr.
    destruct (Z.rem a b =? 0) eqn:E; breflect; cbn [negb].
    + symmetry. apply div_bounds; lia.
    + symmetry. apply div_bounds; lia.
  - apply Z.quot_div_nonneg; lia.
Qed.

Lemma shift_right_text a b :
  0 <= b ->
  ('(out, remainder) ← DivideSignedDecimal (FormatInt a) (Pow2UnsignedDecimal b);
   if HasPrefix (FormatInt a) (lit "-") && negb (bool_decide (remainder = lit "0"))
   then SubtractSignedDecimal out (lit "1") else Some out) = Some (FormatInt (Z.shiftr a b)).
Proof.
  intros Hb. pose proof (Z.pow_pos_nonneg 2 b ltac:(lia) Hb).
  rewrite Pow2_spec, <- FormatInt_nonneg, DivideSigned_Format, (proj2 (Z.eqb_neq _ 0)) by lia. opt_simpl.
  rewrite HasPrefix_FormatInt, Z.shiftr_div_pow2, <- floor_of_quot by lia.
  rewrite (bool_decide_ext (FormatInt (Z.rem a (2 ^ b)) = lit "0") (Z.rem a (2 ^ b) = 0)) by apply FormatInt_zero_iff.
  assert (bool_decide (Z.rem a (2 ^ b) = 0) = (Z.rem a (2 ^ b) =? 0)) as ->.
  { destruct (Z.eqb_spec (Z.rem a (2 ^ b)) 0); [by apply bool_decide_eq_true_2|by apply bool_decide_eq_false_2]. }
  destruct ((a <? 0) && _); [|done]. change (lit "1") with (FormatInt 1).
  by rewrite SubtractSigned_spec; unfold dec_op; rewrite !dec_int_FormatInt.
Qed.

Lemma is_op_true operator s : is_op operator s = true -> operator = lit s.
Proof. apply bool_decide_eq_true_1. Qed.

Lemma binary_integer_text_Format operator a b :
  binary_integer_text operator (FormatInt a) (FormatInt b) = FormatInt <$> integer_meaning operator a b.
Proof.
  unfold binary_integer_text, integer_meaning.
  rewrite AddSigned_Format, SubtractSigned_spec, MultiplySigned_Format, DivideSigned_Format,
    BitwiseSigned_Format, shiftCount_Format.
  unfold dec_op. rewrite !dec_int_FormatInt.
  destruct (is_op operator "+"); [done|]. destruct (is_op operator "-"); [done|].
  destruct (is_op operator "*"); [done|]. destruct (is_op operator "/"); [by destruct (b =? 0)|].
  destruct (is_op operator "%"); [by destruct (b =? 0)|].
  destruct (is_op operator "&") eqn:E1; [apply is_op_true in E1 as ->; done|].
  destruct (is_op operator "|") eqn:E2; [apply is_op_true in E2 as ->; done|].
  destruct (is_op operator "^") eqn:E3; [apply is_op_true in E3 as ->; done|].
  destruct (is_op operator "&^") eqn:E4; [apply is_op_true in E4 as ->; done|]. cbn [orb].
  destruct (is_op operator "<<") eqn:E5; cbn [orb].
  - destruct ((0 <=? b) && (b <=? 4096)) eqn:Eb; [|done]. breflect. opt_simpl. cbn zeta.
    rewrite Pow2_spec, Z.shiftl_mul_pow2 by done.
    by rewrite <- FormatInt_nonneg, MultiplySigned_Format by (apply Z.pow_nonneg; lia).
  - destruct (is_op operator ">>"); [|done].
    destruct ((0 <=? b) && (b <=? 4096)) eqn:Eb; [|done]. breflect. opt_simpl. cbn zeta.
    by apply shift_right_text.
Qed.

(** The type and the flag of the result of an operator that is not a shift. *)
Definition merged_type (t t' : gostring) (u u' : bool) : gostring := if u && negb u' then t' else t.

Lemma FormatInt_no_letter z text c : In c text -> 57 < c -> FormatInt z <> text.
Proof.
  intros Hin Hc E. subst. pose proof (FormatInt_bytes z) as H. rewrite List.Forall_forall in H.
  destruct (H c Hin) as [Hd|Hd]; unfold digit_byte in *; lia.
Qed.

Lemma fact_text x typ untyped : exists n rest, Text (fact x typ untyped) = FormatInt n ++ rest.
Proof.
  unfold fact. cbn [numericFact Text]. unfold Rational_String. rewrite rat_of_Q_Valid. cbn [negb].
  destruct (rat_components x) as (n & d & -> & _). cbn [Numerator Denominator].
  case_decide; [exists n, []; by rewrite app_nil_r|by eexists _, _].
Qed.

Lemma Kind_fact x typ untyped : Value_Kind (fact x typ untyped) = Number.
Proof.
  unfold Value_Kind. change (IsString (fact x typ untyped)) with false.
  change (Imag (fact x typ untyped)) with (@nil Z). cbn iota.
  destruct (fact_text x typ untyped) as (n & rest & ->).
  assert (forall c t, 57 < c -> FormatInt n ++ rest <> c :: t) as Hno.
  { intros c t Hc E. pose proof (FormatInt_bytes n) as H. pose proof (FormatInt_nonempty n).
    destruct (FormatInt n) as [|y l]; [done|]. injection E as -> _.
    inversion H as [|? ? [Hd|Hd] _]; subst; unfold digit_byte in *; lia. }
  rewrite decide_False by (by apply Hno). rewrite decide_False by tauto.
  rewrite !bool_decide_eq_false_2 by (by apply Hno). cbn [orb]. rewrite decide_True; [done|].
  intros E. apply app_eq_nil in E as [E _]. by apply FormatInt_nonempty in E.
Qed.

(** A comparison of two facts is the comparison of their numbers. *)
Lemma Binary_comparison operator x y t t' u u' :
  is_comparison operator = true ->
  Binary operator (fact x t u) (fact y t' u') =
    Some (bool_fact (comparison_result operator (comparison_sign (x ?= y)%Q))).
Proof.
  intros Hop. unfold Binary. rewrite !Kind_fact, Hop. cbn -[is_op bool_decide].
  rewrite bool_decide_eq_false_2 by done. cbn [andb]. unfold binary_comparison. rewrite !Kind_fact.
  rewrite !bool_decide_eq_false_2 by done. cbn [orb andb]. rewrite !Value_Rational_fact. opt_simpl.
  by rewrite CompareRational_spec.
Qed.

(** The branch of [Binary] two numeric facts reach for an operator that is no comparison. *)
Lemma Binary_dispatch operator x y t t' u u' :
  is_comparison operator = false ->
  Binary operator (fact x t u) (fact y t' u') =
    if (is_op operator "+" || is_op operator "-" || is_op operator "*" || is_op operator "/") &&
       (negb (integerType t) || negb (integerType t'))
    then binary_rational operator (fact x t u) (fact y t' u')
    else binary_integer operator (fact x t u) (fact y t' u').
Proof.
  intros Hop. unfold Binary. rewrite !Kind_fact, Hop. rewrite bool_decide_eq_false_2 by done. cbn [andb].
  change (Imag (fact x t u)) with (@nil Z). change (Imag (fact y t' u')) with (@nil Z).
  rewrite bool_decide_eq_true_2 by done. cbn [negb orb].
  change (IsString (fact x t u)) with false. rewrite andb_false_r. cbn [andb]. done.
Qed.

Lemma Binary_integer operator a b t t' u u' :
  integerType t = true -> integerType t' = true -> is_comparison operator = false ->
  Binary operator (ifact a t u) (ifact b t' u') =
    (fun z => if is_op operator "<<" || is_op operator ">>" then ifact z t u
              else ifact z (merged_type t t' u u') (u && u')) <$> integer_meaning operator a b.
Proof.
  intros Ht Ht' Hop. rewrite (ifact_fact a), (ifact_fact b), Binary_dispatch by done.
  rewrite Ht, Ht'. cbn [negb orb]. rewrite andb_false_r. rewrite <- !ifact_fact. unfold binary_integer.
  change (Text (ifact a t u)) with (FormatInt a). change (Text (ifact b t' u')) with (FormatInt b).
  rewrite binary_integer_text_Format. destruct (integer_meaning operator a b) as [z|]; [|done]. opt_simpl.
  cbn zeta. change (Type_ (ifact a t u)) with t. change (Untyped (ifact a t u)) with u.
  change (Type_ (ifact b t' u')) with t'. change (Untyped (ifact b t' u')) with u'.
  fold (ifact z t u). destruct (is_op operator "<<" || is_op operator ">>"); [done|].
  unfold merged_type. change (Untyped (ifact z t u)) with u. by destruct u, u'.
Qed.

(** What an arithmetic operator means on rationals. *)
Definition rational_meaning (operator : gostring) (x y : Q) : option Q :=
  if is_op operator "+" then Some (x + y)%Q
  else if is_op operator "-" then Some (x - y)%Q
  else if is_op operator "*" then Some (x * y)%Q
  else if bool_decide (y == 0)%Q then None else Some (x / y)%Q.

Lemma Binary_rational operator x y t t' u u' :
  In operator (map lit ["+"; "-"; "*"; "/"]%string) -> integerType t = false \/ integerType t' = false ->
  Binary operator (fact x t u) (fact y t' u') =
    (fun z => fact z (if integerType t && negb (integerType t') then t' else t) (u && u')) <$> rational_meaning operator x y.
Proof.
  intros Hop Hint. rewrite Binary_dispatch by (by repeat destruct Hop as [<-|Hop]).
  assert (negb (integerType t) || negb (integerType t') = true) as ->.
  { destruct Hint as [-> | ->]; [done|apply orb_true_r]. }
  assert (is_op operator "+" || is_op operator "-" || is_op operator "*" || is_op operator "/" = true) as ->
    by (by repeat destruct Hop as [<-|Hop]).
  cbn [andb]. unfold binary_rational, rational_meaning. rewrite !Value_Rational_fact. opt_simpl.
  rewrite AddRational_spec, SubtractRational_spec, MultiplyRational_spec, DivideRational_spec.
  change (Type_ (fact x t u)) with t. change (Type_ (fact y t' u')) with t'.
  change (Untyped (fact x t u)) with u. change (Untyped (fact y t' u')) with u'.
  destruct (integerType t && negb (integerType t'));
    destruct (is_op operator "+"), (is_op operator "-"), (is_op operator "*"), (bool_decide (y == 0)%Q); done.
Qed.

(** ** Lemmas: complex constants *)

Definition cfact (x y : Q) (typ : gostring) (untyped : bool) : Value :=
  complex_value (Rational_String (rat_of_Q x)) (Rational_String (rat_of_Q y)) typ untyped.

(** A value that denotes a complex number: a complex fact, or a numeric fact. *)
Inductive denotes (v : Value) (x y : Q) : Prop :=
| denotes_complex : v = cfact x y (Type_ v) (Untyped v) -> denotes v x y
| denotes_real : v = fact x (Type_ v) (Untyped v) -> (y == 0)%Q -> denotes v x y.

Lemma rational_string_nonempty x : Rational_String (rat_of_Q x) <> [].
Proof.
  destruct (fact_text x [] false) as (n & rest & E). unfold fact in E. cbn [numericFact Text] in E.
  rewrite E. intros H. apply app_eq_nil in H as [H _]. by apply FormatInt_nonempty in H.
Qed.

(** The parts [complexBinary] reads. *)
Lemma denotes_parts v x y :
  denotes v x y ->
  let w := if decide (Imag v = []) then set_parts v (Text v) (lit "0") else v in
  ParseRationalLiteral (Real w) = Some (rat_of_Q x) /\ ParseRationalLiteral (Imag w) = Some (rat_of_Q y) /\
  Type_ w = Type_ v /\ Untyped w = Untyped v.
Proof.
  intros [E|E Hy]; cbn zeta; rewrite E.
  - change (Imag (cfact x y (Type_ v) (Untyped v))) with (Rational_String (rat_of_Q y)).
    rewrite decide_False by apply rational_string_nonempty.
    cbn [cfact complex_value Real Imag Type_ Untyped]. by rewrite !ParseRational_String.
  - change (Imag (fact x (Type_ v) (Untyped v))) with (@nil Z). rewrite decide_True by done.
    cbn [fact numericFact set_parts Real Imag Type_ Untyped Text]. rewrite ParseRational_String.
    split; [done|]. split; [|done]. change (lit "0") with (FormatInt 0). rewrite ParseRational_FormatInt.
    by rewrite Hy.
Qed.

Definition is_complex (v : Value) : bool := negb (bool_decide (Imag v = [])).

(** Complex arithmetic on pairs of rationals. *)
Definition complex_meaning (operator : gostring) (a b c d : Q) : option (Q * Q) :=
  if is_op operator "+" then Some (a + c, b + d)%Q
  else if is_op operator "-" then Some (a - c, b - d)%Q
  else if is_op operator "*" then Some (a * c - b * d, a * d + b * c)%Q
  else if is_op operator "/" then
    if bool_decide (c == 0 /\ d == 0)%Q then None
    else Some ((a * c + b * d) / (c * c + d * d), (b * c - a * d) / (c * c + d * d))%Q
  else None.

Lemma square_sum_zero c d : (c * c + d * d == 0)%Q <-> (c == 0 /\ d == 0)%Q.
Proof.
  split.
  - destruct c as [n p], d as [m q]. unfold Qeq, Qplus, Qmult. cbn [Qnum Qden].
    rewrite !Z.mul_1_r, !Z.mul_0_l. intros H.
    assert (0 <= n * n * Zpos (q * q) /\ 0 <= m * m * Zpos (p * p)) as [H1 H2] by nia.
    assert (n * n = 0 /\ m * m = 0) as [H3 H4] by nia. split; nia.
  - intros [-> ->]. reflexivity.
Qed.

Lemma complexBinary_spec operator l r a b c d :
  denotes l a b -> denotes r c d ->
  complexBinary operator l r =
    (fun p => cfact (fst p) (snd p)
                (if negb (is_complex l) || (Untyped l && negb (Untyped r)) then Type_ r else Type_ l)
                (Untyped l && Untyped r)) <$> complex_meaning operator a b c d.
Proof.
  intros Hl Hr. unfold complexBinary. cbn zeta.
  destruct (denotes_parts l a b Hl) as (-> & -> & -> & ->).
  destruct (denotes_parts r c d Hr) as (-> & -> & -> & ->). opt_simpl.
  rewrite !AddRational_spec, !SubtractRational_spec, !MultiplyRational_spec. unfold ignore. opt_simpl.
  rewrite !SubtractRational_spec, !AddRational_spec. opt_simpl. rewrite !DivideRational_spec.
  unfold complex_meaning. rewrite (bool_decide_ext _ _ (square_sum_zero c d)).
  destruct (is_op operator "+"); [done|]. destruct (is_op operator "-"); [done|].
  destruct (is_op operator "*"); [done|]. destruct (is_op operator "/"); [|done]. cbn [orb].
  by destruct (bool_decide (c == 0 /\ d == 0)%Q).
Qed.

(** ** Lemmas: representability *)

Lemma SignedIntegerBounds_spec bits :
  1 <= bits -> SignedIntegerBounds bits = (FormatInt (- 2 ^ (bits - 1)), FormatInt (2 ^ (bits - 1) - 1)).
Proof.
  intros Hb. unfold SignedIntegerBounds.
  destruct (bits =? 8) eqn:E1; breflect; [by subst|]. destruct (bits =? 16) eqn:E2; breflect; [by subst|].
  destruct (bits =? 32) eqn:E3; breflect; [by subst|]. destruct (bits =? 64) eqn:E4; breflect; [by subst|].
  rewrite (proj2 (Z.leb_gt bits 0)) by lia. cbn zeta.
  pose proof (Z.pow_pos_nonneg 2 (bits - 1) ltac:(lia) ltac:(lia)) as Hp.
  rewrite Pow2_spec, SubtractUnsigned_spec, dec_nat_FormatUint by lia.
  change (dec_nat (lit "1")) with (Some 1). cbn iota. rewrite (proj2 (Z.ltb_ge _ _)) by lia. opt_simpl.
  rewrite FormatInt_neg, Z.opp_involutive by lia. by rewrite FormatInt_nonneg by lia.
Qed.

Lemma UnsignedIntegerMax_spec bits : 1 <= bits -> UnsignedIntegerMax bits = FormatUint (2 ^ bits - 1).
Proof.
  intros Hb. unfold UnsignedIntegerMax.
  destruct (bits =? 8) eqn:E1; breflect; [by subst|]. destruct (bits =? 16) eqn:E2; breflect; [by subst|].
  destruct (bits =? 32) eqn:E3; breflect; [by subst|]. destruct (bits =? 64) eqn:E4; breflect; [by subst|].
  rewrite (proj2 (Z.leb_gt bits 0)) by lia.
  pose proof (Z.pow_pos_nonneg 2 bits ltac:(lia) ltac:(lia)) as Hp.
  rewrite Pow2_spec, SubtractUnsigned_spec, dec_nat_FormatUint by lia.
  change (dec_nat (lit "1")) with (Some 1). cbn iota. by rewrite (proj2 (Z.ltb_ge _ _)) by lia.
Qed.

(** The bounds of an integer type. *)
Definition in_range (bits : Z) (signed : bool) (z : Z) : Prop :=
  if signed then - 2 ^ (bits - 1) <= z <= 2 ^ (bits - 1) - 1 else 0 <= z <= 2 ^ bits - 1.

Lemma IntegerRepresentable_Z z bits signed :
  IntegerRepresentable (rat_of_Q (inject_Z z)) bits signed = true <-> 1 <= bits /\ in_range bits signed z.
Proof.
  unfold IntegerRepresentable, Rational_Integer, Rational_Valid. rewrite rat_of_Z. cbn [Numerator Denominator].
  rewrite bool_decide_eq_false_2, bool_decide_eq_true_2 by done. cbn [negb andb orb].
  destruct (bits <? 1) eqn:Eb; breflect; [split; [done|lia]|]. unfold in_range. destruct signed.
  - rewrite SignedIntegerBounds_spec by done.
    rewrite !(CompareSigned_spec _ _ _ _ (dec_int_FormatInt _) (dec_int_FormatInt _)).
    rewrite andb_true_iff, !Z.leb_le. lia.
  - rewrite UnsignedIntegerMax_spec, HasPrefix_FormatInt by done.
    pose proof (Z.pow_pos_nonneg 2 bits ltac:(lia) ltac:(lia)) as Hp.
    destruct (z <? 0) eqn:Ez; breflect; cbn [negb andb]; [split; [done|lia]|].
    rewrite FormatInt_nonneg by done.
    rewrite (CompareUnsigned_spec _ _ _ _ (dec_nat_FormatUint z ltac:(lia)) (dec_nat_FormatUint (2 ^ bits - 1) ltac:(lia))).
    rewrite Z.leb_le. lia.
Qed.

Lemma IntegerRepresentable_spec x bits signed :
  IntegerRepresentable (rat_of_Q x) bits signed = true <->
  1 <= bits /\ exists z, (x == inject_Z z)%Q /\ in_range bits signed z.
Proof.
  destruct (decide (Denominator (rat_of_Q x) = lit "1")) as [Hd|Hd].
  - destruct (rat_of_Q_integer x Hd) as (z & _ & Hz). rewrite Hz, IntegerRepresentable_Z. split.
    + intros [? ?]. split; [done|]. by exists z.
    + intros (Hb & z' & E & Hr). split; [done|]. rewrite Hz in E. apply (proj1 (inject_Z_injective _ _)) in E. by rewrite E.
  - unfold IntegerRepresentable, Rational_Integer. rewrite (bool_decide_eq_false_2 _ Hd), andb_false_r.
    cbn [negb orb]. split; [done|]. intros (_ & z & E & _). destruct Hd. by rewrite E, rat_of_Z.
Qed.

(** ** Properties *)

(** The cached fraction of a fact is the fraction its text denotes, and every operator and
    constructor keeps it so: reading [Rational] from the cache never differs from parsing. *)
Theorem cached_rational_coherent :
  (forall v, cache_ok v -> Value_Rational v = if IsString v then None else ParseRationalLiteral (Text v)) /\
  (forall operator v w, cache_ok v -> Unary operator v = Some w -> cache_ok w) /\
  (forall operator l r w, cache_ok l -> cache_ok r -> Binary operator l r = Some w -> cache_ok w) /\
  (forall text typ untyped w, Numeric text typ untyped = Some w -> cache_ok w) /\
  (forall text typ untyped w, Integer text typ untyped = Some w -> cache_ok w) /\
  (forall text w, ParseIntegerLiteral text = Some w -> cache_ok w).
Proof.
  split; [exact Value_Rational_cached|]. split; [exact Unary_cache_ok|]. split; [exact Binary_cache_ok|].
  split; [|split].
  - intros text typ untyped w. unfold Numeric.
    destruct (ParseRationalLiteral text) as [r|] eqn:E; [|done]. intros H. injection H as <-.
    apply ParseRational_canonical in E as [x ->]. auto with go.
  - intros text typ untyped w. unfold Integer.
    destruct (NormalizeSignedDecimal text) as [r|] eqn:E; [|done]. intros H. injection H as <-. eauto with go.
  - intros text w H. apply ParseIntegerLiteral_spec in H as (sg & s & body & n & _ & _ & _ & ->).
    apply ifact_cache_ok.
Qed.

(** Binary operators on integer constants: for operands of integer types every operator is
    the exact operation on integers (quotient and remainder truncate and reject 0, shifts accept
    counts up to 4096 and shift right rounds down, bitwise operators are two's complement), with
    the type of the typed operand. *)
Theorem integer_binary_exact operator a b t t' u u' :
  integerType t = true -> integerType t' = true -> is_comparison operator = false ->
  Binary operator (ifact a t u) (ifact b t' u') =
    (fun z => if is_op operator "<<" || is_op operator ">>" then ifact z t u
              else ifact z (merged_type t t' u u') (u && u')) <$> integer_meaning operator a b.
Proof. apply Binary_integer. Qed.

Lemma integer_binary_exact_witness :
  Binary (lit ">>") (ifact (-5) (lit "Int") true) (ifact 1 (lit "Uint8") false)
  = Some (ifact (-3) (lit "Int") true).
Proof.
  rewrite (integer_binary_exact (lit ">>") (-5) 1 (lit "Int") (lit "Uint8") true false)
    by (vm_compute; reflexivity).
  vm_compute. reflexivity.
Defined.

(** Arithmetic on constants of other numeric types is exact rational arithmetic that fails
    only on a division by zero. *)
Theorem rational_binary_exact operator x y t t' u u' :
  In operator (map lit ["+"; "-"; "*"; "/"]%string) -> integerType t = false \/ integerType t' = false ->
  Binary operator (fact x t u) (fact y t' u') =
    (fun z => fact z (if integerType t && negb (integerType t') then t' else t) (u && u')) <$> rational_meaning operator x y.
Proof. apply Binary_rational. Qed.

Lemma rational_binary_exact_witness :
  Binary (lit "/") (fact (1 # 2) (lit "Float64") true) (fact (inject_Z 3) (lit "Int") true)
  = Some (fact (1 # 6) (lit "Float64") true).
Proof.
  rewrite (rational_binary_exact (lit "/") (1 # 2) (inject_Z 3) (lit "Float64") (lit "Int") true true).
  - vm_compute. reflexivity.
  - cbn. tauto.
  - left. vm_compute. reflexivity.
Defined.

(** Comparison operators on numeric constants of any types decide the order of their
    values. *)
Theorem constant_comparison_exact operator x y t t' u u' :
  is_comparison operator = true ->
  Binary operator (fact x t u) (fact y t' u') =
    Some (bool_fact (comparison_result operator (comparison_sign (x ?= y)%Q))).
Proof. apply Binary_comparison. Qed.

Lemma constant_comparison_exact_witness :
  Binary (lit "<=") (fact (1 # 3) (lit "Float64") true) (fact (1 # 2) (lit "Float32") false)
  = Some (bool_fact true).
Proof.
  rewrite (constant_comparison_exact (lit "<=") (1 # 3) (1 # 2) (lit "Float64") (lit "Float32") true false)
    by (vm_compute; reflexivity).
  vm_compute. reflexivity.
Defined.

(** Complex constants: on complex facts, and on numeric facts promoted to complex ones, the
    four operators are the arithmetic of complex numbers with rational parts; division fails
    exactly for the divisor 0. *)
Theorem complex_binary_exact operator l r a b c d :
  denotes l a b -> denotes r c d ->
  complexBinary operator l r =
    (fun p => cfact (fst p) (snd p)
                (if negb (is_complex l) || (Untyped l && negb (Untyped r)) then Type_ r else Type_ l)
                (Untyped l && Untyped r)) <$> complex_meaning operator a b c d.
Proof. apply complexBinary_spec. Qed.

Lemma complex_binary_exact_witness :
  complexBinary (lit "*") (cfact 0 1 (lit "Complex128") true) (fact (1 # 2) (lit "Float64") true)
  = Some (cfact 0 (1 # 2) (lit "Complex128") true).
Proof.
  rewrite (complex_binary_exact (lit "*") _ _ 0 1 (1 # 2) 0).
  - vm_compute. reflexivity.
  - apply denotes_complex. reflexivity.
  - apply denotes_real; reflexivity.
Defined.

(** A constant is representable in an integer type of the given width exactly when it is an
    integer within the two's complement or unsigned bounds of the width. *)
Theorem integer_representable_bounds x bits signed :
  IntegerRepresentable (rat_of_Q x) bits signed = true <->
  1 <= bits /\ exists z, (x == inject_Z z)%Q /\ in_range bits signed z.
Proof. apply IntegerRepresentable_spec. Qed.
