(* ===== verification/Float.v ===== *)
(** * Rounding constants to floating point (src/compiler/constant/float.go)

    [RationalFloat] rounds an exact fraction to a binary32 or binary64 value with decimal string
    arithmetic only; its result is assembled with float64 operations that are exact here.  The
    theorems show that the result is the nearest representable number with ties to even, that it
    exists exactly for the numbers below the overflow midpoint, which is what
    [FloatRepresentable] tests, and that [RoundRationalFloat] returns its exact value. *)

From Stdlib Require Import QArith Qabs Qpower Lqa.
From S2P Require Import Prelude GoStd Decimal DecimalLimbs DecimalArith DecimalBits Rational Literal ConstValue.
Local Open Scope Z_scope.

(** ** float64

    The float64 operations the code uses, on finite values and infinities: the value of
    [Finite neg m e] is m * 2^e with its sign; a canonical value has 2^52 <= m < 2^53, or
    m < 2^53 with the least exponent.  Doubling and halving are IEEE 754 multiplication and
    division by 2. *)

Inductive float64 : Type :=
| Finite (neg : bool) (m e : Z)
| Infinite (neg : bool).

(** The nearest integer to n/d, ties to even. *)
Definition round_even (n d : Z) : Z :=
  let q := n / d in
  let r := n mod d in
  if (d <? 2 * r) || ((2 * r =? d) && Z.odd q) then q + 1 else q.

Definition float64_of_uint64 (n : Z) : float64 :=
  if n =? 0 then Finite false 0 (-1074)
  else
    let k := Z.log2 n in
    if k <=? 52 then Finite false (n * 2 ^ (52 - k)) (k - 52)
    else
      let q := round_even n (2 ^ (k - 52)) in
      if q =? 2 ^ 53 then Finite false (2 ^ 52) (k - 51) else Finite false q (k - 52).

Definition float64_double (f : float64) : float64 :=
  match f with
  | Finite neg m e =>
      if m <? 2 ^ 52 then Finite neg (2 * m) e
      else if e =? 971 then Infinite neg else Finite neg m (e + 1)
  | Infinite neg => f
  end.

Definition float64_halve (f : float64) : float64 :=
  match f with
  | Finite neg m e => if -1074 <? e then Finite neg m (e - 1) else Finite neg (round_even m 2) e
  | Infinite neg => f
  end.

Definition float64_neg (f : float64) : float64 :=
  match f with
  | Finite neg m e => Finite (negb neg) m e
  | Infinite neg => Infinite (negb neg)
  end.

(** [math.Float64bits]. *)
Definition Float64bits (f : float64) : Z :=
  match f with
  | Finite neg m e =>
      Z.b2z neg * 2 ^ 63 + (if m <? 2 ^ 52 then m else (e + 1075) * 2 ^ 52 + (m - 2 ^ 52))
  | Infinite neg => Z.b2z neg * 2 ^ 63 + 2047 * 2 ^ 52
  end.

(** ** The operations of float.go *)

Definition signedFloatZero (negative : bool) : float64 :=
  let zero := Finite false 0 (-1074) in
  if negative then float64_neg zero else zero.

Definition compareRatioWithPowerOfTwo (numerator denominator : gostring) (exponent : Z) : Z :=
  if 0 <=? exponent then
    let scaled := default [] (MultiplySignedDecimal denominator (Pow2UnsignedDecimal exponent)) in
    CompareUnsignedDecimal numerator scaled
  else
    let scaled := default [] (MultiplySignedDecimal numerator (Pow2UnsignedDecimal (- exponent))) in
    CompareUnsignedDecimal scaled denominator.

Fixpoint lower_exponent (fuel : nat) (numerator denominator : gostring) (exponent : Z) : Z :=
  match fuel with
  | O => exponent
  | S fuel' =>
      if compareRatioWithPowerOfTwo numerator denominator exponent <? 0
      then lower_exponent fuel' numerator denominator (exponent - 1) else exponent
  end.

Fixpoint raise_exponent (fuel : nat) (numerator denominator : gostring) (exponent : Z) : Z :=
  match fuel with
  | O => exponent
  | S fuel' =>
      if 0 <=? compareRatioWithPowerOfTwo numerator denominator (exponent + 1)
      then raise_exponent fuel' numerator denominator (exponent + 1) else exponent
  end.

Definition exponent_estimate (numerator denominator : gostring) : Z :=
  Z.quot ((Z.of_nat (length numerator) - Z.of_nat (length denominator)) * 217706) 65536.

(** A ratio of numbers of a and b digits lies between 2^(-4b) and 2^(4a): the fuel bounds the
    distance of the estimate from the result. *)
Definition exponent_fuel (numerator denominator : gostring) : nat :=
  Z.to_nat (Z.abs (exponent_estimate numerator denominator)) + 4 * length numerator + 4 * length denominator + 2.

Definition estimateBinaryExponent (numerator denominator : gostring) : Z :=
  let fuel := exponent_fuel numerator denominator in
  let exponent := exponent_estimate numerator denominator in
  let exponent := lower_exponent fuel numerator denominator exponent in
  raise_exponent fuel numerator denominator exponent.

(** [roundScaledRational]; the empty text of a failed division is [None]. *)
Definition roundScaledRational (numerator denominator : gostring) (binaryShift : Z) : option gostring :=
  let '(numerator, denominator) :=
    if 0 <=? binaryShift
    then (default [] (MultiplySignedDecimal numerator (Pow2UnsignedDecimal binaryShift)), denominator)
    else (numerator, default [] (MultiplySignedDecimal denominator (Pow2UnsignedDecimal (- binaryShift)))) in
  '(quotient, remainder) ← DivideUnsignedDecimal numerator denominator;
  let twiceRemainder := AddUnsignedDecimal remainder remainder in
  let comparison := CompareUnsignedDecimal twiceRemainder denominator in
  let lastDigitOdd := negb (List.last quotient 0 mod 2 =? 0) in
  Some (if (0 <? comparison) || ((comparison =? 0) && lastDigitOdd)
        then AddUnsignedDecimal quotient (lit "1") else quotient).

(** The significand and the exponent the rounding chooses. *)
Definition float_significand (precision minimumExponent maximumExponent : Z)
    (numerator denominator : gostring) (exponent : Z) : option (gostring * Z) :=
  if exponent <? minimumExponent then
    let shift := precision - 1 - minimumExponent in
    significand ← roundScaledRational numerator denominator shift;
    let minimumNormalText := Pow2UnsignedDecimal (precision - 1) in
    Some (significand,
          if 0 <=? CompareUnsignedDecimal significand minimumNormalText then minimumExponent else exponent)
  else
    let shift := precision - 1 - exponent in
    significand ← roundScaledRational numerator denominator shift;
    let limit := Pow2UnsignedDecimal precision in
    if 0 <=? CompareUnsignedDecimal significand limit then
      if maximumExponent <? exponent + 1 then None else Some (HalveUnsignedDecimal significand, exponent + 1)
    else Some (significand, exponent).

(** Scaling the significand by a power of two, one step at a time. *)
Definition scale_float (out : float64) (binaryShift : Z) : float64 :=
  if 0 <=? binaryShift then Nat.iter (Z.to_nat binaryShift) float64_double out
  else Nat.iter (Z.to_nat (- binaryShift)) float64_halve out.

Definition assemble_float (precision minimumExponent exponent parsed : Z) (negative : bool) : float64 :=
  let minimumNormal := 2 ^ (precision - 1) in
  let binaryShift :=
    if (exponent <? minimumExponent) && (parsed <? minimumNormal)
    then minimumExponent - (precision - 1) else exponent - (precision - 1) in
  let out := scale_float (float64_of_uint64 parsed) binaryShift in
  if negative then float64_neg out else out.

(** The precision and the exponent range of a format. *)
Definition float_format (bits : Z) : option (Z * Z * Z) :=
  if bits =? 32 then Some (24, -126, 127)
  else if negb (bits =? 64) then None
  else Some (53, -1022, 1023).

Definition RationalFloat (value : Rational) (bits : Z) : option float64 :=
  if negb (Rational_Valid value) then None
  else
    let negative := HasPrefix (Numerator value) (lit "-") in
    let numerator := TrimPrefix (Numerator value) (lit "-") in
    if decide (numerator = lit "0") then Some (signedFloatZero negative)
    else
      '(precision, minimumExponent, maximumExponent) ← float_format bits;
      let decimalDifference := Z.of_nat (length numerator) - Z.of_nat (length (Denominator value)) in
      if ((bits =? 64) && (310 <? decimalDifference)) || ((bits =? 32) && (40 <? decimalDifference)) then None
      else if ((bits =? 64) && (decimalDifference <? -400)) || ((bits =? 32) && (decimalDifference <? -60))
      then Some (signedFloatZero negative)
      else
        let exponent := estimateBinaryExponent numerator (Denominator value) in
        if maximumExponent <? exponent then None
        else
          '(significand, exponent) ←
            float_significand precision minimumExponent maximumExponent numerator (Denominator value) exponent;
          parsed ← ParseUint significand 10;
          Some (assemble_float precision minimumExponent exponent parsed negative).

(** The loop that removes common factors of two; a mantissa has at most 53 bits. *)
Fixpoint reduce_dyadic (fuel : nat) (mantissa exponent : Z) : Z * Z :=
  match fuel with
  | O => (mantissa, exponent)
  | S fuel' =>
      if (exponent <? 0) && (Z.land mantissa 1 =? 0)
      then reduce_dyadic fuel' (Z.shiftr mantissa 1) (exponent + 1) else (mantissa, exponent)
  end.

Definition RoundRationalFloat (value : Rational) (bits : Z) : option Rational :=
  rounded ← RationalFloat value bits;
  let encoded := Float64bits rounded in
  let exponent := Z.land (Z.shiftr encoded 52) 2047 in
  let mantissa := Z.land encoded (2 ^ 52 - 1) in
  let '(mantissa, exponent) :=
    if negb (exponent =? 0) then (Z.lor mantissa (2 ^ 52), exponent) else (mantissa, 1) in
  let exponent := exponent - (1023 + 52) in
  if mantissa =? 0 then Some (mkRational (lit "0") (lit "1"))
  else
    let '(mantissa, exponent) := reduce_dyadic 64 mantissa exponent in
    let '(numerator, denominator) :=
      if 0 <=? exponent
      then (default [] (MultiplySignedDecimal (FormatUint mantissa) (Pow2UnsignedDecimal exponent)), lit "1")
      else (FormatUint mantissa, Pow2UnsignedDecimal (- exponent)) in
    Some (mkRational
            (if negb (Z.shiftr encoded 63 =? 0) && negb (mantissa =? 0) then lit "-" ++ numerator else numerator)
            denominator).

(** [Value.RoundFloat] of value.go. *)
Definition Value_RoundFloat (value : Value) (bits : Z) : option Value :=
  number ← Value_Rational value;
  if negb (bits =? 32) && negb (bits =? 64) then None
  else
    rounded ← RoundRationalFloat number bits;
    Some (numericFact rounded (Type_ value) (Untyped value)).

Example round_tenth :
  RoundRationalFloat (mkRational (lit "1") (lit "10")) 64 =
    Some (mkRational (lit "3602879701896397") (lit "36028797018963968")).
Proof. vm_compute. reflexivity. Qed.

Example round_tiny : RoundRationalFloat (mkRational (lit "-1") (lit "3")) 32 =
    Some (mkRational (lit "-11184811") (lit "33554432")).
Proof. vm_compute. reflexivity. Qed.

(** ** Lemmas: powers of two in Q *)

Definition p2 (e : Z) : Q := (inject_Z 2 ^ e)%Q.

Lemma p2_pos e : (0 < p2 e)%Q.
Proof. by apply Qpower_0_lt. Qed.

Lemma p2_add a b : (p2 (a + b) == p2 a * p2 b)%Q.
Proof. by apply Qpower_plus. Qed.

Lemma p2_Z e : 0 <= e -> (p2 e == inject_Z (2 ^ e))%Q.
Proof. intros H. unfold p2. by rewrite Zpower_Qpower. Qed.

Lemma p2_opp e : (p2 (- e) == / p2 e)%Q.
Proof. apply Qpower_opp. Qed.

Lemma p2_le a b : a <= b -> (p2 a <= p2 b)%Q.
Proof. intros H. by apply Qpower_le_compat_l. Qed.

Lemma p2_lt_inv a b : (p2 a < p2 b)%Q -> a < b.
Proof. intros H. by apply (Qpower_lt_compat_l_inv (inject_Z 2)). Qed.

Lemma p2_cancel e : (p2 e * p2 (- e) == 1)%Q.
Proof. rewrite <- p2_add. by replace (e + - e) with 0 by lia. Qed.

#[export] Hint Resolve p2_pos : go.

Lemma comparison_sign_Z a b : comparison_sign (a ?= b) = Z.sgn (a - b).
Proof. destruct (Z.compare_spec a b); cbn [comparison_sign]; lia. Qed.

Lemma Qcompare_p2_neg n d e :
  e < 0 -> ((n # d) ?= p2 e)%Q = (n * 2 ^ (- e) ?= Zpos d).
Proof.
  intros He. replace e with (- - e) at 1 by lia. rewrite p2_opp, (p2_Z (- e)) by lia.
  pose proof (Z.pow_pos_nonneg 2 (- e) ltac:(lia) ltac:(lia)).
  destruct (2 ^ (- e)) as [|q|q] eqn:E; [lia| |lia]. unfold Qcompare, inject_Z, Qinv. cbn [Qnum Qden].
  by rewrite Z.mul_1_l.
Qed.

Lemma compare_ratio_spec n d e :
  0 <= n ->
  compareRatioWithPowerOfTwo (FormatUint n) (FormatUint (Zpos d)) e = comparison_sign ((n # d) ?= p2 e)%Q.
Proof.
  intros Hn. unfold compareRatioWithPowerOfTwo. destruct (0 <=? e) eqn:E; breflect.
  - pose proof (Z.pow_pos_nonneg 2 e ltac:(lia) E) as Hp.
    rewrite Pow2_spec by done. rewrite <- (FormatInt_nonneg (Zpos d)), <- (FormatInt_nonneg (2 ^ e)) by lia.
    rewrite MultiplySigned_Format. opt_simpl. rewrite FormatInt_nonneg by lia.
    rewrite (CompareUnsigned_spec _ _ n (Zpos d * 2 ^ e)) by (apply dec_nat_FormatUint; lia).
    rewrite p2_Z by done. unfold Qcompare, inject_Z. cbn [Qnum Qden].
    rewrite comparison_sign_Z. f_equal. lia.
  - pose proof (Z.pow_pos_nonneg 2 (- e) ltac:(lia) ltac:(lia)) as Hp.
    rewrite Pow2_spec by lia. rewrite <- (FormatInt_nonneg n), <- (FormatInt_nonneg (2 ^ (- e))) by lia.
    rewrite MultiplySigned_Format. opt_simpl. rewrite FormatInt_nonneg by lia.
    rewrite (CompareUnsigned_spec _ _ (n * 2 ^ (- e)) (Zpos d)) by (apply dec_nat_FormatUint; lia).
    by rewrite Qcompare_p2_neg, comparison_sign_Z.
Qed.

Lemma compare_ratio_lt n d e :
  0 <= n ->
  (compareRatioWithPowerOfTwo (FormatUint n) (FormatUint (Zpos d)) e <? 0) = true <-> (n # d < p2 e)%Q.
Proof.
  intros Hn. rewrite compare_ratio_spec by done. rewrite Z.ltb_lt.
  destruct (Qcompare_spec (n # d) (p2 e)) as [H|H|H]; cbn [comparison_sign].
  - split; [lia|]. intros H'. rewrite H in H'. by apply Qlt_irrefl in H'.
  - split; [done|lia].
  - split; [lia|]. intros H'. by apply (Qlt_trans _ _ _ H), Qlt_irrefl in H'.
Qed.

Lemma compare_ratio_ge n d e :
  0 <= n ->
  (0 <=? compareRatioWithPowerOfTwo (FormatUint n) (FormatUint (Zpos d)) e) = true <-> (p2 e <= n # d)%Q.
Proof.
  intros Hn. rewrite Z.leb_le. pose proof (compare_ratio_lt n d e Hn) as H. rewrite Z.ltb_lt in H. split.
  - intros H1. apply Qnot_lt_le. intros H2. apply H in H2. lia.
  - intros H1. apply Z.le_ngt. intros H2. apply H in H2. by apply Qlt_not_le in H2.
Qed.

(** ** Lemmas: the binary exponent *)

(** The exponent of a positive number: 2^e <= x < 2^(e+1). *)
Definition binary_exponent (x : Q) (e : Z) : Prop := (p2 e <= x)%Q /\ (x < p2 (e + 1))%Q.

Lemma lower_exponent_spec n d fuel e lo :
  0 <= n -> (p2 lo <= n # d)%Q -> (Z.to_nat (e - lo) < fuel)%nat ->
  (p2 (lower_exponent fuel (FormatUint n) (FormatUint (Zpos d)) e) <= n # d)%Q /\
  (lower_exponent fuel (FormatUint n) (FormatUint (Zpos d)) e <= e) /\
  (lo <= e -> lo <= lower_exponent fuel (FormatUint n) (FormatUint (Zpos d)) e).
Proof.
  intros Hn Hlo. revert e. induction fuel as [|fuel IH]; intros e Hf; [lia|]. cbn [lower_exponent].
  destruct (_ <? 0) eqn:E.
  - apply compare_ratio_lt in E; [|done].
    assert (lo < e) by (apply p2_lt_inv; by eapply Qle_lt_trans).
    destruct (IH (e - 1)) as (H1 & H2 & H3); [lia|]. split; [done|]. split; [lia|]. intros _. apply H3. lia.
  - split; [|lia]. apply Qnot_lt_le. intros H. apply compare_ratio_lt in H; [|done]. congruence.
Qed.

Lemma raise_exponent_spec n d fuel e hi :
  0 <= n -> (p2 e <= n # d)%Q -> (n # d < p2 hi)%Q -> (Z.to_nat (hi - e) <= fuel)%nat ->
  binary_exponent (n # d) (raise_exponent fuel (FormatUint n) (FormatUint (Zpos d)) e).
Proof.
  intros Hn He Hhi. revert e He. induction fuel as [|fuel IH]; intros e He Hf; cbn [raise_exponent].
  { assert (e < hi) by (apply p2_lt_inv; by eapply Qle_lt_trans). lia. }
  destruct (0 <=? _) eqn:E.
  - apply compare_ratio_ge in E; [|done]. apply IH; [done|].
    assert (e + 1 < hi) by (apply p2_lt_inv; by eapply Qle_lt_trans). lia.
  - split; [done|]. apply Qnot_le_lt. intros H. apply compare_ratio_ge in H; [|done]. congruence.
Qed.

Lemma FormatUint_length_bounds n :
  0 < n ->
  10 ^ (Z.of_nat (length (FormatUint n)) - 1) <= n < 10 ^ Z.of_nat (length (FormatUint n)) /\
  (1 <= length (FormatUint n))%nat.
Proof.
  intros Hn. pose proof (FormatUint_canonical n ltac:(lia)) as Hc.
  pose proof (dval_FormatUint n ltac:(lia)) as Hv. pose proof (dval_bound _ (canonical_digits _ Hc)) as Hb.
  destruct Hc as [E|(c & s & E & Hne & Hd)]; [rewrite E in Hv; cbn in Hv; lia|].
  rewrite Hv in Hb. split; [split; [|lia]|rewrite E; cbn; lia].
  rewrite <- Hv at 2. rewrite E. replace (Z.of_nat (length (c :: s)) - 1) with (Z.of_nat (length s)) by (cbn [length]; lia).
  rewrite E in Hd. by apply canonical_lower.
Qed.

Lemma pow10_pow2 k : 0 <= k -> 10 ^ k <= 2 ^ (4 * k).
Proof. intros H. rewrite Z.pow_mul_r by lia. apply Z.pow_le_mono_l. lia. Qed.

Lemma ratio_lt_p2 n d k : 0 <= k -> n < 2 ^ k * Zpos d -> (n # d < p2 k)%Q.
Proof. intros Hk H. rewrite p2_Z by done. unfold Qlt, inject_Z. cbn [Qnum Qden]. lia. Qed.

Lemma ratio_ge_p2_neg n d k : 0 <= k -> Zpos d <= 2 ^ k * n -> (p2 (- k) <= n # d)%Q.
Proof.
  intros Hk H. destruct (decide (k = 0)) as [->|].
  - change (p2 (- 0)) with (1 # 1). unfold Qle. cbn [Qnum Qden]. lia.
  - apply Qnot_lt_le. intros Hlt. rewrite Qlt_alt in Hlt.
    rewrite Qcompare_p2_neg, Z.opp_involutive in Hlt by lia. rewrite Z.compare_lt_iff in Hlt. lia.
Qed.

Lemma exponent_estimate_spec n d :
  0 < n -> binary_exponent (n # d) (estimateBinaryExponent (FormatUint n) (FormatUint (Zpos d))).
Proof.
  intros Hn. unfold estimateBinaryExponent, exponent_fuel. cbn zeta.
  set (est := exponent_estimate _ _).
  destruct (FormatUint_length_bounds n Hn) as [[_ Hn2] Hl1].
  destruct (FormatUint_length_bounds (Zpos d) ltac:(lia)) as [[_ Hd2] Hl2].
  set (a := length (FormatUint n)) in *. set (b := length (FormatUint (Zpos d))) in *.
  pose proof (pow10_pow2 (Z.of_nat a) ltac:(lia)). pose proof (pow10_pow2 (Z.of_nat b) ltac:(lia)).
  assert (n # d < p2 (4 * Z.of_nat a))%Q as Hhi by (apply ratio_lt_p2; nia).
  assert (p2 (- (4 * Z.of_nat b)) <= n # d)%Q as Hlo by (apply ratio_ge_p2_neg; nia).
  set (lo := Z.min est (- (4 * Z.of_nat b))).
  assert (p2 lo <= n # d)%Q as Hlo'.
  { eapply Qle_trans; [|exact Hlo]. apply p2_le. lia. }
  set (fuel := (Z.to_nat (Z.abs est) + 4 * a + 4 * b + 2)%nat).
  destruct (lower_exponent_spec n d fuel est lo) as (H1 & H2 & H3); [lia|done|lia|].
  apply (raise_exponent_spec n d fuel _ (4 * Z.of_nat a)); [lia|done|done|]. specialize (H3 ltac:(lia)). lia.
Qed.

(** ** Lemmas: rounding to an integer *)

(** [s] is the integer nearest to n/d, the even one of two. *)
Definition nearest_integer (n d s : Z) : Prop :=
  2 * Z.abs (n - s * d) <= d /\ (2 * Z.abs (n - s * d) = d -> Z.even s = true).

Lemma round_even_spec n d : 0 <= n -> 0 < d -> nearest_integer n d (round_even n d) /\ 0 <= round_even n d.
Proof.
  intros Hn Hd. unfold round_even, nearest_integer. cbn zeta. destruct (div_mod_pos n d Hd) as [He Hr].
  pose proof (Z.div_pos n d Hn Hd) as Hq. set (q := n / d) in *. set (r := n mod d) in *.
  destruct ((d <? 2 * r) || ((2 * r =? d) && Z.odd q)) eqn:E.
  - replace (n - (q + 1) * d) with (r - d) by lia. split; [|lia].
    apply orb_true_iff in E as [E|E]; breflect.
    + split; [lia|]. intros. exfalso. lia.
    + split; [lia|]. intros _. rewrite Z.even_add. by rewrite <- Z.negb_odd, H0.
  - apply orb_false_iff in E as [E1 E2]. breflect. replace (n - q * d) with r by lia. split; [|lia].
    split; [lia|]. intros Ht. destruct E2 as [E2|E2]; breflect; [lia|]. by rewrite <- Z.negb_odd, E2.
Qed.

Lemma last_digit_odd n :
  0 <= n -> negb (List.last (FormatUint n) 0 mod 2 =? 0) = Z.odd n.
Proof.
  intros Hn. pose proof (last_parity n Hn) as Hp.
  pose proof (FormatUint_canonical n Hn) as Hc. pose proof (canonical_digits _ Hc) as Hd.
  rewrite List.Forall_forall in Hd. specialize (Hd _ (last_In _ 0 (canonical_nonempty _ Hc))).
  rewrite u8_digit in Hp by done. unfold digit_byte in Hd.
  rewrite (Zodd_mod n), <- Hp. set (c := List.last (FormatUint n) 0) in *.
  assert ((c - 48) mod 2 = c mod 2) as ->.
  { replace (c - 48) with (c + (-24) * 2) by lia. apply Z_mod_plus_full. }
  pose proof (Z.mod_pos_bound c 2 ltac:(lia)).
  destruct (Z.eqb_spec (c mod 2) 0), (Z.eqb_spec (c mod 2) 1); try done; lia.
Qed.

(** The scaled numerator and denominator. *)
Definition scaled_num (n shift : Z) : Z := if 0 <=? shift then n * 2 ^ shift else n.
Definition scaled_den (d shift : Z) : Z := if 0 <=? shift then d else d * 2 ^ (- shift).

Lemma roundScaled_spec n d shift :
  0 <= n -> 0 < d ->
  roundScaledRational (FormatUint n) (FormatUint d) shift =
    Some (FormatUint (round_even (scaled_num n shift) (scaled_den d shift))).
Proof.
  intros Hn Hd. unfold roundScaledRational.
  assert (forall k, 0 <= k -> 0 < 2 ^ k) as Hp by (intros; by apply Z.pow_pos_nonneg).
  assert ((if 0 <=? shift
    then (default [] (MultiplySignedDecimal (FormatUint n) (Pow2UnsignedDecimal shift)), FormatUint d)
    else (FormatUint n, default [] (MultiplySignedDecimal (FormatUint d) (Pow2UnsignedDecimal (- shift)))))
    = (FormatUint (scaled_num n shift), FormatUint (scaled_den d shift)) /\
    0 <= scaled_num n shift /\ 0 < scaled_den d shift) as (-> & Hn' & Hd').
  { unfold scaled_num, scaled_den. destruct (0 <=? shift) eqn:E; breflect.
    - specialize (Hp shift E). rewrite Pow2_spec, <- (FormatInt_nonneg n), <- (FormatInt_nonneg (2 ^ shift)) by lia.
      rewrite MultiplySigned_Format. opt_simpl. rewrite FormatInt_nonneg by lia. split; [done|lia].
    - specialize (Hp (- shift) ltac:(lia)).
      rewrite Pow2_spec, <- (FormatInt_nonneg d), <- (FormatInt_nonneg (2 ^ (- shift))) by lia.
      rewrite MultiplySigned_Format. opt_simpl. rewrite FormatInt_nonneg by lia. split; [done|lia]. }
  set (N := scaled_num n shift) in *. set (D := scaled_den d shift) in *.
  rewrite DivideUnsigned_spec, !dec_nat_FormatUint, (proj2 (Z.eqb_neq D 0)) by lia. opt_simpl. cbn zeta.
  destruct (div_mod_pos N D Hd') as [He Hr]. pose proof (Z.div_pos N D Hn' Hd') as Hq.
  rewrite AddUnsigned_Format, last_digit_odd by lia.
  rewrite (CompareUnsigned_spec _ _ (N mod D + N mod D) D) by (apply dec_nat_FormatUint; lia).
  change (lit "1") with (FormatUint 1). rewrite AddUnsigned_Format by lia.
  f_equal. unfold round_even. cbn zeta. replace (2 * (N mod D)) with (N mod D + N mod D) by lia.
  set (t := N mod D + N mod D).
  assert ((0 <? Z.sgn (t - D)) = (D <? t) /\ (Z.sgn (t - D) =? 0) = (t =? D)) as [-> ->].
  { split.
    - destruct (Z.ltb_spec D t); [apply Z.ltb_lt|apply Z.ltb_ge]; lia.
    - destruct (Z.eqb_spec t D); [apply Z.eqb_eq|apply Z.eqb_neq]; lia. }
  by destruct (_ || _).
Qed.

(** ** The specification: round to nearest, ties to even *)

(** The numbers of a format of precision [p] and least exponent [emin]. *)
Definition representable (p emin : Z) (y : Q) : Prop :=
  exists m q, Z.abs m < 2 ^ p /\ emin - (p - 1) <= q /\ (y == inject_Z m * p2 q)%Q.

(** Representable with an even significand. *)
Definition even_representable (p emin : Z) (y : Q) : Prop :=
  exists m q, Z.abs m < 2 ^ p /\ emin - (p - 1) <= q /\ (y == inject_Z m * p2 q)%Q /\ Z.even m = true.

(** [y] is [x] rounded: the nearest representable number, and an even one when another is as
    near. *)
Record rounds_to (p emin : Z) (x y : Q) : Prop := {
  rt_representable : representable p emin y;
  rt_nearest : forall z, representable p emin z -> (Qabs (x - y) <= Qabs (x - z))%Q;
  rt_even : forall z, representable p emin z -> ~ (z == y)%Q -> (Qabs (x - y) == Qabs (x - z))%Q ->
            even_representable p emin y
}.

Lemma representable_opp p emin y : representable p emin y -> representable p emin (- y).
Proof.
  intros (m & q & Hm & Hq & Hy). exists (- m), q. split; [lia|]. split; [done|].
  rewrite Hy, inject_Z_opp. ring.
Qed.

Lemma Qabs_opp_sub x y : (Qabs (- x - y) == Qabs (x - - y))%Q.
Proof. rewrite <- Qabs_opp. apply Qabs_wd. ring. Qed.

Lemma rounds_to_opp p emin x y : rounds_to p emin x y -> rounds_to p emin (- x) (- y).
Proof.
  intros [H1 H2 H3]. split.
  - by apply representable_opp.
  - intros z Hz. rewrite !Qabs_opp_sub. rewrite Qopp_involutive. by apply H2, representable_opp.
  - intros z Hz Hne. rewrite !Qabs_opp_sub, Qopp_involutive. intros E.
    destruct (H3 (- z)%Q) as (m & q & Hm & Hq & Hy & He); [by apply representable_opp| |done|].
    + intros H. apply Hne. by rewrite <- H, Qopp_involutive.
    + exists (- m), q. split; [lia|]. split; [done|]. split; [rewrite Hy, inject_Z_opp; ring|].
      by rewrite Z.even_opp.
Qed.

#[export] Instance rounds_to_proper p emin : Proper (Qeq ==> Qeq ==> iff) (rounds_to p emin).
Proof.
  assert (forall x x' y y', (x == x')%Q -> (y == y')%Q -> rounds_to p emin x y -> rounds_to p emin x' y') as H.
  { intros x x' y y' Hx Hy [H1 H2 H3]. split.
    - destruct H1 as (m & q & Hm & Hq & E). exists m, q. split; [done|]. split; [done|]. by rewrite <- Hy.
    - intros z Hz. rewrite <- Hx, <- Hy. by apply H2.
    - intros z Hz Hne E. rewrite <- Hx, <- Hy in E.
      destruct (H3 z Hz) as (m & q & Hm & Hq & E' & He); [by rewrite Hy|done|].
      exists m, q. split; [done|]. split; [done|]. split; [by rewrite <- Hy|done]. }
  intros x x' Hx y y' Hy. split; apply H; done.
Qed.

(** ** Lemmas: the nearest multiple of a power of two *)

Section nearest.
Context (N : Z) (D : positive) (q s : Z).
Let x : Q := ((N # D) * p2 q)%Q.
Hypothesis Hs : nearest_integer N (Zpos D) s.

Lemma multiple_distance k :
  (Qabs (x - inject_Z k * p2 q) == inject_Z (Z.abs (N - k * Zpos D)) * ((1 # D) * p2 q))%Q.
Proof.
  assert (x - inject_Z k * p2 q == inject_Z (N - k * Zpos D) * ((1 # D) * p2 q))%Q as ->.
  { unfold x. rewrite Qmult_assoc.
    transitivity (((N # D) - inject_Z k) * p2 q)%Q; [ring|]. apply Qmult_comp; [|done].
    unfold Qeq, Qminus, Qplus, Qmult, Qopp, inject_Z. cbn [Qnum Qden]. lia. }
  rewrite Qabs_Qmult. apply Qmult_comp; [done|]. apply Qabs_pos.
  apply Qmult_le_0_compat; [done|]. apply Qlt_le_weak, p2_pos.
Qed.

Lemma unit_pos : (0 < (1 # D) * p2 q)%Q.
Proof. apply Qmult_lt_0_compat; [done|apply p2_pos]. Qed.

Lemma multiple_nearest k : (Qabs (x - inject_Z s * p2 q) <= Qabs (x - inject_Z k * p2 q))%Q.
Proof.
  rewrite !multiple_distance. apply Qmult_le_r; [apply unit_pos|]. rewrite <- Zle_Qle.
  destruct Hs as [H _]. destruct (decide (k = s)) as [->|]; [done|]. nia.
Qed.

Lemma multiple_tie k :
  k <> s -> (Qabs (x - inject_Z s * p2 q) == Qabs (x - inject_Z k * p2 q))%Q -> Z.even s = true.
Proof.
  intros Hk. rewrite !multiple_distance. intros H.
  apply Qmult_inj_r in H; [|apply Qnot_eq_sym, Qlt_not_eq, unit_pos].
  apply (proj1 (inject_Z_injective _ _)) in H. destruct Hs as [Hn He]. apply He. nia.
Qed.
End nearest.

Lemma scaled_ratio n d shift :
  ((scaled_num n shift # Z.to_pos (scaled_den (Zpos d) shift)) == (n # d) * p2 shift)%Q.
Proof.
  unfold scaled_num, scaled_den. destruct (0 <=? shift) eqn:E; breflect.
  - rewrite p2_Z by done. unfold Qeq, Qmult, inject_Z. cbn [Qnum Qden Z.to_pos]. lia.
  - pose proof (Z.pow_pos_nonneg 2 (- shift) ltac:(lia) ltac:(lia)).
    assert (p2 shift == / inject_Z (2 ^ (- shift)))%Q as ->.
    { rewrite <- p2_Z, <- p2_opp by lia. by rewrite Z.opp_involutive. }
    destruct (2 ^ (- shift)) as [|k|] eqn:Ek; [lia| |lia].
    unfold Qeq, Qmult, inject_Z, Qinv. cbn [Qnum Qden Z.mul Z.to_pos]. rewrite Z2Pos.id by lia. lia.
Qed.

Lemma scaled_den_pos d shift : 0 < d -> 0 < scaled_den d shift.
Proof.
  intros H. unfold scaled_den. destruct (0 <=? shift) eqn:E; breflect; [done|].
  pose proof (Z.pow_pos_nonneg 2 (- shift) ltac:(lia) ltac:(lia)). lia.
Qed.

Lemma scaled_num_nonneg n shift : 0 <= n -> 0 <= scaled_num n shift.
Proof.
  intros H. unfold scaled_num. destruct (0 <=? shift) eqn:E; breflect; [|done].
  pose proof (Z.pow_pos_nonneg 2 shift ltac:(lia) ltac:(lia)). lia.
Qed.

(** Bounds of the scaled ratio are bounds of the integer it is rounded to. *)
Lemma nearest_ge N D s k : nearest_integer N (Zpos D) s -> (inject_Z k <= N # D)%Q -> k <= s.
Proof. intros [H _]. unfold Qle, inject_Z. cbn [Qnum Qden]. nia. Qed.

Lemma nearest_le N D s k : nearest_integer N (Zpos D) s -> (N # D <= inject_Z k)%Q -> s <= k.
Proof. intros [H _]. unfold Qle, inject_Z. cbn [Qnum Qden]. nia. Qed.

(** The significand, the scaled ratio and the exponent of its unit. *)
Section round_at.
Context (n : Z) (d : positive) (p emin E : Z).
Hypothesis Hn : 0 < n.
Hypothesis Hp : 2 <= p.
Hypothesis HE : binary_exponent (n # d) E.
Let q : Z := Z.max E emin - (p - 1).
Let N : Z := scaled_num n (- q).
Let D : positive := Z.to_pos (scaled_den (Zpos d) (- q)).
Let s : Z := round_even N (Zpos D).

Lemma ra_nearest : nearest_integer N (Zpos D) s /\ 0 <= s.
Proof. apply round_even_spec; [apply scaled_num_nonneg; lia|lia]. Qed.

Lemma ra_ratio : (N # D == (n # d) * p2 (- q))%Q.
Proof. apply scaled_ratio. Qed.

Lemma ra_value : ((n # d) == (N # D) * p2 q)%Q.
Proof. rewrite ra_ratio, <- Qmult_assoc, (Qmult_comm (p2 (- q))), p2_cancel. ring. Qed.

Lemma ra_scale_le a b : (p2 a <= p2 b * p2 q)%Q -> (p2 a * p2 (- q) <= p2 b)%Q.
Proof.
  intros H. apply (Qmult_le_r _ _ (p2 q)); [apply p2_pos|].
  by rewrite <- Qmult_assoc, (Qmult_comm (p2 (- q))), p2_cancel, Qmult_1_r.
Qed.

Lemma ra_upper : s <= 2 ^ p /\ (E < emin -> s <= 2 ^ (p - 1)).
Proof.
  destruct HE as [_ H]. destruct ra_nearest as [Hs _].
  assert (forall k, 0 <= k -> E + 1 <= k + q -> s <= 2 ^ k) as Hgo.
  { intros k Hk Hle. eapply nearest_le; [exact Hs|]. rewrite ra_ratio, <- p2_Z by done.
    apply Qlt_le_weak. apply (Qlt_le_trans _ (p2 (E + 1) * p2 (- q))).
    - apply Qmult_lt_r; [apply p2_pos|done].
    - rewrite <- p2_add. apply p2_le. lia. }
  split; [apply Hgo; unfold q; lia|]. intros. apply Hgo; unfold q; lia.
Qed.

Lemma ra_lower : emin <= E -> 2 ^ (p - 1) <= s.
Proof.
  intros HEm. destruct HE as [H _]. destruct ra_nearest as [Hs _].
  eapply nearest_ge; [exact Hs|]. rewrite ra_ratio, <- p2_Z by lia.
  replace (p - 1) with (E + - q) by (unfold q; lia). rewrite p2_add.
  apply Qmult_le_r; [apply p2_pos|done].
Qed.

Lemma ra_representable : representable p emin (inject_Z s * p2 q).
Proof.
  destruct ra_nearest as [_ H0]. destruct ra_upper as [Hup _].
  destruct (decide (s = 2 ^ p)) as [->|].
  - exists (2 ^ (p - 1)), (q + 1). pose proof (Z.pow_pos_nonneg 2 (p - 1) ltac:(lia) ltac:(lia)).
    assert (2 ^ p = 2 * 2 ^ (p - 1)) as Hpow by (rewrite <- Z.pow_succ_r by lia; f_equal; lia).
    split; [lia|]. split; [unfold q; lia|]. rewrite Hpow, p2_add, inject_Z_mult. change (p2 1) with (inject_Z 2). ring.
  - exists s, q. split; [lia|]. split; [unfold q; lia|done].
Qed.

Lemma ra_even : Z.even s = true -> even_representable p emin (inject_Z s * p2 q).
Proof.
  intros Hev. destruct ra_nearest as [_ H0]. destruct ra_upper as [Hup _].
  destruct (decide (s = 2 ^ p)) as [->|].
  - exists (2 ^ (p - 1)), (q + 1). pose proof (Z.pow_pos_nonneg 2 (p - 1) ltac:(lia) ltac:(lia)).
    assert (2 ^ p = 2 * 2 ^ (p - 1)) as Hpow by (rewrite <- Z.pow_succ_r by lia; f_equal; lia).
    split; [lia|]. split; [unfold q; lia|]. split.
    + rewrite Hpow, p2_add, inject_Z_mult. change (p2 1) with (inject_Z 2). ring.
    + rewrite Z.even_pow by lia. done.
  - exists s, q. split; [lia|]. split; [unfold q; lia|]. done.
Qed.

(** A representable number is a multiple of the unit or below the least number of the binade. *)
Lemma ra_other z :
  representable p emin z ->
  (exists k, (z == inject_Z k * p2 q)%Q) \/
  (z < inject_Z (2 ^ (p - 1)) * p2 q)%Q /\ (inject_Z (2 ^ (p - 1)) * p2 q <= n # d)%Q.
Proof.
  intros (m & q' & Hm & Hq & Hz). destruct (Z.le_gt_cases q q') as [Hle|Hgt].
  - left. exists (m * 2 ^ (q' - q)). rewrite Hz, inject_Z_mult, <- p2_Z by lia.
    replace q' with ((q' - q) + q) at 1 by lia. rewrite p2_add. ring.
  - right. assert (emin <= E) as HEm by (unfold q in *; lia).
    rewrite <- p2_Z, <- p2_add by lia. replace (p - 1 + q) with E by (unfold q; lia).
    split; [|apply HE]. rewrite Hz. apply (Qlt_le_trans _ (inject_Z (2 ^ p) * p2 q')).
    + apply Qmult_lt_r; [apply p2_pos|]. rewrite <- Zlt_Qlt. lia.
    + rewrite <- p2_Z, <- p2_add by lia. apply p2_le. unfold q in *. lia.
Qed.

Lemma ra_rounds : rounds_to p emin (n # d) (inject_Z s * p2 q).
Proof.
  destruct ra_nearest as [Hs _].
  assert (forall z, (z < inject_Z (2 ^ (p - 1)) * p2 q)%Q -> (inject_Z (2 ^ (p - 1)) * p2 q <= n # d)%Q ->
    (Qabs ((n # d) - inject_Z s * p2 q) < Qabs ((n # d) - z))%Q) as Hbelow.
  { intros z H1 H2. eapply Qle_lt_trans.
    - rewrite ra_value. apply (multiple_nearest N D q s Hs (2 ^ (p - 1))).
    - rewrite <- ra_value. rewrite !Qabs_pos; lra. }
  split.
  - apply ra_representable.
  - intros z Hz. destruct (ra_other z Hz) as [[k ->]|[H1 H2]]; [|by apply Qlt_le_weak, Hbelow].
    rewrite ra_value. by apply multiple_nearest.
  - intros z Hz Hne He. apply ra_even. destruct (ra_other z Hz) as [[k Hk]|[H1 H2]].
    + rewrite Hk, ra_value in He. eapply multiple_tie; [exact Hs| |exact He].
      intros ->. by apply Hne.
    + specialize (Hbelow z H1 H2). rewrite He in Hbelow. by apply Qlt_irrefl in Hbelow.
Qed.

(** The significand overflows exactly from the midpoint of the last number of the binade on. *)
Lemma ra_overflow : emin <= E -> s = 2 ^ p <-> (p2 (E + 1) - p2 (E - p) <= n # d)%Q.
Proof.
  intros HEm. destruct ra_nearest as [[Hs1 Hs2] Hs0]. destruct ra_upper as [Hup _].
  assert (2 ^ p = 2 * 2 ^ (p - 1)) as Hpow by (rewrite <- Z.pow_succ_r by lia; f_equal; lia).
  assert ((2 * 2 ^ p - 1) * Zpos D <= 2 * N <-> (p2 (E + 1) - p2 (E - p) <= n # d)%Q) as <-.
  { transitivity ((inject_Z (2 * 2 ^ p - 1) * (1 # 2) <= N # D)%Q).
    { unfold Qle, Qmult, inject_Z. cbn [Qnum Qden]. lia. }
    rewrite ra_ratio, <- (Qmult_le_r _ (n # d) (p2 (- q))) by apply p2_pos.
    assert ((p2 (E + 1) - p2 (E - p)) * p2 (- q) == inject_Z (2 * 2 ^ p - 1) * (1 # 2))%Q as ->; [|done].
    transitivity (p2 (E + 1) * p2 (- q) - p2 (E - p) * p2 (- q))%Q; [ring|]. rewrite <- !p2_add.
    replace (E + 1 + - q) with p by (unfold q; lia). replace (E - p + - q) with (-1) by (unfold q; lia).
    rewrite p2_Z by lia. change (p2 (-1)) with (1 # 2). unfold Qeq, Qminus, Qplus, Qopp, Qmult, inject_Z.
    cbn [Qnum Qden]. lia. }
  split.
  - intros Es. rewrite Es in Hs1. nia.
  - intros H. destruct (decide (s = 2 ^ p)) as [|Hne]; [done|]. exfalso.
    assert (s <= 2 ^ p - 1) by lia. assert (2 * Z.abs (N - s * Zpos D) = Zpos D) as Ht by nia.
    assert (s = 2 ^ p - 1) as Es by nia. specialize (Hs2 Ht). rewrite Es, Hpow in Hs2.
    rewrite Z.even_sub, Z.even_mul in Hs2. done.
Qed.
End round_at.

(** ** Lemmas: the float64 steps are exact *)

Definition float_value (f : float64) : Q :=
  match f with
  | Finite neg m e => if neg then (- (inject_Z m * p2 e))%Q else (inject_Z m * p2 e)%Q
  | Infinite _ => 0
  end.

Definition canonical64 (f : float64) : Prop :=
  match f with
  | Finite _ m e => 0 <= m < 2 ^ 53 /\ -1074 <= e <= 971 /\ (m < 2 ^ 52 -> e = -1074)
  | Infinite _ => False
  end.

Lemma float64_of_uint64_exact n :
  0 <= n < 2 ^ 53 ->
  exists m e, float64_of_uint64 n = Finite false m e /\ canonical64 (Finite false m e) /\
              (inject_Z m * p2 e == inject_Z n)%Q /\ m = n * 2 ^ (- e) /\ e <= 0.
Proof.
  intros Hn. unfold float64_of_uint64. destruct (n =? 0) eqn:E; breflect.
  { subst. exists 0, (-1074). rewrite Z.mul_0_l. by repeat split. }
  pose proof (Z.log2_spec n ltac:(lia)) as [Hlo Hhi]. pose proof (Z.log2_nonneg n) as Hk.
  set (k := Z.log2 n) in *. assert (k <= 52).
  { assert (k < 53); [|lia]. apply (Z.pow_lt_mono_r_iff 2); lia. }
  cbn zeta. rewrite (proj2 (Z.leb_le k 52)) by done.
  exists (n * 2 ^ (52 - k)), (k - 52). split; [done|].
  assert (2 ^ 52 = 2 ^ k * 2 ^ (52 - k)) as H52 by (rewrite <- Z.pow_add_r by lia; f_equal; lia).
  pose proof (Z.pow_pos_nonneg 2 (52 - k) ltac:(lia) ltac:(lia)) as Hp.
  assert (2 ^ 53 = 2 ^ Z.succ k * 2 ^ (52 - k)) as H53 by (rewrite <- Z.pow_add_r by lia; f_equal; lia).
  assert (2 ^ 52 <= n * 2 ^ (52 - k) < 2 ^ 53) by nia.
  split; [|split; [|split; [f_equal; f_equal; lia|lia]]].
  - unfold canonical64. lia.
  - rewrite inject_Z_mult, <- p2_Z, <- Qmult_assoc, <- p2_add by lia.
    replace (52 - k + (k - 52)) with 0 by lia. change (p2 0) with 1%Q. ring.
Qed.

Lemma float64_double_exact m e :
  canonical64 (Finite false m e) -> (inject_Z m * p2 e * inject_Z 2 < p2 1024)%Q ->
  exists m' e', float64_double (Finite false m e) = Finite false m' e' /\ canonical64 (Finite false m' e') /\
                (inject_Z m' * p2 e' == inject_Z m * p2 e * inject_Z 2)%Q.
Proof.
  intros (Hm & He & Hsub) Hv. unfold float64_double. destruct (m <? 2 ^ 52) eqn:Em; breflect.
  { exists (2 * m), e. assert (2 ^ 53 = 2 * 2 ^ 52) by done. split; [done|]. split.
    - unfold canonical64. lia.
    - rewrite inject_Z_mult. ring. }
  destruct (e =? 971) eqn:Ee; breflect.
  { exfalso. subst e. revert Hv. apply Qle_not_lt.
    assert (p2 1024 == inject_Z (2 ^ 52) * p2 971 * inject_Z 2)%Q as ->.
    { rewrite <- p2_Z by lia. change (inject_Z 2) with (p2 1). rewrite <- !p2_add. done. }
    apply Qmult_le_r; [done|]. apply Qmult_le_r; [apply p2_pos|]. by rewrite <- Zle_Qle. }
  exists m, (e + 1). split; [done|]. split; [unfold canonical64; lia|].
  rewrite p2_add. change (p2 1) with (inject_Z 2). ring.
Qed.

Lemma iter_double_exact k m e :
  canonical64 (Finite false m e) -> (inject_Z m * p2 e * p2 (Z.of_nat k) < p2 1024)%Q ->
  exists m' e', Nat.iter k float64_double (Finite false m e) = Finite false m' e' /\
                canonical64 (Finite false m' e') /\
                (inject_Z m' * p2 e' == inject_Z m * p2 e * p2 (Z.of_nat k))%Q.
Proof.
  intros Hc. induction k as [|k IH]; intros Hv.
  { exists m, e. split; [done|]. split; [done|]. change (p2 (Z.of_nat 0)) with 1%Q. ring. }
  rewrite Nat2Z.inj_succ, <- Z.add_1_r, p2_add in Hv. change (p2 1) with (inject_Z 2) in Hv.
  assert (0 <= inject_Z m * p2 e * p2 (Z.of_nat k))%Q as Hnn.
  { destruct Hc as (Hm & _). pose proof (p2_pos e). pose proof (p2_pos (Z.of_nat k)).
    apply Qmult_le_0_compat; [apply Qmult_le_0_compat|]; try (by apply Qlt_le_weak).
    change 0%Q with (inject_Z 0). rewrite <- Zle_Qle. lia. }
  destruct IH as (m1 & e1 & E1 & Hc1 & Hv1).
  { eapply Qle_lt_trans; [|exact Hv]. rewrite Qmult_assoc. change (inject_Z 2) with 2%Q. revert Hnn.
    generalize (inject_Z m * p2 e * p2 (Z.of_nat k))%Q. intros v Hnn. lra. }
  destruct (float64_double_exact m1 e1 Hc1) as (m2 & e2 & E2 & Hc2 & Hv2).
  { rewrite Hv1. by rewrite <- Qmult_assoc. }
  exists m2, e2. cbn [Nat.iter nat_rect]. split; [|split; [done|]].
  - by rewrite <- E2, <- E1.
  - rewrite Hv2, Hv1, Nat2Z.inj_succ, <- Z.add_1_r, (p2_add (Z.of_nat k)). change (p2 1) with (inject_Z 2). ring.
Qed.

(** Halving stays exact while the exponent may fall or the significand has factors of two. *)
Definition halvable (k m e : Z) : Prop := -1074 <= e - k \/ (2 ^ (-1074 - (e - k)) | m).

Lemma iter_halve_exact k m e :
  canonical64 (Finite false m e) -> halvable (Z.of_nat k) m e ->
  exists m' e', Nat.iter k float64_halve (Finite false m e) = Finite false m' e' /\
                canonical64 (Finite false m' e') /\
                (inject_Z m' * p2 e' == inject_Z m * p2 e * p2 (- Z.of_nat k))%Q.
Proof.
  revert m e. induction k as [|k IH]; intros m e Hc Hh.
  { exists m, e. split; [done|]. split; [done|]. change (p2 (- Z.of_nat 0)) with 1%Q. ring. }
  rewrite Nat.iter_succ_r. destruct Hc as (Hm & He & Hsub).
  assert (forall m1 e1, (inject_Z m1 * p2 e1 == inject_Z m * p2 e * p2 (-1))%Q -> canonical64 (Finite false m1 e1) ->
    halvable (Z.of_nat k) m1 e1 ->
    exists m' e', Nat.iter k float64_halve (Finite false m1 e1) = Finite false m' e' /\
      canonical64 (Finite false m' e') /\ (inject_Z m' * p2 e' == inject_Z m * p2 e * p2 (- Z.of_nat (S k)))%Q) as Hgo.
  { intros m1 e1 Hv Hc1 Hh1. destruct (IH m1 e1 Hc1 Hh1) as (m' & e' & E & Hc' & Hv').
    exists m', e'. split; [done|]. split; [done|]. rewrite Hv', Hv, <- Qmult_assoc, <- p2_add.
    by replace (-1 + - Z.of_nat k) with (- Z.of_nat (S k)) by lia. }
  unfold float64_halve at 2. destruct (-1074 <? e) eqn:Ee; breflect.
  - apply Hgo.
    + replace (e - 1) with (e + -1) by lia. rewrite p2_add. ring.
    + unfold canonical64. lia.
    + unfold halvable in *. replace (e - 1 - Z.of_nat k) with (e - Z.of_nat (S k)) by lia. done.
  - assert (e = -1074) by lia. subst e. destruct Hh as [Hh|Hh]; [lia|].
    replace (-1074 - (-1074 - Z.of_nat (S k))) with (Z.succ (Z.of_nat k)) in Hh by lia.
    rewrite Z.pow_succ_r in Hh by lia. destruct Hh as [c Hc].
    assert (m = (c * 2 ^ Z.of_nat k) * 2) as Hm2 by lia.
    assert (round_even m 2 = c * 2 ^ Z.of_nat k) as ->.
    { unfold round_even. rewrite Hm2, Z.div_mul, Z.mod_mul by lia. done. }
    apply Hgo.
    + rewrite Hm2, (inject_Z_mult _ 2). change (p2 (-1)) with (1 # 2).
      change (inject_Z 2) with 2%Q. ring.
    + unfold canonical64. lia.
    + right. exists c. do 2 f_equal. lia.
Qed.

Lemma scale_float_exact s b :
  0 <= s < 2 ^ 53 -> -1074 <= b -> (inject_Z s * p2 b < p2 1024)%Q ->
  exists m e, scale_float (float64_of_uint64 s) b = Finite false m e /\ canonical64 (Finite false m e) /\
              (inject_Z m * p2 e == inject_Z s * p2 b)%Q.
Proof.
  intros Hs Hb Hv. destruct (float64_of_uint64_exact s Hs) as (m & e & -> & Hc & Hval & Hm & He).
  unfold scale_float. destruct (0 <=? b) eqn:E; breflect.
  - destruct (iter_double_exact (Z.to_nat b) m e Hc) as (m' & e' & H1 & H2 & H3).
    { rewrite Z2Nat.id, Hval by done. done. }
    exists m', e'. rewrite Z2Nat.id, Hval in H3 by done. auto.
  - destruct (iter_halve_exact (Z.to_nat (- b)) m e Hc) as (m' & e' & H1 & H2 & H3).
    { rewrite Z2Nat.id by lia. unfold halvable. destruct (Z.le_gt_cases (-1074) (e - - b)); [by left|right]. rewrite Hm.
      exists (s * 2 ^ (b + 1074)). rewrite <- Z.mul_assoc, <- Z.pow_add_r by lia. do 2 f_equal. lia. }
    exists m', e'. rewrite Z2Nat.id, Z.opp_involutive, Hval in H3 by lia. auto.
Qed.

(** ** Lemmas: the result of [RationalFloat] *)

(** The least number that rounds beyond the greatest finite number. *)
Definition midpoint (p emax : Z) : Q := (p2 (emax + 1) - p2 (emax - p))%Q.

Lemma midpoint_ge p emax : 0 <= p -> (p2 emax <= midpoint p emax)%Q.
Proof.
  intros Hp. unfold midpoint. pose proof (p2_le (emax - p) emax ltac:(lia)).
  rewrite p2_add. change (p2 1) with 2%Q. lra.
Qed.

(** The outcome of rounding a positive number: [None] on overflow. *)
Definition rounded (p emin emax : Z) (x : Q) (out : option Q) : Prop :=
  match out with
  | Some y => rounds_to p emin x y /\ (x < midpoint p emax)%Q
  | None => (midpoint p emax <= x)%Q
  end.

Definition shift_of (p emin e s : Z) : Z :=
  if (e <? emin) && (s <? 2 ^ (p - 1)) then emin - (p - 1) else e - (p - 1).

Lemma compare_Format_ge a b : 0 <= a -> 0 <= b ->
  (0 <=? CompareUnsignedDecimal (FormatUint a) (FormatUint b)) = (b <=? a).
Proof.
  intros Ha Hb. rewrite (CompareUnsigned_spec _ _ a b) by (by apply dec_nat_FormatUint).
  destruct (Z.leb_spec b a); [apply Z.leb_le|apply Z.leb_gt]; lia.
Qed.

Section significand.
Context (n : Z) (d : positive) (p emin emax E : Z).
Hypothesis Hn : 0 < n.
Hypothesis Hp : 2 <= p.
Hypothesis Hem : emin <= emax.
Hypothesis HE : binary_exponent (n # d) E.
Hypothesis HEmax : E <= emax.

Definition significand_ok (r : option (gostring * Z)) : Prop :=
  match r with
  | Some (text, e) =>
      exists s, text = FormatUint s /\ 0 <= s < 2 ^ p /\
        rounded p emin emax (n # d) (Some (inject_Z s * p2 (shift_of p emin e s))%Q) /\
        emin - (p - 1) <= shift_of p emin e s /\
        (inject_Z s * p2 (shift_of p emin e s) < p2 (emax + 1))%Q
  | None => rounded p emin emax (n # d) None
  end.

Let pow_split : 2 ^ p = 2 * 2 ^ (p - 1).
Proof. rewrite <- Z.pow_succ_r by lia. f_equal. lia. Qed.

Let pow_pos : 0 < 2 ^ (p - 1).
Proof. apply Z.pow_pos_nonneg; lia. Qed.

Lemma scale_lt s k e : s <= 2 ^ k -> 0 <= k -> k + e < emax + 1 -> (inject_Z s * p2 e < p2 (emax + 1))%Q.
Proof.
  intros Hs Hk He. apply (Qle_lt_trans _ (p2 (k + e))).
  - rewrite p2_add, (p2_Z k) by done. apply Qmult_le_r; [apply p2_pos|]. by rewrite <- Zle_Qle.
  - by apply Qpower_lt_compat_l.
Qed.

Lemma below_midpoint k : (n # d < p2 k)%Q -> k <= emax -> (n # d < midpoint p emax)%Q.
Proof.
  intros H Hk. eapply Qlt_le_trans; [exact H|]. eapply Qle_trans; [by apply p2_le|].
  apply midpoint_ge. lia.
Qed.

Lemma significand_subnormal : E < emin ->
  significand_ok (float_significand p emin emax (FormatUint n) (FormatUint (Zpos d)) E).
Proof.
  intros Hsub. unfold float_significand. rewrite (proj2 (Z.ltb_lt _ _)) by done. cbn zeta.
  rewrite roundScaled_spec by lia. opt_simpl.
  pose proof (ra_nearest n d p emin E Hn) as [_ H0]. pose proof (ra_upper n d p emin E Hn Hp HE) as [_ Hup].
  pose proof (ra_rounds n d p emin E Hn Hp HE) as Hr.
  rewrite Z2Pos.id in H0, Hup, Hr by (by apply scaled_den_pos).
  replace (- (Z.max E emin - (p - 1))) with (p - 1 - emin) in H0, Hup, Hr by lia.
  replace (Z.max E emin - (p - 1)) with (emin - (p - 1)) in Hr by lia.
  set (s := round_even _ _) in *. specialize (Hup Hsub).
  rewrite Pow2_spec, compare_Format_ge by lia.
  assert (shift_of p emin (if 2 ^ (p - 1) <=? s then emin else E) s = emin - (p - 1)) as Hsh.
  { unfold shift_of. destruct (2 ^ (p - 1) <=? s) eqn:Es; breflect.
    - by rewrite Z.ltb_irrefl.
    - by rewrite !(proj2 (Z.ltb_lt _ _)) by done. }
  exists s. rewrite Hsh. split; [done|]. split; [lia|]. split; [split; [done|]|split; [lia|]].
  - apply (below_midpoint (E + 1)); [apply HE|lia].
  - apply (scale_lt _ (p - 1)); lia.
Qed.

Lemma significand_normal : emin <= E ->
  significand_ok (float_significand p emin emax (FormatUint n) (FormatUint (Zpos d)) E).
Proof.
  intros Hnorm. unfold float_significand. rewrite (proj2 (Z.ltb_ge _ _)) by done. cbn zeta.
  rewrite roundScaled_spec by lia. opt_simpl.
  pose proof (ra_nearest n d p emin E Hn) as [_ H0]. pose proof (ra_upper n d p emin E Hn Hp HE) as [Hup _].
  pose proof (ra_lower n d p emin E Hn Hp HE Hnorm) as Hlow.
  pose proof (ra_overflow n d p emin E Hn Hp HE Hnorm) as Hov.
  pose proof (ra_rounds n d p emin E Hn Hp HE) as Hr.
  rewrite Z2Pos.id in H0, Hup, Hlow, Hov, Hr by (by apply scaled_den_pos).
  replace (- (Z.max E emin - (p - 1))) with (p - 1 - E) in H0, Hup, Hlow, Hov, Hr by lia.
  replace (Z.max E emin - (p - 1)) with (E - (p - 1)) in Hr by lia.
  set (s := round_even _ _) in *. rewrite Pow2_spec, compare_Format_ge by lia.
  assert (forall e t, emin <= e -> shift_of p emin e t = e - (p - 1)) as Hsh.
  { intros e t He. unfold shift_of. by rewrite (proj2 (Z.ltb_ge _ _)). }
  destruct (2 ^ p <=? s) eqn:Es; breflect.
  - assert (s = 2 ^ p) as Hs by lia. destruct (emax <? E + 1) eqn:Ee; breflect.
    + cbn. replace emax with E by lia. by apply Hov.
    + rewrite HalveUnsignedDecimal_Format by lia.
      assert (s / 2 = 2 ^ (p - 1)) as Hh by (rewrite Hs, pow_split, Z.mul_comm, Z.div_mul; lia).
      exists (s / 2). rewrite Hsh by lia. split; [done|]. rewrite Hh. split; [lia|]. split; [split|split; [lia|]].
      * rewrite Hs, pow_split in Hr. replace (E + 1 - (p - 1)) with (1 + (E - (p - 1))) by lia.
        rewrite p2_add. rewrite inject_Z_mult in Hr. change (p2 1) with (inject_Z 2).
        setoid_replace (inject_Z (2 ^ (p - 1)) * (inject_Z 2 * p2 (E - (p - 1))))%Q
          with (inject_Z 2 * inject_Z (2 ^ (p - 1)) * p2 (E - (p - 1)))%Q using relation Qeq by ring. done.
      * apply (below_midpoint (E + 1)); [apply HE|lia].
      * apply (scale_lt _ (p - 1)); lia.
  - exists s. rewrite Hsh by lia. split; [done|]. split; [lia|]. split; [split; [done|]|split; [lia|]].
    + destruct (decide (E = emax)) as [Ee|]; [|apply (below_midpoint (E + 1)); [apply HE|lia]].
      apply Qnot_le_lt. intros H. unfold midpoint in H. rewrite <- Ee in H. apply Hov in H. lia.
    + apply (Qlt_le_trans _ (inject_Z (2 ^ p) * p2 (E - (p - 1)))).
      * apply Qmult_lt_r; [apply p2_pos|]. rewrite <- Zlt_Qlt. lia.
      * rewrite <- p2_Z, <- p2_add by lia. apply p2_le. lia.
Qed.

Lemma significand_spec :
  significand_ok (float_significand p emin emax (FormatUint n) (FormatUint (Zpos d)) E).
Proof.
  destruct (Z.lt_ge_cases E emin); [by apply significand_subnormal|by apply significand_normal].
Qed.
End significand.

Lemma ratio_lt_p2_neg n d k : 0 < k -> n * 2 ^ k < Zpos d -> (n # d < p2 (- k))%Q.
Proof.
  intros Hk H. rewrite Qlt_alt, Qcompare_p2_neg, Z.opp_involutive by lia. by rewrite Z.compare_lt_iff.
Qed.

Lemma ratio_ge_Z n d k : k * Zpos d <= n -> (inject_Z k <= n # d)%Q.
Proof. intros H. unfold Qle, inject_Z. cbn [Qnum Qden]. lia. Qed.

(** A number below half of the least positive one rounds to 0. *)
Lemma rounds_to_zero p emin x :
  0 <= p -> (0 <= x)%Q -> (x < p2 (emin - p))%Q -> rounds_to p emin x 0.
Proof.
  intros Hp Hx0 Hx.
  assert (forall z, representable p emin z -> ~ (z == 0)%Q -> (Qabs (x - 0) < Qabs (x - z))%Q) as Hfar.
  { intros z (m & q & Hm & Hq & Hz) Hne.
    assert (m <> 0) as Hm0 by (intros ->; apply Hne; rewrite Hz; apply Qmult_0_l).
    assert (p2 (emin - p) * 2 <= Qabs z)%Q as Hbig.
    { rewrite Hz, Qabs_Qmult, (Qabs_pos (p2 q)) by apply Qlt_le_weak, p2_pos.
      change 2%Q with (p2 1). rewrite <- p2_add. apply (Qle_trans _ (1 * p2 q)).
      - rewrite Qmult_1_l. apply p2_le. lia.
      - apply Qmult_le_r; [apply p2_pos|]. change 1%Q with (inject_Z 1). unfold inject_Z, Qabs.
        unfold Qle. cbn [Qnum Qden]. lia. }
    rewrite (Qabs_pos (x - 0)) by lra. pose proof (Qabs_triangle_reverse z x) as Ht.
    rewrite (Qabs_pos x) in Ht by done. rewrite Qabs_Qminus in Ht. lra. }
  split.
  - exists 0, (emin - (p - 1)). split; [cbn; apply Z.pow_pos_nonneg; lia|]. split; [lia|].
    symmetry. apply Qmult_0_l.
  - intros z Hz. destruct (Qeq_dec z 0) as [E|Hne]; [by rewrite E; apply Qle_refl|by apply Qlt_le_weak, Hfar].
  - intros z Hz Hne He. specialize (Hfar z Hz Hne). rewrite He in Hfar. by apply Qlt_irrefl in Hfar.
Qed.

Lemma float_format_cases bits p emin emax :
  float_format bits = Some (p, emin, emax) ->
  bits = 32 /\ p = 24 /\ emin = -126 /\ emax = 127 \/ bits = 64 /\ p = 53 /\ emin = -1022 /\ emax = 1023.
Proof.
  unfold float_format. destruct (bits =? 32) eqn:E; breflect.
  { intros H. injection H as <- <- <-. left. auto. }
  destruct (bits =? 64) eqn:E'; breflect; [|done]. intros H. injection H as <- <- <-. right. auto.
Qed.

(** The shortcuts on the lengths of the texts. *)
Lemma length_overflow n d k :
  0 < n -> 0 <= k ->
  k < Z.of_nat (length (FormatUint n)) - Z.of_nat (length (FormatUint (Zpos d))) -> (inject_Z (10 ^ k) <= n # d)%Q.
Proof.
  intros Hn Hk Hlen. destruct (FormatUint_length_bounds n Hn) as [[H1 _] _].
  destruct (FormatUint_length_bounds (Zpos d) ltac:(lia)) as [[_ H2] Hl].
  set (a := length (FormatUint n)) in *. set (b := length (FormatUint (Zpos d))) in *.
  apply ratio_ge_Z. eapply Z.le_trans; [|exact H1].
  apply (Z.le_trans _ (10 ^ (k + Z.of_nat b))).
  - rewrite Z.pow_add_r by lia. pose proof (Z.pow_pos_nonneg 10 k ltac:(lia) Hk). nia.
  - apply Z.pow_le_mono_r; lia.
Qed.

Lemma length_underflow n d k :
  0 < n -> 0 < k ->
  Z.of_nat (length (FormatUint n)) - Z.of_nat (length (FormatUint (Zpos d))) < - k -> n * 10 ^ k < Zpos d.
Proof.
  intros Hn Hk Hlen. destruct (FormatUint_length_bounds n Hn) as [[_ H1] _].
  destruct (FormatUint_length_bounds (Zpos d) ltac:(lia)) as [[H2 _] Hl].
  set (a := length (FormatUint n)) in *. set (b := length (FormatUint (Zpos d))) in *.
  eapply Z.lt_le_trans; [|exact H2]. apply (Z.lt_le_trans _ (10 ^ (Z.of_nat a + k))).
  - rewrite Z.pow_add_r by lia. pose proof (Z.pow_pos_nonneg 10 k ltac:(lia) ltac:(lia)). nia.
  - apply Z.pow_le_mono_r; lia.
Qed.

(** [RationalFloat] on the canonical texts of a positive number and a sign. *)
Definition float_ok (p emin emax : Z) (x : Q) (neg : bool) (r : option float64) : Prop :=
  match r with
  | Some f => exists m e, f = Finite neg m e /\ canonical64 f /\
                          rounded p emin emax x (Some (inject_Z m * p2 e)%Q)
  | None => rounded p emin emax x None
  end.

Lemma float_ok_overflow p emin emax x neg k :
  0 <= emax -> 2 ^ (emax + 1) <= 10 ^ k -> (inject_Z (10 ^ k) <= x)%Q -> float_ok p emin emax x neg None.
Proof.
  intros He Hk Hx. cbn. unfold midpoint. pose proof (p2_pos (emax - p)).
  assert (p2 (emax + 1) <= inject_Z (10 ^ k))%Q by (rewrite p2_Z, <- Zle_Qle by lia; done). lra.
Qed.

Lemma float_ok_zero p emin emax n d neg k :
  0 < n -> 2 <= p -> emin <= emax -> emin - p < 0 -> 2 ^ (p - emin) <= 10 ^ k -> n * 10 ^ k < Zpos d ->
  float_ok p emin emax (n # d) neg (Some (signedFloatZero neg)).
Proof.
  intros Hn Hp He Hneg Hk Hx. exists 0, (-1074). split; [by destruct neg|]. split; [by destruct neg|].
  assert (n # d < p2 (emin - p))%Q as Hlt.
  { replace (emin - p) with (- (p - emin)) by lia. apply ratio_lt_p2_neg; nia. }
  split.
  - setoid_replace (inject_Z 0 * p2 (-1074))%Q with 0%Q using relation Qeq by apply Qmult_0_l.
    apply rounds_to_zero; [lia| |done]. unfold Qle. cbn. lia.
  - eapply Qlt_le_trans; [exact Hlt|]. eapply Qle_trans; [|apply midpoint_ge; lia]. apply p2_le. lia.
Qed.

Lemma assemble_float_spec p emin emax n d e s neg :
  2 <= p <= 53 -> -1074 <= emin - (p - 1) -> emax <= 1023 -> 0 <= s < 2 ^ p ->
  rounded p emin emax (n # d) (Some (inject_Z s * p2 (shift_of p emin e s))%Q) ->
  emin - (p - 1) <= shift_of p emin e s -> (inject_Z s * p2 (shift_of p emin e s) < p2 (emax + 1))%Q ->
  float_ok p emin emax (n # d) neg (Some (assemble_float p emin e s neg)).
Proof.
  intros Hp Hemin Hemax Hs [Hr Hmid] Hsh Hlt. unfold assemble_float. cbn zeta. fold (shift_of p emin e s).
  assert (2 ^ p <= 2 ^ 53) by (apply Z.pow_le_mono_r; lia).
  destruct (scale_float_exact s (shift_of p emin e s)) as (m & e' & -> & Hc & Hv); [lia|lia| |].
  { eapply Qlt_le_trans; [exact Hlt|]. apply p2_le. lia. }
  exists m, e'. split; [by destruct neg|]. split; [by destruct neg|]. split; [by rewrite Hv|done].
Qed.

Lemma RationalFloat_positive n d bits p emin emax num neg :
  0 < n -> float_format bits = Some (p, emin, emax) ->
  HasPrefix num (lit "-") = neg -> TrimPrefix num (lit "-") = FormatUint n ->
  float_ok p emin emax (n # d) neg (RationalFloat (mkRational num (FormatUint (Zpos d))) bits).
Proof.
  intros Hn Hf Hneg Htrim. unfold RationalFloat, Rational_Valid. cbn [Numerator Denominator].
  rewrite bool_decide_eq_false_2 by auto with go. cbn [negb]. rewrite Hneg, Htrim. cbn zeta.
  rewrite decide_False by (rewrite FormatUint_zero_iff; lia). rewrite Hf. opt_simpl.
  set (diff := Z.of_nat (length (FormatUint n)) - Z.of_nat (length (FormatUint (Zpos d)))).
  pose proof (float_format_cases _ _ _ _ Hf) as Hcases.
  destruct ((_ && (310 <? diff)) || (_ && (40 <? diff))) eqn:E1.
  { destruct Hcases as [(-> & -> & -> & ->)|(-> & -> & -> & ->)]; apply orb_true_iff in E1 as [E1|E1];
      breflect; try done.
    - apply (float_ok_overflow _ _ _ _ _ 40); [done|by vm_compute|by apply length_overflow].
    - apply (float_ok_overflow _ _ _ _ _ 310); [done|by vm_compute|by apply length_overflow]. }
  destruct ((_ && (diff <? -400)) || (_ && (diff <? -60))) eqn:E2.
  { destruct Hcases as [(-> & -> & -> & ->)|(-> & -> & -> & ->)]; apply orb_true_iff in E2 as [E2|E2];
      breflect; try done.
    - apply (float_ok_zero _ _ _ _ _ _ 60); [done|done|done|done|by vm_compute|by apply length_underflow].
    - apply (float_ok_zero _ _ _ _ _ _ 400); [done|done|done|done|by vm_compute|by apply length_underflow]. }
  pose proof (exponent_estimate_spec n d Hn) as HE. set (E := estimateBinaryExponent _ _) in *.
  destruct (emax <? E) eqn:E3; breflect.
  { cbn. unfold midpoint. destruct HE as [HE _]. pose proof (p2_le (emax + 1) E ltac:(lia)).
    pose proof (p2_pos (emax - p)). lra. }
  assert (2 <= p <= 53 /\ emin <= emax /\ -1074 <= emin - (p - 1) /\ emax <= 1023) as (Hp & Hem & Hb1 & Hb2) by lia.
  pose proof (significand_spec n d p emin emax E Hn ltac:(lia) Hem HE E3) as Hsig.
  destruct (float_significand _ _ _ _ _ _) as [[text e]|]; [|exact Hsig]. opt_simpl.
  destruct Hsig as (s & -> & Hs & Hr & Hsh & Hlt).
  rewrite ParseUint_FormatUint by lia. rewrite (proj2 (Z.ltb_ge _ _)).
  - opt_simpl. by apply assemble_float_spec.
  - assert (2 ^ p <= 2 ^ 53) by (apply Z.pow_le_mono_r; lia). unfold maxUint64. lia.
Qed.

(** The outcome for a number of either sign. *)
Lemma RationalFloat_spec x bits p emin emax :
  float_format bits = Some (p, emin, emax) ->
  match RationalFloat (rat_of_Q x) bits with
  | Some f => canonical64 f /\ rounds_to p emin x (float_value f) /\ (Qabs x < midpoint p emax)%Q
  | None => (midpoint p emax <= Qabs x)%Q
  end.
Proof.
  intros Hf. destruct (rat_components x) as (n & d & -> & Hx & _).
  rewrite (FormatInt_nonneg (Zpos d)) by lia.
  assert (2 <= p /\ emin <= emax /\ 0 <= emax) as (Hp & Hem & He) by (apply float_format_cases in Hf; lia).
  destruct (Z.lt_trichotomy n 0) as [Hn|[->|Hn]].
  - pose proof (RationalFloat_positive (- n) d bits p emin emax (FormatInt n) true ltac:(lia) Hf) as H.
    rewrite HasPrefix_FormatInt, TrimPrefix_FormatInt in H. specialize (H ltac:(apply Z.ltb_lt; lia)).
    rewrite Z.abs_neq in H by lia. specialize (H eq_refl).
    assert (Qabs x == (- n # d))%Q as Habs by (rewrite <- Hx; unfold Qabs; rewrite Z.abs_neq by lia; done).
    assert (x == - (- n # d))%Q as Hopp by (rewrite <- Hx; unfold Qeq, Qopp; cbn [Qnum Qden]; lia).
    destruct (RationalFloat _ _) as [f|].
    + destruct H as (m & e & -> & Hc & Hr & Hm). split; [done|]. rewrite Habs. split; [|done].
      rewrite Hopp. by apply rounds_to_opp.
    + by rewrite Habs.
  - assert (x == 0)%Q as Hz by (rewrite <- Hx; done). unfold RationalFloat, Rational_Valid.
    cbn [Numerator Denominator]. rewrite bool_decide_eq_false_2 by auto with go. cbn [negb].
    change (TrimPrefix (FormatInt 0) (lit "-")) with (lit "0"). rewrite decide_True by done.
    change (HasPrefix (FormatInt 0) (lit "-")) with false. cbn zeta. split; [done|]. rewrite Hz. split.
    + cbn [signedFloatZero float_value]. setoid_replace (inject_Z 0 * p2 (-1074))%Q with 0%Q using relation Qeq by apply Qmult_0_l.
      apply rounds_to_zero; [lia|apply Qle_refl|apply p2_pos].
    + eapply Qlt_le_trans; [|apply midpoint_ge; lia]. apply p2_pos.
  - pose proof (RationalFloat_positive n d bits p emin emax (FormatInt n) false Hn Hf) as H.
    rewrite HasPrefix_FormatInt, TrimPrefix_FormatInt in H. specialize (H ltac:(apply Z.ltb_ge; lia)).
    rewrite Z.abs_eq in H by lia. specialize (H eq_refl).
    assert (Qabs x == (n # d))%Q as Habs by (rewrite <- Hx; unfold Qabs; rewrite Z.abs_eq by lia; done).
    destruct (RationalFloat _ _) as [f|].
    + destruct H as (m & e & -> & Hc & Hr & Hm). split; [done|]. rewrite Habs. split; [|done].
      by rewrite <- Hx.
    + by rewrite Habs.
Qed.

(** ** Lemmas: the exact value of a rounded number *)

Definition decode_mantissa (encoded : Z) : Z * Z :=
  let exponent := Z.land (Z.shiftr encoded 52) 2047 in
  let mantissa := Z.land encoded (2 ^ 52 - 1) in
  if negb (exponent =? 0) then (Z.lor mantissa (2 ^ 52), exponent) else (mantissa, 1).

Lemma decode_encoded neg m e :
  canonical64 (Finite neg m e) ->
  decode_mantissa (Float64bits (Finite neg m e)) = (m, e + 1075) /\
  (Z.shiftr (Float64bits (Finite neg m e)) 63 =? 0) = negb neg.
Proof.
  intros (Hm & He & Hsub). unfold Float64bits, decode_mantissa. cbn zeta.
  set (body := if m <? 2 ^ 52 then m else (e + 1075) * 2 ^ 52 + (m - 2 ^ 52)).
  assert (0 <= body < 2 ^ 63 /\ body / 2 ^ 52 = (if m <? 2 ^ 52 then 0 else e + 1075) /\
          body mod 2 ^ 52 = (if m <? 2 ^ 52 then m else m - 2 ^ 52)) as (Hb & Hd & Hmod).
  { unfold body. change (2 ^ 63) with (2048 * 2 ^ 52). change (2 ^ 53) with (2 * 2 ^ 52) in Hm.
    destruct (m <? 2 ^ 52) eqn:E; breflect.
    - destruct (mod_unique_pos m (2 ^ 52) 0 m) as [-> ->]; lia.
    - destruct (mod_unique_pos ((e + 1075) * 2 ^ 52 + (m - 2 ^ 52)) (2 ^ 52) (e + 1075) (m - 2 ^ 52)) as [-> ->]; lia. }
  change (2 ^ 52 - 1) with (Z.ones 52). change 2047 with (Z.ones 11).
  rewrite !Z.land_ones, !Z.shiftr_div_pow2 by lia.
  assert ((Z.b2z neg * 2 ^ 63 + body) / 2 ^ 52 = Z.b2z neg * 2 ^ 11 + body / 2 ^ 52) as ->.
  { change (2 ^ 63) with (2 ^ 11 * 2 ^ 52). rewrite Z.mul_assoc, Z.div_add_l by lia. done. }
  assert ((Z.b2z neg * 2 ^ 63 + body) mod 2 ^ 52 = body mod 2 ^ 52) as ->.
  { change (2 ^ 63) with (2 ^ 11 * 2 ^ 52). rewrite Z.mul_assoc, Z.add_comm. apply Z_mod_plus_full. }
  rewrite Z.add_comm, Z_mod_plus_full, Hd, Hmod.
  rewrite Z.mod_small by (change (2 ^ 11) with 2048; destruct (m <? 2 ^ 52); lia). split.
  - destruct (m <? 2 ^ 52) eqn:E; breflect.
    + rewrite Hsub by done. done.
    + rewrite (proj2 (Z.eqb_neq _ _)) by lia. cbn [negb]. f_equal.
      rewrite <- Z.lxor_lor, <- Z.add_nocarry_lxor; [lia|..].
      all: apply Z.bits_inj'; intros i Hi; rewrite Z.land_spec, Z.bits_0, Z.pow2_bits_eqb by lia.
      all: destruct (Z.eqb_spec 52 i) as [<-|]; [|apply andb_false_r].
      all: rewrite andb_true_r; change (2 ^ 53) with (2 * 2 ^ 52) in Hm.
      all: destruct (decide (m - 2 ^ 52 = 0)) as [->|]; [apply Z.bits_0|].
      all: apply Z.bits_above_log2; [lia|]; apply Z.log2_lt_pow2; lia.
  - destruct neg; cbn [Z.b2z negb].
    + apply Z.eqb_neq. rewrite Z.mul_1_l. rewrite (div_bounds _ _ 1); lia.
    + apply Z.eqb_eq. apply div_bounds; lia.
Qed.

Lemma reduce_dyadic_spec fuel m e :
  0 < m < 2 ^ Z.of_nat fuel ->
  exists m' e', reduce_dyadic fuel m e = (m', e') /\ 0 < m' /\
                (inject_Z m' * p2 e' == inject_Z m * p2 e)%Q /\ (0 <= e' \/ Z.odd m' = true).
Proof.
  revert m e. induction fuel as [|fuel IH]; intros m e Hm; [change (2 ^ Z.of_nat 0) with 1 in Hm; lia|].
  cbn [reduce_dyadic]. destruct (e <? 0) eqn:Ee; breflect; cbn [andb].
  2: { exists m, e. split; [done|]. split; [lia|]. split; [done|]. by left. }
  change 1 with (Z.ones 1) at 1. rewrite Z.land_ones by lia. change (2 ^ 1) with 2.
  destruct (m mod 2 =? 0) eqn:E; breflect.
  - rewrite Z.shiftr_div_pow2 by lia. change (2 ^ 1) with 2. destruct (div_mod_pos m 2 ltac:(lia)) as [Hd _].
    rewrite E, Z.add_0_r in Hd. set (h := m / 2) in *.
    rewrite Nat2Z.inj_succ, Z.pow_succ_r in Hm by lia.
    destruct (IH h (e + 1)) as (m' & e' & -> & Hm' & Hv & Ho); [lia|].
    exists m', e'. split; [done|]. split; [done|]. split; [|done].
    rewrite Hv, p2_add, Hd, inject_Z_mult. change (p2 1) with (inject_Z 2). ring.
  - exists m, e. split; [done|]. split; [lia|]. split; [done|]. right.
    rewrite Zmod_odd in E. by destruct (Z.odd m).
Qed.

Lemma rat_coprime p q :
  0 < q -> Z.gcd p q = 1 -> rat_of_Q (frac p q) = mkRational (FormatInt p) (FormatUint q).
Proof.
  intros Hq Hg. rewrite frac_rat_components, Hg, !Z.div_1_r by lia. rewrite Z.sgn_pos, Z.mul_1_l, Z.abs_eq by lia. done.
Qed.

Lemma odd_coprime_pow2 m k : Z.odd m = true -> 0 <= k -> Z.gcd m (2 ^ k) = 1.
Proof.
  intros Ho Hk. apply Z.coprime_pow_r; [done|]. apply Z.coprime_mod_l_iff.
  by rewrite Zmod_odd, Ho.
Qed.

(** The texts assembled from a reduced dyadic number. *)
Lemma dyadic_text (neg : bool) m e :
  0 < m -> 0 <= e \/ Z.odd m = true ->
  (let '(numerator, denominator) :=
     if 0 <=? e then (default [] (MultiplySignedDecimal (FormatUint m) (Pow2UnsignedDecimal e)), lit "1")
     else (FormatUint m, Pow2UnsignedDecimal (- e)) in
   mkRational (if neg then lit "-" ++ numerator else numerator) denominator)
  = rat_of_Q (float_value (Finite neg m e)).
Proof.
  intros Hm Ho. assert (forall n, 0 < n -> (if neg then lit "-" ++ FormatUint n else FormatUint n)
    = FormatInt (if neg then - n else n)) as Hsign.
  { intros n Hn. destruct neg; [rewrite FormatInt_neg, Z.opp_involutive by lia|rewrite FormatInt_nonneg by lia]; done. }
  assert (float_value (Finite neg m e) == inject_Z (if neg then - m else m) * p2 e)%Q as ->.
  { cbn [float_value]. destruct neg; [rewrite inject_Z_opp; ring|done]. }
  destruct (0 <=? e) eqn:E; breflect.
  - pose proof (Z.pow_pos_nonneg 2 e ltac:(lia) E). rewrite Pow2_spec by done.
    rewrite <- (FormatInt_nonneg m), <- (FormatInt_nonneg (2 ^ e)) by lia. rewrite MultiplySigned_Format. opt_simpl.
    rewrite FormatInt_nonneg, Hsign, p2_Z, <- inject_Z_mult, rat_of_Z by nia. f_equal. f_equal. destruct neg; lia.
  - destruct Ho as [Ho|Ho]; [lia|]. pose proof (Z.pow_pos_nonneg 2 (- e) ltac:(lia) ltac:(lia)).
    rewrite Pow2_spec, Hsign by lia. rewrite <- (scaled_neg 2), rat_coprime; [done|done| |lia|lia].
    pose proof (odd_coprime_pow2 m (- e) Ho ltac:(lia)) as Hg. destruct neg; [by rewrite Z.gcd_opp_l|done].
Qed.

Lemma RoundRationalFloat_value value bits f :
  RationalFloat value bits = Some f -> canonical64 f ->
  RoundRationalFloat value bits = Some (rat_of_Q (float_value f)).
Proof.
  intros Hr Hc. unfold RoundRationalFloat. rewrite Hr. opt_simpl. cbn zeta.
  destruct f as [neg m e|]; [|done]. destruct (decode_encoded neg m e Hc) as [Hd Hsgn].
  unfold decode_mantissa in Hd. cbn zeta in Hd. rewrite Hd. cbn iota.
  destruct (m =? 0) eqn:Em; breflect.
  { f_equal. subst m. change (mkRational (lit "0") (lit "1")) with (mkRational (FormatInt 0) (lit "1")).
    rewrite <- rat_of_Z. apply rat_of_Q_proper. cbn [float_value]. destruct neg; rewrite Qmult_0_l; done. }
  replace (e + 1075 - (1023 + 52)) with e by lia. destruct Hc as (Hm & _).
  destruct (reduce_dyadic_spec 64 m e) as (m' & e' & -> & Hm' & Hv & Ho).
  { assert (2 ^ 53 < 2 ^ Z.of_nat 64) by done. lia. }
  cbn iota. rewrite Hsgn, negb_involutive, (proj2 (Z.eqb_neq m' 0)) by lia. cbn [negb]. rewrite andb_true_r.
  assert (float_value (Finite neg m' e') == float_value (Finite neg m e))%Q as <-.
  { cbn [float_value]. by destruct neg; rewrite Hv. }
  rewrite <- dyadic_text by done. by destruct (0 <=? e').
Qed.

(** ** Lemmas: the representability test *)

Definition cutoff_value (bits : Z) : Z := if bits =? 32 then 2 ^ 128 - 2 ^ 103 else 2 ^ 1024 - 2 ^ 970.

Lemma float_cutoff_value bits : float_cutoff bits = FormatUint (cutoff_value bits).
Proof.
  unfold float_cutoff, cutoff_value. destruct (bits =? 32); apply canonical_eq_Format;
    try (vm_compute; reflexivity); right; eexists _, _;
    (split; [reflexivity|split; [discriminate|apply forallb_is_digit; vm_compute; reflexivity]]).
Qed.

Lemma cutoff_midpoint bits p emin emax :
  float_format bits = Some (p, emin, emax) -> (inject_Z (cutoff_value bits) == midpoint p emax)%Q.
Proof.
  intros Hf. apply float_format_cases in Hf as [(-> & -> & -> & ->)|(-> & -> & -> & ->)];
    unfold midpoint, cutoff_value; rewrite !p2_Z by lia; vm_compute; reflexivity.
Qed.

Lemma cutoff_pos bits : 0 < cutoff_value bits.
Proof. unfold cutoff_value. destruct (bits =? 32); vm_compute; reflexivity. Qed.

Lemma FloatRepresentable_spec x bits p emin emax :
  float_format bits = Some (p, emin, emax) ->
  FloatRepresentable (rat_of_Q x) bits = true <-> (Qabs x < midpoint p emax)%Q.
Proof.
  intros Hf. rewrite <- (cutoff_midpoint bits p emin emax) by done.
  unfold FloatRepresentable. rewrite rat_of_Q_Valid, float_cutoff_value. cbn [negb orb].
  assert (negb (bits =? 32) && negb (bits =? 64) = false) as ->.
  { apply float_format_cases in Hf as [(-> & _)|(-> & _)]; done. }
  cbn zeta. pose proof (cutoff_pos bits) as Hcp. set (c := cutoff_value bits) in *. clearbody c.
  destruct (rat_components x) as (n & d & -> & Hx & _). cbn [Numerator Denominator].
  rewrite TrimPrefix_FormatInt, FormatInt_nonneg by lia.
  assert ((Qabs x < inject_Z c)%Q <-> Z.abs n < c * Zpos d) as ->.
  { rewrite <- Hx. unfold Qabs, Qlt, inject_Z. cbn [Qnum Qden]. lia. }
  destruct (length (FormatUint (Z.abs n)) <? length (FormatUint c))%nat eqn:El.
  - apply Nat.ltb_lt in El. split; [|done]. intros _.
    destruct (decide (n = 0)) as [->|Hn]; [cbn; nia|].
    destruct (FormatUint_length_bounds (Z.abs n) ltac:(lia)) as [[_ H1] _].
    destruct (FormatUint_length_bounds c Hcp) as [[H2 _] _].
    assert (10 ^ Z.of_nat (length (FormatUint (Z.abs n))) <= 10 ^ (Z.of_nat (length (FormatUint c)) - 1))
      by (apply Z.pow_le_mono_r; lia). nia.
  - unfold CompareRational. cbn [Numerator Denominator]. change (lit "1") with (FormatInt 1).
    rewrite <- !FormatInt_nonneg by lia. rewrite !MultiplySigned_Format.
    rewrite (CompareSigned_spec _ _ (Z.abs n * 1) (c * Zpos d)) by apply dec_int_FormatInt.
    rewrite Z.ltb_lt. lia.
Qed.

(** ** Properties *)

(** C39. Rounding a constant to binary32 or binary64: the result exists exactly when the magnitude
    is below the overflow midpoint, is a canonical float64, and is the nearest number of the
    format with ties to even. *)
Theorem rational_float_nearest_even x bits p emin emax :
  float_format bits = Some (p, emin, emax) ->
  match RationalFloat (rat_of_Q x) bits with
  | Some f => canonical64 f /\ rounds_to p emin x (float_value f) /\ (Qabs x < midpoint p emax)%Q
  | None => (midpoint p emax <= Qabs x)%Q
  end.
Proof. apply RationalFloat_spec. Qed.

Lemma rational_float_nearest_even_witness :
  RationalFloat (rat_of_Q (1 # 10)) 32 = Some (Finite false (13421773 * 2 ^ 29) (-56)) /\
  rounds_to 24 (-126) (1 # 10) (float_value (Finite false (13421773 * 2 ^ 29) (-56))).
Proof.
  assert (RationalFloat (rat_of_Q (1 # 10)) 32 = Some (Finite false (13421773 * 2 ^ 29) (-56))) as E
    by (vm_compute; reflexivity).
  pose proof (rational_float_nearest_even (1 # 10) 32 24 (-126) 127 ltac:(reflexivity)) as H.
  rewrite E in H. destruct H as (_ & H & _). split; [exact E|exact H].
Defined.

(** [FloatRepresentable] accepts a constant exactly when [RationalFloat] rounds it to a finite
    number, and [RoundRationalFloat] then returns the exact value of that number as a canonical
    fraction. *)
Theorem float_representable_rounds x bits p emin emax :
  float_format bits = Some (p, emin, emax) ->
  (FloatRepresentable (rat_of_Q x) bits = true <-> exists f, RationalFloat (rat_of_Q x) bits = Some f) /\
  RoundRationalFloat (rat_of_Q x) bits =
    (fun f => rat_of_Q (float_value f)) <$> RationalFloat (rat_of_Q x) bits.
Proof.
  intros Hf. rewrite (FloatRepresentable_spec x bits p emin emax Hf).
  pose proof (RationalFloat_spec x bits p emin emax Hf) as H.
  destruct (RationalFloat (rat_of_Q x) bits) as [f|] eqn:E.
  - destruct H as (Hc & _ & Hm). split; [split; [by exists f|done]|]. by rewrite (RoundRationalFloat_value _ _ f).
  - split; [|unfold RoundRationalFloat; by rewrite E]. split; [|by intros [f Hf']].
    intros H'. by apply (Qle_not_lt _ _ H) in H'.
Qed.

Lemma float_representable_rounds_witness :
  FloatRepresentable (rat_of_Q (1 # 3)) 32 = true /\
  RoundRationalFloat (rat_of_Q (1 # 3)) 32 = Some (mkRational (lit "11184811") (lit "33554432")).
Proof.
  destruct (float_representable_rounds (1 # 3) 32 24 (-126) 127 ltac:(reflexivity)) as [H1 H2]. split.
  - apply H1. eexists. vm_compute. reflexivity.
  - rewrite H2. vm_compute. reflexivity.
Defined.
