(* ===== verification/GoBytes.v ===== *)
(** * Byte-level standard library operations used by the RPC wire layer

    [encoding/binary] varints and little-endian words, [unicode/utf8] validity and
    [bytes.Compare], as the source uses them, with the facts the codecs rely on. *)

From S2P Require Import Prelude GoStd.

(** ** Varints *)

Definition MaxVarintLen64 : Z := 10.

(** [binary.AppendUvarint] without its destination: ten groups of seven bits hold 64 bits. *)
Fixpoint uvarint_bytes (fuel : nat) (x : Z) : gostring :=
  match fuel with
  | O => [u8 x]
  | S fuel' => if 128 <=? x then u8 (Z.lor (u8 x) 128) :: uvarint_bytes fuel' (Z.shiftr x 7) else [u8 x]
  end.

Definition AppendUvarint (x : Z) : gostring := uvarint_bytes 9 x.

(** [binary.Uvarint]: the value and the number of bytes read; 0 bytes when the input is too short
    and a negative number when the value overflows 64 bits. *)
Fixpoint uvarint_loop (buf : gostring) (i x s : Z) : Z * Z :=
  match buf with
  | [] => (0, 0)
  | b :: rest =>
      if i =? MaxVarintLen64 then (0, - (i + 1))
      else if b <? 128 then
        if (i =? MaxVarintLen64 - 1) && (1 <? b) then (0, - (i + 1))
        else (Z.lor x (u64 (Z.shiftl b s)), i + 1)
      else uvarint_loop rest (i + 1) (Z.lor x (u64 (Z.shiftl (Z.land b 127) s))) (s + 7)
  end.

Definition Uvarint (buf : gostring) : Z * Z := uvarint_loop buf 0 0 0.

Lemma lor_disjoint a b s : 0 <= s -> 0 <= a < 2 ^ s -> Z.lor a (b * 2 ^ s) = a + b * 2 ^ s.
Proof.
  intros Hs Ha. rewrite <- Z.lxor_lor, <- Z.add_nocarry_lxor; [done|..].
  all: apply Z.bits_inj'; intros i Hi; rewrite Z.land_spec, Z.bits_0, <- Z.shiftl_mul_pow2, Z.shiftl_spec by lia.
  all: destruct (Z.lt_ge_cases i s) as [H|H].
  all: try (by rewrite (Z.testbit_neg_r b), andb_false_r by lia).
  all: destruct (decide (a = 0)) as [->|]; [by rewrite Z.bits_0|].
  all: rewrite (Z.bits_above_log2 a i); [done|lia|].
  all: apply Z.log2_lt_pow2; [lia|]; eapply Z.lt_le_trans; [apply Ha|]; apply Z.pow_le_mono_r; lia.
Qed.

Lemma uvarint_group x : 128 <= x -> u8 (Z.lor (u8 x) 128) = 128 + x mod 128.
Proof.
  intros Hx. unfold u8. change (2 ^ 8) with 256.
  assert (Z.lor (x mod 256) 128 = 128 + x mod 128) as ->.
  { assert (Z.lor (x mod 256) 128 = Z.lor (x mod 128) (1 * 2 ^ 7)) as ->.
    { apply Z.bits_inj'. intros i Hi. rewrite !Z.lor_spec. change 256 with (2 ^ 8). change 128 with (2 ^ 7) at 2.
      rewrite <- !Z.land_ones by lia. rewrite !Z.land_spec, !Z.testbit_ones_nonneg by lia.
      change 128 with (2 ^ 7). rewrite Z.mul_1_l, Z.pow2_bits_eqb by lia.
      destruct (Z.eqb_spec 7 i), (Z.ltb_spec i 8), (Z.ltb_spec i 7); rewrite ?orb_true_r, ?andb_false_r; try done; lia. }
    rewrite lor_disjoint by (try lia; change (2 ^ 7) with 128; apply Z.mod_pos_bound; lia). lia. }
  rewrite Z.mod_small; [done|]. pose proof (Z.mod_pos_bound x 128 ltac:(lia)). lia.
Qed.

Lemma land_127 x : Z.land x 127 = x mod 128.
Proof. change 127 with (Z.ones 7). by rewrite Z.land_ones by lia. Qed.

(** Reading what was written: after [i] groups, [x] holds the low bits. *)
Lemma uvarint_loop_bytes fuel y rest i x s :
  s = 7 * i -> 0 <= i -> i + Z.of_nat fuel = 9 -> 0 <= x < 2 ^ s -> 0 <= y -> y * 2 ^ s < 2 ^ 64 ->
  uvarint_loop (uvarint_bytes fuel y ++ rest) i x s =
    (x + y * 2 ^ s, i + Z.of_nat (length (uvarint_bytes fuel y))).
Proof.
  revert y i x s. induction fuel as [|fuel IH]; intros y i x s Hs Hi Hf Hx Hy Hlt.
  - assert (i = 9) as -> by lia. subst s. cbn [uvarint_bytes app uvarint_loop length].
    assert (y < 2). { change (2 ^ 64) with (2 * 2 ^ (7 * 9)) in Hlt. nia. }
    assert (u8 y = y) as -> by (apply u8_id; lia).
    change (9 =? MaxVarintLen64) with false. cbn iota. rewrite (proj2 (Z.ltb_lt y 128)) by lia.
    rewrite (proj2 (Z.ltb_ge 1 y)), andb_false_r by lia.
    rewrite Z.shiftl_mul_pow2, u64_id, lor_disjoint by lia. done.
  - cbn [uvarint_bytes]. pose proof (Z.pow_pos_nonneg 2 s ltac:(lia) ltac:(lia)) as Hp.
    destruct (128 <=? y) eqn:Ey; breflect.
    + cbn [app uvarint_loop length]. rewrite uvarint_group by done.
      pose proof (Z.mod_pos_bound y 128 ltac:(lia)) as Hm.
      rewrite (proj2 (Z.eqb_neq i MaxVarintLen64)) by (unfold MaxVarintLen64; lia).
      rewrite (proj2 (Z.ltb_ge _ _)) by lia. rewrite land_127.
      replace (128 + y mod 128) with (y mod 128 + 1 * 128) by lia. rewrite Z_mod_plus_full, Z.mod_mod by lia.
      rewrite Z.shiftr_div_pow2 by lia. change (2 ^ 7) with 128. pose proof (div_mod_pos y 128 ltac:(lia)) as [Hd _].
      rewrite Z.shiftl_mul_pow2, u64_id by nia. rewrite lor_disjoint by lia.
      assert (2 ^ (s + 7) = 2 ^ s * 128) as Hs7 by (by rewrite Z.pow_add_r by lia).
      rewrite IH; [|lia|lia|lia|nia|apply Z.div_pos; lia|nia].
      f_equal; [nia|lia].
    + cbn [app uvarint_loop length]. assert (u8 y = y) as -> by (apply u8_id; lia).
      rewrite (proj2 (Z.eqb_neq i MaxVarintLen64)) by (unfold MaxVarintLen64; lia).
      rewrite (proj2 (Z.ltb_lt y 128)) by lia.
      rewrite (proj2 (Z.eqb_neq i (MaxVarintLen64 - 1))) by (unfold MaxVarintLen64; lia). cbn [andb].
      rewrite Z.shiftl_mul_pow2, u64_id, lor_disjoint by nia. done.
Qed.

Lemma Uvarint_Append x rest :
  0 <= x < 2 ^ 64 -> Uvarint (AppendUvarint x ++ rest) = (x, Z.of_nat (length (AppendUvarint x))).
Proof.
  intros Hx. unfold Uvarint, AppendUvarint. rewrite uvarint_loop_bytes by (try done; lia).
  change (2 ^ 0) with 1. f_equal; lia.
Qed.

Lemma uvarint_bytes_length fuel x : (1 <= length (uvarint_bytes fuel x) <= S fuel)%nat.
Proof.
  revert x. induction fuel as [|fuel IH]; intros x; cbn [uvarint_bytes]; [cbn; lia|].
  destruct (128 <=? x); cbn [length]; [|lia]. specialize (IH (Z.shiftr x 7)). lia.
Qed.

Lemma AppendUvarint_length x : (1 <= length (AppendUvarint x) <= 10)%nat.
Proof. apply uvarint_bytes_length. Qed.

Lemma u8_byte x : is_byte (u8 x).
Proof. unfold is_byte, u8. change (2 ^ 8) with 256. apply Z.mod_pos_bound. lia. Qed.

Lemma AppendUvarint_bytes x : Forall is_byte (AppendUvarint x).
Proof.
  unfold AppendUvarint. generalize 9%nat. intros fuel. revert x.
  induction fuel as [|fuel IH]; intros x; cbn [uvarint_bytes].
  - repeat constructor; apply u8_byte.
  - destruct (128 <=? x); repeat constructor; try apply u8_byte. apply IH.
Qed.

(** ** Little-endian words *)

(** [binary.LittleEndian.AppendUint32] and [AppendUint64] without their destination. *)
Fixpoint le_bytes (size : nat) (x : Z) : gostring :=
  match size with
  | O => []
  | S size' => u8 x :: le_bytes size' (Z.shiftr x 8)
  end.

(** [binary.LittleEndian.Uint32] and [Uint64] on exactly their number of bytes. *)
Fixpoint le_word (b : gostring) : Z :=
  match b with
  | [] => 0
  | c :: rest => c + 256 * le_word rest
  end.

Lemma le_bytes_length size x : length (le_bytes size x) = size.
Proof. revert x. induction size as [|size IH]; intros x; cbn; [done|]. by rewrite IH. Qed.

Lemma le_word_bytes size x : 0 <= x < 256 ^ Z.of_nat size -> le_word (le_bytes size x) = x.
Proof.
  revert x. induction size as [|size IH]; intros x Hx.
  { change (256 ^ Z.of_nat 0) with 1 in Hx. cbn. lia. }
  cbn [le_bytes le_word]. rewrite Nat2Z.inj_succ, Z.pow_succ_r in Hx by lia.
  rewrite Z.shiftr_div_pow2 by lia. unfold u8. change (2 ^ 8) with 256.
  destruct (div_mod_pos x 256 ltac:(lia)) as [Hd Hm]. rewrite IH; [lia|].
  split; [apply Z.div_pos; lia|]. apply Z.div_lt_upper_bound; lia.
Qed.

(** ** UTF-8 *)

Definition utf8_cont (b : Z) : bool := (128 <=? b) && (b <=? 191).

(** The range of the second byte after each lead byte of a longer character. *)
Definition utf8_second3 (a b : Z) : bool :=
  if a =? 224 then (160 <=? b) && (b <=? 191)
  else if a =? 237 then (128 <=? b) && (b <=? 159)
  else utf8_cont b.

Definition utf8_second4 (a b : Z) : bool :=
  if a =? 240 then (144 <=? b) && (b <=? 191)
  else if a =? 244 then (128 <=? b) && (b <=? 143)
  else utf8_cont b.

(** [utf8.Valid] and [utf8.ValidString]. *)
Fixpoint utf8_Valid (s : gostring) : bool :=
  match s with
  | [] => true
  | a :: s1 =>
      if a <? 128 then utf8_Valid s1
      else match s1 with
      | b :: s2 =>
          if (194 <=? a) && (a <=? 223) then utf8_cont b && utf8_Valid s2
          else match s2 with
          | c :: s3 =>
              if (224 <=? a) && (a <=? 239) then utf8_second3 a b && utf8_cont c && utf8_Valid s3
              else match s3 with
              | d :: s4 =>
                  if (240 <=? a) && (a <=? 244) then utf8_second4 a b && utf8_cont c && utf8_cont d && utf8_Valid s4
                  else false
              | [] => false
              end
          | [] => false
          end
      | [] => false
      end
  end.

(** ** Lemmas: UTF-8 and white space *)

(** The encoding of one character. *)
Inductive utf8_char : gostring -> Prop :=
| utf8_1 a : a < 128 -> utf8_char [a]
| utf8_2 a b : 194 <= a <= 223 -> utf8_cont b = true -> utf8_char [a; b]
| utf8_3 a b c : 224 <= a <= 239 -> utf8_second3 a b = true -> utf8_cont c = true -> utf8_char [a; b; c]
| utf8_4 a b c d :
    240 <= a <= 244 -> utf8_second4 a b = true -> utf8_cont c = true -> utf8_cont d = true ->
    utf8_char [a; b; c; d].

Lemma utf8_Valid_char ch s : utf8_char ch -> utf8_Valid (ch ++ s) = utf8_Valid s.
Proof.
  intros [a Ha|a b Ha Hb|a b c Ha Hb Hc|a b c d Ha Hb Hc Hd]; cbn [app utf8_Valid].
  - by rewrite (proj2 (Z.ltb_lt _ _)).
  - by rewrite (proj2 (Z.ltb_ge _ _)), !(proj2 (Z.leb_le _ _)), Hb by lia.
  - rewrite (proj2 (Z.ltb_ge a 128)), (proj2 (Z.leb_le 194 a)), (proj2 (Z.leb_gt a 223)) by lia. cbn [andb].
    by rewrite !(proj2 (Z.leb_le _ _)), Hb, Hc by lia.
  - rewrite (proj2 (Z.ltb_ge a 128)), (proj2 (Z.leb_le 194 a)), (proj2 (Z.leb_gt a 223)) by lia. cbn [andb].
    rewrite (proj2 (Z.leb_le 224 a)), (proj2 (Z.leb_gt a 239)) by lia. cbn [andb].
    by rewrite !(proj2 (Z.leb_le _ _)), Hb, Hc, Hd by lia.
Qed.

Lemma utf8_Valid_inv s :
  utf8_Valid s = true -> s = [] \/ exists ch s', utf8_char ch /\ s = ch ++ s' /\ utf8_Valid s' = true.
Proof.
  intros H. destruct s as [|a s1]; [by left|]. right. revert H. cbn [utf8_Valid].
  destruct (a <? 128) eqn:Ea; breflect.
  { intros H. exists [a], s1. split; [by constructor|]. done. }
  destruct s1 as [|b s2]; [done|]. destruct ((194 <=? a) && (a <=? 223)) eqn:E2.
  { intros H. breflect. exists [a; b], s2. split; [by constructor|]. done. }
  destruct s2 as [|c s3]; [done|]. destruct ((224 <=? a) && (a <=? 239)) eqn:E3.
  { intros H. breflect. exists [a; b; c], s3. split; [by constructor|]. done. }
  destruct s3 as [|d s4]; [done|]. destruct ((240 <=? a) && (a <=? 244)) eqn:E4; [|done].
  intros H. breflect. exists [a; b; c; d], s4. split; [by constructor|]. done.
Qed.

(** A valid text is a sequence of characters. *)
Lemma utf8_Valid_ind (P : gostring -> Prop) :
  P [] -> (forall ch s, utf8_char ch -> utf8_Valid s = true -> P s -> P (ch ++ s)) ->
  forall s, utf8_Valid s = true -> P s.
Proof.
  intros H0 Hs s. remember (length s) as n eqn:En. revert s En.
  induction n as [n IH] using lt_wf_ind. intros s -> Hv.
  destruct (utf8_Valid_inv s Hv) as [->|(ch & s' & Hc & -> & Hv')]; [done|].
  apply Hs; [done|done|]. eapply IH; [|reflexivity|done]. rewrite length_app. destruct Hc; cbn; lia.
Qed.

Lemma utf8_Valid_snoc_inv s :
  utf8_Valid s = true -> s = [] \/ exists s' ch, utf8_char ch /\ s = s' ++ ch /\ utf8_Valid s' = true.
Proof.
  intros H. pattern s. revert s H. apply utf8_Valid_ind; [by left|].
  intros ch s Hc _ [->|(s' & ch' & Hc' & -> & Hv)]; right.
  - exists [], ch. split; [done|]. split; [apply app_nil_r|done].
  - exists (ch ++ s'), ch'. split; [done|]. split; [by rewrite app_assoc|]. by rewrite utf8_Valid_char.
Qed.

Lemma utf8_char_shape ch :
  utf8_char ch -> exists a tl, ch = a :: tl /\ utf8_cont a = false /\ Forall (fun b => utf8_cont b = true) tl.
Proof.
  assert (forall a, ~ (128 <= a <= 191) -> utf8_cont a = false) as Hlead.
  { intros a Ha. unfold utf8_cont. apply andb_false_iff. destruct (Z.le_gt_cases 128 a); [right|left]; apply Z.leb_gt; lia. }
  intros [a Ha|a b Ha Hb|a b c Ha Hb Hc|a b c d Ha Hb Hc Hd]; eexists _, _;
    (split; [reflexivity|split; [apply Hlead; lia|]]); repeat constructor; try done.
  - unfold utf8_second3, utf8_cont in *. destruct (a =? 224), (a =? 237); breflect; apply andb_true_iff; rewrite !Z.leb_le; lia.
  - unfold utf8_second4, utf8_cont in *. destruct (a =? 240), (a =? 244); breflect; apply andb_true_iff; rewrite !Z.leb_le; lia.
Qed.

(** The last character of a text is determined by the text. *)
Lemma utf8_suffix_unique s t ch ch' :
  utf8_char ch -> utf8_char ch' -> s ++ ch = t ++ ch' -> s = t /\ ch = ch'.
Proof.
  intros Hc Hc' E. apply app_eq_app in E as (l & E).
  assert (forall x y l, utf8_char x -> utf8_char y -> x = l ++ y -> l = []) as Hnil.
  { clear. intros x y l Hx Hy E. destruct l as [|z l]; [done|]. exfalso.
    apply utf8_char_shape in Hx as (a & tl & -> & _ & Hall). apply utf8_char_shape in Hy as (b & tl' & -> & Hb & _).
    injection E as _ ->. apply Forall_app in Hall as [_ Hall]. inversion Hall; subst. congruence. }
  destruct E as [[-> ->]|[-> ->]].
  - assert (l = []) as -> by (eapply Hnil; [exact Hc'|exact Hc|done]). by rewrite app_nil_r.
  - assert (l = []) as -> by (eapply Hnil; [exact Hc|exact Hc'|done]). by rewrite app_nil_r.
Qed.

Lemma space_prefix_char s n :
  space_prefix s = S n -> exists ch t, s = ch ++ t /\ length ch = S n /\ utf8_char ch.
Proof.
  destruct s as [|c s1]; [done|]. cbn [space_prefix].
  destruct (((9 <=? c) && (c <=? 13)) || (c =? 32)) eqn:E1.
  { intros H. injection H as <-. exists [c], s1. split; [done|]. split; [done|]. constructor.
    apply orb_true_iff in E1 as [E1|E1]; breflect; lia. }
  destruct s1 as [|d s2]; [done|]. destruct ((c =? 194) && ((d =? 133) || (d =? 160))) eqn:E2.
  { intros H. injection H as <-. exists [c; d], s2. split; [done|]. split; [done|].
    breflect. subst c. constructor; [lia|]. by match goal with H : _ \/ _ |- _ => destruct H as [H|H] end; breflect; subst. }
  destruct s2 as [|e s3]; [done|].
  destruct (_ || ((c =? 227) && (d =? 128) && (e =? 128))) eqn:E3; [|done].
  intros H. injection H as <-. exists [c; d; e], s3. split; [done|]. split; [done|].
  repeat match goal with H : _ || _ = true |- _ => apply orb_true_iff in H as [H|H] end; breflect; subst.
  1: by constructor.
  2: by constructor.
  2: by constructor.
  constructor; [lia|done|]. unfold utf8_cont. apply andb_true_iff. rewrite !Z.leb_le.
  repeat match goal with H : _ \/ _ |- _ => destruct H as [H|H] end; breflect; lia.
Qed.

Lemma space_suffix_char r n :
  space_suffix r = S n -> exists t ch, rev r = t ++ ch /\ length ch = S n /\ utf8_char ch.
Proof.
  assert (forall ch t, length ch = S n -> space_prefix ch = S n -> rev r = t ++ ch ->
    exists t ch, rev r = t ++ ch /\ length ch = S n /\ utf8_char ch) as Hgo.
  { intros ch t Hl Hs E. apply space_prefix_char in Hs as (ch' & t' & -> & Hl' & Hc).
    rewrite length_app, Hl' in Hl. assert (t' = []) as -> by (destruct t'; [done|cbn in Hl; lia]).
    rewrite app_nil_r in E. eauto. }
  destruct r as [|e r1]; [done|]. cbn [space_suffix].
  destruct (((9 <=? e) && (e <=? 13)) || (e =? 32)) eqn:E1.
  { intros H. injection H as <-. apply (Hgo [e] (rev r1)); [done| |done]. cbn [space_prefix]. by rewrite E1. }
  destruct r1 as [|d r2]; [done|]. destruct (space_prefix [d; e] =? 2)%nat eqn:E2.
  { intros H. injection H as <-. apply Nat.eqb_eq in E2. apply (Hgo [d; e] (rev r2)); [done|done|].
    cbn [rev]. by rewrite <- app_assoc. }
  destruct r2 as [|c r3]; [done|]. destruct (space_prefix [c; d; e] =? 3)%nat eqn:E3; [|done].
  intros H. injection H as <-. apply Nat.eqb_eq in E3. apply (Hgo [c; d; e] (rev r3)); [done|done|].
  cbn [rev]. by rewrite <- !app_assoc.
Qed.

Lemma trim_prefix_valid fuel s :
  utf8_Valid s = true -> utf8_Valid (trim_by space_prefix fuel s) = true.
Proof.
  revert s. induction fuel as [|fuel IH]; intros s Hs; cbn [trim_by]; [done|].
  destruct (space_prefix s) as [|n] eqn:E; [done|]. apply IH.
  apply space_prefix_char in E as (ch & t & -> & Hl & Hc). rewrite <- Hl, drop_app_length.
  by rewrite utf8_Valid_char in Hs.
Qed.

Lemma trim_suffix_valid fuel r :
  utf8_Valid (rev r) = true -> utf8_Valid (rev (trim_by space_suffix fuel r)) = true.
Proof.
  revert r. induction fuel as [|fuel IH]; intros r Hr; cbn [trim_by]; [done|].
  destruct (space_suffix r) as [|n] eqn:E; [done|]. apply IH.
  apply space_suffix_char in E as (t & ch & Er & Hl & Hc).
  assert (rev (drop (S n) r) = t) as ->.
  { rewrite <- (rev_involutive r), Er, rev_app_distr, <- Hl, <- (List.length_rev ch), drop_app_length.
    apply rev_involutive. }
  rewrite Er in Hr. destruct (utf8_Valid_snoc_inv _ Hr) as [E|(s' & ch' & Hc' & E & Hv)].
  - apply app_eq_nil in E as [_ ->]. inversion Hc.
  - by destruct (utf8_suffix_unique _ _ _ _ Hc Hc' E) as [-> _].
Qed.

(** Trimming white space keeps a text valid. *)
Lemma TrimSpace_valid s : utf8_Valid s = true -> utf8_Valid (TrimSpace s) = true.
Proof.
  intros H. unfold TrimSpace. cbn zeta. apply trim_suffix_valid. rewrite rev_involutive. by apply trim_prefix_valid.
Qed.

(** ** [bytes.Compare] as a total order *)

Definition bytes_leb (a b : gostring) : bool := strings_Compare a b <=? 0.
Definition bytes_le (a b : gostring) : Prop := bytes_leb a b = true.

#[export] Instance bytes_le_dec a b : Decision (bytes_le a b).
Proof. unfold bytes_le. apply _. Defined.

Lemma strings_Compare_values s t : strings_Compare s t = -1 \/ strings_Compare s t = 0 \/ strings_Compare s t = 1.
Proof.
  revert t. induction s as [|a s IH]; intros [|b t]; cbn; auto. destruct (a <? b); [auto|]. destruct (b <? a); auto.
Qed.

Lemma strings_Compare_trans s t u : strings_Compare s t <= 0 -> strings_Compare t u <= 0 -> strings_Compare s u <= 0.
Proof.
  revert t u. induction s as [|a s IH]; intros [|b t] [|c u]; cbn [strings_Compare]; try lia.
  destruct (a <? b) eqn:E1, (b <? c) eqn:E2; breflect.
  - intros _ _. by rewrite (proj2 (Z.ltb_lt _ _)) by lia.
  - destruct (c <? b) eqn:E3; breflect; [lia|]. intros _ _. by rewrite (proj2 (Z.ltb_lt _ _)) by lia.
  - destruct (b <? a) eqn:E3; breflect; [lia|]. intros _ _. by rewrite (proj2 (Z.ltb_lt _ _)) by lia.
  - destruct (b <? a) eqn:E3; breflect; [lia|]. destruct (c <? b) eqn:E4; breflect; [lia|].
    assert (a = c) as -> by lia. rewrite Z.ltb_irrefl. apply IH.
Qed.

#[export] Instance bytes_le_trans : Transitive bytes_le.
Proof. intros a b c. unfold bytes_le, bytes_leb. rewrite !Z.leb_le. apply strings_Compare_trans. Qed.

#[export] Instance bytes_le_total : Total bytes_le.
Proof.
  intros a b. unfold bytes_le, bytes_leb. rewrite !Z.leb_le, (strings_Compare_antisym a b).
  destruct (strings_Compare_values a b) as [->|[->| ->]]; lia.
Qed.

#[export] Instance bytes_le_antisym : AntiSymm eq bytes_le.
Proof.
  intros a b. unfold bytes_le, bytes_leb. rewrite !Z.leb_le, (strings_Compare_antisym a b). intros H1 H2.
  apply strings_Compare_eq. lia.
Qed.

(** ** [sort.Slice]

    Insertion by the comparison, which keeps the order of equivalent elements.  [sort.Slice] is not
    stable: where two elements are equivalent its order is unspecified, and this is one of the orders
    it may give; [sort_slice_unique] shows that it has no freedom when no two are. *)

Section sort_slice.
Context {A : Type} (less : A -> A -> bool).

Fixpoint insert_sorted (x : A) (l : list A) : list A :=
  match l with
  | [] => [x]
  | y :: l' => if less y x then y :: insert_sorted x l' else x :: l
  end.

Fixpoint sort_slice (l : list A) : list A :=
  match l with
  | [] => []
  | x :: l' => insert_sorted x (sort_slice l')
  end.

Lemma insert_sorted_perm x l : insert_sorted x l ≡ₚ x :: l.
Proof.
  induction l as [|y l IH]; cbn [insert_sorted]; [done|]. destruct (less y x); [|done].
  rewrite IH. apply Permutation_swap.
Qed.

Lemma sort_slice_perm l : sort_slice l ≡ₚ l.
Proof. induction l as [|x l IH]; cbn [sort_slice]; [done|]. by rewrite insert_sorted_perm, IH. Qed.

(** No element comes before one that is less. *)
Inductive sorted_slice : list A -> Prop :=
| sorted_nil : sorted_slice []
| sorted_cons x l : Forall (fun y => less y x = false) l -> sorted_slice l -> sorted_slice (x :: l).

Hypothesis less_trans : forall x y z, less y x = false -> less z y = false -> less z x = false.
Hypothesis less_asym : forall x y, less x y = true -> less y x = false.

Lemma insert_sorted_sorted x l : sorted_slice l -> sorted_slice (insert_sorted x l).
Proof.
  induction 1 as [|y l Hy Hl IH]; cbn [insert_sorted]; [by repeat constructor|].
  destruct (less y x) eqn:E.
  - constructor; [|done]. rewrite insert_sorted_perm. constructor; [by apply less_asym|done].
  - constructor; [|by constructor]. constructor; [done|]. eapply Forall_impl; [exact Hy|].
    intros z Hz. cbn. by eapply less_trans.
Qed.

Lemma sort_slice_sorted l : sorted_slice (sort_slice l).
Proof. induction l as [|x l IH]; cbn [sort_slice]; [constructor|by apply insert_sorted_sorted]. Qed.

(** Two sorted permutations of a list without equivalent elements are equal. *)
Lemma sorted_slice_unique l1 l2 :
  sorted_slice l1 -> sorted_slice l2 -> l1 ≡ₚ l2 ->
  (forall x y, x ∈ l1 -> y ∈ l1 -> less x y = false -> less y x = false -> x = y) -> l1 = l2.
Proof.
  intros H1. revert l2. induction H1 as [|x l1 Hx Hl1 IH]; intros l2 H2 Hp Hd.
  { symmetry in Hp. by apply Permutation_nil_r in Hp. }
  destruct H2 as [|y l2 Hy Hl2]; [symmetry in Hp; by apply Permutation_nil_cons in Hp|].
  assert (x = y) as ->.
  { assert (x ∈ y :: l2) as Hin by (rewrite <- Hp; left). assert (y ∈ x :: l1) as Hin' by (rewrite Hp; left).
    apply elem_of_cons in Hin as [|Hin]; [done|]. apply elem_of_cons in Hin' as [|Hin']; [done|].
    apply Hd; [left|by right| |].
    - rewrite List.Forall_forall in Hy. apply Hy. by apply list_elem_of_In.
    - rewrite List.Forall_forall in Hx. apply Hx. by apply list_elem_of_In. }
  f_equal. apply IH; [done|by apply Permutation_cons_inv in Hp|]. intros a b Ha Hb. apply Hd; by right.
Qed.

Lemma sort_slice_unique l l' :
  sorted_slice l' -> l' ≡ₚ l ->
  (forall x y, x ∈ l -> y ∈ l -> less x y = false -> less y x = false -> x = y) -> l' = sort_slice l.
Proof.
  intros Hs Hp Hd. apply sorted_slice_unique; [done|apply sort_slice_sorted|by rewrite sort_slice_perm|].
  intros x y Hx Hy. apply Hd; by rewrite <- Hp.
Qed.
End sort_slice.

Lemma insert_sorted_map {A B} (less : A -> A -> bool) (less' : B -> B -> bool) (f : A -> B) x l :
  (forall a b, less' (f a) (f b) = less a b) ->
  insert_sorted less' (f x) (map f l) = map f (insert_sorted less x l).
Proof.
  intros H. induction l as [|y l IH]; cbn [insert_sorted map]; [done|]. rewrite H.
  destruct (less y x); cbn [map]; [by rewrite IH|done].
Qed.

Lemma sort_slice_map {A B} (less : A -> A -> bool) (less' : B -> B -> bool) (f : A -> B) l :
  (forall a b, less' (f a) (f b) = less a b) -> sort_slice less' (map f l) = map f (sort_slice less l).
Proof.
  intros H. induction l as [|x l IH]; cbn [sort_slice map]; [done|]. rewrite IH. by apply insert_sorted_map.
Qed.
