(* ===== verification/Constraint.v ===== *)
(** * Build tags and build constraints (src/compiler/target)

    target.go: the canonical form of a set of build tags.  constraint.go: the search for the leading
    [//go:build] directive of a source file, the parser of its expression and the selection of the file.
    The parser is proved to accept exactly the grammar below, and the search to find exactly the directives
    in the leading blanks and comments. *)

From S2P Require Import Prelude GoStd GoBytes.

#[local] Open Scope Z_scope.
#[local] Arguments Z.to_nat : simpl never.

(** ** Targets *)

Record Target : Type := mkTarget { Tags : list gostring }.

Definition LanguageTag : gostring := lit "minigo".

(** The messages of [ConstraintError], the errors of [Normalize] and [Validate]. *)
Inductive constraint_message : Type :=
| MultipleDirectives | EmptyExpression | Unexpected (text : gostring) | MissingClose | ExpectedExpression | ExpectedTag.

Inductive target_error : Type :=
| InvalidTag (tag : gostring) | NotCanonical | ConstraintError (offset : Z) (message : constraint_message) | OutOfFuel.

Definition validTagByte (ch : Z) : bool :=
  ((97 <=? ch) && (ch <=? 122)) || ((65 <=? ch) && (ch <=? 90)) || ((48 <=? ch) && (ch <=? 57)) || (ch =? 95) || (ch =? 46).

Definition validTag (tag : gostring) : bool := match tag with [] => false | _ => forallb validTagByte tag end.

Fixpoint collect_tags (tags : list gostring) (seen : gset gostring) : result target_error (gset gostring) :=
  match tags with
  | [] => Ok seen
  | tag :: rest =>
      let tag := TrimSpace tag in
      if negb (validTag tag) then Err (InvalidTag tag) else collect_tags rest ({[tag]} ∪ seen)
  end.

(** The tags of the set in the order of [sort.Strings]. *)
Definition Normalize (buildTarget : Target) : result target_error Target :=
  let? seen := collect_tags (Tags buildTarget) {[LanguageTag]} in
  Ok (mkTarget (merge_sort bytes_le (elements seen))).

Definition Validate (buildTarget : Target) : result target_error unit :=
  let? normalized := Normalize buildTarget in
  if decide (Tags buildTarget = Tags normalized) then Ok tt else Err NotCanonical.

Definition Has (t : Target) (tag : gostring) : bool := existsb (fun candidate => bool_decide (candidate = tag)) (Tags t) || bool_decide (tag = LanguageTag).

Definition Equal (t other : Target) : bool :=
  match Normalize t, Normalize other with
  | Ok l, Ok r => bool_decide (Tags l = Tags r)
  | _, _ => false
  end.

(** ** Expressions *)

Inductive expression : Type :=
| tagExpr (tag : gostring)
| notExpr (value : expression)
| binaryExpr (left right : expression) (disjunction : bool).

Fixpoint eval (e : expression) (target : Target) : bool :=
  match e with
  | tagExpr tag => Has target tag
  | notExpr value => negb (eval value target)
  | binaryExpr l r true => eval l target || eval r target
  | binaryExpr l r false => eval l target && eval r target
  end.

Inductive token_kind : Type := tokenInvalid | tokenEOF | tokenTag | tokenNot | tokenAnd | tokenOr | tokenLeft | tokenRight.

#[export] Instance token_kind_eq : EqDecision token_kind.
Proof. solve_decision. Defined.

Record constraintToken : Type := mkToken { tok_kind : token_kind; tok_text : gostring; tok_offset : nat }.

Record constraintParser : Type := mkParser { p_source : gostring; p_base : Z; p_offset : nat; p_token : constraintToken }.

(** The number of leading bytes that satisfy a test: how far a scanning loop moves. *)
Fixpoint span_length (f : Z -> bool) (s : gostring) : nat :=
  match s with
  | c :: rest => if f c then S (span_length f rest) else O
  | [] => O
  end.

Definition is_blank (c : Z) : bool := (c =? 32) || (c =? 9).

Definition starts (c : Z) (s : gostring) : bool := match s with d :: _ => d =? c | [] => false end.

Definition lexeme (p : constraintParser) (start : nat) (k : token_kind) (n : nat) : constraintParser :=
  mkParser (p_source p) (p_base p) (start + n) (mkToken k (take n (drop start (p_source p))) start).

Definition next (p : constraintParser) : constraintParser :=
  let start := (p_offset p + span_length is_blank (drop (p_offset p) (p_source p)))%nat in
  match drop start (p_source p) with
  | [] => mkParser (p_source p) (p_base p) start (mkToken tokenEOF [] start)
  | c :: rest =>
      if c =? 33 then lexeme p start tokenNot 1
      else if c =? 40 then lexeme p start tokenLeft 1
      else if c =? 41 then lexeme p start tokenRight 1
      else if c =? 38 then (if starts 38 rest then lexeme p start tokenAnd 2 else lexeme p start tokenInvalid 1)
      else if c =? 124 then (if starts 124 rest then lexeme p start tokenOr 2 else lexeme p start tokenInvalid 1)
      else
        match span_length validTagByte (c :: rest) with
        | O => lexeme p start tokenInvalid 1
        | n => lexeme p start tokenTag n
        end
  end.

Definition parser_error {A} (p : constraintParser) (message : constraint_message) : result target_error A :=
  Err (ConstraintError (p_base p + Z.of_nat (tok_offset (p_token p))) message).

Definition at_kind (p : constraintParser) (k : token_kind) : bool := bool_decide (tok_kind (p_token p) = k).

Fixpoint parseOr (fuel : nat) (p : constraintParser) : result target_error (expression * constraintParser) :=
  match fuel with
  | O => Err OutOfFuel
  | S fuel =>
      let? l := parseAnd fuel p in
      or_loop fuel (fst l) (snd l)
  end
with or_loop (fuel : nat) (l : expression) (p : constraintParser) : result target_error (expression * constraintParser) :=
  match fuel with
  | O => Err OutOfFuel
  | S fuel =>
      if at_kind p tokenOr then
        let? r := parseAnd fuel (next p) in
        or_loop fuel (binaryExpr l (fst r) true) (snd r)
      else Ok (l, p)
  end
with parseAnd (fuel : nat) (p : constraintParser) : result target_error (expression * constraintParser) :=
  match fuel with
  | O => Err OutOfFuel
  | S fuel =>
      let? l := parseUnary fuel p in
      and_loop fuel (fst l) (snd l)
  end
with and_loop (fuel : nat) (l : expression) (p : constraintParser) : result target_error (expression * constraintParser) :=
  match fuel with
  | O => Err OutOfFuel
  | S fuel =>
      if at_kind p tokenAnd then
        let? r := parseUnary fuel (next p) in
        and_loop fuel (binaryExpr l (fst r) false) (snd r)
      else Ok (l, p)
  end
with parseUnary (fuel : nat) (p : constraintParser) : result target_error (expression * constraintParser) :=
  match fuel with
  | O => Err OutOfFuel
  | S fuel =>
      if at_kind p tokenNot then
        let? value := parseUnary fuel (next p) in
        Ok (notExpr (fst value), snd value)
      else if at_kind p tokenTag then Ok (tagExpr (tok_text (p_token p)), next p)
      else if at_kind p tokenLeft then
        let? value := parseOr fuel (next p) in
        if negb (at_kind (snd value) tokenRight) then parser_error (snd value) MissingClose
        else Ok (fst value, next (snd value))
      else if at_kind p tokenEOF then parser_error p ExpectedExpression
      else parser_error p ExpectedTag
  end.

(** Each call below needs at most three calls per token. *)
Definition parse_fuel (source : gostring) : nat := 3 * (length source + 2).

(** ** The directive of a source file *)

Record sourceExpression : Type := mkSource { se_text : gostring; se_offset : Z }.

Definition no_source : sourceExpression := mkSource [] 0.

(** [strings.Index], [None] standing for -1. *)
Fixpoint strings_Index (s p : gostring) : option nat :=
  if HasPrefix s p then Some O
  else match s with
       | [] => None
       | _ :: s' => S <$> strings_Index s' p
       end.

Definition go_build : gostring := lit "//go:build".

Definition is_directive (rest : gostring) : bool :=
  bool_decide (rest = go_build) || HasPrefix rest (go_build ++ [32]) || HasPrefix rest (go_build ++ [9]).

Definition is_space (c : Z) : bool := (c =? 32) || (c =? 9) || (c =? 13).

(** How the walk over a line ends: the next line follows, or the leading comments are over. *)
Inductive line_end : Type :=
| Break (inBlockComment : bool) (found : sourceExpression)
| Return (found : sourceExpression).

Fixpoint scan_line (fuel : nat) (line : gostring) (offset cursor : nat) (inBlockComment : bool) (found : sourceExpression) : result target_error line_end :=
  match fuel with
  | O => Err OutOfFuel
  | S fuel =>
      let cursor := (cursor + span_length is_space (drop cursor line))%nat in
      if inBlockComment then
        match strings_Index (drop cursor line) (lit "*/") with
        | None => Ok (Break true found)
        | Some closeOffset => scan_line fuel line offset (cursor + closeOffset + 2) false found
        end
      else if (cursor =? length line)%nat then Ok (Break false found)
      else
        let rest := drop cursor line in
        if HasPrefix rest (lit "/*") then scan_line fuel line offset (cursor + 2) true found
        else if HasPrefix rest (lit "//") then
          if is_directive rest then
            let text := TrimSpace (drop 10 rest) in
            if negb (bool_decide (se_text found = [])) then Err (ConstraintError (Z.of_nat (offset + cursor)) MultipleDirectives)
            else if bool_decide (text = []) then Err (ConstraintError (Z.of_nat (offset + cursor)) EmptyExpression)
            else Ok (Break false (mkSource text (Z.of_nat offset + match strings_Index line text with Some i => Z.of_nat i | None => -1 end)))
          else Ok (Break false found)
        else Ok (Return found)
  end.

Fixpoint scan_lines (fuel : nat) (source : gostring) (offset : nat) (inBlockComment : bool) (found : sourceExpression) : result target_error sourceExpression :=
  match fuel with
  | O => Err OutOfFuel
  | S fuel =>
      if (offset <? length source)%nat then
        let rest := drop offset source in
        let end_ := match IndexByte rest 10 with Some i => i | None => length rest end in
        let line := take end_ rest in
        let? e := scan_line (S (length line)) line offset 0 inBlockComment found in
        match e with
        | Return found => Ok found
        | Break inBlockComment found =>
            let offset := (offset + end_)%nat in
            let offset := if bool_decide (source !! offset = Some 10) then S offset else offset in
            scan_lines fuel source offset inBlockComment found
        end
      else Ok found
  end.

(** The Go function also returns whether a directive was found: whether the text is not empty. *)
Definition sourceConstraint (source : gostring) : result target_error sourceExpression :=
  scan_lines (S (length source)) source 0 false no_source.

Definition parse_expression (e : sourceExpression) : result target_error expression :=
  let parser := next (mkParser (se_text e) (se_offset e) 0 (mkToken tokenInvalid [] 0)) in
  let? parsed := parseOr (parse_fuel (se_text e)) parser in
  if negb (at_kind (snd parsed) tokenEOF) then parser_error (snd parsed) (Unexpected (tok_text (p_token (snd parsed))))
  else Ok (fst parsed).

Definition MatchSource (source : gostring) (buildTarget : Target) : result target_error bool :=
  let? buildTarget := Normalize buildTarget in
  let? expr := sourceConstraint source in
  if bool_decide (se_text expr = []) then Ok true
  else
    let? parsed := parse_expression expr in
    Ok (eval parsed buildTarget).

(** ** The grammar *)

(** The text does not go on with a byte of the class. *)
Definition stops (f : Z -> bool) (s : gostring) : bool := match s with c :: _ => negb (f c) | [] => true end.

Definition token : Type := token_kind * gostring.

(** The tokens of an expression text: blanks separate, a tag extends as far as it can. *)
Inductive lexes : gostring -> list token -> Prop :=
| lexes_end : lexes [] []
| lexes_blank c s ts : is_blank c = true -> lexes s ts -> lexes (c :: s) ts
| lexes_not s ts : lexes s ts -> lexes (33 :: s) ((tokenNot, [33]) :: ts)
| lexes_left s ts : lexes s ts -> lexes (40 :: s) ((tokenLeft, [40]) :: ts)
| lexes_right s ts : lexes s ts -> lexes (41 :: s) ((tokenRight, [41]) :: ts)
| lexes_and s ts : lexes s ts -> lexes (38 :: 38 :: s) ((tokenAnd, [38; 38]) :: ts)
| lexes_or s ts : lexes s ts -> lexes (124 :: 124 :: s) ((tokenOr, [124; 124]) :: ts)
| lexes_tag name s ts : name <> [] -> forallb validTagByte name = true -> stops validTagByte s = true ->
    lexes s ts -> lexes (name ++ s) ((tokenTag, name) :: ts)
| lexes_other c s ts : is_blank c = false -> validTagByte c = false -> c <> 33 -> c <> 40 -> c <> 41 ->
    (c = 38 \/ c = 124 -> starts c s = false) -> lexes s ts -> lexes (c :: s) ((tokenInvalid, [c]) :: ts).

(** [&&] binds stronger than [||], both associate to the left. *)
Inductive or_exp : list token -> expression -> Prop :=
| or_one ts e : and_exp ts e -> or_exp ts e
| or_more ts ts' e e' text : or_exp ts e -> and_exp ts' e' -> or_exp (ts ++ (tokenOr, text) :: ts') (binaryExpr e e' true)
with and_exp : list token -> expression -> Prop :=
| and_one ts e : unary_exp ts e -> and_exp ts e
| and_more ts ts' e e' text : and_exp ts e -> unary_exp ts' e' -> and_exp (ts ++ (tokenAnd, text) :: ts') (binaryExpr e e' false)
with unary_exp : list token -> expression -> Prop :=
| unary_tag text : unary_exp [(tokenTag, text)] (tagExpr text)
| unary_not ts e text : unary_exp ts e -> unary_exp ((tokenNot, text) :: ts) (notExpr e)
| unary_paren ts e l r : or_exp ts e -> unary_exp ((tokenLeft, l) :: ts ++ [(tokenRight, r)]) e.

(** ** The lexer *)

(** The tokens that the parser still has to read, the current one included. *)
Fixpoint reads (p : constraintParser) (ts : list token) : Prop :=
  match ts with
  | [] => tok_kind (p_token p) = tokenEOF
  | t :: ts => tok_kind (p_token p) <> tokenEOF /\ t = (tok_kind (p_token p), tok_text (p_token p)) /\ reads (next p) ts
  end.

Lemma span_length_skip f s : exists k, s = k ++ drop (span_length f s) s /\ forallb f k = true /\ span_length f s = length k.
Proof.
  induction s as [|c s (k & E & Hk & Hl)]; [by exists []|]. cbn. destruct (f c) eqn:Hc; [|by exists []].
  exists (c :: k). cbn. rewrite Hc, Hk, Hl. split; [|done]. f_equal. by rewrite <- Hl.
Qed.

Lemma span_length_app f k s : forallb f k = true -> stops f s = true -> span_length f (k ++ s) = length k.
Proof.
  induction k as [|c k IH]; cbn.
  - intros _ Hs. destruct s as [|c s]; [done|]. cbn in *. by destruct (f c).
  - intros [-> Hk]%andb_true_iff Hs. cbn. by rewrite IH.
Qed.

Lemma span_stop f s c rest : drop (span_length f s) s = c :: rest -> f c = false.
Proof. induction s as [|d s IH]; [done|]. cbn. destruct (f d) eqn:Hd; [exact IH|]. intros E. by injection E as -> _. Qed.

(** The parser before a token: what follows the current one. *)
Definition rest_of (p : constraintParser) : gostring := drop (p_offset p) (p_source p).

Lemma lexes_skip k s ts : forallb is_blank k = true -> lexes (k ++ s) ts <-> lexes s ts.
Proof.
  intros Hk. split; [|intros H; induction k as [|c k IH]; [done|]; cbn in Hk; apply andb_true_iff in Hk as [Hc Hk]; by constructor; [|apply IH]].
  induction k as [|c k IH]; [done|]. cbn in Hk. apply andb_true_iff in Hk as [Hc Hk]. cbn. intros H. apply IH; [done|].
  assert (c = 32 \/ c = 9) as Hcc by (unfold is_blank in Hc; breflect; destruct Hc; breflect; auto).
  inversion H as [|? ? ? _ Hs| | | | | |name s' ts' Hne Hv _ _ E|]; subst; try done; try (by destruct Hcc).
  - destruct name as [|d name]; [done|]. cbn in E. injection E as -> _. cbn in Hv. apply andb_true_iff in Hv as [Hv _]. by destruct Hcc as [-> | ->].
  - destruct Hcc as [-> | ->]; done.
Qed.

(** The lexeme that starts at a byte. *)
Definition lex_at (s : gostring) : option (token * gostring) :=
  match s with
  | [] => None
  | c :: rest =>
      Some (if c =? 33 then ((tokenNot, [c]), rest)
      else if c =? 40 then ((tokenLeft, [c]), rest)
      else if c =? 41 then ((tokenRight, [c]), rest)
      else if c =? 38 then (if starts 38 rest then ((tokenAnd, take 2 s), drop 2 s) else ((tokenInvalid, [c]), rest))
      else if c =? 124 then (if starts 124 rest then ((tokenOr, take 2 s), drop 2 s) else ((tokenInvalid, [c]), rest))
      else match span_length validTagByte (c :: rest) with
           | O => ((tokenInvalid, [c]), rest)
           | n => ((tokenTag, take n s), drop n s)
           end)
  end.

Lemma next_lex p :
  p_source (next p) = p_source p /\ p_base (next p) = p_base p /\
  match lex_at (drop (span_length is_blank (rest_of p)) (rest_of p)) with
  | None => tok_kind (p_token (next p)) = tokenEOF
  | Some (t, s) => tok_kind (p_token (next p)) <> tokenEOF /\ (tok_kind (p_token (next p)), tok_text (p_token (next p))) = t /\ rest_of (next p) = s
  end.
Proof.
  unfold next, rest_of. set (start := (p_offset p + _)%nat). rewrite drop_drop. change (p_offset p + span_length is_blank (drop (p_offset p) (p_source p)))%nat with start.
  destruct (drop start (p_source p)) as [|c rest] eqn:E; [done|]. unfold lex_at.
  repeat case_match; unfold lexeme; cbn [p_source p_base p_token tok_kind tok_text p_offset]; rewrite <- ?drop_drop, E; simplify_eq; done.
Qed.

Lemma lex_at_lexes c s ts : is_blank c = false ->
  lexes (c :: s) ts <-> exists t s' ts', lex_at (c :: s) = Some (t, s') /\ ts = t :: ts' /\ lexes s' ts'.
Proof.
  intros Hb. split.
  - intros H. inversion H as [|? ? ? Hc|s0 ts0 Hs|s0 ts0 Hs|s0 ts0 Hs|s0 ts0 Hs|s0 ts0 Hs|name s0 ts0 Hne Hv Hst Hs E|? ? ts0 _ Hv H1 H2 H3 H4 Hs]; subst; try congruence.
    1-5: by eexists _, _, ts0.
    + exists (tokenTag, name), s0, ts0. split; [|done]. destruct name as [|d name]; [done|]. cbn in E. injection E as -> <-. assert (span_length validTagByte (c :: name ++ s0) = S (length name)) as El by exact (span_length_app _ (c :: name) s0 Hv Hst).
      cbn in Hv. apply andb_true_iff in Hv as [Hv _]. change (lex_at (c :: name ++ s0) = Some (tokenTag, c :: name, s0)). unfold lex_at. rewrite El.
      repeat match goal with |- context [if (c =? ?k) then _ else _] => destruct (Z.eqb_spec c k) as [ ->|_]; [done|] end.
      cbn [take drop]. by rewrite take_app_length, drop_app_length.
    + exists (tokenInvalid, [c]), s, ts0. split; [|done]. unfold lex_at. rewrite (proj2 (Z.eqb_neq _ _) H1), (proj2 (Z.eqb_neq _ _) H2), (proj2 (Z.eqb_neq _ _) H3).
      cbn [span_length]. rewrite Hv. destruct (Z.eqb_spec c 38) as [ ->|_]; [by rewrite H4 by auto|]. destruct (Z.eqb_spec c 124) as [ ->|_]; [by rewrite H4 by auto|]. done.
  - intros (t & s' & ts' & E & -> & Hs). unfold lex_at in E.
    destruct (Z.eqb_spec c 33) as [ ->|H1]; [simplify_eq; by constructor|]. destruct (Z.eqb_spec c 40) as [ ->|H2]; [simplify_eq; by constructor|].
    destruct (Z.eqb_spec c 41) as [ ->|H3]; [simplify_eq; by constructor|].
    destruct (Z.eqb_spec c 38) as [ ->|H4]; [|destruct (Z.eqb_spec c 124) as [ ->|H5]].
    1-2: destruct s as [|d s]; cbn [starts] in E; [simplify_eq; constructor; try done; by intros _|].
    1: destruct (Z.eqb_spec d 38) as [ ->|Hd]; simplify_eq; [by constructor|]. 
    2: destruct (Z.eqb_spec d 124) as [ ->|Hd]; simplify_eq; [by constructor|].
    1-2: constructor; try done; intros _; by apply Z.eqb_neq.
    destruct (validTagByte c) eqn:Hv.
    + cbn [span_length] in E. rewrite Hv in E. injection E as <- <-. destruct (span_length_skip validTagByte s) as (k & Ek & Hk & El). rewrite El in *. cbn [take drop] in *.
      assert (c :: s = (c :: take (length k) s) ++ drop (length k) s) as -> by (cbn; by rewrite take_drop).
      assert (take (length k) s = k) as Et by (rewrite Ek; by apply take_app_length').
      apply lexes_tag; [done| | |done]; [cbn; by rewrite Hv, Et|]. unfold stops. destruct (drop (length k) s) as [|d rest] eqn:Ed; [done|]. apply negb_true_iff. eapply span_stop. by rewrite El.
    + cbn [span_length] in E. rewrite Hv in E. injection E as <- <-. apply lexes_other; try done. intros [?|?]; done.
Qed.

Lemma lexes_blanks s ts : lexes s ts <-> lexes (drop (span_length is_blank s) s) ts.
Proof. destruct (span_length_skip is_blank s) as (k & E & Hk & _). rewrite E at 1. by apply lexes_skip. Qed.

(** Reading with [next] is lexing. *)
Lemma reads_lexes p ts : reads (next p) ts <-> lexes (rest_of p) ts.
Proof.
  revert p. induction ts as [|t ts IH]; intros p; destruct (next_lex p) as (_ & _ & H); rewrite lexes_blanks.
  - destruct (drop _ (rest_of p)) as [|c s] eqn:Ed; [split; [constructor|done]|]. pose proof (span_stop _ _ _ _ Ed) as Hb. rewrite (lex_at_lexes _ _ _ Hb). cbn [reads]. split.
    + intros E. destruct (lex_at (c :: s)) as [[]|] eqn:El; [by destruct H|done].
    + intros (t & s' & ts' & _ & ? & _). done.
  - destruct (drop _ (rest_of p)) as [|c s] eqn:Ed.
    + cbn [lex_at] in H. cbn [reads]. split; [intros [? _]; done|]. intros Hl. inversion Hl. by destruct name.
    + pose proof (span_stop _ _ _ _ Ed) as Hb. rewrite (lex_at_lexes _ _ _ Hb). destruct (lex_at (c :: s)) as [[t0 s0]|] eqn:El; [|done]. destruct H as (H1 & H2 & H3). cbn [reads]. rewrite IH, H2, H3. split.
      * intros (_ & -> & Hs). by eexists _, _, _.
      * intros (t' & s' & ts' & E & E' & Hs). by simplify_eq.
Qed.

Lemma lex_at_shrinks s t s' : lex_at s = Some (t, s') -> (length s' < length s)%nat.
Proof.
  unfold lex_at. destruct s as [|c rest]; [done|]. intros E. repeat case_match; simplify_eq; cbn [length]; rewrite ?length_drop; cbn [length]; try lia.
Qed.

(** Every parser state has tokens to read. *)
Lemma reads_total p : exists ts, reads (next p) ts /\ (length ts <= length (rest_of p))%nat.
Proof.
  remember (length (rest_of p)) as n eqn:En. revert p En. induction n as [n IH] using lt_wf_ind. intros p ->. destruct (next_lex p) as (_ & _ & H).
  pose proof (length_drop (rest_of p) (span_length is_blank (rest_of p))) as Hd. destruct (lex_at _) as [[t s]|] eqn:El; [|exists []; split; [done|cbn; lia]].
  apply lex_at_shrinks in El. destruct H as (H1 & H2 & H3). destruct (IH (length (rest_of (next p))) ltac:(rewrite H3; lia) (next p) eq_refl) as (ts & Hts & Hlen).
  exists (t :: ts). split; [by cbn [reads]|]. cbn [length]. rewrite H3 in Hlen. lia.
Qed.

(** ** The parser accepts the grammar only, and ends *)

(** A parser that has read a prefix of the tokens, or stopped at an error of the text. *)
Definition outcome (good : list token -> expression -> Prop) (ts : list token) (r : result target_error (expression * constraintParser)) : Prop :=
  match r with
  | Ok (e, p) => exists pre rest, ts = pre ++ rest /\ good pre e /\ reads p rest
  | Err err => exists offset message, err = ConstraintError offset message
  end.

Lemma outcome_bind good good' ts (m : result target_error (expression * constraintParser)) k :
  outcome good ts m ->
  (forall e p pre rest, ts = pre ++ rest -> good pre e -> reads p rest -> outcome (fun post => good' (pre ++ post)) rest (k (e, p))) ->
  outcome good' ts (result_bind m k).
Proof.
  intros Hm Hk. destruct m as [[e p]|err]; [|exact Hm]. destruct Hm as (pre & rest & -> & Hg & Hp). specialize (Hk e p pre rest eq_refl Hg Hp). cbn [result_bind].
  destruct (k (e, p)) as [[e' p']|err]; [|exact Hk]. destruct Hk as (post & rest' & -> & Hg' & Hp'). exists (pre ++ post), rest'. by rewrite <- app_assoc.
Qed.

Lemma outcome_mono (good good' : list token -> expression -> Prop) ts r : (forall l e, good l e -> good' l e) -> outcome good ts r -> outcome good' ts r.
Proof. intros Hg. destruct r as [[e p]|err]; [|done]. intros (pre & rest & -> & H & Hp). exists pre, rest. auto. Qed.

Lemma reads_at p ts k : reads p ts -> at_kind p k = true -> k <> tokenEOF -> exists text ts', ts = (k, text) :: ts' /\ text = tok_text (p_token p) /\ reads (next p) ts'.
Proof.
  unfold at_kind. intros Hr Hk%bool_decide_eq_true Hne. destruct ts as [|t ts]; [cbn in Hr; congruence|]. destruct Hr as (_ & -> & Hr). exists (tok_text (p_token p)), ts. by rewrite Hk.
Qed.

(** A proper prefix has been read. *)
Lemma unary_nonempty ts e : unary_exp ts e -> ts <> [].
Proof. by destruct 1. Qed.

Lemma and_nonempty ts e : and_exp ts e -> ts <> [].
Proof. destruct 1 as [ts e H|ts ts' e e' text _ _]; [by eapply unary_nonempty|by destruct ts]. Qed.

Lemma prefix_shorter {A} (ts pre rest : list A) : ts = pre ++ rest -> pre <> [] -> (length rest < length ts)%nat.
Proof. intros -> H. rewrite length_app. destruct pre; [done|cbn; lia]. Qed.

Lemma parser_sound fuel : forall p ts, reads p ts ->
  ((3 * length ts + 3 <= fuel)%nat -> outcome or_exp ts (parseOr fuel p)) /\
  (forall e pre, (3 * length ts + 1 <= fuel)%nat -> or_exp pre e -> outcome (fun post => or_exp (pre ++ post)) ts (or_loop fuel e p)) /\
  ((3 * length ts + 2 <= fuel)%nat -> outcome and_exp ts (parseAnd fuel p)) /\
  (forall e pre, (3 * length ts + 1 <= fuel)%nat -> and_exp pre e -> outcome (fun post => and_exp (pre ++ post)) ts (and_loop fuel e p)) /\
  ((3 * length ts + 1 <= fuel)%nat -> outcome unary_exp ts (parseUnary fuel p)).
Proof.
  induction fuel as [|fuel IH]; intros p ts Hr; [split_and!; intros; lia|]. split_and!.
  - intros Hf. cbn [parseOr]. eapply outcome_bind; [apply (IH p ts Hr); lia|]. intros e p' pre rest E Hg Hp. cbn [fst snd].
    pose proof (prefix_shorter _ _ _ E (and_nonempty _ _ Hg)). apply (IH p' rest Hp); [lia|by constructor].
  - intros e pre Hf Hg. cbn [or_loop]. destruct (at_kind p tokenOr) eqn:Hk; [|exists [], ts; by rewrite app_nil_r].
    destruct (reads_at p ts _ Hr Hk) as (text & ts' & -> & _ & Hn); [done|]. cbn [length] in Hf.
    assert (outcome (fun post => or_exp (pre ++ (tokenOr, text) :: post)) ts' (let? r := parseAnd fuel (next p) in or_loop fuel (binaryExpr e (fst r) true) (snd r))) as Ho.
    { eapply outcome_bind; [apply (IH (next p) ts' Hn); lia|]. intros e' p' pre' rest E Hg' Hp. cbn [fst snd]. pose proof (prefix_shorter _ _ _ E (and_nonempty _ _ Hg')).
      destruct (IH p' rest Hp) as (_ & Hl & _). eapply outcome_mono; [|exact (Hl _ _ ltac:(lia) (or_more _ _ _ _ text Hg Hg'))]. intros l x. cbn. by rewrite <- app_assoc. }
    destruct (let? r := parseAnd fuel (next p) in _) as [[x q]|]; [|done]. destruct Ho as (pre' & rest & -> & Hx & Hq). by exists ((tokenOr, text) :: pre'), rest.
  - intros Hf. cbn [parseAnd]. eapply outcome_bind; [apply (IH p ts Hr); lia|]. intros e p' pre rest E Hg Hp. cbn [fst snd].
    pose proof (prefix_shorter _ _ _ E (unary_nonempty _ _ Hg)). apply (IH p' rest Hp); [lia|by constructor].
  - intros e pre Hf Hg. cbn [and_loop]. destruct (at_kind p tokenAnd) eqn:Hk; [|exists [], ts; by rewrite app_nil_r].
    destruct (reads_at p ts _ Hr Hk) as (text & ts' & -> & _ & Hn); [done|]. cbn [length] in Hf.
    assert (outcome (fun post => and_exp (pre ++ (tokenAnd, text) :: post)) ts' (let? r := parseUnary fuel (next p) in and_loop fuel (binaryExpr e (fst r) false) (snd r))) as Ho.
    { eapply outcome_bind; [apply (IH (next p) ts' Hn); lia|]. intros e' p' pre' rest E Hg' Hp. cbn [fst snd]. pose proof (prefix_shorter _ _ _ E (unary_nonempty _ _ Hg')).
      destruct (IH p' rest Hp) as (_ & _ & _ & Hl & _). eapply outcome_mono; [|exact (Hl _ _ ltac:(lia) (and_more _ _ _ _ text Hg Hg'))]. intros l x. cbn. by rewrite <- app_assoc. }
    destruct (let? r := parseUnary fuel (next p) in _) as [[x q]|]; [|done]. destruct Ho as (pre' & rest & -> & Hx & Hq). by exists ((tokenAnd, text) :: pre'), rest.
  - intros Hf. cbn [parseUnary]. destruct (at_kind p tokenNot) eqn:H1.
    { destruct (reads_at p ts _ Hr H1) as (text & ts' & -> & _ & Hn); [done|]. cbn [length] in Hf. destruct (IH (next p) ts' Hn) as (_ & _ & _ & _ & Hu). specialize (Hu ltac:(lia)).
      destruct (parseUnary fuel (next p)) as [[e q]|]; [|done]. destruct Hu as (pre & rest & -> & Hg & Hq). exists ((tokenNot, text) :: pre), rest. by split_and!; [|constructor|]. }
    destruct (at_kind p tokenTag) eqn:H2.
    { destruct (reads_at p ts _ Hr H2) as (text & ts' & -> & -> & Hn); [done|]. exists [(tokenTag, tok_text (p_token p))], ts'. by split_and!; [|constructor|]. }
    destruct (at_kind p tokenLeft) eqn:H3; [|destruct (at_kind p tokenEOF); by eexists _, _].
    destruct (reads_at p ts _ Hr H3) as (text & ts' & -> & _ & Hn); [done|]. cbn [length] in Hf. destruct (IH (next p) ts' Hn) as (Ho & _). specialize (Ho ltac:(lia)).
    destruct (parseOr fuel (next p)) as [[e q]|]; [|done]. destruct Ho as (pre & rest & -> & Hg & Hq). cbn [result_bind fst snd].
    destruct (at_kind q tokenRight) eqn:H4; [|by eexists _, _]. destruct (reads_at q rest _ Hq H4) as (text' & rest' & -> & _ & Hn'); [done|]. cbn [negb].
    exists ((tokenLeft, text) :: pre ++ [(tokenRight, text')]), rest'. cbn. rewrite <- app_assoc. by split_and!; [|constructor|].
Qed.

(** ** More fuel gives the same result *)

Definition settled {A} (r : result target_error A) : Prop := r <> Err OutOfFuel.

Lemma settled_bind {A B} (m m' : result target_error A) (k k' : A -> result target_error B) :
  (settled m -> m' = m) -> (forall x, settled (k x) -> k' x = k x) -> settled (result_bind m k) -> result_bind m' k' = result_bind m k.
Proof.
  intros Hm Hk Hs. destruct m as [x|err]; cbn [result_bind] in Hs; [|rewrite Hm; [done|]; intros E; apply Hs; by injection E as ->]. rewrite Hm by done. cbn [result_bind]. by apply Hk.
Qed.

Lemma fuel_step fuel :
  (forall p, settled (parseOr fuel p) -> parseOr (S fuel) p = parseOr fuel p) /\
  (forall e p, settled (or_loop fuel e p) -> or_loop (S fuel) e p = or_loop fuel e p) /\
  (forall p, settled (parseAnd fuel p) -> parseAnd (S fuel) p = parseAnd fuel p) /\
  (forall e p, settled (and_loop fuel e p) -> and_loop (S fuel) e p = and_loop fuel e p) /\
  (forall p, settled (parseUnary fuel p) -> parseUnary (S fuel) p = parseUnary fuel p).
Proof.
  induction fuel as [|fuel (I1 & I2 & I3 & I4 & I5)]; [by split_and!|]. split_and!.
  - intros p. change (parseOr (S (S fuel)) p) with (let? l := parseAnd (S fuel) p in or_loop (S fuel) (fst l) (snd l)). cbn [parseOr]. apply settled_bind; [apply I3|intros x; apply I2].
  - intros e p. change (or_loop (S (S fuel)) e p) with (if at_kind p tokenOr then let? r := parseAnd (S fuel) (next p) in or_loop (S fuel) (binaryExpr e (fst r) true) (snd r) else Ok (e, p)).
    cbn [or_loop]. destruct (at_kind p tokenOr); [apply settled_bind; [apply I3|intros x; apply I2]|done].
  - intros p. change (parseAnd (S (S fuel)) p) with (let? l := parseUnary (S fuel) p in and_loop (S fuel) (fst l) (snd l)). cbn [parseAnd]. apply settled_bind; [apply I5|intros x; apply I4].
  - intros e p. change (and_loop (S (S fuel)) e p) with (if at_kind p tokenAnd then let? r := parseUnary (S fuel) (next p) in and_loop (S fuel) (binaryExpr e (fst r) false) (snd r) else Ok (e, p)).
    cbn [and_loop]. destruct (at_kind p tokenAnd); [apply settled_bind; [apply I5|intros x; apply I4]|done].
  - intros p Hs. cbn [parseUnary] in Hs. change (parseUnary (S (S fuel)) p) with
      (if at_kind p tokenNot then let? v := parseUnary (S fuel) (next p) in Ok (notExpr (fst v), snd v)
       else if at_kind p tokenTag then Ok (tagExpr (tok_text (p_token p)), next p)
       else if at_kind p tokenLeft then let? v := parseOr (S fuel) (next p) in if negb (at_kind (snd v) tokenRight) then parser_error (snd v) MissingClose else Ok (fst v, next (snd v))
       else if at_kind p tokenEOF then parser_error p ExpectedExpression else parser_error p ExpectedTag).
    cbn [parseUnary]. destruct (at_kind p tokenNot); [by apply settled_bind; [apply I5|..]|]. destruct (at_kind p tokenTag); [done|]. destruct (at_kind p tokenLeft); [by apply settled_bind; [apply I1|..]|done].
Qed.

Lemma parseOr_more fuel fuel' p : (fuel <= fuel')%nat -> settled (parseOr fuel p) -> parseOr fuel' p = parseOr fuel p.
Proof.
  induction 1 as [|fuel' _ IH]; [done|]. intros Hs. specialize (IH Hs). destruct (fuel_step fuel') as (H & _). by rewrite H; rewrite IH.
Qed.

(** ** The parser accepts the whole grammar *)

Definition eventually (P : nat -> Prop) : Prop := exists f0, forall f, (f0 <= f)%nat -> P f.

Lemma eventually_S P : eventually (fun f => P f) -> eventually (fun f => match f with O => False | S f => P f end).
Proof. intros [f0 H]. exists (S f0). intros [|f] Hf; [lia|]. apply H. lia. Qed.

Lemma eventually_bind {A B} (m : nat -> result target_error A) (k : nat -> A -> result target_error B) x r (g : nat -> result target_error B) :
  (forall f, g (S f) = result_bind (m f) (k f)) -> eventually (fun f => m f = Ok x) -> eventually (fun f => k f x = r) -> eventually (fun f => g f = r).
Proof. intros Hg [f1 H1] [f2 H2]. exists (S (max f1 f2)). intros [|f] Hf; [lia|]. rewrite Hg, H1 by lia. apply H2. lia. Qed.

Scheme or_exp_ind' := Minimality for or_exp Sort Prop
with and_exp_ind' := Minimality for and_exp Sort Prop
with unary_exp_ind' := Minimality for unary_exp Sort Prop.
Combined Scheme exp_ind from or_exp_ind', and_exp_ind', unary_exp_ind'.

Definition begins (k : token_kind) (ts : list token) : Prop := exists text ts', ts = (k, text) :: ts'.

Lemma at_kind_begins p ts k : k <> tokenEOF -> reads p ts -> at_kind p k = true <-> begins k ts.
Proof.
  intros Hne Hr. split; [intros Hk; destruct (reads_at p ts k Hr Hk Hne) as (text & ts' & -> & _); by eexists _, _|].
  intros (text & ts' & ->). destruct Hr as (_ & E & _). injection E as -> _. unfold at_kind. by apply bool_decide_eq_true.
Qed.

Lemma at_kind_not p ts k : k <> tokenEOF -> reads p ts -> ~ begins k ts -> at_kind p k = false.
Proof. intros Hne Hr Hn. apply not_true_is_false. by rewrite (at_kind_begins p ts k Hne Hr). Qed.

Lemma reads_tail p t ts : reads p (t :: ts) -> reads (next p) ts.
Proof. by intros (_ & _ & H). Qed.

(** What is left of the parse when a phrase of the grammar has been read. *)
Definition or_done (e : expression) (p p' : constraintParser) : Prop :=
  forall r, eventually (fun f => or_loop f e p' = r) -> eventually (fun f => parseOr f p = r).

Definition and_done (e : expression) (p p' : constraintParser) : Prop :=
  forall r, eventually (fun f => and_loop f e p' = r) -> eventually (fun f => parseAnd f p = r).

Definition unary_done (e : expression) (p p' : constraintParser) : Prop := eventually (fun f => parseUnary f p = Ok (e, p')).

Lemma and_finished e p p' rest : and_done e p p' -> reads p' rest -> ~ begins tokenAnd rest -> eventually (fun f => parseAnd f p = Ok (e, p')).
Proof. intros H Hr Hn. apply H. exists 1%nat. intros [|f] Hf; [lia|]. cbn [and_loop]. by rewrite (at_kind_not p' rest) by done. Qed.

Lemma or_finished e p p' rest : or_done e p p' -> reads p' rest -> ~ begins tokenOr rest -> eventually (fun f => parseOr f p = Ok (e, p')).
Proof. intros H Hr Hn. apply H. exists 1%nat. intros [|f] Hf; [lia|]. cbn [or_loop]. by rewrite (at_kind_not p' rest) by done. Qed.

Lemma other_begins k k' text ts : k <> k' -> ~ begins k ((k', text) :: ts).
Proof. intros H (t & ts' & E). congruence. Qed.

Lemma parser_complete :
  (forall ts e, or_exp ts e -> forall p rest, reads p (ts ++ rest) -> ~ begins tokenAnd rest -> exists p', reads p' rest /\ or_done e p p') /\
  (forall ts e, and_exp ts e -> forall p rest, reads p (ts ++ rest) -> exists p', reads p' rest /\ and_done e p p') /\
  (forall ts e, unary_exp ts e -> forall p rest, reads p (ts ++ rest) -> exists p', reads p' rest /\ unary_done e p p').
Proof.
  apply exp_ind.
  - intros ts e _ IH p rest Hr Hn. destruct (IH p rest Hr) as (p' & Hp' & Hd). exists p'. split; [done|]. intros r Hl.
    eapply eventually_bind; [intros f; reflexivity|by eapply and_finished|exact Hl].
  - intros ts ts' e e' text _ IH1 _ IH2 p rest Hr Hn. rewrite <- app_assoc in Hr. destruct (IH1 p _ Hr) as (p1 & Hp1 & Hd1); [by apply other_begins|].
    destruct (IH2 (next p1) rest (reads_tail _ _ _ Hp1)) as (p' & Hp' & Hd2). exists p'. split; [done|]. intros r Hl. apply Hd1.
    assert (at_kind p1 tokenOr = true) as Hk by (eapply at_kind_begins; [done|exact Hp1|by eexists _, _]).
    eapply (eventually_bind _ _ _ r); [intros f; cbn [or_loop]; rewrite Hk; reflexivity|by eapply and_finished|exact Hl].
  - intros ts e _ IH p rest Hr. destruct (IH p rest Hr) as (p' & Hp' & Hd). exists p'. split; [done|]. intros r Hl.
    eapply eventually_bind; [intros f; reflexivity|exact Hd|exact Hl].
  - intros ts ts' e e' text _ IH1 _ IH2 p rest Hr. rewrite <- app_assoc in Hr. destruct (IH1 p _ Hr) as (p1 & Hp1 & Hd1).
    destruct (IH2 (next p1) rest (reads_tail _ _ _ Hp1)) as (p' & Hp' & Hd2). exists p'. split; [done|]. intros r Hl. apply Hd1.
    assert (at_kind p1 tokenAnd = true) as Hk by (eapply at_kind_begins; [done|exact Hp1|by eexists _, _]).
    eapply (eventually_bind _ _ _ r); [intros f; cbn [and_loop]; rewrite Hk; reflexivity|exact Hd2|exact Hl].
  - intros text p rest Hr. exists (next p). split; [by eapply reads_tail|]. exists 1%nat. intros [|f] Hf; [lia|]. cbn [parseUnary]. destruct Hr as (_ & E & _). injection E as Ek ->.
    unfold at_kind. rewrite <- Ek. done.
  - intros ts e text _ IH p rest Hr. destruct (IH (next p) rest (reads_tail _ _ _ Hr)) as (p' & Hp' & Hd). exists p'. split; [done|].
    assert (at_kind p tokenNot = true) as Hk by (eapply at_kind_begins; [done|exact Hr|by eexists _, _]).
    eapply (eventually_bind _ (fun f v => Ok (notExpr (fst v), snd v)) (e, p')); [intros f; cbn [parseUnary]; rewrite Hk; reflexivity|exact Hd|]. by exists O.
  - intros ts e l r _ IH p rest Hr. change (reads p ((tokenLeft, l) :: (ts ++ [(tokenRight, r)]) ++ rest)) in Hr. rewrite <- app_assoc in Hr. pose proof (reads_tail _ _ _ Hr) as Hn.
    destruct (IH (next p) _ Hn) as (p1 & Hp1 & Hd); [by apply other_begins|]. exists (next p1). split; [by eapply reads_tail|].
    assert (at_kind p tokenLeft = true) as Hk by (eapply at_kind_begins; [done|exact Hr|by eexists _, _]).
    assert (at_kind p1 tokenRight = true) as Hk1 by (eapply at_kind_begins; [done|exact Hp1|by eexists _, _]).
    eapply (eventually_bind _ (fun f v => if negb (at_kind (snd v) tokenRight) then parser_error (snd v) MissingClose else Ok (fst v, next (snd v))) (e, p1));
      [intros f; cbn [parseUnary]; rewrite (at_kind_not p _ tokenNot ltac:(done) Hr), (at_kind_not p _ tokenTag ltac:(done) Hr), Hk by (by apply other_begins); reflexivity| |].
    + eapply or_finished; [exact Hd|exact Hp1|by apply other_begins].
    + exists O. intros f _. cbn [snd fst]. by rewrite Hk1.
Qed.

(** ** Expressions *)

Definition begin_parse (e : sourceExpression) : constraintParser := mkParser (se_text e) (se_offset e) 0 (mkToken tokenInvalid [] 0).

(** The text of every expression has tokens, and the parse is a function of them. *)
Lemma parse_expression_spec e ts : lexes (se_text e) ts ->
  (forall x, parse_expression e = Ok x <-> or_exp ts x) /\
  ((forall x, ~ or_exp ts x) -> exists offset message, parse_expression e = Err (ConstraintError offset message)).
Proof.
  intros Hl. assert (reads (next (begin_parse e)) ts) as Hr by (apply reads_lexes; exact Hl).
  assert (3 * length ts + 3 <= parse_fuel (se_text e))%nat as Hf.
  { destruct (reads_total (begin_parse e)) as (ts' & Hr' & Hlen). assert (ts' = ts) as ->; [|unfold parse_fuel; change (rest_of (begin_parse e)) with (se_text e) in Hlen; lia].
    clear -Hr Hr'. revert Hr Hr'. generalize (next (begin_parse e)). revert ts. induction ts' as [|t' ts' IH]; intros [|t ts] p Hr Hr'; cbn in *; [done|by destruct Hr|by destruct Hr'|].
    destruct Hr as (_ & -> & Hr), Hr' as (_ & -> & Hr'). f_equal. by eapply IH. }
  destruct (parser_sound (parse_fuel (se_text e)) _ _ Hr) as (Ho & _). specialize (Ho Hf). unfold parse_expression. fold (begin_parse e).
  assert (forall x, or_exp ts x -> exists p', parseOr (parse_fuel (se_text e)) (next (begin_parse e)) = Ok (x, p') /\ reads p' []) as Hc.
  { intros x Hx. destruct parser_complete as (Hc & _). destruct (Hc ts x Hx (next (begin_parse e)) []) as (p' & Hp' & Hd); [by rewrite app_nil_r|by intros (? & ? & ?)|].
    destruct (or_finished _ _ _ _ Hd Hp') as [f0 Hf0]; [by intros (? & ? & ?)|]. exists p'. split; [|done].
    pose proof (Hf0 (max f0 (parse_fuel (se_text e))) ltac:(lia)) as E. rewrite <- E. symmetry. apply parseOr_more; [lia|]. unfold settled. intros Ee. rewrite Ee in Ho. by destruct Ho as (? & ? & ?). }
  destruct (parseOr _ _) as [[x' p']|err] eqn:Ep; cbn [result_bind fst snd].
  - destruct Ho as (pre & rest & -> & Hx & Hp). destruct (at_kind p' tokenEOF) eqn:Hk; cbn [negb].
    + assert (rest = []) as ->. { destruct rest as [|t rest]; [done|]. destruct Hp as (Hne & _). by apply bool_decide_eq_true in Hk. } rewrite app_nil_r in *. split; [|intros Hn; by destruct (Hn x')].
      intros x. split; [intros E; by injection E as <-|]. intros (q & E & _)%Hc. by injection E as -> _.
    + assert (forall x, ~ or_exp (pre ++ rest) x) as Hn. { intros x (q & E & Hq)%Hc. injection E as -> ->. unfold at_kind in Hk. apply bool_decide_eq_false in Hk. done. }
      split; [|by eexists _, _]. intros x. split; [done|intros Hx'; by destruct (Hn x)].
  - destruct Ho as (o & m & ->). split; [|by eexists _, _]. intros x. split; [done|]. by intros (q & E & _)%Hc.
Qed.

Lemma lexes_total s : exists ts, lexes s ts.
Proof.
  destruct (reads_total (begin_parse (mkSource s 0))) as (ts & Hr & _). exists ts. by apply reads_lexes in Hr.
Qed.

(** ** The leading comments of a source *)

Definition header_space (c : Z) : bool := is_space c || (c =? 10).

(** The end of a line: the end of the source or a newline. *)
Definition line_break (s : gostring) : Prop := match s with [] => True | c :: _ => c = 10 end.

Definition block_end : gostring := lit "*/".

(** The texts of the directives among the blanks and comments that lead a source. *)
Inductive header : gostring -> list gostring -> Prop :=
| header_end s : stops header_space s = true -> HasPrefix s (lit "/*") = false -> HasPrefix s (lit "//") = false -> header s []
| header_blank c s ds : header_space c = true -> header s ds -> header (c :: s) ds
| header_block body s ds : strings_Index (body ++ block_end ++ s) block_end = Some (length body) -> header s ds -> header (lit "/*" ++ body ++ block_end ++ s) ds
| header_open body : strings_Index body block_end = None -> header (lit "/*" ++ body) []
| header_line body s ds : 10 ∉ body -> line_break s -> header s ds ->
    header (lit "//" ++ body ++ s) (if is_directive (lit "//" ++ body) then drop 10 (lit "//" ++ body) :: ds else ds).

(** At most one directive, and not an empty one. *)
Fixpoint choose (text : gostring) (ds : list gostring) : result constraint_message gostring :=
  match ds with
  | [] => Ok text
  | d :: ds => if negb (bool_decide (text = [])) then Err MultipleDirectives else if bool_decide (TrimSpace d = []) then Err EmptyExpression else choose (TrimSpace d) ds
  end.

Definition agrees (r : result target_error sourceExpression) (c : result constraint_message gostring) : Prop :=
  match c with
  | Ok text => exists offset, r = Ok (mkSource text offset)
  | Err m => exists offset, r = Err (ConstraintError offset m)
  end.

(** *** Lines *)

Definition line_at (source : gostring) (offset : nat) : gostring :=
  let rest := drop offset source in take (match IndexByte rest 10 with Some i => i | None => length rest end) rest.

(** The walk from a position inside a line on. *)
Definition resume (f1 f2 : nat) (source : gostring) (offset cursor : nat) (blk : bool) (found : sourceExpression) : result target_error sourceExpression :=
  let? e := scan_line f2 (line_at source offset) offset cursor blk found in
  match e with
  | Return found => Ok found
  | Break blk found =>
      let offset := (offset + length (line_at source offset))%nat in
      scan_lines f1 source (if bool_decide (source !! offset = Some 10) then S offset else offset) blk found
  end.

Lemma IndexByte_none s c : c ∉ s -> IndexByte s c = None.
Proof. induction s as [|x s IH]; [done|]. cbn. rewrite not_elem_of_cons. intros [Hx Hs]. rewrite (proj2 (Z.eqb_neq _ _)) by done. by rewrite IH. Qed.

Lemma IndexByte_first s c t : c ∉ s -> IndexByte (s ++ c :: t) c = Some (length s).
Proof. induction s as [|x s IH]; [cbn; by rewrite Z.eqb_refl|]. cbn. rewrite not_elem_of_cons. intros [Hx Hs]. rewrite (proj2 (Z.eqb_neq _ _)) by done. by rewrite IH. Qed.

Lemma line_at_app pre line tail : 10 ∉ line -> line_break tail -> line_at (pre ++ line ++ tail) (length pre) = line.
Proof.
  intros Hl Ht. unfold line_at. rewrite drop_app_length. destruct tail as [|c tail]; cbn in Ht.
  - rewrite app_nil_r, IndexByte_none by done. by rewrite take_ge.
  - subst c. rewrite IndexByte_first by done. apply take_app_length.
Qed.

Lemma scan_lines_resume f1 source offset blk found :
  scan_lines (S f1) source offset blk found = if (offset <? length source)%nat then resume f1 (S (length (line_at source offset))) source offset 0 blk found else Ok found.
Proof.
  cbn [scan_lines]. destruct (offset <? length source)%nat; [|done]. unfold resume, line_at. cbn zeta. do 2 f_equal. set (rest := drop offset source).
  assert (length (take (match IndexByte rest 10 with Some i => i | None => length rest end) rest) = match IndexByte rest 10 with Some i => i | None => length rest end) as ->; [|done].
  rewrite length_take. destruct (IndexByte rest 10) as [i|] eqn:E; [|lia]. enough (i < length rest)%nat by lia. clear -E. revert i E. induction rest as [|x rest IH]; intros i E; [done|]. cbn in *.
  destruct (x =? 10); [injection E as <-; lia|]. destruct (IndexByte rest 10) as [j|]; [|done]. cbn in E. injection E as <-. specialize (IH j eq_refl). lia.
Qed.

Lemma split_line s : exists line tail, s = line ++ tail /\ (10 ∉ line) /\ line_break tail.
Proof.
  induction s as [|c s (line & tail & -> & Hl & Ht)]; [exists [], []; split_and!; [done|apply not_elem_of_nil|done]|]. destruct (decide (c = 10)) as [->|Hc].
  - exists [], (10 :: line ++ tail). split_and!; [done|apply not_elem_of_nil|done].
  - exists (c :: line), tail. split_and!; [done| |done]. apply not_elem_of_cons. auto.
Qed.

Lemma split_line_unique line line' tail tail' :
  line ++ tail = line' ++ tail' -> 10 ∉ line -> 10 ∉ line' -> line_break tail -> line_break tail' -> line = line' /\ tail = tail'.
Proof.
  revert line'. induction line as [|c line IH]; intros [|c' line'] E Hl Hl' Ht Ht'; cbn in *; [done| | |].
  - subst tail. cbn in Ht. subst c'. destruct Hl'. by left.
  - subst tail'. cbn in Ht'. subst c. destruct Hl. by left.
  - injection E as -> E. apply not_elem_of_cons in Hl as [_ Hl], Hl' as [_ Hl']. destruct (IH line' E) as [-> ->]; done.
Qed.

(** The walk goes on with the next line. *)
Definition next_line (f1 : nat) (pre line tail : gostring) (blk : bool) (found : sourceExpression) : result target_error sourceExpression :=
  match tail with
  | [] => Ok found
  | _ :: tail => scan_lines f1 (pre ++ line ++ 10 :: tail) (length (pre ++ line ++ [10])) blk found
  end.

Lemma resume_app f1 f2 pre line tail cursor blk found :
  10 ∉ line -> line_break tail -> (1 <= f1)%nat ->
  resume f1 f2 (pre ++ line ++ tail) (length pre) cursor blk found =
  (let? e := scan_line f2 line (length pre) cursor blk found in
   match e with Return found => Ok found | Break blk found => next_line f1 pre line tail blk found end).
Proof.
  intros Hl Ht Hf. unfold resume. rewrite line_at_app by done. destruct (scan_line _ _ _ _ _ _) as [[blk' found'|found']|]; [|done|done]. cbn [result_bind]. unfold next_line.
  destruct tail as [|c tail]; cbn in Ht.
  - rewrite app_nil_r. rewrite bool_decide_false by (rewrite lookup_ge_None_2 by (rewrite length_app; lia); done). destruct f1 as [|f1]; [cbn in Hf; lia|]. cbn [scan_lines].
    rewrite length_app, Nat.ltb_irrefl. done.
  - subst c. rewrite bool_decide_true by (rewrite lookup_app_r, lookup_app_r by lia; by replace (length pre + length line - length pre - length line)%nat with O by lia).
    f_equal. rewrite !length_app. cbn. lia.
Qed.

Lemma next_line_resume f1 pre line c tail blk found :
  (length tail < f1)%nat -> tail <> [] ->
  exists line' tail', tail = line' ++ tail' /\ (10 ∉ line') /\ line_break tail' /\
    next_line f1 pre line (c :: tail) blk found = resume (pred f1) (S (length line')) ((pre ++ line ++ [10]) ++ line' ++ tail') (length (pre ++ line ++ [10])) 0 blk found.
Proof.
  intros Hf Hne. destruct (split_line tail) as (line' & tail' & -> & Hl & Ht). exists line', tail'. split_and!; [done..|]. destruct f1 as [|f1]; [lia|]. unfold next_line.
  replace (pre ++ line ++ 10 :: line' ++ tail') with ((pre ++ line ++ [10]) ++ line' ++ tail') by (by rewrite <- !app_assoc).
  rewrite scan_lines_resume, line_at_app by done. rewrite (proj2 (Nat.ltb_lt _ _)); [done|]. rewrite (length_app (pre ++ line ++ [10])). destruct (line' ++ tail'); [done|cbn; lia].
Qed.

(** *** Block comments *)

Lemma index_step c s : (c =? 42) = false -> strings_Index (c :: s) block_end = S <$> strings_Index s block_end.
Proof. intros Hc. cbn [strings_Index]. change (HasPrefix (c :: s) block_end) with ((c =? 42) && HasPrefix s [47]). by rewrite Hc. Qed.

Lemma index_skip k s : forallb is_space k = true -> strings_Index (k ++ s) block_end = Nat.add (length k) <$> strings_Index s block_end.
Proof.
  induction k as [|c k IH]; [cbn [app length]; by destruct (strings_Index s block_end)|]. cbn [forallb]. intros [Hc Hk]%andb_true_iff. change ((c :: k) ++ s) with (c :: k ++ s). rewrite index_step, (IH Hk).
  - by destruct (strings_Index s block_end).
  - unfold is_space in Hc. destruct (Z.eqb_spec c 42) as [ ->|]; done.
Qed.

Lemma index_bound s k : strings_Index s block_end = Some k -> (k + 2 <= length s)%nat.
Proof.
  revert k. induction s as [|c s IH]; intros k; [done|]. cbn [strings_Index]. destruct (HasPrefix (c :: s) block_end) eqn:E.
  - intros H. injection H as <-. apply HasPrefix_spec in E as [t E]. rewrite E. cbn. lia.
  - destruct (strings_Index s block_end) as [j|]; [|done]. intros H. injection H as <-. specialize (IH j eq_refl). cbn. lia.
Qed.

Lemma prefix_app_line s p tail : 10 ∉ p -> line_break tail -> HasPrefix (s ++ tail) p = HasPrefix s p.
Proof.
  revert s. induction p as [|b p IH]; intros s Hp Ht; [by destruct s, tail|]. apply not_elem_of_cons in Hp as [Hb Hp]. destruct s as [|a s]; cbn.
  - destruct tail as [|a tail]; [done|]. cbn in Ht. subst a. by rewrite (proj2 (Z.eqb_neq _ _)) by done.
  - by rewrite (IH s Hp Ht).
Qed.

Lemma block_end_line : 10 ∉ block_end.
Proof. apply (bool_decide_unpack _). by vm_compute. Qed.

Lemma index_line_some s tail k : line_break tail -> strings_Index s block_end = Some k -> strings_Index (s ++ tail) block_end = Some k.
Proof.
  intros Ht. revert k. induction s as [|c s IH]; intros k; [done|]. pose proof (prefix_app_line (c :: s) block_end tail block_end_line Ht) as Hp. cbn [app] in *. cbn [strings_Index]. rewrite Hp.
  destruct (HasPrefix (c :: s) block_end); [done|]. destruct (strings_Index s block_end) as [j|]; [|done]. by rewrite (IH j eq_refl).
Qed.

Lemma index_line_none s tail : line_break tail -> strings_Index s block_end = None -> strings_Index (s ++ tail) block_end = Nat.add (length s) <$> strings_Index tail block_end.
Proof.
  intros Ht. induction s as [|c s IH]; [cbn [app length]; by destruct (strings_Index tail block_end)|]. pose proof (prefix_app_line (c :: s) block_end tail block_end_line Ht) as Hp. cbn [app] in *. cbn [strings_Index]. rewrite Hp.
  destruct (HasPrefix (c :: s) block_end); [done|]. destruct (strings_Index s block_end) as [j|]; [done|]. intros _. rewrite (IH eq_refl). by destruct (strings_Index tail block_end).
Qed.

(** A position of the walk: the source is cut before the line, inside it and after it. *)
Record at_position (f1 f2 : nat) (pre don todo tail : gostring) : Prop := {
  pos_line : 10 ∉ don ++ todo;
  pos_break : line_break tail;
  pos_lines : (length tail <= f1 /\ 1 <= f1)%nat;
  pos_fuel : (length todo < f2)%nat
}.

Abbreviation walk f1 f2 pre don todo tail blk found := (resume f1 f2 (pre ++ (don ++ todo) ++ tail) (length pre) (length don) blk found).

Lemma walk_eq f1 f2 pre don todo tail blk found : at_position f1 f2 pre don todo tail ->
  walk f1 f2 pre don todo tail blk found =
  (let? e := scan_line f2 (don ++ todo) (length pre) (length don) blk found in
   match e with Return found => Ok found | Break blk found => next_line f1 pre (don ++ todo) tail blk found end).
Proof. intros [H1 H2 [_ H3] _]. by apply resume_app. Qed.

Lemma scan_line_block f don todo offset found :
  scan_line (S f) (don ++ todo) offset (length don) true found =
  match strings_Index todo block_end with
  | None => Ok (Break true found)
  | Some k => scan_line f (don ++ todo) offset (length don + (k + 2)) false found
  end.
Proof.
  cbn [scan_line]. rewrite drop_app_length. rewrite drop_app_add. destruct (span_length_skip is_space todo) as (k & E & Hk & El). rewrite El in *.
  assert (strings_Index todo block_end = Nat.add (length k) <$> strings_Index (drop (length k) todo) block_end) as -> by (rewrite E at 1; by apply index_skip).
  fold block_end. destruct (strings_Index (drop (length k) todo) block_end) as [j|]; [|done]. cbn [fmap option_fmap option_map]. f_equal. lia.
Qed.

(** A position at the start of the next line. *)
Lemma next_position f1 pre line tail blk found : (length tail <= f1 /\ 1 <= f1)%nat -> line_break tail ->
  (tail = [] /\ next_line f1 pre line tail blk found = Ok found) \/ (tail = [10] /\ next_line f1 pre line tail blk found = Ok found) \/
  exists line' tail', tail = 10 :: line' ++ tail' /\ line' ++ tail' <> [] /\ at_position (pred f1) (S (length line')) (pre ++ line ++ [10]) [] line' tail' /\
    next_line f1 pre line tail blk found = walk (pred f1) (S (length line')) (pre ++ line ++ [10]) ([] : gostring) line' tail' blk found.
Proof.
  intros Hf Ht. destruct tail as [|c tail]; [by left|]. cbn in Ht. subst c. right. destruct tail as [|c tail].
  - left. split; [done|]. unfold next_line. destruct f1 as [|f1]; [lia|]. cbn [scan_lines]. by rewrite Nat.ltb_irrefl.
  - right. cbn [length] in Hf. destruct (next_line_resume f1 pre line 10 (c :: tail) blk found) as (line' & tail' & E & Hl & Hb & En); [cbn; lia|done|]. exists line', tail'.
    rewrite E in *. split_and!; [done|by rewrite <- E| |exact En]. pose proof (f_equal length E) as Hlen. rewrite length_app in Hlen. cbn [length] in Hlen. split; [done|done|lia|lia].
Qed.

Lemma walk_block : forall n f1 f2 pre don todo tail found, (length tail <= n)%nat -> at_position f1 f2 pre don todo tail ->
  match strings_Index (todo ++ tail) block_end with
  | None => walk f1 f2 pre don todo tail true found = Ok found
  | Some k => exists f1' f2' pre' don' todo' tail', at_position f1' f2' pre' don' todo' tail' /\ todo' ++ tail' = drop (k + 2) (todo ++ tail) /\
      walk f1 f2 pre don todo tail true found = walk f1' f2' pre' don' todo' tail' false found
  end.
Proof.
  induction n as [n IH] using lt_wf_ind. intros f1 f2 pre don todo tail found Hn P. pose proof P as [P1 P2 P3 P4]. rewrite (walk_eq _ _ _ _ _ _ _ _ P).
  destruct f2 as [|f2]; [lia|]. rewrite scan_line_block. destruct (strings_Index todo block_end) as [k|] eqn:Ek.
  - rewrite (index_line_some _ _ _ P2 Ek). pose proof (index_bound _ _ Ek) as Hb. exists f1, f2, pre, (don ++ take (k + 2) todo), (drop (k + 2) todo), tail.
    assert ((don ++ take (k + 2) todo) ++ drop (k + 2) todo = don ++ todo) as Ed by (by rewrite <- app_assoc, take_drop).
    assert (at_position f1 f2 pre (don ++ take (k + 2) todo) (drop (k + 2) todo) tail) as P' by (split; [by rewrite Ed|done|done|rewrite length_drop; lia]).
    split; [done|]. split; [rewrite drop_app_le by lia; done|]. rewrite (walk_eq _ _ _ _ _ _ _ _ P'), Ed. do 2 f_equal. rewrite length_app, length_take. lia.
  - rewrite (index_line_none _ _ P2 Ek). cbn [result_bind]. destruct (next_position f1 pre (don ++ todo) tail true found P3 P2) as [[-> E]|[[-> E]|(line' & tail' & -> & Hne & P' & E)]]; [done..|].
    rewrite E. rewrite index_step by done. cbn [length] in Hn. rewrite length_app in Hn. specialize (IH (length tail') ltac:(lia) _ _ _ _ _ _ found (le_n _) P').
    destruct (strings_Index (line' ++ tail') block_end) as [k|]; [|exact IH]. cbn [fmap option_fmap option_map].
    destruct IH as (f1' & f2' & pre' & don' & todo' & tail'' & P'' & E' & E''). exists f1', f2', pre', don', todo', tail''. split; [done|]. split; [|done].
    rewrite E'. replace (length todo + S k + 2)%nat with (length todo + S (k + 2))%nat by lia. by rewrite drop_app_add.
Qed.

(** *** The walk finds the directives *)

Lemma span_stop_zero f s : stops f s = true -> span_length f s = O.
Proof. destruct s as [|c s]; [done|]. cbn. by destruct (f c). Qed.

Lemma scan_line_skip f don c todo offset found : is_space c = true ->
  scan_line (S f) (don ++ c :: todo) offset (length don) false found = scan_line (S f) ((don ++ [c]) ++ todo) offset (length (don ++ [c])) false found.
Proof.
  intros Hc. rewrite <- app_assoc. cbn [app scan_line]. rewrite drop_app_length. cbn [span_length]. rewrite Hc.
  rewrite (length_app don [c]). cbn [length]. assert (drop (length don + 1) (don ++ c :: todo) = todo) as -> by (by rewrite drop_app_add).
  by replace (length don + 1 + span_length is_space todo)%nat with (length don + S (span_length is_space todo))%nat by lia.
Qed.

(** A walk at the end of a line goes on with the next one. *)
Lemma walk_line_end f1 f2 pre don tail found : at_position f1 f2 pre don [] tail -> walk f1 f2 pre don [] tail false found = next_line f1 pre don tail false found.
Proof.
  intros P. rewrite (walk_eq _ _ _ _ _ _ _ _ P). destruct P as [_ _ _ P4]. destruct f2 as [|f2]; [cbn in P4; lia|]. rewrite app_nil_r. cbn [scan_line]. rewrite drop_all. cbn [span_length].
  by rewrite Nat.add_0_r, Nat.eqb_refl.
Qed.

Lemma scan_line_here f don todo offset found : stops is_space todo = true -> todo <> [] ->
  scan_line (S f) (don ++ todo) offset (length don) false found =
  (if HasPrefix todo (lit "/*") then scan_line f (don ++ todo) offset (length don + 2) true found
   else if HasPrefix todo (lit "//") then
     if is_directive todo then
       let text := TrimSpace (drop 10 todo) in
       if negb (bool_decide (se_text found = [])) then Err (ConstraintError (Z.of_nat (offset + length don)) MultipleDirectives)
       else if bool_decide (text = []) then Err (ConstraintError (Z.of_nat (offset + length don)) EmptyExpression)
       else Ok (Break false (mkSource text (Z.of_nat offset + match strings_Index (don ++ todo) text with Some i => Z.of_nat i | None => -1 end)))
     else Ok (Break false found)
   else Ok (Return found)).
Proof.
  intros Hs Hne. cbn [scan_line]. rewrite drop_app_length, (span_stop_zero _ _ Hs), Nat.add_0_r.
  rewrite (proj2 (Nat.eqb_neq _ _)) by (rewrite length_app; destruct todo; [done|cbn; lia]). by rewrite drop_app_length.
Qed.

Lemma header_stops s : stops header_space s = true -> stops is_space s = true /\ (line_break s -> s = []).
Proof.
  destruct s as [|c s]; [done|]. unfold stops, header_space. intros H%negb_true_iff. apply orb_false_iff in H as [-> H]. split; [done|]. cbn. intros ->. done.
Qed.

Lemma header_nil ds : header [] ds -> ds = [].
Proof. inversion 1; done. Qed.

Lemma found_eta found : found = mkSource (se_text found) (se_offset found).
Proof. by destruct found. Qed.

Lemma todo_first c s todo tail : c :: s = todo ++ tail -> line_break tail -> c <> 10 -> exists todo', todo = c :: todo' /\ s = todo' ++ tail.
Proof.
  intros E Ht Hc. destruct todo as [|d todo]; cbn in E.
  - subst tail. by destruct Hc.
  - injection E as -> ->. by exists todo.
Qed.

Lemma walk_header s ds : header s ds -> forall f1 f2 pre don todo tail found,
  s = todo ++ tail -> at_position f1 f2 pre don todo tail -> agrees (walk f1 f2 pre don todo tail false found) (choose (se_text found) ds).
Proof.
  induction 1 as [s Hst H1 H2|c s ds Hc Hh IH|body s ds Hi Hh IH|body Hi|body s ds Hb Hs Hh IH]; intros f1 f2 pre don todo tail found E P.
  - destruct (header_stops s Hst) as [Hst' Hbr]. pose proof P as [P1 P2 P3 P4]. destruct todo as [|c todo].
    + cbn in E. subst s. rewrite (Hbr P2) in *. rewrite (walk_line_end _ _ _ _ _ _ P). exists (se_offset found). by rewrite <- found_eta.
    + rewrite (walk_eq _ _ _ _ _ _ _ _ P). destruct f2 as [|f2]; [lia|]. assert (stops is_space (c :: todo) = true) as Hst2 by (subst s; exact Hst').
      rewrite scan_line_here by done. subst s. rewrite prefix_app_line in H1 by (done || by apply (bool_decide_unpack _); vm_compute). rewrite prefix_app_line in H2 by (done || by apply (bool_decide_unpack _); vm_compute).
      rewrite H1, H2. exists (se_offset found). cbn [result_bind]. by rewrite <- found_eta.
  - pose proof P as [P1 P2 P3 P4]. destruct (decide (c = 10)) as [->|Hn].
    + assert (todo = [] /\ tail = 10 :: s) as [-> ->].
      { destruct todo as [|d todo]; [done|]. cbn in E. injection E as <- _. destruct P1. apply elem_of_app. right. by left. }
      rewrite (walk_line_end _ _ _ _ _ _ P). destruct (next_position f1 pre don (10 :: s) false found P3 P2) as [[? _]|[[Es En]|(line' & tail' & Es & Hne & P' & En)]]; [done| |].
      * injection Es as ->. rewrite (header_nil _ Hh), En. exists (se_offset found). by rewrite <- found_eta.
      * injection Es as Es. rewrite En. by apply IH.
    + destruct (todo_first _ _ _ _ E P2 Hn) as (todo' & -> & Es). assert (is_space c = true) as Hsp. { unfold header_space in Hc. apply orb_true_iff in Hc as [?|?]; [done|]. breflect. done. }
      rewrite (walk_eq _ _ _ _ _ _ _ _ P). destruct f2 as [|f2]; [lia|]. rewrite scan_line_skip by done.
      assert (at_position f1 (S f2) pre (don ++ [c]) todo' tail) as P' by (split; [by rewrite <- app_assoc|done|done|cbn in P4; lia]).
      specialize (IH f1 (S f2) pre (don ++ [c]) todo' tail found Es P'). rewrite (walk_eq _ _ _ _ _ _ _ _ P') in IH. by rewrite <- app_assoc in IH |- *.
  - pose proof P as [P1 P2 P3 P4]. change (47 :: 42 :: body ++ block_end ++ s = todo ++ tail) in E. destruct (todo_first _ _ _ _ E P2) as (todo1 & -> & E1); [done|]. destruct (todo_first _ _ _ _ E1 P2) as (todo2 & -> & E2); [done|].
    rewrite (walk_eq _ _ _ _ _ _ _ _ P). destruct f2 as [|f2]; [lia|]. rewrite scan_line_here by done. replace (HasPrefix (47 :: 42 :: todo2) (lit "/*")) with true by (by destruct todo2).
    assert (at_position f1 f2 pre (don ++ [47; 42]) todo2 tail) as P' by (split; [by rewrite <- app_assoc|done|done|cbn in P4; lia]).
    pose proof (walk_block (length tail) f1 f2 pre (don ++ [47; 42]) todo2 tail found (le_n _) P') as Hw. rewrite <- E2, Hi in Hw.
    destruct Hw as (f1' & f2' & pre' & don' & todo' & tail' & P'' & E3 & Ew). rewrite (walk_eq _ _ _ _ _ _ _ _ P') in Ew. rewrite <- app_assoc, length_app in Ew. cbn [app length] in Ew.
    rewrite Ew. apply IH; [|exact P'']. rewrite E3, app_assoc. symmetry. apply drop_app_length'. rewrite length_app. cbn. lia.
  - pose proof P as [P1 P2 P3 P4]. change (47 :: 42 :: body = todo ++ tail) in E. destruct (todo_first _ _ _ _ E P2) as (todo1 & -> & E1); [done|]. destruct (todo_first _ _ _ _ E1 P2) as (todo2 & -> & E2); [done|].
    rewrite (walk_eq _ _ _ _ _ _ _ _ P). destruct f2 as [|f2]; [lia|]. rewrite scan_line_here by done. replace (HasPrefix (47 :: 42 :: todo2) (lit "/*")) with true by (by destruct todo2).
    assert (at_position f1 f2 pre (don ++ [47; 42]) todo2 tail) as P' by (split; [by rewrite <- app_assoc|done|done|cbn in P4; lia]).
    pose proof (walk_block (length tail) f1 f2 pre (don ++ [47; 42]) todo2 tail found (le_n _) P') as Hw; rewrite <- E2, Hi in Hw.
    rewrite (walk_eq _ _ _ _ _ _ _ _ P') in Hw. rewrite <- app_assoc, length_app in Hw. cbn [app length] in Hw. rewrite Hw. exists (se_offset found). by rewrite <- found_eta.
  - pose proof P as [P1 P2 P3 P4]. destruct (split_line_unique (lit "//" ++ body) todo s tail) as [<- <-]; [by rewrite <- app_assoc| | |done|done|].
    { apply not_elem_of_app. split; [by apply (bool_decide_unpack _); vm_compute|done]. } { intros Hin. apply P1, elem_of_app. by right. }
    rewrite (walk_eq _ _ _ _ _ _ _ _ P). destruct f2 as [|f2]; [lia|]. rewrite scan_line_here by done. replace (HasPrefix (lit "//" ++ body) (lit "/*")) with false by done. replace (HasPrefix (lit "//" ++ body) (lit "//")) with true by (by destruct body).
    assert (forall found', agrees (next_line f1 pre (don ++ lit "//" ++ body) s false found') (choose (se_text found') ds)) as Hnext.
    { intros found'. assert (at_position f1 (S f2) pre (don ++ lit "//" ++ body) [] s) as P' by (split; [by rewrite app_nil_r|done|done|cbn; lia]). rewrite <- (walk_line_end f1 (S f2) _ _ _ _ P'). by apply IH. }
    destruct (is_directive (lit "//" ++ body)); [|apply Hnext]. cbn zeta. cbn [choose]. destruct (negb _); [by eexists|]. destruct (bool_decide (TrimSpace _ = [])); [by eexists|]. apply (Hnext (mkSource _ _)).
Qed.

Lemma index_split s k : strings_Index s block_end = Some k -> s = take k s ++ block_end ++ drop (k + 2) s /\ length (take k s) = k.
Proof.
  intros Hk. pose proof (index_bound _ _ Hk). split; [|rewrite length_take; lia]. revert k Hk H. induction s as [|c s IH]; intros k; [done|]. cbn [strings_Index].
  destruct (HasPrefix (c :: s) block_end) eqn:E.
  - intros Hk _. injection Hk as <-. apply HasPrefix_spec in E as [t E]. rewrite E. cbn. by rewrite drop_0.
  - destruct (strings_Index s block_end) as [j|]; [|done]. intros Hk Hb. injection Hk as <-. cbn in Hb. cbn. f_equal. apply IH; [done|lia].
Qed.

(** Every source has a header. *)
Lemma header_total s : exists ds, header s ds.
Proof.
  induction s as [s IH] using (induction_ltof1 _ (@length Z)). unfold ltof in IH.
  destruct (stops header_space s) eqn:Hst; [|destruct s as [|c s]; [done|]; apply negb_false_iff in Hst; destruct (IH s) as [ds Hd]; [cbn; lia|]; exists ds; by constructor].
  destruct (HasPrefix s (lit "/*")) eqn:H1.
  { apply HasPrefix_spec in H1 as [r ->]. destruct (strings_Index r block_end) as [k|] eqn:Hk; [|exists []; by constructor].
    destruct (index_split _ _ Hk) as [E El]. destruct (IH (drop (k + 2) r)) as [ds Hd]; [rewrite length_app, length_drop; cbn; lia|].
    exists ds. rewrite E. apply header_block; [|done]. by rewrite <- E, El. }
  destruct (HasPrefix s (lit "//")) eqn:H2; [|exists []; by constructor].
  apply HasPrefix_spec in H2 as [r ->]. destruct (split_line r) as (line & tail & -> & Hl & Ht). destruct (IH tail) as [ds Hd]; [rewrite !length_app; cbn; lia|].
  eexists. by apply header_line.
Qed.

Lemma sourceConstraint_spec source ds : header source ds -> agrees (sourceConstraint source) (choose [] ds).
Proof.
  intros Hh. unfold sourceConstraint. rewrite scan_lines_resume. destruct (split_line source) as (line & tail & -> & Hl & Ht). destruct (Nat.ltb_spec 0 (length (line ++ tail))) as [Hlen|Hlen].
  - pose proof (line_at_app [] line tail Hl Ht) as El. cbn [app length] in El. rewrite El. apply (walk_header _ _ Hh (length (line ++ tail)) (S (length line)) [] [] line tail no_source eq_refl).
    split; [done|done|rewrite length_app in *; lia|lia].
  - assert (line ++ tail = []) as E by (apply length_zero_iff_nil; lia). rewrite E in *. rewrite (header_nil _ Hh). by exists 0.
Qed.

(** ** Canonical targets *)

Definition well_tagged (t : Target) : Prop := Forall (fun tag => validTag (TrimSpace tag) = true) (Tags t).

(** The tags of a target, the language tag included. *)
Definition tag_set (t : Target) : gset gostring := {[LanguageTag]} ∪ list_to_set (map TrimSpace (Tags t)).

Definition canonical (t : Target) : Prop :=
  StronglySorted bytes_le (Tags t) /\ NoDup (Tags t) /\ LanguageTag ∈ Tags t /\ Forall (fun tag => validTag tag = true) (Tags t).

Lemma collect_tags_spec tags seen :
  (Forall (fun tag => validTag (TrimSpace tag) = true) tags /\ collect_tags tags seen = Ok (seen ∪ list_to_set (map TrimSpace tags))) \/
  (exists tag, tag ∈ tags /\ validTag (TrimSpace tag) = false /\ collect_tags tags seen = Err (InvalidTag (TrimSpace tag))).
Proof.
  revert seen. induction tags as [|tag tags IH]; intros seen; cbn.
  - left. split; [constructor|]. f_equal. set_solver.
  - destruct (validTag (TrimSpace tag)) eqn:Hv; cbn [negb]; [|right; exists tag; split_and!; [left|done|done]].
    destruct (IH ({[TrimSpace tag]} ∪ seen)) as [[Hf ->]|(tag' & Hin & Hv' & ->)].
    + left. split; [by constructor|]. f_equal. set_solver.
    + right. exists tag'. split_and!; [by right|done|done].
Qed.

Lemma Normalize_spec t :
  (well_tagged t /\ Normalize t = Ok (mkTarget (merge_sort bytes_le (elements (tag_set t))))) \/
  (~ well_tagged t /\ exists tag, validTag tag = false /\ Normalize t = Err (InvalidTag tag)).
Proof.
  unfold Normalize. destruct (collect_tags_spec (Tags t) {[LanguageTag]}) as [[Hf ->]|(tag & Hin & Hv & ->)]; [by left|right].
  split; [|by exists (TrimSpace tag)]. intros Hw. unfold well_tagged in Hw. rewrite Forall_forall in Hw. by rewrite (Hw tag Hin) in Hv.
Qed.

Lemma valid_solid c : validTagByte c = true -> solid c.
Proof. unfold validTagByte, solid. intros H. repeat (apply orb_true_iff in H as [H|H]); breflect; lia. Qed.

Lemma TrimSpace_tag tag : validTag tag = true -> TrimSpace tag = tag.
Proof.
  destruct tag as [|c t]; [done|]. unfold validTag. rewrite forallb_forall. intros H. apply TrimSpace_solid; apply valid_solid, H; [by left|].
  destruct (exists_last (l := c :: t)) as (l & x & E); [done|]. rewrite E, List.last_last. apply in_app_iff. right. by left.
Qed.

Lemma language_tag_valid : validTag LanguageTag = true.
Proof. done. Qed.

Lemma normal_elem t x : x ∈ merge_sort bytes_le (elements (tag_set t)) <-> x ∈ tag_set t.
Proof. by rewrite merge_sort_Permutation, elem_of_elements. Qed.

Lemma canonical_fixed t : canonical t -> well_tagged t /\ merge_sort bytes_le (elements (tag_set t)) = Tags t.
Proof.
  intros (Hs & Hn & Hl & Hv). assert (map TrimSpace (Tags t) = Tags t) as Em.
  { rewrite <- (map_id (Tags t)) at 2. apply map_ext_in. intros tag Hin%list_elem_of_In. apply TrimSpace_tag. rewrite Forall_forall in Hv. by apply Hv. }
  split.
  - unfold well_tagged. rewrite Forall_forall in Hv |- *. intros tag Hin. rewrite TrimSpace_tag; by apply Hv.
  - apply (StronglySorted_unique bytes_le); [apply StronglySorted_merge_sort; apply _|done|]. rewrite merge_sort_Permutation. unfold tag_set. rewrite Em.
    apply NoDup_Permutation; [apply NoDup_elements|done|]. intros x. rewrite elem_of_elements. set_solver.
Qed.

Lemma normal_canonical t : well_tagged t -> canonical (mkTarget (merge_sort bytes_le (elements (tag_set t)))).
Proof.
  intros Hw. unfold canonical. cbn [Tags]. split_and!.
  - apply StronglySorted_merge_sort; apply _.
  - rewrite merge_sort_Permutation. apply NoDup_elements.
  - rewrite merge_sort_Permutation. apply elem_of_elements. unfold tag_set. set_solver.
  - rewrite merge_sort_Permutation. apply Forall_forall. intros x Hx%elem_of_elements. unfold tag_set in Hx. apply elem_of_union in Hx as [->%elem_of_singleton|Hx]; [done|].
    apply elem_of_list_to_set, list_elem_of_fmap in Hx as (y & -> & Hy). unfold well_tagged in Hw. rewrite Forall_forall in Hw. by apply Hw.
Qed.

Lemma Has_spec t tag : Has t tag = bool_decide (tag ∈ LanguageTag :: Tags t).
Proof.
  unfold Has. apply eq_bool_prop_intro. rewrite orb_True, bool_decide_spec, bool_decide_spec, elem_of_cons. split.
  - intros [H| ->]; [|by left]. apply Is_true_true in H. apply existsb_exists in H as (x & Hx & E). apply bool_decide_eq_true in E as ->. right. by apply list_elem_of_In.
  - intros [->|H]; [by right|]. left. apply Is_true_true, existsb_exists. exists tag. split; [by apply list_elem_of_In|]. by apply bool_decide_eq_true.
Qed.

(** The meaning of an expression over a set of tags. *)
Fixpoint holds (tags : gset gostring) (e : expression) : Prop :=
  match e with
  | tagExpr tag => tag ∈ tags
  | notExpr value => ~ holds tags value
  | binaryExpr l r true => holds tags l \/ holds tags r
  | binaryExpr l r false => holds tags l /\ holds tags r
  end.

Lemma eval_spec e t t' : Normalize t = Ok t' -> eval e t' = true <-> holds (tag_set t) e.
Proof.
  intros En. destruct (Normalize_spec t) as [[Hw E]|(_ & tag & _ & E)]; [|congruence]. assert (t' = mkTarget (merge_sort bytes_le (elements (tag_set t)))) as -> by congruence. clear E En.
  induction e as [tag|e IH|l IHl r IHr [|]]; cbn [eval holds].
  - rewrite Has_spec, bool_decide_eq_true. cbn [Tags]. rewrite elem_of_cons, merge_sort_Permutation, elem_of_elements. unfold tag_set. set_solver.
  - rewrite negb_true_iff, <- IH. split; [by intros ->|]. apply not_true_is_false.
  - by rewrite orb_true_iff, IHl, IHr.
  - by rewrite andb_true_iff, IHl, IHr.
Qed.

(** ** The properties *)

(** [Normalize] accepts exactly the targets whose trimmed tags are valid and gives the one sorted list without
    duplicates of their tags and the language tag; it changes nothing when applied again, [Validate] accepts
    exactly the targets in that form, and two targets are [Equal] when they have the same tags. *)
Theorem normalize_canonical (t : Target) :
  (well_tagged t -> exists t', Normalize t = Ok t' /\ canonical t' /\ (forall tag, tag ∈ Tags t' <-> tag ∈ tag_set t) /\ Normalize t' = Ok t') /\
  (~ well_tagged t -> exists tag, validTag tag = false /\ Normalize t = Err (InvalidTag tag)) /\
  (Validate t = Ok tt <-> canonical t) /\
  (forall other, Equal t other = true <-> well_tagged t /\ well_tagged other /\ tag_set t = tag_set other).
Proof.
  destruct t as [tags]. set (t := mkTarget tags). split_and!.
  - intros Hw. destruct (Normalize_spec t) as [[_ E]|[Hn _]]; [|done]. eexists. split; [exact E|]. pose proof (normal_canonical t Hw) as Hc. split; [done|].
    split; [intros tag; apply normal_elem|].
    destruct (canonical_fixed _ Hc) as [Hw' Ef]. destruct (Normalize_spec (mkTarget (merge_sort bytes_le (elements (tag_set t))))) as [[_ ->]|[Hn _]]; [|done]. by rewrite Ef.
  - intros Hn. destruct (Normalize_spec t) as [[Hw _]|[_ H]]; done.
  - unfold Validate. destruct (Normalize_spec t) as [[Hw ->]|(Hn & tag & _ & ->)]; cbn [result_bind Tags].
    + split; [|intros Hc; rewrite decide_True; [done|]; symmetry; by apply canonical_fixed]. destruct (decide _) as [E|]; [|done]. intros _. unfold canonical. cbn [Tags t] in *. rewrite E. by apply normal_canonical.
    + split; [done|]. intros Hc. by destruct (canonical_fixed _ Hc).
  - intros other. unfold Equal. destruct (Normalize_spec t) as [[Hw ->]|(Hn & tag & _ & ->)]; [|split; [done|by intros [? _]]].
    destruct (Normalize_spec other) as [[Hw' ->]|(Hn & tag & _ & ->)]; [|split; [done|by intros (_ & ? & _)]]. cbn [Tags]. rewrite bool_decide_eq_true. split; [|by intros (_ & _ & ->)].
    intros E. split_and!; [done|done|]. apply set_eq. intros x. by rewrite <- (normal_elem t), E, normal_elem.
Qed.

(** C25. The decision about a source file, for a target all of whose tags are valid once trimmed: without a directive among
    its leading comments it is selected; with one, the text is read by the grammar and the file is selected when the expression holds of the target's tags; a text outside the
    grammar, an empty one and a second directive are errors of the source. *)
Theorem match_source_exact (source : gostring) (t : Target) (ds : list gostring) :
  well_tagged t -> header source ds ->
  match choose [] ds with
  | Err m => exists offset, MatchSource source t = Err (ConstraintError offset m)
  | Ok [] => MatchSource source t = Ok true
  | Ok text => forall ts, lexes text ts ->
      (forall e, or_exp ts e -> exists b, MatchSource source t = Ok b /\ (b = true <-> holds (tag_set t) e)) /\
      ((forall e, ~ or_exp ts e) -> exists offset m, MatchSource source t = Err (ConstraintError offset m))
  end.
Proof.
  intros Hw Hh. pose proof (sourceConstraint_spec source ds Hh) as Ha. unfold MatchSource. destruct (Normalize_spec t) as [[_ En]|[Hn _]]; [|done]. rewrite En. cbn [result_bind].
  destruct (choose [] ds) as [text|m]; cbn [agrees] in Ha; [|destruct Ha as [o ->]; by exists o]. destruct Ha as [o ->]. cbn [result_bind se_text]. destruct text as [|c text]; [done|].
  intros ts Hl. rewrite bool_decide_false by done. destruct (parse_expression_spec (mkSource (c :: text) o) ts Hl) as [Hp Hf]. split.
  - intros e He%Hp. rewrite He. cbn [result_bind]. eexists. split; [done|]. by apply eval_spec.
  - intros (offset & m & ->)%Hf. by exists offset, m.
Qed.

(** Every source has leading comments and every text has tokens, and the tokens determine at most one
    expression, so the decision above is total and unambiguous. *)
Theorem constraint_unambiguous (source text : gostring) :
  (exists ds, header source ds) /\ (exists ts, lexes text ts) /\
  (forall ts e e', lexes text ts -> or_exp ts e -> or_exp ts e' -> e = e') /\
  (forall t, MatchSource source t <> Err OutOfFuel).
Proof.
  split; [apply header_total|]. split; [apply lexes_total|]. split.
  - intros ts e e' Hl He He'. destruct (parse_expression_spec (mkSource text 0) ts Hl) as [Hp _]. apply Hp in He, He'. congruence.
  - intros t. unfold MatchSource. destruct (Normalize_spec t) as [[_ ->]|(_ & tag & _ & ->)]; [|done]. cbn [result_bind]. destruct (header_total source) as [ds Hh].
    pose proof (sourceConstraint_spec source ds Hh) as Ha. destruct (choose [] ds) as [x|m]; destruct Ha as [o ->]; [|done]. cbn [result_bind]. case_bool_decide; [done|].
    destruct (parse_expression (mkSource x o)) as [e|err] eqn:Ep; [done|]. cbn [result_bind]. intros E. injection E as ->. destruct (lexes_total x) as [ts Hl].
    destruct (parse_expression_spec (mkSource x o) ts Hl) as [Hp Hf]. destruct Hf as (o' & m & E); [|congruence]. intros e He%Hp. congruence.
Qed.

(** The offset of an error counts from the first occurrence of the expression's text in its line, which may lie
    before the expression: in [//go:build go:build] the expression starts at the byte 11 and its colon is the
    byte 13, but the error about that colon names the byte 4. *)
Theorem constraint_error_offset_off :
  MatchSource (lit "//go:build go:build") (mkTarget []) = Err (ConstraintError 4 (Unexpected (lit ":"))) /\
  drop 11 (lit "//go:build go:build") = lit "go:build" /\ lit "//go:build go:build" !! 13%nat = Some 58.
Proof. split_and!; by vm_compute. Qed.

(** *** Witnesses *)

Definition sample_source : gostring := lit "/* a comment */ //go:build !debug && (minigo || x.y)".

Lemma sample_header : header sample_source [lit " !debug && (minigo || x.y)"].
Proof.
  apply (header_block (lit " a comment ") (lit " //go:build !debug && (minigo || x.y)")); [by vm_compute|]. apply header_blank; [done|].
  apply (header_line (lit "go:build !debug && (minigo || x.y)") [] []); [by apply (bool_decide_unpack _); vm_compute|done|]. by apply header_end.
Qed.

Lemma match_source_exact_witness :
  exists b, MatchSource sample_source (mkTarget [lit "release"]) = Ok b /\ b = true.
Proof.
  pose proof (match_source_exact sample_source (mkTarget [lit "release"]) _ (ltac:(repeat constructor)) sample_header) as H.
  assert (exists c text, choose [] [lit " !debug && (minigo || x.y)"] = Ok (c :: text) /\ c :: text = lit "!debug && (minigo || x.y)") as (c & text & Ec & Et) by (by eexists _, _; vm_compute).
  rewrite Ec in H. set (ts := [(tokenNot, [33]); (tokenTag, lit "debug"); (tokenAnd, [38; 38]); (tokenLeft, [40]); (tokenTag, lit "minigo"); (tokenOr, [124; 124]); (tokenTag, lit "x.y"); (tokenRight, [41])]).
  destruct (H ts) as [H1 _].
  - rewrite Et. apply lexes_not. apply (lexes_tag (lit "debug")); [done..|]. apply lexes_blank; [done|]. apply lexes_and. apply lexes_blank; [done|]. apply lexes_left.
    apply (lexes_tag (lit "minigo")); [done..|]. apply lexes_blank; [done|]. apply lexes_or. apply lexes_blank; [done|]. apply (lexes_tag (lit "x.y")); [done..|]. apply lexes_right. apply lexes_end.
  - destruct (H1 (binaryExpr (notExpr (tagExpr (lit "debug"))) (binaryExpr (tagExpr (lit "minigo")) (tagExpr (lit "x.y")) true) false)) as (b & Eb & Hb).
    { apply or_one, (and_more [(tokenNot, [33]); (tokenTag, lit "debug")]); [by repeat constructor|]. apply (unary_paren [(tokenTag, lit "minigo"); (tokenOr, [124; 124]); (tokenTag, lit "x.y")]).
      apply (or_more [(tokenTag, lit "minigo")] [(tokenTag, lit "x.y")]); by repeat constructor. }
    exists b. split; [exact Eb|]. apply Hb. cbn [holds]. split; [apply (bool_decide_unpack _); by vm_compute|left; apply (bool_decide_unpack _); by vm_compute].
Defined.

Lemma normalize_canonical_witness :
  exists t', Normalize (mkTarget [lit "x.y"; lit " debug"; lit "x.y"]) = Ok t' /\ canonical t' /\ Tags t' = [lit "debug"; lit "minigo"; lit "x.y"].
Proof.
  destruct (normalize_canonical (mkTarget [lit "x.y"; lit " debug"; lit "x.y"])) as (H & _). destruct H as (t' & E & Hc & _ & _); [by repeat constructor|].
  exists t'. split; [exact E|]. split; [exact Hc|]. assert (Normalize (mkTarget [lit "x.y"; lit " debug"; lit "x.y"]) = Ok (mkTarget [lit "debug"; lit "minigo"; lit "x.y"])) as E' by by vm_compute.
  rewrite E' in E. by injection E as <-.
Defined.
