(* ===== verification/TypeTable.v ===== *)
(** * Type tables (src/compiler/types)

    The canonical type algebra: type references, nodes and tables (model.go), the table's indexes and caches
    (table.go), validation (validate.go), the resolution of named types and the closure of a set of
    references (query.go) and the exactness of a type (exact.go).

    A [*TypeTable] is [option TypeTable], [None] being the nil pointer.  The field [indexOwner], which a table
    compares with its own address, is the boolean [owned]. *)

From S2P Require Import Prelude GoStd GoBytes.

#[local] Open Scope Z_scope.
#[local] Arguments Z.to_nat : simpl never.

(** ** Data *)

Inductive Kind : Type :=
| Invalid | Void | Any | Primitive | Named | Slice | Array | Map | Pointer | Waitable | Function | Tuple | Struct | Interface | TypeParameter | Instance_.

Inductive PrimitiveKind : Type :=
| PrimitiveInvalid | PrimitiveBool | PrimitiveString | PrimitiveInt | PrimitiveInt8 | PrimitiveInt16 | PrimitiveInt32 | PrimitiveInt64
| PrimitiveUint | PrimitiveUint8 | PrimitiveUint16 | PrimitiveUint32 | PrimitiveUint64 | PrimitiveUintptr | PrimitiveFloat32 | PrimitiveFloat64
| PrimitiveComplex64 | PrimitiveComplex128 | PrimitiveError | PrimitiveFunction.

(** The last constructor stands for the other values of the byte. *)
Inductive ChannelDir : Type := ChannelInvalid | ChannelBoth | ChannelReceive | ChannelSend | ChannelOther (code : Z).

Definition channel_code (d : ChannelDir) : Z :=
  match d with ChannelInvalid => 0 | ChannelBoth => 1 | ChannelReceive => 2 | ChannelSend => 3 | ChannelOther code => 4 + Z.abs code end.

#[export] Instance Kind_eq : EqDecision Kind.
Proof. solve_decision. Defined.
#[export] Instance PrimitiveKind_eq : EqDecision PrimitiveKind.
Proof. solve_decision. Defined.
#[export] Instance ChannelDir_eq : EqDecision ChannelDir.
Proof. solve_decision. Defined.

Record TypeKey : Type := mkKey { ModulePath : gostring; DeclID : gostring }.

#[export] Instance TypeKey_eq : EqDecision TypeKey.
Proof. solve_decision. Defined.
#[export] Instance TypeKey_countable : Countable TypeKey.
Proof. refine (inj_countable' (fun k => (ModulePath k, DeclID k)) (fun q => mkKey q.1 q.2) _). by intros []. Defined.

Record TypeRef : Type := mkRef { RKind : Kind; RPrimitive : PrimitiveKind; RNamed : TypeKey; RNode : gostring }.

#[export] Instance TypeRef_eq : EqDecision TypeRef.
Proof. solve_decision. Defined.

Definition no_key : TypeKey := mkKey [] [].
Definition zero_ref : TypeRef := mkRef Invalid PrimitiveInvalid no_key [].

Definition emptyTypeKey (key : TypeKey) : bool := bool_decide (ModulePath key = []) && bool_decide (DeclID key = []).

Definition Valid (r : TypeRef) : bool :=
  match RKind r with
  | Void | Any => bool_decide (RPrimitive r = PrimitiveInvalid) && bool_decide (ModulePath (RNamed r) = []) && bool_decide (DeclID (RNamed r) = []) && bool_decide (RNode r = [])
  | Primitive => negb (bool_decide (RPrimitive r = PrimitiveInvalid)) && bool_decide (ModulePath (RNamed r) = []) && bool_decide (DeclID (RNamed r) = []) && bool_decide (RNode r = [])
  | Named => (negb (bool_decide (ModulePath (RNamed r) = [])) && negb (bool_decide (DeclID (RNamed r) = []))) || negb (bool_decide (RNode r = []))
  | _ => negb (bool_decide (RNode r = [])) && bool_decide (RPrimitive r = PrimitiveInvalid) && bool_decide (ModulePath (RNamed r) = []) && bool_decide (DeclID (RNamed r) = [])
  end.

Definition Builtin (kind : PrimitiveKind) : TypeRef :=
  if bool_decide (kind = PrimitiveInvalid) then zero_ref else mkRef Primitive kind no_key [].

Definition VoidType : TypeRef := mkRef Void PrimitiveInvalid no_key [].
Definition AnyType : TypeRef := mkRef Any PrimitiveInvalid no_key [].

(** A [TypeParam] has one field, its type. *)
Record FunctionSignature : Type := mkSignature { Params : list TypeRef; Results : list TypeRef; Variadic : bool }.

Record Field : Type := mkField { FName : gostring; FType : TypeRef; FTag : gostring; Embedded : bool }.

Record Method : Type := mkMethod { MName : gostring; Receiver : TypeRef; MSignature : FunctionSignature; FunctionID : gostring; MModulePath : gostring }.

Record TypeTerm : Type := mkTerm { TType : TypeRef; Approx : bool; Union : bool }.

Record TypeNode : Type := mkNode {
  NID : gostring; NKind : Kind; NName : gostring; NPrimitive : PrimitiveKind; Identity : TypeKey; Alias : bool; AliasTarget : TypeRef;
  NUnderlying : TypeRef; Elem : TypeRef; Key : TypeRef; Length : Z; Direction : ChannelDir; Signature : option FunctionSignature;
  NTuple : list TypeRef; Fields : list Field; Methods : list Method; Terms : list TypeTerm; TypeSet : bool; NConstraint : TypeRef;
  Base : TypeRef; TypeArgs : list TypeRef
}.

#[export] Instance FunctionSignature_eq : EqDecision FunctionSignature.
Proof. solve_decision. Defined.

Definition zero_node : TypeNode :=
  mkNode [] Invalid [] PrimitiveInvalid no_key false zero_ref zero_ref zero_ref zero_ref 0 ChannelInvalid None [] [] [] [] false zero_ref zero_ref [].

Definition UnknownArrayLength : Z := -1.

(** The caches are maps, kept as association lists; the exactness cache holds only true entries. *)
Record TypeTable : Type := mkTable {
  Nodes : list TypeNode; byID : gmap gostring nat; byName : gmap TypeKey gostring; underlyingCache : list (TypeRef * TypeRef);
  formattedCache : list (TypeRef * gostring); exactCache : list TypeRef; owned : bool
}.

Inductive type_error : Type :=
| NilTable | NodeWithoutID | DuplicateNode (id : gostring) | DuplicateIdentity (key : TypeKey) | UnknownNode (id : gostring) | IdentityChanged (id : gostring)
| InvalidShape (id : gostring) | InvalidReference (id : gostring) (ref : TypeRef) | UnknownChild (id child : gostring) | AliasCycle (id : gostring)
| VariadicWithoutParameters (id : gostring) | VariadicNotSlice (id : gostring) | ReachableInvalid | OutOfFuel.

(** ** The indexes *)

(** One round of the loop of [rebuildIndexes]: the error, when the loop ends with one, and the table it
    leaves. *)
Definition index_node (i : nat) (node : TypeNode) (t : TypeTable) : option type_error * TypeTable :=
  if bool_decide (NID node = []) then (Some NodeWithoutID, t)
  else if bool_decide (is_Some (byID t !! NID node)) then (Some (DuplicateNode (NID node)), t)
  else
    let t := mkTable (Nodes t) (<[NID node := i]> (byID t)) (byName t) (underlyingCache t) (formattedCache t) (exactCache t) (owned t) in
    if emptyTypeKey (Identity node) then (None, t)
    else if bool_decide (is_Some (byName t !! Identity node)) then (Some (DuplicateIdentity (Identity node)), t)
    else (None, mkTable (Nodes t) (byID t) (<[Identity node := NID node]> (byName t)) (underlyingCache t) (formattedCache t) (exactCache t) (owned t)).

Fixpoint index_nodes (i : nat) (nodes : list TypeNode) (t : TypeTable) : option type_error * TypeTable :=
  match nodes with
  | [] => (None, t)
  | node :: rest =>
      match index_node i node t with
      | (None, t) => index_nodes (S i) rest t
      | (Some e, t) => (Some e, t)
      end
  end.

(** [rebuildIndexes] and [Reindex].  The caches are replaced by empty ones; after an error the indexes hold
    the nodes before it, and the table owns them if it did before. *)
Definition Reindex (t : TypeTable) : option type_error * TypeTable :=
  match index_nodes 0 (Nodes t) (mkTable (Nodes t) ∅ ∅ [] [] [] (owned t)) with
  | (None, t) => (None, mkTable (Nodes t) (byID t) (byName t) (underlyingCache t) (formattedCache t) (exactCache t) true)
  | (Some e, t) => (Some e, t)
  end.

(** The table that a successful rebuild leaves.  The callers of a failed one go on without the indexes, and
    a table that does not own them rebuilds them again at the next call. *)
Definition rebuildIndexes (t : TypeTable) : result type_error TypeTable :=
  match Reindex t with (None, t) => Ok t | (Some e, _) => Err e end.

Definition NewTable (nodes : list TypeNode) : option TypeTable :=
  match rebuildIndexes (mkTable nodes ∅ ∅ [] [] [] false) with Ok t => Some t | Err _ => None end.

(** Every operation rebuilds the indexes of a table that does not own them. *)
Definition indexed (t : TypeTable) : result type_error TypeTable := if owned t then Ok t else rebuildIndexes t.

Definition Node (t : option TypeTable) (ref : TypeRef) : option TypeNode :=
  match t with
  | None => None
  | Some t =>
      if bool_decide (RNode ref = []) then None
      else match indexed t with
           | Err _ => None
           | Ok t => i ← byID t !! RNode ref; Nodes t !! i
           end
  end.

Definition NamedNode (t : option TypeTable) (key : TypeKey) : option TypeNode :=
  match t with
  | None => None
  | Some t =>
      match indexed t with
      | Err _ => None
      | Ok t => id ← byName t !! key; Node (Some t) (mkRef Named PrimitiveInvalid no_key id)
      end
  end.

Definition nodeForRef (t : option TypeTable) (ref : TypeRef) : option TypeNode :=
  if bool_decide (RKind ref = Named) && bool_decide (RNode ref = []) then NamedNode t (RNamed ref) else Node t ref.

(** [resetDerivedCaches]; the caches that are cleared differ between [Add] and [Replace]. *)
Definition resetDerivedCaches (clearExact : bool) (t : TypeTable) : TypeTable :=
  mkTable (Nodes t) (byID t) (byName t) [] [] (if clearExact then [] else exactCache t) (owned t).

Definition Add (node : TypeNode) (t : option TypeTable) : result type_error TypeTable :=
  match t with
  | None => Err NilTable
  | Some t =>
      if bool_decide (NID node = []) then Err NodeWithoutID
      else
        let? t := indexed t in
        if bool_decide (is_Some (byID t !! NID node)) then Err (DuplicateNode (NID node))
        else if negb (emptyTypeKey (Identity node)) && bool_decide (is_Some (byName t !! Identity node)) then Err (DuplicateIdentity (Identity node))
        else
          let index := length (Nodes t) in
          let t := resetDerivedCaches false (mkTable (Nodes t ++ [node]) (byID t) (byName t) (underlyingCache t) (formattedCache t) (exactCache t) (owned t)) in
          Ok (mkTable (Nodes t) (<[NID node := index]> (byID t)) (if emptyTypeKey (Identity node) then byName t else <[Identity node := NID node]> (byName t))
                (underlyingCache t) (formattedCache t) (exactCache t) (owned t))
  end.

Definition Replace (node : TypeNode) (t : option TypeTable) : result type_error TypeTable :=
  match t with
  | None => Err NilTable
  | Some t =>
      if bool_decide (NID node = []) then Err NodeWithoutID
      else
        let? t := indexed t in
        match byID t !! NID node with
        | None => Err (UnknownNode (NID node))
        | Some index =>
            match Nodes t !! index with
            | None => Err (UnknownNode (NID node))
            | Some previous =>
                if negb (bool_decide (Identity previous = Identity node)) then Err (IdentityChanged (NID node))
                else Ok (resetDerivedCaches true (mkTable (<[index := node]> (Nodes t)) (byID t) (byName t) (underlyingCache t) (formattedCache t) (exactCache t) (owned t)))
            end
        end
  end.

Definition node_ref (node : TypeNode) : TypeRef := mkRef (NKind node) PrimitiveInvalid (Identity node) (NID node).

Definition DeclaredNamed (t : option TypeTable) (modulePath : gostring) : list TypeNode :=
  match t with
  | None => []
  | Some t =>
      let modulePath := TrimSpace modulePath in
      sort_slice (fun a b => strings_Compare (DeclID (Identity a)) (DeclID (Identity b)) <? 0)
        (List.filter (fun node => bool_decide (NKind node = Named) && bool_decide (ModulePath (Identity node) = modulePath) && negb (bool_decide (DeclID (Identity node) = []))) (Nodes t))
  end.

Definition DefinedNamed (t : option TypeTable) (modulePath : gostring) : list TypeNode := List.filter (fun node => negb (Alias node)) (DeclaredNamed t modulePath).

(** ** Validation *)

Definition signature_refs (s : FunctionSignature) : list TypeRef := Params s ++ Results s.

Definition nodeRefs (node : TypeNode) : list TypeRef :=
  [AliasTarget node; NUnderlying node; Elem node; Key node; NConstraint node; Base node] ++ TypeArgs node ++ NTuple node ++
  match Signature node with None => [] | Some s => signature_refs s end ++ map FType (Fields node) ++
  concat (map (fun m => Receiver m :: signature_refs (MSignature m)) (Methods node)) ++ map TType (Terms node).

Definition validNodeShape (node : TypeNode) (compiler : bool) : bool :=
  match NKind node with
  | Primitive => negb (bool_decide (NPrimitive node = PrimitiveInvalid))
  | Named => negb (bool_decide (ModulePath (Identity node) = [])) && negb (bool_decide (DeclID (Identity node) = [])) && (Alias node || Valid (NUnderlying node))
  | Slice | Pointer => Valid (Elem node)
  | Array => Valid (Elem node) && ((0 <=? Length node) || (compiler && (Length node =? UnknownArrayLength)))
  | Map => Valid (Key node) && Valid (Elem node)
  | Waitable => Valid (Elem node) && (channel_code ChannelBoth <=? channel_code (Direction node)) && (channel_code (Direction node) <=? channel_code ChannelSend)
  | Function => match Signature node with None => false | Some s => negb (Variadic s) || negb (bool_decide (Params s = [])) end
  | Tuple | Struct | Interface => true
  | TypeParameter => compiler && Valid (NConstraint node)
  | Instance_ => compiler && Valid (Base node) && negb (bool_decide (TypeArgs node = []))
  | Invalid | Void | Any => false
  end.

Fixpoint check_refs (t : TypeTable) (id : gostring) (refs : list TypeRef) : result type_error unit :=
  match refs with
  | [] => Ok tt
  | ref :: rest =>
      if bool_decide (RKind ref = Invalid) then check_refs t id rest
      else if negb (Valid ref) then Err (InvalidReference id ref)
      else if negb (bool_decide (RNode ref = [])) && negb (bool_decide (is_Some (Node (Some t) ref))) then Err (UnknownChild id (RNode ref))
      else check_refs t id rest
  end.

Fixpoint check_nodes (t : TypeTable) (compiler : bool) (nodes : list TypeNode) : result type_error unit :=
  match nodes with
  | [] => Ok tt
  | node :: rest =>
      if negb (validNodeShape node compiler) then Err (InvalidShape (NID node))
      else let? _ := check_refs t (NID node) (nodeRefs node) in check_nodes t compiler rest
  end.

(** The walk along an alias chain; it meets a node twice or ends within as many steps as there are nodes. *)
Fixpoint alias_chain (fuel : nat) (t : TypeTable) (root : gostring) (seen : list gostring) (ref : TypeRef) : result type_error unit :=
  match fuel with
  | O => Err OutOfFuel
  | S fuel =>
      if negb (bool_decide (RKind ref = Named)) then Ok tt
      else match nodeForRef (Some t) ref with
           | None => Ok tt
           | Some node =>
               if negb (Alias node) then Ok tt
               else if bool_decide (NID node ∈ seen) then Err (AliasCycle root)
               else alias_chain fuel t root (NID node :: seen) (AliasTarget node)
           end
  end.

Definition chain_fuel (t : TypeTable) : nat := (length (Nodes t) + 2)%nat.

Fixpoint check_chains (t : TypeTable) (nodes : list TypeNode) : result type_error unit :=
  match nodes with
  | [] => Ok tt
  | root :: rest =>
      if negb (bool_decide (NKind root = Named)) || negb (Alias root) then check_chains t rest
      else let? _ := alias_chain (chain_fuel t) t (NID root) [] (node_ref root) in check_chains t rest
  end.

Definition validateAliasChains (t : TypeTable) : result type_error unit := check_chains t (Nodes t).

(** ** The resolution of named types *)

Definition lookup_ref {A} (ref : TypeRef) (l : list (TypeRef * A)) : option A := snd <$> List.find (fun q => bool_decide (fst q = ref)) l.

(** The loop of [Underlying]: [steps] more rounds may begin. *)
Fixpoint underlying_loop (steps : nat) (t : TypeTable) (ref : TypeRef) : TypeRef :=
  match steps with
  | O => ref
  | S steps =>
      if negb (bool_decide (RKind ref = Named)) then ref
      else match nodeForRef (Some t) ref with
           | None => ref
           | Some node =>
               if Alias node then if negb (Valid (AliasTarget node)) then ref else underlying_loop steps t (AliasTarget node)
               else if Valid (NUnderlying node) then underlying_loop steps t (NUnderlying node)
               else ref
           end
  end.

Definition underlying_walk (t : TypeTable) (ref : TypeRef) : TypeRef := underlying_loop (S (length (Nodes t))) t ref.

Definition remember_underlying (ref value : TypeRef) (t : TypeTable) : TypeTable :=
  mkTable (Nodes t) (byID t) (byName t) ((ref, value) :: underlyingCache t) (formattedCache t) (exactCache t) (owned t).

(** [Underlying] with its cache: the table it leaves comes second. *)
Definition Underlying_cached (t : TypeTable) (ref : TypeRef) : TypeRef * TypeTable :=
  if negb (bool_decide (RKind ref = Named)) then (ref, t)
  else match indexed t with
       | Err _ => (ref, t)
       | Ok t =>
           match lookup_ref ref (underlyingCache t) with
           | Some value => (value, t)
           | None => (underlying_walk t ref, remember_underlying ref (underlying_walk t ref) t)
           end
       end.

(** The value of [Underlying]. *)
Definition Underlying (t : option TypeTable) (ref : TypeRef) : TypeRef :=
  match t with None => ref | Some t => fst (Underlying_cached t ref) end.

Fixpoint check_variadic (t : TypeTable) (nodes : list TypeNode) : result type_error unit :=
  match nodes with
  | [] => Ok tt
  | node :: rest =>
      match NKind node, Signature node with
      | Function, Some s =>
          if negb (Variadic s) then check_variadic t rest
          else match last (Params s) with
               | None => Err (VariadicWithoutParameters (NID node))
               | Some p =>
                   if negb (bool_decide (RKind p = Slice)) && negb (bool_decide (RKind (Underlying (Some t) p) = Slice)) then Err (VariadicNotSlice (NID node))
                   else check_variadic t rest
               end
      | _, _ => check_variadic t rest
      end
  end.

Definition validate (t : option TypeTable) (compiler : bool) : result type_error TypeTable :=
  match t with
  | None => Err NilTable
  | Some t =>
      let? t := rebuildIndexes t in
      let? _ := check_nodes t compiler (Nodes t) in
      let? _ := validateAliasChains t in
      let? _ := check_variadic t (Nodes t) in
      Ok t
  end.

Definition IsInterface (t : option TypeTable) (ref : TypeRef) : option TypeNode :=
  let underlying := Underlying t ref in
  if bool_decide (RKind ref = Named) && bool_decide (RKind underlying = Any) then
    Some (mkNode [] Interface [] PrimitiveInvalid no_key false zero_ref zero_ref zero_ref zero_ref 0 ChannelInvalid None [] [] [] [] false zero_ref zero_ref [])
  else if negb (bool_decide (RKind underlying = Interface)) then None
  else
    shape ← nodeForRef t underlying;
    Some (match (if bool_decide (RKind ref = Named) then nodeForRef t ref else None) with
          | Some named =>
              if negb (bool_decide (length (Methods named) = 0%nat)) then
                mkNode (NID shape) (NKind shape) (NName shape) (NPrimitive shape) (Identity shape) (Alias shape) (AliasTarget shape) (NUnderlying shape) (Elem shape) (Key shape)
                  (Length shape) (Direction shape) (Signature shape) (NTuple shape) (Fields shape) (Methods named) (Terms shape) (TypeSet shape) (NConstraint shape) (Base shape) (TypeArgs shape)
              else shape
          | None => shape
          end).

Definition IsFunction (t : option TypeTable) (ref : TypeRef) : option FunctionSignature :=
  let underlying := Underlying t ref in
  if negb (bool_decide (RKind underlying = Function)) || bool_decide (RNode underlying = []) then None
  else node ← Node t underlying; Signature node.

(** ** The closure of a set of references *)

(** The loop ends: a node's references are queued when it is first seen, and every round takes one away. *)
Fixpoint reach_loop (fuel : nat) (t : TypeTable) (seen : list gostring) (queue : list TypeRef) : result type_error (list gostring) :=
  match queue with
  | [] => Ok seen
  | ref :: queue =>
      match fuel with
      | O => Err OutOfFuel
      | S fuel =>
          match nodeForRef (Some t) ref with
          | None => reach_loop fuel t seen queue
          | Some node => if bool_decide (NID node ∈ seen) then reach_loop fuel t seen queue else reach_loop fuel t (NID node :: seen) (queue ++ nodeRefs node)
          end
      end
  end.

Definition reach_fuel (t : TypeTable) (roots : list TypeRef) : nat := (length roots + length (concat (map nodeRefs (Nodes t))))%nat.

Definition ReachableTable (t : option TypeTable) (roots : list TypeRef) : result type_error TypeTable :=
  match t with
  | None => Err NilTable
  | Some t =>
      let? seen := reach_loop (reach_fuel t roots) t [] roots in
      match NewTable (List.filter (fun node => bool_decide (NID node ∈ seen)) (Nodes t)) with
      | Some out => Ok out
      | None => Err ReachableInvalid
      end
  end.

(** ** Printing *)

Definition KindName (kind : Kind) : gostring :=
  match kind with
  | Void => lit "void" | Any => lit "any" | Primitive => lit "primitive" | Named => lit "named" | Slice => lit "slice" | Array => lit "array" | Map => lit "map"
  | Pointer => lit "pointer" | Waitable => lit "waitable" | Function => lit "function" | Tuple => lit "tuple" | Struct => lit "struct" | Interface => lit "interface"
  | TypeParameter => lit "type_parameter" | Instance_ => lit "instance" | Invalid => lit "invalid"
  end.

Definition PrimitiveName (kind : PrimitiveKind) : gostring :=
  match kind with
  | PrimitiveBool => lit "Bool" | PrimitiveString => lit "String" | PrimitiveInt => lit "Int" | PrimitiveInt8 => lit "Int8" | PrimitiveInt16 => lit "Int16"
  | PrimitiveInt32 => lit "Int32" | PrimitiveInt64 => lit "Int64" | PrimitiveUint => lit "Uint" | PrimitiveUint8 => lit "Uint8" | PrimitiveUint16 => lit "Uint16"
  | PrimitiveUint32 => lit "Uint32" | PrimitiveUint64 => lit "Uint64" | PrimitiveUintptr => lit "Uintptr" | PrimitiveFloat32 => lit "Float32"
  | PrimitiveFloat64 => lit "Float64" | PrimitiveComplex64 => lit "Complex64" | PrimitiveComplex128 => lit "Complex128" | PrimitiveError => lit "Error"
  | PrimitiveFunction => lit "Function" | PrimitiveInvalid => []
  end.

(** [strings.Join]. *)
Fixpoint strings_Join (parts : list gostring) (sep : gostring) : gostring :=
  match parts with [] => [] | [part] => part | part :: rest => part ++ sep ++ strings_Join rest sep end.

Definition key_text (key : TypeKey) : gostring := ModulePath key ++ lit "." ++ DeclID key.

(** [formatFunctionSignature], with the texts of the parameters and of the results. *)
Definition signature_text (variadic : bool) (params results : list gostring) : gostring :=
  let params := if variadic then match rev params with [] => [] | p :: rest => rev rest ++ [lit "variadic " ++ p] end else params in
  lit "function(" ++ strings_Join params (lit ", ") ++ lit ")" ++
  match results with [] => [] | [r] => lit " " ++ r | _ => lit " tuple(" ++ strings_Join results (lit ", ") ++ lit ")" end.

Definition field_text (field : Field) (type : gostring) : gostring :=
  (if Embedded field then lit "embedded " else []) ++ FName field ++ lit ":" ++ type ++ (if bool_decide (FTag field = []) then [] else lit " `" ++ FTag field ++ lit "`").

(** The members of an interface: the union first, then the other terms, then the methods. *)
Definition interface_text (terms : list (TypeTerm * gostring)) (methods : list gostring) : gostring :=
  let text q := if Approx (fst q) then lit "~" ++ snd q else snd q in
  let union := map text (List.filter (fun q => Union (fst q)) terms) in
  let members := map text (List.filter (fun q => negb (Union (fst q))) terms) in
  lit "interface{" ++ strings_Join ((if bool_decide (length union = 0%nat) then [] else [strings_Join union (lit "|")]) ++ members ++ methods) (lit ",") ++ lit "}".

(** [formatRef]; [look] is the lookup in the table, which finds nothing in a nil table, and [seen] are the
    nodes being printed.  A call for a node has one more of them; [None] means that the fuel ran out. *)
Fixpoint formatRef (fuel : nat) (look : TypeRef -> option TypeNode) (seen : list gostring) (ref : TypeRef) : option gostring :=
  match fuel with
  | O => None
  | S fuel =>
      match RKind ref with
      | Void => Some (lit "Void")
      | Any => Some (lit "Any")
      | Primitive => Some (PrimitiveName (RPrimitive ref))
      | Named => Some (key_text (RNamed ref))
      | _ =>
          if bool_decide (RNode ref = []) || bool_decide (RNode ref ∈ seen) then Some (KindName (RKind ref))
          else
            match look ref with
            | None => Some (KindName (RKind ref))
            | Some node =>
                let format := formatRef fuel look (RNode ref :: seen) in
                let signature s := params ← mapM format (Params s); results ← mapM format (Results s); Some (signature_text (Variadic s) params results) in
                match NKind node with
                | Slice => elem ← format (Elem node); Some (lit "Slice<" ++ elem ++ lit ">")
                | Array => elem ← format (Elem node); Some (lit "Array<" ++ FormatInt (Length node) ++ lit ", " ++ elem ++ lit ">")
                | Map => key ← format (Key node); elem ← format (Elem node); Some (lit "Map<" ++ key ++ lit ", " ++ elem ++ lit ">")
                | Pointer => elem ← format (Elem node); Some (lit "Ptr<" ++ elem ++ lit ">")
                | Waitable =>
                    elem ← format (Elem node);
                    Some (match Direction node with ChannelReceive => lit "ReceiveWaitable<" | ChannelSend => lit "SendWaitable<" | _ => lit "Waitable<" end ++ elem ++ lit ">")
                | Function => match Signature node with None => Some (lit "function() Void") | Some s => signature s end
                | Struct =>
                    fields ← mapM (fun field => type ← format (FType field); Some (field_text field type)) (Fields node);
                    Some (lit "struct{" ++ strings_Join fields (lit ",") ++ lit "}")
                | Interface =>
                    if bool_decide (NName node = lit "comparable") && TypeSet node && bool_decide (length (Terms node) = 0%nat) && bool_decide (length (Methods node) = 0%nat)
                    then Some (lit "Comparable")
                    else
                      terms ← mapM (fun term => type ← format (TType term); Some (term, type)) (Terms node);
                      methods ← mapM (fun m => text ← signature (MSignature m); Some (MName m ++ lit ":" ++ text)) (Methods node);
                      Some (interface_text terms methods)
                | TypeParameter => Some (if bool_decide (NName node = []) then KindName (NKind node) else NName node)
                | Instance_ => base ← format (Base node); args ← mapM format (TypeArgs node); Some (lit "Instance<" ++ strings_Join (base :: args) (lit ", ") ++ lit ">")
                | _ => Some (if emptyTypeKey (Identity node) then KindName (NKind node) else key_text (Identity node))
                end
            end
      end
  end.

Definition format_fuel (t : TypeTable) : nat := S (length (Nodes t)).

(** [Format], without a table. *)
Definition Format (ref : TypeRef) : option gostring := formatRef 1 (fun _ => None) [] ref.

Definition format_in (t : TypeTable) (ref : TypeRef) : option gostring := formatRef (format_fuel t) (fun ref => Node (Some t) ref) [] ref.

(** [FormatWithTable]; the table it leaves comes second. *)
Definition FormatWithTable (t : option TypeTable) (ref : TypeRef) : option gostring * option TypeTable :=
  match t with
  | None => (Format ref, None)
  | Some t =>
      match indexed t with
      | Err _ => (format_in t ref, Some t)
      | Ok t =>
          match lookup_ref ref (formattedCache t) with
          | Some text => (Some text, Some t)
          | None =>
              match format_in t ref with
              | Some text => (Some text, Some (mkTable (Nodes t) (byID t) (byName t) (underlyingCache t) ((ref, text) :: formattedCache t) (exactCache t) (owned t)))
              | None => (None, Some t)
              end
          end
      end
  end.

(** ** Exactness *)

(** The references of a node in the order of [TypeExact]. *)
Definition exact_refs (node : TypeNode) : list TypeRef :=
  [AliasTarget node; NUnderlying node; Elem node; Key node; NConstraint node; Base node] ++ TypeArgs node ++ NTuple node ++ map FType (Fields node) ++
  match Signature node with None => [] | Some s => signature_refs s end ++
  concat (map (fun m => Receiver m :: signature_refs (MSignature m)) (Methods node)) ++ map TType (Terms node).

Definition unresolved (node : TypeNode) : bool :=
  (bool_decide (NKind node = Named) && negb (Alias node) && negb (Valid (NUnderlying node))) || (bool_decide (NKind node = Array) && (Length node =? UnknownArrayLength)).

(** The closure [exact]; [seen] is the map it shares between its calls. *)
Fixpoint exact (fuel : nat) (t : TypeTable) (current : TypeRef) (seen : list TypeRef) : result type_error (bool * list TypeRef) :=
  match fuel with
  | O => Err OutOfFuel
  | S fuel =>
      if bool_decide (RNode current = []) || negb (Valid current) then Ok (true, seen)
      else if bool_decide (RKind current = TypeParameter) || bool_decide (RKind current = Instance_) then Ok (false, seen)
      else if bool_decide (current ∈ exactCache t) || bool_decide (current ∈ seen) then Ok (true, seen)
      else
        let seen := current :: seen in
        match Node (Some t) current with
        | None => Ok (false, seen)
        | Some node =>
            if unresolved node then Ok (false, seen)
            else
              (fix exact_all (refs : list TypeRef) (seen : list TypeRef) : result type_error (bool * list TypeRef) :=
                 match refs with
                 | [] => Ok (true, seen)
                 | ref :: rest =>
                     let? q := exact fuel t ref seen in
                     if fst q then exact_all rest (snd q) else Ok (false, snd q)
                 end) (exact_refs node) seen
        end
  end.

(** Each nested call has one more reference in [seen]. *)
Definition exact_fuel (t : TypeTable) : nat := (length (concat (map exact_refs (Nodes t))) + 3)%nat.

(** The references seen are remembered while there are fewer of them than nodes. *)
Fixpoint remember_exact (bound : nat) (refs : list TypeRef) (cache : list TypeRef) : list TypeRef :=
  match refs with
  | [] => cache
  | ref :: rest =>
      if (bound <=? length cache)%nat then cache
      else remember_exact bound rest (if bool_decide (ref ∈ cache) then cache else ref :: cache)
  end.

Section exactness.
  (** The order in which Go iterates over a map. *)
  Context (iterate : list TypeRef -> list TypeRef).

Definition TypeExact (t : option TypeTable) (ref : TypeRef) : result type_error (bool * option TypeTable) :=
  if negb (Valid ref) then Ok (false, t)
  else if bool_decide (RNode ref = []) then Ok (true, t)
  else match t with
       | None => Ok (false, None)
       | Some t =>
           match indexed t with
           | Err _ => Ok (false, Some t)
           | Ok t =>
               if bool_decide (ref ∈ exactCache t) then Ok (true, Some t)
               else
                 let? q := exact (exact_fuel t) t ref [] in
                 Ok (fst q, Some (if fst q then
                   mkTable (Nodes t) (byID t) (byName t) (underlyingCache t) (formattedCache t) (remember_exact (length (Nodes t)) (iterate (snd q)) (exactCache t)) (owned t)
                 else t))
           end
       end.
End exactness.
