(* ===== verification/TypeTableSafe.v ===== *)
(** * The invariant of type tables (src/compiler/types)

    The indexes of a table agree with its list of nodes, its caches with what they stand for, and every
    operation keeps it so. *)

From S2P Require Import Prelude GoStd GoBytes.
From stdpp Require Import relations.
From S2P Require Import TypeTable.

#[local] Open Scope Z_scope.
#[local] Arguments Z.to_nat : simpl never.

(** ** References, mentions and shapes *)

(** The proper references: the two builtin types, the primitive ones, a named type by declaration or by
    node, and any other type by its node. *)
Inductive proper_ref : TypeRef -> Prop :=
| proper_void : proper_ref (mkRef Void PrimitiveInvalid no_key [])
| proper_any : proper_ref (mkRef Any PrimitiveInvalid no_key [])
| proper_primitive p : p <> PrimitiveInvalid -> proper_ref (mkRef Primitive p no_key [])
| proper_declared p module decl id : module <> [] -> decl <> [] -> proper_ref (mkRef Named p (mkKey module decl) id)
| proper_named p key id : id <> [] -> proper_ref (mkRef Named p key id)
| proper_node kind id : kind ∉ [Void; Any; Primitive; Named] -> id <> [] -> proper_ref (mkRef kind PrimitiveInvalid no_key id).

Lemma emptyTypeKey_eq key : emptyTypeKey key = bool_decide (key = no_key).
Proof.
  unfold emptyTypeKey, no_key. destruct key as [m d]. cbn [ModulePath DeclID]. rewrite <- bool_decide_and. apply bool_decide_ext.
  split; [by intros [-> ->]|by intros [= -> ->]].
Qed.

Lemma Valid_proper ref : Valid ref = true <-> proper_ref ref.
Proof.
  split.
  - destruct ref as [kind p [m d] id]. unfold Valid. cbn [RKind RPrimitive RNamed RNode ModulePath DeclID].
    assert (forall kind, kind ∉ [Void; Any; Primitive; Named] -> negb (bool_decide (id = [])) && bool_decide (p = PrimitiveInvalid) && bool_decide (m = []) && bool_decide (d = []) = true ->
      proper_ref (mkRef kind p (mkKey m d) id)) as Hnode.
    { intros k Hk. rewrite !andb_true_iff, negb_true_iff, bool_decide_eq_false, !bool_decide_eq_true. intros [[[Hi ->] ->] ->]. by constructor. }
    destruct kind; try (apply Hnode; rewrite !not_elem_of_cons; split_and!; try done; apply not_elem_of_nil);
      rewrite ?orb_true_iff, ?andb_true_iff, ?negb_true_iff, ?bool_decide_eq_false, ?bool_decide_eq_true.
    + intros [[[-> ->] ->] ->]. constructor.
    + intros [[[-> ->] ->] ->]. constructor.
    + intros [[[Hp ->] ->] ->]. by constructor.
    + intros [[Hm Hd]|Hi]; [by apply proper_declared|by apply proper_named].
  - intros H. destruct H as [| |p Hp|p module decl id Hm Hd|p key id Hi|kind id Hk Hi]; unfold Valid; cbn [RKind RPrimitive RNamed RNode ModulePath DeclID no_key]; [done|done| | | |].
    + by rewrite bool_decide_false.
    + by rewrite (bool_decide_false (module = [])), (bool_decide_false (decl = [])).
    + rewrite (bool_decide_false (id = [])) by done. apply orb_true_r.
    + rewrite !not_elem_of_cons in Hk. destruct Hk as (K1 & K2 & K3 & K4 & _). destruct kind; try congruence; by rewrite (bool_decide_false (id = [])).
Qed.

#[export] Instance proper_ref_dec ref : Decision (proper_ref ref).
Proof. destruct (Valid ref) eqn:E; [left; by apply Valid_proper|right; rewrite <- Valid_proper; congruence]. Defined.

Lemma Valid_improper ref : Valid ref = false <-> ~ proper_ref ref.
Proof. rewrite <- Valid_proper. destruct (Valid ref); split; congruence. Qed.

(** The types that a declaration mentions. *)
Inductive mentions (node : TypeNode) : TypeRef -> Prop :=
| mentions_alias : mentions node (AliasTarget node)
| mentions_underlying : mentions node (NUnderlying node)
| mentions_elem : mentions node (Elem node)
| mentions_key : mentions node (Key node)
| mentions_constraint : mentions node (NConstraint node)
| mentions_base : mentions node (Base node)
| mentions_argument r : r ∈ TypeArgs node -> mentions node r
| mentions_component r : r ∈ NTuple node -> mentions node r
| mentions_parameter s r : Signature node = Some s -> r ∈ Params s -> mentions node r
| mentions_result s r : Signature node = Some s -> r ∈ Results s -> mentions node r
| mentions_field f : f ∈ Fields node -> mentions node (FType f)
| mentions_receiver m : m ∈ Methods node -> mentions node (Receiver m)
| mentions_method_parameter m r : m ∈ Methods node -> r ∈ Params (MSignature m) -> mentions node r
| mentions_method_result m r : m ∈ Methods node -> r ∈ Results (MSignature m) -> mentions node r
| mentions_term x : x ∈ Terms node -> mentions node (TType x).

Definition mention_parts (node : TypeNode) (r : TypeRef) : Prop :=
  r ∈ [AliasTarget node; NUnderlying node; Elem node; Key node; NConstraint node; Base node] \/ r ∈ TypeArgs node \/ r ∈ NTuple node \/
  (exists s, Signature node = Some s /\ (r ∈ Params s \/ r ∈ Results s)) \/ (exists f, f ∈ Fields node /\ r = FType f) \/
  (exists m, m ∈ Methods node /\ (r = Receiver m \/ r ∈ Params (MSignature m) \/ r ∈ Results (MSignature m))) \/ exists x, x ∈ Terms node /\ r = TType x.

Lemma mentions_parts node r : mentions node r <-> mention_parts node r.
Proof.
  split.
  - intros []; unfold mention_parts; rewrite ?elem_of_cons; naive_solver.
  - intros [H|[H|[H|[(s & Hs & [H|H])|[(f & Hf & ->)|[(m & Hm & [->|[H|H]])|(x & Hx & ->)]]]]]]; try (by econstructor).
    rewrite !elem_of_cons in H. destruct H as [->|[->|[->|[->|[->|[->|H]]]]]]; try constructor. by apply not_elem_of_nil in H.
Qed.

Lemma elem_of_signature s r : r ∈ signature_refs s <-> r ∈ Params s \/ r ∈ Results s.
Proof. apply elem_of_app. Qed.

Lemma elem_of_methods ms r : r ∈ concat (map (fun m => Receiver m :: signature_refs (MSignature m)) ms) <->
  exists m, m ∈ ms /\ (r = Receiver m \/ r ∈ Params (MSignature m) \/ r ∈ Results (MSignature m)).
Proof.
  rewrite list_elem_of_In, in_concat. split.
  - intros (l & Hl & Hr). apply in_map_iff in Hl as (m & <- & Hm). exists m. apply list_elem_of_In in Hm, Hr. rewrite elem_of_cons, elem_of_signature in Hr. done.
  - intros (m & Hm & Hr). exists (Receiver m :: signature_refs (MSignature m)). rewrite <- !list_elem_of_In, elem_of_cons, elem_of_signature. split; [apply list_elem_of_In, in_map_iff; exists m; split; [done|by apply list_elem_of_In]|done].
Qed.

Lemma elem_of_option_signature (o : option FunctionSignature) r :
  r ∈ match o with None => [] | Some s => signature_refs s end <-> exists s, o = Some s /\ (r ∈ Params s \/ r ∈ Results s).
Proof.
  destruct o as [s|]; [rewrite elem_of_signature|]; split.
  - intros H. by exists s.
  - by intros (s' & [= <-] & H).
  - by intros ?%not_elem_of_nil.
  - by intros (s' & ? & _).
Qed.

Lemma elem_of_image {A} (f : A -> TypeRef) l r : r ∈ map f l <-> exists x, x ∈ l /\ r = f x.
Proof. rewrite list_elem_of_fmap. split; intros (x & ? & ?); by exists x. Qed.

Lemma elem_of_nodeRefs node r : r ∈ nodeRefs node <-> mentions node r.
Proof. rewrite mentions_parts. unfold nodeRefs, mention_parts. by rewrite !elem_of_app, elem_of_option_signature, elem_of_methods, !elem_of_image. Qed.

Lemma elem_of_exact_refs node r : r ∈ exact_refs node <-> mentions node r.
Proof. rewrite mentions_parts. unfold exact_refs, mention_parts. rewrite !elem_of_app, elem_of_option_signature, elem_of_methods, !elem_of_image. tauto. Qed.

(** What a node of each kind needs.  Type parameters, instances and arrays of unknown length are for the
    compiler only. *)
Inductive shaped (compiler : bool) (node : TypeNode) : Prop :=
| shaped_primitive : NKind node = Primitive -> NPrimitive node <> PrimitiveInvalid -> shaped compiler node
| shaped_alias : NKind node = Named -> ModulePath (Identity node) <> [] -> DeclID (Identity node) <> [] -> Alias node = true -> shaped compiler node
| shaped_defined : NKind node = Named -> ModulePath (Identity node) <> [] -> DeclID (Identity node) <> [] -> Alias node = false -> proper_ref (NUnderlying node) -> shaped compiler node
| shaped_slice : NKind node = Slice -> proper_ref (Elem node) -> shaped compiler node
| shaped_pointer : NKind node = Pointer -> proper_ref (Elem node) -> shaped compiler node
| shaped_array : NKind node = Array -> proper_ref (Elem node) -> 0 <= Length node -> shaped compiler node
| shaped_open_array : NKind node = Array -> proper_ref (Elem node) -> compiler = true -> Length node = -1 -> shaped compiler node
| shaped_map : NKind node = Map -> proper_ref (Key node) -> proper_ref (Elem node) -> shaped compiler node
| shaped_waitable : NKind node = Waitable -> proper_ref (Elem node) -> Direction node ∈ [ChannelBoth; ChannelReceive; ChannelSend] -> shaped compiler node
| shaped_function s : NKind node = Function -> Signature node = Some s -> (Variadic s = true -> Params s <> []) -> shaped compiler node
| shaped_members : NKind node ∈ [Tuple; Struct; Interface] -> shaped compiler node
| shaped_parameter : NKind node = TypeParameter -> compiler = true -> proper_ref (NConstraint node) -> shaped compiler node
| shaped_instance : NKind node = Instance_ -> compiler = true -> proper_ref (Base node) -> TypeArgs node <> [] -> shaped compiler node.

Lemma channel_range d : (1 <=? channel_code d) && (channel_code d <=? 3) = true <-> d ∈ [ChannelBoth; ChannelReceive; ChannelSend].
Proof.
  rewrite !elem_of_cons, elem_of_nil. destruct d as [| | | |code]; cbn [channel_code]; (split; [intros H; breflect; try lia; try done; by auto|]);
    by intros [?|[?|[?|[]]]].
Qed.

Lemma shape_exact compiler node : validNodeShape node compiler = true <-> shaped compiler node.
Proof.
  unfold validNodeShape. split.
  - destruct (NKind node) eqn:Hk; intros H; try done.
    + apply shaped_primitive; [done|]. by apply negb_true_iff, bool_decide_eq_false in H.
    + rewrite !andb_true_iff, !negb_true_iff, !bool_decide_eq_false in H. destruct H as [[Hm Hd] H]. destruct (Alias node) eqn:Ha; [by apply shaped_alias|]. apply shaped_defined; try done. by apply Valid_proper.
    + apply shaped_slice; [done|]. by apply Valid_proper.
    + rewrite andb_true_iff, orb_true_iff, andb_true_iff, Z.leb_le, Z.eqb_eq, Valid_proper in H. destruct H as [He [Hl|[Hc Hl]]]; [by apply shaped_array|by apply shaped_open_array].
    + rewrite andb_true_iff, !Valid_proper in H. destruct H. by apply shaped_map.
    + apply shaped_pointer; [done|]. by apply Valid_proper.
    + rewrite <- andb_assoc, andb_true_iff, Valid_proper in H. destruct H as [He Hd]. apply shaped_waitable; [done|done|]. by apply channel_range.
    + destruct (Signature node) as [s|] eqn:Es; [|done]. apply (shaped_function _ _ s); [done|done|]. intros Hv. rewrite Hv in H. cbn in H. by apply negb_true_iff, bool_decide_eq_false in H.
    + apply shaped_members. rewrite Hk. left.
    + apply shaped_members. rewrite Hk. right. left.
    + apply shaped_members. rewrite Hk. right. right. left.
    + rewrite andb_true_iff, Valid_proper in H. destruct H. by apply shaped_parameter.
    + rewrite !andb_true_iff, Valid_proper, negb_true_iff, bool_decide_eq_false in H. destruct H as [[? ?] ?]. by apply shaped_instance.
  - intros [Hk H|Hk Hm Hd Ha|Hk Hm Hd Ha H|Hk H|Hk H|Hk H Hl|Hk H Hc Hl|Hk H H2|Hk H Hd|s Hk Hs H|Hk|Hk Hc H|Hk Hc H H2]; try rewrite Hk.
    + by apply negb_true_iff, bool_decide_eq_false.
    + rewrite Ha. by rewrite !bool_decide_false.
    + apply Valid_proper in H. rewrite Ha, H. by rewrite !bool_decide_false.
    + by apply Valid_proper.
    + by apply Valid_proper.
    + apply Valid_proper in H. rewrite H. by rewrite (proj2 (Z.leb_le _ _)).
    + apply Valid_proper in H. by rewrite H, Hc, Hl.
    + apply Valid_proper in H, H2. by rewrite H, H2.
    + apply Valid_proper in H. rewrite H. rewrite <- andb_assoc. by apply channel_range in Hd.
    + rewrite Hs. destruct (Variadic s); [|done]. cbn. apply negb_true_iff, bool_decide_eq_false. by apply H.
    + rewrite !elem_of_cons, elem_of_nil in Hk. by destruct Hk as [->|[->|[->|[]]]].
    + apply Valid_proper in H. by rewrite Hc, H.
    + apply Valid_proper in H. rewrite Hc, H. by rewrite bool_decide_false.
Qed.

(** A node with nothing left open: a definition has its underlying type and an array its length. *)
Definition resolved (node : TypeNode) : Prop :=
  (NKind node = Named -> Alias node = false -> proper_ref (NUnderlying node)) /\ (NKind node = Array -> Length node <> -1).

Lemma unresolved_resolved node : unresolved node = false <-> resolved node.
Proof.
  unfold unresolved, resolved, UnknownArrayLength. rewrite orb_false_iff, !andb_false_iff, !bool_decide_eq_false, !negb_false_iff, Z.eqb_neq, Valid_proper.
  destruct (decide (NKind node = Named)) as [Hn|Hn], (decide (NKind node = Array)) as [Ha|Ha], (Alias node); intuition congruence.
Qed.

(** ** The indexes of the first nodes *)

Record index_upto (k : nat) (t : TypeTable) : Prop := {
  iu_ids : forall id i, byID t !! id = Some i <-> (i < k)%nat /\ exists node, Nodes t !! i = Some node /\ NID node = id;
  iu_names : forall key id, byName t !! key = Some id <-> key <> no_key /\ exists i node, (i < k)%nat /\ Nodes t !! i = Some node /\ Identity node = key /\ NID node = id;
  iu_nonempty : forall i node, (i < k)%nat -> Nodes t !! i = Some node -> NID node <> []
}.

Definition index_ok (t : TypeTable) : Prop := index_upto (length (Nodes t)) t.

(** Nodes that can be indexed: they have names, and no two share a name or a declaration. *)
Record well_keyed (nodes : list TypeNode) : Prop := {
  wk_nonempty : forall i node, nodes !! i = Some node -> NID node <> [];
  wk_ids : forall i j x y, nodes !! i = Some x -> nodes !! j = Some y -> NID x = NID y -> i = j;
  wk_names : forall i j x y, nodes !! i = Some x -> nodes !! j = Some y -> Identity x = Identity y -> Identity x <> no_key -> i = j
}.

Definition same_but_index (t t' : TypeTable) : Prop :=
  Nodes t' = Nodes t /\ underlyingCache t' = underlyingCache t /\ formattedCache t' = formattedCache t /\ exactCache t' = exactCache t /\ owned t' = owned t.

Lemma index_upto_ids k t i j x y : index_upto k t -> (i < k)%nat -> (j < k)%nat -> Nodes t !! i = Some x -> Nodes t !! j = Some y -> NID x = NID y -> i = j.
Proof.
  intros U Hi Hj Hx Hy E. assert (byID t !! NID x = Some i) as E1 by (apply (iu_ids _ _ U); eauto). assert (byID t !! NID x = Some j) as E2 by (apply (iu_ids _ _ U); rewrite E; eauto). congruence.
Qed.

Lemma index_upto_names k t i j x y : index_upto k t -> (i < k)%nat -> (j < k)%nat -> Nodes t !! i = Some x -> Nodes t !! j = Some y ->
  Identity x = Identity y -> Identity x <> no_key -> i = j.
Proof.
  intros U Hi Hj Hx Hy E Hk. assert (byName t !! Identity x = Some (NID x)) as E1 by (apply (iu_names _ _ U); split; [done|]; by exists i, x).
  assert (byName t !! Identity x = Some (NID y)) as E2 by (apply (iu_names _ _ U); split; [done|]; exists j, y; by rewrite E). eapply index_upto_ids; eauto. congruence.
Qed.

Lemma index_ok_keyed t : index_ok t -> well_keyed (Nodes t).
Proof.
  intros U. split.
  - intros i node Hi. eapply (iu_nonempty _ _ U); [by eapply lookup_lt_Some|done].
  - intros i j x y Hx Hy. eapply index_upto_ids; eauto using lookup_lt_Some.
  - intros i j x y Hx Hy. eapply index_upto_names; eauto using lookup_lt_Some.
Qed.

(** One more node. *)
Lemma index_insert k t t' node : index_upto k t -> Nodes t' = Nodes t -> Nodes t !! k = Some node -> NID node <> [] -> byID t !! NID node = None ->
  (Identity node <> no_key -> byName t !! Identity node = None) ->
  byID t' = <[NID node := k]> (byID t) -> byName t' = (if bool_decide (Identity node = no_key) then byName t else <[Identity node := NID node]> (byName t)) -> index_upto (S k) t'.
Proof.
  intros U En Hk Hne Hid Hnm Ei Em. split.
  - intros id i. rewrite Ei, En. destruct (decide (id = NID node)) as [->|Hn].
    + rewrite lookup_insert_eq. split; [intros E; injection E as <-; split; [lia|eauto]|]. intros [Hi (x & Hx & Ex)]. destruct (decide (i = k)) as [->|]; [done|].
      assert (byID t !! NID node = Some i) as E by (apply (iu_ids _ _ U); split; [lia|eauto]). congruence.
    + rewrite lookup_insert_ne by done. rewrite (iu_ids _ _ U). split; intros [Hi Hx]; (split; [lia|done]) || (split; [|done]).
      destruct Hx as (x & Hx & Ex). destruct (decide (i = k)) as [->|]; [congruence|lia].
  - intros key id. rewrite Em, En. case_bool_decide as Ek.
    + rewrite (iu_names _ _ U). split; intros [He (i & x & Hi & Hx & Exk & Exi)]; (split; [done|]); exists i, x; (split; [|done]); [lia|].
      destruct (decide (i = k)) as [->|]; [|lia]. assert (x = node) as -> by congruence. subst key. congruence.
    + destruct (decide (key = Identity node)) as [->|Hn].
      * rewrite lookup_insert_eq. split; [intros E; injection E as <-; split; [done|]; exists k, node; split; [lia|done]|]. intros [_ (i & x & Hi & Hx & Exk & Exi)].
        destruct (decide (i = k)) as [->|]; [congruence|]. specialize (Hnm Ek). assert (byName t !! Identity node = Some id) as E; [|congruence]. apply (iu_names _ _ U). split; [done|]. exists i, x. split; [lia|done].
      * rewrite lookup_insert_ne by done. rewrite (iu_names _ _ U). split; intros [He (i & x & Hi & Hx & Exk & Exi)]; (split; [done|]); exists i, x; (split; [|done]); [lia|].
        destruct (decide (i = k)) as [->|]; [|lia]. congruence.
  - intros i x Hi. rewrite En. intros Hx. destruct (decide (i = k)) as [->|]; [congruence|]. eapply (iu_nonempty _ _ U); [|done]. lia.
Qed.

Lemma index_node_spec k t node : index_upto k t -> Nodes t !! k = Some node ->
  (exists t', index_node k node t = (None, t') /\ index_upto (S k) t' /\ same_but_index t t') \/
  ((exists e t', index_node k node t = (Some e, t')) /\ ~ well_keyed (Nodes t)).
Proof.
  intros U Hk. pose proof (lookup_lt_Some _ _ _ Hk) as Hlen. unfold index_node. rewrite emptyTypeKey_eq. case_bool_decide as H1; [right; split; [by do 2 eexists|]; intros W; by eapply wk_nonempty|].
  case_bool_decide as H2.
  { right. split; [by do 2 eexists|]. intros W. destruct H2 as [i Hi]. apply (iu_ids _ _ U) in Hi as [Hi (x & Hx & Ex)]. pose proof (wk_ids _ W _ _ _ _ Hx Hk Ex). lia. }
  apply eq_None_not_Some in H2. case_bool_decide as Ek; [|cbn [byName]; case_bool_decide as H3].
  - left. eexists. split; [done|]. split; [|done]. eapply index_insert; try done. by rewrite bool_decide_true.
  - right. split; [by do 2 eexists|]. intros W. destruct H3 as [id Hid]. apply (iu_names _ _ U) in Hid as [_ (i & x & Hi & Hx & Exk & Exi)]. pose proof (wk_names _ W _ _ _ _ Hx Hk Exk ltac:(congruence)). lia.
  - apply eq_None_not_Some in H3. left. eexists. split; [done|]. split; [|done]. eapply index_insert; try done. by rewrite bool_decide_false.
Qed.

Lemma index_nodes_spec nodes : forall k t, index_upto k t -> drop k (Nodes t) = nodes ->
  (exists t', index_nodes k nodes t = (None, t') /\ index_upto (k + length nodes) t' /\ same_but_index t t') \/
  ((exists e t', index_nodes k nodes t = (Some e, t')) /\ ~ well_keyed (Nodes t)).
Proof.
  induction nodes as [|node nodes IH]; intros k t U Hd; cbn [index_nodes length].
  - left. exists t. rewrite Nat.add_0_r. done.
  - assert (Nodes t !! k = Some node) as Hk by (rewrite <- (Nat.add_0_r k), <- lookup_drop, Hd; done).
    assert (drop (S k) (Nodes t) = nodes) as Hd' by (rewrite <- Nat.add_1_r, <- drop_drop, Hd; done).
    destruct (index_node_spec k t node U Hk) as [(t1 & E1 & U1 & S1)|[(e & t1 & E) W]]; [|right; rewrite E; split; [by do 2 eexists|done]].
    rewrite E1. destruct S1 as (En & S1). rewrite <- En in Hd'. destruct (IH (S k) t1 U1 Hd') as [(t2 & E2 & U2 & S2)|[He W]].
    + left. exists t2. rewrite E2. split; [done|]. replace (k + S (length nodes))%nat with (S k + length nodes)%nat by lia. split; [done|]. destruct S2 as (En2 & S2). unfold same_but_index. rewrite En2. intuition congruence.
    + right. split; [done|]. by rewrite <- En.
Qed.

(** A table whose indexes are owned and exact, with empty caches. *)
Lemma rebuild_spec t :
  (exists t', rebuildIndexes t = Ok t' /\ index_ok t' /\ Nodes t' = Nodes t /\ underlyingCache t' = [] /\ formattedCache t' = [] /\ exactCache t' = [] /\ owned t' = true /\ well_keyed (Nodes t)) \/
  ((exists e, rebuildIndexes t = Err e) /\ ~ well_keyed (Nodes t)).
Proof.
  unfold rebuildIndexes, Reindex. set (t0 := mkTable (Nodes t) ∅ ∅ [] [] [] (owned t)).
  assert (index_upto 0 t0) as U0.
  { split; [|  |intros; lia].
    - intros id i. cbn. rewrite lookup_empty. split; [done|intros [? _]; lia].
    - intros key id. cbn. rewrite lookup_empty. split; [done|intros (_ & i & x & ? & _); lia]. }
  destruct (index_nodes_spec (Nodes t) 0 t0 U0 (drop_0 _)) as [(t1 & E1 & U1 & (En & Eu & Ef & Ee & Eo))|[(e & t1 & E) W]].
  - left. rewrite E1. eexists. split; [done|]. cbn [Nodes underlyingCache formattedCache exactCache owned]. cbn in U1. rewrite En in *. cbn [Nodes t0] in *.
    assert (index_ok (mkTable (Nodes t) (byID t1) (byName t1) (underlyingCache t1) (formattedCache t1) (exactCache t1) true)) as U.
    { unfold index_ok. cbn [Nodes]. destruct U1 as [A B C]. rewrite En in *. split; done. }
    split; [done|]. split_and!; try done. by apply index_ok_keyed in U.
  - right. rewrite E. split; [by eexists|done].
Qed.

(** ** Lookups *)

(** What a list of nodes says about an identifier, a declaration and a reference. *)
Definition node_at (nodes : list TypeNode) (ref : TypeRef) : option TypeNode :=
  if bool_decide (RNode ref = []) then None else List.find (fun node => bool_decide (NID node = RNode ref)) nodes.

Definition named_at (nodes : list TypeNode) (key : TypeKey) : option TypeNode :=
  if bool_decide (key = no_key) then None else List.find (fun node => bool_decide (Identity node = key)) nodes.

Definition node_for (nodes : list TypeNode) (ref : TypeRef) : option TypeNode :=
  if bool_decide (RKind ref = Named) && bool_decide (RNode ref = []) then named_at nodes (RNamed ref) else node_at nodes ref.

Lemma find_lookup {A} (f : A -> bool) l x : List.find f l = Some x -> exists i, l !! i = Some x /\ f x = true.
Proof. intros H. apply find_some in H as [Hin Hf]. apply list_elem_of_In, list_elem_of_lookup in Hin as [i Hi]. by exists i. Qed.

Lemma find_unique {A} (f : A -> bool) (l : list A) i x : l !! i = Some x -> f x = true -> (forall j y, l !! j = Some y -> f y = true -> j = i) -> List.find f l = Some x.
Proof.
  intros Hi Hf Hu. destruct (List.find f l) as [y|] eqn:E.
  - apply find_lookup in E as (j & Hj & Hy). pose proof (Hu j y Hj Hy). congruence.
  - eapply find_none in E; [|apply list_elem_of_In; by eapply list_elem_of_lookup_2]. congruence.
Qed.

Lemma find_id nodes i x : well_keyed nodes -> nodes !! i = Some x -> List.find (fun node => bool_decide (NID node = NID x)) nodes = Some x.
Proof.
  intros W Hi. eapply find_unique; [done|by apply bool_decide_eq_true|]. intros j y Hj E%bool_decide_eq_true. by eapply wk_ids.
Qed.

Lemma find_name nodes i x : well_keyed nodes -> nodes !! i = Some x -> Identity x <> no_key -> List.find (fun node => bool_decide (Identity node = Identity x)) nodes = Some x.
Proof.
  intros W Hi Hk. eapply find_unique; [done|by apply bool_decide_eq_true|]. intros j y Hj E%bool_decide_eq_true. eapply wk_names; try done. by rewrite E.
Qed.

Lemma node_at_in nodes ref x : node_at nodes ref = Some x -> x ∈ nodes /\ NID x = RNode ref.
Proof. unfold node_at. case_bool_decide; [done|]. intros (i & Hi & E%bool_decide_eq_true)%find_lookup. split; [by eapply list_elem_of_lookup_2|done]. Qed.

Lemma node_for_in nodes ref x : node_for nodes ref = Some x -> x ∈ nodes.
Proof.
  unfold node_for, named_at. destruct (bool_decide _ && _); [|by intros [? _]%node_at_in]. case_bool_decide; [done|].
  intros (i & Hi & _)%find_lookup. by eapply list_elem_of_lookup_2.
Qed.

Lemma index_lookup t ref : index_ok t -> (i ← byID t !! RNode ref; Nodes t !! i) = List.find (fun node => bool_decide (NID node = RNode ref)) (Nodes t).
Proof.
  intros U. pose proof (index_ok_keyed t U) as W. destruct (byID t !! RNode ref) as [i|] eqn:E; cbn.
  - apply (iu_ids _ _ U) in E as [_ (x & Hx & <-)]. rewrite Hx. symmetry. by eapply find_id.
  - destruct (List.find _ _) as [x|] eqn:Ef; [|done]. apply find_lookup in Ef as (i & Hi & Ex%bool_decide_eq_true).
    assert (byID t !! RNode ref = Some i); [|congruence]. apply (iu_ids _ _ U). split; [by eapply lookup_lt_Some|eauto].
Qed.

Lemma Node_owned t ref : owned t = true -> index_ok t -> Node (Some t) ref = node_at (Nodes t) ref.
Proof. intros Ho U. unfold Node, node_at, indexed. rewrite Ho. case_bool_decide; [done|]. by apply index_lookup. Qed.

Lemma NamedNode_owned t key : owned t = true -> index_ok t -> NamedNode (Some t) key = named_at (Nodes t) key.
Proof.
  intros Ho U. pose proof (index_ok_keyed t U) as W. unfold NamedNode, named_at, indexed. rewrite Ho. destruct (byName t !! key) as [id|] eqn:E; cbn [mbind option_bind].
  - apply (iu_names _ _ U) in E as [Hk (i & x & _ & Hx & <- & <-)]. rewrite (bool_decide_false (_ = no_key)) by done. rewrite Node_owned by done. unfold node_at. cbn [RNode]. rewrite bool_decide_false by (by eapply wk_nonempty).
    rewrite (find_id _ i), (find_name _ i) by done. done.
  - case_bool_decide as Hk; [done|]. destruct (List.find _ _) as [x|] eqn:Ef; [|done]. apply find_lookup in Ef as (i & Hi & Ex%bool_decide_eq_true).
    assert (byName t !! key = Some (NID x)); [|congruence]. apply (iu_names _ _ U). split; [done|]. exists i, x. split; [by eapply lookup_lt_Some|done].
Qed.

(** A table as its users see it: the nodes, which can be indexed. *)
Record usable (t : TypeTable) : Prop := {
  us_keyed : well_keyed (Nodes t);
  us_index : owned t = true -> index_ok t
}.

(** The table whose indexes are there. *)
Definition reindexed (t : TypeTable) : TypeTable := match indexed t with Ok t => t | Err _ => t end.

Lemma indexed_usable t : usable t -> exists t', indexed t = Ok t' /\ owned t' = true /\ index_ok t' /\ Nodes t' = Nodes t /\
  (owned t = true -> t' = t) /\ (owned t = false -> underlyingCache t' = [] /\ formattedCache t' = [] /\ exactCache t' = []).
Proof.
  intros [W U]. unfold indexed. destruct (owned t) eqn:Ho; [exists t; split_and!; auto; done|]. destruct (rebuild_spec t) as [(t' & -> & U' & En & E1 & E2 & E3 & E4 & _)|[_ Hn]]; [|done].
  exists t'. split_and!; done.
Qed.

Lemma Node_usable t ref : usable t -> Node (Some t) ref = node_at (Nodes t) ref.
Proof.
  intros Us. destruct (indexed_usable t Us) as (t' & E & Ho & U & En & _). unfold Node. rewrite E. unfold node_at. case_bool_decide; [done|]. rewrite <- En. by apply index_lookup.
Qed.

Lemma NamedNode_usable t key : usable t -> NamedNode (Some t) key = named_at (Nodes t) key.
Proof.
  intros Us. destruct (indexed_usable t Us) as (t' & E & Ho & U & En & _). rewrite <- En, <- NamedNode_owned by done. unfold NamedNode. rewrite E. unfold indexed. by rewrite Ho.
Qed.

Lemma nodeForRef_usable t ref : usable t -> nodeForRef (Some t) ref = node_for (Nodes t) ref.
Proof. intros Us. unfold nodeForRef, node_for. by rewrite NamedNode_usable, Node_usable. Qed.

(** ** Named types *)

(** The reference that a named reference stands for. *)
Definition declares (node : TypeNode) : option TypeRef :=
  if Alias node then if Valid (AliasTarget node) then Some (AliasTarget node) else None
  else if Valid (NUnderlying node) then Some (NUnderlying node) else None.

Definition resolve_step (nodes : list TypeNode) (ref : TypeRef) : option TypeRef :=
  if bool_decide (RKind ref = Named) then node_for nodes ref ≫= declares else None.

(** A chain of declarations that ends, with the nodes it passes. *)
Inductive chain (nodes : list TypeNode) : TypeRef -> list gostring -> TypeRef -> Prop :=
| chain_end ref : resolve_step nodes ref = None -> chain nodes ref [] ref
| chain_step ref node next ids r : RKind ref = Named -> node_for nodes ref = Some node -> declares node = Some next -> chain nodes next ids r ->
    chain nodes ref (NID node :: ids) r.

Definition resolves (nodes : list TypeNode) (ref r : TypeRef) : Prop := exists ids, chain nodes ref ids r.

Lemma chain_det nodes ref ids r : chain nodes ref ids r -> forall ids' r', chain nodes ref ids' r' -> ids = ids' /\ r = r'.
Proof.
  assert (forall ref node next, RKind ref = Named -> node_for nodes ref = Some node -> declares node = Some next -> resolve_step nodes ref = Some next) as Hs.
  { intros x node next Hk Hn Hd. unfold resolve_step. rewrite bool_decide_true by done. by rewrite Hn. }
  induction 1 as [ref He|ref node next ids r Hk Hn Hd _ IH]; intros ids' r' H'; inversion H' as [? He'|? node' next' ids2 r2 Hk' Hn' Hd' Hc]; subst.
  - done.
  - rewrite (Hs _ _ _ Hk' Hn' Hd') in He. done.
  - rewrite (Hs _ _ _ Hk Hn Hd) in He'. done.
  - assert (node' = node) as -> by congruence. assert (next' = next) as -> by congruence. destruct (IH _ _ Hc) as [-> ->]. done.
Qed.

Lemma chain_suffix nodes ref ids r id : chain nodes ref ids r -> id ∈ ids ->
  exists node next ids2, node ∈ nodes /\ NID node = id /\ declares node = Some next /\ chain nodes next ids2 r /\ (length ids2 < length ids)%nat.
Proof.
  induction 1 as [ref He|ref node next ids r Hk Hn Hd Hc IH]; intros Hin; [by apply not_elem_of_nil in Hin|]. apply elem_of_cons in Hin as [->|Hin].
  - exists node, next, ids. split_and!; try done; [by eapply node_for_in|cbn; lia].
  - destruct (IH Hin) as (x & y & ids2 & H1 & H2 & H3 & H4 & H5). exists x, y, ids2. split_and!; try done. cbn. lia.
Qed.

Lemma keyed_member nodes x y : well_keyed nodes -> x ∈ nodes -> y ∈ nodes -> NID x = NID y -> x = y.
Proof. intros W [i Hi]%list_elem_of_lookup [j Hj]%list_elem_of_lookup E. pose proof (wk_ids _ W _ _ _ _ Hi Hj E). congruence. Qed.

(** A chain passes no node twice. *)
Lemma chain_nodup nodes ref ids r : well_keyed nodes -> chain nodes ref ids r -> NoDup ids.
Proof.
  intros W. induction 1 as [ref He|ref node next ids r Hk Hn Hd Hc IH]; [constructor|]. constructor; [|done]. intros Hin.
  destruct (chain_suffix _ _ _ _ _ Hc Hin) as (x & y & ids2 & Hx & Ex & Hdx & Hc2 & Hlen). assert (x = node) as -> by (eapply keyed_member; eauto using node_for_in).
  assert (y = next) as -> by congruence. destruct (chain_det _ _ _ _ Hc _ _ Hc2) as [E _]. subst ids2. lia.
Qed.

Lemma chain_bounded nodes ref ids r : well_keyed nodes -> chain nodes ref ids r -> (length ids <= length nodes)%nat.
Proof.
  intros W Hc. rewrite <- (length_map NID nodes). apply submseteq_length, NoDup_submseteq; [by eapply chain_nodup|]. intros id Hin.
  destruct (chain_suffix _ _ _ _ _ Hc Hin) as (x & _ & _ & Hx & <- & _). by apply list_elem_of_fmap_2.
Qed.

Lemma underlying_loop_eq t steps ref : usable t ->
  underlying_loop (S steps) t ref = match resolve_step (Nodes t) ref with Some next => underlying_loop steps t next | None => ref end.
Proof.
  intros Us. cbn [underlying_loop]. unfold resolve_step. case_bool_decide; [|done]. cbn [negb]. rewrite nodeForRef_usable by done. destruct (node_for (Nodes t) ref) as [node|]; [|done]. cbn [mbind option_bind].
  unfold declares. destruct (Alias node); [destruct (Valid (AliasTarget node)); done|]. destruct (Valid (NUnderlying node)); done.
Qed.

Lemma underlying_chain t ref ids r steps : usable t -> chain (Nodes t) ref ids r -> (length ids <= steps)%nat -> underlying_loop steps t ref = r.
Proof.
  intros Us Hc. revert steps. induction Hc as [ref He|ref node next ids r Hk Hn Hd Hc IH]; intros steps Hs.
  - destruct steps; [done|]. by rewrite underlying_loop_eq, He.
  - destruct steps as [|steps]; [cbn in Hs; lia|]. rewrite underlying_loop_eq by done. unfold resolve_step. rewrite bool_decide_true, Hn by done. cbn. rewrite Hd. apply IH. cbn in Hs. lia.
Qed.

(** The walk ends at the end of the chain; a chain that does not end leaves a named reference. *)
Lemma underlying_walk_spec t ref : usable t ->
  (forall r, resolves (Nodes t) ref r -> underlying_walk t ref = r) /\
  ((forall r, ~ resolves (Nodes t) ref r) -> RKind (underlying_walk t ref) = Named).
Proof.
  intros Us. split.
  - intros r [ids Hc]. eapply underlying_chain; [done|done|]. pose proof (chain_bounded _ _ _ _ (us_keyed _ Us) Hc). lia.
  - unfold underlying_walk. generalize (S (length (Nodes t))). intros steps. revert ref. induction steps as [|steps IH]; intros ref Hn.
    + cbn. destruct (decide (RKind ref = Named)) as [|Hk]; [done|]. destruct (Hn ref). exists []. constructor. unfold resolve_step. by rewrite bool_decide_false.
    + rewrite underlying_loop_eq by done. destruct (resolve_step (Nodes t) ref) as [next|] eqn:E; [|destruct (Hn ref); exists []; by constructor].
      apply IH. intros r [ids Hc]. unfold resolve_step in E. case_bool_decide; [|done]. destruct (node_for (Nodes t) ref) as [node|] eqn:En; [|done].
      apply (Hn r). exists (NID node :: ids). by eapply chain_step.
Qed.

Lemma underlying_walk_nodes t t' ref : usable t -> usable t' -> Nodes t' = Nodes t -> underlying_walk t' ref = underlying_walk t ref.
Proof.
  intros Us Us' En. unfold underlying_walk. rewrite En. generalize (S (length (Nodes t))). intros steps. revert ref. induction steps as [|steps IH]; intros ref; [done|].
  rewrite !underlying_loop_eq by done. rewrite En. by destruct (resolve_step (Nodes t) ref).
Qed.

(** ** Exactness *)

(** A reference that the traversal does not follow: one without a node, as the builtin types and the named
    types by declaration are, or one that is not proper. *)
Definition plain (ref : TypeRef) : Prop := RNode ref = [] \/ ~ proper_ref ref.

#[export] Instance plain_dec ref : Decision (plain ref) := ltac:(unfold plain; apply _).

(** What is asked of a reference with a node: it is not generic, the node is there and nothing in it is
    left open. *)
Definition complete (nodes : list TypeNode) (ref : TypeRef) : Prop :=
  RKind ref <> TypeParameter /\ RKind ref <> Instance_ /\ exists node, node_at nodes ref = Some node /\ resolved node.

Definition refers (nodes : list TypeNode) (ref r : TypeRef) : Prop := ~ plain ref /\ exists node, node_at nodes ref = Some node /\ mentions node r.

(** Every type that the reference mentions, directly or not, is resolved. *)
Definition exact_type (nodes : list TypeNode) (ref : TypeRef) : Prop := forall r, rtc (refers nodes) ref r -> plain r \/ complete nodes r.

(** Settled by the traversal: nothing to do, known from before, or visited. *)
Definition handled (t : TypeTable) (seen : list TypeRef) (ref : TypeRef) : Prop := plain ref \/ ref ∈ exactCache t \/ ref ∈ seen.

Lemma exact_type_step nodes ref r : exact_type nodes ref -> refers nodes ref r -> exact_type nodes r.
Proof. intros H Hr r' Hr'. apply H. by eapply rtc_l. Qed.

(** A closed set of complete references is exact. *)
Lemma closed_exact t seen ref : Forall (exact_type (Nodes t)) (exactCache t) ->
  (forall c, c ∈ seen -> complete (Nodes t) c /\ forall r, refers (Nodes t) c r -> handled t seen r) -> handled t seen ref -> exact_type (Nodes t) ref.
Proof.
  intros Hc Hs Hh r Hr. rewrite Forall_forall in Hc. revert Hh. induction Hr as [ref|ref next r Hstep Hr IH]; intros Hh.
  - destruct Hh as [Hh|[Hh|Hh]]; [by left|by apply (Hc ref Hh ref)|right; by apply Hs].
  - destruct Hh as [Hh|[Hh|Hh]]; [by destruct Hstep|apply (Hc ref Hh); by eapply rtc_l|]. apply IH. by eapply Hs.
Qed.

Definition exact_list (fuel : nat) (t : TypeTable) : list TypeRef -> list TypeRef -> result type_error (bool * list TypeRef) :=
  fix exact_all (refs : list TypeRef) (seen : list TypeRef) : result type_error (bool * list TypeRef) :=
    match refs with
    | [] => Ok (true, seen)
    | ref :: rest => let? q := exact fuel t ref seen in if fst q then exact_all rest (snd q) else Ok (false, snd q)
    end.

Lemma exact_eq fuel t current seen :
  exact (S fuel) t current seen =
  if bool_decide (plain current) then Ok (true, seen)
  else if bool_decide (RKind current = TypeParameter) || bool_decide (RKind current = Instance_) then Ok (false, seen)
  else if bool_decide (current ∈ exactCache t) || bool_decide (current ∈ seen) then Ok (true, seen)
  else match Node (Some t) current with
       | None => Ok (false, current :: seen)
       | Some node => if unresolved node then Ok (false, current :: seen) else exact_list fuel t (exact_refs node) (current :: seen)
       end.
Proof.
  assert (bool_decide (RNode current = []) || negb (Valid current) = bool_decide (plain current)) as <-; [|done].
  destruct (bool_decide (plain current)) eqn:E; [apply bool_decide_eq_true in E|apply bool_decide_eq_false in E].
  - destruct E as [->|Hn]; [done|]. apply Valid_improper in Hn. by rewrite Hn, orb_true_r.
  - apply orb_false_iff. split; [apply bool_decide_eq_false; intros Hn; apply E; by left|]. apply negb_false_iff, Valid_proper.
    destruct (decide (proper_ref current)) as [|Hn]; [done|]. destruct E. by right.
Qed.

(** All references that a traversal can visit. *)
Definition mentioned (t : TypeTable) (root : TypeRef) : list TypeRef := root :: concat (map exact_refs (Nodes t)).

Definition room (t : TypeTable) (root : TypeRef) (seen : list TypeRef) : nat := (S (length (mentioned t root)) - length seen)%nat.

(** The result of a traversal. *)
Definition visited (t : TypeTable) (seen : list TypeRef) (refs : list TypeRef) (q : bool * list TypeRef) : Prop :=
  (exists new, snd q = new ++ seen) /\ NoDup (snd q) /\
  (fst q = true -> Forall (handled t (snd q)) refs /\ forall c, c ∈ snd q -> c ∈ seen \/ (~ plain c /\ complete (Nodes t) c /\ forall r, refers (Nodes t) c r -> handled t (snd q) r)) /\
  (fst q = false -> exists ref r, ref ∈ refs /\ rtc (refers (Nodes t)) ref r /\ ~ plain r /\ ~ complete (Nodes t) r).

Lemma handled_mono t seen new ref : handled t seen ref -> handled t (new ++ seen) ref.
Proof. intros [H|[H|H]]; [by left|by right; left|]. right. right. apply elem_of_app. by right. Qed.

Lemma refers_complete nodes c node r : node_at nodes c = Some node -> refers nodes c r -> r ∈ exact_refs node.
Proof. intros E (_ & x & Ex & Hr). apply elem_of_exact_refs. congruence. Qed.

Lemma exact_list_spec fuel t root : (forall cur seen, NoDup seen -> (forall c, c ∈ seen -> c ∈ mentioned t root) -> cur ∈ mentioned t root -> (room t root seen <= fuel)%nat ->
    exists q, exact fuel t cur seen = Ok q /\ visited t seen [cur] q /\ forall c, c ∈ snd q -> c ∈ mentioned t root) ->
  forall refs seen, NoDup seen -> (forall c, c ∈ seen -> c ∈ mentioned t root) -> (forall r, r ∈ refs -> r ∈ mentioned t root) -> (room t root seen <= fuel)%nat ->
    exists q, exact_list fuel t refs seen = Ok q /\ visited t seen refs q /\ forall c, c ∈ snd q -> c ∈ mentioned t root.
Proof.
  intros IH refs. induction refs as [|ref refs IHr]; intros seen Hnd Hs Hr Hf.
  - exists (true, seen). split; [done|]. split; [|done]. split; [by exists []|]. split; [done|]. split; [|done]. intros _. split; [constructor|auto].
  - destruct (IH ref seen Hnd Hs) as ([b seen1] & E1 & (V1 & V2 & V3 & V4) & V5); [apply Hr; left|done|]. cbn [exact_list]. rewrite E1. cbn [result_bind fst snd] in *. destruct V1 as [new1 ->].
    destruct b; [|].
    + destruct (IHr (new1 ++ seen) V2 V5) as (q & E2 & (W1 & W2 & W3 & W4) & W5); [intros r Hin; apply Hr; by right|unfold room in *; rewrite length_app; lia|].
      exists q. split; [exact E2|]. split; [|done]. destruct (V3 eq_refl) as [Vh Vc]. destruct W1 as [new2 Eq]. split; [exists (new2 ++ new1); by rewrite <- app_assoc|]. split; [done|]. split.
      * intros Hq. destruct (W3 Hq) as [Wh Wc]. split; [constructor; [rewrite Eq; apply handled_mono; by inversion Vh|done]|]. intros c Hc. destruct (Wc c Hc) as [Hc'|Hc']; [|by right].
        destruct (Vc c Hc') as [?|(P & C & R)]; [by left|right]. split; [done|]. split; [done|]. intros r Hrr. rewrite Eq. by apply handled_mono, R.
      * intros Hq. destruct (W4 Hq) as (x & r & Hx & H). exists x, r. split; [by right|done].
    + exists (false, new1 ++ seen). split; [done|]. split; [|done]. split; [by exists new1|]. split; [done|]. split; [done|]. intros _. destruct (V4 eq_refl) as (x & r & ->%list_elem_of_singleton & H). exists ref, r. split; [left|done].
Qed.

Lemma exact_spec t root : usable t -> forall fuel cur seen, NoDup seen -> (forall c, c ∈ seen -> c ∈ mentioned t root) -> cur ∈ mentioned t root -> (room t root seen <= fuel)%nat ->
  exists q, exact fuel t cur seen = Ok q /\ visited t seen [cur] q /\ forall c, c ∈ snd q -> c ∈ mentioned t root.
Proof.
  intros Us. induction fuel as [|fuel IH]; intros cur seen Hnd Hs Hcur Hf.
  - unfold room in Hf. assert (length seen <= length (mentioned t root))%nat; [|lia]. by apply submseteq_length, NoDup_submseteq.
  - rewrite exact_eq. case_bool_decide as Hp.
    { exists (true, seen). split; [done|]. split; [|done]. split; [by exists []|]. split; [done|]. split; [|done]. intros _. split; [apply Forall_singleton; by left|auto]. }
    destruct (bool_decide (RKind cur = TypeParameter) || bool_decide (RKind cur = Instance_)) eqn:Hk.
    { exists (false, seen). split; [done|]. split; [|done]. split; [by exists []|]. split; [done|]. split; [done|]. intros _. exists cur, cur. split; [left|]. split; [apply rtc_refl|]. split; [done|].
      intros (H1 & H2 & _). apply orb_true_iff in Hk as [Hk|Hk]; apply bool_decide_eq_true in Hk; done. }
    apply orb_false_iff in Hk as [Hk1%bool_decide_eq_false Hk2%bool_decide_eq_false].
    destruct (bool_decide (cur ∈ exactCache t) || bool_decide (cur ∈ seen)) eqn:Hh.
    { exists (true, seen). split; [done|]. split; [|done]. split; [by exists []|]. split; [done|]. split; [|done]. intros _. split; [|auto]. apply Forall_singleton.
      apply orb_true_iff in Hh as [Hh|Hh]; apply bool_decide_eq_true in Hh; [by right; left|by right; right]. }
    apply orb_false_iff in Hh as [_ Hns%bool_decide_eq_false]. rewrite Node_usable by done.
    assert (NoDup (cur :: seen)) as Hnd' by (by constructor). assert (forall c, c ∈ cur :: seen -> c ∈ mentioned t root) as Hs' by (intros c [->|?]%elem_of_cons; auto).
    assert (forall bad, ~ complete (Nodes t) cur -> bad = (false, cur :: seen) -> visited t seen [cur] bad) as Hbad.
    { intros bad Hc ->. split; [by exists [cur]|]. split; [done|]. split; [done|]. intros _. exists cur, cur. split; [left|]. split; [apply rtc_refl|done]. }
    destruct (node_at (Nodes t) cur) as [node|] eqn:En; [|eexists; split; [done|]; split; [by apply Hbad; [intros (_ & _ & x & ? & _); congruence|]|done]].
    destruct (unresolved node) eqn:Hu; [eexists; split; [done|]; split; [by apply Hbad; [intros (_ & _ & x & ? & Hx%unresolved_resolved); congruence|]|done]|]. apply unresolved_resolved in Hu.
    destruct (exact_list_spec fuel t root IH (exact_refs node) (cur :: seen) Hnd' Hs') as (q & E & (V1 & V2 & V3 & V4) & V5).
    + intros r Hr. right. apply list_elem_of_In, in_concat. exists (exact_refs node). split; [apply in_map, list_elem_of_In; by apply node_at_in in En as [? _]|by apply list_elem_of_In].
    + unfold room in *. cbn [length]. lia.
    + exists q. split; [done|]. split; [|done]. destruct V1 as [new Eq]. split; [exists (new ++ [cur]); by rewrite <- app_assoc|]. split; [done|]. split.
      * intros Hq. destruct (V3 Hq) as [Vh Vc]. split; [apply Forall_singleton; right; right; rewrite Eq; apply elem_of_app; right; left|]. intros c Hc. destruct (Vc c Hc) as [[->|?]%elem_of_cons|?]; [|by left|by right].
        right. split; [done|]. split; [split_and!; eauto|]. intros r Hr. rewrite Forall_forall in Vh. apply Vh. by eapply refers_complete.
      * intros Hq. destruct (V4 Hq) as (x & r & Hx & Hrtc & H). exists cur, r. split; [left|]. split; [|done]. eapply rtc_l; [|exact Hrtc]. split; [done|]. exists node. split; [done|]. by apply elem_of_exact_refs.
Qed.

(** ** Printing *)

(** The text of a type in a list of nodes. *)
Definition format_nodes (nodes : list TypeNode) (ref : TypeRef) : option gostring := formatRef (S (length nodes)) (node_at nodes) [] ref.

Lemma mapM_total {A B} (f : A -> option B) l : (forall x, is_Some (f x)) -> is_Some (mapM f l).
Proof. intros Hf. induction l as [|x l [ys IH]]; [by eexists|]. destruct (Hf x) as [y Hy]. exists (y :: ys). cbn. rewrite Hy. cbn. by rewrite IH. Qed.

Lemma bind_total {A B} (x : option A) (k : A -> option B) : is_Some x -> (forall y, is_Some (k y)) -> is_Some (x ≫= k).
Proof. intros [y ->] Hk. apply Hk. Qed.

(** Printing ends: the nodes being printed are different ones. *)
Lemma formatRef_total nodes : forall fuel seen ref, NoDup seen -> seen ⊆ map NID nodes -> (length nodes < fuel + length seen)%nat -> is_Some (formatRef fuel (node_at nodes) seen ref).
Proof.
  induction fuel as [|fuel IH]; intros seen ref Hnd Hs Hf.
  { pose proof (submseteq_length _ _ (NoDup_submseteq _ _ Hnd Hs)) as Hl. rewrite length_map in Hl. lia. }
  cbn [formatRef]. set (rest := if _ || _ then _ else _). assert (is_Some rest) as Hrest; [|destruct (RKind ref); first [exact Hrest|by eexists]].
  unfold rest. destruct (bool_decide (RNode ref = []) || bool_decide (RNode ref ∈ seen)) eqn:E; [by eexists|]. apply orb_false_iff in E as [_ E%bool_decide_eq_false].
  destruct (node_at nodes ref) as [node|] eqn:En; [|by eexists]. apply node_at_in in En as [Hin Hid].
  assert (forall r, is_Some (formatRef fuel (node_at nodes) (RNode ref :: seen) r)) as Hr.
  { intros r. apply IH; [by constructor| |cbn [length]; lia]. intros x [->|Hx]%elem_of_cons; [rewrite <- Hid; by apply list_elem_of_fmap_2|by apply Hs]. }
  cbv zeta. repeat first [apply bind_total; [|intros ?]|apply mapM_total; intros ?|apply Hr|by eexists|case_match].
Qed.

Lemma format_nodes_total nodes ref : is_Some (format_nodes nodes ref).
Proof. apply formatRef_total; [constructor|intros x Hx; by apply not_elem_of_nil in Hx|cbn; lia]. Qed.

Lemma mapM_ext_option {A B} (f g : A -> option B) l : (forall x, f x = g x) -> mapM f l = mapM g l.
Proof. intros H. induction l as [|x l IH]; [done|]. cbn. by rewrite H, IH. Qed.

Lemma formatRef_look look look' : (forall ref, look' ref = look ref) -> forall fuel seen ref, formatRef fuel look' seen ref = formatRef fuel look seen ref.
Proof.
  intros Hl. induction fuel as [|fuel IH]; intros seen ref; [done|]. cbn [formatRef]. rewrite Hl. destruct (look ref) as [node|]; [|done]. cbv zeta.
  set (f := formatRef fuel look' (RNode ref :: seen)). set (g := formatRef fuel look (RNode ref :: seen)). assert (forall r, f r = g r) as H by (intros r; apply IH).
  assert (forall s, (params ← mapM f (Params s); results ← mapM f (Results s); Some (signature_text (Variadic s) params results)) =
    (params ← mapM g (Params s); results ← mapM g (Results s); Some (signature_text (Variadic s) params results))) as Hsig by (intros s; by rewrite !(mapM_ext_option f g)).
  rewrite !H. assert (mapM f (TypeArgs node) = mapM g (TypeArgs node)) as -> by by apply mapM_ext_option.
  assert (mapM (fun field => type ← f (FType field); Some (field_text field type)) (Fields node) = mapM (fun field => type ← g (FType field); Some (field_text field type)) (Fields node)) as ->
    by (apply mapM_ext_option; intros x; by rewrite H).
  assert (mapM (fun term => type ← f (TType term); Some (term, type)) (Terms node) = mapM (fun term => type ← g (TType term); Some (term, type)) (Terms node)) as ->
    by (apply mapM_ext_option; intros x; by rewrite H).
  assert (forall ms, mapM (fun m => text ← (params ← mapM f (Params (MSignature m)); results ← mapM f (Results (MSignature m)); Some (signature_text (Variadic (MSignature m)) params results)); Some (MName m ++ lit ":" ++ text)) ms =
    mapM (fun m => text ← (params ← mapM g (Params (MSignature m)); results ← mapM g (Results (MSignature m)); Some (signature_text (Variadic (MSignature m)) params results)); Some (MName m ++ lit ":" ++ text)) ms) as Hm
    by (intros ms; apply mapM_ext_option; intros m; by rewrite Hsig).
  rewrite Hm. destruct (Signature node) as [s|]; [rewrite Hsig|]; done.
Qed.

Lemma format_in_nodes t ref : usable t -> format_in t ref = format_nodes (Nodes t) ref.
Proof. intros Us. apply formatRef_look. intros r. by apply Node_usable. Qed.

(** ** The invariant *)

(** Indexes that are owned are exact, and then the caches hold what a computation would give. *)
Record table_ok (t : TypeTable) : Prop := {
  to_usable : usable t;
  to_underlying : owned t = true -> Forall (fun q => snd q = underlying_walk t (fst q)) (underlyingCache t);
  to_formatted : owned t = true -> Forall (fun q => format_nodes (Nodes t) (fst q) = Some (snd q)) (formattedCache t);
  to_exact : owned t = true -> Forall (exact_type (Nodes t)) (exactCache t)
}.

Lemma indexed_ok t : table_ok t -> exists t', indexed t = Ok t' /\ owned t' = true /\ index_ok t' /\ Nodes t' = Nodes t /\ table_ok t'.
Proof.
  intros [Us Hu Hf He]. destruct (indexed_usable t Us) as (t' & E & Ho & U & En & E1 & E2). exists t'. split_and!; try done.
  assert (usable t') as Us' by (split; [rewrite En; apply Us|done]). split; [done| | |]; intros _; destruct (owned t) eqn:Eo.
  - rewrite (E1 eq_refl). by apply Hu.
  - destruct (E2 eq_refl) as (-> & _). constructor.
  - rewrite (E1 eq_refl). by apply Hf.
  - destruct (E2 eq_refl) as (_ & -> & _). constructor.
  - rewrite (E1 eq_refl). by apply He.
  - destruct (E2 eq_refl) as (_ & _ & ->). constructor.
Qed.

Lemma lookup_ref_in {A} ref (l : list (TypeRef * A)) v : lookup_ref ref l = Some v -> (ref, v) ∈ l.
Proof.
  unfold lookup_ref. destruct (List.find _ l) as [[k x]|] eqn:E; [|done]. cbn. intros H. injection H as ->. apply find_some in E as [Hin Hk]. apply bool_decide_eq_true in Hk. cbn in Hk. subst k. by apply list_elem_of_In.
Qed.

Lemma Underlying_cached_spec t ref : table_ok t -> fst (Underlying_cached t ref) = underlying_walk t ref /\ table_ok (snd (Underlying_cached t ref)) /\ Nodes (snd (Underlying_cached t ref)) = Nodes t.
Proof.
  intros T. unfold Underlying_cached. destruct (bool_decide (RKind ref = Named)) eqn:Hk; cbn [negb].
  - destruct (indexed_ok t T) as (t' & E & Ho & U & En & T'). rewrite E. assert (underlying_walk t' ref = underlying_walk t ref) as Ew by (apply underlying_walk_nodes; [apply T|apply T'|done]).
    destruct (lookup_ref ref (underlyingCache t')) as [v|] eqn:El; cbn [fst snd].
    + apply lookup_ref_in in El. pose proof (to_underlying _ T' Ho) as Hc. rewrite Forall_forall in Hc. specialize (Hc _ El). cbn [fst snd] in Hc. rewrite Hc, Ew. done.
    + split; [done|]. split; [|done]. destruct T' as [[W UI] Hu Hf He]. set (t2 := remember_underlying ref (underlying_walk t' ref) t'). assert (usable t2) as Us2 by (split; [exact W|intros Ho2; destruct (UI Ho2); by split]).
      assert (forall r, underlying_walk t2 r = underlying_walk t' r) as Ew2 by (intros r; by apply underlying_walk_nodes).
      split; [done| |done|done]. intros Ho2. cbn [remember_underlying underlyingCache t2]. constructor; [by rewrite Ew2|]. eapply Forall_impl; [exact (Hu Ho)|]. intros q Hq. by rewrite Ew2.
  - cbn [fst snd]. split; [|done]. apply bool_decide_eq_false in Hk. destruct T as [Us _ _ _]. symmetry. apply (underlying_walk_spec t ref Us). exists []. constructor. unfold resolve_step. by rewrite bool_decide_false.
Qed.

Lemma remember_exact_forall (P : TypeRef -> Prop) bound refs cache : Forall P refs -> Forall P cache -> Forall P (remember_exact bound refs cache).
Proof.
  intros Hr. revert cache. induction Hr as [|ref refs H _ IH]; intros cache Hc; [done|]. cbn. destruct (bound <=? length cache)%nat; [done|]. apply IH. case_bool_decide; [done|]. by constructor.
Qed.

Lemma exact_type_plain nodes ref : plain ref -> exact_type nodes ref.
Proof. intros H r Hr. inversion Hr as [|? x ? [Hp _] _]; subst; [by left|done]. Qed.

Lemma TypeExact_spec iterate t ref : (forall l, iterate l ≡ₚ l) -> table_ok t ->
  exists b t', TypeExact iterate (Some t) ref = Ok (b, Some t') /\ (b = true <-> proper_ref ref /\ exact_type (Nodes t) ref) /\ table_ok t' /\ Nodes t' = Nodes t.
Proof.
  intros Hit T. unfold TypeExact. destruct (Valid ref) eqn:Hv; cbn [negb]; [apply Valid_proper in Hv|apply Valid_improper in Hv; exists false, t; split; [done|]; split; [split; [done|by intros [? _]]|done]]. case_bool_decide as Hn.
  { exists true, t. split; [done|]. split; [|done]. split; [|done]. intros _. split; [done|]. apply exact_type_plain. by left. }
  destruct (indexed_ok t T) as (t1 & E & Ho & U & En & T1). rewrite E. pose proof (to_exact _ T1 Ho) as Hc. case_bool_decide as Hin.
  { exists true, t1. split; [done|]. split; [|done]. rewrite Forall_forall in Hc. specialize (Hc ref Hin). rewrite En in Hc. done. }
  destruct (exact_spec t1 ref (to_usable _ T1) (exact_fuel t1) ref []) as (q & Eq & (V1 & V2 & V3 & V4) & _); [constructor|intros c Hx; by apply not_elem_of_nil in Hx|left|unfold room, exact_fuel, mentioned; cbn; lia|].
  rewrite Eq. cbn [result_bind]. eexists (fst q), _. split; [done|].
  assert (fst q = true -> forall c, handled t1 (snd q) c -> exact_type (Nodes t1) c) as Hcl.
  { intros Hq c. destruct (V3 Hq) as [_ Vc]. apply (closed_exact t1 (snd q) c Hc). intros x Hx. destruct (Vc x Hx) as [Hx'|(_ & H)]; [by apply not_elem_of_nil in Hx'|exact H]. }
  split.
  - rewrite <- En. split.
    + intros Hq. split; [done|]. apply (Hcl Hq). destruct (V3 Hq) as [Vh _]. by inversion Vh.
    + intros [_ He]. destruct (fst q) eqn:Hq; [done|]. destruct (V4 eq_refl) as (x & r & ->%list_elem_of_singleton & Hr & Hp & Hbad). by destruct (He r Hr).
  - destruct (fst q) eqn:Hq; [|done]. split; [|done]. destruct T1 as [[W UI] Hu Hf He]. split.
    + split; [exact W|]. intros Ho2. destruct (UI Ho2). by split.
    + intros _. eapply Forall_impl; [exact (Hu Ho)|]. intros p Hp. rewrite Hp. apply underlying_walk_nodes; [|by split|done]. split; [exact W|]. intros Ho2. destruct (UI Ho2). by split.
    + intros _. by apply Hf.
    + intros _. cbn [exactCache Nodes]. apply remember_exact_forall; [|done]. rewrite Hit. apply Forall_forall. intros c Hin'. apply (Hcl eq_refl). by right; right.
Qed.

(** ** Changes to a table *)

Lemma find_app {A} (f : A -> bool) l l' x : List.find f l = Some x -> List.find f (l ++ l') = Some x.
Proof. induction l as [|y l IH]; [done|]. cbn. destruct (f y); [done|exact IH]. Qed.

Lemma node_at_app nodes extra ref x : node_at nodes ref = Some x -> node_at (nodes ++ extra) ref = Some x.
Proof. unfold node_at. case_bool_decide; [done|]. apply find_app. Qed.

(** What is exact stays exact when nodes are added. *)
Lemma exact_type_app nodes extra ref : exact_type nodes ref -> exact_type (nodes ++ extra) ref.
Proof.
  intros He r Hr. revert He. induction Hr as [ref|ref next r Hs _ IH]; intros He.
  - destruct (He ref (rtc_refl _ _)) as [?|(H1 & H2 & x & Hx & Hu)]; [by left|]. right. split; [done|]. split; [done|]. exists x. split; [by apply node_at_app|done].
  - apply IH. destruct Hs as [Hp (x & Hx & Hin)]. destruct (He ref (rtc_refl _ _)) as [?|(_ & _ & y & Hy & _)]; [done|].
    rewrite (node_at_app _ _ _ _ Hy) in Hx. eapply exact_type_step; [exact He|]. split; [done|]. exists y. split; [done|]. congruence.
Qed.

Lemma index_more k t t' : index_upto k t -> (k <= length (Nodes t))%nat -> (exists extra, Nodes t' = Nodes t ++ extra) -> byID t' = byID t -> byName t' = byName t -> index_upto k t'.
Proof.
  intros [A B C] Hk [extra En] Ei Em. assert (forall i, (i < k)%nat -> Nodes t' !! i = Nodes t !! i) as Hl by (intros i Hi; rewrite En; apply lookup_app_l; lia). split.
  - intros id i. rewrite Ei, A. split; intros [Hi H]; (split; [done|]); by rewrite Hl in *.
  - intros key id. rewrite Em, B. split; intros [He (i & x & Hi & H)]; (split; [done|]); exists i, x; by rewrite Hl in *.
  - intros i x Hi. rewrite Hl by done. by apply C.
Qed.

Lemma Add_spec t node : table_ok t ->
  (well_keyed (Nodes t ++ [node]) /\ exists t', Add node (Some t) = Ok t' /\ Nodes t' = Nodes t ++ [node] /\ table_ok t' /\ owned t' = true) \/
  (~ well_keyed (Nodes t ++ [node]) /\ exists e, Add node (Some t) = Err e).
Proof.
  intros T. assert ((Nodes t ++ [node]) !! length (Nodes t) = Some node) as Hlast by (by rewrite lookup_app_r, Nat.sub_diag by lia).
  unfold Add. rewrite !emptyTypeKey_eq. case_bool_decide as Hne; [right; split; [|by eexists]; intros W; by eapply wk_nonempty|]. destruct (indexed_ok t T) as (t1 & E & Ho & U & En & T1). rewrite E. cbn [result_bind]. rewrite <- En in *.
  case_bool_decide as Hid.
  { right. split; [|by eexists]. intros W. destruct Hid as [i Hi]. apply (iu_ids _ _ U) in Hi as [Hi (x & Hx & Ex)]. assert (i = length (Nodes t1)); [|lia]. eapply (wk_ids _ W); [rewrite lookup_app_l by done; exact Hx|exact Hlast|done]. }
  destruct (negb (bool_decide (Identity node = no_key)) && bool_decide (is_Some (byName t1 !! Identity node))) eqn:Hk.
  { right. split; [|by eexists]. apply andb_true_iff in Hk as [Hk%negb_true_iff%bool_decide_eq_false Hs%bool_decide_eq_true]. intros W. destruct Hs as [id Hs]. apply (iu_names _ _ U) in Hs as [_ (i & x & Hi & Hx & Ex & _)].
    assert (i = length (Nodes t1)); [|lia]. eapply (wk_names _ W); [rewrite lookup_app_l by done; exact Hx|exact Hlast|done|congruence]. }
  apply eq_None_not_Some in Hid. assert (Identity node <> no_key -> byName t1 !! Identity node = None) as Hk'.
  { intros Hke. rewrite bool_decide_false in Hk by done. cbn in Hk. apply bool_decide_eq_false in Hk. by apply eq_None_not_Some. }
  cbn [resetDerivedCaches Nodes byID byName underlyingCache formattedCache exactCache owned]. set (t2 := mkTable _ _ _ _ _ _ _).
  assert (index_ok t2) as U2.
  { unfold index_ok. replace (length (Nodes t2)) with (S (length (Nodes t1))) by (cbn; rewrite length_app; cbn; lia).
    apply (index_insert (length (Nodes t1)) (mkTable (Nodes t1 ++ [node]) (byID t1) (byName t1) [] [] [] true) t2 node); try done. eapply index_more; [exact U|done|by exists [node]|done|done]. }
  left. split; [exact (index_ok_keyed _ U2)|]. exists t2. split; [done|]. split; [done|]. split; [|done]. split; [split; [exact (index_ok_keyed _ U2)|done]|intros _; constructor|intros _; constructor|].
  intros _. cbn [exactCache Nodes t2]. eapply Forall_impl; [exact (to_exact _ T1 Ho)|]. intros r. apply exact_type_app.
Qed.

Lemma Replace_spec t node : table_ok t ->
  match List.find (fun x => bool_decide (NID x = NID node)) (Nodes t) with
  | Some previous =>
      if bool_decide (Identity previous = Identity node) then
        exists i t', Replace node (Some t) = Ok t' /\ Nodes t !! i = Some previous /\ Nodes t' = <[i := node]> (Nodes t) /\ table_ok t' /\ owned t' = true
      else Replace node (Some t) = Err (IdentityChanged (NID node))
  | None => exists e, Replace node (Some t) = Err e
  end.
Proof.
  intros T. unfold Replace. destruct (indexed_ok t T) as (t1 & E & Ho & U & En & T1). rewrite E. cbn [result_bind]. rewrite <- En in *. case_bool_decide as Hne.
  { destruct (List.find _ (Nodes t1)) as [x|] eqn:Ef; [|by eexists]. apply find_lookup in Ef as (i & Hi & Ex%bool_decide_eq_true). destruct (wk_nonempty _ (index_ok_keyed _ U) i x Hi). congruence. }
  destruct (byID t1 !! NID node) as [i|] eqn:Ei.
  - apply (iu_ids _ _ U) in Ei as [Hlt (x & Hx & Ex)]. rewrite Hx. rewrite <- Ex. rewrite (find_id (Nodes t1) i x (index_ok_keyed _ U) Hx). case_bool_decide as Hk; [|done]. cbn [negb].
    set (t2 := resetDerivedCaches true _). exists i, t2. split; [done|]. split; [done|]. split; [done|]. split; [|done].
    assert (forall j y, Nodes t2 !! j = Some y -> exists z, Nodes t1 !! j = Some z /\ NID z = NID y /\ Identity z = Identity y) as Hback.
    { intros j y Hy. cbn [Nodes resetDerivedCaches t2] in Hy. apply list_lookup_insert_Some in Hy as [(<- & <- & _)|[_ Hy]]; [by exists x|by exists y]. }
    assert (forall j z, Nodes t1 !! j = Some z -> exists y, Nodes t2 !! j = Some y /\ NID z = NID y /\ Identity z = Identity y) as Hfwd.
    { intros j z Hz. cbn [Nodes resetDerivedCaches t2]. destruct (decide (i = j)) as [<-|Hn]; [|exists z; by rewrite list_lookup_insert_ne]. assert (z = x) as -> by congruence. exists node. by rewrite list_lookup_insert_eq. }
    assert (index_ok t2) as U2.
    { unfold index_ok. replace (length (Nodes t2)) with (length (Nodes t1)) by (cbn; by rewrite length_insert). split.
      - intros id j. cbn [byID resetDerivedCaches t2]. rewrite (iu_ids _ _ U). split; intros [Hj (y & Hy & Ey)]; (split; [done|]).
        + destruct (Hfwd _ _ Hy) as (z & Hz & E1 & _). exists z. split; [done|congruence].
        + destruct (Hback _ _ Hy) as (z & Hz & E1 & _). exists z. split; [done|congruence].
      - intros key id. cbn [byName resetDerivedCaches t2]. rewrite (iu_names _ _ U). split; intros [He (j & y & Hj & Hy & E1 & E2)]; (split; [done|]).
        + destruct (Hfwd _ _ Hy) as (z & Hz & E3 & E4). exists j, z. split_and!; try done; congruence.
        + destruct (Hback _ _ Hy) as (z & Hz & E3 & E4). exists j, z. split_and!; try done; congruence.
      - intros j y Hj Hy. destruct (Hback _ _ Hy) as (z & Hz & <- & _). by eapply (iu_nonempty _ _ U). }
    split; [split; [exact (index_ok_keyed _ U2)|done]|intros _; constructor|intros _; constructor|intros _; constructor].
  - destruct (List.find _ (Nodes t1)) as [x|] eqn:Ef; [|by eexists]. apply find_lookup in Ef as (i & Hi & Ex%bool_decide_eq_true).
    assert (byID t1 !! NID node = Some i); [|congruence]. apply (iu_ids _ _ U). split; [by eapply lookup_lt_Some|eauto].
Qed.

Lemma NewTable_spec nodes :
  (well_keyed nodes /\ exists t, NewTable nodes = Some t /\ Nodes t = nodes /\ table_ok t /\ owned t = true) \/ (~ well_keyed nodes /\ NewTable nodes = None).
Proof.
  unfold NewTable. destruct (rebuild_spec (mkTable nodes ∅ ∅ [] [] [] false)) as [(t & -> & U & En & E1 & E2 & E3 & Ho & W)|[[e ->] W]]; [|by right].
  left. split; [done|]. exists t. split_and!; try done. split; [split; [by rewrite En|done]|rewrite E1; constructor|rewrite E2; constructor|rewrite E3; constructor].
Qed.

(** ** The closure of a set of references *)

Inductive reached (nodes : list TypeNode) (roots : list TypeRef) : TypeNode -> Prop :=
| reached_root ref node : ref ∈ roots -> node_for nodes ref = Some node -> reached nodes roots node
| reached_next x ref node : reached nodes roots x -> mentions x ref -> node_for nodes ref = Some node -> reached nodes roots node.

Lemma reached_in nodes roots node : reached nodes roots node -> node ∈ nodes.
Proof. destruct 1; by eapply node_for_in. Qed.

(** The references that have not been queued yet. *)
Definition unqueued (nodes : list TypeNode) (seen : list gostring) : nat := length (concat (map nodeRefs (List.filter (fun node => negb (bool_decide (NID node ∈ seen))) nodes))).

Lemma unqueued_other nodes seen id : (forall x, x ∈ nodes -> NID x <> id) -> unqueued nodes (id :: seen) = unqueued nodes seen.
Proof.
  intros H. unfold unqueued. f_equal. f_equal. f_equal. induction nodes as [|x nodes IH]; [done|]. cbn. rewrite IH by (intros y Hy; apply H; by right).
  assert (bool_decide (NID x ∈ id :: seen) = bool_decide (NID x ∈ seen)) as ->; [|done]. apply bool_decide_ext. rewrite elem_of_cons. specialize (H x ltac:(left)). tauto.
Qed.

Lemma unqueued_step nodes seen node : NoDup (map NID nodes) -> node ∈ nodes -> NID node ∉ seen -> unqueued nodes seen = (length (nodeRefs node) + unqueued nodes (NID node :: seen))%nat.
Proof.
  intros Hn. induction nodes as [|x nodes IH]; intros Hin Hs; [by apply not_elem_of_nil in Hin|]. cbn in Hn. apply NoDup_cons in Hn as [Hx Hn].
  assert (forall y s, unqueued (y :: nodes) s = ((if bool_decide (NID y ∈ s) then 0 else length (nodeRefs y)) + unqueued nodes s)%nat) as Ec.
  { intros y s. unfold unqueued. cbn. case_bool_decide; [done|]. cbn. by rewrite length_app. }
  rewrite !Ec. apply elem_of_cons in Hin as [->|Hin].
  - rewrite bool_decide_false by done. rewrite bool_decide_true by left. rewrite unqueued_other; [done|]. intros y Hy E. apply Hx. rewrite <- E. by apply list_elem_of_fmap_2.
  - rewrite (IH Hn Hin Hs). assert (NID x <> NID node) as Hne by (intros E; apply Hx; rewrite E; by apply list_elem_of_fmap_2).
    assert (bool_decide (NID x ∈ NID node :: seen) = bool_decide (NID x ∈ seen)) as ->; [|lia]. apply bool_decide_ext. rewrite elem_of_cons. tauto.
Qed.

Lemma keyed_nodup nodes : well_keyed nodes -> NoDup (map NID nodes).
Proof.
  intros W. apply NoDup_alt. intros i j id Hi Hj. apply list_lookup_fmap_Some in Hi as (x & -> & Hx). apply list_lookup_fmap_Some in Hj as (y & E & Hy). by eapply wk_ids.
Qed.

Definition known (nodes : list TypeNode) (seen : list gostring) (ref : TypeRef) : Prop := forall node, node_for nodes ref = Some node -> NID node ∈ seen.

Record closing (nodes : list TypeNode) (roots : list TypeRef) (seen : list gostring) (queue : list TypeRef) : Prop := {
  cl_seen : forall id, id ∈ seen -> exists node, reached nodes roots node /\ NID node = id;
  cl_queue : forall ref, ref ∈ queue -> ref ∈ roots \/ exists x, reached nodes roots x /\ ref ∈ nodeRefs x;
  cl_roots : forall ref, ref ∈ roots -> ref ∈ queue \/ known nodes seen ref;
  cl_refs : forall x ref, x ∈ nodes -> NID x ∈ seen -> ref ∈ nodeRefs x -> ref ∈ queue \/ known nodes seen ref
}.

Lemma closing_skip nodes roots seen ref queue : closing nodes roots seen (ref :: queue) -> known nodes seen ref -> closing nodes roots seen queue.
Proof.
  intros [A B C D] Hk. split; [done|intros r Hr; apply B; by right| |].
  - intros r Hr. destruct (C r Hr) as [[->|?]%elem_of_cons|?]; auto.
  - intros x r Hx Hs Hr. destruct (D x r Hx Hs Hr) as [[->|?]%elem_of_cons|?]; auto.
Qed.

Lemma closing_add nodes roots seen ref queue node : well_keyed nodes -> closing nodes roots seen (ref :: queue) -> node_for nodes ref = Some node -> closing nodes roots (NID node :: seen) (queue ++ nodeRefs node).
Proof.
  intros W [A B C D] Hn. assert (reached nodes roots node) as Hr.
  { destruct (B ref) as [?|(x & Hx & Hin)]; [left|by eapply reached_root|eapply reached_next; [exact Hx|by apply elem_of_nodeRefs|done]]. }
  assert (forall r, known nodes seen r -> known nodes (NID node :: seen) r) as Hm by (intros r Hk y Hy; right; by apply Hk).
  assert (known nodes (NID node :: seen) ref) as Href by (intros y Hy; assert (y = node) as -> by congruence; left).
  split.
  - intros id [->|Hid]%elem_of_cons; [by exists node|by apply A].
  - intros r [Hq|Hq]%elem_of_app; [apply B; by right|right; by exists node].
  - intros r Hrr. destruct (C r Hrr) as [[->|?]%elem_of_cons|?]; [by right|left; apply elem_of_app; by left|right; by apply Hm].
  - intros x r Hx [E|Hs]%elem_of_cons Hrr.
    + assert (x = node) as -> by (eapply keyed_member; eauto using reached_in). left. apply elem_of_app. by right.
    + destruct (D x r Hx Hs Hrr) as [[->|?]%elem_of_cons|?]; [by right|left; apply elem_of_app; by left|right; by apply Hm].
Qed.

Lemma reach_loop_spec t roots : usable t -> forall fuel seen queue, closing (Nodes t) roots seen queue -> (length queue + unqueued (Nodes t) seen <= fuel)%nat ->
  exists seen', reach_loop fuel t seen queue = Ok seen' /\ closing (Nodes t) roots seen' [].
Proof.
  intros Us. pose proof (us_keyed _ Us) as W. induction fuel as [|fuel IH]; intros seen [|ref queue] C Hf; cbn [reach_loop length] in *; [by exists seen|lia|by exists seen|].
  rewrite nodeForRef_usable by done. destruct (node_for (Nodes t) ref) as [node|] eqn:En.
  - case_bool_decide as Hs.
    + apply IH; [|lia]. eapply closing_skip; [done|]. intros y Hy. by assert (y = node) as -> by congruence.
    + apply IH; [by eapply closing_add|]. rewrite length_app. rewrite (unqueued_step (Nodes t) seen node) in Hf; [lia|by apply keyed_nodup|by eapply node_for_in|done].
  - apply IH; [|lia]. eapply closing_skip; [done|]. intros y Hy. congruence.
Qed.

Lemma closing_reached nodes roots seen : well_keyed nodes -> closing nodes roots seen [] -> forall node, reached nodes roots node <-> node ∈ nodes /\ NID node ∈ seen.
Proof.
  intros W [A B C D] node. split.
  - intros Hr. split; [by eapply reached_in|]. induction Hr as [ref node Hin Hn|x ref node Hx IH Hin Hn].
    + destruct (C ref Hin) as [Hq|Hk]; [by apply not_elem_of_nil in Hq|by apply Hk].
    + destruct (D x ref) as [Hq|Hk]; [by eapply reached_in|done|by apply elem_of_nodeRefs|by apply not_elem_of_nil in Hq|by apply Hk].
  - intros [Hin Hs]. destruct (A _ Hs) as (x & Hx & E). assert (x = node) as -> by (eapply keyed_member; eauto using reached_in). done.
Qed.

Lemma filter_true {A} (f : A -> bool) l : (forall x, f x = true) -> List.filter f l = l.
Proof. intros H. induction l as [|x l IH]; [done|]. cbn. by rewrite H, IH. Qed.

Lemma filter_keyed (f : TypeNode -> bool) nodes : well_keyed nodes -> well_keyed (List.filter f nodes).
Proof.
  intros W. assert (forall i x, List.filter f nodes !! i = Some x -> x ∈ nodes) as Hin.
  { intros i x Hi%list_elem_of_lookup_2. by apply list_elem_of_In, filter_In, proj1, list_elem_of_In in Hi. }
  assert (NoDup (map NID (List.filter f nodes))) as Hn.
  { pose proof (keyed_nodup _ W) as Hn. clear -Hn. induction nodes as [|x nodes IH]; [constructor|]. cbn in *. apply NoDup_cons in Hn as [Hx Hn]. destruct (f x); [|by apply IH]. cbn. constructor; [|by apply IH].
    intros Hi. apply Hx. apply list_elem_of_fmap in Hi as (y & -> & Hy). apply list_elem_of_fmap_2. by apply list_elem_of_In, filter_In, proj1, list_elem_of_In in Hy. }
  split.
  - intros i x Hi. pose proof (Hin _ _ Hi) as [j Hj]%list_elem_of_lookup. by eapply wk_nonempty.
  - intros i j x y Hi Hj E. eapply (NoDup_lookup _ i j (NID x) Hn); rewrite list_lookup_fmap, ?Hi, ?Hj; cbn; congruence.
  - intros i j x y Hi Hj E Hk. pose proof (Hin _ _ Hi) as [i' Hi']%list_elem_of_lookup. pose proof (Hin _ _ Hj) as [j' Hj']%list_elem_of_lookup.
    pose proof (wk_names _ W _ _ _ _ Hi' Hj' E Hk) as ->. assert (y = x) as -> by congruence. eapply (NoDup_lookup _ i j (NID x) Hn); by rewrite list_lookup_fmap, ?Hi, ?Hj.
Qed.

Lemma ReachableTable_spec t roots : usable t -> exists (seen : list gostring) (out : TypeTable), ReachableTable (Some t) roots = Ok out /\ table_ok out /\
  Nodes out = List.filter (fun node => bool_decide (NID node ∈ seen)) (Nodes t) /\ forall node, node ∈ Nodes out <-> reached (Nodes t) roots node.
Proof.
  intros Us. pose proof (us_keyed _ Us) as W. unfold ReachableTable. destruct (reach_loop_spec t roots Us (reach_fuel t roots) [] roots) as (seen & E & C).
  - split; [intros id Hid; by apply not_elem_of_nil in Hid|by left|by left|]. intros x ref _ Hs. by apply not_elem_of_nil in Hs.
  - unfold reach_fuel, unqueued. assert (List.filter (fun node => negb (bool_decide (NID node ∈ []))) (Nodes t) = Nodes t) as ->; [|lia].
    apply filter_true. intros x. by rewrite bool_decide_false by apply not_elem_of_nil.
  - rewrite E. cbn [result_bind]. destruct (NewTable_spec (List.filter (fun node => bool_decide (NID node ∈ seen)) (Nodes t))) as [[_ (out & -> & En & T & _)]|[Hn _]]; [|by destruct Hn; apply filter_keyed].
    exists seen, out. split; [done|]. split; [done|]. split; [done|]. intros node. rewrite (closing_reached _ _ _ W C), En, list_elem_of_In, filter_In, <- list_elem_of_In. by rewrite bool_decide_eq_true.
Qed.

(** ** Validation *)

(** An alias chain that ends at something that is not an alias, with the aliases it passes. *)
Inductive alias_end (nodes : list TypeNode) : TypeRef -> list gostring -> Prop :=
| alias_other ref : RKind ref <> Named -> alias_end nodes ref []
| alias_unknown ref : node_for nodes ref = None -> alias_end nodes ref []
| alias_defined ref node : node_for nodes ref = Some node -> Alias node = false -> alias_end nodes ref []
| alias_next ref node ids : RKind ref = Named -> node_for nodes ref = Some node -> Alias node = true -> alias_end nodes (AliasTarget node) ids ->
    alias_end nodes ref (NID node :: ids).

Lemma alias_end_det nodes ref ids : alias_end nodes ref ids -> forall ids', alias_end nodes ref ids' -> ids = ids'.
Proof. induction 1 as [| | |ref node ids Hk Hn Ha _ IH]; intros ids' H'; inversion H' as [| | |? node' ? ? ? ? Hc]; subst; try congruence; try done. assert (node' = node) as -> by congruence. f_equal. by apply IH. Qed.

Lemma alias_end_suffix nodes ref ids id : alias_end nodes ref ids -> id ∈ ids ->
  exists node ids2, node ∈ nodes /\ NID node = id /\ alias_end nodes (AliasTarget node) ids2 /\ (length ids2 < length ids)%nat.
Proof.
  induction 1 as [| | |ref node ids Hk Hn Ha Hc IH]; intros Hin; try (by apply not_elem_of_nil in Hin). apply elem_of_cons in Hin as [->|Hin].
  - exists node, ids. split_and!; try done; [by eapply node_for_in|cbn; lia].
  - destruct (IH Hin) as (x & ids2 & H1 & H2 & H3 & H4). exists x, ids2. split_and!; try done. cbn. lia.
Qed.

Lemma alias_end_nodup nodes ref ids : well_keyed nodes -> alias_end nodes ref ids -> NoDup ids.
Proof.
  intros W. induction 1 as [| | |ref node ids Hk Hn Ha Hc IH]; [constructor..|]. constructor; [|done]. intros Hin. destruct (alias_end_suffix _ _ _ _ Hc Hin) as (x & ids2 & Hx & Ex & Hc2 & Hlen).
  assert (x = node) as -> by (eapply keyed_member; eauto using node_for_in). rewrite (alias_end_det _ _ _ Hc _ Hc2) in Hlen. lia.
Qed.

Lemma alias_chain_spec t root : usable t -> forall fuel seen ref, NoDup seen -> seen ⊆ map NID (Nodes t) -> (length (Nodes t) + 2 <= fuel + length seen)%nat ->
  (alias_chain fuel t root seen ref = Ok tt /\ exists ids, alias_end (Nodes t) ref ids /\ forall id, id ∈ ids -> id ∉ seen) \/
  (alias_chain fuel t root seen ref = Err (AliasCycle root) /\ forall ids, alias_end (Nodes t) ref ids -> exists id, id ∈ ids /\ id ∈ seen).
Proof.
  intros Us. pose proof (us_keyed _ Us) as W. induction fuel as [|fuel IH]; intros seen ref Hnd Hs Hf.
  - assert (length seen <= length (map NID (Nodes t)))%nat as Hl by (by apply submseteq_length, NoDup_submseteq). rewrite length_map in Hl. lia.
  - assert (forall r, alias_end (Nodes t) r [] -> exists ids, alias_end (Nodes t) r ids /\ forall id, id ∈ ids -> id ∉ seen) as Hnil by (intros r H; exists []; split; [done|intros id Hid; by apply not_elem_of_nil in Hid]).
    cbn [alias_chain]. case_bool_decide as Hk; cbn [negb]; [|left; split; [done|apply Hnil; by constructor]]. rewrite nodeForRef_usable by done.
    destruct (node_for (Nodes t) ref) as [node|] eqn:En; [|left; split; [done|apply Hnil; by apply alias_unknown]].
    destruct (Alias node) eqn:Ea; cbn [negb]; [|left; split; [done|apply Hnil; by eapply alias_defined]]. pose proof (node_for_in _ _ _ En) as Hin.
    assert (forall ids, alias_end (Nodes t) ref ids -> exists ids2, ids = NID node :: ids2 /\ alias_end (Nodes t) (AliasTarget node) ids2) as Hinv.
    { intros ids H. inversion H as [| | |? node' ids2 ? ? ? Hc]; subst; try congruence. assert (node' = node) as -> by congruence. by exists ids2. }
    case_bool_decide as Hd.
    + right. split; [done|]. intros ids (ids2 & -> & _)%Hinv. exists (NID node). split; [left|done].
    + destruct (IH (NID node :: seen) (AliasTarget node)) as [(E & ids & Hc & Hn)|(E & Hc)]; [by constructor|intros id [->|?]%elem_of_cons; [by apply list_elem_of_fmap_2|by apply Hs]|cbn; lia| |].
      * left. split; [done|]. exists (NID node :: ids). split; [by apply alias_next|]. intros id [->|Hid]%elem_of_cons; [done|]. intros Hx. apply (Hn id Hid). by right.
      * right. split; [done|]. intros ids H0. destruct (Hinv ids H0) as (ids2 & -> & H2). destruct (Hc ids2 H2) as (id & Hi & [->|?]%elem_of_cons); [|exists id; split; [by right|done]].
        pose proof (alias_end_nodup _ _ _ W H0) as Hnd0. apply NoDup_cons in Hnd0 as [? _]. done.
Qed.

(** What a valid table promises about each of its nodes. *)
Definition ref_ok (nodes : list TypeNode) (ref : TypeRef) : Prop :=
  RKind ref = Invalid \/ (proper_ref ref /\ (RNode ref = [] \/ exists x, x ∈ nodes /\ NID x = RNode ref)).

Definition variadic_ok (nodes : list TypeNode) (node : TypeNode) : Prop :=
  NKind node = Function -> forall s, Signature node = Some s -> Variadic s = true ->
  exists p r, last (Params s) = Some p /\ resolves nodes p r /\ RKind r = Slice.

Record well_formed (compiler : bool) (t : TypeTable) : Prop := {
  wf_keyed : well_keyed (Nodes t);
  wf_shape : forall node, node ∈ Nodes t -> shaped compiler node;
  wf_refs : forall node ref, node ∈ Nodes t -> mentions node ref -> ref_ok (Nodes t) ref;
  wf_aliases : forall node, node ∈ Nodes t -> NKind node = Named -> Alias node = true -> exists ids, alias_end (Nodes t) (mkRef Named PrimitiveInvalid (Identity node) (NID node)) ids;
  wf_variadic : forall node, node ∈ Nodes t -> variadic_ok (Nodes t) node
}.

Lemma underlying_loop_or t steps ref : usable t -> resolves (Nodes t) ref (underlying_loop steps t ref) \/ RKind (underlying_loop steps t ref) = Named.
Proof.
  intros Us. revert ref. induction steps as [|steps IH]; intros ref.
  - cbn. destruct (decide (RKind ref = Named)) as [|Hk]; [by right|left]. exists []. constructor. unfold resolve_step. by rewrite bool_decide_false.
  - rewrite underlying_loop_eq by done. destruct (resolve_step (Nodes t) ref) as [next|] eqn:E; [|left; exists []; by constructor].
    destruct (IH next) as [[ids Hc]|?]; [left|by right]. unfold resolve_step in E. case_bool_decide; [|done]. destruct (node_for (Nodes t) ref) as [node|] eqn:En; [|done].
    exists (NID node :: ids). by eapply chain_step.
Qed.

Lemma slice_resolves t p : usable t -> RKind p = Slice \/ RKind (underlying_walk t p) = Slice <-> exists r, resolves (Nodes t) p r /\ RKind r = Slice.
Proof.
  intros Us. split.
  - intros [H|H]; [exists p; split; [|done]; exists []; constructor; unfold resolve_step; by rewrite bool_decide_false by congruence|].
    destruct (underlying_loop_or t (S (length (Nodes t))) p Us) as [Hr|Hn]; [by eexists|]. unfold underlying_walk in H. congruence.
  - intros (r & Hr & Hk). right. destruct (underlying_walk_spec t p Us) as [Hw _]. by rewrite (Hw r Hr).
Qed.

Lemma check_refs_spec t id refs : usable t ->
  (check_refs t id refs = Ok tt /\ forall ref, ref ∈ refs -> ref_ok (Nodes t) ref) \/ ((exists e, check_refs t id refs = Err e) /\ exists ref, ref ∈ refs /\ ~ ref_ok (Nodes t) ref).
Proof.
  intros Us. induction refs as [|ref refs IH]; cbn [check_refs]; [left; split; [done|intros r Hr; by apply not_elem_of_nil in Hr]|].
  assert (ref_ok (Nodes t) ref -> (check_refs t id refs = Ok tt /\ forall r, r ∈ ref :: refs -> ref_ok (Nodes t) r) \/ ((exists e, check_refs t id refs = Err e) /\ exists r, r ∈ ref :: refs /\ ~ ref_ok (Nodes t) r)) as Hgo.
  { intros Hr. destruct IH as [[E H]|[E (r & Hin & H)]]; [left; split; [done|]; intros r [->|?]%elem_of_cons; auto|right; split; [done|]; exists r; split; [by right|done]]. }
  case_bool_decide as Hk; [apply Hgo; by left|]. destruct (Valid ref) eqn:Hv; cbn [negb]; [apply Valid_proper in Hv|apply Valid_improper in Hv].
  - case_bool_decide as Hn; cbn [negb andb]; [apply Hgo; right; split; [done|by left]|]. rewrite Node_usable by done. case_bool_decide as Hs; cbn [negb].
    + apply Hgo. right. split; [done|]. right. destruct Hs as [x Hs]. exists x. by apply node_at_in.
    + right. split; [by eexists|]. exists ref. split; [left|]. intros [?|[_ [?|(x & Hx & Ex)]]]; [done|done|]. apply Hs. unfold node_at. rewrite bool_decide_false by done.
      apply list_elem_of_lookup in Hx as [i Hi]. rewrite <- Ex, (find_id _ i x); [by eexists|apply Us|done].
  - right. split; [by eexists|]. exists ref. split; [left|]. by intros [?|[? _]].
Qed.

Lemma check_nodes_spec t compiler nodes : usable t ->
  let good node := shaped compiler node /\ forall ref, mentions node ref -> ref_ok (Nodes t) ref in
  (check_nodes t compiler nodes = Ok tt /\ forall node, node ∈ nodes -> good node) \/ ((exists e, check_nodes t compiler nodes = Err e) /\ exists node, node ∈ nodes /\ ~ good node).
Proof.
  intros Us good. induction nodes as [|node nodes IH]; cbn [check_nodes]; [left; split; [done|intros r Hr; by apply not_elem_of_nil in Hr]|].
  destruct (validNodeShape node compiler) eqn:Hv; cbn [negb]; [apply shape_exact in Hv|right; split; [by eexists|]; exists node; split; [left|]; intros [Hx%shape_exact _]; congruence].
  destruct (check_refs_spec t (NID node) (nodeRefs node) Us) as [[-> H]|[[e ->] (ref & Hin & H)]]; cbn [result_bind].
  - destruct IH as [[E IH]|[E (x & Hin & IH)]]; [left; split; [done|]; intros x [->|?]%elem_of_cons; [split; [done|intros ref Hr; by apply H, elem_of_nodeRefs]|auto]|right; split; [done|]; exists x; split; [by right|done]].
  - right. split; [by eexists|]. exists node. split; [left|]. intros [_ Hg]. by apply H, Hg, elem_of_nodeRefs.
Qed.

Lemma check_chains_spec t nodes : usable t ->
  let good node := NKind node = Named -> Alias node = true -> exists ids, alias_end (Nodes t) (mkRef Named PrimitiveInvalid (Identity node) (NID node)) ids in
  (check_chains t nodes = Ok tt /\ forall node, node ∈ nodes -> good node) \/ ((exists e, check_chains t nodes = Err e) /\ exists node, node ∈ nodes /\ ~ good node).
Proof.
  intros Us good. induction nodes as [|node nodes IH]; cbn [check_chains]; [left; split; [done|intros r Hr; by apply not_elem_of_nil in Hr]|].
  assert (good node -> (check_chains t nodes = Ok tt /\ forall x, x ∈ node :: nodes -> good x) \/ ((exists e, check_chains t nodes = Err e) /\ exists x, x ∈ node :: nodes /\ ~ good x)) as Hgo.
  { intros Hg. destruct IH as [[E IH]|[E (x & Hin & IH)]]; [left; split; [done|]; intros x [->|?]%elem_of_cons; auto|right; split; [done|]; exists x; split; [by right|done]]. }
  case_bool_decide as Hk; cbn [negb orb]; [|apply Hgo; intros ?; done]. destruct (Alias node) eqn:Ha; cbn [negb]; [|apply Hgo; intros _ ?; congruence].
  assert (node_ref node = mkRef Named PrimitiveInvalid (Identity node) (NID node)) as -> by (unfold node_ref; by rewrite Hk).
  destruct (alias_chain_spec t (NID node) Us (chain_fuel t) [] (mkRef Named PrimitiveInvalid (Identity node) (NID node))) as [(-> & ids & Hc & _)|(-> & Hc)]; [constructor|intros x Hx; by apply not_elem_of_nil in Hx|unfold chain_fuel; cbn; lia| |]; cbn [result_bind].
  - apply Hgo. intros _ _. by exists ids.
  - right. split; [by eexists|]. exists node. split; [left|]. intros Hg. destruct (Hg Hk Ha) as [ids Hi]. destruct (Hc ids Hi) as (id & _ & Hx). by apply not_elem_of_nil in Hx.
Qed.

Lemma check_variadic_spec t nodes : table_ok t ->
  (check_variadic t nodes = Ok tt /\ forall node, node ∈ nodes -> variadic_ok (Nodes t) node) \/ ((exists e, check_variadic t nodes = Err e) /\ exists node, node ∈ nodes /\ ~ variadic_ok (Nodes t) node).
Proof.
  intros T. induction nodes as [|node nodes IH]; cbn [check_variadic]; [left; split; [done|intros r Hr; by apply not_elem_of_nil in Hr]|].
  assert (variadic_ok (Nodes t) node -> (check_variadic t nodes = Ok tt /\ forall x, x ∈ node :: nodes -> variadic_ok (Nodes t) x) \/ ((exists e, check_variadic t nodes = Err e) /\ exists x, x ∈ node :: nodes /\ ~ variadic_ok (Nodes t) x)) as Hgo.
  { intros Hg. destruct IH as [[E IH]|[E (x & Hin & IH)]]; [left; split; [done|]; intros x [->|?]%elem_of_cons; auto|right; split; [done|]; exists x; split; [by right|done]]. }
  destruct (decide (NKind node = Function)) as [Hk|Hk]; [|assert (variadic_ok (Nodes t) node) as Hg by (intros ?; done); specialize (Hgo Hg); by destruct (NKind node)]. rewrite Hk.
  destruct (Signature node) as [s|] eqn:Es; [|apply Hgo; intros _ s; congruence]. destruct (Variadic s) eqn:Hv; cbn [negb]; [|apply Hgo; intros _ s' E Ev; congruence].
  destruct (last (Params s)) as [p|] eqn:El; [|right; split; [by eexists|]; exists node; split; [left|]; intros Hg; destruct (Hg Hk s Es Hv) as (p & r & Hp & _); congruence].
  unfold Underlying. destruct (Underlying_cached_spec t p T) as (-> & _). pose proof (slice_resolves t p (to_usable _ T)) as Hsl. destruct (negb _ && negb _) eqn:Hb.
  - apply andb_true_iff in Hb as [H1%negb_true_iff H2%negb_true_iff]. apply bool_decide_eq_false in H1, H2. right. split; [by eexists|]. exists node. split; [left|].
    intros Hg. destruct (Hg Hk s Es Hv) as (p' & r & Hp & H). assert (p' = p) as -> by congruence. destruct (proj2 Hsl); [by exists r|done|done].
  - apply Hgo. intros _ s' E _. assert (s' = s) as -> by congruence. destruct (proj1 Hsl) as (r & Hr & Hs); [|by exists p, r].
    apply andb_false_iff in Hb as [H%negb_false_iff|H%negb_false_iff]; apply bool_decide_eq_true in H; auto.
Qed.

(** Validation accepts exactly the well-formed tables. *)
Lemma validate_table_spec t compiler :
  (well_formed compiler t /\ exists t', validate (Some t) compiler = Ok t' /\ Nodes t' = Nodes t /\ table_ok t' /\ owned t' = true) \/
  (~ well_formed compiler t /\ exists e, validate (Some t) compiler = Err e).
Proof.
  unfold validate. destruct (rebuild_spec t) as [(t1 & -> & U & En & E1 & E2 & E3 & Ho & W)|[[e ->] W]]; [|right; split; [|by eexists]; intros Hw; by apply W, Hw].
  cbn [result_bind]. assert (usable t1) as Us by (split; [by rewrite En|done]). assert (table_ok t1) as T by (split; [done|rewrite E1; constructor|rewrite E2; constructor|rewrite E3; constructor]).
  destruct (check_nodes_spec t1 compiler (Nodes t1) Us) as [[-> H1]|[[e ->] (node & Hin & H)]]; cbn [result_bind]; rewrite En in *;
    [|right; split; [|by eexists]; intros Hw; apply H; split; [by apply Hw|intros ref; by apply Hw]].
  unfold validateAliasChains. rewrite En. destruct (check_chains_spec t1 (Nodes t) Us) as [[-> H2]|[[e ->] (node & Hin & H)]]; cbn [result_bind]; rewrite En in *;
    [|right; split; [|by eexists]; intros Hw; apply H; by apply Hw].
  destruct (check_variadic_spec t1 (Nodes t) T) as [[-> H3]|[[e ->] (node & Hin & H)]]; cbn [result_bind]; rewrite En in *;
    [|right; split; [|by eexists]; intros Hw; apply H; by apply Hw].
  left. split; [|exists t1; by split_and!]. split; [done|intros node Hin; by apply H1|intros node ref Hin; by apply H1|done|done].
Qed.

Lemma filter_sublist {A} (f : A -> bool) l : List.filter f l `sublist_of` l.
Proof. induction l as [|x l IH]; cbn; [constructor|]. by destruct (f x); constructor. Qed.

(** No check runs out of fuel. *)
Lemma index_node_fuel i node t : fst (index_node i node t) <> Some OutOfFuel.
Proof. unfold index_node. repeat case_match; cbn [fst]; congruence. Qed.

Lemma index_nodes_fuel nodes : forall i t, fst (index_nodes i nodes t) <> Some OutOfFuel.
Proof.
  induction nodes as [|node nodes IH]; intros i t; cbn [index_nodes]; [done|]. pose proof (index_node_fuel i node t) as H. destruct (index_node i node t) as [[e|] t']; [done|apply IH].
Qed.

Lemma rebuild_fuel t : rebuildIndexes t <> Err OutOfFuel.
Proof.
  unfold rebuildIndexes, Reindex. pose proof (index_nodes_fuel (Nodes t) 0 (mkTable (Nodes t) ∅ ∅ [] [] [] (owned t))) as H.
  destruct (index_nodes _ _ _) as [[e|] t']; cbn [fst] in *; congruence.
Qed.

Lemma check_refs_fuel t id refs : check_refs t id refs <> Err OutOfFuel.
Proof. induction refs as [|ref refs IH]; cbn [check_refs]; [done|]. repeat case_match; congruence. Qed.

Lemma check_nodes_fuel t compiler nodes : check_nodes t compiler nodes <> Err OutOfFuel.
Proof.
  induction nodes as [|node nodes IH]; cbn [check_nodes]; [done|]. case_match; [congruence|]. pose proof (check_refs_fuel t (NID node) (nodeRefs node)) as Hc. destruct (check_refs _ _ _); [done|cbn; congruence].
Qed.

Lemma check_chains_fuel t nodes : usable t -> check_chains t nodes <> Err OutOfFuel.
Proof.
  intros Us. induction nodes as [|node nodes IH]; cbn [check_chains]; [done|]. case_match; [done|].
  destruct (alias_chain_spec t (NID node) Us (chain_fuel t) [] (node_ref node)) as [(-> & _)|(-> & _)]; [constructor|intros x Hx; by apply not_elem_of_nil in Hx|unfold chain_fuel; cbn; lia|done|done].
Qed.

Lemma check_variadic_fuel t nodes : check_variadic t nodes <> Err OutOfFuel.
Proof. induction nodes as [|node nodes IH]; cbn [check_variadic]; [done|]. repeat case_match; congruence. Qed.

Lemma validate_fuel t compiler : validate t compiler <> Err OutOfFuel.
Proof.
  destruct t as [t|]; [|done]. unfold validate. pose proof (rebuild_fuel t) as H. destruct (rebuild_spec t) as [(t1 & E & U & En & _ & _ & _ & Ho & W)|[[e E] _]]; rewrite E in *; cbn [result_bind]; [|congruence].
  assert (usable t1) as Us by (split; [by rewrite En|done]). pose proof (check_nodes_fuel t1 compiler (Nodes t1)) as H1. destruct (check_nodes _ _ _); cbn [result_bind]; [|congruence].
  unfold validateAliasChains. pose proof (check_chains_fuel t1 (Nodes t1) Us) as H2. destruct (check_chains _ _); cbn [result_bind]; [|congruence].
  pose proof (check_variadic_fuel t1 (Nodes t1)) as H3. destruct (check_variadic _ _); cbn [result_bind]; congruence.
Qed.

Lemma Reindex_spec t : well_keyed (Nodes t) -> exists t', Reindex t = (None, t') /\ Nodes t' = Nodes t /\ table_ok t' /\ owned t' = true.
Proof.
  intros W. pose proof (rebuild_spec t) as R. unfold rebuildIndexes in R. destruct (Reindex t) as [[e|] t'].
  - destruct R as [(t1 & [=] & _)|[_ Hn]]; done.
  - destruct R as [(t1 & E & U & En & E1 & E2 & E3 & Ho & _)|[[e [=]] _]]. assert (t' = t1) as -> by congruence. exists t1. split_and!; try done.
    split; [split; [by rewrite En|done]|rewrite E1; constructor|rewrite E2; constructor|rewrite E3; constructor].
Qed.

Lemma FormatWithTable_spec t ref : table_ok t ->
  exists text t', FormatWithTable (Some t) ref = (Some text, Some t') /\ format_nodes (Nodes t) ref = Some text /\ table_ok t' /\ Nodes t' = Nodes t.
Proof.
  intros T. unfold FormatWithTable. destruct (indexed_ok t T) as (t1 & E & Ho & U & En & T1). rewrite E, <- En. destruct (lookup_ref ref (formattedCache t1)) as [text|] eqn:El.
  - apply lookup_ref_in in El. pose proof (to_formatted _ T1 Ho) as Hf. rewrite Forall_forall in Hf. exists text, t1. split; [done|]. split; [exact (Hf _ El)|done].
  - rewrite (format_in_nodes t1 ref (to_usable _ T1)). destruct (format_nodes_total (Nodes t1) ref) as [text Et]. rewrite Et. eexists text, _. split; [done|]. split; [done|]. split; [|done].
    destruct T1 as [[W UI] Hu Hf He]. set (t2 := mkTable _ _ _ _ _ _ _). assert (usable t2) as Us2 by (split; [exact W|intros Ho2; destruct (UI Ho2); by split]).
    split; [done| | |].
    + intros _. eapply Forall_impl; [exact (Hu Ho)|]. intros q Hq. rewrite Hq. symmetry. by apply underlying_walk_nodes.
    + intros _. cbn [formattedCache Nodes t2]. constructor; [done|by apply Hf].
    + intros _. exact (He Ho).
Qed.

Lemma NewTable_ok nodes t : NewTable nodes = Some t -> table_ok t /\ Nodes t = nodes.
Proof. intros E. destruct (NewTable_spec nodes) as [[_ (t' & E' & En & T & _)]|[_ E']]; [|congruence]. assert (t' = t) as -> by congruence. done. Qed.

(** ** What the tables promise *)

(** C21. A table answers as its list of nodes does, whatever its indexes and caches went through: a node is
    found under its identifier or its declaration exactly when the list has it; [Add] appends a node exactly
    when it has an identifier and neither it nor its declaration is taken, and otherwise reports an error;
    [Replace] overwrites the node with the same identifier exactly when there is one and it keeps its
    declaration; [NewTable] accepts exactly the lists without conflicts; printing, cached or not, gives the
    text of the type in the present nodes and always ends.  The tables they leave have exact indexes and
    coherent caches of underlying types, texts and exact types again. *)
Theorem table_operations_exact (t : TypeTable) (node : TypeNode) (ref : TypeRef) (key : TypeKey) :
  table_ok t ->
  Node (Some t) ref = node_at (Nodes t) ref /\ NamedNode (Some t) key = named_at (Nodes t) key /\ nodeForRef (Some t) ref = node_for (Nodes t) ref /\
  (well_keyed (Nodes t ++ [node]) /\ (exists t', Add node (Some t) = Ok t' /\ Nodes t' = Nodes t ++ [node] /\ table_ok t') \/
   ~ well_keyed (Nodes t ++ [node]) /\ exists e, Add node (Some t) = Err e) /\
  match List.find (fun x => bool_decide (NID x = NID node)) (Nodes t) with
  | Some previous =>
      if bool_decide (Identity previous = Identity node) then
        exists i t', Replace node (Some t) = Ok t' /\ Nodes t !! i = Some previous /\ Nodes t' = <[i := node]> (Nodes t) /\ table_ok t'
      else Replace node (Some t) = Err (IdentityChanged (NID node))
  | None => exists e, Replace node (Some t) = Err e
  end /\
  (forall nodes, well_keyed nodes /\ (exists t', NewTable nodes = Some t' /\ Nodes t' = nodes /\ table_ok t') \/ ~ well_keyed nodes /\ NewTable nodes = None) /\
  (exists text t', FormatWithTable (Some t) ref = (Some text, Some t') /\ format_nodes (Nodes t) ref = Some text /\ table_ok t' /\ Nodes t' = Nodes t) /\
  (exists t', Reindex t = (None, t') /\ Nodes t' = Nodes t /\ table_ok t' /\ owned t' = true).
Proof.
  intros T. split; [apply Node_usable, T|]. split; [apply NamedNode_usable, T|]. split; [apply nodeForRef_usable, T|]. split; [|split; [|split; [|split]]].
  - destruct (Add_spec t node T) as [(W & t' & H1 & H2 & H3 & _)|H]; [left; eauto 10|by right].
  - pose proof (Replace_spec t node T) as H. destruct (List.find _ _); [|done]. case_bool_decide; [|done]. destruct H as (i & t' & H1 & H2 & H3 & H4 & _). eauto 10.
  - intros nodes. destruct (NewTable_spec nodes) as [(W & t' & H1 & H2 & H3 & _)|H]; [left; eauto 10|by right].
  - by apply FormatWithTable_spec.
  - apply Reindex_spec, T.
Qed.

(** C20. Validation accepts exactly the well-formed tables: identifiers and declarations without conflicts,
    every node of the shape its kind needs (element, key, length, direction, signature, declaration, and
    type parameters, instances and open arrays for the compiler only), every reference in its fields,
    signatures, methods and terms absent or proper, with its node, if it names one, in the table (a named
    type given by its declaration alone may belong to another module), every alias chain ending at
    something that is not an alias, and the last parameter of a variadic function a slice after resolution.
    It terminates on every table, cyclic ones included, and leaves the nodes as they are with fresh indexes;
    a nil table is an error. *)
Theorem validate_exact (t : TypeTable) (compiler : bool) :
  ((exists t', validate (Some t) compiler = Ok t') <-> well_formed compiler t) /\
  (forall t', validate (Some t) compiler = Ok t' -> Nodes t' = Nodes t /\ table_ok t' /\ owned t' = true) /\
  validate (Some t) compiler <> Err OutOfFuel /\ validate None compiler = Err NilTable.
Proof.
  destruct (validate_table_spec t compiler) as [(W & t' & E & H)|(W & e & E)].
  - split; [split; [done|intros _; by exists t']|]. split; [intros t2 E2; assert (t2 = t') as -> by congruence; done|]. split; [apply validate_fuel|done].
  - split; [split; [intros [? ?]; congruence|done]|]. split; [congruence|]. split; [apply validate_fuel|done].
Qed.

(** C22. [Underlying] follows the declarations of named types, through aliases and definitions, to the type
    at the end of the chain when there is an end, and answers a named type when the chain is a cycle; it
    stops within as many rounds as the table has nodes, whether the answer is cached or not, and the cache it
    leaves holds only such answers. *)
Theorem named_resolution_exact (t : TypeTable) (ref : TypeRef) :
  table_ok t ->
  (forall r, resolves (Nodes t) ref r <-> Underlying (Some t) ref = r /\ exists r', resolves (Nodes t) ref r') /\
  ((forall r, ~ resolves (Nodes t) ref r) -> RKind (Underlying (Some t) ref) = Named) /\
  let t' := snd (Underlying_cached t ref) in table_ok t' /\ Nodes t' = Nodes t /\ forall r, Underlying (Some t') r = Underlying (Some t) r.
Proof.
  intros T. destruct (Underlying_cached_spec t ref T) as (E & T' & En). destruct (underlying_walk_spec t ref (to_usable _ T)) as [H1 H2]. unfold Underlying. rewrite E.
  split; [|split; [done|]].
  - intros r. split; [intros Hr; split; [by apply H1|by exists r]|]. intros [<- [r' Hr]]. by rewrite (H1 r' Hr).
  - split; [done|]. split; [done|]. intros r. destruct (Underlying_cached_spec _ r T') as (-> & _), (Underlying_cached_spec t r T) as (-> & _). apply underlying_walk_nodes; [apply T|apply T'|done].
Qed.

(** C23. [TypeExact] decides whether everything a type mentions, directly or not, is resolved: no type
    parameter, no instance of a generic type, no definition without an underlying type, no array of unknown
    length, and no reference to a node that the table does not have; references without a node, such as named
    types given by their declaration, and malformed ones inside a type are not followed.  The traversal that
    shares its marks and its cache gives this answer on cyclic types too, in whatever order the marks are
    stored, and what it caches is true.  [ReachableTable] keeps exactly the nodes reachable from the roots
    through what the nodes mention, by node or by declaration. *)
Theorem exactness_and_reachability (iterate : list TypeRef -> list TypeRef) (t : TypeTable) (ref : TypeRef) (roots : list TypeRef) :
  (forall l, iterate l ≡ₚ l) -> table_ok t ->
  (exists b t', TypeExact iterate (Some t) ref = Ok (b, Some t') /\ (b = true <-> proper_ref ref /\ exact_type (Nodes t) ref) /\ table_ok t' /\ Nodes t' = Nodes t) /\
  exists out, ReachableTable (Some t) roots = Ok out /\ table_ok out /\ Nodes out `sublist_of` Nodes t /\ forall node, node ∈ Nodes out <-> reached (Nodes t) roots node.
Proof.
  intros Hit T. split; [by apply TypeExact_spec|]. destruct (ReachableTable_spec t roots (to_usable _ T)) as (seen & out & H1 & H2 & H3 & H4).
  exists out. split_and!; try done. rewrite H3. apply filter_sublist.
Qed.

(** ** Witnesses *)

Definition named_node (id decl : gostring) (alias : bool) (target : TypeRef) : TypeNode :=
  mkNode id Named [] PrimitiveInvalid (mkKey (lit "m") decl) alias (if alias then target else zero_ref) (if alias then zero_ref else target)
    zero_ref zero_ref 0 ChannelInvalid None [] [] [] [] false zero_ref zero_ref [].

(** [type A = B; type B []B], and an array of unknown length. *)
Definition witness_nodes : list TypeNode :=
  [named_node (lit "a") (lit "A") true (mkRef Named PrimitiveInvalid no_key (lit "b")); named_node (lit "b") (lit "B") false (mkRef Slice PrimitiveInvalid no_key (lit "s"));
   mkNode (lit "s") Slice [] PrimitiveInvalid no_key false zero_ref zero_ref (mkRef Named PrimitiveInvalid no_key (lit "b")) zero_ref 0 ChannelInvalid None [] [] [] [] false zero_ref zero_ref [];
   mkNode (lit "u") Array [] PrimitiveInvalid no_key false zero_ref zero_ref (mkRef Named PrimitiveInvalid no_key (lit "b")) zero_ref (-1) ChannelInvalid None [] [] [] [] false zero_ref zero_ref []].

Definition witness_table : TypeTable := match NewTable witness_nodes with Some t => t | None => mkTable [] ∅ ∅ [] [] [] false end.

Definition node_named (kind : Kind) (id : gostring) : TypeRef := mkRef kind PrimitiveInvalid no_key id.

Lemma witness_ok : table_ok witness_table.
Proof. apply (NewTable_ok witness_nodes). by vm_compute. Qed.

Lemma table_operations_exact_witness :
  (exists t, Add (named_node (lit "c") (lit "C") true AnyType) (Some witness_table) = Ok t /\ table_ok t) /\ Node (Some witness_table) (node_named Slice (lit "s")) = witness_nodes !! 2%nat /\
  exists e, Add (named_node (lit "c") (lit "A") true AnyType) (Some witness_table) = Err e.
Proof.
  destruct (table_operations_exact witness_table (named_node (lit "c") (lit "C") true AnyType) (node_named Slice (lit "s")) no_key witness_ok) as (E & _ & _ & Ha & _). split.
  - destruct Ha as [(_ & t & H1 & _ & H2)|(_ & e & H)]; [by exists t|by vm_compute in H].
  - split; [rewrite E; by vm_compute|by eexists; vm_compute].
Defined.

Lemma named_resolution_exact_witness :
  Underlying (Some witness_table) (node_named Named (lit "a")) = node_named Slice (lit "s") /\ table_ok (snd (Underlying_cached witness_table (node_named Named (lit "a")))).
Proof.
  destruct (named_resolution_exact witness_table (node_named Named (lit "a")) witness_ok) as (H & _ & H2 & _). split; [|done]. apply H.
  eexists. apply (chain_step _ _ (named_node (lit "a") (lit "A") true (node_named Named (lit "b"))) (node_named Named (lit "b"))); [done|by vm_compute|done|].
  apply (chain_step _ _ (named_node (lit "b") (lit "B") false (node_named Slice (lit "s"))) (node_named Slice (lit "s"))); [done|by vm_compute|done|by constructor].
Defined.

Lemma exactness_and_reachability_witness :
  (exists q, TypeExact id (Some witness_table) (node_named Named (lit "a")) = Ok (true, q)) /\ ~ exact_type (Nodes witness_table) (node_named Array (lit "u")) /\
  reached (Nodes witness_table) [node_named Named (lit "a")] (named_node (lit "b") (lit "B") false (mkRef Slice PrimitiveInvalid no_key (lit "s"))).
Proof.
  destruct (exactness_and_reachability id witness_table (node_named Array (lit "u")) [node_named Named (lit "a")] (fun l => Permutation_refl l) witness_ok) as ((b & t' & E & Hb & _) & out & Er & _ & _ & Ho).
  split; [by eexists; vm_compute|]. split.
  - intros He. assert (b = true) as -> by (apply Hb; split; [by apply Valid_proper|done]). by vm_compute in E.
  - apply Ho. assert (Nodes out = take 3 witness_nodes) as ->; [|right; left]. vm_compute in Er. injection Er as <-. done.
Defined.

(** ** Examples *)

(** A reference of the invalid kind counts as proper when it has a node, and validation does not look for
    the node of such a reference: a slice of an unknown element is accepted. *)
Definition dangling_slice : TypeNode :=
  mkNode (lit "s") Slice [] PrimitiveInvalid no_key false zero_ref zero_ref (mkRef Invalid PrimitiveInvalid no_key (lit "gone")) zero_ref 0 ChannelInvalid None [] [] [] [] false zero_ref zero_ref [].

Example dangling_slice_accepted : exists t, validate (Some (mkTable [dangling_slice] ∅ ∅ [] [] [] false)) false = Ok t /\ node_at (Nodes t) (Elem dangling_slice) = None.
Proof. eexists. split; [vm_compute; reflexivity|]. vm_compute. reflexivity. Qed.

(** A failed rebuild leaves the indexes of the nodes before the faulty one, still marked as those of the
    table if they were before: the nodes behind it are no longer found. *)
Example reindex_failure_keeps_ownership :
  let t := snd (Reindex (mkTable (zero_node :: witness_nodes) (byID witness_table) (byName witness_table) [] [] [] true)) in
  owned t = true /\ Node (Some t) (node_named Slice (lit "s")) = None /\ is_Some (node_at (Nodes t) (node_named Slice (lit "s"))).
Proof. vm_compute. split; [done|]. split; [done|by eexists]. Qed.

(** The text of the slice of [B], from the table and again from the cache. *)
Example format_sample :
  let ref := node_named Slice (lit "s") in
  let first := FormatWithTable (Some witness_table) ref in
  fst first = Some (lit "Slice<.>") /\ fst (FormatWithTable (snd first) ref) = fst first.
Proof. vm_compute. done. Qed.
