(* ===== verification/TypeRelations.v ===== *)
(** * Relations between types (src/compiler/types)

    view.go: the structured reading of a type.  relations.go: identity, assignability, method sets and
    implementation.  Identity is a recursion over the table that remembers the pairs it is comparing; its
    model takes fuel, [None] being a computation that has not ended. *)

From S2P Require Import Prelude GoStd GoBytes TypeTable.

#[local] Open Scope Z_scope.
#[local] Arguments Z.to_nat : simpl never.

(** ** Results *)

Inductive RelationCode : Type :=
| RelationOK | RelationInvalid | RelationNotIdentical | RelationUnderlyingMismatch | RelationBothTypesNamed | RelationNotAssignable | RelationInterfaceTypeSet
| RelationMissingMethod | RelationMethodSignatureMismatch | RelationSignatureArityMismatch | RelationSignatureVariadicMismatch | RelationNotNilable
| RelationNotComparable | RelationNotStrictlyComparable | RelationNotOrdered.

#[export] Instance RelationCode_eq : EqDecision RelationCode.
Proof. solve_decision. Defined.

(** A [RelationResult] is its code; its field [OK] is whether the code is [RelationOK]. *)
Definition OK (c : RelationCode) : bool := bool_decide (c = RelationOK).

Record Relations : Type := mkRelations { Table : option TypeTable; ignoreTags : bool }.

Definition NewRelations (table : option TypeTable) : Relations := mkRelations table false.

(** Computations that may not end, with Go's short-circuit [&&]. *)
Definition and_then (a : option bool) (b : option bool) : option bool :=
  match a with Some true => b | Some false => Some false | None => None end.

Fixpoint all_pairs {A} (f : A -> A -> option bool) (l l' : list A) : option bool :=
  match l, l' with
  | x :: l, y :: l' => and_then (f x y) (all_pairs f l l')
  | _, _ => Some true
  end.

(** ** Exported names (token/names.go) *)

(** The first rune of a string, as [range] decodes it. *)
Definition first_rune (s : gostring) : option Z :=
  match s with
  | [] => None
  | a :: rest =>
      Some (if a <? 128 then a
      else match rest with
           | b :: rest =>
               if (194 <=? a) && (a <=? 223) && utf8_cont b then (a - 192) * 64 + (b - 128)
               else match rest with
                    | c :: rest =>
                        if (224 <=? a) && (a <=? 239) && utf8_second3 a b && utf8_cont c then (a - 224) * 4096 + (b - 128) * 64 + (c - 128)
                        else match rest with
                             | d :: _ =>
                                 if (240 <=? a) && (a <=? 244) && utf8_second4 a b && utf8_cont c && utf8_cont d then (a - 240) * 262144 + (b - 128) * 4096 + (c - 128) * 64 + (d - 128)
                                 else 65533
                             | [] => 65533
                             end
                    | [] => 65533
                    end
           | [] => 65533
           end)
  end.

(** Binary search in a table of ranges (first, last, stride); the interval shrinks in every round. *)
Fixpoint search_ranges (fuel : nat) (ranges : list (Z * Z * Z)) (value : Z) (low high : nat) : bool :=
  match fuel with
  | O => false
  | S fuel =>
      if (low <? high)%nat then
        let middle := (low + (high - low) / 2)%nat in
        match ranges !! middle with
        | None => false
        | Some (first, last, stride) =>
            if value <? first then search_ranges fuel ranges value low middle
            else if last <? value then search_ranges fuel ranges value (middle + 1) high
            else (value - first) mod stride =? 0
        end
      else false
  end.

Definition inUnicodeRanges (ranges : list (Z * Z * Z)) (r : Z) : bool := if r <? 0 then false else search_ranges (S (length ranges)) ranges r 0 (length ranges).

Section relations.
  (** The generated table of upper-case letters. *)
  Context (upperRanges : list (Z * Z * Z)).

Definition IsExportedName (name : gostring) : bool :=
  match first_rune name with
  | Some r => ((65 <=? r) && (r <=? 90)) || ((128 <=? r) && inUnicodeRanges upperRanges r)
  | None => false
  end.

Definition methodKey (method : Method) : gostring :=
  if bool_decide (MModulePath method = []) || bool_decide (MName method = []) || IsExportedName (MName method) then MName method
  else MModulePath method ++ [58] ++ MName method.

Definition rel_nodeForRef (r : Relations) (ref : TypeRef) : option TypeNode := match Table r with None => None | Some t => nodeForRef (Some t) ref end.

(** The loop of [aliasTarget]; a node seen twice gives the reference it started from. *)
Fixpoint alias_loop (fuel : nat) (r : Relations) (start : TypeRef) (seen : list gostring) (ref : TypeRef) : option TypeRef :=
  match fuel with
  | O => None
  | S fuel =>
      match rel_nodeForRef r ref with
      | None => Some ref
      | Some node =>
          if negb (Alias node) || negb (Valid (AliasTarget node)) then Some ref
          else if bool_decide (NID node ∈ seen) then Some start
          else alias_loop fuel r start (NID node :: seen) (AliasTarget node)
      end
  end.

Definition alias_fuel (r : Relations) : nat := match Table r with None => 1 | Some t => (length (Nodes t) + 2)%nat end.

Definition aliasTarget (r : Relations) (ref : TypeRef) : TypeRef := default ref (alias_loop (alias_fuel r) r ref [] ref).

Definition typeKey (r : Relations) (ref : TypeRef) : TypeKey :=
  match rel_nodeForRef r ref with
  | Some node => if negb (emptyTypeKey (Identity node)) then Identity node else RNamed ref
  | None => RNamed ref
  end.

Definition rel_underlying (r : Relations) (ref : TypeRef) : TypeRef := match Table r with None => ref | Some t => Underlying (Some t) ref end.

(** ** Identity *)

(** [Identical] needs valid references and starts with no pair under comparison. *)
Definition signature_code (compare : TypeRef -> TypeRef -> option bool) (left right : FunctionSignature) : option RelationCode :=
  if negb (Bool.eqb (Variadic left) (Variadic right)) then Some RelationSignatureVariadicMismatch
  else if negb (length (Params left) =? length (Params right))%nat || negb (length (Results left) =? length (Results right))%nat then Some RelationSignatureArityMismatch
  else b ← and_then (all_pairs compare (Params left) (Params right)) (all_pairs compare (Results left) (Results right));
       Some (if b : bool then RelationOK else RelationNotIdentical).

Fixpoint identical (fuel : nat) (r : Relations) (l r' : TypeRef) (seen : list (TypeRef * TypeRef)) : option bool :=
  match fuel with
  | O => None
  | S fuel =>
      let l := aliasTarget r l in
      let r' := aliasTarget r r' in
      if bool_decide (l = r') then Some true
      else if negb (bool_decide (RKind l = RKind r')) then Some false
      else if bool_decide ((l, r') ∈ seen) then Some true
      else
        let seen := (l, r') :: seen in
        if bool_decide (RKind l = Named) then Some (bool_decide (typeKey r l = typeKey r r'))
        else match rel_nodeForRef r l, rel_nodeForRef r r' with
             | Some leftNode, Some rightNode => identicalNode fuel r leftNode rightNode seen
             | None, None => Some (bool_decide (l = r'))
             | _, _ => Some false
             end
  end
with identicalNode (fuel : nat) (r : Relations) (l r' : TypeNode) (seen : list (TypeRef * TypeRef)) : option bool :=
  match fuel with
  | O => None
  | S fuel =>
      let signature := fun a b => OK <$> signature_code (fun x y => if negb (Valid x) || negb (Valid y) then Some false else identical fuel r x y []) a b in
      if negb (bool_decide (NKind l = NKind r')) then Some false
      else match NKind l with
           | Slice | Pointer => identical fuel r (Elem l) (Elem r') seen
           | Array => if (0 <=? Length l) && (0 <=? Length r') && (Length l =? Length r') then identical fuel r (Elem l) (Elem r') seen else Some false
           | Map => and_then (identical fuel r (Key l) (Key r') seen) (identical fuel r (Elem l) (Elem r') seen)
           | Waitable => if bool_decide (Direction l = Direction r') then identical fuel r (Elem l) (Elem r') seen else Some false
           | Function =>
               match Signature l, Signature r' with
               | Some a, Some b => signature a b
               | None, None => Some true
               | _, _ => Some false
               end
           | Tuple => if negb (length (NTuple l) =? length (NTuple r'))%nat then Some false else all_pairs (fun x y => identical fuel r x y seen) (NTuple l) (NTuple r')
           | Struct =>
               if negb (length (Fields l) =? length (Fields r'))%nat then Some false
               else all_pairs (fun x y =>
                      if negb (bool_decide (FName x = FName y)) || (negb (ignoreTags r) && negb (bool_decide (FTag x = FTag y))) || negb (Bool.eqb (Embedded x) (Embedded y)) then Some false
                      else identical fuel r (FType x) (FType y) seen) (Fields l) (Fields r')
           | Interface =>
               if negb (Bool.eqb (TypeSet l) (TypeSet r')) || negb (length (Methods l) =? length (Methods r'))%nat || negb (length (Terms l) =? length (Terms r'))%nat then Some false
               else and_then
                      (all_pairs (fun x y => if negb (bool_decide (methodKey x = methodKey y)) then Some false else signature (MSignature x) (MSignature y)) (Methods l) (Methods r'))
                      (all_pairs (fun x y => if negb (Bool.eqb (Approx x) (Approx y)) || negb (Bool.eqb (Union x) (Union y)) then Some false else identical fuel r (TType x) (TType y) seen)
                         (Terms l) (Terms r'))
           | _ => Some false
           end
  end.

(** The public relations, with the fuel of the comparisons they make. *)
Definition Identical (fuel : nat) (r : Relations) (l r' : TypeRef) : option RelationCode :=
  if negb (Valid l) || negb (Valid r') then Some RelationInvalid
  else b ← identical fuel r l r' []; Some (if b : bool then RelationOK else RelationNotIdentical).

Definition UnderlyingIdentical (fuel : nat) (r : Relations) (l r' : TypeRef) : option RelationCode :=
  if negb (Valid l) || negb (Valid r') then Some RelationInvalid
  else b ← identical fuel r (rel_underlying r l) (rel_underlying r r') []; Some (if b : bool then RelationOK else RelationUnderlyingMismatch).

Definition UnderlyingIdenticalIgnoringTags (fuel : nat) (r : Relations) (l r' : TypeRef) : option RelationCode :=
  UnderlyingIdentical fuel (mkRelations (Table r) true) l r'.

Definition ResolveAlias (r : Relations) (ref : TypeRef) : TypeRef := aliasTarget r ref.

Definition SignatureIdentical (fuel : nat) (r : Relations) (l r' : FunctionSignature) : option RelationCode :=
  signature_code (fun x y => OK <$> Identical fuel r x y) l r'.

(** ** The structured reading of a type (view.go) *)

Definition Shape (t : option TypeTable) (ref : TypeRef) : Kind :=
  if negb (Valid ref) then Invalid
  else
    let underlying := Underlying t ref in
    if bool_decide (RKind ref = Named) && bool_decide (RKind underlying = Any) then Interface else RKind underlying.

Definition view_Primitive (t : option TypeTable) (ref : TypeRef) : option PrimitiveKind :=
  let ref := Underlying t ref in if negb (bool_decide (RKind ref = Primitive)) then None else Some (RPrimitive ref).

Definition underlyingNode (t : option TypeTable) (ref : TypeRef) : option TypeNode :=
  match t with None => None | Some _ => nodeForRef t (Underlying t ref) end.

Definition IsAlias (t : option TypeTable) (ref : TypeRef) : bool :=
  match t with
  | None => false
  | Some _ => if negb (bool_decide (RKind ref = Named)) then false else from_option Alias false (nodeForRef t ref)
  end.

Definition view_Elem (t : option TypeTable) (ref : TypeRef) : option TypeRef :=
  node ← underlyingNode t ref;
  match NKind node with
  | Slice | Pointer | Waitable => if Valid (Elem node) then Some (Elem node) else None
  | _ => None
  end.

Definition StructFields (t : option TypeTable) (ref : TypeRef) : option (list Field) :=
  match (match t with None => None | Some _ => nodeForRef t ref end) with
  | Some node =>
      if bool_decide (NKind node = Named) && negb (length (Fields node) =? 0)%nat then Some (Fields node)
      else node ← underlyingNode t ref; if bool_decide (NKind node = Struct) then Some (Fields node) else None
  | None => node ← underlyingNode t ref; if bool_decide (NKind node = Struct) then Some (Fields node) else None
  end.

Definition Nilable (t : option TypeTable) (ref : TypeRef) : bool :=
  if negb (Valid ref) then false
  else if bool_decide (RKind ref = Any) then true
  else match view_Primitive t ref with
       | Some primitive => bool_decide (primitive = PrimitiveFunction)
       | None => match Shape t ref with Slice | Map | Pointer | Waitable | Function | Interface => true | _ => false end
       end.

Definition is_numeric (kind : PrimitiveKind) : bool :=
  match kind with PrimitiveInvalid | PrimitiveBool | PrimitiveString | PrimitiveError | PrimitiveFunction => false | _ => true end.

Definition is_complex (kind : PrimitiveKind) : bool := match kind with PrimitiveComplex64 | PrimitiveComplex128 => true | _ => false end.

Definition Ordered (t : option TypeTable) (ref : TypeRef) : bool :=
  match view_Primitive t ref with
  | Some primitive => bool_decide (primitive = PrimitiveString) || (is_numeric primitive && negb (is_complex primitive))
  | None => false
  end.

(** [comparable]: a node under examination counts as comparable. *)
Fixpoint comparable (fuel : nat) (t : option TypeTable) (seen : list gostring) (strict : bool) (ref : TypeRef) : option bool :=
  match fuel with
  | O => None
  | S fuel =>
      if negb (Valid ref) then Some false
      else if bool_decide (RKind ref = Any) then Some (negb strict)
      else match view_Primitive t ref with
           | Some primitive => Some (bool_decide (primitive = PrimitiveBool) || bool_decide (primitive = PrimitiveString) || is_numeric primitive)
           | None =>
               let id := RNode (Underlying t ref) in
               if negb (bool_decide (id = [])) && bool_decide (id ∈ seen) then Some true
               else
                 let seen := if negb (bool_decide (id = [])) then id :: seen else seen in
                 match underlyingNode t ref with
                 | None => Some false
                 | Some node =>
                     match NKind node with
                     | Pointer | Waitable => Some true
                     | Interface => Some (negb strict)
                     | Array => comparable fuel t seen strict (Elem node)
                     | Struct => foldr (fun field rest => and_then (comparable fuel t seen strict (FType field)) rest) (Some true) (Fields node)
                     | _ => Some false
                     end
                 end
           end
  end.

(** ** Method sets and assignability *)

Definition interfaceNode (r : Relations) (ref : TypeRef) : option TypeNode := match Table r with None => None | Some t => IsInterface (Some t) ref end.

Definition functionSignature (r : Relations) (ref : TypeRef) : option FunctionSignature := match Table r with None => None | Some t => IsFunction (Some t) ref end.

Definition waitableInfo (r : Relations) (ref : TypeRef) : option (ChannelDir * TypeRef) :=
  let ref := rel_underlying r ref in
  if negb (bool_decide (RKind ref = Waitable)) || bool_decide (RNode ref = []) then None
  else node ← rel_nodeForRef r ref; Some (Direction node, Elem node).

Definition isNamed (r : Relations) (ref : TypeRef) : bool := bool_decide (RKind (aliasTarget r ref) = Named).

Definition methodSetBase (r : Relations) (ref : TypeRef) : TypeRef * bool :=
  let ref := aliasTarget r ref in
  let pointer := bool_decide (Shape (Table r) ref = Pointer) in
  (if pointer then match view_Elem (Table r) ref with Some elem => aliasTarget r elem | None => ref end else ref, pointer).

Definition directMethodSet (r : Relations) (ref : TypeRef) (pointer : bool) : list Method :=
  match rel_nodeForRef r (aliasTarget r ref) with
  | None => []
  | Some node => List.filter (fun method => negb (Valid (Receiver method) && negb pointer && bool_decide (Shape (Table r) (Receiver method) = Pointer))) (Methods node)
  end.

Definition embeddedMethodSetFields (r : Relations) (ref : TypeRef) : list Field :=
  match StructFields (Table r) (aliasTarget r ref) with None => [] | Some fields => List.filter Embedded fields end.

Record frontierItem : Type := mkItem { typ : TypeRef; item_pointer : bool; item_seen : list TypeRef }.

(** The methods of one level: the candidates with how often each was found. *)
Fixpoint count_methods (available : gmap gostring FunctionSignature) (methods : list Method) (found : gmap gostring (FunctionSignature * nat)) : gmap gostring (FunctionSignature * nat) :=
  match methods with
  | [] => found
  | method :: rest =>
      let key := methodKey method in
      if bool_decide (is_Some (available !! key)) then count_methods available rest found
      else count_methods available rest (<[key := (MSignature method, S (from_option snd O (found !! key)))]> found)
  end.

Definition next_items (r : Relations) (item : frontierItem) : list frontierItem :=
  omap (fun field =>
          let base := methodSetBase r (FType field) in
          if bool_decide (fst base ∈ item_seen item) then None else Some (mkItem (fst base) (snd base || item_pointer item) (fst base :: item_seen item)))
    (embeddedMethodSetFields r (typ item)).

(** The levels of embedding.  A key that is available is not counted again, so the deletions that the code
    makes at the first level, where nothing is available yet, remove nothing. *)
Fixpoint method_levels (fuel : nat) (r : Relations) (available : gmap gostring FunctionSignature) (frontier : list frontierItem) : option (gmap gostring FunctionSignature) :=
  match frontier with
  | [] => Some available
  | _ =>
      match fuel with
      | O => None
      | S fuel =>
          let candidates := foldl (fun found item => count_methods available (directMethodSet r (typ item) (item_pointer item)) found) ∅ frontier in
          let single := omap (fun q : FunctionSignature * nat => if (snd q =? 1)%nat then Some (fst q) else None) candidates in
          method_levels fuel r (single ∪ available) (concat (map (next_items r) frontier))
      end
  end.

Definition methodSet (fuel : nat) (r : Relations) (source : TypeRef) (sourceNode : option TypeNode) : option (gmap gostring FunctionSignature) :=
  match sourceNode with
  | Some node => Some (foldl (fun available method => <[methodKey method := MSignature method]> available) ∅ (Methods node))
  | None => let base := methodSetBase r source in method_levels fuel r ∅ [mkItem (fst base) (snd base) [fst base]]
  end.

Fixpoint implements_methods (fuel : nat) (r : Relations) (available : gmap gostring FunctionSignature) (methods : list Method) : option RelationCode :=
  match methods with
  | [] => Some RelationOK
  | method :: rest =>
      match available !! methodKey method with
      | None => Some RelationMissingMethod
      | Some candidate =>
          code ← SignatureIdentical fuel r candidate (MSignature method);
          if negb (OK code) then Some RelationMethodSignatureMismatch else implements_methods fuel r available rest
      end
  end.

Definition Implements (fuel : nat) (r : Relations) (source target : TypeRef) : option RelationCode :=
  if negb (Valid source) || negb (Valid target) then Some RelationInvalid
  else if bool_decide (RKind target = Any) then Some RelationOK
  else match interfaceNode r target with
       | None => Some RelationNotAssignable
       | Some targetNode =>
           if TypeSet targetNode then Some RelationInterfaceTypeSet
           else
             let sourceNode := interfaceNode r source in
             if from_option TypeSet false sourceNode then Some RelationInterfaceTypeSet
             else available ← methodSet fuel r source sourceNode; implements_methods fuel r available (Methods targetNode)
       end.

Definition Assignable (fuel : nat) (r : Relations) (source target : TypeRef) : option RelationCode :=
  if negb (Valid source) || negb (Valid target) then Some RelationInvalid
  else if bool_decide (RKind target = Any) then Some RelationOK
  else
    same ← Identical fuel r source target;
    if OK same then Some RelationOK
    else if from_option (fun node => negb (TypeSet node)) false (interfaceNode r target) then Implements fuel r source target
    else if bool_decide (is_Some (interfaceNode r source)) then Some RelationNotAssignable
    else
      under ← UnderlyingIdentical fuel r source target;
      if OK under then Some (if negb (isNamed r source) || negb (isNamed r target) then RelationOK else RelationBothTypesNamed)
      else
        match functionSignature r source, functionSignature r target with
        | Some sourceSig, Some targetSig => code ← SignatureIdentical fuel r sourceSig targetSig; Some (if OK code then RelationOK else RelationNotAssignable)
        | Some _, None | None, Some _ => Some RelationNotAssignable
        | None, None =>
            match waitableInfo r source, waitableInfo r target with
            | Some (sourceDir, sourceElem), Some (targetDir, targetElem) =>
                if bool_decide (sourceDir = ChannelBoth) then
                  code ← Identical fuel r sourceElem targetElem;
                  Some (if OK code && (negb (isNamed r source) || negb (isNamed r target)) then RelationOK else RelationNotAssignable)
                else Some RelationNotAssignable
            | _, _ => Some RelationNotAssignable
            end
        end.
End relations.
