(* ===== verification/TypeIdentity.v ===== *)
(** * Type identity (src/compiler/types/relations.go)

    Types as finite trees: a named type is its declaration, an anonymous one its shape and the trees of its
    components.  [identical] decides equality of trees. *)

From S2P Require Import Prelude GoStd GoBytes.
From stdpp Require Import relations.
From S2P Require Import TypeTable TypeTableSafe TypeRelations.

#[local] Open Scope Z_scope.
#[local] Arguments Z.to_nat : simpl never.

(** ** Trees *)

Definition signature_shape (s : FunctionSignature) : bool * nat * nat := (Variadic s, length (Params s), length (Results s)).

(** What an anonymous type is made of besides its components. *)
Inductive shape : Type :=
| ShElem (k : Kind) | ShArray (n : Z) | ShMap | ShWaitable (d : ChannelDir) | ShFunction (s : option (bool * nat * nat)) | ShTuple (n : nat)
| ShStruct (fields : list (gostring * gostring * bool)) | ShInterface (typeSet : bool) (methods : list (gostring * (bool * nat * nat))) (terms : list (bool * bool)).

#[export] Instance shape_eq : EqDecision shape.
Proof. solve_decision. Defined.

Inductive tree : Type :=
| TNamed (key : TypeKey)
| TLeaf (ref : TypeRef)
| TNode (s : shape) (l : list tree).

#[export] Instance tree_eq : EqDecision tree.
Proof.
  refine (fix go (x y : tree) : Decision (x = y) :=
    match x, y with
    | TNamed k, TNamed k' => cast_if (decide (k = k'))
    | TLeaf a, TLeaf a' => cast_if (decide (a = a'))
    | TNode s l, TNode s' l' => cast_if_and (decide (s = s')) (@decide (l = l') (@list_eq_dec _ go l l'))
    | _, _ => right _
    end); clear go; abstract congruence.
Defined.

(** Methods are told apart by their names, unexported ones also by their modules. *)
Definition method_identity (upperRanges : list (Z * Z * Z)) (m : Method) : gostring :=
  if bool_decide (MModulePath m = []) || bool_decide (MName m = []) || IsExportedName upperRanges (MName m) then MName m else MModulePath m ++ lit ":" ++ MName m.

Lemma methodKey_identity upperRanges : methodKey upperRanges = method_identity upperRanges.
Proof. done. Qed.

Section identity.
  Context (upperRanges : list (Z * Z * Z)) (r : Relations).

(** Nodes that are compared by their components; the others, such as type parameters and arrays of unknown
    length, are identical to themselves only. *)
Definition node_shape (node : TypeNode) : option shape :=
  match NKind node with
  | Slice | Pointer => Some (ShElem (NKind node))
  | Array => if 0 <=? Length node then Some (ShArray (Length node)) else None
  | Map => Some ShMap
  | Waitable => Some (ShWaitable (Direction node))
  | Function => Some (ShFunction (signature_shape <$> Signature node))
  | Tuple => Some (ShTuple (length (NTuple node)))
  | Struct => Some (ShStruct (map (fun f => (FName f, if ignoreTags r then [] else FTag f, Embedded f)) (Fields node)))
  | Interface => Some (ShInterface (TypeSet node) (map (fun m => (method_identity upperRanges m, signature_shape (MSignature m))) (Methods node)) (map (fun x => (Approx x, Union x)) (Terms node)))
  | _ => None
  end.

Definition components (node : TypeNode) : list TypeRef :=
  match NKind node with
  | Slice | Pointer | Array | Waitable => [Elem node]
  | Map => [Key node; Elem node]
  | Function => match Signature node with Some s => signature_refs s | None => [] end
  | Tuple => NTuple node
  | Struct => map FType (Fields node)
  | Interface => concat (map (fun m => signature_refs (MSignature m)) (Methods node)) ++ map TType (Terms node)
  | _ => []
  end.

(** The tree of a reference that is not an alias, of at most a given height. *)
Fixpoint tree_at (n : nat) (ref : TypeRef) : option tree :=
  match n with
  | O => None
  | S n =>
      if bool_decide (RKind ref = Named) then Some (TNamed (typeKey r ref))
      else match rel_nodeForRef r ref with
           | None => Some (TLeaf ref)
           | Some node =>
               match node_shape node with
               | None => Some (TLeaf ref)
               | Some s =>
                   if negb (bool_decide (RKind ref = NKind node)) || negb (forallb Valid (components node)) then None
                   else TNode s <$> mapM (fun c => tree_at n (aliasTarget r c)) (components node)
               end
           end
  end.

Definition tree_of (n : nat) (ref : TypeRef) : option tree := tree_at n (aliasTarget r ref).

Fixpoint tree_size (t : tree) : nat :=
  match t with
  | TNode _ l => S (foldr (fun x acc => tree_size x + acc)%nat O l)
  | _ => 1%nat
  end.

Lemma tree_size_child s l x : x ∈ l -> (tree_size x < tree_size (TNode s l))%nat.
Proof. intros Hx. cbn. apply Nat.lt_succ_r. induction l as [|y l IH]; [by apply not_elem_of_nil in Hx|]. cbn. apply elem_of_cons in Hx as [->|Hx]; [lia|]. specialize (IH Hx). lia. Qed.

Lemma mapM_more {A B} (f g : A -> option B) l k : (forall x y, x ∈ l -> f x = Some y -> g x = Some y) -> mapM f l = Some k -> mapM g l = Some k.
Proof.
  intros H E. apply mapM_Some in E. apply mapM_Some. induction E as [|x y l k Hxy _ IH]; constructor; [apply H; [left|done]|]. apply IH. intros a b Ha. apply H. by right.
Qed.

Lemma tree_at_more n ref t : tree_at n ref = Some t -> tree_at (S n) ref = Some t.
Proof.
  revert ref t. induction n as [|n IH]; intros ref t E; [done|]. cbn [tree_at] in E. change (tree_at (S (S n)) ref) with
    (if bool_decide (RKind ref = Named) then Some (TNamed (typeKey r ref))
     else match rel_nodeForRef r ref with
          | None => Some (TLeaf ref)
          | Some node => match node_shape node with None => Some (TLeaf ref)
              | Some s => if negb (bool_decide (RKind ref = NKind node)) || negb (forallb Valid (components node)) then None
                  else TNode s <$> mapM (fun c => tree_at (S n) (aliasTarget r c)) (components node) end
          end).
  destruct (bool_decide _); [done|]. destruct (rel_nodeForRef r ref) as [node|]; [|done]. destruct (node_shape node) as [s|]; [|done]. destruct (negb _ || negb _); [done|].
  destruct (mapM _ _) as [l|] eqn:El in E; [|done]. rewrite (mapM_more (fun c => tree_at n (aliasTarget r c)) (fun c => tree_at (S n) (aliasTarget r c)) _ l); [done| |exact El]. intros x y _. apply IH.
Qed.

Lemma tree_at_le n m ref t : (n <= m)%nat -> tree_at n ref = Some t -> tree_at m ref = Some t.
Proof. induction 1; [done|]. intros H'. by apply tree_at_more, IHle. Qed.

Lemma tree_at_det n m ref t t' : tree_at n ref = Some t -> tree_at m ref = Some t' -> t = t'.
Proof.
  intros H1 H2. apply (tree_at_le _ (max n m)) in H1; [|lia]. apply (tree_at_le _ (max n m)) in H2; [|lia]. congruence.
Qed.

(** ** Nodes *)

Lemma all_pairs_spec {A B} `{EqDecision B} (f : A -> A -> option bool) (g : A -> B) l l' :
  (forall x y, x ∈ l -> y ∈ l' -> f x y = Some (bool_decide (g x = g y))) -> length l = length l' -> all_pairs f l l' = Some (bool_decide (map g l = map g l')).
Proof.
  revert l'. induction l as [|x l IH]; intros [|y l'] Hf Hl; try done; cbn.
  rewrite Hf by left. rewrite (IH l'); [|intros a b Ha Hb; apply Hf; by right|by injection Hl].
  case_bool_decide as H1; cbn; f_equal.
  - apply bool_decide_ext. split; [congruence|]. intros E. by injection E.
  - symmetry. apply bool_decide_eq_false. intros E. by injection E.
Qed.

(** Components compared with [identical] are equal trees. *)
Definition compares (D : TypeRef -> option tree) (f : nat) (seen : list (TypeRef * TypeRef)) (x y : TypeNode) : Prop :=
  forall c d s, c ∈ components x -> d ∈ components y -> s = seen \/ s = [] -> identical upperRanges f r c d s = Some (bool_decide (D c = D d)).

Lemma signature_spec (D : TypeRef -> option tree) f (a b : FunctionSignature) :
  (forall c d, c ∈ signature_refs a -> d ∈ signature_refs b -> identical upperRanges f r c d [] = Some (bool_decide (D c = D d))) ->
  forallb Valid (signature_refs a) = true -> forallb Valid (signature_refs b) = true ->
  OK <$> signature_code (fun x y => if negb (Valid x) || negb (Valid y) then Some false else identical upperRanges f r x y []) a b =
  Some (bool_decide (signature_shape a = signature_shape b /\ map D (signature_refs a) = map D (signature_refs b))).
Proof.
  intros Hc Ha Hb. rewrite forallb_forall in Ha, Hb. unfold signature_code, signature_shape, signature_refs in *.
  destruct (Bool.eqb (Variadic a) (Variadic b)) eqn:E1; [|cbn; f_equal; symmetry; apply bool_decide_eq_false; intros [E _]; injection E as E _ _; rewrite E, eqb_reflx in E1; done].
  cbn [negb]. apply eqb_prop in E1. destruct (Nat.eqb_spec (length (Params a)) (length (Params b))) as [E2|E2]; cbn [negb orb]; [|cbn; f_equal; symmetry; apply bool_decide_eq_false; intros [E _]; injection E; intros; done].
  destruct (Nat.eqb_spec (length (Results a)) (length (Results b))) as [E3|E3]; cbn [negb]; [|cbn; f_equal; symmetry; apply bool_decide_eq_false; intros [E _]; injection E; intros; done].
  assert (forall l l', (forall c, c ∈ l -> c ∈ Params a ++ Results a) -> (forall d, d ∈ l' -> d ∈ Params b ++ Results b) -> length l = length l' ->
    all_pairs (fun x y => if negb (Valid x) || negb (Valid y) then Some false else identical upperRanges f r x y []) l l' = Some (bool_decide (map D l = map D l'))) as Hl.
  { intros l l' H1 H2 He. apply all_pairs_spec; [|done]. intros x y Hx Hy. rewrite (Ha x), (Hb y) by (apply list_elem_of_In; auto). cbn. apply Hc; auto. }
  rewrite (Hl (Params a) (Params b)), (Hl (Results a) (Results b)); try done; try (intros; apply elem_of_app; auto).
  case_bool_decide as H1; cbn [and_then mbind option_bind fmap option_fmap option_map].
  - case_bool_decide as H2; cbn; f_equal; symmetry.
    + apply bool_decide_eq_true. split; [congruence|]. by rewrite !map_app, H1, H2.
    + apply bool_decide_eq_false. intros [_ E]. rewrite !map_app in E. apply app_inj_1 in E as [_ E]; [done|by rewrite !length_map].
  - cbn. f_equal. symmetry. apply bool_decide_eq_false. intros [_ E]. rewrite !map_app in E. apply app_inj_1 in E as [E _]; [done|by rewrite !length_map].
Qed.

Lemma concat_inj {A} (l l' : list (list A)) : map length l = map length l' -> concat l = concat l' -> l = l'.
Proof.
  revert l'. induction l as [|x l IH]; intros [|y l'] Hl E; try done. cbn in Hl, E. injection Hl as Hx Hl. apply app_inj_1 in E as [-> E]; [|done]. f_equal. by apply IH.
Qed.

Lemma map_pair_eq {A B C} (f : A -> B) (g : A -> C) l l' : map (fun x => (f x, g x)) l = map (fun x => (f x, g x)) l' <-> map f l = map f l' /\ map g l = map g l'.
Proof.
  revert l'. induction l as [|x l IH]; intros [|y l']; cbn; try (split; [done|by intros [? ?]]). split.
  - intros E. injection E as E1 E2 E3. apply IH in E3 as [E3 E4]. split; congruence.
  - intros [E1 E2]. injection E1 as E1 E3. injection E2 as E2 E4. f_equal; [congruence|]. by apply IH.
Qed.

(** A method with its components. *)
Definition method_data (D : TypeRef -> option tree) (m : Method) : gostring * (bool * nat * nat) * list (option tree) :=
  (method_identity upperRanges m, signature_shape (MSignature m), map D (signature_refs (MSignature m))).

Lemma methods_data_eq D (l l' : list Method) :
  map (method_data D) l = map (method_data D) l' <->
  map (fun m => (method_identity upperRanges m, signature_shape (MSignature m))) l = map (fun m => (method_identity upperRanges m, signature_shape (MSignature m))) l' /\
  map D (concat (map (fun m => signature_refs (MSignature m)) l)) = map D (concat (map (fun m => signature_refs (MSignature m)) l')).
Proof.
  unfold method_data. rewrite map_pair_eq. rewrite !concat_map, !map_map. split; intros [E1 E2]; (split; [done|]); [by rewrite E2|]. apply concat_inj; [|done].
  rewrite !map_map. apply (f_equal (map (fun q : gostring * (bool * nat * nat) => (snd (fst (snd q)) + snd (snd q))%nat))) in E1. rewrite !map_map in E1. cbn in E1.
  erewrite map_ext; [rewrite E1; apply map_ext|]; intros m; unfold signature_refs; by rewrite length_map, length_app.
Qed.

Lemma some_decide (P Q : Prop) `{Decision P, Decision Q} : (P <-> Q) -> Some (bool_decide P) = Some (bool_decide Q).
Proof. intros E. f_equal. by apply bool_decide_ext. Qed.

Definition struct_shape (l : list Field) : list (gostring * gostring * bool) := map (fun f => (FName f, if ignoreTags r then [] else FTag f, Embedded f)) l.

Lemma fields_spec (D : TypeRef -> option tree) (f : nat) seen (l l' : list Field) :
  (forall p q, p ∈ l -> q ∈ l' -> identical upperRanges f r (FType p) (FType q) seen = Some (bool_decide (D (FType p) = D (FType q)))) ->
  (if negb (length l =? length l')%nat then Some false
   else all_pairs (fun x y =>
          if negb (bool_decide (FName x = FName y)) || (negb (ignoreTags r) && negb (bool_decide (FTag x = FTag y))) || negb (Bool.eqb (Embedded x) (Embedded y)) then Some false
          else identical upperRanges f r (FType x) (FType y) seen) l l') =
  Some (bool_decide (struct_shape l = struct_shape l' /\ map D (map FType l) = map D (map FType l'))).
Proof.
  intros Hc. unfold struct_shape. destruct (Nat.eqb_spec (length l) (length l')) as [El|El]; cbn [negb].
  - rewrite (all_pairs_spec _ (fun q => ((FName q, if ignoreTags r then [] else FTag q, Embedded q), D (FType q)))); [| |done].
    + apply some_decide. by rewrite map_pair_eq, !map_map.
    + intros p q Hp Hq. destruct (negb _ || _ || negb _) eqn:Hb.
      * f_equal. symmetry. apply bool_decide_eq_false. intros E. injection E as E1 E2 E3 E4. rewrite E1, E3, eqb_reflx in Hb. rewrite bool_decide_true in Hb by done. cbn in Hb. destruct (ignoreTags r); [done|].
        rewrite E2, bool_decide_true in Hb by done. done.
      * apply orb_false_iff in Hb as [Hb H3%negb_false_iff%eqb_prop]. apply orb_false_iff in Hb as [H1%negb_false_iff%bool_decide_eq_true H2].
        rewrite Hc by done. apply some_decide. split; [|intros E; by injection E]. intros ->. f_equal. f_equal; [f_equal; [done|]|done]. destruct (ignoreTags r); [done|].
        cbn in H2. by apply negb_false_iff, bool_decide_eq_true in H2.
  - f_equal. symmetry. apply bool_decide_eq_false. intros [E _]. apply El. by rewrite <- (length_map (fun f => (FName f, if ignoreTags r then [] else FTag f, Embedded f))), E, length_map.
Qed.

Lemma interface_spec (D : TypeRef -> option tree) (f : nat) seen (x y : TypeNode) :
  NKind x = Interface -> NKind y = Interface -> compares D f seen x y -> forallb Valid (components x) = true -> forallb Valid (components y) = true ->
  identicalNode upperRanges (S f) r x y seen = Some (bool_decide (node_shape x = node_shape y /\ map D (components x) = map D (components y))).
Proof.
  intros Hx Hy Hc Vx Vy. unfold compares in Hc. cbn [identicalNode]. rewrite methodKey_identity. unfold node_shape, components in *. rewrite Hx, Hy in *. cbn [negb]. rewrite bool_decide_true by done. cbn [negb].
  rewrite forallb_app, andb_true_iff in Vx, Vy. destruct Vx as [Vx _], Vy as [Vy _].
  destruct (Bool.eqb (TypeSet x) (TypeSet y)) eqn:Et; cbn [negb orb]; [apply eqb_prop in Et|f_equal; symmetry; apply bool_decide_eq_false; intros [E _]; injection E as E _ _; rewrite E, eqb_reflx in Et; done].
  destruct (Nat.eqb_spec (length (Methods x)) (length (Methods y))) as [Em|Em]; cbn [negb orb];
    [|f_equal; symmetry; apply bool_decide_eq_false; intros [E _]; injection E as _ E _; apply (f_equal length) in E; by rewrite !length_map in E].
  destruct (Nat.eqb_spec (length (Terms x)) (length (Terms y))) as [Er|Er]; cbn [negb];
    [|f_equal; symmetry; apply bool_decide_eq_false; intros [E _]; injection E as _ _ E; apply (f_equal length) in E; by rewrite !length_map in E].
  rewrite (all_pairs_spec _ (method_data D)); [| |done].
  2: { intros p q Hp Hq. case_bool_decide as Hmk; cbn [negb]; [|f_equal; symmetry; apply bool_decide_eq_false; intros E; by injection E].
    assert (forall m l, m ∈ l -> signature_refs (MSignature m) ⊆ concat (map (fun m => signature_refs (MSignature m)) l)) as Hin.
    { intros m l Hm c Hcm. apply list_elem_of_In, in_concat. eexists. split; [apply in_map, list_elem_of_In; exact Hm|by apply list_elem_of_In]. }
    rewrite (signature_spec D).
    - apply some_decide. unfold method_data. split; [intros [E1 E2]; congruence|]. intros E. split; [exact (f_equal (fun z => snd (fst z)) E)|exact (f_equal snd E)].
    - intros c d H1 H2. apply Hc; [apply elem_of_app; left; by eapply Hin|apply elem_of_app; left; by eapply Hin|by right].
    - rewrite forallb_forall in Vx |- *. intros c Hcc. apply Vx, list_elem_of_In. eapply Hin; [exact Hp|by apply list_elem_of_In].
    - rewrite forallb_forall in Vy |- *. intros c Hcc. apply Vy, list_elem_of_In. eapply Hin; [exact Hq|by apply list_elem_of_In]. }
  rewrite (all_pairs_spec _ (fun q => ((Approx q, Union q), D (TType q)))); [| |done].
  2: { intros p q Hp Hq. destruct (negb _ || negb _) eqn:Hb.
    - f_equal. symmetry. apply bool_decide_eq_false. intros E. injection E as E1 E2 _. by rewrite E1, E2, !eqb_reflx in Hb.
    - apply orb_false_iff in Hb as [H1%negb_false_iff%eqb_prop H2%negb_false_iff%eqb_prop]. rewrite Hc by (by left || (apply elem_of_app; right; by apply list_elem_of_fmap_2)). apply some_decide. split; [congruence|]. intros E. by injection E. }
  case_bool_decide as H1; cbn [and_then].
  + apply methods_data_eq in H1 as [H1 H2]. apply some_decide. rewrite map_pair_eq, !map_app, !map_map, H2. split; [intros [E1 E2]; split; congruence|]. intros [E1 E2]. split; [by injection E1|]. by apply app_inj_1 in E2 as [_ ?].
  + f_equal. symmetry. apply bool_decide_eq_false. intros [E1 E2]. apply H1, methods_data_eq. injection E1 as _ E1 _. split; [done|]. rewrite !map_app in E2. apply app_inj_1 in E2 as [? _]; [done|].
    rewrite !length_map. rewrite !length_concat, !map_map. f_equal. apply (f_equal (map (fun q : gostring * (bool * nat * nat) => (snd (fst (snd q)) + snd (snd q))%nat))) in E1. rewrite !map_map in E1. cbn in E1.
    erewrite map_ext; [rewrite E1; apply map_ext|]; intros m; unfold signature_refs; by rewrite length_app.
Qed.

Lemma identicalNode_spec D f seen x y a b :
  compares D f seen x y -> forallb Valid (components x) = true -> forallb Valid (components y) = true -> node_shape x = Some a -> node_shape y = Some b ->
  identicalNode upperRanges (S f) r x y seen = Some (bool_decide (a = b /\ map D (components x) = map D (components y))).
Proof.
  intros Hc Vx Vy Ea Eb. destruct (decide (NKind x = Interface /\ NKind y = Interface)) as [[Ix Iy]|Hni].
  { rewrite (interface_spec D) by done. apply some_decide. rewrite Ea, Eb. split; intros [E1 E2]; (split; [congruence|done]). }
  unfold compares in Hc. cbn [identicalNode]. case_bool_decide as Hk; cbn [negb].
  2: { f_equal. symmetry. apply bool_decide_eq_false. intros [-> _]. apply Hk. clear -Ea Eb. unfold node_shape in *. destruct (NKind x), (NKind y); repeat case_match; congruence. }
  unfold node_shape, components in *. rewrite <- Hk in *.
  destruct (NKind x) eqn:Ek; try done.
  - injection Ea as <-. injection Eb as <-. rewrite Hc by by left. apply some_decide. cbn. split; [by intros ->|]. intros [_ E]. by injection E.
  - destruct (Z.leb_spec 0 (Length x)) as [Hx|Hx]; [|done]. destruct (Z.leb_spec 0 (Length y)) as [Hy|Hy]; [|done]. injection Ea as <-. injection Eb as <-. cbn [andb].
    destruct (Z.eqb_spec (Length x) (Length y)) as [El|El]; [|f_equal; symmetry; apply bool_decide_eq_false; intros [E _]; congruence].
    rewrite Hc by by left. apply some_decide. cbn. rewrite El. split; [by intros ->|]. intros [_ E]. by injection E.
  - injection Ea as <-. injection Eb as <-. rewrite !Hc by (by left || by right; left). case_bool_decide as H1; cbn [and_then].
    + apply some_decide. cbn. split; [intros ->; by rewrite H1|]. intros [_ E]. by injection E.
    + f_equal. symmetry. apply bool_decide_eq_false. cbn. intros [_ E]. by injection E.
  - injection Ea as <-. injection Eb as <-. rewrite Hc by by left. apply some_decide. cbn. split; [by intros ->|]. intros [_ E]. by injection E.
  - injection Ea as <-. injection Eb as <-. case_bool_decide as Hd.
    + rewrite Hc by by left. apply some_decide. cbn. rewrite Hd. split; [by intros ->|]. intros [_ E]. by injection E.
    + by rewrite bool_decide_false by (intros [E _]; congruence).
  - injection Ea as <-. injection Eb as <-. destruct (Signature x) as [s|], (Signature y) as [s'|]; cbn [fmap option_fmap option_map].
    + rewrite (signature_spec D) by (done || (intros c d H1 H2; apply Hc; [done|done|by right])). apply some_decide. split; intros [E1 E2]; (split; [congruence|done]).
    + by rewrite bool_decide_false by (intros [E _]; congruence).
    + by rewrite bool_decide_false by (intros [E _]; congruence).
    + by rewrite bool_decide_true.
  - injection Ea as <-. injection Eb as <-. destruct (Nat.eqb_spec (length (NTuple x)) (length (NTuple y))) as [El|El]; cbn [negb].
    + rewrite (all_pairs_spec _ D) by (done || (intros; apply Hc; [done|done|by left])). apply some_decide. split; [|by intros [_ ?]]. split; congruence.
    + by rewrite bool_decide_false by (intros [E _]; congruence).
  - injection Ea as <-. injection Eb as <-. rewrite (fields_spec D) by (intros; apply Hc; [by apply list_elem_of_fmap_2|by apply list_elem_of_fmap_2|by left]).
    apply some_decide. unfold struct_shape. split; intros [E1 E2]; (split; [congruence|done]).
  - by destruct Hni.
Qed.

Lemma identicalNode_leaf f seen x y : node_shape x = None \/ node_shape y = None -> identicalNode upperRanges (S f) r x y seen = Some false.
Proof.
  intros H. cbn [identicalNode]. case_bool_decide as Hk; [|done]. cbn [negb]. unfold node_shape in H. rewrite <- Hk in H. destruct (NKind x); try done; destruct H as [H|H]; try done.
  - destruct (0 <=? Length x); done.
  - destruct (0 <=? Length y); [done|]. by rewrite andb_false_r.
Qed.

(** ** Identity is equality of trees *)

(** The pairs under comparison are those of larger trees. *)
Definition larger (seen : list (TypeRef * TypeRef)) (t : tree) : Prop :=
  forall a b, (a, b) ∈ seen -> exists k ta, tree_at k a = Some ta /\ (tree_size t < tree_size ta)%nat.

Lemma larger_fresh seen n l r' t : larger seen t -> tree_at n l = Some t -> (l, r') ∉ seen.
Proof. intros H Ht Hin. destruct (H _ _ Hin) as (k & ta & Hta & Hs). rewrite (tree_at_det _ _ _ _ _ Ht Hta) in Hs. lia. Qed.

Lemma mapM_lookup {A B} (f : A -> option B) l k x : mapM f l = Some k -> x ∈ l -> exists y, f x = Some y /\ y ∈ k.
Proof.
  intros E%mapM_Some. induction E as [|a b l k Hab _ IH]; intros Hx; [by apply not_elem_of_nil in Hx|]. apply elem_of_cons in Hx as [->|Hx]; [exists b; split; [done|left]|].
  destruct (IH Hx) as (y & Hy & Hin). exists y. split; [done|by right].
Qed.

Lemma mapM_map {A B} (f : A -> option B) l k : mapM f l = Some k -> map f l = map Some k.
Proof. intros E%mapM_Some. induction E as [|a b l k Hab _ IH]; [done|]. cbn. by rewrite Hab, IH. Qed.

Lemma map_Some_inj {A} (k k' : list A) : map Some k = map Some k' -> k = k'.
Proof. revert k'. induction k as [|x k IH]; intros [|y k'] E; try done. cbn in E. injection E as -> E. f_equal. by apply IH. Qed.

Lemma shape_kind x y s : node_shape x = Some s -> node_shape y = Some s -> NKind x = NKind y.
Proof. unfold node_shape. intros E E'. destruct (NKind x), (NKind y); repeat case_match; congruence. Qed.

(** The three kinds of trees. *)
Definition leaf_node (ref : TypeRef) : Prop := forall node, rel_nodeForRef r ref = Some node -> node_shape node = None.

Definition shaped_node (n : nat) (ref : TypeRef) (node : TypeNode) (s : shape) (l : list tree) : Prop :=
  rel_nodeForRef r ref = Some node /\ RKind ref = NKind node /\ forallb Valid (components node) = true /\ node_shape node = Some s /\ mapM (tree_of n) (components node) = Some l.

Lemma tree_at_inv n ref t : tree_at (S n) ref = Some t ->
  (RKind ref = Named /\ t = TNamed (typeKey r ref)) \/ (RKind ref <> Named /\ t = TLeaf ref /\ leaf_node ref) \/
  (RKind ref <> Named /\ exists node s l, shaped_node n ref node s l /\ t = TNode s l).
Proof.
  cbn [tree_at]. case_bool_decide as Hk; [intros E; injection E as <-; by left|]. destruct (rel_nodeForRef r ref) as [node|] eqn:En; [|intros E; injection E as <-; right; left; by split_and!; [| |intros ?; congruence]].
  destruct (node_shape node) as [s|] eqn:Es; [|intros E; injection E as <-; right; left; split_and!; [done|done|]; intros x Hx; congruence].
  destruct (negb _ || negb _) eqn:Hb; [done|]. apply orb_false_iff in Hb as [H1%negb_false_iff%bool_decide_eq_true H2%negb_false_iff].
  destruct (mapM _ _) as [l|] eqn:El; [|done]. intros E. injection E as <-. right. right. split; [done|]. by exists node, s, l.
Qed.

(** Two references with trees of height at most [n] are compared within [2 n] calls. *)
Lemma identical_spec n : forall f l r' t t' seen, (2 * n <= f)%nat -> tree_of n l = Some t -> tree_of n r' = Some t' -> larger seen t ->
  identical upperRanges f r l r' seen = Some (bool_decide (t = t')).
Proof.
  induction n as [|n IH]; intros f l r' t t' seen Hf Ht Ht' Hs; [done|]. destruct f as [|[|f]]; [lia|lia|]. unfold tree_of in Ht, Ht'. change (identical upperRanges (S (S f)) r l r' seen) with
    (let l := aliasTarget r l in let r' := aliasTarget r r' in
     if bool_decide (l = r') then Some true else if negb (bool_decide (RKind l = RKind r')) then Some false else if bool_decide ((l, r') ∈ seen) then Some true
     else if bool_decide (RKind l = Named) then Some (bool_decide (typeKey r l = typeKey r r'))
     else match rel_nodeForRef r l, rel_nodeForRef r r' with
          | Some leftNode, Some rightNode => identicalNode upperRanges (S f) r leftNode rightNode ((l, r') :: seen)
          | None, None => Some (bool_decide (l = r'))
          | _, _ => Some false
          end). cbn zeta.
  set (a := aliasTarget r l) in *. set (b := aliasTarget r r') in *. clearbody a b. destruct (decide (a = b)) as [<-|Hab]; [rewrite bool_decide_true, bool_decide_true by congruence; done|].
  rewrite (bool_decide_false (a = b)) by done. rewrite (bool_decide_false ((a, b) ∈ seen)) by (by eapply larger_fresh).
  destruct (tree_at_inv n a t Ht) as [[Ka ->]|[(Ka & -> & La)|(Ka & x & s & ls & (Na & Kx & Vx & Sx & Mx) & ->)]],
    (tree_at_inv n b t' Ht') as [[Kb ->]|[(Kb & -> & Lb)|(Kb & y & s' & ls' & (Nb & Ky & Vy & Sy & My) & ->)]].
  all: try (rewrite (bool_decide_false (RKind a = RKind b)) by congruence; cbn [negb]; by rewrite bool_decide_false by done).
  - rewrite !bool_decide_true by congruence. cbn [negb]. f_equal. apply bool_decide_ext. split; [congruence|]. intros E. by injection E.
  - rewrite (bool_decide_false (TLeaf a = TLeaf b)) by congruence. case_bool_decide; [|done]. cbn [negb]. rewrite bool_decide_false by done.
    destruct (rel_nodeForRef r a) as [x|] eqn:Ex, (rel_nodeForRef r b) as [y|]; try done. apply identicalNode_leaf. left. by apply La.
  - rewrite (bool_decide_false (TLeaf a = TNode s' ls')) by congruence. case_bool_decide; [|done]. cbn [negb]. rewrite bool_decide_false by done. rewrite Nb.
    destruct (rel_nodeForRef r a) as [x|] eqn:Ex; [|done]. apply identicalNode_leaf. left. by apply La.
  - rewrite (bool_decide_false (TNode s ls = TLeaf b)) by congruence. case_bool_decide; [|done]. cbn [negb]. rewrite bool_decide_false by done. rewrite Na.
    destruct (rel_nodeForRef r b) as [y|] eqn:Ey; [|done]. apply identicalNode_leaf. right. by apply Lb.
  - case_bool_decide as Hk; cbn [negb].
    + rewrite (bool_decide_false (RKind a = Named)) by done. rewrite Na, Nb. rewrite (identicalNode_spec (tree_of n) f ((a, b) :: seen) x y s s'); try done.
      * apply some_decide. rewrite (mapM_map _ _ _ Mx), (mapM_map _ _ _ My). split; [intros [-> E]; f_equal; by apply map_Some_inj|]. intros E. injection E as -> ->. done.
      * intros c d sn Hc Hd Hsn. destruct (mapM_lookup _ _ _ _ Mx Hc) as (tc & Etc & Hin). destruct (mapM_lookup _ _ _ _ My Hd) as (td & Etd & _).
        rewrite (IH f c d tc td sn); [|lia|done|done|]; [apply some_decide; rewrite Etc, Etd; split; [by intros ->|]; intros E; by injection E|].
        destruct Hsn as [-> | ->]; [|intros p q Hpq; by apply not_elem_of_nil in Hpq]. pose proof (tree_size_child s ls tc Hin) as Hlt. intros p q [E|Hpq]%elem_of_cons.
        -- injection E as -> ->. by exists (S n), (TNode s ls).
        -- destruct (Hs p q Hpq) as (k & ta & Hta & Hsz). exists k, ta. split; [done|lia].
    + rewrite bool_decide_false; [done|]. intros E. injection E as -> ->. apply Hk. rewrite Kx, Ky. by eapply shape_kind.
Qed.

(** ** Tables whose anonymous types are built from earlier ones *)

Definition settled_before (nodes : list TypeNode) (i : nat) (ref : TypeRef) : Prop :=
  RKind ref = Named \/ forall node, rel_nodeForRef r ref = Some node -> node_shape node = None \/ (RKind ref = NKind node /\ exists j, (j < i)%nat /\ nodes !! j = Some node).

(** Every component is valid and refers, aliases aside, to a named type or to an earlier node. *)
Definition grounded (nodes : list TypeNode) : Prop :=
  forall i x c, nodes !! i = Some x -> c ∈ components x -> Valid c = true /\ settled_before nodes i (aliasTarget r c).

Lemma mapM_defined {A B} (f : A -> option B) l : (forall x, x ∈ l -> exists y, f x = Some y) -> exists k, mapM f l = Some k.
Proof.
  induction l as [|x l IH]; intros H; [by exists []|]. destruct (H x) as [y Hy]; [left|]. destruct IH as [k Hk]; [intros a Ha; apply H; by right|]. exists (y :: k). cbn. by rewrite Hy, Hk.
Qed.

Lemma grounded_tree nodes : grounded nodes -> forall i ref, settled_before nodes i ref -> exists t, tree_at (S i) ref = Some t.
Proof.
  intros G i. induction i as [i IH] using lt_wf_ind. intros ref Hs. cbn [tree_at]. case_bool_decide as Hk; [by eexists|]. destruct Hs as [?|Hs]; [done|].
  destruct (rel_nodeForRef r ref) as [node|] eqn:En; [|by eexists]. destruct (Hs node eq_refl) as [Hn|(Hkind & j & Hj & Hnode)]; [rewrite Hn; by eexists|].
  destruct (node_shape node) as [s|]; [|by eexists]. rewrite bool_decide_true by done. assert (forallb Valid (components node) = true) as ->.
  { apply forallb_forall. intros c Hc%list_elem_of_In. by apply (G j node c). }
  cbn [negb orb]. destruct (mapM_defined (fun c => tree_at i (aliasTarget r c)) (components node)) as [l ->]; [|by eexists].
  intros c Hc. destruct (IH j Hj (aliasTarget r c)) as [t Ht]; [by apply (G j node c)|]. exists t. eapply tree_at_le; [|exact Ht]. lia.
Qed.
End identity.

(** The alias chain is followed to its end or to a repetition. *)
Lemma alias_loop_total r t start : Table r = Some t -> usable t -> forall fuel seen ref, NoDup seen -> seen ⊆ map NID (Nodes t) -> (length (Nodes t) + 1 <= fuel + length seen)%nat -> is_Some (alias_loop fuel r start seen ref).
Proof.
  intros Et Us. induction fuel as [|fuel IH]; intros seen ref Hnd Hs Hf.
  - assert (length seen <= length (map NID (Nodes t)))%nat as Hl by (by apply submseteq_length, NoDup_submseteq). rewrite length_map in Hl. lia.
  - cbn [alias_loop]. unfold rel_nodeForRef. rewrite Et, nodeForRef_usable by done. destruct (node_for (Nodes t) ref) as [node|] eqn:En; [|by eexists]. destruct (negb _ || negb _); [by eexists|].
    case_bool_decide as Hin; [by eexists|]. apply IH; [by constructor| |cbn; lia]. intros id [->|?]%elem_of_cons; [|by apply Hs]. apply list_elem_of_fmap_2. by eapply node_for_in.
Qed.

(** ** What a reference denotes *)

Section denotation.
  Context (upperRanges : list (Z * Z * Z)) (tags : bool) (t : TypeTable) (Us : usable t).

#[local] Abbreviation nodes := (Nodes t).
#[local] Abbreviation r := (mkRelations (Some t) tags).

(** The reference at the end of a chain of aliases. *)
Inductive unaliased : TypeRef -> TypeRef -> Prop :=
| unaliased_end ref : (forall node, node_for nodes ref = Some node -> Alias node = false \/ ~ proper_ref (AliasTarget node)) -> unaliased ref ref
| unaliased_step ref node ref' : node_for nodes ref = Some node -> Alias node = true -> proper_ref (AliasTarget node) -> unaliased (AliasTarget node) ref' -> unaliased ref ref'.

(** The declaration of a named type: that of its node, or the one the reference gives. *)
Definition declaration (ref : TypeRef) : TypeKey :=
  match node_for nodes ref with
  | Some node => if bool_decide (Identity node = no_key) then RNamed ref else Identity node
  | None => RNamed ref
  end.

(** A named type denotes its declaration, an anonymous one its shape with what its components denote, and
    a type that is not compared by its components denotes the reference itself. *)
Inductive denotes : TypeRef -> tree -> Prop :=
| denotes_named ref ref' : unaliased ref ref' -> RKind ref' = Named -> denotes ref (TNamed (declaration ref'))
| denotes_leaf ref ref' : unaliased ref ref' -> RKind ref' <> Named -> (forall node, node_for nodes ref' = Some node -> node_shape upperRanges r node = None) -> denotes ref (TLeaf ref')
| denotes_node ref ref' node s l : unaliased ref ref' -> RKind ref' <> Named -> node_for nodes ref' = Some node -> RKind ref' = NKind node ->
    node_shape upperRanges r node = Some s -> Forall proper_ref (components node) -> Forall2 denotes (components node) l -> denotes ref (TNode s l).

(** A reference whose alias chain ends at a named type, at a type compared as a whole, or at a node before
    the given one. *)
Definition denotes_before (i : nat) (ref : TypeRef) : Prop :=
  exists ref', unaliased ref ref' /\ (RKind ref' = Named \/
    forall node, node_for nodes ref' = Some node -> node_shape upperRanges r node = None \/ (RKind ref' = NKind node /\ exists j, (j < i)%nat /\ nodes !! j = Some node)).

(** Anonymous types are built from earlier ones. *)
Definition well_founded_types : Prop := forall i x c, nodes !! i = Some x -> c ∈ components x -> proper_ref c /\ denotes_before i c.

Lemma rel_node ref : rel_nodeForRef r ref = node_for nodes ref.
Proof. unfold rel_nodeForRef. cbn [Table]. by apply nodeForRef_usable. Qed.

Lemma typeKey_declaration ref : typeKey r ref = declaration ref.
Proof. unfold typeKey, declaration. rewrite rel_node. destruct (node_for nodes ref) as [node|]; [|done]. rewrite emptyTypeKey_eq. by case_bool_decide. Qed.

(** The chain that ends passes no node twice: the suffix from the second visit would be as long as from the first. *)
Inductive alias_path : TypeRef -> list gostring -> TypeRef -> Prop :=
| alias_path_end ref : (forall node, node_for nodes ref = Some node -> Alias node = false \/ ~ proper_ref (AliasTarget node)) -> alias_path ref [] ref
| alias_path_step ref node ids ref' : node_for nodes ref = Some node -> Alias node = true -> proper_ref (AliasTarget node) -> alias_path (AliasTarget node) ids ref' ->
    alias_path ref (NID node :: ids) ref'.

Lemma unaliased_path ref ref' : unaliased ref ref' -> exists ids, alias_path ref ids ref'.
Proof. induction 1 as [ref He|ref node ref' Hn Ha Hp _ [ids IH]]; [exists []; by constructor|]. exists (NID node :: ids). by eapply alias_path_step. Qed.

Lemma alias_path_det ref ids ref' : alias_path ref ids ref' -> forall ids2 ref2, alias_path ref ids2 ref2 -> ids = ids2.
Proof.
  induction 1 as [ref He|ref node ids ref' Hn Ha Hp _ IH]; intros ids2 ref2 H2; inversion H2 as [? He2|? node2 ids3 ? Hn2 Ha2 Hp2 Hc]; subst; try done.
  - destruct (He _ Hn2); [congruence|done].
  - destruct (He2 _ Hn); [congruence|done].
  - assert (node2 = node) as -> by congruence. f_equal. by eapply IH.
Qed.

Lemma alias_path_suffix ref ids ref' id : alias_path ref ids ref' -> id ∈ ids ->
  exists node ids2, node ∈ nodes /\ NID node = id /\ alias_path (AliasTarget node) ids2 ref' /\ (length ids2 < length ids)%nat.
Proof.
  induction 1 as [ref He|ref node ids ref' Hn Ha Hp Hc IH]; intros Hin; [by apply not_elem_of_nil in Hin|]. apply elem_of_cons in Hin as [->|Hin].
  - exists node, ids. split; [by eapply node_for_in|]. split; [done|]. split; [done|]. cbn. lia.
  - destruct (IH Hin) as (x & ids2 & H1 & H2 & H3 & H4). exists x, ids2. split; [done|]. split; [done|]. split; [done|]. cbn. lia.
Qed.

Lemma alias_path_nodup ref ids ref' : alias_path ref ids ref' -> NoDup ids.
Proof.
  induction 1 as [ref He|ref node ids ref' Hn Ha Hp Hc IH]; [constructor|]. constructor; [|done]. intros Hin. destruct (alias_path_suffix _ _ _ _ Hc Hin) as (x & ids2 & Hx & Ex & Hc2 & Hlt).
  assert (x = node) as -> by (eapply (keyed_member nodes); eauto using node_for_in; apply Us). rewrite (alias_path_det _ _ _ Hc _ _ Hc2) in Hlt. lia.
Qed.

Lemma alias_loop_path start ref ids ref' : alias_path ref ids ref' -> forall fuel seen, (length ids < fuel)%nat -> NoDup ids -> (forall id, id ∈ ids -> id ∉ seen) -> alias_loop fuel r start seen ref = Some ref'.
Proof.
  induction 1 as [ref He|ref node ids ref' Hn Ha Hp Hc IH]; intros fuel seen Hf Hnd Hd; (destruct fuel as [|fuel]; [cbn in Hf; lia|]); cbn [alias_loop]; rewrite rel_node.
  - destruct (node_for nodes ref) as [node|]; [|done]. destruct (He node eq_refl) as [->|Hv%Valid_improper]; [done|]. rewrite Hv. by rewrite orb_true_r.
  - rewrite Hn, Ha, (proj2 (Valid_proper _) Hp). cbn [negb orb]. rewrite bool_decide_false by (apply Hd; left). apply NoDup_cons in Hnd as [Hni Hnd].
    apply IH; [cbn in Hf; lia|done|]. intros id Hid [->|Hs]%elem_of_cons; [done|]. by eapply Hd; [right|].
Qed.

(** A chain that ends is followed to its end. *)
Lemma aliasTarget_unaliased ref ref' : unaliased ref ref' -> aliasTarget r ref = ref'.
Proof.
  intros [ids Hp]%unaliased_path. unfold aliasTarget. pose proof (alias_path_nodup _ _ _ Hp) as Hnd. rewrite (alias_loop_path ref ref ids ref' Hp); [done| |done|intros id _; apply not_elem_of_nil].
  unfold alias_fuel. cbn [Table]. assert (length ids <= length (map NID nodes))%nat as Hl; [|rewrite length_map in Hl; lia]. apply submseteq_length, NoDup_submseteq; [done|].
  intros id Hin. destruct (alias_path_suffix _ _ _ _ Hp Hin) as (x & _ & Hx & <- & _). by apply list_elem_of_fmap_2.
Qed.

Lemma forallb_proper l : forallb Valid l = true <-> Forall proper_ref l.
Proof. rewrite forallb_forall, Forall_forall. split; intros H x Hx; apply Valid_proper, H; by apply list_elem_of_In. Qed.

Lemma denotes_tree : forall ref x, denotes ref x -> exists n, tree_of upperRanges r n ref = Some x.
Proof.
  fix IH 3. intros ref x [ref0 ref' Hu Hk|ref0 ref' Hu Hk Hl|ref0 ref' node s l Hu Hk Hn Hkn Hs Hp Hc].
  - exists 1%nat. unfold tree_of. rewrite (aliasTarget_unaliased _ _ Hu). cbn [tree_at]. by rewrite bool_decide_true, typeKey_declaration.
  - exists 1%nat. unfold tree_of. rewrite (aliasTarget_unaliased _ _ Hu). cbn [tree_at]. rewrite bool_decide_false, rel_node by done. destruct (node_for nodes ref') as [node|]; [|done]. by rewrite (Hl node).
  - assert (exists n, mapM (tree_of upperRanges r n) (components node) = Some l) as [n Hm].
    { clear -IH Hc. induction Hc as [|c y cs ys Hcy _ [n Hn]]; [by exists O|]. destruct (IH c y Hcy) as [m Hm]. exists (max n m).
      assert (tree_of upperRanges r (max n m) c = Some y) as E1 by (unfold tree_of in *; apply (tree_at_le _ _ m); [lia|done]).
      assert (mapM (tree_of upperRanges r (max n m)) cs = Some ys) as E2 by (eapply mapM_more; [|exact Hn]; intros a b _; apply tree_at_le; lia).
      cbn. rewrite E1. cbn. by rewrite E2. }
    exists (S n). unfold tree_of in *. rewrite (aliasTarget_unaliased _ _ Hu). cbn [tree_at]. rewrite bool_decide_false, rel_node, Hn, Hs by done. rewrite bool_decide_true by done.
    rewrite (proj2 (forallb_proper _) Hp). cbn [negb orb]. by rewrite Hm.
Qed.

Lemma tree_denotes : well_founded_types -> forall n ref ref' x, unaliased ref ref' -> tree_at upperRanges r n ref' = Some x -> denotes ref x.
Proof.
  intros Wf. induction n as [|n IH]; intros ref ref' x Hu Hx; [done|]. destruct (tree_at_inv _ _ _ _ _ Hx) as [[Hk ->]|[(Hk & -> & Hl)|(Hk & node & s & l & (Hn & Hkn & Hv & Hs & Hm) & ->)]].
  - rewrite typeKey_declaration. by apply denotes_named.
  - apply denotes_leaf; [done|done|]. intros node Hn. apply Hl. by rewrite rel_node.
  - rewrite rel_node in Hn. eapply denotes_node; try done; [by apply forallb_proper|]. apply mapM_Some in Hm.
    pose proof (node_for_in _ _ _ Hn) as [i Hi]%list_elem_of_lookup. assert (forall c, c ∈ components node -> exists c', unaliased c c') as Hc.
    { intros c Hc. destruct (Wf i node c Hi Hc) as [_ (c' & Hc' & _)]. by exists c'. }
    clear -IH Hm Hc Us. induction Hm as [|c y cs ys Hcy _ IHm]; constructor; [|apply IHm; intros a Ha; apply Hc; by right].
    destruct (Hc c) as [c' Hu]; [left|]. eapply IH; [exact Hu|]. unfold tree_of in Hcy. by rewrite (aliasTarget_unaliased _ _ Hu) in Hcy.
Qed.

Lemma before_settled i ref : denotes_before i ref -> settled_before upperRanges r nodes i (aliasTarget r ref).
Proof.
  intros (ref' & Hu & H). rewrite (aliasTarget_unaliased _ _ Hu). destruct H as [H|H]; [by left|right]. intros node. rewrite rel_node. apply H.
Qed.

Lemma well_founded_grounded : well_founded_types -> grounded upperRanges r nodes.
Proof. intros Wf i x c Hi Hc. destruct (Wf i x c Hi Hc) as [Hp Hb]. split; [by apply Valid_proper|by apply before_settled]. Qed.
End denotation.

(** ** The properties *)

(** C24. In a table whose anonymous types are built from earlier nodes and named types, aliases aside, a
    proper reference whose alias chain ends denotes one tree: a named type its declaration, an anonymous
    type its shape (lengths, directions, field names, tags and embedding, method names and arities, terms)
    with the trees of its components.  Two such references are [Identical] exactly when they denote the same
    tree, the comparison ends, and so identity of types is an equivalence. *)
Theorem type_identity_exact (upperRanges : list (Z * Z * Z)) (tags : bool) (t : TypeTable) (fuel : nat) (a b c : TypeRef) :
  let ready ref := proper_ref ref /\ denotes_before upperRanges tags t (length (Nodes t)) ref in
  let same x y := Identical upperRanges fuel (mkRelations (Some t) tags) x y = Some RelationOK in
  table_ok t -> well_founded_types upperRanges tags t -> (2 * S (length (Nodes t)) <= fuel)%nat -> ready a -> ready b -> ready c ->
  (exists x, denotes upperRanges tags t a x) /\
  (forall x y, denotes upperRanges tags t a x -> denotes upperRanges tags t b y ->
    Identical upperRanges fuel (mkRelations (Some t) tags) a b = Some (if decide (x = y) then RelationOK else RelationNotIdentical)) /\
  same a a /\ (same a b -> same b a) /\ (same a b -> same b c -> same a c).
Proof.
  intros ready same T Wf Hf Ra Rb Rc. pose proof (to_usable _ T) as Us. set (r := mkRelations (Some t) tags) in *. pose proof (well_founded_grounded upperRanges tags t Us Wf) as G. fold r in G.
  assert (forall x, ready x -> exists y, tree_of upperRanges r (S (length (Nodes t))) x = Some y) as Ht.
  { intros x [_ Hx%(before_settled _ _ _ Us)]. by apply (grounded_tree _ _ (Nodes t) G). }
  assert (forall x y u v, ready x -> ready y -> tree_of upperRanges r (S (length (Nodes t))) x = Some u -> tree_of upperRanges r (S (length (Nodes t))) y = Some v ->
    Identical upperRanges fuel r x y = Some (if decide (u = v) then RelationOK else RelationNotIdentical)) as Hid.
  { intros x y u v [Vx%Valid_proper _] [Vy%Valid_proper _] Hx Hy. unfold Identical. rewrite Vx, Vy. cbn [negb orb].
    rewrite (identical_spec upperRanges r (S (length (Nodes t))) fuel x y u v []) by (done || (intros p q Hpq; by apply not_elem_of_nil in Hpq)).
    cbn. by case_bool_decide; destruct (decide (u = v)). }
  assert (forall x u v, denotes upperRanges tags t x u -> tree_of upperRanges r (S (length (Nodes t))) x = Some v -> u = v) as Hdet.
  { intros x u v [n Hn]%(denotes_tree _ _ _ Us) Hv. by eapply tree_at_det. }
  destruct (Ht a Ra) as [ta Ha], (Ht b Rb) as [tb Hb], (Ht c Rc) as [tc Hc]. unfold same.
  rewrite (Hid a b ta tb), (Hid a a ta ta), (Hid b a tb ta), (Hid b c tb tc), (Hid a c ta tc) by done. split; [|split].
  - exists ta. destruct Ra as [_ (a' & Hu & _)]. eapply tree_denotes; [done|done|exact Hu|]. pose proof (aliasTarget_unaliased tags t Us _ _ Hu) as Ea. fold r in Ea. unfold tree_of in Ha. by rewrite Ea in Ha.
  - intros x y Hx Hy. by rewrite (Hdet a x ta), (Hdet b y tb).
  - repeat destruct (decide _); split_and!; congruence.
Qed.

(** ** Two defects *)

Definition func_node (id : gostring) : TypeNode :=
  mkNode id Function [] PrimitiveInvalid no_key false zero_ref zero_ref zero_ref zero_ref 0 ChannelInvalid (Some (mkSignature [mkRef Function PrimitiveInvalid no_key id] [] false)) [] [] [] [] false zero_ref zero_ref [].

(** Two function types whose only parameter is the type itself. *)
Definition cyclic_table : TypeTable := match NewTable [func_node (lit "f"); func_node (lit "g")] with Some t => t | None => mkTable [] ∅ ∅ [] [] [] false end.

Definition func_ref (id : gostring) : TypeRef := mkRef Function PrimitiveInvalid no_key id.

(** A valid table can hold function types that mention themselves; comparing two of them never ends, because the
    comparison of signatures starts without the pairs that are already under comparison. *)
Theorem identity_diverges (upperRanges : list (Z * Z * Z)) (fuel : nat) :
  (exists t, validate (Some cyclic_table) false = Ok t) /\ Identical upperRanges fuel (NewRelations (Some cyclic_table)) (func_ref (lit "f")) (func_ref (lit "g")) = None.
Proof.
  split; [by eexists; vm_compute|]. set (r := NewRelations (Some cyclic_table)). set (f := func_ref (lit "f")). set (g := func_ref (lit "g")).
  assert (identical upperRanges fuel r f g [] = None) as E; [|unfold Identical; replace (Valid f) with true by (by vm_compute); replace (Valid g) with true by (by vm_compute); cbn [negb orb]; by rewrite E].
  assert (aliasTarget r f = f) as Ef by (by vm_compute). assert (aliasTarget r g = g) as Eg by (by vm_compute).
  assert (rel_nodeForRef r f = Some (func_node (lit "f"))) as Nf by (by vm_compute). assert (rel_nodeForRef r g = Some (func_node (lit "g"))) as Ng by (by vm_compute).
  induction fuel as [fuel IH] using lt_wf_ind. destruct fuel as [|[|fuel]]; [done| |].
  - cbn [identical]. rewrite Ef, Eg. cbn zeta. rewrite Nf, Ng. by rewrite !bool_decide_false by done.
  - change (identical upperRanges (S (S fuel)) r f g []) with
      (let l := aliasTarget r f in let r' := aliasTarget r g in
       if bool_decide (l = r') then Some true else if negb (bool_decide (RKind l = RKind r')) then Some false else if bool_decide ((l, r') ∈ []) then Some true
       else if bool_decide (RKind l = Named) then Some (bool_decide (typeKey r l = typeKey r r'))
       else match rel_nodeForRef r l, rel_nodeForRef r r' with
            | Some leftNode, Some rightNode => identicalNode upperRanges (S fuel) r leftNode rightNode [(l, r')]
            | None, None => Some (bool_decide (l = r'))
            | _, _ => Some false
            end). rewrite Ef, Eg. cbn zeta. rewrite Nf, Ng.
    replace (bool_decide (f = g)) with false by (by vm_compute). replace (bool_decide (RKind f = RKind g)) with true by (by vm_compute). replace (bool_decide ((f, g) ∈ [])) with false by (by vm_compute).
    replace (bool_decide (RKind f = Named)) with false by (by vm_compute). cbn [negb].
    change (identicalNode upperRanges (S fuel) r (func_node (lit "f")) (func_node (lit "g")) [(f, g)]) with
      (OK <$> signature_code (fun x y => if negb (Valid x) || negb (Valid y) then Some false else identical upperRanges fuel r x y []) (mkSignature [f] [] false) (mkSignature [g] [] false)).
    unfold signature_code. cbn [Variadic Params Results Bool.eqb negb length Nat.eqb orb all_pairs]. replace (Valid f) with true by (by vm_compute). replace (Valid g) with true by (by vm_compute). cbn [negb orb].
    by rewrite (IH fuel) by lia.
Qed.

Definition plain_node (id : gostring) (k : Kind) (elem : TypeRef) (fields : list Field) (methods : list Method) : TypeNode :=
  mkNode id k [] PrimitiveInvalid no_key false zero_ref zero_ref elem zero_ref 0 ChannelInvalid None [] fields methods [] false zero_ref zero_ref [].

Definition decl_node (name : gostring) (underlying : TypeRef) (methods : list Method) : TypeNode :=
  mkNode name Named [] PrimitiveInvalid (mkKey (lit "m") name) false zero_ref underlying zero_ref zero_ref 0 ChannelInvalid None [] [] methods [] false zero_ref zero_ref [].

Definition node_of (k : Kind) (id : gostring) : TypeRef := mkRef k PrimitiveInvalid no_key id.

Definition decl_ref (name : gostring) : TypeRef := mkRef Named PrimitiveInvalid (mkKey (lit "m") name) name.

Definition embeds (name : gostring) : Field := mkField name (decl_ref name) [] true.

Definition method_M (receiver : TypeRef) : Method := mkMethod (lit "M") receiver (mkSignature [] [] false) [] [].

(** [S] embeds [A] and [B], which both have a method [M]; [A] embeds what is given. *)
Definition embedding_table (inner : list Field) : option TypeTable :=
  NewTable [plain_node (lit "sA") Struct zero_ref inner []; plain_node (lit "s0") Struct zero_ref [] []; plain_node (lit "sS") Struct zero_ref [embeds (lit "A"); embeds (lit "B")] [];
            decl_node (lit "A") (node_of Struct (lit "sA")) [method_M (decl_ref (lit "A"))]; decl_node (lit "B") (node_of Struct (lit "s0")) [method_M (decl_ref (lit "B"))];
            decl_node (lit "C") (node_of Struct (lit "s0")) [method_M (decl_ref (lit "C"))]; decl_node (lit "S") (node_of Struct (lit "sS")) [];
            plain_node (lit "i") Interface zero_ref [] [method_M zero_ref]].

(** A method that is ambiguous at one level of embedding is not in the method set, but a deeper one of the same name is: with
    [S] embedding [A] and [B], which both declare [M], [S] does not implement [interface{ M() }], and it does
    once [A] also embeds a [C] that declares [M]. *)
Theorem ambiguous_method_promoted :
  let implements inner := Implements [] 10 (NewRelations (embedding_table inner)) (decl_ref (lit "S")) (node_of Interface (lit "i")) in
  implements [] = Some RelationMissingMethod /\ implements [embeds (lit "C")] = Some RelationOK.
Proof. by vm_compute. Qed.

(** ** Witnesses *)

Definition alias_node (id : gostring) (target : TypeRef) : TypeNode :=
  mkNode id Named [] PrimitiveInvalid (mkKey (lit "m") id) true target zero_ref zero_ref zero_ref 0 ChannelInvalid None [] [] [] [] false zero_ref zero_ref [].

(** [s] and [t] are []int, [A] is an alias of [t], [p] is a pointer to [s] and [q] one to [A]. *)
Definition sample_nodes : list TypeNode :=
  [plain_node (lit "s") Slice (Builtin PrimitiveInt) [] []; plain_node (lit "t") Slice (Builtin PrimitiveInt) [] []; alias_node (lit "A") (node_of Slice (lit "t"));
   plain_node (lit "p") Pointer (node_of Slice (lit "s")) [] []; plain_node (lit "q") Pointer (node_of Named (lit "A")) [] []].

Definition sample_table : TypeTable := match NewTable sample_nodes with Some t => t | None => mkTable [] ∅ ∅ [] [] [] false end.

Lemma sample_table_ok : table_ok sample_table /\ Nodes sample_table = sample_nodes.
Proof. apply NewTable_ok. by vm_compute. Qed.

(** The end of an alias chain, computed, and what is asked of it. *)
Fixpoint unalias (fuel : nat) (nodes : list TypeNode) (ref : TypeRef) : option TypeRef :=
  match fuel with
  | O => None
  | S fuel =>
      match node_for nodes ref with
      | Some node => if Alias node && bool_decide (proper_ref (AliasTarget node)) then unalias fuel nodes (AliasTarget node) else Some ref
      | None => Some ref
      end
  end.

Lemma unalias_ok t fuel ref ref' : unalias fuel (Nodes t) ref = Some ref' -> unaliased t ref ref'.
Proof.
  revert ref. induction fuel as [|fuel IH]; intros ref; [done|]. cbn [unalias]. destruct (node_for (Nodes t) ref) as [node|] eqn:En.
  - destruct (Alias node && bool_decide (proper_ref (AliasTarget node))) eqn:Ha.
    + apply andb_true_iff in Ha as [Ha Hp%bool_decide_eq_true]. intros H. eapply unaliased_step; [done|done|done|by apply IH].
    + intros [= <-]. constructor. intros x Hx. assert (x = node) as -> by congruence. apply andb_false_iff in Ha as [Ha|Ha%bool_decide_eq_false]; [by left|by right].
  - intros [= <-]. constructor. intros x Hx. congruence.
Qed.

Definition beforeb (nodes : list TypeNode) (i : nat) (ref : TypeRef) : bool :=
  match unalias 10 nodes ref with
  | Some ref' =>
      bool_decide (RKind ref' = Named) ||
      match node_for nodes ref' with
      | None => true
      | Some node => bool_decide (RKind ref' = NKind node) && existsb (fun x => bool_decide (NID x = NID node)) (take i nodes)
      end
  | None => false
  end.

Lemma beforeb_ok i ref : beforeb sample_nodes i ref = true -> denotes_before [] false sample_table i ref.
Proof.
  destruct sample_table_ok as [T En]. unfold beforeb. destruct (unalias 10 sample_nodes ref) as [ref'|] eqn:Eu; [|done]. rewrite <- En in Eu. apply unalias_ok in Eu. intros H. exists ref'. split; [done|].
  apply orb_true_iff in H as [H%bool_decide_eq_true|H]; [by left|]. right. intros node Hn. rewrite En in Hn |- *. rewrite Hn in H. apply andb_true_iff in H as [H1%bool_decide_eq_true H2]. right. split; [done|].
  apply existsb_exists in H2 as (x & Hx & E%bool_decide_eq_true). apply list_elem_of_In, list_elem_of_lookup in Hx as [j Hj]. apply lookup_take_Some in Hj as [Hj Hlt]. exists j. split; [done|]. rewrite Hj. f_equal.
  eapply (keyed_member sample_nodes); [rewrite <- En; apply T|by eapply list_elem_of_lookup_2|by eapply node_for_in|done].
Qed.

Lemma type_identity_exact_witness :
  let r := mkRelations (Some sample_table) false in
  Identical [] 12 r (node_of Pointer (lit "p")) (node_of Pointer (lit "q")) = Some RelationOK /\
  Identical [] 12 r (node_of Pointer (lit "q")) (node_of Pointer (lit "p")) = Some RelationOK /\
  exists x, denotes [] false sample_table (node_of Pointer (lit "q")) x.
Proof.
  cbv zeta. destruct sample_table_ok as [T En].
  assert (well_founded_types [] false sample_table) as Wf.
  { intros i x c Hi Hc. rewrite En in Hi. do 5 (destruct i as [|i]; [injection Hi as <-; first [by apply not_elem_of_nil in Hc|apply list_elem_of_singleton in Hc as ->; split; [by apply Valid_proper|apply beforeb_ok; by vm_compute]]|]). done. }
  assert (forall k id, Valid (node_of k id) = true -> beforeb sample_nodes 5 (node_of k id) = true -> proper_ref (node_of k id) /\ denotes_before [] false sample_table (length (Nodes sample_table)) (node_of k id)) as R.
  { intros k id V B. split; [by apply Valid_proper|]. rewrite En. by apply beforeb_ok. }
  assert (Identical [] 12 (mkRelations (Some sample_table) false) (node_of Pointer (lit "p")) (node_of Pointer (lit "q")) = Some RelationOK) as E by (by vm_compute).
  destruct (type_identity_exact [] false sample_table 12 (node_of Pointer (lit "q")) (node_of Pointer (lit "p")) (node_of Slice (lit "s")) T Wf) as (Hd & _ & _ & _ & _);
    [rewrite En; cbn; lia|apply R; by vm_compute|apply R; by vm_compute|apply R; by vm_compute|].
  split; [exact E|]. split; [|exact Hd].
  destruct (type_identity_exact [] false sample_table 12 (node_of Pointer (lit "p")) (node_of Pointer (lit "q")) (node_of Slice (lit "s")) T Wf) as (_ & _ & _ & Hs & _);
    [rewrite En; cbn; lia|apply R; by vm_compute|apply R; by vm_compute|apply R; by vm_compute|].
  exact (Hs E).
Defined.
