(* ===== verification/Wire.v ===== *)
(** * Wire primitives (src/rpc/wire_codec.go)

    The encoder only appends, so each of its methods is modelled by the bytes it appends and a
    sequence of calls by concatenation.  The decoder's payload is immutable: its state is the unread
    bytes [data[offset:]] and its limit, threaded through a small error monad; a Go chain
    [if err == nil { x, err = decoder.F() }] is a chain of [let!].  Floats are their IEEE bit
    patterns ([math.Float64bits] and its inverse), complex numbers pairs of them. *)

From S2P Require Import Prelude GoStd GoBytes.

(** ** Data *)

Record Method : Type := mkMethod {
  ID : gostring;
  Service : gostring;
  Name : gostring;
  ContractHash : gostring;
  ResourceTypeHash : gostring
}.

#[export] Instance Method_eq_dec : EqDecision Method.
Proof. solve_decision. Defined.

Record ResourceRef : Type := mkResourceRef {
  Epoch : Z;
  ObjectID : Z;
  TypeHash : gostring
}.

#[export] Instance ResourceRef_eq_dec : EqDecision ResourceRef.
Proof. solve_decision. Defined.

Abbreviation Labels := (gmap gostring gostring).

(** The errors of the wire layer, one constructor per message of the source. *)
Inductive wire_error : Type :=
| TruncatedPayload | TruncatedVarint | OverflowingVarint | NonCanonicalVarint
| InvalidBool | InvalidByteLength | InvalidUTF8 | TrailingBytes
| LabelLimit | LabelEmptyKey | LabelDuplicated
| LimitOverflow | MethodLimit | HopOverflow
| InvalidValueType | DepthLimit | ElementLimit | InvalidFieldID | UnknownValueKind.

(** ** The encoder *)

Definition put_Bool (value : bool) : gostring := if value then [1] else [0].

Definition put_Uint (value : Z) : gostring := AppendUvarint value.

(** [uint64(value<<1) ^ uint64(value>>63)] of an int64. *)
Definition zigzag (value : Z) : Z := Z.lxor (u64 (i64 (Z.shiftl value 1))) (u64 (Z.shiftr value 63)).

Definition put_Int (value : Z) : gostring := put_Uint (zigzag value).

Definition put_Float32 (bits : Z) : gostring := le_bytes 4 bits.
Definition put_Float64 (bits : Z) : gostring := le_bytes 8 bits.
Definition put_Complex64 (value : Z * Z) : gostring := put_Float32 (fst value) ++ put_Float32 (snd value).
Definition put_Complex128 (value : Z * Z) : gostring := put_Float64 (fst value) ++ put_Float64 (snd value).

Definition put_String (value : gostring) : gostring := put_Uint (Z.of_nat (length value)) ++ value.
Definition put_Raw (value : gostring) : gostring := put_Uint (Z.of_nat (length value)) ++ value.

(** ** The decoder *)

Record wireDecoder : Type := mkDecoder { unread : gostring; limit : Z }.

Definition decoding (A : Type) : Type := wireDecoder -> result wire_error (A * wireDecoder).

Definition dec_return {A} (a : A) : decoding A := fun d => Ok (a, d).
Definition dec_fail {A} (e : wire_error) : decoding A := fun d => Err e.
Definition dec_bind {A B} (m : decoding A) (k : A -> decoding B) : decoding B :=
  fun d => match m d with Ok (a, d') => k a d' | Err e => Err e end.

Notation "'let!' x := m 'in' k" := (dec_bind m (fun x => k))
  (at level 10, x binder, m at level 150, k at level 200,
   format "'[v' 'let!'  x  :=  m  'in' '/' k ']'") : go_scope.

Definition newWireDecoder (data : gostring) (limit : Z) : wireDecoder := mkDecoder data limit.

Definition Remaining (d : wireDecoder) : Z := Z.of_nat (length (unread d)).

Definition Done (d : wireDecoder) : result wire_error unit :=
  if negb (Remaining d =? 0) then Err TrailingBytes else Ok tt.

Definition get_byte : decoding Z := fun d =>
  match unread d with
  | [] => Err TruncatedPayload
  | value :: rest => Ok (value, mkDecoder rest (limit d))
  end.

Definition get_Bool : decoding bool :=
  let! value := get_byte in
  if 1 <? value then dec_fail InvalidBool else dec_return (value =? 1).

Definition get_Uint : decoding Z := fun d =>
  if decide (unread d = []) then Err TruncatedPayload
  else
    let '(value, size) := Uvarint (unread d) in
    if size =? 0 then Err TruncatedVarint
    else if size <? 0 then Err OverflowingVarint
    else
      let canonical := AppendUvarint value in
      let canonicalSize := Z.of_nat (length canonical) in
      if negb (canonicalSize =? size) || negb (bool_decide (take (Z.to_nat size) (unread d) = canonical))
      then Err NonCanonicalVarint
      else Ok (value, mkDecoder (drop (Z.to_nat size) (unread d)) (limit d)).

(** [int64(value>>1) ^ -int64(value&1)]. *)
Definition unzigzag (value : Z) : Z := Z.lxor (i64 (Z.shiftr value 1)) (- i64 (Z.land value 1)).

Definition get_Int : decoding Z :=
  let! value := get_Uint in dec_return (unzigzag value).

Definition get_fixed (size : Z) : decoding gostring := fun d =>
  if (size <? 0) || (Remaining d <? size) then Err TruncatedPayload
  else Ok (take (Z.to_nat size) (unread d), mkDecoder (drop (Z.to_nat size) (unread d)) (limit d)).

Definition get_Float32 : decoding Z := let! value := get_fixed 4 in dec_return (le_word value).
Definition get_Float64 : decoding Z := let! value := get_fixed 8 in dec_return (le_word value).

Definition get_Complex64 : decoding (Z * Z) :=
  let! realPart := get_Float32 in
  let! imagPart := get_Float32 in
  dec_return (realPart, imagPart).

Definition get_Complex128 : decoding (Z * Z) :=
  let! realPart := get_Float64 in
  let! imagPart := get_Float64 in
  dec_return (realPart, imagPart).

(** [rawView] and [Raw], which copies the view.  [Remaining] is the length of a slice, so its
    conversion to uint64 is the identity; the limit is converted as any int. *)
Definition get_rawView : decoding gostring :=
  let! size := get_Uint in
  fun d =>
    if (u64 (limit d) <? size) || (Remaining d <? size) then Err InvalidByteLength
    else if size =? 0 then Ok ([], d)
    else get_fixed (i64 size) d.

Definition get_Raw : decoding gostring := get_rawView.

Definition get_String : decoding gostring :=
  let! value := get_rawView in
  if negb (utf8_Valid value) then dec_fail InvalidUTF8 else dec_return value.

(** ** Labels *)

(** The entries of a map in the order of its sorted keys. *)
Definition sorted_keys (labels : Labels) : list gostring :=
  merge_sort bytes_le (map fst (map_to_list labels)).

Definition encodeWireLabels (labels : Labels) : gostring :=
  let keys := sorted_keys labels in
  put_Uint (Z.of_nat (length keys)) ++
  concat (map (fun key => put_String key ++ put_String (default [] (labels !! key))) keys).

Fixpoint decode_labels_loop (count : nat) (labels : Labels) : decoding Labels :=
  match count with
  | O => dec_return labels
  | S count' =>
      let! key := get_String in
      let! value := get_String in
      if decide (key = []) then dec_fail LabelEmptyKey
      else if decide (is_Some (labels !! key)) then dec_fail LabelDuplicated
      else decode_labels_loop count' (<[key := value]> labels)
  end.

Definition decodeWireLabels (lim : Z) : decoding Labels :=
  let! count := get_Uint in
  if u64 lim <? count then dec_fail LabelLimit
  else if count =? 0 then dec_return ∅
  else decode_labels_loop (Z.to_nat count) ∅.

(** ** Methods and resources *)

Definition encodeWireMethod (method : Method) : gostring :=
  put_String (ID method) ++ put_String (Service method) ++ put_String (Name method) ++
  put_String (ContractHash method) ++ put_String (ResourceTypeHash method).

Definition decodeWireMethod : decoding Method :=
  let! id := get_String in
  let! service := get_String in
  let! name := get_String in
  let! contractHash := get_String in
  let! resourceTypeHash := get_String in
  dec_return (mkMethod id service name contractHash resourceTypeHash).

Definition put_resource_ref (ref : ResourceRef) : gostring :=
  put_Uint (Epoch ref) ++ put_Uint (ObjectID ref) ++ put_String (TypeHash ref).

Definition get_resource_ref : decoding ResourceRef :=
  let! epoch := get_Uint in
  let! objectID := get_Uint in
  let! typeHash := get_String in
  dec_return (mkResourceRef epoch objectID typeHash).

(** A presence flag and the value when it is present. *)
Definition put_optional {A} (put : A -> gostring) (value : option A) : gostring :=
  match value with
  | None => put_Bool false
  | Some a => put_Bool true ++ put a
  end.

Definition get_optional {A} (get : decoding A) : decoding (option A) :=
  let! present := get_Bool in
  if present then (let! a := get in dec_return (Some a)) else dec_return None.

Definition encodeWireResource (ref : option ResourceRef) : gostring := put_optional put_resource_ref ref.
Definition decodeWireResource : decoding (option ResourceRef) := get_optional get_resource_ref.

(** ** Lemmas: the decoding monad *)

(** [decodes get lim bytes a]: the decoder reads [a] from a payload that starts with [bytes] and
    leaves the rest. *)
Definition decodes {A} (get : decoding A) (lim : Z) (bytes : gostring) (a : A) : Prop :=
  forall rest, get (mkDecoder (bytes ++ rest) lim) = Ok (a, mkDecoder rest lim).

(** [exact_for get put]: the decoder accepts only what the encoder writes. *)
Definition exact_for {A} (get : decoding A) (put : A -> gostring) : Prop :=
  forall d a d', get d = Ok (a, d') -> unread d = put a ++ unread d' /\ limit d' = limit d.

Lemma decodes_return {A} (a : A) lim : decodes (dec_return a) lim [] a.
Proof. by intros rest. Qed.

Lemma decodes_bind {A B} (m : decoding A) (k : A -> decoding B) lim b1 b2 a b :
  decodes m lim b1 a -> decodes (k a) lim b2 b -> decodes (dec_bind m k) lim (b1 ++ b2) b.
Proof. intros H1 H2 rest. unfold dec_bind. rewrite <- app_assoc, H1. apply H2. Qed.

(** The last read of a chain. *)
Lemma decodes_map {A B} (m : decoding A) (f : A -> B) lim bytes a :
  decodes m lim bytes a -> decodes (let! x := m in dec_return (f x)) lim bytes (f a).
Proof. intros H. rewrite <- (app_nil_r bytes). eapply decodes_bind; [exact H|apply decodes_return]. Qed.

Lemma dec_bind_ok {A B} (m : decoding A) (k : A -> decoding B) d b d'' :
  dec_bind m k d = Ok (b, d'') <-> exists a d', m d = Ok (a, d') /\ k a d' = Ok (b, d'').
Proof.
  unfold dec_bind. destruct (m d) as [[a d']|e]; split.
  - intros H. eauto.
  - intros (a' & d1 & E & H). by injection E as -> ->.
  - done.
  - by intros (a' & d1 & E & H).
Qed.

(** [dec_inv H] decomposes a hypothesis that a chain of reads succeeded. *)
Ltac dec_inv H :=
  repeat match type of H with
  | dec_bind _ _ _ = Ok _ =>
      let a := fresh "a" in let d := fresh "d" in let E := fresh "E" in
      apply dec_bind_ok in H as (a & d & E & H)
  | dec_return _ _ = Ok _ => unfold dec_return in H; injection H as <- <-
  | (if ?b then _ else _) _ = Ok _ => let E := fresh "E" in destruct b eqn:E; try discriminate H
  end.

(** ** Lemmas: primitives *)

Lemma lor_u64 a b : 0 <= a < 2 ^ 64 -> 0 <= b < 2 ^ 64 -> 0 <= Z.lor a b < 2 ^ 64.
Proof.
  intros Ha Hb. assert (0 <= Z.lor a b) by (apply Z.lor_nonneg; lia). split; [done|].
  destruct (decide (Z.lor a b = 0)) as [->|]; [done|]. apply Z.log2_lt_pow2; [lia|].
  rewrite Z.log2_lor by lia.
  assert (forall x, 0 <= x < 2 ^ 64 -> Z.log2 x < 64) as Hlog.
  { intros x Hx. destruct (decide (x = 0)) as [->|]; [done|]. apply Z.log2_lt_pow2; lia. }
  apply Z.max_lub_lt; by apply Hlog.
Qed.

Lemma uvarint_loop_range buf i x s : 0 <= x < 2 ^ 64 -> 0 <= fst (uvarint_loop buf i x s) < 2 ^ 64.
Proof.
  revert i x s. induction buf as [|b buf IH]; intros i x s Hx; cbn [uvarint_loop]; [done|].
  destruct (i =? MaxVarintLen64); [done|]. destruct (b <? 128).
  - destruct (_ && _); [done|]. apply lor_u64; [done|apply u64_range].
  - apply IH. apply lor_u64; [done|apply u64_range].
Qed.

Lemma decodes_Bool lim b : decodes get_Bool lim (put_Bool b) b.
Proof. intros rest. by destruct b. Qed.

Lemma decodes_Uint lim x : 0 <= x < 2 ^ 64 -> decodes get_Uint lim (put_Uint x) x.
Proof.
  intros Hx rest. unfold get_Uint, put_Uint. cbn [unread limit].
  pose proof (AppendUvarint_length x) as Hl.
  rewrite decide_False by (intros E; apply app_eq_nil in E as [E _]; rewrite E in Hl; cbn in Hl; lia).
  rewrite Uvarint_Append by done. cbn zeta.
  rewrite (proj2 (Z.eqb_neq _ 0)), (proj2 (Z.ltb_ge _ 0)), Z.eqb_refl by lia. cbn [negb orb].
  rewrite Nat2Z.id, take_app_length, drop_app_length. by rewrite bool_decide_eq_true_2.
Qed.

Lemma get_Uint_ok d x d' :
  get_Uint d = Ok (x, d') -> unread d = put_Uint x ++ unread d' /\ limit d' = limit d /\ 0 <= x < 2 ^ 64.
Proof.
  unfold get_Uint. case_decide; [done|]. destruct (Uvarint (unread d)) as [value size] eqn:E.
  destruct (size =? 0) eqn:E0; [done|]. destruct (size <? 0) eqn:E1; [done|]. cbn zeta.
  destruct (negb _ || negb _) eqn:E2; [done|]. intros H'. injection H' as <- <-. cbn [unread limit].
  apply orb_false_iff in E2 as [_ E2]. apply negb_false_iff, bool_decide_eq_true_1 in E2.
  split; [|split; [done|]].
  - unfold put_Uint. rewrite <- E2. by rewrite take_drop.
  - pose proof (uvarint_loop_range (unread d) 0 0 0 ltac:(lia)) as H1.
    unfold Uvarint in E. by rewrite E in H1.
Qed.

Lemma exact_Uint : exact_for get_Uint put_Uint.
Proof. intros d x d' H. apply get_Uint_ok in H as (? & ? & _). done. Qed.

Lemma zigzag_spec n : - 2 ^ 63 <= n < 2 ^ 63 -> zigzag n = if n <? 0 then - 2 * n - 1 else 2 * n.
Proof.
  intros Hn. unfold zigzag. rewrite Z.shiftl_mul_pow2, Z.shiftr_div_pow2 by lia. change (2 ^ 1) with 2.
  assert (u64 (i64 (n * 2)) = (n * 2) mod 2 ^ 64) as ->.
  { unfold u64, i64. rewrite Zminus_mod_idemp_l. f_equal. lia. }
  destruct (n <? 0) eqn:E; breflect.
  - rewrite (div_bounds n (2 ^ 63) (-1)) by lia. change (u64 (-1)) with (Z.ones 64).
    assert ((n * 2) mod 2 ^ 64 = n * 2 + 2 ^ 64) as ->.
    { symmetry. apply Z.mod_unique_pos with (-1); lia. }
    rewrite Z.lxor_comm.
    assert (forall x, 0 <= x < 2 ^ 64 -> Z.lxor (Z.ones 64) x = 2 ^ 64 - 1 - x) as Hx.
    { intros x Hx. rewrite (Z.sub_nocarry_ldiff (2 ^ 64 - 1) x).
      - change (2 ^ 64 - 1) with (Z.ones 64). apply Z.bits_inj'. intros i Hi.
        rewrite Z.lxor_spec, Z.ldiff_spec. destruct (Z.lt_ge_cases i 64).
        + rewrite Z.ones_spec_low by lia. done.
        + rewrite Z.ones_spec_high by lia. cbn. destruct (decide (x = 0)) as [->|]; [apply Z.bits_0|].
          apply Z.bits_above_log2; [lia|]. apply Z.log2_lt_pow2; [lia|]. eapply Z.lt_le_trans; [apply Hx|].
          apply Z.pow_le_mono_r; lia.
      - change (2 ^ 64 - 1) with (Z.ones 64). apply Z.bits_inj'. intros i Hi. rewrite Z.ldiff_spec, Z.bits_0.
        destruct (Z.lt_ge_cases i 64).
        + by rewrite Z.ones_spec_low, andb_false_r by lia.
        + rewrite Z.ones_spec_high, andb_true_r by lia. destruct (decide (x = 0)) as [->|]; [apply Z.bits_0|].
          apply Z.bits_above_log2; [lia|]. apply Z.log2_lt_pow2; [lia|]. eapply Z.lt_le_trans; [apply Hx|].
          apply Z.pow_le_mono_r; lia. }
    rewrite Hx by lia. lia.
  - rewrite (div_bounds n (2 ^ 63) 0) by lia. change (u64 0) with 0. rewrite Z.lxor_0_r, Z.mod_small by lia. lia.
Qed.

Lemma unzigzag_spec v : 0 <= v < 2 ^ 64 -> unzigzag v = if Z.odd v then - (v / 2) - 1 else v / 2.
Proof.
  intros Hv. unfold unzigzag. rewrite Z.shiftr_div_pow2 by lia. change (2 ^ 1) with 2.
  change 1 with (Z.ones 1) at 1. rewrite Z.land_ones by lia. change (2 ^ 1) with 2.
  assert (0 <= v / 2 < 2 ^ 63) as Hq by (split; [apply Z.div_pos; lia|apply Z.div_lt_upper_bound; lia]).
  rewrite i64_id by lia. rewrite Zmod_odd. destruct (Z.odd v).
  - change (- i64 1) with (-1). rewrite Z.lxor_m1_r. unfold Z.lnot. lia.
  - change (- i64 0) with 0. by rewrite Z.lxor_0_r.
Qed.

Lemma zigzag_range n : - 2 ^ 63 <= n < 2 ^ 63 -> 0 <= zigzag n < 2 ^ 64.
Proof. intros Hn. rewrite zigzag_spec by done. destruct (n <? 0) eqn:E; breflect; lia. Qed.

Lemma unzigzag_zigzag n : - 2 ^ 63 <= n < 2 ^ 63 -> unzigzag (zigzag n) = n.
Proof.
  intros Hn. rewrite unzigzag_spec, zigzag_spec by (done || by apply zigzag_range).
  destruct (n <? 0) eqn:E; breflect.
  - assert (Z.odd (-2 * n - 1) = true) as ->.
    { replace (-2 * n - 1) with (1 + 2 * (- n - 1)) by lia. by rewrite Z.odd_add_mul_2. }
    rewrite (div_bounds _ 2 (- n - 1)); lia.
  - assert (Z.odd (2 * n) = false) as -> by (by rewrite Z.odd_mul).
    rewrite (div_bounds _ 2 n); lia.
Qed.

Lemma zigzag_unzigzag v : 0 <= v < 2 ^ 64 -> zigzag (unzigzag v) = v /\ - 2 ^ 63 <= unzigzag v < 2 ^ 63.
Proof.
  intros Hv. destruct (div_mod_pos v 2 ltac:(lia)) as [Hd _]. rewrite Zmod_odd in Hd.
  assert (- 2 ^ 63 <= unzigzag v < 2 ^ 63) as Hr by (rewrite unzigzag_spec by done; destruct (Z.odd v); lia).
  split; [|done]. rewrite zigzag_spec by done. rewrite unzigzag_spec by done.
  destruct (Z.odd v); destruct (_ <? 0) eqn:E; breflect; lia.
Qed.

Lemma decodes_Int lim n : - 2 ^ 63 <= n < 2 ^ 63 -> decodes get_Int lim (put_Int n) n.
Proof.
  intros Hn. unfold get_Int, put_Int. rewrite <- (unzigzag_zigzag n) at 2 by done.
  apply decodes_map, decodes_Uint. by apply zigzag_range.
Qed.

Lemma exact_Int : exact_for get_Int put_Int.
Proof.
  intros d n d' H. unfold get_Int in H. dec_inv H. apply get_Uint_ok in E as (E & El & Hr).
  unfold put_Int. by rewrite (proj1 (zigzag_unzigzag a Hr)).
Qed.

Lemma decodes_fixed lim size bytes : Z.of_nat (length bytes) = size -> decodes (get_fixed size) lim bytes bytes.
Proof.
  intros <- rest. unfold get_fixed, Remaining. cbn [unread limit]. rewrite length_app.
  rewrite (proj2 (Z.ltb_ge _ 0)), (proj2 (Z.ltb_ge _ _)) by lia. cbn [orb].
  by rewrite Nat2Z.id, take_app_length, drop_app_length.
Qed.

Lemma decodes_Float64 lim bits : 0 <= bits < 2 ^ 64 -> decodes get_Float64 lim (put_Float64 bits) bits.
Proof.
  intros Hb. unfold get_Float64, put_Float64. rewrite <- (le_word_bytes 8 bits) at 2 by done.
  apply decodes_map, decodes_fixed. by rewrite le_bytes_length.
Qed.

Lemma decodes_Complex128 lim c :
  0 <= fst c < 2 ^ 64 -> 0 <= snd c < 2 ^ 64 -> decodes get_Complex128 lim (put_Complex128 c) c.
Proof.
  intros H1 H2. destruct c as [re im]. unfold get_Complex128, put_Complex128.
  eapply decodes_bind; [by apply decodes_Float64|]. apply (decodes_map _ (fun x => (re, x))).
  by apply decodes_Float64.
Qed.

(** The texts and byte sequences a decoder with a limit accepts. *)
Definition fits (lim : Z) (s : gostring) : Prop := Z.of_nat (length s) <= lim /\ lim < 2 ^ 63.

Lemma decodes_rawView lim s : fits lim s -> decodes get_rawView lim (put_Raw s) s.
Proof.
  intros [Hl Hm]. unfold get_rawView, put_Raw. eapply decodes_bind; [apply decodes_Uint; lia|].
  intros rest. cbn [limit unread]. unfold Remaining. cbn [unread]. rewrite length_app.
  rewrite (u64_id lim), !(proj2 (Z.ltb_ge _ _)) by lia. cbn [orb].
  destruct (Z.of_nat (length s) =? 0) eqn:E; breflect.
  - destruct s; [done|cbn in E; lia].
  - rewrite i64_id by lia. by apply decodes_fixed.
Qed.

Lemma decodes_String lim s : fits lim s -> utf8_Valid s = true -> decodes get_String lim (put_String s) s.
Proof.
  intros Hf Hv. unfold get_String. rewrite <- (app_nil_r (put_String s)).
  eapply decodes_bind; [by apply decodes_rawView|]. rewrite Hv. apply decodes_return.
Qed.

Lemma get_fixed_ok size d bytes d' :
  get_fixed size d = Ok (bytes, d') ->
  unread d = bytes ++ unread d' /\ limit d' = limit d /\ Z.of_nat (length bytes) = size.
Proof.
  unfold get_fixed, Remaining. destruct (_ || _) eqn:E; [done|]. breflect. intros Hok. injection Hok as <- <-.
  cbn [unread limit]. split; [by rewrite take_drop|]. split; [done|]. rewrite length_take. lia.
Qed.

Lemma get_rawView_ok d s d' :
  Z.of_nat (length (unread d)) < 2 ^ 63 -> get_rawView d = Ok (s, d') ->
  unread d = put_Raw s ++ unread d' /\ limit d' = limit d /\ Z.of_nat (length s) <= u64 (limit d).
Proof.
  intros Hlen H. unfold get_rawView in H. dec_inv H. apply get_Uint_ok in E as (E & El & Hr).
  rewrite E in Hlen. rewrite length_app in Hlen. unfold Remaining in H.
  destruct (_ || _) eqn:Eb; [done|]. breflect. destruct (a =? 0) eqn:E0; breflect.
  - injection H as <- <-. subst a. unfold put_Raw. rewrite E. cbn [length]. split; [done|]. split; [done|].
    cbn. apply u64_range.
  - rewrite i64_id in H by lia. apply get_fixed_ok in H as (Hu & Hl & Hn). unfold put_Raw.
    rewrite E, Hu, Hn, app_assoc, Hl, El. split; [done|]. split; [done|]. rewrite <- El. lia.
Qed.

Lemma get_String_ok d s d' :
  Z.of_nat (length (unread d)) < 2 ^ 63 -> get_String d = Ok (s, d') ->
  unread d = put_String s ++ unread d' /\ limit d' = limit d /\ utf8_Valid s = true.
Proof.
  intros Hlen H. unfold get_String in H. dec_inv H. breflect.
  apply get_rawView_ok in E as (H1 & H2 & _); [|done]. done.
Qed.

(** ** Lemmas: composite values *)

Lemma decodes_last {A B} (m : decoding A) (k : A -> decoding B) lim bytes a b :
  decodes m lim bytes a -> decodes (k a) lim [] b -> decodes (dec_bind m k) lim bytes b.
Proof. intros H1 H2. rewrite <- (app_nil_r bytes). by eapply decodes_bind. Qed.

Create HintDb wire.
#[export] Hint Resolve decodes_Bool decodes_Uint decodes_Int decodes_Float64 decodes_Complex128
  decodes_rawView decodes_String decodes_return : wire.

(** [decode_chain] runs a chain of reads over the concatenation of their encodings. *)
Ltac decode_chain :=
  repeat first
    [ apply decodes_return
    | eapply decodes_bind; [solve [eauto with wire]|]
    | eapply decodes_last; [solve [eauto with wire]|] ].

(** A text the decoder accepts. *)
Definition text_ok (lim : Z) (s : gostring) : Prop := fits lim s /\ utf8_Valid s = true.

Lemma decodes_text lim s : text_ok lim s -> decodes get_String lim (put_String s) s.
Proof. intros [H1 H2]. by apply decodes_String. Qed.

#[export] Hint Resolve decodes_text : wire.

Definition method_ok (lim : Z) (m : Method) : Prop :=
  text_ok lim (ID m) /\ text_ok lim (Service m) /\ text_ok lim (Name m) /\
  text_ok lim (ContractHash m) /\ text_ok lim (ResourceTypeHash m).

Lemma decodes_method lim m : method_ok lim m -> decodes decodeWireMethod lim (encodeWireMethod m) m.
Proof.
  destruct m. intros (H1 & H2 & H3 & H4 & H5). cbn in *. unfold decodeWireMethod, encodeWireMethod. decode_chain.
Qed.

Definition uint64_ok (x : Z) : Prop := 0 <= x < 2 ^ 64.

Definition ref_ok (lim : Z) (ref : ResourceRef) : Prop :=
  uint64_ok (Epoch ref) /\ uint64_ok (ObjectID ref) /\ text_ok lim (TypeHash ref).

Lemma decodes_resource_ref lim ref : ref_ok lim ref -> decodes get_resource_ref lim (put_resource_ref ref) ref.
Proof.
  destruct ref. intros (H1 & H2 & H3). cbn in *. unfold get_resource_ref, put_resource_ref. decode_chain.
Qed.

Definition optional_ok {A} (P : A -> Prop) (value : option A) : Prop :=
  match value with Some a => P a | None => True end.

Lemma decodes_optional {A} (get : decoding A) put (P : A -> Prop) lim value :
  (forall a, P a -> decodes get lim (put a) a) -> optional_ok P value ->
  decodes (get_optional get) lim (put_optional put value) value.
Proof.
  intros Hget Hv. unfold get_optional. destruct value as [a|]; cbn [put_optional].
  - eapply decodes_bind; [apply decodes_Bool|]. cbn iota. eapply decodes_last; [by apply Hget|]. apply decodes_return.
  - eapply decodes_last; [apply decodes_Bool|]. apply decodes_return.
Qed.

Lemma decodes_resource lim ref :
  optional_ok (ref_ok lim) ref -> decodes decodeWireResource lim (encodeWireResource ref) ref.
Proof. apply decodes_optional, decodes_resource_ref. Qed.

#[export] Hint Resolve decodes_method decodes_resource_ref decodes_resource : wire.

(** ** Lemmas: labels *)

Definition label_ok (lim : Z) (entry : gostring * gostring) : Prop :=
  fst entry <> [] /\ text_ok lim (fst entry) /\ text_ok lim (snd entry).

Definition labels_ok (lim : Z) (labels : Labels) : Prop := map_Forall (fun k v => label_ok lim (k, v)) labels.

Definition label_entries (labels : Labels) : list (gostring * gostring) :=
  map (fun key => (key, default [] (labels !! key))) (sorted_keys labels).

Lemma label_entries_perm labels : label_entries labels ≡ₚ map_to_list labels.
Proof.
  unfold label_entries, sorted_keys. rewrite merge_sort_Permutation, List.map_map.
  assert (map (fun x => (fst x, default [] (labels !! fst x))) (map_to_list labels) = map_to_list labels) as E; [|by rewrite E].
  rewrite <- (List.map_id (map_to_list labels)) at 2. apply List.map_ext_in. intros [k v] Hin. cbn [fst id].
  apply list_elem_of_In, elem_of_map_to_list in Hin. by rewrite Hin.
Qed.

Lemma decode_labels_loop_spec lim entries acc :
  Forall (label_ok lim) entries -> NoDup (map fst entries) -> Forall (fun e => acc !! fst e = None) entries ->
  decodes (decode_labels_loop (length entries) acc) lim
    (concat (map (fun e => put_String (fst e) ++ put_String (snd e)) entries)) (list_to_map entries ∪ acc).
Proof.
  revert acc. induction entries as [|[k v] entries IH]; intros acc Hok Hnd Hfresh.
  { cbn [length decode_labels_loop concat map]. rewrite list_to_map_nil, (left_id_L ∅ (∪)). apply decodes_return. }
  cbn [length decode_labels_loop concat map fst snd]. inversion Hok as [|? ? (Hk & Hkt & Hvt) Hok']; subst.
  cbn [map fst] in Hnd. apply NoDup_cons in Hnd as [Hnin Hnd]. inversion Hfresh as [|? ? Hf Hfresh']; subst. cbn [fst snd] in *.
  rewrite <- !app_assoc. eapply decodes_bind; [by apply decodes_text|]. eapply decodes_bind; [by apply decodes_text|].
  rewrite decide_False by done. rewrite decide_False by (rewrite Hf; by intros [? ?]).
  rewrite list_to_map_cons.
  rewrite <- insert_union_l, insert_union_r by (by apply not_elem_of_list_to_map_1).
  apply IH; [done|done|]. apply List.Forall_forall. intros [k' v'] Hin. cbn [fst].
  rewrite List.Forall_forall in Hfresh'. rewrite lookup_insert_ne; [by apply (Hfresh' (k', v'))|].
  intros ->. apply Hnin. apply list_elem_of_In. apply in_map_iff. by exists (k', v').
Qed.

Lemma decodes_labels lim count labels :
  labels_ok lim labels -> Z.of_nat (size labels) <= count -> count < 2 ^ 63 ->
  decodes (decodeWireLabels count) lim (encodeWireLabels labels) labels.
Proof.
  intros Hok Hc Hmax. unfold decodeWireLabels, encodeWireLabels. cbn zeta.
  assert (length (sorted_keys labels) = length (label_entries labels)) as -> by (unfold label_entries; by rewrite List.length_map).
  assert (length (label_entries labels) = size labels) as Hlen.
  { rewrite (Permutation_length (label_entries_perm labels)). apply length_map_to_list. }
  eapply decodes_bind; [apply decodes_Uint; lia|]. rewrite u64_id, (proj2 (Z.ltb_ge _ _)) by lia.
  assert (concat (map (fun key => put_String key ++ put_String (default [] (labels !! key))) (sorted_keys labels))
    = concat (map (fun e => put_String (fst e) ++ put_String (snd e)) (label_entries labels))) as ->.
  { unfold label_entries. by rewrite List.map_map. }
  assert (NoDup (map fst (label_entries labels))) as Hnd.
  { rewrite (Permutation_map fst (label_entries_perm labels)). apply NoDup_fst_map_to_list. }
  assert (list_to_map (label_entries labels) = labels) as Hmap.
  { rewrite (list_to_map_proper _ (map_to_list labels) Hnd (label_entries_perm labels)). apply list_to_map_to_list. }
  rewrite Hlen. destruct (Z.of_nat (size labels) =? 0) eqn:E; breflect.
  - assert (label_entries labels = []) as El by (apply length_zero_iff_nil; lia). rewrite El in *.
    rewrite list_to_map_nil in Hmap. rewrite <- Hmap. apply decodes_return.
  - rewrite Nat2Z.id, <- Hlen.
    assert (labels = list_to_map (label_entries labels) ∪ ∅) as Hl by (by rewrite (right_id_L ∅ (∪)), Hmap).
    rewrite Hl at 3. apply decode_labels_loop_spec; [|done|].
    + rewrite label_entries_perm. apply List.Forall_forall. intros [k v] Hin.
      apply list_elem_of_In, elem_of_map_to_list in Hin. by apply (Hok k v).
    + apply List.Forall_forall. intros. apply lookup_empty.
Qed.

(** ** Properties *)

(** Varints are canonical in both directions: for every uint64 and int64, the decoder reads
    back what the encoder wrote in front of any rest, and whatever prefix a decoder accepts is the
    encoding of its result, so a value has one encoding. *)
Theorem varint_canonical :
  (forall lim x, 0 <= x < 2 ^ 64 -> decodes get_Uint lim (put_Uint x) x) /\
  (forall lim n, - 2 ^ 63 <= n < 2 ^ 63 -> decodes get_Int lim (put_Int n) n) /\
  exact_for get_Uint put_Uint /\ exact_for get_Int put_Int.
Proof.
  split; [exact decodes_Uint|]. split; [exact decodes_Int|]. split; [exact exact_Uint|exact exact_Int].
Qed.

(** Round trip of the composite wire values: texts within the limit that are valid UTF-8,
    methods, resource references and label maps with non-empty keys decode to themselves in front
    of any rest. *)
Theorem wire_composites_roundtrip lim count m ref labels :
  method_ok lim m -> optional_ok (ref_ok lim) ref -> labels_ok lim labels ->
  Z.of_nat (size labels) <= count -> count < 2 ^ 63 ->
  decodes decodeWireMethod lim (encodeWireMethod m) m /\
  decodes decodeWireResource lim (encodeWireResource ref) ref /\
  decodes (decodeWireLabels count) lim (encodeWireLabels labels) labels.
Proof.
  intros Hm Hr Hl Hc Hmax. split; [by apply decodes_method|]. split; [by apply decodes_resource|].
  by apply decodes_labels.
Qed.

Lemma wire_composites_roundtrip_witness :
  decodes decodeWireMethod 64 (encodeWireMethod (mkMethod (lit "s.m") (lit "s") (lit "m") [] [])) (mkMethod (lit "s.m") (lit "s") (lit "m") [] []) /\
  decodes decodeWireResource 64 (encodeWireResource (Some (mkResourceRef 1 2 (lit "t")))) (Some (mkResourceRef 1 2 (lit "t"))) /\
  decodes (decodeWireLabels 8) 64 (encodeWireLabels {[ lit "zone" := lit "a"; lit "az" := lit "b" ]}) {[ lit "zone" := lit "a"; lit "az" := lit "b" ]}.
Proof.
  apply (wire_composites_roundtrip 64 8).
  - repeat split; vm_compute; congruence.
  - repeat split; vm_compute; congruence.
  - apply map_Forall_insert_2; [repeat split; vm_compute; congruence|].
    apply map_Forall_singleton. repeat split; vm_compute; congruence.
  - vm_compute. congruence.
  - lia.
Defined.

(** What the string decoder accepts: a successful read returns valid UTF-8 no longer than the
    decoder's limit, and the bytes consumed are exactly its encoding. *)
Theorem string_decoder_exact d s d' :
  Z.of_nat (length (unread d)) < 2 ^ 63 -> get_String d = Ok (s, d') ->
  unread d = put_String s ++ unread d' /\ limit d' = limit d /\ utf8_Valid s = true /\
  Z.of_nat (length s) <= u64 (limit d).
Proof.
  intros Hlen H. pose proof H as H'. apply get_String_ok in H as (H1 & H2 & H3); [|done].
  unfold get_String in H'. dec_inv H'. apply get_rawView_ok in E as (_ & _ & E); done.
Qed.

Lemma string_decoder_exact_witness :
  [2; 97; 98; 7] = put_String (lit "ab") ++ [7] /\ 9 = 9 /\ utf8_Valid (lit "ab") = true /\
  Z.of_nat (length (lit "ab")) <= u64 9.
Proof.
  apply (string_decoder_exact (mkDecoder [2; 97; 98; 7] 9) (lit "ab") (mkDecoder [7] 9)).
  - vm_compute. reflexivity.
  - vm_compute. reflexivity.
Defined.
