(* ===== verification/RpcValue.v ===== *)
(** * RPC values (src/rpc/value.go, limits.go, resource.go, endpoint_value_codec.go)

    The dynamic values of the RPC layer, their validation against the limits of a session, and
    their canonical binary encoding.  The [any] of [Value.Data] is the inductive type [Data], with
    [DOther] for a Go value of any other type.  [validateValues] mutates two captured counters:
    they are threaded through the recursion as a pair.  [decodeBinaryValue] recurses at most
    [MaxValueDepth] + 1 levels deep, which is its fuel. *)

From S2P Require Import Prelude GoStd GoBytes Wire.

(** ** Data *)

Inductive Value : Type :=
| mkValue (typ : gostring) (data : Data) (resource : option ResourceRef)
with Data : Type :=
| DNil
| DBool (b : bool)
| DInt (n : Z)
| DUint (n : Z)
| DFloat (bits : Z)
| DComplex (c : Z * Z)
| DString (s : gostring)
| DBytes (b : gostring)
| DSlice (items : list Value)
| DMap (entries : list (Value * Value))
| DStruct (fields : list (Z * Value))
| DOptional (v : Value)
| DOther.

Definition Value_Type (v : Value) : gostring := let '(mkValue typ _ _) := v in typ.
Definition Value_Data (v : Value) : Data := let '(mkValue _ data _) := v in data.
Definition Value_Resource (v : Value) : option ResourceRef := let '(mkValue _ _ resource) := v in resource.

Record Limits : Type := mkLimits {
  MaxFrameBytes : Z;
  MaxMessageBytes : Z;
  MaxInFlightBytes : Z;
  MaxBindings : Z;
  MaxPendingCalls : Z;
  MaxPendingResults : Z;
  MaxPendingControls : Z;
  MaxResources : Z;
  MaxMethods : Z;
  MaxValueDepth : Z;
  MaxValueElements : Z
}.

Definition or_default (value fallback : Z) : Z := if value =? 0 then fallback else value.

Definition normalizeLimits (limits : Limits) : Limits :=
  mkLimits
    (or_default (MaxFrameBytes limits) (2 ^ 20))
    (or_default (MaxMessageBytes limits) (64 * 2 ^ 20))
    (or_default (MaxInFlightBytes limits) (128 * 2 ^ 20))
    (or_default (MaxBindings limits) 4096)
    (or_default (MaxPendingCalls limits) 65536)
    (or_default (MaxPendingResults limits) 65536)
    (or_default (MaxPendingControls limits) 4096)
    (or_default (MaxResources limits) 65536)
    (or_default (MaxMethods limits) 4096)
    (or_default (MaxValueDepth limits) 128)
    (or_default (MaxValueElements limits) 1000000).

(** The errors of validation, encoding and decoding of values. *)
Inductive value_error : Type :=
| NoType | TypeUTF8 | DepthExceeded | SizeExceeded
| ResourceNested | ResourceInvalid | ShapeMismatch | StringUTF8
| FieldNoID | FieldDuplicate | Unsupported
| EncodedBytes | ByteLimit | ValueCount
| DecodeValue (index : Z) (e : wire_error)
| TrailingData (e : wire_error).

(** ** Shape of a value *)

Definition validateResourceRef (ref : ResourceRef) : bool :=
  negb ((Epoch ref =? 0) || (ObjectID ref =? 0) || negb (Z.of_nat (length (TypeHash ref)) =? 64)).

(** The scan of [rpcMapTypes] after ["map["]: the key text is collected in reverse. *)
Fixpoint map_types_loop (rest key : gostring) (depth : Z) : option (gostring * gostring) :=
  match rest with
  | [] => None
  | c :: rest' =>
      if c =? 91 then map_types_loop rest' (c :: key) (depth + 1)
      else if c =? 93 then
        if depth - 1 =? 0 then Some (TrimSpace (rev key), TrimSpace rest')
        else map_types_loop rest' (c :: key) (depth - 1)
      else map_types_loop rest' (c :: key) depth
  end.

Definition rpcMapTypes (typ : gostring) : option (gostring * gostring) :=
  '(key, value) ← map_types_loop (drop 4 typ) [] 1;
  if bool_decide (key <> []) && bool_decide (value <> []) then Some (key, value) else None.

Definition is_type (typ : gostring) (names : list string) : bool :=
  existsb (fun name => bool_decide (typ = lit name)) names.

(** [validateValueShape]: whether the data has the shape the type text requires. *)
Definition validateValueShape (typ : gostring) (data : Data) : bool :=
  let typ := TrimSpace typ in
  match data with
  | DNil => true
  | _ =>
      if HasPrefix typ (lit "optional[") && HasSuffix typ (lit "]") then
        let elementType := TrimSpace (take (length typ - 10) (drop 9 typ)) in
        match data with
        | DOptional value => bool_decide (TrimSpace (Value_Type value) = elementType)
        | _ => false
        end
      else if HasPrefix typ (lit "[]") then
        if bool_decide (typ = lit "[]uint8") then match data with DBytes _ => true | _ => false end
        else
          match data with
          | DSlice values =>
              let elementType := TrimSpace (drop 2 typ) in
              forallb (fun value => bool_decide (TrimSpace (Value_Type value) = elementType)) values
          | _ => false
          end
      else if HasPrefix typ (lit "map[") then
        match rpcMapTypes typ, data with
        | Some (keyType, valueType), DMap entries =>
            forallb (fun entry => bool_decide (TrimSpace (Value_Type (fst entry)) = keyType) &&
                                  bool_decide (TrimSpace (Value_Type (snd entry)) = valueType)) entries
        | _, _ => false
        end
      else if is_type typ ["bool"]%string then match data with DBool _ => true | _ => false end
      else if is_type typ ["string"]%string then match data with DString _ => true | _ => false end
      else if is_type typ ["uint8"; "uint16"; "uint32"; "uint64"]%string then match data with DUint _ => true | _ => false end
      else if is_type typ ["int8"; "int16"; "int32"; "int64"]%string then match data with DInt _ => true | _ => false end
      else if is_type typ ["float32"; "float64"]%string then match data with DFloat _ => true | _ => false end
      else if is_type typ ["complex64"; "complex128"]%string then match data with DComplex _ => true | _ => false end
      else
        match data with
        | DStruct _ => true
        | DInt enum => ContainsByte typ 46 && (- 2 ^ 31 <=? enum) && (enum <=? 2 ^ 31 - 1)
        | _ => false
        end
  end.

(** ** Validation *)

(** The captured counters [bytes] and [elements]. *)
Definition counters : Type := Z * Z.

Definition check_size (limits : Limits) (c : counters) : result value_error counters :=
  if (MaxMessageBytes limits <? fst c) || (MaxValueElements limits <? snd c) then Err SizeExceeded else Ok c.

(** A loop over a slice that stops at the first error. *)
Definition fold_result {A S E : Type} (f : A -> S -> result E S) : list A -> S -> result E S :=
  fix go (l : list A) (s : S) : result E S :=
    match l with
    | [] => Ok s
    | x :: l' => match f x s with Ok s' => go l' s' | Err e => Err e end
    end.

(** The closure [validate] of [validateValues]. *)
Fixpoint validate (limits : Limits) (v : Value) (depth : Z) (c : counters) : result value_error counters :=
  let '(mkValue typ data resource) := v in
  if bool_decide (typ = []) then Err NoType
  else if negb (utf8_Valid typ) then Err TypeUTF8
  else if MaxValueDepth limits <? depth then Err DepthExceeded
  else
    let? c := check_size limits (fst c + Z.of_nat (length typ), snd c + 1) in
    match resource with
    | Some ref =>
        if negb (depth =? 0) then Err ResourceNested
        else if negb (match data with DNil => true | _ => false end) || negb (validateResourceRef ref)
                || negb (bool_decide (TrimSpace typ = TypeHash ref))
        then Err ResourceInvalid
        else Ok c
    | None =>
        if negb (validateValueShape typ data) then Err ShapeMismatch
        else
          match data with
          | DNil | DBool _ | DInt _ | DUint _ | DFloat _ | DComplex _ => Ok c
          | DString s =>
              if negb (utf8_Valid s) then Err StringUTF8
              else check_size limits (fst c + Z.of_nat (length s), snd c)
          | DBytes b => check_size limits (fst c + Z.of_nat (length b), snd c)
          | DSlice items =>
              let? c := fold_result (fun item c => validate limits item (depth + 1) c) items c in
              check_size limits c
          | DMap entries =>
              let? c :=
                fold_result (fun entry c =>
                  let? c := validate limits (fst entry) (depth + 1) c in
                  validate limits (snd entry) (depth + 1) c) entries c in
              check_size limits c
          | DStruct fields =>
              let? sc :=
                fold_result (fun field (sc : list Z * counters) =>
                  let '(seen, c) := sc in
                  if fst field =? 0 then Err FieldNoID
                  else if bool_decide (fst field ∈ seen) then Err FieldDuplicate
                  else
                    let? c := validate limits (snd field) (depth + 1) c in
                    Ok (fst field :: seen, c)) fields ([], c) in
              check_size limits (snd sc)
          | DOptional value => validate limits value (depth + 1) c
          | DOther => Err Unsupported
          end
    end.

Definition validateValues (values : list Value) (limits : Limits) : result value_error unit :=
  let? _ := fold_result (fun value c => validate limits value 0 c) values (0, 0) in
  Ok tt.

(** ** Encoding *)

Definition wireNil : Z := 0.
Definition wireBool : Z := 1.
Definition wireInt : Z := 2.
Definition wireUint : Z := 3.
Definition wireFloat : Z := 4.
Definition wireComplex : Z := 5.
Definition wireString : Z := 6.
Definition wireBytes : Z := 7.
Definition wireSlice : Z := 8.
Definition wireMap : Z := 9.
Definition wireStruct : Z := 10.
Definition wireOptional : Z := 11.
Definition wireResource : Z := 12.

(** All the results, or the first failure. *)
Fixpoint sequence {A} (l : list (option A)) : option (list A) :=
  match l with
  | [] => Some []
  | x :: l' => x ← x; l' ← sequence l'; Some (x :: l')
  end.

Definition count_prefix {A} (l : list A) : gostring := put_Uint (Z.of_nat (length l)).

Definition entry_less (a b : gostring * gostring) : bool := strings_Compare (fst a) (fst b) <? 0.
Definition field_less (a b : Z * gostring) : bool := fst a <? fst b.

(** [encodeBinaryValue]: the bytes it appends, [None] for an unsupported value. *)
Fixpoint encodeBinaryValue (v : Value) : option gostring :=
  let '(mkValue typ data resource) := v in
  body ←
    match resource with
    | Some ref => Some (put_Uint wireResource ++ put_resource_ref ref)
    | None =>
        match data with
        | DNil => Some (put_Uint wireNil)
        | DBool b => Some (put_Uint wireBool ++ put_Bool b)
        | DInt n => Some (put_Uint wireInt ++ put_Int n)
        | DUint n => Some (put_Uint wireUint ++ put_Uint n)
        | DFloat bits => Some (put_Uint wireFloat ++ put_Float64 bits)
        | DComplex c => Some (put_Uint wireComplex ++ put_Complex128 c)
        | DString s => Some (put_Uint wireString ++ put_String s)
        | DBytes b => Some (put_Uint wireBytes ++ put_Raw b)
        | DSlice items =>
            items ← sequence (map encodeBinaryValue items);
            Some (put_Uint wireSlice ++ count_prefix items ++ concat items)
        | DMap entries =>
            entries ← sequence (map (fun entry =>
              key ← encodeBinaryValue (fst entry); value ← encodeBinaryValue (snd entry); Some (key, value)) entries);
            let entries := sort_slice entry_less entries in
            Some (put_Uint wireMap ++ count_prefix entries ++ concat (map (fun e => fst e ++ snd e) entries))
        | DStruct fields =>
            fields ← sequence (map (fun field =>
              value ← encodeBinaryValue (snd field); Some (fst field, value)) fields);
            let fields := sort_slice field_less fields in
            Some (put_Uint wireStruct ++ count_prefix fields ++ concat (map (fun f => put_Uint (fst f) ++ snd f) fields))
        | DOptional value =>
            value ← encodeBinaryValue value;
            Some (put_Uint wireOptional ++ value)
        | DOther => None
        end
    end;
  Some (put_String typ ++ body).

Definition EncodeValues (values : list Value) (limits : Limits) : result value_error gostring :=
  let limits := normalizeLimits limits in
  let? _ := validateValues values limits in
  match sequence (map encodeBinaryValue values) with
  | None => Err Unsupported
  | Some items =>
      let encoded := count_prefix values ++ concat items in
      if MaxMessageBytes limits <? Z.of_nat (length encoded) then Err EncodedBytes else Ok encoded
  end.

(** ** Decoding *)

(** The loop that fills a slice of [count] elements. *)
Fixpoint get_list {A} (get : decoding A) (count : nat) : decoding (list A) :=
  match count with
  | O => dec_return []
  | S count' =>
      let! a := get in
      let! rest := get_list get count' in
      dec_return (a :: rest)
  end.

(** A count within the element limit, then its elements. *)
Definition get_counted {A} (get : decoding A) (maximum : Z) : decoding (list A) :=
  let! count := get_Uint in
  if count <=? u64 maximum then get_list get (Z.to_nat count) else dec_fail ElementLimit.

(** The type name; every failure is reported as an invalid type. *)
Definition get_type_name : decoding gostring := fun d =>
  match get_String d with
  | Ok (typeName, d') => if bool_decide (typeName = []) then Err InvalidValueType else Ok (typeName, d')
  | Err _ => Err InvalidValueType
  end.

Definition get_field_id : decoding Z :=
  let! id := get_Uint in
  if (id =? 0) || (2 ^ 32 - 1 <? id) then dec_fail InvalidFieldID else dec_return id.

Fixpoint decodeBinaryValue (fuel : nat) (depth : Z) (limits : Limits) : decoding Value :=
  match fuel with
  | O => dec_fail DepthLimit
  | S fuel' =>
      if MaxValueDepth limits <? depth then dec_fail DepthLimit
      else
        let nested := decodeBinaryValue fuel' (depth + 1) limits in
        let! typeName := get_type_name in
        let! kind := get_Uint in
        if kind =? wireNil then dec_return (mkValue typeName DNil None)
        else if kind =? wireBool then let! b := get_Bool in dec_return (mkValue typeName (DBool b) None)
        else if kind =? wireInt then let! n := get_Int in dec_return (mkValue typeName (DInt n) None)
        else if kind =? wireUint then let! n := get_Uint in dec_return (mkValue typeName (DUint n) None)
        else if kind =? wireFloat then let! bits := get_Float64 in dec_return (mkValue typeName (DFloat bits) None)
        else if kind =? wireComplex then let! c := get_Complex128 in dec_return (mkValue typeName (DComplex c) None)
        else if kind =? wireString then let! s := get_String in dec_return (mkValue typeName (DString s) None)
        else if kind =? wireBytes then let! b := get_rawView in dec_return (mkValue typeName (DBytes b) None)
        else if kind =? wireSlice then
          let! items := get_counted nested (MaxValueElements limits) in
          dec_return (mkValue typeName (DSlice items) None)
        else if kind =? wireMap then
          let! entries := get_counted (let! key := nested in let! value := nested in dec_return (key, value))
                            (MaxValueElements limits) in
          dec_return (mkValue typeName (DMap entries) None)
        else if kind =? wireStruct then
          let! fields := get_counted (let! id := get_field_id in let! value := nested in dec_return (id, value))
                           (MaxValueElements limits) in
          dec_return (mkValue typeName (DStruct fields) None)
        else if kind =? wireOptional then let! value := nested in dec_return (mkValue typeName (DOptional value) None)
        else if kind =? wireResource then
          let! ref := get_resource_ref in dec_return (mkValue typeName DNil (Some ref))
        else dec_fail UnknownValueKind
  end.

Definition value_fuel (limits : Limits) : nat := Z.to_nat (MaxValueDepth limits + 1).

Fixpoint decode_values_loop (limits : Limits) (count : nat) (index : Z) (d : wireDecoder)
    : result value_error (list Value * wireDecoder) :=
  match count with
  | O => Ok ([], d)
  | S count' =>
      match decodeBinaryValue (value_fuel limits) 0 limits d with
      | Err e => Err (DecodeValue index e)
      | Ok (value, d) =>
          let? r := decode_values_loop limits count' (index + 1) d in
          Ok (value :: fst r, snd r)
      end
  end.

Definition DecodeValues (payload : gostring) (limits : Limits) : result value_error (list Value) :=
  let limits := normalizeLimits limits in
  if MaxMessageBytes limits <? Z.of_nat (length payload) then Err ByteLimit
  else
    match get_Uint (newWireDecoder payload (MaxMessageBytes limits)) with
    | Err _ => Err ValueCount
    | Ok (count, d) =>
        if u64 (MaxValueElements limits) <? count then Err ValueCount
        else
          let? r := decode_values_loop limits (Z.to_nat count) 0 d in
          let? _ := result_map_err TrailingData (Done (snd r)) in
          let? _ := validateValues (fst r) limits in
          Ok (fst r)
    end.

(** ** Induction on values *)

Section value_induction.
Context (P : Value -> Prop).

(** The property for the values directly inside some data. *)
Definition data_all (data : Data) : Prop :=
  match data with
  | DSlice items => Forall P items
  | DMap entries => Forall (fun entry => P (fst entry) /\ P (snd entry)) entries
  | DStruct fields => Forall (fun field => P (snd field)) fields
  | DOptional v => P v
  | _ => True
  end.

Hypothesis Hvalue : forall typ data resource, data_all data -> P (mkValue typ data resource).

Fixpoint Value_induction (v : Value) : P v :=
  match v with
  | mkValue typ data resource => Hvalue typ data resource
      match data return data_all data with
      | DSlice items =>
          (fix go (l : list Value) : Forall P l :=
             match l with
             | [] => @List.Forall_nil _ P
             | x :: l' => @List.Forall_cons _ _ x l' (Value_induction x) (go l')
             end) items
      | DMap entries =>
          (fix go (l : list (Value * Value)) : Forall (fun entry => P (fst entry) /\ P (snd entry)) l :=
             match l with
             | [] => @List.Forall_nil _ _
             | x :: l' => @List.Forall_cons _ _ x l'
                 (conj (Value_induction (fst x)) (Value_induction (snd x))) (go l')
             end) entries
      | DStruct fields =>
          (fix go (l : list (Z * Value)) : Forall (fun field => P (snd field)) l :=
             match l with
             | [] => @List.Forall_nil _ _
             | x :: l' => @List.Forall_cons _ _ x l' (Value_induction (snd x)) (go l')
             end) fields
      | DOptional w => Value_induction w
      | _ => I
      end
  end.
End value_induction.

(** ** The canonical form of a value: map entries in the order of their encoded keys, fields in
    the order of their numbers *)

Definition encoded (v : Value) : gostring := default [] (encodeBinaryValue v).

Definition canon_entry_less (a b : gostring * (Value * Value)) : bool := strings_Compare (fst a) (fst b) <? 0.
Definition canon_field_less (a b : Z * Value) : bool := fst a <? fst b.

Fixpoint canon (v : Value) : Value :=
  let '(mkValue typ data resource) := v in
  mkValue typ
    match data with
    | DSlice items => DSlice (map canon items)
    | DMap entries =>
        DMap (map snd (sort_slice canon_entry_less
          (map (fun entry => (encoded (fst entry), (canon (fst entry), canon (snd entry)))) entries)))
    | DStruct fields => DStruct (sort_slice canon_field_less (map (fun field => (fst field, canon (snd field))) fields))
    | DOptional w => DOptional (canon w)
    | _ => data
    end resource.

(** ** What validation establishes *)

Definition all_list {A} (f : A -> Prop) (l : list A) : Prop := fold_right (fun x acc => f x /\ acc) True l.

Lemma all_list_Forall {A} (f : A -> Prop) l : all_list f l <-> Forall f l.
Proof.
  induction l as [|x l IH]; cbn [all_list fold_right]; [by split|]. fold (all_list f l). rewrite IH. split.
  - intros [? ?]. by constructor.
  - intros H. by inversion H.
Qed.

Definition resource_valid (typ : gostring) (data : Data) (ref : ResourceRef) : Prop :=
  data = DNil /\ validateResourceRef ref = true /\ TrimSpace typ = TypeHash ref.

(** The structural conditions of [validate], without the size counters. *)
Fixpoint wf (maxd depth : Z) (v : Value) : Prop :=
  let '(mkValue typ data resource) := v in
  typ <> [] /\ utf8_Valid typ = true /\ depth <= maxd /\
  match resource with
  | Some ref => depth = 0 /\ resource_valid typ data ref
  | None =>
      validateValueShape typ data = true /\
      match data with
      | DString s => utf8_Valid s = true
      | DSlice items => all_list (wf maxd (depth + 1)) items
      | DMap entries => all_list (fun entry => wf maxd (depth + 1) (fst entry) /\ wf maxd (depth + 1) (snd entry)) entries
      | DStruct fields =>
          NoDup (map fst fields) /\
          all_list (fun field => fst field <> 0 /\ wf maxd (depth + 1) (snd field)) fields
      | DOptional w => wf maxd (depth + 1) w
      | DOther => False
      | _ => True
      end
  end.

(** The totals [validate] counts: bytes of texts, and values. *)
Definition sum_of {A} (f : A -> Z) (l : list A) : Z := fold_right (fun x acc => f x + acc) 0 l.

Definition leaf_bytes (data : Data) : Z :=
  match data with
  | DString s => Z.of_nat (length s)
  | DBytes b => Z.of_nat (length b)
  | _ => 0
  end.

Fixpoint vbytes (v : Value) : Z :=
  let '(mkValue typ data resource) := v in
  Z.of_nat (length typ) +
  match data with
  | DSlice items => sum_of vbytes items
  | DMap entries => sum_of (fun entry => vbytes (fst entry) + vbytes (snd entry)) entries
  | DStruct fields => sum_of (fun field => vbytes (snd field)) fields
  | DOptional w => vbytes w
  | _ => leaf_bytes data
  end.

Fixpoint vcount (v : Value) : Z :=
  let '(mkValue typ data resource) := v in
  1 + match data with
      | DSlice items => sum_of vcount items
      | DMap entries => sum_of (fun entry => vcount (fst entry) + vcount (snd entry)) entries
      | DStruct fields => sum_of (fun field => vcount (snd field)) fields
      | DOptional w => vcount w
      | _ => 0
      end.

Lemma sum_of_perm {A} (f : A -> Z) l l' : l ≡ₚ l' -> sum_of f l = sum_of f l'.
Proof. induction 1; cbn [sum_of fold_right]; unfold sum_of in *; lia. Qed.

Lemma sum_of_nonneg {A} (f : A -> Z) l : Forall (fun x => 0 <= f x) l -> 0 <= sum_of f l.
Proof. induction 1; cbn [sum_of fold_right]; unfold sum_of in *; lia. Qed.

Lemma sum_of_map {A B} (f : B -> Z) (g : A -> B) l : sum_of f (map g l) = sum_of (fun x => f (g x)) l.
Proof. induction l as [|x l IH]; cbn [map sum_of fold_right]; [done|]. unfold sum_of in *. by rewrite IH. Qed.

Lemma sum_of_ext {A} (f g : A -> Z) l : Forall (fun x => f x = g x) l -> sum_of f l = sum_of g l.
Proof. induction 1; cbn [sum_of fold_right]; unfold sum_of in *; lia. Qed.

Lemma vbytes_nonneg v : 0 <= vbytes v.
Proof.
  induction v as [typ data resource IH] using Value_induction. cbn [vbytes].
  destruct data; cbn [data_all leaf_bytes] in *; try lia.
  - pose proof (sum_of_nonneg _ _ IH). lia.
  - assert (0 <= sum_of (fun entry => vbytes (fst entry) + vbytes (snd entry)) entries); [|lia].
    apply sum_of_nonneg. eapply Forall_impl; [exact IH|]. intros x [H1 H2]. cbn beta. lia.
  - pose proof (sum_of_nonneg _ _ IH). lia.
Qed.

Lemma vcount_pos v : 1 <= vcount v.
Proof.
  induction v as [typ data resource IH] using Value_induction. cbn [vcount].
  destruct data; cbn [data_all] in *; try lia.
  - assert (0 <= sum_of vcount items); [|lia]. apply sum_of_nonneg. eapply Forall_impl; [exact IH|]. intros x Hx. cbn beta in Hx |- *. lia.
  - assert (0 <= sum_of (fun entry => vcount (fst entry) + vcount (snd entry)) entries); [|lia].
    apply sum_of_nonneg. eapply Forall_impl; [exact IH|]. intros x [H1 H2]. cbn beta. lia.
  - assert (0 <= sum_of (fun field => vcount (snd field)) fields); [|lia]. apply sum_of_nonneg.
    eapply Forall_impl; [exact IH|]. intros x Hx. cbn beta in Hx |- *. lia.
Qed.

(** ** Lemmas: validation *)

Section validation.
Context (limits : Limits).

Definition within (c : counters) : Prop := fst c <= MaxMessageBytes limits /\ snd c <= MaxValueElements limits.

Definition add (c w : counters) : counters := (fst c + fst w, snd c + snd w).

Definition total {A} (w : A -> counters) (l : list A) : counters :=
  (sum_of (fun x => fst (w x)) l, sum_of (fun x => snd (w x)) l).

Lemma check_size_ok c c' : check_size limits c = Ok c' <-> c' = c /\ within c.
Proof.
  unfold check_size, within. destruct (_ || _) eqn:E.
  - split; [done|]. intros [_ [H1 H2]]. apply orb_true_iff in E as [E|E]; breflect; lia.
  - breflect. split; [intros Hc; injection Hc as <-; by split|]. intros [-> _]. done.
Qed.

Lemma within_weaken c w : 0 <= fst w -> 0 <= snd w -> within (add c w) -> within c.
Proof. unfold within, add. cbn. lia. Qed.

Lemma add_assoc c w w' : add (add c w) w' = add c (fst w + fst w', snd w + snd w').
Proof. unfold add. cbn. f_equal; lia. Qed.

Lemma add_zero c : add c (0, 0) = c.
Proof. destruct c. unfold add. cbn. f_equal; lia. Qed.

(** A loop whose steps succeed exactly under a condition, with a weight added to the counters. *)
Lemma fold_result_spec {A} (f : A -> counters -> result value_error counters) (W : A -> Prop) (w : A -> counters) l :
  Forall (fun x => 0 <= fst (w x) /\ 0 <= snd (w x) /\
                   forall c c', f x c = Ok c' <-> W x /\ c' = add c (w x) /\ within c') l ->
  forall c c', within c ->
    fold_result f l c = Ok c' <-> Forall W l /\ c' = add c (total w l) /\ within c'.
Proof.
  induction 1 as [|x l (Hw1 & Hw2 & Hx) Hl IH]; intros c c' Hc.
  { cbn. rewrite add_zero. split; [intros E; injection E as <-; auto|]. intros (_ & -> & _). done. }
  assert (0 <= sum_of (fun x => fst (w x)) l /\ 0 <= sum_of (fun x => snd (w x)) l) as [Hs1 Hs2].
  { split; apply sum_of_nonneg; (eapply Forall_impl; [exact Hl|]); intros y (H1 & H2 & _); done. }
  assert (add c (total w (x :: l)) = add (add c (w x)) (total w l)) as Et.
  { rewrite add_assoc. done. }
  cbn [fold_result]. rewrite Et. destruct (f x c) as [c1|e] eqn:E.
  - apply Hx in E as (HWx & -> & Hc1). fold (fold_result f). rewrite IH by done. split.
    + intros (HF & -> & H). split; [by constructor|done].
    + intros (HF & -> & H). inversion HF; subst. auto.
  - split; [done|]. intros (HF & -> & H). inversion HF; subst.
    assert (f x c = Ok (add c (w x))) as E'.
    { apply Hx. split; [done|]. split; [done|]. by eapply within_weaken; [..|exact H]. }
    congruence.
Qed.

Lemma fold_check {A} (f : A -> counters -> result value_error counters) (W : A -> Prop) (w : A -> counters) l c c' :
  within c ->
  Forall (fun x => 0 <= fst (w x) /\ 0 <= snd (w x) /\
                   forall c c', f x c = Ok c' <-> W x /\ c' = add c (w x) /\ within c') l ->
  (exists c1, fold_result f l c = Ok c1 /\ check_size limits c1 = Ok c') <->
  Forall W l /\ c' = add c (total w l) /\ within c'.
Proof.
  intros Hc HF. pose proof (fun c1 => fold_result_spec f W w l HF c c1 Hc) as Hfold. split.
  - intros (c1 & H1 & H2). apply Hfold in H1. apply check_size_ok in H2 as [-> _]. done.
  - intros H. exists c'. split; [by apply Hfold|]. apply check_size_ok. by destruct H as (_ & _ & H).
Qed.

(** The loop over the fields of a struct, which also collects their numbers. *)
Definition field_step (f : Value -> counters -> result value_error counters) (field : Z * Value)
    (sc : list Z * counters) : result value_error (list Z * counters) :=
  let '(seen, c) := sc in
  if fst field =? 0 then Err FieldNoID
  else if bool_decide (fst field ∈ seen) then Err FieldDuplicate
  else let? c := f (snd field) c in Ok (fst field :: seen, c).

Lemma fold_fields_spec f (W : Value -> Prop) (w : Value -> counters) fields :
  Forall (fun field => 0 <= fst (w (snd field)) /\ 0 <= snd (w (snd field)) /\
            forall c c', f (snd field) c = Ok c' <-> W (snd field) /\ c' = add c (w (snd field)) /\ within c') fields ->
  forall seen c sc', within c ->
    fold_result (field_step f) fields (seen, c) = Ok sc' <->
    (NoDup (map fst fields) /\ Forall (fun field => fst field ∉ seen) fields /\
     Forall (fun field => fst field <> 0 /\ W (snd field)) fields /\
     sc' = (rev (map fst fields) ++ seen, add c (total (fun field => w (snd field)) fields)) /\ within (snd sc')).
Proof.
  induction 1 as [|field fields (Hw1 & Hw2 & Hx) Hl IH]; intros seen c sc' Hc.
  { cbn. rewrite add_zero. split.
    - intros E. injection E as <-. split; [constructor|]. auto.
    - by intros (_ & _ & _ & -> & _). }
  assert (0 <= sum_of (fun field => fst (w (snd field))) fields /\ 0 <= sum_of (fun field => snd (w (snd field))) fields) as [Hs1 Hs2].
  { split; apply sum_of_nonneg; (eapply Forall_impl; [exact Hl|]); intros y (H1 & H2 & _); done. }
  set (tw := fun field : Z * Value => w (snd field)).
  assert (add c (total tw (field :: fields)) = add (add c (tw field)) (total tw fields)) as Et.
  { rewrite add_assoc. done. }
  cbn [fold_result]. rewrite Et. unfold field_step at 1.
  destruct (fst field =? 0) eqn:E0; breflect.
  { split; [done|]. intros (_ & _ & HF & _). inversion HF as [|? ? [? ?]]; subst. done. }
  case_bool_decide as Hin.
  { split; [done|]. intros (_ & HF & _). by inversion HF; subst. }
  destruct (f (snd field) c) as [c1|e] eqn:E; cbn [result_bind].
  - apply Hx in E as (HWx & -> & Hc1). fold (fold_result (field_step f)). rewrite IH by done.
    cbn [map rev]. rewrite <- app_assoc. cbn [app]. split.
    + intros (Hnd & HF1 & HF2 & -> & H). split; [|split; [|split; [|done]]].
      * constructor; [|done]. intros Hmem. apply list_elem_of_In, in_map_iff in Hmem as (field' & Ef & Hin').
        rewrite List.Forall_forall in HF1. specialize (HF1 field' Hin'). rewrite Ef in HF1. apply HF1. left.
      * constructor; [done|]. eapply Forall_impl; [exact HF1|]. intros y Hy Hmem. apply Hy. by right.
      * by constructor.
    + intros (Hnd & HF1 & HF2 & -> & H). inversion Hnd as [|? ? Hnin Hnd']; subst. inversion HF1; subst. inversion HF2; subst.
      split; [done|]. split; [|split; [done|done]].
      apply List.Forall_forall. intros field' Hin'. rewrite elem_of_cons. intros [Ef|Hmem].
      * apply Hnin. rewrite <- Ef. apply list_elem_of_In, in_map_iff. by exists field'.
      * match goal with H : Forall (fun field => fst field ∉ seen) fields |- _ => rewrite List.Forall_forall in H; by apply (H field' Hin') end.
  - split; [done|]. intros (_ & _ & HF & -> & H). inversion HF as [|? ? [? HW]]; subst. cbn [snd] in H.
    assert (f (snd field) c = Ok (add c (w (snd field)))) as E'.
    { apply Hx. split; [done|]. split; [done|]. by eapply within_weaken; [..|exact H]. }
    congruence.
Qed.
End validation.

Definition weight (v : Value) : counters := (vbytes v, vcount v).

Lemma weight_nonneg v : 0 <= fst (weight v) /\ 0 <= snd (weight v).
Proof. pose proof (vbytes_nonneg v). pose proof (vcount_pos v). cbn. lia. Qed.

(** One step of [validate] as a loop body. *)
Definition step_ok (limits : Limits) (depth : Z) (v : Value) : Prop :=
  forall c c', validate limits v depth c = Ok c' <->
    wf (MaxValueDepth limits) depth v /\ c' = add c (weight v) /\ within limits c'.

(** The weight of a value is its own and the one of its data. *)
Definition data_weight (data : Data) : counters :=
  match data with
  | DSlice items => total weight items
  | DMap entries => total (fun entry => add (weight (fst entry)) (weight (snd entry))) entries
  | DStruct fields => total (fun field => weight (snd field)) fields
  | DOptional w => weight w
  | _ => (leaf_bytes data, 0)
  end.

Lemma weight_split typ data resource c :
  add c (weight (mkValue typ data resource)) =
  add (fst c + Z.of_nat (length typ), snd c + 1) (data_weight data).
Proof.
  assert (weight (mkValue typ data resource) = add (Z.of_nat (length typ), 1) (data_weight data)) as ->
    by (by destruct data).
  unfold add. cbn [fst snd]. f_equal; lia.
Qed.

(** The part of [validate] after the checks of the type and the resource. *)
Lemma validate_data limits depth typ data c c' :
  validateValueShape typ data = true -> within limits c ->
  (forall depth, data_all (step_ok limits depth) data) ->
  match data with
  | DNil | DBool _ | DInt _ | DUint _ | DFloat _ | DComplex _ => Ok c
  | DString s =>
      if negb (utf8_Valid s) then Err StringUTF8
      else check_size limits (fst c + Z.of_nat (length s), snd c)
  | DBytes b => check_size limits (fst c + Z.of_nat (length b), snd c)
  | DSlice items =>
      let? c := fold_result (fun item c => validate limits item (depth + 1) c) items c in
      check_size limits c
  | DMap entries =>
      let? c :=
        fold_result (fun entry c =>
          let? c := validate limits (fst entry) (depth + 1) c in
          validate limits (snd entry) (depth + 1) c) entries c in
      check_size limits c
  | DStruct fields =>
      let? sc := fold_result (field_step (fun v c => validate limits v (depth + 1) c)) fields ([], c) in
      check_size limits (snd sc)
  | DOptional value => validate limits value (depth + 1) c
  | DOther => Err Unsupported
  end = Ok c' <->
  match data with
  | DString s => utf8_Valid s = true
  | DSlice items => all_list (wf (MaxValueDepth limits) (depth + 1)) items
  | DMap entries => all_list (fun entry => wf (MaxValueDepth limits) (depth + 1) (fst entry) /\ wf (MaxValueDepth limits) (depth + 1) (snd entry)) entries
  | DStruct fields =>
      NoDup (map fst fields) /\
      all_list (fun field => fst field <> 0 /\ wf (MaxValueDepth limits) (depth + 1) (snd field)) fields
  | DOptional w => wf (MaxValueDepth limits) (depth + 1) w
  | DOther => False
  | _ => True
  end /\ c' = add c (data_weight data) /\ within limits c'.
Proof.
  intros Hshape Hc IH. specialize (IH (depth + 1)).
  assert (forall c0 : counters, Ok (E := value_error) c0 = Ok c' <-> c' = c0) as Hok.
  { intros c0. split; [intros E; by injection E|by intros ->]. }
  destruct data; cbn [data_all data_weight leaf_bytes] in *;
    try (rewrite Hok, add_zero; split; [intros ->; auto|by intros (_ & -> & _)]).
  - destruct (utf8_Valid s); cbn [negb]; [|by split; [|intros [? _]]].
    rewrite check_size_ok. unfold add. cbn [fst snd]. rewrite Z.add_0_r. split.
    + intros [-> ?]. auto.
    + by intros (_ & -> & ?).
  - rewrite check_size_ok. unfold add. cbn [fst snd]. rewrite Z.add_0_r. split.
    + intros [-> ?]. auto.
    + by intros (_ & -> & ?).
  - rewrite all_list_Forall, result_bind_ok.
    rewrite <- (fold_check limits (fun item c => validate limits item (depth + 1) c)
      (wf (MaxValueDepth limits) (depth + 1)) weight items c c' Hc); [done|].
    eapply Forall_impl; [exact IH|]. intros v Hv. pose proof (weight_nonneg v) as [? ?]. auto.
  - rewrite all_list_Forall, result_bind_ok.
    set (ew := fun entry : Value * Value => add (weight (fst entry)) (weight (snd entry))).
    rewrite <- (fold_check limits (fun entry c => let? c := validate limits (fst entry) (depth + 1) c in
        validate limits (snd entry) (depth + 1) c)
      (fun entry => wf (MaxValueDepth limits) (depth + 1) (fst entry) /\ wf (MaxValueDepth limits) (depth + 1) (snd entry))
      ew entries c c' Hc); [done|].
    eapply Forall_impl; [exact IH|]. intros [k v] [Hk Hv]. cbn [fst snd] in *.
    pose proof (weight_nonneg k) as [? ?]. pose proof (weight_nonneg v) as [? ?].
    split; [cbn in *; lia|]. split; [cbn in *; lia|]. intros c2 c3. rewrite result_bind_ok. unfold ew. cbn [fst snd].
    assert (add c2 (add (weight k) (weight v)) = add (add c2 (weight k)) (weight v)) as -> by (by rewrite add_assoc).
    split.
    + intros (c4 & H1' & H2'). apply Hk in H1' as (? & -> & ?). apply Hv in H2' as (? & -> & ?). auto.
    + intros ([? ?] & -> & Hw). exists (add c2 (weight k)).
      split; [apply Hk|apply Hv]; (split; [done|split; [done|]]); [|done].
      by eapply within_weaken; [..|exact Hw].
  - rewrite all_list_Forall, result_bind_ok.
    assert (Forall (fun field => 0 <= fst (weight (snd field)) /\ 0 <= snd (weight (snd field)) /\
      step_ok limits (depth + 1) (snd field)) fields) as HF.
    { eapply Forall_impl; [exact IH|]. intros [id v] Hv. pose proof (weight_nonneg v) as [? ?]. auto. }
    pose proof (fun sc1 => fold_fields_spec limits (fun v c => validate limits v (depth + 1) c)
      (wf (MaxValueDepth limits) (depth + 1)) weight fields HF [] c sc1 Hc) as Hfold. split.
    + intros (sc1 & H1' & H2'). apply Hfold in H1' as (Hnd & _ & HF' & -> & Hw).
      apply check_size_ok in H2' as [-> _]. auto.
    + intros ([Hnd HF'] & -> & Hw).
      exists (rev (map fst fields) ++ [], add c (total (fun field => weight (snd field)) fields)). split.
      * apply Hfold. split; [done|]. split; [|done]. apply List.Forall_forall. intros. apply not_elem_of_nil.
      * by apply check_size_ok.
  - exact (IH c c').
  - split; [done|by intros (? & _)].
Qed.

(** [validate] succeeds exactly on well-formed values whose totals stay within the limits, and
    adds the totals to the counters. *)
Lemma validate_spec limits v depth : step_ok limits depth v.
Proof.
  revert depth. induction v as [typ data resource IH] using Value_induction. intros depth c c'.
  rewrite weight_split. cbn [validate wf]. case_bool_decide as Ht; [by split; [|intros ((? & _) & _)]|].
  destruct (utf8_Valid typ); cbn [negb]; [|by split; [|intros ((_ & ? & _) & _)]].
  destruct (MaxValueDepth limits <? depth) eqn:Ed; breflect; [split; [done|intros ((_ & _ & ? & _) & _); lia]|].
  rewrite result_bind_ok. setoid_rewrite check_size_ok.
  set (c1 := (fst c + Z.of_nat (length typ), snd c + 1)).
  assert (0 <= fst (data_weight data) /\ 0 <= snd (data_weight data)) as [Hd1 Hd2].
  { pose proof (vbytes_nonneg (mkValue [] data None)) as H1. pose proof (vcount_pos (mkValue [] data None)) as H2.
    assert (vbytes (mkValue [] data None) = 0 + fst (data_weight data)) as E1 by (by destruct data).
    assert (vcount (mkValue [] data None) = 1 + snd (data_weight data)) as E2 by (by destruct data). lia. }
  split.
  - intros (c2 & (-> & Hc1) & H). destruct resource as [ref|].
    + destruct (depth =? 0) eqn:E0; breflect; cbn [negb] in H; [|done].
      destruct (_ || _) eqn:Er; [done|]. apply orb_false_iff in Er as [Er Er3]. apply orb_false_iff in Er as [Er1 Er2].
      apply negb_false_iff, bool_decide_eq_true_1 in Er3. apply negb_false_iff in Er2.
      destruct data; try done. injection H as <-. rewrite add_zero. unfold resource_valid. auto 8.
    + destruct (validateValueShape typ data) eqn:Es; cbn [negb] in H; [|done].
      apply (validate_data limits depth typ data c1 c' Es Hc1) in H as (H1 & H2 & H3); [auto 8|].
      intros depth'. destruct data; cbn [data_all] in *; try done; (eapply Forall_impl; [exact IH|]).
      * intros x Hx. apply Hx.
      * intros x [Hx Hy]. split; [apply Hx|apply Hy].
      * intros x Hx. apply Hx.
  - intros ((_ & _ & _ & H) & -> & Hw). exists c1. split; [split; [done|by eapply within_weaken; [..|exact Hw]]|].
    destruct resource as [ref|].
    + destruct H as (-> & -> & Hv & Ht'). rewrite Hv, bool_decide_eq_true_2 by done. cbn. by rewrite add_zero.
    + destruct H as [Hs H]. rewrite Hs. cbn [negb].
      apply (validate_data limits depth typ data c1 _ Hs); [by eapply within_weaken; [..|exact Hw]| |done].
      intros depth'. destruct data; cbn [data_all] in *; try done; (eapply Forall_impl; [exact IH|]).
      * intros x Hx. apply Hx.
      * intros x [Hx Hy]. split; [apply Hx|apply Hy].
      * intros x Hx. apply Hx.
Qed.

(** [validateValues] on a list. *)
Lemma validateValues_spec values limits :
  0 <= MaxMessageBytes limits -> 0 <= MaxValueElements limits ->
  validateValues values limits = Ok tt <->
  Forall (wf (MaxValueDepth limits) 0) values /\ within limits (total weight values).
Proof.
  intros Hb He. unfold validateValues. rewrite result_bind_ok.
  assert (Forall (fun v => 0 <= fst (weight v) /\ 0 <= snd (weight v) /\ step_ok limits 0 v) values) as HF.
  { apply List.Forall_forall. intros v _. pose proof (weight_nonneg v) as [? ?]. split; [done|]. split; [done|].
    apply validate_spec. }
  pose proof (fun c' => fold_result_spec limits (fun v c => validate limits v 0 c) _ weight values HF (0, 0) c') as H.
  assert (add (0, 0) (total weight values) = total weight values) as E by (unfold add; by destruct (total weight values)).
  split.
  - intros (c' & Hf & _). apply H in Hf as (H1 & -> & H2); [|split; cbn; lia]. by rewrite E in H2.
  - intros (H1 & H2). exists (total weight values). split; [|done]. apply H; [split; cbn; lia|]. by rewrite E.
Qed.

(** ** Lemmas: the canonical form is as valid as the value *)

Lemma canon_type v : Value_Type (canon v) = Value_Type v.
Proof. by destruct v. Qed.

Definition canon_entries (entries : list (Value * Value)) : list (Value * Value) :=
  map snd (sort_slice canon_entry_less
    (map (fun entry => (encoded (fst entry), (canon (fst entry), canon (snd entry)))) entries)).

Definition canon_fields (fields : list (Z * Value)) : list (Z * Value) :=
  sort_slice canon_field_less (map (fun field => (fst field, canon (snd field))) fields).

Lemma canon_entries_perm entries :
  canon_entries entries ≡ₚ map (fun entry => (canon (fst entry), canon (snd entry))) entries.
Proof. unfold canon_entries. by rewrite sort_slice_perm, List.map_map. Qed.

Lemma canon_fields_perm fields : canon_fields fields ≡ₚ map (fun field => (fst field, canon (snd field))) fields.
Proof. apply sort_slice_perm. Qed.

Lemma forallb_perm {A} (f : A -> bool) l l' : l ≡ₚ l' -> forallb f l = forallb f l'.
Proof.
  induction 1; cbn [forallb]; [done|congruence| |congruence].
  rewrite !andb_assoc. by rewrite (andb_comm (f y)).
Qed.

Lemma forallb_map {A B} (f : B -> bool) (g : A -> B) l : forallb f (map g l) = forallb (fun x => f (g x)) l.
Proof. induction l as [|x l IH]; cbn [map forallb]; [done|]. by rewrite IH. Qed.

Lemma canon_shape typ data resource :
  validateValueShape typ (Value_Data (canon (mkValue typ data resource))) = validateValueShape typ data.
Proof.
  destruct data; try reflexivity; cbn [canon Value_Data].
  - unfold validateValueShape. cbn zeta.
    assert (forall e, forallb (fun v => bool_decide (TrimSpace (Value_Type v) = e)) (map canon items) =
                      forallb (fun v => bool_decide (TrimSpace (Value_Type v) = e)) items) as H.
    { intros e. rewrite forallb_map. induction items as [|x l IH]; cbn [forallb]; [done|]. by rewrite canon_type, IH. }
    by rewrite H.
  - fold (canon_entries entries). unfold validateValueShape. cbn zeta.
    destruct (rpcMapTypes (TrimSpace typ)) as [[kt vt]|]; [|done].
    assert (forallb (fun entry => bool_decide (TrimSpace (Value_Type (fst entry)) = kt) &&
              bool_decide (TrimSpace (Value_Type (snd entry)) = vt)) (canon_entries entries) =
            forallb (fun entry => bool_decide (TrimSpace (Value_Type (fst entry)) = kt) &&
              bool_decide (TrimSpace (Value_Type (snd entry)) = vt)) entries) as ->; [|done].
    rewrite (forallb_perm _ _ _ (canon_entries_perm entries)), forallb_map. cbn [fst snd].
    induction entries as [|[k v] l IH]; cbn [forallb fst snd]; [done|]. by rewrite !canon_type, IH.
  - unfold validateValueShape. cbn zeta. by rewrite canon_type.
Qed.

Lemma canon_wf maxd depth v : wf maxd depth v -> wf maxd depth (canon v).
Proof.
  revert depth. induction v as [typ data resource IH] using Value_induction. intros depth.
  pose proof (canon_shape typ data resource) as Hshape. cbn [canon Value_Data] in Hshape. cbn [wf canon].
  rewrite Hshape. intros (H1 & H2 & H3 & H). split; [done|]. split; [done|]. split; [done|].
  destruct resource as [ref|].
  { destruct H as (? & -> & ?). by split. }
  destruct H as [Hs H]. split; [done|]. destruct data; cbn [data_all] in *; try done.
  - rewrite all_list_Forall in *. apply Forall_map. apply List.Forall_forall. intros x Hx.
    rewrite List.Forall_forall in IH, H. by apply IH, H.
  - fold (canon_entries entries). rewrite all_list_Forall in *. rewrite canon_entries_perm. apply Forall_map.
    apply List.Forall_forall. intros x Hx. rewrite List.Forall_forall in IH, H.
    destruct (IH x Hx) as [IHk IHv]. destruct (H x Hx) as [Hk Hv]. split; [by apply IHk|by apply IHv].
  - fold (canon_fields fields). destruct H as [Hnd H]. rewrite all_list_Forall in *. split.
    + rewrite (Permutation_map fst (canon_fields_perm fields)), List.map_map. done.
    + rewrite canon_fields_perm. apply Forall_map. apply List.Forall_forall. intros x Hx.
      rewrite List.Forall_forall in IH, H. destruct (H x Hx) as [Hid Hv]. split; [done|]. by apply IH.
  - by apply IH.
Qed.

Lemma canon_weight v : weight (canon v) = weight v.
Proof.
  induction v as [typ data resource IH] using Value_induction.
  unfold weight in *. f_equal; destruct data; cbn [canon vbytes vcount data_all leaf_bytes] in *; try done.
  - f_equal. rewrite sum_of_map. apply sum_of_ext. eapply Forall_impl; [exact IH|]. intros x E. by injection E.
  - fold (canon_entries entries). f_equal. rewrite (sum_of_perm _ _ _ (canon_entries_perm entries)), sum_of_map.
    apply sum_of_ext. eapply Forall_impl; [exact IH|]. intros x [Ek Ev]. cbn [fst snd]. injection Ek as -> _. by injection Ev as -> _.
  - fold (canon_fields fields). f_equal. rewrite (sum_of_perm _ _ _ (canon_fields_perm fields)), sum_of_map.
    apply sum_of_ext. eapply Forall_impl; [exact IH|]. intros x E. by injection E.
  - f_equal. by injection IH.
  - f_equal. rewrite sum_of_map. apply sum_of_ext. eapply Forall_impl; [exact IH|]. intros x E. by injection E.
  - fold (canon_entries entries). f_equal. rewrite (sum_of_perm _ _ _ (canon_entries_perm entries)), sum_of_map.
    apply sum_of_ext. eapply Forall_impl; [exact IH|]. intros x [Ek Ev]. cbn [fst snd]. injection Ek as _ ->. by injection Ev as _ ->.
  - fold (canon_fields fields). f_equal. rewrite (sum_of_perm _ _ _ (canon_fields_perm fields)), sum_of_map.
    apply sum_of_ext. eapply Forall_impl; [exact IH|]. intros x E. by injection E.
  - f_equal. by injection IH.
Qed.

Lemma canon_validateValues values limits :
  0 <= MaxMessageBytes limits -> 0 <= MaxValueElements limits ->
  validateValues values limits = Ok tt -> validateValues (map canon values) limits = Ok tt.
Proof.
  intros Hb He. rewrite !validateValues_spec by done. intros [Hwf Hw]. split.
  - apply Forall_map. eapply Forall_impl; [exact Hwf|]. intros v. apply canon_wf.
  - assert (total weight (map canon values) = total weight values) as ->; [|done].
    unfold total. rewrite !sum_of_map. f_equal; apply sum_of_ext; apply List.Forall_forall; intros v _;
      by rewrite canon_weight.
Qed.

(** ** Lemmas: decoding what was encoded *)

(** The machine widths of the Go types a value holds. *)
Fixpoint typed (v : Value) : Prop :=
  let '(mkValue typ data resource) := v in
  optional_ok (fun ref => uint64_ok (Epoch ref) /\ uint64_ok (ObjectID ref)) resource /\
  match data with
  | DInt n => - 2 ^ 63 <= n < 2 ^ 63
  | DUint n => uint64_ok n
  | DFloat bits => uint64_ok bits
  | DComplex c => uint64_ok (fst c) /\ uint64_ok (snd c)
  | DSlice items => all_list typed items
  | DMap entries => all_list (fun entry => typed (fst entry) /\ typed (snd entry)) entries
  | DStruct fields => all_list (fun field => 0 <= fst field < 2 ^ 32 /\ typed (snd field)) fields
  | DOptional w => typed w
  | _ => True
  end.

Lemma sequence_map {A B} (f : A -> option B) (d : B) l r :
  sequence (map f l) = Some r ->
  r = map (fun x => default d (f x)) l /\ Forall (fun x => is_Some (f x)) l.
Proof.
  revert r. induction l as [|x l IH]; intros r; cbn [map sequence].
  { intros H. injection H as <-. by split. }
  destruct (f x) as [y|] eqn:E; [|done]. opt_simpl. destruct (sequence (map f l)) as [r'|]; [|done]. opt_simpl.
  intros H. injection H as <-. destruct (IH r' eq_refl) as [-> HF]. split; [done|]. constructor; [by exists y|done].
Qed.

Lemma concat_length_le {A} (l : list (list A)) x : In x l -> (length x <= length (concat l))%nat.
Proof.
  induction l as [|y l IH]; [done|]. cbn [concat]. rewrite length_app. intros [->|H]; [lia|]. specialize (IH H). lia.
Qed.

Lemma sum_of_ge {A} (f : A -> Z) l x : Forall (fun y => 0 <= f y) l -> In x l -> f x <= sum_of f l.
Proof.
  intros HF. induction HF as [|y l Hy HF IH]; [done|]. cbn [sum_of fold_right]. fold (sum_of f l).
  pose proof (sum_of_nonneg f l HF). intros [->|H']; [lia|]. specialize (IH H'). lia.
Qed.

Lemma sum_of_length {A} (f : A -> Z) l : Forall (fun y => 1 <= f y) l -> Z.of_nat (length l) <= sum_of f l.
Proof. induction 1; cbn [length sum_of fold_right]; unfold sum_of in *; lia. Qed.

Lemma decodes_list {A B} (get : decoding B) lim (bytes : A -> gostring) (val : A -> B) l :
  Forall (fun x => decodes get lim (bytes x) (val x)) l ->
  decodes (get_list get (length l)) lim (concat (map bytes l)) (map val l).
Proof.
  induction 1 as [|x l Hx _ IH]; cbn [length get_list map concat]; [apply decodes_return|].
  eapply decodes_bind; [exact Hx|]. eapply decodes_last; [exact IH|]. apply decodes_return.
Qed.

Lemma decodes_counted {A B} (get : decoding B) lim maximum (bytes : A -> gostring) (val : A -> B) l :
  Z.of_nat (length l) <= maximum -> maximum < 2 ^ 63 ->
  Forall (fun x => decodes get lim (bytes x) (val x)) l ->
  decodes (get_counted get maximum) lim (count_prefix l ++ concat (map bytes l)) (map val l).
Proof.
  intros Hl Hm HF. unfold get_counted, count_prefix. eapply decodes_bind; [apply decodes_Uint; lia|].
  rewrite u64_id, (proj2 (Z.leb_le _ _)) by lia. rewrite Nat2Z.id. by apply decodes_list.
Qed.

Lemma decodes_type_name lim typ :
  typ <> [] -> utf8_Valid typ = true -> fits lim typ -> decodes get_type_name lim (put_String typ) typ.
Proof.
  intros Hne Hv Hf rest. unfold get_type_name. rewrite decodes_String by done. by rewrite bool_decide_eq_false_2.
Qed.

Lemma decodes_field_id lim id : 0 < id < 2 ^ 32 -> decodes get_field_id lim (put_Uint id) id.
Proof.
  intros Hid. unfold get_field_id. eapply decodes_last; [apply decodes_Uint; lia|].
  rewrite (proj2 (Z.eqb_neq _ _)), (proj2 (Z.ltb_ge _ _)) by lia. apply decodes_return.
Qed.

Lemma put_String_length s : (length s <= length (put_String s))%nat.
Proof. unfold put_String. rewrite length_app. lia. Qed.

Section decoding.
Context (limits : Limits) (lim : Z).
Hypothesis Hlim : lim < 2 ^ 63.
Hypothesis Hmax : MaxValueElements limits < 2 ^ 63.

(** A value whose encoding, if it has one that fits, decodes to its canonical form. *)
Definition decodable (v : Value) : Prop :=
  forall depth fuel,
    typed v -> wf (MaxValueDepth limits) depth v -> vcount v <= MaxValueElements limits ->
    is_Some (encodeBinaryValue v) -> Z.of_nat (length (encoded v)) <= lim ->
    MaxValueDepth limits - depth + 1 <= Z.of_nat fuel ->
    decodes (decodeBinaryValue fuel depth limits) lim (encoded v) (canon v).

(** The kind tag of a value selects the branch of the decoder. *)
Ltac kind_branch :=
  eapply decodes_bind; [apply decodes_Uint; done|]; cbn [Z.eqb Pos.eqb wireNil wireBool wireInt wireUint wireFloat
    wireComplex wireString wireBytes wireSlice wireMap wireStruct wireOptional wireResource].

Lemma fits_part (s bytes : gostring) : (length s <= length bytes)%nat -> Z.of_nat (length bytes) <= lim -> fits lim s.
Proof. intros H1 H2. split; lia. Qed.

Lemma encoded_some v bytes : encodeBinaryValue v = Some bytes -> encoded v = bytes.
Proof. unfold encoded. by intros ->. Qed.

Lemma decode_slice fuel depth items :
  Forall decodable items -> all_list typed items -> all_list (wf (MaxValueDepth limits) (depth + 1)) items ->
  sum_of vcount items <= MaxValueElements limits -> Forall (fun v => is_Some (encodeBinaryValue v)) items ->
  Z.of_nat (length (concat (map encoded items))) <= lim ->
  MaxValueDepth limits - (depth + 1) + 1 <= Z.of_nat fuel ->
  decodes (get_counted (decodeBinaryValue fuel (depth + 1) limits) (MaxValueElements limits)) lim
    (count_prefix items ++ concat (map encoded items)) (map canon items).
Proof.
  rewrite !all_list_Forall. intros HD HT HW Hc HS Hl Hf.
  assert (Forall (fun v => 1 <= vcount v) items) as Hpos by (apply List.Forall_forall; intros; apply vcount_pos).
  pose proof (sum_of_length _ _ Hpos). apply decodes_counted; [lia|lia|].
  apply List.Forall_forall. intros v Hv. rewrite List.Forall_forall in HD, HT, HW, HS.
  assert (vcount v <= sum_of vcount items).
  { apply sum_of_ge; [|done]. eapply Forall_impl; [exact Hpos|]. intros. cbn beta in *. lia. }
  assert (length (encoded v) <= length (concat (map encoded items)))%nat.
  { apply concat_length_le. by apply in_map. }
  apply HD; auto; lia.
Qed.

(** The entries of a map with the encodings and the canonical forms of their parts. *)
Definition full_entry (entry : Value * Value) : gostring * (gostring * (Value * Value)) :=
  (encoded (fst entry), (encoded (snd entry), (canon (fst entry), canon (snd entry)))).
Definition full_less (a b : gostring * (gostring * (Value * Value))) : bool := strings_Compare (fst a) (fst b) <? 0.

Definition entry_bytes (entries : list (Value * Value)) : list (gostring * gostring) :=
  sort_slice entry_less (map (fun entry => (encoded (fst entry), encoded (snd entry))) entries).

Lemma sorted_entries entries :
  let S := sort_slice full_less (map full_entry entries) in
  entry_bytes entries = map (fun x => (fst x, fst (snd x))) S /\ canon_entries entries = map (fun x => snd (snd x)) S.
Proof.
  cbn zeta. unfold entry_bytes, canon_entries. split.
  - rewrite <- (sort_slice_map full_less entry_less) by done. by rewrite List.map_map.
  - transitivity (map snd (map (fun x : gostring * (gostring * (Value * Value)) => (fst x, snd (snd x)))
                    (sort_slice full_less (map full_entry entries)))); [|by rewrite List.map_map].
    rewrite <- (sort_slice_map full_less canon_entry_less) by done. by rewrite List.map_map.
Qed.

Lemma decode_entries fuel depth entries :
  Forall (fun entry => decodable (fst entry) /\ decodable (snd entry)) entries ->
  all_list (fun entry => typed (fst entry) /\ typed (snd entry)) entries ->
  all_list (fun entry => wf (MaxValueDepth limits) (depth + 1) (fst entry) /\ wf (MaxValueDepth limits) (depth + 1) (snd entry)) entries ->
  sum_of (fun entry => vcount (fst entry) + vcount (snd entry)) entries <= MaxValueElements limits ->
  Forall (fun entry => is_Some (encodeBinaryValue (fst entry)) /\ is_Some (encodeBinaryValue (snd entry))) entries ->
  Z.of_nat (length (concat (map (fun e => fst e ++ snd e) (entry_bytes entries)))) <= lim ->
  MaxValueDepth limits - (depth + 1) + 1 <= Z.of_nat fuel ->
  decodes (get_counted (let! key := decodeBinaryValue fuel (depth + 1) limits in
                        let! value := decodeBinaryValue fuel (depth + 1) limits in dec_return (key, value))
             (MaxValueElements limits)) lim
    (count_prefix (entry_bytes entries) ++ concat (map (fun e => fst e ++ snd e) (entry_bytes entries)))
    (canon_entries entries).
Proof.
  rewrite !all_list_Forall. intros HD HT HW Hc HS Hl Hf.
  destruct (sorted_entries entries) as [E1 E2]. set (S := sort_slice full_less (map full_entry entries)) in *.
  rewrite E1, E2. rewrite E1 in Hl. rewrite List.map_map in Hl |- *. unfold count_prefix. rewrite List.length_map.
  fold (count_prefix S). cbn [fst snd] in *.
  assert (Forall (fun e => 1 <= vcount (fst e) + vcount (snd e)) entries) as Hpos.
  { apply List.Forall_forall. intros e _. pose proof (vcount_pos (fst e)). pose proof (vcount_pos (snd e)). lia. }
  assert (length S = length entries) as HlS.
  { unfold S. by rewrite (Permutation_length (sort_slice_perm _ _)), List.length_map. }
  pose proof (sum_of_length _ _ Hpos). apply decodes_counted; [lia|lia|].
  apply List.Forall_forall. intros x Hx.
  assert (length (fst x ++ fst (snd x)) <= length (concat (map (fun x => fst x ++ fst (snd x)) S)))%nat as Hle.
  { apply concat_length_le, (in_map (fun x => fst x ++ fst (snd x))), Hx. }
  unfold S in Hx. apply list_elem_of_In in Hx. rewrite sort_slice_perm in Hx. apply list_elem_of_In, in_map_iff in Hx as (e & <- & He).
  rewrite List.Forall_forall in HD, HT, HW, HS. cbn [full_entry fst snd] in *. rewrite length_app in Hle.
  destruct (HD e He) as [Dk Dv], (HT e He) as [Tk Tv], (HW e He) as [Wk Wv], (HS e He) as [Sk Sv].
  assert (vcount (fst e) + vcount (snd e) <= sum_of (fun entry => vcount (fst entry) + vcount (snd entry)) entries).
  { apply (sum_of_ge (fun entry => vcount (fst entry) + vcount (snd entry))); [|done].
    eapply Forall_impl; [exact Hpos|]. intros. cbn beta in *. lia. }
  pose proof (vcount_pos (fst e)). pose proof (vcount_pos (snd e)).
  eapply decodes_bind; [apply Dk; auto; lia|]. eapply decodes_last; [apply Dv; auto; lia|]. apply decodes_return.
Qed.

Definition full_field (field : Z * Value) : Z * (gostring * Value) := (fst field, (encoded (snd field), canon (snd field))).
Definition full_field_less (a b : Z * (gostring * Value)) : bool := fst a <? fst b.

Definition field_bytes (fields : list (Z * Value)) : list (Z * gostring) :=
  sort_slice field_less (map (fun field => (fst field, encoded (snd field))) fields).

Lemma sorted_fields fields :
  let S := sort_slice full_field_less (map full_field fields) in
  field_bytes fields = map (fun x => (fst x, fst (snd x))) S /\ canon_fields fields = map (fun x => (fst x, snd (snd x))) S.
Proof.
  cbn zeta. unfold field_bytes, canon_fields. split.
  - rewrite <- (sort_slice_map full_field_less field_less) by done. by rewrite List.map_map.
  - rewrite <- (sort_slice_map full_field_less canon_field_less) by done. by rewrite List.map_map.
Qed.

Lemma decode_fields fuel depth fields :
  Forall (fun field => decodable (snd field)) fields ->
  all_list (fun field => 0 <= fst field < 2 ^ 32 /\ typed (snd field)) fields ->
  all_list (fun field => fst field <> 0 /\ wf (MaxValueDepth limits) (depth + 1) (snd field)) fields ->
  sum_of (fun field => vcount (snd field)) fields <= MaxValueElements limits ->
  Forall (fun field => is_Some (encodeBinaryValue (snd field))) fields ->
  Z.of_nat (length (concat (map (fun f => put_Uint (fst f) ++ snd f) (field_bytes fields)))) <= lim ->
  MaxValueDepth limits - (depth + 1) + 1 <= Z.of_nat fuel ->
  decodes (get_counted (let! id := get_field_id in
                        let! value := decodeBinaryValue fuel (depth + 1) limits in dec_return (id, value))
             (MaxValueElements limits)) lim
    (count_prefix (field_bytes fields) ++ concat (map (fun f => put_Uint (fst f) ++ snd f) (field_bytes fields)))
    (canon_fields fields).
Proof.
  rewrite !all_list_Forall. intros HD HT HW Hc HS Hl Hf.
  destruct (sorted_fields fields) as [E1 E2]. set (S := sort_slice full_field_less (map full_field fields)) in *.
  rewrite E1, E2. rewrite E1 in Hl. rewrite List.map_map in Hl |- *. unfold count_prefix. rewrite List.length_map.
  fold (count_prefix S). cbn [fst snd] in *.
  assert (Forall (fun f => 1 <= vcount (snd f)) fields) as Hpos by (apply List.Forall_forall; intros; apply vcount_pos).
  assert (length S = length fields) as HlS.
  { unfold S. by rewrite (Permutation_length (sort_slice_perm _ _)), List.length_map. }
  pose proof (sum_of_length (fun f => vcount (snd f)) _ Hpos). apply decodes_counted; [lia|lia|].
  apply List.Forall_forall. intros x Hx.
  assert (length (put_Uint (fst x) ++ fst (snd x)) <= length (concat (map (fun x => put_Uint (fst x) ++ fst (snd x)) S)))%nat as Hle.
  { apply concat_length_le, (in_map (fun x => put_Uint (fst x) ++ fst (snd x))), Hx. }
  unfold S in Hx. apply list_elem_of_In in Hx. rewrite sort_slice_perm in Hx. apply list_elem_of_In, in_map_iff in Hx as (f & <- & Hin).
  rewrite List.Forall_forall in HD, HT, HW, HS. cbn [full_field fst snd] in *. rewrite length_app in Hle.
  pose proof (HD f Hin) as Dv. pose proof (HS f Hin) as Sv. destruct (HT f Hin) as [Ti Tv], (HW f Hin) as [Wi Wv].
  assert (vcount (snd f) <= sum_of (fun field => vcount (snd field)) fields).
  { apply (sum_of_ge (fun field => vcount (snd field))); [|done].
    eapply Forall_impl; [exact Hpos|]. intros. cbn beta in *. lia. }
  eapply decodes_bind; [apply decodes_field_id; lia|]. eapply decodes_last; [apply Dv; auto; lia|]. apply decodes_return.
Qed.

Lemma sequence_entries entries r :
  sequence (map (fun entry => key ← encodeBinaryValue (fst entry); value ← encodeBinaryValue (snd entry); Some (key, value)) entries) = Some r ->
  r = map (fun entry => (encoded (fst entry), encoded (snd entry))) entries /\
  Forall (fun entry => is_Some (encodeBinaryValue (fst entry)) /\ is_Some (encodeBinaryValue (snd entry))) entries.
Proof.
  intros H. apply (sequence_map _ ([], [])) in H as [-> HF].
  assert (Forall (fun entry => is_Some (encodeBinaryValue (fst entry)) /\ is_Some (encodeBinaryValue (snd entry))) entries) as HF'.
  { eapply Forall_impl; [exact HF|]. intros [k v] [p Hp]. cbn [fst snd] in *.
    destruct (encodeBinaryValue k); [|done]. destruct (encodeBinaryValue v); [|done]. split; by eexists. }
  split; [|done]. apply List.map_ext_in. intros [k v] Hin. rewrite List.Forall_forall in HF'.
  destruct (HF' _ Hin) as [[a Ha] [b Hb]]. unfold encoded. cbn [fst snd] in *. by rewrite Ha, Hb.
Qed.

Lemma sequence_fields fields r :
  sequence (map (fun field => value ← encodeBinaryValue (snd field); Some (fst field, value)) fields) = Some r ->
  r = map (fun field => (fst field, encoded (snd field))) fields /\
  Forall (fun field : Z * Value => is_Some (encodeBinaryValue (snd field))) fields.
Proof.
  intros H. apply (sequence_map _ (0, [])) in H as [-> HF].
  assert (Forall (fun field : Z * Value => is_Some (encodeBinaryValue (snd field))) fields) as HF'.
  { eapply Forall_impl; [exact HF|]. intros [id v] [p Hp]. cbn [fst snd] in *.
    destruct (encodeBinaryValue v); [|done]. by eexists. }
  split; [|done]. apply List.map_ext_in. intros [id v] Hin. rewrite List.Forall_forall in HF'.
  destruct (HF' _ Hin) as [b Hb]. unfold encoded. cbn [fst snd] in *. by rewrite Hb.
Qed.

Lemma decode_encode v : decodable v.
Proof.
  induction v as [typ data resource IH] using Value_induction. intros depth fuel HT HW Hc [bytes Hb] Hl Hf.
  rewrite (encoded_some _ _ Hb) in *. cbn [wf typed] in HW, HT. destruct HW as (Hne & Hu & Hd & HW). destruct HT as [HTr HT].
  destruct fuel as [|fuel]; [lia|]. cbn [decodeBinaryValue]. rewrite (proj2 (Z.ltb_ge _ _)) by done. cbn zeta.
  cbn [encodeBinaryValue] in Hb. destruct (match resource with Some _ => _ | None => _ end) as [body|] eqn:Eb; [|done].
  apply (inj Some) in Hb as <-. rewrite length_app in Hl. pose proof (put_String_length typ).
  eapply decodes_bind; [apply decodes_type_name; [done|done|split; lia]|].
  assert (Z.of_nat (length body) <= lim) as Hlb by lia.
  destruct resource as [ref|].
  { destruct HW as (-> & -> & Href & Htrim). apply (inj Some) in Eb as <-. cbn [canon]. kind_branch.
    eapply decodes_last; [|apply decodes_return]. apply decodes_resource_ref. destruct HTr as [H1 H2].
    split; [done|]. split; [done|]. rewrite <- Htrim. split; [|by apply TrimSpace_valid].
    rewrite Htrim. unfold put_resource_ref in Hlb. rewrite !length_app in Hlb.
    pose proof (put_String_length (TypeHash ref)). split; lia. }
  destruct HW as [Hs HW]. destruct data; cbn [data_all vcount] in *.
  - apply (inj Some) in Eb as <-. cbn [canon]. eapply decodes_last; [by apply decodes_Uint|]. apply decodes_return.
  - apply (inj Some) in Eb as <-. cbn [canon]. kind_branch. eapply decodes_last; [apply decodes_Bool|apply decodes_return].
  - apply (inj Some) in Eb as <-. cbn [canon]. kind_branch. eapply decodes_last; [by apply decodes_Int|apply decodes_return].
  - apply (inj Some) in Eb as <-. cbn [canon]. kind_branch. eapply decodes_last; [by apply decodes_Uint|apply decodes_return].
  - apply (inj Some) in Eb as <-. cbn [canon]. kind_branch. eapply decodes_last; [by apply decodes_Float64|apply decodes_return].
  - apply (inj Some) in Eb as <-. cbn [canon]. kind_branch. destruct HT.
    eapply decodes_last; [by apply decodes_Complex128|apply decodes_return].
  - apply (inj Some) in Eb as <-. cbn [canon]. kind_branch. rewrite length_app in Hlb. pose proof (put_String_length s).
    eapply decodes_last; [apply decodes_String; [split; lia|done]|apply decodes_return].
  - apply (inj Some) in Eb as <-. cbn [canon]. kind_branch. rewrite length_app in Hlb.
    assert (length b <= length (put_Raw b))%nat by (unfold put_Raw; rewrite length_app; lia).
    eapply decodes_last; [apply decodes_rawView; split; lia|apply decodes_return].
  - destruct (sequence (map encodeBinaryValue items)) as [r|] eqn:Es; [|done]. apply (inj Some) in Eb as <-.
    apply (sequence_map _ []) in Es as [-> HF]. change (map (fun x => default [] (encodeBinaryValue x)) items) with (map encoded items) in *.
    rewrite !length_app in Hlb. cbn [canon]. kind_branch. unfold count_prefix. rewrite List.length_map. fold (count_prefix items).
    eapply decodes_last; [apply decode_slice; auto; lia|apply decodes_return].
  - destruct (sequence _) as [r|] eqn:Es; [|done]. apply (inj Some) in Eb as <-. apply sequence_entries in Es as [-> HF].
    fold (entry_bytes entries) in *. rewrite !length_app in Hlb. cbn [canon]. fold (canon_entries entries). kind_branch.
    eapply decodes_last; [apply decode_entries; auto; lia|apply decodes_return].
  - destruct (sequence _) as [r|] eqn:Es; [|done]. apply (inj Some) in Eb as <-. apply sequence_fields in Es as [-> HF].
    fold (field_bytes fields) in *. rewrite !length_app in Hlb. cbn [canon]. fold (canon_fields fields). kind_branch.
    destruct HW as [_ HW]. eapply decodes_last; [apply decode_fields; auto; lia|apply decodes_return].
  - destruct (encodeBinaryValue v) as [inner|] eqn:Ei; [|done]. apply (inj Some) in Eb as <-. rewrite length_app in Hlb.
    cbn [canon]. kind_branch. rewrite <- (encoded_some _ _ Ei) in *.
    eapply decodes_last; [apply IH; [done|done|lia|by eexists|lia|lia]|apply decodes_return].
  - done.
Qed.
End decoding.

(** ** The codec of value lists *)

Definition limits_ok (limits : Limits) : Prop :=
  let limits := normalizeLimits limits in
  0 <= MaxMessageBytes limits < 2 ^ 63 /\ 0 <= MaxValueElements limits < 2 ^ 63.

Lemma decode_loop limits values index rest :
  let lim := MaxMessageBytes limits in
  Forall (fun v => decodes (decodeBinaryValue (value_fuel limits) 0 limits) lim (encoded v) (canon v)) values ->
  decode_values_loop limits (length values) index (mkDecoder (concat (map encoded values) ++ rest) lim) =
    Ok (map canon values, mkDecoder rest lim).
Proof.
  cbn zeta. intros HF. revert index. induction HF as [|v values Hv _ IH]; intros index; [done|].
  cbn [length decode_values_loop map concat]. rewrite <- app_assoc, Hv. rewrite IH. done.
Qed.

Lemma EncodeValues_inv values limits bytes :
  EncodeValues values limits = Ok bytes ->
  validateValues values (normalizeLimits limits) = Ok tt /\
  Forall (fun v => is_Some (encodeBinaryValue v)) values /\
  bytes = count_prefix values ++ concat (map encoded values) /\
  Z.of_nat (length bytes) <= MaxMessageBytes (normalizeLimits limits).
Proof.
  unfold EncodeValues. cbn zeta. destruct (validateValues values _) as [[]|] eqn:Ev; [|done]. cbn [result_bind].
  destruct (sequence _) as [items|] eqn:Es; [|done]. apply (sequence_map _ []) in Es as [-> HF].
  change (map (fun x => default [] (encodeBinaryValue x)) values) with (map encoded values).
  destruct (_ <? _) eqn:El; [done|]. breflect. intros H. injection H as <-. auto.
Qed.

Lemma DecodeValues_EncodeValues values limits bytes :
  limits_ok limits -> Forall typed values -> EncodeValues values limits = Ok bytes ->
  DecodeValues bytes limits = Ok (map canon values).
Proof.
  intros [Hb He] HT H. apply EncodeValues_inv in H as (Hv & HS & Hbytes & Hl). unfold DecodeValues. cbn zeta in *.
  set (L := normalizeLimits limits) in *. rewrite (proj2 (Z.ltb_ge _ _)) by done.
  pose proof Hv as Hwf. rewrite validateValues_spec in Hwf by lia. destruct Hwf as [HW [Hw1 Hw2]].
  assert (Forall (fun v => 1 <= vcount v) values) as Hpos by (apply List.Forall_forall; intros; apply vcount_pos).
  change (sum_of vcount values <= MaxValueElements L) in Hw2. pose proof (sum_of_length _ _ Hpos) as Hlen.
  assert (Z.of_nat (length values) <= MaxValueElements L) as Hlv by lia.
  rewrite Hbytes at 1. unfold newWireDecoder, count_prefix. rewrite decodes_Uint by lia.
  rewrite u64_id, (proj2 (Z.ltb_ge _ _)), Nat2Z.id by lia.
  rewrite <- (app_nil_r (concat (map encoded values))). rewrite decode_loop.
  - cbn [result_bind fst snd]. rewrite canon_validateValues by (done || lia). done.
  - apply List.Forall_forall. intros v Hin. rewrite List.Forall_forall in HT, HW, HS.
    apply decode_encode; auto; [lia|lia| | |unfold value_fuel; lia].
    + assert (vcount v <= sum_of vcount values); [|lia].
      apply sum_of_ge; [|done]. eapply Forall_impl; [exact Hpos|]. intros. cbn beta in *. lia.
    + rewrite Hbytes, length_app in Hl.
      assert (length (encoded v) <= length (concat (map encoded values)))%nat; [|lia].
      apply concat_length_le. by apply in_map.
Qed.

(** ** Lemmas: the encoding does not depend on the order of entries and fields *)

Lemma sequence_perm {A} (l l' : list (option A)) :
  l ≡ₚ l' ->
  match sequence l, sequence l' with
  | Some r, Some r' => r ≡ₚ r'
  | None, None => True
  | _, _ => False
  end.
Proof.
  induction 1 as [|[x|] l l' _ IH|x y l|l1 l2 l3 _ IH1 _ IH2]; cbn [sequence]; opt_simpl; try done.
  - destruct (sequence l), (sequence l'); opt_simpl; try done. by constructor.
  - destruct x, y; opt_simpl; try done; destruct (sequence l); opt_simpl; try done. apply Permutation_swap.
  - destruct (sequence l1), (sequence l2), (sequence l3); try done. by etransitivity.
Qed.

(** Sorting by keys that are all different is insensitive to the order of the input. *)
Lemma sort_by_key_perm {A K} (key : A -> K) (less : A -> A -> bool) l l' :
  (forall x y z, less y x = false -> less z y = false -> less z x = false) ->
  (forall x y, less x y = true -> less y x = false) ->
  (forall x y, less x y = false -> less y x = false -> key x = key y) ->
  NoDup (map key l) -> l ≡ₚ l' -> sort_slice less l = sort_slice less l'.
Proof.
  intros Htrans Hasym Hkey Hnd Hp. apply (sorted_slice_unique less).
  - by apply sort_slice_sorted.
  - by apply sort_slice_sorted.
  - by rewrite !sort_slice_perm.
  - intros x y Hx Hy H1 H2. rewrite sort_slice_perm in Hx, Hy. pose proof (Hkey x y H1 H2) as E.
    apply list_elem_of_lookup_1 in Hx as [i Hi], Hy as [j Hj].
    assert (i = j) as ->.
    { apply (NoDup_lookup (map key l) i j (key x)); [done| |rewrite E]; change (map key l) with (key <$> l); rewrite list_lookup_fmap.
      - by rewrite Hi.
      - by rewrite Hj. }
    congruence.
Qed.

Lemma compare_less_trans a b c :
  (strings_Compare b a <? 0) = false -> (strings_Compare c b <? 0) = false -> (strings_Compare c a <? 0) = false.
Proof.
  rewrite !Z.ltb_ge. intros H1 H2. pose proof (strings_Compare_antisym b a) as E1. pose proof (strings_Compare_antisym c b) as E2.
  pose proof (strings_Compare_antisym c a) as E3. pose proof (strings_Compare_trans a b c ltac:(lia) ltac:(lia)). lia.
Qed.

Lemma entry_sort_perm l l' :
  NoDup (map fst l) -> l ≡ₚ l' -> sort_slice entry_less l = sort_slice entry_less l'.
Proof.
  apply (sort_by_key_perm fst); unfold entry_less.
  - intros x y z. apply compare_less_trans.
  - intros x y H. breflect. apply Z.ltb_ge. rewrite strings_Compare_antisym. lia.
  - intros x y H1 H2. breflect. apply strings_Compare_eq. rewrite strings_Compare_antisym in H2. lia.
Qed.

Lemma field_sort_perm l l' :
  NoDup (map fst l) -> l ≡ₚ l' -> sort_slice field_less l = sort_slice field_less l'.
Proof.
  apply (sort_by_key_perm fst); unfold field_less; intros *; rewrite ?Z.ltb_ge, ?Z.ltb_lt; lia.
Qed.

Lemma encode_fields_perm typ fields fields' :
  NoDup (map fst fields) -> fields ≡ₚ fields' ->
  encodeBinaryValue (mkValue typ (DStruct fields) None) = encodeBinaryValue (mkValue typ (DStruct fields') None).
Proof.
  intros Hnd Hp. cbn [encodeBinaryValue].
  set (f := fun field : Z * Value => value ← encodeBinaryValue (snd field); Some (fst field, value)).
  pose proof (sequence_perm _ _ (Permutation_map f Hp)) as Hs.
  destruct (sequence (map f fields)) as [r|] eqn:E, (sequence (map f fields')) as [r'|]; try done. opt_simpl.
  apply (sequence_fields) in E as [-> _].
  erewrite field_sort_perm; [done| |exact Hs]. by rewrite List.map_map.
Qed.

Lemma encode_entries_perm typ entries entries' :
  NoDup (map (fun entry => encoded (fst entry)) entries) -> entries ≡ₚ entries' ->
  encodeBinaryValue (mkValue typ (DMap entries) None) = encodeBinaryValue (mkValue typ (DMap entries') None).
Proof.
  intros Hnd Hp. cbn [encodeBinaryValue].
  set (f := fun entry : Value * Value => key ← encodeBinaryValue (fst entry); value ← encodeBinaryValue (snd entry); Some (key, value)).
  pose proof (sequence_perm _ _ (Permutation_map f Hp)) as Hs.
  destruct (sequence (map f entries)) as [r|] eqn:E, (sequence (map f entries')) as [r'|]; try done. opt_simpl.
  apply (sequence_entries) in E as [-> _].
  erewrite entry_sort_perm; [done| |exact Hs]. by rewrite List.map_map.
Qed.

(** ** Properties *)

(** C35. Round trip of values: whatever [EncodeValues] accepts under some limits, [DecodeValues]
    accepts under the same limits and returns in canonical form (map entries in the order of
    their encoded keys, fields in the order of their numbers, everything else unchanged).  Where
    two entries of a map have equal encoded keys, the order that [sort.Slice] leaves open is the
    given one in the model. *)
Theorem values_roundtrip values limits bytes :
  limits_ok limits -> Forall typed values -> EncodeValues values limits = Ok bytes ->
  DecodeValues bytes limits = Ok (map canon values).
Proof. apply DecodeValues_EncodeValues. Qed.

Definition sample_value : Value :=
  mkValue (lit "demo.Message") (DStruct
    [(7, mkValue (lit "map[string]int64") (DMap
           [(mkValue (lit "string") (DString (lit "b")) None, mkValue (lit "int64") (DInt (-2)) None);
            (mkValue (lit "string") (DString (lit "a")) None, mkValue (lit "int64") (DInt 5) None)]) None);
     (2, mkValue (lit "optional[bool]") (DOptional (mkValue (lit "bool") (DBool true) None)) None)]) None.

Definition zero_limits : Limits := mkLimits 0 0 0 0 0 0 0 0 0 0 0.

Lemma values_roundtrip_witness :
  exists bytes, EncodeValues [sample_value] zero_limits = Ok bytes /\
                DecodeValues bytes zero_limits = Ok (map canon [sample_value]).
Proof.
  eexists. split; [vm_compute; reflexivity|]. apply values_roundtrip.
  - repeat split; vm_compute; congruence.
  - apply Forall_singleton. repeat split; vm_compute; congruence.
  - vm_compute. reflexivity.
Defined.

(** Validation is exact: [validateValues] accepts a list exactly when every value is
    well-formed (types non-empty and UTF-8, depth within the limit, resources only at the top and
    bound to their type, data of the shape the type requires, UTF-8 strings, non-zero and distinct
    field numbers, no foreign data) and the total bytes and the total number of values stay
    within the limits. *)
Theorem validation_exact values limits :
  0 <= MaxMessageBytes limits -> 0 <= MaxValueElements limits ->
  validateValues values limits = Ok tt <->
  Forall (wf (MaxValueDepth limits) 0) values /\ within limits (total weight values).
Proof. apply validateValues_spec. Qed.

Lemma validation_exact_witness :
  Forall (wf 128 0) [sample_value] /\ within (normalizeLimits zero_limits) (total weight [sample_value]).
Proof.
  apply (validation_exact [sample_value] (normalizeLimits zero_limits)).
  - vm_compute. congruence.
  - vm_compute. congruence.
  - vm_compute. reflexivity.
Defined.

(** The encoding is deterministic: it does not depend on the order in which the entries of a
    map with distinct keys or the fields of a struct with distinct numbers are given. *)
Theorem encoding_order_independent typ entries entries' fields fields' :
  NoDup (map (fun entry => encoded (fst entry)) entries) -> entries ≡ₚ entries' ->
  NoDup (map fst fields) -> fields ≡ₚ fields' ->
  encodeBinaryValue (mkValue typ (DMap entries) None) = encodeBinaryValue (mkValue typ (DMap entries') None) /\
  encodeBinaryValue (mkValue typ (DStruct fields) None) = encodeBinaryValue (mkValue typ (DStruct fields') None).
Proof. intros H1 H2 H3 H4. split; [by apply encode_entries_perm|by apply encode_fields_perm]. Qed.

Lemma encoding_order_independent_witness :
  let k n := mkValue (lit "uint8") (DUint n) None in
  encodeBinaryValue (mkValue (lit "m") (DMap [(k 1, k 2); (k 3, k 4)]) None)
    = encodeBinaryValue (mkValue (lit "m") (DMap [(k 3, k 4); (k 1, k 2)]) None) /\
  encodeBinaryValue (mkValue (lit "m") (DStruct [(1, k 2); (3, k 4)]) None)
    = encodeBinaryValue (mkValue (lit "m") (DStruct [(3, k 4); (1, k 2)]) None).
Proof.
  cbv zeta. apply encoding_order_independent.
  - apply NoDup_cons. split; [|apply NoDup_singleton]. intros H. apply list_elem_of_singleton in H. vm_compute in H. congruence.
  - apply Permutation_swap.
  - apply NoDup_cons. split; [|apply NoDup_singleton]. intros H. apply list_elem_of_singleton in H. vm_compute in H. congruence.
  - apply Permutation_swap.
Defined.

(** A struct payload whose fields are out of order: field 2 before field 1. *)
Definition unsorted_payload : gostring :=
  put_Uint 1 ++ put_String (lit "demo.Message") ++ put_Uint wireStruct ++ put_Uint 2 ++
  put_Uint 2 ++ put_String (lit "bool") ++ put_Uint wireBool ++ put_Bool true ++
  put_Uint 1 ++ put_String (lit "bool") ++ put_Uint wireBool ++ put_Bool false.

(** The decoder accepts payloads that no encoder produces: it does not require the canonical order of
    struct fields. *)
Theorem decoder_accepts_unsorted :
  exists values, DecodeValues unsorted_payload zero_limits = Ok values /\
    exists bytes, EncodeValues values zero_limits = Ok bytes /\ bytes <> unsorted_payload.
Proof. eexists. split; [vm_compute; reflexivity|]. eexists. split; [vm_compute; reflexivity|]. vm_compute. discriminate. Qed.
