(* ===== verification/RpcContract.v ===== *)
(** * RPC contracts and session limits (src/rpc/contract.go, status.go, endpoint_frame.go)

    The method sets two peers agree on and the negotiation of their limits.  A [StatusError] is its
    code and, in place of the English message, the data the message is built from.  Go maps used as
    sets ([map[Method]struct{}], [map[string]struct{}]) are the lists of the keys inserted so far,
    with membership as lookup. *)

From S2P Require Import Prelude GoStd GoBytes Wire RpcValue.

(** ** Status errors *)

Abbreviation Code := (list Z).

Definition CodeInvalidArgument : Code := lit "invalid_argument".
Definition CodeResourceExhausted : Code := lit "resource_exhausted".
Definition CodeFailedPrecondition : Code := lit "failed_precondition".
Definition CodeUnimplemented : Code := lit "unimplemented".
Definition CodeProtocol : Code := lit "protocol".

Record StatusError (D : Type) : Type := mkStatus { status_code : Code; status_detail : D }.
Arguments mkStatus {D}.
Arguments status_code {D}.
Arguments status_detail {D}.

(** ** Contracts *)

Definition ContractProtocol : gostring := lit "minigo.rpc.contract.v2".

Record Contract : Type := mkContract { Contract_Protocol : gostring; Contract_Methods : list Method }.

#[export] Instance Contract_eq_dec : EqDecision Contract.
Proof. solve_decision. Defined.

Inductive contract_error : Type :=
| UnsupportedProtocol | EmptyContract | ContractLimit
| InvalidMethod (id : gostring) | InvalidResourceMethod (id : gostring) | DuplicateMethod (id : gostring)
| MethodMismatch (id : gostring) | MethodMissing (id : gostring).

Definition validateMethod (method : Method) : result contract_error unit :=
  if bool_decide (ID method = []) || bool_decide (Service method = []) || bool_decide (Name method = [])
     || negb (Z.of_nat (length (ContractHash method)) =? 64)
     || negb (bool_decide (ID method = Service method ++ lit "." ++ Name method))
  then Err (InvalidMethod (ID method))
  else if negb (bool_decide (ResourceTypeHash method = [])) && negb (Z.of_nat (length (ResourceTypeHash method)) =? 64)
  then Err (InvalidResourceMethod (ID method))
  else Ok tt.

Definition method_less (a b : Method) : bool :=
  if negb (bool_decide (ID a = ID b)) then strings_Compare (ID a) (ID b) <? 0
  else strings_Compare (ContractHash a) (ContractHash b) <? 0.

(** The loop over the methods of a contract; [seen] holds the methods already accepted. *)
Fixpoint collect_methods (seen methods : list Method) : result (StatusError contract_error) (list Method) :=
  match methods with
  | [] => Ok []
  | method :: methods' =>
      match validateMethod method with
      | Err e => Err (mkStatus CodeInvalidArgument e)
      | Ok _ =>
          if bool_decide (method ∈ seen) then Err (mkStatus CodeInvalidArgument (DuplicateMethod (ID method)))
          else let? rest := collect_methods (method :: seen) methods' in Ok (method :: rest)
      end
  end.

Definition normalizeContract (contract : Contract) (limit : Z) : result (StatusError contract_error) Contract :=
  if negb (bool_decide (Contract_Protocol contract = ContractProtocol))
  then Err (mkStatus CodeProtocol UnsupportedProtocol)
  else if bool_decide (Contract_Methods contract = []) then Err (mkStatus CodeInvalidArgument EmptyContract)
  else if limit <? Z.of_nat (length (Contract_Methods contract))
  then Err (mkStatus CodeResourceExhausted ContractLimit)
  else
    let? methods := collect_methods [] (Contract_Methods contract) in
    Ok (mkContract ContractProtocol (sort_slice method_less methods)).

Definition NormalizeContract (contract : Contract) (limits : Limits) : result (StatusError contract_error) Contract :=
  normalizeContract contract (MaxMethods (normalizeLimits limits)).

(** The loop over the required methods; [missing] is the first method without implementation. *)
Fixpoint support_loop (available required : list Method) (missing : option (StatusError contract_error))
    : result (StatusError contract_error) unit :=
  match required with
  | [] => match missing with None => Ok tt | Some e => Err e end
  | method :: required' =>
      if bool_decide (method ∈ available) then support_loop available required' missing
      else if bool_decide (ID method ∈ map ID available)
      then Err (mkStatus CodeFailedPrecondition (MethodMismatch (ID method)))
      else
        let missing' := match missing with
                        | None => Some (mkStatus CodeUnimplemented (MethodMissing (ID method)))
                        | Some e => Some e
                        end in
        support_loop available required' missing'
  end.

Definition CheckMethodSupport (available required : list Method) : result (StatusError contract_error) unit :=
  if bool_decide (required = []) then Ok tt else support_loop available required None.

(** ** Negotiation of limits *)

Record wireLimits : Type := mkWireLimits {
  FrameBytes : Z;
  MessageBytes : Z;
  InFlightBytes : Z;
  Bindings : Z;
  PendingCalls : Z;
  PendingResults : Z;
  PendingControls : Z;
  Resources : Z;
  Methods : Z;
  ValueDepth : Z;
  ValueElements : Z
}.

#[export] Instance wireLimits_eq_dec : EqDecision wireLimits.
Proof. solve_decision. Defined.

Definition limitsToWire (limits : Limits) : wireLimits :=
  mkWireLimits (MaxFrameBytes limits) (MaxMessageBytes limits) (MaxInFlightBytes limits)
    (MaxBindings limits) (MaxPendingCalls limits) (MaxPendingResults limits)
    (MaxPendingControls limits) (MaxResources limits) (MaxMethods limits)
    (MaxValueDepth limits) (MaxValueElements limits).

Definition limitsFromWire (limits : wireLimits) : Limits :=
  mkLimits (FrameBytes limits) (MessageBytes limits) (InFlightBytes limits)
    (Bindings limits) (PendingCalls limits) (PendingResults limits)
    (PendingControls limits) (Resources limits) (Methods limits)
    (ValueDepth limits) (ValueElements limits).

(** [validateWireLimits]: whether no error is returned. *)
Definition validateWireLimits (limits : wireLimits) : bool :=
  negb ((FrameBytes limits <? 256) || (MessageBytes limits <=? 0) || (InFlightBytes limits <? MessageBytes limits)
     || (Bindings limits <=? 0) || (PendingCalls limits <=? 0) || (PendingResults limits <=? 0) || (PendingControls limits <=? 0)
     || (Resources limits <=? 0) || (Methods limits <=? 0) || (ValueDepth limits <=? 0) || (ValueElements limits <=? 0)).

Definition minLimits (local peer : Limits) : Limits :=
  mkLimits (Z.min (MaxFrameBytes local) (MaxFrameBytes peer))
    (Z.min (MaxMessageBytes local) (MaxMessageBytes peer))
    (Z.min (MaxInFlightBytes local) (MaxInFlightBytes peer))
    (Z.min (MaxBindings local) (MaxBindings peer))
    (Z.min (MaxPendingCalls local) (MaxPendingCalls peer))
    (Z.min (MaxPendingResults local) (MaxPendingResults peer))
    (Z.min (MaxPendingControls local) (MaxPendingControls peer))
    (Z.min (MaxResources local) (MaxResources peer))
    (Z.min (MaxMethods local) (MaxMethods peer))
    (Z.min (MaxValueDepth local) (MaxValueDepth peer))
    (Z.min (MaxValueElements local) (MaxValueElements peer)).

(** ** Lemmas: contracts *)

Definition method_valid (m : Method) : Prop :=
  ID m <> [] /\ Service m <> [] /\ Name m <> [] /\ length (ContractHash m) = 64%nat /\
  ID m = Service m ++ lit "." ++ Name m /\ (ResourceTypeHash m = [] \/ length (ResourceTypeHash m) = 64%nat).

Lemma length_64 (s : gostring) : (Z.of_nat (length s) =? 64) = true <-> length s = 64%nat.
Proof. rewrite Z.eqb_eq. lia. Qed.

Lemma validateMethod_ok m : validateMethod m = Ok tt <-> method_valid m.
Proof.
  unfold validateMethod, method_valid.
  destruct (_ || _) eqn:E1.
  - split; [done|]. intros (H1 & H2 & H3 & H4 & H5 & _). exfalso.
    rewrite (bool_decide_eq_true_2 _ H5), (proj2 (length_64 _) H4), !bool_decide_eq_false_2 in E1 by done. done.
  - breflect. repeat match goal with H : bool_decide _ = _ |- _ => first [apply bool_decide_eq_false_1 in H|apply bool_decide_eq_true_1 in H] end.
    destruct (_ && _) eqn:E2.
    + split; [done|]. intros (_ & _ & _ & _ & _ & H5). exfalso. breflect.
      apply bool_decide_eq_false_1 in H4. destruct H5 as [H5|H5]; [done|lia].
    + split; [|done]. intros _. repeat split; try done; [lia|]. breflect. destruct E2 as [E2|E2]; breflect.
      * left. by apply bool_decide_eq_true_1 in E2.
      * right. lia.
Qed.

Lemma collect_methods_ok seen methods r :
  collect_methods seen methods = Ok r <->
  r = methods /\ Forall method_valid methods /\ NoDup methods /\ Forall (fun m => m ∉ seen) methods.
Proof.
  revert seen r. induction methods as [|m methods IH]; intros seen r; cbn [collect_methods].
  { split; [|by intros (-> & _)]. intros H. injection H as <-. repeat split; constructor. }
  rewrite NoDup_cons, !Forall_cons. pose proof (validateMethod_ok m) as Hv.
  destruct (validateMethod m) as [[]|e].
  2: { split; [done|]. intros (_ & (Hm & _) & _). by apply Hv in Hm. }
  case_bool_decide as Hin.
  { split; [done|]. by intros (_ & _ & _ & Hn & _). }
  rewrite result_bind_ok. setoid_rewrite IH. split.
  - intros (rest & (-> & H1 & H2 & H3) & E). injection E as <-. split; [done|]. split; [split; [by apply Hv|done]|].
    rewrite Forall_forall in H3. split; [split; [|done]|split; [done|]].
    + intros Hm. by apply (H3 m Hm), list_elem_of_here.
    + apply Forall_forall. intros x Hx Hs. apply (H3 x Hx). by apply list_elem_of_further.
  - intros (-> & (H0 & H1) & (H2 & H3) & _ & H4). exists methods. split; [|done]. repeat split; try done.
    rewrite Forall_forall in *. intros x Hx. rewrite not_elem_of_cons. split; [by intros ->|by apply H4].
Qed.

(** What [normalizeContract] accepts. *)
Definition contract_valid (limit : Z) (c : Contract) : Prop :=
  Contract_Protocol c = ContractProtocol /\ Contract_Methods c <> [] /\
  Z.of_nat (length (Contract_Methods c)) <= limit /\
  Forall method_valid (Contract_Methods c) /\ NoDup (Contract_Methods c).

Lemma normalizeContract_ok c limit c' :
  normalizeContract c limit = Ok c' <->
  contract_valid limit c /\ c' = mkContract ContractProtocol (sort_slice method_less (Contract_Methods c)).
Proof.
  unfold normalizeContract, contract_valid. destruct c as [p ms]. cbn [Contract_Protocol Contract_Methods].
  case_bool_decide as Hp; cbn [negb]; [|split; [done|intros ((? & _) & _); done]].
  case_bool_decide as Hm; [split; [done|intros ((_ & ? & _) & _); done]|].
  destruct (limit <? _) eqn:Hl; breflect; [split; [done|intros ((_ & _ & ? & _) & _); lia]|].
  rewrite result_bind_ok. setoid_rewrite collect_methods_ok. split.
  - intros (r & (-> & H1 & H2 & _) & E). injection E as <-. done.
  - intros ((_ & _ & _ & H1 & H2) & ->). exists ms. split; [|done]. split; [done|]. split; [done|]. split; [done|].
    apply Forall_forall. intros x _ H. by apply not_elem_of_nil in H.
Qed.

Lemma compare_refl (s : gostring) : strings_Compare s s = 0.
Proof. by apply strings_Compare_eq. Qed.

Lemma method_less_key a b :
  method_less a b = true <->
  strings_Compare (ID a) (ID b) < 0 \/ (ID a = ID b /\ strings_Compare (ContractHash a) (ContractHash b) < 0).
Proof.
  unfold method_less. case_bool_decide as E; cbn [negb]; rewrite Z.ltb_lt.
  - rewrite E, compare_refl. split; [by right|]. intros [?|[_ ?]]; [lia|done].
  - split; [by left|]. by intros [?|[? _]].
Qed.

Lemma method_less_false a b :
  method_less a b = false <->
  0 < strings_Compare (ID a) (ID b) \/ (ID a = ID b /\ 0 <= strings_Compare (ContractHash a) (ContractHash b)).
Proof.
  unfold method_less. case_bool_decide as E; cbn [negb]; rewrite Z.ltb_ge.
  - rewrite E, compare_refl. split; [by right|]. intros [?|[_ ?]]; [lia|done].
  - assert (strings_Compare (ID a) (ID b) <> 0) by (by rewrite strings_Compare_eq).
    split; [left; lia|]. intros [?|[? _]]; [lia|done].
Qed.

Lemma method_less_trans x y z : method_less y x = false -> method_less z y = false -> method_less z x = false.
Proof.
  rewrite !method_less_false. intros [H1|[E1 H1]] [H2|[E2 H2]].
  - left. pose proof (strings_Compare_trans (ID x) (ID y) (ID z)) as Ht.
    rewrite (strings_Compare_antisym (ID y) (ID x)), (strings_Compare_antisym (ID z) (ID y)), (strings_Compare_antisym (ID z) (ID x)) in Ht.
    assert (strings_Compare (ID z) (ID x) <> 0); [|lia]. intros E. apply strings_Compare_eq in E.
    rewrite E, strings_Compare_antisym in H2. lia.
  - left. by rewrite E2.
  - left. by rewrite <- E1.
  - right. split; [congruence|]. pose proof (strings_Compare_trans (ContractHash x) (ContractHash y) (ContractHash z)) as Ht.
    rewrite (strings_Compare_antisym (ContractHash y) (ContractHash x)), (strings_Compare_antisym (ContractHash z) (ContractHash y)),
      (strings_Compare_antisym (ContractHash z) (ContractHash x)) in Ht. lia.
Qed.

Lemma method_less_asym x y : method_less x y = true -> method_less y x = false.
Proof.
  rewrite method_less_key, method_less_false, (strings_Compare_antisym (ID x) (ID y)),
    (strings_Compare_antisym (ContractHash x) (ContractHash y)).
  intros [H|[E H]]; [left; lia|right; split; [done|lia]].
Qed.

Lemma method_less_total x y :
  method_less x y = false -> method_less y x = false -> (ID x, ContractHash x) = (ID y, ContractHash y).
Proof.
  rewrite !method_less_false, (strings_Compare_antisym (ID x) (ID y)), (strings_Compare_antisym (ContractHash x) (ContractHash y)).
  intros [H1|[E1 H1]] [H2|[E2 H2]]; try lia.
  - rewrite E2, compare_refl in H1. lia.
  - rewrite E1, compare_refl in H2. lia.
  - rewrite E1. f_equal. apply strings_Compare_eq. lia.
Qed.

Lemma method_sort_perm l l' :
  NoDup (map (fun m => (ID m, ContractHash m)) l) -> l ≡ₚ l' -> sort_slice method_less l = sort_slice method_less l'.
Proof.
  apply (sort_by_key_perm (fun m => (ID m, ContractHash m))).
  - apply method_less_trans.
  - apply method_less_asym.
  - apply method_less_total.
Qed.

Lemma contract_valid_perm limit p ms ms' :
  ms ≡ₚ ms' -> contract_valid limit (mkContract p ms) -> contract_valid limit (mkContract p ms').
Proof.
  unfold contract_valid. cbn. intros Hp (H1 & H2 & H3 & H4 & H5). split; [done|]. split; [|by rewrite <- !Hp].
  intros ->. by apply Permutation_nil_r in Hp.
Qed.

(** ** Lemmas: method support *)

Definition declared (available : list Method) (m : Method) : Prop := ID m ∈ map ID available.

Lemma declared_in available m : m ∈ available -> declared available m.
Proof. intros H. apply list_elem_of_In in H. apply list_elem_of_In. by apply in_map. Qed.

(** The loop reports the first mismatch, else the first missing method. *)
Lemma support_loop_spec available required missing :
  match support_loop available required missing with
  | Ok _ => missing = None /\ Forall (fun m => m ∈ available) required
  | Err e =>
      (exists pre m post, required = pre ++ m :: post /\ (m ∉ available) /\ declared available m /\
         Forall (fun x => x ∈ available \/ ~ declared available x) pre /\
         e = mkStatus CodeFailedPrecondition (MethodMismatch (ID m))) \/
      (Forall (fun x => x ∈ available \/ ~ declared available x) required /\
       (missing = Some e \/
        missing = None /\ exists pre m post, required = pre ++ m :: post /\ ~ declared available m /\
          Forall (fun x => x ∈ available) pre /\ e = mkStatus CodeUnimplemented (MethodMissing (ID m))))
  end.
Proof.
  revert missing. induction required as [|m required IH]; intros missing; cbn [support_loop].
  { destruct missing as [e|]; [|done]. right. split; [done|by left]. }
  case_bool_decide as Hin; [|case_bool_decide as Hid].
  - specialize (IH missing). destruct (support_loop _ _ _) as [u|e].
    { destruct IH as [H1 H2]. split; [done|by constructor]. }
    destruct IH as [(pre & x & post & -> & H1 & H2 & H3 & H4)|[H1 H2]].
    + left. exists (m :: pre), x, post. repeat split; try done. constructor; [by left|done].
    + right. split; [constructor; [by left|done]|]. destruct H2 as [H2|(H2 & pre & x & post & -> & H3 & H4 & H5)]; [by left|].
      right. split; [done|]. exists (m :: pre), x, post. repeat split; try done. by constructor.
  - left. exists [], m, required. repeat split; try done.
  - cbn zeta. set (missing' := match missing with None => _ | Some _ => _ end). specialize (IH missing').
    assert (missing' <> None) as Hne by (unfold missing'; by destruct missing).
    destruct (support_loop _ _ _) as [u|e]; [by destruct IH|].
    destruct IH as [(pre & x & post & -> & H1 & H2 & H3 & H4)|[H1 [H2|[H2 _]]]]; [| |done].
    + left. exists (m :: pre), x, post. repeat split; try done. constructor; [by right|done].
    + right. split; [constructor; [by right|done]|]. unfold missing' in H2. destruct missing as [e'|].
      * left. done.
      * right. split; [done|]. exists [], m, required. injection H2 as <-. repeat split; try done.
Qed.

(** ** Properties *)

(** Contract normalisation: it succeeds exactly on contracts of the supported protocol with a
    non-empty, duplicate-free list of valid methods within the limit; the result is then a valid
    contract whose methods are a permutation of the given ones, ordered by identifier and contract
    hash; and when no two methods agree on both, the result does not depend on the order given and
    is a fixed point of normalisation. *)
Theorem normalize_contract_exact contract limit :
  (is_ok (normalizeContract contract limit) = true <-> contract_valid limit contract) /\
  forall normal, normalizeContract contract limit = Ok normal ->
    contract_valid limit normal /\
    Contract_Methods normal ≡ₚ Contract_Methods contract /\
    sorted_slice method_less (Contract_Methods normal) /\
    (NoDup (map (fun m => (ID m, ContractHash m)) (Contract_Methods contract)) ->
     normalizeContract normal limit = Ok normal /\
     forall contract', Contract_Protocol contract' = Contract_Protocol contract ->
       Contract_Methods contract' ≡ₚ Contract_Methods contract -> normalizeContract contract' limit = Ok normal).
Proof.
  split.
  { split.
    - destruct (normalizeContract contract limit) eqn:E; [|done]. by apply normalizeContract_ok in E as [? _].
    - intros H. by rewrite (proj2 (normalizeContract_ok contract limit _) (conj H eq_refl)). }
  intros normal H. apply normalizeContract_ok in H as [Hv ->]. destruct contract as [p ms]. cbn [Contract_Methods Contract_Protocol].
  pose proof Hv as (Hp & _). cbn in Hp. subst p.
  assert (forall ms', ms' ≡ₚ ms -> contract_valid limit (mkContract ContractProtocol ms')) as Hperm
    by (intros ms' Hm; by eapply contract_valid_perm).
  split; [apply Hperm, sort_slice_perm|]. split; [apply sort_slice_perm|].
  split; [apply sort_slice_sorted; [apply method_less_trans|apply method_less_asym]|]. intros Hnd.
  assert (forall ms', ms' ≡ₚ ms -> normalizeContract (mkContract ContractProtocol ms') limit
            = Ok (mkContract ContractProtocol (sort_slice method_less ms))) as Hall.
  { intros ms' Hm. apply normalizeContract_ok. split; [by apply Hperm|]. cbn. f_equal. by apply method_sort_perm. }
  split; [apply Hall, sort_slice_perm|]. intros [p' ms'] Hp' Hm. cbn in *. subst p'. by apply Hall.
Qed.

(** Method support: the check succeeds exactly when every required method is available; it
    fails with [failed_precondition] for the first required method whose identifier is declared
    with another contract, and otherwise with [unimplemented] for the first one that is missing. *)
Theorem method_support_exact available required :
  match CheckMethodSupport available required with
  | Ok _ => Forall (fun m => m ∈ available) required
  | Err e =>
      (exists pre m post, required = pre ++ m :: post /\ (m ∉ available) /\ declared available m /\
         Forall (fun x => x ∈ available \/ ~ declared available x) pre /\
         e = mkStatus CodeFailedPrecondition (MethodMismatch (ID m))) \/
      (Forall (fun x => x ∈ available \/ ~ declared available x) required /\
       exists pre m post, required = pre ++ m :: post /\ ~ declared available m /\
         Forall (fun x => x ∈ available) pre /\ e = mkStatus CodeUnimplemented (MethodMissing (ID m)))
  end.
Proof.
  unfold CheckMethodSupport. case_bool_decide as E; [by rewrite E|].
  pose proof (support_loop_spec available required None) as H. destruct (support_loop _ _ _); [by destruct H|].
  destruct H as [H|[H1 [H2|[_ H2]]]]; [by left|done|by right].
Qed.

(** Limit negotiation: the wire form of limits is lossless; the negotiated limits are the
    greatest ones both sides allow, whichever side computes them; and if both sides announced
    acceptable limits, the negotiated ones are acceptable and need no defaults. *)
Theorem limits_negotiation local peer :
  limitsFromWire (limitsToWire local) = local /\
  minLimits local peer = minLimits peer local /\
  minLimits (minLimits local peer) peer = minLimits local peer /\
  (validateWireLimits (limitsToWire local) = true -> validateWireLimits (limitsToWire peer) = true ->
   validateWireLimits (limitsToWire (minLimits local peer)) = true /\
   normalizeLimits (minLimits local peer) = minLimits local peer).
Proof.
  destruct local, peer. cbn. split; [done|]. unfold minLimits. cbn. split; [f_equal; lia|]. split; [f_equal; lia|].
  unfold validateWireLimits, normalizeLimits, or_default. cbn. intros Hl Hp. breflect.
  repeat rewrite (proj2 (Z.ltb_ge _ _)) by lia. repeat rewrite (proj2 (Z.leb_gt _ _)) by lia.
  repeat rewrite (proj2 (Z.eqb_neq _ _)) by lia. done.
Qed.
