(* ===== verification/RpcFrame.v ===== *)
(** * Endpoint frames and FFI envelopes (src/rpc/endpoint_frame.go, endpoint_codec.go, ffi_codec.go)

    The frames two endpoints exchange: their validation by kind and direction, their binary
    encoding, and the FFI request and response envelopes that reuse its parts.  A nil and an empty
    byte slice, map or method list are the same value here.  The fields [queuedAt] and [writeDone]
    of a frame are local to the sender and never encoded: they are left out.  [int] has 64 bits. *)

From S2P Require Import Prelude GoStd GoBytes Wire RpcValue RpcContract.

(** ** Data *)

Definition EndpointProtocol : gostring := lit "minigo.rpc.endpoint.v12".
Definition endpointFrameMagic : gostring := lit "MGRP".
Definition endpointFrameVersion : Z := 1.

Definition endpointKinds : list (gostring * Z) :=
  [(lit "hello", 1); (lit "ready", 2); (lit "bind", 3); (lit "call", 4); (lit "decision", 5);
   (lit "drop", 6); (lit "close", 7); (lit "cancel", 8); (lit "renew", 10); (lit "renew_ack", 11);
   (lit "accepted", 12); (lit "offer", 13); (lit "done", 14)].

Record BindOptions : Type := mkBindOptions { AffinityKey : gostring; Options_Labels : Labels }.

Record wireCall : Type := mkWireCall {
  Call_Method : Method;
  Call_Receiver : option ResourceRef;
  Call_Arguments : gostring
}.

Record endpointFrame : Type := mkFrame {
  Frame_Protocol : gostring;
  Frame_Limits : option wireLimits;
  Frame_Kind : gostring;
  Frame_Origin : gostring;
  Frame_ID : Z;
  Frame_TargetID : Z;
  Frame_Binding : Z;
  Frame_Reply : bool;
  Frame_Epoch : Z;
  Frame_Contract : option Contract;
  Frame_Options : BindOptions;
  Frame_Hops : Z;
  Frame_Call : option wireCall;
  Frame_Ref : option ResourceRef;
  Frame_Values : gostring;
  Frame_Accept : bool;
  Frame_Code : Code;
  Frame_Message : gostring;
  Frame_Timeout : Z;
  Frame_LeaseTTL : Z;
  Frame_AdmissionTimeout : Z;
  Frame_MaxCallDuration : Z
}.

(** The errors of validation, one constructor per message of the source. *)
Inductive frame_error : Type :=
| NoOrigin | LeaseDuration | FrameUTF8 | LabelUTF8 | ProtocolUTF8 | MethodUTF8 | CallUTF8 | ResourceUTF8
| InvalidHello | InvalidLeasePolicy | InvalidLimits | InvalidReady | UnknownKind (kind : gostring)
| InvalidResponse | InvalidBindResponse | InvalidCallResponse | InvalidOfferResponse
| InvalidTimeout | InvalidCancel | InvalidRequest | InvalidBind | InvalidCall | InvalidDecision
| InvalidDrop | InvalidClose | InvalidDirection.

(** The details of the status errors of the codec. *)
Inductive codec_error : Type :=
| UnknownFrameKind | FrameRejected (e : frame_error) | MessageSizeLimit
| MessageSize | FrameMagic | FrameVersion | FrameDecode (e : wire_error).

(** ** Validation *)

Definition validWireMethodText (method : Method) : bool :=
  utf8_Valid (ID method) && utf8_Valid (Service method) && utf8_Valid (Name method) &&
  utf8_Valid (ContractHash method) && utf8_Valid (ResourceTypeHash method).

Definition Millisecond : Z := 1000000.

Definition is_nil {A} (value : option A) : bool := match value with None => true | Some _ => false end.

Definition kind_is (frame : endpointFrame) (names : list string) : bool := is_type (Frame_Kind frame) names.

(** The guards before the switch on the kind. *)
Definition validate_texts (frame : endpointFrame) : result frame_error unit :=
  let? _ := guard_err (bool_decide (Frame_Origin frame = []) || negb (utf8_Valid (Frame_Origin frame))) NoOrigin in
  let? _ := guard_err ((Frame_LeaseTTL frame <? 0) || (Frame_AdmissionTimeout frame <? 0)
                       || (Frame_MaxCallDuration frame <? 0)) LeaseDuration in
  let? _ := guard_err (negb (utf8_Valid (Frame_Protocol frame)) || negb (utf8_Valid (Frame_Code frame))
                       || negb (utf8_Valid (Frame_Message frame)) || negb (utf8_Valid (AffinityKey (Frame_Options frame)))) FrameUTF8 in
  let? _ := guard_err (negb (forallb (fun entry => utf8_Valid (fst entry) && utf8_Valid (snd entry))
                               (map_to_list (Options_Labels (Frame_Options frame))))) LabelUTF8 in
  let? _ := match Frame_Contract frame with
            | None => Ok tt
            | Some contract =>
                let? _ := guard_err (negb (utf8_Valid (Contract_Protocol contract))) ProtocolUTF8 in
                guard_err (negb (forallb validWireMethodText (Contract_Methods contract))) MethodUTF8
            end in
  let? _ := match Frame_Call frame with
            | None => Ok tt
            | Some call =>
                guard_err (negb (validWireMethodText (Call_Method call))
                           || match Call_Receiver call with None => false | Some ref => negb (utf8_Valid (TypeHash ref)) end) CallUTF8
            end in
  match Frame_Ref frame with
  | None => Ok tt
  | Some ref => guard_err (negb (utf8_Valid (TypeHash ref))) ResourceUTF8
  end.

Definition validate_hello (frame : endpointFrame) : result frame_error unit :=
  match Frame_Limits frame with
  | None => Err InvalidHello
  | Some limits =>
      let? _ := guard_err (Frame_Reply frame || bool_decide (Frame_Protocol frame = [])
                           || negb (Frame_ID frame =? 0) || negb (Frame_TargetID frame =? 0)) InvalidHello in
      let? _ := guard_err ((Frame_LeaseTTL frame <? Millisecond) || (Frame_AdmissionTimeout frame <? Millisecond)) InvalidLeasePolicy in
      guard_err (negb (validateWireLimits limits)) InvalidLimits
  end.

Definition validate_response (frame : endpointFrame) : result frame_error unit :=
  let success := bool_decide (Frame_Code frame = []) in
  let? _ := guard_err ((Frame_TargetID frame =? 0) || negb (Frame_ID frame =? 0) || kind_is frame ["cancel"%string]) InvalidResponse in
  let? _ := guard_err (success && kind_is frame ["bind"%string] && ((Frame_Binding frame =? 0) || (Frame_Epoch frame =? 0))) InvalidBindResponse in
  let? _ := guard_err (success && kind_is frame ["call"%string] && (Frame_TargetID frame =? 0)) InvalidCallResponse in
  guard_err (success && kind_is frame ["offer"%string] && (Frame_TargetID frame =? 0)) InvalidOfferResponse.

Definition validate_request (frame : endpointFrame) : result frame_error unit :=
  let? _ := guard_err (Frame_Timeout frame <? 0) InvalidTimeout in
  if kind_is frame ["cancel"%string] then
    guard_err (negb (Frame_ID frame =? 0) || (Frame_TargetID frame =? 0)) InvalidCancel
  else
    let? _ := guard_err ((Frame_ID frame =? 0) || negb (Frame_TargetID frame =? 0) && negb (kind_is frame ["decision"%string])) InvalidRequest in
    if kind_is frame ["bind"%string] then
      guard_err (match Frame_Contract frame with
                 | None => true
                 | Some contract => negb (bool_decide (Contract_Protocol contract = ContractProtocol))
                                    || bool_decide (Contract_Methods contract = [])
                 end) InvalidBind
    else if kind_is frame ["call"%string] then
      guard_err ((Frame_Binding frame =? 0) || is_nil (Frame_Call frame)) InvalidCall
    else if kind_is frame ["decision"%string] then
      guard_err ((Frame_Binding frame =? 0) || (Frame_TargetID frame =? 0)) InvalidDecision
    else if kind_is frame ["drop"%string] then
      guard_err ((Frame_Binding frame =? 0) || is_nil (Frame_Ref frame)) InvalidDrop
    else if kind_is frame ["close"%string] then guard_err (Frame_Binding frame =? 0) InvalidClose
    else if kind_is frame ["renew"; "renew_ack"; "accepted"; "offer"; "done"]%string then
      guard_err (kind_is frame ["renew_ack"; "accepted"; "offer"; "done"]%string) InvalidDirection
    else Ok tt.

Definition validateEndpointFrame (frame : endpointFrame) : result frame_error unit :=
  let? _ := validate_texts frame in
  if kind_is frame ["hello"%string] then validate_hello frame
  else if kind_is frame ["ready"%string] then
    guard_err (Frame_Reply frame || negb (Frame_ID frame =? 0) || negb (Frame_TargetID frame =? 0)) InvalidReady
  else if kind_is frame ["bind"; "call"; "decision"; "drop"; "close"; "cancel";
                         "renew"; "renew_ack"; "accepted"; "offer"; "done"]%string then
    if Frame_Reply frame then validate_response frame else validate_request frame
  else Err (UnknownKind (Frame_Kind frame)).

(** ** Parts of a frame on the wire *)

Definition wire_limit_values (limits : wireLimits) : list Z :=
  [FrameBytes limits; MessageBytes limits; InFlightBytes limits; Bindings limits;
   PendingCalls limits; PendingResults limits; PendingControls limits; Resources limits; Methods limits;
   ValueDepth limits; ValueElements limits].

Definition put_limits (limits : wireLimits) : gostring :=
  concat (map (fun value => put_Uint (u64 value)) (wire_limit_values limits)).

Definition encodeWireLimits (limits : option wireLimits) : gostring := put_optional put_limits limits.

Definition get_limit : decoding Z :=
  let! value := get_Uint in
  if 2 ^ 63 - 1 <? value then dec_fail LimitOverflow else dec_return value.

Definition wire_limits_of (values : list Z) : wireLimits :=
  let value i := nth i values 0 in
  mkWireLimits (value 0%nat) (value 1%nat) (value 2%nat) (value 3%nat) (value 4%nat) (value 5%nat)
    (value 6%nat) (value 7%nat) (value 8%nat) (value 9%nat) (value 10%nat).

Definition get_limits : decoding wireLimits :=
  let! values := get_list get_limit 11 in dec_return (wire_limits_of values).

Definition decodeWireLimits : decoding (option wireLimits) := get_optional get_limits.

Definition put_methods (methods : list Method) : gostring :=
  put_Uint (Z.of_nat (length methods)) ++ concat (map encodeWireMethod methods).

Definition put_contract (contract : Contract) : gostring :=
  put_String (Contract_Protocol contract) ++ put_methods (Contract_Methods contract).

Definition encodeWireContract (contract : option Contract) : gostring := put_optional put_contract contract.

Definition get_methods (maximum : Z) : decoding (list Method) :=
  let! count := get_Uint in
  if u64 maximum <? count then dec_fail MethodLimit else get_list decodeWireMethod (Z.to_nat count).

Definition get_contract (maximum : Z) : decoding Contract :=
  let! protocol := get_String in
  let! methods := get_methods maximum in
  dec_return (mkContract protocol methods).

Definition decodeWireContract (maxMethods : Z) : decoding (option Contract) := get_optional (get_contract maxMethods).

Definition put_call (call : wireCall) : gostring :=
  encodeWireMethod (Call_Method call) ++ encodeWireResource (Call_Receiver call) ++ put_Raw (Call_Arguments call).

Definition encodeWireCall (call : option wireCall) : gostring := put_optional put_call call.

Definition get_call : decoding wireCall :=
  let! method := decodeWireMethod in
  let! receiver := decodeWireResource in
  let! arguments := get_rawView in
  dec_return (mkWireCall method receiver arguments).

Definition decodeWireCall : decoding (option wireCall) := get_optional get_call.

(** ** The frame codec *)

Fixpoint lookup_kind (kinds : list (gostring * Z)) (name : gostring) : option Z :=
  match kinds with
  | [] => None
  | (name', value) :: kinds' => if bool_decide (name' = name) then Some value else lookup_kind kinds' name
  end.

(** The name of a kind; the values of [endpointKinds] are distinct, so the order of the iteration
    over the map does not matter. *)
Fixpoint kind_name (kinds : list (gostring * Z)) (kind : Z) : gostring :=
  match kinds with
  | [] => []
  | (name, value) :: kinds' => if value =? kind then name else kind_name kinds' kind
  end.

Definition endpointKindName (kind : Z) : gostring := kind_name endpointKinds kind.

(** What the encoder writes after the kind; [labels] is the encoding of the labels. *)
Definition frame_body (frame : endpointFrame) (labels : gostring) : gostring :=
  put_String (Frame_Protocol frame) ++
  encodeWireLimits (Frame_Limits frame) ++
  put_Int (Frame_LeaseTTL frame) ++
  put_Int (Frame_AdmissionTimeout frame) ++
  put_Int (Frame_MaxCallDuration frame) ++
  put_String (Frame_Origin frame) ++
  put_Uint (Frame_ID frame) ++
  put_Uint (Frame_TargetID frame) ++
  put_Uint (Frame_Binding frame) ++
  put_Bool (Frame_Reply frame) ++
  put_Uint (Frame_Epoch frame) ++
  encodeWireContract (Frame_Contract frame) ++
  put_String (AffinityKey (Frame_Options frame)) ++
  labels ++
  put_Int (Frame_Hops frame) ++
  encodeWireCall (Frame_Call frame) ++
  encodeWireResource (Frame_Ref frame) ++
  put_Raw (Frame_Values frame) ++
  put_Bool (Frame_Accept frame) ++
  put_String (Frame_Code frame) ++
  put_String (Frame_Message frame) ++
  put_Int (Frame_Timeout frame).

Definition frame_bytes (kind : Z) (frame : endpointFrame) (labels : gostring) : gostring :=
  endpointFrameMagic ++ [endpointFrameVersion] ++ put_Uint kind ++ frame_body frame labels.

Definition encodeEndpointFrame (frame : endpointFrame) (maxBytes : Z) : result (StatusError codec_error) gostring :=
  match lookup_kind endpointKinds (Frame_Kind frame) with
  | None => Err (mkStatus CodeProtocol UnknownFrameKind)
  | Some kind =>
      match validateEndpointFrame frame with
      | Err e => Err (mkStatus CodeProtocol (FrameRejected e))
      | Ok _ =>
          let data := frame_bytes kind frame (encodeWireLabels (Options_Labels (Frame_Options frame))) in
          if bool_decide (data = []) || (maxBytes <? Z.of_nat (length data))
          then Err (mkStatus CodeResourceExhausted MessageSizeLimit)
          else Ok data
      end
  end.

Definition get_hops : decoding Z :=
  let! hops := get_Int in
  if negb (i64 hops =? hops) then dec_fail HopOverflow else dec_return hops.

(** The reads after the kind. *)
Definition get_frame (kind : gostring) (limits : Limits) : decoding endpointFrame :=
  let! protocol := get_String in
  let! frameLimits := decodeWireLimits in
  let! leaseTTL := get_Int in
  let! admissionTimeout := get_Int in
  let! maxCallDuration := get_Int in
  let! origin := get_String in
  let! id := get_Uint in
  let! targetID := get_Uint in
  let! binding := get_Uint in
  let! reply := get_Bool in
  let! epoch := get_Uint in
  let! contract := decodeWireContract (MaxMethods limits) in
  let! affinityKey := get_String in
  let! labels := decodeWireLabels (MaxMethods limits) in
  let! hops := get_hops in
  let! call := decodeWireCall in
  let! ref := decodeWireResource in
  let! values := get_rawView in
  let! accept := get_Bool in
  let! code := get_String in
  let! message := get_String in
  let! timeout := get_Int in
  dec_return (mkFrame protocol frameLimits kind origin id targetID binding reply epoch contract
    (mkBindOptions affinityKey labels) hops call ref values accept code message timeout
    leaseTTL admissionTimeout maxCallDuration).

(** The reads of a payload up to its end, each error turned into a status. *)
Definition read_kind (d : wireDecoder) : result (StatusError codec_error) (gostring * wireDecoder) :=
  match get_fixed (Z.of_nat (length endpointFrameMagic)) d with
  | Err _ => Err (mkStatus CodeProtocol FrameMagic)
  | Ok (magic, d1) =>
      if negb (bool_decide (magic = endpointFrameMagic)) then Err (mkStatus CodeProtocol FrameMagic)
      else
        match get_byte d1 with
        | Err _ => Err (mkStatus CodeProtocol FrameVersion)
        | Ok (version, d2) =>
            if negb (version =? endpointFrameVersion) then Err (mkStatus CodeProtocol FrameVersion)
            else
              match get_Uint d2 with
              | Err e => Err (mkStatus CodeProtocol (FrameDecode e))
              | Ok (kind, d3) =>
                  if bool_decide (endpointKindName kind = []) then Err (mkStatus CodeProtocol UnknownFrameKind)
                  else Ok (endpointKindName kind, d3)
              end
        end
  end.

Definition decodeEndpointFrame (payload : gostring) (limits : Limits) : result (StatusError codec_error) endpointFrame :=
  let limits := normalizeLimits limits in
  if bool_decide (payload = []) || (MaxMessageBytes limits <? Z.of_nat (length payload))
  then Err (mkStatus CodeProtocol MessageSize)
  else
    let? start := read_kind (newWireDecoder payload (MaxMessageBytes limits)) in
    let? frame := match get_frame (fst start) limits (snd start) with
                  | Err e => Err (mkStatus CodeProtocol (FrameDecode e))
                  | Ok (frame, d) => match Done d with
                                     | Err e => Err (mkStatus CodeProtocol (FrameDecode e))
                                     | Ok _ => Ok frame
                                     end
                  end in
    match validateEndpointFrame frame with
    | Err e => Err (mkStatus CodeProtocol (FrameRejected e))
    | Ok _ => Ok frame
    end.

(** ** FFI envelopes *)

Record ffiRequest : Type := mkRequest {
  Req_Version : gostring;
  Req_Operation : gostring;
  Req_Target : gostring;
  Req_Lease : Z;
  Req_Contract : Contract;
  Req_Options : BindOptions;
  Req_Method : Method;
  Req_Receiver : option ResourceRef;
  Req_Payload : gostring;
  Req_Resource : option ResourceRef;
  Req_RequestID : Z;
  Req_Code : Code;
  Req_Message : gostring;
  Req_TimeoutNanos : Z
}.

Record ffiResponse : Type := mkResponse {
  Res_Version : gostring;
  Res_Operation : gostring;
  Res_Lease : Z;
  Res_RequestID : Z;
  Res_Method : Method;
  Res_Receiver : option ResourceRef;
  Res_Payload : gostring;
  Res_Code : Code;
  Res_Message : gostring
}.

Inductive ffi_error : Type := FFISize | FFIDecode (e : wire_error).

Definition get_request (limits : Limits) : decoding ffiRequest :=
  let! version := get_String in
  let! operation := get_String in
  let! target := get_String in
  let! lease := get_Uint in
  let! protocol := get_String in
  let! methods := get_methods (MaxMethods limits) in
  let! affinityKey := get_String in
  let! labels := decodeWireLabels (MaxMethods limits) in
  let! method := decodeWireMethod in
  let! receiver := decodeWireResource in
  let! payload := get_rawView in
  let! resource := decodeWireResource in
  let! requestID := get_Uint in
  let! code := get_String in
  let! message := get_String in
  let! timeout := get_Int in
  dec_return (mkRequest version operation target lease (mkContract protocol methods)
    (mkBindOptions affinityKey labels) method receiver payload resource requestID code message timeout).

Definition decodeFFIRequest (data : gostring) (limits : Limits) : result ffi_error ffiRequest :=
  let limits := normalizeLimits limits in
  if MaxMessageBytes limits <? Z.of_nat (length data) then Err FFISize
  else
    match get_request limits (newWireDecoder data (MaxMessageBytes limits)) with
    | Err e => Err (FFIDecode e)
    | Ok (request, d) => match Done d with Err e => Err (FFIDecode e) | Ok _ => Ok request end
    end.

Definition encodeFFIResponse (response : ffiResponse) : gostring :=
  put_String (Res_Version response) ++
  put_String (Res_Operation response) ++
  put_Uint (Res_Lease response) ++
  put_Uint (Res_RequestID response) ++
  encodeWireMethod (Res_Method response) ++
  encodeWireResource (Res_Receiver response) ++
  put_Raw (Res_Payload response) ++
  put_String (Res_Code response) ++
  put_String (Res_Message response).

(** ** Lemmas: validation *)

Lemma bind_unit_ok {E B} (m : result E unit) (k : result E B) b :
  (let? _ := m in k) = Ok b <-> m = Ok tt /\ k = Ok b.
Proof. destruct m as [[]|e]; cbn; [tauto|]. split; [done|by intros [? _]]. Qed.

Lemma negb_false b : negb b = false <-> b = true.
Proof. apply negb_false_iff. Qed.

Lemma bool_decide_false_iff (P : Prop) `{Decision P} : bool_decide P = false <-> ~ P.
Proof. case_bool_decide; intuition congruence. Qed.

Lemma bool_decide_true_iff (P : Prop) `{Decision P} : bool_decide P = true <-> P.
Proof. case_bool_decide; intuition congruence. Qed.

(** The texts of a method, of an optional reference, of a contract and of a call. *)
Definition ref_text (ref : ResourceRef) : Prop := utf8_Valid (TypeHash ref) = true.
Definition contract_text (c : Contract) : Prop :=
  utf8_Valid (Contract_Protocol c) = true /\ Forall (fun m => validWireMethodText m = true) (Contract_Methods c).
Definition call_text (c : wireCall) : Prop :=
  validWireMethodText (Call_Method c) = true /\ optional_ok ref_text (Call_Receiver c).

Definition texts_valid (f : endpointFrame) : Prop :=
  (Frame_Origin f <> [] /\ utf8_Valid (Frame_Origin f) = true) /\
  (0 <= Frame_LeaseTTL f /\ 0 <= Frame_AdmissionTimeout f /\ 0 <= Frame_MaxCallDuration f) /\
  (utf8_Valid (Frame_Protocol f) = true /\ utf8_Valid (Frame_Code f) = true /\
   utf8_Valid (Frame_Message f) = true /\ utf8_Valid (AffinityKey (Frame_Options f)) = true) /\
  map_Forall (fun k v => utf8_Valid k = true /\ utf8_Valid v = true) (Options_Labels (Frame_Options f)) /\
  optional_ok contract_text (Frame_Contract f) /\
  optional_ok call_text (Frame_Call f) /\
  optional_ok ref_text (Frame_Ref f).

Lemma labels_text labels :
  forallb (fun entry => utf8_Valid (fst entry) && utf8_Valid (snd entry)) (map_to_list labels) = true <->
  map_Forall (fun k v => utf8_Valid k = true /\ utf8_Valid v = true) labels.
Proof.
  rewrite forallb_Forall, map_Forall_to_list. apply Forall_iff. intros [k v]. cbn. apply andb_true_iff.
Qed.

Lemma validate_texts_ok f : validate_texts f = Ok tt <-> texts_valid f.
Proof.
  unfold validate_texts, texts_valid. rewrite !bind_unit_ok, !guard_err_ok, !orb_false_iff, !negb_false, !Z.ltb_ge,
    bool_decide_false_iff, labels_text.
  assert (match Frame_Contract f with
          | None => Ok tt
          | Some contract =>
              let? _ := guard_err (negb (utf8_Valid (Contract_Protocol contract))) ProtocolUTF8 in
              guard_err (negb (forallb validWireMethodText (Contract_Methods contract))) MethodUTF8
          end = Ok tt <-> optional_ok contract_text (Frame_Contract f)) as ->.
  { destruct (Frame_Contract f); [|by cbn]. cbn [optional_ok]. unfold contract_text.
    by rewrite bind_unit_ok, !guard_err_ok, !negb_false, forallb_Forall. }
  assert (match Frame_Call f with
          | None => Ok tt
          | Some call =>
              guard_err (negb (validWireMethodText (Call_Method call))
                || match Call_Receiver call with None => false | Some ref => negb (utf8_Valid (TypeHash ref)) end) CallUTF8
          end = Ok tt <-> optional_ok call_text (Frame_Call f)) as ->.
  { destruct (Frame_Call f) as [[m [r|] a]|]; [| |by cbn]; cbn [optional_ok]; unfold call_text; cbn.
    - by rewrite guard_err_ok, orb_false_iff, !negb_false.
    - rewrite guard_err_ok, orb_false_iff, negb_false. tauto. }
  assert (match Frame_Ref f with
          | None => Ok tt
          | Some ref => guard_err (negb (utf8_Valid (TypeHash ref))) ResourceUTF8
          end = Ok tt <-> optional_ok ref_text (Frame_Ref f)) as ->.
  { destruct (Frame_Ref f); [|by cbn]. cbn [optional_ok]. unfold ref_text. by rewrite guard_err_ok, negb_false. }
  tauto.
Qed.

(** The role of a frame: what its kind and direction require. *)
Definition request_payload (f : endpointFrame) : Prop :=
  (Frame_Kind f = lit "bind" /\ Frame_TargetID f = 0 /\
     exists c, Frame_Contract f = Some c /\ Contract_Protocol c = ContractProtocol /\ Contract_Methods c <> []) \/
  (Frame_Kind f = lit "call" /\ Frame_TargetID f = 0 /\ Frame_Binding f <> 0 /\ Frame_Call f <> None) \/
  (Frame_Kind f = lit "decision" /\ Frame_TargetID f <> 0 /\ Frame_Binding f <> 0) \/
  (Frame_Kind f = lit "drop" /\ Frame_TargetID f = 0 /\ Frame_Binding f <> 0 /\ Frame_Ref f <> None) \/
  (Frame_Kind f = lit "close" /\ Frame_TargetID f = 0 /\ Frame_Binding f <> 0) \/
  (Frame_Kind f = lit "renew" /\ Frame_TargetID f = 0).

Inductive frame_role (f : endpointFrame) : Prop :=
| RoleHello limits :
    Frame_Kind f = lit "hello" -> Frame_Reply f = false -> Frame_Protocol f <> [] ->
    Frame_ID f = 0 -> Frame_TargetID f = 0 -> Frame_Limits f = Some limits -> validateWireLimits limits = true ->
    Millisecond <= Frame_LeaseTTL f -> Millisecond <= Frame_AdmissionTimeout f -> frame_role f
| RoleReady :
    Frame_Kind f = lit "ready" -> Frame_Reply f = false -> Frame_ID f = 0 -> Frame_TargetID f = 0 -> frame_role f
| RoleResponse :
    Frame_Kind f ∈ map lit ["bind"; "call"; "decision"; "drop"; "close"; "renew"; "renew_ack"; "accepted"; "offer"; "done"]%string ->
    Frame_Reply f = true -> Frame_ID f = 0 -> Frame_TargetID f <> 0 ->
    (Frame_Kind f = lit "bind" -> Frame_Code f = [] -> Frame_Binding f <> 0 /\ Frame_Epoch f <> 0) -> frame_role f
| RoleCancel :
    Frame_Kind f = lit "cancel" -> Frame_Reply f = false -> 0 <= Frame_Timeout f ->
    Frame_ID f = 0 -> Frame_TargetID f <> 0 -> frame_role f
| RoleRequest :
    Frame_Reply f = false -> 0 <= Frame_Timeout f -> Frame_ID f <> 0 -> request_payload f -> frame_role f.

Lemma is_type_In typ names : is_type typ names = true <-> typ ∈ map lit names.
Proof.
  unfold is_type. rewrite existsb_exists, list_elem_of_In, in_map_iff. split.
  - intros (n & Hn & E). exists n. split; [|done]. by apply bool_decide_eq_true_1 in E.
  - intros (n & E & Hn). exists n. split; [done|]. by apply bool_decide_eq_true_2.
Qed.

Lemma is_type_one typ name : is_type typ [name] = bool_decide (typ = lit name).
Proof. unfold is_type. cbn. apply orb_false_r. Qed.

Lemma is_nil_false {A} (o : option A) : is_nil o = false <-> o <> None.
Proof. destruct o; cbn; intuition congruence. Qed.

Lemma eqb_zero_false x : (x =? 0) = false <-> x <> 0.
Proof. apply Z.eqb_neq. Qed.

Lemma validate_hello_ok f :
  Frame_Kind f = lit "hello" -> validate_hello f = Ok tt <->
  exists limits, Frame_Limits f = Some limits /\ validateWireLimits limits = true /\ Frame_Reply f = false /\
    Frame_Protocol f <> [] /\ Frame_ID f = 0 /\ Frame_TargetID f = 0 /\
    Millisecond <= Frame_LeaseTTL f /\ Millisecond <= Frame_AdmissionTimeout f.
Proof.
  intros Hk. unfold validate_hello. destruct (Frame_Limits f) as [limits|]; [|split; [done|by intros (? & ? & _)]].
  rewrite !bind_unit_ok, !guard_err_ok, !orb_false_iff, !negb_false, !Z.eqb_eq, !Z.ltb_ge, bool_decide_false_iff. split.
  - intros. exists limits. tauto.
  - intros (l & E & H). injection E as <-. tauto.
Qed.

Lemma validate_response_ok f :
  validate_response f = Ok tt <->
  Frame_TargetID f <> 0 /\ Frame_ID f = 0 /\ Frame_Kind f <> lit "cancel" /\
  (Frame_Kind f = lit "bind" -> Frame_Code f = [] -> Frame_Binding f <> 0 /\ Frame_Epoch f <> 0).
Proof.
  unfold validate_response, kind_is. cbn zeta. rewrite !is_type_one.
  rewrite !bind_unit_ok, !guard_err_ok, !andb_false_iff, !orb_false_iff, !negb_false, !Z.eqb_eq, !eqb_zero_false, !bool_decide_false_iff.
  destruct (decide (Frame_Kind f = lit "bind")), (decide (Frame_Code f = [])); tauto.
Qed.

(** [eval_kinds] evaluates the tests on a known kind. *)
Ltac eval_kinds :=
  repeat match goal with
  | |- context [is_type ?a ?l] =>
      let b := eval vm_compute in (is_type a l) in change (is_type a l) with b
  end; cbn [negb]; cbn iota.

Definition request_guards (f : endpointFrame) : Prop :=
  0 <= Frame_Timeout f /\
  ((Frame_Kind f = lit "cancel" /\ Frame_ID f = 0 /\ Frame_TargetID f <> 0) \/
   (Frame_ID f <> 0 /\ request_payload f)).

Ltac guards :=
  repeat first [rewrite bind_unit_ok | rewrite guard_err_ok | rewrite orb_false_iff | rewrite andb_false_iff | rewrite negb_false
               | rewrite Z.eqb_eq | rewrite eqb_zero_false | rewrite Z.ltb_ge | rewrite is_nil_false | rewrite bool_decide_true_iff
               | rewrite bool_decide_false_iff].

Lemma validate_request_complete f : request_guards f -> validate_request f = Ok tt.
Proof.
  intros [Ht H]. unfold validate_request, kind_is.
  rewrite bind_unit_ok, guard_err_ok, Z.ltb_ge. split; [done|].
  destruct H as [(Hk & H1 & H2)|[Hid Hp]].
  - rewrite Hk. eval_kinds. by guards.
  - destruct Hp as [(Hk & H1 & c & Hc & H2 & H3)|[(Hk & H1 & H2 & H3)|[(Hk & H1 & H2)|[(Hk & H1 & H2 & H3)|[(Hk & H1 & H2)|(Hk & H1)]]]]];
      rewrite Hk; eval_kinds; rewrite ?Hc; guards; tauto.
Qed.

(** [split_kind H name f] splits on whether the frame has the kind tested first in [H]. *)
Ltac split_kind H :=
  match type of H with
  | context [is_type (Frame_Kind ?f) [?n]] =>
      rewrite (is_type_one (Frame_Kind f) n) in H;
      destruct (decide (Frame_Kind f = lit n)) as [?Hk|?Hk];
      [rewrite (bool_decide_eq_true_2 (Frame_Kind f = lit n)) in H by done
      |rewrite (bool_decide_eq_false_2 (Frame_Kind f = lit n)) in H by done]; cbn [negb andb orb] in H
  end.

Definition known_kinds : list string :=
  ["bind"; "call"; "decision"; "drop"; "close"; "cancel"; "renew"; "renew_ack"; "accepted"; "offer"; "done"]%string.

Lemma validate_request_sound f :
  is_type (Frame_Kind f) known_kinds = true -> validate_request f = Ok tt -> request_guards f.
Proof.
  intros Hknown H. unfold validate_request in H. apply bind_unit_ok in H as [Ht H]. apply guard_err_ok, Z.ltb_ge in Ht.
  split; [done|]. unfold kind_is in H. split_kind H.
  { left. revert H. guards. tauto. }
  right. apply bind_unit_ok in H as [Hid H]. rewrite is_type_one in Hid. revert Hid. guards. intros [Hid Htarget].
  split; [done|]. unfold request_payload.
  split_kind H; [|split_kind H; [|split_kind H; [|split_kind H; [|split_kind H]]]].
  - left. destruct (Frame_Contract f) as [c|]; [|done]. revert H. guards. intros [H1 H2]. split; [done|].
    split; [|by exists c]. rewrite Hk0 in Htarget. destruct Htarget as [?|E]; [done|by vm_compute in E].
  - right; left. revert H. guards. rewrite Hk1 in Htarget. destruct Htarget as [?|E]; [tauto|by vm_compute in E].
  - do 2 right; left. revert H. guards. tauto.
  - do 3 right; left. revert H. guards. tauto.
  - do 4 right; left. revert H. guards. tauto.
  - do 5 right. apply is_type_In in Hknown. cbn [known_kinds map] in Hknown.
    destruct (is_type (Frame_Kind f) ["renew_ack"; "accepted"; "offer"; "done"]%string) eqn:E.
    + exfalso. revert H. apply is_type_In in E. cbn [map] in E.
      assert (is_type (Frame_Kind f) ["renew"; "renew_ack"; "accepted"; "offer"; "done"]%string = true) as ->; [|done].
      apply is_type_In. cbn [map]. apply elem_of_cons. by right.
    + assert (Frame_Kind f ∉ map lit ["renew_ack"; "accepted"; "offer"; "done"]%string) as En by (rewrite <- is_type_In, E; done).
      cbn [map] in En. rewrite !elem_of_cons, elem_of_nil in *. tauto.
Qed.

Definition frame_valid (f : endpointFrame) : Prop := texts_valid f /\ frame_role f.

Lemma validate_complete f : frame_valid f -> validateEndpointFrame f = Ok tt.
Proof.
  intros [Ht Hr]. unfold validateEndpointFrame. apply bind_unit_ok. split; [by apply validate_texts_ok|]. unfold kind_is.
  destruct Hr as [limits Hk|Hk Hrep Hid Htid|Hk Hrep Hid Htid Hb|Hk Hrep Hto Hid Htid|Hrep Hto Hid Hp].
  - rewrite Hk at 1. eval_kinds. apply validate_hello_ok; [done|]. exists limits. tauto.
  - rewrite Hk. eval_kinds. guards. tauto.
  - assert (validate_response f = Ok tt) as Hv.
    { apply validate_response_ok. repeat split; try tauto. intros E. rewrite E in Hk. apply is_type_In in Hk. by vm_compute in Hk. }
    rewrite Hrep, Hv. cbn [map] in Hk. repeat (apply elem_of_cons in Hk as [Hk|Hk]; [rewrite Hk; by eval_kinds|]).
    by apply not_elem_of_nil in Hk.
  - assert (validate_request f = Ok tt) as Hv by (apply validate_request_complete; split; [done|by left]).
    rewrite Hrep, Hv, Hk. by eval_kinds.
  - assert (validate_request f = Ok tt) as Hv by (apply validate_request_complete; split; [done|by right]).
    rewrite Hrep, Hv. destruct Hp as [(Hk & _)|[(Hk & _)|[(Hk & _)|[(Hk & _)|[(Hk & _)|(Hk & _)]]]]]; rewrite Hk; by eval_kinds.
Qed.

Lemma validate_sound f : validateEndpointFrame f = Ok tt -> frame_valid f.
Proof.
  intros H. unfold validateEndpointFrame in H. apply bind_unit_ok in H as [Ht H]. apply validate_texts_ok in Ht.
  split; [done|]. unfold kind_is in H. split_kind H; [|split_kind H].
  - apply validate_hello_ok in H as (limits & H); [|done]. apply (RoleHello f limits); tauto.
  - revert H. guards. intros. apply RoleReady; tauto.
  - destruct (is_type (Frame_Kind f) _) eqn:Hknown; [|done]. destruct (Frame_Reply f) eqn:Hrep.
    + apply validate_response_ok in H as (H1 & H2 & H3 & H4). apply RoleResponse; try tauto.
      apply is_type_In in Hknown. cbn [map] in *. rewrite !elem_of_cons in *. tauto.
    + apply validate_request_sound in H as [H1 [H2|H2]]; [|  |done].
      * apply RoleCancel; tauto.
      * apply RoleRequest; tauto.
Qed.

(** ** Lemmas: decoding what was encoded *)

Definition int64_ok (x : Z) : Prop := - 2 ^ 63 <= x < 2 ^ 63.

Definition wire_limits_ok (l : wireLimits) : Prop := Forall (fun x => 0 <= x < 2 ^ 63) (wire_limit_values l).

Lemma decodes_limits lim l : wire_limits_ok l -> decodes get_limits lim (put_limits l) l.
Proof.
  intros H. unfold get_limits, put_limits.
  assert (l = wire_limits_of (map id (wire_limit_values l))) as E by (by destruct l). rewrite E at 2.
  apply (decodes_map _ wire_limits_of). apply (decodes_list get_limit lim _ id (wire_limit_values l)).
  eapply Forall_impl; [exact H|]. intros x Hx. cbn beta in *. unfold get_limit. rewrite u64_id by lia.
  eapply decodes_last; [apply decodes_Uint; lia|]. rewrite (proj2 (Z.ltb_ge _ _)) by lia. apply decodes_return.
Qed.

Definition methods_ok (lim maximum : Z) (ms : list Method) : Prop :=
  Forall (method_ok lim) ms /\ Z.of_nat (length ms) <= maximum < 2 ^ 63.

Lemma decodes_methods lim maximum ms :
  methods_ok lim maximum ms -> decodes (get_methods maximum) lim (put_methods ms) ms.
Proof.
  intros [H Hm]. unfold get_methods, put_methods. eapply decodes_bind; [apply decodes_Uint; lia|].
  rewrite u64_id, (proj2 (Z.ltb_ge _ _)), Nat2Z.id by lia. rewrite <- (List.map_id ms) at 3.
  apply (decodes_list decodeWireMethod lim encodeWireMethod (fun m => m)). eapply Forall_impl; [exact H|]. apply decodes_method.
Qed.

Definition contract_ok (lim maximum : Z) (c : Contract) : Prop :=
  text_ok lim (Contract_Protocol c) /\ methods_ok lim maximum (Contract_Methods c).

Lemma decodes_contract lim maximum c :
  contract_ok lim maximum c -> decodes (get_contract maximum) lim (put_contract c) c.
Proof.
  destruct c. intros [H1 H2]. cbn in *. unfold get_contract, put_contract.
  eapply decodes_bind; [by apply decodes_text|]. eapply decodes_last; [by apply decodes_methods|]. apply decodes_return.
Qed.

Definition call_ok (lim : Z) (c : wireCall) : Prop :=
  method_ok lim (Call_Method c) /\ optional_ok (ref_ok lim) (Call_Receiver c) /\ fits lim (Call_Arguments c).

Lemma decodes_call lim c : call_ok lim c -> decodes get_call lim (put_call c) c.
Proof. destruct c. intros (H1 & H2 & H3). cbn in *. unfold get_call, put_call. decode_chain. Qed.

Lemma decodes_hops lim x : int64_ok x -> decodes get_hops lim (put_Int x) x.
Proof.
  intros H. unfold get_hops. eapply decodes_last; [by apply decodes_Int|]. rewrite i64_id, Z.eqb_refl by apply H. apply decodes_return.
Qed.

(** What a frame must satisfy to be read back under a byte limit and a method limit. *)
Definition frame_ok (lim maximum : Z) (f : endpointFrame) : Prop :=
  (text_ok lim (Frame_Protocol f) /\ text_ok lim (Frame_Origin f) /\ text_ok lim (AffinityKey (Frame_Options f)) /\
   text_ok lim (Frame_Code f) /\ text_ok lim (Frame_Message f) /\ fits lim (Frame_Values f)) /\
  (uint64_ok (Frame_ID f) /\ uint64_ok (Frame_TargetID f) /\ uint64_ok (Frame_Binding f) /\ uint64_ok (Frame_Epoch f)) /\
  (int64_ok (Frame_LeaseTTL f) /\ int64_ok (Frame_AdmissionTimeout f) /\ int64_ok (Frame_MaxCallDuration f) /\
   int64_ok (Frame_Hops f) /\ int64_ok (Frame_Timeout f)) /\
  optional_ok wire_limits_ok (Frame_Limits f) /\ optional_ok (contract_ok lim maximum) (Frame_Contract f) /\
  optional_ok (call_ok lim) (Frame_Call f) /\ optional_ok (ref_ok lim) (Frame_Ref f) /\
  labels_ok lim (Options_Labels (Frame_Options f)) /\
  Z.of_nat (size (Options_Labels (Frame_Options f))) <= maximum < 2 ^ 63.

(** [step lemma] runs one read of a chain. *)
Ltac step tac := first [eapply decodes_bind; [solve [tac]|] | eapply decodes_last; [solve [tac]|]].

Lemma decodes_frame lim limits f :
  frame_ok lim (MaxMethods limits) f ->
  decodes (get_frame (Frame_Kind f) limits) lim (frame_body f (encodeWireLabels (Options_Labels (Frame_Options f)))) f.
Proof.
  intros ((T1 & T2 & T3 & T4 & T5 & T6) & (U1 & U2 & U3 & U4) & (I1 & I2 & I3 & I4 & I5) & O1 & O2 & O3 & O4 & L1 & L2).
  destruct f as [? ? ? ? ? ? ? ? ? ? [? ?] ? ? ? ? ? ? ? ? ? ? ?]. cbn in *. unfold get_frame, frame_body. cbn.
  unfold uint64_ok, int64_ok in *.
  step ltac:(by apply decodes_text).
  step ltac:(by eapply decodes_optional; [apply decodes_limits|]).
  do 3 step ltac:(by apply decodes_Int). step ltac:(by apply decodes_text). do 3 step ltac:(by apply decodes_Uint).
  step ltac:(by apply decodes_Bool). step ltac:(by apply decodes_Uint).
  step ltac:(by eapply decodes_optional; [apply decodes_contract|]).
  step ltac:(by apply decodes_text). step ltac:(apply decodes_labels; [done|lia|lia]).
  step ltac:(by apply decodes_hops). step ltac:(by eapply decodes_optional; [apply decodes_call|]).
  step ltac:(by apply decodes_resource). step ltac:(by apply decodes_rawView). step ltac:(by apply decodes_Bool).
  do 2 step ltac:(by apply decodes_text). step ltac:(by apply decodes_Int). apply decodes_return.
Qed.

(** ** Lemmas: texts that fit because the whole encoding fits *)

Definition room (lim : Z) (s : gostring) : Prop := Z.of_nat (length s) <= lim.

Lemma room_app lim a b : room lim (a ++ b) -> room lim a /\ room lim b.
Proof. unfold room. rewrite length_app. lia. Qed.

Lemma room_concat lim {A} (f : A -> gostring) l : room lim (concat (map f l)) -> Forall (fun x => room lim (f x)) l.
Proof.
  intros H. apply List.Forall_forall. intros x Hx. unfold room in *.
  pose proof (concat_length_le (map f l) (f x) (in_map f l x Hx)). lia.
Qed.

Section room.
Context (lim : Z).
Hypothesis Hlim : lim < 2 ^ 63.

Lemma room_fits s : room lim (put_Raw s) -> fits lim s.
Proof. intros H. apply room_app in H as [_ H]. by split. Qed.

Lemma room_text s : utf8_Valid s = true -> room lim (put_String s) -> text_ok lim s.
Proof. intros Hv H. split; [by apply room_fits|done]. Qed.

Lemma room_method m : validWireMethodText m = true -> room lim (encodeWireMethod m) -> method_ok lim m.
Proof.
  unfold validWireMethodText, encodeWireMethod, method_ok. rewrite !andb_true_iff. intros ((((V1 & V2) & V3) & V4) & V5) H.
  apply room_app in H as [R1 H]. apply room_app in H as [R2 H]. apply room_app in H as [R3 H]. apply room_app in H as [R4 R5].
  repeat split; try done; by apply room_fits.
Qed.

Lemma room_optional {A} (put : A -> gostring) o : room lim (put_optional put o) -> optional_ok (fun a => room lim (put a)) o.
Proof. destruct o; cbn [put_optional optional_ok]; [|done]. intros H. by apply room_app in H as [_ H]. Qed.

Definition ref_range (r : ResourceRef) : Prop := uint64_ok (Wire.Epoch r) /\ uint64_ok (ObjectID r).

Lemma room_ref r : ref_range r -> ref_text r -> room lim (put_resource_ref r) -> ref_ok lim r.
Proof.
  intros [H1 H2] Ht H. unfold put_resource_ref in H. apply room_app in H as [_ H]. apply room_app in H as [_ H].
  split; [done|]. split; [done|]. by apply room_text.
Qed.

Lemma room_resource o :
  optional_ok ref_range o -> optional_ok ref_text o -> room lim (encodeWireResource o) -> optional_ok (ref_ok lim) o.
Proof. intros H1 H2 H. apply room_optional in H. destruct o; [|done]. by apply room_ref. Qed.

Lemma room_methods maximum ms :
  Forall (fun m => validWireMethodText m = true) ms -> Z.of_nat (length ms) <= maximum < 2 ^ 63 ->
  room lim (put_methods ms) -> methods_ok lim maximum ms.
Proof.
  intros HT Hm H. apply room_app in H as [_ H]. apply room_concat in H. split; [|done].
  eapply Forall_impl; [exact (proj2 (Forall_and _ _) (conj HT H))|]. intros m [? ?]. by apply room_method.
Qed.

Lemma room_labels labels :
  map_Forall (fun k v => utf8_Valid k = true /\ utf8_Valid v = true) labels -> labels !! [] = None ->
  room lim (encodeWireLabels labels) -> labels_ok lim labels.
Proof.
  intros HT Hne H. unfold encodeWireLabels in H. cbn zeta in H. apply room_app in H as [_ H].
  apply room_concat in H. rewrite List.Forall_forall in H. intros k v Hkv. destruct (HT k v Hkv) as [Hk Hv].
  assert (In k (sorted_keys labels)) as Hin.
  { apply list_elem_of_In. unfold sorted_keys. rewrite merge_sort_Permutation. apply list_elem_of_In, in_map_iff.
    exists (k, v). split; [done|]. by apply list_elem_of_In, elem_of_map_to_list. }
  specialize (H k Hin). rewrite Hkv in H. cbn [default from_option id] in H. apply room_app in H as [R1 R2].
  split; cbn [fst snd]; [by intros ->; congruence|]. split; by apply room_text.
Qed.
End room.

(** The machine ranges of a frame's fields. *)
Definition frame_typed (f : endpointFrame) : Prop :=
  (uint64_ok (Frame_ID f) /\ uint64_ok (Frame_TargetID f) /\ uint64_ok (Frame_Binding f) /\ uint64_ok (Frame_Epoch f)) /\
  (int64_ok (Frame_LeaseTTL f) /\ int64_ok (Frame_AdmissionTimeout f) /\ int64_ok (Frame_MaxCallDuration f) /\
   int64_ok (Frame_Hops f) /\ int64_ok (Frame_Timeout f)) /\
  optional_ok (fun l => Forall int64_ok (wire_limit_values l)) (Frame_Limits f) /\
  optional_ok (fun c => optional_ok ref_range (Call_Receiver c)) (Frame_Call f) /\
  optional_ok ref_range (Frame_Ref f).

(** What the decoder asks for and the encoder does not: no label has an empty key, and no announced limit is negative. *)
Definition decoder_only (f : endpointFrame) : Prop :=
  Options_Labels (Frame_Options f) !! [] = None /\ optional_ok (fun l => Forall (fun x => 0 <= x) (wire_limit_values l)) (Frame_Limits f).

(** The numbers of methods and labels stay within the method limit. *)
Definition frame_counts (maximum : Z) (f : endpointFrame) : Prop :=
  optional_ok (fun c => Z.of_nat (length (Contract_Methods c)) <= maximum) (Frame_Contract f) /\
  Z.of_nat (size (Options_Labels (Frame_Options f))) <= maximum.

Lemma room_frame lim maximum f :
  lim < 2 ^ 63 -> maximum < 2 ^ 63 -> texts_valid f -> frame_typed f -> decoder_only f -> frame_counts maximum f ->
  room lim (frame_body f (encodeWireLabels (Options_Labels (Frame_Options f)))) -> frame_ok lim maximum f.
Proof.
  intros Hlim Hmax ((_ & V1) & _ & (V2 & V3 & V4 & V5) & VL & VC & VK & VR) (U & I & TL0 & TK & TR) [TE TP] [NC NL] H.
  assert (optional_ok wire_limits_ok (Frame_Limits f)) as TL.
  { destruct (Frame_Limits f) as [l|]; [|done]. cbn [optional_ok] in *. unfold wire_limits_ok. rewrite List.Forall_forall in TL0, TP |- *. intros x Hx. specialize (TL0 x Hx). specialize (TP x Hx). unfold int64_ok in TL0. cbn beta in TP. lia. }
  unfold frame_body in H. repeat match type of H with room _ (_ ++ _) => let R := fresh "R" in apply room_app in H as [R H] end.
  repeat match goal with R : room _ (put_optional _ _) |- _ => apply room_optional in R | R : room _ (encodeWireContract _) |- _ => apply room_optional in R
    | R : room _ (encodeWireCall _) |- _ => apply room_optional in R end.
  split; [|split; [done|split; [done|]]].
  { split_and!; try (by apply room_text); by apply room_fits. }
  split; [done|]. split; [|split; [|split; [|split]]].
  - destruct (Frame_Contract f) as [c|]; [|done]. cbn [optional_ok] in *. destruct VC as [VC1 VC2].
    match goal with R : room _ (put_contract c) |- _ => apply room_app in R as [? ?] end.
    split; [by apply room_text|]. by apply room_methods.
  - destruct (Frame_Call f) as [c|]; [|done]. cbn [optional_ok] in *. destruct VK as [VK1 VK2].
    match goal with R : room _ (put_call c) |- _ => apply room_app in R as [? R]; apply room_app in R as [? ?] end.
    split; [by apply room_method|]. split; [by apply room_resource|]. by apply room_fits.
  - by apply room_resource.
  - by apply room_labels.
  - done.
Qed.

Lemma kind_name_lookup name kind :
  lookup_kind endpointKinds name = Some kind -> name <> [] /\ 0 <= kind < 2 ^ 64 /\ endpointKindName kind = name.
Proof.
  unfold endpointKindName. cbn [lookup_kind endpointKinds].
  repeat (case_bool_decide; [intros Hk; injection Hk as <-; subst name; split; [vm_compute; congruence|split; [lia|vm_compute; reflexivity]]|]). done.
Qed.

(** The header of a frame is read back. *)
Lemma read_kind_bytes name kind body lim :
  lookup_kind endpointKinds name = Some kind ->
  read_kind (mkDecoder (endpointFrameMagic ++ [endpointFrameVersion] ++ put_Uint kind ++ body) lim) = Ok (name, mkDecoder body lim).
Proof.
  intros H. apply kind_name_lookup in H as (Hne & Hr & Hn). unfold read_kind.
  rewrite (decodes_fixed lim (Z.of_nat (length endpointFrameMagic)) endpointFrameMagic eq_refl).
  rewrite bool_decide_eq_true_2 by done. cbn [negb]. unfold get_byte. cbn [unread limit app].
  rewrite Z.eqb_refl. cbn [negb]. rewrite decodes_Uint by done. rewrite Hn. by rewrite bool_decide_eq_false_2.
Qed.

Lemma encodeEndpointFrame_ok f maxBytes bytes :
  encodeEndpointFrame f maxBytes = Ok bytes <->
  exists kind, lookup_kind endpointKinds (Frame_Kind f) = Some kind /\ validateEndpointFrame f = Ok tt /\
    bytes = frame_bytes kind f (encodeWireLabels (Options_Labels (Frame_Options f))) /\ Z.of_nat (length bytes) <= maxBytes.
Proof.
  unfold encodeEndpointFrame. destruct (lookup_kind _ _) as [kind|]; [|split; [done|by intros (? & ? & _)]].
  destruct (validateEndpointFrame f) as [[]|e]; [|split; [done|by intros (? & _ & ? & _)]]. cbn zeta.
  rewrite bool_decide_eq_false_2 by (unfold frame_bytes; discriminate). cbn [orb].
  destruct (maxBytes <? _) eqn:E; breflect.
  - split; [done|]. intros (k & Hk & _ & -> & H). injection Hk as <-. lia.
  - split; [|intros (k & Hk & _ & -> & H); by injection Hk as <-]. intros H. injection H as <-. exists kind. done.
Qed.

Lemma room_suffix lim a b : room lim (a ++ b) -> room lim b.
Proof. intros H. by apply room_app in H as [_ H]. Qed.

(** ** Lemmas: what the decoders accept *)

(** A payload is a byte slice: its elements are bytes and its length is an int. *)
Definition payload_ok (s : gostring) : Prop := Forall is_byte s /\ Z.of_nat (length s) < 2 ^ 63.

Lemma bytes_check s : forallb (fun c => (0 <=? c) && (c <? 256)) s = true -> Forall is_byte s.
Proof.
  rewrite forallb_Forall. intros H. eapply Forall_impl; [exact H|]. intros c Hc. cbn beta in Hc. breflect. by split.
Qed.

(** [reads get put]: the bytes consumed by a successful read are the encoding of its result. *)
Definition reads {A} (get : decoding A) (put : A -> gostring) : Prop :=
  forall d a d', payload_ok (unread d) -> get d = Ok (a, d') -> unread d = put a ++ unread d'.

Lemma payload_ok_app a b : payload_ok (a ++ b) -> payload_ok b.
Proof. intros [H1 H2]. apply Forall_app in H1 as [_ H1]. rewrite length_app in H2. split; [done|lia]. Qed.

Lemma reads_Uint : reads get_Uint put_Uint.
Proof. intros d a d' _ H. by apply get_Uint_ok in H as (? & _). Qed.

Lemma reads_Int : reads get_Int put_Int.
Proof. intros d a d' _ H. by apply exact_Int in H as (? & _). Qed.

Lemma reads_rawView : reads get_rawView put_Raw.
Proof. intros d a d' [_ Hl] H. by apply get_rawView_ok in H as (? & _). Qed.

Lemma reads_String : reads get_String put_String.
Proof. intros d a d' [_ Hl] H. by apply get_String_ok in H as (? & _). Qed.

Lemma reads_Bool : reads get_Bool put_Bool.
Proof.
  intros [u lim] a d' [Hb _] H. unfold get_Bool, get_byte in H. cbn [unread] in *.
  destruct u as [|v u]; [done|]. inversion Hb as [|? ? Hv _]; subst. dec_inv H.
  cbn in E. injection E as <- <-. breflect. unfold is_byte in Hv. assert (v = 0 \/ v = 1) as [->| ->] by lia; done.
Qed.

Create HintDb reads.
#[export] Hint Resolve reads_Uint reads_Int reads_rawView reads_String reads_Bool : reads.

Lemma read_bind {A B} (m : decoding A) (k : A -> decoding B) put d b d'' :
  reads m put -> payload_ok (unread d) -> dec_bind m k d = Ok (b, d'') ->
  exists a d', unread d = put a ++ unread d' /\ payload_ok (unread d') /\ k a d' = Ok (b, d'').
Proof.
  intros Hm Hp H. apply dec_bind_ok in H as (a & d' & E & H). exists a, d'. pose proof (Hm d a d' Hp E) as U.
  split; [done|]. split; [|done]. rewrite U in Hp. by apply payload_ok_app in Hp.
Qed.

(** [read_step H Hp] follows the first read of the chain in [H]. *)
Ltac read_step H Hp :=
  let U := fresh "U" in let Hp' := fresh "Hp'" in
  eapply read_bind in H as (?a & ?d & U & Hp' & H); [|solve [eauto with reads]|exact Hp]; clear Hp; rename Hp' into Hp.

(** [read_all H Hp] follows the whole chain and collects the bytes read. *)
Ltac read_all H Hp := repeat read_step H Hp; unfold dec_return in H; injection H as <- <-.

Ltac collect_reads :=
  repeat match goal with U : unread ?d = _ |- context [unread ?d] => rewrite U; clear U end; rewrite <- ?app_assoc.

Lemma reads_optional {A} (get : decoding A) put : reads get put -> reads (get_optional get) (put_optional put).
Proof.
  intros Hget d o d' Hp H. unfold get_optional in H. read_step H Hp. destruct a.
  - read_all H Hp. by collect_reads.
  - injection H as <- <-. by collect_reads.
Qed.

Lemma reads_method : reads decodeWireMethod encodeWireMethod.
Proof. intros d m d' Hp H. unfold decodeWireMethod in H. read_all H Hp. unfold encodeWireMethod. cbn [ID Service Name ContractHash ResourceTypeHash]. by collect_reads. Qed.

Lemma reads_resource_ref : reads get_resource_ref put_resource_ref.
Proof. intros d m d' Hp H. unfold get_resource_ref in H. read_all H Hp. unfold put_resource_ref. cbn [Wire.Epoch ObjectID TypeHash]. by collect_reads. Qed.

Lemma reads_resource : reads decodeWireResource encodeWireResource.
Proof. apply reads_optional, reads_resource_ref. Qed.

#[export] Hint Resolve reads_optional reads_method reads_resource_ref reads_resource : reads.

Lemma reads_call : reads get_call put_call.
Proof. intros d m d' Hp H. unfold get_call in H. read_all H Hp. unfold put_call. cbn [Call_Method Call_Receiver Call_Arguments]. by collect_reads. Qed.

Lemma reads_list {A} (get : decoding A) put count :
  reads get put -> reads (get_list get count) (fun l => concat (map put l)).
Proof.
  intros Hget. induction count as [|count IH]; intros d l d' Hp H; cbn [get_list] in H.
  - by injection H as <- <-.
  - read_all H Hp. cbn [map concat]. by collect_reads.
Qed.

Lemma get_list_length {A} (get : decoding A) count d l d' : get_list get count d = Ok (l, d') -> length l = count.
Proof.
  revert d l. induction count as [|count IH]; intros d l H; cbn [get_list] in H; dec_inv H; [done|]. cbn [length]. f_equal. eauto.
Qed.

Lemma reads_methods maximum : reads (get_methods maximum) put_methods.
Proof.
  intros d l d' Hp H. unfold get_methods in H. pose proof H as H0. apply dec_bind_ok in H0 as (count & d0 & E & H0).
  destruct (_ <? _) eqn:El; [done|]. apply get_Uint_ok in E as (U & _ & Hr). rewrite U in Hp. apply payload_ok_app in Hp.
  pose proof (get_list_length _ _ _ _ _ H0) as Hl. pose proof (reads_list _ _ _ reads_method _ _ _ Hp H0) as U'.
  unfold put_methods. rewrite Hl, Z2Nat.id by lia. rewrite U, U'. by rewrite <- app_assoc.
Qed.

#[export] Hint Resolve reads_call reads_methods : reads.

Lemma reads_contract maximum : reads (get_contract maximum) put_contract.
Proof. intros d m d' Hp H. unfold get_contract in H. read_all H Hp. unfold put_contract. cbn [Contract_Protocol Contract_Methods]. by collect_reads. Qed.

Lemma reads_limits : reads get_limits put_limits.
Proof.
  intros d l d' Hp H. unfold get_limits in H. apply dec_bind_ok in H as (values & d0 & E & H). injection H as <- <-.
  pose proof (get_list_length _ _ _ _ _ E) as Hl.
  assert (reads get_limit (fun x => put_Uint (u64 x))) as Hget.
  { intros x a x' Hx Hr. unfold get_limit in Hr. dec_inv Hr. breflect. apply get_Uint_ok in E0 as (U & _ & Hr).
    by rewrite u64_id by lia. }
  rewrite (reads_list _ _ _ Hget _ _ _ Hp E). f_equal. unfold put_limits. do 2 f_equal.
  do 11 (destruct values as [|? values]; [done|]). destruct values; [|done]. done.
Qed.

Lemma reads_hops : reads get_hops put_Int.
Proof. intros d m d' Hp H. unfold get_hops in H. dec_inv H. by apply reads_Int in E. Qed.

#[export] Hint Resolve reads_contract reads_limits reads_hops : reads.

(** The labels are accepted in any order: the bytes are those of some enumeration of the map. *)
Definition label_bytes (entries : list (gostring * gostring)) : gostring :=
  put_Uint (Z.of_nat (length entries)) ++ concat (map (fun e => put_String (fst e) ++ put_String (snd e)) entries).

Definition enumerates (entries : list (gostring * gostring)) (labels : Labels) : Prop :=
  NoDup (map fst entries) /\ Forall (fun e => fst e <> []) entries /\ list_to_map entries = labels.

Lemma reads_labels_loop count acc d labels d' :
  payload_ok (unread d) -> decode_labels_loop count acc d = Ok (labels, d') ->
  exists entries, length entries = count /\ NoDup (map fst entries) /\
    Forall (fun e => fst e <> [] /\ acc !! fst e = None) entries /\ labels = list_to_map entries ∪ acc /\
    unread d = concat (map (fun e => put_String (fst e) ++ put_String (snd e)) entries) ++ unread d'.
Proof.
  revert acc d. induction count as [|count IH]; intros acc d Hp H; cbn [decode_labels_loop] in H.
  { injection H as <- <-. exists []. rewrite list_to_map_nil, (left_id_L ∅ (∪)). repeat split; constructor. }
  read_step H Hp. read_step H Hp. case_decide as Hk; [done|]. case_decide as Hdup; [done|].
  apply IH in H as (entries & Hl & Hnd & HF & -> & U'); [|done].
  apply eq_None_not_Some in Hdup. exists ((a, a0) :: entries). cbn [length map fst snd concat]. split; [congruence|].
  assert (a ∉ map fst entries) as Hn.
  { intros Hin. apply list_elem_of_In, in_map_iff in Hin as ([k v] & E & Hin). cbn in E. subst k.
    rewrite List.Forall_forall in HF. destruct (HF _ Hin) as [_ HN]. cbn in HN. by rewrite lookup_insert_eq in HN. }
  split; [by apply NoDup_cons|]. split; [|split].
  - constructor; [done|]. eapply Forall_impl; [exact HF|]. intros [k v] [H1 H2]. cbn in *. split; [done|].
    by apply lookup_insert_None in H2 as [? _].
  - rewrite list_to_map_cons. by rewrite <- insert_union_l, insert_union_r by (by apply not_elem_of_list_to_map_1).
  - collect_reads. done.
Qed.

Lemma read_labels {B} (maximum : Z) (k : Labels -> decoding B) (d : wireDecoder) (b : B) (d'' : wireDecoder) :
  payload_ok (unread d) -> dec_bind (decodeWireLabels maximum) k d = Ok (b, d'') ->
  exists labels entries d', enumerates entries labels /\ unread d = label_bytes entries ++ unread d' /\
    payload_ok (unread d') /\ k labels d' = Ok (b, d'').
Proof.
  intros Hp H. apply dec_bind_ok in H as (labels & d' & E & H). unfold decodeWireLabels in E.
  apply dec_bind_ok in E as (count & d0 & Ec & E). apply get_Uint_ok in Ec as (U & _ & Hr).
  pose proof Hp as Hp0. rewrite U in Hp0. apply payload_ok_app in Hp0. destruct (_ <? _); [done|].
  assert (exists entries, enumerates entries labels /\ unread d = label_bytes entries ++ unread d') as (entries & He & U').
  { destruct (count =? 0) eqn:Hc; breflect.
    - injection E as <- <-. exists []. split; [|by rewrite U, Hc]. split; [constructor|]. split; [constructor|done].
    - apply reads_labels_loop in E as (entries & Hl & Hnd & HF & -> & U'); [|done]. exists entries. split.
      + split; [done|]. split; [|by rewrite (right_id_L ∅ (∪))]. eapply Forall_impl; [exact HF|]. by intros ? [? _].
      + unfold label_bytes. rewrite Hl, Z2Nat.id by lia. rewrite U, U'. by rewrite <- app_assoc. }
  exists labels, entries, d'. split; [done|]. split; [done|]. split; [|done]. rewrite U' in Hp. by apply payload_ok_app in Hp.
Qed.

Lemma reads_frame kind limits d f d' :
  payload_ok (unread d) -> get_frame kind limits d = Ok (f, d') ->
  Frame_Kind f = kind /\ exists entries, enumerates entries (Options_Labels (Frame_Options f)) /\
    unread d = frame_body f (label_bytes entries) ++ unread d'.
Proof.
  intros Hp H. unfold get_frame, decodeWireLimits, decodeWireContract, decodeWireCall in H. repeat read_step H Hp.
  apply read_labels in H as (labels & entries & dl & He & Ul & Hpl & H); [|done]. clear Hp.
  read_all H Hpl. cbn [Frame_Kind Frame_Options Options_Labels]. split; [done|]. exists entries. split; [done|].
  unfold frame_body, encodeWireLimits, encodeWireContract, encodeWireCall.
  cbn [Frame_Protocol Frame_Limits Frame_Origin Frame_ID Frame_TargetID Frame_Binding Frame_Reply Frame_Epoch
    Frame_Contract Frame_Options AffinityKey Frame_Hops Frame_Call Frame_Ref Frame_Values Frame_Accept Frame_Code
    Frame_Message Frame_Timeout Frame_LeaseTTL Frame_AdmissionTimeout Frame_MaxCallDuration]. by collect_reads.
Qed.

(** What the FFI encoder on the guest side must produce; [labels] is the encoding of the labels. *)
Definition request_bytes (r : ffiRequest) (labels : gostring) : gostring :=
  put_String (Req_Version r) ++ put_String (Req_Operation r) ++ put_String (Req_Target r) ++ put_Uint (Req_Lease r) ++
  put_contract (Req_Contract r) ++ put_String (AffinityKey (Req_Options r)) ++ labels ++
  encodeWireMethod (Req_Method r) ++ encodeWireResource (Req_Receiver r) ++ put_Raw (Req_Payload r) ++
  encodeWireResource (Req_Resource r) ++ put_Uint (Req_RequestID r) ++ put_String (Req_Code r) ++
  put_String (Req_Message r) ++ put_Int (Req_TimeoutNanos r).

Lemma reads_request limits d r d' :
  payload_ok (unread d) -> get_request limits d = Ok (r, d') ->
  exists entries, enumerates entries (Options_Labels (Req_Options r)) /\
    unread d = request_bytes r (label_bytes entries) ++ unread d'.
Proof.
  intros Hp H. unfold get_request in H. repeat read_step H Hp.
  apply read_labels in H as (labels & entries & dl & He & Ul & Hpl & H); [|done]. clear Hp.
  read_all H Hpl. cbn [Req_Options Options_Labels]. exists entries. split; [done|].
  unfold request_bytes, put_contract.
  cbn [Req_Version Req_Operation Req_Target Req_Lease Req_Contract Req_Options Req_Method Req_Receiver Req_Payload
    Req_Resource Req_RequestID Req_Code Req_Message Req_TimeoutNanos AffinityKey Contract_Protocol Contract_Methods].
  by collect_reads.
Qed.

Lemma Done_ok d : Done d = Ok tt <-> unread d = [].
Proof.
  unfold Done, Remaining. destruct (unread d) as [|x l]; cbn; [done|]. split; done.
Qed.

(** Labels enumerated in the order of their keys are the canonical encoding. *)
Lemma label_bytes_sorted entries labels :
  enumerates entries labels -> StronglySorted bytes_le (map fst entries) -> label_bytes entries = encodeWireLabels labels.
Proof.
  intros (Hnd & _ & <-) Hs. unfold encodeWireLabels. cbn zeta.
  assert (sorted_keys (list_to_map entries) = map fst entries) as E.
  { unfold sorted_keys. apply (StronglySorted_unique bytes_le).
    - apply (StronglySorted_merge_sort bytes_le).
    - done.
    - rewrite merge_sort_Permutation. by rewrite (Permutation_map fst (map_to_list_to_map entries Hnd)). }
  rewrite E, List.length_map. unfold label_bytes. f_equal. f_equal. rewrite List.map_map. apply List.map_ext_in.
  intros [k v] Hin. cbn [fst snd]. f_equal. f_equal. rewrite (elem_of_list_to_map_1 entries k v Hnd); [done|]. by apply list_elem_of_In.
Qed.

Lemma read_kind_ok d name d' :
  payload_ok (unread d) -> read_kind d = Ok (name, d') ->
  exists kind, lookup_kind endpointKinds name = Some kind /\
    unread d = endpointFrameMagic ++ [endpointFrameVersion] ++ put_Uint kind ++ unread d' /\ payload_ok (unread d').
Proof.
  intros Hp H. unfold read_kind in H. destruct (get_fixed _ d) as [[magic d1]|] eqn:E1; [|done].
  apply get_fixed_ok in E1 as (U1 & _ & _). case_bool_decide as Hm; [|done]. subst magic. cbn [negb] in H.
  destruct (get_byte d1) as [[version d2]|] eqn:E2; [|done].
  destruct (version =? endpointFrameVersion) eqn:Hv; [|done]. breflect. subst version. cbn [negb] in H.
  assert (unread d1 = [endpointFrameVersion] ++ unread d2) as U2.
  { unfold get_byte in E2. destruct (unread d1); [done|]. by injection E2 as -> <-. }
  destruct (get_Uint d2) as [[kind d3]|] eqn:E3; [|done]. apply get_Uint_ok in E3 as (U3 & _ & Hr).
  case_bool_decide as Hn; [done|]. injection H as <- <-. exists kind. rewrite U1, U2, U3 in *. split.
  - clear -Hn. unfold endpointKindName in *. cbn [kind_name endpointKinds] in *.
    repeat match goal with |- context [?n =? kind] => destruct (n =? kind) eqn:?E; breflect; [subst kind; vm_compute; reflexivity|] end.
    done.
  - split; [done|]. by do 3 apply payload_ok_app in Hp.
Qed.

(** ** Properties *)

(** Frame validation: a frame is accepted exactly when its texts are valid UTF-8, it has an
    origin and no negative duration, and it plays one of the roles of the protocol: a hello with
    acceptable limits and lease policy, a ready, a response that names its request (and the binding
    it created), a cancel, or a request with the payload of its kind. *)
Theorem frame_validation_exact frame : validateEndpointFrame frame = Ok tt <-> frame_valid frame.
Proof. split; [apply validate_sound|apply validate_complete]. Qed.

(** The keys and limits of what is read. *)
Lemma labels_loop_keys count acc d labels d' : decode_labels_loop count acc d = Ok (labels, d') -> labels !! [] = acc !! [].
Proof.
  revert acc d. induction count as [|count IH]; intros acc d H; cbn [decode_labels_loop] in H; [by injection H as <- _|]. dec_inv H. case_decide as Hk; [done|]. case_decide as Hdup; [done|]. apply IH in H. rewrite H. by apply lookup_insert_ne.
Qed.

Lemma read_limits_positive d l d' : get_limits d = Ok (l, d') -> Forall (fun x => 0 <= x) (wire_limit_values l).
Proof.
  intros H. unfold get_limits in H. dec_inv H. pose proof (get_list_length _ _ _ _ _ E) as Hl. assert (Forall (fun x => 0 <= x) a) as Hf.
  { clear Hl. revert d a E. generalize 11%nat as count. intros count. induction count as [|count IH]; intros d a E; cbn [get_list] in E; dec_inv E; [constructor|]. constructor; [|by eapply IH].
    match goal with Hg : get_limit _ = Ok _ |- _ => unfold get_limit in Hg; dec_inv Hg; match goal with Hu : get_Uint _ = Ok _ |- _ => apply get_Uint_ok in Hu as (_ & _ & ?) end end. lia. }
  do 11 (destruct a as [|? a]; [done|]). destruct a; [|done]. done.
Qed.

Lemma decoded_only kind limits d f d' : get_frame kind limits d = Ok (f, d') -> decoder_only f.
Proof.
  intros H. unfold get_frame in H. dec_inv H. split; cbn [Frame_Options Options_Labels Frame_Limits].
  - match goal with Hl : decodeWireLabels _ _ = Ok _ |- _ => unfold decodeWireLabels in Hl; dec_inv Hl; [done|by apply labels_loop_keys in Hl] end.
  - match goal with Hl : decodeWireLimits _ = Ok _ |- _ => unfold decodeWireLimits, get_optional in Hl; dec_inv Hl; [cbn [optional_ok]; by eapply read_limits_positive|done] end.
Qed.

(** C36. Frame round trip: what the encoder accepts, the decoder of a peer whose message and method limits admit it reads
    back unchanged, exactly if no label has an empty key and no announced limit is negative.  The encoder accepts
    frames with either, the decoder refuses them. *)
Theorem frame_roundtrip frame maxBytes limits bytes :
  frame_typed frame -> frame_counts (MaxMethods (normalizeLimits limits)) frame ->
  maxBytes <= MaxMessageBytes (normalizeLimits limits) < 2 ^ 63 -> MaxMethods (normalizeLimits limits) < 2 ^ 63 ->
  encodeEndpointFrame frame maxBytes = Ok bytes ->
  decodeEndpointFrame bytes limits = Ok frame <-> Options_Labels (Frame_Options frame) !! [] = None /\ optional_ok (fun l => Forall (fun x => 0 <= x) (wire_limit_values l)) (Frame_Limits frame).
Proof.
  intros Ht Hc Hb Hm H. apply encodeEndpointFrame_ok in H as (kind & Hk & Hv & Hbytes & Hl).
  unfold decodeEndpointFrame. cbn zeta. set (L := normalizeLimits limits) in *.
  rewrite bool_decide_eq_false_2 by (rewrite Hbytes; unfold frame_bytes; discriminate).
  rewrite (proj2 (Z.ltb_ge _ _)) by lia. cbn [orb]. unfold newWireDecoder. rewrite Hbytes. unfold frame_bytes.
  rewrite (read_kind_bytes (Frame_Kind frame)) by done. cbn [result_bind fst snd]. fold (decoder_only frame). split.
  { intros H. apply result_bind_ok in H as (f & Hf & H). destruct (get_frame _ L _) as [[f' d']|] eqn:Eg; [|done]. destruct (Done d') as [[]|]; [|done]. injection Hf as ->.
    destruct (validateEndpointFrame f) as [[]|]; [|done]. injection H as ->. by eapply decoded_only. }
  intros Ho. pose proof (proj1 (validate_sound _ Hv)) as Htext.
  assert (frame_ok (MaxMessageBytes L) (MaxMethods L) frame) as Hok.
  { apply room_frame; [lia|done|done|done|done|done|]. assert (room (MaxMessageBytes L) bytes) as R by (unfold room; lia).
    rewrite Hbytes in R. unfold frame_bytes in R. by do 3 apply room_suffix in R. }
  pose proof (decodes_frame _ _ _ Hok []) as Hd. rewrite app_nil_r in Hd. rewrite Hd.
  rewrite (proj2 (Done_ok _)) by done. cbn [result_bind]. by rewrite Hv.
Qed.

(** A sample frame: a bind request with one method and two labels. *)
Definition sample_method : Method := mkMethod (lit "s.m") (lit "s") (lit "m") (repeat 97 64) [].
Definition sample_frame : endpointFrame :=
  mkFrame [] None (lit "bind") (lit "peer") 7 0 0 false 0 (Some (mkContract ContractProtocol [sample_method]))
    (mkBindOptions (lit "key") {[ lit "zone" := lit "a"; lit "az" := lit "b" ]}) 1 None None [] false [] [] 5 0 0 0.

Lemma sample_frame_typed : frame_typed sample_frame /\ frame_counts 4096 sample_frame.
Proof. repeat split; vm_compute; congruence. Qed.

Lemma frame_roundtrip_witness :
  exists bytes, encodeEndpointFrame sample_frame 1024 = Ok bytes /\ decodeEndpointFrame bytes zero_limits = Ok sample_frame.
Proof.
  eexists. split; [vm_compute; reflexivity|]. apply (frame_roundtrip sample_frame 1024 zero_limits).
  6: { split; [vm_compute; reflexivity|exact I]. }
  - apply sample_frame_typed.
  - apply sample_frame_typed.
  - vm_compute. split; congruence.
  - vm_compute. reflexivity.
  - vm_compute. reflexivity.
Defined.

(** A bind request with an empty label key: the encoder sends it, and no peer can read it. *)
Definition keyless_frame : endpointFrame :=
  mkFrame [] None (lit "bind") (lit "peer") 7 0 0 false 0 (Some (mkContract ContractProtocol [sample_method]))
    (mkBindOptions (lit "key") {[ [] := lit "a" ]}) 1 None None [] false [] [] 5 0 0 0.

Example keyless_frame_sent :
  match encodeEndpointFrame keyless_frame 1024 with
  | Ok bytes => match decodeEndpointFrame bytes zero_limits with Ok _ => false | Err _ => true end
  | Err _ => false
  end = true.
Proof. vm_compute. reflexivity. Qed.

Definition sample_bytes : gostring :=
  match encodeEndpointFrame sample_frame 1024 with Ok bytes => bytes | Err _ => [] end.

(** What the frame decoder accepts: the frame is valid, its kind is known, the payload is
    within the limit and is exactly the encoding of the frame with its labels in some order; with
    the labels in the order of their keys the encoder would produce the same bytes. *)
Theorem frame_decoder_exact payload limits frame :
  payload_ok payload -> decodeEndpointFrame payload limits = Ok frame ->
  frame_valid frame /\ Z.of_nat (length payload) <= MaxMessageBytes (normalizeLimits limits) /\
  exists kind entries, lookup_kind endpointKinds (Frame_Kind frame) = Some kind /\
    enumerates entries (Options_Labels (Frame_Options frame)) /\
    payload = frame_bytes kind frame (label_bytes entries) /\
    (StronglySorted bytes_le (map fst entries) ->
     encodeEndpointFrame frame (MaxMessageBytes (normalizeLimits limits)) = Ok payload).
Proof.
  intros Hp H. unfold decodeEndpointFrame in H. cbn zeta in H. set (L := normalizeLimits limits) in *.
  destruct (_ || _) eqn:E; [done|]. breflect. apply result_bind_ok in H as ([name d1] & Hkind & H).
  apply result_bind_ok in H as (f & Hf & H). cbn [fst snd] in Hf.
  apply read_kind_ok in Hkind as (kind & Hk & U & Hp1); [|done]. cbn [unread newWireDecoder] in U.
  destruct (get_frame name L d1) as [[f' d2]|] eqn:Eg; [|done]. destruct (Done d2) as [[]|] eqn:Ed; [|done].
  injection Hf as <-. apply Done_ok in Ed. destruct (validateEndpointFrame f') as [[]|] eqn:Ev; [|done]. injection H as ->.
  apply reads_frame in Eg as (En & entries & He & U1); [|done]. subst name. rewrite Ed, app_nil_r in U1.
  split; [by apply validate_sound|]. split; [done|]. exists kind, entries. split; [done|]. split; [done|].
  assert (payload = frame_bytes kind frame (label_bytes entries)) as Epay by (rewrite U, U1; reflexivity).
  split; [done|]. intros Hs. apply encodeEndpointFrame_ok. exists kind. split; [done|]. split; [done|]. split; [|done].
  by rewrite <- (label_bytes_sorted entries).
Qed.

Lemma frame_decoder_exact_witness :
  frame_valid sample_frame /\
  exists kind entries, lookup_kind endpointKinds (Frame_Kind sample_frame) = Some kind /\
    enumerates entries (Options_Labels (Frame_Options sample_frame)) /\
    sample_bytes = frame_bytes kind sample_frame (label_bytes entries).
Proof.
  destruct (frame_decoder_exact sample_bytes zero_limits sample_frame) as (H1 & _ & kind & entries & H2 & H3 & H4 & _).
  - split; [apply bytes_check|]; vm_compute; reflexivity.
  - vm_compute. reflexivity.
  - split; [exact H1|]. exists kind, entries. split; [exact H2|]. split; [exact H3|exact H4].
Defined.

(** What the FFI request decoder accepts: data within the limit that is exactly the
    concatenation of the encoded fields of the request, with the labels in some order. *)
Theorem ffi_request_exact data limits request :
  payload_ok data -> decodeFFIRequest data limits = Ok request ->
  Z.of_nat (length data) <= MaxMessageBytes (normalizeLimits limits) /\
  exists entries, enumerates entries (Options_Labels (Req_Options request)) /\
    data = request_bytes request (label_bytes entries).
Proof.
  intros Hp H. unfold decodeFFIRequest in H. cbn zeta in H. destruct (_ <? _) eqn:El; [done|]. breflect.
  destruct (get_request _ _) as [[r d]|] eqn:E; [|done]. destruct (Done d) as [[]|] eqn:Ed; [|done]. injection H as ->.
  apply Done_ok in Ed. apply reads_request in E as (entries & He & U); [|done].
  split; [done|]. exists entries. split; [done|]. by rewrite Ed, app_nil_r in U.
Qed.

Definition sample_request : ffiRequest :=
  mkRequest (lit "v") (lit "invoke") (lit "target") 3 (mkContract ContractProtocol [sample_method])
    (mkBindOptions [] {[ lit "zone" := lit "a" ]}) sample_method (Some (mkResourceRef 1 2 (lit "h"))) [1; 2; 3] None 9 [] [] (-1).

Lemma ffi_request_exact_witness :
  exists entries, enumerates entries (Options_Labels (Req_Options sample_request)) /\
    request_bytes sample_request (encodeWireLabels {[ lit "zone" := lit "a" ]}) = request_bytes sample_request (label_bytes entries).
Proof.
  apply (ffi_request_exact (request_bytes sample_request (encodeWireLabels {[ lit "zone" := lit "a" ]})) zero_limits sample_request).
  - split; [apply bytes_check|]; vm_compute; reflexivity.
  - vm_compute. reflexivity.
Defined.
