(* ===== verification/Fragment.v ===== *)
(** * Fragments and reassembly (src/rpc/endpoint_fragment.go, endpoint_transport.go)

    Messages longer than a frame travel as contiguous fragments; short control messages travel
    whole, between the fragments of a data message.  The model has the fragment codec, the
    reassembly of the reader, the fragmentation step of [writeLoop] and the reading loop of
    [readLoop] up to the delivery of a payload.  Deadlines, contexts and queues are left out: which
    lane the writer serves next, and with which message, is the input of its step.  The buffer
    [dst] of the encoder only saves an allocation.  A run-time panic is the error [Panic]. *)

From S2P Require Import Prelude GoStd GoBytes Wire RpcValue RpcContract RpcFrame.

(** ** The fragment codec *)

Definition endpointFragmentMagic : gostring := lit "MGRF".
Definition endpointFragmentVersion : Z := 1.
Definition maxFragmentHeaderBytes : Z := Z.of_nat (length endpointFragmentMagic) + 1 + 3 * MaxVarintLen64.

Record endpointFragment : Type := mkFragment {
  fragment_messageID : Z;
  fragment_total : Z;
  fragment_offset : Z;
  fragment_data : gostring
}.

Inductive fragment_error : Type :=
| InvalidFragment | FragmentFrameLimit
| FragmentSize | FragmentHeader | FragmentMessageID | FragmentTotal | FragmentOffset | FragmentData
| FragmentBounds | ControlIncomplete
| SequenceNotIncreasing | MessageChanged | OffsetNotContiguous
| IDSpaceExhausted | Panic.

Abbreviation len s := (Z.of_nat (length s)) (only parsing).

Definition fragment_bytes (messageID total offset : Z) (data : gostring) : gostring :=
  endpointFragmentMagic ++ [endpointFragmentVersion] ++
  put_Uint messageID ++ put_Uint (u64 total) ++ put_Uint (u64 offset) ++ data.

Definition encodeEndpointFragmentTo (messageID total offset : Z) (data : gostring) (maxFrameBytes : Z)
    : result fragment_error gostring :=
  if (total <=? 0) || (offset <? 0) || (len data =? 0) || (total <? offset) || (total - offset <? len data)
     || (messageID =? 0) && (negb (offset =? 0) || negb (len data =? total))
  then Err InvalidFragment
  else
    let bytes := fragment_bytes messageID total offset data in
    if maxFrameBytes <? len bytes then Err FragmentFrameLimit else Ok bytes.

(** One read whose failure is reported as a fixed error. *)
Definition or_error {A} (m : result wire_error A) (e : fragment_error) : result fragment_error A :=
  result_map_err (fun _ => e) m.

Definition read_header (d : wireDecoder) : result fragment_error wireDecoder :=
  let? start := or_error (get_fixed (len endpointFragmentMagic) d) FragmentHeader in
  let? _ := guard_err (negb (bool_decide (fst start = endpointFragmentMagic))) FragmentHeader in
  let? version := or_error (get_byte (snd start)) FragmentHeader in
  let? _ := guard_err (negb (fst version =? endpointFragmentVersion)) FragmentHeader in
  Ok (snd version).

Definition decodeEndpointFragment (payload : gostring) (limits : Limits) : result fragment_error endpointFragment :=
  let limits := normalizeLimits limits in
  let? _ := guard_err ((len payload =? 0) || (MaxFrameBytes limits <? len payload)
                       || (len payload <=? len endpointFragmentMagic + 1)) FragmentSize in
  let? d0 := read_header (newWireDecoder payload (MaxFrameBytes limits)) in
  let? messageID := or_error (get_Uint d0) FragmentMessageID in
  let? total := or_error (get_Uint (snd messageID)) FragmentTotal in
  let? offset := or_error (get_Uint (snd total)) FragmentOffset in
  let? chunk := or_error (get_fixed (Remaining (snd offset)) (snd offset)) FragmentData in
  let '(messageID, total, offset, chunk) := (fst messageID, fst total, fst offset, fst chunk) in
  let? _ := guard_err ((total =? 0) || (len chunk =? 0) || (u64 (MaxMessageBytes limits) <? total)
                       || (u64 (MaxInFlightBytes limits) <? total) || (total <? offset)
                       || (u64 (total - offset) <? len chunk)) FragmentBounds in
  let? _ := guard_err ((messageID =? 0) && (negb (offset =? 0) || negb (len chunk =? total))) ControlIncomplete in
  Ok (mkFragment messageID total offset chunk).

(** ** Reassembly *)

(** [data] is [None] for a nil slice: no message is being assembled. *)
Record endpointAssembly : Type := mkAssembly {
  assembly_messageID : Z;
  assembly_data : option gostring;
  assembly_received : Z
}.

Definition empty_assembly : endpointAssembly := mkAssembly 0 None 0.

(** [copy(dst[at:], src)]; slicing beyond the length panics. *)
Definition copy_at (dst : gostring) (at_ : Z) (src : gostring) : result fragment_error gostring :=
  if (at_ <? 0) || (len dst <? at_) then Err Panic
  else
    let n := Nat.min (length src) (length dst - Z.to_nat at_) in
    Ok (take (Z.to_nat at_) dst ++ take n src ++ drop (Z.to_nat at_ + n) dst).

(** [make([]byte, int(total))]. *)
Definition make_bytes (total : Z) : result fragment_error gostring :=
  if i64 total <? 0 then Err Panic else Ok (replicate (Z.to_nat (i64 total)) 0).

(** The reader's state: the assembly and the identifier of the last complete message. *)
Record reader : Type := mkReader { reader_assembly : endpointAssembly; reader_previousID : Z }.

Definition empty_reader : reader := mkReader empty_assembly 0.

(** The assembly a data fragment continues: a new one, or the current one. *)
Definition select_assembly (r : reader) (fragment : endpointFragment) : result fragment_error (Z * gostring * Z) :=
  let assembly := reader_assembly r in
  match assembly_data assembly with
  | None =>
      let? _ := guard_err (negb (fragment_offset fragment =? 0)
                           || negb (fragment_messageID fragment =? u64 (reader_previousID r + 1))) SequenceNotIncreasing in
      let? data := make_bytes (fragment_total fragment) in
      Ok (fragment_messageID fragment, data, 0)
  | Some data =>
      let? _ := guard_err (negb (fragment_messageID fragment =? assembly_messageID assembly)
                           || negb (fragment_total fragment =? len data)) MessageChanged in
      Ok (assembly_messageID assembly, data, assembly_received assembly)
  end.

(** [endpointAssembly.append]: the complete message, if any, and the new state. *)
Definition append (r : reader) (fragment : endpointFragment) : result fragment_error (option gostring * reader) :=
  if fragment_messageID fragment =? 0 then
    let? _ := guard_err (negb (fragment_offset fragment =? 0)
                         || negb (len (fragment_data fragment) =? fragment_total fragment)) ControlIncomplete in
    Ok (Some (fragment_data fragment), r)
  else
    let? '(messageID, data, received) := select_assembly r fragment in
    let? _ := guard_err (negb (fragment_offset fragment =? u64 received)) OffsetNotContiguous in
    let? data := copy_at data received (fragment_data fragment) in
    let received := received + len (fragment_data fragment) in
    if negb (received =? len data)
    then Ok (None, mkReader (mkAssembly messageID (Some data) received) (reader_previousID r))
    else Ok (Some data, mkReader empty_assembly messageID).

(** ** The reader and the writer *)

(** The reading loop: every fragment is decoded and appended; complete messages are delivered. *)
Fixpoint read_loop (limits : Limits) (r : reader) (frames : list gostring) : result fragment_error (list gostring * reader) :=
  match frames with
  | [] => Ok ([], r)
  | frame :: frames' =>
      let? fragment := decodeEndpointFragment frame limits in
      let? step := append r fragment in
      let? rest := read_loop limits (snd step) frames' in
      Ok (match fst step with Some message => message :: fst rest | None => fst rest end, snd rest)
  end.

(** The writer's state: the identifier of the last message begun, the data message retained
    between fragments, and the offset of its next fragment. *)
Record writer : Type := mkWriter { writer_messageID : Z; writer_current : option gostring; writer_offset : Z }.

Definition empty_writer : writer := mkWriter 0 None 0.

(** The lane served next: a control message, or the data lane with the message at the head of the
    data queues, which is taken up when none is retained. *)
Inductive lane : Type :=
| Control (payload : gostring)
| DataLane (next : gostring).

(** [payload[position:end]]. *)
Definition slice (payload : gostring) (position stop : Z) : result fragment_error gostring :=
  if (position <? 0) || (stop <? position) || (len payload <? stop) then Err Panic
  else Ok (take (Z.to_nat (stop - position)) (drop (Z.to_nat position) payload)).

(** The fragment of [payload] at [position] and the end of its data. *)
Definition cut_fragment (limits : Limits) (id : Z) (payload : gostring) (position : Z) : result fragment_error (gostring * Z) :=
  let stop := Z.min (position + MaxFrameBytes limits - maxFragmentHeaderBytes) (len payload) in
  let? data := slice payload position stop in
  let? fragment := encodeEndpointFragmentTo id (len payload) position data (MaxFrameBytes limits) in
  Ok (fragment, stop).

(** One iteration of the writing loop: the frame sent, the new state and the message completed.  The loop of the source
    reads the outbound limits again in each round; here they are the same for a run, as they are once the peers have
    agreed on them. *)
Definition write_step (limits : Limits) (w : writer) (l : lane) : result fragment_error (gostring * writer * option gostring) :=
  match l with
  | Control payload =>
      let? cut := cut_fragment limits 0 payload 0 in
      Ok (fst cut, w, Some payload)
  | DataLane next =>
      let payload := default next (writer_current w) in
      let? _ := guard_err ((writer_offset w =? 0) && (writer_messageID w =? 2 ^ 64 - 1)) IDSpaceExhausted in
      let messageID := if writer_offset w =? 0 then writer_messageID w + 1 else writer_messageID w in
      let? cut := cut_fragment limits messageID payload (writer_offset w) in
      if snd cut =? len payload
      then Ok (fst cut, mkWriter messageID None 0, Some payload)
      else Ok (fst cut, mkWriter messageID (Some payload) (snd cut), None)
  end.

Fixpoint write_loop (limits : Limits) (w : writer) (lanes : list lane)
    : result fragment_error (list gostring * writer * list gostring) :=
  match lanes with
  | [] => Ok ([], w, [])
  | l :: lanes' =>
      let? '(frame, w', message) := write_step limits w l in
      let? '(frames, w'', messages) := write_loop limits w' lanes' in
      Ok (frame :: frames, w'', match message with Some m => m :: messages | None => messages end)
  end.

(** ** Lemmas: the codec *)

(** The fragments a reader with these limits accepts. *)
Definition fragment_valid (L : Limits) (f : endpointFragment) : Prop :=
  uint64_ok (fragment_messageID f) /\
  0 < fragment_total f <= MaxMessageBytes L /\ fragment_total f <= MaxInFlightBytes L /\
  0 <= fragment_offset f /\ 0 < len (fragment_data f) <= fragment_total f - fragment_offset f /\
  (fragment_messageID f = 0 -> fragment_offset f = 0 /\ len (fragment_data f) = fragment_total f).

Definition limits_in_range (L : Limits) : Prop :=
  MaxFrameBytes L < 2 ^ 63 /\ 0 <= MaxMessageBytes L < 2 ^ 63 /\ 0 <= MaxInFlightBytes L < 2 ^ 63.

Definition bytes_of (f : endpointFragment) : gostring :=
  fragment_bytes (fragment_messageID f) (fragment_total f) (fragment_offset f) (fragment_data f).

Lemma encode_fragment_ok id total offset data maxFrame bytes :
  encodeEndpointFragmentTo id total offset data maxFrame = Ok bytes <->
  0 < total /\ 0 <= offset /\ 0 < len data <= total - offset /\ (id = 0 -> offset = 0 /\ len data = total) /\
  bytes = fragment_bytes id total offset data /\ len bytes <= maxFrame.
Proof.
  unfold encodeEndpointFragmentTo. cbn zeta. destruct (_ || _) eqn:E.
  - split; [done|]. intros (H1 & H2 & H3 & H4 & _). exfalso. rewrite !orb_true_iff, andb_true_iff, orb_true_iff, !negb_true_iff,
      !Z.leb_le, !Z.ltb_lt, !Z.eqb_eq, !Z.eqb_neq in E. lia.
  - rewrite !orb_false_iff, andb_false_iff, orb_false_iff, !negb_false, !Z.leb_gt, !Z.ltb_ge, !Z.eqb_eq, !Z.eqb_neq in E.
    destruct (maxFrame <? _) eqn:El; breflect.
    + split; [done|]. intros (_ & _ & _ & _ & -> & H). lia.
    + split; [|intros (_ & _ & _ & _ & -> & _); done]. intros H. injection H as <-. split_and!; try lia; done.
Qed.

Lemma read_header_bytes rest lim :
  read_header (mkDecoder (endpointFragmentMagic ++ [endpointFragmentVersion] ++ rest) lim) = Ok (mkDecoder rest lim).
Proof.
  unfold read_header. rewrite (decodes_fixed lim (len endpointFragmentMagic) endpointFragmentMagic eq_refl). reflexivity.
Qed.

Lemma get_rest_bytes data lim : get_fixed (Remaining (mkDecoder data lim)) (mkDecoder data lim) = Ok (data, mkDecoder [] lim).
Proof. pose proof (decodes_fixed lim (len data) data eq_refl []) as H. by rewrite app_nil_r in H. Qed.

Lemma decode_fragment_bytes limits f :
  let L := normalizeLimits limits in
  limits_in_range L -> fragment_valid L f -> len (bytes_of f) <= MaxFrameBytes L ->
  decodeEndpointFragment (bytes_of f) limits = Ok f.
Proof.
  cbn zeta. set (L := normalizeLimits limits). intros (HF & HM & HI) (Hid & Ht & Ht2 & Ho & Hd & Hc) Hl.
  destruct f as [id total offset data]. cbn [fragment_messageID fragment_total fragment_offset fragment_data] in *.
  unfold decodeEndpointFragment. cbn zeta. fold L.
  assert (len endpointFragmentMagic + 1 < len (bytes_of (mkFragment id total offset data))) as Hlen.
  { unfold bytes_of, fragment_bytes. cbn [fragment_messageID fragment_total fragment_offset fragment_data].
    rewrite !length_app. cbn [length]. lia. }
  rewrite (proj2 (Z.eqb_neq _ 0)), (proj2 (Z.ltb_ge _ _)), (proj2 (Z.leb_gt _ _)) by lia. cbn [orb guard_err result_bind].
  unfold bytes_of, fragment_bytes, newWireDecoder. cbn [fragment_messageID fragment_total fragment_offset fragment_data].
  rewrite read_header_bytes. cbn [result_bind]. rewrite !u64_id by lia.
  rewrite decodes_Uint by done. cbn [or_error result_map_err result_bind fst snd].
  rewrite decodes_Uint by lia. cbn [or_error result_map_err result_bind fst snd].
  rewrite decodes_Uint by lia. cbn [or_error result_map_err result_bind fst snd].
  rewrite get_rest_bytes. cbn [or_error result_map_err result_bind fst snd].
  rewrite !u64_id by lia. rewrite !(proj2 (Z.eqb_neq _ 0)), !(proj2 (Z.ltb_ge _ _)) by lia. cbn [orb guard_err result_bind].
  destruct (id =? 0) eqn:E; breflect; [|done]. destruct (Hc E) as [-> ->]. by rewrite !Z.eqb_refl.
Qed.

Lemma or_error_ok {A} (m : result wire_error A) e a : or_error m e = Ok a <-> m = Ok a.
Proof. destruct m; cbn; split; congruence. Qed.

Lemma read_header_ok d d' :
  read_header d = Ok d' -> unread d = endpointFragmentMagic ++ [endpointFragmentVersion] ++ unread d'.
Proof.
  unfold read_header. intros H. inv_result H. injection H as <-.
  repeat match goal with E : or_error _ _ = Ok _ |- _ => apply or_error_ok in E end.
  destruct a as [magic d1], a1 as [version d2]. cbn [fst snd] in *.
  repeat match goal with E : guard_err _ _ = Ok ?u |- _ => destruct u; apply guard_err_ok, negb_false in E end.
  apply get_fixed_ok in Hm as (U & _). rewrite U. apply bool_decide_eq_true_1 in Hm0. subst magic. f_equal.
  unfold get_byte in Hm1. destruct (unread d1); [done|]. injection Hm1 as -> <-. cbn [unread]. apply Z.eqb_eq in Hm2. by subst.
Qed.

Lemma get_rest_ok d data d' : get_fixed (Remaining d) d = Ok (data, d') -> unread d = data.
Proof.
  intros H. apply get_fixed_ok in H as (U & _ & Hl). unfold Remaining in Hl. rewrite U, length_app in Hl.
  rewrite U. destruct (unread d'); [by rewrite app_nil_r|]. cbn in Hl. lia.
Qed.

Lemma decode_fragment_inv limits payload f :
  let L := normalizeLimits limits in
  limits_in_range L -> decodeEndpointFragment payload limits = Ok f ->
  fragment_valid L f /\ payload = bytes_of f /\ len payload <= MaxFrameBytes L.
Proof.
  cbn zeta. set (L := normalizeLimits limits). intros (HF & HM & HI) H. unfold decodeEndpointFragment in H. cbn zeta in H. fold L in H.
  inv_result H. destruct a.
  repeat match goal with E : or_error _ _ = Ok _ |- _ => apply or_error_ok in E end.
  destruct a1 as [id d1], a2 as [total d2], a3 as [offset d3], a4 as [chunk d4]. cbn [fst snd] in *.
  inv_result H. injection H as <-.
  repeat match goal with E : guard_err _ _ = Ok ?u |- _ => destruct u; apply guard_err_ok in E end. breflect.
  apply read_header_ok in Hm0. apply get_Uint_ok in Hm1 as (U1 & _ & R1), Hm2 as (U2 & _ & R2), Hm3 as (U3 & _ & R3).
  apply get_rest_ok in Hm4. cbn [unread newWireDecoder] in Hm0.
  rewrite (u64_id (MaxMessageBytes L)), (u64_id (MaxInFlightBytes L)), (u64_id (total - offset)) in * by lia.
  split; [|split; [|done]].
  - split; [done|]. cbn [fragment_messageID fragment_total fragment_offset fragment_data]. split; [lia|]. split; [lia|]. split; [lia|]. split; [lia|]. intros ->. destruct Hm6 as [E|E]; [done|].
    breflect. split; [done|lia].
  - unfold bytes_of, fragment_bytes. cbn. rewrite Hm0, U1, U2, U3, Hm4. by rewrite !u64_id by lia.
Qed.

(** ** Lemmas: reassembly *)

(** The buffer of a message [p] of which [o] bytes have arrived. *)
Definition partial (p : gostring) (o : nat) : gostring := take o p ++ replicate (length p - o) 0.

Lemma partial_length p o : (o <= length p)%nat -> length (partial p o) = length p.
Proof. intros H. unfold partial. rewrite length_app, length_take, length_replicate. lia. Qed.

Lemma partial_full p : partial p (length p) = p.
Proof. unfold partial. rewrite Nat.sub_diag, firstn_all. apply app_nil_r. Qed.

Lemma copy_partial p o n :
  (o + n <= length p)%nat ->
  copy_at (partial p o) (Z.of_nat o) (take n (drop o p)) = Ok (partial p (o + n)).
Proof.
  intros H. unfold copy_at. rewrite partial_length by lia. rewrite (proj2 (Z.ltb_ge _ 0)), (proj2 (Z.ltb_ge _ _)) by lia.
  cbn [orb]. rewrite Nat2Z.id, length_take, length_drop, Nat.min_l, (Nat.min_l n) by lia. f_equal. unfold partial.
  rewrite take_app_le by (rewrite length_take; lia). rewrite take_take, Nat.min_id, take_take, Nat.min_id.
  rewrite drop_app_ge by (rewrite length_take; lia). rewrite length_take, drop_replicate, app_assoc, take_take_drop.
  f_equal. f_equal. lia.
Qed.

Lemma cut_fragment_ok limits id payload position frame stop :
  cut_fragment limits id payload position = Ok (frame, stop) ->
  exists o n, position = Z.of_nat o /\ stop = Z.of_nat (o + n) /\ (0 < n /\ o + n <= length payload)%nat /\
    (id = 0 -> o = 0%nat /\ n = length payload) /\
    frame = fragment_bytes id (len payload) position (take n (drop o payload)) /\ len frame <= MaxFrameBytes limits.
Proof.
  unfold cut_fragment. cbn zeta. set (e := Z.min _ _). intros H. inv_result H. injection H as <- <-.
  unfold slice in Hm. destruct (_ || _) eqn:E; [done|]. breflect. injection Hm as <-.
  apply encode_fragment_ok in Hm0 as (_ & H2 & H3 & H4 & -> & H6).
  rewrite length_take, length_drop in *. exists (Z.to_nat position), (Z.to_nat (e - position)). split_and!; try done; try lia.
Qed.

Section transport.
Context (limits peer : Limits).
Let L := normalizeLimits peer.
Hypothesis Hrange : limits_in_range L.
Hypothesis Hframe : MaxFrameBytes limits <= MaxFrameBytes L.

(** A message the peer admits. *)
Definition admitted (p : gostring) : Prop := len p <= MaxMessageBytes L /\ len p <= MaxInFlightBytes L.

Definition lane_admitted (l : lane) : Prop := match l with Control p => admitted p | DataLane p => admitted p end.

(** The reader has received what the writer has sent. *)
Definition synchronized (w : writer) (r : reader) : Prop :=
  0 <= writer_messageID w < 2 ^ 64 /\
  match writer_current w with
  | None => writer_offset w = 0 /\ r = mkReader empty_assembly (writer_messageID w)
  | Some p => exists o, writer_offset w = Z.of_nat o /\ (0 < o < length p)%nat /\ admitted p /\ 1 <= writer_messageID w /\
      r = mkReader (mkAssembly (writer_messageID w) (Some (partial p o)) (Z.of_nat o)) (writer_messageID w - 1)
  end.

Lemma append_data r id p o n :
  select_assembly r (mkFragment id (len p) (Z.of_nat o) (take n (drop o p))) = Ok (id, partial p o, Z.of_nat o) ->
  1 <= id -> (0 < n /\ o + n <= length p)%nat -> len p < 2 ^ 63 ->
  append r (mkFragment id (len p) (Z.of_nat o) (take n (drop o p))) =
    Ok (if (o + n =? length p)%nat then (Some p, mkReader empty_assembly id)
        else (None, mkReader (mkAssembly id (Some (partial p (o + n))) (Z.of_nat (o + n))) (reader_previousID r))).
Proof.
  intros Hs Hid Hn Hp. unfold append. cbn [fragment_messageID].
  rewrite (proj2 (Z.eqb_neq id 0)) by lia. rewrite Hs. cbn [result_bind fragment_offset fragment_data].
  rewrite u64_id, Z.eqb_refl by lia. cbn [negb guard_err result_bind]. rewrite copy_partial by lia. cbn [result_bind].
  rewrite partial_length by lia. rewrite length_take, length_drop, Nat.min_l by lia. rewrite <- Nat2Z.inj_add.
  destruct (Nat.eqb_spec (o + n) (length p)) as [E|E].
  - rewrite E, Z.eqb_refl. cbn [negb]. by rewrite partial_full.
  - rewrite (proj2 (Z.eqb_neq _ _)) by lia. done.
Qed.

Lemma write_read_step w r l frame w' message :
  synchronized w r -> lane_admitted l -> write_step limits w l = Ok (frame, w', message) ->
  exists f r', decodeEndpointFragment frame peer = Ok f /\ append r f = Ok (message, r') /\ synchronized w' r'.
Proof.
  intros Hsync Hl H. destruct Hrange as (RF & RM & RI). destruct l as [p|next]; cbn [write_step lane_admitted] in *.
  - inv_result H. injection H as <- <- <-. destruct a as [frame stop]. apply cut_fragment_ok in Hm as (o & n & E1 & E2 & Hn & H0 & -> & Hfl).
    destruct (H0 eq_refl) as [-> ->]. rewrite drop_0, firstn_all in *. destruct Hl as [Hl1 Hl2].
    exists (mkFragment 0 (len p) 0 p), r. cbn [fst]. split; [|split; [|done]].
    + apply (decode_fragment_bytes peer (mkFragment 0 (len p) 0 p)); [done| |unfold bytes_of; cbn [fragment_messageID fragment_total fragment_offset fragment_data]; fold L; lia].
      fold L. split; [done|]. cbn [fragment_messageID fragment_total fragment_offset fragment_data]. lia.
    + unfold append. cbn. by rewrite Z.eqb_refl.
  - set (p := default next (writer_current w)) in *. inv_result H. destruct a. apply guard_err_ok in Hm.
    destruct a0 as [frame' stop]. cbn [fst snd] in H. set (id := if writer_offset w =? 0 then _ else _) in *.
    apply cut_fragment_ok in Hm0 as (o & n & E1 & -> & Hn & _ & -> & Hfl).
    assert (admitted p /\ 1 <= id < 2 ^ 64 /\ reader_previousID r = id - 1 /\
      select_assembly r (mkFragment id (len p) (Z.of_nat o) (take n (drop o p))) = Ok (id, partial p o, Z.of_nat o)) as (Hp & Hid & Hprev & Hsel).
    { destruct Hsync as [Hr Hsync]. subst id p. destruct (writer_current w) as [p|]; cbn [default from_option id] in *.
      - destruct Hsync as (o' & Eo & Ho' & Hp & Hpos & ->). assert (o = o') as -> by lia. rewrite Eo, (proj2 (Z.eqb_neq _ 0)) in * by lia.
        split; [done|]. split; [lia|]. split; [done|]. unfold select_assembly.
        cbn [reader_assembly assembly_data assembly_messageID assembly_received fragment_messageID fragment_total].
        rewrite partial_length by lia. by rewrite !Z.eqb_refl.
      - destruct Hsync as [Eo ->]. assert (o = 0%nat) as -> by lia. rewrite Eo in *. cbn [Z.eqb andb] in *. breflect.
        split; [done|]. split; [lia|]. cbn [reader_previousID]. split; [lia|]. unfold select_assembly.
        cbn [reader_assembly empty_assembly assembly_data fragment_offset fragment_messageID fragment_total reader_previousID].
        rewrite u64_id, !Z.eqb_refl by lia. cbn [negb orb guard_err result_bind Z.of_nat Z.eqb]. destruct Hl. unfold make_bytes.
        rewrite i64_id, (proj2 (Z.ltb_ge _ 0)) by lia. cbn [result_bind]. rewrite Nat2Z.id. unfold partial. rewrite Nat.sub_0_r. done. }
    destruct Hp as [Hp1 Hp2]. exists (mkFragment id (len p) (Z.of_nat o) (take n (drop o p))).
    pose proof (append_data r id p o n Hsel ltac:(lia) Hn ltac:(lia)) as Happ.
    assert (decodeEndpointFragment (fragment_bytes id (len p) (writer_offset w) (take n (drop o p))) peer
      = Ok (mkFragment id (len p) (Z.of_nat o) (take n (drop o p)))) as Hdec.
    { rewrite E1 in *. apply (decode_fragment_bytes peer (mkFragment id (len p) (Z.of_nat o) (take n (drop o p)))); [done| |unfold bytes_of; cbn [fragment_messageID fragment_total fragment_offset fragment_data]; fold L; lia].
      fold L. unfold fragment_valid, uint64_ok. cbn [fragment_messageID fragment_total fragment_offset fragment_data]. rewrite length_take, length_drop. lia. }
    destruct (Nat.eqb_spec (o + n) (length p)) as [E|E].
    + rewrite E, Z.eqb_refl in H. injection H as <- <- <-. eexists. split; [exact Hdec|]. split; [exact Happ|].
      split; [cbn; lia|]. cbn. done.
    + rewrite (proj2 (Z.eqb_neq _ _)) in H by lia. injection H as <- <- <-. eexists. split; [exact Hdec|]. split; [exact Happ|].
      split; [cbn; lia|]. cbn [writer_current writer_messageID writer_offset]. exists (o + n)%nat. rewrite Hprev.
      split; [done|]. split; [lia|]. split; [done|]. split; [lia|done].
Qed.

Lemma write_read_loop w r lanes frames w' messages :
  synchronized w r -> Forall lane_admitted lanes -> write_loop limits w lanes = Ok (frames, w', messages) ->
  exists r', read_loop peer r frames = Ok (messages, r') /\ synchronized w' r'.
Proof.
  revert w r frames messages. induction lanes as [|l lanes IH]; intros w r frames messages Hsync Hl H; cbn [write_loop] in H.
  { injection H as <- <- <-. by exists r. }
  inversion Hl as [|? ? Hl1 Hl2]; subst. inv_result H. destruct a as [[frame w1] message]. inv_result H.
  destruct a as [[frames' w2] messages']. injection H as <- <- <-.
  destruct (write_read_step _ _ _ _ _ _ Hsync Hl1 Hm) as (f & r1 & Hd & Ha & Hsync1).
  destruct (IH _ _ _ _ Hsync1 Hl2 Hm0) as (r2 & Hr & Hsync2). exists r2. split; [|done].
  cbn [read_loop]. rewrite Hd. cbn [result_bind]. rewrite Ha. cbn [result_bind snd fst]. by rewrite Hr.
Qed.
End transport.

(** ** Lemmas: the reader is safe on any input *)

Definition reader_ok (L : Limits) (r : reader) : Prop :=
  match assembly_data (reader_assembly r) with
  | None => True
  | Some data => 0 <= assembly_received (reader_assembly r) <= len data /\ len data <= MaxMessageBytes L
  end.

(** A computation that does not panic, and what holds of its value. *)
Definition not_panic {A} (m : result fragment_error A) (P : A -> Prop) : Prop :=
  match m with Ok a => P a | Err e => e <> Panic end.

Lemma not_panic_bind {A B} (m : result fragment_error A) (k : A -> result fragment_error B) (P : A -> Prop) (Q : B -> Prop) :
  not_panic m P -> (forall a, P a -> not_panic (k a) Q) -> not_panic (result_bind m k) Q.
Proof. destruct m; cbn; auto. Qed.

Lemma not_panic_guard c e : e <> Panic -> not_panic (guard_err c e) (fun _ => c = false).
Proof. by destruct c. Qed.

Lemma not_panic_or_error {A} (m : result wire_error A) e : e <> Panic -> not_panic (or_error m e) (fun _ => True).
Proof. by destruct m. Qed.

Ltac no_panic :=
  repeat first
    [ done
    | eapply not_panic_bind;
        [first [apply not_panic_guard; discriminate | apply not_panic_or_error; discriminate | eassumption]|intros ? _] ].

Lemma read_header_not_panic d : not_panic (read_header d) (fun _ => True).
Proof. unfold read_header. no_panic. Qed.

Lemma decode_not_panic frame limits : not_panic (decodeEndpointFragment frame limits) (fun _ => True).
Proof.
  unfold decodeEndpointFragment. cbn zeta.
  pose proof (read_header_not_panic (newWireDecoder frame (MaxFrameBytes (normalizeLimits limits)))). no_panic.
Qed.

Lemma select_assembly_safe L r f :
  limits_in_range L -> reader_ok L r -> fragment_valid L f ->
  not_panic (select_assembly r f) (fun x => 0 <= snd x <= len (snd (fst x)) /\ len (snd (fst x)) = fragment_total f).
Proof.
  intros (_ & HM & _) Hr (_ & Ht & _). unfold select_assembly, reader_ok in *. destruct (assembly_data _) as [data|].
  - eapply not_panic_bind; [by apply not_panic_guard|]. intros ? E. cbn beta in E. breflect. cbn. lia.
  - eapply not_panic_bind; [by apply not_panic_guard|]. intros ? E. cbn beta in E. unfold make_bytes.
    rewrite i64_id, (proj2 (Z.ltb_ge _ 0)) by lia. cbn. rewrite length_replicate. lia.
Qed.

Lemma append_safe L r f :
  limits_in_range L -> reader_ok L r -> fragment_valid L f ->
  not_panic (append r f) (fun x => reader_ok L (snd x) /\
    match fst x with Some m => 0 < len m <= MaxMessageBytes L | None => True end).
Proof.
  intros HL Hr Hf. pose proof (select_assembly_safe L r f HL Hr Hf) as Hsel. destruct Hf as (_ & Ht & _ & Ho & Hd & Hc).
  unfold append. destruct (fragment_messageID f =? 0) eqn:E0; breflect.
  - eapply not_panic_bind; [by apply not_panic_guard|]. intros ? E. cbn beta in E. breflect. cbn. split; [done|]. lia.
  - eapply not_panic_bind; [exact Hsel|]. intros [[id data] received] [Hrec Hlen]. cbn [fst snd] in *.
    eapply not_panic_bind; [by apply not_panic_guard|]. intros ? E. cbn beta in E. breflect. destruct HL as (_ & HM & _). rewrite u64_id in E by lia.
    unfold copy_at. rewrite (proj2 (Z.ltb_ge _ 0)), (proj2 (Z.ltb_ge _ _)) by lia. cbn [orb result_bind].
    set (n := Nat.min _ _). set (data' := take _ data ++ _).
    assert (length data' = length data) as Hl'.
    { unfold data'. rewrite !length_app, !length_take, length_drop. unfold n. lia. }
    rewrite Hl'. destruct (_ =? _) eqn:Efull; cbn [negb not_panic fst snd]; breflect.
    + split; [done|]. lia.
    + split; [|done]. unfold reader_ok. cbn [reader_assembly assembly_data assembly_received]. lia.
Qed.

Lemma read_loop_safe peer r frames :
  limits_in_range (normalizeLimits peer) -> reader_ok (normalizeLimits peer) r ->
  not_panic (read_loop peer r frames) (fun x => reader_ok (normalizeLimits peer) (snd x) /\
    Forall (fun m => 0 < len m <= MaxMessageBytes (normalizeLimits peer)) (fst x)).
Proof.
  intros HL. revert r. induction frames as [|frame frames IH]; intros r Hr; cbn [read_loop]; [by split|].
  apply (not_panic_bind _ _ (fragment_valid (normalizeLimits peer))).
  { pose proof (decode_not_panic frame peer) as Hd. destruct (decodeEndpointFragment frame peer) as [f|e] eqn:E; [|done].
    by apply decode_fragment_inv in E as (Hf & _). }
  intros f Hf. eapply not_panic_bind; [by apply append_safe|]. intros [message r1] [Hr1 Hm]. cbn [fst snd] in *.
  eapply not_panic_bind; [by apply IH|]. intros [messages r2] [Hr2 Hms]. cbn [fst snd not_panic] in *.
  split; [done|]. destruct message; [by constructor|done].
Qed.

(** ** Lemmas: the writer makes progress *)

Section progress.
Context (limits : Limits) (p : gostring) (id : Z).
Let c := MaxFrameBytes limits - maxFragmentHeaderBytes.
Hypothesis Hc : 0 < c.

Lemma fragment_bytes_length i total offset data : len (fragment_bytes i total offset data) <= maxFragmentHeaderBytes + len data.
Proof.
  unfold fragment_bytes. rewrite !length_app. unfold put_Uint, maxFragmentHeaderBytes.
  pose proof (AppendUvarint_length i). pose proof (AppendUvarint_length (u64 total)). pose proof (AppendUvarint_length (u64 offset)).
  unfold MaxVarintLen64. cbn [length]. lia.
Qed.

Lemma cut_fragment_total i o :
  (o < length p)%nat -> (i = 0 -> o = 0%nat /\ len p <= c) ->
  exists frame, cut_fragment limits i p (Z.of_nat o) = Ok (frame, Z.min (Z.of_nat o + c) (len p)).
Proof.
  intros Ho Hi. unfold cut_fragment. cbn zeta. replace (Z.of_nat o + MaxFrameBytes limits - maxFragmentHeaderBytes) with (Z.of_nat o + c) by lia.
  set (e := Z.min _ _). unfold slice. rewrite !(proj2 (Z.ltb_ge _ _)) by lia. cbn [orb result_bind].
  set (data := take _ _). assert (len data = e - Z.of_nat o) as Hd by (unfold data; rewrite length_take, length_drop; lia).
  pose proof (fragment_bytes_length i (len p) (Z.of_nat o) data) as Hlen.
  rewrite (proj2 (encode_fragment_ok i (len p) (Z.of_nat o) data (MaxFrameBytes limits) (fragment_bytes i (len p) (Z.of_nat o) data))); [by eexists|].
  split_and!; [lia|lia|lia|lia| |reflexivity|lia]. intros E. destruct (Hi E). lia.
Qed.

(** The writer about to send the fragment of [p] at offset [o]. *)
Definition sending (w : writer) (o : nat) : Prop :=
  writer_offset w = Z.of_nat o /\
  (writer_current w = None /\ o = 0%nat /\ writer_messageID w + 1 = id \/
   writer_current w = Some p /\ (0 < o)%nat /\ writer_messageID w = id).

Lemma send_step w o :
  sending w o -> (o < length p)%nat -> 0 < id < 2 ^ 64 ->
  exists frame w' message, write_step limits w (DataLane p) = Ok (frame, w', message) /\
    if len p <=? Z.of_nat o + c then w' = mkWriter id None 0 /\ message = Some p
    else sending w' (o + Z.to_nat c) /\ message = None.
Proof.
  intros [Eo Hw] Ho Hid. cbn [write_step]. destruct (cut_fragment_total id o Ho ltac:(lia)) as (frame & Hcut).
  assert (default p (writer_current w) = p) as -> by (by destruct Hw as [(-> & _)|(-> & _)]).
  assert ((if writer_offset w =? 0 then writer_messageID w + 1 else writer_messageID w) = id) as ->.
  { rewrite Eo. destruct Hw as [(_ & -> & E)|(_ & H0 & E)]; [done|]. by rewrite (proj2 (Z.eqb_neq _ 0)) by lia. }
  assert ((writer_offset w =? 0) && (writer_messageID w =? 2 ^ 64 - 1) = false) as ->.
  { apply andb_false_iff. rewrite Eo, !Z.eqb_neq. destruct Hw as [(_ & _ & E)|(_ & H0 & E)]; lia. }
  cbn [guard_err result_bind]. rewrite Eo, Hcut. cbn [result_bind fst snd].
  destruct (len p <=? Z.of_nat o + c) eqn:E; breflect.
  - rewrite Z.min_r, Z.eqb_refl by lia. by do 3 eexists.
  - rewrite Z.min_l, (proj2 (Z.eqb_neq _ _)) by lia. do 3 eexists. split; [done|]. split; [|done].
    split; cbn [writer_offset writer_current writer_messageID]; [lia|]. right. split; [done|]. lia.
Qed.

Lemma send_loop k w o :
  sending w o -> 0 < id < 2 ^ 64 -> Z.of_nat k * c < len p - Z.of_nat o <= Z.of_nat (S k) * c ->
  exists frames, write_loop limits w (replicate (S k) (DataLane p)) = Ok (frames, mkWriter id None 0, [p]) /\ length frames = S k.
Proof.
  revert w o. induction k as [|k IH]; intros w o Hw Hid Hk.
  - destruct (send_step w o Hw ltac:(lia) Hid) as (frame & w' & message & Hs & H). rewrite (proj2 (Z.leb_le _ _)) in H by lia.
    destruct H as [-> ->]. exists [frame]. split; [|done]. cbn [replicate write_loop]. by rewrite Hs.
  - destruct (send_step w o Hw ltac:(nia) Hid) as (frame & w' & message & Hs & H). rewrite (proj2 (Z.leb_gt _ _)) in H by nia.
    destruct H as [Hw' ->]. destruct (IH w' (o + Z.to_nat c)%nat Hw' Hid ltac:(nia)) as (frames & Hf & Hl).
    exists (frame :: frames). split; [|cbn; lia]. change (replicate (S (S k)) (DataLane p)) with (DataLane p :: replicate (S k) (DataLane p)).
    cbn [write_loop]. rewrite Hs. cbn [result_bind]. by rewrite Hf.
Qed.
End progress.

(** ** Properties *)

(** The fragment codec is exact: a reader accepts precisely the encodings of the fragments
    within its limits, returns their fields, and re-encoding an accepted fragment gives the same
    bytes. *)
Theorem fragment_codec_exact peer :
  let L := normalizeLimits peer in
  limits_in_range L ->
  (forall f, fragment_valid L f -> len (bytes_of f) <= MaxFrameBytes L -> decodeEndpointFragment (bytes_of f) peer = Ok f) /\
  (forall payload f, decodeEndpointFragment payload peer = Ok f ->
     fragment_valid L f /\
     encodeEndpointFragmentTo (fragment_messageID f) (fragment_total f) (fragment_offset f) (fragment_data f) (MaxFrameBytes L)
       = Ok payload).
Proof.
  cbn zeta. intros HL. split; [intros f Hf Hl; by apply decode_fragment_bytes|].
  intros payload f H. apply decode_fragment_inv in H as (Hf & -> & Hl); [|done]. split; [done|].
  destruct Hf as (_ & H1 & _ & H3 & H4 & H5). apply encode_fragment_ok. repeat split; try lia; by apply H5.
Qed.

Lemma fragment_codec_exact_witness :
  decodeEndpointFragment (bytes_of (mkFragment 3 10 4 [1; 2])) zero_limits = Ok (mkFragment 3 10 4 [1; 2]).
Proof.
  destruct (fragment_codec_exact zero_limits) as [H _]; [repeat split; vm_compute; congruence|].
  apply H; [|vm_compute; congruence]. unfold fragment_valid, uint64_ok. cbn [fragment_messageID fragment_total fragment_offset fragment_data].
  split_and!; solve [intros E; discriminate E | vm_compute; congruence].
Defined.

(** C34. Transport refinement: whatever order the writer serves its control and data lanes in, a
    peer whose limits admit the messages and frames reassembles, from the frames in the order they
    were sent, exactly the messages the writer completed, in the order it completed them, without
    an error; afterwards both ends agree on the message in progress.  The limits of the writer are
    the same throughout the run. *)
Theorem transport_delivers limits peer lanes frames w messages :
  limits_in_range (normalizeLimits peer) -> MaxFrameBytes limits <= MaxFrameBytes (normalizeLimits peer) ->
  Forall (lane_admitted peer) lanes -> write_loop limits empty_writer lanes = Ok (frames, w, messages) ->
  exists r, read_loop peer empty_reader frames = Ok (messages, r) /\ synchronized peer w r.
Proof.
  intros HL Hf Hl H. eapply (write_read_loop limits peer HL Hf empty_writer empty_reader); [|done|done].
  split; [cbn; lia|]. done.
Qed.

(** Two data messages with a control message between the fragments of the first. *)
Definition sample_lanes : list lane :=
  let big := replicate 300 7 in
  [DataLane big; Control [1; 2; 3]; DataLane big; DataLane [9]].

Definition small_frames : Limits := mkLimits 256 0 0 0 0 0 0 0 0 0 0.

Lemma transport_delivers_witness :
  exists frames w r, write_loop small_frames empty_writer sample_lanes = Ok (frames, w, [[1; 2; 3]; replicate 300 7; [9]]) /\
    read_loop zero_limits empty_reader frames = Ok ([[1; 2; 3]; replicate 300 7; [9]], r).
Proof.
  destruct (write_loop small_frames empty_writer sample_lanes) as [[[frames w] messages]|] eqn:E; [|by vm_compute in E].
  assert (messages = [[1; 2; 3]; replicate 300 7; [9]]) as -> by (vm_compute in E; by injection E as <- <- <-).
  destruct (transport_delivers small_frames zero_limits sample_lanes frames w [[1; 2; 3]; replicate 300 7; [9]]) as (r & H & _).
  - repeat split; vm_compute; congruence.
  - vm_compute. congruence.
  - repeat constructor; vm_compute; congruence.
  - exact E.
  - exists frames, w, r. split; [reflexivity|exact H].
Defined.

(** The reader is safe on arbitrary input: no sequence of received frames makes reassembly
    index out of range, and every message it delivers is non-empty and within the message limit. *)
Theorem reader_safe peer frames :
  limits_in_range (normalizeLimits peer) ->
  match read_loop peer empty_reader frames with
  | Ok (messages, _) => Forall (fun m => 0 < len m <= MaxMessageBytes (normalizeLimits peer)) messages
  | Err e => e <> Panic
  end.
Proof.
  intros HL. pose proof (read_loop_safe peer empty_reader frames HL I) as H.
  destruct (read_loop peer empty_reader frames) as [[messages r]|e]; [by destruct H|done].
Qed.

Lemma reader_safe_witness :
  match read_loop zero_limits empty_reader [lit "MGRF"; [1; 2; 3]] with
  | Ok (messages, _) => Forall (fun m => 0 < len m <= MaxMessageBytes (normalizeLimits zero_limits)) messages
  | Err e => e <> Panic
  end.
Proof. apply (reader_safe zero_limits). repeat split; vm_compute; congruence. Defined.

(** The writer makes progress: serving the data lane sends any non-empty message completely
    in exactly as many frames as it has chunks of the frame size less the header, and a control
    message that fits one frame is sent at once. *)
Theorem writer_progress limits w p :
  maxFragmentHeaderBytes < MaxFrameBytes limits -> p <> [] ->
  writer_current w = None -> writer_offset w = 0 -> 0 <= writer_messageID w < 2 ^ 64 - 1 ->
  let c := MaxFrameBytes limits - maxFragmentHeaderBytes in
  let n := S (Z.to_nat ((len p - 1) / c)) in
  (exists frames, write_loop limits w (replicate n (DataLane p)) = Ok (frames, mkWriter (writer_messageID w + 1) None 0, [p]) /\
     length frames = n) /\
  (len p <= c -> exists frame, write_step limits w (Control p) = Ok (frame, w, Some p)).
Proof.
  intros Hc Hp Hcur Hoff Hid. cbn zeta. set (c := MaxFrameBytes limits - maxFragmentHeaderBytes).
  assert (0 < len p) as Hlen by (destruct p; [done|cbn [length]; lia]).
  destruct (div_mod_pos (len p - 1) c ltac:(lia)) as [Hdm Hmod].
  assert (0 <= (len p - 1) / c) as Hq by (apply Z.div_pos; lia). split.
  - apply (send_loop limits p (writer_messageID w + 1) ltac:(lia) _ w 0); [|lia|nia].
    split; [done|]. left. done.
  - intros Hfit. destruct (cut_fragment_total limits p ltac:(lia) 0 0 ltac:(lia) ltac:(done)) as (frame & Hcut).
    exists frame. cbn [write_step]. change (Z.of_nat 0) with 0 in Hcut. rewrite Hcut. done.
Qed.

Lemma writer_progress_witness :
  exists frames, write_loop small_frames empty_writer (replicate 2 (DataLane (replicate 300 7))) = Ok (frames, mkWriter 1 None 0, [replicate 300 7]) /\
     length frames = 2%nat.
Proof.
  apply (writer_progress small_frames empty_writer (replicate 300 7)); try done; cbn; lia.
Defined.
