(* ===== verification/TaskOwnership.v ===== *)
(** * Task ownership (src/runtime/task_ownership.go)

    The dispatch state of a task and its wait tickets.  Every method runs under the ownership's
    mutex, so an execution is a sequence of whole methods, in any order and by any caller: the
    step relation below.  A ticket is an object whose identity distinguishes successive waits; it
    is an address of a store that maps it to its [notified] flag.  A Go panic is [None]. *)

From S2P Require Import Prelude.

(** ** State *)

Inductive taskDispatchState : Type :=
| taskDetached | taskQueued | taskRunning | taskParking | taskWaiting | taskTerminal.

#[export] Instance taskDispatchState_eq_dec : EqDecision taskDispatchState.
Proof. solve_decision. Defined.

Abbreviation ticket := N.

Record taskOwnership : Type := mkOwnership {
  state : taskDispatchState;
  wait : option ticket;
  tickets : gmap ticket bool
}.

Definition newOwnership : taskOwnership := mkOwnership taskDetached None ∅.

Definition in_state (o : taskOwnership) (states : list taskDispatchState) : bool := bool_decide (state o ∈ states).

Definition with_state (o : taskOwnership) (s : taskDispatchState) : taskOwnership := mkOwnership s (wait o) (tickets o).

(** ** Methods *)

Definition enqueue (o : taskOwnership) : bool * taskOwnership :=
  if negb (in_state o [taskDetached]) then (false, o) else (true, with_state o taskQueued).

Definition acquire (o : taskOwnership) : bool * taskOwnership :=
  if negb (in_state o [taskQueued]) then (false, o) else (true, with_state o taskRunning).

(** The address of a new ticket is fresh. *)
Definition new_ticket (o : taskOwnership) : ticket := fresh (dom (tickets o)).

Definition beginWait (o : taskOwnership) : option (ticket * taskOwnership) :=
  if negb (in_state o [taskRunning]) then None
  else
    let t := new_ticket o in
    Some (t, mkOwnership taskParking (Some t) (<[t := false]> (tickets o))).

Definition relinquish (o : taskOwnership) : option taskOwnership :=
  match state o with
  | taskRunning => Some (with_state o taskDetached)
  | taskParking => Some (with_state o taskWaiting)
  | _ => None
  end.

(** [ownership.wait != ticket] for a ticket that may be nil. *)
Definition waits_for (o : taskOwnership) (t : option ticket) : bool :=
  match t with None => false | Some _ => bool_decide (wait o = t) end.

Definition notify (t : option ticket) (o : taskOwnership) : bool * taskOwnership :=
  match t with
  | Some t' =>
      if negb (waits_for o t) || negb (in_state o [taskParking; taskWaiting]) then (false, o)
      else (true, mkOwnership (state o) (wait o) (<[t' := true]> (tickets o)))
  | None => (false, o)
  end.

Definition resume (t : option ticket) (o : taskOwnership) : bool * taskOwnership :=
  if negb (waits_for o t) || negb (in_state o [taskWaiting]) then (false, o)
  else (true, mkOwnership taskDetached None (tickets o)).

Definition notified (t : option ticket) (o : taskOwnership) : bool :=
  match t with
  | Some t' => waits_for o t && default false (tickets o !! t') && in_state o [taskWaiting]
  | None => false
  end.

Definition terminal (o : taskOwnership) : bool := in_state o [taskTerminal].

Definition terminate (o : taskOwnership) : option (bool * taskOwnership) :=
  if in_state o [taskTerminal] then Some (false, o)
  else if in_state o [taskRunning; taskParking] then None
  else Some (true, mkOwnership taskTerminal None (tickets o)).

(** ** Executions *)

Inductive action : Type :=
| Enqueue (accepted : bool)
| Acquire (accepted : bool)
| BeginWait (t : ticket)
| Relinquish
| Notify (t : option ticket) (accepted : bool)
| Resume (t : option ticket) (accepted : bool)
| Terminate (accepted : bool).

#[export] Instance action_eq_dec : EqDecision action.
Proof. solve_decision. Defined.

Inductive step : taskOwnership -> action -> taskOwnership -> Prop :=
| step_enqueue o b o' : enqueue o = (b, o') -> step o (Enqueue b) o'
| step_acquire o b o' : acquire o = (b, o') -> step o (Acquire b) o'
| step_begin o t o' : beginWait o = Some (t, o') -> step o (BeginWait t) o'
| step_relinquish o o' : relinquish o = Some o' -> step o Relinquish o'
| step_notify o t b o' : notify t o = (b, o') -> step o (Notify t b) o'
| step_resume o t b o' : resume t o = (b, o') -> step o (Resume t b) o'
| step_terminate o b o' : terminate o = Some (b, o') -> step o (Terminate b) o'.

Inductive run : taskOwnership -> list action -> taskOwnership -> Prop :=
| run_nil o : run o [] o
| run_cons o a o1 l o2 : step o a o1 -> run o1 l o2 -> run o (a :: l) o2.

Lemma run_app o l1 o1 l2 o2 : run o l1 o1 -> run o1 l2 o2 -> run o (l1 ++ l2) o2.
Proof. induction 1; intros; [done|]. cbn. econstructor; eauto. Qed.

(** ** Invariants *)

(** The task holds a ticket exactly while it parks or waits, and the ticket is allocated. *)
Definition ownership_ok (o : taskOwnership) : Prop :=
  match state o with
  | taskParking | taskWaiting => exists t, wait o = Some t /\ is_Some (tickets o !! t)
  | _ => wait o = None
  end.

(** Who holds the execution lease. *)
Definition leased (o : taskOwnership) : bool := in_state o [taskRunning; taskParking].

Lemma in_state_spec o states : in_state o states = true <-> state o ∈ states.
Proof. unfold in_state. apply bool_decide_eq_true. Qed.

Lemma waits_for_spec o t : waits_for o t = true <-> exists t', t = Some t' /\ wait o = Some t'.
Proof.
  unfold waits_for. destruct t as [t'|]; [rewrite bool_decide_eq_true|]; split.
  - intros H. by exists t'.
  - intros (x & E & H). by injection E as ->.
  - done.
  - by intros (x & E & _).
Qed.

Lemma step_ok o a o' : step o a o' -> ownership_ok o -> ownership_ok o'.
Proof.
  intros Hs Hok. destruct Hs as [o b o' H|o b o' H|o t o' H|o o' H|o t b o' H|o t b o' H|o b o' H].
  - unfold enqueue in H. destruct o as [[] w ts]; cbn in H; injection H as <- <-; done.
  - unfold acquire in H. destruct o as [[] w ts]; cbn in H; injection H as <- <-; done.
  - unfold beginWait in H. destruct o as [[] w ts]; cbn in H; try done. injection H as <- <-.
    exists (fresh (dom ts)). split; [done|]. cbn. rewrite lookup_insert_eq. by eexists.
  - unfold relinquish in H. destruct o as [[] w ts]; cbn in H; try done; injection H as <-; done.
  - unfold notify in H. destruct t as [t|]; [|by injection H as <- <-].
    destruct (negb (waits_for o (Some t)) || _) eqn:E; [by injection H as <- <-|]. injection H as <- <-.
    unfold ownership_ok in *. cbn. destruct (state o); try done; destruct Hok as (t' & Hw & Ht'); exists t'; (split; [done|]);
      (destruct (decide (t = t')) as [->|]; [rewrite lookup_insert_eq; by eexists|by rewrite lookup_insert_ne]).
  - unfold resume in H. destruct (_ || _); [by injection H as <- <-|]. by injection H as <- <-.
  - unfold terminate in H. destruct o as [[] w ts]; cbn in H; try done; by injection H as <- <-.
Qed.

Lemma run_ok o l o' : run o l o' -> ownership_ok o -> ownership_ok o'.
Proof. induction 1; [done|]. intros. eauto using step_ok. Qed.

(** ** Lemmas: the lease *)

Definition count (a : action) (l : list action) : Z := Z.of_nat (length (filter (fun x => x = a) l)).

Lemma count_cons a x l : count a (x :: l) = (if decide (x = a) then 1 else 0) + count a l.
Proof. unfold count. rewrite filter_cons. case_decide; cbn [length]; lia. Qed.

Definition lease (o : taskOwnership) : Z := if leased o then 1 else 0.

Lemma step_lease o a o' :
  step o a o' -> lease o' = lease o + (if decide (a = Acquire true) then 1 else 0) - (if decide (a = Relinquish) then 1 else 0).
Proof.
  intros Hs. destruct Hs as [o b o' H|o b o' H|o t o' H|o o' H|o t b o' H|o t b o' H|o b o' H].
  - unfold enqueue in H. destruct o as [[] w ts]; cbn in H; injection H as <- <-; done.
  - unfold acquire in H. destruct o as [[] w ts]; cbn in H; injection H as <- <-; done.
  - unfold beginWait in H. destruct o as [[] w ts]; cbn in H; try done. by injection H as <- <-.
  - unfold relinquish in H. destruct o as [[] w ts]; cbn in H; try done; injection H as <-; done.
  - assert (state o' = state o) as E.
    { unfold notify in H. destruct t; [|by injection H as <- <-]. by destruct (_ || _); injection H as <- <-. }
    unfold lease, leased, in_state. rewrite E. rewrite !decide_False by done. lia.
  - unfold resume in H. destruct (_ || negb (in_state o [taskWaiting])) eqn:E; injection H as <- <-.
    + rewrite !decide_False by done. lia.
    + breflect. apply in_state_spec, list_elem_of_singleton in H0. unfold lease, leased, in_state. by rewrite H0.
  - unfold terminate in H. destruct o as [[] w ts]; cbn in H; try done; by injection H as <- <-.
Qed.

Lemma run_lease o l o' :
  run o l o' -> lease o' = lease o + count (Acquire true) l - count Relinquish l.
Proof.
  induction 1 as [o|o a o1 l o2 Hs _ IH]; [unfold count; cbn; lia|].
  apply step_lease in Hs. rewrite !count_cons. lia.
Qed.

(** ** Lemmas: wake-ups *)

(** The task still waits for the ticket and has been notified of it. *)
Definition woken (t : ticket) (o : taskOwnership) : Prop :=
  wait o = Some t /\ tickets o !! t = Some true /\ state o ∈ [taskParking; taskWaiting].

Lemma step_woken t o a o' :
  step o a o' -> woken t o -> a <> Resume (Some t) true -> a <> Terminate true -> woken t o'.
Proof.
  intros Hs (Hw & Ht & Hst) Hr Hte. assert (state o = taskParking \/ state o = taskWaiting) as Hst'
    by (rewrite !elem_of_cons, elem_of_nil in Hst; tauto).
  destruct Hs as [o b o' H|o b o' H|o t' o' H|o o' H|o t' b o' H|o t' b o' H|o b o' H].
  - unfold enqueue, in_state in H. destruct Hst' as [E|E]; rewrite E in H; cbn in H; injection H as <- <-; done.
  - unfold acquire, in_state in H. destruct Hst' as [E|E]; rewrite E in H; cbn in H; injection H as <- <-; done.
  - unfold beginWait, in_state in H. by destruct Hst' as [E|E]; rewrite E in H.
  - unfold relinquish in H. destruct Hst' as [E|E]; rewrite E in H; [|done]. injection H as <-.
    split; [done|]. split; [done|]. right. left.
  - unfold notify in H. destruct t' as [t'|]; [|by injection H as <- <-].
    destruct (_ || _) eqn:E; injection H as <- <-; [done|]. breflect. apply waits_for_spec in H as (x & Ex & Hx).
    injection Ex as <-. assert (t' = t) as -> by congruence. split; [done|]. split; [|done]. cbn. apply lookup_insert_eq.
  - unfold resume in H. destruct (_ || _) eqn:E; injection H as <- <-; [done|]. breflect. apply waits_for_spec in H as (x & -> & Hx).
    exfalso. apply Hr. congruence.
  - unfold terminate, in_state in H. destruct Hst' as [E|E]; rewrite E in H; cbn in H; [done|]. injection H as <- <-. done.
Qed.

Lemma run_woken t o l o' :
  run o l o' -> woken t o -> Resume (Some t) true ∉ l -> Terminate true ∉ l -> woken t o'.
Proof.
  induction 1 as [o|o a o1 l o2 Hs _ IH]; [done|]. intros Hw Hr Ht. rewrite not_elem_of_cons in Hr, Ht.
  destruct Hr as [Hr1 Hr2], Ht as [Ht1 Ht2]. apply IH; [|done|done]. eapply step_woken; eauto.
Qed.

(** A ticket whose wait is over. *)
Definition stale (t : ticket) (o : taskOwnership) : Prop := is_Some (tickets o !! t) /\ wait o <> Some t.

Lemma stale_ignored t o : stale t o -> notify (Some t) o = (false, o) /\ resume (Some t) o = (false, o) /\ notified (Some t) o = false.
Proof.
  intros [_ Hw]. assert (waits_for o (Some t) = false) as E.
  { apply not_true_iff_false. rewrite waits_for_spec. intros (x & Ex & Hx). by injection Ex as <-. }
  unfold notify, resume, notified. by rewrite E.
Qed.

Lemma step_stale t o a o' : step o a o' -> stale t o -> stale t o'.
Proof.
  intros Hs [Ht Hw]. destruct Hs as [o b o' H|o b o' H|o t' o' H|o o' H|o t' b o' H|o t' b o' H|o b o' H].
  - unfold enqueue in H. by destruct (negb _); injection H as <- <-.
  - unfold acquire in H. by destruct (negb _); injection H as <- <-.
  - unfold beginWait in H. destruct (negb _); [done|]. injection H as <- <-. assert (new_ticket o <> t) as Hne.
    { intros <-. apply (is_fresh (dom (tickets o))). by apply elem_of_dom. }
    split; cbn; [by rewrite lookup_insert_ne|congruence].
  - unfold relinquish in H. by destruct (state o); try done; injection H as <-.
  - unfold notify in H. destruct t' as [t'|]; [|by injection H as <- <-]. destruct (_ || _); injection H as <- <-; [done|].
    split; [|done]. cbn. destruct (decide (t' = t)) as [->|]; [rewrite lookup_insert_eq; by eexists|by rewrite lookup_insert_ne].
  - unfold resume in H. destruct (_ || _); injection H as <- <-; [done|]. by split.
  - unfold terminate in H. destruct (in_state o [taskTerminal]); [by injection H as <- <-|].
    destruct (in_state o _); [done|]. injection H as <- <-. by split.
Qed.

Lemma run_stale t o l o' :
  run o l o' -> stale t o -> stale t o' /\ (Notify (Some t) true ∉ l) /\ Resume (Some t) true ∉ l.
Proof.
  induction 1 as [o|o a o1 l o2 Hs _ IH]; intros Ht; [split_and!; [done|apply not_elem_of_nil|apply not_elem_of_nil]|].
  destruct (IH (step_stale _ _ _ _ Hs Ht)) as (H1 & H2 & H3). split; [done|]. rewrite !not_elem_of_cons.
  destruct (stale_ignored t o Ht) as (En & Er & _). split; (split; [|done]); intros <-; inversion Hs; subst; congruence.
Qed.

Lemma resume_stale t o o' : ownership_ok o -> resume (Some t) o = (true, o') -> stale t o'.
Proof.
  unfold resume. intros Hok H. destruct (_ || _) eqn:E; [done|]. injection H as <-. breflect.
  apply waits_for_spec in H as (x & Ex & Hx). injection Ex as <-. apply in_state_spec, list_elem_of_singleton in H0.
  unfold ownership_ok in Hok. rewrite H0 in Hok. destruct Hok as (t' & Ht' & Hs). rewrite Hx in Ht'. injection Ht' as <-.
  by split.
Qed.

(** ** Properties *)

(** C18. Exclusive execution: however the methods interleave, the successful acquisitions of a task's
    lease and its returns alternate, so at most one holder exists, exactly while the task runs or
    parks; a task holds an allocated ticket exactly while it parks or waits; and terminating never
    happens under the lease. *)
Theorem lease_exclusive l o :
  run newOwnership l o ->
  count (Acquire true) l - count Relinquish l = lease o /\ ownership_ok o /\
  (leased o = true <-> state o = taskRunning \/ state o = taskParking) /\
  (leased o = true -> terminate o = None).
Proof.
  intros H. split; [apply run_lease in H; change (lease newOwnership) with 0 in H; lia|].
  split; [by eapply run_ok|]. unfold leased. rewrite in_state_spec, !elem_of_cons, elem_of_nil. split; [tauto|].
  intros [E|[E|[]]]; unfold terminate, in_state; by rewrite E.
Qed.

(** A wait by a task that is notified while it is still parking. *)
Definition sample_run : list action :=
  [Enqueue true; Acquire true; BeginWait 0%N; Notify (Some 0%N) true; Relinquish; Resume (Some 0%N) true; Notify (Some 0%N) false].

Lemma sample_run_runs : run newOwnership sample_run (mkOwnership taskDetached None {[ 0%N := true ]}).
Proof. repeat (eapply run_cons; [constructor; vm_compute; reflexivity|]). apply run_nil. Qed.

Lemma lease_exclusive_witness :
  count (Acquire true) sample_run - count Relinquish sample_run = 0.
Proof. exact (proj1 (lease_exclusive sample_run _ sample_run_runs)). Defined.


