(* ===== verification/Mutex.v ===== *)
(** * Guest mutexes (src/runtime/mutex_intrinsic.go, scheduler_wait.go)

    A mutex is a lock flag, a granted waiter and a singly linked queue of waiters.  The waiters are
    objects that the queue, the grant and the blocked tasks share: they live in a store indexed by
    their address.  The operations run in the scheduler's control transaction, one at a time.
    [chargeAllocationBytes] is a decision of the memory ledger, a parameter [admits] of the bytes
    already charged; the bytes charged are part of the state.  The cell a guest pointer refers to
    holds no resource before the first use. *)

From S2P Require Import Prelude.

(** ** State *)

Abbreviation waiter_id := N.

Record mutexWaiter : Type := mkWaiter { next : option waiter_id; admittedBytes : Z }.

Record mutexResource : Type := mkMutex {
  locked : bool;
  grant : option waiter_id;
  head : option waiter_id;
  tail : option waiter_id
}.

Record mutex_state : Type := mkState {
  cell : option mutexResource;
  waiters : gmap waiter_id mutexWaiter;
  charged : Z
}.

Definition fresh_mutex : mutexResource := mkMutex false None None None.
Definition initial_state : mutex_state := mkState None ∅ 0.

(** [StorageRecordHeaderBytes + StorageDynamicBytes]. *)
Definition waiter_bytes : Z := 16 + 24.

Definition set_resource (r : mutexResource) (s : mutex_state) : mutex_state := mkState (Some r) (waiters s) (charged s).

Definition set_next (w : waiter_id) (n : option waiter_id) (s : mutex_state) : mutex_state :=
  mkState (cell s) (alter (fun x => mkWaiter n (admittedBytes x)) w (waiters s)) (charged s).

Definition next_of (s : mutex_state) (w : waiter_id) : option waiter_id := x ← waiters s !! w; next x.

(** [mutexWaiter.release]. *)
Definition release (w : waiter_id) (s : mutex_state) : mutex_state :=
  match waiters s !! w with
  | Some x =>
      if admittedBytes x =? 0 then s
      else mkState (cell s) (<[w := mkWaiter (next x) 0]> (waiters s)) (charged s - admittedBytes x)
  | None => s
  end.

(** ** Operations *)

(** [mutexState] with [create]: the resource of the cell, created on first use. *)
Definition mutexState (s : mutex_state) : mutexResource := default fresh_mutex (cell s).

Definition grantNext (s : mutex_state) : mutex_state :=
  let r := mutexState s in
  if locked r || bool_decide (is_Some (grant r)) then s
  else
    match head r with
    | None => s
    | Some w =>
        let head' := next_of s w in
        let tail' := match head' with None => None | Some _ => tail r end in
        set_next w None (set_resource (mkMutex (locked r) (Some w) head' tail') s)
    end.

Inductive outcome : Type :=
| Acquired (b : bool)
| Pending (w : waiter_id)
| LimitError
| Done
| GuestPanic.

Definition mutexLock (admits : Z -> bool) (s : mutex_state) : outcome * mutex_state :=
  let r := mutexState s in
  if negb (locked r) && negb (bool_decide (is_Some (grant r)))
  then (Acquired true, set_resource (mkMutex true (grant r) (head r) (tail r)) s)
  else if negb (admits (charged s)) then (LimitError, set_resource r s)
  else
    let w := fresh (dom (waiters s)) in
    let s1 := mkState (Some r) (<[w := mkWaiter None waiter_bytes]> (waiters s)) (charged s + waiter_bytes) in
    match tail r with
    | None => (Pending w, set_resource (mkMutex (locked r) (grant r) (Some w) (Some w)) s1)
    | Some t => (Pending w, set_next t (Some w) (set_resource (mkMutex (locked r) (grant r) (head r) (Some w)) s1))
    end.

Definition mutexTryLock (s : mutex_state) : outcome * mutex_state :=
  let r := mutexState s in
  let acquired := negb (locked r) && negb (bool_decide (is_Some (grant r))) in
  (Acquired acquired, set_resource (mkMutex (locked r || acquired) (grant r) (head r) (tail r)) s).

Definition mutexUnlock (s : mutex_state) : outcome * mutex_state :=
  match cell s with
  | None => (GuestPanic, s)
  | Some r =>
      if negb (locked r) then (GuestPanic, s)
      else (Done, grantNext (set_resource (mkMutex false (grant r) (head r) (tail r)) s))
  end.

(** The walk over the queue that unlinks a waiter. *)
Fixpoint cancel_loop (fuel : nat) (previous queued : option waiter_id) (w : waiter_id) (s : mutex_state) : mutex_state :=
  match fuel, queued with
  | S fuel', Some q =>
      if decide (q = w) then
        let r := mutexState s in
        let after := next_of s q in
        let tail' := if decide (tail r = Some q) then previous else tail r in
        let s1 := match previous with
                  | None => set_resource (mkMutex (locked r) (grant r) after tail') s
                  | Some p => set_next p after (set_resource (mkMutex (locked r) (grant r) (head r) tail') s)
                  end in
        release q (set_next q None s1)
      else cancel_loop fuel' (Some q) (next_of s q) w s
  | _, _ => s
  end.

Definition cancel_fuel (s : mutex_state) : nat := S (size (waiters s)).

Definition cancel (w : waiter_id) (s : mutex_state) : mutex_state :=
  let r := mutexState s in
  if decide (grant r = Some w) then
    grantNext (release w (set_resource (mkMutex (locked r) None (head r) (tail r)) s))
  else cancel_loop (cancel_fuel s) None (head r) w s.

(** The mutex case of [resumeBlocked]: a granted waiter becomes the holder when it continues. *)
Definition resume_mutex (w : waiter_id) (s : mutex_state) : outcome * mutex_state :=
  let r := mutexState s in
  if negb (bool_decide (grant r = Some w)) then (Acquired false, s)
  else (Acquired true, release w (set_resource (mkMutex true None (head r) (tail r)) s)).

Inductive operation : Type :=
| Lock (admits : bool)
| TryLock
| Unlock
| Resume (w : waiter_id)
| Cancel (w : waiter_id).

Definition execute (op : operation) (s : mutex_state) : outcome * mutex_state :=
  match op with
  | Lock admits => mutexLock (fun _ => admits) s
  | TryLock => mutexTryLock s
  | Unlock => mutexUnlock s
  | Resume w => resume_mutex w s
  | Cancel w => (Done, cancel w s)
  end.

(** ** The abstract lock: a holder flag, a granted waiter, and a queue in order of arrival *)

Record lock : Type := mkLock { held : bool; granted : option waiter_id; queue : list waiter_id }.

Definition free_lock : lock := mkLock false None [].

Definition grant_front (l : lock) : lock :=
  match queue l with
  | w :: rest => if held l || bool_decide (is_Some (granted l)) then l else mkLock false (Some w) rest
  | [] => l
  end.

Definition available (l : lock) : bool := negb (held l) && negb (bool_decide (is_Some (granted l))).

Inductive lock_step : lock -> operation -> outcome -> lock -> Prop :=
| lock_acquire l b : available l = true -> lock_step l (Lock b) (Acquired true) (mkLock true (granted l) (queue l))
| lock_limit l : available l = false -> lock_step l (Lock false) LimitError l
| lock_wait l w : available l = false -> w ∉ queue l -> granted l <> Some w ->
    lock_step l (Lock true) (Pending w) (mkLock (held l) (granted l) (queue l ++ [w]))
| lock_try l : lock_step l TryLock (Acquired (available l)) (mkLock (held l || available l) (granted l) (queue l))
| lock_unlock l : held l = true -> lock_step l Unlock Done (grant_front (mkLock false (granted l) (queue l)))
| lock_unlock_panic l : held l = false -> lock_step l Unlock GuestPanic l
| lock_resume l w : granted l = Some w -> lock_step l (Resume w) (Acquired true) (mkLock true None (queue l))
| lock_resume_blocked l w : granted l <> Some w -> lock_step l (Resume w) (Acquired false) l
| lock_cancel_grant l w : granted l = Some w -> lock_step l (Cancel w) Done (grant_front (mkLock (held l) None (queue l)))
| lock_cancel_queued l w : granted l <> Some w ->
    lock_step l (Cancel w) Done (mkLock (held l) (granted l) (filter (fun x => x <> w) (queue l))).

(** ** Representation *)

(** Following [next] from [h] visits exactly [l] and ends at [e]. *)
Fixpoint segment (ws : gmap waiter_id mutexWaiter) (h : option waiter_id) (l : list waiter_id) (e : option waiter_id) : Prop :=
  match l with
  | [] => h = e
  | w :: l' => h = Some w /\ exists x, ws !! w = Some x /\ admittedBytes x = waiter_bytes /\ segment ws (next x) l' e
  end.

Definition count_granted (l : lock) : Z := match granted l with Some _ => 1 | None => 0 end.

Record represents (s : mutex_state) (l : lock) : Prop := {
  rep_held : locked (mutexState s) = held l;
  rep_grant : grant (mutexState s) = granted l;
  rep_chain : segment (waiters s) (head (mutexState s)) (queue l) None;
  rep_tail : tail (mutexState s) = last (queue l);
  rep_nodup : NoDup (queue l);
  rep_granted : forall w, granted l = Some w ->
    (w ∉ queue l) /\ waiters s !! w = Some (mkWaiter None waiter_bytes);
  rep_charged : charged s = waiter_bytes * (Z.of_nat (length (queue l)) + count_granted l)
}.

(** ** Lemmas: segments *)

Lemma segment_app ws h l1 l2 e :
  segment ws h (l1 ++ l2) e <-> exists m, segment ws h l1 m /\ segment ws m l2 e.
Proof.
  revert h. induction l1 as [|w l1 IH]; intros h; cbn [app segment].
  - split; [intros H; by exists h|by intros (m & -> & H)].
  - split.
    + intros (-> & x & Hx & Hb & H). apply IH in H as (m & H1 & H2). exists m. split; [|done]. split; [done|]. by exists x.
    + intros (m & (-> & x & Hx & Hb & H1) & H2). split; [done|]. exists x. split; [done|]. split; [done|]. apply IH. by exists m.
Qed.

(** Waiters outside the segment may change. *)
Lemma segment_frame ws ws' h l e :
  (forall w, w ∈ l -> ws' !! w = ws !! w) -> segment ws h l e -> segment ws' h l e.
Proof.
  revert h. induction l as [|w l IH]; intros h Hf; cbn [segment]; [done|]. intros (-> & x & Hx & Hb & H).
  split; [done|]. exists x. rewrite Hf by left. split; [done|]. split; [done|]. apply IH; [|done]. intros w' Hw'. apply Hf. by right.
Qed.

Lemma segment_elem ws h l e w : segment ws h l e -> w ∈ l -> exists x, ws !! w = Some x /\ admittedBytes x = waiter_bytes.
Proof.
  revert h. induction l as [|y l IH]; intros h H Hin; [by apply not_elem_of_nil in Hin|]. destruct H as (-> & x & Hx & Hb & H).
  apply elem_of_cons in Hin as [->|Hin]; [by exists x|by eapply IH].
Qed.

Lemma segment_head ws h l : segment ws h l None -> h = hd_error l.
Proof. destruct l; cbn; [done|]. by intros [? _]. Qed.

(** Redirecting the last waiter moves the end of the segment. *)
Lemma segment_redirect ws h l p e e' :
  p ∉ l -> segment ws h (l ++ [p]) e ->
  segment (alter (fun x => mkWaiter e' (admittedBytes x)) p ws) h (l ++ [p]) e'.
Proof.
  intros Hp H. apply segment_app in H as (m & H1 & H2). apply segment_app. exists m. split.
  - eapply segment_frame; [|exact H1]. intros w Hw. apply lookup_alter_ne. by intros ->.
  - destruct H2 as (-> & x & Hx & Hb & H2). split; [done|]. exists (mkWaiter e' (admittedBytes x)).
    rewrite lookup_alter_eq, Hx. done.
Qed.

Lemma last_Some_split {A} (l : list A) x : last l = Some x -> exists l', l = l' ++ [x].
Proof. intros H. apply last_Some in H as [l' ->]. by exists l'. Qed.

Lemma NoDup_snoc {A} (l : list A) x : NoDup (l ++ [x]) <-> (x ∉ l) /\ NoDup l.
Proof.
  rewrite NoDup_app. split.
  - intros (H1 & H2 & _). split; [|done]. intros Hx. apply (H2 x Hx). left.
  - intros [H1 H2]. split; [done|]. split; [|apply NoDup_singleton]. intros y Hy Hs. apply list_elem_of_singleton in Hs as ->. done.
Qed.

(** ** Lemmas: operations *)

Lemma release_spec w s :
  waiters s !! w = Some (mkWaiter None waiter_bytes) ->
  release w s = mkState (cell s) (<[w := mkWaiter None 0]> (waiters s)) (charged s - waiter_bytes).
Proof. intros H. unfold release. by rewrite H. Qed.

Lemma grantNext_rep s l : represents s l -> represents (grantNext s) (grant_front l).
Proof.
  intros R. pose proof R as []. unfold grantNext, grant_front. rewrite rep_held0, rep_grant0.
  destruct (held l || bool_decide (is_Some (granted l))) eqn:E.
  { destruct (queue l); done. }
  breflect. apply bool_decide_eq_false_1, eq_None_not_Some in H0. rewrite (segment_head _ _ _ rep_chain0).
  destruct (queue l) as [|w rest] eqn:Eq; cbn [hd_error]; [done|].
  destruct rep_chain0 as (Hh & x & Hx & Hb & Hrest). apply NoDup_cons in rep_nodup0 as [Hw Hnd].
  assert (next_of s w = next x) as En by (unfold next_of; by rewrite Hx). rewrite En.
  constructor; cbn [mutexState set_next set_resource cell default from_option id locked grant head tail held granted queue waiters charged].
  - done.
  - done.
  - eapply segment_frame; [|exact Hrest]. intros w' Hw'. apply lookup_alter_ne. by intros ->.
  - rewrite (segment_head _ _ _ Hrest), rep_tail0. destruct rest; [done|]. by cbn.
  - done.
  - intros w' E'. injection E' as <-. split; [done|]. rewrite lookup_alter_eq, Hx. cbn. by rewrite Hb.
  - rewrite rep_charged0. unfold count_granted. cbn [granted]. rewrite H0. cbn [length]. lia.
Qed.

Lemma rep_update s l r l' :
  represents s l -> locked r = held l' -> grant r = granted l' -> head r = head (mutexState s) -> tail r = tail (mutexState s) ->
  queue l' = queue l -> granted l' = granted l -> represents (set_resource r s) l'.
Proof.
  intros [] H1 H2 H3 H4 H5 H6. constructor; cbn [mutexState set_resource cell default from_option id waiters charged].
  - done.
  - done.
  - by rewrite H3, H5.
  - by rewrite H4, H5.
  - by rewrite H5.
  - intros w Hw. rewrite H5. apply rep_granted0. by rewrite <- H6.
  - unfold count_granted in *. by rewrite H5, H6.
Qed.

(** Dropping the grant: its waiter leaves the ledger. *)
Lemma rep_drop_grant s l w b :
  represents s l -> granted l = Some w ->
  represents (release w (set_resource (mkMutex b None (head (mutexState s)) (tail (mutexState s))) s)) (mkLock b None (queue l)).
Proof.
  intros [] Hg. destruct (rep_granted0 w Hg) as [Hw Hx].
  rewrite release_spec by done. constructor; cbn [mutexState set_resource cell default from_option id waiters charged locked grant head tail held granted queue].
  - done.
  - done.
  - eapply segment_frame; [|exact rep_chain0]. intros w' Hw'. apply lookup_insert_ne. by intros ->.
  - done.
  - done.
  - done.
  - rewrite rep_charged0. unfold count_granted. cbn [granted]. rewrite Hg. lia.
Qed.

Lemma available_state s l :
  represents s l -> negb (locked (mutexState s)) && negb (bool_decide (is_Some (grant (mutexState s)))) = available l.
Proof. intros []. unfold available. by rewrite rep_held0, rep_grant0. Qed.

Lemma mutexLock_rep b s l o s' :
  represents s l -> mutexLock (fun _ => b) s = (o, s') -> exists l', lock_step l (Lock b) o l' /\ represents s' l'.
Proof.
  intros R H. unfold mutexLock in H. cbn zeta in H. rewrite (available_state s l R) in H. pose proof R as [].
  destruct (available l) eqn:Ea.
  { injection H as <- <-. eexists. split; [by apply lock_acquire|]. by eapply rep_update. }
  destruct b; cbn [negb] in H.
  2: { injection H as <- <-. eexists. split; [by apply lock_limit|]. by eapply rep_update. }
  set (w := fresh (dom (waiters s))) in *.
  assert (waiters s !! w = None) as Hw by (apply not_elem_of_dom, is_fresh).
  assert (w ∉ queue l) as Hq.
  { intros Hin. destruct (segment_elem _ _ _ _ _ rep_chain0 Hin) as (x & Hx & _). congruence. }
  assert (granted l <> Some w) as Hg by (intros Hg; destruct (rep_granted0 _ Hg) as [_ Hx]; congruence).
  assert (segment (<[w := mkWaiter None waiter_bytes]> (waiters s)) (head (mutexState s)) (queue l) None) as Hseg.
  { eapply segment_frame; [|exact rep_chain0]. intros w' Hw'. apply lookup_insert_ne. by intros ->. }
  exists (mkLock (held l) (granted l) (queue l ++ [w])).
  assert (o = Pending w /\ represents s' (mkLock (held l) (granted l) (queue l ++ [w]))) as [-> Hr]; [|split; [by apply lock_wait|done]].
  rewrite rep_tail0 in H. destruct (last (queue l)) as [t|] eqn:El; injection H as <- <-; (split; [done|]);
    constructor; cbn [mutexState set_next set_resource cell default from_option id waiters charged locked grant head tail held granted queue]; try done.
  - apply last_Some_split in El as (q & Eq). rewrite Eq in *. apply NoDup_snoc in rep_nodup0 as [Ht _].
    apply segment_app. exists (Some w). split; [by eapply segment_redirect|]. split; [done|].
    exists (mkWaiter None waiter_bytes). rewrite lookup_alter_ne, lookup_insert_eq; [done|]. intros ->. apply Hq, elem_of_app. right. left.
  - by rewrite last_snoc.
  - by apply NoDup_snoc.
  - intros w' Hw'. destruct (rep_granted0 w' Hw') as [H1 H2]. split.
    + rewrite elem_of_app, list_elem_of_singleton. intros [?| ->]; [done|congruence].
    + assert (w' <> t) as Hne. { intros ->. apply H1. apply last_Some_split in El as (q & ->). apply elem_of_app. right. left. }
      rewrite lookup_alter_ne by done. rewrite lookup_insert_ne; [done|]. intros <-. congruence.
  - rewrite rep_charged0. unfold count_granted. cbn [granted]. rewrite length_app. cbn [length]. lia.
  - apply last_None in El. rewrite El. split; [done|]. exists (mkWaiter None waiter_bytes). by rewrite lookup_insert_eq.
  - apply last_None in El. by rewrite El.
  - by apply NoDup_snoc.
  - intros w' Hw'. destruct (rep_granted0 w' Hw') as [H1 H2]. split.
    + rewrite elem_of_app, list_elem_of_singleton. intros [?| ->]; [done|congruence].
    + rewrite lookup_insert_ne; [done|]. intros <-. congruence.
  - rewrite rep_charged0. unfold count_granted. cbn [granted]. rewrite length_app. cbn [length]. lia.
Qed.

(** ** Lemmas: cancelling a queued waiter *)

(** The state after the links around [w] are changed and before its bytes are released. *)
Lemma unlink_segment ws h l1 w l2 x :
  NoDup (l1 ++ w :: l2) -> segment ws h (l1 ++ w :: l2) None -> ws !! w = Some x ->
  match last l1 with
  | None => segment ws (next x) l2 None
  | Some p => segment (alter (fun y => mkWaiter (next x) (admittedBytes y)) p ws) h (l1 ++ l2) None
  end.
Proof.
  intros Hnd Hs Hx. apply segment_app in Hs as (m & H1 & -> & x' & Hx' & _ & H2). assert (x' = x) as -> by congruence.
  apply NoDup_app in Hnd as (Hn1 & Hd & Hn2). apply NoDup_cons in Hn2 as [Hn2 _].
  destruct (last l1) as [p|] eqn:El; [|done]. apply last_Some_split in El as (q & ->). apply NoDup_snoc in Hn1 as [Hp _].
  apply segment_app. exists (next x). split; [by eapply segment_redirect|].
  eapply segment_frame; [|exact H2]. intros w' Hw'. apply lookup_alter_ne. intros ->. apply (Hd w'); [|by right].
  apply elem_of_app. right. left.
Qed.

Lemma last_app_cons {A} (l1 l2 : list A) w : last (l1 ++ w :: l2) = match last l2 with Some y => Some y | None => Some w end.
Proof. rewrite last_app. cbn [last]. rewrite last_cons. by destruct (last l2). Qed.

Lemma last_remove (l1 l2 : list waiter_id) (w : waiter_id) :
  NoDup (l1 ++ w :: l2) ->
  last (l1 ++ l2) = if decide (last (l1 ++ w :: l2) = Some w) then last l1 else last (l1 ++ w :: l2).
Proof.
  intros Hnd. rewrite last_app_cons, last_app. destruct (last l2) as [y|] eqn:E; [|by rewrite decide_True].
  rewrite decide_False; [done|]. intros Ey. injection Ey as ->. apply last_Some_split in E as (q & ->).
  apply NoDup_app in Hnd as (_ & _ & Hnd). apply NoDup_cons in Hnd as [Hnd _]. apply Hnd, elem_of_app. right. left.
Qed.

(** Resetting and releasing a waiter that is in no segment. *)
Lemma rep_release_unlinked s l w x :
  waiters s !! w = Some x -> admittedBytes x = waiter_bytes -> w ∉ queue l -> granted l <> Some w ->
  locked (mutexState s) = held l -> grant (mutexState s) = granted l ->
  segment (waiters s) (head (mutexState s)) (queue l) None -> tail (mutexState s) = last (queue l) -> NoDup (queue l) ->
  (forall w', granted l = Some w' -> (w' ∉ queue l) /\ waiters s !! w' = Some (mkWaiter None waiter_bytes)) ->
  charged s = waiter_bytes * (Z.of_nat (length (queue l)) + count_granted l) + waiter_bytes ->
  represents (release w (set_next w None s)) l.
Proof.
  intros Hx Hb Hq Hg H1 H2 H3 H4 H5 H6 H7.
  assert (waiters (set_next w None s) !! w = Some (mkWaiter None waiter_bytes)) as Hx'.
  { cbn. rewrite lookup_alter_eq, Hx. cbn. by rewrite Hb. }
  rewrite release_spec by done.
  assert (forall w', w' <> w -> <[w := mkWaiter None 0]> (waiters (set_next w None s)) !! w' = waiters s !! w') as Hf.
  { intros w' Hne. rewrite lookup_insert_ne by done. cbn. by apply lookup_alter_ne. }
  constructor; cbn [mutexState set_next cell default from_option id waiters charged] in *; try done.
  - eapply segment_frame; [|exact H3]. intros w' Hw'. apply Hf. by intros ->.
  - intros w' Hw'. rewrite Hf by congruence. by apply H6.
  - lia.
Qed.

Lemma cancel_found s l l1 w l2 fuel :
  represents s l -> queue l = l1 ++ w :: l2 -> granted l <> Some w ->
  represents (cancel_loop (S fuel) (last l1) (Some w) w s) (mkLock (held l) (granted l) (l1 ++ l2)).
Proof.
  intros [] Eq Hg. rewrite Eq in *. cbn [cancel_loop]. rewrite decide_True by done. cbn zeta.
  assert (w ∈ l1 ++ w :: l2) as Hin by (apply elem_of_app; right; left).
  destruct (segment_elem _ _ _ _ w rep_chain0 Hin) as (x & Hx & Hb).
  assert (next_of s w = next x) as En by (unfold next_of; by rewrite Hx).
  rewrite En, rep_tail0, <- (last_remove l1 l2 w rep_nodup0).
  pose proof (unlink_segment _ _ _ _ _ _ rep_nodup0 rep_chain0 Hx) as Hu.
  assert ((w ∉ l1 ++ l2) /\ NoDup (l1 ++ l2)) as [Hw Hnd].
  { rewrite <- Permutation_middle in rep_nodup0. by apply NoDup_cons in rep_nodup0. }
  assert (charged s = waiter_bytes * (Z.of_nat (length (l1 ++ l2)) + count_granted (mkLock (held l) (granted l) (l1 ++ l2))) + waiter_bytes) as Hc.
  { rewrite rep_charged0. unfold count_granted. cbn [granted]. rewrite !length_app. cbn [length]. lia. }
  assert (forall w', granted l = Some w' -> (w' ∉ l1 ++ l2) /\ waiters s !! w' = Some (mkWaiter None waiter_bytes)) as Hgr.
  { intros w' Hw'. destruct (rep_granted0 w' Hw') as [H1 H2]. split; [|done]. intros H3. apply H1.
    rewrite <- Permutation_middle. by right. }
  destruct (last l1) as [p|] eqn:El.
  - assert (p ∈ l1) as Hp by (apply last_Some_split in El as (q & ->); apply elem_of_app; right; left).
    assert (p <> w) as Hpw. { intros ->. apply Hw, elem_of_app. by left. }
    apply (rep_release_unlinked _ _ _ x); cbn [mutexState set_next set_resource cell default from_option id waiters charged locked grant head tail held granted queue]; try done.
    + by rewrite lookup_alter_ne.
    + intros w' Hw'. destruct (Hgr w' Hw') as [H1 H2]. split; [done|]. rewrite lookup_alter_ne; [done|].
      intros ->. apply H1, elem_of_app. by left.
  - apply last_None in El as ->.
    apply (rep_release_unlinked _ _ _ x); cbn [mutexState set_next set_resource cell default from_option id waiters charged locked grant head tail held granted queue app]; done.
Qed.

Lemma cancel_loop_rep s l w : represents s l -> granted l <> Some w ->
  forall rest l1 fuel, queue l = l1 ++ rest -> w ∉ l1 -> (length rest < fuel)%nat ->
  represents (cancel_loop fuel (last l1) (hd_error rest) w s) (mkLock (held l) (granted l) (filter (fun x => x <> w) (queue l))).
Proof.
  intros R Hg rest. induction rest as [|q rest IH]; intros l1 fuel Eq Hw Hf.
  - rewrite app_nil_r in Eq. rewrite Eq, filter_absent, <- Eq by done. destruct fuel; cbn; destruct l; done.
  - destruct fuel as [|fuel]; [lia|]. destruct (decide (q = w)) as [->|Hne].
    + rewrite Eq, filter_remove by (rewrite <- Eq; apply R). by apply cancel_found.
    + cbn [cancel_loop hd_error]. rewrite decide_False by done.
      assert (next_of s q = hd_error rest) as ->.
      { destruct R. rewrite Eq in rep_chain0. apply segment_app in rep_chain0 as (m & _ & -> & x & Hx & _ & H).
        unfold next_of. rewrite Hx. cbn. by apply segment_head in H. }
      rewrite <- (last_snoc q l1). apply (IH (l1 ++ [q])).
      * by rewrite <- app_assoc.
      * rewrite elem_of_app, list_elem_of_singleton. intros [?| ->]; done.
      * cbn [length] in Hf. lia.
Qed.

Lemma segment_subset ws h l e : segment ws h l e -> NoDup l -> (length l <= size ws)%nat.
Proof.
  intros Hs Hnd. rewrite <- size_dom. rewrite <- (size_list_to_set (C := gset N) l Hnd). apply subseteq_size.
  intros w Hw. apply elem_of_list_to_set in Hw. destruct (segment_elem _ _ _ _ _ Hs Hw) as (x & Hx & _). apply elem_of_dom. by eexists.
Qed.

(** ** Refinement of the abstract lock *)

Lemma cancel_rep w s l : represents s l -> exists l', lock_step l (Cancel w) Done l' /\ represents (cancel w s) l'.
Proof.
  intros R. pose proof R as []. unfold cancel. cbn zeta. rewrite rep_grant0. destruct (decide (granted l = Some w)) as [Hg|Hg].
  - eexists. split; [by apply lock_cancel_grant|]. apply grantNext_rep. rewrite rep_held0. by apply rep_drop_grant.
  - eexists. split; [by apply lock_cancel_queued|]. rewrite (segment_head _ _ _ rep_chain0).
    apply (cancel_loop_rep s l w R Hg (queue l) []); [done|by apply not_elem_of_nil|].
    unfold cancel_fuel. pose proof (segment_subset _ _ _ _ rep_chain0 rep_nodup0). lia.
Qed.

Lemma execute_rep op s l o s' :
  represents s l -> execute op s = (o, s') -> exists l', lock_step l op o l' /\ represents s' l'.
Proof.
  intros R H. destruct op as [b| | |w|w]; cbn [execute] in H.
  - by eapply mutexLock_rep.
  - unfold mutexTryLock in H. cbn zeta in H. rewrite (available_state s l R) in H. injection H as <- <-.
    eexists. split; [apply lock_try|]. pose proof R as []. rewrite rep_held0. by eapply rep_update.
  - unfold mutexUnlock in H. pose proof R as []. unfold mutexState in *. destruct (cell s) as [r|] eqn:Ec; cbn [default from_option id] in *.
    + destruct (locked r) eqn:El; cbn [negb] in H; injection H as <- <-.
      * eexists. split; [by apply lock_unlock|]. apply grantNext_rep.
        eapply rep_update; try done; unfold mutexState; by rewrite Ec.
      * eexists. split; [by apply lock_unlock_panic|]. done.
    + injection H as <- <-. eexists. split; [by apply lock_unlock_panic|]. done.
  - unfold resume_mutex in H. cbn zeta in H. pose proof R as []. rewrite rep_grant0 in H. case_bool_decide as Hg; cbn [negb] in H; injection H as <- <-.
    + eexists. split; [by apply lock_resume|]. by apply rep_drop_grant.
    + eexists. split; [by apply lock_resume_blocked|]. done.
  - injection H as <- <-. by apply cancel_rep.
Qed.

Fixpoint execute_all (ops : list operation) (s : mutex_state) : list outcome * mutex_state :=
  match ops with
  | [] => ([], s)
  | op :: ops' =>
      let (o, s1) := execute op s in
      let (os, s2) := execute_all ops' s1 in (o :: os, s2)
  end.

Inductive lock_trace : lock -> list operation -> list outcome -> lock -> Prop :=
| trace_nil l : lock_trace l [] [] l
| trace_cons l op o l1 ops os l2 : lock_step l op o l1 -> lock_trace l1 ops os l2 -> lock_trace l (op :: ops) (o :: os) l2.

Lemma execute_all_rep ops s l os s' :
  represents s l -> execute_all ops s = (os, s') -> exists l', lock_trace l ops os l' /\ represents s' l'.
Proof.
  revert s l os. induction ops as [|op ops IH]; intros s l os R H; cbn [execute_all] in H.
  - injection H as <- <-. exists l. split; [constructor|done].
  - destruct (execute op s) as [o s1] eqn:E1, (execute_all ops s1) as [os1 s2] eqn:E2. injection H as <- ->.
    destruct (execute_rep _ _ _ _ _ R E1) as (l1 & Hs & R1). destruct (IH _ _ _ R1 E2) as (l2 & Ht & R2).
    exists l2. split; [by econstructor|done].
Qed.

Lemma initial_rep : represents initial_state free_lock.
Proof. constructor; try done; constructor. Qed.

(** ** The invariant of reachable locks *)

(** A grant excludes a holder, and nobody waits for a lock that is neither held nor granted. *)
Definition lock_inv (l : lock) : Prop :=
  (held l = true -> granted l = None) /\ (available l = true -> queue l = []).

Lemma grant_front_inv q : lock_inv (grant_front (mkLock false None q)).
Proof. unfold grant_front, lock_inv, available. by destruct q. Qed.

Lemma lock_step_inv l op o l' : lock_inv l -> lock_step l op o l' -> lock_inv l'.
Proof.
  intros [H1 H2] Hs.
  inversion Hs; subst; try done; destruct l as [[] [g|] q]; cbn [held granted queue available] in *;
    try discriminate; try (by specialize (H1 eq_refl)); try apply grant_front_inv; try (split; cbn; (done || auto)).
  by rewrite H2.
Qed.

Lemma lock_trace_inv l ops os l' : lock_inv l -> lock_trace l ops os l' -> lock_inv l'.
Proof. intros Hi Ht. induction Ht; eauto using lock_step_inv. Qed.

(** ** Progress *)

(** The holder unlocks and the waiter that was granted the lock continues, for each waiter in turn. *)
Definition rounds (ws : list waiter_id) : list operation := flat_map (fun w => [Unlock; Resume w]) ws.
Definition round_outcomes (ws : list waiter_id) : list outcome := flat_map (fun _ => [Done; Acquired true]) ws.

Lemma lock_step_unlock l o l' : held l = true -> lock_step l Unlock o l' -> o = Done /\ l' = grant_front (mkLock false (granted l) (queue l)).
Proof. intros H Hs. inversion Hs; subst; [done|congruence]. Qed.

Lemma lock_step_resume l w o l' : granted l = Some w -> lock_step l (Resume w) o l' -> o = Acquired true /\ l' = mkLock true None (queue l).
Proof. intros H Hs. inversion Hs; subst; [done|congruence]. Qed.

Lemma handover_round s w q :
  represents s (mkLock true None (w :: q)) ->
  exists s1 s2, execute Unlock s = (Done, s1) /\ execute (Resume w) s1 = (Acquired true, s2) /\ represents s2 (mkLock true None q).
Proof.
  intros R. destruct (execute Unlock s) as [o s1] eqn:E1. destruct (execute_rep _ _ _ _ _ R E1) as (l1 & H1 & R1).
  apply lock_step_unlock in H1 as [-> ->]; [|done]. cbn in R1.
  destruct (execute (Resume w) s1) as [o s2] eqn:E2. destruct (execute_rep _ _ _ _ _ R1 E2) as (l2 & H2 & R2).
  apply lock_step_resume in H2 as [-> ->]; [|done]. by exists s1, s2.
Qed.

Lemma handover_rounds ws s q :
  represents s (mkLock true None (ws ++ q)) ->
  exists s', execute_all (rounds ws) s = (round_outcomes ws, s') /\ represents s' (mkLock true None q).
Proof.
  revert s. induction ws as [|w ws IH]; intros s R; [by exists s|].
  destruct (handover_round _ _ _ R) as (s1 & s2 & E1 & E2 & R2). destruct (IH _ R2) as (s3 & E3 & R3).
  exists s3. split; [|done]. change (rounds (w :: ws)) with (Unlock :: Resume w :: rounds ws).
  cbn [execute_all]. by rewrite E1, E2, E3.
Qed.

(** ** Theorems *)

(** C4. Every sequence of Lock, TryLock, Unlock, resume and cancel operations on a mutex behaves as the
    abstract lock with a queue in order of arrival: the linked waiters are exactly that queue, a granted
    lock has no holder, nobody waits for a lock that is free, and the memory ledger carries the bytes of
    exactly the waiters that are queued or granted. *)
Theorem mutex_refines_lock (ops : list operation) :
  exists l,
    lock_trace free_lock ops (fst (execute_all ops initial_state)) l /\
    represents (snd (execute_all ops initial_state)) l /\
    (held l = true -> granted l = None) /\
    (available l = true -> queue l = []) /\
    charged (snd (execute_all ops initial_state)) = waiter_bytes * (Z.of_nat (length (queue l)) + count_granted l).
Proof.
  destruct (execute_all ops initial_state) as [os s] eqn:E.
  destruct (execute_all_rep _ _ _ _ _ initial_rep E) as (l & Ht & R). exists l. cbn [fst snd].
  destruct (lock_trace_inv free_lock ops os l) as [H1 H2]; [done|done|]. by destruct R.
Qed.

(** C5. The waiter at any position of the queue acquires the mutex after one unlock and resume for each
    waiter before it and for itself, in order of arrival; the waiters behind it keep their places. *)
Theorem mutex_fifo_progress (s : mutex_state) (before after : list waiter_id) (w : waiter_id) :
  represents s (mkLock true None (before ++ w :: after)) ->
  exists s', execute_all (rounds (before ++ [w])) s = (round_outcomes (before ++ [w]), s') /\
    represents s' (mkLock true None after).
Proof. intros R. apply handover_rounds. by rewrite <- app_assoc. Qed.

Definition contended : mutex_state := snd (execute_all [Lock true; Lock true; Lock true] initial_state).

Lemma contended_rep : represents contended (mkLock true None [0%N; 1%N]).
Proof.
  constructor; try (vm_compute; reflexivity).
  - split; [reflexivity|]. eexists. split; [reflexivity|]. split; [reflexivity|]. split; [reflexivity|].
    eexists. split; [reflexivity|]. by split.
  - apply NoDup_cons. split; [by rewrite list_elem_of_singleton|apply NoDup_singleton].
  - done.
Qed.

Lemma mutex_fifo_progress_witness :
  represents contended (mkLock true None ([0%N] ++ 1%N :: [])) /\
  exists s', execute_all (rounds [0%N; 1%N]) contended = (round_outcomes [0%N; 1%N], s') /\ represents s' (mkLock true None []).
Proof. split; [exact contended_rep|]. apply (mutex_fifo_progress contended [0%N] [] 1%N). exact contended_rep. Defined.
