(* ===== verification/Heap.v ===== *)
(** * Access to the managed heap (src/runtime/managed_heap.go)

    Guest objects are byte ranges of pages; a reference is a slot of the object directory and the
    generation it was issued for.  The operations below read and change payloads through a
    reference; the write barrier records the cards of old pages they touch.  Each operation holds
    its objects' stripe locks throughout, so it is one transition.  An index or slice expression out
    of range is the error [Panic]. *)

From S2P Require Import Prelude GoStd GoBytes.

(** ** State *)

Definition managedCardBytes : Z := 256.
Definition managedSegmentSize : Z := 256.

Record guestRef : Type := mkRef { slot : Z; generation : Z }.

#[export] Instance guestRef_eq_dec : EqDecision guestRef.
Proof. solve_decision. Defined.

Definition valid (ref : guestRef) : bool := negb (slot ref =? 0) && negb (generation ref =? 0).

Inductive object_state : Type := managedFree | managedReserved | managedPublished.

#[export] Instance object_state_eq_dec : EqDecision object_state.
Proof. solve_decision. Defined.

Record managedObject : Type := mkObject {
  obj_state : object_state;
  obj_generation : Z;
  obj_page : Z;
  obj_offset : Z;
  obj_size : Z;
  obj_young : bool
}.

Record managedPage : Type := mkPage { data : gostring; cards : list Z }.

Record managedHeap : Type := mkHeap {
  segments : list (list managedObject);
  pages : list managedPage;
  pendingCards : list (Z * Z)
}.

#[export] Instance managedObject_eq_dec : EqDecision managedObject.
Proof. solve_decision. Defined.

#[export] Instance managedPage_eq_dec : EqDecision managedPage.
Proof. solve_decision. Defined.

#[export] Instance managedHeap_eq_dec : EqDecision managedHeap.
Proof. solve_decision. Defined.

Inductive heap_error : Type := errManagedReference | OutsidePayload | NotDisjoint | Panic.

#[export] Instance heap_error_eq_dec : EqDecision heap_error.
Proof. solve_decision. Defined.

(** ** Go slices *)

(** [data[a:b]]. *)
Definition slice_of (l : gostring) (a b : Z) : result heap_error gostring :=
  if (0 <=? a) && (a <=? b) && (b <=? Z.of_nat (length l))
  then Ok (take (Z.to_nat (b - a)) (drop (Z.to_nat a) l)) else Err Panic.

(** [copy(l[a:b], src)] where the two have the same length. *)
Definition copy_to (l : gostring) (a b : Z) (src : gostring) : result heap_error gostring :=
  let? _ := slice_of l a b in Ok (list_inserts (Z.to_nat a) src l).

(** [l[i]]. *)
Definition nth_of {A} (l : list A) (i : Z) : option A := if i <? 0 then None else l !! Z.to_nat i.

Definition index_of {A} (l : list A) (i : Z) : result heap_error A :=
  match nth_of l i with Some x => Ok x | None => Err Panic end.

(** ** Resolution *)

Definition object (h : managedHeap) (s : Z) : option managedObject :=
  if (s =? 0) || (Z.of_nat (length (segments h)) <=? s / managedSegmentSize) then None
  else segment ← nth_of (segments h) (s / managedSegmentSize); nth_of segment (s mod managedSegmentSize).

Definition resolveObject (h : managedHeap) (ref : guestRef) : result heap_error managedObject :=
  match object h (slot ref) with
  | Some entry =>
      if negb (bool_decide (obj_state entry = managedPublished)) || negb (obj_generation entry =? generation ref)
      then Err errManagedReference else Ok entry
  | None => Err errManagedReference
  end.

(** ** Write barrier *)

(** Each card that is clean becomes dirty and is queued once. *)
Fixpoint dirty_cards (count : nat) (card page : Z) (cs : list Z) (pending : list (Z * Z)) : result heap_error (list Z * list (Z * Z)) :=
  match count with
  | O => Ok (cs, pending)
  | S count' =>
      let? c := index_of cs card in
      if c =? 0 then dirty_cards count' (card + 1) page (<[Z.to_nat card := 1]> cs) (pending ++ [(page, card)])
      else dirty_cards count' (card + 1) page cs pending
  end.

Definition first_card (entry : managedObject) (offset : Z) : Z := u32 (obj_offset entry + offset) / managedCardBytes.
Definition last_card (entry : managedObject) (offset size : Z) : Z := u32 (obj_offset entry + offset + size - 1) / managedCardBytes.

Definition dirtyRegion (h : managedHeap) (entry : managedObject) (offset size : Z) : result heap_error managedHeap :=
  if obj_young entry || (size =? 0) then Ok h
  else
    let? page := index_of (pages h) (obj_page entry) in
    let first := first_card entry offset in
    let last := last_card entry offset size in
    let? r := dirty_cards (Z.to_nat (last - first + 1)) first (obj_page entry) (cards page) (pendingCards h) in
    Ok (mkHeap (segments h) (<[Z.to_nat (obj_page entry) := mkPage (data page) (fst r)]> (pages h)) (snd r)).

Definition set_data (h : managedHeap) (page : Z) (bytes : gostring) : managedHeap :=
  mkHeap (segments h) (alter (fun p => mkPage bytes (cards p)) (Z.to_nat page) (pages h)) (pendingCards h).

(** ** Operations *)

(** The bytes of the payload of [entry] from [offset]. *)
Definition load (h : managedHeap) (entry : managedObject) (offset size : Z) : result heap_error gostring :=
  let? page := index_of (pages h) (obj_page entry) in
  slice_of (data page) (u32 (obj_offset entry + offset)) (u32 (obj_offset entry + offset + size)).

Definition store (h : managedHeap) (entry : managedObject) (offset : Z) (src : gostring) : result heap_error managedHeap :=
  let size := Z.of_nat (length src) in
  let? page := index_of (pages h) (obj_page entry) in
  let? bytes := copy_to (data page) (u32 (obj_offset entry + offset)) (u32 (obj_offset entry + offset + size)) src in
  dirtyRegion (set_data h (obj_page entry) bytes) entry offset size.

Definition read (h : managedHeap) (ref : guestRef) (offset size : Z) : result heap_error gostring :=
  let? entry := resolveObject h ref in
  let? _ := guard_err (obj_size entry <? offset + size) OutsidePayload in
  load h entry offset size.

Definition readString (h : managedHeap) (ref : guestRef) (offset length_ : Z) : result heap_error gostring :=
  let? entry := resolveObject h ref in
  let? _ := guard_err ((obj_size entry <? offset) || (obj_size entry - offset <? length_)) OutsidePayload in
  let start := u64 (obj_offset entry + offset) in
  let? page := index_of (pages h) (obj_page entry) in
  slice_of (data page) start (u64 (start + length_)).

Definition write (h : managedHeap) (ref : guestRef) (offset : Z) (src : gostring) : result heap_error managedHeap :=
  let? entry := resolveObject h ref in
  let? _ := guard_err (obj_size entry <? offset + Z.of_nat (length src)) OutsidePayload in
  store h entry offset src.

Definition copy (h : managedHeap) (destination : guestRef) (destinationOffset : Z) (source : guestRef) (sourceOffset size : Z)
    : result heap_error managedHeap :=
  let? target := resolveObject h destination in
  let? origin := resolveObject h source in
  let? _ := guard_err ((obj_size target <? destinationOffset + size) || (obj_size origin <? sourceOffset + size)) OutsidePayload in
  let? bytes := load h origin sourceOffset size in
  store h target destinationOffset bytes.

Definition clear (h : managedHeap) (ref : guestRef) (offset size : Z) : result heap_error managedHeap :=
  let? entry := resolveObject h ref in
  let? _ := guard_err (obj_size entry <? offset + size) OutsidePayload in
  store h entry offset (replicate (Z.to_nat size) 0).

(** The exchange of two ranges in pieces of at most 256 bytes. *)
Definition scratch_bytes : Z := 256.

Fixpoint swap_loop (fuel : nat) (l : gostring) (left right remaining : Z) : result heap_error gostring :=
  match fuel with
  | O => Ok l
  | S fuel' =>
      if remaining =? 0 then Ok l
      else
        let count := Z.min remaining scratch_bytes in
        let? scratch := slice_of l left (u32 (left + count)) in
        let? middle := slice_of l right (u32 (right + count)) in
        let? l1 := copy_to l left (u32 (left + count)) middle in
        let? l2 := copy_to l1 right (u32 (right + count)) scratch in
        swap_loop fuel' l2 (u32 (left + count)) (u32 (right + count)) (u32 (remaining - count))
  end.

Definition swap_fuel (size : Z) : nat := S (Z.to_nat size).

Definition swap (h : managedHeap) (ref : guestRef) (left right size : Z) : result heap_error managedHeap :=
  let? entry := resolveObject h ref in
  let? _ := guard_err ((obj_size entry <? left + size) || (obj_size entry <? right + size)) OutsidePayload in
  if (left =? right) || (size =? 0) then Ok h
  else
    let? _ := guard_err (Z.max left right <? Z.min left right + size) NotDisjoint in
    let? page := index_of (pages h) (obj_page entry) in
    let? bytes := swap_loop (swap_fuel size) (data page) (u32 (left + obj_offset entry)) (u32 (right + obj_offset entry)) size in
    let h1 := set_data h (obj_page entry) bytes in
    if obj_young entry then Ok h1
    else
      let? h2 := dirtyRegion h1 entry left size in
      dirtyRegion h2 entry right size.

Definition readWord (h : managedHeap) (ref : guestRef) (offset : Z) : result heap_error Z :=
  let? b := read h ref offset 8 in Ok (le_word b).

Definition writeWord (h : managedHeap) (ref : guestRef) (offset word : Z) : result heap_error managedHeap :=
  write h ref offset (le_bytes 8 word).

Definition readReference (h : managedHeap) (ref : guestRef) (offset : Z) : result heap_error guestRef :=
  let? word := readWord h ref offset in Ok (mkRef (u32 word) (u32 (Z.shiftr word 32))).

Definition writeReference (h : managedHeap) (ref : guestRef) (offset : Z) (child : guestRef) : result heap_error managedHeap :=
  writeWord h ref offset (Z.lor (slot child) (u64 (Z.shiftl (generation child) 32))).

(** ** The abstract memory: the payload of every live reference *)

(** The window [[o, o + n)] of a list. *)
Definition window (l : gostring) (o n : Z) : gostring := take (Z.to_nat n) (drop (Z.to_nat o) l).

Definition payload (h : managedHeap) (ref : guestRef) : option gostring :=
  match resolveObject h ref with
  | Ok entry =>
      page ← pages h !! Z.to_nat (obj_page entry);
      Some (window (data page) (obj_offset entry) (obj_size entry))
  | Err _ => None
  end.

(** The objects lie inside their pages and do not overlap; the pages of old objects have all their cards. *)
Record entry_ok (h : managedHeap) (e : managedObject) : Prop := {
  ok_numbers : 0 <= obj_page e /\ 0 <= obj_offset e /\ 0 <= obj_size e;
  ok_page : exists p, pages h !! Z.to_nat (obj_page e) = Some p /\
    obj_offset e + obj_size e <= Z.of_nat (length (data p)) /\ Z.of_nat (length (data p)) < 2 ^ 32 /\
    (obj_young e = false -> Z.of_nat (length (data p)) <= managedCardBytes * Z.of_nat (length (cards p)))
}.

Definition apart (e1 e2 : managedObject) : Prop :=
  obj_page e1 <> obj_page e2 \/ obj_offset e1 + obj_size e1 <= obj_offset e2 \/ obj_offset e2 + obj_size e2 <= obj_offset e1.

Record heap_ok (h : managedHeap) : Prop := {
  ok_entries : forall s e, object h s = Some e -> obj_state e = managedPublished -> entry_ok h e;
  ok_apart : forall s1 s2 e1 e2, object h s1 = Some e1 -> object h s2 = Some e2 -> s1 <> s2 ->
    obj_state e1 = managedPublished -> obj_state e2 = managedPublished -> apart e1 e2
}.

(** Every dirty card is queued for the next collection. *)
Definition cards_queued (h : managedHeap) : Prop :=
  forall p page i c, pages h !! p = Some page -> cards page !! i = Some c -> c <> 0 -> (Z.of_nat p, Z.of_nat i) ∈ pendingCards h.

(** The card of byte [i] of page [p] is dirty. *)
Definition dirty (h : managedHeap) (p i : Z) : Prop :=
  exists page c, pages h !! Z.to_nat p = Some page /\ cards page !! Z.to_nat (i / managedCardBytes) = Some c /\ c <> 0.

(** ** Lemmas: slices *)

Lemma slice_of_ok l a b : 0 <= a <= b -> b <= Z.of_nat (length l) -> slice_of l a b = Ok (window l a (b - a)).
Proof. intros H1 H2. unfold slice_of. by rewrite !(proj2 (Z.leb_le _ _)) by lia. Qed.

Lemma copy_to_ok l a b src : 0 <= a <= b -> b <= Z.of_nat (length l) -> copy_to l a b src = Ok (list_inserts (Z.to_nat a) src l).
Proof. intros H1 H2. unfold copy_to. by rewrite slice_of_ok. Qed.

Lemma index_of_ok {A} (l : list A) i x : 0 <= i -> l !! Z.to_nat i = Some x -> index_of l i = Ok x.
Proof. intros Hi Hx. unfold index_of, nth_of. by rewrite (proj2 (Z.ltb_ge _ _)), Hx by lia. Qed.

Lemma u32_id x : 0 <= x < 2 ^ 32 -> u32 x = x.
Proof. apply Z.mod_small. Qed.

Lemma window_length l o n : 0 <= o -> 0 <= n -> o + n <= Z.of_nat (length l) -> length (window l o n) = Z.to_nat n.
Proof. intros. unfold window. rewrite length_take, length_drop. lia. Qed.

Lemma window_lookup l o n i : 0 <= o -> (i < Z.to_nat n)%nat -> window l o n !! i = l !! (Z.to_nat o + i)%nat.
Proof. intros. unfold window. by rewrite lookup_take_lt, lookup_drop by lia. Qed.

Lemma window_window l o n o' n' :
  0 <= o -> 0 <= o' -> 0 <= n' -> o' + n' <= n -> window (window l o n) o' n' = window l (o + o') n'.
Proof.
  intros. unfold window. rewrite skipn_firstn_comm, take_take, drop_drop.
  f_equal; [lia|]. f_equal. lia.
Qed.

Lemma window_ext l l' o n :
  length l' = length l -> 0 <= o ->
  (forall i, (Z.to_nat o <= i < Z.to_nat o + Z.to_nat n)%nat -> l' !! i = l !! i) -> window l' o n = window l o n.
Proof.
  intros Hl Ho H. apply list_eq. intros i. destruct (decide (i < Z.to_nat n)%nat) as [Hi|Hi].
  - rewrite !window_lookup by lia. apply H. lia.
  - unfold window. rewrite !lookup_take_ge by lia. done.
Qed.

(** Writing inside a window changes the window. *)
Lemma window_inserts l o n a src :
  0 <= o -> 0 <= a -> a + Z.of_nat (length src) <= n -> o + n <= Z.of_nat (length l) ->
  window (list_inserts (Z.to_nat (o + a)) src l) o n = list_inserts (Z.to_nat a) src (window l o n).
Proof.
  intros Ho Ha Hs Hl. apply list_eq. intros i. destruct (decide (i < Z.to_nat n)%nat) as [Hi|Hi].
  - rewrite window_lookup by lia. destruct (decide (i < Z.to_nat a)%nat) as [H1|H1].
    { rewrite !list_lookup_inserts_lt by lia. by rewrite window_lookup by lia. }
    destruct (decide (Z.to_nat a + length src <= i)%nat) as [H2|H2].
    { rewrite !list_lookup_inserts_ge by lia. by rewrite window_lookup by lia. }
    rewrite !list_lookup_inserts by (try rewrite window_length; lia). f_equal. lia.
  - rewrite !lookup_ge_None_2; [done|rewrite length_inserts, window_length; lia|].
    rewrite window_length; rewrite ?length_inserts; lia.
Qed.

Lemma inserts_outside (l src : gostring) (a i : nat) : (i < a \/ a + length src <= i)%nat -> list_inserts a src l !! i = l !! i.
Proof. intros [H|H]; [by apply list_lookup_inserts_lt|by apply list_lookup_inserts_ge]. Qed.

(** ** Lemmas: the write barrier *)

Lemma dirty_cards_spec count card page cs pending :
  0 <= card -> card + Z.of_nat count <= Z.of_nat (length cs) ->
  exists cs' pending', dirty_cards count card page cs pending = Ok (cs', pending') /\
    length cs' = length cs /\ pending ⊆ pending' /\
    (forall i c, cs !! i = Some c -> c <> 0 -> cs' !! i = Some c) /\
    (forall i c, cs' !! i = Some c -> c <> 0 -> cs !! i = Some c \/ (page, Z.of_nat i) ∈ pending') /\
    (forall i, card <= Z.of_nat i < card + Z.of_nat count -> exists c, cs' !! i = Some c /\ c <> 0).
Proof.
  revert card cs pending. induction count as [|count IH]; intros card cs pending Hc Hl; cbn [dirty_cards].
  - exists cs, pending. split; [done|]. split; [done|]. split; [done|]. split; [done|]. split; [by left|]. intros. lia.
  - destruct (lookup_lt_is_Some_2 cs (Z.to_nat card)) as [c Ec]; [lia|]. rewrite (index_of_ok _ _ c) by done. cbn [result_bind].
    destruct (c =? 0) eqn:E0; breflect.
    + destruct (IH (card + 1) (<[Z.to_nat card := 1]> cs) (pending ++ [(page, card)])) as (cs' & pend' & H1 & H2 & H3 & H4 & H5 & H6);
        [lia|rewrite length_insert; lia|]. rewrite length_insert in H2.
      exists cs', pend'. split; [done|]. split; [done|]. split; [set_solver|].
      assert ((page, card) ∈ pend') as Hin by (apply H3, elem_of_app; right; left).
      split; [|split].
      * intros i d Hd Hd0. apply H4; [|done]. rewrite list_lookup_insert_ne; [done|]. intros <-. congruence.
      * intros i d Hd Hd0. destruct (H5 i d Hd Hd0) as [Hi|]; [|by right].
        destruct (decide (i = Z.to_nat card)) as [->|Hne]; [right; by rewrite Z2Nat.id|left]. by rewrite list_lookup_insert_ne in Hi.
      * intros i Hi. destruct (decide (i = Z.to_nat card)) as [->|Hne]; [|apply H6; lia].
        exists 1. split; [|done]. apply H4; [|done]. apply list_lookup_insert_eq. lia.
    + destruct (IH (card + 1) cs pending) as (cs' & pend' & H1 & H2 & H3 & H4 & H5 & H6); [lia|lia|].
      exists cs', pend'. repeat (split; [done|]). intros i Hi. destruct (decide (i = Z.to_nat card)) as [->|Hne]; [|apply H6; lia].
      exists c. split; [|done]. by apply H4.
Qed.

(** Two heaps with the same objects and bytes; dirty cards stay dirty and queued. *)
Record same_memory (h h' : managedHeap) : Prop := {
  same_segments : segments h' = segments h;
  same_pages : forall p, (fun x => (data x, length (cards x))) <$> pages h' !! p = (fun x => (data x, length (cards x))) <$> pages h !! p;
  same_dirty : forall p i, dirty h p i -> dirty h' p i;
  same_queued : cards_queued h -> cards_queued h'
}.

Lemma same_memory_refl h : same_memory h h.
Proof. by split. Qed.

Lemma same_memory_trans h1 h2 h3 : same_memory h1 h2 -> same_memory h2 h3 -> same_memory h1 h3.
Proof. intros [A1 A2 A3 A4] [B1 B2 B3 B4]. split; [congruence|intros p; by rewrite B2|auto|auto]. Qed.

Lemma dirtyRegion_spec h e offset size :
  entry_ok h e -> 0 <= offset -> 0 <= size -> offset + size <= obj_size e ->
  exists h', dirtyRegion h e offset size = Ok h' /\ same_memory h h' /\
    (obj_young e = false -> forall i, obj_offset e + offset <= i < obj_offset e + offset + size -> dirty h' (obj_page e) i).
Proof.
  intros [[Hp [Ho Hs]] (page & Ep & Hb & H32 & Hcards)] Hoff Hsize Hr. unfold dirtyRegion.
  destruct (obj_young e || (size =? 0)) eqn:E.
  { exists h. split; [done|]. split; [apply same_memory_refl|]. intros Hy i Hi. rewrite Hy in E. cbn in E. breflect. lia. }
  breflect. specialize (Hcards H). rewrite (index_of_ok _ _ page) by done. cbn [result_bind].
  unfold first_card, last_card, managedCardBytes in *. rewrite !u32_id by lia.
  set (first := (obj_offset e + offset) / 256). set (last := (obj_offset e + offset + size - 1) / 256).
  assert (0 <= first) by (apply Z.div_pos; lia). assert (first <= last) by (apply Z.div_le_mono; lia).
  assert (last < Z.of_nat (length (cards page))) by (apply Z.div_lt_upper_bound; lia).
  destruct (dirty_cards_spec (Z.to_nat (last - first + 1)) first (obj_page e) (cards page) (pendingCards h))
    as (cs' & pend' & H1' & H2' & H3' & H4' & H5' & H6'); [lia|lia|]. rewrite H1'. cbn [result_bind fst snd].
  assert (Z.to_nat (obj_page e) < length (pages h))%nat as Hlt by (by eapply lookup_lt_Some).
  eexists. split; [done|]. split; [split|].
  - done.
  - intros p. cbn [pages]. destruct (decide (p = Z.to_nat (obj_page e))) as [->|Hne].
    + rewrite list_lookup_insert_eq, Ep by done. cbn. by rewrite H2'.
    + by rewrite list_lookup_insert_ne.
  - intros p i (pg & c & Epg & Hc & Hc0). unfold dirty. cbn [pages]. destruct (decide (Z.to_nat p = Z.to_nat (obj_page e))) as [Eq|Hne].
    + rewrite Eq in *. assert (pg = page) as -> by congruence. rewrite list_lookup_insert_eq by done. exists (mkPage (data page) cs'), c. auto.
    + rewrite list_lookup_insert_ne by done. by exists pg, c.
  - intros Hq p pg i c Epg Hc Hc0. cbn [pages pendingCards] in *. destruct (decide (p = Z.to_nat (obj_page e))) as [->|Hne].
    + rewrite list_lookup_insert_eq in Epg by done. injection Epg as <-. cbn [cards] in Hc. rewrite Z2Nat.id by done.
      destruct (H5' i c Hc Hc0) as [Hold|]; [|done]. apply H3'. specialize (Hq _ _ _ _ Ep Hold Hc0). by rewrite Z2Nat.id in Hq.
    + rewrite list_lookup_insert_ne in Epg by done. apply H3'. eauto.
  - intros _ i Hi. unfold dirty. cbn [pages]. rewrite list_lookup_insert_eq by done.
    destruct (H6' (Z.to_nat (i / 256))) as (c & Hc & Hc0); [|by exists (mkPage (data page) cs'), c].
    assert (first <= i / 256 <= last) by (split; apply Z.div_le_mono; lia). lia.
Qed.

(** ** Lemmas: payloads *)

Lemma resolve_segments h h' ref : segments h' = segments h -> resolveObject h' ref = resolveObject h ref.
Proof. intros H. unfold resolveObject, object. by rewrite H. Qed.

Lemma object_segments h h' s : segments h' = segments h -> object h' s = object h s.
Proof. intros H. unfold object. by rewrite H. Qed.

Lemma resolve_ok h ref e :
  resolveObject h ref = Ok e <->
  object h (slot ref) = Some e /\ obj_state e = managedPublished /\ obj_generation e = generation ref.
Proof.
  unfold resolveObject. destruct (object h (slot ref)) as [e'|]; [|split; [done|by intros (? & _)]].
  case_bool_decide as Hp; cbn [negb orb]; [destruct (Z.eqb_spec (obj_generation e') (generation ref)) as [Hg|Hg]; cbn [negb]|]; split.
  - intros H. by injection H as <-.
  - intros (H & _). by injection H as <-.
  - done.
  - intros (H & _ & Hg'). injection H as <-. done.
  - done.
  - intros (H & Hp' & _). injection H as <-. done.
Qed.

Lemma resolve_entry h ref e : heap_ok h -> resolveObject h ref = Ok e -> entry_ok h e.
Proof. intros Hok H. apply resolve_ok in H as (H1 & H2 & _). by eapply ok_entries. Qed.

Lemma resolve_apart h ref ref' e e' :
  heap_ok h -> ref' <> ref -> resolveObject h ref = Ok e -> resolveObject h ref' = Ok e' -> apart e e'.
Proof.
  intros Hok Hne H H'. apply resolve_ok in H as (H1 & H2 & H3). apply resolve_ok in H' as (H1' & H2' & H3').
  eapply ok_apart; [done|exact H1|exact H1'| |done|done].
  intros Es. apply Hne. rewrite Es in H1. assert (e = e') as -> by congruence.
  destruct ref, ref'. cbn in *. congruence.
Qed.

Lemma payload_of h ref e p :
  resolveObject h ref = Ok e -> pages h !! Z.to_nat (obj_page e) = Some p ->
  payload h ref = Some (window (data p) (obj_offset e) (obj_size e)).
Proof. intros H1 H2. unfold payload. by rewrite H1, H2. Qed.

Lemma payload_pages h h' ref :
  segments h' = segments h -> (forall p, data <$> pages h' !! p = data <$> pages h !! p) -> payload h' ref = payload h ref.
Proof.
  intros Hs Hp. unfold payload. rewrite (resolve_segments h) by done. destruct (resolveObject h ref) as [e|]; [|done].
  specialize (Hp (Z.to_nat (obj_page e))).
  destruct (pages h !! Z.to_nat (obj_page e)), (pages h' !! Z.to_nat (obj_page e)); cbn in *; congruence.
Qed.

Lemma same_memory_payload h h' ref : same_memory h h' -> payload h' ref = payload h ref.
Proof.
  intros [H1 H2 _ _]. apply payload_pages; [done|]. intros p. specialize (H2 p).
  destruct (pages h !! p), (pages h' !! p); cbn in *; congruence.
Qed.

Lemma heap_ok_pages h h' :
  segments h' = segments h ->
  (forall p, (fun x => (length (data x), length (cards x))) <$> pages h' !! p = (fun x => (length (data x), length (cards x))) <$> pages h !! p) ->
  heap_ok h -> heap_ok h'.
Proof.
  intros Hs Hp [H1 H2]. split.
  - intros s e He Hpub. rewrite (object_segments h) in He by done. destruct (H1 s e He Hpub) as [Hn (p & Ep & Hb)].
    split; [done|]. specialize (Hp (Z.to_nat (obj_page e))). rewrite Ep in Hp.
    destruct (pages h' !! Z.to_nat (obj_page e)) as [p'|] eqn:Ep'; [|done]. injection Hp as E1 E2. exists p'. by rewrite E1, E2.
  - intros s1 s2 e1 e2. rewrite !(fun s => object_segments h h' s Hs). apply H2.
Qed.

Lemma same_memory_ok h h' : same_memory h h' -> heap_ok h -> heap_ok h'.
Proof.
  intros [H1 H2 _ _]. apply heap_ok_pages; [done|]. intros p. specialize (H2 p).
  destruct (pages h !! p), (pages h' !! p); cbn in *; congruence.
Qed.

(** [h'] is [h] with the payload of [ref] replaced by [bytes]. *)
Record updated (h : managedHeap) (ref : guestRef) (bytes : gostring) (h' : managedHeap) : Prop := {
  upd_payload : payload h' ref = Some bytes;
  upd_others : forall ref', ref' <> ref -> payload h' ref' = payload h ref';
  upd_segments : segments h' = segments h;
  upd_ok : heap_ok h';
  upd_dirty : forall p i, dirty h p i -> dirty h' p i;
  upd_queued : cards_queued h -> cards_queued h'
}.

Lemma set_data_updated h ref e p b :
  heap_ok h -> resolveObject h ref = Ok e -> pages h !! Z.to_nat (obj_page e) = Some p -> length b = length (data p) ->
  (forall i, (Z.of_nat i < obj_offset e \/ obj_offset e + obj_size e <= Z.of_nat i) -> b !! i = data p !! i) ->
  updated h ref (window b (obj_offset e) (obj_size e)) (set_data h (obj_page e) b).
Proof.
  intros Hok He Hp Hlen Hout. pose proof (resolve_entry _ _ _ Hok He) as [[Hn1 [Hn2 Hn3]] _].
  assert (pages (set_data h (obj_page e) b) !! Z.to_nat (obj_page e) = Some (mkPage b (cards p))) as Hp'.
  { cbn [set_data pages]. by rewrite list_lookup_alter_eq, Hp. }
  assert (forall q, q <> Z.to_nat (obj_page e) -> pages (set_data h (obj_page e) b) !! q = pages h !! q) as Hother.
  { intros q Hq. cbn [set_data pages]. by apply list_lookup_alter_ne. }
  assert (resolveObject (set_data h (obj_page e) b) ref = Ok e) as He'.
  { rewrite <- He. by apply resolve_segments. }
  split.
  - by rewrite (payload_of _ _ _ _ He' Hp').
  - intros ref' Hne. destruct (resolveObject h ref') as [e'|] eqn:E'.
    2: { unfold payload. rewrite (resolve_segments h) by done. by rewrite E'. }
    pose proof (resolve_apart _ _ _ _ _ Hok Hne He E') as Ha.
    pose proof (resolve_entry _ _ _ Hok E') as [[Hn1' [Hn2' Hn3']] (p' & Ep' & _)].
    assert (resolveObject (set_data h (obj_page e) b) ref' = Ok e') as E'' by (rewrite <- E'; by apply resolve_segments).
    rewrite (payload_of _ _ _ _ E' Ep'). destruct (decide (Z.to_nat (obj_page e') = Z.to_nat (obj_page e))) as [Epage|Hpage].
    + assert (obj_page e' = obj_page e) as Epage' by lia. rewrite Epage' in Ep'. assert (p' = p) as -> by congruence.
      rewrite <- Epage in Hp'. rewrite (payload_of _ _ _ _ E'' Hp'). f_equal. cbn [data]. apply window_ext; [done|done|].
      intros i Hi. apply Hout. destruct Ha as [Ha|Ha]; [congruence|]. lia.
    + rewrite <- Hother in Ep' by done. by rewrite (payload_of _ _ _ _ E'' Ep').
  - done.
  - eapply (heap_ok_pages h); [done| |done]. intros q. destruct (decide (q = Z.to_nat (obj_page e))) as [->|Hq].
    + rewrite Hp', Hp. cbn. by rewrite Hlen.
    + by rewrite Hother.
  - intros q i (pg & c & Epg & Hc). unfold dirty. destruct (decide (Z.to_nat q = Z.to_nat (obj_page e))) as [Eq|Hq].
    + rewrite Eq in *. exists (mkPage b (cards p)), c. assert (pg = p) as -> by congruence. done.
    + exists pg, c. by rewrite Hother.
  - intros Hq q pg i c Epg Hc Hc0. destruct (decide (q = Z.to_nat (obj_page e))) as [->|Hne].
    + rewrite Hp' in Epg. injection Epg as <-. by eapply Hq.
    + rewrite Hother in Epg by done. by eapply Hq.
Qed.

Lemma updated_same h ref b h1 h2 : updated h ref b h1 -> same_memory h1 h2 -> updated h ref b h2.
Proof.
  intros [U1 U2 U3 U4 U5 U6] S. pose proof S as [S1 S2 S3 S4]. split.
  - by rewrite (same_memory_payload h1).
  - intros ref' H. rewrite (same_memory_payload h1) by done. by apply U2.
  - congruence.
  - by eapply same_memory_ok.
  - auto.
  - auto.
Qed.

(** ** Lemmas: operations *)

Lemma payload_length h ref e bytes :
  heap_ok h -> resolveObject h ref = Ok e -> payload h ref = Some bytes -> Z.of_nat (length bytes) = obj_size e.
Proof.
  intros Hok He Hb. destruct (resolve_entry _ _ _ Hok He) as [[H1 [H2 H3]] (p & Ep & H4 & _)].
  rewrite (payload_of _ _ _ _ He Ep) in Hb. injection Hb as <-. rewrite window_length; lia.
Qed.

Lemma payload_resolve h ref bytes : payload h ref = Some bytes -> exists e, resolveObject h ref = Ok e.
Proof. unfold payload. destruct (resolveObject h ref) as [e|]; [|done]. by exists e. Qed.

Lemma load_spec h ref e bytes offset size :
  heap_ok h -> resolveObject h ref = Ok e -> payload h ref = Some bytes ->
  0 <= offset -> 0 <= size -> offset + size <= obj_size e -> load h e offset size = Ok (window bytes offset size).
Proof.
  intros Hok He Hb Ho Hs Hr. destruct (resolve_entry _ _ _ Hok He) as [[H1 [H2 H3]] (p & Ep & H4 & H5 & _)].
  rewrite (payload_of _ _ _ _ He Ep) in Hb. injection Hb as <-. unfold load. rewrite (index_of_ok _ _ p) by done. cbn [result_bind].
  rewrite !u32_id, slice_of_ok by lia. rewrite window_window by lia. do 2 f_equal. lia.
Qed.

(** Old objects have their written range marked. *)
Definition marks (h' : managedHeap) (e : managedObject) (offset size : Z) : Prop :=
  obj_young e = false -> forall i, obj_offset e + offset <= i < obj_offset e + offset + size -> dirty h' (obj_page e) i.

Lemma store_spec h ref e bytes offset src :
  heap_ok h -> resolveObject h ref = Ok e -> payload h ref = Some bytes ->
  0 <= offset -> offset + Z.of_nat (length src) <= obj_size e ->
  exists h', store h e offset src = Ok h' /\ updated h ref (list_inserts (Z.to_nat offset) src bytes) h' /\
    marks h' e offset (Z.of_nat (length src)).
Proof.
  intros Hok He Hb Ho Hr. destruct (resolve_entry _ _ _ Hok He) as [[H1 [H2 H3]] (p & Ep & H4 & H5 & H6)].
  rewrite (payload_of _ _ _ _ He Ep) in Hb. injection Hb as <-. unfold store. rewrite (index_of_ok _ _ p) by done. cbn [result_bind].
  rewrite !u32_id, copy_to_ok by lia. cbn [result_bind].
  set (b := list_inserts (Z.to_nat (obj_offset e + offset)) src (data p)).
  assert (updated h ref (window b (obj_offset e) (obj_size e)) (set_data h (obj_page e) b)) as U.
  { eapply set_data_updated; try done; [apply length_inserts|]. intros i Hi. apply inserts_outside. lia. }
  destruct (dirtyRegion_spec (set_data h (obj_page e) b) e offset (Z.of_nat (length src))) as (h' & E' & S & D); [|lia|lia|lia|].
  { eapply (resolve_entry _ ref); [apply U|]. rewrite (resolve_segments h) by apply U. done. }
  exists h'. split; [done|]. split; [|exact D]. unfold b in U. rewrite window_inserts in U by lia. by eapply updated_same.
Qed.

(** [l] with the ranges at [left] and [right] of length [n] exchanged. *)
Definition exchanged (l l' : gostring) (left right n : Z) : Prop :=
  length l' = length l /\
  forall i, l' !! i =
    if decide (left <= Z.of_nat i < left + n) then l !! Z.to_nat (Z.of_nat i - left + right)
    else if decide (right <= Z.of_nat i < right + n) then l !! Z.to_nat (Z.of_nat i - right + left)
    else l !! i.

Lemma swap_chunk l left right count :
  0 <= left -> 0 <= right -> 0 <= count -> left + count <= Z.of_nat (length l) -> right + count <= Z.of_nat (length l) ->
  (left + count <= right \/ right + count <= left) ->
  exchanged l (list_inserts (Z.to_nat right) (window l left count) (list_inserts (Z.to_nat left) (window l right count) l)) left right count.
Proof.
  intros Hl Hr Hc H1 H2 Hd. split; [by rewrite !length_inserts|]. intros i.
  destruct (decide (right <= Z.of_nat i < right + count)) as [Hi|Hi].
  - rewrite list_lookup_inserts by (rewrite ?window_length, ?length_inserts; lia). rewrite window_lookup by lia.
    rewrite decide_False by lia. f_equal. lia.
  - rewrite inserts_outside by (rewrite ?window_length; lia).
    destruct (decide (left <= Z.of_nat i < left + count)) as [Hj|Hj].
    + rewrite list_lookup_inserts by (rewrite ?window_length; lia). rewrite window_lookup by lia. f_equal. lia.
    + by rewrite inserts_outside by (rewrite ?window_length; lia).
Qed.

Lemma exchanged_step l l1 l2 left right c n :
  0 <= left -> 0 <= right -> 0 <= c -> c <= n -> (left + n <= right \/ right + n <= left) ->
  exchanged l l1 left right c -> exchanged l1 l2 (left + c) (right + c) (n - c) -> exchanged l l2 left right n.
Proof.
  intros Hl Hr Hc Hn Hd [E1 H1] [E2 H2]. split; [congruence|]. intros i. rewrite H2.
  repeat (case_decide; try lia); rewrite H1; repeat (case_decide; try lia); try done; f_equal; lia.
Qed.

Lemma swap_loop_spec fuel l left right n :
  (Z.to_nat n < fuel)%nat -> 0 <= left -> 0 <= right -> 0 <= n ->
  left + n <= Z.of_nat (length l) -> right + n <= Z.of_nat (length l) -> Z.of_nat (length l) < 2 ^ 32 ->
  (left + n <= right \/ right + n <= left) ->
  exists l', swap_loop fuel l left right n = Ok l' /\ exchanged l l' left right n.
Proof.
  revert l left right n. induction fuel as [|fuel IH]; intros l left right n Hf Hl Hr Hn H1 H2 H32 Hd; [lia|]. cbn [swap_loop].
  destruct (Z.eqb_spec n 0) as [->|Hn0].
  { exists l. split; [done|]. split; [done|]. intros i. by rewrite !decide_False by lia. }
  set (c := Z.min n scratch_bytes). unfold scratch_bytes in c. rewrite !u32_id by lia.
  rewrite !slice_of_ok by lia. cbn [result_bind]. rewrite copy_to_ok by lia. cbn [result_bind].
  rewrite copy_to_ok by (rewrite ?length_inserts; lia). cbn [result_bind].
  replace (left + c - left) with c by lia. replace (right + c - right) with c by lia.
  pose proof (swap_chunk l left right c ltac:(lia) ltac:(lia) ltac:(lia) ltac:(lia) ltac:(lia) ltac:(lia)) as Hx.
  set (l2 := list_inserts _ _ _) in *. destruct Hx as [El Hx].
  destruct (IH l2 (left + c) (right + c) (n - c)) as (l' & E' & H'); try lia.
  exists l'. split; [done|]. apply (exchanged_step l l2 l' left right c n); try lia; [by split|done].
Qed.

(** The exchange of the payload of an object: the bytes outside it stay. *)
Lemma exchanged_window l l' o n left right size :
  0 <= o -> 0 <= left -> 0 <= right -> 0 <= size -> left + size <= n -> right + size <= n -> o + n <= Z.of_nat (length l) ->
  exchanged l l' (left + o) (right + o) size -> exchanged (window l o n) (window l' o n) left right size.
Proof.
  intros Ho Hl Hr Hs H1 H2 H3 [E H]. split; [rewrite !window_length; lia|]. intros i.
  destruct (decide (i < Z.to_nat n)%nat) as [Hi|Hi].
  - rewrite window_lookup, H by lia. repeat case_decide; try lia; rewrite window_lookup by lia; try done; f_equal; lia.
  - rewrite !decide_False by lia. by rewrite !lookup_ge_None_2 by (rewrite window_length; lia).
Qed.

Lemma write_ok h ref bytes offset src :
  heap_ok h -> payload h ref = Some bytes -> 0 <= offset -> offset + Z.of_nat (length src) <= Z.of_nat (length bytes) ->
  exists e h', resolveObject h ref = Ok e /\ write h ref offset src = Ok h' /\
    updated h ref (list_inserts (Z.to_nat offset) src bytes) h' /\ marks h' e offset (Z.of_nat (length src)).
Proof.
  intros Hok Hb Ho Hr. destruct (payload_resolve _ _ _ Hb) as [e He]. rewrite (payload_length _ _ _ _ Hok He Hb) in Hr.
  destruct (store_spec h ref e bytes offset src) as (h' & E & H); [done..|].
  exists e, h'. split; [done|]. split; [|done]. unfold write. rewrite He. cbn [result_bind].
  by rewrite (proj2 (Z.ltb_ge _ _)).
Qed.

Lemma read_ok h ref bytes offset size :
  heap_ok h -> payload h ref = Some bytes -> 0 <= offset -> 0 <= size -> offset + size <= Z.of_nat (length bytes) ->
  read h ref offset size = Ok (window bytes offset size).
Proof.
  intros Hok Hb Ho Hs Hr. destruct (payload_resolve _ _ _ Hb) as [e He]. rewrite (payload_length _ _ _ _ Hok He Hb) in Hr.
  unfold read. rewrite He. cbn [result_bind]. rewrite (proj2 (Z.ltb_ge _ _)) by done. by eapply load_spec.
Qed.

Lemma clear_ok h ref bytes offset size :
  heap_ok h -> payload h ref = Some bytes -> 0 <= offset -> 0 <= size -> offset + size <= Z.of_nat (length bytes) ->
  exists h', clear h ref offset size = Ok h' /\ updated h ref (list_inserts (Z.to_nat offset) (replicate (Z.to_nat size) 0) bytes) h' /\
    forall e, resolveObject h ref = Ok e -> marks h' e offset size.
Proof.
  intros Hok Hb Ho Hs Hr. destruct (write_ok h ref bytes offset (replicate (Z.to_nat size) 0)) as (e & h' & He & Hw & U & Mk); try done.
  { rewrite length_replicate. lia. }
  rewrite length_replicate, Z2Nat.id in Mk by done.
  exists h'. split; [|split; [done|intros e'; rewrite He; by intros [= <-]]]. revert Hw. unfold write, clear. rewrite He. cbn [result_bind]. by rewrite length_replicate, Z2Nat.id.
Qed.

Lemma stale_payload h ref : heap_ok h -> payload h ref = None <-> resolveObject h ref = Err errManagedReference.
Proof.
  intros Hok. unfold payload. destruct (resolveObject h ref) as [e|err] eqn:E.
  - destruct (resolve_entry _ _ _ Hok E) as [_ (p & -> & _)]. done.
  - split; [|done]. intros _. revert E. unfold resolveObject. destruct (object h (slot ref)); [|done]. by case_if.
Qed.

Lemma swap_ok h ref e bytes left right size :
  heap_ok h -> resolveObject h ref = Ok e -> payload h ref = Some bytes -> 0 <= left -> 0 <= right -> 0 < size -> left <> right ->
  left + size <= Z.of_nat (length bytes) -> right + size <= Z.of_nat (length bytes) -> Z.min left right + size <= Z.max left right ->
  exists h' bytes', swap h ref left right size = Ok h' /\ exchanged bytes bytes' left right size /\ updated h ref bytes' h' /\
    marks h' e left size /\ marks h' e right size.
Proof.
  intros Hok He Hb Hl Hr Hs Hne H1 H2 Hd. rewrite !(payload_length _ _ _ _ Hok He Hb) in *.
  pose proof (resolve_entry _ _ _ Hok He) as [[N1 [N2 N3]] (p & Ep & P1 & P2 & P3)].
  rewrite (payload_of _ _ _ _ He Ep) in Hb. injection Hb as <-.
  unfold swap. rewrite He. cbn [result_bind]. rewrite !(proj2 (Z.ltb_ge _ _)), !(proj2 (Z.eqb_neq _ _)) by lia. cbn [orb guard_err result_bind].
  rewrite (index_of_ok _ _ p) by done. cbn [result_bind]. rewrite !u32_id by lia.
  destruct (swap_loop_spec (swap_fuel size) (data p) (left + obj_offset e) (right + obj_offset e) size) as (b & -> & Hx);
    [unfold swap_fuel; lia|lia|lia|lia|lia|lia|lia|lia|]. cbn [result_bind].
  assert (updated h ref (window b (obj_offset e) (obj_size e)) (set_data h (obj_page e) b)) as U.
  { destruct Hx as [El Hx]. eapply set_data_updated; try done. intros i Hi. rewrite Hx. by rewrite !decide_False by lia. }
  assert (exchanged (window (data p) (obj_offset e) (obj_size e)) (window b (obj_offset e) (obj_size e)) left right size) as Hw
    by (apply exchanged_window; (lia || done)).
  destruct (obj_young e) eqn:Ey.
  { exists (set_data h (obj_page e) b), (window b (obj_offset e) (obj_size e)). split; [done|]. split; [done|]. split; [done|].
    unfold marks. by rewrite Ey. }
  assert (entry_ok (set_data h (obj_page e) b) e) as O1.
  { eapply (resolve_entry _ ref); [apply U|]. by rewrite (resolve_segments h). }
  destruct (dirtyRegion_spec _ e left size O1) as (h1 & -> & S1 & D1); [lia|lia|lia|]. cbn [result_bind].
  pose proof (updated_same _ _ _ _ _ U S1) as U1.
  assert (entry_ok h1 e) as O2.
  { eapply (resolve_entry _ ref); [apply U1|]. by rewrite (resolve_segments h) by apply U1. }
  destruct (dirtyRegion_spec _ e right size O2) as (h2 & -> & S2 & D2); [lia|lia|lia|].
  exists h2, (window b (obj_offset e) (obj_size e)). split; [done|]. split; [done|]. split; [by eapply updated_same|].
  split; [|exact D2]. intros Hy i Hi. apply S2, D1; done.
Qed.

Lemma copy_ok h dst dst_bytes dst_off src src_bytes src_off size :
  heap_ok h -> payload h dst = Some dst_bytes -> payload h src = Some src_bytes -> 0 <= dst_off -> 0 <= src_off -> 0 <= size ->
  dst_off + size <= Z.of_nat (length dst_bytes) -> src_off + size <= Z.of_nat (length src_bytes) ->
  exists h', copy h dst dst_off src src_off size = Ok h' /\
    updated h dst (list_inserts (Z.to_nat dst_off) (window src_bytes src_off size) dst_bytes) h' /\
    forall t, resolveObject h dst = Ok t -> marks h' t dst_off size.
Proof.
  intros Hok Hd Hs N1 N2 N3 H1 H2. destruct (payload_resolve _ _ _ Hs) as [e He]. pose proof (payload_length _ _ _ _ Hok He Hs) as Ls.
  destruct (write_ok h dst dst_bytes dst_off (window src_bytes src_off size)) as (t & h' & Ht & Hw & U & Mk); [done|done|done| |].
  { rewrite window_length; lia. }
  rewrite window_length in Mk by lia. replace (Z.of_nat (Z.to_nat size)) with size in Mk by lia.
  pose proof (payload_length _ _ _ _ Hok Ht Hd) as Ld. exists h'. split; [|split; [done|intros t'; rewrite Ht; by intros [= <-]]]. revert Hw. unfold write, copy. rewrite Ht, He. cbn [result_bind].
  rewrite (load_spec h src e src_bytes) by (done || lia). rewrite !(proj2 (Z.ltb_ge _ _)) by (rewrite ?window_length; lia). done.
Qed.

(** ** Theorems *)

(** C17. Through a live reference every access of the managed heap is an access of the object's bytes:
    reads return the requested range, writes and clears replace exactly that range, copies read before
    they write, also between overlapping ranges of one object, and an exchange of disjoint ranges in
    256-byte pieces is the exchange of the whole ranges.  No access changes the payload of another
    reference, none panics, the layout invariant is kept, dirty cards stay queued, and every byte
    written to an old object has its card marked. *)
Theorem heap_access_exact (h : managedHeap) (ref src : guestRef) (e : managedObject) (bytes src_bytes b : gostring)
    (offset other size : Z) :
  heap_ok h -> resolveObject h ref = Ok e -> payload h ref = Some bytes -> payload h src = Some src_bytes ->
  0 <= offset -> 0 <= other -> 0 <= size -> Z.of_nat (length b) = size ->
  offset + size <= Z.of_nat (length bytes) ->
  read h ref offset size = Ok (window bytes offset size) /\
  (exists h', write h ref offset b = Ok h' /\ updated h ref (list_inserts (Z.to_nat offset) b bytes) h' /\ marks h' e offset size) /\
  (exists h', clear h ref offset size = Ok h' /\
     updated h ref (list_inserts (Z.to_nat offset) (replicate (Z.to_nat size) 0) bytes) h' /\ marks h' e offset size) /\
  (other + size <= Z.of_nat (length src_bytes) ->
     exists h', copy h ref offset src other size = Ok h' /\
       updated h ref (list_inserts (Z.to_nat offset) (window src_bytes other size) bytes) h' /\ marks h' e offset size) /\
  (0 < size -> other + size <= Z.of_nat (length bytes) -> offset + size <= other \/ other + size <= offset ->
     exists h' bytes', swap h ref offset other size = Ok h' /\ exchanged bytes bytes' offset other size /\ updated h ref bytes' h' /\
       marks h' e offset size /\ marks h' e other size).
Proof.
  intros Hok He Hb Hs Ho Hot Hsz Hlen Hr. split; [by apply read_ok|]. split; [|split; [|split]].
  - destruct (write_ok h ref bytes offset b) as (e' & h' & He' & Hw & U & M); [done|done|done|lia|].
    assert (e' = e) as -> by congruence. rewrite Hlen in M. by exists h'.
  - destruct (clear_ok h ref bytes offset size) as (h' & Hc & U & M); [done..|]. exists h'. split; [done|]. split; [done|]. by apply M.
  - intros Hos. destruct (copy_ok h ref bytes offset src src_bytes other size) as (h' & Hc & U & M); [done..|]. exists h'. split; [done|]. split; [done|]. by apply M.
  - intros. apply swap_ok; (done || lia).
Qed.

(** A stale reference is refused by every access, and so is a range that leaves the payload: the heap
    is not changed and no neighbouring object is read. *)
Theorem heap_access_refused (h : managedHeap) (ref : guestRef) (offset size : Z) (src : gostring) :
  heap_ok h -> 0 <= offset -> 0 <= size -> Z.of_nat (length src) = size ->
  let refused {A} (r : result heap_error A) :=
    match payload h ref with
    | None => r = Err errManagedReference
    | Some bytes => Z.of_nat (length bytes) < offset + size -> r = Err OutsidePayload
    end in
  refused (read h ref offset size) /\ refused (write h ref offset src) /\ refused (clear h ref offset size) /\
  refused (readString h ref offset size) /\
  (forall other, refused (copy h ref offset ref other size)) /\ (forall other, refused (swap h ref offset other size)).
Proof.
  intros Hok Ho Hs Hl refused.
  assert (forall A (k : managedObject -> result heap_error A),
    (forall e, resolveObject h ref = Ok e -> obj_size e < offset + size -> k e = Err OutsidePayload) ->
    refused A (result_bind (resolveObject h ref) k)) as Hgen.
  { intros A k Hk. unfold refused. destruct (payload h ref) as [bytes|] eqn:E.
    - intros Hr. destruct (payload_resolve _ _ _ E) as [e He]. rewrite (payload_length _ _ _ _ Hok He E) in Hr. rewrite He. by apply Hk.
    - apply stale_payload in E; [|done]. by rewrite E. }
  split; [|split; [|split; [|split; [|split]]]]; [| | | |intros other..]; apply Hgen; intros e He Hr.
  - by rewrite (proj2 (Z.ltb_lt _ _)).
  - by rewrite (proj2 (Z.ltb_lt _ _)) by lia.
  - by rewrite (proj2 (Z.ltb_lt _ _)).
  - destruct (Z.ltb_spec (obj_size e) offset); [done|]. by rewrite (proj2 (Z.ltb_lt _ _)) by lia.
  - rewrite He. cbn [result_bind]. by rewrite (proj2 (Z.ltb_lt _ _)).
  - by rewrite (proj2 (Z.ltb_lt _ _)).
Qed.

Lemma window_inserts_same l a src :
  0 <= a -> a + Z.of_nat (length src) <= Z.of_nat (length l) -> window (list_inserts (Z.to_nat a) src l) a (Z.of_nat (length src)) = src.
Proof.
  intros Ha Hl. apply list_eq. intros i. destruct (decide (i < length src)%nat) as [Hi|Hi].
  - rewrite window_lookup, list_lookup_inserts by lia. f_equal. lia.
  - rewrite !lookup_ge_None_2; [done|lia|]. rewrite window_length; rewrite ?length_inserts; lia.
Qed.

Lemma pack_reference s g : 0 <= s < 2 ^ 32 -> 0 <= g < 2 ^ 32 -> Z.lor s (u64 (Z.shiftl g 32)) = s + g * 2 ^ 32.
Proof. intros Hs Hg. rewrite Z.shiftl_mul_pow2, u64_id by lia. apply lor_disjoint; lia. Qed.

(** A reference written to a slot of an object is read back as it was, and so is a word; every other
    byte of the object is kept. *)
Theorem reference_roundtrip (h : managedHeap) (ref child : guestRef) (bytes : gostring) (offset : Z) :
  heap_ok h -> payload h ref = Some bytes -> 0 <= offset -> offset + 8 <= Z.of_nat (length bytes) ->
  0 <= slot child < 2 ^ 32 -> 0 <= generation child < 2 ^ 32 ->
  exists h', writeReference h ref offset child = Ok h' /\ readReference h' ref offset = Ok child /\
    updated h ref (list_inserts (Z.to_nat offset) (le_bytes 8 (slot child + generation child * 2 ^ 32)) bytes) h'.
Proof.
  intros Hok Hb Ho Hr Hs Hg. unfold writeReference, writeWord. rewrite pack_reference by done.
  set (word := slot child + generation child * 2 ^ 32).
  destruct (write_ok h ref bytes offset (le_bytes 8 word)) as (e & h' & _ & Hw & U & _); [done|done|done|by rewrite le_bytes_length|].
  exists h'. split; [done|]. split; [|done]. destruct U as [U1 _ _ U4 _ _].
  unfold readReference, readWord. rewrite (read_ok h' ref _ offset 8 U4 U1) by (rewrite ?length_inserts; lia). cbn [result_bind].
  pose proof (window_inserts_same bytes offset (le_bytes 8 word)) as Hw'. rewrite le_bytes_length in Hw'. change (Z.of_nat 8) with 8 in Hw'.
  rewrite Hw' by lia. rewrite le_word_bytes by (unfold word; change (256 ^ Z.of_nat 8) with (2 ^ 32 * 2 ^ 32); nia).
  unfold u32. rewrite Z.shiftr_div_pow2 by lia. unfold word. rewrite Z_mod_plus_full, Z.div_add, Z.div_small, Z.mod_small by lia.
  rewrite Z.add_0_l, Z.mod_small by lia. by destruct child.
Qed.

(** ** A heap of two objects *)

Definition unused_entry : managedObject := mkObject managedFree 0 0 0 0 false.

Definition pair_heap (e1 e2 : managedObject) (ps : list managedPage) : managedHeap := mkHeap [[unused_entry; e1; e2]] ps [].

Lemma pair_object e1 e2 ps s e : object (pair_heap e1 e2 ps) s = Some e -> obj_state e = managedPublished ->
  (s = 1 /\ e = e1) \/ (s = 2 /\ e = e2).
Proof.
  unfold object, nth_of, managedSegmentSize. cbn [segments pair_heap length]. destruct ((s =? 0) || _) eqn:E; [done|]. breflect.
  destruct (s / 256 <? 0) eqn:E1; [done|]. breflect. assert (s / 256 = 0) as Eq by lia. rewrite Eq. cbn [Z.to_nat lookup list_lookup mbind option_bind].
  destruct (div_mod_pos s 256 ltac:(lia)) as [Hd Hm]. rewrite Eq in Hd. replace (s mod 256) with s by lia.
  rewrite (proj2 (Z.ltb_ge _ _)) by lia. destruct (Z.to_nat s) as [|[|[|n]]] eqn:En; cbn.
  - intros Ho Hp. injection Ho as <-. done.
  - intros Ho Hp. injection Ho as <-. left. split; [lia|done].
  - intros Ho Hp. injection Ho as <-. right. split; [lia|done].
  - done.
Qed.

Lemma pair_heap_ok e1 e2 ps :
  entry_ok (pair_heap e1 e2 ps) e1 -> entry_ok (pair_heap e1 e2 ps) e2 -> apart e1 e2 -> heap_ok (pair_heap e1 e2 ps).
Proof.
  intros H1 H2 Ha. split.
  - intros s e He Hp. by destruct (pair_object _ _ _ s e He Hp) as [[_ ->]|[_ ->]].
  - intros s1 s2 f1 f2 F1 F2 Hne P1 P2.
    destruct (pair_object _ _ _ _ _ F1 P1) as [[-> ->]|[-> ->]], (pair_object _ _ _ _ _ F2 P2) as [[-> ->]|[-> ->]]; try done.
    destruct Ha as [?|[?|?]]; [left; congruence|right; by right|right; by left].
Qed.

(** A young object and an old one. *)
Definition sample_heap : managedHeap :=
  pair_heap (mkObject managedPublished 1 0 0 8 true) (mkObject managedPublished 3 1 8 16 false)
    [mkPage (replicate 16 0) []; mkPage (map Z.of_nat (seq 0 32)) [0]].

Lemma sample_heap_ok : heap_ok sample_heap.
Proof.
  apply pair_heap_ok; [| |left; cbn; lia]; (split; [cbn; lia|]); eexists; (split; [reflexivity|]);
    vm_compute; (split; [discriminate|]); (split; [reflexivity|]); discriminate.
Qed.

Lemma heap_access_exact_witness :
  read sample_heap (mkRef 2 3) 2 3 = Ok [10; 11; 12] /\
  (exists h', write sample_heap (mkRef 2 3) 2 [7; 7; 7] = Ok h' /\
    updated sample_heap (mkRef 2 3) [8; 9; 7; 7; 7; 13; 14; 15; 16; 17; 18; 19; 20; 21; 22; 23] h' /\
    marks h' (mkObject managedPublished 3 1 8 16 false) 2 3).
Proof.
  destruct (heap_access_exact sample_heap (mkRef 2 3) (mkRef 1 1) (mkObject managedPublished 3 1 8 16 false)
    (map Z.of_nat (seq 8 16)) (replicate 8 0) [7; 7; 7] 2 0 3) as (H1 & H2 & _);
    [exact sample_heap_ok|reflexivity|reflexivity|reflexivity|lia|lia|lia|reflexivity|vm_compute; discriminate|].
  split; [exact H1|exact H2].
Defined.

Lemma heap_access_refused_witness :
  read sample_heap (mkRef 2 2) 0 1 = Err errManagedReference /\ read sample_heap (mkRef 1 1) 4 5 = Err OutsidePayload.
Proof.
  split.
  - exact (proj1 (heap_access_refused sample_heap (mkRef 2 2) 0 1 [0] sample_heap_ok ltac:(lia) ltac:(lia) eq_refl)).
  - apply (proj1 (heap_access_refused sample_heap (mkRef 1 1) 4 5 [0; 0; 0; 0; 0] sample_heap_ok ltac:(lia) ltac:(lia) eq_refl)).
    vm_compute. reflexivity.
Defined.

Lemma reference_roundtrip_witness :
  exists h', writeReference sample_heap (mkRef 2 3) 8 (mkRef 1 1) = Ok h' /\ readReference h' (mkRef 2 3) 8 = Ok (mkRef 1 1).
Proof.
  destruct (reference_roundtrip sample_heap (mkRef 2 3) (mkRef 1 1) (map Z.of_nat (seq 8 16)) 8) as (h' & H1 & H2 & _);
    [exact sample_heap_ok|reflexivity|lia|vm_compute; discriminate|cbn; lia|cbn; lia|].
  exists h'. exact (conj H1 H2).
Defined.
