(* ===== verification/WaitableRing.v ===== *)
(** * The ring buffer of a channel in the managed heap (src/runtime/managed_waitable.go)

    A buffered channel keeps a 40-byte identity object (the backing reference, head, length and
    capacity as little-endian words and the closed flag) and a backing object of [capacity] inline
    elements.  Encoding an element may allocate, and receiving an array or a struct allocates a cell:
    what the ring relies on of the value encoder is the class [InlineCodec]. *)

From S2P Require Import Prelude GoStd GoBytes Heap.

(** ** Computations on the heap *)

Inductive ring_error : Type :=
| HeapError (e : heap_error)
| AllocationError
| BufferFull
| BufferEmpty
| OwnerUnavailable
| StateInvalid.

Definition heapM (A : Type) : Type := managedHeap -> result ring_error A * managedHeap.

Definition heap_return {A} (a : A) : heapM A := fun h => (Ok a, h).
Definition heap_throw {A} (e : ring_error) : heapM A := fun h => (Err e, h).
Definition heap_bind {A B} (m : heapM A) (k : A -> heapM B) : heapM B :=
  fun h => match m h with (Ok a, h1) => k a h1 | (Err e, h1) => (Err e, h1) end.

(** An access that only reads, and one that changes payloads. *)
Definition reading {A} (f : managedHeap -> result heap_error A) : heapM A :=
  fun h => (result_map_err HeapError (f h), h).
Definition writing (f : managedHeap -> result heap_error managedHeap) : heapM unit :=
  fun h => match f h with Ok h' => (Ok tt, h') | Err e => (Err (HeapError e), h) end.

Notation "'let^' x := m 'in' k" := (heap_bind m (fun x => k))
  (at level 10, x binder, m at level 150, k at level 200, format "'[v' 'let^'  x  :=  m  'in' '/' k ']'") : go_scope.

Lemma heap_bind_ok {A B} (m : heapM A) (k : A -> heapM B) h a h1 : m h = (Ok a, h1) -> heap_bind m k h = k a h1.
Proof. intros H. unfold heap_bind. by rewrite H. Qed.

Lemma heap_bind_err {A B} (m : heapM A) (k : A -> heapM B) h e h1 : m h = (Err e, h1) -> heap_bind m k h = (Err e, h1).
Proof. intros H. unfold heap_bind. by rewrite H. Qed.

(** Storage may be added; the payloads that exist are kept. *)
Definition extends (h h' : managedHeap) : Prop :=
  heap_ok h' /\ forall ref bytes, payload h ref = Some bytes -> payload h' ref = Some bytes.

(** What the ring needs of the inline encoding of its element type. *)
Class InlineCodec (V : Type) : Type := {
  stride : Z;
  aggregate : bool;
  encode_inline : V -> heapM gostring;
  decode_inline : gostring -> V;
  new_cell : V -> heapM V
}.

Class InlineCodecLaws (V : Type) `{InlineCodec V} : Prop := {
  stride_range : 0 < stride < 2 ^ 32;
  encode_extends v h r h' : heap_ok h -> encode_inline v h = (r, h') -> extends h h';
  encode_decode v h b h' : heap_ok h -> encode_inline v h = (Ok b, h') -> Z.of_nat (length b) = stride /\ decode_inline b = v;
  cell_extends v h r h' : heap_ok h -> new_cell v h = (r, h') -> extends h h';
  cell_value v h v' h' : heap_ok h -> new_cell v h = (Ok v', h') -> v' = v
}.

Section Ring.
Context {V : Type} `{InlineCodecLaws V}.

(** ** Operations *)

Record managedWaitableStorage : Type := mkStorage { identity : guestRef; owner_present : bool }.

Record ring_state : Type := mkRing { backing : guestRef; rhead : Z; rlength : Z; rcapacity : Z; rclosed : bool }.

Definition managedWaitableIdentityBytes : Z := 40.

Definition encode_state (s : ring_state) : gostring :=
  le_bytes 4 (slot (backing s)) ++ le_bytes 4 (generation (backing s)) ++ le_bytes 8 (rhead s) ++ le_bytes 8 (rlength s) ++
  le_bytes 8 (rcapacity s) ++ (if rclosed s then [1] else [0]) ++ replicate 7 0.

Definition decode_state (raw : gostring) : ring_state :=
  mkRing (mkRef (le_word (window raw 0 4)) (le_word (window raw 4 4)))
    (le_word (window raw 8 8)) (le_word (window raw 16 8)) (le_word (window raw 24 8))
    (negb (default 0 (raw !! 32%nat) =? 0)).

Definition readState (st : managedWaitableStorage) : heapM ring_state :=
  let^ raw := reading (fun h => read h (identity st) 0 managedWaitableIdentityBytes) in
  heap_return (decode_state raw).

Definition writeState (st : managedWaitableStorage) (s : ring_state) : heapM unit :=
  writing (fun h => write h (identity st) 0 (encode_state s)).

Definition ring_length (st : managedWaitableStorage) (h : managedHeap) : Z :=
  match fst (readState st h) with Ok s => i64 (rlength s) | Err _ => 0 end.

Definition setClosed (st : managedWaitableStorage) (closed : bool) : heapM unit :=
  let^ s := readState st in
  writeState st (mkRing (backing s) (rhead s) (rlength s) (rcapacity s) closed).

(** [uint32(index) * stride]. *)
Definition element_offset (index : Z) : Z := u32 (u32 index * stride).

Definition append (st : managedWaitableStorage) (value : V) : heapM unit :=
  let^ s := readState st in
  if rclosed s || (rcapacity s <=? rlength s) || negb (valid (backing s)) then heap_throw BufferFull
  else if negb (owner_present st) then heap_throw OwnerUnavailable
  else
    let^ raw := encode_inline value in
    let index := u64 (rhead s + rlength s) mod rcapacity s in
    let^ _ := writing (fun h => write h (backing s) (element_offset index) raw) in
    writeState st (mkRing (backing s) (rhead s) (u64 (rlength s + 1)) (rcapacity s) (rclosed s)).

(** [uint32(head % capacity)]: a zero capacity panics. *)
Definition checked_mod (a b : Z) : heapM Z := if b =? 0 then heap_throw (HeapError Panic) else heap_return (a mod b).

(** Once the value is independent of the ring: the state first, then the slot. *)
Definition pop_commit (st : managedWaitableStorage) (s : ring_state) (index : Z) (value : V) : heapM V :=
  let head' := if rlength s =? 1 then 0 else u64 (rhead s + 1) mod rcapacity s in
  let^ _ := writeState st (mkRing (backing s) head' (rlength s - 1) (rcapacity s) (rclosed s)) in
  fun h =>
    match clear h (backing s) (element_offset index) stride with
    | Ok h' => (Ok value, h')
    | Err e => (Err (HeapError e), snd (writeState st s h))
    end.

Definition pop (st : managedWaitableStorage) : heapM V :=
  let^ s := readState st in
  if (rlength s =? 0) || negb (valid (backing s)) then heap_throw BufferEmpty
  else
    let^ index := checked_mod (rhead s) (rcapacity s) in
    let^ raw := reading (fun h => read h (backing s) (element_offset index) stride) in
    let value := decode_inline raw in
    let^ value := if aggregate then new_cell value else heap_return value in
    pop_commit st s index value.

Fixpoint snapshot_loop (count : nat) (index : Z) (s : ring_state) : heapM (list V) :=
  match count with
  | O => heap_return []
  | S count' =>
      let^ i := checked_mod (u64 (rhead s + index)) (rcapacity s) in
      let^ raw := reading (fun h => read h (backing s) (element_offset i) stride) in
      let^ values := snapshot_loop count' (index + 1) s in
      heap_return (decode_inline raw :: values)
  end.

Definition snapshotValues (st : managedWaitableStorage) : heapM (list V) :=
  let^ s := readState st in
  if rlength s =? 0 then heap_return []
  else if negb (valid (backing s)) || (rcapacity s =? 0) || (rcapacity s <? rlength s) then heap_throw StateInvalid
  else snapshot_loop (Z.to_nat (rlength s)) 0 s.

(** [CheckedStorageBytes(StorageRecordHeaderBytes, capacity, logical)]. *)
Definition CheckedStorageBytes (header count element : Z) : option Z :=
  if (2 ^ 63 - 1 <? header) || negb (element =? 0) && ((2 ^ 63 - 1 - header) / element <? count) then None
  else Some (u64 (header + u64 (count * element))).

(** [reserve] is the allocator: the layout of [count] elements and its logical bytes, to a published
    reference; [rollback] withdraws one. *)
Definition initialize (reserve : Z -> Z -> heapM guestRef) (rollback : guestRef -> managedHeap -> managedHeap) (logical : Z) (st : managedWaitableStorage) (capacity : Z) : heapM unit :=
  let^ b :=
    if negb (capacity =? 0) then
      match CheckedStorageBytes 16 capacity logical with
      | None => heap_throw AllocationError
      | Some bytes =>
          if (2 ^ 32 - 1 <? capacity) || (2 ^ 32 - 1 <? u64 (capacity * stride)) then heap_throw AllocationError
          else
            let^ b := reserve capacity bytes in
            if negb (valid b) then heap_throw AllocationError else heap_return b
      end
    else heap_return (mkRef 0 0) in
  fun h =>
    match writeState st (mkRing b 0 0 capacity false) h with
    | (Err e, h') => (Err e, rollback b h')
    | (Ok _, h') => (Ok tt, h')
    end.

(** ** Representation *)

(** Element [k] of the backing object. *)
Definition element (bytes : gostring) (k : Z) : gostring := window bytes (k * stride) stride.

(** Element [k] holds the value queued at distance [(k - head) mod cap] from the head, or zeros. *)
Definition slots_hold (bytes : gostring) (head cap : Z) (l : list V) : Prop :=
  forall k, 0 <= k < cap ->
    match l !! Z.to_nat ((k - head) mod cap) with
    | Some v => decode_inline (element bytes k) = v
    | None => element bytes k = replicate (Z.to_nat stride) 0
    end.

Record state_ok (s : ring_state) : Prop := {
  ok_slot : 0 <= slot (backing s) < 2 ^ 32;
  ok_generation : 0 <= generation (backing s) < 2 ^ 32;
  ok_capacity : 0 <= rcapacity s /\ rcapacity s * stride < 2 ^ 32;
  ok_head : 0 <= rhead s /\ rhead s < Z.max 1 (rcapacity s);
  ok_length : 0 <= rlength s <= rcapacity s
}.

Record ring_rep (h : managedHeap) (st : managedWaitableStorage) (s : ring_state) (l : list V) : Prop := {
  rep_state : state_ok s;
  rep_items : rlength s = Z.of_nat (length l);
  rep_identity : payload h (identity st) = Some (encode_state s);
  rep_backing : 0 < rcapacity s ->
    valid (backing s) = true /\ backing s <> identity st /\
    exists bytes, payload h (backing s) = Some bytes /\ rcapacity s * stride <= Z.of_nat (length bytes) /\
      slots_hold bytes (rhead s) (rcapacity s) l
}.

(** ** Lemmas: the identity record *)

Lemma encode_state_length s : length (encode_state s) = 40%nat.
Proof. unfold encode_state. rewrite !length_app, !le_bytes_length, length_replicate. by destruct (rclosed s). Qed.

Lemma window_app l1 l2 o n :
  o = Z.of_nat (length l1) -> 0 <= n -> window (l1 ++ l2) o n = take (Z.to_nat n) l2.
Proof. intros -> Hn. unfold window. by rewrite Nat2Z.id, drop_app_length. Qed.

Lemma pow256_4 : 256 ^ Z.of_nat 4 = 2 ^ 32.
Proof. reflexivity. Qed.

Lemma pow256_8 : 256 ^ Z.of_nat 8 = 2 ^ 64.
Proof. reflexivity. Qed.

Lemma decode_encode_state s : state_ok s -> decode_state (encode_state s) = s.
Proof.
  intros [S1 S2 [S3 S3'] [S4 S4'] S5]. pose proof stride_range. assert (rcapacity s < 2 ^ 32) by nia.
  destruct s as [[sl gen] hd len cap cl]. cbn [backing slot generation rhead rlength rcapacity rclosed] in *.
  unfold decode_state, encode_state. cbn [backing slot generation rhead rlength rcapacity rclosed].
  set (w1 := le_bytes 4 sl). set (w2 := le_bytes 4 gen). set (w3 := le_bytes 8 hd). set (w4 := le_bytes 8 len). set (w5 := le_bytes 8 cap).
  assert (length w1 = 4%nat /\ length w2 = 4%nat /\ length w3 = 8%nat /\ length w4 = 8%nat /\ length w5 = 8%nat) as (L1 & L2 & L3 & L4 & L5)
    by (repeat split; apply le_bytes_length).
  assert (forall (a w r : gostring) o n, o = Z.of_nat (length a) -> length w = Z.to_nat n -> 0 <= n -> window (a ++ w ++ r) o n = w) as Hw.
  { intros a w r o n Ho Hl Hn. rewrite window_app by done. rewrite <- Hl. apply take_app_length. }
  assert (forall (w r : gostring) n, length w = Z.to_nat n -> window (w ++ r) 0 n = w) as Hw0.
  { intros w r n Hl. unfold window. rewrite drop_0, <- Hl. apply take_app_length. }
  rewrite (Hw0 w1) by (done || lia). rewrite (Hw w1 w2) by (rewrite ?L1; done || lia).
  rewrite (app_assoc w1 w2). rewrite (Hw (w1 ++ w2) w3) by (rewrite ?length_app, ?L1, ?L2; done || lia).
  rewrite (app_assoc (w1 ++ w2) w3). rewrite (Hw ((w1 ++ w2) ++ w3) w4) by (rewrite ?length_app, ?L1, ?L2, ?L3; done || lia).
  rewrite (app_assoc ((w1 ++ w2) ++ w3) w4).
  rewrite (Hw (((w1 ++ w2) ++ w3) ++ w4) w5) by (rewrite ?length_app, ?L1, ?L2, ?L3, ?L4; done || lia).
  rewrite (app_assoc (((w1 ++ w2) ++ w3) ++ w4) w5).
  rewrite lookup_app_r by (rewrite !length_app, L1, L2, L3, L4, L5; lia).
  rewrite !length_app, L1, L2, L3, L4, L5. unfold w1, w2, w3, w4, w5.
  rewrite !le_word_bytes by (rewrite ?pow256_4, ?pow256_8; lia). by destruct cl.
Qed.

(** ** Lemmas: reading and writing the ring *)

(** The payloads outside [refs] are kept. *)
Definition keeps (refs : list guestRef) (h h' : managedHeap) : Prop :=
  heap_ok h' /\ forall ref bytes, ref ∉ refs -> payload h ref = Some bytes -> payload h' ref = Some bytes.

Lemma extends_keeps refs h h' : extends h h' -> keeps refs h h'.
Proof. intros [H1 H2]. split; [done|]. intros ref bytes _. apply H2. Qed.

Lemma updated_keeps refs h ref bytes h' : updated h ref bytes h' -> ref ∈ refs -> keeps refs h h'.
Proof. intros U Hin. split; [apply U|]. intros r b Hr Hb. rewrite (upd_others _ _ _ _ U); [done|]. by intros ->. Qed.

Lemma keeps_trans refs h1 h2 h3 : keeps refs h1 h2 -> keeps refs h2 h3 -> keeps refs h1 h3.
Proof. intros [A1 A2] [B1 B2]. split; [done|]. intros r b Hr Hb. eauto. Qed.

Lemma ring_extends h h' st s l : extends h h' -> ring_rep h st s l -> ring_rep h' st s l.
Proof.
  intros [E1 E2] [R1 R2 R3 R4]. split; [done|done|by apply E2|]. intros Hc. destruct (R4 Hc) as (B1 & B2 & bytes & B3 & B4).
  split; [done|]. split; [done|]. exists bytes. split; [by apply E2|done].
Qed.

Lemma readState_ok h st s l : heap_ok h -> ring_rep h st s l -> readState st h = (Ok s, h).
Proof.
  intros Hok R. destruct R. unfold readState, heap_bind, reading.
  rewrite (read_ok h (identity st) (encode_state s)) by (rewrite ?encode_state_length; done). cbn [result_map_err].
  unfold window. change (Z.to_nat managedWaitableIdentityBytes) with 40%nat. rewrite drop_0, firstn_all2 by (rewrite encode_state_length; lia).
  by rewrite decode_encode_state.
Qed.

Lemma writeState_ok h st s s' :
  heap_ok h -> payload h (identity st) = Some (encode_state s) ->
  exists h', writeState st s' h = (Ok tt, h') /\ updated h (identity st) (encode_state s') h'.
Proof.
  intros Hok Hp. destruct (write_ok h (identity st) (encode_state s) 0 (encode_state s')) as (e & h' & _ & Hw & U & _); [done|done|lia| |].
  { rewrite !encode_state_length. lia. }
  exists h'. unfold writeState, writing. rewrite Hw. split; [done|].
  rewrite <- (app_nil_r (encode_state s')), list_inserts_0_l in U by by rewrite !encode_state_length. done.
Qed.

Lemma element_offset_id k cap : 0 <= k < cap -> cap * stride < 2 ^ 32 -> element_offset k = k * stride.
Proof. intros Hk Hc. pose proof stride_range. unfold element_offset. rewrite (u32_id k), u32_id by nia. done. Qed.

Lemma element_inserts_same bytes k raw cap :
  0 <= k < cap -> cap * stride <= Z.of_nat (length bytes) -> Z.of_nat (length raw) = stride ->
  element (list_inserts (Z.to_nat (k * stride)) raw bytes) k = raw.
Proof.
  intros Hk Hc Hr. pose proof stride_range. unfold element.
  rewrite <- (window_inserts_same bytes (k * stride) raw) at 2 by nia. by rewrite Hr.
Qed.

Lemma element_inserts_other bytes k j raw cap :
  0 <= k < cap -> 0 <= j < cap -> j <> k -> cap * stride <= Z.of_nat (length bytes) -> Z.of_nat (length raw) = stride ->
  element (list_inserts (Z.to_nat (k * stride)) raw bytes) j = element bytes j.
Proof.
  intros Hk Hj Hne Hc Hr. pose proof stride_range. unfold element. apply window_ext; [apply length_inserts|nia|].
  intros i Hi. apply inserts_outside. assert (j * stride + stride <= k * stride \/ k * stride + stride <= j * stride) by nia. lia.
Qed.

(** ** Lemmas: the slots as a queue *)

Lemma slots_append bytes head cap l v raw :
  0 <= head < cap -> Z.of_nat (length l) < cap -> cap * stride <= Z.of_nat (length bytes) ->
  Z.of_nat (length raw) = stride -> decode_inline raw = v -> slots_hold bytes head cap l ->
  slots_hold (list_inserts (Z.to_nat ((head + Z.of_nat (length l)) mod cap * stride)) raw bytes) head cap (l ++ [v]).
Proof.
  intros Hh Hl Hc Hr Hd Hs k Hk. set (k0 := (head + Z.of_nat (length l)) mod cap).
  assert (0 <= k0 < cap) as Hk0 by (apply Z.mod_pos_bound; lia).
  assert ((k0 - head) mod cap = Z.of_nat (length l)) as E0.
  { unfold k0. rewrite Zminus_mod_idemp_l. replace (head + Z.of_nat (length l) - head) with (Z.of_nat (length l)) by lia. apply Z.mod_small. lia. }
  destruct (decide (k = k0)) as [->|Hne].
  - rewrite E0, Nat2Z.id, lookup_app_r, Nat.sub_diag by lia. cbn. by rewrite (element_inserts_same _ _ _ cap).
  - rewrite (element_inserts_other _ _ _ _ cap) by done. specialize (Hs k Hk).
    assert (Z.to_nat ((k - head) mod cap) <> length l) as Hi.
    { intros Ei. apply Hne. pose proof (Z.mod_pos_bound (k - head) cap ltac:(lia)). assert ((k - head) mod cap = Z.of_nat (length l)) as E1 by lia.
      rewrite <- (Z.mod_small k cap), <- (Z.mod_small k0 cap) by lia.
      replace k with (k - head + head) by lia. replace k0 with (k0 - head + head) by lia.
      rewrite <- (Zplus_mod_idemp_l (k - head)), <- (Zplus_mod_idemp_l (k0 - head)). by rewrite E0, E1. }
    destruct (decide (Z.to_nat ((k - head) mod cap) < length l)%nat) as [Hlt|Hge].
    + by rewrite lookup_app_l by done.
    + rewrite lookup_ge_None_2 by (rewrite length_app; cbn; lia). by rewrite lookup_ge_None_2 in Hs by lia.
Qed.

Lemma distance_pos k head cap : 0 <= head < cap -> 0 <= k < cap -> k <> head -> 0 < (k - head) mod cap.
Proof.
  intros Hh Hk Hne. destruct (div_mod_pos (k - head) cap ltac:(lia)) as [Hd Hm].
  destruct (decide ((k - head) mod cap = 0)) as [E0|]; [|lia]. exfalso. rewrite E0 in Hd.
  assert ((k - head) / cap = 0 \/ 1 <= (k - head) / cap \/ (k - head) / cap <= -1) as [Eq|[Hq|Hq]] by lia; nia.
Qed.

Lemma distance_next k head cap : 0 <= head < cap -> 0 <= k < cap ->
  (k - (head + 1) mod cap) mod cap = if decide (k = head) then cap - 1 else (k - head) mod cap - 1.
Proof.
  intros Hh Hk. rewrite Zminus_mod_idemp_r. case_decide as E.
  - subst. symmetry. apply Z.mod_unique_pos with (-1); lia.
  - destruct (div_mod_pos (k - head) cap ltac:(lia)) as [Hd Hm]. symmetry.
    pose proof (distance_pos k head cap Hh Hk E) as H0m.
    revert Hd Hm H0m. generalize ((k - head) mod cap) ((k - head) / cap). intros m q Hd Hm H0m.
    apply Z.mod_unique_pos with q; lia.
Qed.

Lemma slots_pop bytes head cap v l :
  0 <= head < cap -> Z.of_nat (length (v :: l)) <= cap -> cap * stride <= Z.of_nat (length bytes) -> slots_hold bytes head cap (v :: l) ->
  decode_inline (element bytes head) = v /\
  slots_hold (list_inserts (Z.to_nat (head * stride)) (replicate (Z.to_nat stride) 0) bytes)
    (if Z.of_nat (length (v :: l)) =? 1 then 0 else (head + 1) mod cap) cap l.
Proof.
  intros Hh Hl Hc Hs. pose proof stride_range as Hst. cbn [length] in *. split.
  { specialize (Hs head Hh). by rewrite Z.sub_diag, Z.mod_0_l in Hs by lia. }
  assert (Z.of_nat (length (replicate (Z.to_nat stride) 0)) = stride) as Hr by (rewrite length_replicate; lia).
  intros k Hk. pose proof (Hs k Hk) as Hsk.
  assert (k <> head -> 0 < (k - head) mod cap) as Hpos.
  { by apply distance_pos. }
  destruct (Z.eqb_spec (Z.of_nat (S (length l))) 1) as [E1|E1].
  - assert (l = []) as -> by (destruct l; [done|cbn in E1; lia]). rewrite lookup_nil.
    destruct (decide (k = head)) as [->|Hne]; [by rewrite (element_inserts_same _ _ _ cap)|].
    rewrite (element_inserts_other _ _ _ _ cap) by done. specialize (Hpos Hne).
    rewrite lookup_ge_None_2 in Hsk by (cbn; lia). done.
  - rewrite distance_next by done. case_decide as E.
    + subst. rewrite lookup_ge_None_2 by lia. by rewrite (element_inserts_same _ _ _ cap).
    + rewrite (element_inserts_other _ _ _ _ cap) by done. specialize (Hpos E).
      replace (Z.to_nat ((k - head) mod cap)) with (S (Z.to_nat ((k - head) mod cap - 1))) in Hsk by lia. done.
Qed.

(** ** Lemmas: operations *)

Definition with_length (s : ring_state) (n : Z) : ring_state := mkRing (backing s) (rhead s) n (rcapacity s) (rclosed s).

Lemma backing_other h st s l : heap_ok h -> ring_rep h st s l -> 0 < rcapacity s -> identity st <> backing s.
Proof. intros _ R Hc. destruct (rep_backing _ _ _ _ R Hc) as (_ & Hne & _). congruence. Qed.

Lemma append_ok h st s l v raw h1 :
  heap_ok h -> ring_rep h st s l -> rclosed s = false -> rlength s < rcapacity s -> owner_present st = true ->
  encode_inline v h = (Ok raw, h1) ->
  exists h2, append st v h = (Ok tt, h2) /\ ring_rep h2 st (with_length s (rlength s + 1)) (l ++ [v]) /\
    keeps [identity st; backing s] h h2.
Proof.
  intros Hok R Hcl Hlt Hown Henc. pose proof stride_range as Hst. pose proof (encode_extends _ _ _ _ Hok Henc) as Hext.
  destruct (encode_decode _ _ _ _ Hok Henc) as [Hlen Hdec].
  pose proof (ring_extends _ _ _ _ _ Hext R) as R1. pose proof (proj1 Hext) as Hok1.
  destruct R1 as [[S1 S2 [S3 S3'] [S4 S4'] S5] Hitems Hid Hback]. destruct (Hback ltac:(lia)) as (Bv & Bne & bytes & Hb & Hblen & Hslots).
  rewrite Z.max_r in S4' by lia.
  unfold append. rewrite (heap_bind_ok _ _ _ _ _ (readState_ok _ _ _ _ Hok R)), Hcl, (proj2 (Z.leb_gt _ _)), Bv, Hown by lia. cbn [orb negb].
  rewrite (heap_bind_ok _ _ _ _ _ Henc). cbv zeta.
  assert (0 <= (rhead s + rlength s) mod rcapacity s < rcapacity s) as Hk by (apply Z.mod_pos_bound; lia).
  assert (rcapacity s < 2 ^ 32) by nia.
  rewrite u64_id, (element_offset_id _ (rcapacity s)) by lia.
  destruct (write_ok h1 (backing s) bytes ((rhead s + rlength s) mod rcapacity s * stride) raw) as (e & h2 & _ & Hw1 & U & _);
    [done|done|nia|nia|].
  erewrite heap_bind_ok by (unfold writing; by rewrite Hw1).
  rewrite u64_id by lia.
  destruct (writeState_ok h2 st s (with_length s (rlength s + 1))) as (h3 & Hw & U3); [apply U| |].
  { rewrite (upd_others _ _ _ _ U); [done|]. congruence. }
  unfold with_length in Hw at 1. rewrite Hcl in Hw. rewrite Hw. exists h3. split; [done|]. split.
  - split.
    + split; cbn [with_length backing rcapacity rhead rlength]; try done; lia.
    + cbn. rewrite length_app. cbn. lia.
    + apply U3.
    + intros _. cbn [with_length backing rcapacity rhead]. split; [done|]. split; [done|].
      exists (list_inserts (Z.to_nat ((rhead s + rlength s) mod rcapacity s * stride)) raw bytes).
      split; [rewrite (upd_others _ _ _ _ U3) by done; apply U|]. split; [by rewrite length_inserts|].
      rewrite Hitems. apply slots_append; (done || lia).
  - eapply keeps_trans; [by apply extends_keeps|]. eapply keeps_trans; [eapply updated_keeps; [exact U|right; left]|].
    eapply updated_keeps; [exact U3|left].
Qed.

Lemma append_refused h st s l v :
  heap_ok h -> ring_rep h st s l -> rclosed s = true \/ rlength s = rcapacity s -> append st v h = (Err BufferFull, h).
Proof.
  intros Hok R Hc. unfold append. rewrite (heap_bind_ok _ _ _ _ _ (readState_ok _ _ _ _ Hok R)).
  destruct Hc as [->|Hc]; [done|]. rewrite Hc, Z.leb_refl, orb_true_r. done.
Qed.

Lemma append_cases h st s l v :
  heap_ok h -> ring_rep h st s l ->
  (append st v h = (Err BufferFull, h) /\ (rclosed s = true \/ rlength s = rcapacity s)) \/
  (~ (rclosed s = true \/ rlength s = rcapacity s) /\
    (owner_present st = false /\ append st v h = (Err OwnerUnavailable, h) \/
     (exists e h1, owner_present st = true /\ encode_inline v h = (Err e, h1) /\ append st v h = (Err e, h1)) \/
     (exists h2, append st v h = (Ok tt, h2) /\ rclosed s = false /\ rlength s < rcapacity s /\
        ring_rep h2 st (with_length s (rlength s + 1)) (l ++ [v]) /\ keeps [identity st; backing s] h h2))).
Proof.
  intros Hok R. destruct (decide (rclosed s = true \/ rlength s = rcapacity s)) as [Hf|Hf].
  { left. split; [by eapply append_refused|done]. }
  right. split; [done|]. assert (rclosed s = false) as Hcl by (destruct (rclosed s); [tauto|done]).
  assert (rlength s < rcapacity s) as Hlt by (pose proof (ok_length s (rep_state _ _ _ _ R)); lia).
  destruct (owner_present st) eqn:Eo.
  - right. destruct (encode_inline v h) as [[raw|e] h1] eqn:Henc.
    + right. destruct (append_ok h st s l v raw h1) as (h2 & E & R2 & K2); [done..|]. by exists h2.
    + left. exists e, h1. split; [done|]. split; [done|]. unfold append. rewrite (heap_bind_ok _ _ _ _ _ (readState_ok _ _ _ _ Hok R)), Hcl.
      destruct (rep_backing _ _ _ _ R ltac:(pose proof (ok_length s (rep_state _ _ _ _ R)); lia)) as (Bv & _).
      rewrite (proj2 (Z.leb_gt _ _)), Bv, Eo by lia. cbn [orb negb]. by rewrite (heap_bind_err _ _ _ _ _ Henc).
  - left. split; [done|]. unfold append. rewrite (heap_bind_ok _ _ _ _ _ (readState_ok _ _ _ _ Hok R)), Hcl.
    destruct (rep_backing _ _ _ _ R ltac:(pose proof (ok_length s (rep_state _ _ _ _ R)); lia)) as (Bv & _).
    rewrite (proj2 (Z.leb_gt _ _)), Bv, Eo by lia. done.
Qed.

Lemma pop_empty h st s : heap_ok h -> ring_rep h st s [] -> pop st h = (Err BufferEmpty, h).
Proof. intros Hok R. unfold pop. rewrite (heap_bind_ok _ _ _ _ _ (readState_ok _ _ _ _ Hok R)), (rep_items _ _ _ _ R). done. Qed.

Definition popped (s : ring_state) : ring_state :=
  mkRing (backing s) (if rlength s =? 1 then 0 else (rhead s + 1) mod rcapacity s) (rlength s - 1) (rcapacity s) (rclosed s).

Lemma pop_commit_ok h st s v l :
  heap_ok h -> ring_rep h st s (v :: l) ->
  exists h', pop_commit st s (rhead s) v h = (Ok v, h') /\ ring_rep h' st (popped s) l /\ keeps [identity st; backing s] h h'.
Proof.
  intros Hok [[S1 S2 [S3 S3'] [S4 S4'] S5] Hitems Hid Hback]. pose proof stride_range as Hst. cbn [length] in Hitems.
  destruct (Hback ltac:(lia)) as (Bv & Bne & bytes & Hb & Hblen & Hslots). rewrite Z.max_r in S4' by lia.
  assert (rcapacity s < 2 ^ 32) by nia. destruct (slots_pop bytes (rhead s) (rcapacity s) v l) as [_ Hrest]; [lia|cbn [length]; lia|done|done|].
  unfold pop_commit. cbv zeta. rewrite u64_id by lia.
  destruct (writeState_ok h st s (popped s)) as (h2 & Hw & U2); [done|done|]. unfold popped in Hw at 1. rewrite (heap_bind_ok _ _ _ _ _ Hw).
  rewrite (element_offset_id _ (rcapacity s)) by lia.
  destruct (clear_ok h2 (backing s) bytes (rhead s * stride) stride) as (h3 & -> & U3 & _); [apply U2| |nia|lia|nia|].
  { by rewrite (upd_others _ _ _ _ U2). }
  exists h3. split; [done|]. split; [split|].
  - split; cbn [popped backing rcapacity rhead rlength]; try done; [|lia].
    destruct (rlength s =? 1); [lia|]. pose proof (Z.mod_pos_bound (rhead s + 1) (rcapacity s)). lia.
  - cbn. lia.
  - rewrite (upd_others _ _ _ _ U3); [apply U2|congruence].
  - intros _. cbn [popped backing rcapacity rhead]. split; [done|]. split; [done|].
    eexists. split; [apply U3|]. split; [by rewrite length_inserts|]. cbn [length] in Hrest. by rewrite Hitems.
  - eapply keeps_trans; [eapply updated_keeps; [exact U2|left]|]. eapply updated_keeps; [exact U3|right; left].
Qed.

Lemma pop_ok h st s v l :
  heap_ok h -> ring_rep h st s (v :: l) ->
  (exists h', pop st h = (Ok v, h') /\ ring_rep h' st (popped s) l /\ keeps [identity st; backing s] h h') \/
  (aggregate = true /\ exists e h', pop st h = (Err e, h') /\ extends h h' /\ ring_rep h' st s (v :: l)).
Proof.
  intros Hok R. pose proof stride_range as Hst. pose proof R as [[S1 S2 [S3 S3'] [S4 S4'] S5] Hitems Hid Hback]. cbn [length] in Hitems.
  destruct (Hback ltac:(lia)) as (Bv & Bne & bytes & Hb & Hblen & Hslots). rewrite Z.max_r in S4' by lia.
  destruct (slots_pop bytes (rhead s) (rcapacity s) v l) as [Hval _]; [lia|cbn [length]; lia|done|done|].
  unfold pop. rewrite (heap_bind_ok _ _ _ _ _ (readState_ok _ _ _ _ Hok R)), (proj2 (Z.eqb_neq _ _)), Bv by lia. cbn [negb orb].
  unfold checked_mod. rewrite (proj2 (Z.eqb_neq (rcapacity s) 0)), Z.mod_small by lia.
  rewrite (heap_bind_ok (heap_return (rhead s)) _ _ _ _ eq_refl).
  erewrite heap_bind_ok.
  2: { unfold reading. rewrite (element_offset_id _ (rcapacity s)), (read_ok h (backing s) bytes) by (done || nia). done. }
  unfold element in Hval. cbv zeta. rewrite Hval.
  destruct aggregate eqn:Ea.
  - destruct (new_cell v h) as [[v'|e] h1] eqn:Ec.
    + left. pose proof (cell_extends _ _ _ _ Hok Ec) as Hext. assert (v' = v) as -> by by eapply cell_value.
      rewrite (heap_bind_ok _ _ _ _ _ Ec).
      destruct (pop_commit_ok h1 st s v l) as (h2 & Hp & R2 & K2); [apply Hext|by eapply ring_extends|].
      exists h2. split; [exact Hp|]. split; [done|]. eapply keeps_trans; [by apply extends_keeps|done].
    + right. split; [done|]. exists e, h1. pose proof (cell_extends _ _ _ _ Hok Ec) as Hext.
      split; [by rewrite (heap_bind_err _ _ _ _ _ Ec)|]. split; [done|]. by eapply ring_extends.
  - left. rewrite (heap_bind_ok (heap_return v) _ _ _ _ eq_refl).
    destruct (pop_commit_ok h st s v l) as (h2 & Hp & R2 & K2); [done|done|]. by exists h2.
Qed.

Lemma setClosed_ok h st s l b :
  heap_ok h -> ring_rep h st s l ->
  exists h', setClosed st b h = (Ok tt, h') /\ ring_rep h' st (mkRing (backing s) (rhead s) (rlength s) (rcapacity s) b) l /\
    keeps [identity st; backing s] h h'.
Proof.
  intros Hok R. unfold setClosed. rewrite (heap_bind_ok _ _ _ _ _ (readState_ok _ _ _ _ Hok R)). pose proof R as [[S1 S2 S3 S4 S5] Hitems Hid Hback].
  destruct (writeState_ok h st s (mkRing (backing s) (rhead s) (rlength s) (rcapacity s) b)) as (h' & Hw & U); [done|done|].
  exists h'. split; [done|]. split; [split|]; [by split|done|apply U| |eapply updated_keeps; [exact U|left]].
  intros Hc. destruct (Hback Hc) as (B1 & B2 & bytes & B3 & B4). split; [done|]. split; [done|]. exists bytes. split; [|done].
  by rewrite (upd_others _ _ _ _ U).
Qed.

Lemma snapshot_loop_ok h s bytes l n i :
  heap_ok h -> state_ok s -> 0 < rcapacity s -> payload h (backing s) = Some bytes -> rcapacity s * stride <= Z.of_nat (length bytes) ->
  slots_hold bytes (rhead s) (rcapacity s) l -> rlength s = Z.of_nat (length l) -> (i + n = length l)%nat ->
  snapshot_loop n (Z.of_nat i) s h = (Ok (drop i l), h).
Proof.
  intros Hok [S1 S2 [S3 S3'] [S4 S4'] S5] Hc Hb Hlen Hs Hl. pose proof stride_range as Hst. rewrite Z.max_r in S4' by lia.
  assert (rcapacity s < 2 ^ 32) by nia.
  revert i. induction n as [|n IH]; intros i Hn; cbn [snapshot_loop].
  { rewrite drop_ge by lia. done. }
  unfold checked_mod. rewrite (proj2 (Z.eqb_neq (rcapacity s) 0)), u64_id by lia.
  set (k := (rhead s + Z.of_nat i) mod rcapacity s). assert (0 <= k < rcapacity s) as Hk by (apply Z.mod_pos_bound; lia).
  rewrite (heap_bind_ok (heap_return k) _ _ _ _ eq_refl). erewrite heap_bind_ok.
  2: { unfold reading. rewrite (element_offset_id _ (rcapacity s)), (read_ok h (backing s) bytes) by (done || nia). done. }
  replace (Z.of_nat i + 1) with (Z.of_nat (S i)) by lia. rewrite (heap_bind_ok _ _ _ _ _ (IH (S i) ltac:(lia))).
  specialize (Hs k Hk). replace ((k - rhead s) mod rcapacity s) with (Z.of_nat i) in Hs.
  2: { unfold k. rewrite Zminus_mod_idemp_l. replace (rhead s + Z.of_nat i - rhead s) with (Z.of_nat i) by lia. rewrite Z.mod_small; lia. }
  rewrite Nat2Z.id in Hs. destruct (l !! i) as [v|] eqn:Ev; [|apply lookup_ge_None in Ev; lia].
  unfold element in Hs. rewrite Hs. unfold heap_return. by rewrite <- (drop_S _ _ _ Ev).
Qed.

Lemma snapshot_ok h st s l : heap_ok h -> ring_rep h st s l -> snapshotValues st h = (Ok l, h).
Proof.
  intros Hok R. unfold snapshotValues. rewrite (heap_bind_ok _ _ _ _ _ (readState_ok _ _ _ _ Hok R)).
  destruct R as [Hst Hitems Hid Hback]. pose proof (ok_length s Hst) as Hlen. destruct (Z.eqb_spec (rlength s) 0) as [E|E].
  { by destruct l; [|cbn in Hitems; lia]. }
  destruct (Hback ltac:(lia)) as (B1 & B2 & bytes & B3 & B4 & B5).
  rewrite B1, (proj2 (Z.eqb_neq _ _)), (proj2 (Z.ltb_ge _ _)) by lia. cbn [negb orb].
  rewrite Hitems, Nat2Z.id. by apply (snapshot_loop_ok h s bytes l (length l) 0); (done || lia).
Qed.

Lemma ring_length_ok h st s l : heap_ok h -> ring_rep h st s l -> ring_length st h = Z.of_nat (length l).
Proof.
  intros Hok R. unfold ring_length. rewrite (readState_ok _ _ _ _ Hok R). cbn [fst]. destruct R as [[S1 S2 [S3 S3'] S4 S5] Hitems _ _].
  pose proof stride_range. rewrite Hitems in *. apply i64_id. nia.
Qed.

(** ** Theorems *)

(** C16. A channel's ring in the managed heap is a bounded queue: its length and snapshot are those of the
    queue; append adds at the back unless the ring is closed or full, when and only when it is refused as
    full and nothing changes; otherwise it fails only without an owner or with the encoder's error; pop removes the front in order of arrival and clears its slot; closing keeps the contents.
    A failed encoding or a failed allocation leaves the queue as it was, and no operation changes the
    payload of an object outside the ring. *)
Theorem ring_refines_queue (h : managedHeap) (st : managedWaitableStorage) (s : ring_state) (l : list V) :
  heap_ok h -> ring_rep h st s l ->
  ring_length st h = Z.of_nat (length l) /\
  snapshotValues st h = (Ok l, h) /\
  (forall v, let (r, h') := append st v h in
     match r with
     | Ok _ => rclosed s = false /\ Z.of_nat (length l) < rcapacity s /\
         ring_rep h' st (with_length s (rlength s + 1)) (l ++ [v]) /\ keeps [identity st; backing s] h h'
     | Err e => ring_rep h' st s l /\ extends h h' /\
         ((rclosed s = true \/ Z.of_nat (length l) = rcapacity s) /\ e = BufferFull /\ h' = h \/
          rclosed s = false /\ Z.of_nat (length l) < rcapacity s /\
            (owner_present st = false /\ e = OwnerUnavailable /\ h' = h \/ owner_present st = true /\ encode_inline v h = (Err e, h')))
     end) /\
  (let (r, h') := pop st h in
     match l, r with
     | v :: l', Ok v' => v' = v /\ ring_rep h' st (popped s) l' /\ keeps [identity st; backing s] h h'
     | v :: l', Err _ => aggregate = true /\ ring_rep h' st s l /\ extends h h'
     | [], _ => r = Err BufferEmpty /\ h' = h
     end) /\
  (exists h', setClosed st true h = (Ok tt, h') /\
     ring_rep h' st (mkRing (backing s) (rhead s) (rlength s) (rcapacity s) true) l /\ keeps [identity st; backing s] h h').
Proof.
  intros Hok R. split; [by eapply ring_length_ok|]. split; [by eapply snapshot_ok|]. split; [|split].
  - intros v. assert (extends h h) as Hrefl by by split. rewrite <- (rep_items _ _ _ _ R). pose proof (ok_length s (rep_state _ _ _ _ R)) as Hle.
    destruct (append_cases h st s l v Hok R) as [[-> Hf]|[Hf [[Ho ->]|[(e & h1 & Ho & Henc & ->)|(h2 & -> & H2)]]]]; [split; [done|]; split; [done|]; by left| | |done].
    { split; [done|]. split; [done|]. right. split; [by destruct (rclosed s); [tauto|]|]. split; [lia|]. by left. }
    pose proof (encode_extends _ _ _ _ Hok Henc) as Hext. split; [by eapply ring_extends|]. split; [done|]. right.
    split; [by destruct (rclosed s); [tauto|]|]. split; [lia|]. by right.
  - destruct l as [|v l].
    + rewrite (pop_empty _ _ _ Hok R). done.
    + destruct (pop_ok _ _ _ _ _ Hok R) as [(h' & -> & R' & K')|(Ha & e & h' & -> & He & R')]; done.
  - by apply setClosed_ok.
Qed.

(** What [initialize] relies on of the allocator: a new, zeroed object with room for the elements. *)
Definition allocates (reserve : Z -> Z -> heapM guestRef) : Prop :=
  forall count bytes h b h', heap_ok h -> reserve count bytes h = (Ok b, h') ->
    extends h h' /\ payload h b = None /\ 0 <= slot b < 2 ^ 32 /\ 0 <= generation b < 2 ^ 32 /\
    exists n, payload h' b = Some (replicate n 0) /\ count * stride <= Z.of_nat n.

(** A new channel's ring is the empty open queue of its capacity, and the checks on the capacity keep
    every element offset inside 32 bits. *)
Theorem ring_initialized (reserve : Z -> Z -> heapM guestRef) (rollback : guestRef -> managedHeap -> managedHeap) (logical : Z) (h h' : managedHeap) (st : managedWaitableStorage) (capacity : Z) s0 :
  allocates reserve -> heap_ok h -> payload h (identity st) = Some (encode_state s0) -> 0 <= capacity < 2 ^ 64 ->
  initialize reserve rollback logical st capacity h = (Ok tt, h') ->
  exists s, ring_rep h' st s [] /\ rcapacity s = capacity /\ rclosed s = false /\
    capacity * stride < 2 ^ 32 /\ (forall k, 0 <= k < capacity -> element_offset k = k * stride).
Proof.
  intros Halloc Hok Hid Hcap. pose proof stride_range as Hst. unfold initialize.
  destruct (Z.eqb_spec capacity 0) as [->|Hc]; cbn [negb].
  { rewrite (heap_bind_ok (heap_return (mkRef 0 0)) _ _ _ _ eq_refl).
    destruct (writeState_ok h st s0 (mkRing (mkRef 0 0) 0 0 0 false) Hok Hid) as (h1 & -> & U). intros [= <-].
    exists (mkRing (mkRef 0 0) 0 0 0 false). split; [|split; [done|split; [done|split; [done|lia]]]]. split; [|done|apply U|cbn; lia].
    split; cbn; lia. }
  destruct (CheckedStorageBytes 16 capacity logical) as [bytes|]; [|done].
  destruct ((2 ^ 32 - 1 <? capacity) || _) eqn:E; [done|]. breflect. rewrite u64_id in * by nia.
  unfold heap_bind at 1 2. destruct (reserve capacity bytes h) as [[b|e] h1] eqn:Er; [|done].
  destruct (Halloc _ _ _ _ _ Hok Er) as ([Hok1 Hext] & Hnew & Hs & Hg & n & Hb & Hn).
  destruct (valid b) eqn:Ev; cbn [negb heap_return heap_throw]; [|done].
  destruct (writeState_ok h1 st s0 (mkRing b 0 0 capacity false) Hok1 (Hext _ _ Hid)) as (h2 & -> & U). intros [= <-].
  assert (b <> identity st) as Hne by congruence.
  exists (mkRing b 0 0 capacity false). split; [|split; [done|split; [done|split; [lia|]]]].
  2: { intros k Hk. apply (element_offset_id k capacity); lia. }
  split; [split; cbn; lia|done|apply U|]. intros _. cbn [backing rcapacity rhead]. split; [done|]. split; [done|].
  exists (replicate n 0). split; [by rewrite (upd_others _ _ _ _ U)|]. split; [by rewrite length_replicate|].
  intros k Hk. rewrite lookup_nil. unfold element, window. rewrite drop_replicate, take_replicate. f_equal. nia.
Qed.

End Ring.

(** ** Channels of 64-bit words *)

Section Words.

#[local] Instance word_codec : InlineCodec Z := {
  stride := 8;
  aggregate := false;
  encode_inline := fun v => if (0 <=? v) && (v <? 2 ^ 64) then heap_return (le_bytes 8 v) else heap_throw AllocationError;
  decode_inline := le_word;
  new_cell := heap_return
}.

#[local] Instance word_codec_laws : InlineCodecLaws Z.
Proof.
  split; cbn [stride encode_inline decode_inline new_cell word_codec].
  - lia.
  - intros v h r h' Hok. case_if; unfold heap_return, heap_throw; intros [= <- <-]; by split.
  - intros v h b h' Hok. destruct ((0 <=? v) && (v <? 2 ^ 64)) eqn:E; [|done]. breflect. unfold heap_return. intros [= <- <-].
    split; [exact (f_equal Z.of_nat (le_bytes_length 8 v))|]. apply (le_word_bytes 8). rewrite pow256_8. lia.
  - intros v h r h' Hok. unfold heap_return. intros [= <- <-]. by split.
  - intros v h v' h' Hok. unfold heap_return. by intros [= <- <-].
Qed.

(** A ring of two words that holds 7. *)
Definition word_ring : ring_state := mkRing (mkRef 2 1) 1 1 2 false.
Definition word_storage : managedWaitableStorage := mkStorage (mkRef 1 1) true.
Definition word_heap : managedHeap :=
  pair_heap (mkObject managedPublished 1 0 0 40 true) (mkObject managedPublished 1 0 40 16 true)
    [mkPage (encode_state word_ring ++ replicate 8 0 ++ le_bytes 8 7) []].

Lemma word_heap_ok : heap_ok word_heap.
Proof.
  apply pair_heap_ok; [| |right; left; cbn; lia]; (split; [cbn; lia|]); eexists; (split; [reflexivity|]);
    vm_compute; (split; [discriminate|]); (split; [reflexivity|]); discriminate.
Qed.

Lemma word_ring_rep : ring_rep word_heap word_storage word_ring [7].
Proof.
  split; [split; cbn; lia|reflexivity|vm_compute; reflexivity|]. intros _. split; [reflexivity|]. split; [discriminate|].
  exists (replicate 8 0 ++ le_bytes 8 7). split; [vm_compute; reflexivity|]. split; [vm_compute; discriminate|].
  intros k Hk. cbn in Hk. assert (k = 0 \/ k = 1) as [-> | ->] by lia; vm_compute; reflexivity.
Qed.

Lemma ring_refines_queue_witness :
  ring_length word_storage word_heap = 1 /\ snapshotValues word_storage word_heap = (Ok [7], word_heap).
Proof.
  destruct (ring_refines_queue word_heap word_storage word_ring [7] word_heap_ok word_ring_rep) as (H1 & H2 & _). exact (conj H1 H2).
Defined.

(** An allocator that has one object to give: the empty one of the second slot. *)
Definition spare_heap : managedHeap :=
  pair_heap (mkObject managedPublished 1 0 0 40 true) (mkObject managedFree 1 0 40 16 true) [mkPage (encode_state word_ring ++ replicate 16 0) []].
Definition granted_heap : managedHeap :=
  pair_heap (mkObject managedPublished 1 0 0 40 true) (mkObject managedPublished 1 0 40 16 true) [mkPage (encode_state word_ring ++ replicate 16 0) []].
Definition spare_reserve (count bytes : Z) : heapM guestRef := fun h =>
  if decide (h = spare_heap /\ count = 2) then (Ok (mkRef 2 1), granted_heap) else (Err AllocationError, h).

Lemma granted_heap_ok : heap_ok granted_heap.
Proof.
  apply pair_heap_ok; [| |right; left; cbn; lia]; (split; [cbn; lia|]); eexists; (split; [reflexivity|]);
    vm_compute; (split; [discriminate|]); (split; [reflexivity|]); discriminate.
Qed.

Lemma spare_heap_ok : heap_ok spare_heap.
Proof.
  apply pair_heap_ok; [| |right; left; cbn; lia]; (split; [cbn; lia|]); eexists; (split; [reflexivity|]);
    vm_compute; (split; [discriminate|]); (split; [reflexivity|]); discriminate.
Qed.

Lemma spare_allocates : allocates spare_reserve.
Proof.
  intros count bytes h b h' Hok. unfold spare_reserve. destruct (decide _) as [[-> ->]|]; [|done]. intros [= <- <-].
  split; [split; [exact granted_heap_ok|]|].
  - intros ref raw Hp. destruct (payload_resolve _ _ _ Hp) as [e He]. apply resolve_ok in He as (He & Hs & Hg).
    destruct (pair_object _ _ _ _ _ He Hs) as [[E ->]|[_ ->]]; [|done]. destruct ref as [sl gen]. cbn [slot generation obj_generation] in *.
    subst. rewrite <- Hp. vm_compute. reflexivity.
  - split; [vm_compute; reflexivity|]. split; [cbn; lia|]. split; [cbn; lia|]. exists 16%nat.
    split; [vm_compute; reflexivity|vm_compute; discriminate].
Qed.

Lemma ring_initialized_witness :
  exists h' s, initialize spare_reserve (fun _ h => h) 8 word_storage 2 spare_heap = (Ok tt, h') /\ ring_rep h' word_storage s [] /\ rcapacity s = 2.
Proof.
  destruct (initialize spare_reserve (fun _ h => h) 8 word_storage 2 spare_heap) as [r h'] eqn:E.
  assert (r = Ok tt) as -> by (change r with (fst (r, h')); rewrite <- E; vm_compute; reflexivity).
  destruct (ring_initialized spare_reserve (fun _ h => h) 8 spare_heap h' word_storage 2 word_ring) as (s & H1 & H2 & _);
    [exact spare_allocates|exact spare_heap_ok|vm_compute; reflexivity|lia|exact E|].
  exists h', s. exact (conj eq_refl (conj H1 H2)).
Defined.

End Words.
