(* ===== verification/Channel.v ===== *)
(** * Channels and selections (src/runtime/channel_select.go, waitable.go, wait.go)

    Every send, receive and select of a guest program is a selection: a list of cases that are tried
    together and, when none is ready, registered with their channels.  The cases registered with a
    channel form a doubly linked list through the cases themselves; a case is addressed by its
    selection and its index.  A channel's buffer is either a Go slice or a ring in the managed heap:
    the selection code only uses the interface [Buffers].  All operations run inside the scheduler's
    control transaction, one at a time.  The module's typing decisions (the channel behind a value, its
    direction, the conversion of a sent value, the zero value) are the record [typing]. *)

From S2P Require Import Prelude GoStd TaskOwnership.

Abbreviation chan := N.
Abbreviation sel := N.
Abbreviation task := N.
Abbreviation case_id := (N * N)%type.

(** ** The interface of channel buffers *)

Record bqueue (V : Type) : Type := mkQueue { items : list V; limit : Z; shut : bool }.
Arguments mkQueue {V} items limit shut.
Arguments items {V} b.
Arguments limit {V} b.
Arguments shut {V} b.

Inductive channel_error : Type :=
| GuestPanic (message : string)
| BufferError
| LimitError
| TypeError.

#[export] Instance channel_error_eq_dec : EqDecision channel_error.
Proof. solve_decision. Defined.

Class Buffers (W V : Type) : Type := {
  buf_len : W -> chan -> Z;
  buf_append : chan -> V -> W -> result channel_error unit * W;
  buf_pop : chan -> W -> result channel_error V * W;
  buf_close : chan -> W -> result channel_error unit * W
}.

(** The buffers of all channels are bounded queues; an operation on one keeps the others, and a
    failing operation keeps all. *)
Class BuffersLaws (W V : Type) `{Buffers W V} : Type := {
  holds : W -> gmap chan (bqueue V) -> Prop;
  holds_len w m c q : holds w m -> m !! c = Some q -> buf_len w c = Z.of_nat (length (items q)) /\ buf_len w c <= limit q;
  holds_append w m c q v r w' :
    holds w m -> m !! c = Some q -> shut q = false -> Z.of_nat (length (items q)) < limit q -> buf_append c v w = (r, w') ->
    holds w' (match r with Ok _ => <[c := mkQueue (items q ++ [v]) (limit q) (shut q)]> m | Err _ => m end);
  holds_pop w m c q v l r w' :
    holds w m -> m !! c = Some q -> items q = v :: l -> buf_pop c w = (r, w') ->
    match r with
    | Ok v' => v' = v /\ holds w' (<[c := mkQueue l (limit q) (shut q)]> m)
    | Err _ => holds w' m
    end;
  holds_close w m c q :
    holds w m -> m !! c = Some q ->
    exists w', buf_close c w = (Ok tt, w') /\ holds w' (<[c := mkQueue (items q) (limit q) true]> m)
}.

(** ** State *)

Record selectCase (V : Type) : Type := mkCase {
  resource : option chan;
  send : bool;
  value : V;
  zero : V;
  previous : option case_id;
  next : option case_id;
  registered : bool
}.
Arguments mkCase {V} resource send value zero previous next registered.
Arguments resource {V} s.
Arguments send {V} s.
Arguments value {V} s.
Arguments zero {V} s.
Arguments previous {V} s.
Arguments next {V} s.
Arguments registered {V} s.

Record channelSelection (V : Type) : Type := mkSelection {
  ncases : N;
  index : Z;
  done : bool;
  svalue : V;
  sok : bool;
  serr : option channel_error;
  owner : option (task * option ticket);
  allocated : bool;
  admittedBytes : Z
}.
Arguments mkSelection {V} ncases index done svalue sok serr owner allocated admittedBytes.
Arguments ncases {V} c.
Arguments index {V} c.
Arguments done {V} c.
Arguments svalue {V} c.
Arguments sok {V} c.
Arguments serr {V} c.
Arguments owner {V} c.
Arguments allocated {V} c.
Arguments admittedBytes {V} c.

Record waitableResource : Type := mkChannel {
  Capacity : Z;
  Closed : bool;
  selectHead : option case_id;
  selectTail : option case_id
}.

Record world (W V : Type) : Type := mkWorld {
  chans : gmap chan waitableResource;
  sels : gmap sel (channelSelection V);
  cases : gmap case_id (selectCase V);
  bufs : W;
  tasks : gmap task taskOwnership;
  selectState : Z;
  charged : Z
}.
Arguments mkWorld {W V} chans sels cases bufs tasks selectState charged.
Arguments chans {W V} w.
Arguments sels {W V} w.
Arguments cases {W V} w.
Arguments bufs {W V} w.
Arguments tasks {W V} w.
Arguments selectState {W V} w.
Arguments charged {W V} w.

(** What the selection code asks of the module and of the memory limits. *)
Record typing (V CV : Type) : Type := mkTyping {
  waitableValueData : CV -> result channel_error (option chan);
  waitableCanSend : CV -> bool;
  waitableCanRecv : CV -> bool;
  normalizeSend : chan -> V -> result channel_error V;
  zeroValue : CV -> option chan -> V;
  collectionSize : Z -> bool;
  admits : Z -> Z -> bool
}.
Arguments mkTyping {V CV}.
Arguments waitableValueData {V CV} t.
Arguments waitableCanSend {V CV} t.
Arguments waitableCanRecv {V CV} t.
Arguments normalizeSend {V CV} t.
Arguments zeroValue {V CV} t.
Arguments collectionSize {V CV} t.
Arguments admits {V CV} t.

Section Channel.
Context {W V CV : Type} `{BuffersLaws W V} (nil_value : V) (T : typing V CV).

Abbreviation state := (world W V).

Definition set_chan (c : chan) (f : waitableResource -> waitableResource) (w : state) : state :=
  mkWorld (alter f c (chans w)) (sels w) (cases w) (bufs w) (tasks w) (selectState w) (charged w).
Definition set_sel (s : sel) (f : channelSelection V -> channelSelection V) (w : state) : state :=
  mkWorld (chans w) (alter f s (sels w)) (cases w) (bufs w) (tasks w) (selectState w) (charged w).
Definition set_case (id : case_id) (f : selectCase V -> selectCase V) (w : state) : state :=
  mkWorld (chans w) (sels w) (alter f id (cases w)) (bufs w) (tasks w) (selectState w) (charged w).
Definition set_bufs (b : W) (w : state) : state :=
  mkWorld (chans w) (sels w) (cases w) b (tasks w) (selectState w) (charged w).
Definition set_task (t : task) (f : taskOwnership -> taskOwnership) (w : state) : state :=
  mkWorld (chans w) (sels w) (cases w) (bufs w) (alter f t (tasks w)) (selectState w) (charged w).
Definition set_state (x : Z) (w : state) : state :=
  mkWorld (chans w) (sels w) (cases w) (bufs w) (tasks w) x (charged w).
Definition set_charged (x : Z) (w : state) : state :=
  mkWorld (chans w) (sels w) (cases w) (bufs w) (tasks w) (selectState w) x.

Definition put_previous (p : option case_id) (k : selectCase V) : selectCase V :=
  mkCase (resource k) (send k) (value k) (zero k) p (next k) (registered k).
Definition put_next (n : option case_id) (k : selectCase V) : selectCase V :=
  mkCase (resource k) (send k) (value k) (zero k) (previous k) n (registered k).
Definition put_registered (b : bool) (k : selectCase V) : selectCase V :=
  mkCase (resource k) (send k) (value k) (zero k) (previous k) (next k) b.
Definition put_head (h : option case_id) (ch : waitableResource) : waitableResource :=
  mkChannel (Capacity ch) (Closed ch) h (selectTail ch).
Definition put_tail (t : option case_id) (ch : waitableResource) : waitableResource :=
  mkChannel (Capacity ch) (Closed ch) (selectHead ch) t.
Definition put_error (e : option channel_error) (x : channelSelection V) : channelSelection V :=
  mkSelection (ncases x) (index x) (done x) (svalue x) (sok x) e (owner x) (allocated x) (admittedBytes x).
Definition put_owner (o : option (task * option ticket)) (x : channelSelection V) : channelSelection V :=
  mkSelection (ncases x) (index x) (done x) (svalue x) (sok x) (serr x) o (allocated x) (admittedBytes x).

(** [range selection.cases]: the addresses of the cases of a selection. *)
Definition case_ids (w : state) (s : sel) : list case_id :=
  match sels w !! s with
  | Some x => map (fun i => (s, N.of_nat i)) (seq 0 (N.to_nat (ncases x)))
  | None => []
  end.

Definition is_done (w : state) (s : sel) : bool := match sels w !! s with Some x => done x | None => false end.

(** ** Registration *)

Definition release (s : sel) (w : state) : state :=
  match sels w !! s with
  | Some x =>
      if negb (allocated x) then w
      else set_sel s (fun x => mkSelection (ncases x) (index x) (done x) (svalue x) (sok x) (serr x) (owner x) false 0)
             (set_charged (charged w - admittedBytes x) w)
  | None => w
  end.

Definition register_case (id : case_id) (w : state) : state :=
  match cases w !! id with
  | Some k =>
      match resource k with
      | None => w
      | Some c =>
          match chans w !! c with
          | None => w
          | Some ch =>
              let w1 := set_case id (put_previous (selectTail ch)) w in
              let w2 := match selectTail ch with
                        | None => set_chan c (put_head (Some id)) w1
                        | Some t => set_case t (put_next (Some id)) w1
                        end in
              set_case id (put_registered true) (set_chan c (put_tail (Some id)) w2)
          end
      end
  | None => w
  end.

Definition register (s : sel) (w : state) : state := fold_left (fun w id => register_case id w) (case_ids w s) w.

Definition unregister_case (id : case_id) (w : state) : state :=
  match cases w !! id with
  | Some k =>
      if negb (registered k) then w
      else
        match resource k with
        | None => w
        | Some c =>
            let w1 := match previous k with
                      | None => set_chan c (put_head (next k)) w
                      | Some p => set_case p (put_next (next k)) w
                      end in
            let w2 := match next k with
                      | None => set_chan c (put_tail (previous k)) w1
                      | Some n => set_case n (put_previous (previous k)) w1
                      end in
            set_case id (fun k => put_registered false (put_next None (put_previous None k))) w2
        end
  | None => w
  end.

Definition unregister (s : sel) (w : state) : state :=
  release s (fold_left (fun w id => unregister_case id w) (case_ids w s) w).

(** ** Notification and completion *)

Definition notify_owner (s : sel) (w : state) : state :=
  match sels w !! s with
  | Some x => match owner x with Some (t, k) => set_task t (fun o => snd (notify k o)) w | None => w end
  | None => w
  end.

Fixpoint notify_loop (fuel : nat) (p : option case_id) (w : state) : state :=
  match fuel, p with
  | S fuel', Some id =>
      match cases w !! id with
      | Some k => notify_loop fuel' (next k) (notify_owner (fst id) w)
      | None => w
      end
  | _, _ => w
  end.

(** Following [next] visits each case at most once. *)
Definition walk_fuel (w : state) : nat := S (size (cases w)).

Definition notifySelections (c : chan) (w : state) : state :=
  match chans w !! c with Some ch => notify_loop (walk_fuel w) (selectHead ch) w | None => w end.

Definition complete (s : sel) (i : Z) (v : V) (ok : bool) (w : state) : state :=
  let w1 := unregister s w in
  notify_owner s
    (set_sel s (fun x => mkSelection (ncases x) i true v ok (serr x) (owner x) (allocated x) (admittedBytes x)) w1).

(** ** Peers *)

Fixpoint peer_loop (fuel : nat) (w : state) (p : option case_id) (dir : bool) (own : option sel) : option case_id :=
  match fuel, p with
  | S fuel', Some id =>
      match cases w !! id with
      | Some k =>
          if negb (bool_decide (Some (fst id) = own)) && negb (Bool.eqb (send k) dir) && negb (is_done w (fst id)) then Some id
          else peer_loop fuel' w (next k) dir own
      | None => None
      end
  | _, _ => None
  end.

Definition selectionPeer (w : state) (c : chan) (dir : bool) (own : option sel) : option case_id :=
  match chans w !! c with Some ch => peer_loop (walk_fuel w) w (selectHead ch) dir own | None => None end.

(** ** Buffers *)

Definition bufferLen (w : state) (c : chan) : Z := buf_len (bufs w) c.

Definition appendBuffer (c : chan) (v : V) (w : state) : result channel_error unit * state :=
  match buf_append c v (bufs w) with
  | (Err e, b) => (Err e, set_bufs b w)
  | (Ok _, b) => (Ok tt, notifySelections c (set_bufs b w))
  end.

Definition popBuffer (c : chan) (w : state) : result channel_error V * state :=
  match buf_pop c (bufs w) with
  | (Err e, b) => (Err e, set_bufs b w)
  | (Ok v, b) => (Ok v, notifySelections c (set_bufs b w))
  end.

(** ** The commit of a selection *)

(** Whether a case can be committed now; a case on a nil channel never is. *)
Definition available (w : state) (id : case_id) : bool :=
  match cases w !! id with
  | Some k =>
      match resource k with
      | None => false
      | Some c =>
          match chans w !! c with
          | None => false
          | Some ch =>
              let peer := bool_decide (is_Some (selectionPeer w c (send k) (Some (fst id)))) in
              if send k then Closed ch || peer || (bufferLen w c <? Capacity ch)
              else Closed ch || negb (bufferLen w c =? 0) || peer
          end
      end
  | None => false
  end.

Definition xorshift (x : Z) : Z :=
  let x := if x =? 0 then 11400714819323198485 else x in
  let x := Z.lxor x (u64 (Z.shiftl x 13)) in
  let x := Z.lxor x (Z.shiftr x 7) in
  Z.lxor x (u64 (Z.shiftl x 17)).

Definition chooseReadyIndex (ready : list case_id) (w : state) : option case_id * state :=
  match ready with
  | [] => (None, w)
  | [id] => (Some id, w)
  | _ => let x := xorshift (selectState w) in
         (ready !! Z.to_nat (x mod Z.of_nat (length ready)), set_state x w)
  end.

Definition case_index (id : case_id) : Z := Z.of_N (snd id).

Definition panic_error : channel_error := GuestPanic "send on closed waitable".

(** The commit of the chosen case. *)
Definition commit_case (s : sel) (id : case_id) (w : state) : state :=
  match cases w !! id with
  | Some k =>
      match resource k with
      | Some c =>
          let closed := match chans w !! c with Some ch => Closed ch | None => false end in
          let peer := selectionPeer w c (send k) (Some s) in
          if send k then
            if closed then complete s (case_index id) nil_value false (set_sel s (put_error (Some panic_error)) w)
            else
              match peer with
              | Some p => complete s (case_index id) nil_value false (complete (fst p) (case_index p) (value k) true w)
              | None =>
                  let (r, w1) := appendBuffer c (value k) w in
                  let w2 := match r with Err e => set_sel s (put_error (Some e)) w1 | Ok _ => w1 end in
                  complete s (case_index id) nil_value false w2
              end
          else if negb (bufferLen w c =? 0) then
            match popBuffer c w with
            | (Err e, w1) => complete s (case_index id) nil_value false (set_sel s (put_error (Some e)) w1)
            | (Ok v, w1) => complete s (case_index id) v true w1
            end
          else
            match peer with
            | Some p =>
                if negb closed then
                  let v := match cases w !! p with Some kp => value kp | None => nil_value end in
                  complete s (case_index id) v true (complete (fst p) (case_index p) nil_value false w)
                else complete s (case_index id) (zero k) false w
            | None => complete s (case_index id) (zero k) false w
            end
      | None => w
      end
  | None => w
  end.

Definition tryCommit (s : sel) (w : state) : bool * state :=
  if is_done w s then (true, w)
  else
    let ready := List.filter (available w) (case_ids w s) in
    match chooseReadyIndex ready w with
    | (None, w1) => (false, w1)
    | (Some id, w1) => (true, commit_case s id w1)
    end.

(** ** Preparing a selection *)

Record case_request : Type := mkRequest { rchannel : CV; rsend : bool; rvalue : V }.

Definition prepare_case (r : case_request) : result channel_error (selectCase V) :=
  let? res := waitableValueData T (rchannel r) in
  if rsend r then
    if negb (waitableCanSend T (rchannel r)) then Err TypeError
    else
      match res with
      | Some c => let? v := normalizeSend T c (rvalue r) in Ok (mkCase res true v nil_value None None false)
      | None => Ok (mkCase res true (rvalue r) nil_value None None false)
      end
  else if negb (waitableCanRecv T (rchannel r)) then Err TypeError
  else Ok (mkCase res false (rvalue r) (zeroValue T (rchannel r) res) None None false).

Definition selection_bytes (n : Z) : Z := 64 + n * (64 + 3 * 24).

Fixpoint prepare_cases (s : sel) (i : N) (rs : list case_request) (w : state) : result channel_error unit * state :=
  match rs with
  | [] => (Ok tt, w)
  | r :: rs' =>
      match prepare_case r with
      | Err e => (Err e, release s w)
      | Ok k =>
          prepare_cases s (N.succ i) rs'
            (mkWorld (chans w) (sels w) (<[(s, i) := k]> (cases w)) (bufs w) (tasks w) (selectState w) (charged w))
      end
  end.

(** The cases of the new selection exist from the start; they are filled in one by one. *)
Definition blank_case (r : case_request) : selectCase V := mkCase None (rsend r) (rvalue r) nil_value None None false.

Fixpoint blank_cases (s : sel) (i : N) (rs : list case_request) (m : gmap case_id (selectCase V)) : gmap case_id (selectCase V) :=
  match rs with [] => m | r :: rs' => <[(s, i) := blank_case r]> (blank_cases s (N.succ i) rs' m) end.

Definition prepareChannelSelection (rs : list case_request) (w : state) : result channel_error sel * state :=
  let s := fresh (dom (sels w)) in
  let n := Z.of_nat (length rs) in
  let w0 := mkWorld (chans w) (<[s := mkSelection (N.of_nat (length rs)) (-1) false nil_value false None None false 0]> (sels w))
              (blank_cases s 0 rs (cases w)) (bufs w) (tasks w) (selectState w) (charged w) in
  if negb (collectionSize T n) then (Err LimitError, w0)
  else if negb (admits T (charged w) (selection_bytes n)) then (Err LimitError, w0)
  else
    let w1 := set_sel s (fun x => mkSelection (ncases x) (index x) (done x) (svalue x) (sok x) (serr x) (owner x) true (selection_bytes n))
                (set_charged (charged w + selection_bytes n) w0) in
    match prepare_cases s 0 rs w1 with
    | (Err e, w2) => (Err e, w2)
    | (Ok _, w2) => (Ok s, w2)
    end.

(** ** The operations of the scheduler on selections *)

Inductive start_outcome : Type := Committed | Defaulted | Blocked.

(** A select instruction (scheduler_control.go): commit, take the default, or register and block. *)
Definition start (has_default : bool) (t : task) (k : option ticket) (s : sel) (w : state) : start_outcome * state :=
  match tryCommit s w with
  | (true, w1) => (Committed, w1)
  | (false, w1) =>
      if has_default then (Defaulted, complete s (-1) nil_value false w1)
      else
        let w2 := set_sel s (put_owner (Some (t, k))) (register s w1) in
        (Blocked, if is_done w2 s then set_task t (fun o => snd (notify k o)) w2 else w2)
  end.

(** [reflect.Select]: the default case returns without completing the selection. *)
Definition reflect_start (has_default : bool) (s : sel) (w : state) : start_outcome * state :=
  match tryCommit s w with
  | (true, w1) => (Committed, w1)
  | (false, w1) => if has_default then (Defaulted, w1) else (Blocked, register s w1)
  end.

(** [cancelBlockedOperation] on a selection. *)
Definition cancel_selection (s : sel) (w : state) : state := set_sel s (put_owner None) (unregister s w).

(** ** Operations that do not block *)

Definition waitableTrySendValue (cv : CV) (v : V) (w : state) : result channel_error bool * state :=
  match waitableValueData T cv with
  | Err e => (Err e, w)
  | Ok res =>
      if negb (waitableCanSend T cv) then (Err TypeError, w)
      else
        match res with
        | None => (Ok false, w)
        | Some c =>
            match chans w !! c with
            | None => (Ok false, w)
            | Some ch =>
                if Closed ch then (Err panic_error, w)
                else
                  match normalizeSend T c v with
                  | Err e => (Err e, w)
                  | Ok normalized =>
                      match selectionPeer w c true None with
                      | Some p => (Ok true, complete (fst p) (case_index p) normalized true w)
                      | None =>
                          if Capacity ch <=? bufferLen w c then (Ok false, w)
                          else match appendBuffer c normalized w with (Err e, w1) => (Err e, w1) | (Ok _, w1) => (Ok true, w1) end
                      end
                  end
            end
        end
  end.

(** The value, whether one was received, and whether the channel is closed. *)
Definition waitableTryRecvValue (cv : CV) (w : state) : result channel_error (V * bool * bool) * state :=
  match waitableValueData T cv with
  | Err e => (Err e, w)
  | Ok res =>
      if negb (waitableCanRecv T cv) then (Err TypeError, w)
      else
        match res with
        | None => (Ok (zeroValue T cv None, false, false), w)
        | Some c =>
            let closed := match chans w !! c with Some ch => Closed ch | None => false end in
            if bufferLen w c =? 0 then
              match (if negb closed then selectionPeer w c false None else None) with
              | Some p =>
                  let v := match cases w !! p with Some kp => value kp | None => nil_value end in
                  (Ok (v, true, false), complete (fst p) (case_index p) nil_value false w)
              | None => (Ok (zeroValue T cv (Some c), false, closed), w)
              end
            else
              match popBuffer c w with
              | (Err e, w1) => (Err e, w1)
              | (Ok v, w1) => (Ok (v, true, closed), w1)
              end
        end
  end.

Definition waitableCloseValue (cv : CV) (w : state) : result channel_error unit * state :=
  match waitableValueData T cv with
  | Err e => (Err e, w)
  | Ok res =>
      if negb (waitableCanSend T cv) then (Err TypeError, w)
      else
        match res with
        | None => (Err (GuestPanic "close of nil waitable"), w)
        | Some c =>
            match chans w !! c with
            | None => (Err (GuestPanic "close of nil waitable"), w)
            | Some ch =>
                if Closed ch then (Err (GuestPanic "close of closed waitable"), w)
                else
                  match buf_close c (bufs w) with
                  | (Err e, b) => (Err e, set_bufs b w)
                  | (Ok _, b) =>
                      (Ok tt, notifySelections c
                         (set_chan c (fun ch => mkChannel (Capacity ch) true (selectHead ch) (selectTail ch)) (set_bufs b w)))
                  end
            end
        end
  end.

Definition waitableRecvReady (w : state) (res : option chan) : bool :=
  match res with
  | None => false
  | Some c =>
      negb (bufferLen w c =? 0) || match chans w !! c with Some ch => Closed ch | None => false end ||
      bool_decide (is_Some (selectionPeer w c false None))
  end.

Definition waitableSendReady (w : state) (res : option chan) : bool :=
  match res with
  | None => false
  | Some c =>
      match chans w !! c with
      | None => false
      | Some ch => Closed ch || bool_decide (is_Some (selectionPeer w c true None)) || (bufferLen w c <? Capacity ch)
      end
  end.

(** The operations, as the steps of a machine. *)
Inductive op : Type :=
| OpSelect (rs : list case_request) (has_default : bool) (t : task) (k : option ticket)
| OpRetry (s : sel)
| OpCancel (s : sel)
| OpTrySend (cv : CV) (v : V)
| OpTryRecv (cv : CV)
| OpClose (cv : CV).

Definition exec (o : op) (w : state) : state :=
  match o with
  | OpSelect rs d t k =>
      match prepareChannelSelection rs w with
      | (Ok s, w1) => snd (start d t k s w1)
      | (Err _, w1) => w1
      end
  | OpRetry s => snd (tryCommit s w)
  | OpCancel s => cancel_selection s w
  | OpTrySend cv v => snd (waitableTrySendValue cv v w)
  | OpTryRecv cv => snd (waitableTryRecvValue cv w)
  | OpClose cv => snd (waitableCloseValue cv w)
  end.

(** ** Doubly linked segments *)

(** From [h], entered from [p], the links visit exactly [q]; the last case is [t] and leads to [n]. *)
Fixpoint dseg (m : gmap case_id (selectCase V)) (p h : option case_id) (q : list case_id) (t n : option case_id) : Prop :=
  match q with
  | [] => h = n /\ t = p
  | x :: q' => h = Some x /\ exists k, m !! x = Some k /\ previous k = p /\ dseg m (Some x) (next k) q' t n
  end.

Lemma dseg_app m p h q1 q2 t n :
  dseg m p h (q1 ++ q2) t n <-> exists t1 h2, dseg m p h q1 t1 h2 /\ dseg m t1 h2 q2 t n.
Proof.
  revert p h. induction q1 as [|x q1 IH]; intros p h; cbn [app dseg].
  - split; [intros Hs; by exists p, h|by intros (t1 & h2 & [-> ->] & Hs)].
  - split.
    + intros (-> & k & Hk & Hp & Hs). apply IH in Hs as (t1 & h2 & H1 & H2). exists t1, h2. split; [|done]. split; [done|]. by exists k.
    + intros (t1 & h2 & (-> & k & Hk & Hp & H1) & H2). split; [done|]. exists k. split; [done|]. split; [done|]. apply IH. by exists t1, h2.
Qed.

Lemma dseg_frame m m' p h q t n : (forall x, x ∈ q -> m' !! x = m !! x) -> dseg m p h q t n -> dseg m' p h q t n.
Proof.
  revert p h. induction q as [|x q IH]; intros p h Hf; cbn [dseg]; [done|]. intros (-> & k & Hk & Hp & Hs).
  split; [done|]. exists k. rewrite Hf by left. split; [done|]. split; [done|]. apply IH; [|done]. intros y Hy. apply Hf. by right.
Qed.

(** Links and nothing else decide a segment. *)
Lemma dseg_links m m' p h q t n :
  (forall x k, x ∈ q -> m !! x = Some k -> exists k', m' !! x = Some k' /\ previous k' = previous k /\ next k' = next k) ->
  dseg m p h q t n -> dseg m' p h q t n.
Proof.
  revert p h. induction q as [|x q IH]; intros p h Hf; cbn [dseg]; [done|]. intros (-> & k & Hk & Hp & Hs).
  destruct (Hf x k) as (k' & Hk' & Hp' & Hn'); [left|done|].
  split; [done|]. exists k'. rewrite Hn'. split; [done|]. split; [congruence|]. apply IH; [|done]. intros y ky Hy. apply Hf. by right.
Qed.

Lemma dseg_tail m p h q t n : dseg m p h q t n -> t = match last q with Some y => Some y | None => p end.
Proof.
  revert p h. induction q as [|x q IH]; intros p h; cbn [dseg]; [by intros [_ ->]|]. intros (-> & k & _ & _ & Hs).
  rewrite (IH _ _ Hs), last_cons. by destruct (last q).
Qed.

Lemma dseg_head m p h q t n : dseg m p h q t n -> h = match q with x :: _ => Some x | [] => n end.
Proof. destruct q; cbn; [by intros [-> _]|by intros [-> _]]. Qed.

(** The link out of a segment. *)
Lemma dseg_put_next m p h q y n n' :
  y ∉ q -> dseg m p h (q ++ [y]) (Some y) n -> dseg (alter (put_next n') y m) p h (q ++ [y]) (Some y) n'.
Proof.
  intros Hy Hs. apply dseg_app in Hs as (t1 & h2 & H1 & H2). apply dseg_app. exists t1, h2. split.
  - eapply dseg_frame; [|exact H1]. intros x Hx. apply lookup_alter_ne. by intros ->.
  - destruct H2 as (-> & k & Hk & Hp & Hn & _). split; [done|]. exists (put_next n' k). rewrite lookup_alter_eq, Hk. done.
Qed.

(** The link into a segment. *)
Lemma dseg_put_previous m p y q t n p' :
  y ∉ q -> dseg m p (Some y) (y :: q) t n -> dseg (alter (put_previous p') y m) p' (Some y) (y :: q) t n.
Proof.
  intros Hy (_ & k & Hk & Hp & Hs). split; [done|]. exists (put_previous p' k). rewrite lookup_alter_eq, Hk. split; [done|]. split; [done|].
  eapply dseg_frame; [|exact Hs]. intros x Hx. apply lookup_alter_ne. by intros ->.
Qed.

(** ** The registration lists *)

Record linked (w : state) (Q : chan -> list case_id) : Prop := {
  lk_seg : forall c ch, chans w !! c = Some ch -> dseg (cases w) None (selectHead ch) (Q c) (selectTail ch) None;
  lk_none : forall c, chans w !! c = None -> Q c = [];
  lk_nodup : forall c, NoDup (Q c);
  lk_in : forall c id, id ∈ Q c <-> exists k, cases w !! id = Some k /\ registered k = true /\ resource k = Some c;
  lk_clean : forall id k, cases w !! id = Some k -> registered k = false -> previous k = None /\ next k = None;
  lk_chan : forall id k c, cases w !! id = Some k -> resource k = Some c -> is_Some (chans w !! c);
  lk_case : forall id k, cases w !! id = Some k -> id ∈ case_ids w (fst id)
}.

Lemma case_ids_frame w w' : ncases <$> (sels w' : gmap _ _) = ncases <$> (sels w : gmap _ _) -> forall s, case_ids w' s = case_ids w s.
Proof.
  intros Hs s. unfold case_ids. assert (ncases <$> (sels w' !! s) = ncases <$> (sels w !! s)) as E by (rewrite <- !lookup_fmap; by rewrite Hs).
  destruct (sels w' !! s), (sels w !! s); cbn in E; try done. by injection E as ->.
Qed.

(** The registration lists only depend on the channels' ends and on the cases. *)
Lemma linked_frame w w' Q :
  (forall c, (fun ch => (selectHead ch, selectTail ch)) <$> chans w' !! c = (fun ch => (selectHead ch, selectTail ch)) <$> chans w !! c) ->
  cases w' = cases w -> ncases <$> (sels w' : gmap _ _) = ncases <$> (sels w : gmap _ _) -> linked w Q -> linked w' Q.
Proof.
  intros Hc Hk Hs [L1 L2 L3 L4 L5 L6 L7]. split.
  - intros c ch Hch. rewrite Hk. specialize (Hc c). rewrite Hch in Hc. destruct (chans w !! c) as [ch0|] eqn:E0; [|done].
    injection Hc as -> ->. by apply L1.
  - intros c Hn. apply L2. specialize (Hc c). rewrite Hn in Hc. by destruct (chans w !! c).
  - done.
  - by rewrite Hk.
  - by rewrite Hk.
  - rewrite Hk. intros id k c H1 H2. destruct (L6 id k c H1 H2) as [ch0 E0]. specialize (Hc c). rewrite E0 in Hc.
    destruct (chans w' !! c) as [ch'|]; [by eexists|done].
  - rewrite Hk. intros id k Hid. rewrite (case_ids_frame w) by done. by eapply L7.
Qed.

Lemma linked_ext w Q Q' : (forall c, Q' c = Q c) -> linked w Q -> linked w Q'.
Proof. intros E [L1 L2 L3 L4 L5 L6 L7]. split; intros; rewrite ?E in *; eauto. Qed.

(** ** Lemmas: leaving a list *)

(** The fields that registration does not change. *)
Definition fixed (k k' : selectCase V) : Prop :=
  resource k' = resource k /\ send k' = send k /\ value k' = value k /\ zero k' = zero k.

Definition unlink_cases (m : gmap case_id (selectCase V)) (k : selectCase V) : gmap case_id (selectCase V) :=
  let m1 := match previous k with None => m | Some p => alter (put_next (next k)) p m end in
  match next k with None => m1 | Some n => alter (put_previous (previous k)) n m1 end.

Lemma dseg_remove m h l1 id l2 t k :
  NoDup (l1 ++ id :: l2) -> dseg m None h (l1 ++ id :: l2) t None -> m !! id = Some k ->
  dseg (unlink_cases m k) None (match previous k with None => next k | Some _ => h end) (l1 ++ l2)
    (match next k with None => previous k | Some _ => t end) None /\
  previous k = last l1 /\ next k = hd_error l2.
Proof.
  intros Hnd Hs Hk. apply dseg_app in Hs as (t1 & h2 & S1 & -> & k' & Hk' & Hp & S2). assert (k' = k) as -> by congruence.
  pose proof (dseg_tail _ _ _ _ _ _ S1) as Et. pose proof (dseg_head _ _ _ _ _ _ S2) as Eh.
  assert (previous k = last l1) as Ep by (rewrite Hp, Et; by destruct (last l1)).
  assert (next k = hd_error l2) as En by (rewrite Eh; by destruct l2). split; [|done]. unfold unlink_cases.
  apply NoDup_app in Hnd as (N1 & D & N2). apply NoDup_cons in N2 as [Nid N2].
  assert (forall x, x ∈ l1 -> x ∉ l2) as Dis by (intros x Hx Hx2; apply (D x Hx); by right).
  (* the first part, with its last link redirected *)
  assert (let m1 := match previous k with None => m | Some p => alter (put_next (next k)) p m end in
    dseg m1 None (match previous k with None => next k | Some _ => h end) l1 (previous k) (next k) /\
    (forall x, x ∈ l2 -> m1 !! x = m !! x)) as [S1' F1].
  { cbv zeta. rewrite Ep. destruct (last l1) as [p|] eqn:El.
    - apply last_Some in El as [l1' ->]. apply NoDup_app in N1 as (N1' & D1 & _).
      rewrite Et in S1. split.
      + eapply dseg_put_next; [|exact S1]. intros Hin. apply (D1 p Hin). left.
      + intros x Hx. apply lookup_alter_ne. intros ->. apply (Dis x); [|done]. apply elem_of_app. right. left.
    - apply last_None in El as ->. done. }
  cbv zeta in *. set (m1 := match previous k with None => m | Some p => alter (put_next (next k)) p m end) in *.
  apply dseg_app. exists (previous k), (next k). destruct l2 as [|n l2']; cbn [hd_error] in En; rewrite En in *.
  - split; [done|]. by split.
  - apply NoDup_cons in N2 as [Nn N2]. split.
    + eapply dseg_frame; [|exact S1']. intros x Hx. apply lookup_alter_ne. intros ->. apply (Dis x Hx). left.
    + eapply dseg_put_previous; [done|]. eapply dseg_frame; [|exact S2]. intros x Hx. by apply F1.
Qed.

Lemma unlink_fixed m k x kx : m !! x = Some kx -> exists k', unlink_cases m k !! x = Some k' /\ fixed kx k' /\ registered k' = registered kx.
Proof.
  intros Hx. unfold unlink_cases.
  assert (exists k1, match previous k with None => m | Some p => alter (put_next (next k)) p m end !! x = Some k1 /\ fixed kx k1 /\ registered k1 = registered kx) as (k1 & H1 & F1 & R1).
  { destruct (previous k) as [p|]; [|by exists kx]. destruct (decide (p = x)) as [->|]; [|rewrite lookup_alter_ne by done; by exists kx].
    rewrite lookup_alter_eq, Hx. eexists. split; [done|]. done. }
  destruct (next k) as [n|]; [|by exists k1]. destruct (decide (n = x)) as [->|]; [|rewrite lookup_alter_ne by done; by exists k1].
  rewrite lookup_alter_eq, H1. eexists. split; [done|]. done.
Qed.

Lemma unlink_other m k x : previous k <> Some x -> next k <> Some x -> unlink_cases m k !! x = m !! x.
Proof.
  intros Hp Hn. unfold unlink_cases. destruct (next k) as [n|], (previous k) as [p|]; rewrite ?lookup_alter_ne by congruence; done.
Qed.

Lemma unlink_none m k x : unlink_cases m k !! x = None -> m !! x = None.
Proof. intros Hn. destruct (m !! x) as [kx|] eqn:E; [|done]. destruct (unlink_fixed m k x kx E) as (k' & E' & _). congruence. Qed.

(** What [unregister_case] does to a registered case, field by field. *)
Lemma unregister_case_fields id w k c :
  cases w !! id = Some k -> registered k = true -> resource k = Some c ->
  let w' := unregister_case id w in
  cases w' = alter (fun k => put_registered false (put_next None (put_previous None k))) id (unlink_cases (cases w) k) /\
  (forall c', chans w' !! c' =
    (if decide (c' = c)
     then (fun ch => mkChannel (Capacity ch) (Closed ch) (match previous k with None => next k | Some _ => selectHead ch end)
                       (match next k with None => previous k | Some _ => selectTail ch end)) <$> chans w !! c'
     else chans w !! c')) /\
  sels w' = sels w /\ bufs w' = bufs w /\ tasks w' = tasks w /\ selectState w' = selectState w /\ charged w' = charged w.
Proof.
  intros Hk Hr Hc. unfold unregister_case. rewrite Hk, Hr, Hc. cbn [negb]. unfold unlink_cases.
  destruct (previous k) as [p|], (next k) as [n|]; cbn [chans cases sels bufs tasks selectState charged set_case set_chan];
    (split; [done|]); (split; [|done]); intros c'; destruct (decide (c' = c)) as [->|Hne];
    rewrite ?lookup_alter_eq, ?lookup_alter_ne by congruence; destruct (chans w !! _) as [[]|]; done.
Qed.


Lemma unlink_dom m k x : m !! x = None -> unlink_cases m k !! x = None.
Proof.
  intros Hx. unfold unlink_cases. destruct (next k) as [n|], (previous k) as [p|]; rewrite ?lookup_alter; repeat case_decide; subst; by rewrite ?lookup_alter, ?Hx; repeat case_decide; rewrite ?Hx.
Qed.

(** A case other than [id] keeps its fields and its registration. *)
Definition same_case (w w' : state) (x : case_id) : Prop :=
  match cases w !! x, cases w' !! x with
  | Some k, Some k' => fixed k k' /\ registered k' = registered k
  | None, None => True
  | _, _ => False
  end.

(** What [unregister_case] does to the lists. *)
Record left_list (w w' : state) (Q : chan -> list case_id) (c : chan) (id : case_id) (l1 l2 : list case_id) : Prop := {
  left_split : Q c = l1 ++ id :: l2;
  left_seg : forall ch, chans w' !! c = Some ch -> dseg (cases w') None (selectHead ch) (l1 ++ l2) (selectTail ch) None;
  left_chan : forall c', c' <> c -> chans w' !! c' = chans w !! c';
  left_dom : forall c', is_Some (chans w' !! c') <-> is_Some (chans w !! c');
  left_same : forall x, x <> id -> same_case w w' x;
  left_other : forall x, x <> id -> x ∉ l1 ++ l2 -> cases w' !! x = cases w !! x;
  left_id : exists k, cases w' !! id = Some k /\ registered k = false /\ previous k = None /\ next k = None /\ resource k = Some c;
  left_sels : sels w' = sels w
}.

Lemma unregister_case_left id w Q k c :
  linked w Q -> cases w !! id = Some k -> registered k = true -> resource k = Some c ->
  exists l1 l2, left_list w (unregister_case id w) Q c id l1 l2.
Proof.
  intros L Hk Hr Hc. pose proof L as [L1 L2 L3 L4 L5 L6 L7]. destruct (L6 id k c Hk Hc) as [ch Hch].
  assert (id ∈ Q c) as Hin by (apply L4; by exists k). apply list_elem_of_split in Hin as (l1 & l2 & EQ).
  pose proof (L3 c) as Hnd. pose proof (L1 c ch Hch) as Hseg. rewrite EQ in Hnd, Hseg.
  destruct (dseg_remove _ _ _ _ _ _ _ Hnd Hseg Hk) as (Hseg' & Hp & Hn).
  destruct (unregister_case_fields id w k c Hk Hr Hc) as (Ecases & Echans & Esels & _). cbv zeta in *.
  set (w' := unregister_case id w) in *.
  assert (id ∉ l1 ++ l2) as Hidn. { rewrite <- Permutation_middle in Hnd. by apply NoDup_cons in Hnd as [? _]. }
  assert (previous k <> Some id /\ next k <> Some id) as [Hpi Hni].
  { split; intros E; apply Hidn, elem_of_app.
    - left. rewrite Hp in E. apply last_Some in E as [l ->]. apply elem_of_app. right. left.
    - right. rewrite Hn in E. destruct l2; [done|]. injection E as ->. left. }
  exists l1, l2. split.
  - done.
  - intros ch' Hch'. rewrite Echans, decide_True, Hch in Hch' by done. injection Hch' as <-. cbn [selectHead selectTail].
    rewrite Ecases. eapply dseg_frame; [|exact Hseg']. intros x Hx. apply lookup_alter_ne. by intros ->.
  - intros c' Hne. by rewrite Echans, decide_False.
  - intros c'. rewrite Echans. case_decide; [by rewrite fmap_is_Some|done].
  - intros x Hx. unfold same_case. rewrite Ecases, lookup_alter_ne by done. destruct (cases w !! x) as [kx|] eqn:E.
    + by destruct (unlink_fixed (cases w) k x kx E) as (k' & -> & F).
    + by rewrite unlink_dom.
  - intros x Hx Hnx. rewrite Ecases, lookup_alter_ne by done. apply unlink_other; intros E; apply Hnx, elem_of_app.
    + left. rewrite Hp in E. apply last_Some in E as [l ->]. apply elem_of_app. right. left.
    + right. rewrite Hn in E. destruct l2; [done|]. injection E as ->. left.
  - rewrite Ecases, lookup_alter_eq, unlink_other by done. rewrite Hk. eexists. done.
  - done.
Qed.

Lemma left_list_linked w w' Q c id l1 l2 :
  linked w Q -> left_list w w' Q c id l1 l2 -> linked w' (fun c => filter (fun x => x <> id) (Q c)).
Proof.
  intros [L1 L2 L3 L4 L5 L6 L7] [E1 E2 E3 E4 E5 E6 (k0 & E7 & E7r & E7p & E7n & E7c) E8].
  assert (filter (fun x => x <> id) (Q c) = l1 ++ l2) as EQ. { rewrite E1. apply filter_remove. rewrite <- E1. apply L3. }
  assert (forall c', c' <> c -> id ∉ Q c') as Hother.
  { intros c' Hne Hin. assert (id ∈ Q c) as Hin' by (rewrite E1; apply elem_of_app; right; left).
    apply L4 in Hin as (ka & Ea & _ & Ra). apply L4 in Hin' as (kb & Eb & _ & Rb). congruence. }
  assert (forall c' x, c' <> c -> x ∈ Q c' -> x ∉ l1 ++ l2) as Hdis.
  { intros c' x Hne Hin Hin2. assert (x ∈ Q c) as Hin' by (rewrite E1; apply elem_of_app in Hin2 as []; apply elem_of_app; [by left|right; by right]).
    apply L4 in Hin as (ka & Ea & _ & Ra). apply L4 in Hin' as (kb & Eb & _ & Rb). congruence. }
  split.
  - intros c' ch Hch. destruct (decide (c' = c)) as [->|Hne]; [rewrite EQ; by apply E2|].
    rewrite E3 in Hch by done. rewrite filter_absent by by apply Hother. eapply dseg_frame; [|by apply L1].
    intros x Hx. apply E6; [|by eapply Hdis]. intros ->. by apply (Hother c').
  - intros c' Hn. rewrite (L2 c'); [done|]. apply eq_None_not_Some. rewrite <- E4, Hn. by apply is_Some_None.
  - intros c'. apply NoDup_filter, L3.
  - intros c' x. rewrite list_elem_of_filter, L4. destruct (decide (x = id)) as [->|Hne].
    + split; [by intros [? _]|]. intros (k & Ek & Rk & _). congruence.
    + specialize (E5 x Hne). unfold same_case in E5. destruct (cases w !! x) as [kx|], (cases w' !! x) as [k'|]; try done.
      2: { split; [intros (_ & k & ? & _); done|intros (k & ? & _); done]. }
      destruct E5 as [(F1 & _) F2]. split.
      * intros (_ & k & [= <-] & R & Rc). exists k'. by rewrite F1, F2.
      * intros (k & [= <-] & R & Rc). split; [done|]. exists kx. by rewrite <- F1, <- F2.
  - intros x k' Ex Rx. destruct (decide (x = id)) as [->|Hne]; [by assert (k' = k0) as -> by congruence|].
    destruct (decide (x ∈ l1 ++ l2)) as [Hin|Hin].
    + assert (x ∈ Q c) as (ka & Ea & Ra & _)%L4 by (rewrite E1; apply elem_of_app in Hin as []; apply elem_of_app; [by left|right; by right]).
      specialize (E5 x Hne). unfold same_case in E5. rewrite Ea, Ex in E5. destruct E5 as [_ E5]. congruence.
    + rewrite E6 in Ex by done. by eapply L5.
  - intros x k' c' Ex Rx. rewrite E4. destruct (decide (x = id)) as [->|Hne].
    + assert (id ∈ Q c) as (ka & Ea & _ & Ra)%L4 by (rewrite E1; apply elem_of_app; right; left).
      assert (c' = c) as -> by congruence. by eapply L6.
    + specialize (E5 x Hne). unfold same_case in E5. rewrite Ex in E5. destruct (cases w !! x) as [kx|] eqn:Ekx; [|done].
      destruct E5 as [(F1 & _) _]. eapply L6; [exact Ekx|congruence].
  - intros x k' Ex. unfold case_ids. rewrite E8. destruct (decide (x = id)) as [->|Hne].
    + assert (id ∈ Q c) as (ka & Ea & _ & Ra)%L4 by (rewrite E1; apply elem_of_app; right; left). by eapply L7.
    + specialize (E5 x Hne). unfold same_case in E5. rewrite Ex in E5. destruct (cases w !! x) as [kx|] eqn:Ekx; [|done]. by eapply L7.
Qed.

Lemma unregister_case_linked id w Q : linked w Q -> linked (unregister_case id w) (fun c => filter (fun x => x <> id) (Q c)).
Proof.
  intros L. assert ((exists k c, cases w !! id = Some k /\ registered k = true /\ resource k = Some c) \/
    (unregister_case id w = w /\ forall c, id ∉ Q c)) as [(k & c & Hk & Hr & Hc)|[-> Hn]].
  { unfold unregister_case. destruct (cases w !! id) as [k|] eqn:Hk.
    2: { right. split; [done|]. intros c (k & E & _)%(lk_in _ _ L). congruence. }
    destruct (registered k) eqn:Hr; cbn [negb].
    2: { right. split; [done|]. intros c (k' & E & E' & _)%(lk_in _ _ L). congruence. }
    destruct (resource k) as [c|] eqn:Hc; [left; by exists k, c|].
    right. split; [done|]. intros c (k' & E & _ & E')%(lk_in _ _ L). congruence. }
  - destruct (unregister_case_left _ _ _ _ _ L Hk Hr Hc) as (l1 & l2 & Hl). by eapply left_list_linked.
  - eapply linked_ext; [|exact L]. intros c. by rewrite filter_absent.
Qed.

(** ** What registration and notification leave alone *)

Definition sel_view (x : channelSelection V) : N * Z * bool * V * bool * option channel_error :=
  (ncases x, index x, done x, svalue x, sok x, serr x).
Definition case_view (k : selectCase V) : option chan * bool * V * V := (resource k, send k, value k, zero k).
Definition chan_view (ch : waitableResource) : Z * bool := (Capacity ch, Closed ch).

(** Only links, tasks, the ledger and the random state may differ. *)
Record quiet (w w' : state) : Prop := {
  q_chans : chan_view <$> (chans w' : gmap _ _) = chan_view <$> (chans w : gmap _ _);
  q_bufs : bufs w' = bufs w;
  q_cases : case_view <$> (cases w' : gmap _ _) = case_view <$> (cases w : gmap _ _);
  q_sels : sel_view <$> (sels w' : gmap _ _) = sel_view <$> (sels w : gmap _ _)
}.

#[local] Instance quiet_preorder : PreOrder quiet.
Proof. split; [by split|]. intros w1 w2 w3 [] []. split; congruence. Qed.

Lemma fmap_alter_same {K A B} `{Countable K} (f : A -> B) (g : A -> A) (i : K) (m : gmap K A) :
  (forall x, f (g x) = f x) -> f <$> alter g i m = f <$> m.
Proof.
  intros Hf. apply map_eq. intros j. rewrite !lookup_fmap. destruct (decide (i = j)) as [->|Hne].
  - rewrite lookup_alter_eq. destruct (m !! j); cbn; [by rewrite Hf|done].
  - by rewrite lookup_alter_ne.
Qed.

Lemma quiet_set_case id f w : (forall k, case_view (f k) = case_view k) -> quiet w (set_case id f w).
Proof. intros Hf. split; cbn [chans bufs cases sels set_case]; try done. by apply fmap_alter_same. Qed.

Lemma quiet_set_chan c f w : (forall ch, chan_view (f ch) = chan_view ch) -> quiet w (set_chan c f w).
Proof. intros Hf. split; cbn [chans bufs cases sels set_chan]; try done. by apply fmap_alter_same. Qed.

Lemma quiet_set_sel s f w : (forall x, sel_view (f x) = sel_view x) -> quiet w (set_sel s f w).
Proof. intros Hf. split; cbn [chans bufs cases sels set_sel]; try done. by apply fmap_alter_same. Qed.

Lemma quiet_set_task t f w : quiet w (set_task t f w).
Proof. by split. Qed.

Lemma quiet_set_state x w : quiet w (set_state x w).
Proof. by split. Qed.

Lemma quiet_set_charged x w : quiet w (set_charged x w).
Proof. by split. Qed.

Create HintDb quiet.
#[local] Hint Resolve quiet_set_case quiet_set_chan quiet_set_sel quiet_set_task quiet_set_state quiet_set_charged : quiet.
#[local] Hint Extern 1 (quiet ?w ?w) => reflexivity : quiet.

(** [quiet_steps] peels the field updates off a state. *)
Ltac quiet_steps :=
  repeat first
    [ reflexivity
    | match goal with
      | |- quiet _ (set_case _ _ ?w1) => transitivity w1; [|by apply quiet_set_case]
      | |- quiet _ (set_chan _ _ ?w1) => transitivity w1; [|by apply quiet_set_chan]
      | |- quiet _ (set_sel _ _ ?w1) => transitivity w1; [|by apply quiet_set_sel]
      | |- quiet _ (set_task _ _ ?w1) => transitivity w1; [|by apply quiet_set_task]
      | |- quiet _ (set_charged _ ?w1) => transitivity w1; [|by apply quiet_set_charged]
      | |- quiet _ (match ?x with _ => _ end) => destruct x
      end ].

Lemma register_case_quiet id w : quiet w (register_case id w).
Proof. unfold register_case. quiet_steps. Qed.

Lemma unregister_case_quiet id w : quiet w (unregister_case id w).
Proof. unfold unregister_case. quiet_steps. Qed.

Lemma release_quiet s w : quiet w (release s w).
Proof. unfold release. quiet_steps. Qed.

Lemma notify_owner_quiet s w : quiet w (notify_owner s w).
Proof. unfold notify_owner. quiet_steps. Qed.

Lemma fold_quiet {A} (f : state -> A -> state) l w : (forall w a, quiet w (f w a)) -> quiet w (fold_left f l w).
Proof. intros Hf. revert w. induction l as [|a l IH]; intros w; cbn [fold_left]; [reflexivity|]. etransitivity; [apply Hf|apply IH]. Qed.

Lemma register_quiet s w : quiet w (register s w).
Proof. apply fold_quiet. intros. apply register_case_quiet. Qed.

Lemma unregister_quiet s w : quiet w (unregister s w).
Proof. unfold unregister. etransitivity; [|apply release_quiet]. apply fold_quiet. intros. apply unregister_case_quiet. Qed.

Lemma notify_loop_quiet fuel p w : quiet w (notify_loop fuel p w).
Proof.
  revert p w. induction fuel as [|fuel IH]; intros p w; cbn [notify_loop]; [reflexivity|]. destruct p as [id|]; [|reflexivity].
  destruct (cases w !! id); [|reflexivity]. etransitivity; [apply notify_owner_quiet|apply IH].
Qed.

Lemma notifySelections_quiet c w : quiet w (notifySelections c w).
Proof. unfold notifySelections. destruct (chans w !! c); [apply notify_loop_quiet|reflexivity]. Qed.

(** Notification does not touch the links either. *)
Lemma notify_owner_links s w : chans (notify_owner s w) = chans w /\ cases (notify_owner s w) = cases w /\ sels (notify_owner s w) = sels w.
Proof. unfold notify_owner. destruct (sels w !! s) as [x|] eqn:E; [|done]. by destruct (owner x) as [[]|]. Qed.

Lemma notify_loop_links fuel p w : chans (notify_loop fuel p w) = chans w /\ cases (notify_loop fuel p w) = cases w /\ sels (notify_loop fuel p w) = sels w.
Proof.
  revert p w. induction fuel as [|fuel IH]; intros p w; cbn [notify_loop]; [done|]. destruct p as [id|]; [|done].
  destruct (cases w !! id) as [k|]; [|done]. destruct (IH (next k) (notify_owner (fst id) w)) as (-> & -> & ->). apply notify_owner_links.
Qed.

Lemma notifySelections_links c w :
  chans (notifySelections c w) = chans w /\ cases (notifySelections c w) = cases w /\ sels (notifySelections c w) = sels w.
Proof. unfold notifySelections. destruct (chans w !! c); [apply notify_loop_links|done]. Qed.

(** ** Lemmas: leaving and joining all lists *)

Lemma quiet_ncases w w' : quiet w w' -> ncases <$> (sels w' : gmap _ _) = ncases <$> (sels w : gmap _ _).
Proof.
  intros [_ _ _ Hs]. apply map_eq. intros s. assert (sel_view <$> sels w' !! s = sel_view <$> sels w !! s) as E by (rewrite <- !lookup_fmap; by rewrite Hs).
  rewrite !lookup_fmap. destruct (sels w' !! s), (sels w !! s); cbn in *; try done. injection E. intros. by f_equal.
Qed.

Lemma quiet_case_ids w w' s : quiet w w' -> case_ids w' s = case_ids w s.
Proof. intros Hq. by apply case_ids_frame, quiet_ncases. Qed.

Lemma quiet_case w w' id k' : quiet w w' -> cases w' !! id = Some k' -> exists k, cases w !! id = Some k /\ case_view k' = case_view k.
Proof.
  intros [_ _ Hc _] Hk. assert (case_view <$> cases w' !! id = case_view <$> cases w !! id) as E by (rewrite <- !lookup_fmap; by rewrite Hc).
  rewrite Hk in E. destruct (cases w !! id) as [k|]; [|done]. exists k. split; [done|]. exact (inj Some _ _ E).
Qed.

Lemma quiet_sel w w' s x' : quiet w w' -> sels w' !! s = Some x' -> exists x, sels w !! s = Some x /\ sel_view x' = sel_view x.
Proof.
  intros [_ _ _ Hc] Hk. assert (sel_view <$> sels w' !! s = sel_view <$> sels w !! s) as E by (rewrite <- !lookup_fmap; by rewrite Hc).
  rewrite Hk in E. destruct (sels w !! s) as [x|]; [|done]. exists x. split; [done|]. exact (inj Some _ _ E).
Qed.

Lemma quiet_chan w w' c ch' : quiet w w' -> chans w' !! c = Some ch' -> exists ch, chans w !! c = Some ch /\ chan_view ch' = chan_view ch.
Proof.
  intros [Hc _ _ _] Hk. assert (chan_view <$> chans w' !! c = chan_view <$> chans w !! c) as E by (rewrite <- !lookup_fmap; by rewrite Hc).
  rewrite Hk in E. destruct (chans w !! c) as [x|]; [|done]. exists x. split; [done|]. exact (inj Some _ _ E).
Qed.

Lemma quiet_sym w w' : quiet w w' -> quiet w' w.
Proof. intros []. by split. Qed.

Lemma quiet_done w w' s : quiet w w' -> is_done w' s = is_done w s.
Proof.
  intros Hq. unfold is_done. destruct (sels w' !! s) as [x'|] eqn:E.
  - destruct (quiet_sel _ _ _ _ Hq E) as (x & -> & Ev). unfold sel_view in Ev. congruence.
  - destruct (sels w !! s) as [x|] eqn:E'; [|done]. destruct (quiet_sel _ _ _ _ (quiet_sym _ _ Hq) E') as (x' & ? & _). congruence.
Qed.

Lemma case_ids_fst w s id : id ∈ case_ids w s -> fst id = s.
Proof.
  unfold case_ids. destruct (sels w !! s); [|by intros ?%not_elem_of_nil]. rewrite list_elem_of_In, in_map_iff. by intros (i & <- & _).
Qed.

Lemma unregister_fold_linked ids w Q :
  linked w Q -> linked (fold_left (fun w id => unregister_case id w) ids w) (fun c => filter (fun x => x ∉ ids) (Q c)).
Proof.
  revert w Q. induction ids as [|id ids IH]; intros w Q L; cbn [fold_left].
  - eapply linked_ext; [|exact L]. intros c. apply list_filter_true. intros x _. by apply not_elem_of_nil.
  - eapply linked_ext; [|apply IH, unregister_case_linked, L]. intros c. cbn beta. rewrite list_filter_filter.
    apply list_filter_ext. intros x _. rewrite not_elem_of_cons. tauto.
Qed.

Lemma release_links s w : chans (release s w) = chans w /\ cases (release s w) = cases w.
Proof. unfold release. destruct (sels w !! s) as [x|]; [|done]. by destruct (allocated x). Qed.

Lemma unregister_linked s w Q : linked w Q -> linked (unregister s w) (fun c => filter (fun x => fst x <> s) (Q c)).
Proof.
  intros L. unfold unregister. set (w1 := fold_left _ _ _).
  assert (linked w1 (fun c => filter (fun x => x ∉ case_ids w s) (Q c))) as L1 by by apply unregister_fold_linked.
  destruct (release_links s w1) as [E1 E2]. eapply (linked_frame w1); [by rewrite E1|done|apply quiet_ncases, release_quiet|].
  eapply linked_ext; [|exact L1]. intros c. cbn beta. apply list_filter_ext. intros x Hx.
  apply (lk_in _ _ L) in Hx as (k & Hk & _). pose proof (lk_case _ _ L _ _ Hk). split.
  - intros Hn Hin. by apply Hn, (case_ids_fst w).
  - intros Hn <-. by apply Hn.
Qed.

(** The cases after [id] is linked behind [t]. *)
Definition link_cases (m : gmap case_id (selectCase V)) (id : case_id) (t : option case_id) : gmap case_id (selectCase V) :=
  alter (put_registered true) id
    (match t with None => alter (put_previous t) id m | Some y => alter (put_next (Some id)) y (alter (put_previous t) id m) end).

Lemma register_case_fields id w k c ch :
  cases w !! id = Some k -> resource k = Some c -> chans w !! c = Some ch ->
  let w' := register_case id w in
  cases w' = link_cases (cases w) id (selectTail ch) /\
  chans w' = <[c := mkChannel (Capacity ch) (Closed ch) (match selectTail ch with None => Some id | Some _ => selectHead ch end) (Some id)]> (chans w) /\
  sels w' = sels w.
Proof.
  intros Hk Hc Hch. unfold register_case, link_cases. rewrite Hk, Hc, Hch.
  assert (forall f g, f ch = g -> alter f c (chans w) = <[c := g]> (chans w)) as Ha.
  { intros f g <-. apply map_eq. intros c'. destruct (decide (c' = c)) as [->|Hne].
    - by rewrite lookup_alter_eq, lookup_insert_eq, Hch.
    - by rewrite lookup_alter_ne, lookup_insert_ne. }
  destruct (selectTail ch) as [t|] eqn:Et; cbn [chans cases sels set_case set_chan]; (split; [done|]); (split; [|done]).
  - apply Ha. unfold put_tail. done.
  - rewrite (Ha (put_head (Some id)) _ eq_refl). apply map_eq. intros c'. destruct (decide (c' = c)) as [->|Hne].
    + by rewrite lookup_alter_eq, !lookup_insert_eq.
    + by rewrite lookup_alter_ne, !lookup_insert_ne.
Qed.

Lemma link_cases_id m id t k : m !! id = Some k -> t <> Some id ->
  link_cases m id t !! id = Some (put_registered true (put_previous t k)).
Proof.
  intros Hk Hne. unfold link_cases. rewrite lookup_alter_eq. destruct t as [y|]; rewrite ?lookup_alter_ne by congruence; by rewrite lookup_alter_eq, Hk.
Qed.

Lemma link_cases_tail m id y k : m !! y = Some k -> y <> id -> link_cases m id (Some y) !! y = Some (put_next (Some id) k).
Proof. intros Hk Hne. unfold link_cases. rewrite lookup_alter_ne, lookup_alter_eq, lookup_alter_ne by done. by rewrite Hk. Qed.

Lemma link_cases_other m id t x : x <> id -> t <> Some x -> link_cases m id t !! x = m !! x.
Proof. intros Hx Ht. unfold link_cases. rewrite lookup_alter_ne by done. destruct t as [y|]; rewrite ?lookup_alter_ne by congruence; done. Qed.

(** Any case other than [id] keeps its fields and its registration. *)
Lemma link_cases_same m id t x : x <> id ->
  match m !! x, link_cases m id t !! x with
  | Some k, Some k' => fixed k k' /\ registered k' = registered k
  | None, None => True
  | _, _ => False
  end.
Proof.
  intros Hx. destruct (decide (t = Some x)) as [->|Ht].
  - destruct (m !! x) as [k|] eqn:E; [by rewrite (link_cases_tail _ _ _ k)|].
    unfold link_cases. rewrite lookup_alter_ne, lookup_alter_eq, lookup_alter_ne by done. by rewrite E.
  - rewrite link_cases_other by done. by destruct (m !! x).
Qed.

Lemma dseg_push m h q t id k :
  dseg m None h q t None -> id ∉ q -> NoDup q -> m !! id = Some k -> next k = None ->
  dseg (link_cases m id t) None (match t with None => Some id | Some _ => h end) (q ++ [id]) (Some id) None.
Proof.
  intros Hs Hid Hnd Hk Hn. pose proof (dseg_tail _ _ _ _ _ _ Hs) as Et.
  assert (t <> Some id) as Hne. { rewrite Et. destruct (last q) as [y|] eqn:El; [|done]. intros [= ->]. apply Hid. apply last_Some in El as [q' ->]. apply elem_of_app. right. left. }
  apply dseg_app. exists t, (Some id). split.
  - destruct (last q) as [y|] eqn:El; subst t.
    + apply last_Some in El as [q' ->]. apply NoDup_app in Hnd as (_ & D & _).
      assert (y ∉ q') as Hy by (intros Hin; apply (D y Hin); left).
      pose proof (dseg_put_next _ _ _ _ _ _ (Some id) Hy Hs) as Hs'. eapply dseg_frame; [|exact Hs']. intros x Hx.
      assert (x <> id) as Hxi by by intros ->. unfold link_cases. rewrite lookup_alter_ne by done.
      destruct (decide (x = y)) as [->|]; [rewrite !lookup_alter_eq; by rewrite lookup_alter_ne|]. by rewrite !lookup_alter_ne.
    + apply last_None in El as ->. done.
  - split; [done|]. eexists. split; [by apply link_cases_id|]. split; [done|]. by cbn.
Qed.

Definition joining (w : state) (id : case_id) (c : chan) : list case_id :=
  match cases w !! id with Some k => if decide (resource k = Some c) then [id] else [] | None => [] end.

Lemma register_case_linked id w Q :
  linked w Q -> (forall k, cases w !! id = Some k -> registered k = false) ->
  linked (register_case id w) (fun c => Q c ++ joining w id c).
Proof.
  intros L Hun. pose proof L as [L1 L2 L3 L4 L5 L6 L7]. unfold joining.
  destruct (cases w !! id) as [k|] eqn:Hk.
  2: { unfold register_case. rewrite Hk. eapply linked_ext; [|exact L]. intros c. apply app_nil_r. }
  specialize (Hun k eq_refl). destruct (resource k) as [c|] eqn:Hc.
  2: { unfold register_case. rewrite Hk, Hc. eapply linked_ext; [|exact L]. intros c. rewrite decide_False by done. apply app_nil_r. }
  destruct (L6 id k c Hk Hc) as [ch Hch]. destruct (L5 id k Hk Hun) as [Hkp Hkn].
  assert (forall c', id ∉ Q c') as Hnot by (intros c' (k' & E & R & _)%L4; congruence).
  destruct (register_case_fields id w k c ch Hk Hc Hch) as (Ecases & Echans & Esels). cbv zeta in *. set (w' := register_case id w) in *.
  pose proof (L1 c ch Hch) as Hseg. pose proof (dseg_tail _ _ _ _ _ _ Hseg) as Et.
  assert (forall y, selectTail ch = Some y -> y ∈ Q c) as Htail.
  { intros y Ey. rewrite Et in Ey. destruct (last (Q c)) as [z|] eqn:El; [|done]. injection Ey as ->. apply last_Some in El as [q' ->].
    apply elem_of_app. right. left. }
  assert (selectTail ch <> Some id) as Htid by (intros E; by apply (Hnot c), Htail).
  split.
  - intros c' ch' Hch'. rewrite Echans in Hch'. rewrite Ecases. destruct (decide (c' = c)) as [->|Hne].
    + rewrite lookup_insert_eq in Hch'. injection Hch' as <-. cbn [selectHead selectTail]. rewrite decide_True by done. by eapply dseg_push.
    + rewrite lookup_insert_ne in Hch' by done. rewrite decide_False, app_nil_r by congruence. eapply dseg_frame; [|by apply L1].
      intros x Hx. apply link_cases_other; [intros ->; by apply (Hnot c')|]. intros E. apply Htail in E.
      apply L4 in E as (ka & Ea & _ & Ra). apply L4 in Hx as (kb & Eb & _ & Rb). congruence.
  - intros c' Hn. rewrite Echans in Hn. apply lookup_insert_None in Hn as [Hn Hne]. rewrite (L2 c' Hn), decide_False by congruence. done.
  - intros c'. destruct (decide _); [|rewrite app_nil_r; apply L3]. apply NoDup_app. split; [apply L3|]. split; [|apply NoDup_singleton].
    intros x Hx Hs. apply list_elem_of_singleton in Hs as ->. by apply (Hnot c').
  - intros c' x. rewrite elem_of_app, L4, Ecases. destruct (decide (x = id)) as [->|Hne].
    + rewrite (link_cases_id _ _ _ k) by done. split.
      * intros [(k' & E & R & _)|Hin]; [congruence|]. destruct (decide _) as [E|]; [|by apply not_elem_of_nil in Hin].
        eexists. split; [done|]. split; [done|]. by rewrite <- E.
      * intros (k' & [= <-] & _ & R). right. cbn in R. rewrite decide_True by congruence. left.
    + pose proof (link_cases_same (cases w) id (selectTail ch) x Hne) as Hs.
      destruct (cases w !! x) as [kx|], (link_cases (cases w) id (selectTail ch) !! x) as [k'|]; try done.
      2: { split; [intros [(ka & ? & _)|Hin]; [done|]|intros (ka & ? & _); done]. destruct (decide _); [|by apply not_elem_of_nil in Hin]. by apply list_elem_of_singleton in Hin. }
      destruct Hs as [(F1 & _) F2]. split.
      * intros [(ka & [= <-] & R & Rc)|Hin]; [exists k'; by rewrite F1, F2|].
        destruct (decide _); [|by apply not_elem_of_nil in Hin]. by apply list_elem_of_singleton in Hin.
      * intros (ka & [= <-] & R & Rc). left. exists kx. by rewrite <- F1, <- F2.
  - intros x k' Ex Rx. rewrite Ecases in Ex. destruct (decide (x = id)) as [->|Hne].
    + rewrite (link_cases_id _ _ _ k) in Ex by done. by injection Ex as <-.
    + destruct (decide (selectTail ch = Some x)) as [E|E].
      * pose proof (Htail x E) as (ka & Ea & Ra & _)%L4. rewrite E, (link_cases_tail _ _ _ ka) in Ex by done. injection Ex as <-. cbn in Rx. congruence.
      * rewrite link_cases_other in Ex by done. by eapply L5.
  - intros x k' c' Ex Rx. rewrite Echans. destruct (decide (c' = c)) as [->|Hne]; [rewrite lookup_insert_eq; by eexists|]. rewrite lookup_insert_ne by done.
    destruct (quiet_case w w' x k') as (kx & Ekx & Ev); [apply register_case_quiet|done|]. unfold case_view in Ev. eapply L6; [exact Ekx|congruence].
  - intros x k' Ex. destruct (quiet_case w w' x k') as (kx & Ekx & Ev); [apply register_case_quiet|done|]. unfold case_ids. rewrite Esels. by eapply L7.
Qed.

Lemma register_case_registered id x w : x <> id -> registered <$> cases (register_case id w) !! x = registered <$> cases w !! x.
Proof.
  intros Hx. destruct (cases w !! id) as [k|] eqn:Hk; [|unfold register_case; by rewrite Hk].
  destruct (resource k) as [c|] eqn:Hc; [|unfold register_case; by rewrite Hk, Hc].
  destruct (chans w !! c) as [ch|] eqn:Hch; [|unfold register_case; by rewrite Hk, Hc, Hch].
  destruct (register_case_fields id w k c ch Hk Hc Hch) as (-> & _). pose proof (link_cases_same (cases w) id (selectTail ch) x Hx) as Hs.
  destruct (cases w !! x), (link_cases (cases w) id (selectTail ch) !! x); try done. cbn. by destruct Hs as [_ ->].
Qed.

Lemma joining_quiet w w' id c : quiet w w' -> joining w' id c = joining w id c.
Proof.
  intros Hq. unfold joining. destruct (cases w' !! id) as [k'|] eqn:E.
  - destruct (quiet_case _ _ _ _ Hq E) as (k & -> & Ev). unfold case_view in Ev. by replace (resource k') with (resource k) by congruence.
  - destruct (cases w !! id) as [k|] eqn:E'; [|done]. destruct (quiet_case _ _ _ _ (quiet_sym _ _ Hq) E') as (k' & ? & _). congruence.
Qed.

Definition joined (w : state) (ids : list case_id) (c : chan) : list case_id := flat_map (fun id => joining w id c) ids.

Lemma register_fold_linked ids w Q :
  linked w Q -> NoDup ids -> (forall id k, id ∈ ids -> cases w !! id = Some k -> registered k = false) ->
  linked (fold_left (fun w id => register_case id w) ids w) (fun c => Q c ++ joined w ids c).
Proof.
  revert w Q. induction ids as [|id ids IH]; intros w Q L Hnd Hun; cbn [fold_left].
  - eapply linked_ext; [|exact L]. intros c. apply app_nil_r.
  - apply NoDup_cons in Hnd as [Hid Hnd]. pose proof (register_case_quiet id w) as Hq.
    eapply linked_ext; [|apply (IH (register_case id w)); [by apply register_case_linked; [|intros k; apply Hun; left]|done|]].
    + intros c. cbn [joined flat_map]. rewrite <- app_assoc. do 2 f_equal. unfold joined. clear -Hq. induction ids as [|i ids IH]; [done|].
      cbn [flat_map]. by rewrite IH, (joining_quiet w (register_case id w) i c Hq).
    + intros x k Hx Hk. assert (x <> id) as Hne by by intros ->. pose proof (register_case_registered id x w Hne) as E. rewrite Hk in E.
      destruct (cases w !! x) as [kx|] eqn:Ex; [|done]. injection E as ->. eapply Hun; [by right|exact Ex].
Qed.

Lemma case_ids_NoDup w s : NoDup (case_ids w s).
Proof.
  unfold case_ids. destruct (sels w !! s); [|constructor]. apply (NoDup_fmap_2_strong (fun i => (s, N.of_nat i))); [|apply NoDup_seq].
  intros i j _ _ E. injection E. lia.
Qed.

Lemma register_linked s w Q :
  linked w Q -> (forall id k, fst id = s -> cases w !! id = Some k -> registered k = false) ->
  linked (register s w) (fun c => Q c ++ joined w (case_ids w s) c).
Proof.
  intros L Hun. apply register_fold_linked; [done|apply case_ids_NoDup|]. intros id k Hid. apply Hun. by eapply case_ids_fst.
Qed.

(** ** Lemmas: peers *)

Definition peer_ok (w : state) (dir : bool) (own : option sel) (id : case_id) : bool :=
  match cases w !! id with
  | Some k => negb (bool_decide (Some (fst id) = own)) && negb (Bool.eqb (send k) dir) && negb (is_done w (fst id))
  | None => false
  end.

Lemma peer_loop_find fuel w p h q t dir own :
  dseg (cases w) p h q t None -> (length q < fuel)%nat -> peer_loop fuel w h dir own = List.find (peer_ok w dir own) q.
Proof.
  revert p h fuel. induction q as [|x q IH]; intros p h fuel Hs Hf; (destruct fuel as [|fuel]; [cbn in Hf; lia|]).
  - destruct Hs as [-> _]. done.
  - destruct Hs as (-> & k & Hk & _ & Hs). cbn [peer_loop List.find length] in *. unfold peer_ok at 1. rewrite Hk.
    destruct (negb _ && negb _ && negb _); [done|]. eapply IH; [done|lia].
Qed.

Lemma list_in_cases w Q c : linked w Q -> (length (Q c) <= size (cases w))%nat.
Proof.
  intros L. rewrite <- size_dom, <- (size_list_to_set (C := gset case_id) (Q c) (lk_nodup _ _ L c)). apply subseteq_size.
  intros x Hx. apply elem_of_list_to_set, (lk_in _ _ L) in Hx as (k & Hk & _). apply elem_of_dom. by exists k.
Qed.

Lemma selectionPeer_find w Q c dir own : linked w Q -> selectionPeer w c dir own = List.find (peer_ok w dir own) (Q c).
Proof.
  intros L. unfold selectionPeer. destruct (chans w !! c) as [ch|] eqn:Hch; [|by rewrite (lk_none _ _ L c Hch)].
  eapply peer_loop_find; [by apply (lk_seg _ _ L)|]. unfold walk_fuel. pose proof (list_in_cases _ _ c L). lia.
Qed.

Lemma selectionPeer_some w Q c dir own p :
  linked w Q -> selectionPeer w c dir own = Some p ->
  exists k, cases w !! p = Some k /\ p ∈ Q c /\ resource k = Some c /\ registered k = true /\ send k = negb dir /\ Some (fst p) <> own /\ is_done w (fst p) = false.
Proof.
  intros L Hp. rewrite (selectionPeer_find _ _ _ _ _ L) in Hp. apply List.find_some in Hp as [Hin Hok]. apply list_elem_of_In in Hin.
  pose proof Hin as (k & Hk & Hr & Hc)%(lk_in _ _ L). unfold peer_ok in Hok. rewrite Hk in Hok. breflect. case_bool_decide; [done|].
  exists k. repeat (split; [done|]). split; [|done]. by destruct (send k), dir.
Qed.

Lemma selectionPeer_none w Q c dir own p k :
  linked w Q -> selectionPeer w c dir own = None -> p ∈ Q c -> cases w !! p = Some k -> is_done w (fst p) = false ->
  Some (fst p) <> own -> send k = dir.
Proof.
  intros L Hp Hin Hk Hd Hown. rewrite (selectionPeer_find _ _ _ _ _ L) in Hp. apply list_elem_of_In in Hin.
  pose proof (List.find_none _ _ Hp p Hin) as Hn. unfold peer_ok in Hn. rewrite Hk, Hd in Hn. rewrite bool_decide_false in Hn by done.
  cbn in Hn. rewrite andb_true_r in Hn. apply negb_false_iff, eqb_prop in Hn. done.
Qed.

(** ** The representation of a set of channels *)

Record stored (w : state) (m : gmap chan (bqueue V)) : Prop := {
  st_holds : holds (bufs w) m;
  st_chan : forall c ch, chans w !! c = Some ch -> exists q, m !! c = Some q /\ limit q = Capacity ch /\ shut q = Closed ch
}.

(** A registered case belongs to a pending selection, and a pending selection has no error. *)
Record settled_but (e : sel -> Prop) (w : state) (Q : chan -> list case_id) : Prop := {
  se_done : forall c id, id ∈ Q c -> is_done w (fst id) = false;
  se_err : forall s x, ~ e s -> sels w !! s = Some x -> done x = false -> serr x = None
}.
Definition settled (w : state) (Q : chan -> list case_id) : Prop := settled_but (fun _ => False) w Q.

Record rep (w : state) (Q : chan -> list case_id) (m : gmap chan (bqueue V)) : Prop := {
  rep_linked : linked w Q;
  rep_stored : stored w m;
  rep_settled : settled w Q
}.

Definition sel_outcome (x : channelSelection V) : Z * bool * V * bool * option channel_error :=
  (index x, done x, svalue x, sok x, serr x).
Definition outcome (w : state) (s : sel) : option (Z * bool * V * bool * option channel_error) := sel_outcome <$> sels w !! s.

Definition others (S : list sel) (w w' : state) : Prop := forall s, s ∉ S -> outcome w' s = outcome w s.

(** The channels, buffers and cases are the same. *)
Record still (w w' : state) : Prop := {
  sl_chans : chan_view <$> (chans w' : gmap _ _) = chan_view <$> (chans w : gmap _ _);
  sl_bufs : bufs w' = bufs w;
  sl_cases : case_view <$> (cases w' : gmap _ _) = case_view <$> (cases w : gmap _ _)
}.

(** The fields of the channels and of the cases are the same; buffers and outcomes may differ. *)
Record same_shape (w w' : state) : Prop := {
  sh_chans : chan_view <$> (chans w' : gmap _ _) = chan_view <$> (chans w : gmap _ _);
  sh_cases : case_view <$> (cases w' : gmap _ _) = case_view <$> (cases w : gmap _ _)
}.

Lemma still_shape w w' : still w w' -> same_shape w w'.
Proof. intros []. by split. Qed.

Lemma same_shape_trans w1 w2 w3 : same_shape w1 w2 -> same_shape w2 w3 -> same_shape w1 w3.
Proof. intros [] []. split; congruence. Qed.

Lemma same_shape_case w w' id k' : same_shape w w' -> cases w' !! id = Some k' -> exists k, cases w !! id = Some k /\ case_view k' = case_view k.
Proof.
  intros [_ Hc] Hk. assert (case_view <$> cases w' !! id = case_view <$> cases w !! id) as E by (rewrite <- !lookup_fmap; by rewrite Hc).
  rewrite Hk in E. destruct (cases w !! id) as [k|]; [|done]. exists k. split; [done|]. exact (inj Some _ _ E).
Qed.

Lemma quiet_still w w' : quiet w w' -> still w w'.
Proof. intros []. by split. Qed.

Lemma still_trans w1 w2 w3 : still w1 w2 -> still w2 w3 -> still w1 w3.
Proof. intros [] []. split; congruence. Qed.

Lemma quiet_outcome w w' s : quiet w w' -> outcome w' s = outcome w s.
Proof.
  intros Hq. unfold outcome. destruct (sels w' !! s) as [x'|] eqn:E.
  - destruct (quiet_sel _ _ _ _ Hq E) as (x & -> & Ev). cbn. unfold sel_outcome. unfold sel_view in Ev. by injection Ev as ? -> -> -> -> ->.
  - destruct (sels w !! s) as [x|] eqn:E'; [|done]. destruct (quiet_sel _ _ _ _ (quiet_sym _ _ Hq) E') as (x' & ? & _). congruence.
Qed.

Lemma still_chan w w' c : still w w' -> chan_view <$> chans w' !! c = chan_view <$> chans w !! c.
Proof. intros [Hc _ _]. rewrite <- !lookup_fmap. by rewrite Hc. Qed.

Lemma stored_still w w' m : still w w' -> stored w m -> stored w' m.
Proof.
  intros Hs [S1 S2]. split; [by rewrite (sl_bufs _ _ Hs)|]. intros c ch Hch. pose proof (still_chan _ _ c Hs) as E. rewrite Hch in E.
  destruct (chans w !! c) as [ch0|] eqn:E0; [|done]. destruct (S2 c ch0 E0) as (q & Hq & H1 & H2). exists q. unfold chan_view in E.
  cbn in E. injection E as -> ->. done.
Qed.

(** The lists without the cases of a selection. *)
Definition without (s : sel) (Q : chan -> list case_id) (c : chan) : list case_id := filter (fun x => fst x <> s) (Q c).

Lemma elem_of_without s Q c id : id ∈ without s Q c <-> fst id <> s /\ id ∈ Q c.
Proof. unfold without. by rewrite list_elem_of_filter. Qed.

Lemma outcome_set_sel s f w s' : outcome (set_sel s f w) s' = if decide (s' = s) then (fun x => sel_outcome (f x)) <$> sels w !! s else outcome w s'.
Proof.
  unfold outcome. cbn [sels set_sel]. case_decide as E.
  - subst. rewrite lookup_alter_eq. by destruct (sels w !! s).
  - by rewrite lookup_alter_ne.
Qed.

Lemma outcome_done w s : is_done w s = match outcome w s with Some (_, d, _, _, _) => d | None => false end.
Proof. unfold is_done, outcome. by destruct (sels w !! s). Qed.

(** Completing a pending selection. *)
Lemma complete_rep s i v ok w Q m x :
  linked w Q -> stored w m -> settled_but (fun s' => s' = s) w Q -> sels w !! s = Some x ->
  let w' := complete s i v ok w in
  rep w' (without s Q) m /\ outcome w' s = Some (i, true, v, ok, serr x) /\ others [s] w w' /\ still w w'.
Proof.
  intros L St Se Hx. cbv zeta. unfold complete. set (w1 := unregister s w).
  set (f := fun x => mkSelection (ncases x) i true v ok (serr x) (owner x) (allocated x) (admittedBytes x)).
  pose proof (unregister_quiet s w) as Hq. fold w1 in Hq. pose proof (unregister_linked s w Q L) as L1. fold w1 in L1. fold (without s Q) in L1.
  destruct (notify_owner_links s (set_sel s f w1)) as (E1 & E2 & E3). set (w' := notify_owner s (set_sel s f w1)) in *.
  pose proof (notify_owner_quiet s (set_sel s f w1)) as Hq'. fold w' in Hq'.
  destruct (quiet_sel _ _ s x (quiet_sym _ _ Hq) Hx) as (x1 & Hx1 & Ev1).
  assert (outcome w' s = Some (i, true, v, ok, serr x)) as Ho.
  { rewrite (quiet_outcome _ _ s Hq'), outcome_set_sel, decide_True, Hx1 by done. unfold sel_view in Ev1. assert (serr x1 = serr x) as <- by congruence. done. }
  assert (others [s] w w') as Hot.
  { intros s' Hs'. rewrite list_elem_of_singleton in Hs'. rewrite (quiet_outcome _ _ s' Hq'), outcome_set_sel, decide_False by done. by apply quiet_outcome. }
  assert (still w w') as Hst.
  { eapply still_trans; [by apply quiet_still|]. eapply still_trans; [|by apply quiet_still]. by split. }
  split; [|done]. split; [|by eapply stored_still|split].
  - eapply (linked_frame w1); [by rewrite E1|by rewrite E2| |done]. rewrite E3. cbn [sels set_sel]. by apply fmap_alter_same.
  - intros c id [Hne Hin]%elem_of_without. rewrite outcome_done, Hot by by rewrite list_elem_of_singleton. rewrite <- outcome_done. by eapply se_done.
  - intros s' x' _ Hx' Hd. destruct (decide (s' = s)) as [->|Hne].
    { unfold outcome in Ho. rewrite Hx' in Ho. cbn in Ho. unfold sel_outcome in Ho. congruence. }
    pose proof (Hot s') as Hs'. rewrite list_elem_of_singleton in Hs'. specialize (Hs' Hne). unfold outcome in Hs'. rewrite Hx' in Hs'.
    destruct (sels w !! s') as [x0|] eqn:E0; [|done]. cbn in Hs'. unfold sel_outcome in Hs'.
    assert (serr x' = serr x0 /\ done x' = done x0) as [-> Hd'] by (split; congruence). eapply (se_err _ _ _ Se s'); [done|done|congruence].
Qed.

(** ** The specification of a commit *)

(** What a step moves: a value into a buffer, out of one, or from a sender to a receiver. *)
Inductive label : Type :=
| Silent
| Put (c : chan) (v : V)
| Take (c : chan) (v : V)
| Pass (c : chan) (v : V).

(** The case a sender or a receiver meets: the one of the opposite direction and of another selection
    that has waited longest on the channel. *)
Definition next_peer (w : state) (Q : chan -> list case_id) (c : chan) (dir : bool) (own : option sel) : option case_id :=
  List.find (fun p => match cases w !! p with
                      | Some k => bool_decide (send k = negb dir) && bool_decide (Some (fst p) <> own)
                      | None => false
                      end) (Q c).

(** The selections that a commit of case [id] of [s] completes, with their results.  A commit fails only
    with the error of the buffer, when the buffer is where the value goes to or comes from. *)
Inductive commits (w : state) (Q : chan -> list case_id) (m : gmap chan (bqueue V)) (s : sel) (id : case_id) (w' : state) :
  label -> gmap chan (bqueue V) -> list sel -> Prop :=
| commits_closed_send k c q :
    cases w !! id = Some k -> resource k = Some c -> m !! c = Some q -> send k = true -> shut q = true ->
    outcome w' s = Some (case_index id, true, nil_value, false, Some panic_error) -> commits w Q m s id w' Silent m [s]
| commits_to_receiver k c q p kp :
    cases w !! id = Some k -> resource k = Some c -> m !! c = Some q -> send k = true -> shut q = false ->
    next_peer w Q c true (Some s) = Some p -> cases w !! p = Some kp -> send kp = false -> fst p <> s ->
    outcome w' s = Some (case_index id, true, nil_value, false, None) ->
    outcome w' (fst p) = Some (case_index p, true, value k, true, None) ->
    commits w Q m s id w' (Pass c (value k)) m [s; fst p]
| commits_to_buffer k c q :
    cases w !! id = Some k -> resource k = Some c -> m !! c = Some q -> send k = true -> shut q = false ->
    next_peer w Q c true (Some s) = None -> Z.of_nat (length (items q)) < limit q ->
    outcome w' s = Some (case_index id, true, nil_value, false, None) ->
    commits w Q m s id w' (Put c (value k)) (<[c := mkQueue (items q ++ [value k]) (limit q) (shut q)]> m) [s]
| commits_send_failed k c q e :
    cases w !! id = Some k -> resource k = Some c -> m !! c = Some q -> send k = true -> shut q = false ->
    next_peer w Q c true (Some s) = None -> Z.of_nat (length (items q)) < limit q -> fst (buf_append c (value k) (bufs w)) = Err e ->
    outcome w' s = Some (case_index id, true, nil_value, false, Some e) -> commits w Q m s id w' Silent m [s]
| commits_receive_failed k c q e :
    cases w !! id = Some k -> resource k = Some c -> m !! c = Some q -> send k = false -> items q <> [] ->
    fst (buf_pop c (bufs w)) = Err e ->
    outcome w' s = Some (case_index id, true, nil_value, false, Some e) -> commits w Q m s id w' Silent m [s]
| commits_from_buffer k c q v l :
    cases w !! id = Some k -> resource k = Some c -> m !! c = Some q -> send k = false -> items q = v :: l ->
    outcome w' s = Some (case_index id, true, v, true, None) ->
    commits w Q m s id w' (Take c v) (<[c := mkQueue l (limit q) (shut q)]> m) [s]
| commits_from_sender k c q p kp :
    cases w !! id = Some k -> resource k = Some c -> m !! c = Some q -> send k = false -> shut q = false -> items q = [] ->
    next_peer w Q c false (Some s) = Some p -> cases w !! p = Some kp -> send kp = true -> fst p <> s ->
    outcome w' s = Some (case_index id, true, value kp, true, None) ->
    outcome w' (fst p) = Some (case_index p, true, nil_value, false, None) ->
    commits w Q m s id w' (Pass c (value kp)) m [s; fst p]
| commits_closed_receive k c q :
    cases w !! id = Some k -> resource k = Some c -> m !! c = Some q -> send k = false -> shut q = true -> items q = [] ->
    outcome w' s = Some (case_index id, true, zero k, false, None) -> commits w Q m s id w' Silent m [s].

Definition without_all (S : list sel) (Q : chan -> list case_id) (c : chan) : list case_id := filter (fun x => fst x ∉ S) (Q c).

Lemma without_one s Q c : without_all [s] Q c = without s Q c.
Proof. apply list_filter_ext. intros x _. by rewrite list_elem_of_singleton. Qed.

Lemma without_two s p Q c : without_all [s; p] Q c = without s (without p Q) c.
Proof.
  unfold without_all, without. rewrite list_filter_filter. apply list_filter_ext. intros x _. rewrite not_elem_of_cons, list_elem_of_singleton. tauto.
Qed.

Lemma selectionPeer_next w Q m c dir own : rep w Q m -> selectionPeer w c dir own = next_peer w Q c dir own.
Proof.
  intros R. rewrite (selectionPeer_find w Q) by apply R. unfold next_peer. pose proof (se_done _ _ _ (rep_settled _ _ _ R) c) as Hd.
  induction (Q c) as [|p l IH]; [done|]. cbn [List.find]. rewrite IH by (intros id Hin; apply Hd; by right).
  assert (peer_ok w dir own p = match cases w !! p with
    | Some k => bool_decide (send k = negb dir) && bool_decide (Some (fst p) <> own) | None => false end) as ->; [|done].
  unfold peer_ok. rewrite (Hd p) by left. destruct (cases w !! p) as [k|]; [|done].
  destruct (decide (Some (fst p) = own)); [rewrite bool_decide_true, (bool_decide_false (_ <> _)) by tauto; by rewrite andb_false_r|].
  rewrite bool_decide_false, (bool_decide_true (_ <> _)) by done. by destruct (send k), dir.
Qed.

Lemma rep_ext w Q Q' m : (forall c, Q' c = Q c) -> rep w Q m -> rep w Q' m.
Proof.
  intros E [R1 R2 [R3 R4]]. split; [by eapply linked_ext|done|]. split; [|done]. intros c id Hin. rewrite E in Hin. by eapply R3.
Qed.

(** ** Lemmas: the buffers *)

Lemma bufferLen_rep w m c q : stored w m -> m !! c = Some q -> bufferLen w c = Z.of_nat (length (items q)) /\ bufferLen w c <= limit q.
Proof. intros [S1 _] Hq. by apply (holds_len _ m). Qed.

(** The state after a buffer changed and its waiters were notified. *)
Record rebuffered (w w' : state) : Prop := {
  rb_chans : chans w' = chans w;
  rb_cases : cases w' = cases w;
  rb_sels : sels w' = sels w
}.

Lemma rebuffered_rep e w w' Q m m' :
  rebuffered w w' -> linked w Q -> settled_but e w Q -> holds (bufs w') m' ->
  (forall c ch, chans w !! c = Some ch -> exists q, m' !! c = Some q /\ limit q = Capacity ch /\ shut q = Closed ch) ->
  stored w m -> linked w' Q /\ stored w' m' /\ settled_but e w' Q.
Proof.
  intros [E1 E2 E3] L [Se1 Se2] Hh Hc St. split; [|split].
  - eapply (linked_frame w); [by rewrite E1|done|by rewrite E3|done].
  - split; [done|]. rewrite E1. exact Hc.
  - split; [|by rewrite E3]. intros c id Hin. unfold is_done. rewrite E3. by apply (Se1 c).
Qed.

Lemma rebuffered_outcome w w' s : rebuffered w w' -> outcome w' s = outcome w s.
Proof. intros [_ _ E]. unfold outcome. by rewrite E. Qed.

Lemma notify_rebuffered c b w : rebuffered w (notifySelections c (set_bufs b w)).
Proof. destruct (notifySelections_links c (set_bufs b w)) as (E1 & E2 & E3). by split. Qed.

Lemma notify_bufs c b w : bufs (notifySelections c (set_bufs b w)) = b.
Proof. by rewrite (q_bufs _ _ (notifySelections_quiet c (set_bufs b w))). Qed.

(** Replacing the items of a queue keeps capacities and closed flags. *)
Lemma stored_insert (w : state) m c q q' :
  stored w m -> m !! c = Some q -> limit q' = limit q -> shut q' = shut q ->
  forall c0 ch, chans w !! c0 = Some ch -> exists q0, (<[c := q']> m) !! c0 = Some q0 /\ limit q0 = Capacity ch /\ shut q0 = Closed ch.
Proof.
  intros [_ S2] Hq Hl Hs c0 ch Hch. destruct (S2 c0 ch Hch) as (q0 & Hq0 & H1 & H2). destruct (decide (c0 = c)) as [->|Hne].
  - exists q'. rewrite lookup_insert_eq. split; [done|]. split; congruence.
  - exists q0. by rewrite lookup_insert_ne.
Qed.

Lemma appendBuffer_rep w Q m c q v r w' :
  rep w Q m -> m !! c = Some q -> shut q = false -> Z.of_nat (length (items q)) < limit q -> appendBuffer c v w = (r, w') ->
  rebuffered w w' /\
  rep w' Q (match r with Ok _ => <[c := mkQueue (items q ++ [v]) (limit q) (shut q)]> m | Err _ => m end).
Proof.
  intros [L St Se] Hq Hs Hl Ha. unfold appendBuffer in Ha. destruct (buf_append c v (bufs w)) as [[[]|e] b] eqn:E; injection Ha as <- <-.
  - split; [apply notify_rebuffered|]. pose proof (holds_append _ _ _ _ _ _ _ (st_holds _ _ St) Hq Hs Hl E) as Hh.
    destruct (rebuffered_rep (fun _ => False) w (notifySelections c (set_bufs b w)) Q m (<[c := mkQueue (items q ++ [v]) (limit q) (shut q)]> m))
      as (L' & St' & Se'); [apply notify_rebuffered|done|done|by rewrite notify_bufs|by eapply stored_insert|done|by split].
  - split; [by split|]. pose proof (holds_append _ _ _ _ _ _ _ (st_holds _ _ St) Hq Hs Hl E) as Hh.
    destruct (rebuffered_rep (fun _ => False) w (set_bufs b w) Q m m) as (L' & St' & Se'); [by split|done|done|done|apply (st_chan _ _ St)|done|by split].
Qed.

(** A failing operation on a channel fails with the error of its buffer. *)
Lemma appendBuffer_err c v w e w' : appendBuffer c v w = (Err e, w') -> fst (buf_append c v (bufs w)) = Err e.
Proof. unfold appendBuffer. by destruct (buf_append c v (bufs w)) as [[]]; intros [= <- <-]. Qed.

Lemma popBuffer_err c w e w' : popBuffer c w = (Err e, w') -> fst (buf_pop c (bufs w)) = Err e.
Proof. unfold popBuffer. by destruct (buf_pop c (bufs w)) as [[]]; intros [= <- <-]. Qed.

Lemma popBuffer_rep w Q m c q v l r w' :
  rep w Q m -> m !! c = Some q -> items q = v :: l -> popBuffer c w = (r, w') ->
  rebuffered w w' /\
  match r with
  | Ok v' => v' = v /\ rep w' Q (<[c := mkQueue l (limit q) (shut q)]> m)
  | Err _ => rep w' Q m
  end.
Proof.
  intros [L St Se] Hq Hi Hp. unfold popBuffer in Hp. destruct (buf_pop c (bufs w)) as [[v'|e] b] eqn:E; injection Hp as <- <-.
  - split; [apply notify_rebuffered|]. destruct (holds_pop _ _ _ _ _ _ _ _ (st_holds _ _ St) Hq Hi E) as [-> Hh]. split; [done|].
    destruct (rebuffered_rep (fun _ => False) w (notifySelections c (set_bufs b w)) Q m (<[c := mkQueue l (limit q) (shut q)]> m))
      as (L' & St' & Se'); [apply notify_rebuffered|done|done|by rewrite notify_bufs|by eapply stored_insert|done|by split].
  - split; [by split|]. pose proof (holds_pop _ _ _ _ _ _ _ _ (st_holds _ _ St) Hq Hi E) as Hh.
    destruct (rebuffered_rep (fun _ => False) w (set_bufs b w) Q m m) as (L' & St' & Se'); [by split|done|done|done|apply (st_chan _ _ St)|done|by split].
Qed.

(** ** Lemmas: completions *)

Definition pending (w : state) (s : sel) : Prop := exists x, sels w !! s = Some x /\ done x = false.

Lemma pending_outcome w s : pending w s <-> exists i v ok e, outcome w s = Some (i, false, v, ok, e).
Proof.
  unfold pending, outcome. split.
  - intros (x & -> & Hd). cbn. unfold sel_outcome. rewrite Hd. by repeat eexists.
  - intros (i & v & ok & e & E). destruct (sels w !! s) as [x|]; [|done]. exists x. split; [done|]. cbn in E. unfold sel_outcome in E. congruence.
Qed.

Lemma settled_weaken e w Q : settled w Q -> settled_but e w Q.
Proof. intros [S1 S2]. split; [done|]. intros s x _. apply S2. tauto. Qed.

Lemma complete_one s i v ok w Q m :
  rep w Q m -> pending w s ->
  let w' := complete s i v ok w in
  rep w' (without_all [s] Q) m /\ outcome w' s = Some (i, true, v, ok, None) /\ others [s] w w' /\ still w w'.
Proof.
  intros [L St Se] (x & Hx & Hd). destruct (complete_rep s i v ok w Q m x L St (settled_weaken _ _ _ Se) Hx) as (R & O & Ot & Sl).
  cbv zeta. split; [eapply rep_ext; [|exact R]; intros c; apply without_one|]. split; [|done].
  rewrite O, (se_err _ _ _ Se s x) by tauto. done.
Qed.

Lemma complete_error s i v ok e w Q m :
  rep w Q m -> pending w s ->
  let w' := complete s i v ok (set_sel s (put_error (Some e)) w) in
  rep w' (without_all [s] Q) m /\ outcome w' s = Some (i, true, v, ok, Some e) /\ others [s] w w' /\ still w w'.
Proof.
  intros [L St Se] (x & Hx & Hd). set (w1 := set_sel s (put_error (Some e)) w).
  assert (linked w1 Q) as L1. { eapply (linked_frame w); [done|done| |done]. cbn [w1 sels set_sel]. by apply fmap_alter_same. }
  assert (stored w1 m) as St1 by (eapply (stored_still w); [by split|done]).
  assert (settled_but (fun s' => s' = s) w1 Q) as Se1.
  { destruct Se as [S1 S2]. split.
    - intros c id Hin. pose proof (S1 c id Hin) as Hd'. revert Hd'. unfold is_done. cbn [w1 sels set_sel].
      destruct (decide (fst id = s)) as [->|Hne]; [rewrite lookup_alter_eq; by destruct (sels w !! s)|by rewrite lookup_alter_ne].
    - intros s' x' Hne. cbn [w1 sels set_sel]. rewrite lookup_alter_ne by done. apply S2. tauto. }
  assert (sels w1 !! s = Some (put_error (Some e) x)) as Hx1 by (cbn [w1 sels set_sel]; by rewrite lookup_alter_eq, Hx).
  destruct (complete_rep s i v ok w1 Q m _ L1 St1 Se1 Hx1) as (R & O & Ot & Sl). cbv zeta.
  split; [eapply rep_ext; [|exact R]; intros c; apply without_one|]. split; [done|]. split; [|by eapply still_trans; [|exact Sl]].
  intros s' Hs'. rewrite (Ot s' Hs'). unfold w1. rewrite outcome_set_sel, decide_False; [done|]. by rewrite <- list_elem_of_singleton.
Qed.

Lemma complete_pair s i v ok p i' v' ok' w Q m :
  rep w Q m -> pending w s -> pending w p -> p <> s ->
  let w' := complete s i v ok (complete p i' v' ok' w) in
  rep w' (without_all [s; p] Q) m /\ outcome w' s = Some (i, true, v, ok, None) /\
  outcome w' p = Some (i', true, v', ok', None) /\ others [s; p] w w' /\ still w w'.
Proof.
  intros R Hs Hp Hne. destruct (complete_one p i' v' ok' w Q m R Hp) as (R1 & O1 & Ot1 & Sl1). cbv zeta in *. set (w1 := complete p i' v' ok' w) in *.
  assert (pending w1 s) as Hs1.
  { apply pending_outcome. rewrite (Ot1 s) by (rewrite list_elem_of_singleton; congruence). by apply pending_outcome. }
  destruct (complete_one s i v ok w1 _ m R1 Hs1) as (R2 & O2 & Ot2 & Sl2). cbv zeta in *.
  split; [eapply rep_ext; [|exact R2]|].
  { intros c. rewrite without_two, without_one. unfold without at 1 3. by rewrite without_one. }
  split; [done|]. split; [by rewrite (Ot2 p) by (rewrite list_elem_of_singleton; congruence)|]. split; [|by eapply still_trans].
  intros s' [Hn1 Hn2]%not_elem_of_cons. rewrite (Ot2 s'), (Ot1 s'); [done|done|]. by rewrite list_elem_of_singleton.
Qed.

Lemma peer_pending w Q m c dir own p :
  rep w Q m -> selectionPeer w c dir own = Some p ->
  pending w (fst p) /\ exists k, cases w !! p = Some k /\ p ∈ Q c /\ send k = negb dir /\ Some (fst p) <> own.
Proof.
  intros R Hp. destruct (selectionPeer_some _ _ _ _ _ _ (rep_linked _ _ _ R) Hp) as (k & Hk & Hin & Hc & Hr & Hs & Ho & Hd).
  split; [|by exists k]. pose proof (lk_case _ _ (rep_linked _ _ _ R) _ _ Hk) as Hid. unfold case_ids in Hid. unfold is_done in Hd.
  destruct (sels w !! fst p) as [x|] eqn:Hx; [by exists x|by apply not_elem_of_nil in Hid].
Qed.

Lemma rebuffered_pending w w' s : rebuffered w w' -> pending w s -> pending w' s.
Proof. intros [_ _ E]. unfold pending. by rewrite E. Qed.

(** A commit, the lists it leaves and the selections it does not touch. *)
Definition committed (w : state) (Q : chan -> list case_id) (m : gmap chan (bqueue V)) (s : sel) (id : case_id) (w' : state) (l : label)
    (m' : gmap chan (bqueue V)) (S : list sel) : Prop :=
  commits w Q m s id w' l m' S /\ rep w' (without_all S Q) m' /\ others S w w' /\ same_shape w w'.

Lemma rebuffered_shape w w' : rebuffered w w' -> same_shape w w'.
Proof. intros [E1 E2 _]. split; by rewrite ?E1, ?E2. Qed.

Lemma committed_direct w Q m s id w' l m' S :
  commits w Q m s id w' l m' S -> rep w' (without_all S Q) m' -> others S w w' -> still w w' -> committed w Q m s id w' l m' S.
Proof. intros C R Ot Sl. split; [done|]. split; [done|]. split; [done|]. by apply still_shape. Qed.

Lemma committed_buffered w w1 Q m s id w' l m' S :
  commits w Q m s id w' l m' S -> rebuffered w w1 -> rep w' (without_all S Q) m' -> others S w1 w' -> still w1 w' -> committed w Q m s id w' l m' S.
Proof.
  intros C Rb R Ot Sl. split; [done|]. split; [done|]. split.
  - intros s' Hs'. rewrite (Ot s' Hs'). by apply rebuffered_outcome.
  - eapply same_shape_trans; [by apply rebuffered_shape|by apply still_shape].
Qed.

Lemma commit_send_rep w Q m s id k c q :
  rep w Q m -> pending w s -> cases w !! id = Some k -> resource k = Some c -> m !! c = Some q -> send k = true ->
  fst id = s -> available w id = true -> exists l m' S, committed w Q m s id (commit_case s id w) l m' S.
Proof.
  intros R Hp Hk Hc Hq Hs Hid Hav. destruct (lk_chan _ _ (rep_linked _ _ _ R) _ _ _ Hk Hc) as [ch Hch].
  destruct (st_chan _ _ (rep_stored _ _ _ R) _ _ Hch) as (q' & Hq' & Hlim & Hshut). assert (q' = q) as -> by congruence.
  unfold commit_case. rewrite Hk, Hc, Hch, Hs. cbv zeta. rewrite <- Hshut.
  destruct (shut q) eqn:Es.
  { destruct (complete_error s (case_index id) nil_value false panic_error w Q m R Hp) as (R' & O & Ot & Sl). do 3 eexists.
    apply committed_direct; [by eapply commits_closed_send|done..]. }
  destruct (selectionPeer w c true (Some s)) as [p|] eqn:Ep.
  { destruct (peer_pending _ _ _ _ _ _ _ R Ep) as [Hpp (kp & Hkp & _ & Hsp & Hne)]. assert (fst p <> s) as Hne' by congruence.
    destruct (complete_pair s (case_index id) nil_value false (fst p) (case_index p) (value k) true w Q m R Hp Hpp Hne') as (R' & O1 & O2 & Ot & Sl).
    rewrite (selectionPeer_next w Q m) in Ep by done. do 3 eexists. apply committed_direct; [by eapply commits_to_receiver|done..]. }
  assert (Z.of_nat (length (items q)) < limit q) as Hroom.
  { destruct (bufferLen_rep _ _ _ _ (rep_stored _ _ _ R) Hq) as [El _]. unfold available in Hav. rewrite Hk, Hc, Hch, Hs, Hid, Ep, <- Hshut, El in Hav.
    rewrite bool_decide_false in Hav by (by intros [? ?]). cbn [orb] in Hav. breflect. lia. }
  destruct (appendBuffer c (value k) w) as [r w1] eqn:Ea. destruct (appendBuffer_rep _ _ _ _ _ _ _ _ R Hq Es Hroom Ea) as [Rb R1].
  pose proof (rebuffered_pending _ _ s Rb Hp) as Hp1. rewrite (selectionPeer_next w Q m) in Ep by done.
  destruct r as [[]|e].
  - destruct (complete_one s (case_index id) nil_value false w1 Q _ R1 Hp1) as (R' & O & Ot & Sl). do 3 eexists.
    eapply committed_buffered; [by eapply commits_to_buffer|done..].
  - destruct (complete_error s (case_index id) nil_value false e w1 Q m R1 Hp1) as (R' & O & Ot & Sl). do 3 eexists.
    eapply committed_buffered; [by eapply commits_send_failed; [..|by eapply appendBuffer_err|]|done..].
Qed.

Lemma commit_receive_rep w Q m s id k c q :
  rep w Q m -> pending w s -> cases w !! id = Some k -> resource k = Some c -> m !! c = Some q -> send k = false ->
  fst id = s -> available w id = true -> exists l m' S, committed w Q m s id (commit_case s id w) l m' S.
Proof.
  intros R Hp Hk Hc Hq Hs Hid Hav. destruct (lk_chan _ _ (rep_linked _ _ _ R) _ _ _ Hk Hc) as [ch Hch].
  destruct (st_chan _ _ (rep_stored _ _ _ R) _ _ Hch) as (q' & Hq' & Hlim & Hshut). assert (q' = q) as -> by congruence.
  destruct (bufferLen_rep _ _ _ _ (rep_stored _ _ _ R) Hq) as [El _].
  unfold commit_case. rewrite Hk, Hc, Hch, Hs. cbv zeta. rewrite <- Hshut, El.
  destruct (items q) as [|v l] eqn:Ei.
  - cbn [length]. change (negb (Z.of_nat 0 =? 0)) with false. cbn iota.
    assert (shut q = true -> committed w Q m s id (complete s (case_index id) (zero k) false w) Silent m [s]) as Hzero.
    { intros Es. destruct (complete_one s (case_index id) (zero k) false w Q m R Hp) as (R' & O & Ot & Sl).
      apply committed_direct; [by eapply commits_closed_receive|done..]. }
    destruct (selectionPeer w c false (Some s)) as [p|] eqn:Ep.
    + destruct (shut q) eqn:Es; cbn [negb]; [by do 3 eexists; apply Hzero|].
      destruct (peer_pending _ _ _ _ _ _ _ R Ep) as [Hpp (kp & Hkp & _ & Hsp & Hne)]. assert (fst p <> s) as Hne' by congruence. rewrite Hkp.
      destruct (complete_pair s (case_index id) (value kp) true (fst p) (case_index p) nil_value false w Q m R Hp Hpp Hne') as (R' & O1 & O2 & Ot & Sl).
      rewrite (selectionPeer_next w Q m) in Ep by done. do 3 eexists. apply committed_direct; [by eapply commits_from_sender|done..].
    + do 3 eexists. apply Hzero. unfold available in Hav. rewrite Hk, Hc, Hch, Hs, Hid, Ep, <- Hshut, El in Hav.
      rewrite bool_decide_false in Hav by (by intros [? ?]). cbn in Hav. by destruct (shut q).
  - rewrite (proj2 (Z.eqb_neq _ _)) by (cbn [length]; lia). cbn [negb].
    destruct (popBuffer c w) as [r w1] eqn:Epop. destruct (popBuffer_rep _ _ _ _ _ _ _ _ _ R Hq Ei Epop) as [Rb R1].
    pose proof (rebuffered_pending _ _ s Rb Hp) as Hp1. destruct r as [v'|e].
    + destruct R1 as [-> R1]. destruct (complete_one s (case_index id) v true w1 Q _ R1 Hp1) as (R' & O & Ot & Sl). do 3 eexists.
      eapply committed_buffered; [by eapply commits_from_buffer|done..].
    + destruct (complete_error s (case_index id) nil_value false e w1 Q m R1 Hp1) as (R' & O & Ot & Sl). do 3 eexists.
      eapply committed_buffered; [by eapply commits_receive_failed; [..|by rewrite Ei|by eapply popBuffer_err|]|done..].
Qed.

Lemma choose_ready ready w : match chooseReadyIndex ready w with
  | (None, w') => ready = [] /\ w' = w
  | (Some id, w') => id ∈ ready /\ exists x, w' = set_state x w
  end.
Proof.
  unfold chooseReadyIndex. destruct ready as [|a [|b ready]]; [done| |].
  - split; [left|]. exists (selectState w). by destruct w.
  - set (l := a :: b :: ready). set (i := Z.to_nat _). assert (i < length l)%nat as Hi.
    { pose proof (Z.mod_pos_bound (xorshift (selectState w)) (Z.of_nat (length l)) ltac:(cbn [l length]; lia)). lia. }
    destruct (lookup_lt_is_Some_2 l i Hi) as [id Hid]. rewrite Hid. split; [by eapply list_elem_of_lookup_2|]. by eexists.
Qed.

Lemma rep_set_state x w Q m : rep w Q m -> rep (set_state x w) Q m.
Proof.
  intros [L [S1 S2] [S3 S4]]. split; [by eapply (linked_frame w)|by split|by split].
Qed.

Lemma peer_set_state x w Q c dir own : linked w Q -> selectionPeer (set_state x w) c dir own = selectionPeer w c dir own.
Proof.
  intros L. rewrite (selectionPeer_find _ Q) by (by eapply (linked_frame w)). by rewrite (selectionPeer_find w Q).
Qed.

Lemma available_set_state x w Q id : linked w Q -> available (set_state x w) id = available w id.
Proof.
  intros L. unfold available. cbn [cases chans set_state]. destruct (cases w !! id) as [k|]; [|done]. destruct (resource k) as [c|]; [|done].
  destruct (chans w !! c); [|done]. by rewrite (peer_set_state x w Q).
Qed.

Lemma committed_set_state x w Q m s id w' l m' S :
  committed (set_state x w) Q m s id w' l m' S -> committed w Q m s id w' l m' S.
Proof.
  intros (C & R & Ot & Sh). split; [|split; [done|split; [done|exact (same_shape_trans _ _ _ (still_shape _ _ (quiet_still _ _ (quiet_set_state x w))) Sh)]]]. destruct C; by econstructor.
Qed.

Lemma tryCommit_cases s w Q m :
  rep w Q m -> pending w s ->
  match tryCommit s w with
  | (false, w') => w' = w /\ forall id, id ∈ case_ids w s -> available w id = false
  | (true, w') => exists id l m' S, id ∈ case_ids w s /\ available w id = true /\ committed w Q m s id w' l m' S
  end.
Proof.
  intros R Hp. unfold tryCommit. destruct Hp as (x & Hx & Hd). unfold is_done. rewrite Hx, Hd.
  pose proof (choose_ready (List.filter (available w) (case_ids w s)) w) as Hch.
  destruct (chooseReadyIndex _ w) as [[id|] w1].
  - destruct Hch as [Hin [st ->]]. apply list_elem_of_In, filter_In in Hin as [Hin Hav]. apply list_elem_of_In in Hin.
    pose proof (case_ids_fst _ _ _ Hin) as Hid. pose proof (rep_linked _ _ _ R) as L. pose proof (rep_set_state st w Q m R) as R1.
    assert (pending (set_state st w) s) as Hp1 by (by exists x). pose proof Hav as Hav1. rewrite <- (available_set_state st w Q id L) in Hav1.
    unfold available in Hav. destruct (cases w !! id) as [k|] eqn:Hk; [|done]. destruct (resource k) as [c|] eqn:Hc; [|done].
    destruct (chans w !! c) as [ch|] eqn:Hcc; [|done]. destruct (st_chan _ _ (rep_stored _ _ _ R) _ _ Hcc) as (q & Hq & _).
    assert (exists l m' S, committed (set_state st w) Q m s id (commit_case s id (set_state st w)) l m' S) as (l & m' & S & C).
    { destruct (send k) eqn:Hs; [by eapply commit_send_rep|by eapply commit_receive_rep]. }
    exists id, l, m', S. split; [done|]. split; [by rewrite <- (available_set_state st w Q id L)|]. by eapply (committed_set_state st).
  - destruct Hch as [Hnil ->]. split; [done|]. intros id Hin. destruct (available w id) eqn:Hav; [|done].
    assert (In id (List.filter (available w) (case_ids w s))) as Hf by (apply filter_In; split; [by apply list_elem_of_In|done]).
    by rewrite Hnil in Hf.
Qed.

(** When a case is ready, in terms of the queues and the waiting cases. *)
Definition waiting_peer (w : state) (Q : chan -> list case_id) (c : chan) (dir : bool) (own : option sel) : Prop :=
  exists p k, p ∈ Q c /\ cases w !! p = Some k /\ send k = negb dir /\ Some (fst p) <> own.

Lemma peer_exists w Q m c dir own : rep w Q m -> is_Some (selectionPeer w c dir own) <-> waiting_peer w Q c dir own.
Proof.
  intros R. split.
  - intros [p Hp]. destruct (peer_pending _ _ _ _ _ _ _ R Hp) as [_ (k & Hk & Hin & Hs & Ho)]. by exists p, k.
  - intros (p & k & Hin & Hk & Hs & Ho). destruct (selectionPeer w c dir own) as [p'|] eqn:E; [by eexists|].
    pose proof (selectionPeer_none _ _ _ _ _ _ _ (rep_linked _ _ _ R) E Hin Hk (se_done _ _ _ (rep_settled _ _ _ R) c p Hin) Ho). by destruct dir, (send k).
Qed.

Lemma available_iff w Q m id k c q :
  rep w Q m -> cases w !! id = Some k -> resource k = Some c -> m !! c = Some q ->
  available w id = true <->
  shut q = true \/ waiting_peer w Q c (send k) (Some (fst id)) \/
  (if send k then Z.of_nat (length (items q)) < limit q else items q <> []).
Proof.
  intros R Hk Hc Hq. destruct (lk_chan _ _ (rep_linked _ _ _ R) _ _ _ Hk Hc) as [ch Hch].
  destruct (st_chan _ _ (rep_stored _ _ _ R) _ _ Hch) as (q' & Hq' & Hlim & Hshut). assert (q' = q) as -> by congruence.
  destruct (bufferLen_rep _ _ _ _ (rep_stored _ _ _ R) Hq) as [El _]. unfold available. rewrite Hk, Hc, Hch, El, <- Hlim, <- Hshut.
  destruct (send k); rewrite !orb_true_iff, bool_decide_eq_true, (peer_exists w Q m) by done.
  - rewrite Z.ltb_lt. tauto.
  - rewrite negb_true_iff, Z.eqb_neq. destruct (items q); cbn [length]; [|]; split; intuition (lia || done).
Qed.

(** ** The protocol invariant *)

(** Waiting receivers of a channel find its buffer empty, and the waiting cases of opposite direction
    belong to one selection: no sender and receiver wait for each other. *)
Record protocol (w : state) (Q : chan -> list case_id) (m : gmap chan (bqueue V)) : Prop := {
  pr_empty : forall c id k q, id ∈ Q c -> cases w !! id = Some k -> send k = false -> m !! c = Some q -> items q = [];
  pr_pairs : forall c id1 id2 k1 k2, id1 ∈ Q c -> id2 ∈ Q c -> cases w !! id1 = Some k1 -> cases w !! id2 = Some k2 ->
    send k1 <> send k2 -> fst id1 = fst id2
}.

(** What a step does to the queues. *)
Inductive moves (m : gmap chan (bqueue V)) : label -> gmap chan (bqueue V) -> Prop :=
| moves_silent : moves m Silent m
| moves_shut c q : m !! c = Some q -> shut q = false -> moves m Silent (<[c := mkQueue (items q) (limit q) true]> m)
| moves_put c q v : m !! c = Some q -> shut q = false -> Z.of_nat (length (items q)) < limit q ->
    moves m (Put c v) (<[c := mkQueue (items q ++ [v]) (limit q) (shut q)]> m)
| moves_take c q v l : m !! c = Some q -> items q = v :: l -> moves m (Take c v) (<[c := mkQueue l (limit q) (shut q)]> m)
| moves_pass c q v : m !! c = Some q -> shut q = false -> items q = [] -> moves m (Pass c v) m.

Lemma protocol_sub w w' Q Q' m :
  same_shape w w' -> (forall c id, id ∈ Q' c -> id ∈ Q c) -> protocol w Q m -> protocol w' Q' m.
Proof.
  intros Sh Hsub [P1 P2]. split.
  - intros c id k' q Hin Hk Hs Hq. destruct (same_shape_case _ _ _ _ Sh Hk) as (k & Hk0 & E). eapply (P1 c id k); [by apply Hsub|done| |done].
    unfold case_view in E. congruence.
  - intros c id1 id2 k1 k2 Hin1 Hin2 Hk1 Hk2 Hne. destruct (same_shape_case _ _ _ _ Sh Hk1) as (k1' & Hk1' & E1).
    destruct (same_shape_case _ _ _ _ Sh Hk2) as (k2' & Hk2' & E2). eapply (P2 c id1 id2 k1' k2'); [by apply Hsub|by apply Hsub|done|done|].
    unfold case_view in *. congruence.
Qed.

Lemma elem_of_without_all S Q c id : id ∈ without_all S Q c <-> (fst id ∉ S) /\ id ∈ Q c.
Proof. unfold without_all. by rewrite list_elem_of_filter. Qed.

(** The protocol when one queue changes. *)
Lemma protocol_queue w Q m c q' :
  protocol w Q m -> (items q' = [] \/ forall id k, id ∈ Q c -> cases w !! id = Some k -> send k = true) -> protocol w Q (<[c := q']> m).
Proof.
  intros [P1 P2] Hq. split; [|done]. intros c0 id k q Hin Hk Hs Hc0. destruct (decide (c0 = c)) as [->|Hne].
  - rewrite lookup_insert_eq in Hc0. injection Hc0 as <-. destruct Hq as [?|Hq]; [done|]. specialize (Hq id k Hin Hk). congruence.
  - rewrite lookup_insert_ne in Hc0 by done. by eapply P1.
Qed.

Lemma committed_protocol w Q m s id w' l m' S :
  rep w Q m -> protocol w Q m -> committed w Q m s id w' l m' S -> protocol w' (without_all S Q) m' /\ moves m l m'.
Proof.
  intros R P (C & R' & Ot & Sh). pose proof (rep_linked _ _ _ R) as L.
  assert (forall S, protocol w' (without_all S Q) m) as Hp by (intros S'; eapply protocol_sub; [done|by intros c x [_ ?]%elem_of_without_all|done]).
  destruct C as [k c q Hk Hc Hq|k c q p kp Hk Hc Hq Hs Ho Hpe Hkp Hsp|k c q Hk Hc Hq Hs Ho Hpe Hl|k c q e Hk Hc Hq|k c q e Hk Hc Hq|k c q v l Hk Hc Hq Hs Hi|k c q p kp Hk Hc Hq Hs Ho Hi|k c q Hk Hc Hq].
  - split; [done|constructor].
  - split; [done|]. eapply moves_pass; [done|done|]. rewrite <- (selectionPeer_next w Q m) in Hpe by done. destruct (peer_pending _ _ _ _ _ _ _ R Hpe) as [_ (kp' & Hkp' & Hin & _)].
    assert (kp' = kp) as -> by congruence. by eapply (pr_empty _ _ _ P).
  - split; [|by constructor]. apply protocol_queue; [done|]. right. intros x kx [Hx Hin]%elem_of_without_all Hkx.
    destruct (same_shape_case _ _ _ _ Sh Hkx) as (k0 & Hk0 & E). rewrite list_elem_of_singleton in Hx.
    rewrite <- (selectionPeer_next w Q m) in Hpe by done.
    pose proof (selectionPeer_none _ _ _ _ _ _ _ L Hpe Hin Hk0 (se_done _ _ _ (rep_settled _ _ _ R) _ _ Hin)) as Hd. unfold case_view in E.
    assert (send k0 = true) by (apply Hd; congruence). congruence.
  - split; [done|constructor].
  - split; [done|constructor].
  - split; [|by econstructor]. apply protocol_queue; [done|]. right. intros x kx [_ Hin]%elem_of_without_all Hkx.
    destruct (same_shape_case _ _ _ _ Sh Hkx) as (k0 & Hk0 & E). unfold case_view in E.
    destruct (send kx) eqn:Ex; [done|]. pose proof (pr_empty _ _ _ P c x k0 q Hin Hk0 ltac:(congruence) Hq). congruence.
  - split; [done|]. by eapply moves_pass.
  - split; [done|constructor].
Qed.

(** ** Registering a selection with no ready case *)

Lemma elem_of_joined w ids c id : id ∈ joined w ids c <-> id ∈ ids /\ exists k, cases w !! id = Some k /\ resource k = Some c.
Proof.
  unfold joined. rewrite list_elem_of_In, in_flat_map. unfold joining. split.
  - intros (x & Hx & Hin). destruct (cases w !! x) as [k|] eqn:Hk; [|done]. destruct (decide (resource k = Some c)); [|done].
    destruct Hin as [<-|[]]. split; [by apply list_elem_of_In|by exists k].
  - intros [Hin (k & Hk & Hc)]. exists id. split; [by apply list_elem_of_In|]. rewrite Hk, decide_True by done. by left.
Qed.

Lemma register_rep s w Q m :
  rep w Q m -> pending w s -> (forall id k, fst id = s -> cases w !! id = Some k -> registered k = false) ->
  rep (register s w) (fun c => Q c ++ joined w (case_ids w s) c) m.
Proof.
  intros [L St Se] Hp Hun. pose proof (register_quiet s w) as Hq. split; [by apply register_linked|by eapply stored_still; [apply quiet_still|]|].
  destruct Se as [S1 S2]. split.
  - intros c id [Hin|Hin]%elem_of_app; rewrite (quiet_done _ _ _ Hq); [by eapply S1|]. apply elem_of_joined in Hin as [Hin _].
    rewrite (case_ids_fst _ _ _ Hin). destruct Hp as (x & Hx & Hd). unfold is_done. by rewrite Hx.
  - intros s' x' _ Hx' Hd. destruct (quiet_sel _ _ _ _ Hq Hx') as (x & Hx & E). unfold sel_view in E.
    replace (serr x') with (serr x) by congruence. apply (S2 s'); [tauto|done|congruence].
Qed.

Lemma register_protocol s w Q m :
  rep w Q m -> protocol w Q m -> (forall id, id ∈ case_ids w s -> available w id = false) ->
  protocol (register s w) (fun c => Q c ++ joined w (case_ids w s) c) m.
Proof.
  intros R P Hun. pose proof (still_shape _ _ (quiet_still _ _ (register_quiet s w))) as Sh.
  assert (forall c id k, id ∈ joined w (case_ids w s) c -> cases w !! id = Some k -> fst id = s /\ forall q, m !! c = Some q ->
    ~ waiting_peer w Q c (send k) (Some s) /\ (send k = false -> items q = [])) as Hnew.
  { intros c id k [Hin (k' & Hk' & Hc)]%elem_of_joined Hk. assert (k' = k) as -> by congruence. pose proof (case_ids_fst _ _ _ Hin) as Hid.
    split; [done|]. intros q Hq. pose proof (Hun id Hin) as Ha. apply not_true_iff_false in Ha. rewrite (available_iff w Q m id k c q R Hk Hc Hq), Hid in Ha.
    split; [tauto|]. intros Hs. rewrite Hs in Ha. destruct (items q); [done|]. exfalso. apply Ha. right. by right. }
  assert (forall c id, id ∈ Q c ++ joined w (case_ids w s) c -> exists q, m !! c = Some q) as Hq.
  { intros c id Hin. assert (is_Some (chans w !! c)) as [ch Hch].
    { apply elem_of_app in Hin as [Hin|Hin].
      - apply (lk_in _ _ (rep_linked _ _ _ R)) in Hin as (k & Hk & _ & Hc). by eapply (lk_chan _ _ (rep_linked _ _ _ R)).
      - apply elem_of_joined in Hin as [_ (k & Hk & Hc)]. by eapply (lk_chan _ _ (rep_linked _ _ _ R)). }
    destruct (st_chan _ _ (rep_stored _ _ _ R) _ _ Hch) as (q & ? & _). by exists q. }
  eapply protocol_sub; [exact Sh|intros c id Hin; exact Hin|]. split.
  - intros c id k q [Hin|Hin]%elem_of_app Hk Hs Hm; [by eapply (pr_empty _ _ _ P)|]. destruct (Hnew c id k Hin Hk) as [_ Hn]. by apply (proj2 (Hn q Hm)).
  - intros c id1 id2 k1 k2 Hin1 Hin2 Hk1 Hk2 Hne. destruct (Hq c id1 Hin1) as [q Hm].
    apply elem_of_app in Hin1, Hin2. destruct Hin1 as [Hin1|Hin1], Hin2 as [Hin2|Hin2].
    + by apply (pr_pairs _ _ _ P c id1 id2 k1 k2).
    + destruct (Hnew c id2 k2 Hin2 Hk2) as [E2 Hn]. destruct (decide (fst id1 = s)); [congruence|]. exfalso. apply (proj1 (Hn q Hm)).
      exists id1, k1. split; [done|]. split; [done|]. split; [by destruct (send k1), (send k2)|congruence].
    + destruct (Hnew c id1 k1 Hin1 Hk1) as [E1 Hn]. destruct (decide (fst id2 = s)); [congruence|]. exfalso. apply (proj1 (Hn q Hm)).
      exists id2, k2. split; [done|]. split; [done|]. split; [by destruct (send k1), (send k2)|congruence].
    + destruct (Hnew c id1 k1 Hin1 Hk1) as [-> _], (Hnew c id2 k2 Hin2 Hk2) as [-> _]. done.
Qed.

(** ** Lemmas: preparing a selection *)

Record channels_ok (w : state) (Q : chan -> list case_id) (m : gmap chan (bqueue V)) : Prop := {
  v_rep : rep w Q m;
  v_protocol : protocol w Q m
}.

(** The module's channel values refer to existing channels. *)
Definition typed (w : state) : Prop := forall cv c, waitableValueData T cv = Ok (Some c) -> is_Some (chans w !! c).

Definition unlisted (w : state) (s : sel) : Prop := forall id k, fst id = s -> cases w !! id = Some k -> registered k = false.

Definition with_case (id : case_id) (k : selectCase V) (w : state) : state :=
  mkWorld (chans w) (sels w) (<[id := k]> (cases w)) (bufs w) (tasks w) (selectState w) (charged w).
Definition with_sel (s : sel) (x : channelSelection V) (w : state) : state :=
  mkWorld (chans w) (<[s := x]> (sels w)) (cases w) (bufs w) (tasks w) (selectState w) (charged w).

Lemma fresh_unlisted w Q s : linked w Q -> sels w !! s = None -> forall id, fst id = s -> cases w !! id = None.
Proof.
  intros L Hs id Hid. destruct (cases w !! id) as [k|] eqn:E; [|done]. pose proof (lk_case _ _ L _ _ E) as Hin.
  unfold case_ids in Hin. rewrite Hid, Hs in Hin. by apply not_elem_of_nil in Hin.
Qed.

Lemma with_sel_valid s x w Q m : channels_ok w Q m -> sels w !! s = None -> done x = false -> serr x = None -> channels_ok (with_sel s x w) Q m.
Proof.
  intros [[L St Se] P] Hs Hd He. pose proof L as [L1 L2 L3 L4 L5 L6 L7]. split; [split|].
  - split; try done. intros id k Hk. pose proof (L7 id k Hk) as Hin. unfold case_ids in *. cbn [sels with_sel].
    destruct (decide (fst id = s)) as [E|E]; [rewrite E, Hs in Hin; by apply not_elem_of_nil in Hin|by rewrite lookup_insert_ne].
  - destruct St. by split.
  - destruct Se as [S1 S2]. split.
    + intros c id Hin. unfold is_done. cbn [sels with_sel]. destruct (decide (fst id = s)) as [->|E]; [by rewrite lookup_insert_eq|].
      rewrite lookup_insert_ne by done. by apply (S1 c).
    + intros s' x' _. cbn [sels with_sel]. destruct (decide (s' = s)) as [->|E].
      * rewrite lookup_insert_eq. by intros [= <-].
      * rewrite lookup_insert_ne by done. apply S2. tauto.
  - destruct P. by split.
Qed.

Lemma with_case_valid id k w Q m :
  channels_ok w Q m -> id ∈ case_ids w (fst id) -> (forall k0, cases w !! id = Some k0 -> registered k0 = false) ->
  registered k = false -> previous k = None -> next k = None -> (forall c, resource k = Some c -> is_Some (chans w !! c)) ->
  channels_ok (with_case id k w) Q m.
Proof.
  intros [[L St Se] P] Hid Hold Hr Hp Hn Hc. pose proof L as [L1 L2 L3 L4 L5 L6 L7].
  assert (forall c x, x ∈ Q c -> x <> id) as Hne by (intros c x (k0 & Hk0 & Hr0 & _)%L4 ->; specialize (Hold k0 Hk0); congruence).
  split; [split|].
  - split; cbn [chans cases with_case]; try done.
    + intros c ch Hch. eapply dseg_frame; [|by apply L1]. intros x Hx. apply lookup_insert_ne. symmetry. by eapply Hne.
    + intros c x. destruct (decide (x = id)) as [->|E].
      * split; [intros Hin; by apply Hne in Hin|]. rewrite lookup_insert_eq. intros (k0 & [= <-] & Hr0 & _). congruence.
      * rewrite lookup_insert_ne by done. apply L4.
    + intros x k0 Hk0 Hr0. destruct (decide (x = id)) as [->|E]; [rewrite lookup_insert_eq in Hk0; by injection Hk0 as <-|].
      rewrite lookup_insert_ne in Hk0 by done. by eapply L5.
    + intros x k0 c Hk0 Hc0. destruct (decide (x = id)) as [->|E]; [rewrite lookup_insert_eq in Hk0; injection Hk0 as <-; by apply Hc|].
      rewrite lookup_insert_ne in Hk0 by done. by eapply L6.
    + intros x k0 Hk0. change (case_ids (with_case id k w) (fst x)) with (case_ids w (fst x)). destruct (decide (x = id)) as [->|E]; [done|].
      rewrite lookup_insert_ne in Hk0 by done. by eapply L7.
  - destruct St. by split.
  - destruct Se. by split.
  - destruct P as [P1 P2]. split; cbn [cases with_case].
    + intros c x k0 q Hin. rewrite lookup_insert_ne by (symmetry; by eapply Hne). by apply P1.
    + intros c x1 x2 k1 k2 H1 H2. rewrite !lookup_insert_ne by (symmetry; by eapply Hne). by apply (P2 c).
Qed.

(** Changes of tasks, ledger and owners keep a valid state. *)
Lemma quiet_valid w w' Q m : quiet w w' -> chans w' = chans w -> cases w' = cases w -> channels_ok w Q m -> channels_ok w' Q m.
Proof.
  intros Hq E1 E2 [[L St Se] P]. split; [split|].
  - eapply (linked_frame w); [by rewrite E1|done|by apply quiet_ncases|done].
  - eapply stored_still; [by apply quiet_still|done].
  - destruct Se as [S1 S2]. split.
    + intros c id Hin. rewrite (quiet_done _ _ _ Hq). by eapply S1.
    + intros s' x' _ Hx' Hd. destruct (quiet_sel _ _ _ _ Hq Hx') as (x0 & Hx0 & E). unfold sel_view in E.
      replace (serr x') with (serr x0) by congruence. apply (S2 s'); [tauto|done|congruence].
  - eapply protocol_sub; [by apply still_shape, quiet_still|intros c id Hin; exact Hin|done].
Qed.

Lemma case_ids_elem w s x i : sels w !! s = Some x -> (i < ncases x)%N -> (s, i) ∈ case_ids w s.
Proof.
  intros Hx Hi. unfold case_ids. rewrite Hx. apply list_elem_of_In, in_map_iff. exists (N.to_nat i).
  split; [by rewrite N2Nat.id|]. apply in_seq. lia.
Qed.

Lemma prepare_case_ok r k :
  prepare_case r = Ok k -> registered k = false /\ previous k = None /\ next k = None /\
    exists res, waitableValueData T (rchannel r) = Ok res /\ resource k = res.
Proof.
  unfold prepare_case. destruct (waitableValueData T (rchannel r)) as [res|e] eqn:Er; [|done]. cbn [result_bind].
  assert (forall b v z, Ok (mkCase res b v z None None false) = @Ok channel_error _ k -> registered k = false /\ previous k = None /\ next k = None /\
    exists res', Ok res = @Ok channel_error _ res' /\ resource k = res') as Hk.
  { intros b v z E. injection E as <-. split; [done|]. split; [done|]. split; [done|]. by exists res. }
  destruct (rsend r).
  - destruct (negb _); [done|]. destruct res as [c|]; [|by apply Hk]. destruct (normalizeSend T c (rvalue r)); cbn [result_bind]; [by apply Hk|done].
  - destruct (negb _); [done|]. by apply Hk.
Qed.

Lemma prepare_cases_valid s x rs i w Q m :
  channels_ok w Q m -> typed w -> sels w !! s = Some x -> (i + N.of_nat (length rs) <= ncases x)%N -> unlisted w s ->
  match prepare_cases s i rs w with
  | (Ok _, w') => channels_ok w' Q m /\ sels w' = sels w /\ chans w' = chans w /\ charged w' = charged w /\ unlisted w' s
  | (Err _, w') => channels_ok w' Q m /\ chans w' = chans w
  end.
Proof.
  revert i w. induction rs as [|r rs IH]; intros i w Hv Ht Hx Hn Hu; cbn [prepare_cases].
  { done. }
  destruct (prepare_case r) as [k|e] eqn:Ek.
  - destruct (prepare_case_ok _ _ Ek) as (Kr & Kp & Kn & res & Er & Ec). change (mkWorld _ _ _ _ _ _ _) with (with_case (s, i) k w).
    assert (channels_ok (with_case (s, i) k w) Q m) as Hv'.
    { apply with_case_valid; try done; [|intros k0 Hk0; exact (Hu (s, i) k0 eq_refl Hk0)|].
      - eapply case_ids_elem; [exact Hx|]. cbn [length] in Hn. lia.
      - intros c Hc. apply (Ht (rchannel r)). congruence. }
    assert (unlisted (with_case (s, i) k w) s) as Hu'.
    { intros id k0 Hid. cbn [cases with_case]. destruct (decide (id = (s, i))) as [->|Hne]; [rewrite lookup_insert_eq; by intros [= <-]|].
      rewrite lookup_insert_ne by done. exact (Hu id k0 Hid). }
    specialize (IH (N.succ i) (with_case (s, i) k w) Hv' Ht Hx). apply IH; [cbn [length] in Hn; lia|done].
  - destruct (release_links s w) as [E1 E2]. split; [|done]. by eapply quiet_valid; [apply release_quiet|..].
Qed.

Lemma blank_cases_valid s x rs i w Q m :
  channels_ok w Q m -> sels w !! s = Some x -> (i + N.of_nat (length rs) <= ncases x)%N -> unlisted w s ->
  let w' := mkWorld (chans w) (sels w) (blank_cases s i rs (cases w)) (bufs w) (tasks w) (selectState w) (charged w) in
  channels_ok w' Q m /\ unlisted w' s.
Proof.
  revert i. induction rs as [|r rs IH]; intros i Hv Hx Hn Hu; cbn [blank_cases]; [by destruct w|].
  destruct (IH (N.succ i) Hv Hx) as [Hv' Hu']; [cbn [length] in Hn; lia|done|]. cbv zeta in *.
  set (w1 := mkWorld (chans w) (sels w) (blank_cases s (N.succ i) rs (cases w)) (bufs w) (tasks w) (selectState w) (charged w)) in *.
  change (mkWorld _ _ _ _ _ _ _) with (with_case (s, i) (blank_case r) w1). split.
  - apply with_case_valid; try done; [|intros k0 Hk0; exact (Hu' (s, i) k0 eq_refl Hk0)].
    eapply (case_ids_elem w1); [exact Hx|]. cbn [length] in Hn. lia.
  - intros id k0 Hid. cbn [cases with_case]. destruct (decide (id = (s, i))) as [->|Hne]; [rewrite lookup_insert_eq; by intros [= <-]|].
    rewrite lookup_insert_ne by done. exact (Hu' id k0 Hid).
Qed.

(** A new selection: pending, not registered, its bytes charged. *)
Lemma prepare_valid rs w Q m :
  channels_ok w Q m -> typed w ->
  match prepareChannelSelection rs w with
  | (Ok s, w') => channels_ok w' Q m /\ chans w' = chans w /\ pending w' s /\ unlisted w' s /\
      charged w' = charged w + selection_bytes (Z.of_nat (length rs)) /\
      exists x, sels w' !! s = Some x /\ allocated x = true /\ admittedBytes x = selection_bytes (Z.of_nat (length rs))
  | (Err _, w') => channels_ok w' Q m /\ chans w' = chans w
  end.
Proof.
  intros Hv Ht. unfold prepareChannelSelection. set (s := fresh (dom (sels w))).
  assert (sels w !! s = None) as Hs by (apply not_elem_of_dom, is_fresh).
  set (x0 := mkSelection (N.of_nat (length rs)) (-1) false nil_value false None None false 0).
  pose proof (with_sel_valid s x0 w Q m Hv Hs eq_refl eq_refl) as Hv1.
  destruct (blank_cases_valid s x0 rs 0 (with_sel s x0 w) Q m Hv1) as [Hv2 Hu2].
  { cbn [sels with_sel]. by rewrite lookup_insert_eq. }
  { cbn [ncases x0]. lia. }
  { intros id k Hid Hk. cbn [cases with_sel] in Hk. by rewrite (fresh_unlisted w Q s (rep_linked _ _ _ (v_rep _ _ _ Hv)) Hs id Hid) in Hk. }
  cbv zeta in *. cbn [chans sels cases bufs tasks selectState charged with_sel] in Hv2, Hu2.
  set (w0 := mkWorld _ (<[s := x0]> (sels w)) _ _ _ _ _) in *.
  destruct (collectionSize T _); [cbn [negb]|done]. destruct (admits T _ _); [cbn [negb]|done].
  set (n := selection_bytes (Z.of_nat (length rs))). set (w1 := set_sel _ _ (set_charged _ w0)).
  assert (quiet w0 w1) as Hq by (subst w1; quiet_steps).
  assert (channels_ok w1 Q m) as Hv3 by (by eapply quiet_valid).
  assert (sels w1 !! s = Some (mkSelection (N.of_nat (length rs)) (-1) false nil_value false None None true n)) as Hx1.
  { cbn [w1 sels set_sel set_charged w0]. by rewrite lookup_alter_eq, lookup_insert_eq. }
  pose proof (prepare_cases_valid s _ rs 0 w1 Q m Hv3 Ht Hx1 ltac:(cbn [ncases]; lia) Hu2) as Hp.
  destruct (prepare_cases s 0 rs w1) as [[[]|e] w2]; [|done]. destruct Hp as (Hv4 & E1 & E2 & E3 & Hu4).
  split; [done|]. split; [by rewrite E2|]. split; [|split; [done|split; [by rewrite E3|]]].
  - unfold pending. rewrite E1, Hx1. by eexists.
  - rewrite E1, Hx1. by eexists.
Qed.

(** ** Every operation is a step of the queues *)

Definition commit_label (s : sel) (w : state) (Q : chan -> list case_id) (m : gmap chan (bqueue V)) (l : label) : Prop :=
  if fst (tryCommit s w) && negb (is_done w s) then
    exists id m' S, id ∈ case_ids w s /\ commits w Q m s id (snd (tryCommit s w)) l m' S /\ others S w (snd (tryCommit s w))
  else l = Silent.

(** What a successful send without blocking did: the value went to the receiver that waited longest, or
    into the buffer when nobody waits. *)
Definition sends (w : state) (Q : chan -> list case_id) (c : chan) (v : V) (w' : state) (l : label) : Prop :=
  match next_peer w Q c true None with
  | Some p => l = Pass c v /\ outcome w' (fst p) = Some (case_index p, true, v, true, None) /\ others [fst p] w w'
  | None => l = Put c v /\ others [] w w'
  end.

(** What a successful receive without blocking did: the value is the oldest of the buffer, or that of
    the sender that waited longest when the buffer is empty. *)
Definition receives (w : state) (Q : chan -> list case_id) (c : chan) (q : bqueue V) (v : V) (w' : state) (l : label) : Prop :=
  match items q with
  | v0 :: _ => v = v0 /\ l = Take c v /\ others [] w w'
  | [] =>
      exists p kp, next_peer w Q c false None = Some p /\ cases w !! p = Some kp /\ v = value kp /\ l = Pass c v /\
        outcome w' (fst p) = Some (case_index p, true, nil_value, false, None) /\ others [fst p] w w'
  end.

(** The label of a step, from what the operation reports. *)
Definition explained (o : op) (w : state) (Q : chan -> list case_id) (m : gmap chan (bqueue V)) (l : label) : Prop :=
  match o with
  | OpSelect rs _ _ _ =>
      match prepareChannelSelection rs w with
      | (Ok s, w1) => commit_label s w1 Q m l
      | (Err _, _) => l = Silent
      end
  | OpRetry s => commit_label s w Q m l
  | OpCancel _ | OpClose _ => l = Silent
  | OpTrySend cv v =>
      match fst (waitableTrySendValue cv v w) with
      | Ok true => exists c v', waitableValueData T cv = Ok (Some c) /\ normalizeSend T c v = Ok v' /\ sends w Q c v' (exec o w) l
      | Ok false =>
          l = Silent /\ forall c q, waitableValueData T cv = Ok (Some c) -> m !! c = Some q ->
            next_peer w Q c true None = None /\ limit q <= Z.of_nat (length (items q))
      | Err _ => l = Silent
      end
  | OpTryRecv cv =>
      match fst (waitableTryRecvValue cv w) with
      | Ok (v, true, _) => exists c q, waitableValueData T cv = Ok (Some c) /\ m !! c = Some q /\ receives w Q c q v (exec o w) l
      | Ok (_, false, _) =>
          l = Silent /\ forall c q, waitableValueData T cv = Ok (Some c) -> m !! c = Some q ->
            items q = [] /\ (shut q = false -> next_peer w Q c false None = None)
      | Err _ => l = Silent
      end
  end.

(** A step to a valid state with the same channels. *)
Definition stepped (w w' : state) (m : gmap chan (bqueue V)) (l : label) : Prop :=
  (exists Q' m', channels_ok w' Q' m' /\ moves m l m') /\ (forall c, is_Some (chans w !! c) -> is_Some (chans w' !! c)).

Lemma shape_dom w w' c : same_shape w w' -> is_Some (chans w !! c) -> is_Some (chans w' !! c).
Proof.
  intros [Hc _] [ch Hch]. assert (chan_view <$> chans w' !! c = chan_view <$> chans w !! c) as E by (rewrite <- !lookup_fmap; by rewrite Hc).
  rewrite Hch in E. destruct (chans w' !! c); [by eexists|done].
Qed.

Lemma stepped_silent w w' Q m : channels_ok w' Q m -> same_shape w w' -> stepped w w' m Silent.
Proof. intros Hv Sh. split; [|by intros c; apply shape_dom]. exists Q, m. split; [done|constructor]. Qed.

Lemma stepped_refl w Q m : channels_ok w Q m -> stepped w w m Silent.
Proof. intros Hv. by eapply stepped_silent. Qed.

Lemma valid_without w w' Q m S : channels_ok w Q m -> rep w' (without_all S Q) m -> same_shape w w' -> channels_ok w' (without_all S Q) m.
Proof. intros [_ P] R Sh. split; [done|]. eapply protocol_sub; [done|by intros c x [_ ?]%elem_of_without_all|done]. Qed.

Lemma not_pending w s : ~ pending w s -> tryCommit s w = (is_done w s, w).
Proof.
  intros Hn. unfold tryCommit. destruct (is_done w s) eqn:Ed; [done|]. unfold is_done in Ed. destruct (sels w !! s) as [x|] eqn:Ex.
  - exfalso. apply Hn. by exists x.
  - unfold case_ids. by rewrite Ex.
Qed.

#[local] Instance pending_dec w s : Decision (pending w s).
Proof.
  unfold pending. destruct (sels w !! s) as [x|] eqn:E; [|right; by intros (x & ? & _)].
  destruct (done x) eqn:Ed; [right; intros (y & [= <-] & ?); congruence|left; by exists x].
Defined.

Lemma commit_step s w Q m :
  channels_ok w Q m -> exists l, stepped w (snd (tryCommit s w)) m l /\ commit_label s w Q m l /\
    (fst (tryCommit s w) = false -> l = Silent /\ snd (tryCommit s w) = w /\ forall id, id ∈ case_ids w s -> available w id = false).
Proof.
  intros [R P]. unfold commit_label. destruct (decide (pending w s)) as [Hp|Hp].
  - pose proof (tryCommit_cases s w Q m R Hp) as Hc. assert (is_done w s = false) as Hd by (destruct Hp as (x & Hx & Hd); unfold is_done; by rewrite Hx).
    rewrite Hd, andb_true_r. destruct (tryCommit s w) as [[] w']; cbn [fst snd].
    + destruct Hc as (id & l & m' & S & Hin & Hav & C). exists l. destruct (committed_protocol _ _ _ _ _ _ _ _ _ R P C) as [P' Hm].
      destruct C as (C & R' & Ot & Sh). split; [split; [|by intros c; apply shape_dom]|]; [by exists (without_all S Q), m'|].
      split; [by exists id, m', S|done].
    + destruct Hc as [-> Hun]. exists Silent. split; [by apply (stepped_refl w Q)|]. done.
  - exists Silent. rewrite (not_pending _ _ Hp). cbn [fst snd]. split; [by apply (stepped_refl w Q)|].
    split; [by destruct (is_done w s)|]. intros Hd. split; [done|]. split; [done|]. intros id Hin. unfold is_done in Hd.
    destruct (sels w !! s) as [x|] eqn:Ex; [exfalso; apply Hp; by exists x|]. unfold case_ids in Hin. rewrite Ex in Hin. by apply not_elem_of_nil in Hin.
Qed.

Lemma select_step rs d t k w Q m :
  channels_ok w Q m -> typed w -> exists l, stepped w (exec (OpSelect rs d t k) w) m l /\ explained (OpSelect rs d t k) w Q m l.
Proof.
  intros Hv Ht. cbn [exec explained]. pose proof (prepare_valid rs w Q m Hv Ht) as Hp.
  destruct (prepareChannelSelection rs w) as [[s|e] w1].
  2: { destruct Hp as [Hv1 Ec]. exists Silent. split; [|done]. split; [|by rewrite Ec]. exists Q, m. split; [done|constructor]. }
  destruct Hp as (Hv1 & Ec & Hpe & Hu & _). destruct (commit_step s w1 Q m Hv1) as (l & [Hs Hdom] & Hl & Hf).
  unfold start. destruct (tryCommit s w1) as [[] w2]; cbn [fst snd] in *.
  { exists l. split; [|done]. split; [done|]. intros c Hc. apply Hdom. by rewrite Ec. }
  destruct (Hf eq_refl) as (-> & -> & Hun). exists Silent. split; [|done]. destruct d; cbn [snd].
  - destruct (complete_one s (-1) nil_value false w1 Q m (v_rep _ _ _ Hv1) Hpe) as (R' & _ & _ & Sl). pose proof (still_shape _ _ Sl) as Sh.
    split; [|intros c Hc; apply (shape_dom w1); [done|by rewrite Ec]]. exists (without_all [s] Q), m. split; [by eapply valid_without|constructor].
  - set (w3 := set_sel s (put_owner (Some (t, k))) (register s w1)).
    assert (quiet (register s w1) w3) as Hq by (subst w3; quiet_steps).
    assert (is_done w3 s = false) as Hd.
    { rewrite (quiet_done _ _ _ Hq), (quiet_done _ _ _ (register_quiet s w1)). destruct Hpe as (x & Hx & Hd). unfold is_done. by rewrite Hx. }
    rewrite Hd. split.
    + exists (fun c => Q c ++ joined w1 (case_ids w1 s) c), m. split; [|constructor]. eapply quiet_valid; [exact Hq|done|done|].
      split; [by apply register_rep; [apply Hv1|..]|by apply register_protocol; [apply Hv1|apply Hv1|]].
    + intros c Hc. apply (shape_dom w1); [|by rewrite Ec]. apply still_shape, quiet_still. etransitivity; [apply register_quiet|done].
Qed.

Lemma cancel_step s w Q m : channels_ok w Q m -> stepped w (cancel_selection s w) m Silent.
Proof.
  intros [[L St Se] P]. unfold cancel_selection. set (w1 := unregister s w). pose proof (unregister_quiet s w) as Hq. fold w1 in Hq.
  assert (quiet w1 (set_sel s (put_owner None) w1)) as Hq' by quiet_steps.
  eapply (stepped_silent _ _ (without s Q)); [|apply still_shape, quiet_still; by transitivity w1].
  eapply quiet_valid; [exact Hq'|done|done|]. split; [split|].
  - by apply unregister_linked.
  - by eapply stored_still; [apply quiet_still|].
  - destruct Se as [S1 S2]. split.
    + intros c id [_ Hin]%elem_of_without. rewrite (quiet_done _ _ _ Hq). by eapply S1.
    + intros s' x' _ Hx' Hd. destruct (quiet_sel _ _ _ _ Hq Hx') as (x0 & Hx0 & E). unfold sel_view in E.
      replace (serr x') with (serr x0) by congruence. apply (S2 s'); [tauto|done|congruence].
  - eapply protocol_sub; [by apply still_shape, quiet_still|by intros c id [_ Hin]%elem_of_without|done].
Qed.

Lemma chan_queue w Q m c ch : rep w Q m -> chans w !! c = Some ch -> exists q, m !! c = Some q /\ limit q = Capacity ch /\ shut q = Closed ch.
Proof. intros R. apply (st_chan _ _ (rep_stored _ _ _ R)). Qed.

(** Completing a waiting peer. *)
Lemma peer_step w Q m c q dir p v ok :
  channels_ok w Q m -> m !! c = Some q -> shut q = false -> items q = [] \/ dir = true -> next_peer w Q c dir None = Some p ->
  let w' := complete (fst p) (case_index p) v ok w in
  outcome w' (fst p) = Some (case_index p, true, v, ok, None) /\ others [fst p] w w' /\ forall v', stepped w w' m (Pass c v').
Proof.
  intros Hv Hq Hsh Hi Hp. rewrite <- (selectionPeer_next w Q m) in Hp by apply Hv.
  destruct (peer_pending _ _ _ _ _ _ _ (v_rep _ _ _ Hv) Hp) as [Hpp (kp & Hkp & Hin & Hsp & _)].
  destruct (complete_one (fst p) (case_index p) v ok w Q m (v_rep _ _ _ Hv) Hpp) as (R' & O & Ot & Sl). pose proof (still_shape _ _ Sl) as Sh.
  cbv zeta. split; [done|]. split; [done|]. intros v'.
  split; [|by intros c'; apply shape_dom]. exists (without_all [fst p] Q), m. split; [by eapply valid_without|].
  econstructor; [done|done|]. destruct Hi as [?|Hi]; [done|]. subst. by eapply (pr_empty _ _ _ (v_protocol _ _ _ Hv)).
Qed.

Lemma rebuffered_others w w' S : rebuffered w w' -> others S w w'.
Proof. intros Rb s _. by apply rebuffered_outcome. Qed.

Lemma rebuffered_stepped w w' Q m m' l :
  rebuffered w w' -> rep w' Q m' -> protocol w Q m' -> moves m l m' -> stepped w w' m l.
Proof.
  intros Rb R P Hm. pose proof (rebuffered_shape _ _ Rb) as Sh. split; [|by intros c; apply shape_dom]. exists Q, m'. split; [|done].
  split; [done|]. eapply protocol_sub; [done|intros c id Hin; exact Hin|done].
Qed.

Lemma try_send_step cv v w Q m :
  channels_ok w Q m -> typed w -> exists l, stepped w (exec (OpTrySend cv v) w) m l /\ explained (OpTrySend cv v) w Q m l.
Proof.
  intros Hv Ht. cbn [exec explained]. unfold waitableTrySendValue, sends.
  assert (stepped w w m Silent) as Hrefl by by eapply stepped_refl.
  destruct (waitableValueData T cv) as [[c|]|e] eqn:Ed; [|by destruct (negb _); exists Silent|by exists Silent].
  destruct (negb (waitableCanSend T cv)); [by exists Silent|]. destruct (Ht cv c Ed) as [ch Hch]. rewrite Hch.
  destruct (chan_queue _ _ _ _ _ (v_rep _ _ _ Hv) Hch) as (q & Hq & Hlim & Hshut). rewrite <- Hshut.
  destruct (shut q) eqn:Es; [by exists Silent|]. destruct (normalizeSend T c v) as [v'|e] eqn:En; [|by exists Silent].
  rewrite (selectionPeer_next w Q m) by apply Hv. destruct (next_peer w Q c true None) as [p|] eqn:Ep.
  { destruct (peer_step w Q m c q true p v' true Hv Hq Es ltac:(by right) Ep) as (O & Ot & St). exists (Pass c v').
    split; [apply St|]. cbn [fst snd]. exists c, v'. by rewrite Ep. }
  destruct (bufferLen_rep _ _ _ _ (rep_stored _ _ _ (v_rep _ _ _ Hv)) Hq) as [El _]. rewrite El, <- Hlim.
  destruct (Z.leb_spec (limit q) (Z.of_nat (length (items q)))) as [Hfull|Hroom].
  { exists Silent. split; [done|]. cbn [fst]. split; [done|]. intros c0 q0 [= <-] Hq0. split; [done|]. by assert (q0 = q) as -> by congruence. }
  destruct (appendBuffer c v' w) as [r w1] eqn:Ea. destruct (appendBuffer_rep _ _ _ _ _ _ _ _ (v_rep _ _ _ Hv) Hq Es Hroom Ea) as [Rb R1].
  destruct r as [[]|e]; cbn [fst snd].
  - exists (Put c v'). split; [|exists c, v'; rewrite Ep; split; [done|]; split; [done|]; split; [done|]; by apply rebuffered_others].
    eapply rebuffered_stepped; [done|done| |by constructor].
    apply protocol_queue; [apply Hv|]. right. intros id k Hin Hk. rewrite <- (selectionPeer_next w Q m) in Ep by apply Hv.
    eapply selectionPeer_none; [apply (rep_linked _ _ _ (v_rep _ _ _ Hv))|exact Ep|done|done|by eapply (se_done _ _ _ (rep_settled _ _ _ (v_rep _ _ _ Hv)))|done].
  - exists Silent. split; [|done]. eapply rebuffered_stepped; [done|done|apply Hv|constructor].
Qed.

Lemma try_recv_step cv w Q m :
  channels_ok w Q m -> typed w -> exists l, stepped w (exec (OpTryRecv cv) w) m l /\ explained (OpTryRecv cv) w Q m l.
Proof.
  intros Hv Ht. cbn [exec explained]. unfold waitableTryRecvValue, receives.
  assert (stepped w w m Silent) as Hrefl by by eapply stepped_refl.
  destruct (waitableValueData T cv) as [[c|]|e] eqn:Ed; [|by destruct (negb _); exists Silent|by exists Silent].
  destruct (negb (waitableCanRecv T cv)); [by exists Silent|]. destruct (Ht cv c Ed) as [ch Hch]. rewrite Hch.
  destruct (chan_queue _ _ _ _ _ (v_rep _ _ _ Hv) Hch) as (q & Hq & Hlim & Hshut). rewrite <- Hshut. cbv zeta.
  destruct (bufferLen_rep _ _ _ _ (rep_stored _ _ _ (v_rep _ _ _ Hv)) Hq) as [El _]. rewrite El. destruct (items q) as [|v l] eqn:Ei.
  - cbn [length]. change (Z.of_nat 0 =? 0) with true. cbn iota. rewrite (selectionPeer_next w Q m) by apply Hv.
    destruct (if negb (shut q) then next_peer w Q c false None else None) as [p|] eqn:Ep; cbn [fst snd].
    + destruct (shut q) eqn:Es; [done|]. cbn [negb] in Ep.
      destruct (peer_step w Q m c q false p nil_value false Hv Hq Es ltac:(by left) Ep) as (O & Ot & St).
      pose proof Ep as Ep'. rewrite <- (selectionPeer_next w Q m) in Ep' by apply Hv.
      destruct (peer_pending _ _ _ _ _ _ _ (v_rep _ _ _ Hv) Ep') as [_ (kp & Hkp & _)]. rewrite Hkp.
      exists (Pass c (value kp)). split; [apply St|]. exists c, q. split; [done|]. split; [done|]. rewrite Ei. by exists p, kp.
    + exists Silent. split; [done|]. split; [done|]. intros c0 q0 [= <-] Hq0. assert (q0 = q) as -> by congruence. split; [done|].
      intros Es. by rewrite Es in Ep.
  - rewrite (proj2 (Z.eqb_neq _ _)) by (cbn [length]; lia). destruct (popBuffer c w) as [r w1] eqn:Epop.
    destruct (popBuffer_rep _ _ _ _ _ _ _ _ _ (v_rep _ _ _ Hv) Hq Ei Epop) as [Rb R1]. destruct r as [v'|e]; cbn [fst snd].
    + destruct R1 as [-> R1]. exists (Take c v). split; [|exists c, q; rewrite Ei; do 4 (split; [done|]); by apply rebuffered_others].
      eapply rebuffered_stepped; [done|done| |by econstructor].
      apply protocol_queue; [apply Hv|]. right. intros id k Hin Hk. destruct (send k) eqn:Hs; [done|].
      pose proof (pr_empty _ _ _ (v_protocol _ _ _ Hv) c id k q Hin Hk Hs Hq). congruence.
    + exists Silent. split; [|done]. eapply rebuffered_stepped; [done|done|apply Hv|constructor].
Qed.

Lemma close_step cv w Q m : channels_ok w Q m -> typed w -> stepped w (exec (OpClose cv) w) m Silent.
Proof.
  intros Hv Ht. cbn [exec]. unfold waitableCloseValue. assert (stepped w w m Silent) as Hrefl by by eapply stepped_refl.
  destruct (waitableValueData T cv) as [[c|]|e] eqn:Ed; [|by destruct (negb _)|done].
  destruct (negb (waitableCanSend T cv)); [done|]. destruct (chans w !! c) as [ch|] eqn:Hch; [|done].
  destruct (chan_queue _ _ _ _ _ (v_rep _ _ _ Hv) Hch) as (q & Hq & Hlim & Hshut). rewrite <- Hshut. destruct (shut q) eqn:Es; [done|].
  pose proof Hv as [[L [St1 St2] [Se1 Se2]] [P1 P2]].
  destruct (holds_close _ _ _ _ St1 Hq) as (b & -> & Hh). cbn [snd].
  set (w1 := set_chan c _ (set_bufs b w)). destruct (notifySelections_links c w1) as (E1 & E2 & E3). pose proof (notifySelections_quiet c w1) as Hqu.
  set (w2 := notifySelections c w1) in *.
  assert (forall c', chans w2 !! c' = if decide (c' = c) then Some (mkChannel (Capacity ch) true (selectHead ch) (selectTail ch)) else chans w !! c') as Ec.
  { intros c'. rewrite E1. cbn [w1 chans set_chan set_bufs]. case_decide as E; [subst; by rewrite lookup_alter_eq, Hch|by rewrite lookup_alter_ne]. }
  split.
  - exists Q, (<[c := mkQueue (items q) (limit q) true]> m). split; [split; [split|split]|by econstructor].
    + eapply (linked_frame w); [|by rewrite E2|by rewrite E3|done]. intros c'. rewrite Ec. case_decide as E; [subst; by rewrite Hch|done].
    + split; [by rewrite (q_bufs _ _ Hqu)|]. intros c' ch' Hch'. rewrite Ec in Hch'. case_decide as E.
      * subst. injection Hch' as <-. rewrite lookup_insert_eq. by eexists.
      * rewrite lookup_insert_ne by done. by apply St2.
    + split; [|by rewrite E3]. intros c' id Hin. unfold is_done. rewrite E3. by apply (Se1 c').
    + intros c' id k q' Hin Hk Hs. rewrite E2 in Hk. destruct (decide (c' = c)) as [->|Hne].
      * rewrite lookup_insert_eq. intros [= <-]. cbn [items]. by eapply P1.
      * rewrite lookup_insert_ne by done. by eapply P1.
    + intros c' id1 id2 k1 k2. rewrite E2. by apply (P2 c').
  - intros c' Hc'. rewrite Ec. case_decide; [by eexists|done].
Qed.

Lemma exec_step o w Q m : channels_ok w Q m -> typed w -> exists l, stepped w (exec o w) m l /\ explained o w Q m l.
Proof.
  intros Hv Ht. destruct o as [rs d t k|s|s|cv v|cv|cv].
  - by eapply select_step.
  - destruct (commit_step s w Q m Hv) as (l & Hs & Hl & _). by exists l.
  - exists Silent. split; [by eapply cancel_step|done].
  - by eapply try_send_step.
  - by eapply try_recv_step.
  - exists Silent. split; [by eapply close_step|done].
Qed.

(** ** Histories *)

(** A run with its labels; [Q] are the lists of waiting cases and [m] the queues along the run. *)
Inductive history : state -> (chan -> list case_id) -> gmap chan (bqueue V) -> list op -> list label ->
  state -> (chan -> list case_id) -> gmap chan (bqueue V) -> Prop :=
| history_nil w Q m : history w Q m [] [] w Q m
| history_cons w Q m o l Q1 m1 os ls w' Q' m' :
    explained o w Q m l -> moves m l m1 -> channels_ok (exec o w) Q1 m1 ->
    history (exec o w) Q1 m1 os ls w' Q' m' -> history w Q m (o :: os) (l :: ls) w' Q' m'.

Definition run_ops (os : list op) (w : state) : state := fold_left (fun w o => exec o w) os w.

Definition sent (c : chan) (ls : list label) : list V :=
  omap (fun l => match l with Put c' v | Pass c' v => if decide (c' = c) then Some v else None | _ => None end) ls.
Definition received (c : chan) (ls : list label) : list V :=
  omap (fun l => match l with Take c' v | Pass c' v => if decide (c' = c) then Some v else None | _ => None end) ls.

Lemma history_exists os w Q m :
  channels_ok w Q m -> typed w -> exists ls Q' m', history w Q m os ls (run_ops os w) Q' m' /\ channels_ok (run_ops os w) Q' m'.
Proof.
  revert w Q m. induction os as [|o os IH]; intros w Q m Hv Ht; [exists [], Q, m; by split; [constructor|]|].
  destruct (exec_step o w Q m Hv Ht) as (l & [(Q1 & m1 & Hv1 & Hm) Hdom] & He).
  destruct (IH (exec o w) Q1 m1 Hv1) as (ls & Q' & m' & Hh & Hv'); [intros cv c Hc; by apply Hdom, (Ht cv)|].
  exists (l :: ls), Q', m'. split; [by econstructor|done].
Qed.

(** What one step adds: the items change by what is sent and what is received. *)
Lemma moves_balance m l m' c q q' :
  moves m l m' -> m !! c = Some q -> m' !! c = Some q' -> items q ++ sent c [l] = received c [l] ++ items q'.
Proof.
  unfold sent, received. intros Hm Hq Hq'. destruct Hm as [|c0 q0 E0|c0 q0 v E0|c0 q0 v l0 E0 Hi|c0 q0 v E0 Hs Hi]; cbn [omap list_omap].
  - assert (q' = q) as -> by congruence. apply app_nil_r.
  - destruct (decide (c = c0)) as [->|Hne]; [rewrite lookup_insert_eq in Hq'; injection Hq' as <-; cbn; rewrite app_nil_r; congruence|].
    rewrite lookup_insert_ne in Hq' by done. assert (q' = q) as -> by congruence. apply app_nil_r.
  - destruct (decide (c0 = c)) as [->|Hne]; [rewrite lookup_insert_eq in Hq'; injection Hq' as <-; assert (q0 = q) as -> by congruence; done|].
    rewrite lookup_insert_ne in Hq' by done. assert (q' = q) as -> by congruence. apply app_nil_r.
  - destruct (decide (c0 = c)) as [->|Hne]; [rewrite lookup_insert_eq in Hq'; injection Hq' as <-; assert (q0 = q) as -> by congruence; by rewrite Hi, app_nil_r|].
    rewrite lookup_insert_ne in Hq' by done. assert (q' = q) as -> by congruence. apply app_nil_r.
  - assert (q' = q) as -> by congruence. destruct (decide (c0 = c)) as [->|Hne]; [|apply app_nil_r]. assert (q0 = q) as -> by congruence. by rewrite Hi.
Qed.

Lemma moves_dom m l m' c : moves m l m' -> is_Some (m !! c) -> is_Some (m' !! c).
Proof. intros Hm Hc. destruct Hm; try done; apply lookup_insert_is_Some'; by right. Qed.

Lemma history_balance w Q m os ls w' Q' m' c q :
  history w Q m os ls w' Q' m' -> m !! c = Some q -> exists q', m' !! c = Some q' /\ items q ++ sent c ls = received c ls ++ items q'.
Proof.
  intros Hh. revert q. induction Hh as [w Q m|w Q m o l Q1 m1 os ls w' Q' m' He Hm Hv Hh IH]; intros q Hq.
  - exists q. split; [done|]. apply app_nil_r.
  - destruct (moves_dom m l m1 c Hm) as [q1 Hq1]; [by eexists|]. destruct (IH q1 Hq1) as (q' & Hq' & Hb). exists q'. split; [done|].
    pose proof (moves_balance _ _ _ _ _ _ Hm Hq Hq1) as Hs.
    assert (sent c (l :: ls) = sent c [l] ++ sent c ls) as -> by (unfold sent; by rewrite <- omap_app).
    assert (received c (l :: ls) = received c [l] ++ received c ls) as -> by (unfold received; by rewrite <- omap_app).
    by rewrite app_assoc, Hs, <- !app_assoc, Hb.
Qed.

(** Leaving the lists does not touch the ledger. *)
Lemma unregister_fold_ledger ids w :
  charged (fold_left (fun w id => unregister_case id w) ids w) = charged w /\ sels (fold_left (fun w id => unregister_case id w) ids w) = sels w.
Proof.
  revert w. induction ids as [|id ids IH]; intros w; cbn [fold_left]; [done|]. destruct (IH (unregister_case id w)) as [-> ->].
  destruct (cases w !! id) as [k|] eqn:Hk; [|unfold unregister_case; by rewrite Hk].
  destruct (registered k) eqn:Hr; [|unfold unregister_case; by rewrite Hk, Hr].
  destruct (resource k) as [c|] eqn:Hc; [|unfold unregister_case; by rewrite Hk, Hr, Hc].
  destruct (unregister_case_fields id w k c Hk Hr Hc) as (_ & _ & -> & _ & _ & _ & ->). done.
Qed.

Lemma notify_owner_ledger s w : charged (notify_owner s w) = charged w.
Proof. unfold notify_owner. destruct (sels w !! s) as [y|]; [|done]. by destruct (owner y) as [[]|]. Qed.

(** ** Theorems *)

(** C2. Trying a pending selection is atomic.  It answers true exactly when some case is ready (its channel
    is closed, another selection waits in the opposite direction, or its buffer has room or a value);
    then exactly one ready case is committed, the selection and at most one peer are completed with the
    results the specification gives, both leave every list they waited in, and no other selection
    changes.  The peer is the opposite case that has waited longest, a value goes through the buffer only
    when there is none (to send) or when it holds a value (to receive), and a commit fails only with the
    error the buffer gave there.  Otherwise the state is unchanged. *)
Theorem select_commits_one (s : sel) (w : state) (Q : chan -> list case_id) (m : gmap chan (bqueue V)) :
  channels_ok w Q m -> pending w s ->
  (forall id k c q, cases w !! id = Some k -> resource k = Some c -> m !! c = Some q ->
     available w id = true <->
     shut q = true \/ waiting_peer w Q c (send k) (Some (fst id)) \/
     (if send k then Z.of_nat (length (items q)) < limit q else items q <> [])) /\
  match tryCommit s w with
  | (true, w') => exists id l m' S,
      id ∈ case_ids w s /\ available w id = true /\ commits w Q m s id w' l m' S /\
      channels_ok w' (without_all S Q) m' /\ moves m l m' /\ others S w w'
  | (false, w') => w' = w /\ forall id, id ∈ case_ids w s -> available w id = false
  end.
Proof.
  intros [R P] Hp. split; [by intros; eapply available_iff|]. pose proof (tryCommit_cases s w Q m R Hp) as Hc.
  destruct (tryCommit s w) as [[] w']; [|done]. destruct Hc as (id & l & m' & S & Hin & Hav & C).
  destruct (committed_protocol _ _ _ _ _ _ _ _ _ R P C) as [P' Hm]. destruct C as (C & R' & Ot & _). exists id, l, m', S. by repeat (split; [done|]).
Qed.



(** A select with a default and no ready case gives back the bytes charged for the selection; the same
    through [reflect.Select] keeps them charged for ever. *)
Theorem reflect_default_leaks (rs : list case_request) (t : task) (k : option ticket) (w w1 : state) (s : sel)
    (Q : chan -> list case_id) (m : gmap chan (bqueue V)) :
  channels_ok w Q m -> typed w -> prepareChannelSelection rs w = (Ok s, w1) -> fst (tryCommit s w1) = false ->
  charged (snd (start true t k s w1)) = charged w /\
  charged (snd (reflect_start true s w1)) = charged w + selection_bytes (Z.of_nat (length rs)) /\
  0 < selection_bytes (Z.of_nat (length rs)).
Proof.
  intros Hv Ht Hp Hf. pose proof (prepare_valid rs w Q m Hv Ht) as Hpv. rewrite Hp in Hpv. destruct Hpv as (Hv1 & _ & Hpe & _ & Ech & x & Hx & Hal & Had).
  destruct (commit_step s w1 Q m Hv1) as (l & _ & _ & Hc). destruct (Hc Hf) as (_ & E & _). unfold start, reflect_start.
  destruct (tryCommit s w1) as [[] w2]; [done|]. cbn [fst snd] in *. subst w2. split; [|split; [done|unfold selection_bytes; lia]].
  unfold complete. set (f := fun x => mkSelection _ _ _ _ _ _ _ _ _).
  rewrite notify_owner_ledger. cbn [charged set_sel]. unfold unregister. set (w3 := fold_left _ _ _).
  destruct (unregister_fold_ledger (case_ids w1 s) w1) as [E1 E2]. fold w3 in E1, E2.
  unfold release. rewrite E2, Hx, Hal. cbn [negb charged set_sel set_charged]. rewrite E1, Ech, Had. lia.
Qed.

End Channel.
