(* ===== verification/ChannelBuffers.v ===== *)
(** * The buffers of channels (src/runtime/waitable.go, managed_waitable.go)

    The two implementations of the interface [Buffers] that selections are verified against: the Go
    slice with a moving head, and the ring in the managed heap.  The end of the file runs a small
    program on slice buffers. *)

From S2P Require Import Prelude GoStd GoBytes Heap WaitableRing TaskOwnership Channel.

(** ** Slices *)

Section Slices.
Context {V : Type} (nil_value : V) (grow : nat -> nat).

(** A Go slice is the elements up to its length and its capacity; what lies behind the length is not
    observable.  [grow] is the capacity the runtime's [append] chooses. *)
Record slice_buffer : Type := mkSlice { Buffer : list V; bufferHead : nat; bufferCap : nat }.

Definition slice_len (b : slice_buffer) : Z := Z.of_nat (length (Buffer b)) - Z.of_nat (bufferHead b).

(** Compaction moves the live elements to the front when the slice is full. *)
Definition slice_append (v : V) (b : slice_buffer) : slice_buffer :=
  let b1 :=
    if (0 <? bufferHead b)%nat && (length (Buffer b) =? bufferCap b)%nat
    then mkSlice (drop (bufferHead b) (Buffer b)) 0 (bufferCap b) else b in
  mkSlice (Buffer b1 ++ [v]) (bufferHead b1)
    (if (length (Buffer b1) <? bufferCap b1)%nat then bufferCap b1 else grow (bufferCap b1)).

Definition slice_pop (b : slice_buffer) : option (V * slice_buffer) :=
  match Buffer b !! bufferHead b with
  | None => None
  | Some value =>
      let cleared := <[bufferHead b := nil_value]> (Buffer b) in
      let head := S (bufferHead b) in
      Some (value, if (head =? length cleared)%nat then mkSlice [] 0 (bufferCap b) else mkSlice cleared head (bufferCap b))
  end.

Definition slice_holds (b : slice_buffer) (l : list V) : Prop :=
  (bufferHead b <= length (Buffer b))%nat /\ drop (bufferHead b) (Buffer b) = l.

Lemma slice_len_holds b l : slice_holds b l -> slice_len b = Z.of_nat (length l).
Proof. intros [H1 <-]. unfold slice_len. rewrite length_drop. lia. Qed.

Lemma slice_append_holds v b l : slice_holds b l -> slice_holds (slice_append v b) (l ++ [v]).
Proof.
  intros [H1 <-]. unfold slice_append. destruct ((0 <? bufferHead b)%nat && _); split; cbn [Buffer bufferHead].
  - lia.
  - by rewrite drop_0.
  - rewrite length_app. lia.
  - by rewrite drop_app_le.
Qed.

Lemma slice_pop_holds b v l : slice_holds b (v :: l) -> exists b', slice_pop b = Some (v, b') /\ slice_holds b' l.
Proof.
  intros [H1 H2]. unfold slice_pop. assert (Buffer b !! bufferHead b = Some v) as Hv.
  { rewrite <- (Nat.add_0_r (bufferHead b)), <- lookup_drop, H2. done. }
  rewrite Hv. eexists. split; [done|]. rewrite length_insert. pose proof (drop_S _ _ _ Hv) as Hd. rewrite H2 in Hd. injection Hd as Hd.
  pose proof (lookup_lt_Some _ _ _ Hv). destruct (Nat.eqb_spec (S (bufferHead b)) (length (Buffer b))) as [E|E]; split; cbn [Buffer bufferHead length].
  - lia.
  - rewrite drop_ge in Hd by lia. by rewrite Hd.
  - rewrite length_insert. lia.
  - rewrite drop_insert_lt by lia. done.
Qed.

#[export] Instance slice_buffers : Buffers (gmap chan slice_buffer) V := {
  buf_len w c := match w !! c with Some b => slice_len b | None => 0 end;
  buf_append c v w := match w !! c with Some b => (Ok tt, <[c := slice_append v b]> w) | None => (Err BufferError, w) end;
  buf_pop c w :=
    match w !! c with
    | Some b => match slice_pop b with Some (v, b') => (Ok v, <[c := b']> w) | None => (Err BufferError, w) end
    | None => (Err BufferError, w)
    end;
  buf_close c w := (Ok tt, w)
}.

Definition slices_hold (w : gmap chan slice_buffer) (m : gmap chan (bqueue V)) : Prop :=
  forall c q, m !! c = Some q -> Z.of_nat (length (items q)) <= limit q /\ exists b, w !! c = Some b /\ slice_holds b (items q).

Lemma slices_insert w m c b q :
  slices_hold w m -> Z.of_nat (length (items q)) <= limit q -> slice_holds b (items q) -> slices_hold (<[c := b]> w) (<[c := q]> m).
Proof.
  intros Hw Hl Hb c' q'. destruct (decide (c = c')) as [<-|Hne].
  - rewrite lookup_insert_eq. intros [= <-]. split; [done|]. exists b. by rewrite lookup_insert_eq.
  - rewrite !lookup_insert_ne by done. apply Hw.
Qed.

#[export] Program Instance slice_buffers_laws : BuffersLaws (gmap chan slice_buffer) V := {| holds := slices_hold |}.
Next Obligation.
  intros w m c q Hw Hq. destruct (Hw c q Hq) as (Hl & b & Hb & Hh). cbn. rewrite Hb, (slice_len_holds b (items q)) by done. done.
Qed.
Next Obligation.
  intros w m c q v r w' Hw Hq Hs Hl Ha. destruct (Hw c q Hq) as (_ & b & Hb & Hh). cbn in Ha. rewrite Hb in Ha. injection Ha as <- <-.
  apply slices_insert; [done| |by apply slice_append_holds]. cbn. rewrite length_app. cbn. lia.
Qed.
Next Obligation.
  intros w m c q v l r w' Hw Hq Hi Hp. destruct (Hw c q Hq) as (Hl & b & Hb & Hh). rewrite Hi in Hh, Hl. cbn in Hp. rewrite Hb in Hp.
  destruct (slice_pop_holds b v l Hh) as (b' & E & Hh'). rewrite E in Hp. injection Hp as <- <-. split; [done|].
  apply slices_insert; [done| |done]. cbn in *. lia.
Qed.
Next Obligation.
  intros w m c q Hw Hq. exists w. split; [done|]. intros c' q'. destruct (decide (c = c')) as [<-|Hne].
  - rewrite lookup_insert_eq. intros [= <-]. cbn. by apply Hw.
  - rewrite lookup_insert_ne by done. apply Hw.
Qed.

End Slices.

(** ** Rings *)

Section Rings.
Context {V : Type} `{InlineCodecLaws V} (table : gmap chan (managedWaitableStorage * guestRef)).

(** The rings of different channels do not share objects. *)
Definition rings_apart : Prop := forall c c' st b st' b',
  c <> c' -> table !! c = Some (st, b) -> table !! c' = Some (st', b') ->
  (identity st ∉ [identity st'; b']) /\ (valid b = true -> b ∉ [identity st'; b']).

Definition ring_result {A} (r : result ring_error A) : result channel_error A := result_map_err (fun _ => BufferError) r.

Definition on_ring {A} (c : chan) (f : managedWaitableStorage -> heapM A) (h : managedHeap) : result channel_error A * managedHeap :=
  match table !! c with
  | Some (st, _) => let (r, h') := f st h in (ring_result r, h')
  | None => (Err BufferError, h)
  end.

Definition ring_buffers : Buffers managedHeap V := {|
  buf_len h c := match table !! c with Some (st, _) => ring_length st h | None => 0 end;
  buf_append c v := on_ring c (fun st => append st v);
  buf_pop c := on_ring c pop;
  buf_close c := on_ring c (fun st => setClosed st true)
|}.

Definition ring_of (h : managedHeap) (c : chan) (q : bqueue V) : Prop :=
  exists st s, table !! c = Some (st, backing s) /\ ring_rep h st s (items q) /\ rcapacity s = limit q /\ rclosed s = shut q.

Definition rings_hold (h : managedHeap) (m : gmap chan (bqueue V)) : Prop :=
  heap_ok h /\ forall c q, m !! c = Some q -> ring_of h c q.

Lemma ring_kept refs h h' st s l :
  keeps refs h h' -> (identity st ∉ refs) -> (valid (backing s) = true -> backing s ∉ refs) -> ring_rep h st s l -> ring_rep h' st s l.
Proof.
  intros [_ Hk] Hi Hb [R1 R2 R3 R4]. split; [done|done|by apply Hk|]. intros Hc. destruct (R4 Hc) as (B1 & B2 & bytes & B3 & B4).
  split; [done|]. split; [done|]. exists bytes. split; [|done]. by apply Hk; [apply Hb|].
Qed.

Lemma rings_update h h' m c q st s s' :
  rings_apart -> rings_hold h m -> table !! c = Some (st, backing s) -> keeps [identity st; backing s] h h' ->
  backing s' = backing s -> ring_rep h' st s' (items q) -> rcapacity s' = limit q -> rclosed s' = shut q -> rings_hold h' (<[c := q]> m).
Proof.
  intros Ha [Hok Hm] Ht Hk Eb R Ec Es. split; [apply Hk|]. intros c' q'. destruct (decide (c = c')) as [<-|Hne].
  - rewrite lookup_insert_eq. intros [= <-]. exists st, s'. by rewrite Eb.
  - rewrite lookup_insert_ne by done. intros Hq'. destruct (Hm c' q' Hq') as (st' & s0 & Ht' & R' & E1 & E2). exists st', s0.
    split; [done|]. split; [|done]. destruct (Ha c' c st' (backing s0) st (backing s)) as [A1 A2]; [congruence|done|done|]. by eapply ring_kept.
Qed.

Lemma rings_extend h h' m : rings_hold h m -> extends h h' -> rings_hold h' m.
Proof.
  intros [Hok Hm] He. split; [apply He|]. intros c q Hq. destruct (Hm c q Hq) as (st & s & Ht & R & E). exists st, s.
  split; [done|]. split; [by eapply ring_extends|done].
Qed.

Definition ring_buffers_laws : rings_apart -> @BuffersLaws managedHeap V ring_buffers.
Proof.
  intros Ha. refine (@Build_BuffersLaws managedHeap V ring_buffers rings_hold _ _ _ _).
  - intros h m c q [Hok Hm] Hq. destruct (Hm c q Hq) as (st & s & Ht & R & Ec & Es). cbn. rewrite Ht, (ring_length_ok _ _ _ _ Hok R). split; [done|].
    rewrite <- Ec, <- (rep_items _ _ _ _ R). apply (ok_length _ (rep_state _ _ _ _ R)).
  - intros h m c q v r h' Hh Hq Hs Hl Hap. pose proof Hh as [Hok Hm]. destruct (Hm c q Hq) as (st & s & Ht & R & Ec & Es). cbn in Hap. unfold on_ring in Hap. rewrite Ht in Hap.
    destruct (append_cases h st s (items q) v Hok R) as [[E _]|[_ [[_ E]|[(e & h1 & _ & Henc & E)|(h2 & E & _ & _ & R2 & K2)]]]]; rewrite E in Hap; injection Hap as <- <-; cbn [ring_result result_map_err].
    + done.
    + done.
    + eapply rings_extend; [done|]. by eapply encode_extends.
    + by apply (rings_update h _ m c _ st s (with_length s (rlength s + 1))).
  - intros h m c q v l r h' Hh Hq Hi Hp. pose proof Hh as [Hok Hm]. destruct (Hm c q Hq) as (st & s & Ht & R & Ec & Es). rewrite Hi in R. cbn in Hp. unfold on_ring in Hp. rewrite Ht in Hp.
    destruct (pop_ok _ _ _ _ _ Hok R) as [(h2 & E & R2 & K2)|(_ & e & h2 & E & He & R2)]; rewrite E in Hp; injection Hp as <- <-; cbn [ring_result result_map_err].
    + split; [done|]. by apply (rings_update h _ m c _ st s (popped s)).
    + by eapply rings_extend.
  - intros h m c q Hh Hq. pose proof Hh as [Hok Hm]. destruct (Hm c q Hq) as (st & s & Ht & R & Ec & Es). cbn. unfold on_ring. rewrite Ht.
    destruct (setClosed_ok h st s (items q) true Hok R) as (h2 & E & R2 & K2). rewrite E. exists h2. split; [done|].
    by apply (rings_update h _ m c _ st s (mkRing (backing s) (rhead s) (rlength s) (rcapacity s) true)).
Defined.

End Rings.

(** ** A small program *)

(** Two channels of integers: channel 0 buffers one value, channel 1 none. *)
Section Program.

Definition demo_typing : typing Z N :=
  mkTyping (fun c => Ok (if decide (c = 0 \/ c = 1)%N then Some c else None)) (fun _ => true) (fun _ => true) (fun _ v => Ok v) (fun _ _ => 0)
    (fun _ => true) (fun _ _ => true).

#[local] Instance demo_buffers : Buffers (gmap chan (@slice_buffer Z)) Z := slice_buffers 0 (fun n => (2 * n + 1)%nat).
#[local] Instance demo_laws : BuffersLaws (gmap chan (@slice_buffer Z)) Z := slice_buffers_laws 0 (fun n => (2 * n + 1)%nat).

Definition demo_world : world (gmap chan (@slice_buffer Z)) Z :=
  mkWorld {[0%N := mkChannel 1 false None None; 1%N := mkChannel 0 false None None]} ∅ ∅ {[0%N := mkSlice [] 0 0; 1%N := mkSlice [] 0 0]} ∅ 0 0.

Definition demo_queues : gmap chan (bqueue Z) := {[0%N := mkQueue [] 1 false; 1%N := mkQueue [] 0 false]}.

Lemma demo_two {A} (x y : A) (c : N) z : ({[0%N := x; 1%N := y]} : gmap N A) !! c = Some z -> (c = 0%N /\ z = x) \/ (c = 1%N /\ z = y).
Proof.
  intros Hc. apply lookup_insert_Some in Hc as [[<- <-]|[_ Hc]]; [by left|]. apply lookup_singleton_Some in Hc as [<- <-]. by right.
Qed.

Lemma demo_ok : channels_ok demo_world (fun _ => []) demo_queues.
Proof.
  split; [split|].
  - split; cbn [chans cases sels demo_world].
    + intros c ch Hc. apply demo_two in Hc as [[-> ->]|[-> ->]]; done.
    + done.
    + intros c. constructor.
    + intros c id. rewrite lookup_empty. split; [by intros ?%not_elem_of_nil|by intros (k & ? & _)].
    + intros id k. by rewrite lookup_empty.
    + intros id k c. by rewrite lookup_empty.
    + intros id k. by rewrite lookup_empty.
  - split; cbn [chans bufs demo_world].
    + intros c q Hq. apply demo_two in Hq as [[-> ->]|[-> ->]]; (split; [cbn; lia|]); exists (mkSlice [] 0 0); by repeat split.
    + intros c ch Hc. apply demo_two in Hc as [[-> ->]|[-> ->]]; by eexists.
  - split; [by intros c id ?%not_elem_of_nil|]. intros s x _. cbn [sels demo_world]. by rewrite lookup_empty.
  - split; [by intros c id k q ?%not_elem_of_nil|by intros c id1 id2 k1 k2 ?%not_elem_of_nil].
Qed.

Lemma demo_typed : typed demo_typing demo_world.
Proof.
  intros cv c. cbn. destruct (decide (cv = 0 \/ cv = 1)%N) as [E|E]; [|done]. intros [= <-]. destruct E as [-> | ->]; by eexists.
Qed.

(** A receiver blocks on both channels, a sender meets it, two values go through the buffer. *)
Definition demo_ops : list (@op Z N) :=
  [ OpSelect [mkRequest 0%N false 0; mkRequest 1%N false 0] false 7%N None;
    OpSelect [mkRequest 1%N true 41] false 8%N None;
    OpTrySend 0%N 42; OpTryRecv 0%N; OpTrySend 0%N 43; OpClose 0%N ].


(** The program leaves 43 in the buffer of channel 0. *)
Example demo_buffer : bufferLen (run_ops 0 demo_typing demo_ops demo_world) 0%N = 1.
Proof. vm_compute. reflexivity. Qed.

(** The waiting receiver got 41 from channel 1, its second case. *)
Example demo_receiver : outcome (run_ops 0 demo_typing demo_ops demo_world) 0%N = Some (1, true, 41, true, None).
Proof. vm_compute. reflexivity. Qed.


(** A selection that sends on channel 0. *)
Definition demo_requests : list (@case_request Z N) := [mkRequest 0%N true 5].
Definition demo_prepared : world (gmap chan (@slice_buffer Z)) Z := snd (prepareChannelSelection 0 demo_typing demo_requests demo_world).

Lemma demo_prepared_ok : channels_ok demo_prepared (fun _ => []) demo_queues /\ pending demo_prepared 0%N.
Proof.
  pose proof (prepare_valid 0 demo_typing demo_requests demo_world (fun _ => []) demo_queues demo_ok demo_typed) as Hp.
  unfold demo_prepared. destruct (prepareChannelSelection 0 demo_typing demo_requests demo_world) as [r w] eqn:E.
  assert (r = Ok 0%N) as -> by (change r with (fst (r, w)); rewrite <- E; vm_compute; reflexivity).
  destruct Hp as (H1 & _ & H2 & _). done.
Qed.

Lemma select_commits_one_witness :
  pending demo_prepared 0%N /\
  match tryCommit 0 0%N demo_prepared with
  | (true, w') => exists id l m' S,
      id ∈ case_ids demo_prepared 0%N /\ available demo_prepared id = true /\ commits 0 demo_prepared (fun _ => []) demo_queues 0%N id w' l m' S /\
      channels_ok w' (without_all S (fun _ => [])) m' /\ moves demo_queues l m' /\ others S demo_prepared w'
  | (false, w') => w' = demo_prepared /\ forall id, id ∈ case_ids demo_prepared 0%N -> available demo_prepared id = false
  end.
Proof.
  split; [exact (proj2 demo_prepared_ok)|].
  exact (proj2 (select_commits_one 0 0%N demo_prepared (fun _ => []) demo_queues (proj1 demo_prepared_ok) (proj2 demo_prepared_ok))).
Defined.

(** A receive from channel 1 with a default: nobody sends. *)
Lemma reflect_default_leaks_witness :
  let w1 := snd (prepareChannelSelection 0 demo_typing [mkRequest 1%N false 0] demo_world) in
  charged (snd (start 0 true 7%N None 0%N w1)) = 0 /\ charged (snd (reflect_start 0 true 0%N w1)) = 200.
Proof.
  cbv zeta. destruct (prepareChannelSelection 0 demo_typing [mkRequest 1%N false 0] demo_world) as [r w1] eqn:E.
  assert (r = Ok 0%N /\ fst (tryCommit 0 0%N w1) = false) as [-> Hf].
  { split; [change r with (fst (r, w1))|change w1 with (snd (r, w1))]; rewrite <- E; vm_compute; reflexivity. }
  destruct (reflect_default_leaks 0 demo_typing [mkRequest 1%N false 0] 7%N None demo_world w1 0%N (fun _ => []) demo_queues demo_ok demo_typed E Hf)
    as (H1 & H2 & _). exact (conj H1 H2).
Defined.

End Program.
