(* ===== verification/Operators.v ===== *)
(** * Integer operators of the virtual machine (src/runtime/operators.go, numeric.go, comparison.go, equality.go, register_frame.go)

    An integer value is a 64-bit word with a kind; its type decides the width it is wrapped to.
    [evalIntegerBinary] is the fast path of the instruction loop; [evalNumeric], [evalBitwise] and [evalCompare]
    are the general path, of which the integer part is modelled (floats, complex numbers, strings and the
    comparison of other values are left out).  A named type is modelled with the primitive type it stands for:
    the lookup that finds it in the tables of a module is not part of this file. *)

From S2P Require Import Prelude GoStd GoBytes.

(** ** Types and values *)

Inductive primitive : Type :=
| PrimitiveInvalid | PrimitiveBool | PrimitiveString
| PrimitiveInt | PrimitiveInt8 | PrimitiveInt16 | PrimitiveInt32 | PrimitiveInt64
| PrimitiveUint | PrimitiveUint8 | PrimitiveUint16 | PrimitiveUint32 | PrimitiveUint64 | PrimitiveUintptr
| PrimitiveFloat32 | PrimitiveFloat64 | PrimitiveComplex64 | PrimitiveComplex128 | PrimitiveError | PrimitiveFunction.

#[export] Instance primitive_eq_dec : EqDecision primitive.
Proof. solve_decision. Defined.

Inductive numeric_kind : Type := NumericInvalid | NumericSigned | NumericUnsigned | NumericFloat | NumericComplex.

#[export] Instance numeric_kind_eq_dec : EqDecision numeric_kind.
Proof. solve_decision. Defined.

Definition primitiveNumericInfo (p : primitive) : numeric_kind * Z :=
  match p with
  | PrimitiveInt | PrimitiveInt64 => (NumericSigned, 64)
  | PrimitiveInt8 => (NumericSigned, 8)
  | PrimitiveInt16 => (NumericSigned, 16)
  | PrimitiveInt32 => (NumericSigned, 32)
  | PrimitiveUint | PrimitiveUint64 | PrimitiveUintptr => (NumericUnsigned, 64)
  | PrimitiveUint8 => (NumericUnsigned, 8)
  | PrimitiveUint16 => (NumericUnsigned, 16)
  | PrimitiveUint32 => (NumericUnsigned, 32)
  | PrimitiveFloat32 => (NumericFloat, 32)
  | PrimitiveFloat64 => (NumericFloat, 64)
  | PrimitiveComplex64 => (NumericComplex, 64)
  | PrimitiveComplex128 => (NumericComplex, 128)
  | _ => (NumericInvalid, 0)
  end.

(** A primitive type, or a named type with its underlying primitive. *)
Inductive vmType : Type := Prim (p : primitive) | Named (name : N) (p : primitive).

#[export] Instance vmType_eq_dec : EqDecision vmType.
Proof. solve_decision. Defined.

Definition underlying (t : vmType) : primitive := match t with Prim p | Named _ p => p end.
Definition NumericInfo (t : vmType) : numeric_kind * Z := primitiveNumericInfo (underlying t).

Inductive scalar_kind : Type := vmScalarNone | vmScalarSigned | vmScalarUnsigned.

#[export] Instance scalar_kind_eq_dec : EqDecision scalar_kind.
Proof. solve_decision. Defined.

Record vmValue : Type := mkValue { Type_ : vmType; scalar : Z; scalarKind : scalar_kind }.

Definition newBoolValue (b : bool) : vmValue := mkValue (Prim PrimitiveBool) (if b then 1 else 0) vmScalarNone.
Definition newSignedVMValue (t : vmType) (v : Z) : vmValue := mkValue t (u64 v) vmScalarSigned.
Definition newUnsignedVMValue (t : vmType) (v : Z) : vmValue := mkValue t v vmScalarUnsigned.

(** ** Narrowing *)

(** [int64(int8(value))] and the like: two's complement at [n] bits. *)
Definition to_signed (n v : Z) : Z := (v + 2 ^ (n - 1)) mod 2 ^ n - 2 ^ (n - 1).
Definition to_unsigned (n v : Z) : Z := v mod 2 ^ n.

Definition narrow_signed (bits v : Z) : Z :=
  if bits =? 8 then to_signed 8 v else if bits =? 16 then to_signed 16 v else if bits =? 32 then to_signed 32 v else v.
Definition narrow_unsigned (bits v : Z) : Z :=
  if bits =? 8 then to_unsigned 8 v else if bits =? 16 then to_unsigned 16 v else if bits =? 32 then to_unsigned 32 v else v.

Definition normalizeSignedValue (t : vmType) (v : Z) : vmValue :=
  match t with
  | Prim PrimitiveInt8 => newSignedVMValue t (to_signed 8 v)
  | Prim PrimitiveInt16 => newSignedVMValue t (to_signed 16 v)
  | Prim PrimitiveInt32 => newSignedVMValue t (to_signed 32 v)
  | Prim _ => newSignedVMValue t v
  | Named _ _ => newSignedVMValue t (narrow_signed (snd (NumericInfo t)) v)
  end.

Definition normalizeUnsignedValue (t : vmType) (v : Z) : vmValue :=
  match t with
  | Prim PrimitiveUint8 => newUnsignedVMValue t (to_unsigned 8 v)
  | Prim PrimitiveUint16 => newUnsignedVMValue t (to_unsigned 16 v)
  | Prim PrimitiveUint32 => newUnsignedVMValue t (to_unsigned 32 v)
  | Prim _ => newUnsignedVMValue t v
  | Named _ _ => newUnsignedVMValue t (narrow_unsigned (snd (NumericInfo t)) v)
  end.

(** ** Operators *)

Inductive preparedOperator : Type :=
| operatorAdd | operatorSub | operatorMul | operatorDiv | operatorMod
| operatorBitAnd | operatorBitOr | operatorBitXor | operatorBitClear | operatorShiftLeft | operatorShiftRight
| operatorEqual | operatorNotEqual | operatorLess | operatorGreater | operatorLessEqual | operatorGreaterEqual
| operatorNot | operatorAnd | operatorOr | operatorReal | operatorImag | operatorComplex.

#[export] Instance preparedOperator_eq_dec : EqDecision preparedOperator.
Proof. solve_decision. Defined.

Inductive op_error : Type := DivisionByZero | NegativeShift | Unsupported.

(** Go's shifts by an unsigned count. *)
Definition go_shl64 (l r : Z) : Z := if 64 <=? r then 0 else i64 (Z.shiftl l r).
Definition go_shlu64 (l r : Z) : Z := if 64 <=? r then 0 else u64 (Z.shiftl l r).
Definition go_shr (l r : Z) : Z := if 64 <=? r then (if l <? 0 then -1 else 0) else Z.shiftr l r.

Definition is_shift (op : preparedOperator) : bool :=
  match op with operatorShiftLeft | operatorShiftRight => true | _ => false end.

Definition compare_ints (op : preparedOperator) (l r : Z) : option bool :=
  match op with
  | operatorEqual => Some (l =? r)
  | operatorNotEqual => Some (negb (l =? r))
  | operatorLess => Some (l <? r)
  | operatorGreater => Some (r <? l)
  | operatorLessEqual => Some (l <=? r)
  | operatorGreaterEqual => Some (r <=? l)
  | _ => None
  end.

Definition signed_binary (op : preparedOperator) (t : vmType) (l r : Z) : option (result op_error vmValue) :=
  let num v := Some (Ok (normalizeSignedValue t v)) in
  match op with
  | operatorAdd => num (i64 (l + r))
  | operatorSub => num (i64 (l - r))
  | operatorMul => num (i64 (l * r))
  | operatorDiv => if r =? 0 then Some (Err DivisionByZero) else num (i64 (Z.quot l r))
  | operatorMod => if r =? 0 then Some (Err DivisionByZero) else num (Z.rem l r)
  | operatorBitAnd => num (Z.land l r)
  | operatorBitOr => num (Z.lor l r)
  | operatorBitXor => num (Z.lxor l r)
  | operatorBitClear => num (Z.ldiff l r)
  | operatorShiftLeft => if r <? 0 then Some (Err NegativeShift) else num (go_shl64 l r)
  | operatorShiftRight => if r <? 0 then Some (Err NegativeShift) else num (go_shr l r)
  | _ => match compare_ints op l r with Some b => Some (Ok (newBoolValue b)) | None => None end
  end.

Definition unsigned_binary (op : preparedOperator) (t : vmType) (l r : Z) : option (result op_error vmValue) :=
  let num v := Some (Ok (normalizeUnsignedValue t v)) in
  match op with
  | operatorAdd => num (u64 (l + r))
  | operatorSub => num (u64 (l - r))
  | operatorMul => num (u64 (l * r))
  | operatorDiv => if r =? 0 then Some (Err DivisionByZero) else num (l / r)
  | operatorMod => if r =? 0 then Some (Err DivisionByZero) else num (l mod r)
  | operatorBitAnd => num (Z.land l r)
  | operatorBitOr => num (Z.lor l r)
  | operatorBitXor => num (Z.lxor l r)
  | operatorBitClear => num (Z.ldiff l r)
  | operatorShiftLeft => num (go_shlu64 l r)
  | operatorShiftRight => num (go_shr l r)
  | _ => match compare_ints op l r with Some b => Some (Ok (newBoolValue b)) | None => None end
  end.

(** [None] is the answer that the operands are not handled here. *)
Definition evalIntegerBinary (op : preparedOperator) (t : vmType) (leftKind : scalar_kind) (leftBits : Z) (rightKind : scalar_kind) (rightBits : Z)
    : option (result op_error vmValue) :=
  match leftKind, rightKind with
  | vmScalarSigned, vmScalarSigned => signed_binary op t (i64 leftBits) (i64 rightBits)
  | vmScalarSigned, vmScalarUnsigned =>
      match op with
      | operatorShiftLeft => Some (Ok (normalizeSignedValue t (go_shl64 (i64 leftBits) rightBits)))
      | operatorShiftRight => Some (Ok (normalizeSignedValue t (go_shr (i64 leftBits) rightBits)))
      | _ => None
      end
  | vmScalarUnsigned, vmScalarUnsigned => unsigned_binary op t leftBits rightBits
  | vmScalarUnsigned, vmScalarSigned =>
      if negb (is_shift op) then None
      else if i64 rightBits <? 0 then Some (Err NegativeShift)
      else unsigned_binary op t leftBits (i64 rightBits)
  | _, _ => None
  end.

(** ** The general path *)

Definition signedValue (v : vmValue) : option Z := match scalarKind v with vmScalarSigned => Some (i64 (scalar v)) | _ => None end.
Definition unsignedValue (v : vmValue) : option Z := match scalarKind v with vmScalarUnsigned => Some (scalar v) | _ => None end.

Definition numericAsInt64 (v : vmValue) : result op_error Z :=
  match signedValue v, unsignedValue v with
  | Some d, _ => Ok d
  | None, Some d => Ok (i64 d)
  | None, None => Err Unsupported
  end.

Definition numericAsUint64 (v : vmValue) : result op_error Z :=
  match signedValue v, unsignedValue v with
  | Some d, _ => Ok (u64 d)
  | None, Some d => Ok d
  | None, None => Err Unsupported
  end.

Definition is_unsigned (v : vmValue) : bool := match unsignedValue v with Some _ => true | None => false end.
Definition is_signed (v : vmValue) : bool := match signedValue v with Some _ => true | None => false end.

(** The integer part of [evalNumeric]. *)
Definition evalNumeric (op : preparedOperator) (left right : vmValue) : result op_error vmValue :=
  if is_unsigned left || is_unsigned right then
    let? l := numericAsUint64 left in
    let? r := numericAsUint64 right in
    match op with
    | operatorAdd => Ok (normalizeUnsignedValue (Type_ left) (u64 (l + r)))
    | operatorSub => Ok (normalizeUnsignedValue (Type_ left) (u64 (l - r)))
    | operatorMul => Ok (normalizeUnsignedValue (Type_ left) (u64 (l * r)))
    | operatorDiv => if r =? 0 then Err DivisionByZero else Ok (normalizeUnsignedValue (Type_ left) (l / r))
    | operatorMod => if r =? 0 then Err DivisionByZero else Ok (normalizeUnsignedValue (Type_ left) (l mod r))
    | _ => Err Unsupported
    end
  else
    let? l := numericAsInt64 left in
    let? r := numericAsInt64 right in
    match op with
    | operatorAdd => Ok (normalizeSignedValue (Type_ left) (i64 (l + r)))
    | operatorSub => Ok (normalizeSignedValue (Type_ left) (i64 (l - r)))
    | operatorMul => Ok (normalizeSignedValue (Type_ left) (i64 (l * r)))
    | operatorDiv => if r =? 0 then Err DivisionByZero else Ok (normalizeSignedValue (Type_ left) (i64 (Z.quot l r)))
    | operatorMod => if r =? 0 then Err DivisionByZero else Ok (normalizeSignedValue (Type_ left) (Z.rem l r))
    | _ => Err Unsupported
    end.

Definition numericShiftCount (v : vmValue) : result op_error Z :=
  match signedValue v with
  | Some count => if count <? 0 then Err NegativeShift else numericAsUint64 v
  | None => numericAsUint64 v
  end.

Definition evalBitwise (op : preparedOperator) (left right : vmValue) : result op_error vmValue :=
  if negb (is_signed left || is_unsigned left) || negb (is_signed right || is_unsigned right) then Err Unsupported
  else if is_unsigned left then
    let? l := numericAsUint64 left in
    let? r := (if is_shift op then numericShiftCount right else numericAsUint64 right) in
    match op with
    | operatorBitAnd => Ok (normalizeUnsignedValue (Type_ left) (Z.land l r))
    | operatorBitOr => Ok (normalizeUnsignedValue (Type_ left) (Z.lor l r))
    | operatorBitXor => Ok (normalizeUnsignedValue (Type_ left) (Z.lxor l r))
    | operatorBitClear => Ok (normalizeUnsignedValue (Type_ left) (Z.ldiff l r))
    | operatorShiftLeft => Ok (normalizeUnsignedValue (Type_ left) (go_shlu64 l r))
    | operatorShiftRight => Ok (normalizeUnsignedValue (Type_ left) (go_shr l r))
    | _ => Err Unsupported
    end
  else
    let? l := numericAsInt64 left in
    let? r := (if is_shift op then numericShiftCount right else numericAsUint64 right) in
    match op with
    | operatorBitAnd => Ok (normalizeSignedValue (Type_ left) (Z.land l (i64 r)))
    | operatorBitOr => Ok (normalizeSignedValue (Type_ left) (Z.lor l (i64 r)))
    | operatorBitXor => Ok (normalizeSignedValue (Type_ left) (Z.lxor l (i64 r)))
    | operatorBitClear => Ok (normalizeSignedValue (Type_ left) (Z.ldiff l (i64 r)))
    | operatorShiftLeft => Ok (normalizeSignedValue (Type_ left) (go_shl64 l r))
    | operatorShiftRight => Ok (normalizeSignedValue (Type_ left) (go_shr l r))
    | _ => Err Unsupported
    end.

(** ** Comparisons *)

Definition compareInt64 (left right : Z) : Z := if left <? right then -1 else if right <? left then 1 else 0.
Definition compareUint64 (left right : Z) : Z := if left <? right then -1 else if right <? left then 1 else 0.

Definition isNumericValue (v : vmValue) : bool := negb (bool_decide (scalarKind v = vmScalarNone)).

Definition integerKind (v : vmValue) : scalar_kind := if is_signed v then vmScalarSigned else if is_unsigned v then vmScalarUnsigned else vmScalarNone.

(** [None] where one of the values is no integer. *)
Definition compareIntegerValues (left right : vmValue) : option (result op_error Z) :=
  match integerKind left, integerKind right with
  | vmScalarNone, _ | _, vmScalarNone => None
  | vmScalarSigned, vmScalarSigned => Some (let? l := numericAsInt64 left in let? r := numericAsInt64 right in Ok (compareInt64 l r))
  | vmScalarUnsigned, vmScalarUnsigned => Some (let? l := numericAsUint64 left in let? r := numericAsUint64 right in Ok (compareUint64 l r))
  | vmScalarSigned, vmScalarUnsigned =>
      Some (let? l := numericAsInt64 left in let? r := numericAsUint64 right in Ok (if l <? 0 then -1 else compareUint64 (u64 l) r))
  | vmScalarUnsigned, vmScalarSigned =>
      Some (let? l := numericAsUint64 left in let? r := numericAsInt64 right in Ok (if r <? 0 then 1 else compareUint64 l (u64 r)))
  end.

Definition compareOrdering (op : preparedOperator) (comparison : Z) : bool :=
  match op with
  | operatorLess => comparison <? 0
  | operatorGreater => 0 <? comparison
  | operatorLessEqual => comparison <=? 0
  | operatorGreaterEqual => 0 <=? comparison
  | operatorEqual => comparison =? 0
  | operatorNotEqual => negb (comparison =? 0)
  | _ => false
  end.

Definition equalNumericValues (left right : vmValue) : result op_error bool :=
  match compareIntegerValues left right with
  | Some comparison => let? c := comparison in Ok (c =? 0)
  | None => Err Unsupported
  end.

(** [None] where the source compares floats. *)
Definition compareNumericValues (op : preparedOperator) (left right : vmValue) : option (result op_error bool) :=
  match compareIntegerValues left right with
  | Some comparison => Some (let? c := comparison in Ok (compareOrdering op c))
  | None => None
  end.

(** [None] where the source goes on to values that are not numeric: dynamic, structured and named ones, booleans, strings. *)
Definition evalCompare (op : preparedOperator) (left right : vmValue) : option (result op_error vmValue) :=
  match op with
  | operatorEqual | operatorNotEqual =>
      match Type_ left, Type_ right with
      | Prim _, Prim _ =>
          if isNumericValue left && isNumericValue right then
            Some (let? equal := equalNumericValues left right in Ok (newBoolValue (if bool_decide (op = operatorNotEqual) then negb equal else equal)))
          else None
      | _, _ => None
      end
  | _ =>
      if isNumericValue left && isNumericValue right then
        option_map (fun res : result op_error bool => let? b := res in Ok (newBoolValue b)) (compareNumericValues op left right)
      else None
  end.

Definition with_type (t : vmType) (v : vmValue) : vmValue := mkValue t (scalar v) (scalarKind v).

(** An operand is computed at the primitive type that the compiler recorded for it, or at its underlying
    type where that is numeric. *)
Definition numericOperandValue (v : vmValue) (hint : primitive) : vmValue :=
  if negb (bool_decide (hint = PrimitiveInvalid)) then with_type (Prim hint) v
  else
    let t := Prim (underlying (Type_ v)) in
    if bool_decide (t = Type_ v) then v
    else if bool_decide (fst (NumericInfo t) = NumericInvalid) then v
    else with_type t v.

(** Operands of a primitive type are used as they are. *)
Definition operand (v : vmValue) (hint : primitive) : vmValue :=
  match Type_ v with Prim _ => v | Named _ _ => numericOperandValue v hint end.

Definition normalizeUnaryNumericResult (t : vmType) (v : vmValue) : vmValue :=
  if negb (bool_decide (t = Type_ v)) && negb (bool_decide (Type_ v = Prim PrimitiveBool)) then with_type t v else v.

(** [None] where the source goes on to logic or complex numbers, or to comparisons that are not modelled. *)
Definition evalBinary (op : preparedOperator) (left right : vmValue) (numeric : primitive * primitive) : option (result op_error vmValue) :=
  let t := Type_ left in
  let left := operand left (fst numeric) in
  let right := operand right (snd numeric) in
  match evalIntegerBinary op (Type_ left) (scalarKind left) (scalar left) (scalarKind right) (scalar right) with
  | Some (Ok out) => Some (Ok (if bool_decide (scalarKind out = vmScalarNone) then out else with_type t out))
  | Some (Err e) => Some (Err e)
  | None =>
      match op with
      | operatorAdd | operatorSub | operatorMul | operatorDiv | operatorMod =>
          Some (let? out := evalNumeric op left right in Ok (normalizeUnaryNumericResult t out))
      | operatorBitAnd | operatorBitOr | operatorBitXor | operatorBitClear | operatorShiftLeft | operatorShiftRight =>
          Some (let? out := evalBitwise op left right in Ok (normalizeUnaryNumericResult t out))
      | operatorEqual | operatorNotEqual | operatorLess | operatorGreater | operatorLessEqual | operatorGreaterEqual => evalCompare op left right
      | _ => None
      end
  end.

(** The integer cases of [evalUnary]; [None] for the others, and for negation of what is no integer. *)
Definition evalUnary (op : preparedOperator) (value : vmValue) (numeric : primitive) : option (result op_error vmValue) :=
  let t := Type_ value in
  let value := operand value numeric in
  match op with
  | operatorSub =>
      if is_unsigned value then Some (let? out := numericAsUint64 value in Ok (normalizeUnaryNumericResult t (normalizeUnsignedValue (Type_ value) (u64 (- out)))))
      else if is_signed value then Some (let? out := numericAsInt64 value in Ok (normalizeUnaryNumericResult t (normalizeSignedValue (Type_ value) (i64 (- out)))))
      else None
  | operatorBitXor =>
      if is_unsigned value then Some (let? out := numericAsUint64 value in Ok (normalizeUnaryNumericResult t (normalizeUnsignedValue (Type_ value) (u64 (Z.lnot out)))))
      else if is_signed value then Some (let? out := numericAsInt64 value in Ok (normalizeUnaryNumericResult t (normalizeSignedValue (Type_ value) (Z.lnot out))))
      else Some (Err Unsupported)
  | _ => None
  end.

(** The sign extension of an operand lane of [bits] bits ([integerOperand]). *)
Definition sign_extend (bits raw : Z) : Z := u64 (Z.shiftr (i64 (u64 (Z.shiftl raw (64 - bits)))) (64 - bits)).

(** ** The specification: exact integer arithmetic, then one wrap to the width of the type *)

Inductive exact_result : Type := ExactInt (z : Z) | ExactBool (b : bool) | ExactError (e : op_error).

Definition exact_binary (op : preparedOperator) (l r : Z) : option exact_result :=
  match op with
  | operatorAdd => Some (ExactInt (l + r))
  | operatorSub => Some (ExactInt (l - r))
  | operatorMul => Some (ExactInt (l * r))
  | operatorDiv => Some (if r =? 0 then ExactError DivisionByZero else ExactInt (Z.quot l r))
  | operatorMod => Some (if r =? 0 then ExactError DivisionByZero else ExactInt (Z.rem l r))
  | operatorBitAnd => Some (ExactInt (Z.land l r))
  | operatorBitOr => Some (ExactInt (Z.lor l r))
  | operatorBitXor => Some (ExactInt (Z.lxor l r))
  | operatorBitClear => Some (ExactInt (Z.ldiff l r))
  | operatorShiftLeft => Some (if r <? 0 then ExactError NegativeShift else ExactInt (l * 2 ^ r))
  | operatorShiftRight => Some (if r <? 0 then ExactError NegativeShift else ExactInt (l / 2 ^ r))
  | operatorEqual => Some (ExactBool (bool_decide (l = r)))
  | operatorNotEqual => Some (ExactBool (bool_decide (l <> r)))
  | operatorLess => Some (ExactBool (bool_decide (l < r)))
  | operatorGreater => Some (ExactBool (bool_decide (l > r)))
  | operatorLessEqual => Some (ExactBool (bool_decide (l <= r)))
  | operatorGreaterEqual => Some (ExactBool (bool_decide (l >= r)))
  | _ => None
  end.

Definition wrap (k : numeric_kind) (n z : Z) : Z :=
  match k with NumericSigned => to_signed n z | _ => to_unsigned n z end.

Definition in_range (k : numeric_kind) (n z : Z) : Prop :=
  match k with
  | NumericSigned => - 2 ^ (n - 1) <= z < 2 ^ (n - 1)
  | NumericUnsigned => 0 <= z < 2 ^ n
  | _ => False
  end.

Definition int_value (t : vmType) (k : numeric_kind) (z : Z) : vmValue :=
  mkValue t (u64 z) (match k with NumericSigned => vmScalarSigned | _ => vmScalarUnsigned end).

Definition exact_value (t : vmType) (k : numeric_kind) (n : Z) (x : exact_result) : result op_error vmValue :=
  match x with
  | ExactInt z => Ok (int_value t k (wrap k n z))
  | ExactBool b => Ok (newBoolValue b)
  | ExactError e => Err e
  end.

Definition integral (k : numeric_kind) : Prop := k = NumericSigned \/ k = NumericUnsigned.

(** What the compiler records for an operand: nothing, or the underlying type. *)
Definition hints (t : vmType) (hint : primitive) : Prop := hint = PrimitiveInvalid \/ hint = underlying t.

(** ** Lemmas: widths *)

Lemma width_cases t k n : NumericInfo t = (k, n) -> integral k -> n = 8 \/ n = 16 \/ n = 32 \/ n = 64.
Proof. unfold NumericInfo. destruct (underlying t); cbn; intros [= <- <-] [|]; (done || tauto). Qed.

Lemma width_bound t k n : NumericInfo t = (k, n) -> integral k -> 0 < n <= 64.
Proof. intros Hi Hk. destruct (width_cases _ _ _ Hi Hk) as [->|[->|[->| ->]]]; lia. Qed.

Lemma in_range_64 k n z : (n = 8 \/ n = 16 \/ n = 32 \/ n = 64) -> in_range k n z -> in_range k 64 z.
Proof. intros Hn. destruct k; cbn; try done; destruct Hn as [->|[->|[->| ->]]]; cbn -[Z.pow]; lia. Qed.

Lemma to_signed_range n z : 0 < n -> - 2 ^ (n - 1) <= to_signed n z < 2 ^ (n - 1).
Proof.
  intros Hn. unfold to_signed. pose proof (Z.mod_pos_bound (z + 2 ^ (n - 1)) (2 ^ n) ltac:(apply Z.pow_pos_nonneg; lia)).
  replace (2 ^ n) with (2 * 2 ^ (n - 1)) in * by (rewrite <- Z.pow_succ_r by lia; f_equal; lia). lia.
Qed.

Lemma to_signed_id n z : 0 < n -> - 2 ^ (n - 1) <= z < 2 ^ (n - 1) -> to_signed n z = z.
Proof.
  intros Hn Hz. unfold to_signed. replace (2 ^ n) with (2 * 2 ^ (n - 1)) by (rewrite <- Z.pow_succ_r by lia; f_equal; lia).
  rewrite Z.mod_small; lia.
Qed.

Lemma to_signed_mod n a b : 0 < n -> a mod 2 ^ n = b mod 2 ^ n -> to_signed n a = to_signed n b.
Proof. intros Hn E. unfold to_signed. by rewrite <- (Zplus_mod_idemp_l a), E, Zplus_mod_idemp_l. Qed.

Lemma mod_pow_divides a m n : 0 <= n <= m -> (a mod 2 ^ m) mod 2 ^ n = a mod 2 ^ n.
Proof.
  intros Hn. apply Z.mod_mod_divide. exists (2 ^ (m - n)). rewrite <- Z.pow_add_r by lia. f_equal. lia.
Qed.

Lemma i64_mod n z : 0 <= n <= 64 -> i64 z mod 2 ^ n = z mod 2 ^ n.
Proof.
  intros Hn. rewrite <- (mod_pow_divides (i64 z) 64 n), <- (mod_pow_divides z 64 n) by lia. f_equal.
  unfold i64. rewrite Zminus_mod_idemp_l. f_equal. lia.
Qed.

Lemma to_signed_i64 n z : 0 < n <= 64 -> to_signed n (i64 z) = to_signed n z.
Proof. intros Hn. apply to_signed_mod; [lia|]. apply i64_mod. lia. Qed.

Lemma to_unsigned_u64 n z : 0 <= n <= 64 -> to_unsigned n (u64 z) = to_unsigned n z.
Proof. intros Hn. unfold to_unsigned, u64. by apply mod_pow_divides. Qed.

Lemma i64_u64 z : - 2 ^ 63 <= z < 2 ^ 63 -> i64 (u64 z) = z.
Proof.
  intros Hz. unfold i64, u64. rewrite Zplus_mod_idemp_l. rewrite Z.mod_small; lia.
Qed.

(** Decides the comparisons of literal widths. *)
Ltac eval_widths :=
  repeat match goal with |- context [Z.eqb ?a ?b] => let x := eval vm_compute in (Z.eqb a b) in change (Z.eqb a b) with x end; cbn iota.

Lemma normalize_signed_spec t n v :
  NumericInfo t = (NumericSigned, n) -> - 2 ^ 63 <= v < 2 ^ 63 -> normalizeSignedValue t v = int_value t NumericSigned (to_signed n v).
Proof.
  intros Hi Hv. assert (to_signed 64 v = v) as E64 by (apply to_signed_id; lia).
  destruct t as [p|name p]; unfold NumericInfo in Hi; cbn [underlying] in Hi; destruct p; cbn in Hi; try discriminate Hi; injection Hi as <-;
    cbn [normalizeSignedValue NumericInfo underlying primitiveNumericInfo snd]; rewrite ?E64; try done;
    unfold narrow_signed; eval_widths; rewrite ?E64; done.
Qed.

Lemma normalize_unsigned_spec t n v :
  NumericInfo t = (NumericUnsigned, n) -> 0 <= v < 2 ^ 64 -> normalizeUnsignedValue t v = int_value t NumericUnsigned (to_unsigned n v).
Proof.
  intros Hi Hv. assert (to_unsigned 64 v = v) as E64 by (apply Z.mod_small; lia).
  assert (forall m, 0 <= m <= 64 -> u64 (to_unsigned m v) = to_unsigned m v) as Eu.
  { intros m Hm. apply u64_id. pose proof (Z.mod_pos_bound v (2 ^ m) ltac:(apply Z.pow_pos_nonneg; lia)). unfold to_unsigned.
    assert (2 ^ m <= 2 ^ 64) by (apply Z.pow_le_mono_r; lia). lia. }
  unfold int_value.
  destruct t as [p|name p]; unfold NumericInfo in Hi; cbn [underlying] in Hi; destruct p; cbn in Hi; try discriminate Hi; injection Hi as <-;
    cbn [normalizeUnsignedValue NumericInfo underlying primitiveNumericInfo snd]; rewrite Eu by lia; rewrite ?E64; try done;
    unfold narrow_unsigned; eval_widths; rewrite ?E64; done.
Qed.

(** ** Lemmas: bit operations keep the range *)

Lemma range_shiftr_signed z : - 2 ^ 63 <= z < 2 ^ 63 <-> Z.shiftr z 63 = 0 \/ Z.shiftr z 63 = -1.
Proof.
  rewrite Z.shiftr_div_pow2 by lia. destruct (div_mod_pos z (2 ^ 63) ltac:(lia)) as [Hd Hm]. split.
  - intros Hz. assert (-1 <= z / 2 ^ 63 < 1); [|lia]. split; [apply Z.div_le_lower_bound; lia|apply Z.div_lt_upper_bound; lia].
  - intros [E|E]; rewrite E in Hd; lia.
Qed.

Lemma range_shiftr_unsigned z : 0 <= z < 2 ^ 64 <-> Z.shiftr z 64 = 0.
Proof.
  rewrite Z.shiftr_div_pow2 by lia. destruct (div_mod_pos z (2 ^ 64) ltac:(lia)) as [Hd Hm]. split.
  - intros Hz. by apply Z.div_small.
  - intros E. rewrite E in Hd. lia.
Qed.

Definition in64 (k : numeric_kind) (z : Z) : Prop := match k with NumericSigned => - 2 ^ 63 <= z < 2 ^ 63 | _ => 0 <= z < 2 ^ 64 end.

Lemma bitop_range k f l r :
  (forall a b n, Z.shiftr (f a b) n = f (Z.shiftr a n) (Z.shiftr b n)) ->
  f 0 0 = 0 -> (f 0 (-1) = 0 \/ f 0 (-1) = -1) -> (f (-1) 0 = 0 \/ f (-1) 0 = -1) -> (f (-1) (-1) = 0 \/ f (-1) (-1) = -1) ->
  in64 k l -> in64 k r -> in64 k (f l r).
Proof.
  intros Hf H00 H01 H10 H11. unfold in64.
  destruct k; try (rewrite !range_shiftr_unsigned, Hf; by intros -> ->).
  rewrite !range_shiftr_signed, Hf. intros [-> | ->] [-> | ->]; auto.
Qed.

Lemma bit_ranges k l r : in64 k l -> in64 k r ->
  in64 k (Z.land l r) /\ in64 k (Z.lor l r) /\ in64 k (Z.lxor l r) /\ in64 k (Z.ldiff l r).
Proof.
  intros Hl Hr. repeat split; apply bitop_range; try done; auto.
  - intros. apply Z.shiftr_land.
  - intros. apply Z.shiftr_lor.
  - intros. apply Z.shiftr_lxor.
  - intros. apply Z.shiftr_ldiff.
Qed.

(** ** Lemmas: shifts *)

Lemma go_shr_div l r : - 2 ^ 64 <= l < 2 ^ 64 -> 0 <= r -> go_shr l r = l / 2 ^ r.
Proof.
  intros Hl Hr. unfold go_shr. destruct (Z.leb_spec 64 r) as [H|H]; [|by rewrite Z.shiftr_div_pow2].
  assert (2 ^ 64 <= 2 ^ r) by (apply Z.pow_le_mono_r; lia). destruct (Z.ltb_spec l 0).
  - symmetry. apply div_bounds; lia.
  - symmetry. apply Z.div_small. lia.
Qed.

Lemma shl_large n l r : 0 <= n <= r -> (l * 2 ^ r) mod 2 ^ n = 0.
Proof.
  intros H. replace (2 ^ r) with (2 ^ (r - n) * 2 ^ n) by (rewrite <- Z.pow_add_r by lia; f_equal; lia).
  rewrite Z.mul_assoc. apply Z_mod_mult.
Qed.

Lemma go_shl64_wrap n l r : 0 < n <= 64 -> 0 <= r -> to_signed n (go_shl64 l r) = to_signed n (l * 2 ^ r).
Proof.
  intros Hn Hr. unfold go_shl64. destruct (Z.leb_spec 64 r).
  - apply to_signed_mod; [lia|]. rewrite shl_large by lia. apply Z.mod_0_l. apply Z.pow_nonzero; lia.
  - by rewrite to_signed_i64, Z.shiftl_mul_pow2.
Qed.

Lemma go_shlu64_wrap n l r : 0 <= n <= 64 -> 0 <= r -> to_unsigned n (go_shlu64 l r) = to_unsigned n (l * 2 ^ r).
Proof.
  intros Hn Hr. unfold go_shlu64. destruct (Z.leb_spec 64 r).
  - unfold to_unsigned. rewrite shl_large by lia. apply Z.mod_0_l. apply Z.pow_nonzero; lia.
  - by rewrite to_unsigned_u64, Z.shiftl_mul_pow2.
Qed.

Lemma go_shl_range l r : - 2 ^ 63 <= go_shl64 l r < 2 ^ 63 /\ 0 <= go_shlu64 l r < 2 ^ 64.
Proof. unfold go_shl64, go_shlu64. destruct (64 <=? r); [lia|]. split; [apply i64_range|apply u64_range]. Qed.

Lemma shr_range l r : - 2 ^ 63 <= l < 2 ^ 63 -> 0 <= r -> - 2 ^ 63 <= l / 2 ^ r < 2 ^ 63.
Proof.
  intros Hl Hr. assert (0 < 2 ^ r) by (apply Z.pow_pos_nonneg; lia). split.
  - apply Z.div_le_lower_bound; [lia|]. nia.
  - apply Z.div_lt_upper_bound; nia.
Qed.

Lemma rem_range l r : - 2 ^ 63 <= l < 2 ^ 63 -> - 2 ^ 63 <= r < 2 ^ 63 -> r <> 0 -> - 2 ^ 63 <= Z.rem l r < 2 ^ 63.
Proof. intros Hl Hr H0. pose proof (Z.rem_bound_abs l r H0). lia. Qed.

(** ** Lemmas: the fast path *)

(** The comparisons of the code, as those of the integers. *)
Lemma compare_ints_exact op l r : ExactBool <$> compare_ints op l r = match op with
  | operatorAdd | operatorSub | operatorMul | operatorDiv | operatorMod | operatorBitAnd | operatorBitOr | operatorBitXor | operatorBitClear | operatorShiftLeft | operatorShiftRight => None
  | _ => exact_binary op l r
  end.
Proof. destruct op; try done; cbn [compare_ints exact_binary fmap option_fmap option_map]; do 2 f_equal; case_bool_decide; breflect; lia. Qed.

Lemma compare_value {t k n} op l r x : ExactBool <$> compare_ints op l r = Some x ->
  match compare_ints op l r with Some b => Some (Ok (newBoolValue b)) | None => None end = Some (exact_value t k n x).
Proof. destruct (compare_ints op l r) as [b|]; cbn; [|done]. intros H. by injection H as <-. Qed.

Lemma signed_binary_exact op t n l r :
  NumericInfo t = (NumericSigned, n) -> - 2 ^ 63 <= l < 2 ^ 63 -> - 2 ^ 63 <= r < 2 ^ 63 ->
  signed_binary op t l r = exact_value t NumericSigned n <$> exact_binary op l r.
Proof.
  intros Hi Hl Hr. pose proof (width_bound _ _ _ Hi ltac:(by red; auto)) as Hn.
  destruct (bit_ranges NumericSigned l r Hl Hr) as (B1 & B2 & B3 & B4). cbn [in64] in *.
  assert (forall v, - 2 ^ 63 <= v < 2 ^ 63 -> normalizeSignedValue t v = int_value t NumericSigned (to_signed n v)) as N
    by (intros; by apply normalize_signed_spec).
  destruct op; try (by apply compare_value; rewrite compare_ints_exact); cbn [signed_binary exact_binary fmap option_fmap option_map exact_value wrap]; try done.
  - rewrite N by apply i64_range. by rewrite to_signed_i64.
  - rewrite N by apply i64_range. by rewrite to_signed_i64.
  - rewrite N by apply i64_range. by rewrite to_signed_i64.
  - destruct (r =? 0); [done|]. cbn. rewrite N by apply i64_range. by rewrite to_signed_i64.
  - destruct (Z.eqb_spec r 0); [done|]. cbn. by rewrite N by by apply rem_range.
  - by rewrite N.
  - by rewrite N.
  - by rewrite N.
  - by rewrite N.
  - destruct (Z.ltb_spec r 0); [done|]. cbn. rewrite N by apply (go_shl_range l r). by rewrite go_shl64_wrap.
  - destruct (Z.ltb_spec r 0); [done|]. cbn. rewrite go_shr_div by lia. by rewrite N by by apply shr_range.
Qed.

Lemma unsigned_binary_exact op t n l r :
  NumericInfo t = (NumericUnsigned, n) -> 0 <= l < 2 ^ 64 -> 0 <= r < 2 ^ 64 ->
  unsigned_binary op t l r = exact_value t NumericUnsigned n <$> exact_binary op l r.
Proof.
  intros Hi Hl Hr. pose proof (width_bound _ _ _ Hi ltac:(by red; auto)) as Hn.
  destruct (bit_ranges NumericUnsigned l r Hl Hr) as (B1 & B2 & B3 & B4). cbn [in64] in *.
  assert (forall v, 0 <= v < 2 ^ 64 -> normalizeUnsignedValue t v = int_value t NumericUnsigned (to_unsigned n v)) as N
    by (intros; by apply normalize_unsigned_spec).
  destruct op; try (by apply compare_value; rewrite compare_ints_exact); cbn [unsigned_binary exact_binary fmap option_fmap option_map exact_value wrap]; try done.
  - rewrite N by apply u64_range. by rewrite to_unsigned_u64 by lia.
  - rewrite N by apply u64_range. by rewrite to_unsigned_u64 by lia.
  - rewrite N by apply u64_range. by rewrite to_unsigned_u64 by lia.
  - destruct (Z.eqb_spec r 0); [done|]. cbn. rewrite Z.quot_div_nonneg by lia. rewrite N; [done|].
    split; [apply Z.div_pos; lia|]. apply Z.div_lt_upper_bound; nia.
  - destruct (Z.eqb_spec r 0); [done|]. cbn. rewrite Z.rem_mod_nonneg by lia. rewrite N; [done|]. pose proof (Z.mod_pos_bound l r). lia.
  - by rewrite N.
  - by rewrite N.
  - by rewrite N.
  - by rewrite N.
  - rewrite (proj2 (Z.ltb_ge r 0)) by lia. cbn. rewrite N by apply (go_shl_range l r). by rewrite go_shlu64_wrap by lia.
  - rewrite (proj2 (Z.ltb_ge r 0)) by lia. cbn. rewrite go_shr_div by lia. rewrite N; [done|].
    split; [apply Z.div_pos; [lia|apply Z.pow_pos_nonneg; lia]|]. apply Z.div_lt_upper_bound; [apply Z.pow_pos_nonneg; lia|].
    assert (0 < 2 ^ r) by (apply Z.pow_pos_nonneg; lia). nia.
Qed.

(** A signed count shifts an unsigned value as the same unsigned count. *)
Lemma in_range_in64 k n z : (n = 8 \/ n = 16 \/ n = 32 \/ n = 64) -> in_range k n z -> in64 k z.
Proof. intros Hn Hz. apply (in_range_64 k n z Hn) in Hz. by destruct k. Qed.

(** The kinds of operands that the type checker admits: equal kinds, or any kinds for a shift. *)
Definition admitted (op : preparedOperator) (k k' : numeric_kind) : Prop :=
  integral k /\ integral k' /\ (k = k' \/ is_shift op = true).

Lemma fast_path_exact op t t' k k' n n' l r :
  NumericInfo t = (k, n) -> NumericInfo t' = (k', n') -> admitted op k k' -> in_range k n l -> in_range k' n' r ->
  evalIntegerBinary op t (scalarKind (int_value t k l)) (u64 l) (scalarKind (int_value t' k' r)) (u64 r) =
    exact_value t k n <$> exact_binary op l r.
Proof.
  intros Hi Hi' (Hk & Hk' & Ha) Hl Hr.
  apply (in_range_in64 _ _ _ (width_cases _ _ _ Hi Hk)) in Hl. apply (in_range_in64 _ _ _ (width_cases _ _ _ Hi' Hk')) in Hr.
  pose proof (width_bound _ _ _ Hi Hk) as Hn.
  destruct Hk as [-> | ->], Hk' as [-> | ->]; cbn [int_value scalarKind evalIntegerBinary in64] in *.
  - rewrite !i64_u64 by lia. by apply signed_binary_exact.
  - destruct Ha as [?|Ha]; [done|]. rewrite i64_u64, u64_id by lia.
    destruct op; try done; cbn [exact_binary fmap option_fmap option_map]; rewrite (proj2 (Z.ltb_ge r 0)) by lia; cbn [exact_value wrap].
    + rewrite (normalize_signed_spec t n) by (done || apply (go_shl_range l r)). by rewrite go_shl64_wrap by lia.
    + rewrite go_shr_div by lia. rewrite (normalize_signed_spec t n); [done|done|]. apply shr_range; lia.
  - destruct Ha as [?|Ha]; [done|]. rewrite Ha, i64_u64, u64_id by lia. cbn [negb]. destruct (Z.ltb_spec r 0) as [H|H].
    + destruct op; try done; cbn [exact_binary fmap option_fmap option_map]; by rewrite (proj2 (Z.ltb_lt r 0)).
    + apply unsigned_binary_exact; (done || lia).
  - rewrite !u64_id by lia. by apply unsigned_binary_exact.
Qed.

(** ** Lemmas: the general path *)

Definition arithmetic (op : preparedOperator) : bool :=
  match op with operatorAdd | operatorSub | operatorMul | operatorDiv | operatorMod => true | _ => false end.
Definition bitwise (op : preparedOperator) : bool :=
  match op with operatorBitAnd | operatorBitOr | operatorBitXor | operatorBitClear | operatorShiftLeft | operatorShiftRight => true | _ => false end.

Definition comparison (op : preparedOperator) : bool :=
  match op with operatorEqual | operatorNotEqual | operatorLess | operatorGreater | operatorLessEqual | operatorGreaterEqual => true | _ => false end.

(** Where the general path sends an operator, for integer operands. *)
Definition general_path (op : preparedOperator) (left right : vmValue) : option (result op_error vmValue) :=
  if arithmetic op then Some (evalNumeric op left right) else if bitwise op then Some (evalBitwise op left right) else if comparison op then evalCompare op left right else None.

(** What the fast path takes upon itself. *)
Definition accepts (op : preparedOperator) (k k' : scalar_kind) : bool :=
  negb (bool_decide (k = vmScalarNone)) && negb (bool_decide (k' = vmScalarNone)) && (bool_decide (k = k') || is_shift op) && (arithmetic op || bitwise op || comparison op).

Lemma general_arithmetic op left right k :
  arithmetic op = true -> k <> vmScalarNone -> scalarKind left = k -> scalarKind right = k ->
  evalIntegerBinary op (Type_ left) (scalarKind left) (scalar left) (scalarKind right) (scalar right) = Some (evalNumeric op left right).
Proof.
  intros Ho Hk El Er. unfold evalNumeric, is_unsigned, numericAsUint64, numericAsInt64, unsignedValue, signedValue. rewrite El, Er.
  destruct k; [done| |]; cbn [orb result_bind evalIntegerBinary]; destruct op; try done; cbn [signed_binary unsigned_binary]; by case_if.
Qed.

Lemma general_bitwise op left right :
  bitwise op = true -> scalarKind left <> vmScalarNone -> scalarKind right <> vmScalarNone ->
  (scalarKind left = scalarKind right \/ is_shift op = true) -> 0 <= scalar left < 2 ^ 64 -> 0 <= scalar right < 2 ^ 64 ->
  evalIntegerBinary op (Type_ left) (scalarKind left) (scalar left) (scalarKind right) (scalar right) = Some (evalBitwise op left right).
Proof.
  intros Ho Hl Hr Ha Bl Br.
  assert (i64 (u64 (i64 (scalar right))) = i64 (scalar right)) as Ei by (apply i64_u64, i64_range).
  unfold evalBitwise, is_unsigned, is_signed, numericShiftCount, numericAsUint64, numericAsInt64, unsignedValue, signedValue.
  destruct (scalarKind left) eqn:El, (scalarKind right) eqn:Er; try done; cbn [orb negb result_bind evalIntegerBinary].
  - destruct op; try done; cbn [is_shift result_bind signed_binary]; rewrite ?Ei; try done.
    + destruct (Z.ltb_spec (i64 (scalar right)) 0); [done|]. cbn [result_bind]. pose proof (i64_range (scalar right)). by rewrite u64_id by lia.
    + destruct (Z.ltb_spec (i64 (scalar right)) 0); [done|]. cbn [result_bind]. pose proof (i64_range (scalar right)). by rewrite u64_id by lia.
  - destruct Ha as [?|Ha]; [done|]. by destruct op.
  - destruct Ha as [?|Ha]; [done|]. rewrite Ha. cbn [negb]. destruct (Z.ltb_spec (i64 (scalar right)) 0); [by destruct op|]. cbn [result_bind].
    pose proof (i64_range (scalar right)). rewrite u64_id by lia. by destruct op.
  - by destruct op.
Qed.

Lemma ordering_exact op c l r : comparison op = true -> (c < 0 <-> l < r) -> (0 < c <-> r < l) -> compare_ints op l r = Some (compareOrdering op c).
Proof. intros Ho H1 H2. destruct op; try done; cbn [compare_ints compareOrdering]; f_equal; apply eq_true_iff_eq; rewrite ?negb_true_iff, ?Z.eqb_neq, ?Z.eqb_eq, ?Z.ltb_lt, ?Z.leb_le; lia. Qed.

Lemma compare_sign l r : (compareInt64 l r < 0 <-> l < r) /\ (0 < compareInt64 l r <-> r < l).
Proof. unfold compareInt64. destruct (Z.ltb_spec l r), (Z.ltb_spec r l); lia. Qed.

Lemma general_comparison op left right : comparison op = true -> scalarKind left <> vmScalarNone -> scalarKind left = scalarKind right -> Type_ left = Prim (underlying (Type_ left)) -> Type_ right = Prim (underlying (Type_ right)) ->
  evalIntegerBinary op (Type_ left) (scalarKind left) (scalar left) (scalarKind right) (scalar right) = evalCompare op left right.
Proof.
  intros Ho Hl Hk Tl Tr. assert (forall c l r, (c < 0 <-> l < r) -> (0 < c <-> r < l) -> compare_ints op l r = Some (compareOrdering op c)) as Hc by (intros; by apply ordering_exact).
  assert (isNumericValue left = true /\ isNumericValue right = true) as [Nl Nr] by (unfold isNumericValue; rewrite <- Hk, bool_decide_false by done; done).
  unfold evalCompare, compareNumericValues, equalNumericValues, compareIntegerValues, integerKind, is_signed, is_unsigned, numericAsInt64, numericAsUint64, signedValue, unsignedValue. rewrite Nl, Nr, Tl, Tr, <- Hk.
  destruct (scalarKind left); [done| |]; cbn [evalIntegerBinary result_bind andb option_map].
  - destruct (compare_sign (i64 (scalar left)) (i64 (scalar right))) as [H1 H2]. specialize (Hc _ _ _ H1 H2). destruct op; try done; cbn [signed_binary]; rewrite Hc; try done; by rewrite ?bool_decide_true, ?bool_decide_false.
  - destruct (compare_sign (scalar left) (scalar right)) as [H1 H2]. specialize (Hc _ _ _ H1 H2). destruct op; try done; cbn [unsigned_binary]; rewrite Hc; try done; by rewrite ?bool_decide_true, ?bool_decide_false.
Qed.

Lemma wrap_in_range k n z : integral k -> 0 < n -> in_range k n (wrap k n z).
Proof. intros [-> | ->] Hn; [by apply to_signed_range|]. apply Z.mod_pos_bound, Z.pow_pos_nonneg; lia. Qed.

Lemma wrap_congruent k n z : wrap k n z mod 2 ^ n = z mod 2 ^ n.
Proof. unfold wrap, to_signed, to_unsigned. destruct k; try apply Zmod_mod. rewrite Zminus_mod_idemp_l. by replace (z + 2 ^ (n - 1) - 2 ^ (n - 1)) with z by lia. Qed.

Lemma operand_value t k n hint z :
  NumericInfo t = (k, n) -> integral k -> hints t hint -> operand (int_value t k z) hint = int_value (Prim (underlying t)) k z.
Proof.
  intros Hi Hk Hh. unfold operand, numericOperandValue. destruct t as [p|name p]; cbn [Type_ int_value underlying] in *; [done|].
  destruct (decide (hint = PrimitiveInvalid)) as [-> | E].
  - rewrite !bool_decide_true, !bool_decide_false by (done || (unfold NumericInfo in *; cbn [underlying] in *; rewrite Hi; by destruct Hk as [-> | ->])). done.
  - rewrite (bool_decide_false (hint = PrimitiveInvalid)) by done. by destruct Hh as [-> | ->].
Qed.

(** ** Theorems *)

(** C32. A binary operator on integers of any width, named types included, computes the exact result and wraps
    it once to the width and kind of the left operand's type; division truncates, also of the least value
    by -1, shifts are exact for every count, comparisons are those of the integers, and the only errors are
    division by zero and a negative shift count.  What it is wrapped to is the value of that type that is equal to
    the exact result modulo 2 to the width.  The operands are of one kind, or of any two for a shift. *)
Theorem vm_integer_binary_exact (op : preparedOperator) (t t' : vmType) (k k' : numeric_kind) (n n' l r : Z) (x : exact_result) (hint hint' : primitive) :
  NumericInfo t = (k, n) -> NumericInfo t' = (k', n') -> admitted op k k' -> in_range k n l -> in_range k' n' r ->
  exact_binary op l r = Some x -> hints t hint -> hints t' hint' ->
  evalBinary op (int_value t k l) (int_value t' k' r) (hint, hint') = Some (exact_value t k n x) /\
  (forall z, x = ExactInt z -> in_range k n (wrap k n z) /\ wrap k n z mod 2 ^ n = z mod 2 ^ n).
Proof.
  intros Hi Hi' Ha Hl Hr Hx Hh Hh'. pose proof Ha as (Hk & Hk' & _).
  pose proof (width_bound _ _ _ Hi Hk) as Hn.
  split; [|intros z _; split; [apply wrap_in_range; (done || lia)|apply wrap_congruent]].
  unfold evalBinary.
  rewrite (operand_value t k n), (operand_value t' k' n') by done.
  pose proof (fast_path_exact op (Prim (underlying t)) (Prim (underlying t')) k k' n n' l r Hi Hi' Ha Hl Hr) as Hf.
  cbn [Type_ int_value scalar scalarKind] in *. rewrite Hf, Hx. destruct x as [z|b|e]; cbn [fmap option_fmap option_map exact_value]; [|done|done].
  unfold with_type, int_value. cbn [scalarKind scalar]. rewrite bool_decide_false; [done|]. by destruct k.
Qed.

(** C33. The fast path of the instruction loop accepts exactly the integers of one kind, or of any two kinds for a shift,
    with the arithmetic, bitwise and comparison operators, and its answer is then the one of the general path, errors
    included.  Comparisons are stated of operands of primitive types, as both paths meet them: [evalBinary] takes a
    value of a named type at the primitive type beneath it. *)
Theorem fast_path_agrees (op : preparedOperator) (left right : vmValue) :
  0 <= scalar left < 2 ^ 64 -> 0 <= scalar right < 2 ^ 64 ->
  (comparison op = true -> Type_ left = Prim (underlying (Type_ left)) /\ Type_ right = Prim (underlying (Type_ right))) ->
  evalIntegerBinary op (Type_ left) (scalarKind left) (scalar left) (scalarKind right) (scalar right) =
    if accepts op (scalarKind left) (scalarKind right) then general_path op left right else None.
Proof.
  intros Bl Br Hp. unfold accepts. destruct (decide (scalarKind left = vmScalarNone)) as [El|El]; [rewrite bool_decide_true by done; cbn [negb andb]; by rewrite El|].
  rewrite (bool_decide_false (scalarKind left = vmScalarNone)) by done. destruct (decide (scalarKind right = vmScalarNone)) as [Er|Er].
  { rewrite (bool_decide_true (scalarKind right = _)) by done. cbn [negb andb]. rewrite Er. destruct (scalarKind left); done. }
  rewrite (bool_decide_false (scalarKind right = vmScalarNone)) by done. cbn [negb andb]. destruct (bool_decide (scalarKind left = scalarKind right) || is_shift op) eqn:Ha.
  2: { apply orb_false_iff in Ha as [Ha Hs]. apply bool_decide_eq_false in Ha. cbn [andb]. destruct (scalarKind left), (scalarKind right); try done; cbn [evalIntegerBinary]; [by destruct op|by rewrite Hs]. }
  assert (scalarKind left = scalarKind right \/ is_shift op = true) as Hk by (apply orb_true_iff in Ha as [H%bool_decide_eq_true|H]; auto). cbn [andb]. unfold general_path.
  destruct (arithmetic op) eqn:Eo; cbn [orb]; [eapply general_arithmetic; [done|exact El|done|]; destruct Hk as [->|Hk]; [done|by destruct op]|].
  destruct (bitwise op) eqn:Eb; cbn [orb]; [by apply general_bitwise|]. assert (scalarKind left = scalarKind right) as Hk2 by (destruct Hk as [Hk|Hk]; [done|by destruct op]).
  destruct (comparison op) eqn:Ec; [|rewrite Hk2; by destruct op, (scalarKind right)]. destruct (Hp eq_refl). by apply general_comparison.
Qed.

(** Negation and complement are exact up to one wrap, and the result keeps the operand's type. *)
Theorem vm_integer_unary_exact (t : vmType) (k : numeric_kind) (n l : Z) (hint : primitive) :
  NumericInfo t = (k, n) -> integral k -> in_range k n l -> hints t hint ->
  evalUnary operatorSub (int_value t k l) hint = Some (Ok (int_value t k (wrap k n (- l)))) /\
  evalUnary operatorBitXor (int_value t k l) hint = Some (Ok (int_value t k (wrap k n (Z.lnot l)))).
Proof.
  intros Hi Hk Hl Hh. pose proof (in_range_in64 _ _ _ (width_cases _ _ _ Hi Hk) Hl) as H64.
  pose proof (width_bound _ _ _ Hi Hk) as Hn.
  pose proof (operand_value t k n hint l Hi Hk Hh) as En.
  assert (NumericInfo (Prim (underlying t)) = (k, n)) as Hi' by done.
  assert (forall z, normalizeUnaryNumericResult t (int_value (Prim (underlying t)) k z) = int_value t k z) as Eu.
  { intros z. unfold normalizeUnaryNumericResult, with_type, int_value. cbn [Type_ scalar scalarKind].
    rewrite (bool_decide_false (Prim (underlying t) = Prim PrimitiveBool)).
    2: { intros [= E]. unfold NumericInfo in Hi. rewrite E in Hi. injection Hi as <- _. done. }
    case_bool_decide as E; [by rewrite <- E|done]. }
  unfold evalUnary. rewrite En. cbn [Type_ int_value]. unfold is_unsigned, is_signed, numericAsUint64, numericAsInt64, unsignedValue, signedValue.
  destruct Hk as [-> | ->]; cbn [int_value scalarKind scalar result_bind in64] in *.
  - rewrite i64_u64 by lia. rewrite !(normalize_signed_spec _ n) by (done || apply i64_range || (unfold Z.lnot; lia)).
    rewrite to_signed_i64 by lia. by rewrite !Eu.
  - rewrite (u64_id l) by lia. rewrite !(normalize_unsigned_spec _ n) by (done || apply u64_range). rewrite !to_unsigned_u64 by lia. by rewrite !Eu.
Qed.

(** An operand lane narrower than a word is read back with its sign. *)
Theorem sign_extend_exact (bits raw : Z) :
  0 < bits <= 64 -> 0 <= raw < 2 ^ bits -> sign_extend bits raw = u64 (to_signed bits raw).
Proof.
  intros Hb Hr. unfold sign_extend. f_equal. rewrite Z.shiftl_mul_pow2, Z.shiftr_div_pow2 by lia. set (p := 2 ^ (64 - bits)).
  assert (0 < p) as Hp by (apply Z.pow_pos_nonneg; lia).
  assert (2 ^ bits * p = 2 ^ 64) as E64 by (unfold p; rewrite <- Z.pow_add_r by lia; f_equal; lia).
  assert (2 ^ bits = 2 * 2 ^ (bits - 1)) as Eh by (rewrite <- Z.pow_succ_r by lia; f_equal; lia).
  rewrite u64_id by nia. destruct (Z.lt_ge_cases raw (2 ^ (bits - 1))) as [H|H].
  - rewrite to_signed_id by lia. rewrite i64_id by nia. by apply Z.div_mul; lia.
  - assert (to_signed bits raw = raw - 2 ^ bits) as ->.
    { rewrite <- (to_signed_id bits (raw - 2 ^ bits)) by lia. apply to_signed_mod; [lia|]. symmetry.
      replace (raw - 2 ^ bits) with (raw + (-1) * 2 ^ bits) by lia. apply Z_mod_plus_full. }
    assert (i64 (raw * p) = (raw - 2 ^ bits) * p) as ->; [|by apply Z.div_mul; lia].
    rewrite <- (i64_id ((raw - 2 ^ bits) * p)) by nia. unfold i64. do 1 f_equal. 
    replace (raw * p + 2 ^ 63) with ((raw - 2 ^ bits) * p + 2 ^ 63 + 1 * 2 ^ 64) by nia. by rewrite Z_mod_plus_full.
Qed.

(** The least 8-bit value divided by -1 wraps to itself. *)
Lemma vm_integer_binary_exact_witness :
  evalBinary operatorDiv (int_value (Named 1 PrimitiveInt8) NumericSigned (-128)) (int_value (Named 1 PrimitiveInt8) NumericSigned (-1)) (PrimitiveInt8, PrimitiveInvalid) =
    Some (Ok (int_value (Named 1 PrimitiveInt8) NumericSigned (-128))).
Proof.
  apply (vm_integer_binary_exact operatorDiv (Named 1 PrimitiveInt8) (Named 1 PrimitiveInt8) NumericSigned NumericSigned 8 8 (-128) (-1) (ExactInt 128) PrimitiveInt8 PrimitiveInvalid);
    [reflexivity|reflexivity| |cbn; lia|cbn; lia|reflexivity|right; reflexivity|left; reflexivity].
  split; [left; reflexivity|]. split; [left; reflexivity|]. left. reflexivity.
Defined.

(** A comparison, and an addition that wraps. *)
Lemma fast_path_agrees_witness :
  evalIntegerBinary operatorLess (Prim PrimitiveInt8) vmScalarSigned (2 ^ 64 - 1) vmScalarSigned 1 =
    evalCompare operatorLess (mkValue (Prim PrimitiveInt8) (2 ^ 64 - 1) vmScalarSigned) (mkValue (Prim PrimitiveInt8) 1 vmScalarSigned) /\
  evalIntegerBinary operatorAdd (Prim PrimitiveUint8) vmScalarUnsigned 200 vmScalarUnsigned 100 =
    Some (evalNumeric operatorAdd (mkValue (Prim PrimitiveUint8) 200 vmScalarUnsigned) (mkValue (Prim PrimitiveUint8) 100 vmScalarUnsigned)).
Proof.
  split.
  - apply (fast_path_agrees operatorLess (mkValue (Prim PrimitiveInt8) (2 ^ 64 - 1) vmScalarSigned) (mkValue (Prim PrimitiveInt8) 1 vmScalarSigned)); [cbn; lia|cbn; lia|]. intros _. split; reflexivity.
  - apply (fast_path_agrees operatorAdd (mkValue (Prim PrimitiveUint8) 200 vmScalarUnsigned) (mkValue (Prim PrimitiveUint8) 100 vmScalarUnsigned)); [cbn; lia|cbn; lia|]. intros H. discriminate H.
Defined.

Lemma vm_integer_unary_exact_witness :
  evalUnary operatorSub (int_value (Prim PrimitiveInt16) NumericSigned (-32768)) PrimitiveInvalid = Some (Ok (int_value (Prim PrimitiveInt16) NumericSigned (-32768))).
Proof.
  apply (proj1 (vm_integer_unary_exact (Prim PrimitiveInt16) NumericSigned 16 (-32768) PrimitiveInvalid eq_refl (or_introl eq_refl) ltac:(cbn; lia) (or_introl eq_refl))).
Defined.

Lemma sign_extend_exact_witness : sign_extend 8 255 = u64 (-1).
Proof. apply (sign_extend_exact 8 255); lia. Defined.
