(* ===== verification/Allocator.v ===== *)
(** * Allocation in the managed heap (src/runtime/managed_heap.go)

    The owner's path of the allocator: layouts, the object directory, pages, the ledger of guest and
    resident bytes, reservations with their commit and abort, explicit release, and the reservations of
    control storage.  The memory itself, [mem], is the heap of [Heap]; the fields of objects and pages that
    accesses do not use are kept beside it.  Every method runs under the owner's lock, so it is one
    transition; a method that fails keeps the changes it made before it failed, so the methods are
    functions to a result and a state.

    Slices that the code only pushes to and pops from ([freeSlots], [freePages], [page.free]) are lists with
    their last element first.  The capacities of slices matter only where resident bytes are computed from
    them.  Worker batches ([managed_allocation.go]) are left out: [batches] is empty.  Sizes of Go records
    are those of a 64-bit platform. *)

From S2P Require Import Prelude GoStd GoBytes Heap.

(** ** State *)

Definition managedPageBytes : Z := 64 * 1024.
Definition MaxUint32 : Z := 2 ^ 32 - 1.
Definition MaxInt64 : Z := 2 ^ 63 - 1.
Definition managedMajorGrowthBytes : Z := 2 ^ 23.

Inductive page_kind : Type := NoPage | managedYoungPage | managedSparePage | managedOldPage | managedLargePage.

#[export] Instance page_kind_eq_dec : EqDecision page_kind.
Proof. solve_decision. Defined.

Record managedLayout : Type := mkLayout {
  lstride : Z; typeID : Z; references : list Z; dynamics : list Z; types : list Z
}.

#[export] Instance managedLayout_eq_dec : EqDecision managedLayout.
Proof. solve_decision. Defined.

Record managedLayoutOwner : Type := mkOwner { pins : Z; owner_marked : Z }.

(** The fields of [managedObject] beside those of [Heap]. *)
Record objectMeta : Type := mkMeta {
  layout : Z; count : Z; logical : Z; marked : Z; occupiedIndex : Z; youngIndex : Z; age : Z
}.

(** The fields of [managedPage] beside those of [Heap]. *)
Record pageMeta : Type := mkPageMeta {
  entries : list Z; pfree : list Z; used : Z; pclass : Z; partner : Z; cardCapacity : Z; kind : page_kind; resident : Z; leased : bool
}.

Record directory : Type := mkDirectory {
  freeSlots : list Z; occupied : list Z; youngSlots : list Z; nextSlot : Z; metas : gmap Z objectMeta
}.

Record paging : Type := mkPaging {
  pmetas : list pageMeta; freePages : list Z; nurseryPages : list Z; oldAvailable : list (list Z); nurseryCapacity : Z
}.

Record ledger : Type := mkLedger {
  occupiedBytes : Z; reservedBytes : Z; residentPageBytes : Z; totalAllocatedBytes : Z; allocations : Z; reclaimedBytes : Z;
  youngBytes : Z; controlBytes : Z; unpublished : Z; collectionRequested : bool
}.

Record config : Type := mkConfig {
  maxGuestBytes : Z; maxResidentBytes : Z; nurseryLimit : Z; nextMajorBytes : Z; closed : bool
}.

(** The capacities of [segments] and of [freeSlots], [occupied], [youngSlots] and [queue]. *)
Record capacities : Type := mkCapacities { capSegments : Z; capVectors : list Z }.

(** The reservations handed out so far, by address; and the control reservations, [None] once finished. *)
Record managedReservation : Type := mkReservation { res_ref : guestRef; res_done : bool }.

Record allocator : Type := mkAlloc {
  mem : managedHeap; dir : directory; pgs : paging; led : ledger; conf : config; caps : capacities;
  layouts : list managedLayout; layoutOwners : list managedLayoutOwner;
  reservations : list managedReservation; controls : list (option Z)
}.

Definition zero_meta : objectMeta := mkMeta 0 0 0 0 0 0 0.
Definition zero_object : managedObject := mkObject managedFree 0 0 0 0 false.
Definition zero_page : pageMeta := mkPageMeta [] [] 0 0 0 0 NoPage 0 false.

Definition newManagedHeap (guest resid : Z) : allocator :=
  mkAlloc (mkHeap [] [] []) (mkDirectory [] [] [] 1 ∅) (mkPaging [] [] [] (replicate 14 []) 0)
    (mkLedger 0 0 0 0 0 0 0 0 0 false) (mkConfig guest resid (2 ^ 22) managedMajorGrowthBytes false) (mkCapacities 0 [0; 0; 0; 0])
    [mkLayout 0 0 [] [] []] [mkOwner 0 0] [] [].

(** ** Updates *)

Definition set_mem (m : managedHeap) (a : allocator) : allocator :=
  mkAlloc m (dir a) (pgs a) (led a) (conf a) (caps a) (layouts a) (layoutOwners a) (reservations a) (controls a).
Definition set_dir (d : directory) (a : allocator) : allocator :=
  mkAlloc (mem a) d (pgs a) (led a) (conf a) (caps a) (layouts a) (layoutOwners a) (reservations a) (controls a).
Definition set_pgs (p : paging) (a : allocator) : allocator :=
  mkAlloc (mem a) (dir a) p (led a) (conf a) (caps a) (layouts a) (layoutOwners a) (reservations a) (controls a).
Definition set_led (f : ledger -> ledger) (a : allocator) : allocator :=
  mkAlloc (mem a) (dir a) (pgs a) (f (led a)) (conf a) (caps a) (layouts a) (layoutOwners a) (reservations a) (controls a).
Definition set_caps (c : capacities) (a : allocator) : allocator :=
  mkAlloc (mem a) (dir a) (pgs a) (led a) (conf a) c (layouts a) (layoutOwners a) (reservations a) (controls a).
Definition set_layouts (ls : list managedLayout) (os : list managedLayoutOwner) (a : allocator) : allocator :=
  mkAlloc (mem a) (dir a) (pgs a) (led a) (conf a) (caps a) ls os (reservations a) (controls a).
Definition set_reservations (rs : list managedReservation) (a : allocator) : allocator :=
  mkAlloc (mem a) (dir a) (pgs a) (led a) (conf a) (caps a) (layouts a) (layoutOwners a) rs (controls a).
Definition set_controls (cs : list (option Z)) (a : allocator) : allocator :=
  mkAlloc (mem a) (dir a) (pgs a) (led a) (conf a) (caps a) (layouts a) (layoutOwners a) (reservations a) cs.

Definition add_occupied (n : Z) (l : ledger) : ledger :=
  mkLedger (u64 (occupiedBytes l + n)) (reservedBytes l) (residentPageBytes l) (totalAllocatedBytes l) (allocations l) (reclaimedBytes l)
    (youngBytes l) (controlBytes l) (unpublished l) (collectionRequested l).
Definition add_reserved (n : Z) (l : ledger) : ledger :=
  mkLedger (occupiedBytes l) (u64 (reservedBytes l + n)) (residentPageBytes l) (totalAllocatedBytes l) (allocations l) (reclaimedBytes l)
    (youngBytes l) (controlBytes l) (unpublished l) (collectionRequested l).
Definition add_resident (n : Z) (l : ledger) : ledger :=
  mkLedger (occupiedBytes l) (reservedBytes l) (u64 (residentPageBytes l + n)) (totalAllocatedBytes l) (allocations l) (reclaimedBytes l)
    (youngBytes l) (controlBytes l) (unpublished l) (collectionRequested l).
Definition add_allocated (n : Z) (l : ledger) : ledger :=
  mkLedger (occupiedBytes l) (reservedBytes l) (residentPageBytes l) (u64 (totalAllocatedBytes l + n)) (u64 (allocations l + 1)) (reclaimedBytes l)
    (youngBytes l) (controlBytes l) (unpublished l) (collectionRequested l).
Definition add_reclaimed (n : Z) (l : ledger) : ledger :=
  mkLedger (occupiedBytes l) (reservedBytes l) (residentPageBytes l) (totalAllocatedBytes l) (allocations l) (u64 (reclaimedBytes l + n))
    (youngBytes l) (controlBytes l) (unpublished l) (collectionRequested l).
Definition add_young (n : Z) (l : ledger) : ledger :=
  mkLedger (occupiedBytes l) (reservedBytes l) (residentPageBytes l) (totalAllocatedBytes l) (allocations l) (reclaimedBytes l)
    (u64 (youngBytes l + n)) (controlBytes l) (unpublished l) (collectionRequested l).
Definition add_control (n : Z) (l : ledger) : ledger :=
  mkLedger (occupiedBytes l) (reservedBytes l) (residentPageBytes l) (totalAllocatedBytes l) (allocations l) (reclaimedBytes l)
    (youngBytes l) (u64 (controlBytes l + n)) (unpublished l) (collectionRequested l).
Definition add_unpublished (n : Z) (l : ledger) : ledger :=
  mkLedger (occupiedBytes l) (reservedBytes l) (residentPageBytes l) (totalAllocatedBytes l) (allocations l) (reclaimedBytes l)
    (youngBytes l) (controlBytes l) (u32 (unpublished l + n)) (collectionRequested l).
Definition request_collection (b : bool) (l : ledger) : ledger :=
  mkLedger (occupiedBytes l) (reservedBytes l) (residentPageBytes l) (totalAllocatedBytes l) (allocations l) (reclaimedBytes l)
    (youngBytes l) (controlBytes l) (unpublished l) (collectionRequested l || b).

(** [*heap.object(s) = e]. *)
Definition set_object (s : Z) (e : managedObject) (h : managedHeap) : managedHeap :=
  mkHeap (alter (fun seg => <[Z.to_nat (s mod managedSegmentSize) := e]> seg) (Z.to_nat (s / managedSegmentSize)) (segments h))
    (pages h) (pendingCards h).

Definition meta (d : directory) (s : Z) : objectMeta := default zero_meta (metas d !! s).

Definition set_meta (s : Z) (x : objectMeta) (d : directory) : directory :=
  mkDirectory (freeSlots d) (occupied d) (youngSlots d) (nextSlot d) (<[s := x]> (metas d)).

Definition with_occupied (i : Z) (x : objectMeta) : objectMeta :=
  mkMeta (layout x) (count x) (logical x) (marked x) i (youngIndex x) (age x).
Definition with_young (i : Z) (x : objectMeta) : objectMeta :=
  mkMeta (layout x) (count x) (logical x) (marked x) (occupiedIndex x) i (age x).
Definition with_logical (n : Z) (x : objectMeta) : objectMeta :=
  mkMeta (layout x) (count x) n (marked x) (occupiedIndex x) (youngIndex x) (age x).
Definition with_obj_state (st : object_state) (e : managedObject) : managedObject :=
  mkObject st (obj_generation e) (obj_page e) (obj_offset e) (obj_size e) (obj_young e).

(** ** Errors *)

Inductive alloc_error : Type :=
| InvalidLayout
| errManagedCollection
| errManagedLimit
| StaleReference
| AllocPanic.

#[export] Instance alloc_error_eq_dec : EqDecision alloc_error.
Proof. solve_decision. Defined.

Definition allocM (A : Type) : Type := allocator -> result alloc_error A * allocator.

Definition alloc_return {A} (x : A) : allocM A := fun a => (Ok x, a).
Definition alloc_throw {A} (e : alloc_error) : allocM A := fun a => (Err e, a).
Definition alloc_bind {A B} (m : allocM A) (k : A -> allocM B) : allocM B :=
  fun a => match m a with (Ok x, a1) => k x a1 | (Err e, a1) => (Err e, a1) end.
Definition modify (f : allocator -> allocator) : allocM unit := fun a => (Ok tt, f a).

Notation "'let@' x := m 'in' k" := (alloc_bind m (fun x => k))
  (at level 10, x binder, m at level 150, k at level 200, format "'[v' 'let@'  x  :=  m  'in' '/' k ']'") : go_scope.

(** An index or a pointer that must exist. *)
Definition must {A} (x : option A) : allocM A := match x with Some y => alloc_return y | None => alloc_throw AllocPanic end.
Definition gets {A} (f : allocator -> option A) : allocM A := fun a => must (f a) a.

(** ** Layouts *)

(** [slices.IsSorted]. *)
Fixpoint is_sorted (l : list Z) : bool :=
  match l with
  | x :: ((y :: _) as l') => (x <=? y) && is_sorted l'
  | _ => true
  end.

Definition sort_offsets (l : list Z) : list Z := if is_sorted l then l else merge_sort Z.le l.

(** The checks of one group of offsets: [width] bytes inside the stride, and a relation to the offset before. *)
Fixpoint check_offsets (width stride : Z) (clash : Z -> Z -> bool) (previous : option Z) (l : list Z) : bool :=
  match l with
  | [] => true
  | offset :: l' =>
      negb (stride <? offset + width) && negb (match previous with Some p => clash p offset | None => false end)
      && check_offsets width stride clash (Some offset) l'
  end.

Definition overlaps_reference (refs : list Z) (offset : Z) : bool :=
  existsb (fun reference => (reference <? offset + 24) && (offset <? reference + 8)) refs.

Definition layout_valid (l : managedLayout) : bool :=
  check_offsets 4 (lstride l) (fun p o => o =? p) None (types l)
  && check_offsets 8 (lstride l) (fun p o => o <? u32 (p + 8)) None (references l)
  && check_offsets 24 (lstride l) (fun p o => o <? u32 (p + 24)) None (dynamics l)
  && negb (existsb (overlaps_reference (references l)) (dynamics l)).

Definition admitResident (bytes : Z) (a : allocator) : bool * allocator :=
  let used := residentPageBytes (led a) in
  if (u64 (MaxInt64 - used) <? bytes)
     || negb (maxResidentBytes (conf a) =? 0) && (maxResidentBytes (conf a) - Z.min (maxResidentBytes (conf a)) used <? bytes)
  then (false, a)
  else (true, set_led (add_resident bytes) a).

(** [if !heap.admitResident(bytes) { return errManagedLimit }]. *)
Definition admits (bytes : Z) : allocM unit :=
  fun a => match admitResident bytes a with (true, a1) => (Ok tt, a1) | (false, a1) => (Err errManagedLimit, a1) end.

Definition sizeof_layout : Z := 80 + 16.

Definition registerLayout (l0 : managedLayout) : allocM Z := fun a =>
  let l := mkLayout (lstride l0) (typeID l0) (sort_offsets (references l0)) (sort_offsets (dynamics l0)) (sort_offsets (types l0)) in
  if (lstride l0 =? 0) || negb (layout_valid l) || closed (conf a) then (Err InvalidLayout, a)
  else
    match list_find (fun previous => previous = l) (drop 1 (layouts a)) with
    | Some (i, _) =>
        (Ok (Z.of_nat (S i)),
         set_layouts (layouts a) (alter (fun o => mkOwner (u32 (pins o + 1)) (owner_marked o)) (S i) (layoutOwners a)) a)
    | None =>
        let available := list_find (fun previous => lstride previous = 0) (drop 1 (layouts a)) in
        let bytes := Z.of_nat (length (references l) + length (dynamics l) + length (types l)) * 4 in
        match available with
        | Some (i, _) =>
            (let@ _ := admits bytes in
             let@ _ := modify (fun a => set_layouts (<[S i := l]> (layouts a)) (<[S i := mkOwner 1 0]> (layoutOwners a)) a) in
             alloc_return (Z.of_nat (S i))) a
        | None =>
            (let@ _ := admits (bytes + sizeof_layout) in
             let@ _ := modify (fun a => set_layouts (layouts a ++ [l]) (layoutOwners a ++ [mkOwner 1 0]) a) in
             alloc_return (Z.of_nat (length (layouts a)))) a
        end
    end.

Definition releaseLayout (id : Z) (a : allocator) : allocator :=
  if negb (closed (conf a)) && negb (id =? 0) && (id <? Z.of_nat (length (layoutOwners a)))
     && negb (match layoutOwners a !! Z.to_nat id with Some o => pins o =? 0 | None => true end)
  then set_layouts (layouts a) (alter (fun o => mkOwner (pins o - 1) (owner_marked o)) (Z.to_nat id) (layoutOwners a)) a
  else a.

(** ** The object directory *)

Definition sizeof_segment : Z := managedSegmentSize * 64.

Definition grow_vector (capacity cap : Z) : Z := if cap <? capacity then Z.max capacity (cap * 2) else cap.

Definition growDirectory : allocM unit := fun a =>
  let n := Z.of_nat (length (segments (mem a))) in
  let capacity := (n + 1) * managedSegmentSize in
  let segmentCapacity := if capSegments (caps a) <? n + 1 then Z.max (n + 1) (capSegments (caps a) * 2) else capSegments (caps a) in
  let vectors := map (grow_vector capacity) (capVectors (caps a)) in
  let bytes := sizeof_segment + (segmentCapacity - capSegments (caps a)) * 8
               + foldr Z.add 0 (zip_with (fun new old => (new - old) * 4) vectors (capVectors (caps a))) in
  (let@ _ := admits bytes in
   modify (fun a =>
     set_caps (mkCapacities segmentCapacity vectors)
       (set_mem (mkHeap (segments (mem a) ++ [replicate 256 zero_object]) (pages (mem a)) (pendingCards (mem a))) a))) a.

(** ** Pages *)

(** [bits.TrailingZeros32] of a non-zero word and [bits.Len32]. *)
Definition trailing_zeros (x : Z) : Z := Z.log2 (Z.land x (- x)).
Definition bit_len (x : Z) : Z := if x =? 0 then 0 else Z.log2 x + 1.

Definition managedPageCost (size : Z) (k : page_kind) (class : Z) : Z :=
  match k with
  | managedOldPage => size + size / class * 8 + u32 (size + managedCardBytes - 1) / managedCardBytes * 4
  | managedLargePage => size + 4 + (size + managedCardBytes - 1) / managedCardBytes * 4
  | _ => size
  end.

Definition page_cards (size : Z) (k : page_kind) : Z :=
  match k with managedOldPage | managedLargePage => (size + managedCardBytes - 1) / managedCardBytes | _ => 0 end.

Definition page_header : Z := 136 + 8 + 4 + 14 * 4.

(** The contents of a new page and its metadata. *)
Definition fresh_page (size : Z) (k : page_kind) : managedPage :=
  mkPage (replicate (Z.to_nat size) 0) (replicate (Z.to_nat (page_cards size k)) 0).

Definition fresh_meta (size : Z) (k : page_kind) (class capacity : Z) : pageMeta :=
  let bytes := managedPageCost size k class in
  let cards := Z.max capacity (page_cards size k) in
  match k with
  | managedOldPage => mkPageMeta (replicate (Z.to_nat (size / class)) 0) (seqZ 0 (size / class)) 0 class 0 cards k bytes false
  | managedLargePage => mkPageMeta [0] [] 0 class 0 cards k bytes false
  | _ => mkPageMeta [] [] 0 class 0 cards k bytes false
  end.

Definition put_page (id : Z) (p : managedPage) (x : pageMeta) (a : allocator) : allocator :=
  let g := pgs a in
  set_mem (mkHeap (segments (mem a)) (<[Z.to_nat id := p]> (pages (mem a))) (pendingCards (mem a)))
    (set_pgs (mkPaging (<[Z.to_nat id := x]> (pmetas g)) (freePages g) (nurseryPages g) (oldAvailable g) (nurseryCapacity g)) a).

(** The address of the new page: a free one, or a new entry of the page directory. *)
Definition take_page : allocM Z := fun a =>
  let g := pgs a in
  match freePages g with
  | id :: rest => (Ok id, set_pgs (mkPaging (pmetas g) rest (nurseryPages g) (oldAvailable g) (nurseryCapacity g)) a)
  | [] =>
      let id := u32 (Z.of_nat (length (pages (mem a)))) in
      (Ok id,
       set_mem (mkHeap (segments (mem a)) (pages (mem a) ++ [mkPage [] []]) (pendingCards (mem a)))
         (set_pgs (mkPaging (pmetas g ++ [zero_page]) [] (nurseryPages g) (oldAvailable g) (nurseryCapacity g)) a))
  end.

Definition page_meta (a : allocator) (id : Z) : option pageMeta := nth_of (pmetas (pgs a)) id.

(** [heap.oldAvailable[class] = append(heap.oldAvailable[class], id)]. *)
Definition push_available (i id : Z) : allocM unit := fun a =>
  let g := pgs a in
  match nth_of (oldAvailable g) i with
  | Some l => (Ok tt, set_pgs (mkPaging (pmetas g) (freePages g) (nurseryPages g) (<[Z.to_nat i := l ++ [id]]> (oldAvailable g)) (nurseryCapacity g)) a)
  | None => (Err AllocPanic, a)
  end.

Definition newPage (size : Z) (k : page_kind) (class : Z) (preadmitted : bool) : allocM Z := fun a =>
  let free := freePages (pgs a) in
  let header := match free with [] => page_header | _ => 0 end in
  (let@ capacity := match free with [] => alloc_return 0 | id :: _ => let@ x := must (page_meta a id) in alloc_return (cardCapacity x) end in
   let growth := Z.max 0 (page_cards size k - capacity) in
   let@ _ := if preadmitted then alloc_return tt else admits (managedPageCost size k class + header + growth * 8) in
   let@ id := take_page in
   let@ _ := modify (put_page id (fresh_page size k) (fresh_meta size k class capacity)) in
   let@ _ := match k with managedOldPage => push_available (trailing_zeros class - 3) id | _ => alloc_return tt end in
   alloc_return id) a.

(** The first nursery page with room that no worker holds. *)
Fixpoint find_nursery (size : Z) (ids : list Z) : allocM (option Z) :=
  match ids with
  | [] => alloc_return None
  | id :: ids' =>
      let@ page := gets (fun a => nth_of (pages (mem a)) id) in
      let@ x := gets (fun a => page_meta a id) in
      if negb (leased x) && (size <=? u32 (u32 (Z.of_nat (length (data page))) - used x)) then alloc_return (Some id)
      else find_nursery size ids'
  end.

Definition set_partner (id other : Z) (a : allocator) : allocator :=
  let g := pgs a in
  set_pgs (mkPaging (alter (fun x => mkPageMeta (entries x) (pfree x) (used x) (pclass x) other (cardCapacity x) (kind x) (resident x) (leased x))
                       (Z.to_nat id) (pmetas g)) (freePages g) (nurseryPages g) (oldAvailable g) (nurseryCapacity g)) a.

Definition nurseryPage (size : Z) : allocM Z := fun a =>
  (let@ found := find_nursery size (nurseryPages (pgs a)) in
   match found with
   | Some id => alloc_return id
   | None =>
       let@ _ := modify (set_led (request_collection (nurseryLimit (conf a) <? nurseryCapacity (pgs a) + managedPageBytes))) in
       let@ _ := admits (2 * managedPageBytes + Z.max 0 (2 - Z.of_nat (length (freePages (pgs a)))) * page_header + 4) in
       let@ pageID := newPage managedPageBytes managedYoungPage 0 true in
       let@ spare := newPage managedPageBytes managedSparePage 0 true in
       let@ _ := modify (fun a =>
         let b := set_partner spare pageID (set_partner pageID spare a) in
         let g := pgs b in
         set_pgs (mkPaging (pmetas g) (freePages g) (nurseryPages g ++ [pageID]) (oldAvailable g) (nurseryCapacity g + managedPageBytes)) b) in
       alloc_return pageID
   end) a.

(** ** Guest bytes *)

Definition admitGuestBytes (n : Z) : allocM unit := fun a =>
  let used := u64 (occupiedBytes (led a) + reservedBytes (led a)) in
  if (MaxInt64 <? used) || (MaxInt64 - used <? n)
     || negb (maxGuestBytes (conf a) =? 0) && (maxGuestBytes (conf a) - Z.min (maxGuestBytes (conf a)) used <? n)
  then (Err errManagedCollection, a) else (Ok tt, a).

(** ** Reservations *)

(** The slots whose generations are used up are retired before one is reused. *)
Fixpoint retire_slots (h : managedHeap) (l : list Z) : result alloc_error (list Z) :=
  match l with
  | [] => Ok []
  | s :: l' =>
      match object h s with
      | Some e => if obj_generation e =? MaxUint32 then retire_slots h l' else Ok l
      | None => Err AllocPanic
      end
  end.

Definition set_free_slots (l : list Z) (a : allocator) : allocator :=
  let d := dir a in set_dir (mkDirectory l (occupied d) (youngSlots d) (nextSlot d) (metas d)) a.

Definition retire : allocM unit := fun a =>
  match retire_slots (mem a) (freeSlots (dir a)) with
  | Ok l => (Ok tt, set_free_slots l a)
  | Err e => (Err e, a)
  end.

Definition take_slot : allocM Z := fun a =>
  let d := dir a in
  match freeSlots d with
  | s :: rest => (Ok s, set_free_slots rest a)
  | [] => (Ok (nextSlot d), set_dir (mkDirectory [] (occupied d) (youngSlots d) (u32 (nextSlot d + 1)) (metas d)) a)
  end.

(** [page.used += size], and the entry of a large page. *)
Definition occupy_page (id size : Z) (young : bool) (s : Z) : allocM unit := fun a =>
  let g := pgs a in
  match page_meta a id with
  | Some x =>
      let es := if young then entries x else <[0%nat := s]> (entries x) in
      (Ok tt, set_pgs (mkPaging (<[Z.to_nat id := mkPageMeta es (pfree x) (u32 (used x + size)) (pclass x) (partner x) (cardCapacity x) (kind x) (resident x) (leased x)]>
                                  (pmetas g)) (freePages g) (nurseryPages g) (oldAvailable g) (nurseryCapacity g)) a)
  | None => (Err AllocPanic, a)
  end.

(** [clear(page.data[offset : offset+size])]. *)
Definition clear_payload (id offset size : Z) : allocM unit := fun a =>
  match nth_of (pages (mem a)) id with
  | Some page =>
      match copy_to (data page) offset (u32 (offset + size)) (replicate (Z.to_nat size) 0) with
      | Ok bytes => (Ok tt, set_mem (set_data (mem a) id bytes) a)
      | Err _ => (Err AllocPanic, a)
      end
  | None => (Err AllocPanic, a)
  end.

(** The page and offset of a young object; promotion space for its size class is admitted beforehand. *)
Definition place_young (size : Z) : allocM (Z * Z) :=
  let@ pageID := nurseryPage size in
  let@ x := gets (fun a => page_meta a pageID) in
  let class := Z.shiftl 1 (Z.max 3 (bit_len (size - 1))) in
  let@ available := gets (fun a => nth_of (oldAvailable (pgs a)) (trailing_zeros class - 3)) in
  let@ _ := (fun a => match available with
                      | [] => match newPage managedPageBytes managedOldPage class false a with
                              | (Err AllocPanic, a1) => (Err AllocPanic, a1)
                              | (_, a1) => (Ok tt, a1)
                              end
                      | _ => (Ok tt, a)
                      end) in
  alloc_return (pageID, used x).

Definition object_bytes (physical : Z) : Z := u32 (Z.max 8 (Z.ldiff (u64 (physical + 7)) 7)).

(** A slot of the directory for the object: a free one, or the next one, for which the directory may grow. *)
Definition ready_slot : allocM unit := fun a =>
  if bool_decide (freeSlots (dir a) = []) && (Z.of_nat (length (segments (mem a))) <=? nextSlot (dir a) / managedSegmentSize)
  then if nextSlot (dir a) =? MaxUint32 then (Err errManagedLimit, a) else growDirectory a
  else (Ok tt, a).

(** The object at its place, zeroed and reserved. *)
Definition install (lay cnt n pageID offset size : Z) (young : bool) : allocM nat :=
  let@ s := take_slot in
  let@ e := gets (fun a => object (mem a) s) in
  let generation := u32 (obj_generation e + 1) in
  let@ _ := modify (fun a =>
    set_dir (set_meta s (mkMeta lay cnt n 0 (occupiedIndex (meta (dir a) s)) (youngIndex (meta (dir a) s)) 0) (dir a))
      (set_mem (set_object s (mkObject managedReserved generation pageID offset size young) (mem a)) a)) in
  let@ _ := clear_payload pageID offset size in
  let@ _ := occupy_page pageID size young s in
  let@ _ := modify (set_led (fun l => add_unpublished 1 (add_reserved n l))) in
  fun a => (Ok (length (reservations a)), set_reservations (reservations a ++ [mkReservation (mkRef s generation) false]) a).

Definition place (size : Z) (young : bool) : allocM (Z * Z) :=
  if young then place_young size else let@ id := newPage size managedLargePage 0 false in alloc_return (id, 0).

Definition reserve (lay cnt logicalBytes : Z) : allocM nat := fun a =>
  match nth_of (layouts a) lay with
  | None => (Err InvalidLayout, a)
  | Some l =>
      if closed (conf a) || (lay =? 0) || (lstride l =? 0) then (Err InvalidLayout, a)
      else
        let physical := lstride l * cnt in
        if (MaxInt64 <? logicalBytes) || (MaxUint32 - 7 <? physical) then (Err errManagedLimit, a)
        else
          let size := object_bytes physical in
          let young := size <=? managedPageBytes / 4 in
          (let@ _ := admitGuestBytes logicalBytes in
           let@ _ := retire in
           let@ _ := ready_slot in
           let@ at_ := place size young in
           install lay cnt logicalBytes (fst at_) (snd at_) size young) a
  end.

Definition finish (r : nat) (a : allocator) : allocator :=
  set_reservations (alter (fun x => mkReservation (res_ref x) true) r (reservations a)) a.

(** [reservation.bytes()[offset:]] as the destination of a copy of [b]. *)
Definition fill (r : nat) (offset : Z) (b : gostring) : allocM unit := fun a =>
  match reservations a !! r with
  | Some x =>
      if res_done x then (Err AllocPanic, a)
      else
        match object (mem a) (slot (res_ref x)) with
        | Some e =>
            match nth_of (pages (mem a)) (obj_page e) with
            | Some page =>
                if (0 <=? offset) && (offset + Z.of_nat (length b) <=? obj_size e)
                then match copy_to (data page) (u32 (obj_offset e + offset)) (u32 (obj_offset e + offset + Z.of_nat (length b))) b with
                     | Ok bytes => (Ok tt, set_mem (set_data (mem a) (obj_page e) bytes) a)
                     | Err _ => (Err AllocPanic, a)
                     end
                else (Err AllocPanic, a)
            | None => (Err AllocPanic, a)
            end
        | None => (Err AllocPanic, a)
        end
  | None => (Err AllocPanic, a)
  end.

Definition push_occupied (s : Z) (young : bool) (d : directory) : directory :=
  let x := with_occupied (u32 (Z.of_nat (length (occupied d)))) (meta d s) in
  let x := if young then with_young (u32 (Z.of_nat (length (youngSlots d)))) x else x in
  mkDirectory (freeSlots d) (occupied d ++ [s]) (if young then youngSlots d ++ [s] else youngSlots d) (nextSlot d) (<[s := x]> (metas d)).

Definition commit (r : nat) : allocM guestRef := fun a =>
  match reservations a !! r with
  | Some x =>
      if res_done x then (Err AllocPanic, a)
      else
        let s := slot (res_ref x) in
        match object (mem a) s with
        | None => (Err AllocPanic, a)
        | Some e =>
            let n := logical (meta (dir a) s) in
            let a1 := set_dir (push_occupied s (obj_young e) (dir a)) a in
            let a2 := set_led (fun l =>
              let l := if obj_young e then add_young n l else l in
              let l := add_allocated n (add_occupied n (add_reserved (- n) l)) in
              add_unpublished (-1) (request_collection (nextMajorBytes (conf a) <=? occupiedBytes l) l)) a1 in
            let e' := with_obj_state managedPublished e in
            let a3 := finish r (set_mem (set_object s e' (mem a2)) a2) in
            if obj_young e then (Ok (res_ref x), a3)
            else
              match dirtyRegion (mem a3) e' 0 (obj_size e') with
              | Ok h => (Ok (res_ref x), set_mem h a3)
              | Err _ => (Err AllocPanic, a3)
              end
        end
  | None => (Err AllocPanic, a)
  end.

(** ** Release *)

(** The slot leaves its old or large page. *)
Definition vacate_page (e : managedObject) : allocM unit := fun a =>
  let id := obj_page e in
  match page_meta a id with
  | None => (Err AllocPanic, a)
  | Some x =>
      let put es free u a :=
        let g := pgs a in
        set_pgs (mkPaging (<[Z.to_nat id := mkPageMeta es free u (pclass x) (partner x) (cardCapacity x) (kind x) (resident x) (leased x)]> (pmetas g))
                   (freePages g) (nurseryPages g) (oldAvailable g) (nurseryCapacity g)) a in
      if obj_young e then (Ok tt, a)
      else if bool_decide (kind x = managedOldPage) then
        let index := obj_offset e / pclass x in
        (let@ _ := must (nth_of (entries x) index) in
         let@ _ := match pfree x with [] => push_available (trailing_zeros (pclass x) - 3) id | _ => alloc_return tt end in
         modify (put (<[Z.to_nat index := 0]> (entries x)) (index :: pfree x) (u32 (used x - pclass x)))) a
      else
        (let@ _ := must (entries x !! 0%nat) in
         modify (put (<[0%nat := 0]> (entries x)) (pfree x) 0)) a
  end.

(** The last element of [l] moves to [index]. *)
Definition swap_remove (l : list Z) (index : Z) : option (Z * list Z) :=
  x ← last l;
  if (0 <=? index) && (index <? Z.of_nat (length l))
  then Some (x, take (length l - 1) (<[Z.to_nat index := x]> l)) else None.

Definition remove_occupied (s : Z) (d : directory) : option directory :=
  let index := occupiedIndex (meta d s) in
  '(x, l) ← swap_remove (occupied d) index;
  Some (mkDirectory (freeSlots d) l (youngSlots d) (nextSlot d) (<[x := with_occupied index (meta d x)]> (metas d))).

Definition remove_young (s : Z) (d : directory) : option directory :=
  let index := youngIndex (meta d s) in
  '(x, l) ← swap_remove (youngSlots d) index;
  Some (mkDirectory (freeSlots d) (occupied d) l (nextSlot d) (<[x := with_young index (meta d x)]> (metas d))).

Definition freeObject (s : Z) (published : bool) : allocM unit := fun a =>
  match object (mem a) s with
  | None => (Ok tt, a)
  | Some e =>
      if bool_decide (obj_state e = managedFree) then (Ok tt, a)
      else
        let n := logical (meta (dir a) s) in
        (let@ _ := vacate_page e in
         let@ _ := if published then
                     let@ _ := modify (set_led (add_occupied (- n))) in
                     let@ d := gets (fun a => remove_occupied s (dir a)) in
                     let@ _ := modify (set_dir d) in
                     if obj_young e then
                       let@ _ := modify (set_led (add_young (- n))) in
                       let@ d := gets (fun a => remove_young s (dir a)) in
                       modify (set_dir d)
                     else alloc_return tt
                   else alloc_return tt in
         let@ _ := modify (fun a =>
           set_dir (set_meta s (with_logical 0 (meta (dir a) s)) (dir a)) (set_mem (set_object s (with_obj_state managedFree e) (mem a)) a)) in
         if negb (obj_generation e =? MaxUint32) then modify (fun a => set_free_slots (s :: freeSlots (dir a)) a) else alloc_return tt) a
  end.

Definition abort (r : nat) : allocM unit := fun a =>
  match reservations a !! r with
  | Some x =>
      if res_done x then (Ok tt, a)
      else
        let s := slot (res_ref x) in
        match object (mem a) s with
        | None => (Err AllocPanic, a)
        | Some _ =>
            (let@ _ := modify (set_led (fun l => add_unpublished (-1) (add_reserved (- logical (meta (dir a) s)) l))) in
             let@ _ := freeObject s false in
             modify (finish r)) a
        end
  | None => (Err AllocPanic, a)
  end.

Definition release (ref : guestRef) : allocM unit := fun a =>
  match resolveObject (mem a) ref with
  | Err _ => (Err StaleReference, a)
  | Ok _ =>
      (let@ _ := modify (set_led (add_reclaimed (logical (meta (dir a) (slot ref))))) in
       freeObject (slot ref) true) a
  end.

(** ** Control storage *)

Definition reserveControl (n : Z) : allocM (option nat) := fun a =>
  if n =? 0 then (Ok None, a)
  else if closed (conf a) || (MaxInt64 <? n) then (Err errManagedLimit, a)
  else
    (let@ _ := admitGuestBytes n in
     let@ _ := modify (set_led (add_reserved n)) in
     fun a => (Ok (Some (length (controls a))), set_controls (controls a ++ [Some n]) a)) a.

Definition commitControl (c : nat) (a : allocator) : allocator :=
  match controls a !! c with
  | Some (Some n) =>
      set_controls (<[c := None]> (controls a))
        (set_led (fun l =>
           let l := add_control n (add_allocated n (add_occupied n (add_reserved (- n) l))) in
           request_collection (nextMajorBytes (conf a) <=? occupiedBytes l) l) a)
  | _ => a
  end.

Definition abortControl (c : nat) (a : allocator) : allocator :=
  match controls a !! c with
  | Some (Some n) => set_controls (<[c := None]> (controls a)) (set_led (add_reserved (- n)) a)
  | _ => a
  end.

Definition releaseControl (n : Z) (a : allocator) : allocator :=
  if n =? 0 then a
  else
    let n := if controlBytes (led a) <? n then controlBytes (led a) else n in
    set_led (fun l => add_reclaimed n (add_occupied (- n) (add_control (- n) l))) a.

(** ** Executions *)

(** What the owner and the guest do, in any order. *)
Inductive op : Type :=
| Register (l : managedLayout)
| Unregister (id : Z)
| Reserve (lay cnt n : Z)
| Fill (r : nat) (offset : Z) (b : gostring)
| Commit (r : nat)
| Abort (r : nat)
| Release (ref : guestRef)
| Store (ref : guestRef) (offset : Z) (b : gostring)
| ReserveControl (n : Z)
| CommitControl (c : nat)
| AbortControl (c : nat)
| ReleaseControl (n : Z).

(** An access through [Heap] inside the allocator's state. *)
Definition access (f : managedHeap -> result heap_error managedHeap) : allocM unit := fun a =>
  match f (mem a) with
  | Ok h => (Ok tt, set_mem h a)
  | Err Panic => (Err AllocPanic, a)
  | Err _ => (Err StaleReference, a)
  end.

Definition void {A} (m : allocM A) : allocM unit := let@ _ := m in alloc_return tt.

Definition exec (o : op) : allocM unit :=
  match o with
  | Register l => void (registerLayout l)
  | Unregister id => modify (releaseLayout id)
  | Reserve lay cnt n => void (reserve lay cnt n)
  | Fill r offset b => fill r offset b
  | Commit r => void (commit r)
  | Abort r => abort r
  | Release ref => release ref
  | Store ref offset b => access (fun h => write h ref offset b)
  | ReserveControl n => void (reserveControl n)
  | CommitControl c => modify (commitControl c)
  | AbortControl c => modify (abortControl c)
  | ReleaseControl n => modify (releaseControl n)
  end.
