(* ===== verification/AllocatorSafe.v ===== *)
(** * Safety of the allocator (src/runtime/managed_heap.go)

    The invariant of the allocator's state and its preservation by every operation of [Allocator]: live
    objects lie in their pages and do not overlap, the lists of slots describe the directory exactly, free
    slots have a generation left, and the ledger counts the bytes of live objects and of pending
    reservations.  From it follow that every heap reached is a heap of [Heap] ([heap_ok]), that the budgets
    hold, and that a reference that was released never resolves again. *)

From S2P Require Import Prelude GoStd GoBytes Heap Allocator.

#[local] Arguments Z.to_nat : simpl never.

(** ** The object directory *)

Definition full_segments (h : managedHeap) : Prop := Forall (fun seg => length seg = 256%nat) (segments h).

Lemma object_inv h s e : object h s = Some e ->
  s <> 0 /\ 0 <= s / 256 /\ exists seg, segments h !! Z.to_nat (s / 256) = Some seg /\ seg !! Z.to_nat (s mod 256) = Some e.
Proof.
  unfold object, nth_of, managedSegmentSize. destruct ((s =? 0) || _) eqn:E; [done|]. breflect.
  destruct (s / 256 <? 0) eqn:E1; [done|]. breflect. destruct (segments h !! _) as [seg|] eqn:Es; [|done]. cbn [mbind option_bind].
  destruct (s mod 256 <? 0); [done|]. intros He. split; [lia|]. split; [lia|]. by exists seg.
Qed.

Lemma object_pos h s e : object h s = Some e -> 0 < s.
Proof. intros (H0 & Hd & _)%object_inv. pose proof (div_mod_pos s 256 ltac:(lia)). lia. Qed.

Lemma object_at h s seg e :
  0 < s -> segments h !! Z.to_nat (s / 256) = Some seg -> seg !! Z.to_nat (s mod 256) = Some e -> object h s = Some e.
Proof.
  intros Hs Hseg He. pose proof (Z.div_pos s 256 ltac:(lia) ltac:(lia)) as Hd. pose proof (Z.mod_pos_bound s 256 ltac:(lia)) as Hm.
  pose proof (lookup_lt_Some _ _ _ Hseg) as Hlt. unfold object, nth_of, managedSegmentSize.
  rewrite (proj2 (Z.eqb_neq s 0)), (proj2 (Z.leb_gt _ _)) by lia. cbn [orb]. rewrite (proj2 (Z.ltb_ge _ _)), Hseg by lia.
  cbn [mbind option_bind]. by rewrite (proj2 (Z.ltb_ge _ _)) by lia.
Qed.

(** A slot is its segment and its place there. *)
Lemma slot_split s s' : 0 <= s -> 0 <= s' ->
  Z.to_nat (s / 256) = Z.to_nat (s' / 256) -> Z.to_nat (s mod 256) = Z.to_nat (s' mod 256) -> s = s'.
Proof.
  intros Hs Hs' E1 E2. pose proof (div_mod_pos s 256 ltac:(lia)). pose proof (div_mod_pos s' 256 ltac:(lia)).
  pose proof (Z.div_pos s 256). pose proof (Z.div_pos s' 256). lia.
Qed.

Lemma object_set h s e0 e s' :
  object h s = Some e0 -> object (set_object s e h) s' = if decide (s' = s) then Some e else object h s'.
Proof.
  intros H. pose proof (object_pos _ _ _ H) as Hs. apply object_inv in H as (_ & Hd & seg & Hseg & He).
  assert (segments (set_object s e h) !! Z.to_nat (s / 256) = Some (<[Z.to_nat (s mod 256) := e]> seg)) as Hseg'.
  { unfold set_object, managedSegmentSize. cbn [segments]. by rewrite list_lookup_alter_eq, Hseg. }
  case_decide as E.
  - subst s'. eapply object_at; [done|exact Hseg'|]. apply list_lookup_insert_eq. by eapply lookup_lt_Some.
  - destruct (object h s') as [e'|] eqn:E'.
    + pose proof (object_pos _ _ _ E') as Hs'. apply object_inv in E' as (_ & Hd' & seg' & Hseg'' & He').
      destruct (decide (Z.to_nat (s' / 256) = Z.to_nat (s / 256))) as [Eq|Ne].
      * rewrite Eq in Hseg''. assert (seg' = seg) as -> by congruence. eapply object_at; [done|rewrite Eq; exact Hseg'|].
        rewrite list_lookup_insert_ne; [done|]. intros Em. apply E. by apply slot_split; [lia|lia|done|].
      * eapply object_at; [done| |exact He']. unfold set_object, managedSegmentSize. cbn [segments]. by rewrite list_lookup_alter_ne.
    + destruct (object (set_object s e h) s') as [e'|] eqn:E''; [|done]. exfalso.
      pose proof (object_pos _ _ _ E'') as Hs'. apply object_inv in E'' as (_ & Hd' & seg' & Hseg'' & He').
      destruct (decide (Z.to_nat (s' / 256) = Z.to_nat (s / 256))) as [Eq|Ne].
      * rewrite Eq, Hseg' in Hseg''. injection Hseg'' as <-. apply list_lookup_insert_Some in He' as [(Em & _)|(Em & He')].
        { apply E. by apply slot_split; [lia|lia|done|]. }
        rewrite (object_at h s' seg e') in E'; [done|done|by rewrite Eq|done].
      * unfold set_object, managedSegmentSize in Hseg''. cbn [segments] in Hseg''. rewrite list_lookup_alter_ne in Hseg'' by done.
        by rewrite (object_at h s' seg' e') in E'.
Qed.

Lemma full_set_object h s e : full_segments h -> full_segments (set_object s e h).
Proof.
  unfold full_segments, set_object. cbn [segments]. intros H. apply Forall_alter; [done|]. intros seg _ Hl. by rewrite length_insert.
Qed.

(** A new segment of unused objects. *)
Lemma object_grow h s :
  full_segments h ->
  let h' := mkHeap (segments h ++ [replicate 256 zero_object]) (pages h) (pendingCards h) in
  (forall e, object h s = Some e -> object h' s = Some e) /\
  (object h s = None -> forall e, object h' s = Some e -> e = zero_object) /\
  (0 < s < 256 * (Z.of_nat (length (segments h)) + 1) -> is_Some (object h' s)).
Proof.
  intros Hf h'. assert (forall seg i, segments h !! i = Some seg -> segments h' !! i = Some seg) as Hl.
  { intros seg i Hi. cbn [h' segments]. by apply lookup_app_l_Some. }
  split; [|split].
  - intros e He. pose proof (object_pos _ _ _ He). apply object_inv in He as (_ & _ & seg & Hseg & He). by eapply object_at; [|apply Hl|].
  - intros Hn e He. pose proof (object_pos _ _ _ He). apply object_inv in He as (_ & _ & seg & Hseg & He). cbn [h' segments] in Hseg.
    apply lookup_app_Some in Hseg as [Hseg|[Hlen Hseg]].
    { by rewrite (object_at h s seg e) in Hn. }
    apply list_lookup_singleton_Some in Hseg as [_ <-]. by apply lookup_replicate in He as [-> _].
  - intros Hs. pose proof (Z.mod_pos_bound s 256 ltac:(lia)) as Hm. pose proof (Z.div_pos s 256 ltac:(lia) ltac:(lia)) as Hd.
    assert (s / 256 < Z.of_nat (length (segments h)) + 1) as Hq by (apply Z.div_lt_upper_bound; lia).
    destruct (lookup_lt_is_Some_2 (segments h') (Z.to_nat (s / 256))) as [seg Hseg].
    { cbn [h' segments]. rewrite length_app. cbn. lia. }
    assert (length seg = 256%nat) as Hlen.
    { cbn [h' segments] in Hseg. assert (Forall (fun x => length x = 256%nat) (segments h ++ [replicate 256 zero_object])) as Hf'.
      { apply Forall_app. split; [done|]. by apply Forall_singleton. }
      by apply (Forall_lookup_1 _ _ _ _ Hf' Hseg). }
    destruct (lookup_lt_is_Some_2 seg (Z.to_nat (s mod 256))) as [e He]; [lia|]. exists e. by apply (object_at _ _ seg); [lia| |].
Qed.

(** ** The invariant *)

Definition live (e : managedObject) : Prop := obj_state e <> managedFree.

Definition lives (h : managedHeap) (s : Z) (e : managedObject) : Prop := object h s = Some e /\ live e.

(** Where a live object lies on its page: below the bump pointer of a nursery page, alone on a large page,
    or in its own cell of an old page. *)
Definition in_place (s : Z) (e : managedObject) (x : pageMeta) : Prop :=
  if obj_young e then kind x = managedYoungPage /\ obj_offset e + obj_size e <= used x
  else (kind x = managedLargePage /\ obj_offset e = 0 /\ entries x !! 0%nat = Some s) \/
       (kind x = managedOldPage /\ exists k, 3 <= k <= 16 /\ pclass x = 2 ^ k /\ obj_size e <= 2 ^ k /\
          entries x !! Z.to_nat (obj_offset e / 2 ^ k) = Some s).

Record placed (h : managedHeap) (g : paging) (s : Z) (e : managedObject) : Prop := {
  at_numbers : 0 <= obj_page e /\ 0 <= obj_offset e /\ 0 <= obj_size e;
  at_page : exists p x, pages h !! Z.to_nat (obj_page e) = Some p /\ pmetas g !! Z.to_nat (obj_page e) = Some x /\
    obj_offset e + obj_size e <= Z.of_nat (length (data p)) /\
    (obj_young e = false -> Z.of_nat (length (data p)) <= managedCardBytes * Z.of_nat (length (cards p))) /\ in_place s e x
}.

Record pages_ok (h : managedHeap) (g : paging) : Prop := {
  pg_length : length (pmetas g) = length (pages h);
  pg_bytes : forall i p, pages h !! i = Some p -> Z.of_nat (length (data p)) < 2 ^ 32;
  pg_free_nodup : NoDup (freePages g);
  pg_free : forall id, id ∈ freePages g -> 0 <= id < Z.of_nat (length (pages h)) /\ (id ∉ nurseryPages g) /\
    forall s e, lives h s e -> obj_page e <> id;
  pg_nursery : forall id, id ∈ nurseryPages g -> 0 <= id /\ exists p x, pages h !! Z.to_nat id = Some p /\ pmetas g !! Z.to_nat id = Some x /\
    Z.of_nat (length (data p)) = managedPageBytes /\ kind x = managedYoungPage /\ 0 <= used x <= managedPageBytes;
  pg_available : length (oldAvailable g) = 14%nat;
  pg_placed : forall s e, lives h s e -> placed h g s e;
  pg_apart : forall s1 s2 e1 e2, lives h s1 e1 -> lives h s2 e2 -> s1 <> s2 -> apart e1 e2
}.

Record dir_ok (h : managedHeap) (d : directory) : Prop := {
  dir_full : full_segments h;
  dir_next : 1 <= nextSlot d;
  dir_known : forall s, 0 < s < nextSlot d -> is_Some (object h s);
  dir_unused : forall s e, nextSlot d <= s -> object h s = Some e -> e = zero_object;
  dir_free_nodup : NoDup (freeSlots d);
  dir_free : forall s, s ∈ freeSlots d -> 0 < s < nextSlot d /\ exists e, object h s = Some e /\ obj_state e = managedFree /\ obj_generation e < MaxUint32;
  dir_generation : forall s e, object h s = Some e -> 0 <= obj_generation e <= MaxUint32;
  dir_occupied : forall i s, occupied d !! i = Some s -> occupiedIndex (meta d s) = Z.of_nat i /\ exists e, object h s = Some e /\ obj_state e = managedPublished;
  dir_published : forall s e, object h s = Some e -> obj_state e = managedPublished -> s ∈ occupied d;
  dir_young : forall i s, youngSlots d !! i = Some s -> youngIndex (meta d s) = Z.of_nat i /\
    exists e, object h s = Some e /\ obj_state e = managedPublished /\ obj_young e = true;
  dir_young_all : forall s e, object h s = Some e -> obj_state e = managedPublished -> obj_young e = true -> s ∈ youngSlots d
}.

(** Every pending reservation holds a reserved object of its own. *)
Record reserved_ok (a : allocator) : Prop := {
  res_held : forall r x, reservations a !! r = Some x -> res_done x = false ->
    exists e, object (mem a) (slot (res_ref x)) = Some e /\ obj_state e = managedReserved /\ obj_generation e = generation (res_ref x);
  res_distinct : forall r r' x x', reservations a !! r = Some x -> reservations a !! r' = Some x' -> res_done x = false -> res_done x' = false ->
    slot (res_ref x) = slot (res_ref x') -> r = r'
}.

Definition sum (l : list Z) : Z := foldr Z.add 0 l.

Definition pending_bytes (a : allocator) : list Z :=
  map (fun x => if res_done x then 0 else logical (meta (dir a) (slot (res_ref x)))) (reservations a).

Definition control_bytes (a : allocator) : list Z := map (default 0) (controls a).

(** The guest ledger counts live objects, pending reservations and control storage, within the budgets. *)
Record ledger_ok (a : allocator) : Prop := {
  led_logical : forall s, 0 <= logical (meta (dir a) s);
  led_controls : Forall (fun n => 0 <= n) (control_bytes a);
  led_control : 0 <= controlBytes (led a);
  led_occupied : occupiedBytes (led a) = sum (map (fun s => logical (meta (dir a) s)) (occupied (dir a))) + controlBytes (led a);
  led_reserved : reservedBytes (led a) = sum (pending_bytes a) + sum (control_bytes a);
  led_young : youngBytes (led a) = sum (map (fun s => logical (meta (dir a) s)) (youngSlots (dir a)));
  led_word : occupiedBytes (led a) + reservedBytes (led a) <= MaxInt64;
  led_guest : maxGuestBytes (conf a) <> 0 -> occupiedBytes (led a) + reservedBytes (led a) <= maxGuestBytes (conf a);
  led_resident_word : 0 <= residentPageBytes (led a) <= MaxInt64;
  led_resident : maxResidentBytes (conf a) <> 0 -> residentPageBytes (led a) <= maxResidentBytes (conf a)
}.

(** After [n] operations. *)
Record bounded (n : Z) (a : allocator) : Prop := {
  bound_slots : nextSlot (dir a) <= 1 + n;
  bound_pages : Z.of_nat (length (pages (mem a))) <= 3 * n;
  bound_occupied : Z.of_nat (length (occupied (dir a))) <= n;
  bound_young : Z.of_nat (length (youngSlots (dir a))) <= n
}.

Record alloc_ok (n : Z) (a : allocator) : Prop := {
  ok_dir : dir_ok (mem a) (dir a);
  ok_pages : pages_ok (mem a) (pgs a);
  ok_reserved : reserved_ok a;
  ok_ledger : ledger_ok a;
  ok_bounded : bounded n a;
  ok_layouts : Forall (fun l => 0 <= lstride l < 2 ^ 32) (layouts a)
}.

(** ** The invariant and the heap *)

Lemma published_live h s e : object h s = Some e -> obj_state e = managedPublished -> lives h s e.
Proof. intros H E. split; [done|]. unfold live. by rewrite E. Qed.

Lemma pages_ok_heap h g : pages_ok h g -> heap_ok h.
Proof.
  intros G. split.
  - intros s e He Hp. destruct (pg_placed _ _ G s e) as [Hn (p & x & Hpage & _ & Hb & Hc & _)]; [by apply published_live|].
    split; [lia|]. exists p. split; [done|]. split; [done|]. split; [by eapply pg_bytes|done].
  - intros s1 s2 e1 e2 H1 H2 Hne P1 P2. by apply (pg_apart _ _ G s1 s2); [apply published_live..|].
Qed.

Lemma lives_segments h h' s e : segments h' = segments h -> lives h' s e <-> lives h s e.
Proof. intros E. unfold lives. by rewrite (object_segments h h' s E). Qed.

Lemma nth_of_nat {A} (l : list A) i x : nth_of l i = Some x <-> 0 <= i /\ l !! Z.to_nat i = Some x.
Proof. unfold nth_of. destruct (Z.ltb_spec i 0); split; intros; destruct_and?; (done || lia). Qed.

(** ** Pages *)

(** The part of the state that the page operations leave alone. *)
Record same_guest (a a' : allocator) : Prop := {
  sg_dir : dir a' = dir a;
  sg_segments : segments (mem a') = segments (mem a);
  sg_static : conf a' = conf a /\ layouts a' = layouts a /\ reservations a' = reservations a /\ controls a' = controls a;
  sg_ledger : occupiedBytes (led a') = occupiedBytes (led a) /\ reservedBytes (led a') = reservedBytes (led a) /\
    youngBytes (led a') = youngBytes (led a) /\ controlBytes (led a') = controlBytes (led a)
}.

Lemma same_guest_refl a : same_guest a a.
Proof. by split. Qed.

Lemma same_guest_trans a b c : same_guest a b -> same_guest b c -> same_guest a c.
Proof. intros [A1 A2 A3 A4] [B1 B2 B3 B4]. destruct_and!. split; [congruence|congruence|repeat split; congruence|repeat split; congruence]. Qed.

Definition resident_ok (a : allocator) : Prop :=
  0 <= residentPageBytes (led a) <= MaxInt64 /\
  (maxResidentBytes (conf a) <> 0 -> residentPageBytes (led a) <= maxResidentBytes (conf a)).

(** A page that holds something: it exists and is not free. *)
Definition in_use (a : allocator) (i : Z) : Prop := 0 <= i < Z.of_nat (length (pages (mem a))) /\ i ∉ freePages (pgs a).

(** The effect of page operations: at most [k] pages are added, and pages in use stay as they were. *)
Record paged (k : Z) (a a' : allocator) : Prop := {
  pd_guest : same_guest a a';
  pd_pages : pages_ok (mem a') (pgs a');
  pd_resident : resident_ok a -> resident_ok a';
  pd_count : Z.of_nat (length (pages (mem a'))) <= Z.of_nat (length (pages (mem a))) + k;
  pd_use : forall i, in_use a i -> in_use a' i /\ pages (mem a') !! Z.to_nat i = pages (mem a) !! Z.to_nat i /\
    pmetas (pgs a') !! Z.to_nat i = pmetas (pgs a) !! Z.to_nat i
}.

Lemma paged_refl a : pages_ok (mem a) (pgs a) -> paged 0 a a.
Proof. intros G. split; [apply same_guest_refl|done|done|lia|done]. Qed.

Lemma paged_trans j k a b c : paged j a b -> paged k b c -> paged (j + k) a c.
Proof.
  intros A B. split.
  - eapply same_guest_trans; [apply A|apply B].
  - apply B.
  - intros R. apply B, A, R.
  - pose proof (pd_count _ _ _ A). pose proof (pd_count _ _ _ B). lia.
  - intros i Hi. destruct (pd_use _ _ _ A i Hi) as (Ha & E1 & E2). destruct (pd_use _ _ _ B i Ha) as (Hb & F1 & F2).
    split; [done|]. split; congruence.
Qed.

Lemma paged_weaken j k a b : paged j a b -> j <= k -> paged k a b.
Proof. intros [] H. split; try done. lia. Qed.

(** Changes of the resident bytes and of the collection flag. *)
Lemma paged_ledger a f :
  pages_ok (mem a) (pgs a) ->
  (forall l, occupiedBytes (f l) = occupiedBytes l /\ reservedBytes (f l) = reservedBytes l /\ youngBytes (f l) = youngBytes l /\ controlBytes (f l) = controlBytes l) ->
  (resident_ok a -> resident_ok (set_led f a)) -> paged 0 a (set_led f a).
Proof.
  intros G Hf R. split; [|done|done|cbn; lia|by intros i Hi; split].
  split; [done|done|done|]. apply Hf.
Qed.

Lemma admits_spec bytes a : 0 <= bytes -> pages_ok (mem a) (pgs a) ->
  match admits bytes a with
  | (Ok _, a') => paged 0 a a' /\ a' = set_led (add_resident bytes) a
  | (Err e, a') => e <> AllocPanic /\ a' = a
  end.
Proof.
  intros Hb G. unfold admits, admitResident. case_if; [done|]. split; [|done]. apply paged_ledger; [done|done|].
  intros [Hr Hm]. unfold resident_ok. cbn [set_led led add_resident residentPageBytes conf]. unfold MaxInt64 in *.
  rewrite (u64_id (2 ^ 63 - 1 - _)) in * by lia. rewrite u64_id by lia. split; [lia|]. intros Hne. specialize (Hm Hne).
  destruct H0 as [H0|H0]; breflect; [done|]. lia.
Qed.

(** A page address that nothing uses. *)
Definition unused_page (a : allocator) (id : Z) : Prop :=
  0 <= id /\ (id ∈ freePages (pgs a) \/ id = Z.of_nat (length (pages (mem a)))).

Lemma unused_not_in_use a id i : unused_page a id -> in_use a i -> i <> id.
Proof. intros [_ [H|H]] [Hi Hf]; [by intros ->|lia]. Qed.

Lemma live_in_use a s e : pages_ok (mem a) (pgs a) -> lives (mem a) s e -> in_use a (obj_page e).
Proof.
  intros G Hl. destruct (pg_placed _ _ G s e Hl) as [(Hn & _) (p & x & Hp & _)]. apply lookup_lt_Some in Hp. split; [lia|].
  intros Hf. destruct (pg_free _ _ G _ Hf) as (_ & _ & H). by eapply H.
Qed.

Lemma nursery_in_use a id : pages_ok (mem a) (pgs a) -> id ∈ nurseryPages (pgs a) -> in_use a id.
Proof.
  intros G Hid. destruct (pg_nursery _ _ G id Hid) as (Hn & p & x & Hp & _). apply lookup_lt_Some in Hp. split; [lia|].
  intros Hf. destruct (pg_free _ _ G _ Hf) as (_ & H & _). done.
Qed.

(** The state after a page address was taken and its page written. *)
Lemma placed_frame h g h' g' s e :
  placed h g s e -> pages h' !! Z.to_nat (obj_page e) = pages h !! Z.to_nat (obj_page e) ->
  pmetas g' !! Z.to_nat (obj_page e) = pmetas g !! Z.to_nat (obj_page e) -> placed h' g' s e.
Proof. intros [Hn (p & x & Hp & Hx & H)] E1 E2. split; [done|]. exists p, x. by rewrite E1, E2. Qed.

(** The effect of [take_page]. *)
Record taken (a : allocator) (id : Z) (a1 : allocator) : Prop := {
  tk_unused : unused_page a id;
  tk_guest : same_guest a a1;
  tk_ledger : led a1 = led a;
  tk_gone : id ∉ freePages (pgs a1);
  tk_lists : nurseryPages (pgs a1) = nurseryPages (pgs a) /\ oldAvailable (pgs a1) = oldAvailable (pgs a);
  tk_nodup : NoDup (freePages (pgs a1));
  tk_subset : forall i, i ∈ freePages (pgs a1) -> i ∈ freePages (pgs a);
  tk_length : length (pmetas (pgs a1)) = length (pages (mem a1));
  tk_grown : (length (pages (mem a)) <= length (pages (mem a1)) <= S (length (pages (mem a))))%nat;
  tk_exists : (Z.to_nat id < length (pages (mem a1)))%nat;
  tk_others : forall i, i <> Z.to_nat id -> pages (mem a1) !! i = pages (mem a) !! i /\ pmetas (pgs a1) !! i = pmetas (pgs a) !! i
}.

Lemma lookup_snoc_ne {A} (l : list A) x i : i <> length l -> (l ++ [x]) !! i = l !! i.
Proof.
  intros H. destruct (decide (i < length l)%nat); [by rewrite lookup_app_l|].
  rewrite !lookup_ge_None_2; [done|lia|rewrite length_app; cbn; lia].
Qed.

Lemma take_page_spec a : pages_ok (mem a) (pgs a) -> Z.of_nat (length (pages (mem a))) < 2 ^ 32 ->
  exists id a1, take_page a = (Ok id, a1) /\ taken a id a1.
Proof.
  intros G Hlen. unfold take_page. pose proof (pg_length _ _ G) as Hl. pose proof (pg_free_nodup _ _ G) as Hnd. pose proof (pg_free _ _ G) as Hfr.
  destruct (freePages (pgs a)) as [|id rest] eqn:Ef.
  - rewrite u32_id by lia. eexists _, _. split; [done|]. split.
    + split; [lia|by right].
    + by split.
    + done.
    + apply not_elem_of_nil.
    + done.
    + apply NoDup_nil_2.
    + intros i Hi. by rewrite Ef.
    + cbn. rewrite !length_app. cbn. lia.
    + cbn. rewrite length_app. cbn. lia.
    + cbn. rewrite length_app, Nat2Z.id. cbn. lia.
    + intros i Hi. rewrite Nat2Z.id in Hi. cbn. by rewrite !lookup_snoc_ne by lia.
  - apply NoDup_cons in Hnd as [Hni Hnd]. destruct (Hfr id) as (Hr & _); [by left|].
    eexists _, _. split; [done|]. split; cbn; try done.
    + split; [lia|left; rewrite Ef; by left].
    + intros i Hi. rewrite Ef. by right.
    + lia.
    + lia.
Qed.

Lemma in_use_other a id i : unused_page a id -> in_use a i -> Z.to_nat i <> Z.to_nat id.
Proof. intros Hu Hi E. apply (unused_not_in_use _ _ _ Hu Hi). destruct Hu as [? _], Hi as [? _]. lia. Qed.

(** Writing a page at the address taken. *)
Lemma put_page_spec a id a1 p x :
  pages_ok (mem a) (pgs a) -> taken a id a1 -> Z.of_nat (length (data p)) < 2 ^ 32 ->
  let b := put_page id p x a1 in
  pages (mem b) !! Z.to_nat id = Some p /\ pmetas (pgs b) !! Z.to_nat id = Some x /\ paged 1 a b.
Proof.
  intros G T Hp b. pose proof (tk_unused _ _ _ T) as Hu.
  assert (pages (mem b) !! Z.to_nat id = Some p) as Epid by (cbn; apply list_lookup_insert_eq, T).
  assert (pmetas (pgs b) !! Z.to_nat id = Some x) as Exid.
  { cbn. apply list_lookup_insert_eq. rewrite (tk_length _ _ _ T). apply T. }
  assert (forall i, i <> Z.to_nat id -> pages (mem b) !! i = pages (mem a) !! i /\ pmetas (pgs b) !! i = pmetas (pgs a) !! i) as Oth.
  { intros i Hi. cbn. rewrite !list_lookup_insert_ne by done. by apply T. }
  assert (segments (mem b) = segments (mem a)) as Es by apply (sg_segments _ _ (tk_guest _ _ _ T)).
  pose proof (tk_grown _ _ _ T) as Hgrow. destruct (tk_lists _ _ _ T) as [En Eo].
  split; [done|]. split; [done|]. split.
  - destruct (tk_guest _ _ _ T) as [S1 S2 S3 S4]. by split.
  - split.
    + cbn. rewrite !length_insert. apply T.
    + intros i q Hq. destruct (decide (i = Z.to_nat id)) as [->|Hne]; [by rewrite Epid in Hq; injection Hq as <-|].
      rewrite (proj1 (Oth i Hne)) in Hq. by eapply pg_bytes.
    + apply T.
    + intros j Hj. destruct (pg_free _ _ G j) as (H1 & H2 & H3); [by apply T|]. split; [cbn; rewrite length_insert; lia|].
      split; [cbn; by rewrite En|]. intros s e Hl. apply (H3 s). by apply (lives_segments _ _ _ _ Es).
    + intros j Hj. cbn in Hj. rewrite En in Hj. destruct (pg_nursery _ _ G j Hj) as (H1 & q & y & Hq & Hy & H). split; [done|]. exists q, y.
      destruct (Oth (Z.to_nat j)) as [-> ->]; [|done]. by apply (in_use_other a); [|apply nursery_in_use].
    + cbn. rewrite Eo. apply G.
    + intros s e Hl. apply (lives_segments _ _ _ _ Es) in Hl. pose proof (in_use_other _ _ _ Hu (live_in_use _ _ _ G Hl)) as Hd.
      by eapply placed_frame; [apply (pg_placed _ _ G)|apply Oth..].
    + intros s1 s2 e1 e2 H1 H2. apply (lives_segments _ _ _ _ Es) in H1, H2. by apply (pg_apart _ _ G).
  - unfold resident_ok. cbn. rewrite (tk_ledger _ _ _ T). by rewrite (proj1 (sg_static _ _ (tk_guest _ _ _ T))).
  - cbn. rewrite length_insert. lia.
  - intros i Hi. destruct (Oth (Z.to_nat i)) as [E1 E2]; [by apply (in_use_other a)|]. split; [|done]. destruct Hi as [Hi1 Hi2].
    split; [cbn; rewrite length_insert; lia|]. intros Hin. by apply Hi2, T.
Qed.

Lemma trailing_zeros_pow j : 0 <= j -> trailing_zeros (2 ^ j) = j.
Proof.
  intros Hj. unfold trailing_zeros. replace (- 2 ^ j) with (Z.lnot (Z.ones j)) by (rewrite Z.ones_equiv; unfold Z.lnot; lia).
  pose proof (Z.pow_pos_nonneg 2 j ltac:(lia) Hj).
  rewrite <- Z.ldiff_land, Z.ldiff_ones_r, Z.shiftr_div_pow2, Z.div_same by lia.
  rewrite Z.shiftl_1_l. by apply Z.log2_pow2.
Qed.

Lemma push_available_spec i id a : pages_ok (mem a) (pgs a) -> 0 <= i < 14 ->
  exists a', push_available i id a = (Ok tt, a') /\ paged 0 a a' /\ freePages (pgs a') = freePages (pgs a) /\
    nurseryPages (pgs a') = nurseryPages (pgs a) /\ pages (mem a') = pages (mem a) /\ pmetas (pgs a') = pmetas (pgs a) /\ led a' = led a.
Proof.
  intros G Hi. unfold push_available. destruct (lookup_lt_is_Some_2 (oldAvailable (pgs a)) (Z.to_nat i)) as [l Hl]; [rewrite (pg_available _ _ G); lia|].
  assert (nth_of (oldAvailable (pgs a)) i = Some l) as -> by (apply nth_of_nat; split; [lia|done]).
  eexists. split; [done|]. split; [|done]. split; [done| |done|cbn; lia|done].
  pose proof (pg_placed _ _ G) as Hpl. destruct G. split; cbn; try done; [by rewrite length_insert|].
  intros s e He. by eapply placed_frame; [apply Hpl|..].
Qed.

Lemma ceil_nonneg a : 0 <= a -> 0 <= (a + managedCardBytes - 1) / managedCardBytes.
Proof. intros H. apply Z.div_pos; unfold managedCardBytes; lia. Qed.

Lemma page_cost_nonneg size k class : 0 <= size -> (k = managedOldPage -> 0 < class) -> 0 <= managedPageCost size k class.
Proof.
  intros Hs Hc. unfold managedPageCost. destruct k; try lia.
  - pose proof (Z.div_pos size class Hs (Hc eq_refl)). pose proof (Z.mod_pos_bound (size + managedCardBytes - 1) (2 ^ 32) ltac:(lia)).
    assert (0 <= u32 (size + managedCardBytes - 1) / managedCardBytes) by (apply Z.div_pos; unfold u32, managedCardBytes in *; lia). lia.
  - pose proof (ceil_nonneg size Hs). lia.
Qed.

Definition class_ok (k : page_kind) (class : Z) : Prop := k = managedOldPage -> exists j, 3 <= j <= 16 /\ class = 2 ^ j.

(** A new page: fresh contents at an address that nothing used, or an error that changes nothing. *)
Record new_page (size : Z) (k : page_kind) (class : Z) (a : allocator) (id : Z) (a' : allocator) : Prop := {
  np_paged : paged 1 a a';
  np_unused : unused_page a id;
  np_use : in_use a' id;
  np_nursery : nurseryPages (pgs a') = nurseryPages (pgs a);
  np_page : pages (mem a') !! Z.to_nat id = Some (fresh_page size k);
  np_meta : exists cap, pmetas (pgs a') !! Z.to_nat id = Some (fresh_meta size k class cap)
}.

Lemma newPage_spec size k class pre a :
  pages_ok (mem a) (pgs a) -> Z.of_nat (length (pages (mem a))) < 2 ^ 32 -> 0 <= size < 2 ^ 32 -> class_ok k class ->
  match newPage size k class pre a with
  | (Ok id, a') => new_page size k class a id a'
  | (Err e, a') => e <> AllocPanic /\ a' = a /\ pre = false
  end.
Proof.
  intros G Hlen Hs Hc. unfold newPage.
  assert (exists cap, match freePages (pgs a) with [] => alloc_return 0 | id :: _ => let@ x := must (page_meta a id) in alloc_return (cardCapacity x) end a
    = (Ok cap, a)) as [cap Ecap].
  { destruct (freePages (pgs a)) as [|id rest] eqn:Ef; [by exists 0|]. destruct (pg_free _ _ G id) as (Hid & _); [rewrite Ef; by left|].
    destruct (lookup_lt_is_Some_2 (pmetas (pgs a)) (Z.to_nat id)) as [x Hx]; [rewrite (pg_length _ _ G); lia|].
    unfold page_meta, alloc_bind. rewrite (proj2 (nth_of_nat _ _ x)) by (split; [lia|done]). by exists (cardCapacity x). }
  unfold alloc_bind at 1. rewrite Ecap. unfold alloc_bind at 1.
  set (header := match freePages (pgs a) with [] => page_header | _ => 0 end).
  set (growth := Z.max 0 (page_cards size k - cap)).
  assert (0 <= header) by (unfold header, page_header; destruct (freePages (pgs a)); lia).
  assert (0 <= managedPageCost size k class) by (apply page_cost_nonneg; [lia|]; intros E; destruct (Hc E) as (j & Hj & ->); apply Z.pow_pos_nonneg; lia).
  assert (match (if pre then alloc_return tt else admits (managedPageCost size k class + header + growth * 8)) a with
          | (Ok _, a0) => paged 0 a a0 /\ mem a0 = mem a /\ pgs a0 = pgs a
          | (Err e, a0) => e <> AllocPanic /\ a0 = a /\ pre = false
          end) as Hadm.
  { destruct pre; [split; [by apply paged_refl|done]|].
    pose proof (admits_spec (managedPageCost size k class + header + growth * 8) a ltac:(lia) G) as H1. destruct (admits _ a) as [[[]|e] a0]; destruct H1 as [? ->]; done. }
  destruct ((if pre then alloc_return tt else admits (managedPageCost size k class + header + growth * 8)) a) as [[[]|e] a0]; [|done]. destruct Hadm as (P0 & Em & Eg).
  unfold alloc_bind at 1. destruct (take_page_spec a0) as (id & a1 & Et & T); [by rewrite Em, Eg|by rewrite Em|]. rewrite Et. unfold alloc_bind at 1, modify.
  assert (Z.of_nat (length (data (fresh_page size k))) < 2 ^ 32) as Hsz by (cbn; rewrite length_replicate; lia).
  destruct (put_page_spec a0 id a1 (fresh_page size k) (fresh_meta size k class cap) ltac:(by rewrite Em, Eg) T Hsz) as (Hp & Hx & P1).
  set (b := put_page id _ _ a1) in *.
  assert (unused_page a id) as Hu by (pose proof (tk_unused _ _ _ T) as Hu; unfold unused_page in *; by rewrite Em, Eg in Hu).
  assert (in_use b id) as Hb.
  { split; [|apply T]. apply lookup_lt_Some in Hp. destruct Hu. lia. }
  assert (nurseryPages (pgs b) = nurseryPages (pgs a)) as En by (rewrite <- Eg; apply T).
  assert (paged 1 a b) as Pb by (apply (paged_trans 0 1 _ a0); done).
  unfold alloc_bind. destruct (decide (k = managedOldPage)) as [Ek|Nk].
  - destruct (Hc Ek) as (j & Hj & Ecl). subst k class. rewrite trailing_zeros_pow by lia.
    destruct (push_available_spec (j - 3) id b) as (a' & -> & P2 & Ef & En2 & Ep & Ex & _); [apply Pb|lia|].
    split; [by apply (paged_trans 1 0 _ b)|done| |congruence|by rewrite Ep|exists cap; by rewrite Ex].
    unfold in_use. by rewrite Ep, Ef.
  - assert (match k with managedOldPage => push_available (trailing_zeros class - 3) id | _ => alloc_return tt end b = (Ok tt, b)) as -> by by destruct k.
    split; [done|done|done|done|done|by exists cap].
Qed.

(** A nursery page with room for [size] bytes. *)
Definition has_room (a : allocator) (size id : Z) : Prop :=
  id ∈ nurseryPages (pgs a) /\ exists x, page_meta a id = Some x /\ used x + size <= managedPageBytes.

Lemma find_nursery_spec size ids a :
  pages_ok (mem a) (pgs a) -> (forall id, id ∈ ids -> id ∈ nurseryPages (pgs a)) ->
  exists r, find_nursery size ids a = (Ok r, a) /\ forall id, r = Some id -> has_room a size id.
Proof.
  intros G. induction ids as [|id ids IH]; intros Hin; cbn [find_nursery]; [by exists None|].
  assert (id ∈ nurseryPages (pgs a)) as Hid by (apply Hin; by left). destruct (pg_nursery _ _ G id Hid) as (Hn & p & x & Hp & Hx & Hl & _ & Hu).
  unfold alloc_bind, gets, page_meta. rewrite (proj2 (nth_of_nat (pages _) _ p)) by done. cbn [must alloc_return].
  rewrite (proj2 (nth_of_nat (pmetas _) _ x)) by done. cbn [must alloc_return].
  unfold managedPageBytes in *. rewrite Hl, (u32_id (64 * 1024)), u32_id by lia. case_if.
  - exists (Some id). split; [done|]. intros j [= <-]. split; [done|]. exists x. split; [by apply nth_of_nat|]. unfold managedPageBytes. lia.
  - apply IH. intros j Hj. apply Hin. by right.
Qed.

(** Changing the partner of pages changes nothing else. *)
Lemma set_partner_meta id other a i :
  pmetas (pgs (set_partner id other a)) !! i =
    (if decide (i = Z.to_nat id) then (fun x => mkPageMeta (entries x) (pfree x) (used x) (pclass x) other (cardCapacity x) (kind x) (resident x) (leased x))
     else fun x => x) <$> pmetas (pgs a) !! i.
Proof.
  unfold set_partner. cbn [pgs pmetas set_pgs]. case_decide as E; [subst i; by rewrite list_lookup_alter_eq|].
  rewrite list_lookup_alter_ne by done. by rewrite option_fmap_id.
Qed.

(** The new nursery page joins the list, beside its spare. *)
Definition pair_up (pageID spare : Z) (a : allocator) : allocator :=
  let b := set_partner spare pageID (set_partner pageID spare a) in
  let g := pgs b in
  set_pgs (mkPaging (pmetas g) (freePages g) (nurseryPages g ++ [pageID]) (oldAvailable g) (nurseryCapacity g + managedPageBytes)) b.

Lemma in_place_kept s e x y :
  kind y = kind x -> used y = used x -> pclass y = pclass x -> entries y = entries x -> in_place s e x -> in_place s e y.
Proof. intros E1 E2 E3 E4. unfold in_place. by rewrite E1, E2, E3, E4. Qed.

(** Pages keep what the invariant says of them. *)
Definition meta_like (x y : pageMeta) : Prop := kind y = kind x /\ used y = used x /\ pclass y = pclass x /\ entries y = entries x.

Lemma pages_ok_metas h g g' :
  pages_ok h g -> length (pmetas g') = length (pmetas g) -> (forall i x, pmetas g !! i = Some x -> exists y, pmetas g' !! i = Some y /\ meta_like x y) ->
  freePages g' = freePages g -> length (oldAvailable g') = length (oldAvailable g) ->
  (forall id, id ∈ nurseryPages g' -> id ∈ nurseryPages g \/ (id ∉ freePages g) /\ 0 <= id /\ exists p x, pages h !! Z.to_nat id = Some p /\
     pmetas g !! Z.to_nat id = Some x /\ Z.of_nat (length (data p)) = managedPageBytes /\ kind x = managedYoungPage /\ 0 <= used x <= managedPageBytes) ->
  pages_ok h g'.
Proof.
  intros G Hl Hm Ef Eo Hn. split.
  - rewrite Hl. apply G.
  - apply G.
  - rewrite Ef. apply G.
  - intros id Hid. rewrite Ef in Hid. destruct (pg_free _ _ G id Hid) as (H1 & H2 & H3). split; [done|]. split; [|done].
    intros H. by destruct (Hn id H) as [?|[? _]].
  - intros id Hid. assert (0 <= id /\ exists p x, pages h !! Z.to_nat id = Some p /\ pmetas g !! Z.to_nat id = Some x /\
      Z.of_nat (length (data p)) = managedPageBytes /\ kind x = managedYoungPage /\ 0 <= used x <= managedPageBytes) as (H1 & p & x & Hp & Hx & H2 & H3 & H4).
    { destruct (Hn id Hid) as [H|(_ & H & H')]; [by apply (pg_nursery _ _ G)|done]. }
    split; [done|]. destruct (Hm _ _ Hx) as (y & Hy & M1 & M2 & M3 & M4). exists p, y. by rewrite M1, M2.
  - rewrite Eo. apply G.
  - intros s e Hs. destruct (pg_placed _ _ G s e Hs) as [Hnum (p & x & Hp & Hx & H1 & H2 & H3)]. split; [done|].
    destruct (Hm _ _ Hx) as (y & Hy & M1 & M2 & M3 & M4). exists p, y. repeat (split; [done|]). by eapply in_place_kept.
  - apply G.
Qed.

Lemma pair_up_meta pageID spare a i x : pmetas (pgs a) !! i = Some x ->
  exists y, pmetas (pgs (pair_up pageID spare a)) !! i = Some y /\ meta_like x y /\ (i <> Z.to_nat pageID -> i <> Z.to_nat spare -> y = x).
Proof.
  intros Hx. unfold pair_up. cbn [pgs set_pgs pmetas]. rewrite !set_partner_meta, Hx.
  do 2 case_decide; cbn; (eexists; split; [done|]; split; [done|]; done).
Qed.

Lemma nurseryPage_spec size a :
  pages_ok (mem a) (pgs a) -> Z.of_nat (length (pages (mem a))) + 2 < 2 ^ 32 -> 0 <= size <= managedPageBytes ->
  match nurseryPage size a with
  | (Ok id, a') => paged 2 a a' /\ has_room a' size id
  | (Err e, a') => e <> AllocPanic /\ paged 2 a a'
  end.
Proof.
  intros G Hlen Hs. unfold nurseryPage. unfold alloc_bind at 1. destruct (find_nursery_spec size (nurseryPages (pgs a)) a) as (r & -> & Hr); [done|done|].
  destruct r as [id|]; [split; [by eapply paged_weaken; [apply paged_refl|]|by apply Hr]|].
  unfold alloc_bind at 1, modify at 1. set (a0 := set_led _ a).
  assert (paged 0 a a0) as P0 by by apply paged_ledger.
  set (bytes := 2 * managedPageBytes + _ + 4).
  assert (0 <= bytes) as Hb by (unfold bytes, managedPageBytes, page_header; lia).
  unfold alloc_bind at 1. pose proof (admits_spec bytes a0 Hb (pd_pages _ _ _ P0)) as Hadm. destruct (admits bytes a0) as [[[]|e] a1].
  2: { destruct Hadm as [? ->]. split; [done|]. by eapply paged_weaken. }
  destruct Hadm as [P1 E1]. assert (paged 0 a a1) as Pa1 by exact (paged_trans 0 0 _ _ _ P0 P1).
  unfold alloc_bind at 1. assert (Z.of_nat (length (pages (mem a1))) <= Z.of_nat (length (pages (mem a)))) as L1 by (pose proof (pd_count _ _ _ Pa1); lia).
  pose proof (newPage_spec managedPageBytes managedYoungPage 0 true a1 (pd_pages _ _ _ Pa1) ltac:(lia) ltac:(by unfold managedPageBytes) ltac:(done)) as H2.
  destruct (newPage _ _ _ _ a1) as [[pageID|e] a2]; [|by destruct H2 as (_ & _ & ?)].
  unfold alloc_bind at 1. pose proof (pd_count _ _ _ (np_paged _ _ _ _ _ _ H2)) as L2.
  pose proof (newPage_spec managedPageBytes managedSparePage 0 true a2 (pd_pages _ _ _ (np_paged _ _ _ _ _ _ H2)) ltac:(lia) ltac:(by unfold managedPageBytes) ltac:(done)) as H3.
  destruct (newPage _ _ _ _ a2) as [[spare|e] a3]; [|by destruct H3 as (_ & _ & ?)].
  unfold alloc_bind, modify, alloc_return. fold (pair_up pageID spare a3).
  assert (paged 2 a a3) as Pa3 by exact (paged_trans 0 2 _ _ _ Pa1 (paged_trans 1 1 _ _ _ (np_paged _ _ _ _ _ _ H2) (np_paged _ _ _ _ _ _ H3))).
  destruct (pd_use _ _ _ (np_paged _ _ _ _ _ _ H3) pageID (np_use _ _ _ _ _ _ H2)) as (Hu & Ep & Ex). destruct (np_meta _ _ _ _ _ _ H2) as [cap Hx].
  rewrite (np_page _ _ _ _ _ _ H2) in Ep. rewrite Hx in Ex. cbn [fresh_meta] in Ex.
  assert (pages_ok (mem a3) (pgs (pair_up pageID spare a3))) as G3.
  { apply (pages_ok_metas _ (pgs a3)); [apply Pa3| | |done|done|].
    - unfold pair_up, set_partner. cbn. by rewrite !length_alter.
    - intros i x Hi. destruct (pair_up_meta pageID spare a3 i x Hi) as (y & Hy & Hm & _). by exists y.
    - intros id Hid. cbn in Hid. apply elem_of_app in Hid as [Hid|Hid%list_elem_of_singleton]; [by left|]. subst id. right.
      destruct Hu as [Hu1 Hu2]. split; [done|]. split; [lia|]. eexists _, _. split; [exact Ep|]. split; [exact Ex|]. cbn.
      rewrite length_replicate. unfold managedPageBytes. split; [lia|]. split; [done|lia]. }
  split.
  - split.
    + destruct (pd_guest _ _ _ Pa3) as [S1 S2 S3 S4]. by split.
    + exact G3.
    + intros R. apply (pd_resident _ _ _ Pa3) in R. exact R.
    + exact (pd_count _ _ _ Pa3).
    + intros i Hi. destruct (pd_use _ _ _ Pa3 i Hi) as (U & E3 & F3). split; [exact U|]. split; [exact E3|].
      pose proof (pd_use _ _ _ Pa1 i Hi) as (Hi1 & _). pose proof (pd_use _ _ _ (np_paged _ _ _ _ _ _ H2) i Hi1) as (Hi2 & _).
      pose proof (in_use_other _ _ _ (np_unused _ _ _ _ _ _ H2) Hi1) as D1. pose proof (in_use_other _ _ _ (np_unused _ _ _ _ _ _ H3) Hi2) as D2.
      rewrite <- F3. unfold pair_up. cbn [pgs set_pgs pmetas]. rewrite !set_partner_meta, !decide_False by done. by rewrite !option_fmap_id.
  - split; [cbn; apply elem_of_app; right; by left|]. destruct (pair_up_meta pageID spare a3 _ _ Ex) as (y & Hy & (_ & M2 & _) & _).
    exists y. split; [apply nth_of_nat; split; [apply Hu|done]|]. rewrite M2. cbn. lia.
Qed.

(** ** Placing an object *)

Lemma bit_len_bounds n j : 0 <= n < 2 ^ j -> 0 <= j -> 0 <= bit_len n <= j.
Proof.
  intros Hn Hj. unfold bit_len. destruct (Z.eqb_spec n 0); [lia|]. pose proof (Z.log2_nonneg n).
  assert (Z.log2 n < j) by (apply Z.log2_lt_pow2; lia). lia.
Qed.

(** The address of a new object: the bump pointer of a nursery page, or the start of a large page of its own. *)
Definition place_ok (a : allocator) (size : Z) (young : bool) (id offset : Z) : Prop :=
  in_use a id /\ exists p x, pages (mem a) !! Z.to_nat id = Some p /\ pmetas (pgs a) !! Z.to_nat id = Some x /\
    0 <= offset /\ offset + size <= Z.of_nat (length (data p)) /\ 0 <= used x /\ used x + size < 2 ^ 32 /\
    if young then kind x = managedYoungPage /\ offset = used x /\ offset + size <= managedPageBytes
    else kind x = managedLargePage /\ offset = 0 /\ entries x = [0] /\ (id ∉ nurseryPages (pgs a)) /\
         Z.of_nat (length (data p)) <= managedCardBytes * Z.of_nat (length (cards p)) /\ forall s e, lives (mem a) s e -> obj_page e <> id.

Lemma has_room_place a size id x :
  pages_ok (mem a) (pgs a) -> 0 <= size -> id ∈ nurseryPages (pgs a) -> page_meta a id = Some x -> used x + size <= managedPageBytes ->
  place_ok a size true id (used x).
Proof.
  intros G Hs Hid Hx Hu. split; [by apply nursery_in_use|]. destruct (pg_nursery _ _ G id Hid) as (Hn & p & y & Hp & Hy & Hl & Hk & Hr).
  apply nth_of_nat in Hx as [_ Hx]. assert (y = x) as -> by congruence. exists p, x. unfold managedPageBytes in *. repeat split; (done || lia).
Qed.

Lemma place_young_spec size a :
  pages_ok (mem a) (pgs a) -> Z.of_nat (length (pages (mem a))) + 3 < 2 ^ 32 -> 8 <= size <= managedPageBytes / 4 ->
  match place_young size a with
  | (Ok place, a') => paged 3 a a' /\ place_ok a' size true (fst place) (snd place)
  | (Err e, a') => e <> AllocPanic /\ paged 3 a a'
  end.
Proof.
  intros G Hlen Hs. change (managedPageBytes / 4) with 16384 in Hs. unfold place_young. unfold alloc_bind at 1.
  pose proof (nurseryPage_spec size a G ltac:(lia) ltac:(unfold managedPageBytes; lia)) as H1.
  destruct (nurseryPage size a) as [[id|e] a1]; [|destruct H1; split; [done|by eapply paged_weaken]]. destruct H1 as (P1 & Hid & x & Hx & Hu).
  unfold alloc_bind at 1, gets at 1. rewrite Hx. cbn [must alloc_return].
  set (j := Z.max 3 (bit_len (size - 1))).
  assert (3 <= j <= 16) as Hj by (pose proof (bit_len_bounds (size - 1) 14 ltac:(lia) ltac:(lia)); lia).
  rewrite Z.shiftl_1_l. unfold alloc_bind at 1, gets at 1. rewrite trailing_zeros_pow by lia.
  destruct (lookup_lt_is_Some_2 (oldAvailable (pgs a1)) (Z.to_nat (j - 3))) as [av Hav]; [rewrite (pg_available _ _ (pd_pages _ _ _ P1)); lia|].
  rewrite (proj2 (nth_of_nat _ _ av)) by (split; [lia|done]). cbn [must alloc_return]. unfold alloc_bind.
  assert (exists a2, (match av with
                      | [] => match newPage managedPageBytes managedOldPage (2 ^ j) false a1 with
                              | (Err AllocPanic, a3) => (Err AllocPanic, a3) | (_, a3) => (Ok tt, a3) end
                      | _ => (Ok tt, a1) end) = (Ok tt, a2) /\ paged 1 a1 a2 /\ nurseryPages (pgs a2) = nurseryPages (pgs a1)) as (a2 & -> & P2 & En).
  { destruct av; [|exists a1; split; [done|]; split; [by eapply paged_weaken; [apply paged_refl, P1|]|done]].
    pose proof (pd_count _ _ _ P1). pose proof (newPage_spec managedPageBytes managedOldPage (2 ^ j) false a1 (pd_pages _ _ _ P1) ltac:(lia) ltac:(by unfold managedPageBytes)
      ltac:(intros _; by exists j)) as H2.
    destruct (newPage _ _ _ _ a1) as [[i|e] a2].
    - exists a2. split; [done|]. split; apply H2.
    - destruct H2 as (He & -> & _). exists a1. split; [by destruct e|]. split; [by eapply paged_weaken; [apply paged_refl, P1|]|done]. }
  split; [exact (paged_trans 2 1 _ _ _ P1 P2)|]. cbn [fst snd].
  destruct (pd_use _ _ _ P2 id) as (_ & _ & Ex); [by apply nursery_in_use; [apply P1|]|].
  apply has_room_place; [apply P2|lia|by rewrite En| |done]. apply nth_of_nat in Hx as [? ?]. apply nth_of_nat. split; [done|congruence].
Qed.

Lemma place_large_spec size a :
  pages_ok (mem a) (pgs a) -> Z.of_nat (length (pages (mem a))) < 2 ^ 32 -> 0 <= size < 2 ^ 32 ->
  match newPage size managedLargePage 0 false a with
  | (Ok id, a') => paged 1 a a' /\ place_ok a' size false id 0
  | (Err e, a') => e <> AllocPanic /\ a' = a
  end.
Proof.
  intros G Hlen Hs. pose proof (newPage_spec size managedLargePage 0 false a G Hlen Hs ltac:(done)) as H.
  destruct (newPage size managedLargePage 0 false a) as [[id|e] a']; [|by destruct H as (? & ? & _)]. split; [exact (np_paged _ _ _ _ _ _ H)|].
  destruct (np_meta _ _ _ _ _ _ H) as [cap Hx]. pose proof (np_paged _ _ _ _ _ _ H) as P. pose proof (np_unused _ _ _ _ _ _ H) as Hu.
  split; [exact (np_use _ _ _ _ _ _ H)|]. exists (fresh_page size managedLargePage), (fresh_meta size managedLargePage 0 cap).
  split; [exact (np_page _ _ _ _ _ _ H)|]. split; [done|]. cbn [fresh_page data cards fresh_meta used kind entries page_cards]. rewrite !length_replicate.
  pose proof (ceil_nonneg size ltac:(lia)). assert (size <= managedCardBytes * ((size + managedCardBytes - 1) / managedCardBytes)) as Hc.
  { pose proof (div_mod_pos (size + managedCardBytes - 1) managedCardBytes ltac:(by unfold managedCardBytes)). unfold managedCardBytes in *. lia. }
  repeat (split; [first [done|lia]|]). rewrite (np_nursery _ _ _ _ _ _ H). split.
  { intros Hin. by apply (unused_not_in_use _ _ _ Hu (nursery_in_use _ _ G Hin)). }
  split; [by rewrite !Z2Nat.id by lia|]. intros s e Hl E. apply (lives_segments _ _ _ _ (sg_segments _ _ (pd_guest _ _ _ P))) in Hl.
  by apply (unused_not_in_use _ _ _ Hu (live_in_use _ _ _ G Hl)).
Qed.

(** ** Taking a slot *)

Definition slot_ready (h : managedHeap) (d : directory) : Prop := freeSlots d <> [] \/ is_Some (object h (nextSlot d)).

Record slot_taken (h : managedHeap) (d : directory) (s : Z) (d1 : directory) : Prop := {
  st_object : exists e, object h s = Some e /\ obj_state e = managedFree /\ 0 <= obj_generation e < MaxUint32;
  st_range : 0 < s < nextSlot d1;
  st_next : nextSlot d <= nextSlot d1 <= nextSlot d + 1;
  st_unused : forall i, nextSlot d1 <= i -> nextSlot d <= i;
  st_known : forall i, 0 < i < nextSlot d1 -> i = s \/ 0 < i < nextSlot d;
  st_nodup : NoDup (freeSlots d1);
  st_free : forall i, i ∈ freeSlots d1 -> i ∈ freeSlots d /\ i <> s;
  st_lists : occupied d1 = occupied d /\ youngSlots d1 = youngSlots d /\ metas d1 = metas d
}.

Lemma take_slot_spec a : dir_ok (mem a) (dir a) -> slot_ready (mem a) (dir a) -> nextSlot (dir a) < MaxUint32 ->
  exists s d1, take_slot a = (Ok s, set_dir d1 a) /\ slot_taken (mem a) (dir a) s d1.
Proof.
  intros D Hr Hn. unfold take_slot, set_free_slots. pose proof (dir_next _ _ D). pose proof (dir_free_nodup _ _ D) as Hnd. pose proof (dir_free _ _ D) as Hf.
  unfold slot_ready in Hr. destruct (freeSlots (dir a)) as [|s rest] eqn:Ef.
  - destruct Hr as [?|[e He]]; [done|]. pose proof (dir_unused _ _ D _ _ (Z.le_refl _) He) as ->.
    eexists _, _. split; [done|]. unfold MaxUint32 in *. rewrite u32_id by lia. split; cbn [freeSlots nextSlot]; try done; try lia.
    + exists zero_object. unfold zero_object, MaxUint32. cbn. split; [done|]. split; [done|]. lia.
    + by intros i ?%not_elem_of_nil.
  - apply NoDup_cons in Hnd as [Hni Hnd]. destruct (Hf s ltac:(by left)) as (Hs & e & He & Est & Hg).
    eexists _, _. split; [done|]. split; cbn [freeSlots nextSlot]; try done; try lia.
    + exists e. split; [done|]. split; [done|]. pose proof (dir_generation _ _ D _ _ He). lia.
    + intros i Hi. rewrite Ef. split; [by right|]. by intros ->.
Qed.

(** The directory after the slot received a reserved object. *)
Lemma dir_install h d s d1 e0 e m h' :
  dir_ok h d -> slot_taken h d s d1 -> object h s = Some e0 -> segments h' = segments (set_object s e h) ->
  obj_state e = managedReserved -> 0 <= obj_generation e <= MaxUint32 -> dir_ok h' (set_meta s m d1).
Proof.
  intros D T He0 Es Hst Hg. destruct (st_object _ _ _ _ T) as (e1 & He1 & Hfree & _). assert (e1 = e0) as -> by congruence.
  destruct (st_lists _ _ _ _ T) as (Eo & Ey & Em).
  assert (forall i, object h' i = if decide (i = s) then Some e else object h i) as Ho.
  { intros i. rewrite (object_segments _ _ i Es). by apply (object_set h s e0). }
  assert (forall i x, object h' i = Some x -> obj_state x = managedPublished -> i <> s /\ object h i = Some x) as Hpub.
  { intros i x Hx Hp. rewrite Ho in Hx. case_decide as E; [|done]. congruence. }
  assert (forall i x, object h i = Some x -> obj_state x = managedPublished -> i <> s) as Hne by (intros i x Hx Hp ->; congruence).
  assert (forall i, i <> s -> meta (set_meta s m d1) i = meta d i) as Hm.
  { intros i Hi. unfold meta, set_meta. cbn [metas]. by rewrite lookup_insert_ne, Em by done. }
  split; unfold set_meta; cbn [freeSlots nextSlot occupied youngSlots].
  - unfold full_segments. rewrite Es. apply full_set_object, D.
  - pose proof (dir_next _ _ D). pose proof (st_next _ _ _ _ T). lia.
  - intros i Hi. rewrite Ho. case_decide; [done|]. destruct (st_known _ _ _ _ T i Hi) as [?|?]; [done|]. by apply D.
  - intros i x Hi Hx. rewrite Ho in Hx. case_decide as E; [pose proof (st_range _ _ _ _ T); lia|]. apply (dir_unused _ _ D i); [by apply (st_unused _ _ _ _ T)|done].
  - apply T.
  - intros i Hi. destruct (st_free _ _ _ _ T i Hi) as [H1 H2]. destruct (dir_free _ _ D i H1) as (H3 & H4). rewrite Ho, decide_False by done.
    split; [pose proof (st_next _ _ _ _ T); lia|done].
  - intros i x Hx. rewrite Ho in Hx. case_decide; [by injection Hx as <-|]. by eapply D.
  - intros i j Hj. rewrite Eo in Hj. destruct (dir_occupied _ _ D i j Hj) as (H1 & x & Hx & Hp). pose proof (Hne _ _ Hx Hp) as Hjs.
    fold (set_meta s m d1). rewrite Hm by done. split; [done|]. exists x. by rewrite Ho, decide_False.
  - intros i x Hx Hp. destruct (Hpub _ _ Hx Hp) as [_ H]. rewrite Eo. by eapply D.
  - intros i j Hj. rewrite Ey in Hj. destruct (dir_young _ _ D i j Hj) as (H1 & x & Hx & Hp & Hy). pose proof (Hne _ _ Hx Hp) as Hjs.
    fold (set_meta s m d1). rewrite Hm by done. split; [done|]. exists x. by rewrite Ho, decide_False.
  - intros i x Hx Hp Hy. destruct (Hpub _ _ Hx Hp) as [_ H]. rewrite Ey. by eapply (dir_young_all _ _ D).
Qed.

(** The metadata of a page that takes an object of [size] bytes. *)
Definition occupied_meta (x : pageMeta) (size : Z) (young : bool) (s : Z) : pageMeta :=
  mkPageMeta (if young then entries x else <[0%nat := s]> (entries x)) (pfree x) (u32 (used x + size)) (pclass x) (partner x) (cardCapacity x)
    (kind x) (resident x) (leased x).

Lemma pages_install a s e0 st gen id offset size young p p' x h' g' :
  pages_ok (mem a) (pgs a) -> place_ok a size young id offset -> 0 <= size -> object (mem a) s = Some e0 -> obj_state e0 = managedFree ->
  pages (mem a) !! Z.to_nat id = Some p -> pmetas (pgs a) !! Z.to_nat id = Some x ->
  segments h' = segments (set_object s (mkObject st gen id offset size young) (mem a)) ->
  pages h' = <[Z.to_nat id := p']> (pages (mem a)) -> length (data p') = length (data p) -> cards p' = cards p ->
  g' = mkPaging (<[Z.to_nat id := occupied_meta x size young s]> (pmetas (pgs a))) (freePages (pgs a)) (nurseryPages (pgs a)) (oldAvailable (pgs a))
         (nurseryCapacity (pgs a)) ->
  pages_ok h' g'.
Proof.
  intros G [Hu (p0 & x0 & Hp0 & Hx0 & Hoff & Hfit & Hu0 & Hu1 & Hplace)] Hs He0 Hfree Hp Hx Es Ep Hlen Hcards ->.
  assert (p0 = p) as -> by congruence. assert (x0 = x) as -> by congruence. pose proof (pg_length _ _ G) as HL. destruct Hu as [Hid Hnf].
  set (e := mkObject st gen id offset size young) in *.
  assert (forall i f, lives h' i f -> i = s /\ f = e \/ i <> s /\ lives (mem a) i f) as Hl.
  { intros i f [Hf Hlf]. rewrite (object_segments _ _ i Es), (object_set (mem a) s e0) in Hf by done. case_decide as E; [left; by injection Hf as <-|by right]. }
  assert (forall i q, pages h' !! i = Some q -> i = Z.to_nat id /\ q = p' \/ i <> Z.to_nat id /\ pages (mem a) !! i = Some q) as Hq.
  { intros i q Hq. rewrite Ep in Hq. apply list_lookup_insert_Some in Hq as [(<- & -> & _)|(? & ?)]; [by left|right]. by split. }
  assert (pages h' !! Z.to_nat id = Some p') as Hp' by (rewrite Ep; apply list_lookup_insert_eq; lia).
  set (g' := mkPaging _ _ _ _ _).
  assert (pmetas g' !! Z.to_nat id = Some (occupied_meta x size young s)) as Hx' by (cbn; apply list_lookup_insert_eq; lia).
  assert (forall i y, i <> Z.to_nat id -> pmetas (pgs a) !! i = Some y -> pmetas g' !! i = Some y) as Hxo by (intros; cbn; by rewrite list_lookup_insert_ne).
  assert (forall i q, i <> Z.to_nat id -> pages (mem a) !! i = Some q -> pages h' !! i = Some q) as Hpo by (intros; rewrite Ep; by rewrite list_lookup_insert_ne).
  assert (forall i f, lives (mem a) i f -> obj_page f = id -> young = true /\ obj_young f = true /\ obj_offset f + obj_size f <= offset) as Hsame.
  { intros i f Hf E. destruct young; [|exfalso; destruct Hplace as (_ & _ & _ & _ & _ & H); by apply (H i f)]. destruct Hplace as (Hk & -> & _).
    destruct (pg_placed _ _ G i f Hf) as [_ (q & y & _ & Hy & _ & _ & Hin)]. rewrite E, Hx in Hy. injection Hy as <-. unfold in_place in Hin.
    destruct (obj_young f); [by destruct Hin|]. destruct Hin as [(? & _)|(? & _)]; congruence. }
  split.
  - cbn. rewrite Ep, !length_insert. done.
  - intros i q [(-> & ->)|(_ & H)]%Hq; [rewrite Hlen|]; by eapply pg_bytes.
  - apply G.
  - intros j Hj. destruct (pg_free _ _ G j Hj) as (H1 & H2 & H3). rewrite Ep, length_insert. split; [done|]. split; [done|].
    intros i f [(-> & ->)|(_ & H)]%Hl; [cbn; by intros ->|by eapply H3].
  - intros j Hj. destruct (pg_nursery _ _ G j Hj) as (H1 & q & y & Hq' & Hy & H2 & H3 & H4). split; [done|].
    destruct (decide (Z.to_nat j = Z.to_nat id)) as [E|Hne].
    + rewrite E in *. assert (y = x) as -> by congruence. assert (q = p) as -> by congruence. exists p', (occupied_meta x size young s).
      split; [done|]. split; [done|]. rewrite Hlen. split; [done|]. split; [done|]. cbn. rewrite u32_id by lia.
      assert (j = id) as -> by lia. destruct young; [|by destruct Hplace as (_ & _ & _ & ? & _)]. destruct Hplace as (_ & -> & ?). lia.
    + exists q, y. split; [by apply Hpo|]. split; [by apply Hxo|done].
  - apply G.
  - intros i f [(-> & ->)|(Hne & H)]%Hl.
    + split; [cbn; lia|]. exists p', (occupied_meta x size young s). split; [done|]. split; [done|]. rewrite Hlen, Hcards. split; [done|].
      destruct young; cbn [obj_young e]; (split; [|unfold in_place; cbn [e obj_young obj_offset obj_size occupied_meta kind used entries]; rewrite ?u32_id by lia]).
      * done.
      * destruct Hplace as (? & -> & ?). split; [done|lia].
      * intros _. by destruct Hplace as (_ & _ & _ & _ & ? & _).
      * left. destruct Hplace as (? & ? & -> & _). done.
    + destruct (pg_placed _ _ G i f H) as [Hn (q & y & Hq' & Hy & Hb & Hc & Hin)]. split; [done|].
      destruct (decide (Z.to_nat (obj_page f) = Z.to_nat id)) as [E|Hd].
      * assert (obj_page f = id) as E' by lia. destruct (Hsame i f H E') as (-> & Hy' & _). rewrite E in *.
        assert (y = x) as -> by congruence. assert (q = p) as -> by congruence. exists p', (occupied_meta x size true s).
        split; [done|]. split; [done|]. rewrite Hlen, Hcards. split; [done|]. split; [done|]. unfold in_place in *. rewrite Hy' in *. cbn. rewrite u32_id by lia.
        destruct Hin. split; [done|lia].
      * exists q, y. split; [by apply Hpo|]. split; [by apply Hxo|done].
  - assert (forall i f, lives (mem a) i f -> apart e f) as Hap.
    { intros i f H. destruct (decide (obj_page f = id)) as [E|Hd]; [|left; cbn; congruence]. destruct (Hsame i f H E) as (_ & _ & ?). right. right. done. }
    intros s1 s2 e1 e2 [(-> & ->)|(N1 & H1)]%Hl [(-> & ->)|(N2 & H2)]%Hl Hne; [done|by eapply Hap| |by apply (pg_apart _ _ G s1 s2)].
    destruct (Hap _ _ H1) as [?|[?|?]]; [left; congruence|right; by right|right; by left].
Qed.

(** ** Preparing a reservation *)

(** What happens before a slot is taken: new pages and new unused objects, and nothing else. *)
Record prepared (k : Z) (a a' : allocator) : Prop := {
  pr_dir : dir a' = dir a;
  pr_static : conf a' = conf a /\ layouts a' = layouts a /\ reservations a' = reservations a /\ controls a' = controls a;
  pr_ledger : occupiedBytes (led a') = occupiedBytes (led a) /\ reservedBytes (led a') = reservedBytes (led a) /\
    youngBytes (led a') = youngBytes (led a) /\ controlBytes (led a') = controlBytes (led a);
  pr_resident : resident_ok a -> resident_ok a';
  pr_dir_ok : dir_ok (mem a') (dir a');
  pr_pages_ok : pages_ok (mem a') (pgs a');
  pr_objects : forall s e, object (mem a) s = Some e -> object (mem a') s = Some e;
  pr_new : forall s e, object (mem a) s = None -> object (mem a') s = Some e -> e = zero_object;
  pr_count : Z.of_nat (length (pages (mem a'))) <= Z.of_nat (length (pages (mem a))) + k;
  pr_use : forall i, in_use a i -> in_use a' i /\ pages (mem a') !! Z.to_nat i = pages (mem a) !! Z.to_nat i
}.

Lemma dir_ok_segments h h' d : segments h' = segments h -> dir_ok h d -> dir_ok h' d.
Proof.
  intros E D. assert (forall s, object h' s = object h s) as Ho by (intros s; by apply object_segments).
  destruct D. split; try done; try (setoid_rewrite Ho; done). unfold full_segments. by rewrite E.
Qed.

Lemma paged_prepared k a a' : dir_ok (mem a) (dir a) -> paged k a a' -> prepared k a a'.
Proof.
  intros D P. pose proof (pd_guest _ _ _ P) as [S1 S2 S3 S4]. assert (forall s, object (mem a') s = object (mem a) s) as Ho by (intros s; by apply object_segments).
  split; try done.
  - apply P.
  - rewrite S1. by eapply dir_ok_segments.
  - apply P.
  - intros s e. by rewrite Ho.
  - intros s e. rewrite Ho. congruence.
  - apply P.
  - intros i Hi. by destruct (pd_use _ _ _ P i Hi) as (? & ? & _).
Qed.

Lemma prepared_trans j k a b c : prepared j a b -> prepared k b c -> prepared (j + k) a c.
Proof.
  intros A B. split.
  - rewrite (pr_dir _ _ _ B). apply A.
  - destruct (pr_static _ _ _ A) as (?&?&?&?), (pr_static _ _ _ B) as (?&?&?&?). repeat split; congruence.
  - destruct (pr_ledger _ _ _ A) as (?&?&?&?), (pr_ledger _ _ _ B) as (?&?&?&?). repeat split; congruence.
  - intros R. apply B, A, R.
  - apply B.
  - apply B.
  - intros s e H. apply B, A, H.
  - intros s e Hn H. destruct (object (mem b) s) as [e'|] eqn:E.
    + pose proof (pr_objects _ _ _ B s e' E) as H'. pose proof (pr_new _ _ _ A s e' Hn E) as ->. congruence.
    + by apply (pr_new _ _ _ B s).
  - pose proof (pr_count _ _ _ A). pose proof (pr_count _ _ _ B). lia.
  - intros i Hi. destruct (pr_use _ _ _ A i Hi) as [Ha E1]. destruct (pr_use _ _ _ B i Ha) as [Hb E2]. split; [done|congruence].
Qed.

Lemma grow_bytes_nonneg capacity l : 0 <= foldr Z.add 0 (zip_with (fun new old => (new - old) * 4) (map (grow_vector capacity) l) l).
Proof.
  induction l as [|c l IH]; cbn; [lia|]. unfold grow_vector at 1. destruct (Z.ltb_spec c capacity); lia.
Qed.

(** The heap with one more segment. *)
Definition grow (h : managedHeap) : managedHeap := mkHeap (segments h ++ [replicate 256 zero_object]) (pages h) (pendingCards h).

Lemma object_grown h s e : full_segments h -> object (grow h) s = Some e ->
  object h s = Some e \/ object h s = None /\ e = zero_object.
Proof.
  intros F He. destruct (object_grow h s F) as (H1 & H2 & _). destruct (object h s) as [e'|]; [|right; split; [done|by apply H2]].
  left. rewrite <- He. symmetry. by apply H1.
Qed.

Lemma lives_grown h s e : full_segments h -> lives (grow h) s e <-> lives h s e.
Proof.
  intros F. split; intros [He Hl]; (split; [|done]); [|by apply object_grow].
  destruct (object_grown _ _ _ F He) as [?|[_ ->]]; [done|by destruct Hl].
Qed.

Lemma dir_grown h d : dir_ok h d -> dir_ok (grow h) d.
Proof.
  intros D. pose proof (dir_full _ _ D) as F.
  assert (forall s e, object h s = Some e -> object (grow h) s = Some e) as Hf by (intros s e; apply (object_grow h s F)).
  assert (forall s e, object (grow h) s = Some e -> obj_state e = managedPublished -> object h s = Some e) as Hb.
  { intros s e He Hp. by destruct (object_grown _ _ _ F He) as [?|[_ ->]]. }
  destruct D. split; try done.
  - apply Forall_app. split; [done|]. by apply Forall_singleton.
  - intros s Hs. destruct (dir_known0 s Hs) as [e He]. exists e. by apply Hf.
  - intros s e Hs He. destruct (object_grown _ _ _ F He) as [He'|[_ ->]]; [by eapply dir_unused0|done].
  - intros s Hs. destruct (dir_free0 s Hs) as (H1 & e & He & H2). split; [done|]. exists e. split; [by apply Hf|done].
  - intros s e He. destruct (object_grown _ _ _ F He) as [He'|[_ ->]]; [by eapply dir_generation0|cbn; unfold MaxUint32; lia].
  - intros i s Hi. destruct (dir_occupied0 i s Hi) as (H1 & e & He & H2). split; [done|]. exists e. split; [by apply Hf|done].
  - intros s e He Hp. by eapply dir_published0; [apply Hb|].
  - intros i s Hi. destruct (dir_young0 i s Hi) as (H1 & e & He & H2). split; [done|]. exists e. split; [by apply Hf|done].
  - intros s e He Hp Hy. by eapply dir_young_all0; [apply Hb|..].
Qed.

Lemma pages_grown h g : full_segments h -> pages_ok h g -> pages_ok (grow h) g.
Proof.
  intros F []. split; try done.
  - intros id Hid. destruct (pg_free0 id Hid) as (H1 & H2 & H3). split; [done|]. split; [done|]. intros s e Hl. apply (H3 s). by apply lives_grown.
  - intros s e Hl. destruct (pg_placed0 s e) as [? ?]; [by apply lives_grown|]. by split.
  - intros s1 s2 e1 e2 H1 H2. apply (pg_apart0 s1 s2); by apply lives_grown.
Qed.

Lemma growDirectory_spec a :
  dir_ok (mem a) (dir a) -> pages_ok (mem a) (pgs a) -> Z.of_nat (length (segments (mem a))) <= nextSlot (dir a) / managedSegmentSize ->
  match growDirectory a with
  | (Ok _, a') => prepared 0 a a' /\ slot_ready (mem a') (dir a')
  | (Err e, a') => e <> AllocPanic /\ a' = a
  end.
Proof.
  intros D G Hn. change managedSegmentSize with 256 in Hn. unfold growDirectory. set (bytes := sizeof_segment + _ + _).
  assert (0 <= bytes) as Hb.
  { unfold bytes, sizeof_segment, managedSegmentSize. pose proof (grow_bytes_nonneg ((Z.of_nat (length (segments (mem a))) + 1) * 256) (capVectors (caps a))).
    destruct (Z.ltb_spec (capSegments (caps a)) (Z.of_nat (length (segments (mem a))) + 1)); lia. }
  unfold alloc_bind. pose proof (admits_spec bytes a Hb G) as Ha. destruct (admits bytes a) as [[[]|e] a1]; [|done]. destruct Ha as [P ->].
  unfold modify. cbn [mem set_led segments pages pendingCards]. fold (grow (mem a)). pose proof (dir_next _ _ D) as Hnx. pose proof (dir_full _ _ D) as F.
  assert (nextSlot (dir a) < 256 * (Z.of_nat (length (segments (mem a))) + 1)) as Hbound.
  { destruct (decide (nextSlot (dir a) = 1)) as [->|]; [lia|]. destruct (dir_known _ _ D (nextSlot (dir a) - 1)) as [e (_ & Hd & seg & Hseg & _)%object_inv]; [lia|].
    apply lookup_lt_Some in Hseg. pose proof (div_mod_pos (nextSlot (dir a) - 1) 256 ltac:(lia)). lia. }
  split; [|right; apply object_grow; [done|cbn; lia]]. split; try done.
  - intros R. by apply (pd_resident _ _ _ P).
  - by apply dir_grown.
  - by apply pages_grown.
  - intros s e He. by apply object_grow.
  - intros s e Hnone He. destruct (object_grown _ _ _ F He) as [?|[_ ->]]; [congruence|done].
  - cbn. lia.
Qed.

(** No slot with a used-up generation is ever listed, so none is retired. *)
Lemma retire_spec a : dir_ok (mem a) (dir a) -> retire a = (Ok tt, a).
Proof.
  intros D. unfold retire. assert (retire_slots (mem a) (freeSlots (dir a)) = Ok (freeSlots (dir a))) as ->.
  { pose proof (dir_free _ _ D) as Hf. destruct (freeSlots (dir a)) as [|s l]; [done|]. cbn [retire_slots].
    destruct (Hf s ltac:(by left)) as (_ & e & -> & _ & Hg). by rewrite (proj2 (Z.eqb_neq _ _)) by lia. }
  by destruct a as [? [] ? ? ? ? ? ? ? ?].
Qed.

Lemma sum_app l1 l2 : sum (l1 ++ l2) = sum l1 + sum l2.
Proof. unfold sum. induction l1 as [|x l IH]; cbn [app foldr]; lia. Qed.

Lemma sum_nonneg l : Forall (fun x => 0 <= x) l -> 0 <= sum l.
Proof. unfold sum. induction 1; cbn [foldr]; lia. Qed.

Lemma sum_map_ext {A} (f g : A -> Z) l : (forall x, x ∈ l -> f x = g x) -> sum (map f l) = sum (map g l).
Proof. intros H. f_equal. apply map_ext_in. intros x Hx. apply H. by apply list_elem_of_In. Qed.

Lemma ready_slot_spec a : dir_ok (mem a) (dir a) -> pages_ok (mem a) (pgs a) ->
  match ready_slot a with
  | (Ok _, a') => prepared 0 a a' /\ slot_ready (mem a') (dir a')
  | (Err e, a') => e <> AllocPanic /\ a' = a
  end.
Proof.
  intros D G. unfold ready_slot. pose proof (dir_next _ _ D) as Hnx. destruct (bool_decide (freeSlots (dir a) = []) && _) eqn:E.
  - breflect. destruct (nextSlot (dir a) =? MaxUint32); [done|]. by apply growDirectory_spec.
  - split; [by apply paged_prepared, paged_refl|]. apply andb_false_iff in E as [E|E]; [left; by apply bool_decide_eq_false in E|right].
    apply Z.leb_gt in E. unfold managedSegmentSize in E. pose proof (dir_full _ _ D) as F. pose proof (Z.mod_pos_bound (nextSlot (dir a)) 256 ltac:(lia)).
    pose proof (Z.div_pos (nextSlot (dir a)) 256 ltac:(lia) ltac:(lia)).
    destruct (lookup_lt_is_Some_2 (segments (mem a)) (Z.to_nat (nextSlot (dir a) / 256))) as [seg Hseg]; [lia|].
    assert (length seg = 256%nat) by exact (Forall_lookup_1 _ _ _ _ F Hseg).
    destruct (lookup_lt_is_Some_2 seg (Z.to_nat (nextSlot (dir a) mod 256))) as [e He]; [lia|]. exists e. by apply (object_at _ _ seg); [lia|..].
Qed.

Lemma place_spec size young a :
  dir_ok (mem a) (dir a) -> pages_ok (mem a) (pgs a) -> Z.of_nat (length (pages (mem a))) + 3 < 2 ^ 32 -> 8 <= size < 2 ^ 32 ->
  young = (size <=? managedPageBytes / 4) ->
  match place size young a with
  | (Ok p, a') => prepared 3 a a' /\ place_ok a' size young (fst p) (snd p)
  | (Err e, a') => e <> AllocPanic /\ prepared 3 a a'
  end.
Proof.
  intros D G Hlen Hs ->. unfold place. destruct (Z.leb_spec size (managedPageBytes / 4)) as [H|H].
  - pose proof (place_young_spec size a G Hlen ltac:(lia)) as Hp. destruct (place_young size a) as [[p|e] a']; destruct Hp as [P Hp];
      (split; [first [done|by apply paged_prepared]|first [done|by apply paged_prepared]]).
  - pose proof (place_large_spec size a G ltac:(lia) ltac:(lia)) as Hp. unfold alloc_bind. destruct (newPage _ _ _ _ a) as [[id|e] a'].
    + destruct Hp as [P Hp]. split; [|done]. apply paged_prepared; [done|]. by eapply paged_weaken.
    + destruct Hp as [He ->]. split; [done|]. apply paged_prepared; [done|]. by eapply paged_weaken; [apply paged_refl|].
Qed.

(** ** Reservation *)

(** The effect of a reservation: the slot [s], free before, holds the zeroed object [e]; no payload changes. *)
(** The bytes of an object, published or not. *)
Definition content (h : managedHeap) (e : managedObject) : option gostring :=
  p ← pages h !! Z.to_nat (obj_page e); Some (window (data p) (obj_offset e) (obj_size e)).

Record reserved_at (a a' : allocator) (s : Z) (e : managedObject) : Prop := {
  ra_state : obj_state e = managedReserved;
  ra_before : exists e0, object (mem a) s = Some e0 /\ obj_state e0 = managedFree /\ obj_generation e = obj_generation e0 + 1;
  ra_object : forall i, object (mem a') i = if decide (i = s) then Some e else object (mem a) i;
  ra_reservations : reservations a' = reservations a ++ [mkReservation (mkRef s (obj_generation e)) false];
  ra_zero : exists p, pages (mem a') !! Z.to_nat (obj_page e) = Some p /\
    window (data p) (obj_offset e) (obj_size e) = replicate (Z.to_nat (obj_size e)) 0;
  ra_payload : forall ref, payload (mem a') ref = payload (mem a) ref;
  ra_content : forall i f, lives (mem a) i f -> content (mem a') f = content (mem a) f
}.

(** The bytes of a page with a range cleared. *)
Definition cleared (p : managedPage) (offset size : Z) : managedPage :=
  mkPage (list_inserts (Z.to_nat offset) (replicate (Z.to_nat size) 0) (data p)) (cards p).

Lemma window_cleared p offset size : 0 <= offset -> 0 <= size -> offset + size <= Z.of_nat (length (data p)) ->
  window (data (cleared p offset size)) offset size = replicate (Z.to_nat size) 0.
Proof.
  intros Ho Hs Hl. pose proof (window_inserts_same (data p) offset (replicate (Z.to_nat size) 0) Ho) as H. rewrite length_replicate, Z2Nat.id in H by done.
  by apply H.
Qed.

(** The state that [install] leaves. *)
Definition install_state (a : allocator) (d1 : directory) (s lay cnt n id offset : Z) (e : managedObject) (p : managedPage) (x : pageMeta) : allocator :=
  let g := pgs a in
  let d := set_meta s (mkMeta lay cnt n 0 (occupiedIndex (meta d1 s)) (youngIndex (meta d1 s)) 0) d1 in
  mkAlloc (mkHeap (segments (set_object s e (mem a))) (<[Z.to_nat id := cleared p offset (obj_size e)]> (pages (mem a))) (pendingCards (mem a)))
    d (mkPaging (<[Z.to_nat id := occupied_meta x (obj_size e) (obj_young e) s]> (pmetas g)) (freePages g) (nurseryPages g) (oldAvailable g) (nurseryCapacity g))
    (add_unpublished 1 (add_reserved n (led a))) (conf a) (caps a) (layouts a) (layoutOwners a)
    (reservations a ++ [mkReservation (mkRef s (obj_generation e)) false]) (controls a).

Lemma alter_insert_lookup {A} (f : A -> A) i (l : list A) x : l !! i = Some x -> alter f i l = <[i := f x]> l.
Proof.
  intros H. apply list_eq. intros j. destruct (decide (i = j)) as [->|E].
  - rewrite list_lookup_alter_eq, H, list_lookup_insert_eq by by eapply lookup_lt_Some. done.
  - by rewrite list_lookup_alter_ne, list_lookup_insert_ne.
Qed.

Lemma install_eq a lay cnt n id offset size young s d1 e0 p x :
  take_slot a = (Ok s, set_dir d1 a) -> object (mem a) s = Some e0 -> 0 <= obj_generation e0 < MaxUint32 -> 0 <= id ->
  pages (mem a) !! Z.to_nat id = Some p -> pmetas (pgs a) !! Z.to_nat id = Some x ->
  0 <= offset -> 0 <= size -> offset + size <= Z.of_nat (length (data p)) -> Z.of_nat (length (data p)) < 2 ^ 32 ->
  install lay cnt n id offset size young a =
    (Ok (length (reservations a)),
     install_state a d1 s lay cnt n id offset (mkObject managedReserved (obj_generation e0 + 1) id offset size young) p x).
Proof.
  intros Ht He0 Hg Hid Hp Hx Ho Hs Hl H32. unfold install, alloc_bind. rewrite Ht. unfold gets, modify. cbn [set_dir mem]. rewrite He0. cbn [must alloc_return].
  rewrite u32_id by (unfold MaxUint32 in *; lia). unfold clear_payload. cbn [set_mem set_dir mem pages set_object].
  rewrite (proj2 (nth_of_nat _ _ p)) by done. rewrite u32_id, copy_to_ok by lia. unfold occupy_page, page_meta. cbn [set_mem set_dir pgs].
  rewrite (proj2 (nth_of_nat _ _ x)) by done. unfold install_state, set_led, set_pgs, set_reservations, set_data, occupied_meta, cleared.
  cbn [mem dir pgs led conf caps layouts layoutOwners reservations controls set_mem set_dir pages segments pendingCards set_object obj_size obj_young obj_generation].
  by rewrite (alter_insert_lookup _ _ _ p Hp).
Qed.

(** A pending reservation, or an occupied slot, is not a free slot. *)
Lemma pending_not_free a r x s e :
  reserved_ok a -> reservations a !! r = Some x -> res_done x = false -> object (mem a) s = Some e -> obj_state e = managedFree -> slot (res_ref x) <> s.
Proof. intros R Hx Hd He Hf E. destruct (res_held _ R r x Hx Hd) as (e' & He' & Hs & _). congruence. Qed.

Lemma occupied_not_free h d s s' e : dir_ok h d -> s ∈ occupied d -> object h s' = Some e -> obj_state e <> managedPublished -> s <> s'.
Proof. intros D Hs He Hf <-. apply list_elem_of_lookup in Hs as [i Hi]. destruct (dir_occupied _ _ D i s Hi) as (_ & e' & He' & Hp). congruence. Qed.

Lemma young_not_free h d s s' e : dir_ok h d -> s ∈ youngSlots d -> object h s' = Some e -> obj_state e <> managedPublished -> s <> s'.
Proof. intros D Hs He Hf <-. apply list_elem_of_lookup in Hs as [i Hi]. destruct (dir_young _ _ D i s Hi) as (_ & e' & He' & Hp & _). congruence. Qed.

Lemma meta_set_ne s m d i : i <> s -> meta (set_meta s m d) i = meta d i.
Proof. intros H. unfold meta, set_meta. cbn [metas]. by rewrite lookup_insert_ne. Qed.

Lemma meta_set_eq s m d : meta (set_meta s m d) s = m.
Proof. unfold meta, set_meta. cbn [metas]. by rewrite lookup_insert_eq. Qed.

Lemma install_ledger a s d1 lay cnt n id offset e e0 p x :
  dir_ok (mem a) (dir a) -> reserved_ok a -> ledger_ok a -> slot_taken (mem a) (dir a) s d1 -> object (mem a) s = Some e0 -> obj_state e0 = managedFree ->
  0 <= n -> occupiedBytes (led a) + reservedBytes (led a) + n <= MaxInt64 ->
  (maxGuestBytes (conf a) <> 0 -> occupiedBytes (led a) + reservedBytes (led a) + n <= maxGuestBytes (conf a)) ->
  ledger_ok (install_state a d1 s lay cnt n id offset e p x).
Proof.
  intros D R L T He0 Hf Hn Hw Hg. destruct (st_lists _ _ _ _ T) as (Eo & Ey & Em).
  set (b := install_state a d1 s lay cnt n id offset e p x).
  assert (forall i, i <> s -> meta (dir b) i = meta (dir a) i) as Hm.
  { intros i Hi. cbn. rewrite meta_set_ne by done. unfold meta. by rewrite Em. }
  assert (meta (dir b) s = mkMeta lay cnt n 0 (occupiedIndex (meta d1 s)) (youngIndex (meta d1 s)) 0) as Hms by (cbn; apply meta_set_eq).
  assert (sum (map (fun s => logical (meta (dir b) s)) (occupied (dir b))) = sum (map (fun s => logical (meta (dir a) s)) (occupied (dir a)))) as So.
  { cbn [dir b install_state set_meta occupied]. rewrite Eo. apply sum_map_ext. intros i Hi. fold (dir b). f_equal. apply Hm.
    by eapply occupied_not_free; [..|rewrite Hf]. }
  assert (sum (map (fun s => logical (meta (dir b) s)) (youngSlots (dir b))) = sum (map (fun s => logical (meta (dir a) s)) (youngSlots (dir a)))) as Sy.
  { cbn [dir b install_state set_meta youngSlots]. rewrite Ey. apply sum_map_ext. intros i Hi. fold (dir b). f_equal. apply Hm.
    by eapply young_not_free; [..|rewrite Hf]. }
  assert (sum (pending_bytes b) = sum (pending_bytes a) + n) as Sp.
  { unfold pending_bytes at 1. cbn [b install_state reservations]. rewrite map_app, sum_app. fold (dir b). cbn [map res_done slot res_ref].
    change (logical (meta (dir b) s)) with (logical (meta (dir b) s)). rewrite Hms. cbn [logical sum foldr]. f_equal; [|lia]. apply sum_map_ext.
    intros y Hy. apply list_elem_of_lookup in Hy as [r Hr]. destruct (res_done y) eqn:Ed; [done|]. f_equal. apply Hm. by eapply pending_not_free. }
  pose proof (led_reserved _ L) as Hr. pose proof (sum_nonneg _ (led_controls _ L)). pose proof (led_control _ L).
  assert (0 <= sum (map (fun s => logical (meta (dir a) s)) (occupied (dir a)))) by (apply sum_nonneg, Forall_map, Forall_forall; intros; apply L).
  assert (0 <= sum (pending_bytes a)).
  { apply sum_nonneg, Forall_map, Forall_forall. intros y _. destruct (res_done y); [lia|apply L]. }
  pose proof (led_occupied _ L). unfold MaxInt64 in *.
  assert (reservedBytes (led b) = reservedBytes (led a) + n) as Eres by (cbn; rewrite u64_id; lia).
  split.
  - intros i. destruct (decide (i = s)) as [->|Hi]; [by rewrite Hms|rewrite Hm by done; apply L].
  - apply L.
  - apply L.
  - rewrite So. apply L.
  - rewrite Sp, Eres. change (control_bytes b) with (control_bytes a). lia.
  - rewrite Sy. apply L.
  - rewrite Eres. cbn. unfold MaxInt64. lia.
  - rewrite Eres. cbn. intros Hne. specialize (Hg Hne). lia.
  - apply L.
  - apply L.
Qed.

Lemma install_reserved a s d1 lay cnt n id offset e e0 p x :
  reserved_ok a -> object (mem a) s = Some e0 -> obj_state e0 = managedFree -> obj_state e = managedReserved ->
  reserved_ok (install_state a d1 s lay cnt n id offset e p x).
Proof.
  intros R He0 Hf Hst. set (b := install_state a d1 s lay cnt n id offset e p x).
  assert (forall i, object (mem b) i = if decide (i = s) then Some e else object (mem a) i) as Ho.
  { intros i. rewrite (object_segments (set_object s e (mem a)) (mem b)) by done. by apply (object_set _ s e0). }
  assert (forall r y, reservations b !! r = Some y -> reservations a !! r = Some y \/
    r = length (reservations a) /\ y = mkReservation (mkRef s (obj_generation e)) false) as Hin.
  { intros r y Hy. cbn in Hy. apply lookup_app_Some in Hy as [?|[Hl Hy]]; [by left|right]. apply list_lookup_singleton_Some in Hy as [? <-]. split; [lia|done]. }
  assert (forall r y, reservations a !! r = Some y -> res_done y = false -> slot (res_ref y) <> s) as Hne by (intros; by eapply pending_not_free).
  split.
  - intros r y Hy Hd. destruct (Hin _ _ Hy) as [Hy'|[_ ->]].
    + rewrite Ho, decide_False by by eapply Hne. by eapply R.
    + exists e. cbn [res_ref slot generation]. by rewrite Ho, decide_True.
  - intros r r' y y' Hy Hy' Hd Hd' E. destruct (Hin _ _ Hy) as [H1|[-> ->]], (Hin _ _ Hy') as [H2|[-> ->]]; [by eapply R| | |done].
    + by destruct (Hne _ _ H1 Hd).
    + by destruct (Hne _ _ H2 Hd').
Qed.

(** The bytes of an object do not depend on the range of another. *)
Lemma content_kept h h' g' s e i f p p' :
  pages_ok h' g' -> lives h' s e -> lives h' i f -> i <> s ->
  pages h !! Z.to_nat (obj_page e) = Some p -> pages h' = <[Z.to_nat (obj_page e) := p']> (pages h) -> length (data p') = length (data p) ->
  (forall j, Z.of_nat j < obj_offset e \/ obj_offset e + obj_size e <= Z.of_nat j -> data p' !! j = data p !! j) ->
  content h' f = content h f.
Proof.
  intros G Hs Hi Hne Hp Ep Hlen Hout. destruct (pg_placed _ _ G _ _ Hi) as [(Hn & Hn2 & Hn3) _], (pg_placed _ _ G _ _ Hs) as [(Hm & _) _]. unfold content. rewrite Ep.
  destruct (decide (Z.to_nat (obj_page f) = Z.to_nat (obj_page e))) as [E|Ne].
  - rewrite E, Hp, list_lookup_insert_eq by by eapply lookup_lt_Some. cbn [mbind option_bind]. f_equal. apply window_ext; [done|done|].
    intros j Hj. apply Hout. destruct (pg_apart _ _ G _ _ _ _ Hs Hi ltac:(done)) as [Ha|Ha]; [lia|lia].
  - by rewrite list_lookup_insert_ne.
Qed.

(** Payloads are the bytes of published objects. *)
Lemma payload_contents h h' :
  (forall ref e, resolveObject h ref = Ok e -> resolveObject h' ref = Ok e /\ content h' e = content h e) ->
  (forall ref, resolveObject h ref = Err errManagedReference -> resolveObject h' ref = Err errManagedReference) ->
  forall ref, payload h' ref = payload h ref.
Proof.
  intros Hok Herr ref. unfold payload. destruct (resolveObject h ref) as [e|x] eqn:Er; [destruct (Hok _ _ Er) as [-> Hc]; exact Hc|].
  assert (x = errManagedReference) as -> by (unfold resolveObject in Er; repeat case_match; congruence). by rewrite Herr.
Qed.

Lemma install_spec a lay cnt n id offset size young :
  dir_ok (mem a) (dir a) -> pages_ok (mem a) (pgs a) -> reserved_ok a -> ledger_ok a -> slot_ready (mem a) (dir a) -> nextSlot (dir a) < MaxUint32 ->
  place_ok a size young id offset -> 0 <= size -> 0 <= n -> occupiedBytes (led a) + reservedBytes (led a) + n <= MaxInt64 ->
  (maxGuestBytes (conf a) <> 0 -> occupiedBytes (led a) + reservedBytes (led a) + n <= maxGuestBytes (conf a)) ->
  exists s e a', install lay cnt n id offset size young a = (Ok (length (reservations a)), a') /\ reserved_at a a' s e /\ obj_size e = size /\
    dir_ok (mem a') (dir a') /\ pages_ok (mem a') (pgs a') /\ reserved_ok a' /\ ledger_ok a' /\ nextSlot (dir a') <= nextSlot (dir a) + 1 /\
    length (pages (mem a')) = length (pages (mem a)) /\ occupied (dir a') = occupied (dir a) /\ youngSlots (dir a') = youngSlots (dir a) /\
    layouts a' = layouts a /\ conf a' = conf a.
Proof.
  intros D G R L Hr Hnx Hpl Hs Hn Hw Hg. destruct (take_slot_spec a D Hr Hnx) as (s & d1 & Et & T). destruct (st_object _ _ _ _ T) as (e0 & He0 & Hf & Hgen).
  pose proof Hpl as [[Hid _] (p & x & Hp & Hx & Ho & Hfit & _)]. pose proof (pg_bytes _ _ G _ _ Hp) as H32.
  exists s, (mkObject managedReserved (obj_generation e0 + 1) id offset size young). set (e := mkObject _ _ _ _ _ _).
  exists (install_state a d1 s lay cnt n id offset e p x). set (b := install_state _ _ _ _ _ _ _ _ _ _ _).
  split; [by apply install_eq; try lia|].
  assert (forall i, object (mem b) i = if decide (i = s) then Some e else object (mem a) i) as Hob.
  { intros i. rewrite (object_segments (set_object s e (mem a)) (mem b)) by done. by apply (object_set _ s e0). }
  assert (pages_ok (mem b) (pgs b)) as G'.
  { eapply (pages_install a s e0 managedReserved (obj_generation e0 + 1) id offset size young p (cleared p offset size) x); try done.
    cbn. by rewrite length_inserts. }
  destruct (st_lists _ _ _ _ T) as (Eo & Ey & Em).
  assert (lives (mem b) s e) as Hls by (split; [by rewrite Hob, decide_True|done]).
  assert (forall i f, lives (mem a) i f -> content (mem b) f = content (mem a) f) as Hcon.
  { intros i f [Hf1 Hf2]. assert (i <> s) as Hne by (intros ->; unfold live in Hf2; congruence).
    eapply (content_kept _ _ _ s e i f p (cleared p offset size)); try done; [split; [by rewrite Hob, decide_False|done]|cbn; apply length_inserts|].
    intros j Hj. apply inserts_outside. rewrite length_replicate. cbn [e obj_offset obj_size] in Hj. lia. }
  split.
  - split; try done.
    + by exists e0.
    + exists (cleared p offset size). split; [cbn; apply list_lookup_insert_eq; by eapply lookup_lt_Some|]. by apply window_cleared.
    + apply payload_contents.
      * intros ref f Hrf. pose proof Hrf as (H1 & H2 & _)%resolve_ok. assert (slot ref <> s) as Hne by congruence.
        split; [unfold resolveObject; rewrite Hob, decide_False by done; exact Hrf|]. by apply (Hcon (slot ref)), published_live.
      * intros ref Her. unfold resolveObject. rewrite Hob. case_decide as E; [done|exact Her].
  - split; [done|]. split; [by eapply dir_install; try done; cbn; lia|]. split; [done|]. split; [by eapply install_reserved|].
    split; [by eapply install_ledger|]. split; [cbn; apply T|]. split; [cbn; apply length_insert|]. done.
Qed.

Lemma object_bytes_spec physical : 0 <= physical <= MaxUint32 - 7 -> 8 <= object_bytes physical < 2 ^ 32 /\ physical <= object_bytes physical.
Proof.
  intros H. unfold object_bytes, MaxUint32 in *. rewrite (u64_id (physical + 7)) by lia.
  assert (Z.ldiff (physical + 7) 7 = 8 * ((physical + 7) / 8)) as ->.
  { change 7 with (Z.ones 3) at 2. rewrite Z.ldiff_ones_r, Z.shiftr_div_pow2, Z.shiftl_mul_pow2 by lia. change (2 ^ 3) with 8. lia. }
  pose proof (div_mod_pos (physical + 7) 8 ltac:(lia)). rewrite u32_id by lia. lia.
Qed.

Lemma prepared_rest k a a' : reserved_ok a -> ledger_ok a -> prepared k a a' -> reserved_ok a' /\ ledger_ok a'.
Proof.
  intros R L P. destruct (pr_static _ _ _ P) as (Ec & El & Er & Ek). destruct (pr_ledger _ _ _ P) as (E1 & E2 & E3 & E4).
  pose proof (pr_dir _ _ _ P) as Ed. split.
  - split; rewrite Er.
    + intros r x Hx Hd. destruct (res_held _ R r x Hx Hd) as (e & He & H). exists e. split; [by apply P|done].
    + apply R.
  - assert (pending_bytes a' = pending_bytes a) as Ep by (unfold pending_bytes; by rewrite Er, Ed).
    assert (control_bytes a' = control_bytes a) as Eb by (unfold control_bytes; by rewrite Ek).
    destruct (pr_resident _ _ _ P) as [R1 R2]; [split; apply L|]. destruct L.
    split; rewrite ?Ed, ?E1, ?E2, ?E3, ?E4, ?Ep, ?Eb; try done; by rewrite ?Ec.
Qed.

Lemma prepared_ok n a a' : alloc_ok n a -> prepared 3 a a' -> alloc_ok (n + 1) a'.
Proof.
  intros [D G R L B Ly] P. destruct (prepared_rest _ _ _ R L P) as [R' L']. split; [apply P|apply P|done|done| |].
  - destruct B. pose proof (pr_count _ _ _ P). split; rewrite ?(pr_dir _ _ _ P); lia.
  - destruct (pr_static _ _ _ P) as (_ & -> & _). done.
Qed.

Lemma alloc_ok_le n m a : alloc_ok n a -> n <= m -> alloc_ok m a.
Proof. intros [D G R L [] Ly] H. split; try done. split; lia. Qed.

Lemma payload_prepared k a a' ref : pages_ok (mem a) (pgs a) -> prepared k a a' -> payload (mem a') ref = payload (mem a) ref.
Proof.
  intros G P. unfold payload, resolveObject. destruct (object (mem a) (slot ref)) as [e|] eqn:E.
  - rewrite (pr_objects _ _ _ P _ _ E). destruct (negb (bool_decide (obj_state e = managedPublished)) || _) eqn:Eif; [done|].
    apply orb_false_iff in Eif as [Eif _]. apply negb_false_iff, bool_decide_eq_true in Eif.
    by rewrite (proj2 (pr_use _ _ _ P _ (live_in_use _ _ _ G (published_live _ _ _ E Eif)))).
  - destruct (object (mem a') (slot ref)) as [e'|] eqn:E'; [|done]. by rewrite (pr_new _ _ _ P _ _ E E').
Qed.

Lemma ledger_nonneg a : ledger_ok a -> 0 <= occupiedBytes (led a) /\ 0 <= reservedBytes (led a) /\ controlBytes (led a) <= occupiedBytes (led a) /\
  sum (control_bytes a) <= reservedBytes (led a).
Proof.
  intros L. pose proof (sum_nonneg _ (led_controls _ L)). pose proof (led_control _ L). rewrite (led_occupied _ L), (led_reserved _ L).
  assert (0 <= sum (map (fun s => logical (meta (dir a) s)) (occupied (dir a)))) by (apply sum_nonneg, Forall_map, Forall_forall; intros; apply L).
  assert (0 <= sum (pending_bytes a)).
  { apply sum_nonneg, Forall_map, Forall_forall. intros y _. destruct (res_done y); [lia|apply L]. }
  lia.
Qed.

Lemma admitGuestBytes_spec n a : ledger_ok a -> 0 <= n ->
  match admitGuestBytes n a with
  | (Ok _, a') => a' = a /\ occupiedBytes (led a) + reservedBytes (led a) + n <= MaxInt64 /\
      (maxGuestBytes (conf a) <> 0 -> occupiedBytes (led a) + reservedBytes (led a) + n <= maxGuestBytes (conf a))
  | (Err e, a') => e <> AllocPanic /\ a' = a
  end.
Proof.
  intros L Hn. pose proof (ledger_nonneg a L). pose proof (led_word _ L). pose proof (led_guest _ L) as Hg. unfold admitGuestBytes, MaxInt64 in *.
  rewrite u64_id by lia. case_if; [done|]. split; [done|]. split; [lia|]. intros Hne. specialize (Hg Hne).
  match goal with H : _ \/ _ |- _ => destruct H; breflect; [done|lia] end.
Qed.

(** What a successful reservation did. *)
Definition reserves (lay cnt : Z) (a a' : allocator) (r : nat) : Prop :=
  r = length (reservations a) /\ exists a1 s e l, prepared 3 a a1 /\ reserved_at a1 a' s e /\ nth_of (layouts a) lay = Some l /\
    (lstride l * cnt <= obj_size e /\ obj_size e = object_bytes (lstride l * cnt)) /\
    layouts a' = layouts a /\ conf a' = conf a.

Lemma reserve_spec n lay cnt lg a :
  alloc_ok n a -> 0 <= n < 2 ^ 30 -> 0 <= cnt -> 0 <= lg ->
  match reserve lay cnt lg a with
  | (Ok r, a') => alloc_ok (n + 1) a' /\ reserves lay cnt a a' r
  | (Err e, a') => e <> AllocPanic /\ alloc_ok (n + 1) a' /\ prepared 3 a a'
  end.
Proof.
  intros A Hn Hc Hlg. pose proof A as [D G R L B Ly]. pose proof B as [B1 B2 B3 B4]. unfold reserve.
  assert (prepared 3 a a) as Prefl by (apply paged_prepared; [done|]; by eapply paged_weaken; [apply paged_refl|]).
  assert (alloc_ok (n + 1) a) as A1 by (eapply alloc_ok_le; [done|lia]).
  destruct (nth_of (layouts a) lay) as [l|] eqn:El; [|done]. case_if; [done|]. case_if; [done|].
  assert (0 <= lstride l < 2 ^ 32) as Hl by (apply nth_of_nat in El as [_ El]; exact (Forall_lookup_1 _ _ _ _ Ly El)).
  destruct (object_bytes_spec (lstride l * cnt)) as [Hsz Hph]; [split; [nia|done]|]. set (size := object_bytes (lstride l * cnt)) in *.
  set (young := size <=? managedPageBytes / 4).
  unfold alloc_bind at 1. pose proof (admitGuestBytes_spec lg a L Hlg) as Ha. destruct (admitGuestBytes lg a) as [[[]|e] a0]; [|by destruct Ha as [? ->]].
  destruct Ha as (-> & Hw & Hg). unfold alloc_bind at 1. rewrite (retire_spec a D). unfold alloc_bind at 1.
  pose proof (ready_slot_spec a D G) as Hs. destruct (ready_slot a) as [[[]|e] a1]; [|by destruct Hs as [? ->]]. destruct Hs as [P1 Hready].
  unfold alloc_bind at 1. pose proof (pr_count _ _ _ P1).
  pose proof (place_spec size young a1 (pr_dir_ok _ _ _ P1) (pr_pages_ok _ _ _ P1) ltac:(lia) Hsz eq_refl) as Hp.
  destruct (place size young a1) as [[[id off]|e] a2]; destruct Hp as [P2 Hp].
  2: { split; [done|]. pose proof (prepared_trans 0 3 _ _ _ P1 Hp) as P. split; [by eapply prepared_ok|done]. }
  pose proof (prepared_trans 0 3 _ _ _ P1 P2) as P. destruct (prepared_rest _ _ _ R L P) as [R2 L2].
  assert (slot_ready (mem a2) (dir a2)) as Hready2.
  { destruct Hready as [Hr|[e He]]; [left; by rewrite (pr_dir _ _ _ P2)|right]. exists e. rewrite (pr_dir _ _ _ P2). by apply P2. }
  destruct (pr_ledger _ _ _ P) as (E1 & E2 & _). destruct (pr_static _ _ _ P) as (E3 & E4 & E5 & _). cbn [fst snd] in *.
  destruct (install_spec a2 lay cnt lg id off size young) as (s & e & a' & -> & Ra & Esz & D' & G' & R' & L' & N' & Np & No & Ny & Nl & Nc);
    [apply P|apply P|done|done|done|rewrite (pr_dir _ _ _ P); unfold MaxUint32; lia|done|lia|done|lia|rewrite E3; intros Hne; specialize (Hg Hne); lia|].
  split.
  - split; try done.
    + pose proof (pr_count _ _ _ P). split; rewrite ?No, ?Ny, ?Np, ?(pr_dir _ _ _ P) in *; lia.
    + by rewrite Nl, E4.
  - rewrite E5. split; [done|]. exists a2, s, e, l. rewrite Esz. split; [done|]. split; [done|]. split; [done|]. split; [done|]. by rewrite Nl, E4, Nc, E3.
Qed.

(** ** Publication *)

Definition same_place (e f : managedObject) : Prop :=
  obj_page f = obj_page e /\ obj_offset f = obj_offset e /\ obj_size f = obj_size e /\ obj_young f = obj_young e.

(** The invariant of pages depends on where the live objects are and on the sizes of pages. *)
Lemma pages_ok_moved h h' g :
  pages_ok h g -> (forall s f, lives h' s f -> exists e, lives h s e /\ same_place e f) ->
  (forall i, (fun p => (length (data p), length (cards p))) <$> pages h' !! i = (fun p => (length (data p), length (cards p))) <$> pages h !! i) ->
  pages_ok h' g.
Proof.
  intros G Hl Hp.
  assert (forall i p, pages h !! i = Some p -> exists p', pages h' !! i = Some p' /\ length (data p') = length (data p) /\ length (cards p') = length (cards p)) as Hf.
  { intros i p Hi. specialize (Hp i). rewrite Hi in Hp. destruct (pages h' !! i) as [p'|]; [|done]. exists p'. cbn in Hp. by injection Hp. }
  assert (length (pages h') = length (pages h)) as Hlen.
  { apply Nat.le_antisymm; apply Nat.nlt_ge; intros H.
    - destruct (lookup_lt_is_Some_2 _ _ H) as [p Hx]. specialize (Hp (length (pages h))). by rewrite Hx, (lookup_ge_None_2 (pages h)) in Hp.
    - destruct (lookup_lt_is_Some_2 _ _ H) as [p Hx]. specialize (Hp (length (pages h'))). by rewrite Hx, (lookup_ge_None_2 (pages h')) in Hp. }
  split.
  - rewrite Hlen. apply G.
  - intros i p' Hi. specialize (Hp i). rewrite Hi in Hp. destruct (pages h !! i) as [p|] eqn:E; [|done]. cbn in Hp. injection Hp as -> _. by eapply pg_bytes.
  - apply G.
  - intros id Hid. destruct (pg_free _ _ G id Hid) as (H1 & H2 & H3). rewrite Hlen. split; [done|]. split; [done|].
    intros s f Hs. destruct (Hl s f Hs) as (e & He & -> & _). by eapply H3.
  - intros id Hid. destruct (pg_nursery _ _ G id Hid) as (H1 & p & x & H2 & H3 & H4 & H5). split; [done|].
    destruct (Hf _ _ H2) as (p' & Hp' & Hd & _). exists p', x. by rewrite Hd.
  - apply G.
  - intros s f Hs. destruct (Hl s f Hs) as (e & He & E1 & E2 & E3 & E4). destruct (pg_placed _ _ G s e He) as [Hn (p & x & H1 & H2 & H3 & H4 & H5)].
    destruct (Hf _ _ H1) as (p' & Hp' & Hd & Hc). split; [by rewrite E1, E2, E3|]. exists p', x. unfold in_place in *. by rewrite E1, E2, E3, E4, Hd, Hc.
  - intros s1 s2 f1 f2 H1 H2 Hne. destruct (Hl _ _ H1) as (e1 & He1 & A1 & A2 & A3 & _), (Hl _ _ H2) as (e2 & He2 & B1 & B2 & B3 & _).
    pose proof (pg_apart _ _ G _ _ _ _ He1 He2 Hne) as Ha. unfold apart in *. by rewrite A1, A2, A3, B1, B2, B3.
Qed.

Lemma meta_push s young d i :
  meta (push_occupied s young d) i =
    if decide (i = s) then (if young then with_young (u32 (Z.of_nat (length (youngSlots d)))) else id)
                             (with_occupied (u32 (Z.of_nat (length (occupied d)))) (meta d s)) else meta d i.
Proof.
  unfold push_occupied, meta at 1. cbn [metas]. case_decide as E; [subst i; rewrite lookup_insert_eq; by destruct young|]. by rewrite lookup_insert_ne.
Qed.

Lemma logical_push s young d i : logical (meta (push_occupied s young d) i) = logical (meta d i).
Proof. rewrite meta_push. case_decide as E; [subst i|done]. by destruct young. Qed.

(** The directory after a reserved object was published. *)
Lemma dir_publish h d s e h' :
  dir_ok h d -> object h s = Some e -> obj_state e = managedReserved -> segments h' = segments (set_object s (with_obj_state managedPublished e) h) ->
  Z.of_nat (length (occupied d)) < 2 ^ 32 -> Z.of_nat (length (youngSlots d)) < 2 ^ 32 -> dir_ok h' (push_occupied s (obj_young e) d).
Proof.
  intros D He Hst Es Lo Ly. set (e' := with_obj_state managedPublished e).
  assert (forall i, object h' i = if decide (i = s) then Some e' else object h i) as Ho.
  { intros i. rewrite (object_segments _ _ i Es). by apply (object_set h s e). }
  assert (forall i, i ∈ occupied d -> i <> s) as No by (intros i Hi; eapply occupied_not_free; [done|done|done|by rewrite Hst]).
  assert (forall i, i ∈ youngSlots d -> i <> s) as Ny by (intros i Hi; eapply young_not_free; [done|done|done|by rewrite Hst]).
  assert (0 < s < nextSlot d) as Hs.
  { split; [by eapply object_pos|]. apply Z.nle_gt. intros H. pose proof (dir_unused _ _ D s e H He) as ->. done. }
  split; cbn [push_occupied freeSlots nextSlot occupied youngSlots].
  - unfold full_segments. rewrite Es. apply full_set_object, D.
  - apply D.
  - intros i Hi. rewrite Ho. case_decide; [done|]. by apply D.
  - intros i f Hi Hf. rewrite Ho in Hf. case_decide as E; [lia|]. by eapply D.
  - apply D.
  - intros i Hi. destruct (dir_free _ _ D i Hi) as (H1 & f & Hf & H2 & H3). split; [done|]. exists f. rewrite Ho, decide_False; [done|]. intros ->. congruence.
  - intros i f Hf. rewrite Ho in Hf. case_decide as E; [subst i; injection Hf as <-; by apply (dir_generation _ _ D s e)|by eapply D].
  - intros i j Hj. apply lookup_app_Some in Hj as [Hj|[Hl Hj]].
    + pose proof (No j ltac:(by eapply list_elem_of_lookup_2)) as Hne. rewrite meta_push, Ho, !decide_False by done. by apply D.
    + apply list_lookup_singleton_Some in Hj as [Hi <-]. rewrite meta_push, Ho, !decide_True by done. split; [|by exists e'].
      destruct (obj_young e); cbn; rewrite u32_id by lia; lia.
  - intros i f Hf Hp. rewrite Ho in Hf. apply elem_of_app. case_decide as E; [subst i; right; by left|left]. by eapply D.
  - intros i j Hj. destruct (obj_young e) eqn:Ey.
    + apply lookup_app_Some in Hj as [Hj|[Hl Hj]].
      * pose proof (Ny j ltac:(by eapply list_elem_of_lookup_2)) as Hne. rewrite meta_push, Ho, !decide_False by done. by apply D.
      * apply list_lookup_singleton_Some in Hj as [Hi <-]. rewrite meta_push, Ho, !decide_True by done. cbn. rewrite u32_id by lia. split; [lia|]. by exists e'.
    + pose proof (Ny j ltac:(by eapply list_elem_of_lookup_2)) as Hne. rewrite meta_push, Ho, !decide_False by done. by apply D.
  - intros i f Hf Hp Hy. rewrite Ho in Hf. case_decide as E.
    + subst i. injection Hf as <-. cbn in Hy. rewrite Hy. apply elem_of_app. right. by left.
    + destruct (obj_young e); [apply elem_of_app; left|]; by eapply (dir_young_all _ _ D).
Qed.

Lemma sum_alter {A} (f : A -> Z) (g : A -> A) r l x : l !! r = Some x -> sum (map f (alter g r l)) = sum (map f l) - f x + f (g x).
Proof.
  intros Hx. rewrite (alter_insert_lookup _ _ _ _ Hx). rewrite <- (take_drop_middle _ _ _ Hx) at 2.
  rewrite insert_take_drop by by eapply lookup_lt_Some. rewrite !map_app, !sum_app. cbn [map sum foldr]. unfold sum. lia.
Qed.

Record committed (a a' : allocator) (r : nat) (ref : guestRef) (e : managedObject) : Prop := {
  cm_object : object (mem a) (slot ref) = Some e /\ obj_state e = managedReserved /\ obj_generation e = generation ref;
  cm_objects : forall i, object (mem a') i = if decide (i = slot ref) then Some (with_obj_state managedPublished e) else object (mem a) i;
  cm_reservations : reservations a' = alter (fun x => mkReservation (res_ref x) true) r (reservations a);
  cm_data : forall p, data <$> pages (mem a') !! p = data <$> pages (mem a) !! p;
  cm_static : layouts a' = layouts a /\ conf a' = conf a
}.

Lemma occupied_nodup h d : dir_ok h d -> NoDup (occupied d) /\ NoDup (youngSlots d).
Proof.
  intros D. split; apply NoDup_alt; intros i j s Hi Hj.
  - destruct (dir_occupied _ _ D i s Hi) as [E1 _], (dir_occupied _ _ D j s Hj) as [E2 _]. lia.
  - destruct (dir_young _ _ D i s Hi) as [E1 _], (dir_young _ _ D j s Hj) as [E2 _]. lia.
Qed.

Lemma sum_perm l k : l ≡ₚ k -> sum l = sum k.
Proof. unfold sum. induction 1; cbn [foldr]; lia. Qed.

Lemma sum_submseteq l k : l ⊆+ k -> Forall (fun x => 0 <= x) k -> sum l <= sum k.
Proof.
  intros [k' E]%submseteq_Permutation Hk. rewrite (sum_perm _ _ E), sum_app. rewrite E in Hk. apply Forall_app in Hk as [_ Hk]. pose proof (sum_nonneg _ Hk). lia.
Qed.

(** Young objects are occupied ones. *)
Lemma young_bytes_le a : dir_ok (mem a) (dir a) -> ledger_ok a -> 0 <= youngBytes (led a) <= occupiedBytes (led a) - controlBytes (led a).
Proof.
  intros D L. rewrite (led_young _ L), (led_occupied _ L).
  assert (forall l, Forall (fun x => 0 <= x) (map (fun s => logical (meta (dir a) s)) l)) as Hnn by (intros l; apply Forall_map, Forall_forall; intros; apply L).
  split; [by apply sum_nonneg|]. assert (sum (map (fun s => logical (meta (dir a) s)) (youngSlots (dir a))) <= sum (map (fun s => logical (meta (dir a) s)) (occupied (dir a)))); [|lia].
  apply sum_submseteq; [|done]. apply fmap_submseteq. apply NoDup_submseteq; [by eapply occupied_nodup|]. intros s Hs.
  apply list_elem_of_lookup in Hs as [i Hi]. destruct (dir_young _ _ D i s Hi) as (_ & e & He & Hp & _). by eapply D.
Qed.

(** The ledger after bytes moved from reserved to occupied. *)
Lemma ledger_publish a a' r x young :
  dir_ok (mem a) (dir a) -> ledger_ok a -> reservations a !! r = Some x -> res_done x = false ->
  dir a' = push_occupied (slot (res_ref x)) young (dir a) -> reservations a' = alter (fun x => mkReservation (res_ref x) true) r (reservations a) ->
  conf a' = conf a -> controls a' = controls a ->
  (forall n, n = logical (meta (dir a) (slot (res_ref x))) ->
     occupiedBytes (led a') = u64 (occupiedBytes (led a) + n) /\ reservedBytes (led a') = u64 (reservedBytes (led a) + - n) /\
     youngBytes (led a') = (if young then u64 (youngBytes (led a) + n) else youngBytes (led a)) /\ controlBytes (led a') = controlBytes (led a) /\
     residentPageBytes (led a') = residentPageBytes (led a)) ->
  ledger_ok a'.
Proof.
  intros D L Hx Hd Ed Er Ec Ek Hled. destruct (Hled _ eq_refl) as (E1 & E2 & E3 & E4 & E5). clear Hled. set (s := slot (res_ref x)) in *.
  set (n := logical (meta (dir a) s)) in *. pose proof (ledger_nonneg a L) as Hnn. pose proof (led_word _ L) as Hw. pose proof (led_logical _ L s) as Hn. fold n in Hn.
  pose proof (young_bytes_le a D L) as Hyo.
  assert (forall i, logical (meta (dir a') i) = logical (meta (dir a) i)) as Hlog by (intros i; rewrite Ed; apply logical_push).
  assert (forall l, sum (map (fun s => logical (meta (dir a') s)) l) = sum (map (fun s => logical (meta (dir a) s)) l)) as Hsum.
  { intros l. apply sum_map_ext. intros i _. apply Hlog. }
  assert (control_bytes a' = control_bytes a) as Eb by (unfold control_bytes; by rewrite Ek).
  assert (sum (pending_bytes a') = sum (pending_bytes a) - n) as Ep.
  { unfold pending_bytes. rewrite Er, (sum_alter _ _ _ _ _ Hx). cbn [res_done]. rewrite Hd. fold s. rewrite Hlog. fold n.
    rewrite (sum_map_ext _ (fun x => if res_done x then 0 else logical (meta (dir a) (slot (res_ref x))))); [lia|]. intros y _. by rewrite Hlog. }
  assert (n <= sum (pending_bytes a)) as Hle.
  { assert (0 <= sum (pending_bytes a')); [|lia]. apply sum_nonneg, Forall_map, Forall_forall. intros y _. destruct (res_done y); [lia|]. rewrite Hlog. apply L. }
  pose proof (led_reserved _ L) as Hr. pose proof (sum_nonneg _ (led_controls _ L)). pose proof (led_guest _ L) as Hg. pose proof (led_control _ L).
  unfold MaxInt64 in *. rewrite u64_id in E1, E2 by lia.
  split; rewrite ?Hsum, ?Eb, ?Ep, ?E4, ?E5, ?Ec; try apply L.
  - intros i. rewrite Hlog. apply L.
  - rewrite E1, Ed, (led_occupied _ L). cbn [push_occupied occupied]. rewrite map_app, sum_app. cbn [map sum foldr]. fold n. lia.
  - rewrite E2. lia.
  - rewrite E3, Ed, (led_young _ L). cbn [push_occupied youngSlots]. destruct young; [|done]. rewrite map_app, sum_app. cbn [map sum foldr]. fold n.
    rewrite Z.add_0_r, u64_id; [done|]. rewrite <- (led_young _ L). lia.
  - rewrite E1, E2. unfold MaxInt64. lia.
  - rewrite E1, E2. intros Hne. specialize (Hg Hne). lia.
Qed.

Lemma reserved_finish a a' r x :
  reserved_ok a -> reservations a !! r = Some x -> res_done x = false ->
  reservations a' = alter (fun x => mkReservation (res_ref x) true) r (reservations a) ->
  (forall i, i <> slot (res_ref x) -> object (mem a') i = object (mem a) i) -> reserved_ok a'.
Proof.
  intros R Hx Hd Er Ho.
  assert (forall r' y, reservations a' !! r' = Some y -> res_done y = false -> r' <> r /\ reservations a !! r' = Some y) as Hin.
  { intros r' y Hy Hdy. rewrite Er in Hy. destruct (decide (r' = r)) as [->|Hne].
    - rewrite list_lookup_alter_eq, Hx in Hy. injection Hy as <-. done.
    - by rewrite list_lookup_alter_ne in Hy. }
  split.
  - intros r' y Hy Hdy. destruct (Hin _ _ Hy Hdy) as [Hne Hy']. rewrite Ho; [by eapply R|]. intros E. apply Hne. by eapply R.
  - intros r1 r2 y1 y2 H1 H2 D1 D2. destruct (Hin _ _ H1 D1) as [_ H1'], (Hin _ _ H2 D2) as [_ H2']. by eapply R.
Qed.

Lemma bounded_more n a a' :
  bounded n a -> nextSlot (dir a') <= nextSlot (dir a) -> length (pages (mem a')) = length (pages (mem a)) ->
  (length (occupied (dir a')) <= S (length (occupied (dir a))))%nat -> (length (youngSlots (dir a')) <= S (length (youngSlots (dir a))))%nat -> bounded (n + 1) a'.
Proof. intros []. split; lia. Qed.

Lemma commit_spec n r x a :
  alloc_ok n a -> 0 <= n < 2 ^ 30 -> reservations a !! r = Some x -> res_done x = false ->
  exists e a', commit r a = (Ok (res_ref x), a') /\ alloc_ok (n + 1) a' /\ committed a a' r (res_ref x) e.
Proof.
  intros [D G R L B Ly] Hn Hx Hd. destruct (res_held _ R r x Hx Hd) as (e & He & Hst & Hgen). exists e. unfold commit. rewrite Hx, Hd, He.
  set (s := slot (res_ref x)) in *. set (e' := with_obj_state managedPublished e). set (a2 := set_led _ (set_dir _ a)).
  set (a3 := finish r (set_mem (set_object s e' (mem a2)) a2)).
  assert (exists h, (if obj_young e then (Ok (res_ref x), a3)
      else match dirtyRegion (mem a3) e' 0 (obj_size e') with Ok h => (Ok (res_ref x), set_mem h a3) | Err _ => (Err AllocPanic, a3) end)
      = (Ok (res_ref x), set_mem h a3) /\ same_memory (set_object s e' (mem a)) h) as (h & -> & Sm).
  { assert (lives (mem a) s e) as Hl by (split; [done|]; unfold live; by rewrite Hst).
    destruct (pg_placed _ _ G s e Hl) as [Hnum (p & y & Hp & _ & Hb & Hc & _)].
    destruct (obj_young e) eqn:Ey; [exists (mem a3); split; [done|apply same_memory_refl]|].
    destruct (dirtyRegion_spec (mem a3) e' 0 (obj_size e')) as (h & -> & Sm & _); [|lia|cbn; lia|cbn; lia|by exists h].
    split; [done|]. exists p. cbn. repeat (split; [first [done|by eapply pg_bytes]|]). intros _. by apply Hc. }
  exists (set_mem h a3). split; [done|]. destruct Sm as [S1 S2 S3 S4].
  assert (forall i, object h i = if decide (i = s) then Some e' else object (mem a) i) as Ho.
  { intros i. rewrite (object_segments _ _ i S1). by apply (object_set _ s e). }
  assert (forall i, (fun p => (data p, length (cards p))) <$> pages h !! i = (fun p => (data p, length (cards p))) <$> pages (mem a) !! i) as Hpg by exact S2.
  destruct B as [B1 B2 B3 B4].
  assert (pages_ok h (pgs a)) as G'.
  { apply (pages_ok_moved (mem a)); [done| |].
    - intros i f [Hf Hl]. rewrite Ho in Hf. case_decide as E; [subst i; injection Hf as <-; exists e; split; [split; [done|unfold live; by rewrite Hst]|by repeat split]|].
      exists f. by repeat split.
    - intros i. specialize (Hpg i). destruct (pages h !! i), (pages (mem a) !! i); cbn in *; congruence. }
  split; [split|split].
  - cbn. by apply (dir_publish (mem a) (dir a) s e); [..|lia|lia].
  - exact G'.
  - eapply reserved_finish; [exact R|exact Hx|done|done|]. intros i Hi. cbn. by rewrite Ho, decide_False.
  - eapply (ledger_publish a _ r x (obj_young e)); try done. intros m ->. cbn. destruct (obj_young e); done.
  - eapply bounded_more; [by split|cbn; lia| |cbn; rewrite length_app; cbn; lia|].
    + cbn. rewrite <- (pg_length _ _ G), <- (pg_length _ _ G'). done.
    + cbn. destruct (obj_young e); rewrite ?length_app; cbn; lia.
  - done.
  - done.
  - intros i. cbn. by rewrite Ho.
  - done.
  - intros p. cbn. specialize (Hpg p). destruct (pages h !! p), (pages (mem a) !! p); cbn in *; congruence.
  - done.
Qed.

(** ** Release *)

Lemma swap_remove_spec (idx : Z -> Z) l s :
  (forall j y, l !! j = Some y -> idx y = Z.of_nat j) -> s ∈ l ->
  exists x l', swap_remove l (idx s) = Some (x, l') /\ l ≡ₚ s :: l' /\
    forall j y, l' !! j = Some y -> (if decide (y = x) then idx s else idx y) = Z.of_nat j.
Proof.
  intros Hidx [i Hi]%list_elem_of_lookup. pose proof (Hidx _ _ Hi) as Es. destruct (list_last_split l) as (l0 & x & ->); [by intros ->|].
  assert (idx x = Z.of_nat (length l0)) as Ex by (apply Hidx; by rewrite lookup_app_r, Nat.sub_diag).
  pose proof (lookup_lt_Some _ _ _ Hi) as Hlt. rewrite length_app in Hlt. cbn in Hlt.
  exists x, (<[i := x]> l0). unfold swap_remove. rewrite last_snoc. cbn [mbind option_bind]. rewrite Es, length_app. cbn [length].
  rewrite (proj2 (Z.leb_le _ _)), (proj2 (Z.ltb_lt _ _)) by lia. cbn [andb]. rewrite Nat2Z.id. replace (length l0 + 1 - 1)%nat with (length l0) by lia.
  split; [|split].
  - do 2 f_equal. destruct (decide (i < length l0)%nat) as [H|H].
    + rewrite insert_app_l by done. rewrite take_app_length' by by rewrite length_insert. done.
    + rewrite insert_app_r_alt by lia. rewrite take_app_length. by rewrite list_insert_ge by lia.
  - destruct (decide (i < length l0)%nat) as [H|H].
    + rewrite lookup_app_l in Hi by done. rewrite <- (take_drop_middle l0 i s Hi) at 1. rewrite insert_take_drop by done.
      rewrite <- app_assoc. cbn [app]. rewrite <- !Permutation_middle. by rewrite app_nil_r.
    + rewrite lookup_app_r in Hi by lia. apply list_lookup_singleton_Some in Hi as [_ <-]. rewrite list_insert_ge by lia. by rewrite <- Permutation_cons_append.
  - intros j y Hj. case_decide as E.
    + subst y. destruct (decide (j = i)) as [->|Hne]; [done|]. rewrite list_lookup_insert_ne in Hj by done. apply lookup_lt_Some in Hj as Hjl.
      rewrite <- (lookup_app_l l0 [x]) in Hj by done. apply Hidx in Hj. lia.
    + destruct (decide (j = i)) as [->|Hne].
      * apply lookup_lt_Some in Hj as Hjl. rewrite length_insert in Hjl. rewrite list_lookup_insert_eq in Hj by done. congruence.
      * rewrite list_lookup_insert_ne in Hj by done. apply lookup_lt_Some in Hj as Hjl. rewrite <- (lookup_app_l l0 [x]) in Hj by done. by apply Hidx.
Qed.

Lemma meta_mk fs oc ys nx m i : meta (mkDirectory fs oc ys nx m) i = default zero_meta (m !! i).
Proof. done. Qed.

Lemma remove_occupied_spec s d :
  (forall j y, occupied d !! j = Some y -> occupiedIndex (meta d y) = Z.of_nat j) -> s ∈ occupied d ->
  exists d1, remove_occupied s d = Some d1 /\ freeSlots d1 = freeSlots d /\ youngSlots d1 = youngSlots d /\ nextSlot d1 = nextSlot d /\
    occupied d ≡ₚ s :: occupied d1 /\ (forall j y, occupied d1 !! j = Some y -> occupiedIndex (meta d1 y) = Z.of_nat j) /\
    forall i, with_occupied 0 (meta d1 i) = with_occupied 0 (meta d i).
Proof.
  intros Hidx Hs. destruct (swap_remove_spec (fun s => occupiedIndex (meta d s)) _ s Hidx Hs) as (x & l' & Esw & Hperm & Hl').
  unfold remove_occupied. rewrite Esw. cbn [mbind option_bind]. eexists. split; [done|]. cbn [freeSlots youngSlots nextSlot occupied].
  repeat (split; [done|]). split.
  - intros j y Hj. specialize (Hl' j y Hj). rewrite meta_mk. destruct (decide (y = x)) as [->|E]; [rewrite lookup_insert_eq; exact Hl'|]. by rewrite lookup_insert_ne.
  - intros i. rewrite !meta_mk. destruct (decide (i = x)) as [->|E]; [by rewrite lookup_insert_eq|]. by rewrite lookup_insert_ne.
Qed.

Lemma remove_young_spec s d :
  (forall j y, youngSlots d !! j = Some y -> youngIndex (meta d y) = Z.of_nat j) -> s ∈ youngSlots d ->
  exists d1, remove_young s d = Some d1 /\ freeSlots d1 = freeSlots d /\ occupied d1 = occupied d /\ nextSlot d1 = nextSlot d /\
    youngSlots d ≡ₚ s :: youngSlots d1 /\ (forall j y, youngSlots d1 !! j = Some y -> youngIndex (meta d1 y) = Z.of_nat j) /\
    forall i, with_young 0 (meta d1 i) = with_young 0 (meta d i).
Proof.
  intros Hidx Hs. destruct (swap_remove_spec (fun s => youngIndex (meta d s)) _ s Hidx Hs) as (x & l' & Esw & Hperm & Hl').
  unfold remove_young. rewrite Esw. cbn [mbind option_bind]. eexists. split; [done|]. cbn [freeSlots youngSlots nextSlot occupied].
  repeat (split; [done|]). split.
  - intros j y Hj. specialize (Hl' j y Hj). rewrite meta_mk. destruct (decide (y = x)) as [->|E]; [rewrite lookup_insert_eq; exact Hl'|]. by rewrite lookup_insert_ne.
  - intros i. rewrite !meta_mk. destruct (decide (i = x)) as [->|E]; [by rewrite lookup_insert_eq|]. by rewrite lookup_insert_ne.
Qed.

(** The slots before the removed one keep their places. *)
Lemma remove_young_prefix s d d1 : remove_young s d = Some d1 -> forall j, Z.of_nat j < youngIndex (meta d s) -> youngSlots d1 !! j = youngSlots d !! j.
Proof.
  unfold remove_young, swap_remove. destruct (last (youngSlots d)) as [x|]; [|done]. cbn [mbind option_bind].
  destruct ((0 <=? youngIndex (meta d s)) && (youngIndex (meta d s) <? Z.of_nat (length (youngSlots d)))) eqn:E; [|done]. apply andb_true_iff in E as [E1 E2]. breflect.
  cbn [mbind option_bind]. intros H j Hj. injection H as <-. cbn. rewrite lookup_take_lt by lia. by rewrite list_lookup_insert_ne by lia.
Qed.

(** Removing one object from its page. *)
Lemma pages_remove h h' g g1 s e x x1 :
  pages_ok h g -> lives h s e -> pages h' = pages h -> (forall i f, lives h' i f -> i <> s /\ lives h i f) ->
  pmetas g !! Z.to_nat (obj_page e) = Some x -> kind x <> managedYoungPage ->
  (forall i f, i <> s -> lives h i f -> obj_page f = obj_page e -> in_place i f x -> in_place i f x1) ->
  pmetas g1 = <[Z.to_nat (obj_page e) := x1]> (pmetas g) -> freePages g1 = freePages g -> nurseryPages g1 = nurseryPages g ->
  length (oldAvailable g1) = length (oldAvailable g) -> pages_ok h' g1.
Proof.
  intros G Hs Ep Hl Hx Hk Hin Em Ef En Eo. destruct (pg_placed _ _ G s e Hs) as [(Hn & _) _].
  assert (forall i, i <> Z.to_nat (obj_page e) -> pmetas g1 !! i = pmetas g !! i) as Hoth by (intros; rewrite Em; by rewrite list_lookup_insert_ne).
  split; rewrite ?Ep, ?Ef, ?En, ?Eo; try apply G.
  - rewrite Em, length_insert. apply G.
  - intros id Hid. destruct (pg_free _ _ G id Hid) as (H1 & H2 & H3). split; [done|]. split; [done|]. intros i f Hf. apply (H3 i). by apply Hl.
  - intros id Hid. destruct (pg_nursery _ _ G id Hid) as (H1 & p & y & H2 & H3 & H4 & H5 & H6). split; [done|]. exists p, y.
    rewrite Hoth; [done|]. intros E. rewrite E in H3. congruence.
  - intros i f Hf. destruct (Hl i f Hf) as [Hne Hf']. destruct (pg_placed _ _ G i f Hf') as [Hnum (p & y & H1 & H2 & H3 & H4 & H5)]. split; [done|].
    rewrite Ep. destruct (decide (Z.to_nat (obj_page f) = Z.to_nat (obj_page e))) as [E|E]; [|exists p, y; by rewrite Hoth].
    assert (obj_page f = obj_page e) as E' by lia. rewrite E' in H2. assert (y = x) as -> by congruence. exists p, x1. split; [done|].
    rewrite E', Em, list_lookup_insert_eq by by eapply lookup_lt_Some. repeat (split; [done|]). by apply Hin.
  - intros s1 s2 e1 e2 H1 H2. apply (pg_apart _ _ G s1 s2); by apply Hl.
Qed.

(** The effect of [vacate_page]: only page metadata, and the pages are right for a heap without the object. *)
Definition vacated (a : allocator) (s : Z) (a1 : allocator) : Prop :=
  exists g1, a1 = set_pgs g1 a /\ forall h', pages h' = pages (mem a) -> (forall i f, lives h' i f -> i <> s /\ lives (mem a) i f) -> pages_ok h' g1.

Lemma pages_subset h h' g : pages_ok h g -> pages h' = pages h -> (forall i f, lives h' i f -> lives h i f) -> pages_ok h' g.
Proof. intros G Ep Hl. apply (pages_ok_moved h); [done| |by rewrite Ep]. intros s f Hf. exists f. split; [by apply Hl|by repeat split]. Qed.

Lemma set_pgs_id a : set_pgs (pgs a) a = a.
Proof. by destruct a. Qed.

Lemma vacate_page_spec a s e : pages_ok (mem a) (pgs a) -> lives (mem a) s e -> exists a1, vacate_page e a = (Ok tt, a1) /\ vacated a s a1.
Proof.
  intros G Hs. pose proof (pg_placed _ _ G s e Hs) as [(Hn & Ho & _) (p & x & Hp & Hx & _ & _ & Hin)]. unfold vacate_page, page_meta.
  rewrite (proj2 (nth_of_nat _ _ x)) by done. destruct (obj_young e) eqn:Ey.
  { exists a. split; [done|]. exists (pgs a). rewrite set_pgs_id. split; [done|]. intros h' Ep Hl. eapply pages_subset; [exact G|done|]. intros i f Hf. by apply Hl. }
  unfold in_place in Hin. rewrite Ey in Hin. destruct Hin as [(Hk & H0 & He)|(Hk & k & Hkr & Hc & Hsz & He)].
  - rewrite bool_decide_false by by rewrite Hk. unfold alloc_bind, must. rewrite He. cbn [alloc_return]. unfold modify. eexists. split; [done|].
    eexists. split; [done|]. intros h' Ep Hl. eapply (pages_remove (mem a) h' (pgs a) _ s e x
      (mkPageMeta (<[0%nat := 0]> (entries x)) (pfree x) 0 (pclass x) (partner x) (cardCapacity x) (kind x) (resident x) (leased x))); try done; [by rewrite Hk|].
    intros i f Hne _ _ Hif. exfalso. unfold in_place in Hif. rewrite Hk in Hif. destruct (obj_young f); [by destruct Hif|].
    destruct Hif as [(_ & _ & ?)|(? & _)]; congruence.
  - rewrite bool_decide_true by done. rewrite Hc. assert (0 < 2 ^ k) as Hpk by (apply Z.pow_pos_nonneg; lia).
    set (idx := obj_offset e / 2 ^ k) in *. assert (0 <= idx) as Hidx by (apply Z.div_pos; lia).
    unfold alloc_bind at 1. rewrite (proj2 (nth_of_nat _ _ s)) by done. cbn [must alloc_return]. unfold alloc_bind at 1.
    assert (exists g0, match pfree x with [] => push_available (trailing_zeros (2 ^ k) - 3) (obj_page e) | _ => alloc_return tt end a = (Ok tt, set_pgs g0 a) /\
      pmetas g0 = pmetas (pgs a) /\ freePages g0 = freePages (pgs a) /\ nurseryPages g0 = nurseryPages (pgs a) /\
      length (oldAvailable g0) = length (oldAvailable (pgs a))) as (g0 & -> & E1 & E2 & E3 & E4).
    { destruct (pfree x); [|exists (pgs a); by rewrite set_pgs_id]. rewrite trailing_zeros_pow by lia. unfold push_available.
      destruct (lookup_lt_is_Some_2 (oldAvailable (pgs a)) (Z.to_nat (k - 3))) as [l Hl]; [rewrite (pg_available _ _ G); lia|].
      rewrite (proj2 (nth_of_nat _ _ l)) by (split; [lia|done]). eexists. split; [done|]. cbn. by rewrite length_insert. }
    unfold modify. eexists. split; [done|]. eexists. split; [done|]. intros h' Ep Hl. cbn [set_pgs pgs].
    eapply (pages_remove (mem a) h' (pgs a) _ s e x
      (mkPageMeta (<[Z.to_nat idx := 0]> (entries x)) (idx :: pfree x) (u32 (used x - 2 ^ k)) (2 ^ k) (partner x) (cardCapacity x) (kind x) (resident x) (leased x)));
      try done; [by rewrite Hk| |cbn; by rewrite E1].
    intros i f Hne _ _ Hif. unfold in_place in *. rewrite Hk in Hif. destruct (obj_young f); [by destruct Hif|].
    destruct Hif as [(? & _)|(_ & j & Hj & Hcj & Hszj & Hej)]; [done|]. right. split; [done|]. exists j. cbn [pclass entries]. rewrite Hc in Hcj.
    split; [done|]. split; [done|]. split; [done|]. rewrite list_lookup_insert_ne; [done|]. intros E. rewrite <- Hcj in Hej. fold idx in E.
    rewrite <- Hcj in E. rewrite <- E in Hej. congruence.
Qed.

(** The fields that do not depend on places in lists. *)
Definition unindexed (x : objectMeta) : objectMeta := with_occupied 0 (with_young 0 x).

Lemma unindexed_occupied x y : with_occupied 0 x = with_occupied 0 y -> unindexed x = unindexed y /\ youngIndex x = youngIndex y.
Proof. destruct x, y. unfold with_occupied. cbn. intros H. injection H as -> -> -> -> -> ->. done. Qed.

Lemma unindexed_young x y : with_young 0 x = with_young 0 y -> unindexed x = unindexed y /\ occupiedIndex x = occupiedIndex y.
Proof. destruct x, y. unfold with_young. cbn. intros H. injection H as -> -> -> -> -> ->. done. Qed.

Lemma unindexed_fields x y : unindexed x = unindexed y ->
  layout x = layout y /\ count x = count y /\ logical x = logical y /\ marked x = marked y /\ age x = age y.
Proof. destruct x, y. unfold unindexed, with_occupied, with_young. cbn. intros H. injection H as -> -> -> -> ->. done. Qed.

(** The directory without the object of [s]. *)
Record slot_freed (d : directory) (s : Z) (published young recycled : bool) (d' : directory) : Prop := {
  sf_next : nextSlot d' = nextSlot d;
  sf_free : freeSlots d' = if recycled then s :: freeSlots d else freeSlots d;
  sf_occupied : if published then occupied d ≡ₚ s :: occupied d' else occupied d' = occupied d;
  sf_young : if published && young then youngSlots d ≡ₚ s :: youngSlots d' else youngSlots d' = youngSlots d;
  sf_oindex : forall j y, occupied d' !! j = Some y -> occupiedIndex (meta d' y) = Z.of_nat j;
  sf_yindex : forall j y, youngSlots d' !! j = Some y -> youngIndex (meta d' y) = Z.of_nat j;
  sf_prefix : forall j, Z.of_nat j < youngIndex (meta d s) -> youngSlots d' !! j = youngSlots d !! j;
  sf_logical : forall i, logical (meta d' i) = if decide (i = s) then 0 else logical (meta d i);
  sf_meta : forall i, unindexed (with_logical 0 (meta d' i)) = unindexed (with_logical 0 (meta d i))
}.

Lemma perm_member (s : Z) l l' y : NoDup l -> l ≡ₚ s :: l' -> y ∈ l' <-> y ∈ l /\ y <> s.
Proof.
  intros Hnd E. rewrite E in Hnd. apply NoDup_cons in Hnd as [Hn _]. rewrite E, elem_of_cons. split.
  - intros H. split; [by right|]. by intros ->.
  - intros [[?|?] ?]; done.
Qed.

Lemma dir_freed h d s e h' d' :
  dir_ok h d -> object h s = Some e -> live e -> segments h' = segments (set_object s (with_obj_state managedFree e) h) ->
  slot_freed d s (bool_decide (obj_state e = managedPublished)) (obj_young e) (negb (obj_generation e =? MaxUint32)) d' -> dir_ok h' d'.
Proof.
  intros D He Hl Es F. set (e' := with_obj_state managedFree e). destruct (occupied_nodup _ _ D) as [No Ny].
  assert (forall i, object h' i = if decide (i = s) then Some e' else object h i) as Ho.
  { intros i. rewrite (object_segments _ _ i Es). by apply (object_set h s e). }
  assert (forall i f, object h' i = Some f -> obj_state f = managedPublished -> i <> s /\ object h i = Some f) as Hpub.
  { intros i f Hf Hp. rewrite Ho in Hf. destruct (decide (i = s)); [by injection Hf as <-|done]. }
  assert (forall y, y ∈ occupied d' <-> y ∈ occupied d /\ y <> s) as Hocc.
  { intros y. pose proof (sf_occupied _ _ _ _ _ _ F) as Hf. case_bool_decide as Hp; [by apply perm_member|]. rewrite Hf. split; [|by intros [? _]].
    intros Hy. split; [done|]. eapply occupied_not_free; [exact D|exact Hy|exact He|exact Hp]. }
  assert (forall y, y ∈ youngSlots d' <-> y ∈ youngSlots d /\ y <> s) as Hyng.
  { intros y. pose proof (sf_young _ _ _ _ _ _ F) as Hf. destruct (bool_decide (obj_state e = managedPublished) && obj_young e) eqn:Eb; [by apply perm_member|].
    rewrite Hf. split; [|by intros [? _]]. intros Hy. split; [done|]. intros ->. apply list_elem_of_lookup in Hy as [j Hj].
    destruct (dir_young _ _ D j s Hj) as (_ & f & Hf' & Hp & Hyy). assert (f = e) as -> by congruence. by rewrite bool_decide_true, Hyy in Eb. }
  assert (s ∉ freeSlots d) as Hnf.
  { intros Hf. destruct (dir_free _ _ D s Hf) as (_ & f & Hf' & Hst & _). assert (f = e) as -> by congruence. by destruct Hl. }
  assert (0 < s < nextSlot d) as Hs.
  { split; [by eapply object_pos|]. apply Z.nle_gt. intros H. pose proof (dir_unused _ _ D s e H He) as ->. by destruct Hl. }
  pose proof (dir_generation _ _ D s e He) as Hgen.
  split.
  - unfold full_segments. rewrite Es. apply full_set_object, D.
  - rewrite (sf_next _ _ _ _ _ _ F). apply D.
  - intros i Hi. rewrite (sf_next _ _ _ _ _ _ F) in Hi. rewrite Ho. destruct (decide (i = s)); [by eexists|]. by apply D.
  - intros i f Hi Hf. rewrite (sf_next _ _ _ _ _ _ F) in Hi. rewrite Ho in Hf. destruct (decide (i = s)); [lia|]. by eapply D.
  - rewrite (sf_free _ _ _ _ _ _ F). case_match; [|apply D]. apply NoDup_cons. split; [done|apply D].
  - intros i Hi. rewrite (sf_next _ _ _ _ _ _ F). rewrite (sf_free _ _ _ _ _ _ F) in Hi.
    assert (i = s /\ obj_generation e <> MaxUint32 \/ i ∈ freeSlots d) as [[-> Hne]|Hin].
    { destruct (obj_generation e =? MaxUint32) eqn:Eg; cbn [negb] in Hi; breflect; [by right|]. apply elem_of_cons in Hi as [?|?]; [by left|by right]. }
    + split; [done|]. exists e'. rewrite Ho, decide_True by done. split; [done|]. split; [done|]. cbn. lia.
    + destruct (dir_free _ _ D i Hin) as (H1 & H2). split; [done|]. rewrite Ho, decide_False; [done|]. by intros ->.
  - intros i f Hf. rewrite Ho in Hf. destruct (decide (i = s)); [injection Hf as <-; cbn; lia|by eapply D].
  - intros j y Hy. split; [by eapply F|]. assert (y ∈ occupied d') as Hin by by eapply list_elem_of_lookup_2. apply Hocc in Hin as [Hin Hne].
    apply list_elem_of_lookup in Hin as [k Hk]. rewrite Ho, decide_False by done. by eapply (dir_occupied _ _ D k y).
  - intros i f Hf Hp. destruct (Hpub _ _ Hf Hp) as [Hne Hf']. apply Hocc. split; [by eapply D|done].
  - intros j y Hy. split; [by eapply (sf_yindex _ _ _ _ _ _ F)|]. assert (y ∈ youngSlots d') as Hin by by eapply list_elem_of_lookup_2. apply Hyng in Hin as [Hin Hne].
    apply list_elem_of_lookup in Hin as [k Hk]. rewrite Ho, decide_False by done. by eapply (dir_young _ _ D k y).
  - intros i f Hf Hp Hy. destruct (Hpub _ _ Hf Hp) as [Hne Hf']. apply Hyng. split; [by eapply (dir_young_all _ _ D)|done].
Qed.
