(* ===== verification/AllocatorRun.v ===== *)
(** * Executions of the allocator (src/runtime/managed_heap.go)

    The effect of freeing, of control storage, of layouts and of stores on the invariant of [AllocatorSafe];
    executions as sequences of operations; and what holds in every state they reach. *)

From S2P Require Import Prelude GoStd GoBytes Heap Allocator AllocatorSafe.

#[local] Arguments Z.to_nat : simpl never.

(** ** Freeing an object *)

(** The directory once the slot has left the lists of published objects. *)
Record detached (d : directory) (s : Z) (published young : bool) (d' : directory) : Prop := {
  dt_next : nextSlot d' = nextSlot d;
  dt_free : freeSlots d' = freeSlots d;
  dt_occupied : if published then occupied d ≡ₚ s :: occupied d' else occupied d' = occupied d;
  dt_young : if published && young then youngSlots d ≡ₚ s :: youngSlots d' else youngSlots d' = youngSlots d;
  dt_oindex : forall j y, occupied d' !! j = Some y -> occupiedIndex (meta d' y) = Z.of_nat j;
  dt_yindex : forall j y, youngSlots d' !! j = Some y -> youngIndex (meta d' y) = Z.of_nat j;
  dt_prefix : forall j, Z.of_nat j < youngIndex (meta d s) -> youngSlots d' !! j = youngSlots d !! j;
  dt_meta : forall i, unindexed (meta d' i) = unindexed (meta d i)
}.

Definition unlist (s : Z) (e : managedObject) (n : Z) (published : bool) : allocM unit :=
  if published then
    let@ _ := modify (set_led (add_occupied (- n))) in
    let@ d := gets (fun a => remove_occupied s (dir a)) in
    let@ _ := modify (set_dir d) in
    if obj_young e then
      let@ _ := modify (set_led (add_young (- n))) in
      let@ d := gets (fun a => remove_young s (dir a)) in
      modify (set_dir d)
    else alloc_return tt
  else alloc_return tt.

Definition unlist_ledger (n : Z) (published young : bool) (l : ledger) : ledger :=
  if published then let l := add_occupied (- n) l in if young then add_young (- n) l else l else l.

(** The indices of the lists of published objects are right. *)
Definition indexed (d : directory) : Prop :=
  (forall j y, occupied d !! j = Some y -> occupiedIndex (meta d y) = Z.of_nat j) /\
  (forall j y, youngSlots d !! j = Some y -> youngIndex (meta d y) = Z.of_nat j).

Lemma dir_indexed h d : dir_ok h d -> indexed d.
Proof. intros D. split; apply D. Qed.

Lemma unlist_spec a s e n published :
  indexed (dir a) -> (published = true -> s ∈ occupied (dir a)) -> (published = true -> obj_young e = true -> s ∈ youngSlots (dir a)) ->
  exists d, unlist s e n published a = (Ok tt, set_dir d (set_led (unlist_ledger n published (obj_young e)) a)) /\
    detached (dir a) s published (obj_young e) d.
Proof.
  intros [Io Iy] Hocc Hyng. unfold unlist, unlist_ledger. destruct published.
  - destruct (remove_occupied_spec s (dir a) Io) as (d1 & E1 & F1 & Y1 & N1 & P1 & I1 & M1); [by apply Hocc|].
    assert (forall i, unindexed (meta d1 i) = unindexed (meta (dir a) i) /\ youngIndex (meta d1 i) = youngIndex (meta (dir a) i)) as U1.
    { intros i. by apply unindexed_occupied. }
    unfold alloc_bind at 1. cbn [modify]. unfold alloc_bind at 1, gets at 1. cbn [set_led dir]. rewrite E1. cbn [must alloc_return].
    unfold alloc_bind at 1. cbn [modify]. destruct (obj_young e) eqn:Ey.
    + destruct (remove_young_spec s d1) as (d2 & E2 & F2 & O2 & N2 & P2 & I2 & M2).
      { rewrite Y1. intros j y Hy. rewrite (proj2 (U1 y)). by apply Iy. }
      { rewrite Y1. by apply Hyng. }
      assert (forall i, unindexed (meta d2 i) = unindexed (meta d1 i) /\ occupiedIndex (meta d2 i) = occupiedIndex (meta d1 i)) as U2.
      { intros i. by apply unindexed_young. }
      unfold alloc_bind at 1. cbn [modify]. unfold alloc_bind at 1, gets at 1. cbn [set_led set_dir dir]. rewrite E2. cbn [must alloc_return].
      exists d2. split; [done|]. split; [congruence|congruence|..]; cbn [andb].
      * rewrite O2. exact P1.
      * rewrite <- Y1. exact P2.
      * intros j y Hy. rewrite O2 in Hy. rewrite (proj2 (U2 y)). by apply I1.
      * done.
      * intros j Hj. rewrite (remove_young_prefix s d1 d2 E2), Y1; [done|]. by rewrite (proj2 (U1 s)).
      * intros i. by rewrite (proj1 (U2 i)), (proj1 (U1 i)).
    + exists d1. split; [done|]. split; [done|done|done|done|done|..].
      * intros j y Hy. rewrite (proj2 (U1 y)). rewrite Y1 in Hy. by apply Iy.
      * intros j _. by rewrite Y1.
      * intros i. apply U1.
  - exists (dir a). split; [by destruct a|]. by split.
Qed.

Lemma unindexed_logical x y n : unindexed x = unindexed y -> unindexed (with_logical n x) = unindexed (with_logical n y).
Proof. intros (E1 & E2 & E3 & E4 & E5)%unindexed_fields. unfold unindexed, with_occupied, with_young, with_logical. cbn. by rewrite E1, E2, E4, E5. Qed.

(** The directory with the slot's bytes forgotten and, where it has generations left, ready for reuse. *)
Definition emptied (s : Z) (recycled : bool) (d : directory) : directory :=
  let d := set_meta s (with_logical 0 (meta d s)) d in
  mkDirectory (if recycled then s :: freeSlots d else freeSlots d) (occupied d) (youngSlots d) (nextSlot d) (metas d).

Lemma emptied_spec d s published young recycled d1 :
  detached d s published young d1 -> slot_freed d s published young recycled (emptied s recycled d1).
Proof.
  intros T.
  assert (forall i, meta (emptied s recycled d1) i = if decide (i = s) then with_logical 0 (meta d1 s) else meta d1 i) as Hm.
  { intros i. unfold emptied. rewrite meta_mk. cbn [set_meta metas]. destruct (decide (i = s)) as [->|E]; [by rewrite lookup_insert_eq|by rewrite lookup_insert_ne]. }
  split; cbn [emptied nextSlot freeSlots occupied youngSlots set_meta]; try apply T.
  - by rewrite (dt_free _ _ _ _ _ T).
  - intros j y Hy. rewrite Hm. destruct (decide (y = s)) as [->|E]; by apply T.
  - intros j y Hy. rewrite Hm. destruct (decide (y = s)) as [->|E]; by eapply (dt_yindex _ _ _ _ _ T).
  - intros i. rewrite Hm. destruct (decide (i = s)); [done|]. by apply unindexed_fields, T.
  - intros i. rewrite Hm. destruct (decide (i = s)) as [->|E]; pose proof (dt_meta _ _ _ _ _ T) as Hd.
    + by rewrite <- (unindexed_logical _ _ 0 (Hd s)).
    + by rewrite <- (unindexed_logical _ _ 0 (Hd i)).
Qed.

(** The effect of [freeObject]. *)
Record freed (a a' : allocator) (s : Z) (e : managedObject) (published : bool) : Prop := {
  fr_segments : segments (mem a') = segments (set_object s (with_obj_state managedFree e) (mem a));
  fr_pages : pages (mem a') = pages (mem a);
  fr_pages_ok : pages_ok (mem a') (pgs a');
  fr_dir : slot_freed (dir a) s published (obj_young e) (negb (obj_generation e =? MaxUint32)) (dir a');
  fr_static : conf a' = conf a /\ layouts a' = layouts a /\ reservations a' = reservations a /\ controls a' = controls a;
  fr_ledger : led a' = unlist_ledger (logical (meta (dir a) s)) published (obj_young e) (led a);
  fr_vacated : exists a1, vacate_page e a = (Ok tt, a1) /\ pgs a' = pgs a1;
  fr_rest : caps a' = caps a /\ layoutOwners a' = layoutOwners a /\ pendingCards (mem a') = pendingCards (mem a)
}.

Lemma freeObject_spec a s e :
  dir_ok (mem a) (dir a) -> pages_ok (mem a) (pgs a) -> object (mem a) s = Some e -> live e ->
  let published := bool_decide (obj_state e = managedPublished) in
  exists a', freeObject s published a = (Ok tt, a') /\ freed a a' s e published.
Proof.
  intros D G He Hl published. unfold freeObject. rewrite He, bool_decide_false by done. fold (unlist s e (logical (meta (dir a) s)) published).
  destruct (vacate_page_spec a s e G (conj He Hl)) as (a1 & Ev & g1 & -> & Hg). unfold alloc_bind at 1. rewrite Ev.
  destruct (unlist_spec (set_pgs g1 a) s e (logical (meta (dir a) s)) published) as (d & Eu & T).
  { by eapply dir_indexed. }
  { intros Hp%bool_decide_eq_true. by eapply D. }
  { intros Hp%bool_decide_eq_true Hy. by eapply (dir_young_all _ _ D). }
  unfold alloc_bind at 1. rewrite Eu. unfold alloc_bind at 1. cbn [modify]. set (b := set_dir d (set_led _ (set_pgs g1 a))).
  set (e' := with_obj_state managedFree e). set (recycled := negb (obj_generation e =? MaxUint32)).
  exists (set_dir (emptied s recycled d) (set_mem (set_object s e' (mem a)) b)). split.
  { unfold recycled. by destruct (negb (obj_generation e =? MaxUint32)). }
  split; try done.
  - apply Hg; [done|]. intros i f [Hf Hlf]. cbn in Hf. rewrite (object_set _ s e) in Hf by done. destruct (decide (i = s)) as [->|E]; [by injection Hf as <-|].
    split; [done|]. by split.
  - by apply emptied_spec.
  - by eexists.
Qed.

(** Sums over the slots that remain. *)
Lemma sum_removed (f f' : Z -> Z) s l l' :
  NoDup l -> l ≡ₚ s :: l' -> (forall i, i <> s -> f' i = f i) -> sum (map f l) = f s + sum (map f' l').
Proof.
  intros Hnd E Hf. rewrite (sum_perm _ (map f (s :: l'))) by by apply fmap_Permutation. cbn [map sum foldr]. f_equal. fold (sum (map f l')).
  apply sum_map_ext. intros y Hy. symmetry. apply Hf. apply (perm_member s l l' y Hnd E) in Hy. tauto.
Qed.

Lemma sum_kept (f f' : Z -> Z) s l : s ∉ l -> (forall i, i <> s -> f' i = f i) -> sum (map f' l) = sum (map f l).
Proof. intros Hn Hf. apply sum_map_ext. intros y Hy. apply Hf. by intros ->. Qed.

Lemma ledger_freed a a' s e :
  dir_ok (mem a) (dir a) -> ledger_ok a -> object (mem a) s = Some e ->
  let published := bool_decide (obj_state e = managedPublished) in let n := logical (meta (dir a) s) in
  slot_freed (dir a) s published (obj_young e) (negb (obj_generation e =? MaxUint32)) (dir a') ->
  conf a' = conf a -> controls a' = controls a ->
  occupiedBytes (led a') = (if published then u64 (occupiedBytes (led a) + - n) else occupiedBytes (led a)) ->
  youngBytes (led a') = (if published && obj_young e then u64 (youngBytes (led a) + - n) else youngBytes (led a)) ->
  controlBytes (led a') = controlBytes (led a) -> residentPageBytes (led a') = residentPageBytes (led a) ->
  reservedBytes (led a') = sum (pending_bytes a') + sum (control_bytes a) -> reservedBytes (led a') <= reservedBytes (led a) -> ledger_ok a'.
Proof.
  intros D L He published n F Ec Ek E1 E2 E3 E4 E5 E6. set (f := fun i => logical (meta (dir a) i)). set (f' := fun i => logical (meta (dir a') i)).
  destruct (occupied_nodup _ _ D) as [No Ny].
  assert (forall i, i <> s -> f' i = f i) as Hf by (intros i Hi; unfold f'; by rewrite (sf_logical _ _ _ _ _ _ F), decide_False).
  assert (forall i, 0 <= f' i) as Hf0.
  { intros i. unfold f'. rewrite (sf_logical _ _ _ _ _ _ F). destruct (decide (i = s)); [lia|apply L]. }
  assert (forall l, 0 <= sum (map f' l)) as Hs0 by (intros l; apply sum_nonneg, Forall_map, Forall_forall; intros; apply Hf0).
  assert (published = false -> s ∉ occupied (dir a)) as Hno.
  { intros Hp Hin. apply bool_decide_eq_false in Hp. by apply (occupied_not_free _ _ s s e D Hin He Hp). }
  assert (published && obj_young e = false -> s ∉ youngSlots (dir a)) as Hny.
  { intros Hp [i Hi]%list_elem_of_lookup. destruct (dir_young _ _ D i s Hi) as (_ & g & Hg & Hgp & Hgy). assert (g = e) as -> by congruence.
    unfold published in Hp. by rewrite bool_decide_true, Hgy in Hp. }
  assert (sum (map f' (occupied (dir a'))) = if published then sum (map f (occupied (dir a))) - n else sum (map f (occupied (dir a)))) as So.
  { pose proof (sf_occupied _ _ _ _ _ _ F) as Hp. destruct published; [rewrite (sum_removed f f' s _ _ No Hp Hf); unfold f at 1; lia|].
    rewrite Hp. apply (sum_kept _ _ s); [by apply Hno|done]. }
  assert (sum (map f' (youngSlots (dir a'))) = if published && obj_young e then sum (map f (youngSlots (dir a))) - n else sum (map f (youngSlots (dir a)))) as Sy.
  { pose proof (sf_young _ _ _ _ _ _ F) as Hp. destruct (published && obj_young e); [rewrite (sum_removed f f' s _ _ Ny Hp Hf); unfold f at 1; lia|].
    rewrite Hp. apply (sum_kept _ _ s); [by apply Hny|done]. }
  pose proof (ledger_nonneg a L) as Hnn. pose proof (led_word _ L) as Hw. pose proof (young_bytes_le a D L) as Hyo. pose proof (led_logical _ L s) as Hn. fold n in Hn.
  pose proof (Hs0 (occupied (dir a'))) as Ho0. pose proof (Hs0 (youngSlots (dir a'))) as Hy0. pose proof (led_control _ L) as Hc. pose proof (led_guest _ L) as Hg.
  pose proof (led_occupied _ L) as Lo. pose proof (led_young _ L) as Lyo. fold f in Lo, Lyo. unfold MaxInt64 in *.
  assert (occupiedBytes (led a') = sum (map f' (occupied (dir a'))) + controlBytes (led a)) as Eo.
  { rewrite E1, So. rewrite So in Ho0. destruct published; [rewrite u64_id by lia; lia|done]. }
  assert (youngBytes (led a') = sum (map f' (youngSlots (dir a')))) as Ey.
  { rewrite E2, Sy. rewrite Sy in Hy0. destruct (published && obj_young e); [rewrite u64_id by lia; lia|done]. }
  assert (occupiedBytes (led a') <= occupiedBytes (led a)) as Hle by (rewrite Eo, So, Lo; destruct published; lia).
  assert (control_bytes a' = control_bytes a) as Eb by (unfold control_bytes; by rewrite Ek).
  split; rewrite ?Ec, ?E3, ?E4, ?Eb; try done; try apply L; [unfold MaxInt64; lia|]. intros Hne. specialize (Hg Hne). lia.
Qed.

(** The effect of a release on memory: one object becomes free. *)
Record removed (a a' : allocator) (s : Z) (e : managedObject) : Prop := {
  rm_object : object (mem a) s = Some e;
  rm_objects : forall i, object (mem a') i = if decide (i = s) then Some (with_obj_state managedFree e) else object (mem a) i;
  rm_pages : pages (mem a') = pages (mem a)
}.

Lemma freed_removed a a' s e published : object (mem a) s = Some e -> freed a a' s e published -> removed a a' s e.
Proof.
  intros He F. split; [done| |apply F]. intros i. rewrite (object_segments _ _ i (fr_segments _ _ _ _ _ F)). by apply (object_set _ s e).
Qed.

Lemma freed_bounded n a a' s e published : bounded n a -> freed a a' s e published -> bounded n a'.
Proof.
  intros [] F. pose proof (fr_dir _ _ _ _ _ F) as Fd.
  assert (length (occupied (dir a')) <= length (occupied (dir a)))%nat as Ho.
  { pose proof (sf_occupied _ _ _ _ _ _ Fd) as H. destruct published; [apply Permutation_length in H; cbn in H; lia|by rewrite H]. }
  assert (length (youngSlots (dir a')) <= length (youngSlots (dir a)))%nat as Hy.
  { pose proof (sf_young _ _ _ _ _ _ Fd) as H. destruct (published && obj_young e); [apply Permutation_length in H; cbn in H; lia|by rewrite H]. }
  split; rewrite ?(sf_next _ _ _ _ _ _ Fd), ?(fr_pages _ _ _ _ _ F); lia.
Qed.

(** Freeing a published object keeps the invariant. *)
Lemma free_published_spec n s e a :
  alloc_ok n a -> object (mem a) s = Some e -> obj_state e = managedPublished ->
  exists a', freeObject s true a = (Ok tt, a') /\ alloc_ok n a' /\ freed a a' s e true /\ removed a a' s e.
Proof.
  intros [D G R L B Ly] He Hst.
  destruct (freeObject_spec a s e) as (a' & E & F); [done|done|done|unfold live; by rewrite Hst|]. rewrite bool_decide_true in E, F by done.
  exists a'. split; [exact E|]. pose proof (freed_removed a a' s e true He F) as Rm. destruct (fr_static _ _ _ _ _ F) as (Ec & El & Ers & Ek).
  pose proof (fr_ledger _ _ _ _ _ F) as Fl. assert (forall r x, reservations a !! r = Some x -> res_done x = false -> slot (res_ref x) <> s) as Hne.
  { intros r x Hx Hd Es. destruct (res_held _ R r x Hx Hd) as (f & Hf & Hfs & _). rewrite Es in Hf. congruence. }
  split; [split|done].
  - eapply (dir_freed (mem a) (dir a) s e); [done|done|unfold live; by rewrite Hst|apply F|]. rewrite bool_decide_true by done. apply F.
  - apply F.
  - split; rewrite Ers.
    + intros r x Hx Hd. destruct (res_held _ R r x Hx Hd) as (f & Hf & Hfs). exists f. by rewrite (rm_objects _ _ _ _ Rm), decide_False by by eapply Hne.
    + apply R.
  - eapply (ledger_freed a a' s e); [done|done|done|..]; rewrite ?bool_decide_true by done; try (rewrite Fl; cbn; by destruct (obj_young e)); try done; [apply F|].
    rewrite Fl. transitivity (reservedBytes (led a)); [by cbn; destruct (obj_young e)|]. rewrite (led_reserved _ L). f_equal. unfold pending_bytes. rewrite Ers.
    apply sum_map_ext. intros x [r Hx]%list_elem_of_lookup. destruct (res_done x) eqn:Ed; [done|].
    pose proof (fr_dir _ _ _ _ _ F) as Fd. rewrite (sf_logical _ _ _ _ _ _ Fd), decide_False by by eapply Hne. done.
  - by eapply (freed_bounded n a).
  - by rewrite El.
Qed.

Lemma release_object_spec n ref a :
  alloc_ok n a ->
  match release ref a with
  | (Ok _, a') => alloc_ok n a' /\ exists e, resolveObject (mem a) ref = Ok e /\ removed a a' (slot ref) e /\
      reservations a' = reservations a /\ layouts a' = layouts a /\ conf a' = conf a
  | (Err x, a') => x = StaleReference /\ a' = a /\ exists y, resolveObject (mem a) ref = Err y
  end.
Proof.
  intros A. unfold release. destruct (resolveObject (mem a) ref) as [e|y] eqn:Er; [|by split; [|split; [|eexists]]].
  pose proof Er as (He & Hst & Hgen)%resolve_ok. unfold alloc_bind. cbn [modify]. set (a1 := set_led _ a).
  assert (alloc_ok n a1) as A1.
  { destruct A as [D G R L B Ly]. split; try done; [by destruct R|by destruct L|by destruct B]. }
  destruct (free_published_spec n (slot ref) e a1 A1 He Hst) as (a' & -> & A' & F & Rm). split; [done|]. exists e. split; [done|].
  split; [by destruct Rm|]. by destruct (fr_static _ _ _ _ _ F) as (Ec & El & Ers & _).
Qed.

Lemma sum_middle {A} (f : A -> Z) l r x : l !! r = Some x -> sum (map f l) = sum (map f (take r l)) + f x + sum (map f (drop (S r) l)).
Proof. intros Hx. rewrite <- (take_drop_middle _ _ _ Hx) at 1. rewrite map_app, sum_app. cbn. unfold sum. lia. Qed.

Lemma abort_spec n r x a :
  alloc_ok n a -> reservations a !! r = Some x -> res_done x = false ->
  exists e a', abort r a = (Ok tt, a') /\ alloc_ok n a' /\ removed a a' (slot (res_ref x)) e /\
    obj_state e = managedReserved /\ obj_generation e = generation (res_ref x) /\
    reservations a' = alter (fun x => mkReservation (res_ref x) true) r (reservations a) /\ layouts a' = layouts a /\ conf a' = conf a.
Proof.
  intros [D G R L B Ly] Hx Hd. destruct (res_held _ R r x Hx Hd) as (e & He & Hst & Hgen). exists e. unfold abort. rewrite Hx, Hd, He.
  set (s := slot (res_ref x)) in *. set (n0 := logical (meta (dir a) s)). unfold alloc_bind. cbn [modify]. set (a1 := set_led _ a).
  assert (bool_decide (obj_state e = managedPublished) = false) as Hb by (rewrite Hst; by apply bool_decide_false).
  destruct (freeObject_spec a1 s e) as (b & E & F); [done|done|done|unfold live; by rewrite Hst|]. rewrite Hb in E, F. rewrite E.
  pose proof (freed_removed a1 b s e false He F) as Rm. destruct (fr_static _ _ _ _ _ F) as (Ec & El & Ers & Ek). pose proof (fr_dir _ _ _ _ _ F) as Fd.
  pose proof (fr_ledger _ _ _ _ _ F) as Fl. cbn [unlist_ledger] in Fl.
  assert (reservations (finish r b) = alter (fun x => mkReservation (res_ref x) true) r (reservations a)) as Ef by (cbn; by rewrite Ers).
  exists (finish r b). split; [done|]. split; [split|].
  - eapply (dir_freed (mem a) (dir a) s e); [done|done|unfold live; by rewrite Hst|apply F|]. rewrite Hb. apply F.
  - apply F.
  - eapply (reserved_finish a _ r x); try done. intros i Hi. cbn. by rewrite (rm_objects _ _ _ _ Rm), decide_False.
  - assert (sum (pending_bytes (finish r b)) = sum (pending_bytes a) - n0) as Hp.
    { unfold pending_bytes. rewrite Ef, (sum_alter _ _ _ _ _ Hx). cbn [res_done res_ref]. cbn [finish set_reservations dir]. rewrite Hd.
      set (g := fun x => if res_done x then 0 else logical (meta (dir a) (slot (res_ref x)))). set (g' := fun x => if res_done x then 0 else logical (meta (dir b) (slot (res_ref x)))).
      change (sum (map g' (reservations a)) - logical (meta (dir b) s) + 0 = sum (map g (reservations a)) - n0).
      rewrite (sum_middle g' _ _ _ Hx), (sum_middle g _ _ _ Hx).
      assert (forall y i, reservations a !! i = Some y -> i <> r -> g' y = g y) as Hg.
      { intros y i Hy Hi. unfold g', g. destruct (res_done y) eqn:Ey; [done|]. rewrite (sf_logical _ _ _ _ _ _ Fd), decide_False; [done|].
        intros Es. apply Hi. by eapply (res_distinct _ R). }
      rewrite (sum_map_ext g' g (take r _)), (sum_map_ext g' g (drop _ _)).
      - assert (g' x = logical (meta (dir b) s)) as -> by (unfold g'; by rewrite Hd). assert (g x = n0) as -> by (unfold g; by rewrite Hd). lia.
      - intros y [i Hi]%list_elem_of_lookup. rewrite lookup_drop in Hi. apply (Hg y (S r + i)%nat); [done|lia].
      - intros y [i Hi]%list_elem_of_lookup. apply lookup_take_Some in Hi as [Hi Hlt]. apply (Hg y i); [done|lia]. }
    pose proof (ledger_nonneg a L) as Hnn. pose proof (led_word _ L) as Hw. pose proof (led_logical _ L s) as Hn. fold n0 in Hn. pose proof (led_reserved _ L) as Hr.
    assert (0 <= sum (pending_bytes (finish r b))) as Hp0.
    { apply sum_nonneg, Forall_map, Forall_forall. intros y _. cbn [finish set_reservations dir]. destruct (res_done y); [lia|].
      rewrite (sf_logical _ _ _ _ _ _ Fd). destruct (decide _); [lia|]. apply L. }
    pose proof (sum_nonneg _ (led_controls _ L)) as Hc0. unfold MaxInt64 in Hw.
    assert (reservedBytes (led (finish r b)) = reservedBytes (led a) - n0) as Er.
    { cbn [finish set_reservations led]. rewrite Fl. cbn. fold n0. rewrite u64_id by lia. lia. }
    eapply (ledger_freed a _ s e); [done|done|done|..]; rewrite ?Hb; try (cbn [finish set_reservations led]; rewrite Fl; done); try done; [rewrite Er; lia|rewrite Er; lia].
  - assert (bounded n b) as [] by (eapply (freed_bounded n a1); [by destruct B|exact F]). by split.
  - cbn. by rewrite El.
  - split; [by destruct Rm|]. done.
Qed.

(** ** Writes *)

Definition same_shape (h h' : managedHeap) : Prop :=
  forall i, (fun p => (length (data p), length (cards p))) <$> pages h' !! i = (fun p => (length (data p), length (cards p))) <$> pages h !! i.

Lemma alloc_ok_shape n a h' : alloc_ok n a -> segments h' = segments (mem a) -> same_shape (mem a) h' -> alloc_ok n (set_mem h' a).
Proof.
  intros [D G R L B Ly] Es Hs.
  assert (pages_ok h' (pgs a)) as G'.
  { apply (pages_ok_moved (mem a)); [done| |done]. intros i f Hf. exists f. split; [by apply (lives_segments _ _ _ _ Es)|by repeat split]. }
  split; try done.
  - by apply (dir_ok_segments (mem a)).
  - destruct R as [R1 R2]. split; [|done]. intros r x Hx Hd. cbn. rewrite (object_segments _ _ _ Es). by apply (R1 r x).
  - by destruct L.
  - destruct B. split; try done. cbn. rewrite <- (pg_length _ _ G'), (pg_length _ _ G). done.
Qed.

Lemma set_data_pages h id b p : pages h !! Z.to_nat id = Some p -> pages (set_data h id b) = <[Z.to_nat id := mkPage b (cards p)]> (pages h).
Proof. intros Hp. unfold set_data. cbn [pages]. by rewrite (alter_insert_lookup _ _ _ _ Hp). Qed.

Lemma set_data_shape h id b p : pages h !! Z.to_nat id = Some p -> length b = length (data p) -> same_shape h (set_data h id b).
Proof.
  intros Hp Hb i. rewrite (set_data_pages _ _ _ _ Hp). destruct (decide (i = Z.to_nat id)) as [->|Hne].
  - rewrite list_lookup_insert_eq by by eapply lookup_lt_Some. rewrite Hp. cbn. by rewrite Hb.
  - by rewrite list_lookup_insert_ne.
Qed.

Lemma same_memory_shape h h1 h2 : same_shape h h1 -> same_memory h1 h2 -> same_shape h h2.
Proof.
  intros H [_ S _ _] i. rewrite <- H. specialize (S i). destruct (pages h1 !! i), (pages h2 !! i); cbn in *; congruence.
Qed.

(** The bytes of the objects after one of them was written. *)
Record rewritten (h h' : managedHeap) (s : Z) (e : managedObject) (bytes : gostring) : Prop := {
  rw_segments : segments h' = segments h;
  rw_shape : same_shape h h';
  rw_content : content h' e = Some bytes;
  rw_others : forall i f, lives h i f -> i <> s -> content h' f = content h f
}.

Lemma set_data_rewritten h g s e p b :
  pages_ok h g -> lives h s e -> pages h !! Z.to_nat (obj_page e) = Some p -> length b = length (data p) ->
  (forall j, Z.of_nat j < obj_offset e \/ obj_offset e + obj_size e <= Z.of_nat j -> b !! j = data p !! j) ->
  rewritten h (set_data h (obj_page e) b) s e (window b (obj_offset e) (obj_size e)).
Proof.
  intros G Hs Hp Hlen Hout. pose proof (set_data_shape _ _ b _ Hp Hlen) as Sh. pose proof (set_data_pages _ _ b _ Hp) as Ep. split; [done|done| |].
  - unfold content. rewrite Ep, list_lookup_insert_eq by by eapply lookup_lt_Some. done.
  - intros i f Hf Hne. eapply (content_kept _ _ g s e i f p (mkPage b (cards p))); try done.
    apply (pages_ok_moved h); [done| |done]. intros j y Hy. exists y. split; [done|by repeat split].
Qed.

Lemma rewritten_same h h1 h2 s e b : rewritten h h1 s e b -> same_memory h1 h2 -> rewritten h h2 s e b.
Proof.
  intros [R1 R2 R3 R4] S. assert (forall f, content h2 f = content h1 f) as Hc.
  { intros f. unfold content. pose proof (same_pages _ _ S (Z.to_nat (obj_page f))) as H. destruct (pages h1 !! _), (pages h2 !! _); cbn in *; congruence. }
  split; [by rewrite (same_segments _ _ S)|by eapply same_memory_shape|by rewrite Hc|]. intros i f Hf Hne. by rewrite Hc, (R4 i).
Qed.

(** Writing [src] at [offset] of a live object. *)
Lemma write_rewritten h g s e bytes offset src :
  pages_ok h g -> lives h s e -> content h e = Some bytes -> 0 <= offset -> offset + Z.of_nat (length src) <= obj_size e ->
  exists p, pages h !! Z.to_nat (obj_page e) = Some p /\ obj_offset e + obj_size e <= Z.of_nat (length (data p)) < 2 ^ 32 /\
    let b := list_inserts (Z.to_nat (obj_offset e + offset)) src (data p) in
    copy_to (data p) (u32 (obj_offset e + offset)) (u32 (obj_offset e + offset + Z.of_nat (length src))) src = Ok b /\
    rewritten h (set_data h (obj_page e) b) s e (list_inserts (Z.to_nat offset) src bytes).
Proof.
  intros G Hs Hc Ho Hr. destruct (pg_placed _ _ G s e Hs) as [(Hn & Hn2 & Hn3) (p & x & Hp & _ & Hb & _)]. pose proof (pg_bytes _ _ G _ _ Hp) as H32.
  exists p. split; [done|]. split; [lia|]. unfold content in Hc. rewrite Hp in Hc. cbn in Hc. injection Hc as <-. split; [by rewrite !u32_id, copy_to_ok by lia|].
  rewrite <- window_inserts by lia. eapply set_data_rewritten; try done; [by rewrite length_inserts|]. intros j Hj. apply inserts_outside. lia.
Qed.

Lemma fill_spec n r x e bytes offset src a :
  alloc_ok n a -> reservations a !! r = Some x -> res_done x = false -> object (mem a) (slot (res_ref x)) = Some e -> content (mem a) e = Some bytes ->
  0 <= offset -> offset + Z.of_nat (length src) <= obj_size e ->
  exists h', fill r offset src a = (Ok tt, set_mem h' a) /\ alloc_ok n (set_mem h' a) /\
    rewritten (mem a) h' (slot (res_ref x)) e (list_inserts (Z.to_nat offset) src bytes).
Proof.
  intros A Hx Hd He Hc Ho Hr. pose proof A as [D G R L B Ly]. destruct (res_held _ R r x Hx Hd) as (f & Hf & Hst & _). assert (f = e) as -> by congruence.
  destruct (write_rewritten (mem a) (pgs a) (slot (res_ref x)) e bytes offset src) as (p & Hp & Hb & Ec & W); [done|split; [done|unfold live; by rewrite Hst]|done..|].
  destruct (pg_placed _ _ G (slot (res_ref x)) e) as [(Hn & _) _]; [split; [done|unfold live; by rewrite Hst]|].
  eexists. split; [|split; [|exact W]].
  - unfold fill. rewrite Hx, Hd, He, (proj2 (nth_of_nat _ _ p)) by done. rewrite !(proj2 (Z.leb_le _ _)) by lia. cbn [andb]. by rewrite Ec.
  - by apply alloc_ok_shape; [|apply W|apply W].
Qed.

Lemma Store_spec n ref offset src a :
  alloc_ok n a -> 0 <= offset ->
  match exec (Store ref offset src) a with
  | (Ok _, a') => alloc_ok n a' /\ exists e bytes h', resolveObject (mem a) ref = Ok e /\ content (mem a) e = Some bytes /\ a' = set_mem h' a /\
      rewritten (mem a) h' (slot ref) e (list_inserts (Z.to_nat offset) src bytes)
  | (Err x, a') => x = StaleReference /\ a' = a
  end.
Proof.
  intros A Ho. pose proof A as [D G R L B Ly]. cbn [exec]. unfold access, write. destruct (resolveObject (mem a) ref) as [e|y] eqn:Er.
  2: { assert (y = errManagedReference) as -> by (unfold resolveObject in Er; repeat case_match; congruence). done. }
  cbn [result_bind]. unfold guard_err. case_if; [done|]. cbn [result_bind]. pose proof Er as (He & Hst & _)%resolve_ok.
  assert (lives (mem a) (slot ref) e) as Hl by by apply published_live.
  destruct (pg_placed _ _ G _ _ Hl) as [(Hn & _) (p & _ & Hp & _)]. assert (exists bytes, content (mem a) e = Some bytes) as [bytes Hc].
  { unfold content. rewrite Hp. by eexists. }
  destruct (write_rewritten (mem a) (pgs a) (slot ref) e bytes offset src) as (p' & Hp' & Hb & Ec & W); [done|done|done|done|lia|]. assert (p' = p) as -> by congruence.
  unfold store. rewrite (index_of_ok _ _ p) by done. cbn [result_bind]. rewrite Ec. cbn [result_bind]. set (h1 := set_data _ _ _) in *.
  assert (alloc_ok n (set_mem h1 a)) as A1 by by apply alloc_ok_shape; [|apply W|apply W].
  destruct (dirtyRegion_spec h1 e offset (Z.of_nat (length src))) as (h2 & -> & S & _); [|lia|lia|lia|].
  { apply (ok_entries h1 (pages_ok_heap _ _ (ok_pages _ _ A1)) (slot ref)); [|done]. by rewrite (object_segments (mem a)). }
  pose proof (rewritten_same _ _ _ _ _ _ W S) as W2. split; [by apply alloc_ok_shape; [|apply W2|apply W2]|]. by exists e, bytes, h2.
Qed.

(** ** Layouts and control storage *)

(** Objects, pages and reservations are as they were. *)
Record same_objects (a a' : allocator) : Prop := {
  so_mem : mem a' = mem a;
  so_dir : dir a' = dir a;
  so_pgs : pgs a' = pgs a;
  so_reservations : reservations a' = reservations a;
  so_conf : conf a' = conf a
}.

Lemma alloc_ok_same n a a' :
  alloc_ok n a -> same_objects a a' -> ledger_ok a' -> Forall (fun l => 0 <= lstride l < 2 ^ 32) (layouts a') -> alloc_ok n a'.
Proof.
  intros [D G R L B Ly] [E1 E2 E3 E4 _] L' Ly'. destruct R, B. split; rewrite ?E1, ?E2, ?E3; try done.
  - split; by rewrite E4, ?E1.
  - split; by rewrite ?E1, ?E2.
Qed.

Lemma ledger_resident bytes a : ledger_ok a -> resident_ok (set_led (add_resident bytes) a) -> ledger_ok (set_led (add_resident bytes) a).
Proof. intros [] [R1 R2]. by split. Qed.

(** The stride of a layout identifier. *)
Definition stride_of (a : allocator) (id : Z) : option Z := lstride <$> nth_of (layouts a) id.

(** A new layout takes an identifier that had no stride. *)
Lemma layout_put a ls i l : layouts a !! i = Some l -> lstride l = 0 \/ lstride l = lstride ls ->
  forall id k, stride_of a id = Some k -> k <> 0 -> lstride <$> nth_of (<[i := ls]> (layouts a)) id = Some k.
Proof.
  intros Hi Hl id k Hk Hne. unfold stride_of, nth_of in *. destruct (id <? 0); [done|]. destruct (decide (Z.to_nat id = i)) as [E|E].
  - rewrite E in *. rewrite Hi in Hk. cbn in Hk. injection Hk as <-. rewrite list_lookup_insert_eq by by eapply lookup_lt_Some. cbn. f_equal. lia.
  - by rewrite list_lookup_insert_ne.
Qed.

Lemma registerLayout_spec n l a :
  alloc_ok n a -> 0 <= lstride l < 2 ^ 32 ->
  match registerLayout l a with
  | (Ok id, a') => same_objects a a' /\ alloc_ok n a' /\ stride_of a' id = Some (lstride l) /\
      forall i k, stride_of a i = Some k -> k <> 0 -> stride_of a' i = Some k
  | (Err e, a') => e <> AllocPanic /\ a' = a
  end.
Proof.
  intros A Hl. pose proof A as [D G R L B Ly]. unfold registerLayout. set (l' := mkLayout _ _ _ _ _). case_if; [done|].
  destruct (list_find _ _) as [[i y]|] eqn:Ef.
  { apply list_find_Some in Ef as (Hy & -> & _). rewrite lookup_drop in Hy.
    set (os := alter _ _ _). assert (same_objects a (set_layouts (layouts a) os a)) as S by by split. split; [done|].
    split; [apply (alloc_ok_same n a); [done|done|by destruct L|done]|]. split; [|done].
    unfold stride_of. cbn [set_layouts layouts]. rewrite (proj2 (nth_of_nat _ _ l')); [done|]. split; [lia|]. by rewrite Nat2Z.id. }
  assert (forall bytes ls os id, 0 <= bytes -> Forall (fun l => 0 <= lstride l < 2 ^ 32) ls -> lstride <$> nth_of ls id = Some (lstride l) ->
    (forall i k, stride_of a i = Some k -> k <> 0 -> lstride <$> nth_of ls i = Some k) ->
    match (let@ _ := admits bytes in let@ _ := modify (fun a => set_layouts ls os a) in alloc_return id) a with
    | (Ok id, a') => same_objects a a' /\ alloc_ok n a' /\ stride_of a' id = Some (lstride l) /\
        forall i k, stride_of a i = Some k -> k <> 0 -> stride_of a' i = Some k
    | (Err e, a') => e <> AllocPanic /\ a' = a
    end) as Hadd.
  { intros bytes ls os id Hb Hls Hid Hk. unfold alloc_bind. pose proof (admits_spec bytes a Hb G) as Had. destruct (admits bytes a) as [[[]|e] a1]; [|done]. destruct Had as [P ->].
    cbn [modify alloc_return]. assert (same_objects a (set_layouts ls os (set_led (add_resident bytes) a))) as S by by split. split; [done|]. split; [|done].
    apply (alloc_ok_same n a); [done|done| |done].
    assert (ledger_ok (set_led (add_resident bytes) a)) as [] by (apply ledger_resident; [done|]; apply P; split; apply L). by split. }
  assert (forall bytes (f g : allocator -> allocator) (id : Z), f (set_led (add_resident bytes) a) = g (set_led (add_resident bytes) a) ->
    (let@ _ := admits bytes in let@ _ := modify f in alloc_return id) a = (let@ _ := admits bytes in let@ _ := modify g in alloc_return id) a) as Hext.
  { intros bytes f g id E. unfold alloc_bind, admits, admitResident. destruct (_ || _); [done|]. cbn [modify alloc_return]. by rewrite E. }
  destruct (list_find (fun previous => lstride previous = 0) (drop 1 (layouts a))) as [[i y]|] eqn:Ez.
  - apply list_find_Some in Ez as (Hy & Hz & _). rewrite lookup_drop in Hy. cbn [Nat.add] in Hy.
    erewrite (Hext _ _ (fun a0 => set_layouts (<[S i := l']> (layouts a)) (<[S i := mkOwner 1 0]> (layoutOwners a)) a0)) by done.
    apply Hadd; [lia|by apply Forall_insert| |by apply (layout_put a l' (S i) y); [|left]].
    rewrite (proj2 (nth_of_nat _ _ l')); [done|]. split; [lia|]. rewrite Nat2Z.id. apply list_lookup_insert_eq. by eapply lookup_lt_Some.
  - erewrite (Hext _ _ (fun a0 => set_layouts (layouts a ++ [l']) (layoutOwners a ++ [mkOwner 1 0]) a0)) by done.
    apply Hadd; [unfold sizeof_layout; lia|apply Forall_app; split; [done|by apply Forall_singleton]| |].
    + rewrite (proj2 (nth_of_nat _ _ l')); [done|]. split; [lia|]. rewrite Nat2Z.id. by rewrite lookup_app_r, Nat.sub_diag.
    + intros j k Hk _. unfold stride_of, nth_of in *. destruct (j <? 0); [done|]. destruct (layouts a !! Z.to_nat j) as [y|] eqn:Ey; [|done].
      by rewrite (lookup_app_l_Some _ _ _ _ Ey).
Qed.

Lemma releaseLayout_spec n id a : alloc_ok n a -> same_objects a (releaseLayout id a) /\ alloc_ok n (releaseLayout id a).
Proof.
  intros A. unfold releaseLayout. case_if; [|by split]. assert (same_objects a (set_layouts (layouts a) (alter (fun o => mkOwner (pins o - 1) (owner_marked o)) (Z.to_nat id) (layoutOwners a)) a)) as S by by split.
  split; [done|]. apply (alloc_ok_same n a); [done|done| |apply A]. by destruct (ok_ledger _ _ A).
Qed.

(** The ledger when only the bytes of control storage change. *)
Lemma ledger_control a a' :
  ledger_ok a -> same_objects a a' -> Forall (fun n => 0 <= n) (control_bytes a') -> 0 <= controlBytes (led a') ->
  youngBytes (led a') = youngBytes (led a) -> residentPageBytes (led a') = residentPageBytes (led a) ->
  occupiedBytes (led a') - controlBytes (led a') = occupiedBytes (led a) - controlBytes (led a) ->
  reservedBytes (led a') - sum (control_bytes a') = reservedBytes (led a) - sum (control_bytes a) ->
  occupiedBytes (led a') + reservedBytes (led a') <= MaxInt64 ->
  (maxGuestBytes (conf a) <> 0 -> occupiedBytes (led a') + reservedBytes (led a') <= maxGuestBytes (conf a)) -> ledger_ok a'.
Proof.
  intros L [E1 E2 E3 E4 E5] H1 H2 H3 H4 H5 H6 H7 H8. pose proof (led_occupied _ L). pose proof (led_reserved _ L).
  assert (pending_bytes a' = pending_bytes a) as Ep by (unfold pending_bytes; by rewrite E2, E4).
  destruct L. split; rewrite ?E2, ?E5, ?Ep, ?H3, ?H4; try done; lia.
Qed.

Lemma reserveControl_spec n k a :
  alloc_ok n a -> 0 <= k ->
  match reserveControl k a with
  | (Ok _, a') => same_objects a a' /\ alloc_ok n a' /\ layouts a' = layouts a
  | (Err e, a') => e <> AllocPanic /\ a' = a
  end.
Proof.
  intros A Hk. pose proof (ok_ledger _ _ A) as L. unfold reserveControl. case_if; [by split|]. case_if; [done|].
  unfold alloc_bind at 1. pose proof (admitGuestBytes_spec k a L Hk) as Ha. destruct (admitGuestBytes k a) as [[[]|e] a0]; [|done].
  destruct Ha as (-> & Hw & Hg). unfold alloc_bind. cbn [modify]. set (a' := set_controls _ _). assert (same_objects a a') as S by by split. split; [done|]. split; [|done].
  pose proof (ledger_nonneg a L) as Hnn. unfold MaxInt64 in Hw.
  assert (control_bytes a' = control_bytes a ++ [k]) as Ek by (unfold control_bytes; cbn; by rewrite map_app).
  assert (reservedBytes (led a') = reservedBytes (led a) + k) as Er by (cbn; apply u64_id; lia).
  apply (alloc_ok_same n a); [done|done| |apply A]. eapply ledger_control; try done; rewrite ?Ek, ?Er.
  - apply Forall_app. split; [apply L|by apply Forall_singleton].
  - apply L.
  - rewrite sum_app. cbn. lia.
  - cbn. unfold MaxInt64. lia.
  - intros Hne. specialize (Hg Hne). cbn. lia.
Qed.

Lemma control_taken a c n : controls a !! c = Some (Some n) ->
  sum (map (default 0) (<[c := None]> (controls a))) = sum (control_bytes a) - n /\
  (Forall (fun n => 0 <= n) (control_bytes a) -> 0 <= n <= sum (control_bytes a) /\ Forall (fun n => 0 <= n) (map (default 0) (<[c := None]> (controls a)))).
Proof.
  intros Hc. assert (sum (map (default 0) (<[c := None]> (controls a))) = sum (control_bytes a) - n) as E.
  { unfold control_bytes. rewrite <- (alter_insert_lookup (fun _ => None) c (controls a) (Some n) Hc), (sum_alter _ _ _ _ _ Hc). cbn. lia. }
  split; [done|]. unfold control_bytes at 1. rewrite Forall_map. intros Hf. assert (Forall (fun n => 0 <= n) (map (default 0) (<[c := None]> (controls a)))) as Hf'.
  { apply Forall_map. apply Forall_insert; [exact Hf|cbn; lia]. }
  pose proof (sum_nonneg _ Hf'). pose proof (Forall_lookup_1 _ _ _ _ Hf Hc) as Hn. cbn in Hn. split; [lia|done].
Qed.

Lemma commitControl_spec n c a : alloc_ok n a -> same_objects a (commitControl c a) /\ alloc_ok n (commitControl c a).
Proof.
  intros A. pose proof (ok_ledger _ _ A) as L. unfold commitControl. destruct (controls a !! c) as [[k|]|] eqn:Hc; [|by split..].
  set (a' := set_controls _ _). assert (same_objects a a') as S by by split. split; [done|].
  destruct (control_taken a c k Hc) as [Es Hf]. destruct (Hf (led_controls _ L)) as [Hk Hf']. pose proof (ledger_nonneg a L) as Hnn. pose proof (led_word _ L) as Hw.
  pose proof (led_guest _ L) as Hg. pose proof (led_control _ L) as Hc0. pose proof (led_reserved _ L) as Hr. unfold MaxInt64 in Hw.
  assert (sum (control_bytes a) <= reservedBytes (led a)) as Hle.
  { assert (0 <= sum (pending_bytes a)); [|lia]. apply sum_nonneg, Forall_map, Forall_forall. intros x _. destruct (res_done x); [lia|apply L]. }
  assert (reservedBytes (led a') = reservedBytes (led a) - k) as E1 by (cbn; rewrite u64_id; lia).
  assert (occupiedBytes (led a') = occupiedBytes (led a) + k) as E2 by (cbn; rewrite u64_id; lia).
  assert (controlBytes (led a') = controlBytes (led a) + k) as E3 by (cbn; rewrite u64_id; lia).
  apply (alloc_ok_same n a); [done|done| |apply A]. change (sum (control_bytes a') = sum (control_bytes a) - k) in Es.
  eapply ledger_control; try done; rewrite ?E1, ?E2, ?E3, ?Es; [lia|lia|lia|unfold MaxInt64; lia|]. intros Hne. specialize (Hg Hne). lia.
Qed.

Lemma abortControl_spec n c a : alloc_ok n a -> same_objects a (abortControl c a) /\ alloc_ok n (abortControl c a).
Proof.
  intros A. pose proof (ok_ledger _ _ A) as L. unfold abortControl. destruct (controls a !! c) as [[k|]|] eqn:Hc; [|by split..].
  set (a' := set_controls _ _). assert (same_objects a a') as S by by split. split; [done|].
  destruct (control_taken a c k Hc) as [Es Hf]. destruct (Hf (led_controls _ L)) as [Hk Hf']. pose proof (ledger_nonneg a L) as Hnn. pose proof (led_word _ L) as Hw.
  pose proof (led_guest _ L) as Hg. pose proof (led_reserved _ L) as Hr. unfold MaxInt64 in Hw.
  assert (sum (control_bytes a) <= reservedBytes (led a)) as Hle.
  { assert (0 <= sum (pending_bytes a)); [|lia]. apply sum_nonneg, Forall_map, Forall_forall. intros x _. destruct (res_done x); [lia|apply L]. }
  assert (reservedBytes (led a') = reservedBytes (led a) - k) as E1 by (cbn; rewrite u64_id; lia).
  apply (alloc_ok_same n a); [done|done| |apply A]. change (sum (control_bytes a') = sum (control_bytes a) - k) in Es.
  eapply ledger_control; try done; rewrite ?E1, ?Es; [apply L|lia|cbn; unfold MaxInt64; lia|]. intros Hne. specialize (Hg Hne). cbn. lia.
Qed.

Lemma releaseControl_spec n k a : alloc_ok n a -> 0 <= k -> same_objects a (releaseControl k a) /\ alloc_ok n (releaseControl k a).
Proof.
  intros A Hk. pose proof (ok_ledger _ _ A) as L. unfold releaseControl. case_if; [by split|]. set (m := if controlBytes (led a) <? k then controlBytes (led a) else k).
  set (a' := set_led _ a). assert (same_objects a a') as S by by split. split; [done|]. pose proof (led_control _ L) as Hc.
  assert (0 <= m <= controlBytes (led a)) as Hm by (unfold m; destruct (Z.ltb_spec (controlBytes (led a)) k); lia).
  pose proof (ledger_nonneg a L) as Hnn. pose proof (led_word _ L) as Hw. pose proof (led_guest _ L) as Hg. unfold MaxInt64 in Hw.
  assert (occupiedBytes (led a') = occupiedBytes (led a) - m) as E1 by (cbn; rewrite u64_id; lia).
  assert (controlBytes (led a') = controlBytes (led a) - m) as E2 by (cbn; rewrite u64_id; lia).
  apply (alloc_ok_same n a); [done|done| |apply A]. eapply ledger_control; try done; rewrite ?E1, ?E2; [apply L|lia|lia|cbn; unfold MaxInt64; lia|].
  intros Hne. specialize (Hg Hne). cbn. lia.
Qed.

(** ** The abstract memory *)

(** What the guest and the owner see: the bytes of published objects by reference, the bytes of pending
    reservations, the references issued so far, and the strides of layouts. *)
Record guest_memory : Type := mkMemory {
  gm_live : guestRef -> option gostring;
  gm_pending : nat -> option gostring;
  gm_issued : list guestRef;
  gm_stride : Z -> option Z
}.

Definition unchanged (v v' : guest_memory) : Prop :=
  (forall ref, gm_live v' ref = gm_live v ref) /\ (forall r, gm_pending v' r = gm_pending v r) /\ gm_issued v' = gm_issued v /\
  (forall id, gm_stride v' id = gm_stride v id).

Definition override {K A} `{EqDecision K} (f : K -> A) (k : K) (x : A) (f' : K -> A) : Prop := forall i, f' i = if decide (i = k) then x else f i.

(** One operation on the abstract memory; a refused operation changes nothing. *)
Definition memory_step (v : guest_memory) (o : op) (res : result alloc_error unit) (v' : guest_memory) : Prop :=
  match res, o with
  | Err _, _ => unchanged v v'
  | Ok _, Register l =>
      (forall ref, gm_live v' ref = gm_live v ref) /\ (forall r, gm_pending v' r = gm_pending v r) /\ gm_issued v' = gm_issued v /\
      (exists id, gm_stride v' id = Some (lstride l)) /\ (forall id k, gm_stride v id = Some k -> k <> 0 -> gm_stride v' id = Some k)
  | Ok _, Reserve lay cnt _ =>
      exists ref stride size, (ref ∉ gm_issued v) /\ gm_issued v' = gm_issued v ++ [ref] /\ gm_stride v lay = Some stride /\
      (stride * cnt <= size /\ size = object_bytes (stride * cnt)) /\
      (forall ref, gm_live v' ref = gm_live v ref) /\ override (gm_pending v) (length (gm_issued v)) (Some (replicate (Z.to_nat size) 0)) (gm_pending v') /\
      (forall id, gm_stride v' id = gm_stride v id)
  | Ok _, Fill r offset b =>
      exists bytes, gm_pending v r = Some bytes /\ override (gm_pending v) r (Some (list_inserts (Z.to_nat offset) b bytes)) (gm_pending v') /\
      (forall ref, gm_live v' ref = gm_live v ref) /\ gm_issued v' = gm_issued v /\ (forall id, gm_stride v' id = gm_stride v id)
  | Ok _, Commit r =>
      exists ref bytes, gm_issued v !! r = Some ref /\ gm_pending v r = Some bytes /\ gm_live v ref = None /\
      override (gm_live v) ref (Some bytes) (gm_live v') /\ override (gm_pending v) r None (gm_pending v') /\ gm_issued v' = gm_issued v /\
      (forall id, gm_stride v' id = gm_stride v id)
  | Ok _, Abort r =>
      override (gm_pending v) r None (gm_pending v') /\ (forall ref, gm_live v' ref = gm_live v ref) /\ gm_issued v' = gm_issued v /\
      (forall id, gm_stride v' id = gm_stride v id)
  | Ok _, Release ref =>
      gm_live v ref <> None /\ override (gm_live v) ref None (gm_live v') /\ (forall r, gm_pending v' r = gm_pending v r) /\ gm_issued v' = gm_issued v /\
      (forall id, gm_stride v' id = gm_stride v id)
  | Ok _, Store ref offset b =>
      exists bytes, gm_live v ref = Some bytes /\ override (gm_live v) ref (Some (list_inserts (Z.to_nat offset) b bytes)) (gm_live v') /\
      (forall r, gm_pending v' r = gm_pending v r) /\ gm_issued v' = gm_issued v /\ (forall id, gm_stride v' id = gm_stride v id)
  | Ok _, _ => unchanged v v'
  end.

(** The bytes of a pending reservation. *)
Definition pending (a : allocator) (r : nat) : option gostring :=
  x ← reservations a !! r; if res_done x then None else e ← object (mem a) (slot (res_ref x)); content (mem a) e.

Definition view (a : allocator) : guest_memory := mkMemory (payload (mem a)) (pending a) (map res_ref (reservations a)) (stride_of a).

(** The arguments a caller may pass: words in range, reservations it holds, writes inside the reserved bytes. *)
Definition legal (a : allocator) (o : op) : Prop :=
  match o with
  | Register l => 0 <= lstride l < 2 ^ 32
  | Reserve _ cnt n => 0 <= cnt < 2 ^ 32 /\ 0 <= n < 2 ^ 64
  | Fill r offset b => exists bytes, pending a r = Some bytes /\ 0 <= offset /\ offset + Z.of_nat (length b) <= Z.of_nat (length bytes)
  | Commit r => pending a r <> None
  | Abort r => (r < length (reservations a))%nat
  | Store _ offset _ => 0 <= offset
  | ReserveControl n | ReleaseControl n => 0 <= n < 2 ^ 64
  | _ => True
  end.

(** States after [n] operations on a new heap, whatever their outcomes. *)
Inductive reach (guest resid : Z) : Z -> allocator -> Prop :=
| reach_new : reach guest resid 0 (newManagedHeap guest resid)
| reach_exec n a o res a' : reach guest resid n a -> legal a o -> exec o a = (res, a') -> reach guest resid (n + 1) a'.

(** Generations only grow, and only when a free slot is reused. *)
Definition evolves (h h' : managedHeap) : Prop :=
  forall i e, object h i = Some e -> exists e', object h' i = Some e' /\
    (obj_generation e' = obj_generation e /\ (obj_state e = managedFree -> obj_state e' = managedFree) \/
     obj_generation e' = obj_generation e + 1 /\ obj_state e = managedFree).

(** References are issued once, for generations their slots have reached. *)
Record issued_ok (a : allocator) : Prop := {
  is_nodup : NoDup (map res_ref (reservations a));
  is_reached : forall x, x ∈ reservations a -> exists e, object (mem a) (slot (res_ref x)) = Some e /\ generation (res_ref x) <= obj_generation e
}.

Lemma evolves_same h h' : (forall i, object h' i = object h i) -> evolves h h'.
Proof. intros E i e He. exists e. rewrite E. split; [done|by left]. Qed.

Lemma issued_evolves a a' : issued_ok a -> evolves (mem a) (mem a') -> map res_ref (reservations a') = map res_ref (reservations a) -> issued_ok a'.
Proof.
  intros [I1 I2] Ev E. split; [by rewrite E|]. intros x Hx. assert (res_ref x ∈ map res_ref (reservations a)) as (y & Ey & Hy)%list_elem_of_fmap.
  { rewrite <- E. by apply list_elem_of_fmap_2. }
  rewrite Ey. destruct (I2 y Hy) as (e & He & Hg). destruct (Ev _ _ He) as (e' & He' & [[? _]|[? _]]); exists e'; split; try done; lia.
Qed.

(** ** One operation *)

Definition step_post (n : Z) (a : allocator) (o : op) (res : result alloc_error unit) (a' : allocator) : Prop :=
  alloc_ok (n + 1) a' /\ issued_ok a' /\ res <> Err AllocPanic /\ conf a' = conf a /\ evolves (mem a) (mem a') /\ memory_step (view a) o res (view a').

Lemma pending_same a a' r :
  reserved_ok a -> reservations a' !! r = reservations a !! r ->
  (forall x e, reservations a !! r = Some x -> res_done x = false -> object (mem a) (slot (res_ref x)) = Some e -> obj_state e = managedReserved ->
     object (mem a') (slot (res_ref x)) = Some e /\ content (mem a') e = content (mem a) e) ->
  pending a' r = pending a r.
Proof.
  intros R Er H. unfold pending. rewrite Er. destruct (reservations a !! r) as [x|] eqn:Hx; [|done]. cbn [mbind option_bind].
  destruct (res_done x) eqn:Hd; [done|]. destruct (res_held _ R r x Hx Hd) as (e & He & Hst & _). destruct (H x e eq_refl Hd He Hst) as [-> Hc]. by rewrite He.
Qed.

Lemma pending_some a r bytes : pending a r = Some bytes -> exists x e,
  reservations a !! r = Some x /\ res_done x = false /\ object (mem a) (slot (res_ref x)) = Some e /\ content (mem a) e = Some bytes.
Proof.
  unfold pending. destruct (reservations a !! r) as [x|] eqn:Hx; [|done]. cbn [mbind option_bind]. destruct (res_done x) eqn:Hd; [done|].
  destruct (object (mem a) (slot (res_ref x))) as [e|] eqn:He; [|done]. cbn [mbind option_bind]. intros Hc. by exists x, e.
Qed.

Lemma pending_of a r x e : reservations a !! r = Some x -> res_done x = false -> object (mem a) (slot (res_ref x)) = Some e -> pending a r = content (mem a) e.
Proof. intros Hx Hd He. unfold pending. rewrite Hx. cbn [mbind option_bind]. by rewrite Hd, He. Qed.

Lemma pending_done a r x : reservations a !! r = Some x -> res_done x = true -> pending a r = None.
Proof. intros Hx Hd. unfold pending. rewrite Hx. cbn [mbind option_bind]. by rewrite Hd. Qed.

Lemma same_objects_refl a : same_objects a a.
Proof. by split. Qed.

Lemma same_view a a' : same_objects a a' -> (forall ref, payload (mem a') ref = payload (mem a) ref) /\ (forall r, pending a' r = pending a r) /\
  map res_ref (reservations a') = map res_ref (reservations a) /\ evolves (mem a) (mem a').
Proof.
  intros [E1 E2 E3 E4 _]. rewrite E4, E1. repeat (split; [done|]). split; [|split; [done|by apply evolves_same]].
  intros r. unfold pending. by rewrite E4, E1.
Qed.

(** Operations that leave objects and layouts alone, and refused ones. *)
Lemma quiet_post n a o res a' :
  alloc_ok n a' -> issued_ok a -> same_objects a a' -> layouts a' = layouts a -> res <> Err AllocPanic ->
  (match res, o with Err _, _ => True | _, (Unregister _ | ReserveControl _ | CommitControl _ | AbortControl _ | ReleaseControl _) => True | _, _ => False end) ->
  step_post n a o res a'.
Proof.
  intros A I S El Hr Ho. destruct (same_view _ _ S) as (V1 & V2 & V3 & Ev). split; [by eapply alloc_ok_le; [done|lia]|]. split; [by eapply issued_evolves|].
  split; [done|]. split; [apply S|]. split; [done|]. assert (unchanged (view a) (view a')) as U.
  { repeat (split; [done|]). intros id. cbn. unfold stride_of. by rewrite El. }
  destruct res; [|exact U]. destruct o; done.
Qed.

Lemma prepared_view n k a a' : alloc_ok n a -> prepared k a a' -> unchanged (view a) (view a') /\ evolves (mem a) (mem a') /\
  forall i f, lives (mem a) i f -> content (mem a') f = content (mem a) f.
Proof.
  intros [D G R L B Ly] P. destruct (pr_static _ _ _ P) as (_ & El & Er & _).
  assert (forall i f, lives (mem a) i f -> content (mem a') f = content (mem a) f) as Hc.
  { intros i f Hf. unfold content. by rewrite (proj2 (pr_use _ _ _ P _ (live_in_use _ _ _ G Hf))). }
  split; [|split; [|done]].
  - split; [intros ref; by eapply payload_prepared|]. split; [|split; [cbn; by rewrite Er|intros id; cbn; unfold stride_of; by rewrite El]].
    intros r. cbn. apply pending_same; [done|by rewrite Er|]. intros x e Hx Hd He Hst. split; [by apply P|]. apply (Hc (slot (res_ref x))).
    split; [done|]. unfold live. by rewrite Hst.
  - intros i e He. exists e. split; [by apply P|by left].
Qed.

Lemma reserve_post n lay cnt lg a res a' :
  alloc_ok n a -> issued_ok a -> 0 <= n < 2 ^ 30 -> 0 <= cnt -> 0 <= lg -> exec (Reserve lay cnt lg) a = (res, a') -> step_post n a (Reserve lay cnt lg) res a'.
Proof.
  intros A I Hn Hc Hl E. pose proof (reserve_spec n lay cnt lg a A Hn Hc Hl) as H. cbn [exec] in E. unfold void, alloc_bind in E.
  destruct (reserve lay cnt lg a) as [[r|e] b].
  2: { injection E as <- <-. destruct H as (He & A' & P). destruct (prepared_view _ _ _ _ A P) as (U & Ev & _). split; [done|].
    split; [eapply issued_evolves; [done|done|apply U]|]. split; [congruence|]. split; [apply P|]. by split. }
  injection E as <- <-. destruct H as (A' & -> & a1 & s & e & l & P & Ra & Hlay & Hsz & El & Ec). destruct (prepared_view _ _ _ _ A P) as ((U1 & U2 & U3 & U4) & Ev & Hcon).
  cbn in U1, U2, U3. destruct (ra_before _ _ _ _ Ra) as (e0 & He0 & Hst0 & Hgen). pose proof (pr_static _ _ _ P) as (_ & _ & Er & _).
  pose proof (ra_reservations _ _ _ _ Ra) as Err. rewrite Er in Err. set (ref := mkRef s (obj_generation e)) in *.
  destruct (prepared_rest _ _ _ (ok_reserved _ _ A) (ok_ledger _ _ A) P) as [R1 _].
  assert (ref ∉ map res_ref (reservations a)) as Hfresh.
  { intros (x & Ex & Hx)%list_elem_of_fmap. destruct (is_reached _ I x Hx) as (f & Hf & Hle). rewrite <- Ex in Hf, Hle. cbn in Hf, Hle.
    apply (pr_objects _ _ _ P) in Hf. assert (f = e0) as -> by congruence. lia. }
  assert (evolves (mem a) (mem b)) as Ev'.
  { intros i f Hf. apply (pr_objects _ _ _ P) in Hf. rewrite (ra_object _ _ _ _ Ra). destruct (decide (i = s)) as [->|Hne]; [|exists f; split; [done|by left]].
    assert (f = e0) as -> by congruence. exists e. split; [done|]. by right. }
  split; [done|]. split; [|split; [done|split; [done|split; [done|]]]].
  - split; rewrite Err.
    + rewrite map_app. apply NoDup_app. split; [apply I|]. split; [|apply NoDup_singleton]. intros y Hy Hy'. apply list_elem_of_singleton in Hy'. by rewrite Hy' in Hy.
    + intros x [Hx|Hx%list_elem_of_singleton]%elem_of_app.
      * destruct (is_reached _ I x Hx) as (f & Hf & Hle). destruct (Ev' _ _ Hf) as (f' & Hf' & [[? _]|[? _]]); exists f'; split; try done; lia.
      * subst x. exists e. cbn. rewrite (ra_object _ _ _ _ Ra), decide_True by done. split; [done|lia].
  - cbn. exists ref, (lstride l), (obj_size e). split; [done|]. split; [by rewrite Err, map_app|]. split; [unfold stride_of; by rewrite Hlay|]. split; [done|].
    split; [intros q; by rewrite (ra_payload _ _ _ _ Ra)|]. split; [|intros id; unfold stride_of; by rewrite El].
    intros r. rewrite length_map. destruct (decide (r = length (reservations a))) as [->|Hne].
    + rewrite (pending_of _ _ (mkReservation ref false) e); [|by rewrite Err, lookup_app_r, Nat.sub_diag by done|done|cbn; by rewrite (ra_object _ _ _ _ Ra), decide_True].
      destruct (ra_zero _ _ _ _ Ra) as (p & Hp & Hw). unfold content. rewrite Hp. cbn. by rewrite Hw.
    + rewrite <- U2. apply pending_same; [done|by rewrite Err, Er, lookup_snoc_ne|]. intros x f Hx Hd Hf Hst.
      assert (slot (res_ref x) <> s) as Hsl by (intros Es; rewrite Es in Hf; congruence). rewrite (ra_object _ _ _ _ Ra), decide_False by done.
      split; [done|]. apply (ra_content _ _ _ _ Ra (slot (res_ref x))). split; [done|]. unfold live. by rewrite Hst.
Qed.

Lemma payload_same h h' q :
  object h' (slot q) = object h (slot q) -> (forall e, lives h (slot q) e -> content h' e = content h e) -> payload h' q = payload h q.
Proof.
  intros Eo Hc. assert (resolveObject h' q = resolveObject h q) as Er by (unfold resolveObject; by rewrite Eo). unfold payload. rewrite Er.
  destruct (resolveObject h q) as [e|] eqn:E; [|done]. pose proof E as (He & Hst & _)%resolve_ok. apply (Hc e). by apply published_live.
Qed.

Lemma payload_published h q e : object h (slot q) = Some e -> obj_state e = managedPublished -> obj_generation e = generation q -> payload h q = content h e.
Proof. intros He Hst Hg. unfold payload. by rewrite (proj2 (resolve_ok h q e)). Qed.

Lemma payload_other h q e : object h (slot q) = Some e -> obj_state e <> managedPublished \/ obj_generation e <> generation q -> payload h q = None.
Proof.
  intros He H. unfold payload. destruct (resolveObject h q) as [f|] eqn:E; [|done]. apply resolve_ok in E as (Hf & Hst & Hg). destruct H; congruence.
Qed.

Lemma same_slot_other (q ref : guestRef) : q <> ref -> slot q = slot ref -> generation q <> generation ref.
Proof. destruct q, ref. cbn. congruence. Qed.

Lemma finished_refs r l : map res_ref (alter (fun x => mkReservation (res_ref x) true) r l) = map res_ref l.
Proof.
  apply list_eq. intros i. rewrite !list_lookup_fmap. destruct (decide (i = r)) as [->|Hne]; [rewrite list_lookup_alter_eq|by rewrite list_lookup_alter_ne].
  by destruct (l !! r).
Qed.

(** The other pending reservations after one of them was finished. *)
Lemma pending_finished a a' r x :
  reserved_ok a -> reservations a !! r = Some x -> res_done x = false ->
  reservations a' = alter (fun x => mkReservation (res_ref x) true) r (reservations a) ->
  (forall i, i <> slot (res_ref x) -> object (mem a') i = object (mem a) i) ->
  (forall i f, lives (mem a) i f -> i <> slot (res_ref x) -> content (mem a') f = content (mem a) f) ->
  override (pending a) r None (pending a').
Proof.
  intros R Hx Hd Er Ho Hc i. destruct (decide (i = r)) as [->|Hne].
  - eapply pending_done; [by rewrite Er, list_lookup_alter_eq, Hx|done].
  - apply pending_same; [done|by rewrite Er, list_lookup_alter_ne|]. intros y e Hy Hdy He Hst.
    assert (slot (res_ref y) <> slot (res_ref x)) as Hsl by (intros Es; apply Hne; by eapply R).
    rewrite Ho by done. split; [done|]. eapply Hc; [split; [exact He|unfold live; by rewrite Hst]|done].
Qed.

Lemma commit_post n r a res a' :
  alloc_ok n a -> issued_ok a -> 0 <= n < 2 ^ 30 -> legal a (Commit r) -> exec (Commit r) a = (res, a') -> step_post n a (Commit r) res a'.
Proof.
  intros A I Hn Hleg E. cbn [legal] in Hleg. destruct (pending a r) as [bytes|] eqn:Hp; [|done]. destruct (pending_some _ _ _ Hp) as (x & e & Hx & Hd & He & Hcon).
  destruct (commit_spec n r x a A Hn Hx Hd) as (f & b & Ec & A' & C). cbn [exec] in E. unfold void, alloc_bind in E. rewrite Ec in E. injection E as <- <-.
  destruct (cm_object _ _ _ _ _ C) as (Hf & Hst & Hgen). assert (f = e) as -> by congruence. set (ref := res_ref x) in *.
  pose proof (cm_objects _ _ _ _ _ C) as Ho. assert (forall f, content (mem b) f = content (mem a) f) as Hc.
  { intros f. unfold content. pose proof (cm_data _ _ _ _ _ C (Z.to_nat (obj_page f))) as H. destruct (pages (mem b) !! _), (pages (mem a) !! _); cbn in *; congruence. }
  assert (evolves (mem a) (mem b)) as Ev.
  { intros i g Hg. rewrite Ho. destruct (decide (i = slot ref)) as [->|Hne]; [|exists g; split; [done|by left]]. assert (g = e) as -> by congruence.
    eexists. split; [done|left]. split; [done|]. rewrite Hst. done. }
  pose proof (cm_reservations _ _ _ _ _ C) as Er. assert (map res_ref (reservations b) = map res_ref (reservations a)) as Em by (rewrite Er; apply finished_refs).
  destruct (cm_static _ _ _ _ _ C) as [El Ecf]. split; [done|]. split; [by eapply issued_evolves|]. split; [done|]. split; [done|]. split; [done|]. cbn. exists ref, bytes.
  split; [by rewrite list_lookup_fmap, Hx|]. split; [done|]. split; [eapply payload_other; [exact He|left; by rewrite Hst]|].
  split; [|split; [|split; [done|intros id; unfold stride_of; by rewrite El]]].
  - intros q. destruct (decide (q = ref)) as [->|Hne].
    + rewrite (payload_published _ _ (with_obj_state managedPublished e)); [|by rewrite Ho, decide_True|done|done]. rewrite Hc. exact Hcon.
    + destruct (decide (slot q = slot ref)) as [Es|Ns].
      * rewrite (payload_other (mem a) q e) by (try (left; by rewrite Hst); by rewrite Es).
        eapply payload_other; [by rewrite Ho, decide_True|right]. cbn. rewrite Hgen. by apply not_eq_sym, same_slot_other.
      * apply payload_same; [by rewrite Ho, decide_False|]. intros g _. apply Hc.
  - eapply (pending_finished a b r x); try done; [apply A|]. intros i Hi. by rewrite Ho, decide_False.
Qed.

Lemma removed_evolves a a' s e : removed a a' s e -> evolves (mem a) (mem a').
Proof.
  intros [He Ho _] i f Hf. rewrite Ho. destruct (decide (i = s)) as [->|Hne]; [|exists f; split; [done|by left]]. assert (f = e) as -> by congruence.
  eexists. split; [done|by left].
Qed.

Lemma removed_content a a' s e f : removed a a' s e -> content (mem a') f = content (mem a) f.
Proof. intros [_ _ Ep]. unfold content. by rewrite Ep. Qed.

Lemma abort_post n r a res a' : alloc_ok n a -> issued_ok a -> legal a (Abort r) -> exec (Abort r) a = (res, a') -> step_post n a (Abort r) res a'.
Proof.
  intros A I Hleg E. destruct (lookup_lt_is_Some_2 _ _ Hleg) as [x Hx]. cbn [exec] in E. destruct (res_done x) eqn:Hd.
  { unfold abort in E. rewrite Hx, Hd in E. injection E as <- <-. split; [by eapply alloc_ok_le; [done|lia]|]. split; [done|]. split; [done|]. split; [done|].
    split; [by apply evolves_same|]. split; [|done]. intros i. destruct (decide (i = r)) as [->|?]; [|done]. by eapply pending_done. }
  destruct (abort_spec n r x a A Hx Hd) as (e & b & Ea & A' & Rm & Hst & Hgen & Er & El & Ecf). rewrite Ea in E. injection E as <- <-.
  split; [by eapply alloc_ok_le; [done|lia]|]. pose proof (removed_evolves _ _ _ _ Rm) as Ev.
  assert (map res_ref (reservations b) = map res_ref (reservations a)) as Em by (rewrite Er; apply finished_refs).
  split; [by eapply issued_evolves|]. split; [done|]. split; [done|]. split; [done|]. split; [|split; [|split; [done|intros id; cbn; unfold stride_of; by rewrite El]]].
  - eapply (pending_finished a b r x); try done; [apply A| |].
    + intros i Hi. by rewrite (rm_objects _ _ _ _ Rm), decide_False.
    + intros i f _ _. by eapply removed_content.
  - intros q. cbn. destruct (decide (slot q = slot (res_ref x))) as [Es|Ns].
    + rewrite (payload_other (mem a) q e) by (try (left; by rewrite Hst); rewrite Es; apply Rm).
      eapply payload_other; [by rewrite (rm_objects _ _ _ _ Rm), decide_True|by left].
    + apply payload_same; [by rewrite (rm_objects _ _ _ _ Rm), decide_False|]. intros f _. by eapply removed_content.
Qed.

Lemma release_post n ref a res a' : alloc_ok n a -> issued_ok a -> exec (Release ref) a = (res, a') -> step_post n a (Release ref) res a'.
Proof.
  intros A I E. pose proof (release_object_spec n ref a A) as H. cbn [exec] in E. rewrite E in H. destruct res as [[]|x].
  2: { destruct H as (-> & -> & _). apply quiet_post; try done. }
  destruct H as (A' & e & Hr & Rm & Er & El & Ecf). split; [by eapply alloc_ok_le; [done|lia]|]. pose proof (removed_evolves _ _ _ _ Rm) as Ev.
  split; [eapply issued_evolves; [done|done|by rewrite Er]|]. split; [done|]. split; [done|]. split; [done|]. pose proof Hr as (He & Hst & Hg)%resolve_ok.
  split; [|split; [|split; [|split; [cbn; by rewrite Er|intros id; cbn; unfold stride_of; by rewrite El]]]].
  - cbn. intros Hn. apply stale_payload in Hn; [congruence|]. eapply pages_ok_heap, A.
  - intros q. cbn. destruct (decide (q = ref)) as [->|Hne].
    { eapply payload_other; [by rewrite (rm_objects _ _ _ _ Rm), decide_True|by left]. }
    destruct (decide (slot q = slot ref)) as [Es|Ns].
    + rewrite (payload_other (mem a) q e); [|by rewrite Es|right; rewrite Hg; by apply not_eq_sym, same_slot_other].
      eapply payload_other; [by rewrite (rm_objects _ _ _ _ Rm), decide_True|by left].
    + apply payload_same; [by rewrite (rm_objects _ _ _ _ Rm), decide_False|]. intros f _. by eapply removed_content.
  - intros r. apply pending_same; [apply A|by rewrite Er|]. intros x f Hx Hd Hf Hfs. rewrite (rm_objects _ _ _ _ Rm), decide_False by (intros Es; rewrite Es in Hf; congruence).
    split; [done|]. by eapply removed_content.
Qed.

Lemma rewritten_evolves h h' s e b : rewritten h h' s e b -> evolves h h'.
Proof. intros W. apply evolves_same. intros i. apply object_segments, W. Qed.

Lemma fill_post n r offset b a res a' :
  alloc_ok n a -> issued_ok a -> legal a (Fill r offset b) -> exec (Fill r offset b) a = (res, a') -> step_post n a (Fill r offset b) res a'.
Proof.
  intros A I (bytes & Hp & Ho & Hr) E. destruct (pending_some _ _ _ Hp) as (x & e & Hx & Hd & He & Hcon). cbn [exec] in E.
  destruct (res_held _ (ok_reserved _ _ A) r x Hx Hd) as (f & Hf & Hst & _). assert (f = e) as -> by congruence.
  assert (lives (mem a) (slot (res_ref x)) e) as Hl by (split; [done|unfold live; by rewrite Hst]).
  assert (length bytes = Z.to_nat (obj_size e) /\ 0 <= obj_size e) as [Hlen Hsz].
  { destruct (pg_placed _ _ (ok_pages _ _ A) _ _ Hl) as [(H1 & H2 & H3) (p & y & Hpg & _ & Hb & _)]. unfold content in Hcon. rewrite Hpg in Hcon. injection Hcon as <-.
    split; [apply window_length; lia|lia]. }
  destruct (fill_spec n r x e bytes offset b a) as (h' & Ef & A' & W); [done..|lia|]. rewrite Ef in E. injection E as <- <-.
  pose proof (rewritten_evolves _ _ _ _ _ W) as Ev. assert (forall i, object h' i = object (mem a) i) as Hob by (intros i; apply object_segments, W).
  split; [by eapply alloc_ok_le; [done|lia]|]. split; [by eapply issued_evolves|]. split; [done|]. split; [done|]. split; [done|]. cbn. exists bytes. split; [done|].
  split; [|split; [|done]].
  - intros i. destruct (decide (i = r)) as [->|Hne].
    + rewrite (pending_of _ _ x e); [apply W|done|done|cbn; by rewrite Hob].
    + apply pending_same; [apply A|done|]. intros y f Hy Hdy Hfy Hsty. cbn. rewrite Hob. split; [done|].
      apply (rw_others _ _ _ _ _ W (slot (res_ref y))); [split; [done|unfold live; by rewrite Hsty]|].
      intros Es. apply Hne. by eapply (res_distinct _ (ok_reserved _ _ A)).
  - intros q. destruct (decide (slot q = slot (res_ref x))) as [Es|Ns].
    + rewrite (payload_other (mem a) q e) by (try (left; by rewrite Hst); by rewrite Es). eapply payload_other; [by rewrite Hob, Es|left; by rewrite Hst].
    + apply payload_same; [apply Hob|]. intros f Hf'. by apply (rw_others _ _ _ _ _ W (slot q)).
Qed.

Lemma Store_post n ref offset b a res a' :
  alloc_ok n a -> issued_ok a -> legal a (Store ref offset b) -> exec (Store ref offset b) a = (res, a') -> step_post n a (Store ref offset b) res a'.
Proof.
  intros A I Ho E. pose proof (Store_spec n ref offset b a A Ho) as H. rewrite E in H. destruct res as [[]|x]; [|by destruct H as [-> ->]; apply quiet_post].
  destruct H as (A' & e & bytes & h' & Hr & Hcon & -> & W). pose proof (rewritten_evolves _ _ _ _ _ W) as Ev. pose proof Hr as (He & Hst & Hg)%resolve_ok.
  assert (forall i, object h' i = object (mem a) i) as Hob by (intros i; apply object_segments, W).
  split; [by eapply alloc_ok_le; [done|lia]|]. split; [by eapply issued_evolves|]. split; [done|]. split; [done|]. split; [done|]. cbn. exists bytes.
  split; [by rewrite (payload_published _ _ e)|]. split; [|split; [|done]].
  - intros q. destruct (decide (q = ref)) as [->|Hne]; [rewrite (payload_published _ _ e) by (try done; by rewrite Hob); apply W|].
    destruct (decide (slot q = slot ref)) as [Es|Ns].
    + assert (obj_generation e <> generation q) as Hgq by (rewrite Hg; by apply not_eq_sym, same_slot_other).
      rewrite (payload_other (mem a) q e) by (try (by right); by rewrite Es). eapply payload_other; [by rewrite Hob, Es|by right].
    + apply payload_same; [apply Hob|]. intros f Hf'. by apply (rw_others _ _ _ _ _ W (slot q)).
  - intros r. apply pending_same; [apply A|done|]. intros y f Hy Hdy Hfy Hsty. cbn. rewrite Hob. split; [done|].
    apply (rw_others _ _ _ _ _ W (slot (res_ref y))); [split; [done|unfold live; by rewrite Hsty]|]. intros Es. rewrite Es in Hfy. congruence.
Qed.

Lemma register_post n l a res a' :
  alloc_ok n a -> issued_ok a -> legal a (Register l) -> exec (Register l) a = (res, a') -> step_post n a (Register l) res a'.
Proof.
  intros A I Hl E. pose proof (registerLayout_spec n l a A Hl) as H. cbn [exec] in E. unfold void, alloc_bind in E. destruct (registerLayout l a) as [[id|e] b].
  - injection E as <- <-. destruct H as (S & A' & Hid & Hk). destruct (same_view _ _ S) as (V1 & V2 & V3 & Ev). split; [by eapply alloc_ok_le; [done|lia]|].
    split; [by eapply issued_evolves|]. split; [done|]. split; [apply S|]. split; [done|]. cbn. repeat (split; [done|]). split; [by exists id|done].
  - injection E as <- <-. destruct H as [He ->]. apply quiet_post; try done. congruence.
Qed.

Lemma exec_post n a o res a' :
  alloc_ok n a -> issued_ok a -> 0 <= n < 2 ^ 30 -> legal a o -> exec o a = (res, a') -> step_post n a o res a'.
Proof.
  intros A I Hn Hl E. destruct o as [l|id|lay cnt k|r offset b|r|r|ref|ref offset b|k|c|c|k].
  - by apply register_post.
  - injection E as <- <-. destruct (releaseLayout_spec n id a A) as [S A']. apply quiet_post; try done. unfold releaseLayout. by case_if.
  - destruct Hl. apply reserve_post; try done; lia.
  - by apply fill_post.
  - by apply commit_post.
  - by apply abort_post.
  - by apply release_post.
  - by apply Store_post.
  - destruct Hl as [Hk _]. pose proof (reserveControl_spec n k a A Hk) as H. cbn [exec] in E. unfold void, alloc_bind in E. destruct (reserveControl k a) as [[y|e] b]; injection E as <- <-.
    + destruct H as (S & A' & El). by apply quiet_post.
    + destruct H as [He ->]. apply quiet_post; try done. congruence.
  - injection E as <- <-. destruct (commitControl_spec n c a A) as [S A']. apply quiet_post; try done. unfold commitControl. by repeat case_match.
  - injection E as <- <-. destruct (abortControl_spec n c a A) as [S A']. apply quiet_post; try done. unfold abortControl. by repeat case_match.
  - destruct Hl as [Hk _]. injection E as <- <-. destruct (releaseControl_spec n k a A Hk) as [S A']. apply quiet_post; try done. unfold releaseControl. by case_if.
Qed.

Lemma new_alloc_ok guest resid : 0 <= guest -> 0 <= resid -> alloc_ok 0 (newManagedHeap guest resid) /\ issued_ok (newManagedHeap guest resid).
Proof.
  intros Hg Hr. assert (forall s, object (mkHeap [] [] []) s = None) as Hob.
  { intros s. destruct (object _ s) as [e|] eqn:E; [|done]. apply object_inv in E as (_ & _ & seg & Hseg & _). done. }
  assert (forall s e, ~ lives (mkHeap [] [] []) s e) as Hli by (intros s e [He _]; by rewrite Hob in He).
  split; [|split; [apply NoDup_nil_2|intros x Hx; by apply not_elem_of_nil in Hx]].
  split; cbn.
  - split; cbn; try done; try (intros; by rewrite Hob in *); try (intros ? []%not_elem_of_nil).
    + apply Forall_nil_2.
    + intros s Hs. lia.
    + apply NoDup_nil_2.
  - split; cbn; try done; try (intros; exfalso; by eapply Hli); try (intros ? []%not_elem_of_nil). apply NoDup_nil_2.
  - by split.
  - split; cbn; unfold MaxInt64; try done; lia.
  - split; cbn; lia.
  - repeat constructor; cbn; lia.
Qed.

(** ** Every state reached *)

Lemma reach_nonneg guest resid n a : reach guest resid n a -> 0 <= n.
Proof. induction 1; lia. Qed.

Lemma reach_ok guest resid n a : 0 <= guest -> 0 <= resid -> reach guest resid n a -> n <= 2 ^ 30 ->
  alloc_ok n a /\ issued_ok a /\ maxGuestBytes (conf a) = guest /\ maxResidentBytes (conf a) = resid.
Proof.
  intros Hg Hr. induction 1 as [|n a o res a' H IH Hl E]; intros Hn.
  - destruct (new_alloc_ok guest resid Hg Hr). done.
  - pose proof (reach_nonneg _ _ _ _ H). destruct IH as (A & I & E1 & E2); [lia|].
    destruct (exec_post n a o res a') as (A' & I' & _ & Ec & _); try done; [lia|]. by rewrite Ec.
Qed.

(** ** Runs of any length *)

(** A heap whose directory and page table are far from the end of their 32-bit indices.  Slots and pages
    are reused, so that a run may be of any length. *)
Definition roomy (a : allocator) : Prop := nextSlot (dir a) <= 2 ^ 29 /\ Z.of_nat (length (pages (mem a))) <= 2 ^ 30.

Lemma slots_length h d (l : list Z) :
  dir_ok h d -> NoDup l -> (forall s, s ∈ l -> exists e, object h s = Some e /\ obj_state e = managedPublished) -> Z.of_nat (length l) <= nextSlot d - 1.
Proof.
  intros D Hn Hl. pose proof (dir_next _ _ D) as H1. assert (l ⊆ seqZ 1 (nextSlot d - 1)) as Hs.
  { intros s Hin. destruct (Hl s Hin) as (e & He & Hp). apply elem_of_seqZ. pose proof (object_pos _ _ _ He).
    destruct (Z.lt_ge_cases s (nextSlot d)) as [|Hge]; [lia|]. rewrite (dir_unused _ _ D s e Hge He) in Hp. done. }
  pose proof (submseteq_length _ _ (NoDup_submseteq _ _ Hn Hs)) as Hle. rewrite length_seqZ in Hle. lia.
Qed.

(** The number of operations of the past does not matter to a roomy heap. *)
Lemma roomy_ok n a : alloc_ok n a -> roomy a -> alloc_ok (2 ^ 29) a.
Proof.
  intros [D G Rs L B Ly] [R1 R2]. split; try done. destruct (occupied_nodup _ _ D) as [No Ny].
  assert (Z.of_nat (length (occupied (dir a))) <= nextSlot (dir a) - 1) as Ho.
  { apply (slots_length (mem a)); [done|done|]. intros s [i Hi]%list_elem_of_lookup. by apply (dir_occupied _ _ D i s). }
  assert (Z.of_nat (length (youngSlots (dir a))) <= nextSlot (dir a) - 1) as Hy.
  { apply (slots_length (mem a)); [done|done|]. intros s [i Hi]%list_elem_of_lookup. destruct (dir_young _ _ D i s Hi) as (_ & e & He & Hp & _). by exists e. }
  split; lia.
Qed.

(** Any number of operations from [a], through roomy heaps. *)
Inductive steps : allocator -> allocator -> Prop :=
| steps_none a : steps a a
| steps_more a b o res c : steps a b -> legal b o -> exec o b = (res, c) -> roomy c -> steps a c.

Lemma steps_ok a b : alloc_ok (2 ^ 29) a -> issued_ok a -> steps a b -> alloc_ok (2 ^ 29) b /\ issued_ok b.
Proof.
  intros A I S. induction S as [a|a b o res c S IH Hl E Rm]; [done|]. destruct (IH A I) as [A1 I1].
  destruct (exec_post (2 ^ 29) b o res c) as (A2 & I2 & _); try done. split; [by eapply roomy_ok|done].
Qed.

Lemma steps_new guest resid a : 0 <= guest -> 0 <= resid -> steps (newManagedHeap guest resid) a -> alloc_ok (2 ^ 29) a /\ issued_ok a.
Proof.
  intros Hg Hr S. destruct (new_alloc_ok guest resid Hg Hr) as [A I]. eapply steps_ok; [|done|done]. eapply alloc_ok_le; [done|lia].
Qed.

(** Short runs are among them. *)
Lemma reach_steps guest resid n a : 0 <= guest -> 0 <= resid -> reach guest resid n a -> n <= 2 ^ 28 -> steps (newManagedHeap guest resid) a.
Proof.
  intros Hg Hr R Hn. assert (forall m b, reach guest resid m b -> m <= 2 ^ 28 -> roomy b) as Hroomy.
  { intros m b Rb Hm. destruct (reach_ok _ _ _ _ Hg Hr Rb) as ([_ _ _ _ [B1 B2 _ _] _] & _); [lia|]. split; lia. }
  induction R as [|n a o res a' R IH Hl E]; [constructor|]. eapply steps_more; [apply IH; lia|done|done|]. eapply Hroomy; [by econstructor|lia].
Qed.

(** The slot of [ref] has moved past its generation, or is free at it. *)
Definition dead (h : managedHeap) (ref : guestRef) : Prop :=
  exists e, object h (slot ref) = Some e /\ (generation ref < obj_generation e \/ obj_generation e = generation ref /\ obj_state e = managedFree).

Lemma dead_evolves h h' ref : evolves h h' -> dead h ref -> dead h' ref.
Proof.
  intros Ev (e & He & H). destruct (Ev _ _ He) as (e' & He' & He'g). exists e'. split; [done|].
  destruct He'g as [[Hg Hs]|[Hg Hs]], H as [H|[H H']]; [left; lia|right; split; [lia|by apply Hs]|left; lia|left; lia].
Qed.

Lemma dead_stale h ref : dead h ref -> resolveObject h ref = Err errManagedReference.
Proof.
  intros (e & He & H). destruct (resolveObject h ref) as [f|x] eqn:E; [|f_equal; unfold resolveObject in E; repeat case_match; congruence].
  apply resolve_ok in E as (Hf & Hs & Hg). assert (f = e) as -> by congruence. destruct H as [H|[_ H]]; [lia|congruence].
Qed.

Lemma dead_steps a b ref : alloc_ok (2 ^ 29) a -> issued_ok a -> steps a b -> dead (mem a) ref -> dead (mem b) ref.
Proof.
  intros A I S Hd. induction S as [a|a b o res c S IH Hl E Rm]; [done|]. destruct (steps_ok a b A I S) as [A1 I1].
  destruct (exec_post (2 ^ 29) b o res c) as (_ & _ & _ & _ & Ev & _); try done. eapply dead_evolves; [done|]. by apply IH.
Qed.

(** C6. The allocator implements the abstract memory.  In every state that at most
    2^30 operations reach from a new heap, an operation with legal arguments does not panic, and its effect on
    what the guest can see is that of the abstract operation: a reservation gets a reference never issued
    before and zeroed bytes of at least the size asked for, filling and committing it publishes exactly the
    bytes written, a release or an abort removes exactly one object, a store changes exactly one object, every
    other object keeps its bytes, and a refused operation changes nothing. *)
Theorem allocator_refines_memory (guest resid n : Z) (a : allocator) (o : op) (res : result alloc_error unit) (a' : allocator) :
  0 <= guest -> 0 <= resid -> reach guest resid n a -> n < 2 ^ 30 -> legal a o -> exec o a = (res, a') ->
  res <> Err AllocPanic /\ memory_step (view a) o res (view a').
Proof.
  intros Hg Hr R Hn Hl E. pose proof (reach_nonneg _ _ _ _ R). destruct (reach_ok _ _ _ _ Hg Hr R) as (A & I & _); [lia|].
  destruct (exec_post n a o res a') as (_ & _ & Hp & _ & _ & Hm); try done.
Qed.

(** C8. In every state reached by at most 2^30 operations on a new heap, the heap satisfies what its accesses rely on
    ([heap_ok]); live objects, reserved or published, do not overlap; the occupied list names each published
    object once and nothing else; and the free list names, once each, free objects that have a generation
    left. *)
Theorem allocator_directory_exact (guest resid n : Z) (a : allocator) :
  0 <= guest -> 0 <= resid -> reach guest resid n a -> n <= 2 ^ 30 ->
  heap_ok (mem a) /\
  (forall s t e f, lives (mem a) s e -> lives (mem a) t f -> s <> t -> apart e f) /\
  NoDup (occupied (dir a)) /\ (forall s, s ∈ occupied (dir a) <-> exists e, object (mem a) s = Some e /\ obj_state e = managedPublished) /\
  NoDup (freeSlots (dir a)) /\
  (forall s, s ∈ freeSlots (dir a) -> exists e, object (mem a) s = Some e /\ obj_state e = managedFree /\ obj_generation e < MaxUint32).
Proof.
  intros Hg Hr R Hn. destruct (reach_ok _ _ _ _ Hg Hr R Hn) as ([D G Rs L B Ly] & _).
  split; [by eapply pages_ok_heap|]. split; [apply G|]. split; [by eapply occupied_nodup|]. split; [|split; [apply D|intros s Hs; by apply D]].
  intros s. split; [|intros (e & He & Hp); by eapply D]. intros [i Hi]%list_elem_of_lookup. by apply (dir_occupied _ _ D i s).
Qed.

(** C7. A reference that was released, or whose reservation was aborted, is refused by every later access,
    whatever operations follow, any number of them, and however often its slot is reused, up to the
    exhaustion of its generations.  The runs go through heaps of at most 2^29 slots and 2^30 pages, which
    keeps the 32-bit indices of slots and pages from wrapping around. *)
Theorem no_use_after_free (guest resid : Z) (a a1 b : allocator) (ref : guestRef) (o : op) :
  0 <= guest -> 0 <= resid -> steps (newManagedHeap guest resid) a -> legal a o -> exec o a = (Ok tt, a1) -> roomy a1 ->
  (o = Release ref \/ exists r x, o = Abort r /\ reservations a !! r = Some x /\ res_done x = false /\ res_ref x = ref) ->
  steps a1 b -> resolveObject (mem b) ref = Err errManagedReference.
Proof.
  intros Hg Hr R Hl E Rm Ho S. destruct (steps_new guest resid a Hg Hr R) as [A I].
  assert (steps (newManagedHeap guest resid) a1) as R1 by by econstructor. destruct (steps_new guest resid a1 Hg Hr R1) as [A1 I1].
  eapply dead_stale, (dead_steps a1); try done. destruct Ho as [->|(r & x & -> & Hx & Hd & <-)]; cbn [exec] in E.
  - pose proof (release_object_spec (2 ^ 29) ref a A) as H'. rewrite E in H'. destruct H' as (_ & e & (He & Hst & Hge)%resolve_ok & Rmv & _).
    eexists. rewrite (rm_objects _ _ _ _ Rmv), decide_True by done. split; [done|]. by right.
  - destruct (abort_spec (2 ^ 29) r x a A Hx Hd) as (e & a1' & Ea & _ & Rmv & _ & Hge & _). assert (a1' = a1) as -> by congruence.
    eexists. rewrite (rm_objects _ _ _ _ Rmv), decide_True by done. split; [done|]. by right.
Qed.

(** C9. In every state reached by at most 2^30 operations on a new heap, the counters are exact and within the budgets: the
    occupied bytes are those of the published objects and of control storage, the reserved bytes those of the
    pending reservations, the young bytes those of the nursery's objects; occupied and reserved bytes together
    stay within the guest budget and MaxInt64, and resident bytes within the resident budget. *)
Theorem allocator_ledger_exact (guest resid n : Z) (a : allocator) :
  0 <= guest -> 0 <= resid -> reach guest resid n a -> n <= 2 ^ 30 ->
  let l := led a in let bytes s := logical (meta (dir a) s) in
  occupiedBytes l = sum (map bytes (occupied (dir a))) + controlBytes l /\
  reservedBytes l = sum (map (fun x => if res_done x then 0 else bytes (slot (res_ref x))) (reservations a)) + sum (map (default 0) (controls a)) /\
  youngBytes l = sum (map bytes (youngSlots (dir a))) /\
  0 <= youngBytes l <= occupiedBytes l /\ 0 <= reservedBytes l /\ occupiedBytes l + reservedBytes l <= MaxInt64 /\
  (guest <> 0 -> occupiedBytes l + reservedBytes l <= guest) /\
  0 <= residentPageBytes l <= MaxInt64 /\ (resid <> 0 -> residentPageBytes l <= resid).
Proof.
  intros Hg Hr R Hn l bytes. destruct (reach_ok _ _ _ _ Hg Hr R Hn) as ([D G Rs L B Ly] & _ & E1 & E2).
  pose proof (young_bytes_le a D L). pose proof (ledger_nonneg a L). pose proof (led_control _ L). unfold l.
  split; [apply L|]. split; [apply L|]. split; [apply L|]. split; [lia|]. split; [lia|]. split; [apply L|]. rewrite <- E1, <- E2.
  split; [apply L|]. split; apply L.
Qed.

(** ** A small run: a layout, an object of two words that is filled, published and released *)

Definition sample_layout : managedLayout := mkLayout 8 0 [0] [] [].

Definition sample_ops : list op :=
  [Register sample_layout; Reserve 1 2 16; Fill 0 8 [7; 9]; Commit 0; Store (mkRef 1 1) 0 [5]; Release (mkRef 1 1); Reserve 1 1 8].

(** The state after the first operations of the run. *)
Definition after (k : nat) : allocator := foldl (fun a o => snd (exec o a)) (newManagedHeap 64 0) (take k sample_ops).

Lemma after_next k o : sample_ops !! k = Some o -> after (S k) = snd (exec o (after k)).
Proof. intros Hk. unfold after. rewrite (take_S_r _ _ _ Hk), foldl_app. done. Qed.

Lemma reach_next k o : sample_ops !! k = Some o -> legal (after k) o -> reach 64 0 (Z.of_nat k) (after k) -> reach 64 0 (Z.of_nat (S k)) (after (S k)).
Proof.
  intros Hk Hl R. rewrite Nat2Z.inj_succ. eapply (reach_exec _ _ _ _ o (fst (exec o (after k)))); [exact R|exact Hl|].
  rewrite (after_next k o Hk). apply surjective_pairing.
Qed.

Lemma sample_reach k : (k <= 5)%nat -> reach 64 0 (Z.of_nat k) (after k).
Proof.
  assert (legal (after 2) (Fill 0 8 [7; 9])) as H2.
  { exists (replicate 16 0). split; [by vm_compute|]. cbn. lia. }
  assert (legal (after 3) (Commit 0)) as H3 by by vm_compute.
  induction k as [|k IH]; intros Hk; [apply reach_new|]. specialize (IH ltac:(lia)).
  do 5 (destruct k as [|k]; [eapply reach_next; [done| |exact IH]; first [exact H2|exact H3|cbn; lia]|]). lia.
Qed.

Lemma sample_exec k o : sample_ops !! k = Some o -> fst (exec o (after k)) = Ok tt -> exec o (after k) = (Ok tt, after (S k)).
Proof. intros Hk E. rewrite (after_next k o Hk), <- E. apply surjective_pairing. Qed.

Lemma allocator_refines_memory_witness :
  gm_pending (view (after 3)) 0 = Some ([0; 0; 0; 0; 0; 0; 0; 0; 7; 9] ++ replicate 6 0) /\
  memory_step (view (after 3)) (Commit 0) (Ok tt) (view (after 4)).
Proof.
  split; [by vm_compute|]. apply (allocator_refines_memory 64 0 3 (after 3) (Commit 0) (Ok tt) (after 4));
    [lia|lia|apply (sample_reach 3); lia|lia|by vm_compute|apply sample_exec; [done|by vm_compute]].
Defined.

Lemma allocator_directory_exact_witness :
  occupied (dir (after 5)) = [1] /\ heap_ok (mem (after 5)) /\ payload (mem (after 5)) (mkRef 1 1) = Some ([5; 0; 0; 0; 0; 0; 0; 0; 7; 9] ++ replicate 6 0).
Proof.
  split; [by vm_compute|]. split; [|by vm_compute].
  apply (allocator_directory_exact 64 0 5 (after 5)); [lia|lia|apply (sample_reach 5); lia|lia].
Defined.

Lemma no_use_after_free_witness :
  option_map res_ref (reservations (after 7) !! 1%nat) = Some (mkRef 1 2) /\ resolveObject (mem (after 7)) (mkRef 1 1) = Err errManagedReference.
Proof.
  split; [by vm_compute|].
  apply (no_use_after_free 64 0 (after 5) (after 6) (after 7) (mkRef 1 1) (Release (mkRef 1 1)));
    [lia|lia|apply (reach_steps 64 0 5); [lia|lia|apply (sample_reach 5); lia|lia]|done| |split; vm_compute; congruence|by left|].
  - apply sample_exec; [done|by vm_compute].
  - apply (steps_more (after 6) (after 6) (Reserve 1 1 8) (Ok tt) (after 7)); [apply steps_none|cbn; lia|apply sample_exec; [done|by vm_compute]|split; vm_compute; congruence].
Defined.

Lemma allocator_ledger_exact_witness :
  occupiedBytes (led (after 5)) = 16 /\ occupiedBytes (led (after 5)) + reservedBytes (led (after 5)) <= 64.
Proof.
  split; [by vm_compute|].
  pose proof (allocator_ledger_exact 64 0 5 (after 5) ltac:(lia) ltac:(lia) (sample_reach 5 ltac:(lia)) ltac:(lia)) as H.
  cbv zeta in H. destruct H as (_ & _ & _ & _ & _ & _ & H & _). apply H. lia.
Defined.
