(* ===== verification/MapStorage.v ===== *)
(** * Maps in the managed heap (src/runtime/managed_map.go)

    A map is a 32-byte identity object (references to a slab directory and to a bucket table, and four
    words), slabs of 64 entries and a table of chain heads.  An entry is 16 bytes of metadata (occupied,
    generation, hash, next) followed by the inline key and value; the entries are numbered from 1, chains
    and the list of free entries are linked by these numbers.  The identity of an entry is its number with
    the generation it was stored in, so that an iteration recognises entries that are gone.

    The operations run on the allocator of [Allocator], without a worker batch ([storage.batch == nil]):
    this is the path of keys and values that need no allocation of their own (scalars, references and nil);
    the others are stored through a worker batch, which is not modelled.  Encoding and decoding of inline
    values, the identity of a key and [hash/maphash] are parameters. *)

From S2P Require Import Prelude GoStd GoBytes Heap Allocator.

#[local] Open Scope Z_scope.
#[local] Arguments Z.to_nat : simpl never.

(** ** Computations *)

Inductive map_error : Type :=
| AllocError (e : alloc_error)
| HeapRefused (e : heap_error)
| IndexOutside
| EmptyBucketTable
| RetiredEntry
| EntryOverflow
| ElementError
| MapPanic
| MapOutOfFuel.

#[export] Instance map_error_eq_dec : EqDecision map_error.
Proof. solve_decision. Defined.

Definition stM (S A : Type) : Type := S -> result map_error A * S.

Definition st_return {S A} (x : A) : stM S A := fun s => (Ok x, s).
Definition st_throw {S A} (e : map_error) : stM S A := fun s => (Err e, s).
Definition st_bind {S A B} (m : stM S A) (k : A -> stM S B) : stM S B :=
  fun s => match m s with (Ok x, s1) => k x s1 | (Err e, s1) => (Err e, s1) end.

Notation "'let~' x := m 'in' k" := (st_bind m (fun x => k))
  (at level 10, x binder, m at level 150, k at level 200, format "'[v' 'let~'  x  :=  m  'in' '/' k ']'") : go_scope.

Definition mapM (A : Type) : Type := stM allocator A.

(** What the allocator does, and accesses to its heap. *)
Definition lift {A} (m : allocM A) : mapM A := fun a => match m a with (Ok x, a1) => (Ok x, a1) | (Err e, a1) => (Err (AllocError e), a1) end.
Definition reading {A} (f : managedHeap -> result heap_error A) : mapM A := fun a => (result_map_err HeapRefused (f (mem a)), a).
Definition writing (f : managedHeap -> result heap_error managedHeap) : mapM unit :=
  fun a => match f (mem a) with Ok h => (Ok tt, set_mem h a) | Err e => (Err (HeapRefused e), a) end.
Definition of_result {A} (r : result map_error A) : mapM A := fun a => (r, a).

(** [defer f()] around [m]. *)
Definition deferred {A} (f : allocator -> allocator) (m : mapM A) : mapM A := fun a => let (r, a1) := m a in (r, f a1).

(** A computation that records what it publishes. *)
Definition txM (A : Type) : Type := stM (list guestRef * allocator) A.

Definition in_tx {A} (m : mapM A) : txM A := fun s => match m (snd s) with (r, a) => (r, (fst s, a)) end.

(** ** Data *)

Definition managedMapSlabEntries : Z := 64.
Definition managedMapMetadata : Z := 16.
Definition managedMapIdentityBytes : Z := 32.

Definition StorageReferenceBytes : Z := 8.
Definition StorageRecordHeaderBytes : Z := 16.
Definition StorageMapBucketBytes : Z := 4.
Definition StorageMapEntryBytes : Z := 16.
Definition StorageMapHeaderBytes : Z := 32.

(** The part of a prepared layout that a map uses. *)
Record preparedValueLayout : Type := mkValueLayout { Stride : Z; Logical : Z; References : list Z; Dynamics : list Z; TypeOffsets : list Z }.

Record preparedMapLayout : Type := mkMapLayout { keyLayout : preparedValueLayout; valueLayout : preparedValueLayout; entryStride : Z; valueOffset : Z }.

Record managedMapStorage : Type := mkStorage { identity : guestRef; prepared_layout : preparedMapLayout }.

Record managedMapHeader : Type := mkHeader { hdirectory : guestRef; hbuckets : guestRef; hcount : Z; hcreated : Z; hcapacity : Z; hfree : Z }.

Definition empty_header : managedMapHeader := mkHeader (mkRef 0 0) (mkRef 0 0) 0 0 0 0.

Inductive key_kind : Type := vmMapKeyGeneric | vmMapKeyBool | vmMapKeyString | vmMapKeyInt | vmMapKeyUint.

#[export] Instance key_kind_eq_dec : EqDecision key_kind.
Proof. solve_decision. Defined.

Record vmMapKey : Type := mkMapKey {
  KKind : key_kind; TypeIdentity : gostring; KBool : bool; KInt64 : Z; KUint64 : Z; KText : gostring; NonReflexive : bool; Sequence : Z
}.

#[export] Instance vmMapKey_eq_dec : EqDecision vmMapKey.
Proof. solve_decision. Defined.

Definition kind_byte (k : key_kind) : Z :=
  match k with vmMapKeyGeneric => 0 | vmMapKeyBool => 1 | vmMapKeyString => 2 | vmMapKeyInt => 3 | vmMapKeyUint => 4 end.

(** What the map is told of its keys and values. *)
Class MapElements (K V : Type) : Type := {
  encodeKey : K -> result map_error gostring;
  decodeKey : gostring -> K;
  encodeValue : V -> result map_error gostring;
  decodeValue : gostring -> V;
  mapKey : K -> result map_error vmMapKey;
  maphash : gostring -> Z
}.

Definition alignManagedOffset (offset : Z) : Z := Z.ldiff (u32 (offset + 7)) 7.

Definition managedMapFieldOffsets (key value : list Z) (valueBase : Z) : list Z :=
  map (fun offset => u32 (managedMapMetadata + offset)) key ++ map (fun offset => u32 (valueBase + offset)) value.

(** The layout of an entry, when it is not known yet. *)
Definition prepareManagedMap (key value : preparedValueLayout) : result map_error preparedMapLayout :=
  if (2 ^ 32 - 1) / managedMapSlabEntries <? u64 (managedMapMetadata + Stride key + Stride value + 14) then Err EntryOverflow
  else
    let valueOffset := alignManagedOffset (u32 (managedMapMetadata + Stride key)) in
    Ok (mkMapLayout key value (alignManagedOffset (u32 (valueOffset + Stride value))) valueOffset).

Section storage.
Context {K V : Type} `{MapElements K V}.

Record vmMapEntry : Type := mkEntry { entry_identity : Z; Key : K; Value : V }.

(** The bytes written to the hash, and the low half of its sum. *)
Definition key_bytes (key : vmMapKey) : gostring :=
  TypeIdentity key ++ [kind_byte (KKind key)] ++
  match KKind key with
  | vmMapKeyBool => [if KBool key then 1 else 0]
  | vmMapKeyInt => le_bytes 8 (u64 (KInt64 key))
  | vmMapKeyUint => le_bytes 8 (KUint64 key)
  | _ => KText key
  end.

Definition managedMapKeyHash (key : vmMapKey) : Z := u32 (maphash (key_bytes key)).

(** ** The header, words and entries *)

Definition encode_header (h : managedMapHeader) : gostring :=
  le_bytes 4 (slot (hdirectory h)) ++ le_bytes 4 (generation (hdirectory h)) ++ le_bytes 4 (slot (hbuckets h)) ++ le_bytes 4 (generation (hbuckets h)) ++
  le_bytes 4 (hcount h) ++ le_bytes 4 (hcreated h) ++ le_bytes 4 (hcapacity h) ++ le_bytes 4 (hfree h).

Definition field (raw : gostring) (offset : Z) : Z := le_word (window raw offset 4).

Definition decode_header (raw : gostring) : managedMapHeader :=
  mkHeader (mkRef (field raw 0) (field raw 4)) (mkRef (field raw 8) (field raw 12)) (field raw 16) (field raw 20) (field raw 24) (field raw 28).

Definition readHeader (st : managedMapStorage) : mapM managedMapHeader :=
  let~ raw := reading (fun h => read h (identity st) 0 managedMapIdentityBytes) in
  st_return (decode_header raw).

Definition writeHeader (st : managedMapStorage) (header : managedMapHeader) : mapM unit :=
  writing (fun h => write h (identity st) 0 (encode_header header)).

Definition word (ref : guestRef) (offset : Z) : mapM Z :=
  let~ raw := reading (fun h => read h ref offset 4) in st_return (le_word raw).

Definition writeWord (ref : guestRef) (offset value : Z) : mapM unit := writing (fun h => write h ref offset (le_bytes 4 value)).

Definition location (st : managedMapStorage) (header : managedMapHeader) (index : Z) : mapM (guestRef * Z) :=
  if (index =? 0) || (hcapacity header <? index) then st_throw IndexOutside
  else
    let~ slab := reading (fun h => readReference h (hdirectory header) (u32 ((index - 1) / managedMapSlabEntries * 8))) in
    st_return (slab, u32 ((index - 1) mod managedMapSlabEntries * entryStride (prepared_layout st))).

Definition readEntry (st : managedMapStorage) (header : managedMapHeader) (index gen : Z) : mapM (option vmMapEntry) :=
  if (index =? 0) || (hcreated header <? index) then st_return None
  else
    let~ at_ := location st header index in
    let~ raw := reading (fun h => read h (fst at_) (snd at_) 8) in
    let current := field raw 4 in
    if (field raw 0 =? 0) || (negb (gen =? 0) && negb (gen =? current)) then st_return None
    else
      let l := prepared_layout st in
      let~ key := reading (fun h => read h (fst at_) (u32 (snd at_ + managedMapMetadata)) (Stride (keyLayout l))) in
      let~ value := reading (fun h => read h (fst at_) (u32 (snd at_ + valueOffset l)) (Stride (valueLayout l))) in
      st_return (Some (mkEntry (Z.lor (u64 (Z.shiftl current 32)) index) (decodeKey key) (decodeValue value))).

(** The number of buckets of the table, which must not be empty. *)
Definition bucket_count (header : managedMapHeader) : mapM Z :=
  let~ buckets := reading (fun h => resolveObject h (hbuckets header)) in
  if obj_size buckets / 4 =? 0 then st_throw EmptyBucketTable else st_return (obj_size buckets / 4).

(** The walk along a chain: the entry with its predecessor. *)
Fixpoint find_loop (fuel : nat) (st : managedMapStorage) (header : managedMapHeader) (key : vmMapKey) (hash index previous : Z)
    : mapM (option (Z * Z * vmMapEntry)) :=
  if index =? 0 then st_return None
  else match fuel with
  | O => st_throw MapOutOfFuel
  | S fuel =>
      let~ at_ := location st header index in
      let~ raw := reading (fun h => read h (fst at_) (snd at_) managedMapMetadata) in
      let~ found :=
        if field raw 8 =? hash then
          let~ entry := readEntry st header index 0 in
          match entry with
          | None => st_return None
          | Some entry =>
              let~ candidate := of_result (mapKey (Key entry)) in
              st_return (if bool_decide (candidate = key) then Some entry else None)
          end
        else st_return None in
      match found with
      | Some entry => st_return (Some (index, previous, entry))
      | None => find_loop fuel st header key hash (field raw 12) index
      end
  end.

(** A chain has at most as many entries as there are. *)
Definition find_fuel (header : managedMapHeader) : nat := Z.to_nat (hcapacity header).

Definition find (st : managedMapStorage) (header : managedMapHeader) (key : vmMapKey) (hash : Z) : mapM (option (Z * Z * vmMapEntry)) :=
  if NonReflexive key || negb (valid (hbuckets header)) then st_return None
  else
    let~ count := bucket_count header in
    let~ index := word (hbuckets header) (u32 (hash mod count * 4)) in
    find_loop (find_fuel header) st header key hash index 0.

(** ** Growth *)

(** [rollbackManagedPublications] without a batch: releases that fail are ignored. *)
Definition rollbackManagedPublications (refs : list guestRef) (a : allocator) : allocator :=
  foldl (fun a ref => if valid ref then snd (release ref a) else a) a refs.

(** Reserve, publish and record. *)
Definition allocate (layout count cost : Z) : txM guestRef := fun s =>
  match lift (let@ r := reserve layout count cost in commit r) (snd s) with
  | (Ok ref, a) => (Ok ref, (fst s ++ [ref], a))
  | (Err e, a) => (Err e, (fst s, a))
  end.

Definition run_tx {A} (m : txM A) : mapM A := fun a =>
  match m ([], a) with
  | (Ok x, (_, a1)) => (Ok x, a1)
  | (Err e, (published, a1)) => (Err e, rollbackManagedPublications published a1)
  end.

Definition entry_layout (l : preparedMapLayout) : managedLayout :=
  mkLayout (entryStride l) 0 (managedMapFieldOffsets (References (keyLayout l)) (References (valueLayout l)) (valueOffset l))
    (managedMapFieldOffsets (Dynamics (keyLayout l)) (Dynamics (valueLayout l)) (valueOffset l))
    (managedMapFieldOffsets (TypeOffsets (keyLayout l)) (TypeOffsets (valueLayout l)) (valueOffset l)).

Definition directory_layout : managedLayout := mkLayout 8 0 [0] [] [].
Definition bucket_layout : managedLayout := mkLayout 4 0 [] [] [].

(** The size of an object that a reference names, in units; 0 for an invalid reference. *)
Definition units (ref : guestRef) (unit_ : Z) : mapM Z :=
  if valid ref then let~ entry := reading (fun h => resolveObject h ref) in st_return (obj_size entry / unit_) else st_return 0.

Definition grow_directory (header : managedMapHeader) (layout slabs oldSlabs : Z) : txM guestRef :=
  let~ directoryCount := in_tx (units (hdirectory header) 8) in
  if slabs <=? directoryCount then st_return (hdirectory header)
  else if 2 ^ 32 - 1 <? directoryCount * 2 then st_throw (AllocError errManagedLimit)
  else
    let directoryCount := Z.max 8 (Z.max slabs (directoryCount * 2)) in
    let~ directory := allocate layout directoryCount (StorageRecordHeaderBytes + directoryCount * StorageReferenceBytes) in
    let~ _ := if oldSlabs =? 0 then st_return tt else in_tx (writing (fun h => copy h directory 0 (hdirectory header) 0 (oldSlabs * 8))) in
    st_return directory.

Fixpoint new_slabs (count : nat) (layout cost : Z) : txM (list guestRef) :=
  match count with
  | O => st_return []
  | S count => let~ slab := allocate layout managedMapSlabEntries cost in let~ rest := new_slabs count layout cost in st_return (slab :: rest)
  end.

Definition slab_cost (l : preparedMapLayout) : Z :=
  u64 (StorageRecordHeaderBytes + managedMapSlabEntries * (StorageMapEntryBytes + Logical (keyLayout l) + Logical (valueLayout l))).

(** The first power of two that reaches the target, in 32 bits. *)
Fixpoint double_buckets (fuel : nat) (count target : Z) : result map_error Z :=
  if target <=? count then Ok count
  else match fuel with
       | O => Err MapOutOfFuel
       | S fuel => if (2 ^ 32 - 1) / 2 <? count then Err (AllocError errManagedLimit) else double_buckets fuel (u32 (count * 2)) target
       end.

(** The bucket table with its size. *)
Definition grow_buckets (header : managedMapHeader) (layout capacity : Z) : txM (guestRef * Z) :=
  let~ bucketCount := in_tx (units (hbuckets header) 4) in
  let target := capacity * 2 in
  if 2 ^ 32 - 1 <? target then st_throw (AllocError errManagedLimit)
  else if target <=? bucketCount then st_return (hbuckets header, bucketCount)
  else
    let~ bucketCount := in_tx (of_result (double_buckets 32 1 target)) in
    let~ buckets := allocate layout bucketCount (StorageRecordHeaderBytes + bucketCount * StorageMapBucketBytes) in
    st_return (buckets, bucketCount).

(** The entries from [index] on move to the chains of the new table. *)
Fixpoint rehash (count : nat) (st : managedMapStorage) (header : managedMapHeader) (buckets : guestRef) (bucketCount index : Z) : mapM unit :=
  match count with
  | O => st_return tt
  | S count =>
      let~ at_ := location st header index in
      let~ raw := reading (fun h => read h (fst at_) (snd at_) managedMapMetadata) in
      let~ _ :=
        if field raw 0 =? 0 then st_return tt
        else
          let bucket := Z.land (field raw 8) (bucketCount - 1) in
          let~ head := word buckets (u32 (bucket * 4)) in
          let~ _ := writeWord (fst at_) (u32 (snd at_ + 12)) head in
          writeWord buckets (u32 (bucket * 4)) index in
      rehash count st header buckets bucketCount (index + 1)
  end.

Fixpoint link_slabs (directory : guestRef) (index : Z) (slabs : list guestRef) : mapM unit :=
  match slabs with
  | [] => st_return tt
  | slab :: rest => let~ _ := writing (fun h => writeReference h directory (u32 (index * 8)) slab) in link_slabs directory (index + 1) rest
  end.

Definition grow (st : managedMapStorage) (header : managedMapHeader) (index entryLayout directoryLayout bucketLayout : Z) : txM managedMapHeader :=
  if 2 ^ 32 - 1 - managedMapSlabEntries <? index then st_throw (AllocError errManagedLimit)
  else
    let capacity := (index + managedMapSlabEntries - 1) / managedMapSlabEntries * managedMapSlabEntries in
    let slabs := capacity / managedMapSlabEntries in
    let oldSlabs := hcapacity header / managedMapSlabEntries in
    let~ directory := grow_directory header directoryLayout slabs oldSlabs in
    let~ newSlabs := new_slabs (Z.to_nat (slabs - oldSlabs)) entryLayout (slab_cost (prepared_layout st)) in
    let~ table := grow_buckets header bucketLayout capacity in
    let~ _ := if bool_decide (fst table = hbuckets header) then st_return tt
              else in_tx (rehash (Z.to_nat (hcreated header)) st header (fst table) (snd table) 1) in
    let~ _ := in_tx (link_slabs directory oldSlabs newSlabs) in
    let header := mkHeader directory (fst table) (hcount header) (hcreated header) capacity (hfree header) in
    let~ _ := in_tx (writeHeader st header) in
    st_return header.

Definition ensureCapacity (st : managedMapStorage) (header : managedMapHeader) (index : Z) : mapM managedMapHeader :=
  if index <=? hcapacity header then st_return header
  else
    let~ entryLayout := lift (registerLayout (entry_layout (prepared_layout st))) in
    deferred (releaseLayout entryLayout)
      (let~ directoryLayout := lift (registerLayout directory_layout) in
       deferred (releaseLayout directoryLayout)
         (let~ bucketLayout := lift (registerLayout bucket_layout) in
          deferred (releaseLayout bucketLayout) (run_tx (grow st header index entryLayout directoryLayout bucketLayout)))).

(** ** Operations *)

(** The scratch buffer of an entry, with the value and then the key written into it. *)
Definition entry_buffer (l : preparedMapLayout) : gostring := replicate (Z.to_nat (entryStride l)) 0.

Definition store_new (st : managedMapStorage) (header : managedMapHeader) (hash : Z) (encoded : gostring) : mapM unit :=
  if (hfree header =? 0) && (hcreated header =? 2 ^ 32 - 1) then st_throw (AllocError errManagedLimit)
  else
    let index := if hfree header =? 0 then hcreated header + 1 else hfree header in
    let~ header := ensureCapacity st header index in
    let~ at_ := location st header index in
    let~ gen := word (fst at_) (u32 (snd at_ + 4)) in
    if gen =? 2 ^ 32 - 1 then st_throw RetiredEntry
    else
      let~ nextFree := word (fst at_) (u32 (snd at_ + 12)) in
      let~ buckets := reading (fun h => resolveObject h (hbuckets header)) in
      if obj_size buckets / 4 =? 0 then st_throw MapPanic
      else
        let bucket := u32 (hash mod (obj_size buckets / 4) * 4) in
        let~ head := word (hbuckets header) bucket in
        let encoded := list_inserts 0 (le_bytes 4 1 ++ le_bytes 4 (gen + 1) ++ le_bytes 4 hash ++ le_bytes 4 head) encoded in
        let~ _ := writing (fun h => write h (fst at_) (snd at_) encoded) in
        let~ _ := writeWord (hbuckets header) bucket index in
        writeHeader st (mkHeader (hdirectory header) (hbuckets header) (u32 (hcount header + 1))
          (if hfree header =? 0 then index else hcreated header) (hcapacity header) (if hfree header =? 0 then hfree header else nextFree)).

Definition storeEntry (st : managedMapStorage) (key : vmMapKey) (k : K) (v : V) : mapM unit :=
  let l := prepared_layout st in
  let~ header := readHeader st in
  let hash := managedMapKeyHash key in
  let~ found := find st header key hash in
  let~ value := of_result (encodeValue v) in
  let encoded := list_inserts (Z.to_nat (valueOffset l)) value (entry_buffer l) in
  match found with
  | Some (index, _, _) =>
      let~ at_ := location st header index in
      writing (fun h => write h (fst at_) (u32 (snd at_ + valueOffset l)) (window encoded (valueOffset l) (Stride (valueLayout l))))
  | None =>
      let~ key := of_result (encodeKey k) in
      store_new st header hash (list_inserts (Z.to_nat managedMapMetadata) key encoded)
  end.

Definition deleteEntry (st : managedMapStorage) (key : vmMapKey) : mapM unit :=
  let~ header := readHeader st in
  let hash := managedMapKeyHash key in
  let~ found := find st header key hash in
  match found with
  | None => st_return tt
  | Some (index, previous, entry) =>
      let~ at_ := location st header index in
      let~ next := word (fst at_) (u32 (snd at_ + 12)) in
      let~ _ :=
        if previous =? 0 then let~ count := bucket_count header in writeWord (hbuckets header) (u32 (hash mod count * 4)) next
        else let~ before := location st header previous in writeWord (fst before) (u32 (snd before + 12)) next in
      let~ _ := writing (fun h => clear h (fst at_) (snd at_) (entryStride (prepared_layout st))) in
      let gen := u32 (Z.shiftr (entry_identity entry) 32) in
      let~ _ := writeWord (fst at_) (u32 (snd at_ + 4)) gen in
      let~ free := if gen =? 2 ^ 32 - 1 then st_return (hfree header)
                   else let~ _ := writeWord (fst at_) (u32 (snd at_ + 12)) (hfree header) in st_return index in
      writeHeader st (mkHeader (hdirectory header) (hbuckets header) (u32 (hcount header - 1)) (hcreated header) (hcapacity header) free)
  end.

(** The loop of [clear], from [index] down to 1: the list of free entries it leaves. *)
Fixpoint clear_loop (index : nat) (st : managedMapStorage) (header : managedMapHeader) (free : Z) : mapM Z :=
  match index with
  | O => st_return free
  | S rest =>
      let~ at_ := location st header (Z.of_nat index) in
      let~ gen := word (fst at_) (u32 (snd at_ + 4)) in
      let~ _ := writing (fun h => clear h (fst at_) (snd at_) (entryStride (prepared_layout st))) in
      let~ _ := writeWord (fst at_) (u32 (snd at_ + 4)) gen in
      let~ free := if gen =? 2 ^ 32 - 1 then st_return free
                   else let~ _ := writeWord (fst at_) (u32 (snd at_ + 12)) free in st_return (Z.of_nat index) in
      clear_loop rest st header free
  end.

Definition clear_map (st : managedMapStorage) : mapM unit :=
  let~ header := readHeader st in
  if negb (valid (hbuckets header)) then st_return tt
  else
    let~ buckets := reading (fun h => resolveObject h (hbuckets header)) in
    let~ _ := writing (fun h => clear h (hbuckets header) 0 (obj_size buckets)) in
    let~ free := clear_loop (Z.to_nat (hcreated header)) st header 0 in
    writeHeader st (mkHeader (hdirectory header) (hbuckets header) 0 (hcreated header) (hcapacity header) free).

Definition map_length (st : managedMapStorage) (a : allocator) : Z :=
  match fst (readHeader st a) with Ok header => hcount header | Err _ => 0 end.

Definition loadEntry (st : managedMapStorage) (key : vmMapKey) (a : allocator) : option vmMapEntry :=
  match fst ((let~ header := readHeader st in find st header key (managedMapKeyHash key)) a) with
  | Ok (Some (_, _, entry)) => Some entry
  | _ => None
  end.

Definition loadIdentity (st : managedMapStorage) (ident : Z) (a : allocator) : option vmMapEntry :=
  if ident =? 0 then None
  else match fst ((let~ header := readHeader st in readEntry st header (u32 ident) (u32 (Z.shiftr ident 32))) a) with
       | Ok (Some entry) => Some entry
       | _ => None
       end.

Fixpoint identities_loop (count : nat) (st : managedMapStorage) (header : managedMapHeader) (index : Z) : mapM (list Z) :=
  match count with
  | O => st_return []
  | S count =>
      let~ at_ := location st header index in
      let~ raw := reading (fun h => read h (fst at_) (snd at_) 8) in
      let~ rest := identities_loop count st header (index + 1) in
      st_return (if field raw 0 =? 0 then rest else Z.lor (u64 (Z.shiftl (field raw 4) 32)) index :: rest)
  end.

Definition entryIdentities (st : managedMapStorage) (a : allocator) : list Z :=
  match fst ((let~ header := readHeader st in identities_loop (Z.to_nat (hcreated header)) st header 1) a) with
  | Ok l => l
  | Err _ => []
  end.

(** The map that [snapshot] builds, as the list of its insertions. *)
Fixpoint snapshot_loop (count : nat) (st : managedMapStorage) (header : managedMapHeader) (index : Z) : mapM (list (vmMapKey * vmMapEntry)) :=
  match count with
  | O => st_return []
  | S count =>
      let~ entry := readEntry st header index 0 in
      match entry with
      | None => snapshot_loop count st header (index + 1)
      | Some entry =>
          let~ key := of_result (mapKey (Key entry)) in
          let key := if NonReflexive key then mkMapKey (KKind key) (TypeIdentity key) (KBool key) (KInt64 key) (KUint64 key) (KText key) true (entry_identity entry) else key in
          let~ rest := snapshot_loop count st header (index + 1) in
          st_return ((key, entry) :: rest)
      end
  end.

Definition snapshot (st : managedMapStorage) : mapM (list (vmMapKey * vmMapEntry)) :=
  let~ header := readHeader st in snapshot_loop (Z.to_nat (hcreated header)) st header 1.

(** ** Construction *)

Fixpoint slab_refs (count : nat) (directory : guestRef) (index : Z) (a : allocator) : list guestRef :=
  match count with
  | O => []
  | S count =>
      match readReference (mem a) directory (u32 (index * 8)) with
      | Ok slab => slab :: slab_refs count directory (index + 1) a
      | Err _ => slab_refs count directory (index + 1) a
      end
  end.

Definition rollback (st : managedMapStorage) (a : allocator) : allocator :=
  rollbackManagedPublications
    (identity st :: match fst (readHeader st a) with
                    | Ok header => slab_refs (Z.to_nat (hcapacity header / managedMapSlabEntries)) (hdirectory header) 0 a ++ [hdirectory header; hbuckets header]
                    | Err _ => []
                    end) a.

Fixpoint store_all (st : managedMapStorage) (entries : list (vmMapKey * K * V)) : mapM unit :=
  match entries with
  | [] => st_return tt
  | (key, k, v) :: rest => let~ _ := storeEntry st key k v in store_all st rest
  end.

(** The map is filled once its identity object is published; a failure withdraws everything. *)
Definition fill_map (st : managedMapStorage) (entries : list (vmMapKey * K * V)) (capacity : Z) : mapM unit := fun a =>
  match (let capacity := Z.max capacity (Z.of_nat (length entries)) in
         if (capacity <? 0) || (2 ^ 32 - 1 - managedMapSlabEntries <? capacity) then st_throw (AllocError errManagedLimit)
         else
           let~ _ := if 0 <? capacity then let~ _ := ensureCapacity st empty_header capacity in st_return tt else st_return tt in
           store_all st entries) a with
  | (Ok x, a1) => (Ok x, a1)
  | (Err e, a1) => (Err e, rollback st a1)
  end.

Definition newManagedMap (l : preparedMapLayout) (typ : Z) (entries : list (vmMapKey * K * V)) (capacity : Z) : mapM managedMapStorage :=
  let~ identityLayout := lift (registerLayout (mkLayout managedMapIdentityBytes typ [0; 8] [] [])) in
  deferred (releaseLayout identityLayout)
    (let~ r := lift (reserve identityLayout 1 (StorageRecordHeaderBytes + StorageMapHeaderBytes)) in
     let~ ref := lift (commit r) in
     let st := mkStorage ref l in
     let~ _ := fill_map st entries capacity in
     st_return st).
End storage.
