(* ===== verification/MapMemory.v ===== *)
(** * The memory of a managed map (src/runtime/managed_map.go)

    Accesses and allocations of [MapStorage] on a heap whose invariant holds, and the representation of a
    map's directory, slabs and bucket table in that heap. *)

From S2P Require Import Prelude GoStd GoBytes Heap Allocator AllocatorSafe AllocatorRun MapStorage.

#[local] Open Scope Z_scope.
#[local] Arguments Z.to_nat : simpl never.

(** ** The owner's state *)

Record owner_ok (n : Z) (a : allocator) : Prop := {
  ow_alloc : alloc_ok n a;
  ow_issued : issued_ok a
}.

Lemma owner_heap n a : owner_ok n a -> heap_ok (mem a).
Proof. intros [A _]. eapply pages_ok_heap, A. Qed.

Lemma owner_le n m a : owner_ok n a -> n <= m -> owner_ok m a.
Proof. intros [A I] Hle. split; [by eapply alloc_ok_le|done]. Qed.

(** The state after the payload of [ref] became [b]. *)
Record wrote (n : Z) (a : allocator) (ref : guestRef) (b : gostring) (a' : allocator) : Prop := {
  wr_ok : owner_ok n a';
  wr_at : payload (mem a') ref = Some b;
  wr_others : forall q, q <> ref -> payload (mem a') q = payload (mem a) q;
  wr_strides : forall id, stride_of a' id = stride_of a id
}.

Lemma store_owner n a ref bytes offset src :
  owner_ok n a -> payload (mem a) ref = Some bytes -> 0 <= offset -> offset + Z.of_nat (length src) <= Z.of_nat (length bytes) ->
  exists e h', resolveObject (mem a) ref = Ok e /\ Z.of_nat (length bytes) = obj_size e /\ store (mem a) e offset src = Ok h' /\
    wrote n a ref (list_inserts (Z.to_nat offset) src bytes) (set_mem h' a).
Proof.
  intros O Hp Ho Hl. pose proof (owner_heap _ _ O) as Hok. destruct O as [A I].
  destruct (write_ok (mem a) ref bytes offset src Hok Hp Ho Hl) as (e & h' & He & Hw & U & _). exists e, h'. split; [done|].
  pose proof (payload_length _ _ _ _ Hok He Hp) as Hlen. split; [done|]. pose proof (Store_spec n ref offset src a A Ho) as Hs. cbn [exec] in Hs. unfold access in Hs. rewrite Hw in Hs.
  split.
  - unfold write in Hw. rewrite He in Hw. cbn [result_bind] in Hw. by rewrite (proj2 (Z.ltb_ge _ _)) in Hw by lia.
  - split; [split; [apply Hs|]|apply U|apply U|done]. eapply issued_evolves; [done| |done]. apply evolves_same. intros i. apply object_segments, U.
Qed.

Lemma resolve_size n a ref bytes : owner_ok n a -> payload (mem a) ref = Some bytes -> exists e, resolveObject (mem a) ref = Ok e /\ obj_size e = Z.of_nat (length bytes).
Proof.
  intros O Hp. pose proof (owner_heap _ _ O) as Hok. destruct (payload_resolve _ _ _ Hp) as [e He]. exists e. split; [done|]. symmetry. by eapply payload_length.
Qed.

Lemma st_bind_ok {S A B} (m : stM S A) (k : A -> stM S B) s x s1 : m s = (Ok x, s1) -> st_bind m k s = k x s1.
Proof. intros E. unfold st_bind. by rewrite E. Qed.

Lemma st_bind_err {S A B} (m : stM S A) (k : A -> stM S B) s e s1 : m s = (Err e, s1) -> st_bind m k s = (Err e, s1).
Proof. intros E. unfold st_bind. by rewrite E. Qed.

Lemma reading_read n a ref bytes offset size :
  owner_ok n a -> payload (mem a) ref = Some bytes -> 0 <= offset -> 0 <= size -> offset + size <= Z.of_nat (length bytes) ->
  reading (fun h => read h ref offset size) a = (Ok (window bytes offset size), a).
Proof. intros O Hp Ho Hs Hl. unfold reading. rewrite (read_ok _ _ bytes) by (done || by eapply owner_heap). done. Qed.

Lemma reading_resolve n a ref bytes : owner_ok n a -> payload (mem a) ref = Some bytes ->
  exists e, reading (fun h => resolveObject h ref) a = (Ok e, a) /\ obj_size e = Z.of_nat (length bytes).
Proof. intros O Hp. destruct (resolve_size _ _ _ _ O Hp) as (e & He & Hs). exists e. unfold reading. by rewrite He. Qed.

Lemma writing_write n a ref bytes offset src :
  owner_ok n a -> payload (mem a) ref = Some bytes -> 0 <= offset -> offset + Z.of_nat (length src) <= Z.of_nat (length bytes) ->
  exists a', writing (fun h => write h ref offset src) a = (Ok tt, a') /\ wrote n a ref (list_inserts (Z.to_nat offset) src bytes) a'.
Proof.
  intros O Hp Ho Hl. destruct (store_owner n a ref bytes offset src O Hp Ho Hl) as (e & h' & He & Hlen & Hs & W). exists (set_mem h' a). split; [|done].
  unfold writing, write. rewrite He. cbn [result_bind]. rewrite (proj2 (Z.ltb_ge _ _)) by lia. cbn [guard_err result_bind]. by rewrite Hs.
Qed.

Lemma writing_clear n a ref bytes offset size :
  owner_ok n a -> payload (mem a) ref = Some bytes -> 0 <= offset -> 0 <= size -> offset + size <= Z.of_nat (length bytes) ->
  exists a', writing (fun h => clear h ref offset size) a = (Ok tt, a') /\ wrote n a ref (list_inserts (Z.to_nat offset) (replicate (Z.to_nat size) 0) bytes) a'.
Proof.
  intros O Hp Ho Hz Hl. destruct (store_owner n a ref bytes offset (replicate (Z.to_nat size) 0) O Hp Ho) as (e & h' & He & Hlen & Hs & W); [rewrite length_replicate; lia|].
  exists (set_mem h' a). split; [|done]. unfold writing, clear. rewrite He. cbn [result_bind]. rewrite (proj2 (Z.ltb_ge _ _)) by lia. cbn [guard_err result_bind]. by rewrite Hs.
Qed.

Lemma writing_copy n a dst dst_bytes src src_bytes size :
  owner_ok n a -> payload (mem a) dst = Some dst_bytes -> payload (mem a) src = Some src_bytes -> 0 <= size ->
  size <= Z.of_nat (length dst_bytes) -> size <= Z.of_nat (length src_bytes) ->
  exists a', writing (fun h => copy h dst 0 src 0 size) a = (Ok tt, a') /\ wrote n a dst (list_inserts 0 (window src_bytes 0 size) dst_bytes) a'.
Proof.
  intros O Hd Hs Hz Hld Hls. pose proof (owner_heap _ _ O) as Hok.
  destruct (store_owner n a dst dst_bytes 0 (window src_bytes 0 size) O Hd) as (e & h' & He & Hlen & Hst & W); [lia|rewrite window_length; lia|].
  exists (set_mem h' a). split; [|done]. destruct (payload_resolve _ _ _ Hs) as [f Hf]. pose proof (payload_length _ _ _ _ Hok Hf Hs) as Hlf.
  unfold writing, copy. rewrite He, Hf. cbn [result_bind]. rewrite !(proj2 (Z.ltb_ge _ _)) by lia. cbn [orb guard_err result_bind].
  rewrite (load_spec _ _ _ _ _ _ Hok Hf Hs) by lia. cbn [result_bind]. by rewrite Hst.
Qed.

(** ** Allocation *)

(** A new object of [size] zero bytes, nothing else changed. *)
Record fresh (n : Z) (a : allocator) (ref : guestRef) (size : Z) (a' : allocator) : Prop := {
  fr_ok : owner_ok (n + 2) a';
  fr_before : payload (mem a) ref = None;
  fr_at : payload (mem a') ref = Some (replicate (Z.to_nat size) 0);
  fr_others : forall q, q <> ref -> payload (mem a') q = payload (mem a) q;
  fr_strides : forall id, stride_of a' id = stride_of a id;
  fr_slot : 0 < slot ref < 2 ^ 32;
  fr_generation : 0 < generation ref < 2 ^ 32;
  fr_size : size < 2 ^ 32
}.

(** The same objects and layouts as before. *)
Record quiet (n : Z) (a a' : allocator) : Prop := {
  qu_ok : owner_ok n a';
  qu_payload : forall q, payload (mem a') q = payload (mem a) q;
  qu_strides : forall id, stride_of a' id = stride_of a id
}.

Lemma object_positive h s e : object h s = Some e -> 0 < s.
Proof.
  unfold object, nth_of. destruct (Z.eqb_spec s 0); cbn [orb]; [done|]. case_if; [done|]. destruct (s / managedSegmentSize <? 0) eqn:E; [done|]. breflect.
  intros _. unfold managedSegmentSize in *. assert (0 <= s); [|lia]. pose proof (Z.mod_pos_bound s 256 ltac:(lia)). pose proof (Z.div_mod s 256 ltac:(lia)). lia.
Qed.

Lemma object_bytes_multiple p : 8 <= p <= MaxUint32 - 7 -> p mod 8 = 0 -> object_bytes p = p.
Proof.
  intros Hp Hm. unfold object_bytes, MaxUint32 in *. rewrite (u64_id (p + 7)) by lia.
  assert (Z.ldiff (p + 7) 7 = p) as ->.
  { change 7 with (Z.ones 3) at 2. rewrite Z.ldiff_ones_r, Z.shiftr_div_pow2, Z.shiftl_mul_pow2 by lia. change (2 ^ 3) with 8. 
    pose proof (Z.div_mod p 8 ltac:(lia)). replace (p + 7) with (7 + (p / 8) * 8) by lia. rewrite Z.div_add by lia. change (7 / 8) with 0. lia. }
  rewrite Z.max_r by lia. apply u32_id. lia.
Qed.

Lemma reserve_commit n a layout stride count cost :
  owner_ok n a -> 0 <= n -> n + 2 <= 2 ^ 30 -> stride_of a layout = Some stride -> 0 <= count < 2 ^ 32 -> 0 <= cost < 2 ^ 64 -> 8 <= stride * count -> (stride * count) mod 8 = 0 ->
  match (let@ r := reserve layout count cost in commit r) a with
  | (Ok ref, a') => fresh n a ref (stride * count) a'
  | (Err e, a') => e <> AllocPanic /\ quiet (n + 2) a a'
  end.
Proof.
  intros [A I] Hn0 Hn Hst Hc Hcost Hsz Hm. unfold alloc_bind at 1. pose proof (reserve_spec n layout count cost a A ltac:(lia) ltac:(lia) ltac:(lia)) as Hr.
  destruct (reserve layout count cost a) as [[r|e] a1] eqn:Er.
  - destruct Hr as (A1 & Hrv). pose proof (reserve_post n layout count cost a (Ok tt) a1 A I ltac:(lia) ltac:(lia) ltac:(lia)) as P1.
    destruct P1 as (_ & I1 & _ & _ & _ & (ref & stride' & size & Hnew & Eis & Est & [Hge Esz] & Hlive & Hpend & Hstr)); [cbn [exec]; unfold void, alloc_bind; by rewrite Er|].
    cbn [view gm_stride gm_issued gm_live gm_pending] in *. assert (stride' = stride) as -> by congruence.
    destruct Hrv as (-> & a0 & s & e & l & P & Ra & _ & _ & _ & _). pose proof (ra_reservations _ _ _ _ Ra) as Err. destruct (pr_static _ _ _ P) as (_ & _ & Er0 & _). rewrite Er0 in Err.
    set (x := mkReservation (mkRef s (obj_generation e)) false) in *.
    assert (reservations a1 !! length (reservations a) = Some x) as Hx by (by rewrite Err, lookup_app_r, Nat.sub_diag by lia).
    destruct (commit_spec (n + 1) _ x a1 A1 ltac:(lia) Hx eq_refl) as (e' & a2 & Ec & A2 & C). rewrite Ec.
    pose proof (commit_post (n + 1) (length (reservations a)) a1 (Ok tt) a2 A1 I1 ltac:(lia)) as P2. cbn [legal exec] in P2.
    destruct P2 as (_ & I2 & _ & _ & _ & (ref2 & bytes & Eref & Epend & Hbefore & Hlive2 & _ & _ & Hstr2)).
    { rewrite Hpend, length_map, decide_True by done. done. }
    { unfold void, alloc_bind. by rewrite Ec. }
    cbn [view gm_stride gm_issued gm_live gm_pending] in *.
    assert (ref2 = res_ref x) as -> by (rewrite list_lookup_fmap, Hx in Eref; by injection Eref).
    assert (stride * count <= MaxUint32 - 7) as Hmax.
    { unfold reserve in Er. unfold stride_of in Hst. destruct (nth_of (layouts a) layout) as [y|]; [|done]. cbn in Hst. injection Hst as Ey.
      destruct (closed _ || _ || _); [done|]. rewrite Ey in Er. destruct ((MaxInt64 <? cost) || (MaxUint32 - 7 <? stride * count)) eqn:Eb; [done|]. breflect. lia. }
    assert (bytes = replicate (Z.to_nat (stride * count)) 0) as ->.
    { rewrite Hpend, length_map, decide_True in Epend by done. injection Epend as <-. f_equal. f_equal. rewrite Esz. by apply object_bytes_multiple. }
    assert (object (mem a2) s = Some (with_obj_state managedPublished e')) as Hobj by (by rewrite (cm_objects _ _ _ _ _ C), decide_True).
    destruct (cm_object _ _ _ _ _ C) as (_ & _ & Hge').
    split.
    + replace (n + 2) with (n + 1 + 1) by lia. by split.
    + by rewrite <- Hlive.
    + by rewrite Hlive2, decide_True.
    + intros q Hq. by rewrite Hlive2, decide_False, Hlive.
    + intros id. by rewrite Hstr2, Hstr.
    + cbn [res_ref x slot]. split; [by eapply object_positive|]. pose proof (ok_bounded _ _ A2) as [B1 _ _ _]. destruct (Z.lt_ge_cases s (nextSlot (dir a2))) as [|Hge2]; [lia|].
      pose proof (dir_unused _ _ (ok_dir _ _ A2) s _ Hge2 Hobj) as E0. discriminate (f_equal obj_state E0).
    + cbn [res_ref x generation]. destruct (ra_before _ _ _ _ Ra) as (e0 & He0 & _ & Hg). pose proof (dir_generation _ _ (ok_dir _ _ A2) s _ Hobj) as Hr2. cbn in Hr2, Hge'.
      pose proof (dir_generation _ _ (pr_dir_ok _ _ _ P) s _ He0) as Hr0. unfold MaxUint32 in *. lia.
    + unfold MaxUint32 in *. lia.
  - destruct Hr as (He & A1 & P). split; [done|]. destruct (prepared_view _ _ _ _ A P) as ((U1 & U2 & U3 & U4) & Ev & _).
    split; [split; [by eapply alloc_ok_le; [done|lia]|by eapply issued_evolves]|exact U1|exact U4].
Qed.

Lemma register_layout_quiet n a l : owner_ok n a -> 0 <= lstride l < 2 ^ 32 ->
  match registerLayout l a with
  | (Ok id, a') => owner_ok n a' /\ (forall q, payload (mem a') q = payload (mem a) q) /\ stride_of a' id = Some (lstride l) /\
      (forall i k, stride_of a i = Some k -> k <> 0 -> stride_of a' i = Some k)
  | (Err e, a') => e <> AllocPanic /\ a' = a
  end.
Proof.
  intros [A I] Hl. pose proof (registerLayout_spec n l a A Hl) as H. destruct (registerLayout l a) as [[id|e] a']; [|done]. destruct H as (S & A' & Hs & Hk).
  destruct (same_view _ _ S) as (V1 & _ & V3 & Ev). split; [split; [done|by eapply issued_evolves]|]. done.
Qed.

Lemma release_layout_quiet n a id : owner_ok n a -> quiet n a (releaseLayout id a).
Proof.
  intros [A I]. destruct (releaseLayout_spec n id a A) as [S A']. destruct (same_view _ _ S) as (V1 & _ & V3 & Ev).
  split; [split; [done|by eapply issued_evolves]|done|]. intros i. unfold releaseLayout, stride_of. by case_if.
Qed.

(** A rollback withdraws what it is given and nothing else. *)
Lemma rollback_quiet n refs : forall a, owner_ok n a ->
  owner_ok n (rollbackManagedPublications refs a) /\ (forall q, q ∉ refs -> payload (mem (rollbackManagedPublications refs a)) q = payload (mem a) q) /\
  (forall id, stride_of (rollbackManagedPublications refs a) id = stride_of a id).
Proof.
  induction refs as [|ref refs IH]; intros a O; [done|]. cbn [rollbackManagedPublications foldl]. fold (rollbackManagedPublications refs).
  assert (owner_ok n (if valid ref then snd (release ref a) else a) /\ (forall q, q <> ref -> payload (mem (if valid ref then snd (release ref a) else a)) q = payload (mem a) q) /\
    forall id, stride_of (if valid ref then snd (release ref a) else a) id = stride_of a id) as (O1 & Hp & Hs).
  { destruct (valid ref); [|done]. destruct O as [A I]. pose proof (release_object_spec n ref a A) as Hr. destruct (release ref a) as [res a1] eqn:E.
    destruct (release_post n ref a res a1 A I E) as (_ & I1 & _ & _ & _ & M). cbn [snd]. destruct res as [[]|x].
    - destruct M as (_ & Hl & _ & _ & Hst). cbn [view gm_live gm_stride] in *. split; [split; [apply Hr|done]|]. split; [|done]. intros q Hq. by rewrite Hl, decide_False.
    - destruct Hr as (_ & -> & _). done. }
  destruct (IH _ O1) as (O2 & Hp2 & Hs2). split; [done|]. split.
  - intros q Hq. apply not_elem_of_cons in Hq as [Hne Hni]. by rewrite Hp2, Hp.
  - intros id. by rewrite Hs2, Hs.
Qed.
