(* ===== verification/MapRep.v ===== *)
(** * The representation of a managed map (src/runtime/managed_map.go)

    The identity object, the slab directory, the slabs and the bucket table of a map as a header, a list of
    entries and a list of chain heads, and the accesses of [MapStorage] as operations on these lists. *)

From S2P Require Import Prelude GoStd GoBytes Heap Allocator AllocatorSafe AllocatorRun MapStorage MapMemory.

#[local] Open Scope Z_scope.
#[local] Arguments Z.to_nat : simpl never.

(** ** Windows and words *)

Lemma window_other (l src : gostring) (a o n : Z) :
  0 <= a -> 0 <= o -> o + n <= a \/ a + Z.of_nat (length src) <= o -> window (list_inserts (Z.to_nat a) src l) o n = window l o n.
Proof. intros Ha Ho Hd. apply window_ext; [apply length_inserts|done|]. intros i Hi. apply inserts_outside. lia. Qed.

Lemma window_same (l src : gostring) (a n : Z) :
  0 <= a -> n = Z.of_nat (length src) -> a + n <= Z.of_nat (length l) -> window (list_inserts (Z.to_nat a) src l) a n = src.
Proof. intros Ha -> Hl. by apply window_inserts_same. Qed.

Lemma window_all (l : gostring) n : n = Z.of_nat (length l) -> window l 0 n = l.
Proof. intros ->. unfold window. change (Z.to_nat 0) with 0%nat. rewrite drop_0, Nat2Z.id. by apply take_ge. Qed.

(** A write inside a window. *)
Lemma window_inside (l src : gostring) (b n o : Z) :
  0 <= b -> 0 <= o -> o + Z.of_nat (length src) <= n -> b + n <= Z.of_nat (length l) ->
  window (list_inserts (Z.to_nat (b + o)) src l) b n = list_inserts (Z.to_nat o) src (window l b n).
Proof. intros Hb Ho Hs Hl. rewrite window_inserts by lia. done. Qed.

Lemma inserts_all (src c : gostring) : length src = length c -> list_inserts 0 src c = src.
Proof. intros Hl. rewrite <- (app_nil_r src) at 1. by apply list_inserts_0_l. Qed.

Lemma le_word4 w : 0 <= w < 2 ^ 32 -> le_word (le_bytes 4 w) = w.
Proof. intros Hw. apply le_word_bytes. change (256 ^ Z.of_nat 4) with (2 ^ 32). lia. Qed.

Definition set_word (o w : Z) (c : gostring) : gostring := list_inserts (Z.to_nat o) (le_bytes 4 w) c.

Lemma set_word_length o w c : length (set_word o w c) = length c.
Proof. apply length_inserts. Qed.

Lemma field_set o w c : 0 <= o -> 0 <= w < 2 ^ 32 -> o + 4 <= Z.of_nat (length c) -> field (set_word o w c) o = w.
Proof. intros Ho Hw Hl. unfold field, set_word. rewrite window_same by (rewrite ?le_bytes_length; done || lia). by apply le_word4. Qed.

Lemma window_set o w c o' n : 0 <= o -> 0 <= o' -> o' + n <= o \/ o + 4 <= o' -> window (set_word o w c) o' n = window c o' n.
Proof. intros Ho Ho' Hd. unfold set_word. apply window_other; [done|done|]. by rewrite le_bytes_length. Qed.

Lemma field_set_other o w c o' : 0 <= o -> 0 <= o' -> o' + 4 <= o \/ o + 4 <= o' -> field (set_word o w c) o' = field c o'.
Proof. intros. unfold field. by rewrite window_set. Qed.

(** ** The header *)

Record header_words (h : managedMapHeader) : Prop := {
  hw_directory : 0 <= slot (hdirectory h) < 2 ^ 32 /\ 0 <= generation (hdirectory h) < 2 ^ 32;
  hw_buckets : 0 <= slot (hbuckets h) < 2 ^ 32 /\ 0 <= generation (hbuckets h) < 2 ^ 32;
  hw_count : 0 <= hcount h < 2 ^ 32;
  hw_created : 0 <= hcreated h < 2 ^ 32;
  hw_capacity : 0 <= hcapacity h < 2 ^ 32;
  hw_free : 0 <= hfree h < 2 ^ 32
}.

Lemma encode_header_length h : length (encode_header h) = 32%nat.
Proof. unfold encode_header. rewrite !length_app, !le_bytes_length. done. Qed.

(** A record of words. *)
Lemma field_words (ws : list Z) i w : ws !! i = Some w -> 0 <= w < 2 ^ 32 -> field (concat (map (le_bytes 4) ws)) (4 * Z.of_nat i) = w.
Proof.
  revert i. induction ws as [|x ws IH]; intros i Hi Hw; [done|]. cbn [map concat]. destruct i as [|i].
  - injection Hi as ->. unfold field, window. rewrite Z.mul_0_r. change (Z.to_nat 0) with 0%nat. rewrite drop_0. change (Z.to_nat 4) with 4%nat.
    rewrite (take_app_length' _ _ 4) by by rewrite le_bytes_length. by apply le_word4.
  - specialize (IH i Hi Hw). revert IH. unfold field, window. replace (Z.to_nat (4 * Z.of_nat (S i))) with (4 + Z.to_nat (4 * Z.of_nat i))%nat by lia.
    rewrite <- drop_drop, (drop_app_length' _ _ 4) by by rewrite le_bytes_length. done.
Qed.

Lemma decode_encode_header h : header_words h -> decode_header (encode_header h) = h.
Proof.
  intros [[D1 D2] [B1 B2] C1 C2 C3 C4]. destruct h as [[ds dg] [bs bg] cnt cre cap fr]. cbn [hdirectory hbuckets hcount hcreated hcapacity hfree slot generation] in *.
  set (ws := [ds; dg; bs; bg; cnt; cre; cap; fr]). assert (encode_header (mkHeader (mkRef ds dg) (mkRef bs bg) cnt cre cap fr) = concat (map (le_bytes 4) ws)) as ->.
  { unfold encode_header, ws. cbn [hdirectory hbuckets hcount hcreated hcapacity hfree slot generation map concat]. by rewrite app_nil_r. }
  assert (forall o i w, o = 4 * Z.of_nat i -> ws !! i = Some w -> 0 <= w < 2 ^ 32 -> field (concat (map (le_bytes 4) ws)) o = w) as Hf by (intros o i w ->; apply field_words).
  unfold decode_header. rewrite (Hf 0 0%nat ds), (Hf 4 1%nat dg), (Hf 8 2%nat bs), (Hf 12 3%nat bg), (Hf 16 4%nat cnt), (Hf 20 5%nat cre), (Hf 24 6%nat cap), (Hf 28 7%nat fr) by done.
  done.
Qed.

(** ** Entries, directory and table *)

(** The layout of an entry: metadata, key and value one after the other, the slab within 32 bits. *)
Record layout_ok (l : preparedMapLayout) : Prop := {
  lo_key : 0 <= Stride (keyLayout l);
  lo_value : 0 <= Stride (valueLayout l);
  lo_offset : managedMapMetadata + Stride (keyLayout l) <= valueOffset l;
  lo_stride : valueOffset l + Stride (valueLayout l) <= entryStride l;
  lo_slab : managedMapSlabEntries * entryStride l <= 2 ^ 32 - 8;
  lo_aligned : entryStride l mod 8 = 0
}.

(** Entry number [i], from 1. *)
Definition cell_at (cells : list gostring) (i : Z) : option gostring := if i <? 1 then None else cells !! Z.to_nat (i - 1).
Definition put_cell (i : Z) (c : gostring) (cells : list gostring) : list gostring := <[Z.to_nat (i - 1) := c]> cells.

Lemma cell_at_Some cells i c : cell_at cells i = Some c -> 1 <= i <= Z.of_nat (length cells) /\ cells !! Z.to_nat (i - 1) = Some c.
Proof. unfold cell_at. destruct (Z.ltb_spec i 1); [done|]. intros E. pose proof (lookup_lt_Some _ _ _ E). split; [lia|done]. Qed.

Lemma cell_at_is cells i : 1 <= i <= Z.of_nat (length cells) -> exists c, cell_at cells i = Some c.
Proof. intros Hi. unfold cell_at. rewrite (proj2 (Z.ltb_ge _ _)) by lia. apply lookup_lt_is_Some. lia. Qed.

Lemma cell_put cells i c j d : cell_at cells i = Some d -> cell_at (put_cell i c cells) j = if decide (j = i) then Some c else cell_at cells j.
Proof.
  intros Hi. apply cell_at_Some in Hi as [Hr Hi]. unfold cell_at, put_cell. case_decide as E.
  - subst j. rewrite (proj2 (Z.ltb_ge _ _)) by lia. apply list_lookup_insert_eq. lia.
  - destruct (Z.ltb_spec j 1); [done|]. apply list_lookup_insert_ne. lia.
Qed.

Lemma put_cell_length i c cells : length (put_cell i c cells) = length cells.
Proof. apply length_insert. Qed.

Section rep.
Context (l : preparedMapLayout) (L : layout_ok l).

Definition dir_rep (a : allocator) (dir : guestRef) (slabs : list guestRef) : Prop :=
  exists bytes, payload (mem a) dir = Some bytes /\ Z.of_nat (length bytes) mod 8 = 0 /\ 8 * Z.of_nat (length slabs) <= Z.of_nat (length bytes) /\
    forall i slab, slabs !! i = Some slab -> window bytes (8 * Z.of_nat i) 8 = le_bytes 8 (slot slab + generation slab * 2 ^ 32) /\
      0 <= slot slab < 2 ^ 32 /\ 0 <= generation slab < 2 ^ 32.

Definition slabs_rep (a : allocator) (slabs : list guestRef) (cells : list gostring) : Prop :=
  length cells = (64 * length slabs)%nat /\
  forall i slab, slabs !! i = Some slab -> exists bytes, payload (mem a) slab = Some bytes /\ Z.of_nat (length bytes) = 64 * entryStride l /\
    forall k, (k < 64)%nat -> cells !! (64 * i + k)%nat = Some (window bytes (Z.of_nat k * entryStride l) (entryStride l)).

Definition table_rep (a : allocator) (buckets : guestRef) (table : list Z) : Prop :=
  exists bytes, payload (mem a) buckets = Some bytes /\ Z.of_nat (length bytes) = 4 * Z.of_nat (length table) /\
    forall b w, table !! b = Some w -> window bytes (4 * Z.of_nat b) 4 = le_bytes 4 w /\ 0 <= w < 2 ^ 32.

Lemma dir_frame a a' dir slabs : payload (mem a') dir = payload (mem a) dir -> dir_rep a dir slabs -> dir_rep a' dir slabs.
Proof. intros E (bytes & Hp & H). exists bytes. by rewrite E. Qed.

Lemma table_frame a a' buckets table : payload (mem a') buckets = payload (mem a) buckets -> table_rep a buckets table -> table_rep a' buckets table.
Proof. intros E (bytes & Hp & H). exists bytes. by rewrite E. Qed.

Lemma slabs_frame a a' slabs cells : (forall q, q ∈ slabs -> payload (mem a') q = payload (mem a) q) -> slabs_rep a slabs cells -> slabs_rep a' slabs cells.
Proof.
  intros E [Hl H]. split; [done|]. intros i slab Hi. destruct (H i slab Hi) as (bytes & Hp & H2). exists bytes. rewrite E by by eapply list_elem_of_lookup_2. done.
Qed.

(** ** Accesses *)

(** The place of entry [i]. *)
Definition place_of (slabs : list guestRef) (i : Z) (at_ : guestRef * Z) : Prop :=
  1 <= i /\ slabs !! Z.to_nat ((i - 1) / 64) = Some (fst at_) /\ snd at_ = (i - 1) mod 64 * entryStride l.

Lemma stride_bounds : 16 <= entryStride l < 2 ^ 26.
Proof. destruct L as [L1 L2 L3 L4 L5 L6]. unfold managedMapMetadata, managedMapSlabEntries in *. lia. Qed.

Lemma base_bounds i : 0 <= (i - 1) mod 64 * entryStride l /\ (i - 1) mod 64 * entryStride l + entryStride l <= 64 * entryStride l.
Proof. pose proof stride_bounds. pose proof (Z.mod_pos_bound (i - 1) 64 ltac:(lia)). nia. Qed.

Lemma location_ok n a st header slabs i :
  owner_ok n a -> prepared_layout st = l -> dir_rep a (hdirectory header) slabs -> hcapacity header = 64 * Z.of_nat (length slabs) -> hcapacity header < 2 ^ 32 -> 1 <= i <= hcapacity header ->
  exists at_, place_of slabs i at_ /\ location st header i a = (Ok at_, a).
Proof.
  intros O El (bytes & Hp & Hm & Hl & Hd) Hc Hc2 Hi. pose proof (base_bounds i) as [Hb1 Hb2]. pose proof stride_bounds as Hsb.
  assert (0 <= (i - 1) / 64 < Z.of_nat (length slabs)) as Hq by (split; [apply Z.div_pos; lia|apply Z.div_lt_upper_bound; lia]).
  destruct (lookup_lt_is_Some_2 slabs (Z.to_nat ((i - 1) / 64))) as [slab Hs]; [lia|]. destruct (Hd _ _ Hs) as (Hw & Hr1 & Hr2).
  exists (slab, (i - 1) mod 64 * entryStride l). split; [by split; [lia|]|]. unfold location. rewrite El. rewrite (proj2 (Z.eqb_neq _ _)), (proj2 (Z.ltb_ge _ _)) by lia. cbn [orb].
  unfold managedMapSlabEntries. rewrite (u32_id ((i - 1) / 64 * 8)), (u32_id ((i - 1) mod 64 * entryStride l)) by lia.
  rewrite (st_bind_ok _ _ a slab a); [done|]. unfold reading, readReference, Heap.readWord. rewrite (read_ok _ _ bytes) by (done || (by eapply owner_heap) || lia). cbn [result_bind result_map_err].
  replace ((i - 1) / 64 * 8) with (8 * Z.of_nat (Z.to_nat ((i - 1) / 64))) by lia. rewrite Hw. rewrite le_word_bytes by (change (256 ^ Z.of_nat 8) with (2 ^ 32 * 2 ^ 32); nia).
  unfold u32. rewrite Z.shiftr_div_pow2 by lia. rewrite Z_mod_plus_full, Z.div_add, Z.div_small, Z.mod_small by lia. rewrite Z.add_0_l, Z.mod_small by lia. by destruct slab.
Qed.

Lemma place_bytes a slabs cells i at_ c : slabs_rep a slabs cells -> place_of slabs i at_ -> cell_at cells i = Some c ->
  exists bytes, payload (mem a) (fst at_) = Some bytes /\ Z.of_nat (length bytes) = 64 * entryStride l /\ window bytes (snd at_) (entryStride l) = c /\ 0 <= snd at_ /\ snd at_ + entryStride l <= 64 * entryStride l /\
  Z.of_nat (length c) = entryStride l.
Proof.
  intros [Hl H] (Hi & Hs & Hb) Hc. destruct (H _ _ Hs) as (bytes & Hp & Hlen & Hk). exists bytes. split; [done|]. split; [done|]. pose proof (base_bounds i) as [Hb1 Hb2]. pose proof stride_bounds as Hsb.
  apply cell_at_Some in Hc as [Hr Hc]. pose proof (Z.mod_pos_bound (i - 1) 64 ltac:(lia)) as Hm. pose proof (Z.div_mod (i - 1) 64 ltac:(lia)) as Hdm.
  assert (0 <= (i - 1) / 64) as Hdp by (apply Z.div_pos; lia). specialize (Hk (Z.to_nat ((i - 1) mod 64)) ltac:(lia)).
  replace (64 * Z.to_nat ((i - 1) / 64) + Z.to_nat ((i - 1) mod 64))%nat with (Z.to_nat (i - 1)) in Hk by lia. rewrite Hc in Hk. injection Hk as ->. rewrite Hb. rewrite Z2Nat.id by lia. split; [done|]. split; [lia|]. split; [lia|].
  rewrite window_length; lia.
Qed.

Lemma cell_read n a slabs cells i at_ c o m :
  owner_ok n a -> slabs_rep a slabs cells -> place_of slabs i at_ -> cell_at cells i = Some c -> 0 <= o -> 0 <= m -> o + m <= entryStride l ->
  reading (fun h => read h (fst at_) (u32 (snd at_ + o)) m) a = (Ok (window c o m), a).
Proof.
  intros O S P Hc Ho Hm Hl. destruct (place_bytes _ _ _ _ _ _ S P Hc) as (bytes & Hp & Hlen & <- & Hb1 & Hb2 & _). pose proof (lo_slab l L). unfold managedMapSlabEntries in *.
  rewrite u32_id by lia. rewrite (reading_read n a (fst at_) bytes) by (done || lia). rewrite window_window by lia. done.
Qed.

Lemma cell_word n a slabs cells i at_ c o :
  owner_ok n a -> slabs_rep a slabs cells -> place_of slabs i at_ -> cell_at cells i = Some c -> 0 <= o -> o + 4 <= entryStride l ->
  word (fst at_) (u32 (snd at_ + o)) a = (Ok (field c o), a).
Proof. intros O S P Hc Ho Hl. unfold word. rewrite (st_bind_ok _ _ a _ a (cell_read n a slabs cells i at_ c o 4 O S P Hc Ho ltac:(lia) Hl)). done. Qed.

(** The slabs after entry [i] became [c']. *)
Lemma slabs_put a a' slabs cells i at_ c c' bytes' :
  slabs_rep a slabs cells -> NoDup slabs -> place_of slabs i at_ -> cell_at cells i = Some c ->
  payload (mem a') (fst at_) = Some bytes' -> (forall q, q ∈ slabs -> q <> fst at_ -> payload (mem a') q = payload (mem a) q) ->
  (forall bytes, payload (mem a) (fst at_) = Some bytes -> length bytes' = length bytes /\ window bytes' (snd at_) (entryStride l) = c' /\
    forall k, (k < 64)%nat -> Z.of_nat k * entryStride l <> snd at_ -> window bytes' (Z.of_nat k * entryStride l) (entryStride l) = window bytes (Z.of_nat k * entryStride l) (entryStride l)) ->
  slabs_rep a' slabs (put_cell i c' cells).
Proof.
  intros [Hl H] Hnd (Hi & Hs & Hb) Hc Hp' Ho Hw. split; [by rewrite put_cell_length|]. intros j slab Hj. pose proof stride_bounds as Hsb.
  pose proof (Z.mod_pos_bound (i - 1) 64 ltac:(lia)) as Hm. pose proof (Z.div_mod (i - 1) 64 ltac:(lia)) as Hdm. assert (0 <= (i - 1) / 64) as Hdp by (apply Z.div_pos; lia).
  apply cell_at_Some in Hc as [Hr Hc].
  destruct (H j slab Hj) as (bytes & Hp & Hlen & Hk). destruct (decide (j = Z.to_nat ((i - 1) / 64))) as [->|Hne].
  - assert (slab = fst at_) as -> by congruence. destruct (Hw bytes Hp) as (Hlen' & Hsame & Hother). exists bytes'. split; [done|]. split; [lia|]. intros k Hk'. unfold put_cell.
    destruct (decide (Z.of_nat k = (i - 1) mod 64)) as [Ek|Nk].
    + replace (64 * Z.to_nat ((i - 1) / 64) + k)%nat with (Z.to_nat (i - 1)) by lia. rewrite list_lookup_insert_eq by lia. f_equal. rewrite Ek, <- Hb. done.
    + rewrite list_lookup_insert_ne by lia. rewrite Hother by nia. by apply Hk.
  - assert (slab <> fst at_) as Hns by (intros ->; apply Hne; by eapply NoDup_lookup). exists bytes. rewrite Ho by (done || by eapply list_elem_of_lookup_2). split; [done|]. split; [done|].
    intros k Hk'. unfold put_cell. rewrite list_lookup_insert_ne; [by apply Hk|]. intros E. apply Hne. lia.
Qed.

(** A window that starts at another multiple of the stride is disjoint. *)
Lemma other_window (bytes src : gostring) o i k :
  0 <= o -> o + Z.of_nat (length src) <= entryStride l -> (k < 64)%nat -> Z.of_nat k * entryStride l <> (i - 1) mod 64 * entryStride l ->
  window (list_inserts (Z.to_nat ((i - 1) mod 64 * entryStride l + o)) src bytes) (Z.of_nat k * entryStride l) (entryStride l) = window bytes (Z.of_nat k * entryStride l) (entryStride l).
Proof.
  intros Ho Hs Hk Hne. pose proof stride_bounds as Hsb. pose proof (Z.mod_pos_bound (i - 1) 64 ltac:(lia)) as Hm. apply window_other; [nia|nia|].
  destruct (Z.lt_total (Z.of_nat k) ((i - 1) mod 64)) as [Hlt|[He|Hlt]]; [left; nia|congruence|right; nia].
Qed.

Lemma cell_write n a slabs cells i at_ c o src :
  owner_ok n a -> slabs_rep a slabs cells -> NoDup slabs -> place_of slabs i at_ -> cell_at cells i = Some c -> 0 <= o -> o + Z.of_nat (length src) <= entryStride l ->
  exists a' b, writing (fun h => write h (fst at_) (u32 (snd at_ + o)) src) a = (Ok tt, a') /\ wrote n a (fst at_) b a' /\ slabs_rep a' slabs (put_cell i (list_inserts (Z.to_nat o) src c) cells).
Proof.
  intros O S Hnd P Hc Ho Hl. destruct (place_bytes _ _ _ _ _ _ S P Hc) as (bytes & Hp & Hlen & Hwin & Hb1 & Hb2 & Hlc). pose proof (lo_slab l L). unfold managedMapSlabEntries in *.
  destruct (writing_write n a (fst at_) bytes (snd at_ + o) src O Hp) as (a' & Hw & W); [lia|lia|]. rewrite u32_id by lia. exists a', (list_inserts (Z.to_nat (snd at_ + o)) src bytes). split; [done|]. split; [done|].
  eapply (slabs_put a a' slabs cells i at_ c); [done|done|done|done|apply W|intros q _ Hq; by apply W|]. intros bytes2 Hp2. assert (bytes2 = bytes) as -> by congruence.
  split; [apply length_inserts|]. pose proof P as (_ & _ & Hbase). split.
  - rewrite window_inside by lia. by rewrite Hwin.
  - intros k Hk Hne. rewrite Hbase in *. by apply other_window.
Qed.

Lemma cell_set_word n a slabs cells i at_ c o w :
  owner_ok n a -> slabs_rep a slabs cells -> NoDup slabs -> place_of slabs i at_ -> cell_at cells i = Some c -> 0 <= o -> o + 4 <= entryStride l ->
  exists a' b, writeWord (fst at_) (u32 (snd at_ + o)) w a = (Ok tt, a') /\ wrote n a (fst at_) b a' /\ slabs_rep a' slabs (put_cell i (set_word o w c) cells).
Proof. intros O S Hnd P Hc Ho Hl. apply (cell_write n a slabs cells i at_ c o (le_bytes 4 w)); done. Qed.

Lemma cell_clear n a slabs cells i at_ c :
  owner_ok n a -> slabs_rep a slabs cells -> NoDup slabs -> place_of slabs i at_ -> cell_at cells i = Some c ->
  exists a' b, writing (fun h => clear h (fst at_) (snd at_) (entryStride l)) a = (Ok tt, a') /\ wrote n a (fst at_) b a' /\
    slabs_rep a' slabs (put_cell i (replicate (Z.to_nat (entryStride l)) 0) cells).
Proof.
  intros O S Hnd P Hc. pose proof stride_bounds as Hsb. destruct (place_bytes _ _ _ _ _ _ S P Hc) as (bytes & Hp & Hlen & Hwin & Hb1 & Hb2 & Hlc).
  destruct (writing_clear n a (fst at_) bytes (snd at_) (entryStride l) O Hp) as (a' & Hw & W); [lia|lia|lia|]. set (zeros := replicate (Z.to_nat (entryStride l)) 0) in *.
  assert (Z.of_nat (length zeros) = entryStride l) as Hz by (unfold zeros; rewrite length_replicate; lia).
  exists a', (list_inserts (Z.to_nat (snd at_)) zeros bytes). split; [done|]. split; [done|].
  eapply (slabs_put a a' slabs cells i at_ c); [done|done|done|done|apply W|intros q _ Hq; by apply W|]. intros bytes2 Hp2. assert (bytes2 = bytes) as -> by congruence.
  split; [apply length_inserts|]. pose proof P as (_ & _ & Hbase). split; [apply window_same; lia|]. intros k Hk Hne. rewrite Hbase in *.
  pose proof (other_window bytes zeros 0 i k ltac:(lia) ltac:(lia) Hk Hne) as Ho. by rewrite Z.add_0_r in Ho.
Qed.

Lemma table_word n a buckets table b w : owner_ok n a -> table_rep a buckets table -> table !! b = Some w -> 4 * Z.of_nat (length table) < 2 ^ 32 ->
  word buckets (u32 (Z.of_nat b * 4)) a = (Ok w, a).
Proof.
  intros O (bytes & Hp & Hlen & Hw) Hb Hl. pose proof (lookup_lt_Some _ _ _ Hb). destruct (Hw b w Hb) as [Ew Hr]. rewrite u32_id by lia. unfold word.
  rewrite (st_bind_ok _ _ a _ a (reading_read n a buckets bytes (Z.of_nat b * 4) 4 O Hp ltac:(lia) ltac:(lia) ltac:(lia))). unfold st_return.
  replace (Z.of_nat b * 4) with (4 * Z.of_nat b) by lia. rewrite Ew. by rewrite le_word4.
Qed.

Lemma table_set n a buckets table b w : owner_ok n a -> table_rep a buckets table -> (b < length table)%nat -> 4 * Z.of_nat (length table) < 2 ^ 32 -> 0 <= w < 2 ^ 32 ->
  exists a' bs, writeWord buckets (u32 (Z.of_nat b * 4)) w a = (Ok tt, a') /\ wrote n a buckets bs a' /\ table_rep a' buckets (<[b := w]> table).
Proof.
  intros O (bytes & Hp & Hlen & Hw) Hb Hl Hr. rewrite u32_id by lia. unfold writeWord.
  destruct (writing_write n a buckets bytes (Z.of_nat b * 4) (le_bytes 4 w) O Hp) as (a' & E & W); [lia|rewrite le_bytes_length; lia|]. eexists a', _. split; [done|]. split; [done|].
  eexists. split; [apply W|]. split; [rewrite length_inserts, length_insert; done|]. intros j x Hj. destruct (decide (j = b)) as [->|Hne].
  - rewrite list_lookup_insert_eq in Hj by done. injection Hj as <-. split; [|done]. replace (4 * Z.of_nat b) with (Z.of_nat b * 4) by lia. apply window_same; rewrite ?le_bytes_length; lia.
  - rewrite list_lookup_insert_ne in Hj by done. destruct (Hw j x Hj) as [Ex Hx]. split; [|done]. rewrite window_other; [done|lia|lia|]. rewrite le_bytes_length. lia.
Qed.
End rep.
