(* ===== verification/MapShape.v ===== *)
(** * A managed map as a header, entries and chain heads (src/runtime/managed_map.go) *)

From S2P Require Import Prelude GoStd GoBytes Heap Allocator AllocatorSafe AllocatorRun MapStorage MapMemory MapRep.

#[local] Open Scope Z_scope.
#[local] Arguments Z.to_nat : simpl never.

Record shape : Type := mkShape { sh_header : managedMapHeader; sh_slabs : list guestRef; sh_cells : list gostring; sh_table : list Z }.

Definition with_header (h : managedMapHeader) (s : shape) : shape := mkShape h (sh_slabs s) (sh_cells s) (sh_table s).
Definition with_cells (cells : list gostring) (s : shape) : shape := mkShape (sh_header s) (sh_slabs s) cells (sh_table s).
Definition with_table (table : list Z) (s : shape) : shape := mkShape (sh_header s) (sh_slabs s) (sh_cells s) table.

Section shape.
Context (st : managedMapStorage) (L : layout_ok (prepared_layout st)).

#[local] Abbreviation l := (prepared_layout st).
#[local] Abbreviation directory s := (hdirectory (sh_header s)).
#[local] Abbreviation buckets s := (hbuckets (sh_header s)).

(** The objects of the map. *)
Definition footprint (s : shape) : list guestRef := identity st :: directory s :: buckets s :: sh_slabs s.

Record mem_rep (n : Z) (a : allocator) (s : shape) : Prop := {
  mr_owner : owner_ok n a;
  mr_identity : payload (mem a) (identity st) = Some (encode_header (sh_header s));
  mr_words : header_words (sh_header s);
  mr_capacity : hcapacity (sh_header s) = 64 * Z.of_nat (length (sh_slabs s));
  mr_slabs : slabs_rep l a (sh_slabs s) (sh_cells s);
  mr_empty : sh_slabs s = [] -> directory s = mkRef 0 0 /\ buckets s = mkRef 0 0 /\ sh_table s = [];
  mr_full : sh_slabs s <> [] -> valid (directory s) = true /\ valid (buckets s) = true /\ dir_rep a (directory s) (sh_slabs s) /\
    table_rep a (buckets s) (sh_table s) /\ 0 < 4 * Z.of_nat (length (sh_table s)) < 2 ^ 32 /\ NoDup (footprint s)
}.

(** What the map does not own is as it was. *)
Record kept (s : shape) (a a' : allocator) : Prop := {
  kp_others : forall q, q ∉ footprint s -> payload (mem a') q = payload (mem a) q;
  kp_strides : forall id, stride_of a' id = stride_of a id
}.

Lemma kept_refl s a : kept s a a.
Proof. by split. Qed.

Lemma kept_trans s a b c : kept s a b -> kept s b c -> kept s a c.
Proof. intros [A1 A2] [B1 B2]. split; [intros q Hq; by rewrite B1, A1|intros id; by rewrite B2, A2]. Qed.

Lemma wrote_kept n s a ref b a' : wrote n a ref b a' -> ref ∈ footprint s -> kept s a a'.
Proof. intros W Hr. split; [|apply W]. intros q Hq. apply W. by intros ->. Qed.

(** The representation depends only on the objects of the map. *)
Lemma mem_frame n m a a' s : mem_rep n a s -> owner_ok m a' -> (forall q bytes, q ∈ footprint s -> payload (mem a) q = Some bytes -> payload (mem a') q = Some bytes) -> mem_rep m a' s.
Proof.
  intros [O I W C S E F] O' Hp. split; try done.
  - apply Hp; [left|done].
  - destruct S as [S1 S2]. split; [done|]. intros i slab Hi. destruct (S2 i slab Hi) as (bytes & Hb & H). exists bytes. split; [|done]. apply Hp; [|done]. do 3 right. by eapply list_elem_of_lookup_2.
  - intros Hne. destruct (F Hne) as (V1 & V2 & (db & Hd & HD) & (tb & Ht & HT) & R). split; [done|]. split; [done|]. split; [exists db; split; [apply Hp; [right; left|done]|done]|].
    split; [|done]. exists tb. split; [|done]. apply Hp; [do 2 right; left|done].
Qed.

Lemma readHeader_ok n a s : mem_rep n a s -> readHeader st a = (Ok (sh_header s), a).
Proof.
  intros M. unfold readHeader. erewrite st_bind_ok; [|eapply reading_read; [apply M|apply M|lia|done|by rewrite encode_header_length]].
  unfold managedMapIdentityBytes. rewrite window_all by (by rewrite encode_header_length). unfold st_return. rewrite decode_encode_header by apply M. done.
Qed.

Lemma nonempty_cell n a s i c : mem_rep n a s -> cell_at (sh_cells s) i = Some c -> sh_slabs s <> [] /\ 1 <= i <= hcapacity (sh_header s).
Proof.
  intros M Hc. apply cell_at_Some in Hc as [Hi _]. destruct (mr_slabs _ _ _ M) as [Hl _]. rewrite (mr_capacity _ _ _ M), Hl in *. split; [|lia]. intros E. rewrite E in Hi. cbn in Hi. lia.
Qed.

Lemma distinct_slabs n a s : mem_rep n a s -> sh_slabs s <> [] -> NoDup (sh_slabs s) /\ (identity st ∉ sh_slabs s) /\ (directory s ∉ sh_slabs s) /\ (buckets s ∉ sh_slabs s) /\
  identity st <> directory s /\ identity st <> buckets s /\ directory s <> buckets s.
Proof.
  intros M Hne. destruct (mr_full _ _ _ M Hne) as (_ & _ & _ & _ & _ & Hd). unfold footprint in Hd. rewrite !NoDup_cons, !not_elem_of_cons in Hd. tauto.
Qed.

(** ** Accesses *)

Lemma mem_location n a s i c : mem_rep n a s -> cell_at (sh_cells s) i = Some c ->
  exists at_, place_of l (sh_slabs s) i at_ /\ location st (sh_header s) i a = (Ok at_, a).
Proof.
  intros M Hc. destruct (nonempty_cell _ _ _ _ _ M Hc) as [Hne Hi]. destruct (mr_full _ _ _ M Hne) as (_ & _ & D & _). apply (location_ok l L n); try done; [apply M|apply M|apply (mr_words _ _ _ M)].
Qed.

Lemma mem_read n a s i at_ c o m : mem_rep n a s -> place_of l (sh_slabs s) i at_ -> cell_at (sh_cells s) i = Some c -> 0 <= o -> 0 <= m -> o + m <= entryStride l ->
  reading (fun h => read h (fst at_) (u32 (snd at_ + o)) m) a = (Ok (window c o m), a).
Proof. intros M. apply (cell_read l L n); apply M. Qed.

(** Without an offset. *)
Lemma mem_read0 n a s i at_ c m : mem_rep n a s -> place_of l (sh_slabs s) i at_ -> cell_at (sh_cells s) i = Some c -> 0 <= m -> m <= entryStride l ->
  reading (fun h => read h (fst at_) (snd at_) m) a = (Ok (window c 0 m), a).
Proof.
  intros M P Hc Hm Hl. rewrite <- (mem_read n a s i at_ c 0 m) by (done || lia). pose proof P as (_ & _ & E). pose proof (base_bounds l L i) as Hb. pose proof (stride_bounds l L).
  unfold reading. rewrite Z.add_0_r, u32_id; [done|lia].
Qed.

Lemma mem_word n a s i at_ c o : mem_rep n a s -> place_of l (sh_slabs s) i at_ -> cell_at (sh_cells s) i = Some c -> 0 <= o -> o + 4 <= entryStride l ->
  word (fst at_) (u32 (snd at_ + o)) a = (Ok (field c o), a).
Proof. intros M. apply (cell_word l L n); apply M. Qed.

Lemma mem_put n a s i at_ cells' b a' : mem_rep n a s -> sh_slabs s <> [] -> place_of l (sh_slabs s) i at_ -> wrote n a (fst at_) b a' -> slabs_rep l a' (sh_slabs s) cells' ->
  mem_rep n a' (with_cells cells' s) /\ kept s a a'.
Proof.
  intros M Hne (_ & Hs & _) W S. destruct (distinct_slabs _ _ _ M Hne) as (D1 & D2 & D3 & D4 & _). assert (fst at_ ∈ sh_slabs s) as Hin by (by eapply list_elem_of_lookup_2).
  split; [|eapply wrote_kept; [done|]; by do 3 right]. split; cbn [with_cells sh_header sh_slabs sh_cells sh_table]; try apply M; try done.
  - apply W.
  - rewrite (wr_others _ _ _ _ _ W) by (intros E; rewrite E in D2; done). apply M.
  - intros _. destruct (mr_full _ _ _ M Hne) as (V1 & V2 & F1 & F2 & R). split; [done|]. split; [done|].
    split; [eapply dir_frame; [|done]; apply (wr_others _ _ _ _ _ W); intros E; rewrite E in D3; done|]. split; [|done].
    eapply table_frame; [|done]. apply (wr_others _ _ _ _ _ W). intros E. rewrite E in D4. done.
Qed.

Lemma mem_write n a s i at_ c o src : mem_rep n a s -> place_of l (sh_slabs s) i at_ -> cell_at (sh_cells s) i = Some c -> 0 <= o -> o + Z.of_nat (length src) <= entryStride l ->
  exists a', writing (fun h => write h (fst at_) (u32 (snd at_ + o)) src) a = (Ok tt, a') /\
    mem_rep n a' (with_cells (put_cell i (list_inserts (Z.to_nat o) src c) (sh_cells s)) s) /\ kept s a a'.
Proof.
  intros M P Hc Ho Hl. destruct (nonempty_cell _ _ _ _ _ M Hc) as [Hne _]. destruct (distinct_slabs _ _ _ M Hne) as (D1 & _).
  destruct (cell_write l L n a (sh_slabs s) (sh_cells s) i at_ c o src) as (a' & b & E & W & S); try done; [apply M|apply M|]. exists a'. split; [done|]. by eapply mem_put.
Qed.

Lemma mem_write0 n a s i at_ c src : mem_rep n a s -> place_of l (sh_slabs s) i at_ -> cell_at (sh_cells s) i = Some c -> Z.of_nat (length src) = entryStride l ->
  exists a', writing (fun h => write h (fst at_) (snd at_) src) a = (Ok tt, a') /\ mem_rep n a' (with_cells (put_cell i src (sh_cells s)) s) /\ kept s a a'.
Proof.
  intros M P Hc Hl. destruct (mem_write n a s i at_ c 0 src) as (a' & E & M' & Kp); try done; [lia|]. exists a'. pose proof P as (_ & _ & Eb). pose proof (base_bounds l L i) as Hb. pose proof (stride_bounds l L).
  unfold writing in *. rewrite Z.add_0_r, u32_id in E by lia. split; [done|]. destruct (place_bytes l L _ _ _ _ _ _ (mr_slabs _ _ _ M) P Hc) as (_ & _ & _ & _ & _ & _ & Hlc).
  assert (list_inserts (Z.to_nat 0) src c = src) as Ei; [|by rewrite Ei in M'].
  apply inserts_all. lia.
Qed.

Lemma mem_set_word n a s i at_ c o w : mem_rep n a s -> place_of l (sh_slabs s) i at_ -> cell_at (sh_cells s) i = Some c -> 0 <= o -> o + 4 <= entryStride l ->
  exists a', writeWord (fst at_) (u32 (snd at_ + o)) w a = (Ok tt, a') /\ mem_rep n a' (with_cells (put_cell i (set_word o w c) (sh_cells s)) s) /\ kept s a a'.
Proof. intros M P Hc Ho Hl. apply mem_write; done. Qed.

Lemma mem_clear n a s i at_ c : mem_rep n a s -> place_of l (sh_slabs s) i at_ -> cell_at (sh_cells s) i = Some c ->
  exists a', writing (fun h => clear h (fst at_) (snd at_) (entryStride l)) a = (Ok tt, a') /\
    mem_rep n a' (with_cells (put_cell i (entry_buffer l) (sh_cells s)) s) /\ kept s a a'.
Proof.
  intros M P Hc. destruct (nonempty_cell _ _ _ _ _ M Hc) as [Hne _]. destruct (distinct_slabs _ _ _ M Hne) as (D1 & _).
  destruct (cell_clear l L n a (sh_slabs s) (sh_cells s) i at_ c) as (a' & b & E & W & S); try done; [apply M|apply M|]. exists a'. split; [done|]. by eapply mem_put.
Qed.

Lemma mem_bucket_count n a s : mem_rep n a s -> sh_slabs s <> [] ->
  exists e, reading (fun h => resolveObject h (buckets s)) a = (Ok e, a) /\ obj_size e = 4 * Z.of_nat (length (sh_table s)) /\ obj_size e / 4 = Z.of_nat (length (sh_table s)) /\
    bucket_count (sh_header s) a = (Ok (Z.of_nat (length (sh_table s))), a).
Proof.
  intros M Hne. destruct (mr_full _ _ _ M Hne) as (_ & _ & _ & (bytes & Hp & Hlen & _) & Hr & _). destruct (reading_resolve n a _ bytes (mr_owner _ _ _ M) Hp) as (e & E & Es).
  exists e. split; [done|]. split; [lia|]. assert (obj_size e / 4 = Z.of_nat (length (sh_table s))) as Ed by (rewrite Es, Hlen, Z.mul_comm; apply Z.div_mul; lia). split; [done|].
  unfold bucket_count. rewrite (st_bind_ok _ _ _ _ _ E), Ed. by rewrite (proj2 (Z.eqb_neq _ _)) by lia.
Qed.

Lemma bucket_index n a s hash : mem_rep n a s -> sh_slabs s <> [] -> exists b w, hash mod Z.of_nat (length (sh_table s)) = Z.of_nat b /\ sh_table s !! b = Some w.
Proof.
  intros M Hne. destruct (mr_full _ _ _ M Hne) as (_ & _ & _ & _ & Hr & _). pose proof (Z.mod_pos_bound hash (Z.of_nat (length (sh_table s))) ltac:(lia)) as Hb.
  exists (Z.to_nat (hash mod Z.of_nat (length (sh_table s)))). destruct (lookup_lt_is_Some_2 (sh_table s) (Z.to_nat (hash mod Z.of_nat (length (sh_table s))))) as [w Hw]; [lia|]. exists w. split; [lia|done].
Qed.

Lemma mem_bucket n a s b w : mem_rep n a s -> sh_table s !! b = Some w -> word (buckets s) (u32 (Z.of_nat b * 4)) a = (Ok w, a) /\ 0 <= w < 2 ^ 32.
Proof.
  intros M Hb. destruct (decide (sh_slabs s = [])) as [E|Hne]; [destruct (mr_empty _ _ _ M E) as (_ & _ & Et); by rewrite Et in Hb|].
  destruct (mr_full _ _ _ M Hne) as (_ & _ & _ & T & Hr & _). split; [apply (table_word n a _ (sh_table s)); [apply M|done|done|lia]|]. destruct T as (bytes & _ & _ & H). by apply (H b w).
Qed.

Lemma mem_set_bucket n a s b w : mem_rep n a s -> (b < length (sh_table s))%nat -> 0 <= w < 2 ^ 32 ->
  exists a', writeWord (buckets s) (u32 (Z.of_nat b * 4)) w a = (Ok tt, a') /\ mem_rep n a' (with_table (<[b := w]> (sh_table s)) s) /\ kept s a a'.
Proof.
  intros M Hb Hw. destruct (decide (sh_slabs s = [])) as [E|Hne]; [destruct (mr_empty _ _ _ M E) as (_ & _ & Et); rewrite Et in Hb; cbn in Hb; lia|].
  destruct (mr_full _ _ _ M Hne) as (V1 & V2 & F1 & F2 & Hr & Hnd). destruct (distinct_slabs _ _ _ M Hne) as (D1 & D2 & D3 & D4 & D5 & D6 & D7).
  destruct (table_set n a (buckets s) (sh_table s) b w (mr_owner _ _ _ M) F2 Hb ltac:(lia) Hw) as (a' & bs & E & W & T). exists a'. split; [done|].
  split; [|eapply wrote_kept; [done|]; do 2 right; left]. split; cbn [with_table sh_header sh_slabs sh_cells sh_table]; try apply M; try done.
  - apply W.
  - rewrite (wr_others _ _ _ _ _ W) by congruence. apply M.
  - eapply slabs_frame; [|apply M]. intros q Hq. apply W. intros ->. done.
  - intros _. split; [done|]. split; [done|]. split; [eapply dir_frame; [apply W; congruence|done]|]. split; [done|]. rewrite length_insert. done.
Qed.

(** The directory and the table are where they were. *)
Lemma mem_write_header n a s h' : mem_rep n a s -> header_words h' -> hdirectory h' = directory s -> hbuckets h' = buckets s -> hcapacity h' = hcapacity (sh_header s) ->
  exists a', writeHeader st h' a = (Ok tt, a') /\ mem_rep n a' (with_header h' s) /\ kept s a a'.
Proof.
  intros M Hw Ed Eb Ec. destruct (writing_write n a (identity st) (encode_header (sh_header s)) 0 (encode_header h') (mr_owner _ _ _ M) (mr_identity _ _ _ M)) as (a' & E & W); [lia|by rewrite !encode_header_length|].
  exists a'. split; [done|]. split; [|eapply wrote_kept; [done|left]].
  assert (list_inserts (Z.to_nat 0) (encode_header h') (encode_header (sh_header s)) = encode_header h') as Ei.
  { apply inserts_all. by rewrite !encode_header_length. }
  rewrite Ei in W. split; cbn [with_header sh_header sh_slabs sh_cells sh_table]; rewrite ?Ed, ?Eb, ?Ec; try apply M; try done.
  - apply W.
  - apply W.
  - destruct (decide (sh_slabs s = [])) as [E0|Hne]; [eapply slabs_frame; [|apply M]; intros q Hq; rewrite E0 in Hq; by apply not_elem_of_nil in Hq|].
    destruct (distinct_slabs _ _ _ M Hne) as (D1 & D2 & _). eapply slabs_frame; [|apply M]. intros q Hq. apply W. intros ->. done.
  - intros Hne. destruct (mr_full _ _ _ M Hne) as (V1 & V2 & F1 & F2 & R1 & R2). destruct (distinct_slabs _ _ _ M Hne) as (D1 & D2 & D3 & D4 & D5 & D6 & D7).
    split; [done|]. split; [done|]. split; [eapply dir_frame; [apply W; congruence|done]|]. split; [eapply table_frame; [apply W; congruence|done]|]. split; [done|].
    unfold footprint in *. cbn. by rewrite Ed, Eb.
Qed.
End shape.
