(* ===== verification/MapTable.v ===== *)
(** * The hash table of a managed map (src/runtime/managed_map.go)

    Chains, the list of free entries, the invariant that relates them to the entries of the map, and the
    search for a key. *)

From S2P Require Import Prelude GoStd GoBytes Heap Allocator AllocatorSafe AllocatorRun MapStorage MapMemory MapRep MapShape.

#[local] Open Scope Z_scope.
#[local] Arguments Z.to_nat : simpl never.

(** ** Lists of entries *)

Definition c_occupied (c : gostring) : Z := field c 0.
Definition c_generation (c : gostring) : Z := field c 4.
Definition c_hash (c : gostring) : Z := field c 8.
Definition c_next (c : gostring) : Z := field c 12.

(** The entries met from [head] along the links, to the end. *)
Inductive linked (cells : list gostring) : Z -> list Z -> Prop :=
| linked_nil : linked cells 0 []
| linked_cons i c rest : cell_at cells i = Some c -> linked cells (c_next c) rest -> linked cells i (i :: rest).

Lemma linked_range cells i chain : linked cells i chain -> 0 <= i <= Z.of_nat (length cells).
Proof. destruct 1 as [|i c rest Hc]; [lia|]. apply cell_at_Some in Hc as [Hi _]. lia. Qed.

Lemma linked_det cells i chain : linked cells i chain -> forall chain', linked cells i chain' -> chain = chain'.
Proof.
  induction 1 as [|i c rest Hc _ IH]; intros chain' H'; inversion H' as [|j d rest' Hd Hl]; subst; try done.
  f_equal. apply IH. assert (d = c) as -> by congruence. done.
Qed.

Lemma linked_cell cells head chain i : linked cells head chain -> i ∈ chain -> exists c, cell_at cells i = Some c.
Proof. induction 1 as [|j c rest Hc _ IH]; intros Hi; [by apply not_elem_of_nil in Hi|]. apply elem_of_cons in Hi as [->|Hi]; [by exists c|by apply IH]. Qed.

Lemma linked_tail cells head chain : linked cells head chain -> forall l1 i l2, chain = l1 ++ i :: l2 -> linked cells i (i :: l2).
Proof.
  induction 1 as [|j c rest Hc Hl IH]; intros l1 i l2 E; [by destruct l1|]. destruct l1 as [|x l1]; cbn in E.
  - injection E as <- <-. by econstructor.
  - injection E as <- ->. by eapply IH.
Qed.

Lemma linked_nodup cells head chain : linked cells head chain -> NoDup chain.
Proof.
  induction 1 as [|j c rest Hc Hl IH]; [constructor|]. constructor; [|done]. intros Hin. apply list_elem_of_split in Hin as (l1 & l2 & ->).
  pose proof (linked_tail _ _ _ Hl _ _ _ eq_refl) as Ht. assert (linked cells j (j :: l1 ++ j :: l2)) as Hj by (by econstructor).
  pose proof (linked_det _ _ _ Ht _ Hj) as E. apply (f_equal length) in E. cbn in E. rewrite length_app in E. cbn in E. lia.
Qed.

Lemma linked_length cells head chain : linked cells head chain -> (length chain <= length cells)%nat.
Proof.
  intros H. pose proof (linked_nodup _ _ _ H) as Hnd. assert (chain ⊆ seqZ 1 (Z.of_nat (length cells))) as Hs.
  { intros i Hi. destruct (linked_cell _ _ _ _ H Hi) as (c & Hc). apply cell_at_Some in Hc as [Hr _]. apply elem_of_seqZ. lia. }
  pose proof (submseteq_length _ _ (NoDup_submseteq _ _ Hnd Hs)) as Hl. rewrite length_seqZ in Hl. lia.
Qed.

Lemma linked_put cells head chain i c d : linked cells head chain -> i ∉ chain -> cell_at cells i = Some d -> linked (put_cell i c cells) head chain.
Proof.
  intros Hl Hi Hd. induction Hl as [|j e rest Hj Hl IH]; [constructor|]. apply not_elem_of_cons in Hi as [Hne Hi]. econstructor; [|by apply IH].
  by rewrite (cell_put _ _ _ _ _ Hd), decide_False.
Qed.

(** The link of an entry is all that its place in a list depends on. *)
Lemma linked_same_next cells head chain i c d : linked cells head chain -> cell_at cells i = Some d -> c_next c = c_next d -> linked (put_cell i c cells) head chain.
Proof.
  intros Hl Hd En. induction Hl as [|j e rest Hj Hl IH]; [constructor|]. destruct (decide (j = i)) as [->|Hne].
  - apply (linked_cons _ _ c); [by rewrite (cell_put _ _ _ _ _ Hd), decide_True|]. rewrite En. by assert (e = d) as -> by congruence.
  - apply (linked_cons _ _ e); [by rewrite (cell_put _ _ _ _ _ Hd), decide_False|done].
Qed.

Lemma linked_push cells head chain i c d : linked cells head chain -> i ∉ chain -> cell_at cells i = Some d -> c_next c = head -> linked (put_cell i c cells) i (i :: chain).
Proof. intros Hl Hi Hd En. apply (linked_cons _ _ c); [by rewrite (cell_put _ _ _ _ _ Hd), decide_True|]. rewrite En. by eapply linked_put. Qed.

(** The predecessor takes over the link. *)
Lemma linked_unlink cells head l1 p i l2 cp ci cp' : linked cells head (l1 ++ p :: i :: l2) -> cell_at cells p = Some cp -> cell_at cells i = Some ci -> c_next cp' = c_next ci ->
  linked (put_cell p cp' cells) head (l1 ++ p :: l2).
Proof.
  intros Hl Hp Hi En. pose proof (linked_nodup _ _ _ Hl) as Hnd. revert head Hl Hnd. induction l1 as [|x l1 IH]; intros head Hl Hnd; cbn in *.
  - inversion Hl as [|? c ? Hc Hl2]; subst. inversion Hl2 as [|? d ? Hd Hl3]; subst. assert (d = ci) as -> by congruence. assert (c = cp) as -> by congruence.
    apply (linked_cons _ _ cp'); [by rewrite (cell_put _ _ _ _ _ Hp), decide_True|]. rewrite En. apply (linked_put _ _ _ _ _ cp Hl3); [|done].
    apply NoDup_cons in Hnd as [Hn _]. rewrite not_elem_of_cons in Hn. tauto.
  - inversion Hl as [|? c ? Hc Hl2]; subst. apply NoDup_cons in Hnd as [Hn Hnd]. apply (linked_cons _ _ c); [|by apply IH].
    rewrite (cell_put _ _ _ _ _ Hp), decide_False; [done|]. intros ->. apply Hn, elem_of_app. right. left.
Qed.

Section table.
Context {K V : Type} `{MapElements K V}.
Context (st : managedMapStorage) (L : layout_ok (prepared_layout st)).

#[local] Abbreviation l := (prepared_layout st).

Definition c_key (c : gostring) : K := decodeKey (window c managedMapMetadata (Stride (keyLayout l))).
Definition c_value (c : gostring) : V := decodeValue (window c (valueOffset l) (Stride (valueLayout l))).

(** The entry that the bytes [c] of entry [i] hold. *)
Definition entry_of (i : Z) (c : gostring) : vmMapEntry := mkEntry (Z.lor (u64 (Z.shiftl (c_generation c) 32)) i) (c_key c) (c_value c).

Definition occupied_cell (cells : list gostring) (i : Z) (c : gostring) : Prop := cell_at cells i = Some c /\ c_occupied c <> 0.

(** ** The invariant *)

Record map_ok (s : shape) (entries : gmap Z vmMapEntry) : Prop := {
  mo_created : hcreated (sh_header s) <= hcapacity (sh_header s);
  mo_count : hcount (sh_header s) = Z.of_nat (size entries);
  mo_entries : forall i e, entries !! i = Some e <-> exists c, occupied_cell (sh_cells s) i c /\ e = entry_of i c;
  mo_generation : forall i c, cell_at (sh_cells s) i = Some c -> 0 <= c_generation c < 2 ^ 32;
  mo_occupied : forall i c, occupied_cell (sh_cells s) i c -> i <= hcreated (sh_header s) /\ 0 < c_generation c /\
    exists key, mapKey (c_key c) = Ok key /\ c_hash c = managedMapKeyHash key;
  mo_unused : forall i c, cell_at (sh_cells s) i = Some c -> hcreated (sh_header s) < i -> c_generation c = 0;
  mo_unique : forall i j c d key, occupied_cell (sh_cells s) i c -> occupied_cell (sh_cells s) j d -> mapKey (c_key c) = Ok key -> mapKey (c_key d) = Ok key ->
    NonReflexive key = false -> i = j;
  mo_chains : forall b head, sh_table s !! b = Some head -> exists chain, linked (sh_cells s) head chain /\
    forall i, i ∈ chain <-> exists c, occupied_cell (sh_cells s) i c /\ c_hash c mod Z.of_nat (length (sh_table s)) = Z.of_nat b;
  mo_free : exists chain, linked (sh_cells s) (hfree (sh_header s)) chain /\
    forall i, i ∈ chain <-> exists c, cell_at (sh_cells s) i = Some c /\ i <= hcreated (sh_header s) /\ c_occupied c = 0 /\ c_generation c <> 2 ^ 32 - 1
}.

(** ** Reading *)

Lemma offsets_ok : 16 <= entryStride l /\ managedMapMetadata + Stride (keyLayout l) <= entryStride l /\ 16 <= valueOffset l /\ 0 <= Stride (keyLayout l) /\ 0 <= Stride (valueLayout l) /\
  valueOffset l + Stride (valueLayout l) <= entryStride l.
Proof. pose proof (stride_bounds l L). destruct L as [L1 L2 L3 L4 L5 L6]. unfold managedMapMetadata in *. lia. Qed.

Lemma field_window c n o : 0 <= o -> o + 4 <= n -> field (window c 0 n) o = field c o.
Proof. intros Ho Hn. unfold field. rewrite window_window by lia. done. Qed.

Lemma readEntry_ok n a s i gen c : mem_rep st n a s -> cell_at (sh_cells s) i = Some c -> i <= hcreated (sh_header s) ->
  readEntry st (sh_header s) i gen a = (Ok (if (c_occupied c =? 0) || (negb (gen =? 0) && negb (gen =? c_generation c)) then None else Some (entry_of i c)), a).
Proof.
  intros M Hc Hi. pose proof offsets_ok as (O1 & O2 & O3 & O4 & O5 & O6). unfold managedMapMetadata in *. pose proof (cell_at_Some _ _ _ Hc) as [Hr _].
  destruct (mem_location st L n a s i c M Hc) as (at_ & P & E). unfold readEntry. rewrite (proj2 (Z.eqb_neq _ _)), (proj2 (Z.ltb_ge _ _)) by lia. cbn [orb].
  rewrite (st_bind_ok _ _ _ _ _ E). erewrite st_bind_ok; [|apply (mem_read0 st L n a s i at_ c 8 M P Hc); lia]. rewrite !field_window by lia. fold (c_generation c) (c_occupied c).
  destruct ((c_occupied c =? 0) || _); [done|]. unfold managedMapMetadata.
  rewrite (st_bind_ok _ _ _ _ _ (mem_read st L n a s i at_ c 16 (Stride (keyLayout l)) M P Hc ltac:(lia) ltac:(lia) ltac:(lia))).
  rewrite (st_bind_ok _ _ _ _ _ (mem_read st L n a s i at_ c (valueOffset l) (Stride (valueLayout l)) M P Hc ltac:(lia) ltac:(lia) ltac:(lia))). done.
Qed.

(** ** The search *)

Definition keyed (cells : list gostring) (s : shape) (chain : list Z) : Prop :=
  forall i, i ∈ chain -> exists c, occupied_cell cells i c /\ i <= hcreated (sh_header s) /\ exists key, mapKey (c_key c) = Ok key /\ c_hash c = managedMapKeyHash key.

Lemma find_loop_ok n a s key : mem_rep st n a s -> forall fuel chain index previous,
  linked (sh_cells s) index chain -> keyed (sh_cells s) s chain -> (length chain <= fuel)%nat ->
  (exists l1 i l2 c, chain = l1 ++ i :: l2 /\ occupied_cell (sh_cells s) i c /\ mapKey (c_key c) = Ok key /\
     find_loop fuel st (sh_header s) key (managedMapKeyHash key) index previous a = (Ok (Some (i, default previous (last l1), entry_of i c)), a)) \/
  ((forall i c, i ∈ chain -> cell_at (sh_cells s) i = Some c -> mapKey (c_key c) <> Ok key) /\
     find_loop fuel st (sh_header s) key (managedMapKeyHash key) index previous a = (Ok None, a)).
Proof.
  intros M. pose proof offsets_ok as (O1 & _). induction fuel as [|fuel IH]; intros chain index previous Hl Hk Hf.
  - destruct chain; [|cbn in Hf; lia]. inversion Hl; subst. right. split; [intros i c Hi; by apply not_elem_of_nil in Hi|done].
  - destruct Hl as [|i c rest Hc Hl]; [right; split; [intros i c Hi; by apply not_elem_of_nil in Hi|done]|]. cbn [find_loop].
    destruct (Hk i) as (c' & [Hc' Hocc] & Hi & key' & Hkey & Hhash); [left|]. assert (c' = c) as -> by congruence. pose proof (cell_at_Some _ _ _ Hc) as [Hr _].
    rewrite (proj2 (Z.eqb_neq _ _)) by lia. destruct (mem_location st L n a s i c M Hc) as (at_ & P & E). rewrite (st_bind_ok _ _ _ _ _ E).
    erewrite st_bind_ok; [|apply (mem_read0 st L n a s i at_ c managedMapMetadata M P Hc); [done|unfold managedMapMetadata; lia]]. unfold managedMapMetadata. rewrite !field_window by lia. fold (c_hash c) (c_next c).
    assert (keyed (sh_cells s) s rest) as Hkr by (intros j Hj; apply Hk; by right). cbn in Hf.
    destruct (decide (key' = key)) as [->|Hne].
    + left. exists [], i, rest, c. split; [done|]. split; [done|]. split; [done|]. rewrite Hhash, Z.eqb_refl. erewrite st_bind_ok.
      2: { erewrite st_bind_ok by (apply (readEntry_ok n a s i 0 c M Hc Hi)). rewrite (proj2 (Z.eqb_neq _ _)) by done. cbn [orb negb andb Z.eqb]. unfold of_result. cbn [Key entry_of]. rewrite Hkey.
           erewrite st_bind_ok by done. rewrite bool_decide_true by done. done. }
      done.
    + erewrite st_bind_ok.
      2: { instantiate (1 := a). instantiate (1 := None). destruct (c_hash c =? managedMapKeyHash key); [|done].
           erewrite st_bind_ok by (apply (readEntry_ok n a s i 0 c M Hc Hi)). rewrite (proj2 (Z.eqb_neq _ _)) by done. cbn [orb negb andb Z.eqb]. unfold of_result. cbn [Key entry_of]. rewrite Hkey.
           erewrite st_bind_ok by done. rewrite bool_decide_false by done. done. }
      destruct (IH rest (c_next c) i Hl Hkr ltac:(lia)) as [(l1 & j & l2 & d & -> & Hd & Hkd & Ef)|[Hno Ef]].
      * left. exists (i :: l1), j, l2, d. split; [done|]. split; [done|]. split; [done|]. rewrite Ef. do 3 f_equal. f_equal. destruct l1 as [|x l1]; [done|]. by destruct (last (x :: l1)) eqn:El; [rewrite last_cons, El|apply last_None in El].
      * right. split; [|done]. intros j d [->|Hj]%elem_of_cons Hd; [|by apply (Hno j)]. assert (d = c) as -> by congruence. congruence.
Qed.

Lemma find_ok n a s entries key : mem_rep st n a s -> map_ok s entries ->
  (exists b head l1 i l2 c, NonReflexive key = false /\ sh_table s !! b = Some head /\ managedMapKeyHash key mod Z.of_nat (length (sh_table s)) = Z.of_nat b /\
     linked (sh_cells s) head (l1 ++ i :: l2) /\ occupied_cell (sh_cells s) i c /\ mapKey (c_key c) = Ok key /\
     find st (sh_header s) key (managedMapKeyHash key) a = (Ok (Some (i, default 0 (last l1), entry_of i c)), a)) \/
  (find st (sh_header s) key (managedMapKeyHash key) a = (Ok None, a) /\ (NonReflexive key = true \/ forall i c, occupied_cell (sh_cells s) i c -> mapKey (c_key c) <> Ok key)).
Proof.
  intros M I. unfold find. destruct (NonReflexive key) eqn:En; cbn [orb]; [right; split; [done|by left]|].
  destruct (decide (sh_slabs s = [])) as [E|Hne].
  - destruct (mr_empty _ _ _ _ M E) as (_ & -> & _). right. split; [done|right]. intros i c [Hc _]. by destruct (nonempty_cell _ _ _ _ _ _ M Hc).
  - destruct (mr_full _ _ _ _ M Hne) as (_ & -> & _). cbn [negb]. destruct (mem_bucket_count st n a s M Hne) as (e & _ & _ & _ & Eb). rewrite (st_bind_ok _ _ _ _ _ Eb).
    destruct (bucket_index st n a s (managedMapKeyHash key) M Hne) as (b & head & Hb & Hh). rewrite Hb. destruct (mem_bucket st n a s b head M Hh) as [Ew _]. rewrite (st_bind_ok _ _ _ _ _ Ew).
    destruct (mo_chains _ _ I b head Hh) as (chain & Hl & Hin).
    destruct (find_loop_ok n a s key M (find_fuel (sh_header s)) chain head 0 Hl) as [(l1 & i & l2 & c & -> & Hc & Hk & Ef)|[Hno Ef]].
    + intros i Hi. apply Hin in Hi as (c & Hc & _). exists c. split; [done|]. destruct (mo_occupied _ _ I i c Hc) as (H1 & _ & H2). done.
    + unfold find_fuel. rewrite (mr_capacity _ _ _ _ M). pose proof (linked_length _ _ _ Hl) as Hlen. destruct (mr_slabs _ _ _ _ M) as [Hsl _]. lia.
    + left. exists b, head, l1, i, l2, c. done.
    + right. split; [done|right]. intros i c Hc Hk. destruct (mo_occupied _ _ I i c Hc) as (_ & _ & key' & Hk' & Hh'). assert (key' = key) as -> by congruence.
      apply (Hno i c); [|apply Hc|done]. apply Hin. exists c. split; [done|]. by rewrite Hh'.
Qed.
End table.
