(* ===== verification/MapUpdate.v ===== *)
(** * Changes of a managed map's table (src/runtime/managed_map.go)

    What storing, deleting and clearing do to the entries, the chains and the list of free entries, and that
    the invariant holds again. *)

From S2P Require Import Prelude GoStd GoBytes Heap Allocator AllocatorSafe AllocatorRun MapStorage MapMemory MapRep MapShape MapTable.

#[local] Open Scope Z_scope.
#[local] Arguments Z.to_nat : simpl never.

Section update.
Context {K V : Type} `{MapElements K V}.
Context (st : managedMapStorage) (L : layout_ok (prepared_layout st)).

#[local] Abbreviation l := (prepared_layout st).
#[local] Abbreviation map_ok := (map_ok st).
#[local] Abbreviation c_key := (c_key st).
#[local] Abbreviation c_value := (c_value st).
#[local] Abbreviation entry_of := (entry_of st).

Lemma occupied_put cells i c d j e : cell_at cells i = Some d -> occupied_cell (put_cell i c cells) j e <-> (j = i /\ e = c /\ c_occupied c <> 0) \/ (j <> i /\ occupied_cell cells j e).
Proof.
  intros Hd. unfold occupied_cell. rewrite (cell_put _ _ _ _ _ Hd). case_decide as E; [subst; intuition congruence|intuition].
Qed.

(** ** A new value *)

Lemma map_value_ok s entries i c c' : map_ok s entries -> occupied_cell (sh_cells s) i c ->
  c_occupied c' = c_occupied c -> c_generation c' = c_generation c -> c_hash c' = c_hash c -> c_next c' = c_next c -> c_key c' = c_key c ->
  map_ok (with_cells (put_cell i c' (sh_cells s)) s) (<[i := entry_of i c']> entries).
Proof.
  intros I [Hc Ho] E1 E2 E3 E4 E5. assert (forall j e, occupied_cell (put_cell i c' (sh_cells s)) j e <-> (j = i /\ e = c') \/ (j <> i /\ occupied_cell (sh_cells s) j e)) as Hoc.
  { intros j e. rewrite (occupied_put _ _ _ _ _ _ Hc), E1. intuition. }
  assert (occupied_cell (sh_cells s) i c) as Hci by done.
  split; cbn [with_cells sh_header sh_cells sh_table]; [apply I| | | | | | | |].
  - rewrite map_size_insert_Some; [apply I|]. exists (entry_of i c). apply I. by exists c.
  - intros j e. destruct (decide (j = i)) as [->|Hne].
    + rewrite lookup_insert_eq. split; [intros [= <-]; exists c'; rewrite Hoc; auto|]. intros (d & Hd & ->). apply Hoc in Hd as [[_ ->]|[? _]]; done.
    + rewrite lookup_insert_ne by done. rewrite (mo_entries _ _ _ I). split; intros (d & Hd & ->); exists d; (split; [|done]); [rewrite Hoc; auto|apply Hoc in Hd as [[? _]|[_ ?]]; done].
  - intros j d Hd. rewrite (cell_put _ _ _ _ _ Hc) in Hd. case_decide; [injection Hd as <-; rewrite E2; by apply (mo_generation _ _ _ I i)|by apply (mo_generation _ _ _ I j)].
  - intros j d [[-> ->]|[_ Hd]]%Hoc; [|by apply (mo_occupied _ _ _ I)]. rewrite E2, E3, E5. by apply (mo_occupied _ _ _ I).
  - intros j d Hd Hj. rewrite (cell_put _ _ _ _ _ Hc) in Hd. case_decide; [injection Hd as <-; rewrite E2; subst; by apply (mo_unused _ _ _ I i c)|by apply (mo_unused _ _ _ I j)].
  - intros j k d e key [[-> ->]|[_ Hd]]%Hoc [[-> ->]|[_ He]]%Hoc; rewrite ?E5; try done; intros; by eapply (mo_unique _ _ _ I).
  - intros b head Hb. destruct (mo_chains _ _ _ I b head Hb) as (chain & Hl & Hin). exists chain. split; [by eapply linked_same_next|]. intros j. rewrite Hin. split.
    + intros (d & Hd & Hh). destruct (decide (j = i)) as [->|Hne]; [exists c'; split; [rewrite Hoc; auto|]; rewrite E3; destruct Hd; congruence|exists d; rewrite Hoc; auto].
    + intros (d & [[-> ->]|[_ Hd]]%Hoc & Hh); [exists c; by rewrite <- E3|by exists d].
  - destruct (mo_free _ _ _ I) as (chain & Hl & Hin). exists chain. split; [by eapply linked_same_next|]. intros j. rewrite Hin, (cell_put _ _ _ _ _ Hc). case_decide as E; [|done]. subst j.
    split; intros (d & Hd & H1 & H2 & H3); [|injection Hd as <-]; congruence.
Qed.

(** ** A new entry *)

Definition stored_header (h : managedMapHeader) (index nextFree : Z) : managedMapHeader :=
  mkHeader (hdirectory h) (hbuckets h) (hcount h + 1) (if hfree h =? 0 then index else hcreated h) (hcapacity h) (if hfree h =? 0 then hfree h else nextFree).

(** The entry that the next store takes. *)
Definition next_index (h : managedMapHeader) : Z := if hfree h =? 0 then hcreated h + 1 else hfree h.

Lemma next_cell s entries i d : map_ok s entries -> i = next_index (sh_header s) -> cell_at (sh_cells s) i = Some d ->
  c_generation d <> 2 ^ 32 - 1 /\ ~ occupied_cell (sh_cells s) i d /\ entries !! i = None.
Proof.
  intros I -> Hd. unfold next_index in *. assert (~ occupied_cell (sh_cells s) (if hfree (sh_header s) =? 0 then hcreated (sh_header s) + 1 else hfree (sh_header s)) d /\ c_generation d <> 2 ^ 32 - 1) as [Hno Hg].
  { destruct (Z.eqb_spec (hfree (sh_header s)) 0) as [E|Hne].
    - split; [intros Ho; destruct (mo_occupied _ _ _ I _ _ Ho); lia|]. rewrite (mo_unused _ _ _ I _ _ Hd) by lia. lia.
    - destruct (mo_free _ _ _ I) as (chain & Hl & Hin). inversion Hl as [E|i c rest Hc Hl2 E1 E2]; [congruence|]. assert (hfree (sh_header s) ∈ chain) as Hx by (rewrite <- E2; left).
      apply Hin in Hx as (c' & Hc' & _ & H1 & H2). assert (c' = d) as -> by congruence. split; [intros [_ ?]; done|done]. }
  split; [done|]. split; [done|]. destruct (entries !! _) as [e|] eqn:E; [|done]. apply (mo_entries _ _ _ I) in E as (c & Hc & _). destruct Hno. destruct Hc as [Hc Ho]. split; [done|]. congruence.
Qed.

Lemma map_insert_ok s entries i d c' b head key : map_ok s entries -> i = next_index (sh_header s) -> cell_at (sh_cells s) i = Some d -> i <= hcapacity (sh_header s) ->
  c_occupied c' <> 0 -> c_generation c' = c_generation d + 1 -> c_hash c' = managedMapKeyHash key -> c_next c' = head -> mapKey (c_key c') = Ok key ->
  sh_table s !! b = Some head -> managedMapKeyHash key mod Z.of_nat (length (sh_table s)) = Z.of_nat b ->
  (NonReflexive key = true \/ forall j c, occupied_cell (sh_cells s) j c -> mapKey (c_key c) <> Ok key) ->
  map_ok (mkShape (stored_header (sh_header s) i (c_next d)) (sh_slabs s) (put_cell i c' (sh_cells s)) (<[b := i]> (sh_table s))) (<[i := entry_of i c']> entries).
Proof.
  intros I Ei Hd Hcap Ho Hg Hh Hn Hk Hb Hbk Hu. destruct (next_cell s entries i d I Ei Hd) as (Hg1 & Hno & Hnone). pose proof (mo_generation _ _ _ I i d Hd) as Hgr.
  assert (forall j e, occupied_cell (put_cell i c' (sh_cells s)) j e <-> (j = i /\ e = c') \/ occupied_cell (sh_cells s) j e) as Hoc.
  { intros j e. rewrite (occupied_put _ _ _ _ _ _ Hd). split; [intuition|]. intros [[-> ->]|Hj]; [by left|]. destruct (decide (j = i)) as [->|]; [|by right]. destruct Hno. destruct Hj. split; congruence. }
  assert (hcreated (sh_header s) <= hcreated (stored_header (sh_header s) i (c_next d)) /\ i <= hcreated (stored_header (sh_header s) i (c_next d))) as [Hcr1 Hcr2].
  { unfold next_index in Ei. cbn [stored_header hcreated]. destruct (Z.eqb_spec (hfree (sh_header s)) 0); [lia|]. split; [lia|]. subst i. destruct (mo_free _ _ _ I) as (chain & Hl & Hin).
    inversion Hl as [E|j c rest Hc Hl2 E1 E2]; [congruence|]. assert (hfree (sh_header s) ∈ chain) as Hx by (rewrite <- E2; left). apply Hin in Hx as (? & _ & ? & _). lia. }
  split; cbn [sh_header sh_cells sh_table].
  - cbn [stored_header hcreated hcapacity]. pose proof (mo_created _ _ _ I). case_if; lia.
  - cbn [stored_header hcount]. rewrite map_size_insert_None by done. rewrite (mo_count _ _ _ I). lia.
  - intros j e. destruct (decide (j = i)) as [->|Hne].
    + rewrite lookup_insert_eq. split; [intros [= <-]; exists c'; rewrite Hoc; auto|]. intros (x & [[_ ->]|Hx]%Hoc & ->); [done|]. destruct Hno. destruct Hx. split; congruence.
    + rewrite lookup_insert_ne by done. rewrite (mo_entries _ _ _ I). split; intros (x & Hx & ->); exists x; (split; [|done]); [rewrite Hoc; auto|apply Hoc in Hx as [[? _]|?]; done].
  - intros j x Hx. rewrite (cell_put _ _ _ _ _ Hd) in Hx. case_decide; [injection Hx as <-; lia|by apply (mo_generation _ _ _ I j)].
  - intros j x [[-> ->]|Hx]%Hoc; [split; [done|]; split; [lia|]; by exists key|]. destruct (mo_occupied _ _ _ I j x Hx) as (H1 & H2 & H3). split; [lia|]. done.
  - intros j x Hx Hj. rewrite (cell_put _ _ _ _ _ Hd) in Hx. case_decide; [lia|]. apply (mo_unused _ _ _ I j x Hx). lia.
  - intros j k x y key' [[-> ->]|Hx]%Hoc [[-> ->]|Hy]%Hoc Kx Ky Hr; try done.
    + assert (key' = key) as -> by congruence. destruct Hu as [?|Hu]; [congruence|]. by destruct (Hu k y Hy).
    + assert (key' = key) as -> by congruence. destruct Hu as [?|Hu]; [congruence|]. by destruct (Hu j x Hx).
    + by eapply (mo_unique _ _ _ I).
  - rewrite length_insert. intros b' head' Hb'. destruct (decide (b' = b)) as [->|Hne].
    + rewrite list_lookup_insert_eq in Hb' by (by eapply lookup_lt_Some). injection Hb' as <-. destruct (mo_chains _ _ _ I b head Hb) as (chain & Hl & Hin).
      assert (i ∉ chain) as Hni by (intros Hi; apply Hin in Hi as (x & Hx & _); destruct Hno; destruct Hx; split; congruence). exists (i :: chain). split; [by eapply linked_push|].
      intros j. rewrite elem_of_cons, Hin. split; [intros [->|(x & Hx & Ex)]; [exists c'; rewrite Hoc, Hh; auto|exists x; rewrite Hoc; auto]|].
      intros (x & [[-> ->]|Hx]%Hoc & Ex); [by left|right; by exists x].
    + rewrite list_lookup_insert_ne in Hb' by done. destruct (mo_chains _ _ _ I b' head' Hb') as (chain & Hl & Hin).
      assert (i ∉ chain) as Hni by (intros Hi; apply Hin in Hi as (x & Hx & _); destruct Hno; destruct Hx; split; congruence). exists chain. split; [by eapply linked_put|].
      intros j. rewrite Hin. split; [intros (x & Hx & Ex); exists x; rewrite Hoc; auto|]. intros (x & [[-> ->]|Hx]%Hoc & Ex); [|by exists x]. rewrite Hh in Ex. lia.
  - destruct (mo_free _ _ _ I) as (chain & Hl & Hin). cbn [stored_header hfree]. unfold next_index in Ei. destruct (Z.eqb_spec (hfree (sh_header s)) 0) as [E|Hne].
    + rewrite E in Hl. assert (chain = []) as -> by (by eapply linked_det; [|constructor]). rewrite E. exists []. split; [constructor|]. intros j. split; [intros Hj; by apply not_elem_of_nil in Hj|].
      intros (x & Hx & Hj & Hox & Hgx). rewrite (cell_put _ _ _ _ _ Hd) in Hx. case_decide; [by injection Hx as <-|]. cbn [stored_header hcreated] in Hj. rewrite E in Hj. cbn in Hj. apply Hin. exists x. split_and!; try done. lia.
    + inversion Hl as [E|j x rest Hx Hl2 E1 E2]; [congruence|]. subst j. rewrite <- Ei in *. assert (x = d) as -> by congruence. pose proof (linked_nodup _ _ _ Hl) as Hnd. rewrite <- E2 in Hnd.
      apply NoDup_cons in Hnd as [Hni Hnd]. exists rest. split; [by eapply linked_put|]. intros j. rewrite (cell_put _ _ _ _ _ Hd). case_decide as Ej.
      * subst j. split; [done|]. intros (y & [= <-] & _ & ? & _). done.
      * transitivity (j ∈ chain); [rewrite <- E2, elem_of_cons; intuition|]. rewrite Hin. cbn [stored_header hcreated]. rewrite <- Ei, (proj2 (Z.eqb_neq _ _)) by done. reflexivity.
Qed.

(** ** Changed links *)

Record same_entry (d d' : gostring) : Prop := {
  se_occupied : c_occupied d' = c_occupied d;
  se_generation : c_generation d' = c_generation d;
  se_hash : c_hash d' = c_hash d;
  se_key : c_key d' = c_key d;
  se_value : c_value d' = c_value d
}.

Lemma same_entry_refl d : same_entry d d.
Proof. by split. Qed.

Lemma same_entry_trans c d e : same_entry c d -> same_entry d e -> same_entry c e.
Proof. intros [] []. split; congruence. Qed.

Lemma same_entry_of i d d' : same_entry d d' -> entry_of i d' = entry_of i d.
Proof. intros [E1 E2 E3 E4 E5]. unfold MapTable.entry_of. by rewrite E2, E4, E5. Qed.

Lemma set_next_same c w : Z.of_nat (length c) = entryStride l -> same_entry c (set_word 12 w c).
Proof.
  intros Hl. pose proof (offsets_ok st L) as (O1 & O2 & O3 & O4 & O5 & O6). unfold managedMapMetadata in *.
  split; unfold c_occupied, c_generation, c_hash, MapTable.c_key, MapTable.c_value, managedMapMetadata; rewrite ?field_set_other, ?window_set by lia; done.
Qed.

Definition relinked (cells cells' : list gostring) : Prop :=
  length cells' = length cells /\ forall j d, cell_at cells j = Some d -> exists d', cell_at cells' j = Some d' /\ same_entry d d'.

Lemma relinked_refl cells : relinked cells cells.
Proof. split; [done|]. intros j d Hd. exists d. split; [done|apply same_entry_refl]. Qed.

Lemma relinked_back cells cells' j d' : relinked cells cells' -> cell_at cells' j = Some d' -> exists d, cell_at cells j = Some d /\ same_entry d d'.
Proof.
  intros [Hl Hr] Hd. pose proof (cell_at_Some _ _ _ Hd) as [Hj _]. rewrite Hl in Hj. destruct (cell_at_is cells j Hj) as [d Hc]. exists d. split; [done|]. destruct (Hr j d Hc) as (x & Hx & S). by assert (x = d') as -> by congruence.
Qed.

Lemma relinked_trans a b c : relinked a b -> relinked b c -> relinked a c.
Proof.
  intros [L1 R1] [L2 R2]. split; [congruence|]. intros j d Hd. destruct (R1 j d Hd) as (x & Hx & S1). destruct (R2 j x Hx) as (y & Hy & S2). exists y. split; [done|by eapply same_entry_trans].
Qed.

Lemma relinked_put cells cells' j d d' : relinked cells cells' -> cell_at cells' j = Some d -> same_entry d d' -> relinked cells (put_cell j d' cells').
Proof.
  intros R Hd S. eapply relinked_trans; [done|]. split; [apply put_cell_length|]. intros k x Hx. rewrite (cell_put _ _ _ _ _ Hd). case_decide as E; [subst; exists d'; split; [done|]; by assert (x = d) as -> by congruence|].
  exists x. split; [done|apply same_entry_refl].
Qed.

Lemma relinked_occupied cells cells' j d' : relinked cells cells' -> occupied_cell cells' j d' -> exists d, occupied_cell cells j d /\ same_entry d d'.
Proof. intros R [Hd Ho]. destruct (relinked_back _ _ _ _ R Hd) as (d & Hc & S). exists d. split; [|done]. split; [done|]. by rewrite <- (se_occupied _ _ S). Qed.

Lemma relinked_forth cells cells' j d : relinked cells cells' -> occupied_cell cells j d -> exists d', occupied_cell cells' j d' /\ same_entry d d'.
Proof. intros [_ R] [Hd Ho]. destruct (R j d Hd) as (d' & Hd' & S). exists d'. split; [|done]. split; [done|]. by rewrite (se_occupied _ _ S). Qed.

(** The list of free entries, with the entries it consists of. *)
Definition free_list (cells cells' : list gostring) (created head : Z) : Prop :=
  exists chain, linked cells' head chain /\ forall i, i ∈ chain <-> exists c, cell_at cells i = Some c /\ i <= created /\ c_occupied c = 0 /\ c_generation c <> 2 ^ 32 - 1.

(** ** A deleted entry *)

Definition deleted_header (h : managedMapHeader) (free : Z) : managedMapHeader :=
  mkHeader (hdirectory h) (hbuckets h) (hcount h - 1) (hcreated h) (hcapacity h) free.

(** Every chain without entry [i]. *)
Definition chains_without (i : Z) (cells cells' : list gostring) (table : list Z) : Prop :=
  forall b head, table !! b = Some head -> exists chain, linked cells' head chain /\
    forall j, j ∈ chain <-> j <> i /\ exists c, occupied_cell cells j c /\ c_hash c mod Z.of_nat (length table) = Z.of_nat b.

Lemma map_delete_ok s entries i c c' cells' table' free' : map_ok s entries -> occupied_cell (sh_cells s) i c -> relinked (sh_cells s) cells' -> length table' = length (sh_table s) ->
  chains_without i (sh_cells s) cells' table' -> free_list (sh_cells s) cells' (hcreated (sh_header s)) (hfree (sh_header s)) ->
  c_occupied c' = 0 -> c_generation c' = c_generation c ->
  (if c_generation c =? 2 ^ 32 - 1 then free' = hfree (sh_header s) else free' = i /\ c_next c' = hfree (sh_header s)) ->
  map_ok (mkShape (deleted_header (sh_header s) free') (sh_slabs s) (put_cell i c' cells') table') (delete i entries).
Proof.
  intros I Hci R Ht Hch Hfr Ho Hg Hf. pose proof Hci as [Hc Hoc]. destruct (proj2 R i c Hc) as (ci & Hci' & _). destruct (mo_occupied _ _ _ I i c Hci) as (Hcr & Hgp & _).
  assert (forall j e, occupied_cell (put_cell i c' cells') j e <-> j <> i /\ occupied_cell cells' j e) as Hocc by (intros j e; rewrite (occupied_put _ _ _ _ _ _ Hci'); intuition).
  assert (forall j x, cell_at (put_cell i c' cells') j = Some x -> exists y, cell_at (sh_cells s) j = Some y /\ c_generation x = c_generation y) as Hgen.
  { intros j x Hx. rewrite (cell_put _ _ _ _ _ Hci') in Hx. case_decide as E; [injection Hx as <-; subst; by exists c|]. destruct (relinked_back _ _ _ _ R Hx) as (y & Hy & S). exists y. split; [done|apply S]. }
  split; cbn [sh_header sh_cells sh_table deleted_header hcreated hcapacity hcount hfree].
  - apply I.
  - rewrite map_size_delete, (mo_count _ _ _ I). rewrite (proj2 (mo_entries _ _ _ I i (entry_of i c))) by by exists c.
    assert (size entries <> 0%nat); [|lia]. apply map_size_non_empty_iff. intros E. assert (entries !! i = Some (entry_of i c)) as X by (apply I; by exists c). by rewrite E, lookup_empty in X.
  - intros j e. rewrite lookup_delete_Some, (mo_entries _ _ _ I). split.
    + intros [Hne (x & Hx & ->)]. destruct (relinked_forth _ _ _ _ R Hx) as (y & Hy & S). exists y. split; [apply Hocc; auto|]. by rewrite (same_entry_of _ _ _ S).
    + intros (x & [Hne Hx]%Hocc & ->). split; [done|]. destruct (relinked_occupied _ _ _ _ R Hx) as (y & Hy & S). exists y. split; [done|]. by apply same_entry_of.
  - intros j x Hx. destruct (Hgen j x Hx) as (y & Hy & ->). by apply (mo_generation _ _ _ I j).
  - intros j x [Hne Hx]%Hocc. destruct (relinked_occupied _ _ _ _ R Hx) as (y & Hy & S). rewrite (se_generation _ _ S), (se_key _ _ S), (se_hash _ _ S). by apply (mo_occupied _ _ _ I).
  - intros j x Hx Hj. destruct (Hgen j x Hx) as (y & Hy & ->). by apply (mo_unused _ _ _ I j y).
  - intros j k x y key [_ Hx]%Hocc [_ Hy]%Hocc Kx Ky Hn. destruct (relinked_occupied _ _ _ _ R Hx) as (x0 & Hx0 & Sx), (relinked_occupied _ _ _ _ R Hy) as (y0 & Hy0 & Sy).
    rewrite (se_key _ _ Sx) in Kx. rewrite (se_key _ _ Sy) in Ky. by eapply (mo_unique _ _ _ I).
  - intros b head Hb. destruct (Hch b head Hb) as (chain & Hl & Hin). exists chain. split; [eapply linked_put; [done| |done]; intros Hi; by apply Hin in Hi as [? _]|].
    intros j. rewrite Hin. split.
    + intros [Hne (x & Hx & Eh)]. destruct (relinked_forth _ _ _ _ R Hx) as (y & Hy & S). exists y. rewrite (se_hash _ _ S). split; [apply Hocc; auto|done].
    + intros (x & [Hne Hx]%Hocc & Eh). split; [done|]. destruct (relinked_occupied _ _ _ _ R Hx) as (y & Hy & S). exists y. by rewrite <- (se_hash _ _ S).
  - destruct Hfr as (chain & Hl & Hin). assert (i ∉ chain) as Hni by (intros Hi; apply Hin in Hi as (x & Hx & _ & Hx0 & _); congruence).
    assert (forall j, j <> i -> (j ∈ chain <-> exists x, cell_at (put_cell i c' cells') j = Some x /\ j <= hcreated (sh_header s) /\ c_occupied x = 0 /\ c_generation x <> 2 ^ 32 - 1)) as Hold.
    { intros j Hne. rewrite Hin, (cell_put _ _ _ _ _ Hci'), decide_False by done. split.
      - intros (x & Hx & H1 & H2 & H3). destruct (proj2 R j x Hx) as (y & Hy & S). exists y. rewrite (se_occupied _ _ S), (se_generation _ _ S). done.
      - intros (y & Hy & H1 & H2 & H3). destruct (relinked_back _ _ _ _ R Hy) as (x & Hx & S). exists x. rewrite <- (se_occupied _ _ S), <- (se_generation _ _ S). done. }
    destruct (Z.eqb_spec (c_generation c) (2 ^ 32 - 1)) as [Em|Nm].
    + subst free'. exists chain. split; [by eapply linked_put|]. intros j. destruct (decide (j = i)) as [->|Hne]; [|by apply Hold]. rewrite (cell_put _ _ _ _ _ Hci'), decide_True by done.
      split; [done|]. intros (x & [= <-] & _ & _ & Hx). congruence.
    + destruct Hf as [-> Hn]. exists (i :: chain). split; [by eapply linked_push|]. intros j. rewrite elem_of_cons. destruct (decide (j = i)) as [->|Hne].
      * split; [intros _|by left]. exists c'. rewrite (cell_put _ _ _ _ _ Hci'), decide_True by done. split_and!; try done. congruence.
      * rewrite <- Hold by done. intuition.
Qed.

(** Unlinking the first entry of a chain, and a later one. *)
Lemma unlink_head s entries b head i l2 c : map_ok s entries -> sh_table s !! b = Some head -> linked (sh_cells s) head (i :: l2) -> cell_at (sh_cells s) i = Some c ->
  chains_without i (sh_cells s) (sh_cells s) (<[b := c_next c]> (sh_table s)).
Proof.
  intros I Hb Hl Hc b' head' Hb'. rewrite length_insert. pose proof (linked_nodup _ _ _ Hl) as Hnd. apply NoDup_cons in Hnd as [Hni _].
  assert (linked (sh_cells s) (c_next c) l2) as Hl2 by (inversion Hl as [|? c0 ? Hc0 Hl0]; subst; by assert (c0 = c) as -> by congruence).
  destruct (mo_chains _ _ _ I b head Hb) as (chain & Hl0 & Hin). assert (chain = i :: l2) as -> by (by eapply linked_det). destruct (decide (b' = b)) as [->|Hne].
  - rewrite list_lookup_insert_eq in Hb' by (by eapply lookup_lt_Some). injection Hb' as <-. exists l2. split; [done|]. intros j. rewrite <- Hin, elem_of_cons. split; [intros Hj; split; [by intros ->|auto]|intuition].
  - rewrite list_lookup_insert_ne in Hb' by done. destruct (mo_chains _ _ _ I b' head' Hb') as (chain' & Hl' & Hin'). exists chain'. split; [done|]. intros j. rewrite Hin'. split; [|by intros [_ ?]].
    intros (x & Hx & Ex). split; [|by exists x]. intros ->. assert (i ∈ i :: l2) as Hi by left. apply Hin in Hi as (y & Hy & Ey). destruct Hx, Hy. assert (y = x) as -> by congruence. lia.
Qed.

Lemma unlink_later s entries b head l1 p i l2 c cp : map_ok s entries -> sh_table s !! b = Some head -> linked (sh_cells s) head (l1 ++ p :: i :: l2) ->
  cell_at (sh_cells s) i = Some c -> cell_at (sh_cells s) p = Some cp -> Z.of_nat (length cp) = entryStride l -> 0 <= c_next c < 2 ^ 32 ->
  chains_without i (sh_cells s) (put_cell p (set_word 12 (c_next c) cp) (sh_cells s)) (sh_table s).
Proof.
  intros I Hb Hl Hc Hp Hlen Hr b' head' Hb'. pose proof (linked_nodup _ _ _ Hl) as Hnd. pose proof (offsets_ok st L) as (O1 & _).
  destruct (mo_chains _ _ _ I b head Hb) as (chain & Hl0 & Hin). assert (chain = l1 ++ p :: i :: l2) as -> by (by eapply linked_det). destruct (decide (b' = b)) as [->|Hne].
  - assert (head' = head) as -> by congruence. exists (l1 ++ p :: l2). split; [eapply linked_unlink; [done|done|done|]; apply field_set; lia|].
    intros j. rewrite <- Hin. rewrite !elem_of_app, !elem_of_cons. apply NoDup_app in Hnd as (_ & N1 & N2). rewrite !NoDup_cons, not_elem_of_cons in N2. destruct N2 as ([Npi Np] & Ni & _).
    split; [|intuition]. intros Hj. split; [|intuition]. intros ->. destruct Hj as [Hj|[Hj|Hj]]; [apply (N1 i Hj); right; left|congruence|done].
  - destruct (mo_chains _ _ _ I b' head' Hb') as (chain' & Hl' & Hin').
    assert (forall k, k ∈ l1 ++ p :: i :: l2 -> k ∉ chain') as Hdis.
    { intros k Hk Hk'. apply Hin in Hk as (x & Hx & Ex). apply Hin' in Hk' as (y & Hy & Ey). destruct Hx, Hy. assert (y = x) as -> by congruence. lia. }
    exists chain'. split; [eapply linked_put; [done| |done]; apply Hdis, elem_of_app; right; left|]. intros j. rewrite Hin'. split; [|by intros [_ ?]].
    intros (x & Hx & Ex). split; [|by exists x]. intros ->. apply (Hdis i); [apply elem_of_app; right; right; left|]. apply Hin'. by exists x.
Qed.

Lemma free_list_same s entries : map_ok s entries -> free_list (sh_cells s) (sh_cells s) (hcreated (sh_header s)) (hfree (sh_header s)).
Proof. intros I. apply (mo_free _ _ _ I). Qed.

Lemma free_list_put s entries p c cp : map_ok s entries -> occupied_cell (sh_cells s) p cp -> free_list (sh_cells s) (put_cell p c (sh_cells s)) (hcreated (sh_header s)) (hfree (sh_header s)).
Proof.
  intros I [Hp Ho]. destruct (mo_free _ _ _ I) as (chain & Hl & Hin). exists chain. split; [|done]. eapply linked_put; [done| |done]. intros Hi. apply Hin in Hi as (x & Hx & _ & Hx0 & _). congruence.
Qed.

(** ** All entries deleted *)

Lemma map_clear_ok s entries cells' free' : map_ok s entries -> length cells' = length (sh_cells s) ->
  (forall j d, cell_at (sh_cells s) j = Some d -> exists d', cell_at cells' j = Some d' /\ (j <= hcreated (sh_header s) -> c_occupied d' = 0) /\ c_generation d' = c_generation d /\
     (hcreated (sh_header s) < j -> d' = d)) ->
  free_list cells' cells' (hcreated (sh_header s)) free' ->
  map_ok (mkShape (mkHeader (hdirectory (sh_header s)) (hbuckets (sh_header s)) 0 (hcreated (sh_header s)) (hcapacity (sh_header s)) free') (sh_slabs s) cells'
    (replicate (length (sh_table s)) 0)) ∅.
Proof.
  intros I Hlen Hcl Hfr. assert (forall j x, cell_at cells' j = Some x -> exists y, cell_at (sh_cells s) j = Some y /\ c_generation x = c_generation y /\ c_occupied x = 0) as Hback.
  { intros j x Hx. pose proof (cell_at_Some _ _ _ Hx) as [Hj _]. rewrite Hlen in Hj. destruct (cell_at_is (sh_cells s) j Hj) as [y Hy]. exists y. split; [done|].
    destruct (Hcl j y Hy) as (z & Hz & H1 & H2 & H3). assert (z = x) as -> by congruence. split; [done|]. destruct (Z.le_gt_cases j (hcreated (sh_header s))); [auto|].
    rewrite H3 by lia. destruct (decide (c_occupied y = 0)) as [|Ho]; [done|]. destruct (mo_occupied _ _ _ I j y); [by split|]. lia. }
  assert (forall j x, ~ occupied_cell cells' j x) as Hno by (intros j x [Hx Ho]; by destruct (Hback j x Hx) as (y & _ & _ & ?)).
  split; cbn [sh_header sh_cells sh_table hcreated hcapacity hcount hfree].
  - apply I.
  - by rewrite map_size_empty.
  - intros j e. rewrite lookup_empty. split; [done|]. intros (x & Hx & _). by destruct (Hno j x).
  - intros j x Hx. destruct (Hback j x Hx) as (y & Hy & -> & _). by apply (mo_generation _ _ _ I j).
  - intros j x Hx. by destruct (Hno j x).
  - intros j x Hx Hj. destruct (Hback j x Hx) as (y & Hy & -> & _). by apply (mo_unused _ _ _ I j y).
  - intros j k x y key Hx. by destruct (Hno j x).
  - intros b head [-> Hb]%lookup_replicate. exists []. split; [constructor|]. intros j. split; [intros Hj; by apply not_elem_of_nil in Hj|]. intros (x & Hx & _). by destruct (Hno j x).
  - exact Hfr.
Qed.

(** ** A larger table *)

Lemma cell_app cells extra j c : cell_at cells j = Some c -> cell_at (cells ++ extra) j = Some c.
Proof. intros Hc. apply cell_at_Some in Hc as [Hj Hc]. unfold cell_at. rewrite (proj2 (Z.ltb_ge _ _)) by lia. by apply lookup_app_l_Some. Qed.

Lemma linked_app cells extra head chain : linked cells head chain -> linked (cells ++ extra) head chain.
Proof. induction 1 as [|i c rest Hc _ IH]; [constructor|]. apply (linked_cons _ _ c); [by apply cell_app|done]. Qed.

(** Every chain, over relinked entries. *)
Definition chains_over (cells cells' : list gostring) (table : list Z) : Prop :=
  forall b head, table !! b = Some head -> exists chain, linked cells' head chain /\
    forall j, j ∈ chain <-> exists c, occupied_cell cells j c /\ c_hash c mod Z.of_nat (length table) = Z.of_nat b.

Lemma map_grow_ok s entries h' slabs' cells' count table' : map_ok s entries -> hcapacity (sh_header s) = Z.of_nat (length (sh_cells s)) ->
  hcount h' = hcount (sh_header s) -> hcreated h' = hcreated (sh_header s) -> hfree h' = hfree (sh_header s) -> hcapacity (sh_header s) <= hcapacity h' ->
  relinked (sh_cells s) cells' -> chains_over (sh_cells s) cells' table' -> free_list (sh_cells s) cells' (hcreated (sh_header s)) (hfree (sh_header s)) ->
  map_ok (mkShape h' slabs' (cells' ++ replicate count (entry_buffer l)) table') entries.
Proof.
  intros I Hcap E1 E2 E3 Hle R Hch Hfr. pose proof (offsets_ok st L) as (O1 & _). pose proof (proj1 R) as Hlen.
  assert (forall o, 0 <= o -> o + 4 <= entryStride l -> field (entry_buffer l) o = 0) as Hzero.
  { intros o Ho Hb. unfold field, window, entry_buffer. rewrite drop_replicate, take_replicate. rewrite Nat.min_l by lia. change (Z.to_nat 4) with 4%nat. done. }
  assert (forall j x, cell_at (cells' ++ replicate count (entry_buffer l)) j = Some x -> cell_at cells' j = Some x \/ (hcapacity (sh_header s) < j /\ x = entry_buffer l)) as Hcase.
  { intros j x Hx. apply cell_at_Some in Hx as [Hj Hx]. apply lookup_app_Some in Hx as [Hx|[Hge Hx]]; [left; unfold cell_at; by rewrite (proj2 (Z.ltb_ge _ _)) by lia|right].
    apply lookup_replicate in Hx as [-> _]. split; [lia|done]. }
  pose proof (mo_created _ _ _ I) as Hcr.
  assert (forall j x, occupied_cell (cells' ++ replicate count (entry_buffer l)) j x <-> occupied_cell cells' j x) as Hocc.
  { intros j x. split; [|intros [Hx Ho]; split; [by apply cell_app|done]]. intros [Hx Ho]. destruct (Hcase j x Hx) as [Hx'|[_ ->]]; [done|]. destruct Ho. apply Hzero; lia. }
  split; cbn [sh_header sh_cells sh_table].
  - rewrite E2. lia.
  - rewrite E1. apply I.
  - intros j e. rewrite (mo_entries _ _ _ I). split.
    + intros (x & Hx & ->). destruct (relinked_forth _ _ _ _ R Hx) as (y & Hy & S). exists y. split; [by apply Hocc|]. by rewrite (same_entry_of _ _ _ S).
    + intros (x & Hx%Hocc & ->). destruct (relinked_occupied _ _ _ _ R Hx) as (y & Hy & S). exists y. split; [done|]. by apply same_entry_of.
  - intros j x [Hx|[_ ->]]%Hcase; [|unfold c_generation; rewrite Hzero by lia; lia]. destruct (relinked_back _ _ _ _ R Hx) as (y & Hy & S). rewrite (se_generation _ _ S). by apply (mo_generation _ _ _ I j).
  - intros j x Hx%Hocc. destruct (relinked_occupied _ _ _ _ R Hx) as (y & Hy & S). rewrite (se_generation _ _ S), (se_key _ _ S), (se_hash _ _ S), E2. by apply (mo_occupied _ _ _ I).
  - intros j x [Hx|[_ ->]]%Hcase Hj; [|unfold c_generation; apply Hzero; lia]. destruct (relinked_back _ _ _ _ R Hx) as (y & Hy & S). rewrite (se_generation _ _ S). apply (mo_unused _ _ _ I j y Hy). lia.
  - intros j k x y key Hx%Hocc Hy%Hocc Kx Ky Hn. destruct (relinked_occupied _ _ _ _ R Hx) as (x0 & Hx0 & Sx), (relinked_occupied _ _ _ _ R Hy) as (y0 & Hy0 & Sy).
    rewrite (se_key _ _ Sx) in Kx. rewrite (se_key _ _ Sy) in Ky. by eapply (mo_unique _ _ _ I).
  - intros b head Hb. destruct (Hch b head Hb) as (chain & Hl & Hin). exists chain. split; [by apply linked_app|]. intros j. rewrite Hin. split.
    + intros (x & Hx & Ex). destruct (relinked_forth _ _ _ _ R Hx) as (y & Hy & S). exists y. rewrite (se_hash _ _ S). split; [by apply Hocc|done].
    + intros (x & Hx%Hocc & Ex). destruct (relinked_occupied _ _ _ _ R Hx) as (y & Hy & S). exists y. by rewrite <- (se_hash _ _ S).
  - rewrite E2, E3. destruct Hfr as (chain & Hl & Hin). exists chain. split; [by apply linked_app|]. intros j. rewrite Hin. split.
    + intros (x & Hx & H1 & H2 & H3). destruct (proj2 R j x Hx) as (y & Hy & S). exists y. rewrite (se_occupied _ _ S), (se_generation _ _ S). split; [by apply cell_app|done].
    + intros (x & [Hx|[Hj _]]%Hcase & H1 & H2 & H3); [|lia]. destruct (relinked_back _ _ _ _ R Hx) as (y & Hy & S). exists y. rewrite <- (se_occupied _ _ S), <- (se_generation _ _ S). done.
Qed.
End update.
