(* ===== verification/MapGrow.v ===== *)
(** * The growth of a managed map (src/runtime/managed_map.go)

    The objects that [ensureCapacity] allocates, the move of the entries to the new bucket table, and that a
    growth keeps the entries or, when it is refused, leaves everything as it was. *)

From S2P Require Import Prelude GoStd GoBytes Heap Allocator AllocatorSafe AllocatorRun MapStorage MapMemory MapRep MapShape MapTable MapUpdate.

#[local] Open Scope Z_scope.
#[local] Arguments Z.to_nat : simpl never.
#[local] Arguments Z.pow : simpl never.

(** ** Publications *)

(** The state after the objects [pub] were published, everything else being as in [a0]. *)
Record grown (n : Z) (a0 : allocator) (pub : list guestRef) (a : allocator) : Prop := {
  gr_ok : owner_ok n a;
  gr_old : forall q, q ∉ pub -> payload (mem a) q = payload (mem a0) q;
  gr_new : forall q, q ∈ pub -> payload (mem a0) q = None /\ is_Some (payload (mem a) q) /\ 0 < slot q < 2 ^ 32 /\ 0 < generation q < 2 ^ 32;
  gr_distinct : NoDup pub;
  gr_strides : forall id, stride_of a id = stride_of a0 id
}.

(** A refusal of the allocator. *)
Definition refusal (e : map_error) : Prop := exists x, e = AllocError x /\ x <> AllocPanic.

Lemma grown_refl n a : owner_ok n a -> grown n a [] a.
Proof. intros O. split; try done; [intros q Hq; by apply not_elem_of_nil in Hq|constructor]. Qed.

Lemma grown_le n m a0 pub a : grown n a0 pub a -> n <= m -> grown m a0 pub a.
Proof. intros [O G1 G2 G3 G4] Hle. split; try done. by eapply owner_le. Qed.

Lemma grown_live n a0 pub a q b : grown n a0 pub a -> payload (mem a0) q = Some b -> (q ∉ pub) /\ payload (mem a) q = Some b.
Proof. intros G Hq. assert (q ∉ pub) as Hn by (intros Hi; destruct (gr_new _ _ _ _ G q Hi) as [? _]; congruence). split; [done|]. by rewrite (gr_old _ _ _ _ G). Qed.

Lemma grown_wrote n a0 pub a q b a' : grown n a0 pub a -> q ∈ pub -> wrote n a q b a' -> grown n a0 pub a'.
Proof.
  intros G Hq W. split; [apply W| | |apply G|intros id; rewrite (wr_strides _ _ _ _ _ W); apply G].
  - intros r Hr. rewrite (wr_others _ _ _ _ _ W) by (by intros ->). by apply G.
  - intros r Hr. destruct (gr_new _ _ _ _ G r Hr) as (H1 & H2 & H3). split; [done|]. split; [|done]. destruct (decide (r = q)) as [->|Hne]; [rewrite (wr_at _ _ _ _ _ W); by eexists|by rewrite (wr_others _ _ _ _ _ W)].
Qed.

Lemma allocate_ok n a0 pub a layout stride count cost :
  grown n a0 pub a -> 0 <= n -> n + 2 <= 2 ^ 30 -> stride_of a0 layout = Some stride -> 0 <= count < 2 ^ 32 -> 0 <= cost < 2 ^ 64 -> 8 <= stride * count -> (stride * count) mod 8 = 0 ->
  match allocate layout count cost (pub, a) with
  | (Ok ref, (pub', a')) => pub' = pub ++ [ref] /\ fresh n a ref (stride * count) a' /\ grown (n + 2) a0 (pub ++ [ref]) a'
  | (Err e, (pub', a')) => refusal e /\ pub' = pub /\ grown (n + 2) a0 pub a'
  end.
Proof.
  intros G Hn Hn2 Hst Hc Hco Hs Hm. rewrite <- (gr_strides _ _ _ _ G) in Hst. pose proof (reserve_commit n a layout stride count cost (gr_ok _ _ _ _ G) Hn Hn2 Hst Hc Hco Hs Hm) as R.
  unfold allocate, lift. cbn [snd fst]. destruct ((let@ r := reserve layout count cost in commit r) a) as [[ref|e] a'].
  - split; [done|]. split; [done|]. assert (ref ∉ pub) as Hni.
    { intros Hi. destruct (gr_new _ _ _ _ G ref Hi) as (_ & [b Hb] & _). by rewrite (fr_before _ _ _ _ _ R) in Hb. }
    split; [apply R| | | |intros id; rewrite (fr_strides _ _ _ _ _ R); apply G].
    + intros q Hq. apply not_elem_of_app in Hq as [H1 H2]. apply not_elem_of_cons in H2 as [H2 _]. rewrite (fr_others _ _ _ _ _ R) by done. by apply G.
    + intros q [Hq|Hq]%elem_of_app.
      * destruct (gr_new _ _ _ _ G q Hq) as (H1 & H2 & H3). split; [done|]. split; [|done]. rewrite (fr_others _ _ _ _ _ R); [done|]. by intros ->.
      * apply list_elem_of_singleton in Hq as ->. split; [|split; [rewrite (fr_at _ _ _ _ _ R); by eexists|split; apply R]]. rewrite <- (gr_old _ _ _ _ G) by done. apply R.
    + apply NoDup_app. split; [apply G|]. split; [|apply NoDup_singleton]. intros q Hq Hx. apply list_elem_of_singleton in Hx as ->. done.
  - destruct R as (He & [Q1 Q2 Q3]). split; [by exists e|]. split; [done|]. split; [done| | |apply G|intros id; rewrite Q3; apply G].
    + intros q Hq. rewrite Q2. by apply G.
    + intros q Hq. rewrite Q2. by apply G.
Qed.

(** A step that is refused withdraws nothing it did not publish. *)
Definition withdrawable (n : Z) (a0 : allocator) (s : list guestRef * allocator) : Prop := grown n a0 (fst s) (snd s).

Lemma new_slabs_ok stride layout cost a0 : stride_of a0 layout = Some stride -> 8 <= 64 * stride -> 0 <= cost < 2 ^ 64 -> forall count n pub a,
  grown n a0 pub a -> 0 <= n -> n + 2 * Z.of_nat count <= 2 ^ 30 ->
  match new_slabs count layout cost (pub, a) with
  | (Ok slabs, (pub', a')) => pub' = pub ++ slabs /\ length slabs = count /\ grown (n + 2 * Z.of_nat count) a0 pub' a' /\
      (forall q, q ∈ slabs -> payload (mem a') q = Some (replicate (Z.to_nat (64 * stride)) 0)) /\ (forall q, q ∈ pub -> payload (mem a') q = payload (mem a) q)
  | (Err e, s') => refusal e /\ withdrawable (n + 2 * Z.of_nat count) a0 s'
  end.
Proof.
  intros Hst Hs Hc. induction count as [|count IH]; intros n pub a G Hn Hb; cbn [new_slabs].
  - unfold st_return. rewrite app_nil_r. split; [done|]. split; [done|]. split; [by eapply grown_le; [done|lia]|]. split; [intros q Hq; by apply not_elem_of_nil in Hq|done].
  - pose proof (allocate_ok n a0 pub a layout stride managedMapSlabEntries cost G Hn ltac:(lia) Hst ltac:(done) Hc) as A. unfold managedMapSlabEntries in *.
    rewrite (Z.mul_comm stride 64) in A. specialize (A Hs ltac:(replace (64 * stride) with (stride * 8 * 8) by lia; apply Z.mod_mul; lia)).
    unfold st_bind at 1. destruct (allocate layout 64 cost (pub, a)) as [[slab|e] [pub1 a1]].
    + destruct A as (-> & F & G1). specialize (IH (n + 2) _ a1 G1 ltac:(lia) ltac:(lia)). unfold st_bind. destruct (new_slabs count layout cost (pub ++ [slab], a1)) as [[rest|e] [pub2 a2]].
      * destruct IH as (-> & Hl & G2 & Hz & Hk). unfold st_return. rewrite <- app_assoc in *. cbn [app] in *. split; [done|]. split; [cbn; by rewrite Hl|]. split; [eapply grown_le; [done|lia]|].
        split.
        -- intros q [->|Hq]%elem_of_cons; [|by apply Hz]. rewrite Hk by (apply elem_of_app; right; left). apply F.
        -- intros q Hq. rewrite Hk by (apply elem_of_app; by left). apply F. intros ->. destruct (gr_new _ _ _ _ G slab Hq) as (_ & [b Hb2] & _). by rewrite (fr_before _ _ _ _ _ F) in Hb2.
      * destruct IH as [He W]. split; [done|]. unfold withdrawable in *. eapply grown_le; [done|lia].
    + destruct A as (He & -> & G1). split; [done|]. unfold withdrawable. cbn [fst snd]. eapply grown_le; [done|lia].
Qed.

(** ** The number of buckets *)

Lemma double_buckets_ok target : forall fuel k, 0 <= k < 32 -> k + Z.of_nat fuel = 32 ->
  match double_buckets fuel (2 ^ k) target with
  | Ok c => exists j, 0 <= j < 32 /\ c = 2 ^ j /\ target <= c
  | Err e => e = AllocError errManagedLimit
  end.
Proof.
  induction fuel as [|fuel IH]; intros k Hk Hf; [lia|]. cbn [double_buckets]. destruct (Z.leb_spec target (2 ^ k)) as [Hle|Hlt]; [by exists k|].
  pose proof (Z.pow_pos_nonneg 2 k ltac:(lia) ltac:(lia)). destruct (Z.ltb_spec ((2 ^ 32 - 1) / 2) (2 ^ k)) as [|Hs]; [done|]. change ((2 ^ 32 - 1) / 2) with (2 ^ 31 - 1) in Hs.
  assert (k < 31) as Hk31 by (apply (Z.pow_lt_mono_r_iff 2); lia).
  replace (u32 (2 ^ k * 2)) with (2 ^ (k + 1)) by (rewrite Z.pow_add_r by lia; by rewrite u32_id by lia). apply IH; lia.
Qed.

Lemma land_pow2 h j : 0 <= j -> Z.land h (2 ^ j - 1) = h mod 2 ^ j.
Proof. intros Hj. rewrite <- Z.land_ones by done. by rewrite Z.ones_equiv, <- Z.sub_1_r. Qed.

(** What a copy to the start of an object holds. *)
Lemma copied_window (src dst : gostring) m o k : 0 <= o -> 0 <= k -> o + k <= m -> m <= Z.of_nat (length src) -> m <= Z.of_nat (length dst) ->
  window (list_inserts 0 (window src 0 m) dst) o k = window src o k.
Proof.
  intros Ho Hk Hm Hs Hd. rewrite <- (Z.add_0_l o) at 1. rewrite <- (window_window _ 0 m) by lia. change 0%nat with (Z.to_nat 0).
  rewrite window_same by (rewrite ?window_length; lia). rewrite window_window by lia. done.
Qed.

Section growth.
Context {K V : Type} `{MapElements K V}.
Context (st : managedMapStorage) (L : layout_ok (prepared_layout st)).

#[local] Abbreviation l := (prepared_layout st).
#[local] Abbreviation map_ok := (map_ok st).

(** The map is in the state [s] and its new objects are published. *)
Context (n0 : Z) (a0 : allocator) (s : shape) (M0 : mem_rep st n0 a0 s) (N0 : 0 <= n0).

#[local] Abbreviation header := (sh_header s).
#[local] Abbreviation old_slabs := (Z.of_nat (length (sh_slabs s))).

Lemma grown_mem n pub a : grown n a0 pub a -> mem_rep st n a s.
Proof. intros G. eapply mem_frame; [done|apply G|]. intros q b _ Hq. by apply (grown_live _ _ _ _ _ _ G). Qed.

Lemma old_capacity : hcapacity header = 64 * old_slabs.
Proof. apply M0. Qed.

Lemma units_old n pub a ref unit_ bytes : grown n a0 pub a -> payload (mem a0) ref = Some bytes -> valid ref = true -> 0 < unit_ ->
  in_tx (units ref unit_) (pub, a) = (Ok (Z.of_nat (length bytes) / unit_), (pub, a)).
Proof.
  intros G Hp Hv Hu. apply (grown_live _ _ _ _ _ _ G) in Hp as [_ Hp]. destruct (reading_resolve n a ref bytes (gr_ok _ _ _ _ G) Hp) as (e & E & Es).
  unfold in_tx, units. rewrite Hv. cbn [snd fst]. rewrite (st_bind_ok _ _ _ _ _ E). unfold st_return. by rewrite Es.
Qed.

Lemma units_none pub a unit_ : in_tx (units (mkRef 0 0) unit_) (pub, a) = (Ok 0, (pub, a)).
Proof. done. Qed.

(** A directory with room for [slabs] references: the old one, or a new one. *)
Definition directory_for (slabs : Z) (a : allocator) (pub : list guestRef) (d : guestRef) : Prop :=
  (exists bytes, payload (mem a) d = Some bytes /\ 8 * slabs <= Z.of_nat (length bytes)) /\ dir_rep a d (sh_slabs s) /\
  ((sh_slabs s <> [] /\ d = hdirectory header /\ pub = []) \/ pub = [d]).

Lemma grow_directory_ok layout slabs : stride_of a0 layout = Some 8 -> n0 + 2 <= 2 ^ 30 -> old_slabs < slabs < 2 ^ 26 ->
  match grow_directory header layout slabs old_slabs ([], a0) with
  | (Ok d, (pub, a)) => grown (n0 + 2) a0 pub a /\ directory_for slabs a pub d
  | (Err e, s') => refusal e /\ withdrawable (n0 + 2) a0 s'
  end.
Proof.
  intros Hst Hn Hs. pose proof (grown_refl n0 a0 (mr_owner _ _ _ _ M0)) as G0. unfold grow_directory.
  assert (exists dc, 0 <= dc /\ in_tx (units (hdirectory header) 8) ([], a0) = (Ok dc, ([], a0)) /\ (sh_slabs s <> [] ->
    exists bytes, payload (mem a0) (hdirectory header) = Some bytes /\ Z.of_nat (length bytes) = 8 * dc /\ old_slabs <= dc) /\ (sh_slabs s = [] -> dc = 0)) as (dc & Hdc & Eu & Hd & Hd0).
  { destruct (decide (sh_slabs s = [])) as [E|Hne].
    - destruct (mr_empty _ _ _ _ M0 E) as (-> & _). exists 0. split; [lia|]. by split; [apply units_none|].
    - destruct (mr_full _ _ _ _ M0 Hne) as (Hv & _ & (bytes & Hp & Hm & Hl & _) & _). exists (Z.of_nat (length bytes) / 8). split; [apply Z.div_pos; lia|]. split; [by apply (units_old _ _ _ _ _ _ G0)|].
      split; [|done]. intros _. exists bytes. split; [done|]. pose proof (Z.div_mod (Z.of_nat (length bytes)) 8 ltac:(lia)). lia. }
  rewrite (st_bind_ok _ _ _ _ _ Eu). destruct (Z.leb_spec slabs dc) as [Hle|Hlt].
  - assert (sh_slabs s <> []) as Hne by (intros E; rewrite Hd0 in Hle by done; lia). destruct (Hd Hne) as (bytes & Hp & Hb & Ho). destruct (mr_full _ _ _ _ M0 Hne) as (_ & _ & D & _).
    split; [eapply grown_le; [done|lia]|]. split; [|split; [done|by left]]. exists bytes. split; [done|lia].
  - destruct (Z.ltb_spec (2 ^ 32 - 1) (dc * 2)) as [|Hlim]; [split; [by exists errManagedLimit|]; unfold withdrawable; cbn; eapply grown_le; [done|lia]|].
    set (count := Z.max 8 (Z.max slabs (dc * 2))). unfold StorageRecordHeaderBytes, StorageReferenceBytes.
    pose proof (allocate_ok n0 a0 [] a0 layout 8 count (16 + count * 8) G0 N0 Hn Hst ltac:(lia) ltac:(lia) ltac:(lia)) as A.
    rewrite (Z.mul_comm 8 count) in A. specialize (A ltac:(apply Z.mod_mul; lia)).
    destruct (allocate layout count (16 + count * 8) ([], a0)) as [[d|e] [pub a1]] eqn:Ea.
    2: { destruct A as (He & -> & G1). rewrite (st_bind_err _ _ _ _ _ Ea). done. }
    destruct A as (-> & F & G1). rewrite (st_bind_ok _ _ _ _ _ Ea). cbn [app] in *. destruct (decide (sh_slabs s = [])) as [E|Hne].
    + rewrite E. cbn [length Z.of_nat Z.eqb]. erewrite st_bind_ok by done. split; [done|]. split; [eexists; split; [apply F|rewrite length_replicate; lia]|]. split; [|by right].
      rewrite E. eexists. split; [apply F|]. rewrite length_replicate. split; [rewrite Z2Nat.id by lia; apply Z.mod_mul; lia|]. split; [cbn; lia|done].
    + destruct (Hd Hne) as (bytes & Hp & Hb & Ho). rewrite (proj2 (Z.eqb_neq _ _)) by (destruct (sh_slabs s); [done|cbn; lia]).
      assert (payload (mem a1) (hdirectory header) = Some bytes) as Hp1 by (by apply (grown_live _ _ _ _ _ _ G1)).
      destruct (writing_copy (n0 + 2) a1 d _ (hdirectory header) bytes (old_slabs * 8) (gr_ok _ _ _ _ G1) (fr_at _ _ _ _ _ F) Hp1) as (a2 & Ew & W); [lia|rewrite length_replicate; lia|lia|].
      erewrite st_bind_ok; [|unfold in_tx; cbn [snd fst]; by rewrite Ew]. assert (d ∈ [d]) as Hin by left. split; [by eapply grown_wrote|].
      split; [eexists; split; [apply W|rewrite length_inserts, length_replicate; lia]|]. split; [|by right].
      destruct (mr_full _ _ _ _ M0 Hne) as (_ & _ & (bytes' & Hp' & _ & Hl & Hw) & _). assert (bytes' = bytes) as -> by congruence.
      eexists. split; [apply W|]. rewrite length_inserts, length_replicate. split; [rewrite Z2Nat.id by lia; apply Z.mod_mul; lia|]. split; [lia|].
      intros i slab Hi. destruct (Hw i slab Hi) as [E2 R]. split; [|done]. rewrite <- E2. pose proof (lookup_lt_Some _ _ _ Hi).
      apply copied_window; rewrite ?length_replicate; lia.
Qed.

(** A bucket table for [capacity] entries: the old one, or a new and empty one of a power of two. *)
Definition buckets_for (pub pub' : list guestRef) (a : allocator) (table : guestRef * Z) : Prop :=
  (sh_slabs s <> [] /\ fst table = hbuckets header /\ pub' = pub) \/
  (pub' = pub ++ [fst table] /\ table_rep a (fst table) (replicate (Z.to_nat (snd table)) 0) /\ 0 < 4 * snd table < 2 ^ 32 /\ exists j, 0 <= j /\ snd table = 2 ^ j).

Lemma grow_buckets_ok n pub a layout capacity : grown n a0 pub a -> 0 <= n -> n + 2 <= 2 ^ 30 -> stride_of a0 layout = Some 4 -> 1 <= capacity ->
  match grow_buckets header layout capacity (pub, a) with
  | (Ok table, (pub', a')) => grown (n + 2) a0 pub' a' /\ buckets_for pub pub' a' table /\ forall q, q ∈ pub -> payload (mem a') q = payload (mem a) q
  | (Err e, s') => refusal e /\ withdrawable (n + 2) a0 s'
  end.
Proof.
  intros G Hn Hn2 Hst Hc. assert (grown (n + 2) a0 pub a) as G' by (eapply grown_le; [done|lia]). unfold grow_buckets.
  assert (exists bc, in_tx (units (hbuckets header) 4) (pub, a) = (Ok bc, (pub, a)) /\ (sh_slabs s = [] -> bc = 0)) as (bc & Eu & Hb0).
  { destruct (decide (sh_slabs s = [])) as [E|Hne]; [destruct (mr_empty _ _ _ _ M0 E) as (_ & -> & _); exists 0; by split; [apply units_none|]|].
    destruct (mr_full _ _ _ _ M0 Hne) as (_ & Hv & _ & (bytes & Hp & _) & _). eexists. split; [by eapply units_old|done]. }
  rewrite (st_bind_ok _ _ _ _ _ Eu). destruct (Z.ltb_spec (2 ^ 32 - 1) (capacity * 2)) as [|Hlim]; [split; [by exists errManagedLimit|done]|]. destruct (Z.leb_spec (capacity * 2) bc) as [Hle|Hlt].
  { split; [done|]. split; [|done]. left. split; [|done]. intros E. rewrite Hb0 in Hle by done. lia. }
  pose proof (double_buckets_ok (capacity * 2) 32 0 ltac:(lia) ltac:(lia)) as D. change (2 ^ 0) with 1 in D. destruct (double_buckets 32 1 (capacity * 2)) as [c|e] eqn:Ed.
  2: { erewrite st_bind_err; [|unfold in_tx, of_result; done]. subst e. split; [by exists errManagedLimit|done]. }
  erewrite st_bind_ok; [|unfold in_tx, of_result; done]. cbn [fst snd]. destruct D as (j & Hj & -> & Ht). assert (0 < j) as Hj1 by (apply (Z.pow_lt_mono_r_iff 2 0 j); lia).
  assert (2 ^ j = 2 * 2 ^ (j - 1)) as Ep by (rewrite <- Z.pow_succ_r by lia; f_equal; lia). assert (2 ^ j < 2 ^ 32) as Hp by (apply Z.pow_lt_mono_r; lia).
  unfold StorageRecordHeaderBytes, StorageMapBucketBytes.
  pose proof (allocate_ok n a0 pub a layout 4 (2 ^ j) (16 + 2 ^ j * 4) G Hn Hn2 Hst ltac:(lia) ltac:(lia) ltac:(lia)) as A. specialize (A ltac:(rewrite Ep, Z.mul_assoc, Z.mul_comm; apply Z.mod_mul; lia)).
  destruct (allocate layout (2 ^ j) (16 + 2 ^ j * 4) (pub, a)) as [[t|e] [pub1 a1]] eqn:Ea.
  2: { destruct A as (He & -> & G1). rewrite (st_bind_err _ _ _ _ _ Ea). done. }
  destruct A as (-> & F & G1). rewrite (st_bind_ok _ _ _ _ _ Ea). cbn [st_return]. split; [done|]. split.
  - right. cbn [fst snd]. split; [done|]. split; [|split; [pose proof (fr_size _ _ _ _ _ F); lia|exists j; split; [lia|done]]].
    eexists. split; [apply F|]. rewrite !length_replicate. split; [lia|]. intros b w [-> Hb]%lookup_replicate. split; [|lia].
    unfold window. rewrite drop_replicate, take_replicate. rewrite Nat.min_l by lia. done.
  - intros q Hq. apply F. intros ->. destruct (gr_new _ _ _ _ G t Hq) as (_ & [b Hb] & _). by rewrite (fr_before _ _ _ _ _ F) in Hb.
Qed.

(** ** Moving the entries *)

Record rehashed (n : Z) (a1 : allocator) (t : guestRef) (size index : Z) (a : allocator) (cells : list gostring) (table : list Z) : Prop := {
  rh_mem : mem_rep st n a (with_cells cells s);
  rh_table : table_rep a t table;
  rh_size : Z.of_nat (length table) = size;
  rh_cells : relinked st (sh_cells s) cells;
  rh_chains : forall b head, table !! b = Some head -> exists chain, linked cells head chain /\
    forall i, i ∈ chain <-> i < index /\ exists c, occupied_cell (sh_cells s) i c /\ c_hash c mod size = Z.of_nat b;
  rh_free : free_list (sh_cells s) cells (hcreated header) (hfree header);
  rh_others : forall q, q ∉ sh_slabs s -> q <> t -> payload (mem a) q = payload (mem a1) q;
  rh_strides : forall id, stride_of a id = stride_of a1 id
}.

Lemma rehash_ok n a1 t size entries j : map_ok s entries -> t ∉ footprint st s -> 0 <= j -> size = 2 ^ j -> 0 < 4 * size < 2 ^ 32 -> forall count index a cells table,
  rehashed n a1 t size index a cells table -> 1 <= index -> index + Z.of_nat count = hcreated header + 1 ->
  exists a' cells' table', rehash count st header t size index a = (Ok tt, a') /\ rehashed n a1 t size (hcreated header + 1) a' cells' table'.
Proof.
  intros I Ht Hj Hsz Hr. pose proof (offsets_ok st L) as (O1 & _). induction count as [|count IH]; intros index a cells table R Hi Hc; cbn [rehash].
  - exists a, cells, table. split; [done|]. by replace (hcreated header + 1) with index by lia.
  - pose proof (rh_mem _ _ _ _ _ _ _ _ R) as M. pose proof (rh_cells _ _ _ _ _ _ _ _ R) as Rl. pose proof (mo_created _ _ _ I) as Hcr. pose proof (mr_slabs _ _ _ _ M0) as [Hlen _]. rewrite old_capacity in Hcr.
    destruct (cell_at_is (sh_cells s) index ltac:(lia)) as [c Hcell]. destruct (proj2 Rl index c Hcell) as (d & Hd & S).
    destruct (mem_location st L n a (with_cells cells s) index d M Hd) as (at_ & P & E). cbn [with_cells sh_header] in E. rewrite (st_bind_ok _ _ _ _ _ E).
    erewrite st_bind_ok; [|apply (mem_read0 st L n a _ index at_ d managedMapMetadata M P Hd); [done|unfold managedMapMetadata; lia]]. unfold managedMapMetadata. rewrite !field_window by lia.
    fold (c_occupied d) (c_hash d). rewrite (se_occupied _ _ _ S), (se_hash _ _ _ S). destruct (Z.eqb_spec (c_occupied c) 0) as [Ho|Ho].
    + erewrite st_bind_ok by done. apply (IH (index + 1) a cells table); [|lia|lia]. destruct R as [R1 R2 R3 R4 R5 R6 R7 R8]. split; try done. intros b head Hb. destruct (R5 b head Hb) as (chain & Hl & Hin).
      exists chain. split; [done|]. intros i. rewrite Hin. split; [intros [? ?]; split; [lia|done]|]. intros [Hlt (x & Hx & Ex)]. split; [|by exists x].
      destruct (decide (i = index)) as [->|]; [|lia]. destruct Hx as [Hx Hxo]. congruence.
    + rewrite Hsz, land_pow2 by done. rewrite <- Hsz. pose proof (Z.mod_pos_bound (c_hash c) size ltac:(lia)) as Hmb. set (b := Z.to_nat (c_hash c mod size)). replace (c_hash c mod size) with (Z.of_nat b) by lia.
      pose proof (rh_size _ _ _ _ _ _ _ _ R) as Hts. destruct (lookup_lt_is_Some_2 table b ltac:(lia)) as [head Hb].
      pose proof (table_word n a t table b head (mr_owner _ _ _ _ M) (rh_table _ _ _ _ _ _ _ _ R) Hb ltac:(lia)) as Ew.
      assert (0 <= head < 2 ^ 32) as Hhead by (destruct (rh_table _ _ _ _ _ _ _ _ R) as (bs & _ & _ & Hw); by apply (Hw b head)).
      assert (sh_slabs s <> []) as Hfull by (by destruct (nonempty_cell _ _ _ _ _ _ M Hd)). destruct (distinct_slabs _ _ _ _ M Hfull) as (Dsl & _).
      destruct (cell_set_word l L n a (sh_slabs s) cells index at_ d 12 head (mr_owner _ _ _ _ M) (mr_slabs _ _ _ _ M) Dsl P Hd ltac:(lia) ltac:(lia)) as (a2 & b2 & Ew2 & W2 & S2).
      destruct (mem_put st n a (with_cells cells s) index at_ _ b2 a2 M Hfull P W2 S2) as [M2 K2].
      assert (fst at_ ∈ sh_slabs s) as Hat by (destruct P as (_ & P & _); by eapply list_elem_of_lookup_2).
      assert (table_rep a2 t table) as T2 by (eapply table_frame; [|apply R]; by apply K2).
      destruct (table_set n a2 t table b index (mr_owner _ _ _ _ M2) T2 ltac:(lia) ltac:(lia)) as (a3 & bs & Ew3 & W3 & T3).
      { pose proof (hw_capacity _ (mr_words _ _ _ _ M0)). rewrite old_capacity in *. lia. }
      erewrite st_bind_ok; [|erewrite st_bind_ok by exact Ew; erewrite st_bind_ok by exact Ew2; exact Ew3].
      apply (IH (index + 1) a3 (put_cell index (set_word 12 head d) cells) (<[b := index]> table)); [|lia|lia].
      assert (Z.of_nat (length d) = entryStride l) as Hld by (by destruct (place_bytes l L _ _ _ _ _ _ (mr_slabs _ _ _ _ M) P Hd) as (_ & _ & _ & _ & _ & _ & ?)).
      assert (c_next (set_word 12 head d) = head) as Hnext by (apply field_set; lia).
      split.
      * apply (mem_frame st n n a2); [exact M2|apply W3|]. intros q bytes Hq Hp. rewrite (wr_others _ _ _ _ _ W3); [done|]. intros ->. done.
      * done.
      * by rewrite length_insert.
      * eapply relinked_put; [done|done|by apply set_next_same].
      * intros b' head' Hb'. destruct (decide (b' = b)) as [->|Hne].
        -- rewrite list_lookup_insert_eq in Hb' by lia. injection Hb' as <-. destruct (rh_chains _ _ _ _ _ _ _ _ R b head Hb) as (chain & Hl & Hin).
           exists (index :: chain). split; [eapply linked_push; [done| |done|done]; intros X; apply Hin in X; lia|]. intros i. rewrite elem_of_cons, Hin. split.
           ++ intros [->|[? ?]]; [|split; [lia|done]]. split; [lia|]. exists c. split; [done|lia].
           ++ intros [Hlt Hx]. destruct (decide (i = index)); [by left|right]. split; [lia|done].
        -- rewrite list_lookup_insert_ne in Hb' by done. destruct (rh_chains _ _ _ _ _ _ _ _ R b' head' Hb') as (chain & Hl & Hin).
           exists chain. split; [eapply linked_put; [done| |done]; intros X; apply Hin in X; lia|]. intros i. rewrite Hin. split; [intros [? ?]; split; [lia|done]|].
           intros [Hlt (x & Hx & Ex)]. split; [|by exists x]. destruct (decide (i = index)) as [->|]; [|lia]. destruct Hx as [Hx _]. assert (x = c) as -> by congruence. lia.
      * destruct (rh_free _ _ _ _ _ _ _ _ R) as (chain & Hl & Hin). exists chain. split; [|done]. eapply linked_put; [done| |done]. intros X. apply Hin in X as (x & Hx & _ & Hxo & _). congruence.
      * intros q Hq Hqt. rewrite (wr_others _ _ _ _ _ W3) by done. rewrite (wr_others _ _ _ _ _ W2) by (by intros ->). by apply R.
      * intros id. rewrite (wr_strides _ _ _ _ _ W3), (wr_strides _ _ _ _ _ W2). apply R.
Qed.

Lemma move_ok n pub pub' a table entries : map_ok s entries -> grown n a0 pub' a -> buckets_for pub pub' a table ->
  exists a' cells' table', 
    (if bool_decide (fst table = hbuckets header) then st_return tt else in_tx (rehash (Z.to_nat (hcreated header)) st header (fst table) (snd table) 1)) (pub', a) = (Ok tt, (pub', a')) /\
    mem_rep st n a' (with_cells cells' s) /\ table_rep a' (fst table) table' /\ 0 < 4 * Z.of_nat (length table') < 2 ^ 32 /\
    relinked st (sh_cells s) cells' /\ chains_over (sh_cells s) cells' table' /\ free_list (sh_cells s) cells' (hcreated header) (hfree header) /\
    (forall q, q ∉ sh_slabs s -> q <> fst table -> payload (mem a') q = payload (mem a) q) /\ (forall id, stride_of a' id = stride_of a id).
Proof.
  intros I G T. pose proof (grown_mem _ _ _ G) as M. destruct table as [t c]. cbn [fst snd]. unfold buckets_for in T. cbn [fst snd] in T. destruct T as [(Hne & -> & _)|(-> & T & Hr & j & Hj & Hc)].
  - rewrite bool_decide_true by done. exists a, (sh_cells s), (sh_table s). split; [done|]. split; [by destruct s|]. destruct (mr_full _ _ _ _ M Hne) as (_ & _ & _ & T & R & _).
    split; [done|]. split; [done|]. split; [apply relinked_refl|]. split; [exact (mo_chains _ _ _ I)|]. split; [by eapply free_list_same|done].
  - destruct (gr_new _ _ _ _ G t ltac:(apply elem_of_app; right; left)) as (Hn & _ & Hs & _).
    assert (forall q, is_Some (payload (mem a0) q) -> t <> q) as Hlive by (intros q [b Hb] ->; congruence).
    assert (t ∉ footprint st s) as Htf.
    { unfold footprint. rewrite !not_elem_of_cons. assert (forall i slab, sh_slabs s !! i = Some slab -> t <> slab) as Hsl.
      { intros i slab Hi. apply Hlive. destruct (mr_slabs _ _ _ _ M0) as [_ X]. destruct (X i slab Hi) as (b & Hb & _). by exists b. }
      assert (t ∉ sh_slabs s) as Hts by (intros X; apply list_elem_of_lookup in X as [i Hi]; by apply (Hsl i t)).
      split; [apply Hlive; rewrite (mr_identity _ _ _ _ M0); by eexists|].
      destruct (decide (sh_slabs s = [])) as [E|Hne].
      - destruct (mr_empty _ _ _ _ M0 E) as (-> & -> & _). split_and!; try done; intros ->; cbn in Hs; lia.
      - destruct (mr_full _ _ _ _ M0 Hne) as (_ & _ & (b1 & H1 & _) & (b2 & H2 & _) & _). split_and!; try done; apply Hlive; by eexists. }
    rewrite bool_decide_false by (intros ->; apply Htf; do 2 right; left).
    destruct (rehash_ok n a t c entries j I Htf Hj Hc Hr (Z.to_nat (hcreated header)) 1 a (sh_cells s) (replicate (Z.to_nat c) 0)) as (a' & cells' & table' & E & R).
    + split; try done.
      * by destruct s.
      * rewrite length_replicate. lia.
      * apply relinked_refl.
      * intros b head [-> Hb]%lookup_replicate. exists []. split; [constructor|]. intros i. split; [intros X; by apply not_elem_of_nil in X|]. intros [Hi (x & [Hx _] & _)]. apply cell_at_Some in Hx as [Hx _]. lia.
      * by eapply free_list_same.
    + lia.
    + pose proof (hw_created _ (mr_words _ _ _ _ M0)). lia.
    + exists a', cells', table'. split; [unfold in_tx; cbn [fst snd]; by rewrite E|]. destruct R as [R1 R2 R3 R4 R5 R6 R7 R8]. split_and!; try done; [lia|lia|].
      intros b head Hb. destruct (R5 b head Hb) as (chain & Hl & Hin). exists chain. split; [done|]. intros i. rewrite Hin, R3. split; [by intros [_ ?]|]. intros (x & Hx & Ex). split; [|by exists x].
      destruct (mo_occupied _ _ _ I i x Hx). lia.
Qed.

(** ** The new slabs *)

Lemma link_slabs_ok n d : forall fresh_slabs a done_ bytes,
  owner_ok n a -> payload (mem a) d = Some bytes -> 8 * (Z.of_nat (length done_) + Z.of_nat (length fresh_slabs)) <= Z.of_nat (length bytes) -> Z.of_nat (length done_) + Z.of_nat (length fresh_slabs) < 2 ^ 26 ->
  dir_rep a d done_ -> (forall q, q ∈ fresh_slabs -> 0 < slot q < 2 ^ 32 /\ 0 < generation q < 2 ^ 32) ->
  exists a', link_slabs d (Z.of_nat (length done_)) fresh_slabs a = (Ok tt, a') /\ owner_ok n a' /\ dir_rep a' d (done_ ++ fresh_slabs) /\
    (forall q, q <> d -> payload (mem a') q = payload (mem a) q) /\ (forall id, stride_of a' id = stride_of a id).
Proof.
  induction fresh_slabs as [|slab rest IH]; intros a done_ bytes O Hp Hl Hm D Hr; cbn [link_slabs].
  - exists a. rewrite app_nil_r. done.
  - cbn [length] in Hl, Hm. destruct (Hr slab ltac:(left)) as [Hs1 Hs2]. rewrite u32_id by lia.
    destruct (writing_write n a d bytes (Z.of_nat (length done_) * 8) (le_bytes 8 (slot slab + generation slab * 2 ^ 32)) O Hp) as (a1 & E & W); [lia|rewrite le_bytes_length; lia|].
    erewrite st_bind_ok; [|unfold writing, writeReference, Heap.writeWord; rewrite pack_reference by lia; exact E].
    replace (Z.of_nat (length done_) + 1) with (Z.of_nat (length (done_ ++ [slab]))) by (rewrite length_app; cbn; lia).
    assert (Z.of_nat (length (done_ ++ [slab])) = Z.of_nat (length done_) + 1) as Hla by (rewrite length_app; cbn; lia).
    destruct (IH a1 (done_ ++ [slab]) _ (wr_ok _ _ _ _ _ W) (wr_at _ _ _ _ _ W)) as (a2 & E2 & O2 & D2 & P2 & S2); [rewrite length_inserts; lia|lia| |intros q Hq; apply Hr; by right|].
    + destruct D as (bytes' & Hp' & Hm8 & Hld & Hw). assert (bytes' = bytes) as -> by congruence. eexists. split; [apply W|]. rewrite length_inserts. split; [done|]. split; [lia|].
      intros i x Hi. apply lookup_app_Some in Hi as [Hi|[Hge Hi]].
      * destruct (Hw i x Hi) as [<- Hx]. split; [|done]. pose proof (lookup_lt_Some _ _ _ Hi). apply window_other; [lia|lia|left; lia].
      * apply list_lookup_singleton_Some in Hi as [Hi <-]. split; [|lia]. replace (8 * Z.of_nat i) with (Z.of_nat (length done_) * 8) by lia. apply window_same; rewrite ?le_bytes_length; lia.
    + exists a2. rewrite <- app_assoc in D2. split_and!; try done; [intros q Hq; rewrite P2, (wr_others _ _ _ _ _ W) by done; done|intros id; rewrite S2; apply W].
Qed.

Lemma slabs_extend a slabs cells more : slabs_rep l a slabs cells -> (forall q, q ∈ more -> payload (mem a) q = Some (replicate (Z.to_nat (64 * entryStride l)) 0)) ->
  slabs_rep l a (slabs ++ more) (cells ++ replicate (64 * length more) (entry_buffer l)).
Proof.
  intros [Hl Hs] Hm. pose proof (stride_bounds l L). split; [rewrite !length_app, length_replicate; lia|]. intros i slab Hi. apply lookup_app_Some in Hi as [Hi|[Hge Hi]].
  - destruct (Hs i slab Hi) as (bytes & Hp & Hb & Hk). exists bytes. split; [done|]. split; [done|]. intros k Hk64. rewrite lookup_app_l; [by apply Hk|]. pose proof (lookup_lt_Some _ _ _ Hi). lia.
  - eexists. split; [apply Hm; by eapply list_elem_of_lookup_2|]. rewrite length_replicate. split; [lia|]. intros k Hk64. pose proof (lookup_lt_Some _ _ _ Hi). rewrite lookup_app_r by lia.
    rewrite lookup_replicate_2 by lia. f_equal. unfold entry_buffer, window. rewrite drop_replicate, take_replicate. f_equal. nia.
Qed.

(** ** The whole growth *)

(** What the map does not own survives and stays outside of it. *)
Definition spared (s : shape) (a : allocator) (s' : shape) (a' : allocator) : Prop :=
  forall q b, q ∉ footprint st s -> payload (mem a) q = Some b -> payload (mem a') q = Some b /\ (q ∉ footprint st s').

(** The same entries, with room for [index]. *)
Record enlarged (index : Z) (s s' : shape) : Prop := {
  en_room : index <= hcapacity (sh_header s');
  en_count : hcount (sh_header s') = hcount (sh_header s);
  en_created : hcreated (sh_header s') = hcreated (sh_header s);
  en_free : hfree (sh_header s') = hfree (sh_header s);
  en_cells : forall i c, cell_at (sh_cells s) i = Some c -> exists c', cell_at (sh_cells s') i = Some c' /\ same_entry st c c'
}.

(** The objects of the larger map are distinct. *)
Lemma footprint_grown d t more pubd pubt : 
  (sh_slabs s <> [] /\ d = hdirectory header /\ pubd = [] \/ pubd = [d]) -> (sh_slabs s <> [] /\ t = hbuckets header /\ pubt = [] \/ pubt = [t]) ->
  NoDup (pubd ++ more ++ pubt) -> (forall q, q ∈ pubd ++ more ++ pubt -> payload (mem a0) q = None) ->
  NoDup (identity st :: d :: t :: sh_slabs s ++ more).
Proof.
  intros Hd Ht Hnd Hnew. assert (forall q, q ∈ sh_slabs s -> is_Some (payload (mem a0) q)) as Hsl.
  { intros q Hq. apply list_elem_of_lookup in Hq as [i Hi]. destruct (mr_slabs _ _ _ _ M0) as [_ X]. destruct (X i q Hi) as (b & Hb & _). by exists b. }
  assert (is_Some (payload (mem a0) (identity st))) as Hid by (rewrite (mr_identity _ _ _ _ M0); by eexists).
  assert (sh_slabs s <> [] -> is_Some (payload (mem a0) (hdirectory header)) /\ is_Some (payload (mem a0) (hbuckets header))) as Hdb.
  { intros Hne. destruct (mr_full _ _ _ _ M0 Hne) as (_ & _ & (b1 & H1 & _) & (b2 & H2 & _) & _). split; by eexists. }
  assert (forall q, is_Some (payload (mem a0) q) -> q ∉ pubd ++ more ++ pubt) as Hout by (intros q [b Hb] Hq; apply Hnew in Hq; congruence).
  assert (NoDup (sh_slabs s)) as Hnds by (destruct (decide (sh_slabs s = [])) as [->|Hne]; [constructor|by apply (distinct_slabs _ _ _ _ M0)]).
  assert (sh_slabs s <> [] -> (identity st ∉ sh_slabs s) /\ (hdirectory header ∉ sh_slabs s) /\ (hbuckets header ∉ sh_slabs s) /\ identity st <> hdirectory header /\ identity st <> hbuckets header /\
    hdirectory header <> hbuckets header) as Hdist by (intros Hne; apply (distinct_slabs _ _ _ _ M0 Hne)).
  assert (identity st ∉ sh_slabs s) as Hids by (destruct (decide (sh_slabs s = [])) as [->|Hne]; [apply not_elem_of_nil|by apply Hdist]).
  apply NoDup_app in Hnd as (N1 & N2 & N3). apply NoDup_app in N3 as (N3 & N4 & N5). 
  assert (forall q, q ∈ pubd ++ more ++ pubt -> q <> identity st /\ q ∉ sh_slabs s) as Hfr by (intros q Hq; split; [intros ->; by apply (Hout (identity st))|intros X; by apply (Hout q (Hsl q X))]).
  assert (forall q, q ∈ pubd ++ more ++ pubt -> sh_slabs s <> [] -> q <> hdirectory header /\ q <> hbuckets header) as Hfr2.
  { intros q Hq Hne. destruct (Hdb Hne) as [X1 X2]. split; intros ->; [by apply (Hout _ X1)|by apply (Hout _ X2)]. }
  rewrite !NoDup_cons, !not_elem_of_cons, !not_elem_of_app, NoDup_app.
  setoid_rewrite elem_of_app in Hfr. setoid_rewrite elem_of_app in Hfr. setoid_rewrite elem_of_app in Hfr2. setoid_rewrite elem_of_app in Hfr2. setoid_rewrite elem_of_app in N2.
  assert (identity st ∉ more) as Him by (intros X; by destruct (Hfr _ (or_intror (or_introl X)))).
  assert (forall q, q ∈ sh_slabs s -> q ∉ more) as Hsm by (intros q Hq Hq2; by destruct (Hfr q (or_intror (or_introl Hq2))) as [_ ?]).
  destruct Hd as [(Hne & -> & ->)| ->], Ht as [(Hne2 & -> & ->)| ->].
  - destruct (Hdist Hne) as (D1 & D2 & D3 & D4 & D5 & D6). split_and!; try done; intros X; by destruct (Hfr2 _ (or_intror (or_introl X)) Hne).
  - destruct (Hdist Hne) as (D1 & D2 & D3 & D4 & D5 & D6). assert (t ∈ [t]) as Ht by left. destruct (Hfr t (or_intror (or_intror Ht))) as [T1 T2]. destruct (Hfr2 t (or_intror (or_intror Ht)) Hne) as [T3 T4].
    split_and!; try done; try (intros X; by destruct (Hfr2 _ (or_intror (or_introl X)) Hne)). intros X. by apply (N4 t).
  - destruct (Hdist Hne2) as (D1 & D2 & D3 & D4 & D5 & D6). assert (d ∈ [d]) as Hd by left. destruct (Hfr d (or_introl Hd)) as [T1 T2]. destruct (Hfr2 d (or_introl Hd) Hne2) as [T3 T4].
    split_and!; try done; try (intros X; by destruct (Hfr2 _ (or_intror (or_introl X)) Hne2)). intros X. apply (N2 d Hd). by left.
  - assert (d ∈ [d]) as Hd by left. assert (t ∈ [t]) as Ht by left. destruct (Hfr d (or_introl Hd)) as [T1 T2]. destruct (Hfr t (or_intror (or_intror Ht))) as [T3 T4].
    split_and!; try done.
    + intros ->. apply (N2 t Hd). by right.
    + intros X. apply (N2 d Hd). by left.
    + intros X. by apply (N4 t).
Qed.

(** The slabs that a growth to [index] adds. *)
Definition slabs_for (index : Z) : Z := (index + 63) / 64.

(** The memory after the directory, the slabs, the table and the header are in place. *)
Lemma installed n d t more pubd pubt a cells table a1 a2 h' entries index :
  map_ok s entries -> grown n a0 (pubd ++ more ++ pubt) a ->
  (sh_slabs s <> [] /\ d = hdirectory header /\ pubd = [] \/ pubd = [d]) -> (sh_slabs s <> [] /\ t = hbuckets header /\ pubt = [] \/ pubt = [t]) ->
  (forall q, q ∈ more -> payload (mem a) q = Some (replicate (Z.to_nat (64 * entryStride l)) 0)) -> more <> [] ->
  mem_rep st n a1 (with_cells cells s) -> table_rep a1 t table -> 0 < 4 * Z.of_nat (length table) < 2 ^ 32 ->
  relinked st (sh_cells s) cells -> chains_over (sh_cells s) cells table -> free_list (sh_cells s) cells (hcreated header) (hfree header) ->
  (forall q, q ∉ sh_slabs s -> q <> t -> payload (mem a1) q = payload (mem a) q) ->
  owner_ok n a2 -> dir_rep a2 d (sh_slabs s ++ more) -> (forall q, q <> d -> payload (mem a2) q = payload (mem a1) q) ->
  h' = mkHeader d t (hcount header) (hcreated header) (64 * (old_slabs + Z.of_nat (length more))) (hfree header) -> index <= hcapacity h' < 2 ^ 32 ->
  exists a3 s', writeHeader st h' a2 = (Ok tt, a3) /\ sh_header s' = h' /\ mem_rep st n a3 s' /\ map_ok s' entries /\ enlarged index s s' /\ spared s a0 s' a3 /\
    (forall id, stride_of a3 id = stride_of a2 id).
Proof.
  intros I G Hd Ht Hz Hmore M1 T1 Hr R Hch Hfr P1 O2 D2 P2 Eh Hcap.
  assert (forall q, q ∈ pubd ++ more ++ pubt -> payload (mem a0) q = None /\ 0 < slot q < 2 ^ 32 /\ 0 < generation q < 2 ^ 32) as Hnew by (intros q Hq; destruct (gr_new _ _ _ _ G q Hq) as (? & _ & ?); done).
  pose proof (footprint_grown d t more pubd pubt Hd Ht (gr_distinct _ _ _ _ G) (fun q Hq => proj1 (Hnew q Hq))) as Hnd.
  assert (forall q, q ∈ footprint st s \/ payload (mem a0) q = None -> q ∉ footprint st s -> payload (mem a0) q = None) as Hout by (intros q [?|?] ?; done).
  pose proof Hnd as Hnd'. rewrite !NoDup_cons, !not_elem_of_cons in Hnd'. destruct Hnd' as ((Nid & Nit & Nis) & (Ndt & Nds) & Nts & Nss).
  set (s' := mkShape h' (sh_slabs s ++ more) (cells ++ replicate (64 * length more) (entry_buffer l)) table).
  assert (forall q, q ∈ more -> payload (mem a2) q = Some (replicate (Z.to_nat (64 * entryStride l)) 0)) as Hz2.
  { intros q Hq. assert (q <> d) by (intros ->; apply Nds, elem_of_app; by right). assert (q <> t) by (intros ->; apply Nts, elem_of_app; by right). rewrite P2 by done.
    rewrite P1; [by apply Hz| |done]. intros X. apply NoDup_app in Nss as (_ & Nss & _). by apply (Nss q). }
  assert (slabs_rep l a2 (sh_slabs s ++ more) (sh_cells s')) as S2.
  { apply slabs_extend; [|done]. eapply slabs_frame; [|apply M1]. intros q Hq. apply P2. intros ->. apply Nds, elem_of_app. by left. }
  assert (table_rep a2 t table) as T2 by (eapply table_frame; [|done]; apply P2; congruence).
  assert (payload (mem a2) (identity st) = Some (encode_header header)) as I2 by (rewrite P2 by done; apply M1).
  destruct (writing_write n a2 (identity st) (encode_header header) 0 (encode_header h') O2 I2) as (a3 & E3 & W3); [lia|by rewrite !encode_header_length|].
  assert (list_inserts (Z.to_nat 0) (encode_header h') (encode_header header) = encode_header h') as Ei by (apply inserts_all; by rewrite !encode_header_length). rewrite Ei in W3.
  exists a3, s'. split; [done|]. split; [done|].
  assert (forall ref pub_, (sh_slabs s <> [] /\ (ref = hdirectory header \/ ref = hbuckets header)) \/ (pub_ = [ref] /\ (pub_ = pubd \/ pub_ = pubt)) ->
    (0 <= slot ref < 2 ^ 32 /\ 0 <= generation ref < 2 ^ 32) /\ valid ref = true) as Hword.
  { intros ref pub_ [[Hne Hx]|[-> Hx]].
    - destruct (mr_full _ _ _ _ M0 Hne) as (V1 & V2 & _). pose proof (mr_words _ _ _ _ M0) as [W1 W2 _ _ _ _]. destruct Hx as [-> | ->]; done.
    - assert (ref ∈ pubd ++ more ++ pubt) as Hq by (rewrite !elem_of_app; assert (ref ∈ [ref]) by left; destruct Hx as [<- | <-]; auto). destruct (Hnew ref Hq) as (_ & X1 & X2). split; [lia|].
      unfold valid. by rewrite !(proj2 (Z.eqb_neq _ _)) by lia. }
  assert ((0 <= slot d < 2 ^ 32 /\ 0 <= generation d < 2 ^ 32) /\ valid d = true) as [Wd Vd] by (apply (Hword d [d]); destruct Hd as [(?&?&_)| ->]; auto).
  assert ((0 <= slot t < 2 ^ 32 /\ 0 <= generation t < 2 ^ 32) /\ valid t = true) as [Wt Vt] by (apply (Hword t [t]); destruct Ht as [(?&?&_)| ->]; auto).
  pose proof (mr_words _ _ _ _ M0) as [_ _ Wc Wcr _ Wf]. pose proof old_capacity as Hoc. destruct (mr_slabs _ _ _ _ M0) as [Hlc _].
  split; [|split; [|split; [|split]]].
  - split; cbn [s' sh_header sh_slabs sh_cells sh_table].
    + apply W3.
    + apply W3.
    + rewrite Eh in *. split; try done. cbn [hcapacity] in *. lia.
    + rewrite Eh, length_app. cbn [hcapacity]. lia.
    + eapply slabs_frame; [|exact S2]. intros q Hq. apply W3. intros ->. done.
    + intros E. apply app_eq_nil in E as [_ E]. done.
    + intros _. rewrite Eh. cbn [hdirectory hbuckets]. split; [done|]. split; [done|]. split; [eapply dir_frame; [|exact D2]; apply W3; congruence|].
      split; [eapply table_frame; [|exact T2]; apply W3; congruence|]. split; [done|]. unfold footprint, s'. cbn [sh_header sh_slabs]. by rewrite Eh.
  - unfold s'. apply map_grow_ok with (s := s); try done; try (by rewrite Eh). { rewrite Hoc. lia. } rewrite Eh. cbn [hcapacity]. lia.
  - split; cbn [s' sh_header sh_cells]; try (by rewrite Eh); [lia|]. intros i c Hc. destruct (proj2 R i c Hc) as (c' & Hc' & Sc). exists c'. split; [by apply cell_app|done].
  - intros q b Hq Hb. assert (q ∉ pubd ++ more ++ pubt) as Hnp by (intros X; destruct (Hnew q X); congruence). rewrite !not_elem_of_app in Hnp. destruct Hnp as (Q1 & Q2 & Q3).
    unfold footprint in Hq. rewrite !not_elem_of_cons in Hq. destruct Hq as (Q4 & Q5 & Q6 & Q7).
    assert (q <> d) as Q8 by (intros ->; destruct Hd as [(_ & ? & _)| ->]; [done|apply Q1; left]). assert (q <> t) as Q9 by (intros ->; destruct Ht as [(_ & ? & _)| ->]; [done|apply Q3; left]).
    split.
    + rewrite (wr_others _ _ _ _ _ W3), P2, P1 by done. rewrite (gr_old _ _ _ _ G); [done|]. rewrite !not_elem_of_app. done.
    + unfold footprint, s'. cbn [sh_header sh_slabs]. rewrite Eh. cbn [hdirectory hbuckets]. rewrite !not_elem_of_cons, not_elem_of_app. done.
  - apply W3.
Qed.

Lemma grow_ok entries index el dl bl : map_ok s entries -> hcapacity header < index < 2 ^ 32 -> 
  stride_of a0 el = Some (entryStride l) -> stride_of a0 dl = Some 8 -> stride_of a0 bl = Some 4 -> n0 + 2 * (slabs_for index - old_slabs + 2) <= 2 ^ 30 ->
  match grow st header index el dl bl ([], a0) with
  | (Ok h', (_, a')) => exists s', sh_header s' = h' /\ mem_rep st (n0 + 2 * (slabs_for index - old_slabs + 2)) a' s' /\ map_ok s' entries /\ enlarged index s s' /\ spared s a0 s' a' /\
      forall id, stride_of a' id = stride_of a0 id
  | (Err e, s') => refusal e /\ withdrawable (n0 + 2 * (slabs_for index - old_slabs + 2)) a0 s'
  end.
Proof.
  intros I Hi He Hd Hb Hn. unfold slabs_for in *. pose proof (stride_bounds l L) as Hsb. pose proof old_capacity as Hoc. pose proof (mr_owner _ _ _ _ M0) as O0. unfold grow, managedMapSlabEntries.
  pose proof (Z.div_mod (index + 63) 64 ltac:(lia)) as Hdm. pose proof (Z.mod_pos_bound (index + 63) 64 ltac:(lia)) as Hmb. set (slabs := (index + 63) / 64) in *.
  assert (old_slabs < slabs) as Hlt by lia. destruct (Z.ltb_spec (2 ^ 32 - 1 - 64) index) as [|Hlim].
  { split; [by exists errManagedLimit|]. unfold withdrawable. cbn [fst snd]. eapply grown_le; [by apply grown_refl|lia]. }
  replace (index + 64 - 1) with (index + 63) by lia. fold slabs. rewrite Z.div_mul by lia. rewrite Hoc. replace (64 * old_slabs / 64) with old_slabs by (rewrite Z.mul_comm, Z.div_mul; lia).
  pose proof (grow_directory_ok dl slabs Hd ltac:(lia) ltac:(lia)) as GD. destruct (grow_directory header dl slabs old_slabs ([], a0)) as [[d|e] [pub1 a1]] eqn:E1.
  2: { rewrite (st_bind_err _ _ _ _ _ E1). destruct GD as [Hx W]. split; [done|]. unfold withdrawable in *. eapply grown_le; [done|lia]. }
  rewrite (st_bind_ok _ _ _ _ _ E1). destruct GD as [G1 ((dbytes & Hdp & Hdl) & D1 & Hdc)].
  pose proof (new_slabs_ok (entryStride l) el (slab_cost l) a0 He ltac:(lia) ltac:(unfold slab_cost, u64; apply Z.mod_pos_bound; lia) (Z.to_nat (slabs - old_slabs)) (n0 + 2) pub1 a1 G1 ltac:(lia) ltac:(lia)) as GS.
  destruct (new_slabs _ el (slab_cost l) (pub1, a1)) as [[more|e] [pub2 a2]] eqn:E2.
  2: { rewrite (st_bind_err _ _ _ _ _ E2). destruct GS as [Hx W]. split; [done|]. unfold withdrawable in *. eapply grown_le; [done|lia]. }
  rewrite (st_bind_ok _ _ _ _ _ E2). destruct GS as (-> & Hml & G2 & Hz & Hk2).
  pose proof (grow_buckets_ok _ _ a2 bl (slabs * 64) G2 ltac:(lia) ltac:(lia) Hb ltac:(lia)) as GB.
  destruct (grow_buckets header bl (slabs * 64) (pub1 ++ more, a2)) as [[[t c]|e] [pub3 a3]] eqn:E3.
  2: { rewrite (st_bind_err _ _ _ _ _ E3). destruct GB as [Hx W]. split; [done|]. unfold withdrawable in *. eapply grown_le; [done|lia]. }
  rewrite (st_bind_ok _ _ _ _ _ E3). destruct GB as (G3 & B3 & Hk3). 
  set (N := n0 + 2 * (slabs - old_slabs + 2)) in *. assert (grown N a0 pub3 a3) as G by (eapply grown_le; [done|lia]).
  destruct (move_ok N _ _ a3 (t, c) entries I G B3) as (a4 & cells & table & E4 & M4 & T4 & Hr4 & R4 & Hch & Hfr & P4 & S4). cbn [fst snd] in *. rewrite (st_bind_ok _ _ _ _ _ E4).
  assert (exists pubt, pub3 = pub1 ++ more ++ pubt /\ (sh_slabs s <> [] /\ t = hbuckets header /\ pubt = [] \/ pubt = [t])) as (pubt & -> & Htc).
  { destruct B3 as [(Hne & Ht & ->)|(-> & _)]; [exists []; rewrite app_nil_r; split; [done|by left]|exists [t]; rewrite app_assoc; split; [done|by right]]. }
  assert (more <> []) as Hmore by (intros ->; cbn in Hml; lia).
  pose proof (footprint_grown d t more pub1 pubt Hdc Htc (gr_distinct _ _ _ _ G) (fun q Hq => proj1 (gr_new _ _ _ _ G q Hq))) as Hnd. rewrite !NoDup_cons, !not_elem_of_cons in Hnd. destruct Hnd as ((_ & _ & _) & (Ndt & Nds) & _).
  assert (payload (mem a4) d = payload (mem a1) d) as Hd4.
  { rewrite not_elem_of_app in Nds. destruct Nds as [Nds Ndm]. rewrite P4 by done. destruct Hdc as [(Hne & -> & ->)| ->].
    - destruct (mr_full _ _ _ _ M0 Hne) as (_ & _ & (b0 & Hb0 & _) & _). rewrite (proj2 (grown_live _ _ _ _ _ _ G Hb0)). symmetry. by apply (grown_live _ _ _ _ _ _ G1).
    - assert (d ∈ [d]) by left. by rewrite Hk3, Hk2 by (rewrite ?elem_of_app; auto). }
  destruct (link_slabs_ok N d more a4 (sh_slabs s) dbytes (mr_owner _ _ _ _ M4)) as (a5 & E5 & O5 & D5 & P5 & S5); [by rewrite Hd4|lia|lia|by eapply dir_frame| |].
  { intros q Hq. apply (gr_new _ _ _ _ G q). rewrite !elem_of_app. auto. }
  erewrite st_bind_ok; [|unfold in_tx; cbn [fst snd]; by rewrite E5].
  assert (slabs * 64 = 64 * (old_slabs + Z.of_nat (length more))) as -> by lia.
  destruct (installed N d t more pub1 pubt a3 cells table a4 a5
    (mkHeader d t (hcount header) (hcreated header) (64 * (old_slabs + Z.of_nat (length more))) (hfree header)) entries index I G Hdc Htc) as (a6 & s' & E6 & Hs' & M6 & I6 & En6 & Sp6 & S6); try done.
  { intros q Hq. rewrite Hk3 by (rewrite elem_of_app; auto). by apply Hz. }
  { cbn [hcapacity]. lia. }
  erewrite st_bind_ok; [|unfold in_tx; cbn [fst snd]; by rewrite E6]. unfold st_return. exists s'. split_and!; try done. intros id. rewrite S6, S5, S4. apply G.
Qed.
End growth.

Section capacity.
Context {K V : Type} `{MapElements K V}.
Context (st : managedMapStorage) (L : layout_ok (prepared_layout st)).

#[local] Abbreviation l := (prepared_layout st).

(** What the allocator holds, with the map as it was. *)
Definition undisturbed (a a' : allocator) : Prop := forall q b, payload (mem a) q = Some b -> payload (mem a') q = Some b.

(** The outcome of a growth: the same entries with more room, or a refusal that changed nothing. *)
Definition growth (n : Z) (s : shape) (entries : gmap Z (vmMapEntry (K := K) (V := V))) (index : Z) (a : allocator) (res : result map_error managedMapHeader * allocator) : Prop :=
  match res with
  | (Ok h', a') => exists s', sh_header s' = h' /\ mem_rep st n a' s' /\ map_ok st s' entries /\ enlarged st index s s' /\ spared st s a s' a'
  | (Err e, a') => refusal e /\ mem_rep st n a' s /\ undisturbed a a'
  end.

(** Objects elsewhere are kept when nothing happens to them before and after. *)
Lemma spared_quiet s s' a a1 a2 a3 : (forall q, payload (mem a1) q = payload (mem a) q) -> spared st s a1 s' a2 -> (forall q, payload (mem a3) q = payload (mem a2) q) -> spared st s a s' a3.
Proof. intros H1 Hs H3 q b Hq Hb. rewrite H3. apply Hs; [done|]. by rewrite H1. Qed.

Lemma growth_deferred n s entries index a id (m : mapM managedMapHeader) : growth n s entries index a (m a) -> growth n s entries index a (deferred (releaseLayout id) m a).
Proof.
  intros G. unfold deferred. destruct (m a) as [[h'|e] a1].
  - destruct G as (s' & Hs & M & I & E & Sp). pose proof (release_layout_quiet n a1 id (mr_owner _ _ _ _ M)) as [Q1 Q2 _]. exists s'. split; [done|].
    split; [eapply mem_frame; [done|done|]; intros q b _; by rewrite Q2|]. split; [done|]. split; [done|]. by eapply (spared_quiet _ _ a a a1).
  - destruct G as (He & M & U). pose proof (release_layout_quiet n a1 id (mr_owner _ _ _ _ M)) as [Q1 Q2 _]. split; [done|].
    split; [eapply mem_frame; [done|done|]; intros q b _; by rewrite Q2|]. intros q b Hb. rewrite Q2. by apply U.
Qed.

Lemma growth_before n s entries index a a1 res : (forall q, payload (mem a1) q = payload (mem a) q) -> growth n s entries index a1 res -> growth n s entries index a res.
Proof.
  intros Hq G. destruct res as [[h'|e] a2].
  - destruct G as (s' & Hs & M & I & E & Sp). exists s'. split_and!; try done. by eapply (spared_quiet _ _ a a1 a2).
  - destruct G as (He & M & U). split_and!; try done. intros q b Hb. apply U. by rewrite Hq.
Qed.

Lemma run_grow n a s entries index el dl bl N : mem_rep st n a s -> map_ok st s entries -> 0 <= n -> hcapacity (sh_header s) < index < 2 ^ 32 ->
  stride_of a el = Some (entryStride l) -> stride_of a dl = Some 8 -> stride_of a bl = Some 4 -> N = n + 2 * (slabs_for index - Z.of_nat (length (sh_slabs s)) + 2) -> N <= 2 ^ 30 ->
  growth N s entries index a (run_tx (grow st (sh_header s) index el dl bl) a).
Proof.
  intros M I Hn Hi He Hd Hb -> HN. pose proof (grow_ok st L n a s M Hn entries index el dl bl I Hi He Hd Hb HN) as G. unfold run_tx.
  destruct (grow st (sh_header s) index el dl bl ([], a)) as [[h'|e] [pub a1]].
  - destruct G as (s' & H1 & H2 & H3 & H4 & H5 & _). by exists s'.
  - destruct G as [Hr W]. unfold withdrawable in W. cbn [fst snd] in W. set (N := n + _) in *. destruct (rollback_quiet N pub a1 (gr_ok _ _ _ _ W)) as (O & Hp & _). cbn [growth].
    assert (undisturbed a (rollbackManagedPublications pub a1)) as U by (intros q b Hq; destruct (grown_live _ _ _ _ _ _ W Hq) as [Hni Hq1]; by rewrite Hp).
    split; [done|]. split; [|done]. eapply mem_frame; [done|done|]. intros q b _. apply U.
Qed.

(** The budget of slots and pages that a growth to [index] may take. *)
Definition growth_cost (s : shape) (index : Z) : Z :=
  if index <=? hcapacity (sh_header s) then 0 else 2 * (slabs_for index - Z.of_nat (length (sh_slabs s)) + 2).

Lemma growth_cost_pos n a s index : mem_rep st n a s -> 0 <= growth_cost s index.
Proof.
  intros M. unfold growth_cost, slabs_for. destruct (Z.leb_spec index (hcapacity (sh_header s))) as [|Hlt]; [lia|]. rewrite (mr_capacity _ _ _ _ M) in Hlt.
  pose proof (Z.div_mod (index + 63) 64 ltac:(lia)). pose proof (Z.mod_pos_bound (index + 63) 64 ltac:(lia)). lia.
Qed.

Lemma ensureCapacity_ok n a s entries index : mem_rep st n a s -> map_ok st s entries -> 0 <= n -> index < 2 ^ 32 -> n + growth_cost s index <= 2 ^ 30 ->
  growth (n + growth_cost s index) s entries index a (ensureCapacity st (sh_header s) index a).
Proof.
  intros M I Hn Hi HN. pose proof (growth_cost_pos n a s index M) as Hc. unfold ensureCapacity. set (N := n + growth_cost s index) in *. unfold growth_cost in N, Hc.
  destruct (Z.leb_spec index (hcapacity (sh_header s))) as [Hle|Hlt].
  - exists s. split; [done|]. replace N with n by lia. split_and!; try done. split; try done. intros i c Hc2. exists c. split; [done|apply same_entry_refl].
  - pose proof (stride_bounds l L) as Hsb.
    assert (forall b, (forall q, payload (mem b) q = payload (mem a) q) -> forall k, owner_ok n b -> n <= k -> mem_rep st k b s) as Hframe.
    { intros b Hb k O Hk. eapply mem_frame; [exact M|by eapply owner_le|]. intros q x _. by rewrite Hb. }
    assert (forall b e, (forall q, payload (mem b) q = payload (mem a) q) -> owner_ok n b -> e <> AllocPanic -> growth N s entries index a (Err (AllocError e), b)) as Hrefuse.
    { intros b e Hb O He. cbn [growth]. split; [by exists e|]. split; [by apply Hframe; [|done|lia]|]. intros q x Hx. by rewrite Hb. }
    pose proof (mr_owner _ _ _ _ M) as O.
    pose proof (register_layout_quiet n a (entry_layout l) O ltac:(cbn [entry_layout lstride]; lia)) as R1. unfold st_bind at 1, lift at 1.
    destruct (registerLayout (entry_layout l) a) as [[el|e] a1]; [|destruct R1 as [He ->]; by apply Hrefuse].
    destruct R1 as (O1 & Q1 & S1 & _). cbn [entry_layout lstride] in S1. apply (growth_before N s entries index a a1); [done|]. apply growth_deferred.
    pose proof (register_layout_quiet n a1 directory_layout O1 ltac:(cbn; lia)) as R2. unfold st_bind at 1, lift at 1.
    destruct (registerLayout directory_layout a1) as [[dl|e] a2]; [|destruct R2 as [He ->]; eapply growth_before, Hrefuse; [|done|done|done]; intros q; by rewrite Q1].
    destruct R2 as (O2 & Q2 & S2 & K2). apply (growth_before N s entries index a1 a2); [done|]. apply growth_deferred.
    pose proof (register_layout_quiet n a2 bucket_layout O2 ltac:(cbn; lia)) as R3. unfold st_bind at 1, lift at 1.
    destruct (registerLayout bucket_layout a2) as [[bl|e] a3]; [|destruct R3 as [He ->]; eapply growth_before, Hrefuse; [|intros q; by rewrite Q2, Q1|done|done]; intros q; by rewrite Q2, Q1].
    destruct R3 as (O3 & Q3 & S3 & K3). apply (growth_before N s entries index a2 a3); [done|]. apply growth_deferred.
    apply (run_grow n a3); [apply Hframe; [|done|lia]; intros q; by rewrite Q3, Q2, Q1|done|done|lia|apply K3; [apply K2; [done|]|]; lia|by apply K3|done|done|lia].
Qed.
End capacity.
