(* ===== verification/MapOps.v ===== *)
(** * The operations of a managed map (src/runtime/managed_map.go)

    Storing, deleting and clearing on a heap that holds a map: what becomes of its entries, of their
    generations and of the objects outside of the map. *)

From S2P Require Import Prelude GoStd GoBytes Heap Allocator AllocatorSafe AllocatorRun MapStorage MapMemory MapRep MapShape MapTable MapUpdate MapGrow.

#[local] Open Scope Z_scope.
#[local] Arguments Z.to_nat : simpl never.
#[local] Arguments Z.pow : simpl never.

Lemma linked_next cells i chain d : linked cells i chain -> i <> 0 -> cell_at cells i = Some d -> exists rest, chain = i :: rest /\ linked cells (c_next d) rest.
Proof. intros Hl Hi Hd. destruct Hl as [|i c rest Hc Hl]; [done|]. exists rest. assert (c = d) as -> by congruence. done. Qed.

Section operations.
Context {K V : Type} `{MapElements K V}.
Context (st : managedMapStorage) (L : layout_ok (prepared_layout st)).

#[local] Abbreviation l := (prepared_layout st).
#[local] Abbreviation map_ok := (map_ok st).
#[local] Abbreviation c_key := (c_key st).
#[local] Abbreviation c_value := (c_value st).
#[local] Abbreviation entry_of := (entry_of st).
#[local] Abbreviation entry := (vmMapEntry (K := K) (V := V)).

(** What the map relies on: inline values have the size of their layout and are read back. *)
Record elements_ok : Prop := {
  el_key : forall k b, encodeKey k = Ok b -> Z.of_nat (length b) = Stride (keyLayout l) /\ decodeKey b = k;
  el_value : forall v b, encodeValue v = Ok b -> Z.of_nat (length b) = Stride (valueLayout l) /\ decodeValue b = v
}.

(** ** Generations *)

(** No entry gets younger, and an entry that is free is used again in a later generation only. *)
Definition ages (s s' : shape) : Prop :=
  forall i c, cell_at (sh_cells s) i = Some c -> exists c', cell_at (sh_cells s') i = Some c' /\ c_generation c <= c_generation c' /\
    (c_generation c' = c_generation c -> c_occupied c = 0 -> c_occupied c' = 0).

Lemma ages_refl s : ages s s.
Proof. intros i c Hc. by exists c. Qed.

Lemma ages_trans s1 s2 s3 : ages s1 s2 -> ages s2 s3 -> ages s1 s3.
Proof.
  intros A B i c Hc. destruct (A i c Hc) as (d & Hd & G1 & O1). destruct (B i d Hd) as (e & He & G2 & O2). exists e. split; [done|]. split; [lia|]. intros Eg Ho. apply O2; [lia|]. apply O1; [lia|done].
Qed.

Lemma enlarged_ages index s s' : enlarged st index s s' -> ages s s'.
Proof. intros E i c Hc. destruct (en_cells _ _ _ _ E i c Hc) as (c' & Hc' & S). exists c'. split; [done|]. rewrite (se_generation _ _ _ S), (se_occupied _ _ _ S). split; [lia|done]. Qed.

Lemma put_ages s s' i d c' : sh_cells s' = put_cell i c' (sh_cells s) -> cell_at (sh_cells s) i = Some d -> c_generation d <= c_generation c' ->
  (c_generation c' = c_generation d -> c_occupied d = 0 -> c_occupied c' = 0) -> ages s s'.
Proof.
  intros E Hd Hg Ho j c Hc. rewrite E, (cell_put _ _ _ _ _ Hd). case_decide as Ej; [subst; exists c'; assert (c = d) as -> by congruence; done|]. by exists c.
Qed.

(** ** Other objects *)

Lemma kept_spared s s' a a' : kept st s a a' -> footprint st s' = footprint st s -> spared st s a s' a'.
Proof. intros [Hk _] Hf q b Hq Hb. rewrite Hf. split; [by rewrite Hk|done]. Qed.

Lemma kept_as s s' a a' : footprint st s' = footprint st s -> kept st s' a a' -> kept st s a a'.
Proof. intros Hf [K1 K2]. rewrite Hf in K1. by split. Qed.

Lemma spared_trans s1 a1 s2 a2 s3 a3 : spared st s1 a1 s2 a2 -> spared st s2 a2 s3 a3 -> spared st s1 a1 s3 a3.
Proof. intros A B q b Hq Hb. destruct (A q b Hq Hb) as [Hb2 Hq2]. by apply B. Qed.

(** The state after an operation of the map. *)
Record moved (n : Z) (a : allocator) (s : shape) (a' : allocator) (s' : shape) (entries' : gmap Z entry) : Prop := {
  mv_mem : mem_rep st n a' s';
  mv_ok : map_ok s' entries';
  mv_ages : ages s s';
  mv_spared : spared st s a s' a'
}.

(** ** Sizes *)

Lemma cell_length n a s i c : mem_rep st n a s -> cell_at (sh_cells s) i = Some c -> Z.of_nat (length c) = entryStride l.
Proof.
  intros M Hc. destruct (mem_location st L n a s i c M Hc) as (at_ & P & _). by destruct (place_bytes l L _ _ _ _ _ _ (mr_slabs _ _ _ _ M) P Hc) as (_ & _ & _ & _ & _ & _ & ?).
Qed.

Lemma entries_bound s entries : map_ok s entries -> Z.of_nat (size entries) <= Z.of_nat (length (sh_cells s)).
Proof.
  intros I. rewrite <- (size_dom (D := gset Z)). transitivity (Z.of_nat (size (list_to_set (C := gset Z) (seqZ 1 (Z.of_nat (length (sh_cells s))))))).
  - apply Nat2Z.inj_le, subseteq_size. intros i Hi. apply elem_of_dom in Hi as [e He]. apply (mo_entries _ _ _ I) in He as (c & [Hc _] & _). apply cell_at_Some in Hc as [Hi _].
    apply elem_of_list_to_set, elem_of_seqZ. lia.
  - rewrite size_list_to_set by apply NoDup_seqZ. rewrite length_seqZ. lia.
Qed.

Lemma cells_capacity n a s : mem_rep st n a s -> hcapacity (sh_header s) = Z.of_nat (length (sh_cells s)).
Proof. intros M. rewrite (mr_capacity _ _ _ _ M). destruct (mr_slabs _ _ _ _ M) as [-> _]. lia. Qed.

(** ** A new value for a key *)

Lemma write_value_ok n a s entries i c value : mem_rep st n a s -> map_ok s entries -> occupied_cell (sh_cells s) i c -> Z.of_nat (length value) = Stride (valueLayout l) ->
  exists a' s' at_, location st (sh_header s) i a = (Ok at_, a) /\ writing (fun h => write h (fst at_) (u32 (snd at_ + valueOffset l)) value) a = (Ok tt, a') /\
    moved n a s a' s' (<[i := mkEntry (entry_identity (entry_of i c)) (c_key c) (decodeValue value)]> entries).
Proof.
  intros M I Ho Hv. pose proof Ho as [Hc Hoc]. pose proof (offsets_ok st L) as (O1 & O2 & O3 & O4 & O5 & O6). destruct L as [_ _ Lo _ _ _]. unfold managedMapMetadata in *. pose proof (cell_length _ _ _ _ _ M Hc) as Hlc.
  destruct (mem_location st L n a s i c M Hc) as (at_ & P & E). destruct (mem_write st L n a s i at_ c (valueOffset l) value M P Hc ltac:(lia) ltac:(lia)) as (a' & Ew & M' & Kp).
  set (c' := list_inserts (Z.to_nat (valueOffset l)) value c) in *. exists a', (with_cells (put_cell i c' (sh_cells s)) s), at_. split; [done|]. split; [done|].
  assert (forall o, 0 <= o -> o + 4 <= 16 -> field c' o = field c o) as Hf by (intros o Ho1 Ho2; unfold field, c'; rewrite window_other by lia; done).
  assert (c_key c' = c_key c) as Hk by (unfold MapTable.c_key, c', managedMapMetadata; rewrite window_other by lia; done).
  assert (entry_of i c' = mkEntry (entry_identity (entry_of i c)) (c_key c) (decodeValue value)) as <-.
  { unfold MapTable.entry_of. cbn [entry_identity]. rewrite Hk. unfold c_generation. rewrite Hf by lia. f_equal. unfold MapTable.c_value, c'. rewrite window_same by lia. done. }
  split; [done| | |].
  - apply map_value_ok with (c := c); try done; apply Hf; lia.
  - eapply put_ages; [done|done| |]; unfold c_generation, c_occupied; rewrite !Hf by lia; [lia|done].
  - by eapply kept_spared.
Qed.

(** ** A new entry *)

(** The bytes of an entry that was just stored. *)
Definition stored_cell (gen hash head : Z) (key value : gostring) : gostring :=
  list_inserts 0 (le_bytes 4 1 ++ le_bytes 4 gen ++ le_bytes 4 hash ++ le_bytes 4 head)
    (list_inserts (Z.to_nat managedMapMetadata) key (list_inserts (Z.to_nat (valueOffset l)) value (entry_buffer l))).

Lemma stored_cell_ok gen hash head key value : 0 <= gen < 2 ^ 32 -> 0 <= hash < 2 ^ 32 -> 0 <= head < 2 ^ 32 ->
  Z.of_nat (length key) = Stride (keyLayout l) -> Z.of_nat (length value) = Stride (valueLayout l) ->
  let c := stored_cell gen hash head key value in
  Z.of_nat (length c) = entryStride l /\ c_occupied c = 1 /\ c_generation c = gen /\ c_hash c = hash /\ c_next c = head /\ c_key c = decodeKey key /\ c_value c = decodeValue value.
Proof.
  intros Hg Hh Hd Hk Hv c. pose proof (offsets_ok st L) as (O1 & O2 & O3 & O4 & O5 & O6). pose proof (lo_offset _ L) as Lo. unfold managedMapMetadata in *.
  set (ws := [1; gen; hash; head]). set (body := list_inserts (Z.to_nat 16) key (list_inserts (Z.to_nat (valueOffset l)) value (entry_buffer l))).
  assert (c = list_inserts (Z.to_nat 0) (concat (map (le_bytes 4) ws)) body) as -> by (unfold c, stored_cell, ws, body, managedMapMetadata; cbn [map concat]; by rewrite app_nil_r).
  assert (length body = Z.to_nat (entryStride l)) as Hlb by (unfold body, entry_buffer; rewrite !length_inserts; apply length_replicate).
  assert (length (concat (map (le_bytes 4) ws)) = 16%nat) as Hlw by (cbn [ws map concat]; rewrite !length_app, !le_bytes_length; done).
  assert (forall o i w, o = 4 * Z.of_nat i -> (i < 4)%nat -> ws !! i = Some w -> 0 <= w < 2 ^ 32 -> field (list_inserts (Z.to_nat 0) (concat (map (le_bytes 4) ws)) body) o = w) as Hf.
  { intros o i w -> Hi Hw Hr. etransitivity; [|exact (field_words ws i w Hw Hr)]. rewrite <- (field_window (list_inserts _ _ _) 16) by lia. rewrite window_same by lia. done. }
  split; [rewrite length_inserts; lia|]. unfold c_occupied, c_generation, c_hash, c_next. rewrite (Hf 0 0%nat 1), (Hf 4 1%nat gen), (Hf 8 2%nat hash), (Hf 12 3%nat head) by (done || lia).
  split_and!; try done.
  - unfold MapTable.c_key, managedMapMetadata. rewrite window_other by lia. unfold body. rewrite window_same; [done|lia|lia|]. rewrite length_inserts. unfold entry_buffer. rewrite length_replicate. lia.
  - unfold MapTable.c_value. rewrite window_other by lia. unfold body. rewrite window_other by lia. rewrite window_same; [done|lia|lia|]. unfold entry_buffer. rewrite length_replicate. lia.
Qed.

Lemma next_index_range n a s entries : mem_rep st n a s -> map_ok s entries -> 1 <= next_index (sh_header s).
Proof.
  intros M I. unfold next_index. pose proof (hw_created _ (mr_words _ _ _ _ M)). pose proof (hw_free _ (mr_words _ _ _ _ M)). destruct (Z.eqb_spec (hfree (sh_header s)) 0); lia.
Qed.

(** The entry that a store takes, once there is room for it. *)
Lemma fill_entry_ok n a s entries key kb vb : mem_rep st n a s -> map_ok s entries -> next_index (sh_header s) <= hcapacity (sh_header s) ->
  Z.of_nat (length kb) = Stride (keyLayout l) -> Z.of_nat (length vb) = Stride (valueLayout l) -> mapKey (decodeKey kb) = Ok key ->
  (NonReflexive key = true \/ forall j c, occupied_cell (sh_cells s) j c -> mapKey (c_key c) <> Ok key) ->
  exists a' s' ident, (ensureCapacity st (sh_header s) (next_index (sh_header s)) a = (Ok (sh_header s), a)) /\
    store_new st (sh_header s) (managedMapKeyHash key) (list_inserts (Z.to_nat managedMapMetadata) kb (list_inserts (Z.to_nat (valueOffset l)) vb (entry_buffer l))) a = (Ok tt, a') /\
    entries !! next_index (sh_header s) = None /\
    moved n a s a' s' (<[next_index (sh_header s) := mkEntry ident (decodeKey kb) (decodeValue vb)]> entries).
Proof.
  intros M I Hcap Hkb Hvb Hkey Hu. set (h := sh_header s) in *. set (i := next_index h) in *. pose proof (next_index_range _ _ _ _ M I) as Hi. fold h i in Hi. pose proof (cells_capacity _ _ _ M) as Hcc. fold h in Hcc.
  pose proof (offsets_ok st L) as (O1 & _). destruct (cell_at_is (sh_cells s) i ltac:(lia)) as [d Hd]. destruct (next_cell st s entries i d I eq_refl Hd) as (Hg & Hno & Hnone).
  pose proof (mo_generation _ _ _ I i d Hd) as Hgr. destruct (nonempty_cell _ _ _ _ _ _ M Hd) as [Hne _]. destruct (mem_location st L n a s i d M Hd) as (at_ & P & Eloc).
  destruct (mem_bucket_count st n a s M Hne) as (e & Ere & Ees & Eed & _). set (hash := managedMapKeyHash key). assert (0 <= hash < 2 ^ 32) as Hh by (unfold hash, managedMapKeyHash, u32; apply Z.mod_pos_bound; lia).
  destruct (bucket_index st n a s hash M Hne) as (b & head & Hb & Hhead). destruct (mem_bucket st n a s b head M Hhead) as [Ewb Hhr]. destruct (mr_full _ _ _ _ M Hne) as (_ & _ & _ & _ & Htr & _).
  destruct (stored_cell_ok (c_generation d + 1) hash head kb vb ltac:(lia) Hh Hhr Hkb Hvb) as (Lc & C1 & C2 & C3 & C4 & C5 & C6). set (c' := stored_cell (c_generation d + 1) hash head kb vb) in *.
  assert (ensureCapacity st h i a = (Ok h, a)) as Eens by (unfold ensureCapacity; by rewrite (proj2 (Z.leb_le _ _))).
  destruct (mem_write0 st L n a s i at_ d c' M P Hd Lc) as (a1 & Ew1 & M1 & K1). pose proof (hw_capacity _ (mr_words _ _ _ _ M)) as Hcw. fold h in Hcw.
  destruct (mem_set_bucket st n a1 (with_cells (put_cell i c' (sh_cells s)) s) b i M1) as (a2 & Ew2 & M2 & K2); [by eapply lookup_lt_Some|lia|].
  pose proof (map_insert_ok st s entries i d c' b head key I eq_refl Hd Hcap ltac:(lia) ltac:(lia) C3 C4 ltac:(by rewrite C5) Hhead Hb Hu) as I'. fold h in I'.
  pose proof (entries_bound _ _ I') as Hsize. rewrite map_size_insert_None in Hsize by done. cbn [sh_cells] in Hsize. rewrite put_cell_length in Hsize.
  pose proof (mr_words _ _ _ _ M) as [W1 W2 W3 W4 W5 W6]. fold h in W1, W2, W3, W4, W5, W6. pose proof (mo_count _ _ _ I) as Hcnt. fold h in Hcnt.
  destruct (mem_write_header st n a2 _ (stored_header h i (c_next d)) M2) as (a3 & Ew3 & M3 & K3); [|done|done|done|].
  { split; cbn [stored_header hdirectory hbuckets hcount hcreated hcapacity hfree]; try done; [lia|case_if; lia|]. destruct (Z.eqb_spec (hfree h) 0) as [|Hf]; [lia|].
    assert (i = hfree h) as Eif by (unfold i, next_index; by rewrite (proj2 (Z.eqb_neq _ _))). destruct (mo_free _ _ _ I) as (chain & Hl & _). fold h in Hl. rewrite <- Eif in Hl.
    destruct (linked_next _ _ _ _ Hl ltac:(lia) Hd) as (rest & _ & Hl2). apply linked_range in Hl2. lia. }
  exists a3, (mkShape (stored_header h i (c_next d)) (sh_slabs s) (put_cell i c' (sh_cells s)) (<[b := i]> (sh_table s))), (entry_identity (entry_of i c')).
  split; [done|]. split; [|split; [done|]].
  - unfold store_new. assert ((hfree h =? 0) && (hcreated h =? 2 ^ 32 - 1) = false) as ->.
    { unfold i, next_index in Hcap. destruct (Z.eqb_spec (hfree h) 0); [|done]. cbn [andb]. apply Z.eqb_neq. lia. }
    fold (next_index h). fold i. erewrite st_bind_ok by exact Eens. erewrite st_bind_ok by exact Eloc.
    erewrite st_bind_ok by (apply (mem_word st L n a s i at_ d 4 M P Hd); lia). fold (c_generation d). rewrite (proj2 (Z.eqb_neq _ _)) by lia.
    erewrite st_bind_ok by (apply (mem_word st L n a s i at_ d 12 M P Hd); lia). fold (c_next d). erewrite st_bind_ok by exact Ere. rewrite Eed, (proj2 (Z.eqb_neq _ _)) by lia.
    fold hash. rewrite Hb. erewrite st_bind_ok by exact Ewb. erewrite st_bind_ok by exact Ew1. erewrite st_bind_ok by exact Ew2. rewrite (u32_id (hcount h + 1)) by lia. exact Ew3.
  - split; [exact M3| | |].
    + assert (mkEntry (entry_identity (entry_of i c')) (decodeKey kb) (decodeValue vb) = entry_of i c') as ->; [|done]. unfold MapTable.entry_of. by rewrite C5, C6.
    + eapply put_ages; [done|done|lia|lia].
    + eapply kept_spared; [|done]. eapply kept_trans; [exact K1|]. eapply kept_trans; [by eapply kept_as; [|exact K2]|by eapply kept_as; [|exact K3]].
Qed.

(** The continuation of a store does not depend on whether there was room before. *)
Lemma store_new_grown h h' a a1 hash encoded : ensureCapacity st h (next_index h) a = (Ok h', a1) -> ensureCapacity st h' (next_index h') a1 = (Ok h', a1) ->
  hfree h' = hfree h -> hcreated h' = hcreated h -> (hfree h =? 0) && (hcreated h =? 2 ^ 32 - 1) = false -> store_new st h hash encoded a = store_new st h' hash encoded a1.
Proof.
  intros E E' Hf Hc Hl. unfold next_index in *. unfold store_new. rewrite Hf, Hc in *. rewrite Hl. rewrite (st_bind_ok _ _ _ _ _ E), (st_bind_ok _ _ _ _ _ E'). by rewrite Hf, Hc.
Qed.

Lemma growth_cost_next n a s entries : mem_rep st n a s -> map_ok s entries -> growth_cost s (next_index (sh_header s)) <= 6.
Proof.
  intros M I. unfold growth_cost, slabs_for. destruct (Z.leb_spec (next_index (sh_header s)) (hcapacity (sh_header s))) as [|Hlt]; [lia|].
  pose proof (mo_created _ _ _ I) as Hcr. pose proof (mr_capacity _ _ _ _ M) as Hc. unfold next_index in *. destruct (Z.eqb_spec (hfree (sh_header s)) 0).
  - assert (hcreated (sh_header s) + 1 + 63 = (Z.of_nat (length (sh_slabs s)) + 1) * 64) as -> by lia. rewrite Z.div_mul by lia. lia.
  - destruct (mo_free _ _ _ I) as (chain & Hl & _). apply linked_range in Hl. rewrite (cells_capacity _ _ _ M) in *. lia.
Qed.

Lemma mem_le n m a s : mem_rep st n a s -> n <= m -> mem_rep st m a s.
Proof. intros M Hle. eapply mem_frame; [done|by eapply owner_le; [apply M|]|done]. Qed.

Lemma moved_le n m a s a' s' entries' : moved n a s a' s' entries' -> n <= m -> moved m a s a' s' entries'.
Proof. intros [M I A S] Hle. split; try done. by eapply mem_le. Qed.

Lemma moved_trans n a s a1 s1 e1 a2 s2 e2 : moved n a s a1 s1 e1 -> moved n a1 s1 a2 s2 e2 -> moved n a s a2 s2 e2.
Proof. intros [M1 I1 A1 S1] [M2 I2 A2 S2]. split; try done; [by eapply ages_trans|by eapply spared_trans]. Qed.

(** ** What the operations do to the entries *)

(** No entry has this key; an entry whose key is not equal to itself is never found. *)
Definition absent (entries : gmap Z entry) (key : vmMapKey) : Prop :=
  NonReflexive key = true \/ forall i e, entries !! i = Some e -> mapKey (Key e) <> Ok key.

Definition present (entries : gmap Z entry) (key : vmMapKey) (i : Z) (e : entry) : Prop :=
  NonReflexive key = false /\ entries !! i = Some e /\ mapKey (Key e) = Ok key.

Definition stored (key : vmMapKey) (k : K) (v : V) (entries entries' : gmap Z entry) : Prop :=
  (exists i e, present entries key i e /\ entries' = <[i := mkEntry (entry_identity e) (Key e) v]> entries) \/
  (absent entries key /\ exists i ident, entries !! i = None /\ entries' = <[i := mkEntry ident k v]> entries).

(** [find_ok] in terms of the entries. *)
Lemma absent_cells s entries key : map_ok s entries -> (NonReflexive key = true \/ forall i c, occupied_cell (sh_cells s) i c -> mapKey (c_key c) <> Ok key) <-> absent entries key.
Proof.
  intros I. unfold absent. split; (intros [?|Hno]; [by left|right]).
  - intros i e He. apply (mo_entries _ _ _ I) in He as (c & Hc & ->). by apply (Hno i).
  - intros i c Hc. apply (Hno i (entry_of i c)). apply (mo_entries _ _ _ I). by exists c.
Qed.

Lemma storeEntry_ok n a s entries key k v : elements_ok -> mem_rep st n a s -> map_ok s entries -> 0 <= n -> n + 6 <= 2 ^ 30 -> mapKey k = Ok key ->
  match storeEntry st key k v a with
  | (Ok _, a') => exists s' entries', moved (n + 6) a s a' s' entries' /\ stored key k v entries entries'
  | (Err e, a') => (refusal e \/ encodeValue v = Err e \/ encodeKey k = Err e) /\ mem_rep st (n + 6) a' s /\ undisturbed a a'
  end.
Proof.
  intros El M I Hn HN Hk. unfold storeEntry. rewrite (st_bind_ok _ _ _ _ _ (readHeader_ok st n a s M)). pose proof (offsets_ok st L) as (O1 & O2 & O3 & O4 & O5 & O6).
  assert (forall P : Prop, P -> P /\ mem_rep st (n + 6) a s /\ undisturbed a a) as Hsame by (intros P HP; split; [done|]; split; [eapply mem_le; [done|lia]|by intros q x]).
  destruct (find_ok st L n a s entries key M I) as [(b & head & l1 & i & l2 & c & Hr & Hb & _ & Hl & Ho & Hkc & Ef)|[Ef Hno]]; rewrite (st_bind_ok _ _ _ _ _ Ef).
  - unfold st_bind at 1, of_result at 1. destruct (encodeValue v) as [vb|e] eqn:Ev; [|apply Hsame; auto]. destruct (el_value El v vb Ev) as [Hvb Hdv].
    destruct (write_value_ok n a s entries i c vb M I Ho Hvb) as (a' & s' & at_ & Eloc & Ew & Mv). rewrite (st_bind_ok _ _ _ _ _ Eloc).
    rewrite window_same by (lia || (unfold entry_buffer; rewrite length_replicate; lia)). rewrite Ew. eexists s', _. split; [eapply moved_le; [exact Mv|lia]|]. left. exists i, (entry_of i c).
    rewrite Hdv. split; [|done]. split; [done|]. split; [apply (mo_entries _ _ _ I); by exists c|done].
  - unfold st_bind at 1, of_result at 1. destruct (encodeValue v) as [vb|e] eqn:Ev; [|apply Hsame; auto]. destruct (el_value El v vb Ev) as [Hvb Hdv].
    unfold st_bind at 1, of_result at 1. destruct (encodeKey k) as [kb|e] eqn:Ek; [|apply Hsame; auto]. destruct (el_key El k kb Ek) as [Hkb Hdk].
    set (h := sh_header s) in *. set (i := next_index h) in *.
    destruct ((hfree h =? 0) && (hcreated h =? 2 ^ 32 - 1)) eqn:Elim.
    { unfold store_new. rewrite Elim. apply Hsame. left. by exists errManagedLimit. }
    assert (i < 2 ^ 32) as Hi.
    { unfold i, next_index. pose proof (hw_created _ (mr_words _ _ _ _ M)) as X1. pose proof (hw_free _ (mr_words _ _ _ _ M)) as X2. fold h in X1, X2. destruct (Z.eqb_spec (hfree h) 0); cbn [andb] in Elim; breflect; lia. }
    pose proof (growth_cost_next n a s entries M I) as Hgc. fold h i in Hgc. pose proof (ensureCapacity_ok st L n a s entries i M I Hn Hi ltac:(lia)) as G. fold h in G.
    destruct (ensureCapacity st h i a) as [[h'|e] a1] eqn:Eens.
    + destruct G as (s1 & E1 & M1 & I1 & En & Sp). subst h'. assert (next_index (sh_header s1) = i) as Hni by (unfold i, next_index, h; by rewrite (en_free _ _ _ _ En), (en_created _ _ _ _ En)).
      destruct (fill_entry_ok _ a1 s1 entries key kb vb M1 I1) as (a2 & s2 & ident & Eens1 & Est & Hnone & Mv); try done; [rewrite Hni; apply En|by rewrite Hdk|by apply (absent_cells s1 entries key I1), (absent_cells s entries key I)|].
      rewrite (store_new_grown h (sh_header s1) a a1 _ _ Eens Eens1) by (done || apply En). rewrite Est. rewrite Hdk, Hdv in Mv. eexists s2, _. split.
      * eapply moved_le; [eapply moved_trans; [|exact Mv]|lia]. split; try done. by eapply enlarged_ages.
      * right. split; [by apply (absent_cells s entries key I)|]. eexists _, ident. by split; [|].
    + destruct G as (Hr & M1 & U). unfold store_new. rewrite Elim. fold (next_index h). fold i. rewrite (st_bind_err _ _ _ _ _ Eens). split; [by left|]. split; [eapply mem_le; [done|lia]|done].
Qed.

(** ** A deleted entry *)

(** The identity of an entry in a generation. *)
Lemma identity_value i c : 0 <= i < 2 ^ 32 -> 0 <= c_generation c < 2 ^ 32 -> entry_identity (entry_of i c) = i + c_generation c * 2 ^ 32.
Proof. intros Hi Hg. cbn [MapTable.entry_of entry_identity]. rewrite Z.lor_comm. by apply pack_reference. Qed.

Lemma identity_generation i g : 0 <= i < 2 ^ 32 -> 0 <= g < 2 ^ 32 -> u32 (Z.shiftr (i + g * 2 ^ 32) 32) = g /\ u32 (i + g * 2 ^ 32) = i.
Proof. intros Hi Hg. rewrite Z.shiftr_div_pow2, Z.div_add, Z.div_small by lia. split; [by apply u32_id|]. unfold u32. by rewrite Z_mod_plus_full, Z.mod_small. Qed.

(** An identity whose entry is gone: the entry is free or in a later generation. *)
Definition retired (s : shape) (ident : Z) : Prop :=
  exists i c g, ident = i + g * 2 ^ 32 /\ cell_at (sh_cells s) i = Some c /\ 0 < g < 2 ^ 32 /\ (g < c_generation c \/ g = c_generation c /\ c_occupied c = 0).

Lemma retired_ages s s' ident : ages s s' -> retired s ident -> retired s' ident.
Proof.
  intros A (i & c & g & Hid & Hc & Hg & Hr). destruct (A i c Hc) as (c' & Hc' & G & O). exists i, c', g. split; [done|]. split; [done|]. split; [done|].
  destruct Hr as [?|[-> Ho]]; [left; lia|]. destruct (decide (c_generation c' = c_generation c)); [right; by split; [|apply O]|left; lia].
Qed.

Lemma put_put i c d cells : put_cell i c (put_cell i d cells) = put_cell i c cells.
Proof. apply list_insert_insert_eq. Qed.

(** The bytes of an entry that was freed. *)
Definition freed_cell (gen free : Z) : gostring := if gen =? 2 ^ 32 - 1 then set_word 4 gen (entry_buffer l) else set_word 12 free (set_word 4 gen (entry_buffer l)).

Lemma freed_cell_ok gen free : 0 <= gen < 2 ^ 32 -> 0 <= free < 2 ^ 32 ->
  c_occupied (freed_cell gen free) = 0 /\ c_generation (freed_cell gen free) = gen /\ (gen <> 2 ^ 32 - 1 -> c_next (freed_cell gen free) = free).
Proof.
  intros Hg Hf. pose proof (offsets_ok st L) as (O1 & _). assert (Z.of_nat (length (entry_buffer l)) = entryStride l) as Hl by (unfold entry_buffer; rewrite length_replicate; lia).
  assert (field (entry_buffer l) 0 = 0) as Hz by (unfold field, window, entry_buffer; rewrite drop_replicate, take_replicate, Nat.min_l by lia; change (Z.to_nat 4) with 4%nat; done).
  unfold freed_cell, c_occupied, c_generation, c_next. destruct (Z.eqb_spec gen (2 ^ 32 - 1)) as [E|E].
  - rewrite field_set_other, field_set by lia. done.
  - rewrite !(field_set_other 12), field_set_other, !field_set by (rewrite ?set_word_length; lia). done.
Qed.

(** Clearing an entry, with its generation kept and, unless it was the last one, in front of the list of free entries. *)
Lemma free_entry_ok n a s i at_ c gen free : mem_rep st n a s -> place_of l (sh_slabs s) i at_ -> cell_at (sh_cells s) i = Some c ->
  exists a', (forall B (k : Z -> mapM B), (let~ _ := writing (fun h => clear h (fst at_) (snd at_) (entryStride l)) in
                let~ _ := writeWord (fst at_) (u32 (snd at_ + 4)) gen in
                let~ free := if gen =? 2 ^ 32 - 1 then st_return free else let~ _ := writeWord (fst at_) (u32 (snd at_ + 12)) free in st_return i in k free) a =
              k (if gen =? 2 ^ 32 - 1 then free else i) a') /\
    mem_rep st n a' (with_cells (put_cell i (freed_cell gen free) (sh_cells s)) s) /\ kept st s a a'.
Proof.
  intros M P Hc. pose proof (offsets_ok st L) as (O1 & _). destruct (mem_clear st L n a s i at_ c M P Hc) as (a1 & E1 & M1 & K1).
  assert (forall x y, cell_at (put_cell i x (sh_cells s)) i = Some y -> y = x) as Hsame by (intros x y Hy; rewrite (cell_put _ _ _ _ _ Hc), decide_True in Hy by done; by injection Hy).
  assert (forall x, cell_at (put_cell i x (sh_cells s)) i = Some x) as Hat by (intros x; by rewrite (cell_put _ _ _ _ _ Hc), decide_True).
  destruct (mem_set_word st L n a1 _ i at_ _ 4 gen M1 P (Hat _) ltac:(lia) ltac:(lia)) as (a2 & E2 & M2 & K2). unfold with_cells in M2. cbn [sh_header sh_slabs sh_cells sh_table] in M2. rewrite put_put in M2.
  assert (kept st s a a2) as Kp by (eapply kept_trans; [done|]; by eapply kept_as; [|exact K2]).
  unfold freed_cell. destruct (gen =? 2 ^ 32 - 1); [exists a2; split; [intros B k; by rewrite (st_bind_ok _ _ _ _ _ E1), (st_bind_ok _ _ _ _ _ E2)|done]|].
  destruct (mem_set_word st L n a2 _ i at_ _ 12 free M2 P (Hat _) ltac:(lia) ltac:(lia)) as (a3 & E3 & M3 & K3). unfold with_cells in M3. cbn [sh_header sh_slabs sh_cells sh_table] in M3. rewrite put_put in M3.
  exists a3. split; [intros B k; rewrite (st_bind_ok _ _ _ _ _ E1), (st_bind_ok _ _ _ _ _ E2); unfold st_bind; by rewrite E3|]. split; [done|]. eapply kept_trans; [done|]. by eapply kept_as; [|exact K3].
Qed.

(** Taking an entry out of its chain. *)
Lemma unlink_ok n a s entries b head l1 i l2 c hash : mem_rep st n a s -> map_ok s entries -> sh_table s !! b = Some head -> hash mod Z.of_nat (length (sh_table s)) = Z.of_nat b ->
  linked (sh_cells s) head (l1 ++ i :: l2) -> occupied_cell (sh_cells s) i c ->
  exists a' cells' table', (if default 0 (last l1) =? 0 then let~ count := bucket_count (sh_header s) in writeWord (hbuckets (sh_header s)) (u32 (hash mod count * 4)) (c_next c)
      else let~ before := location st (sh_header s) (default 0 (last l1)) in writeWord (fst before) (u32 (snd before + 12)) (c_next c)) a = (Ok tt, a') /\
    mem_rep st n a' (mkShape (sh_header s) (sh_slabs s) cells' table') /\ kept st s a a' /\ relinked st (sh_cells s) cells' /\ length table' = length (sh_table s) /\
    chains_without i (sh_cells s) cells' table' /\ free_list (sh_cells s) cells' (hcreated (sh_header s)) (hfree (sh_header s)).
Proof.
  intros M I Hb Hh Hl [Hc Ho]. pose proof (offsets_ok st L) as (O1 & _). destruct (nonempty_cell _ _ _ _ _ _ M Hc) as [Hne Hi].
  assert (0 <= c_next c < 2 ^ 32) as Hnr.
  { pose proof (linked_tail _ _ _ Hl _ _ _ eq_refl) as Ht. destruct (linked_next _ _ _ _ Ht ltac:(lia) Hc) as (rest & _ & Hr). apply linked_range in Hr.
    pose proof (hw_capacity _ (mr_words _ _ _ _ M)). rewrite (cells_capacity _ _ _ M) in *. lia. }
  destruct l1 as [|x l1 _] using rev_ind; cbn [last app default].
  - cbn [last default Z.eqb]. destruct (mem_bucket_count st n a s M Hne) as (e & _ & _ & _ & Eb). rewrite (st_bind_ok _ _ _ _ _ Eb), Hh.
    destruct (mem_set_bucket st n a s b (c_next c) M) as (a' & Ew & M' & Kp); [by eapply lookup_lt_Some|done|]. exists a', (sh_cells s), (<[b := c_next c]> (sh_table s)). split; [done|]. split; [done|].
    split; [done|]. split; [apply relinked_refl|]. split; [apply length_insert|]. split; [by eapply unlink_head|by eapply free_list_same].
  - rewrite last_snoc. change (default 0 (Some x)) with x. rewrite <- app_assoc in Hl. cbn [app] in Hl. assert (x ∈ l1 ++ x :: i :: l2) as Hx by (apply elem_of_app; right; left).
    destruct (mo_chains _ _ _ I b head Hb) as (chain & Hl' & Hin). rewrite (linked_det _ _ _ Hl' _ Hl) in Hin. apply Hin in Hx as (cx & Hox & _). pose proof Hox as [Hcx _].
    pose proof (nonempty_cell _ _ _ _ _ _ M Hcx) as [_ Hxr]. rewrite (proj2 (Z.eqb_neq _ _)) by lia. destruct (mem_location st L n a s x cx M Hcx) as (at_ & P & El). rewrite (st_bind_ok _ _ _ _ _ El).
    destruct (mem_set_word st L n a s x at_ cx 12 (c_next c) M P Hcx ltac:(lia) ltac:(lia)) as (a' & Ew & M' & Kp). pose proof (cell_length _ _ _ _ _ M Hcx) as Hlx.
    exists a', (put_cell x (set_word 12 (c_next c) cx) (sh_cells s)), (sh_table s). split; [done|]. split; [done|]. split; [done|].
    split; [eapply relinked_put; [apply relinked_refl|done|by apply set_next_same]|]. split; [done|]. split; [by eapply unlink_later|by eapply free_list_put].
Qed.

Lemma deleteEntry_ok n a s entries key : mem_rep st n a s -> map_ok s entries ->
  exists a' s' entries', deleteEntry st key a = (Ok tt, a') /\ moved n a s a' s' entries' /\
    ((exists i e, present entries key i e /\ entries' = delete i entries /\ retired s' (entry_identity e)) \/ (absent entries key /\ entries' = entries)).
Proof.
  intros M I. unfold deleteEntry. rewrite (st_bind_ok _ _ _ _ _ (readHeader_ok st n a s M)).
  destruct (find_ok st L n a s entries key M I) as [(b & head & l1 & i & l2 & c & Hr & Hb & Hh & Hl & Ho & Hkc & Ef)|[Ef Hno]]; rewrite (st_bind_ok _ _ _ _ _ Ef).
  2: { exists a, s, entries. split; [done|]. split; [split; [done|done|apply ages_refl|eapply kept_spared; [apply kept_refl|done]]|]. right. split; [by apply (absent_cells s)|done]. }
  set (h := sh_header s) in *. pose proof Ho as [Hc Hoc]. pose proof (offsets_ok st L) as (O1 & _). destruct (nonempty_cell _ _ _ _ _ _ M Hc) as [_ Hi]. fold h in Hi.
  pose proof (mr_words _ _ _ _ M) as [W1 W2 W3 W4 W5 W6]. fold h in W1, W2, W3, W4, W5, W6. pose proof (mo_generation _ _ _ I i c Hc) as Hg. destruct (mo_occupied _ _ _ I i c Ho) as (_ & Hgp & _).
  destruct (mem_location st L n a s i c M Hc) as (at_ & P & El). rewrite (st_bind_ok _ _ _ _ _ El). fold h in El.
  erewrite st_bind_ok by (apply (mem_word st L n a s i at_ c 12 M P Hc); lia). fold (c_next c).
  destruct (unlink_ok n a s entries b head l1 i l2 c (managedMapKeyHash key) M I Hb Hh Hl Ho) as (a1 & cells1 & table1 & E1 & M1 & K1 & R1 & Ht1 & Hch & Hfr). fold h in E1. rewrite (st_bind_ok _ _ _ _ _ E1).
  rewrite identity_value by lia. rewrite (proj1 (identity_generation i (c_generation c) ltac:(lia) ltac:(lia))). set (g := c_generation c) in *.
  destruct (proj2 R1 i c Hc) as (ci & Hci & _). destruct (free_entry_ok n a1 (mkShape h (sh_slabs s) cells1 table1) i at_ ci g (hfree h) M1 P Hci) as (a2 & E2 & M2 & K2). rewrite E2.
  set (free' := if g =? 2 ^ 32 - 1 then hfree h else i) in *. destruct (freed_cell_ok g (hfree h) Hg W6) as (F1 & F2 & F3). set (c' := freed_cell g (hfree h)) in *.
  pose proof (map_delete_ok st s entries i c c' cells1 table1 free' I Ho R1 Ht1 Hch Hfr F1 F2) as I'. fold h g in I'. specialize (I' ltac:(unfold free'; destruct (Z.eqb_spec g (2 ^ 32 - 1)); auto)).
  assert (0 < hcount h) as Hcnt.
  { unfold h. rewrite (mo_count _ _ _ I). assert (size entries <> 0%nat); [|lia]. apply map_size_non_empty_iff. intros E. assert (entries !! i = Some (entry_of i c)) as X by (apply (mo_entries _ _ _ I); by exists c). by rewrite E, lookup_empty in X. }
  destruct (mem_write_header st n a2 _ (deleted_header h free') M2) as (a3 & E3 & M3 & K3); [|done|done|done|].
  { split; cbn [deleted_header hdirectory hbuckets hcount hcreated hcapacity hfree]; try done; [lia|]. unfold free'. case_if; lia. }
  exists a3, (mkShape (deleted_header h free') (sh_slabs s) (put_cell i c' cells1) table1), (delete i entries). split; [rewrite (u32_id (hcount h - 1)) by lia; exact E3|]. split.
  - split; [exact M3|exact I'| |].
    + intros j x Hx. cbn [sh_cells]. rewrite (cell_put _ _ _ _ _ Hci). case_decide as Ej; [subst; exists c'; assert (x = c) as -> by congruence; rewrite F1, F2; done|].
      destruct (proj2 R1 j x Hx) as (y & Hy & S). exists y. rewrite (se_generation _ _ _ S), (se_occupied _ _ _ S). split; [done|]. split; [lia|done].
    + eapply kept_spared; [|done]. eapply kept_trans; [exact K1|]. eapply kept_trans; [by eapply kept_as; [|exact K2]|by eapply kept_as; [|exact K3]].
  - left. exists i, (entry_of i c). split; [split; [done|]; split; [apply (mo_entries _ _ _ I); by exists c|done]|]. split; [done|].
    exists i, c', g. rewrite identity_value by lia. cbn [sh_cells]. rewrite (cell_put _ _ _ _ _ Hci), decide_True by done. rewrite F1, F2. split_and!; try done; [lia|auto].
Qed.

(** ** All entries deleted *)

Lemma mem_clear_table n a s e : mem_rep st n a s -> sh_slabs s <> [] -> obj_size e = 4 * Z.of_nat (length (sh_table s)) ->
  exists a', writing (fun h => clear h (hbuckets (sh_header s)) 0 (obj_size e)) a = (Ok tt, a') /\ mem_rep st n a' (with_table (replicate (length (sh_table s)) 0) s) /\ kept st s a a'.
Proof.
  intros M Hne He. destruct (mr_full _ _ _ _ M Hne) as (V1 & V2 & F1 & (bytes & Hp & Hl & _) & Hr & Hnd). destruct (distinct_slabs _ _ _ _ M Hne) as (D1 & D2 & D3 & D4 & D5 & D6 & D7).
  destruct (writing_clear n a _ bytes 0 (obj_size e) (mr_owner _ _ _ _ M) Hp ltac:(lia) ltac:(lia) ltac:(lia)) as (a' & E & W). exists a'. split; [done|].
  split; [|eapply wrote_kept; [done|]; do 2 right; left]. split; cbn [with_table sh_header sh_slabs sh_cells sh_table]; try apply M; try done.
  - apply W.
  - rewrite (wr_others _ _ _ _ _ W) by congruence. apply M.
  - eapply slabs_frame; [|apply M]. intros q Hq. apply W. intros ->. done.
  - intros _. split; [done|]. split; [done|]. split; [eapply dir_frame; [apply W; congruence|done]|]. rewrite length_replicate. split; [|done].
    eexists. split; [apply W|]. rewrite length_inserts, length_replicate. split; [done|]. intros b w [-> Hb]%lookup_replicate. split; [|lia].
    rewrite inserts_all by (rewrite length_replicate; lia). unfold window. rewrite drop_replicate, take_replicate, Nat.min_l by lia. done.
Qed.

(** The entries above [k] are free. *)
Record cleared_above (n : Z) (s : shape) (k : Z) (a : allocator) (cells : list gostring) (free : Z) : Prop := {
  ca_mem : mem_rep st n a (with_cells cells s);
  ca_length : length cells = length (sh_cells s);
  ca_cells : forall j d, cell_at (sh_cells s) j = Some d -> exists d', cell_at cells j = Some d' /\ c_generation d' = c_generation d /\
    (j <= k \/ hcreated (sh_header s) < j -> d' = d) /\ (k < j <= hcreated (sh_header s) -> c_occupied d' = 0);
  ca_free : exists chain, linked cells free chain /\ forall i, i ∈ chain <-> exists c, cell_at cells i = Some c /\ k < i <= hcreated (sh_header s) /\ c_generation c <> 2 ^ 32 - 1
}.

Lemma clear_loop_ok n s : (forall i c, cell_at (sh_cells s) i = Some c -> 0 <= c_generation c < 2 ^ 32) -> hcreated (sh_header s) <= hcapacity (sh_header s) ->
  hcapacity (sh_header s) = Z.of_nat (length (sh_cells s)) -> hcapacity (sh_header s) < 2 ^ 32 -> forall index a cells free, Z.of_nat index <= hcreated (sh_header s) -> cleared_above n s (Z.of_nat index) a cells free ->
  exists a' cells' free', clear_loop index st (sh_header s) free a = (Ok free', a') /\ cleared_above n s 0 a' cells' free' /\ kept st s a a'.
Proof.
  intros Hgen Hcr Hcap Hcw. pose proof (offsets_ok st L) as (O1 & _). induction index as [|index IH]; intros a cells free Hi C; [exists a, cells, free; split; [done|]; split; [done|apply kept_refl]|].
  cbn [clear_loop]. destruct C as [M Hlen Hcells (chain & Hl & Hin)]. set (i := Z.of_nat (S index)) in *.
  destruct (cell_at_is (sh_cells s) i ltac:(lia)) as [d Hd]. destruct (Hcells i d Hd) as (d' & Hd' & _ & Hsame & _). rewrite Hsame in Hd' by lia. clear Hsame d'.
  destruct (mem_location st L n a _ i d M Hd') as (at_ & P & El). cbn [with_cells sh_header] in El. rewrite (st_bind_ok _ _ _ _ _ El).
  erewrite st_bind_ok by (apply (mem_word st L n a _ i at_ d 4 M P Hd'); lia). fold (c_generation d). pose proof (Hgen i d Hd) as Hg.
  assert (0 <= free < 2 ^ 32) as Hfree by (apply linked_range in Hl; lia).
  destruct (free_entry_ok n a (with_cells cells s) i at_ d (c_generation d) free M P Hd') as (a1 & E1 & M1 & K1). rewrite E1. clear E1.
  destruct (freed_cell_ok (c_generation d) free Hg Hfree) as (F1 & F2 & F3). set (c' := freed_cell (c_generation d) free) in *.
  destruct (IH a1 (put_cell i c' cells) (if c_generation d =? 2 ^ 32 - 1 then free else i)) as (a2 & cells2 & free2 & E2 & C2 & K2); [lia| |].
  2: { exists a2, cells2, free2. split; [done|]. split; [done|]. eapply kept_trans; [by eapply kept_as; [|exact K1]|exact K2]. }
  split; [exact M1|by rewrite put_cell_length| |].
  - intros j x Hx. rewrite (cell_put _ _ _ _ _ Hd'). case_decide as Ej; [subst j; exists c'; assert (x = d) as -> by congruence; split_and!; try done; lia|].
    destruct (Hcells j x Hx) as (y & Hy & H1 & H2 & H3). exists y. split_and!; try done; [intros; apply H2; lia|intros; apply H3; lia].
  - assert (i ∉ chain) as Hni by (intros X; apply Hin in X as (? & _ & ? & _); lia).
    assert (forall j, j <> i -> (j ∈ chain <-> exists c, cell_at (put_cell i c' cells) j = Some c /\ Z.of_nat index < j <= hcreated (sh_header s) /\ c_generation c <> 2 ^ 32 - 1)) as Hold.
    { intros j Hj. rewrite Hin, (cell_put _ _ _ _ _ Hd'), decide_False by done. split; intros (x & Hx & H1 & H2); exists x; (split; [done|]; split; [lia|done]). }
    destruct (Z.eqb_spec (c_generation d) (2 ^ 32 - 1)) as [E|E].
    + exists chain. split; [by eapply linked_put|]. intros j. destruct (decide (j = i)) as [->|Hj]; [|by apply Hold]. split; [done|]. intros (x & Hx & _ & Hxg). rewrite (cell_put _ _ _ _ _ Hd'), decide_True in Hx by done.
      injection Hx as <-. congruence.
    + exists (i :: chain). split; [by eapply linked_push; [| | |apply F3]|]. intros j. rewrite elem_of_cons. destruct (decide (j = i)) as [->|Hj]; [|rewrite <- Hold by done; intuition].
      split; [intros _|by left]. exists c'. rewrite (cell_put _ _ _ _ _ Hd'), decide_True by done. split; [done|]. split; [lia|]. by rewrite F2.
Qed.

Lemma clear_map_ok n a s entries : mem_rep st n a s -> map_ok s entries ->
  exists a' s', clear_map st a = (Ok tt, a') /\ moved n a s a' s' ∅ /\ forall i e, entries !! i = Some e -> retired s' (entry_identity e).
Proof.
  intros M I. unfold clear_map. rewrite (st_bind_ok _ _ _ _ _ (readHeader_ok st n a s M)). pose proof (cells_capacity _ _ _ M) as Hcc. pose proof (mr_words _ _ _ _ M) as [W1 W2 W3 W4 W5 W6].
  destruct (decide (sh_slabs s = [])) as [E|Hne].
  - destruct (mr_empty _ _ _ _ M E) as (_ & -> & _). assert (entries = ∅) as ->.
    { apply map_eq. intros i. rewrite lookup_empty. destruct (entries !! i) as [e|] eqn:Ee; [|done]. apply (mo_entries _ _ _ I) in Ee as (c & [Hc _] & _). by destruct (nonempty_cell _ _ _ _ _ _ M Hc). }
    exists a, s. split; [done|]. split; [|by intros i e; rewrite lookup_empty]. split; [done|done|apply ages_refl|eapply kept_spared; [apply kept_refl|done]].
  - destruct (mr_full _ _ _ _ M Hne) as (_ & -> & _). cbn [negb]. destruct (mem_bucket_count st n a s M Hne) as (e & Ee & Hes & _). rewrite (st_bind_ok _ _ _ _ _ Ee).
    destruct (mem_clear_table n a s e M Hne Hes) as (a1 & E1 & M1 & K1). rewrite (st_bind_ok _ _ _ _ _ E1). set (s1 := with_table (replicate (length (sh_table s)) 0) s) in *. change (sh_header s) with (sh_header s1) at 1 2.
    destruct (clear_loop_ok n s1 (mo_generation _ _ _ I) (mo_created _ _ _ I) Hcc (proj2 W5) (Z.to_nat (hcreated (sh_header s1))) a1 (sh_cells s1) 0) as (a2 & cells2 & free2 & E2 & [M2 Hlen2 Hc2 Hf2] & K2).
    { cbn [s1 with_table sh_header]. lia. }
    { split; [by destruct s|done| |].
      - intros j d Hd. exists d. split_and!; try done. cbn [s1 with_table sh_header] in *. lia.
      - exists []. split; [constructor|]. intros j. split; [intros X; by apply not_elem_of_nil in X|]. cbn [s1 with_table sh_header]. intros (x & _ & ? & _). lia. }
    rewrite (st_bind_ok _ _ _ _ _ E2). cbn [s1 with_table sh_header sh_cells] in *.
    destruct (mem_write_header st n a2 _ (mkHeader (hdirectory (sh_header s)) (hbuckets (sh_header s)) 0 (hcreated (sh_header s)) (hcapacity (sh_header s)) free2) M2) as (a3 & E3 & M3 & K3); [|done|done|done|].
    { destruct Hf2 as (chain & Hl & _). apply linked_range in Hl. split; try done. cbn [hfree]. lia. }
    eexists a3, _. split; [exact E3|]. split; [split; [exact M3| | |]|].
    + apply (map_clear_ok st s entries cells2 free2 I Hlen2).
      * intros j d Hd. destruct (Hc2 j d Hd) as (d' & Hd' & H1 & H2 & H3). pose proof (cell_at_Some _ _ _ Hd) as [Hj _]. exists d'. split_and!; try done; [intros; apply H3; lia|intros; apply H2; lia].
      * destruct Hf2 as (chain & Hl & Hin). exists chain. split; [done|]. intros j. rewrite Hin. split; intros (x & Hx & H1 & H2); exists x; (split; [done|]).
        -- split; [lia|]. split; [|done]. pose proof (cell_at_Some _ _ _ Hx) as [Hj _]. rewrite Hlen2 in Hj. destruct (cell_at_is _ _ Hj) as [y Hy]. destruct (Hc2 j y Hy) as (z & Hz & _ & _ & H3).
           assert (z = x) as -> by congruence. by apply H3.
        -- pose proof (cell_at_Some _ _ _ Hx) as [Hj _]. split; [lia|]. by destruct H2.
    + intros j d Hd. destruct (Hc2 j d Hd) as (d' & Hd' & H1 & H2 & H3). cbn [with_header with_cells with_table sh_cells]. exists d'. split; [done|]. split; [lia|]. intros _ Ho. pose proof (cell_at_Some _ _ _ Hd) as [Hj _].
      destruct (Z.le_gt_cases j (hcreated (sh_header s))); [apply H3; lia|]. rewrite H2 by lia. done.
    + eapply kept_spared; [|done]. eapply kept_trans; [exact K1|]. eapply kept_trans; [by eapply kept_as; [|exact K2]|by eapply kept_as; [|exact K3]].
    + intros i x Hx. apply (mo_entries _ _ _ I) in Hx as (c & Ho & ->). pose proof Ho as [Hc _]. destruct (mo_occupied _ _ _ I i c Ho) as (Hi & Hg & _). pose proof (mo_generation _ _ _ I i c Hc) as Hgr.
      pose proof (cell_at_Some _ _ _ Hc) as [Hir _]. destruct (Hc2 i c Hc) as (c' & Hc' & H1 & _ & H3). exists i, c', (c_generation c). rewrite identity_value by lia. split_and!; try done; [lia|]. right. split; [done|apply H3; lia].
Qed.
End operations.
