(* ===== verification/MapRun.v ===== *)
(** * Managed maps refine finite maps (src/runtime/managed_map.go)

    What the observers of a map return, sequences of operations as steps of an abstract map, the identities
    of entries along such a sequence, and the construction of a map. *)

From S2P Require Import Prelude GoStd GoBytes Heap Allocator AllocatorSafe AllocatorRun MapStorage MapMemory MapRep MapShape MapTable MapUpdate MapGrow MapOps.

#[local] Open Scope Z_scope.
#[local] Arguments Z.to_nat : simpl never.
#[local] Arguments Z.pow : simpl never.

Section run.
Context {K V : Type} `{MapElements K V}.
Context (st : managedMapStorage) (L : layout_ok (prepared_layout st)).

#[local] Abbreviation l := (prepared_layout st).
#[local] Abbreviation map_ok := (map_ok st).
#[local] Abbreviation entry_of := (entry_of st).
#[local] Abbreviation entry := (vmMapEntry (K := K) (V := V)).

(** ** Observers *)

Lemma length_ok n a s entries : mem_rep st n a s -> map_ok s entries -> map_length st a = Z.of_nat (size entries).
Proof. intros M I. unfold map_length. rewrite (readHeader_ok st n a s M). apply (mo_count _ _ _ I). Qed.

Lemma loadEntry_ok n a s entries key : mem_rep st n a s -> map_ok s entries ->
  (exists i e, present entries key i e /\ loadEntry st key a = Some e) \/ (absent entries key /\ loadEntry st key a = None).
Proof.
  intros M I. unfold loadEntry. rewrite (st_bind_ok _ _ _ _ _ (readHeader_ok st n a s M)).
  destruct (find_ok st L n a s entries key M I) as [(b & head & l1 & i & l2 & c & Hr & _ & _ & _ & Ho & Hkc & Ef)|[Ef Hno]]; rewrite Ef.
  - left. exists i, (entry_of i c). split; [|done]. split; [done|]. split; [apply (mo_entries _ _ _ I); by exists c|done].
  - right. split; [by apply (absent_cells st s)|done].
Qed.

(** The identity of an entry, within its bounds. *)
Lemma identity_bounds n a s entries i c : mem_rep st n a s -> map_ok s entries -> occupied_cell (sh_cells s) i c ->
  1 <= i < 2 ^ 32 /\ 0 < c_generation c < 2 ^ 32 /\ i <= hcreated (sh_header s) /\ entry_identity (entry_of i c) = i + c_generation c * 2 ^ 32.
Proof.
  intros M I Ho. pose proof Ho as [Hc _]. destruct (nonempty_cell _ _ _ _ _ _ M Hc) as [_ Hi]. pose proof (hw_capacity _ (mr_words _ _ _ _ M)). destruct (mo_occupied _ _ _ I i c Ho) as (Hcr & Hg & _).
  pose proof (mo_generation _ _ _ I i c Hc). split; [lia|]. split; [lia|]. split; [done|]. apply identity_value; lia.
Qed.

Lemma loadIdentity_ok n a s entries i e : mem_rep st n a s -> map_ok s entries -> entries !! i = Some e -> loadIdentity st (entry_identity e) a = Some e.
Proof.
  intros M I He. apply (mo_entries _ _ _ I) in He as (c & Ho & ->). destruct (identity_bounds _ _ _ _ _ _ M I Ho) as (Hi & Hg & Hcr & Hid). pose proof Ho as [Hc Hoc].
  unfold loadIdentity. rewrite Hid. destruct (identity_generation i (c_generation c) ltac:(lia) ltac:(lia)) as [-> ->]. rewrite (proj2 (Z.eqb_neq _ _)) by lia.
  rewrite (st_bind_ok _ _ _ _ _ (readHeader_ok st n a s M)). rewrite (readEntry_ok st L n a s i (c_generation c) c M Hc Hcr). rewrite (proj2 (Z.eqb_neq (c_occupied c) 0)) by done.
  rewrite Z.eqb_refl. cbn [negb orb]. rewrite andb_false_r. done.
Qed.

Lemma retired_gone n a s entries ident : mem_rep st n a s -> map_ok s entries -> retired s ident -> loadIdentity st ident a = None.
Proof.
  intros M I (i & c & g & -> & Hc & Hg & Hr). destruct (nonempty_cell _ _ _ _ _ _ M Hc) as [_ Hi]. pose proof (hw_capacity _ (mr_words _ _ _ _ M)) as Hw. unfold loadIdentity.
  destruct (identity_generation i g ltac:(lia) ltac:(lia)) as [-> ->]. rewrite (proj2 (Z.eqb_neq (i + g * 2 ^ 32) 0)) by lia. rewrite (st_bind_ok _ _ _ _ _ (readHeader_ok st n a s M)).
  destruct (Z.le_gt_cases i (hcreated (sh_header s))) as [Hcr|Hcr]; [|unfold readEntry; rewrite (proj2 (Z.ltb_lt _ _) Hcr), orb_true_r; done].
  rewrite (readEntry_ok st L n a s i g c M Hc Hcr). destruct Hr as [Hlt|[_ Ho]]; [|by rewrite Ho].
  rewrite (proj2 (Z.eqb_neq g 0)), (proj2 (Z.eqb_neq g (c_generation c))) by lia. by rewrite orb_true_r.
Qed.

(** The occupied entries from [i] on, in order. *)
Definition occupied_from (cells : list gostring) (i : Z) (count : nat) : list (Z * gostring) :=
  omap (fun j => match cell_at cells j with Some c => if c_occupied c =? 0 then None else Some (j, c) | None => None end) (seqZ i (Z.of_nat count)).

Lemma occupied_from_elem cells i count j c : (j, c) ∈ occupied_from cells i count <-> occupied_cell cells j c /\ i <= j < i + Z.of_nat count.
Proof.
  unfold occupied_from. rewrite list_elem_of_omap. split.
  - intros (k & Hk & E). apply elem_of_seqZ in Hk. destruct (cell_at cells k) as [d|] eqn:Ed; [|done]. destruct (Z.eqb_spec (c_occupied d) 0); [done|]. injection E as -> ->. by split.
  - intros [[Hc Ho] Hj]. exists j. split; [by apply elem_of_seqZ|]. by rewrite Hc, (proj2 (Z.eqb_neq _ _)).
Qed.

Lemma occupied_from_indices cells i count : NoDup (occupied_from cells i count).*1.
Proof.
  unfold occupied_from. pose proof (NoDup_seqZ i (Z.of_nat count)) as Hnd. induction (seqZ i (Z.of_nat count)) as [|j js IH]; [constructor|].
  apply NoDup_cons in Hnd as [Hj Hnd]. cbn [omap list_omap]. destruct (cell_at cells j) as [c|]; [|by apply IH]. destruct (c_occupied c =? 0); [by apply IH|]. cbn [fmap list_fmap fst]. constructor; [|by apply IH].
  intros X. apply list_elem_of_fmap in X as ([k d] & Ek & X). cbn in Ek. subst k. apply list_elem_of_omap in X as (k & Hk & E). destruct (cell_at cells k) as [x|]; [|done]. destruct (c_occupied x =? 0); [done|]. injection E as -> ->. done.
Qed.

Lemma occupied_from_cons cells i c count : cell_at cells i = Some c ->
  occupied_from cells i (S count) = if c_occupied c =? 0 then occupied_from cells (i + 1) count else (i, c) :: occupied_from cells (i + 1) count.
Proof.
  intros Hc. unfold occupied_from. rewrite seqZ_cons by lia. cbn [omap list_omap]. rewrite Hc. replace (Z.pred (Z.of_nat (S count))) with (Z.of_nat count) by lia. by destruct (c_occupied c =? 0).
Qed.

(** The identities of the occupied entries. *)
Lemma identities_loop_ok n a s : mem_rep st n a s -> forall count i, 1 <= i -> i + Z.of_nat count <= Z.of_nat (length (sh_cells s)) + 1 ->
  identities_loop count st (sh_header s) i a = (Ok (map (fun x => entry_identity (entry_of (fst x) (snd x))) (occupied_from (sh_cells s) i count)), a).
Proof.
  intros M. pose proof (offsets_ok st L) as (O1 & _). induction count as [|count IH]; intros i Hi Hc; [done|]. cbn [identities_loop]. destruct (cell_at_is (sh_cells s) i ltac:(lia)) as [c Hcell].
  destruct (mem_location st L n a s i c M Hcell) as (at_ & P & El). rewrite (st_bind_ok _ _ _ _ _ El). erewrite st_bind_ok by (apply (mem_read0 st L n a s i at_ c 8 M P Hcell); lia).
  rewrite !field_window by lia. rewrite (st_bind_ok _ _ _ _ _ (IH (i + 1) ltac:(lia) ltac:(lia))). rewrite (occupied_from_cons _ _ _ _ Hcell). fold (c_occupied c) (c_generation c). by destruct (c_occupied c =? 0).
Qed.

(** Every entry has one identity, and the entries are listed by them. *)
Lemma entries_listed n a s entries : mem_rep st n a s -> map_ok s entries ->
  let cs := occupied_from (sh_cells s) 1 (Z.to_nat (hcreated (sh_header s))) in
  (forall e, e ∈ map (fun x => entry_of (fst x) (snd x)) cs <-> exists i, entries !! i = Some e) /\ NoDup (map (fun x => entry_identity (entry_of (fst x) (snd x))) cs) /\ length cs = size entries.
Proof.
  intros M I cs. pose proof (hw_created _ (mr_words _ _ _ _ M)) as Hcr.
  assert (forall i c, (i, c) ∈ cs <-> occupied_cell (sh_cells s) i c) as Hcs.
  { intros i c. unfold cs. rewrite occupied_from_elem. split; [by intros [? _]|]. intros Ho. split; [done|]. destruct (identity_bounds _ _ _ _ _ _ M I Ho) as (Hi & _ & Hc & _). lia. }
  split; [|split].
  - intros e. rewrite list_elem_of_In, in_map_iff. split.
    + intros ([i c] & <- & Hin). apply list_elem_of_In, Hcs in Hin. exists i. apply (mo_entries _ _ _ I). by exists c.
    + intros (i & He). apply (mo_entries _ _ _ I) in He as (c & Ho & ->). exists (i, c). split; [done|]. by apply list_elem_of_In, Hcs.
  - pose proof (occupied_from_indices (sh_cells s) 1 (Z.to_nat (hcreated (sh_header s)))) as Hnd. fold cs in Hnd.
    apply NoDup_fmap_2_strong; [|by eapply NoDup_fmap_1]. intros [i c] [j d] Hx Hy E. cbn [fst snd] in E. apply Hcs in Hx, Hy.
    destruct (identity_bounds _ _ _ _ _ _ M I Hx) as (Hi & Hg & _ & E1), (identity_bounds _ _ _ _ _ _ M I Hy) as (Hj & Hg2 & _ & E2).
    rewrite E1, E2 in E. assert (i = j) as -> by lia. destruct Hx, Hy. congruence.
  - pose proof (occupied_from_indices (sh_cells s) 1 (Z.to_nat (hcreated (sh_header s)))) as Hnd. fold cs in Hnd. rewrite <- (length_fmap fst), <- (size_list_to_set (C := gset Z) _ Hnd), <- (size_dom (D := gset Z) entries).
    f_equal. apply set_eq. intros i. rewrite elem_of_list_to_set, elem_of_dom, list_elem_of_fmap. split.
    + intros ([j c] & -> & Hin). apply Hcs in Hin. eexists. apply (mo_entries _ _ _ I). by exists c.
    + intros [e He]. apply (mo_entries _ _ _ I) in He as (c & Ho & _). exists (i, c). split; [done|by apply Hcs].
Qed.

(** The key under which a snapshot holds an entry. *)
Definition snapshot_key (key : vmMapKey) (e : entry) : vmMapKey :=
  if NonReflexive key then mkMapKey (KKind key) (TypeIdentity key) (KBool key) (KInt64 key) (KUint64 key) (KText key) true (entry_identity e) else key.

Definition snapped (e : entry) (p : vmMapKey * entry) : Prop := snd p = e /\ exists key, mapKey (Key e) = Ok key /\ fst p = snapshot_key key e.

Lemma snapshot_entries_ok n a s entries : mem_rep st n a s -> map_ok s entries -> forall count i, 1 <= i -> i + Z.of_nat count <= hcreated (sh_header s) + 1 ->
  exists r, snapshot_loop count st (sh_header s) i a = (Ok r, a) /\ Forall2 snapped (map (fun x => entry_of (fst x) (snd x)) (occupied_from (sh_cells s) i count)) r.
Proof.
  intros M I. pose proof (mo_created _ _ _ I) as Hcr. rewrite (cells_capacity st _ _ _ M) in Hcr. induction count as [|count IH]; intros i Hi Hc; [by exists []|].
  cbn [snapshot_loop]. destruct (cell_at_is (sh_cells s) i ltac:(lia)) as [c Hcell]. rewrite (st_bind_ok _ _ _ _ _ (readEntry_ok st L n a s i 0 c M Hcell ltac:(lia))).
  rewrite (occupied_from_cons _ _ _ _ Hcell). destruct (IH (i + 1) ltac:(lia) ltac:(lia)) as (r & Er & Hr). cbn [Z.eqb negb andb]. rewrite orb_false_r. destruct (Z.eqb_spec (c_occupied c) 0) as [|Ho]; [by exists r|].
  destruct (mo_occupied _ _ _ I i c (conj Hcell Ho)) as (_ & _ & key & Hkey & _). erewrite st_bind_ok by (unfold of_result; cbn [Key MapTable.entry_of]; by rewrite Hkey). rewrite (st_bind_ok _ _ _ _ _ Er).
  eexists. split; [done|]. cbn [map]. constructor; [|done]. split; [done|]. exists key. done.
Qed.

(** ** The abstract map *)

Record vm_map : Type := mkVmMap { vm_value : vmMapKey -> option V; vm_length : Z }.

Definition vm_empty : vm_map := mkVmMap (fun _ => None) 0.

(** The map that the entries are. *)
Record abstracts (entries : gmap Z entry) (m : vm_map) : Prop := {
  ab_length : vm_length m = Z.of_nat (size entries);
  ab_present : forall key i e, present entries key i e -> vm_value m key = Some (Value e);
  ab_absent : forall key, absent entries key -> vm_value m key = None
}.

Inductive map_op : Type :=
| StoreOp (key : vmMapKey) (k : K) (v : V)
| DeleteOp (key : vmMapKey)
| ClearOp.

Definition map_exec (op : map_op) : mapM unit :=
  match op with StoreOp key k v => storeEntry st key k v | DeleteOp key => deleteEntry st key | ClearOp => clear_map st end.

(** The operations are called with the key that belongs to the value. *)
Definition keyed_op (op : map_op) : Prop := match op with StoreOp key k _ => mapKey k = Ok key | _ => True end.

(** What an operation does to the abstract map: a store of a reflexive key replaces its value, any other store adds an entry that no key finds, a refused store changes nothing, the others do not fail. *)
Definition vm_step (op : map_op) (r : result map_error unit) (m m' : vm_map) : Prop :=
  match op, r with
  | StoreOp key k v, Ok _ =>
      (forall key', vm_value m' key' = if decide (NonReflexive key = false /\ key' = key) then Some v else vm_value m key') /\
      vm_length m' = vm_length m + match vm_value m key with Some _ => 0 | None => 1 end
  | StoreOp key k v, Err e => (refusal e \/ encodeValue v = Err e \/ encodeKey k = Err e) /\ m' = m
  | DeleteOp key, r => r = Ok tt /\ (forall key', vm_value m' key' = if decide (key' = key) then None else vm_value m key') /\ vm_length m' = vm_length m - match vm_value m key with Some _ => 1 | None => 0 end
  | ClearOp, r => r = Ok tt /\ (forall key', vm_value m' key' = None) /\ vm_length m' = 0
  end.

Fixpoint run_map (ops : list map_op) (a : allocator) : list (result map_error unit) * allocator :=
  match ops with
  | [] => ([], a)
  | op :: ops => let (r, a1) := map_exec op a in let (rs, a2) := run_map ops a1 in (r :: rs, a2)
  end.

Fixpoint vm_run (ops : list map_op) (rs : list (result map_error unit)) (m m' : vm_map) : Prop :=
  match ops, rs with
  | [], [] => m' = m
  | op :: ops, r :: rs => exists m1, vm_step op r m m1 /\ vm_run ops rs m1 m'
  | _, _ => False
  end.

Lemma present_unique s entries key i e j f : map_ok s entries -> present entries key i e -> present entries key j f -> j = i /\ f = e.
Proof.
  intros I (Hr & He & Hk) (_ & Hf & Hk2). pose proof He as He'. pose proof Hf as Hf'. apply (mo_entries _ _ _ I) in He as (c & Hc & ->). apply (mo_entries _ _ _ I) in Hf as (d & Hd & ->).
  assert (j = i) as -> by (by eapply (mo_unique _ _ _ I)). split; [done|]. congruence.
Qed.

Lemma present_or_absent entries key : (exists i e, present entries key i e) \/ absent entries key.
Proof.
  destruct (NonReflexive key) eqn:Er; [by right; left|].
  destruct (decide (map_Exists (fun _ e => match mapKey (Key e) with Ok k => bool_decide (k = key) | Err _ => false end = true) entries)) as [Hex|Hno].
  - destruct Hex as (i & e & He & Hk). left. exists i, e. split; [done|]. split; [done|]. destruct (mapKey (Key e)); [|done]. by apply bool_decide_eq_true in Hk as ->.
  - right. right. intros i e He Hk. apply Hno. exists i, e. split; [done|]. rewrite Hk. by apply bool_decide_eq_true.
Qed.

Lemma present_not_absent entries key i e : present entries key i e -> ~ absent entries key.
Proof. intros (Hr & He & Hk) [Ha|Ha]; [congruence|by apply (Ha i e)]. Qed.

(** [abstracts] from the keys that are present. *)
Lemma abstracts_intro entries m : vm_length m = Z.of_nat (size entries) ->
  (forall key, (exists i e, present entries key i e /\ vm_value m key = Some (Value e)) \/ (absent entries key /\ vm_value m key = None)) ->
  (forall key i e j f, present entries key i e -> present entries key j f -> f = e) -> abstracts entries m.
Proof.
  intros Hl Hv Hu. split; [done| |].
  - intros key i e Hp. destruct (Hv key) as [(j & f & Hf & ->)|[Ha _]]; [by rewrite (Hu key i e j f)|by destruct (present_not_absent _ _ _ _ Hp)].
  - intros key Ha. by destruct (Hv key) as [(j & f & Hf & _)|[_ ?]]; [destruct (present_not_absent _ _ _ _ Hf)|].
Qed.

Lemma abstracts_cases entries m : abstracts entries m -> forall key, (exists i e, present entries key i e /\ vm_value m key = Some (Value e)) \/ (absent entries key /\ vm_value m key = None).
Proof.
  intros A key. destruct (present_or_absent entries key) as [(i & e & Hp)|Ha]; [left; exists i, e; split; [done|by eapply ab_present]|right; split; [done|by apply (ab_absent _ _ A)]].
Qed.

(** A store in the abstract. *)
Lemma stored_abstracts s' entries entries' m key k v : abstracts entries m -> map_ok s' entries' -> mapKey k = Ok key -> stored key k v entries entries' ->
  exists m', vm_step (StoreOp key k v) (Ok tt) m m' /\ abstracts entries' m'.
Proof.
  intros A I' Hk S. exists (mkVmMap (fun key' => if decide (NonReflexive key = false /\ key' = key) then Some v else vm_value m key') (vm_length m + match vm_value m key with Some _ => 0 | None => 1 end)).
  split; [done|]. pose proof (abstracts_cases _ _ A) as Hc.
  apply abstracts_intro; [| |intros; by eapply (present_unique _ _ _ _ _ _ _ I')]; cbn [vm_length vm_value].
  - rewrite (ab_length _ _ A). destruct S as [(i & e & Hp & ->)|(Ha & i & ident & Hi & ->)].
    + rewrite (ab_present _ _ A _ _ _ Hp). destruct Hp as (_ & He & _). rewrite map_size_insert_Some by done. lia.
    + rewrite (ab_absent _ _ A _ Ha), map_size_insert_None by done. lia.
  - intros key'. destruct S as [(i & e & (Hr & He & Hke) & ->)|(Ha & i & ident & Hi & ->)].
    + case_decide as Ek.
      * destruct Ek as [_ ->]. left. exists i. eexists. split; [split; [done|]; split; [apply lookup_insert_eq|done]|done].
      * assert (key' <> key) as Hne by (intros ->; by apply Ek). destruct (Hc key') as [(j & f & (Hr' & Hf & Hkf) & ->)|[Ha' ->]]; [left|right].
        -- exists j, f. split; [|done]. split; [done|]. split; [|done]. rewrite lookup_insert_ne; [done|]. intros ->. congruence.
        -- split; [|done]. destruct Ha' as [?|Ha']; [by left|right]. intros j f Hf. destruct (decide (j = i)) as [->|Hj]; [rewrite lookup_insert_eq in Hf; injection Hf as <-; cbn [Key]; congruence|].
           rewrite lookup_insert_ne in Hf by done. by apply (Ha' j).
    + case_decide as Ek.
      * destruct Ek as [Hr ->]. left. eexists i, _. split; [split; [done|]; split; [apply lookup_insert_eq|done]|done].
      * destruct (Hc key') as [(j & f & (Hr' & Hf & Hkf) & ->)|[Ha' ->]]; [left|right].
        -- exists j, f. split; [|done]. split; [done|]. split; [|done]. rewrite lookup_insert_ne; [done|]. intros ->. congruence.
        -- split; [|done]. destruct Ha' as [?|Ha']; [by left|]. destruct (NonReflexive key') eqn:Er'; [by left|right]. intros j f Hf. destruct (decide (j = i)) as [->|Hj].
           ++ rewrite lookup_insert_eq in Hf. injection Hf as <-. cbn [Key]. intros E. apply Ek. assert (key' = key) as -> by congruence. done.
           ++ rewrite lookup_insert_ne in Hf by done. by apply (Ha' j).
Qed.

Lemma deleted_abstracts s' entries m key i e : abstracts entries m -> map_ok s' (delete i entries) -> present entries key i e -> (forall j f, present entries key j f -> j = i) ->
  exists m', vm_step (DeleteOp key) (Ok tt) m m' /\ abstracts (delete i entries) m'.
Proof.
  intros A I' Hp Hu. exists (mkVmMap (fun key' => if decide (key' = key) then None else vm_value m key') (vm_length m - match vm_value m key with Some _ => 1 | None => 0 end)).
  split; [done|]. pose proof (abstracts_cases _ _ A) as Hc. apply abstracts_intro; [| |intros; by eapply (present_unique _ _ _ _ _ _ _ I')]; cbn [vm_length vm_value].
  - rewrite (ab_length _ _ A), (ab_present _ _ A _ _ _ Hp). destruct Hp as (_ & He & _). rewrite map_size_delete, He.
    assert (size entries <> 0%nat); [|lia]. apply map_size_non_empty_iff. intros E. by rewrite E, lookup_empty in He.
  - intros key'. case_decide as Ek.
    + subst key'. right. split; [|done]. right. intros j f Hf Hk. apply lookup_delete_Some in Hf as [Hne Hf]. destruct Hp as (Hr & _). apply Hne. symmetry. by apply (Hu j f).
    + destruct (Hc key') as [(j & f & (Hr' & Hf & Hkf) & ->)|[Ha' ->]]; [left|right; split; [|done]].
      * exists j, f. split; [|done]. split; [done|]. split; [|done]. apply lookup_delete_Some. split; [|done]. intros ->. destruct Hp as (_ & He & Hk). congruence.
      * destruct Ha' as [?|Ha']; [by left|right]. intros j f Hf. apply lookup_delete_Some in Hf as [_ Hf]. by apply (Ha' j).
Qed.

(** Whether an operation takes the entry of a key out of the map. *)
Definition removes (op : map_op) (key : vmMapKey) : bool :=
  match op with StoreOp _ _ _ => false | DeleteOp key' => bool_decide (key' = key) | ClearOp => true end.

(** What an operation does to the identity of an entry: it retires it with the entry, or keeps it. *)
Definition identities_step (op : map_op) (entries : gmap Z entry) (s' : shape) (entries' : gmap Z entry) : Prop :=
  forall key i e, present entries key i e ->
    if removes op key then retired s' (entry_identity e) else exists e', present entries' key i e' /\ entry_identity e' = entry_identity e.

Lemma stored_identities s entries s' entries' key k v : map_ok s entries -> mapKey k = Ok key -> stored key k v entries entries' -> identities_step (StoreOp key k v) entries s' entries'.
Proof.
  intros I Hk S key0 i e Hp. cbn [removes]. pose proof Hp as (Hr & He & Hke). destruct S as [(j & f & Hf & ->)|(Ha & j & ident & Hj & ->)].
  - destruct (decide (j = i)) as [->|Hne].
    + exists (mkEntry (entry_identity f) (Key f) v). pose proof Hf as (_ & Hf2 & _). assert (f = e) as -> by congruence. split; [|done].
      split; [done|]. split; [by rewrite lookup_insert_eq|done].
    + exists e. split; [|done]. split; [done|]. by rewrite lookup_insert_ne.
  - exists e. split; [|done]. split; [done|]. rewrite lookup_insert_ne; [done|]. intros ->. congruence.
Qed.

(** An operation as a step of the abstract map. *)
Lemma map_step_full n a s entries m op : elements_ok st -> mem_rep st n a s -> map_ok s entries -> abstracts entries m -> 0 <= n -> n + 6 <= 2 ^ 30 -> keyed_op op ->
  let (r, a') := map_exec op a in exists s' entries' m', moved st (n + 6) a s a' s' entries' /\ abstracts entries' m' /\ vm_step op r m m' /\ identities_step op entries s' entries'.
Proof.
  intros El M I A Hn HN Hk. destruct op as [key k v|key|]; cbn [map_exec].
  - pose proof (storeEntry_ok st L n a s entries key k v El M I Hn HN Hk) as S. destruct (storeEntry st key k v a) as [[[]|e] a'].
    + destruct S as (s' & entries' & Mv & Hs). destruct (stored_abstracts s' entries entries' m key k v A (mv_ok _ _ _ _ _ _ _ Mv) Hk Hs) as (m' & Hm & A'). exists s', entries', m'. split_and!; try done. by eapply stored_identities.
    + destruct S as (He & M' & U). exists s, entries, m. split; [|split; [done|]; split; [done|]; intros key0 i x Hp; by exists x].
      split; [done|done|apply ages_refl|]. intros q b Hq Hb. split; [by apply U|done].
  - destruct (deleteEntry_ok st L n a s entries key M I) as (a' & s' & entries' & E & Mv & Hd). rewrite E. apply (moved_le st n (n + 6)) in Mv; [|lia]. destruct Hd as [(i & e & Hp & -> & Hret)|[Ha ->]].
    + destruct (deleted_abstracts s' entries m key i e A (mv_ok _ _ _ _ _ _ _ Mv) Hp) as (m' & Hm & A'); [intros j f Hf; by apply (present_unique s entries key i e j f I)|].
      exists s', (delete i entries), m'. split_and!; try done. intros key0 j f Hf. cbn [removes]. case_bool_decide as Ek.
      * subst key0. by destruct (present_unique s entries key i e j f I Hp Hf) as [_ ->].
      * exists f. split; [|done]. destruct Hf as (Hr & Hf & Hkf). split; [done|]. split; [|done]. apply lookup_delete_Some. split; [|done]. intros ->. destruct Hp as (_ & He & Hke). congruence.
    + exists s', entries, (mkVmMap (fun key' => if decide (key' = key) then None else vm_value m key') (vm_length m)). split; [done|]. pose proof (ab_absent _ _ A _ Ha) as Hv. split_and!.
      * destruct A as [A1 A2 A3]. split; [done| |]; cbn [vm_value]; intros key'.
        -- intros i e Hp. rewrite decide_False; [by eapply A2|]. intros ->. by destruct (present_not_absent _ _ _ _ Hp).
        -- intros Ha'. case_decide; [done|by apply A3].
      * cbn [vm_step vm_value vm_length]. rewrite Hv. split_and!; try done. lia.
      * intros key0 i e Hp. cbn [removes]. case_bool_decide as Ek; [|by exists e]. subst key0. by destruct (present_not_absent _ _ _ _ Hp).
  - destruct (clear_map_ok st L n a s entries M I) as (a' & s' & E & Mv & Hret). rewrite E. apply (moved_le st n (n + 6)) in Mv; [|lia]. exists s', ∅, vm_empty. split; [done|]. split_and!; try done.
    + split; [by rewrite map_size_empty| |done]. intros key i e (_ & He & _). by rewrite lookup_empty in He.
    + intros key i e (_ & He & _). by eapply Hret.
Qed.

Lemma map_step_ok n a s entries m op : elements_ok st -> mem_rep st n a s -> map_ok s entries -> abstracts entries m -> 0 <= n -> n + 6 <= 2 ^ 30 -> keyed_op op ->
  let (r, a') := map_exec op a in exists s' entries' m', moved st (n + 6) a s a' s' entries' /\ abstracts entries' m' /\ vm_step op r m m'.
Proof.
  intros El M I A Hn HN Hk. pose proof (map_step_full n a s entries m op El M I A Hn HN Hk) as S. destruct (map_exec op a) as [r a'].
  destruct S as (s' & entries' & m' & Mv & A' & V' & _). by exists s', entries', m'.
Qed.

Lemma run_map_ok ops : elements_ok st -> forall n a s entries m, mem_rep st n a s -> map_ok s entries -> abstracts entries m -> 0 <= n -> n + 6 * Z.of_nat (length ops) <= 2 ^ 30 -> Forall keyed_op ops ->
  exists s' entries' m', moved st (n + 6 * Z.of_nat (length ops)) a s (snd (run_map ops a)) s' entries' /\ abstracts entries' m' /\ vm_run ops (fst (run_map ops a)) m m'.
Proof.
  intros El. induction ops as [|op ops IH]; intros n a s entries m M I A Hn HN Hk.
  - exists s, entries, m. split; [|done]. split; [by eapply mem_le; [done|cbn; lia]|done|apply ages_refl|by intros q b Hq Hb].
  - apply Forall_cons in Hk as [Hop Hk]. cbn [length] in *. pose proof (map_step_ok n a s entries m op El M I A Hn ltac:(lia) Hop) as S. cbn [run_map]. destruct (map_exec op a) as [r a1].
    destruct S as (s1 & e1 & m1 & Mv1 & A1 & V1). destruct (IH (n + 6) a1 s1 e1 m1 (mv_mem _ _ _ _ _ _ _ Mv1) (mv_ok _ _ _ _ _ _ _ Mv1) A1 ltac:(lia) ltac:(lia) Hk) as (s2 & e2 & m2 & Mv2 & A2 & V2).
    destruct (run_map ops a1) as [rs a2]. cbn [fst snd] in *. exists s2, e2, m2. replace (n + 6 * Z.of_nat (S (length ops))) with (n + 6 + 6 * Z.of_nat (length ops)) by lia.
    split; [eapply moved_trans; [eapply moved_le; [exact Mv1|lia]|exact Mv2]|]. split; [done|]. by exists m1.
Qed.

(** ** Runs of any length *)

Lemma mem_roomy n a s : mem_rep st n a s -> roomy a -> mem_rep st (2 ^ 29) a s.
Proof. intros [[Ao Io] M2 M3 M4 M5 M6 M7] Hr. split; try done. split; [by eapply roomy_ok|done]. Qed.

(** Every state the operations lead through is roomy. *)
Fixpoint roomy_run (ops : list map_op) (a : allocator) : Prop :=
  match ops with [] => True | op :: ops => roomy (snd (map_exec op a)) /\ roomy_run ops (snd (map_exec op a)) end.

Lemma run_map_app ops1 ops2 a : snd (run_map (ops1 ++ ops2) a) = snd (run_map ops2 (snd (run_map ops1 a))).
Proof.
  revert a. induction ops1 as [|op ops1 IH]; intros a; [done|]. cbn [app run_map]. destruct (map_exec op a) as [r a1]. specialize (IH a1).
  destruct (run_map (ops1 ++ ops2) a1) as [rs b], (run_map ops1 a1) as [rs1 b1]. done.
Qed.

Lemma roomy_run_app ops1 ops2 a : roomy_run (ops1 ++ ops2) a <-> roomy_run ops1 a /\ roomy_run ops2 (snd (run_map ops1 a)).
Proof.
  revert a. induction ops1 as [|op ops1 IH]; intros a; cbn [app roomy_run run_map]; [cbn; tauto|]. rewrite IH. destruct (map_exec op a) as [r a1]. cbn [snd].
  destruct (run_map ops1 a1) as [rs b]. cbn [snd]. tauto.
Qed.

Lemma map_step_roomy a s entries m op : elements_ok st -> mem_rep st (2 ^ 29) a s -> map_ok s entries -> abstracts entries m -> keyed_op op -> roomy (snd (map_exec op a)) ->
  exists s' entries' m', moved st (2 ^ 29) a s (snd (map_exec op a)) s' entries' /\ abstracts entries' m' /\ vm_step op (fst (map_exec op a)) m m' /\ identities_step op entries s' entries'.
Proof.
  intros El M I A Hk Hr. pose proof (map_step_full (2 ^ 29) a s entries m op El M I A ltac:(lia) ltac:(lia) Hk) as S. destruct (map_exec op a) as [r a']. cbn [fst snd] in *.
  destruct S as (s' & entries' & m' & [M' I' Ag Sp] & S). exists s', entries', m'. split; [|done]. split; try done. by eapply mem_roomy.
Qed.

Lemma run_map_any ops : elements_ok st -> forall a s entries m, mem_rep st (2 ^ 29) a s -> map_ok s entries -> abstracts entries m -> roomy_run ops a -> Forall keyed_op ops ->
  exists s' entries' m', moved st (2 ^ 29) a s (snd (run_map ops a)) s' entries' /\ abstracts entries' m' /\ vm_run ops (fst (run_map ops a)) m m'.
Proof.
  intros El. induction ops as [|op ops IH]; intros a s entries m M I A Hr Hk.
  - exists s, entries, m. split; [|done]. split; [done|done|apply ages_refl|by intros q b Hq Hb].
  - apply Forall_cons in Hk as [Hop Hk]. destruct Hr as [Hr1 Hr2]. destruct (map_step_roomy a s entries m op El M I A Hop Hr1) as (s1 & e1 & m1 & Mv1 & A1 & V1 & _).
    destruct (IH _ s1 e1 m1 (mv_mem _ _ _ _ _ _ _ Mv1) (mv_ok _ _ _ _ _ _ _ Mv1) A1 Hr2 Hk) as (s2 & e2 & m2 & Mv2 & A2 & V2).
    cbn [run_map]. destruct (map_exec op a) as [r a1]. cbn [fst snd] in *. destruct (run_map ops a1) as [rs a2]. cbn [fst snd] in *. exists s2, e2, m2.
    split; [eapply moved_trans; [exact Mv1|exact Mv2]|]. split; [done|]. by exists m1.
Qed.

(** Along operations that do not remove the entry of a key, it stays where it is with its identity. *)
Lemma run_map_keeps ops key : elements_ok st -> Forall (fun op => removes op key = false) ops -> forall a s entries m i e, mem_rep st (2 ^ 29) a s -> map_ok s entries -> abstracts entries m ->
  roomy_run ops a -> Forall keyed_op ops -> present entries key i e ->
  exists s' entries' m' e', moved st (2 ^ 29) a s (snd (run_map ops a)) s' entries' /\ abstracts entries' m' /\ present entries' key i e' /\ entry_identity e' = entry_identity e.
Proof.
  intros El. induction 1 as [|op ops Hop Hops IH]; intros a s entries m i e M I A Hr Hk Hp.
  - exists s, entries, m, e. split; [|done]. split; [done|done|apply ages_refl|by intros q b Hq Hb].
  - apply Forall_cons in Hk as [Hk1 Hk]. destruct Hr as [Hr1 Hr2]. destruct (map_step_roomy a s entries m op El M I A Hk1 Hr1) as (s1 & e1 & m1 & Mv1 & A1 & _ & Is).
    specialize (Is key i e Hp). rewrite Hop in Is. destruct Is as (f & Hf & Ef).
    destruct (IH _ s1 e1 m1 i f (mv_mem _ _ _ _ _ _ _ Mv1) (mv_ok _ _ _ _ _ _ _ Mv1) A1 Hr2 Hk Hf) as (s2 & e2 & m2 & g & Mv2 & A2 & Hg & Eg).
    cbn [run_map]. destruct (map_exec op a) as [r a1]. cbn [fst snd] in *. destruct (run_map ops a1) as [rs a2]. cbn [fst snd] in *. exists s2, e2, m2, g.
    split; [eapply moved_trans; [exact Mv1|exact Mv2]|]. split; [done|]. split; [done|]. congruence.
Qed.

(** ** Construction *)

Definition store_ops (entries : list (vmMapKey * K * V)) : list map_op := map (fun x => StoreOp (fst (fst x)) (snd (fst x)) (snd x)) entries.

(** Stores one after the other, up to the first that is refused. *)
Lemma store_all_ok es : elements_ok st -> forall n a s entries m, mem_rep st n a s -> map_ok s entries -> abstracts entries m -> 0 <= n -> n + 6 * Z.of_nat (length es) <= 2 ^ 30 -> Forall keyed_op (store_ops es) ->
  let (r, a') := store_all st es a in exists s' entries' m', moved st (n + 6 * Z.of_nat (length es)) a s a' s' entries' /\ abstracts entries' m' /\
    (r = Ok tt -> vm_run (store_ops es) (map (fun _ => Ok tt) es) m m').
Proof.
  intros El. induction es as [|[[key k] v] es IH]; intros n a s entries m M I A Hn HN Hk.
  - exists s, entries, m. split; [|done]. split; [by eapply mem_le; [done|cbn; lia]|done|apply ages_refl|by intros q b Hq Hb].
  - cbn [store_ops map] in Hk. apply Forall_cons in Hk as [Hop Hk]. cbn [length fst snd] in *. pose proof (map_step_ok n a s entries m (StoreOp key k v) El M I A Hn ltac:(lia) Hop) as S. cbn [map_exec] in S.
    cbn [store_all]. unfold st_bind. destruct (storeEntry st key k v a) as [r a1]. destruct S as (s1 & e1 & m1 & Mv1 & A1 & V1).
    assert (n + 6 <= n + 6 * Z.of_nat (S (length es))) as Hle by lia. destruct r as [[]|x]; [|exists s1, e1, m1; split; [by eapply moved_le|done]].
    pose proof (IH (n + 6) a1 s1 e1 m1 (mv_mem _ _ _ _ _ _ _ Mv1) (mv_ok _ _ _ _ _ _ _ Mv1) A1 ltac:(lia) ltac:(lia) Hk) as R. destruct (store_all st es a1) as [r2 a2].
    destruct R as (s2 & e2 & m2 & Mv2 & A2 & V2). exists s2, e2, m2. replace (n + 6 * Z.of_nat (S (length es))) with (n + 6 + 6 * Z.of_nat (length es)) in * by lia.
    split; [eapply moved_trans; [by eapply moved_le|exact Mv2]|]. split; [done|]. intros Hr. cbn [store_ops map vm_run fst snd]. exists m1. split; [done|]. by apply V2.
Qed.

Lemma slab_refs_in n a s : mem_rep st n a s -> forall count i, Z.of_nat (i + count) <= Z.of_nat (length (sh_slabs s)) -> forall q, q ∈ slab_refs count (hdirectory (sh_header s)) (Z.of_nat i) a -> q ∈ sh_slabs s.
Proof.
  intros M. induction count as [|count IH]; intros i Hi q Hq; cbn [slab_refs] in Hq; [by apply not_elem_of_nil in Hq|]. replace (Z.of_nat i + 1) with (Z.of_nat (S i)) in Hq by lia.
  destruct (lookup_lt_is_Some_2 (sh_slabs s) i ltac:(lia)) as [slab Hs]. assert (sh_slabs s <> []) as Hne by (intros E; by rewrite E in Hs). destruct (mr_full _ _ _ _ M Hne) as (_ & _ & D & _).
  destruct (location_ok l L n a st (sh_header s) (sh_slabs s) (64 * Z.of_nat i + 1) (mr_owner _ _ _ _ M) eq_refl D (mr_capacity _ _ _ _ M)) as (at_ & (_ & Hat & _) & E); [apply (mr_words _ _ _ _ M)|rewrite (mr_capacity _ _ _ _ M); lia|].
  replace ((64 * Z.of_nat i + 1 - 1) / 64) with (Z.of_nat i) in Hat by (replace (64 * Z.of_nat i + 1 - 1) with (Z.of_nat i * 64) by lia; by rewrite Z.div_mul).
  unfold location, reading, st_bind in E. destruct ((64 * Z.of_nat i + 1 =? 0) || _); [done|]. unfold managedMapSlabEntries in E.
  replace ((64 * Z.of_nat i + 1 - 1) / 64) with (Z.of_nat i) in E by (replace (64 * Z.of_nat i + 1 - 1) with (Z.of_nat i * 64) by lia; by rewrite Z.div_mul).
  destruct (readReference (mem a) (hdirectory (sh_header s)) (u32 (Z.of_nat i * 8))) as [x|]; [|done]. cbn [result_map_err] in E. unfold st_return in E. injection E as <-. cbn [fst] in Hat. rewrite Nat2Z.id in Hat.
  apply elem_of_cons in Hq as [->|Hq]; [by eapply list_elem_of_lookup_2|]. apply (IH (S i)); [lia|done].
Qed.

Lemma rollback_ok n a s : mem_rep st n a s -> owner_ok n (rollback st a) /\ forall q, q ∉ footprint st s -> payload (mem (rollback st a)) q = payload (mem a) q.
Proof.
  intros M. unfold rollback. rewrite (readHeader_ok st n a s M). cbn [fst].
  destruct (rollback_quiet n (identity st :: slab_refs (Z.to_nat (hcapacity (sh_header s) / managedMapSlabEntries)) (hdirectory (sh_header s)) 0 a ++ [hdirectory (sh_header s); hbuckets (sh_header s)]) a (mr_owner _ _ _ _ M)) as (O & Hp & _).
  split; [done|]. intros q Hq. apply Hp. unfold footprint in Hq. rewrite !not_elem_of_cons in Hq. destruct Hq as (Q1 & Q2 & Q3 & Q4). rewrite not_elem_of_cons, not_elem_of_app, !not_elem_of_cons.
  split_and!; try done; [|apply not_elem_of_nil]. intros X. apply Q4. apply (slab_refs_in n a s M (Z.to_nat (hcapacity (sh_header s) / managedMapSlabEntries)) 0%nat); [|done].
  rewrite (mr_capacity _ _ _ _ M). unfold managedMapSlabEntries. rewrite Z.mul_comm, Z.div_mul by lia. lia.
Qed.

Definition empty_shape : shape := mkShape empty_header [] [] [].

Lemma empty_ok n a : owner_ok n a -> payload (mem a) (identity st) = Some (replicate 32 0) -> mem_rep st n a empty_shape /\ map_ok empty_shape ∅ /\ abstracts ∅ vm_empty.
Proof.
  intros O Hp. assert (forall i c, cell_at [] i <> Some c) as Hno by (intros i c Hc; apply cell_at_Some in Hc as [_ Hc]; by rewrite lookup_nil in Hc). split; [|split].
  - by split.
  - split; cbn [empty_shape sh_header sh_cells sh_table]; try done; try (intros; exfalso; by eapply Hno); try (by intros i c [? _]; exfalso; eapply Hno).
    + intros i e. rewrite lookup_empty. split; [done|]. intros (c & [Hc _] & _). by destruct (Hno i c).
    + intros i j c d key [Hc _]. by destruct (Hno i c).
    + exists []. split; [constructor|]. intros i. split; [intros X; by apply not_elem_of_nil in X|]. intros (c & Hc & _). by destruct (Hno i c).
  - split; [done| |done]. intros key i e (_ & He & _). by rewrite lookup_empty in He.
Qed.

(** What a construction takes of the budget. *)
Definition fill_cost (entries : list (vmMapKey * K * V)) (capacity : Z) : Z :=
  2 * (slabs_for (Z.max capacity (Z.of_nat (length entries))) + 2) + 6 * Z.of_nat (length entries).

Lemma fill_map_ok n a es capacity : elements_ok st -> owner_ok n a -> payload (mem a) (identity st) = Some (replicate 32 0) -> 0 <= n -> n + fill_cost es capacity <= 2 ^ 30 -> Forall keyed_op (store_ops es) ->
  match fill_map st es capacity a with
  | (Ok _, a') => exists s' entries' m', moved st (n + fill_cost es capacity) a empty_shape a' s' entries' /\ abstracts entries' m' /\ vm_run (store_ops es) (map (fun _ => Ok tt) es) vm_empty m'
  | (Err e, a') => owner_ok (n + fill_cost es capacity) a' /\ forall q b, q ∉ footprint st empty_shape -> payload (mem a) q = Some b -> payload (mem a') q = Some b
  end.
Proof.
  intros El O Hp Hn HN Hk. unfold fill_cost in *. set (cap := Z.max capacity (Z.of_nat (length es))) in *. destruct (empty_ok n a O Hp) as (M & I & A). unfold fill_map. fold cap.
  set (N := n + _) in *. assert (0 <= cap) as Hcap by lia. assert (0 <= slabs_for cap) as Hsl by (unfold slabs_for; apply Z.div_pos; lia).
  assert (forall s1 entries1 a1, moved st N a empty_shape a1 s1 entries1 -> owner_ok N (rollback st a1) /\ forall q b, q ∉ footprint st empty_shape -> payload (mem a) q = Some b -> payload (mem (rollback st a1)) q = Some b) as Hroll.
  { intros s1 entries1 a1 Mv. destruct (rollback_ok N a1 s1 (mv_mem _ _ _ _ _ _ _ Mv)) as [O1 Hp1]. split; [done|]. intros q b Hq Hb. destruct (mv_spared _ _ _ _ _ _ _ Mv q b Hq Hb) as [Hb1 Hq1]. by rewrite Hp1. }
  assert (forall m, n <= m -> moved st m a empty_shape a empty_shape ∅) as Hstay by (intros m Hm; split; [by eapply mem_le|done|apply ages_refl|by intros q b Hq Hb]).
  destruct ((cap <? 0) || (2 ^ 32 - 1 - managedMapSlabEntries <? cap)) eqn:Eg.
  { cbn [st_throw]. apply (Hroll empty_shape ∅). apply Hstay. lia. }
  unfold managedMapSlabEntries in Eg. breflect.
  set (n1 := n + 2 * (slabs_for cap + 2)) in *.
  set (ens := if 0 <? cap then let~ _ := ensureCapacity st empty_header cap in st_return tt else st_return tt). assert (match ens a with
    | (Ok _, a1) => exists s1, moved st n1 a empty_shape a1 s1 ∅
    | (Err _, a1) => moved st n1 a empty_shape a1 empty_shape ∅ end) as Hens.
  { unfold ens. destruct (Z.ltb_spec 0 cap) as [Hpos|]; [|exists empty_shape; apply Hstay; lia]. assert (growth_cost empty_shape cap = 2 * (slabs_for cap + 2)) as Hgc.
    { unfold growth_cost. cbn [empty_shape sh_header empty_header hcapacity sh_slabs length]. rewrite (proj2 (Z.leb_gt _ _)) by lia. lia. }
    pose proof (ensureCapacity_ok st L n a empty_shape ∅ cap M I Hn ltac:(lia) ltac:(rewrite Hgc; lia)) as G. rewrite Hgc in G. fold n1 in G. cbn [empty_shape sh_header] in G. unfold st_bind.
    destruct (ensureCapacity st empty_header cap a) as [[h'|e] a1]; cbn [growth] in G.
    - destruct G as (s1 & _ & M1 & I1 & En & Sp). exists s1. split; try done. by eapply enlarged_ages.
    - destruct G as (_ & M1 & U). split; [done|done|apply ages_refl|]. intros q b Hq Hb. split; [by apply U|done]. }
  unfold st_bind at 1. destruct (ens a) as [[[]|e] a1]; [|by eapply Hroll, moved_le; [exact Hens|lia]]. destruct Hens as (s1 & Mv1).
  pose proof (store_all_ok es El n1 a1 s1 ∅ vm_empty (mv_mem _ _ _ _ _ _ _ Mv1) (mv_ok _ _ _ _ _ _ _ Mv1) A ltac:(lia) ltac:(lia) Hk) as S. replace (n1 + 6 * Z.of_nat (length es)) with N in S by lia.
  destruct (store_all st es a1) as [r a2]. destruct S as (s2 & e2 & m2 & Mv2 & A2 & V2).
  assert (moved st N a empty_shape a2 s2 e2) as Mv by (eapply moved_trans; [eapply moved_le; [exact Mv1|lia]|exact Mv2]).
  destruct r as [[]|e]; [|by eapply Hroll]. exists s2, e2, m2. split; [done|]. split; [done|]. by apply V2.
Qed.
End run.

(** ** The layout of an entry *)

Lemma align_bounds x : 0 <= x <= 2 ^ 32 - 8 -> x <= alignManagedOffset x <= x + 7 /\ alignManagedOffset x mod 8 = 0.
Proof.
  intros Hx. unfold alignManagedOffset. rewrite u32_id by lia.
  assert (Z.ldiff (x + 7) 7 = (x + 7) / 8 * 8) as -> by (change 7 with (Z.ones 3) at 2; rewrite Z.ldiff_ones_r, Z.shiftr_div_pow2, Z.shiftl_mul_pow2 by lia; done).
  pose proof (Z.div_mod (x + 7) 8 ltac:(lia)). pose proof (Z.mod_pos_bound (x + 7) 8 ltac:(lia)). split; [lia|apply Z.mod_mul; lia].
Qed.

Lemma prepare_layout_ok key value l : 0 <= Stride key < 2 ^ 32 -> 0 <= Stride value < 2 ^ 32 -> prepareManagedMap key value = Ok l -> layout_ok l.
Proof.
  intros Hk Hv. unfold prepareManagedMap, managedMapMetadata, managedMapSlabEntries. rewrite u64_id by lia. change ((2 ^ 32 - 1) / 64) with (2 ^ 26 - 1). case_if; [done|]. breflect. intros E. injection E as <-.
  rewrite (u32_id (16 + Stride key)) by lia. destruct (align_bounds (16 + Stride key) ltac:(lia)) as [B1 _]. set (vo := alignManagedOffset (16 + Stride key)) in *.
  rewrite (u32_id (vo + Stride value)) by lia. destruct (align_bounds (vo + Stride value) ltac:(lia)) as [B2 B3]. set (es := alignManagedOffset (vo + Stride value)) in *.
  split; cbn [keyLayout valueLayout valueOffset entryStride]; unfold managedMapMetadata, managedMapSlabEntries; try lia.
Qed.

(** ** Maps from their construction on *)

Section maps.
Context {K V : Type} `{MapElements K V}.

(** The codec of the inline keys and values. *)
Definition codec_ok (l : preparedMapLayout) : Prop := forall ref, elements_ok (mkStorage ref l).

Lemma lift_two {A B C} (m : allocM A) (f : A -> allocM B) (k : B -> mapM C) a :
  (let~ r := lift m in let~ x := lift (f r) in k x) a = (let~ x := lift (let@ r := m in f r) in k x) a.
Proof. unfold st_bind, lift, alloc_bind. destruct (m a) as [[r|e] a1]; [|done]. by destruct (f r a1) as [[x|e] a2]. Qed.

Lemma new_map_ok l typ es capacity n a : layout_ok l -> codec_ok l -> owner_ok n a -> 0 <= n -> n + 2 + fill_cost es capacity <= 2 ^ 30 -> Forall keyed_op (store_ops es) ->
  match newManagedMap l typ es capacity a with
  | (Ok st, a') => exists s entries m, prepared_layout st = l /\ mem_rep st (n + 2 + fill_cost es capacity) a' s /\ map_ok st s entries /\ abstracts entries m /\
      vm_run (store_ops es) (map (fun _ => Ok tt) es) vm_empty m /\ (forall q b, payload (mem a) q = Some b -> payload (mem a') q = Some b /\ (q ∉ footprint st s))
  | (Err e, a') => owner_ok (n + 2 + fill_cost es capacity) a' /\ undisturbed a a'
  end.
Proof.
  intros L El O Hn HN Hk. set (N := n + 2 + fill_cost es capacity) in *. assert (0 <= fill_cost es capacity) as Hfc.
  { unfold fill_cost, slabs_for. assert (0 <= (Z.max capacity (Z.of_nat (length es)) + 63) / 64); [apply Z.div_pos; lia|lia]. }
  unfold newManagedMap. pose proof (register_layout_quiet n a (mkLayout managedMapIdentityBytes typ [0; 8] [] []) O ltac:(done)) as R1. unfold st_bind at 1, lift at 1.
  destruct (registerLayout _ a) as [[il|e] a1]; [|destruct R1 as [_ ->]; split; [eapply owner_le; [done|lia]|by intros q b]]. destruct R1 as (O1 & Q1 & S1 & _). cbn [lstride] in S1. unfold managedMapIdentityBytes in S1.
  unfold deferred. rewrite lift_two. unfold StorageRecordHeaderBytes, StorageMapHeaderBytes.
  pose proof (reserve_commit n a1 il 32 1 (16 + 32) O1 Hn ltac:(lia) S1 ltac:(lia) ltac:(lia) ltac:(lia) eq_refl) as RC. unfold st_bind, lift.
  destruct ((let@ r := reserve il 1 (16 + 32) in commit r) a1) as [[ref|e] a2].
  2: { destruct RC as [_ [Q2 Q3 _]]. pose proof (release_layout_quiet (n + 2) a2 il Q2) as [Q4 Q5 _]. split; [eapply owner_le; [done|lia]|]. intros q b Hb. by rewrite Q5, Q3, Q1. }
  destruct RC as [F1 F2 F3 F4 F5 F6 F7 F8]. set (st := mkStorage ref l) in *.
  assert (forall q b, payload (mem a) q = Some b -> payload (mem a2) q = Some b /\ q ∉ footprint st empty_shape) as Hlive.
  { intros q b Hb. rewrite <- Q1 in Hb. assert (q <> ref) as Hne by (intros ->; congruence). rewrite F4 by done. split; [done|]. unfold footprint. cbn [empty_shape sh_header empty_header hdirectory hbuckets sh_slabs].
    assert (q <> mkRef 0 0) as Hz by (intros ->; by destruct (payload_resolve _ _ _ Hb)). rewrite !not_elem_of_cons. split_and!; try done. apply not_elem_of_nil. }
  pose proof (fill_map_ok st L (n + 2) a2 es capacity (El ref) F1 F3 ltac:(lia) HN Hk) as Fm. fold N in Fm. destruct (fill_map st es capacity a2) as [[[]|e] a3].
  - destruct Fm as (s & entries & m & Mv & A & Vr). exists s, entries, m. pose proof (release_layout_quiet N a3 il (mr_owner _ _ _ _ (mv_mem _ _ _ _ _ _ _ Mv))) as [Q4 Q5 _].
    split; [done|]. split; [eapply mem_frame; [apply Mv|done|]; intros q b _; by rewrite Q5|]. split; [apply Mv|]. split; [done|]. split; [done|].
    intros q b Hb. destruct (Hlive q b Hb) as [Hb2 Hq]. rewrite Q5. by apply (mv_spared _ _ _ _ _ _ _ Mv).
  - destruct Fm as [O3 Hp3]. pose proof (release_layout_quiet N a3 il O3) as [Q4 Q5 _]. split; [done|]. intros q b Hb. rewrite Q5. destruct (Hlive q b Hb) as [Hb2 Hq]. by apply Hp3.
Qed.

(** A map [st] made from [es] on an allocator with some history, and the operations [ops] on it. *)
Context (key value : preparedValueLayout) (l : preparedMapLayout) (typ : Z) (es : list (vmMapKey * K * V)) (capacity guest resid n : Z) (a : allocator) (ops : list (map_op (K := K) (V := V))).
Context (key_stride : 0 <= Stride key < 2 ^ 32) (value_stride : 0 <= Stride value < 2 ^ 32) (prepared : prepareManagedMap key value = Ok l) (codec : codec_ok l).
Context (limits : 0 <= guest /\ 0 <= resid) (history : reach guest resid n a) (budget : n + 2 + fill_cost es capacity + 6 * Z.of_nat (length ops) <= 2 ^ 30).
Context (keyed_entries : Forall keyed_op (store_ops es)) (keyed_ops : Forall keyed_op ops).

#[local] Abbreviation N := (n + 2 + fill_cost es capacity).

Lemma map_setting : layout_ok l /\ owner_ok n a /\ 0 <= n /\ 0 <= fill_cost es capacity.
Proof.
  pose proof (reach_nonneg _ _ _ _ history) as Hn. assert (0 <= fill_cost es capacity) as Hf.
  { unfold fill_cost, slabs_for. assert (0 <= (Z.max capacity (Z.of_nat (length es)) + 63) / 64); [apply Z.div_pos; lia|lia]. }
  destruct (reach_ok guest resid n a) as (A & I & _); [apply limits|apply limits|done|lia|]. split; [exact (prepare_layout_ok key value l key_stride value_stride prepared)|]. done.
Qed.

(** What a sequence of operations leads to. *)
Lemma made_and_run st a1 : newManagedMap l typ es capacity a = (Ok st, a1) ->
  exists s entries m s' entries' m', layout_ok (prepared_layout st) /\ mem_rep st N a1 s /\ map_ok st s entries /\ abstracts entries m /\
    moved st (N + 6 * Z.of_nat (length ops)) a1 s (snd (run_map st ops a1)) s' entries' /\ abstracts entries' m' /\
    vm_run (store_ops es) (map (fun _ => Ok tt) es) vm_empty m /\ vm_run ops (fst (run_map st ops a1)) m m' /\ elements_ok st /\
    (forall q b, payload (mem a) q = Some b -> payload (mem a1) q = Some b /\ (q ∉ footprint st s)).
Proof.
  intros E. destruct map_setting as (L & O & Hn & Hf). pose proof (new_map_ok l typ es capacity n a L codec O Hn ltac:(lia) keyed_entries) as Nm. rewrite E in Nm.
  destruct Nm as (s & entries & m & El & M & I & A & Vr & Sp). assert (elements_ok st) as Ce by (destruct st as [ref l']; cbn in El; subst l'; apply codec). rewrite <- El in L.
  destruct (run_map_ok st L ops Ce N a1 s entries m M I A ltac:(lia) ltac:(lia) keyed_ops) as (s' & entries' & m' & Mv & A' & Vr'). by exists s, entries, m, s', entries', m'.
Qed.

(** Snapshot keys tell entries apart: equal keys are not reflexive ones, and these are told apart by their identities. *)
Lemma snapshot_keys st s entries cs r : map_ok st s entries -> (forall x, x ∈ cs -> exists i, entries !! i = Some (entry_of st (fst x) (snd x))) ->
  NoDup (map (fun p => entry_identity (snd p)) r) -> Forall2 snapped (map (fun x => entry_of st (fst x) (snd x)) cs) r -> NoDup (map fst r).
Proof.
  intros I Hcs Hnd Hr. apply NoDup_fmap_2_strong; [|by eapply NoDup_fmap_1].
  assert (forall p, p ∈ r -> exists i k, entries !! i = Some (snd p) /\ mapKey (Key (snd p)) = Ok k /\ fst p = snapshot_key k (snd p)) as Hp.
  { intros p Hp. apply list_elem_of_lookup in Hp as [j Hj]. destruct (Forall2_lookup_r _ _ _ _ _ Hr Hj) as (e & He & -> & k & Hk & Hf). apply list_lookup_fmap_Some in He as (x & -> & Hx).
    destruct (Hcs x) as [i Hi]; [by eapply list_elem_of_lookup_2|]. by exists i, k. }
  intros [k1 e1] [k2 e2] H1 H2 Heq. cbn [fst] in Heq. subst k2. destruct (Hp _ H1) as (i & x & Hi & Hx & Ex), (Hp _ H2) as (j & y & Hj & Hy & Ey). cbn [fst snd] in *.
  f_equal. assert (forall k (e : vmMapEntry (K := K) (V := V)), NonReflexive (snapshot_key k e) = NonReflexive k) as Hnr by (intros k e; unfold snapshot_key; by destruct (NonReflexive k) eqn:Ek).
  pose proof (Hnr x e1) as N1. pose proof (Hnr y e2) as N2. rewrite <- Ex in N1. rewrite <- Ey in N2. unfold snapshot_key in Ex, Ey. destruct (NonReflexive x) eqn:Rx.
  - rewrite <- N2, N1 in Ey. rewrite Ex in Ey. injection Ey as _ _ _ _ _ _ Eid. apply list_elem_of_lookup in H1 as [u Hu], H2 as [w Hw].
    assert (u = w) as ->; [|congruence]. apply (NoDup_lookup _ u w (entry_identity e1) Hnd); apply list_lookup_fmap_Some; [by exists (k1, e1)|by exists (k1, e2)].
  - rewrite <- N2, N1 in Ey. subst x y. by apply (present_unique st s entries k1 j e2 i e1 I); split.
Qed.

Lemma vm_run_app ops1 : forall rs1 ops2 rs2 m m1 m2, vm_run ops1 rs1 m m1 -> vm_run ops2 rs2 m1 m2 -> vm_run (ops1 ++ ops2) (rs1 ++ rs2) m m2.
Proof.
  induction ops1 as [|op ops1 IH]; intros [|r rs1] ops2 rs2 m m1 m2 H1 H2; cbn [vm_run app] in *; try done; [by subst|]. destruct H1 as (m0 & Hs & H1). exists m0. split; [done|]. by eapply IH.
Qed.

(** C40. An iteration meets every entry once: the identities that [entryIdentities] lists are
    distinct, are as many as the map is long and each resolves to an entry, an entry that a lookup finds is
    among them, and [snapshot] holds these entries under distinct keys.  The allocations of the history, of
    the construction and of the operations before the iteration are bounded by 2^30. *)
Theorem map_iteration_complete st a1 : newManagedMap l typ es capacity a = (Ok st, a1) ->
  let a2 := snd (run_map st ops a1) in
  NoDup (entryIdentities st a2) /\ Z.of_nat (length (entryIdentities st a2)) = map_length st a2 /\
  (forall ident, ident ∈ entryIdentities st a2 -> exists e, loadIdentity st ident a2 = Some e /\ entry_identity e = ident) /\
  (forall k e, loadEntry st k a2 = Some e -> entry_identity e ∈ entryIdentities st a2) /\
  exists r, snapshot st a2 = (Ok r, a2) /\ NoDup (map fst r) /\ map (fun p => entry_identity (snd p)) r = entryIdentities st a2.
Proof.
  intros E a2. destruct (made_and_run st a1 E) as (_ & _ & _ & s & entries & m' & L & _ & _ & _ & [M I _ _] & _). fold a2 in M.
  pose proof (entries_listed st _ a2 s entries M I) as (Hin & Hnd & Hlen). set (cs := occupied_from (sh_cells s) 1 (Z.to_nat (hcreated (sh_header s)))) in *.
  pose proof (hw_created _ (mr_words _ _ _ _ M)) as Hcr. pose proof (mo_created _ _ _ I) as Hcr2. rewrite (cells_capacity st _ _ _ M) in Hcr2.
  assert (entryIdentities st a2 = map (fun x => entry_identity (entry_of st (fst x) (snd x))) cs) as Ei.
  { unfold entryIdentities. rewrite (st_bind_ok _ _ _ _ _ (readHeader_ok st _ a2 s M)). by rewrite (identities_loop_ok st L _ a2 s M) by lia. }
  destruct (snapshot_entries_ok st L _ a2 s entries M I (Z.to_nat (hcreated (sh_header s))) 1 ltac:(lia) ltac:(lia)) as (r & Er & Hr). fold cs in Hr.
  rewrite Ei. split; [done|]. split; [rewrite length_map, Hlen; by rewrite (length_ok st _ a2 s entries M I)|].
  assert (forall x, x ∈ cs -> exists i, entries !! i = Some (entry_of st (fst x) (snd x))) as Hcs by (intros x Hx; apply Hin, list_elem_of_In, in_map_iff; exists x; split; [done|by apply list_elem_of_In]).
  split; [|split].
  - intros ident Hid. apply list_elem_of_In, in_map_iff in Hid as (x & <- & Hx). apply list_elem_of_In in Hx. destruct (Hcs x Hx) as (i & He). eexists. split; [|done]. by eapply loadIdentity_ok.
  - intros k e Hl. destruct (loadEntry_ok st L _ a2 s entries k M I) as [(i & e' & (_ & He & _) & El)|[_ El]]; rewrite Hl in El; [|done]. injection El as <-.
    assert (e ∈ map (fun x => entry_of st (fst x) (snd x)) cs) as Hx by (apply Hin; by exists i). apply list_elem_of_In, in_map_iff in Hx as (x & <- & Hx). apply list_elem_of_In, in_map_iff. by exists x.
  - exists r. split; [unfold snapshot; by rewrite (st_bind_ok _ _ _ _ _ (readHeader_ok st _ a2 s M))|].
    assert (map (fun p => entry_identity (snd p)) r = map (fun x => entry_identity (entry_of st (fst x) (snd x))) cs) as Em.
    { clear -Hr. revert r Hr. induction cs as [|x cs IH]; intros r Hr; inversion Hr as [|? p ? r' Hp Hr']; subst; [done|]. cbn [map]. destruct Hp as [-> _]. f_equal. by apply IH. }
    split; [|done]. apply (snapshot_keys st s entries cs r I Hcs); [by rewrite <- Em in Hnd|done].
Qed.
End maps.

(** ** Maps over runs of any length *)

Section any_length.
Context {K V : Type} `{MapElements K V}.

(** A map made from [es] on an allocator with some history.  The history and the operations on the map may
    be of any length; they lead through roomy heaps, and making the map takes less than 2^29 allocations. *)
Context (key value : preparedValueLayout) (l : preparedMapLayout) (typ : Z) (es : list (vmMapKey * K * V)) (capacity guest resid : Z) (a : allocator).
Context (key_stride : 0 <= Stride key < 2 ^ 32) (value_stride : 0 <= Stride value < 2 ^ 32) (prepared : prepareManagedMap key value = Ok l) (codec : codec_ok l).
Context (limits : 0 <= guest /\ 0 <= resid) (history : steps (newManagedHeap guest resid) a) (size : 2 + fill_cost es capacity <= 2 ^ 29).
Context (keyed_entries : Forall keyed_op (store_ops es)).

Lemma made_any : match newManagedMap l typ es capacity a with
  | (Ok st, a1) => layout_ok (prepared_layout st) /\ elements_ok st /\ (roomy a1 -> exists s entries m, mem_rep st (2 ^ 29) a1 s /\ map_ok st s entries /\ abstracts entries m /\
      vm_run (store_ops es) (map (fun _ => Ok tt) es) vm_empty m /\ (forall q b, payload (mem a) q = Some b -> payload (mem a1) q = Some b /\ (q ∉ footprint st s)))
  | (Err e, a1) => undisturbed a a1
  end.
Proof.
  pose proof (prepare_layout_ok key value l key_stride value_stride prepared) as L. destruct (steps_new guest resid a) as [A I]; [apply limits|apply limits|done|].
  pose proof (new_map_ok l typ es capacity (2 ^ 29) a L codec ltac:(done) ltac:(lia) ltac:(lia) keyed_entries) as Nm. destruct (newManagedMap l typ es capacity a) as [[st|e] a1]; [|apply Nm].
  destruct Nm as (s & entries & m & El & M & Nm). rewrite El. split; [done|]. split; [destruct st as [ref l']; cbn in El; subst l'; apply codec|].
  intros Hr. exists s, entries, m. split; [by eapply mem_roomy|done].
Qed.

(** C10. A managed map is a finite map: after its construction and any sequence of stores, deletions and
    clears, of any length and with whatever outcomes, the operations were steps of the abstract map (a store
    of a key replaces or adds its value, keys that are not equal to themselves add entries that no lookup
    finds, a refused store changes nothing, deletions and clears never fail), a lookup returns the value of
    the abstract map and the length is its length.  The heaps on the way hold at most 2^29 slots and 2^30
    pages, and the map is made with less than 2^29 allocations. *)
Theorem managed_map_refines_map st a1 ops :
  newManagedMap l typ es capacity a = (Ok st, a1) -> roomy a1 -> roomy_run st ops a1 -> Forall keyed_op ops ->
  exists m, vm_run (store_ops es ++ ops) (map (fun _ => Ok tt) es ++ fst (run_map st ops a1)) vm_empty m /\
    (forall k, Value <$> loadEntry st k (snd (run_map st ops a1)) = vm_value m k) /\ map_length st (snd (run_map st ops a1)) = vm_length m.
Proof.
  intros E Hr Ho Hk. pose proof made_any as Ma. rewrite E in Ma. destruct Ma as (L & Ce & Ma). destruct (Ma Hr) as (s & entries & m & M & I & A & Vr & _).
  destruct (run_map_any st L ops Ce a1 s entries m M I A Ho Hk) as (s' & entries' & m' & [M' I' _ _] & A' & Vr').
  exists m'. split; [by eapply vm_run_app|]. split; [|rewrite (length_ok st _ _ s' entries' M' I'); symmetry; apply A']. intros k.
  destruct (loadEntry_ok st L _ _ s' entries' k M' I') as [(i & e & Hp & ->)|[Ha ->]]; [by rewrite (ab_present _ _ A' _ _ _ Hp)|by rewrite (ab_absent _ _ A' _ Ha)].
Qed.

(** C11. The identity of an entry names it for as long as it is in the map and never again.  In whatever
    state of the map a key is found, through any operations that neither delete the key nor clear the map its
    entry keeps its identity, which resolves to the entry; once the key is deleted or the map is cleared the
    identity resolves to nothing, whatever is done afterwards, any number of operations, and although the
    place of the entry is used again.  The heaps on the way hold at most 2^29 slots and 2^30 pages, and the
    map is made with less than 2^29 allocations. *)
Theorem map_identity_never_returns st a1 before between removal later k e :
  newManagedMap l typ es capacity a = (Ok st, a1) -> roomy a1 ->
  roomy_run st (before ++ between ++ removal :: later) a1 -> Forall keyed_op (before ++ between ++ removal :: later) ->
  Forall (fun op => removes op k = false) between -> removes removal k = true -> loadEntry st k (snd (run_map st before a1)) = Some e ->
  let a2 := snd (run_map st (before ++ between) a1) in
  (exists e', loadEntry st k a2 = Some e' /\ entry_identity e' = entry_identity e /\ loadIdentity st (entry_identity e) a2 = Some e') /\
  loadIdentity st (entry_identity e) (snd (run_map st (removal :: later) a2)) = None.
Proof.
  intros E Hr Ho Hk Hb Hrem Hl. pose proof made_any as Ma. rewrite E in Ma. destruct Ma as (L & Ce & Ma). destruct (Ma Hr) as (s & entries & m & M & I & A & _).
  cbv zeta. rewrite run_map_app. apply roomy_run_app in Ho as [Ho1 Ho]. apply roomy_run_app in Ho as [Ho2 Ho3]. apply Forall_app in Hk as [Hk1 Hk]. apply Forall_app in Hk as [Hk2 Hk3].
  destruct (run_map_any st L before Ce a1 s entries m M I A Ho1 Hk1) as (s1 & e1 & m1 & [M1 I1 _ _] & A1 & _). set (b := snd (run_map st before a1)) in *.
  destruct (loadEntry_ok st L _ _ s1 e1 k M1 I1) as [(i & e0 & Hp & El)|[_ El]]; rewrite Hl in El; [|done]. injection El as <-.
  destruct (run_map_keeps st L between k Ce Hb b s1 e1 m1 i e M1 I1 A1 Ho2 Hk2 Hp) as (s2 & e2 & m2 & f & [M2 I2 _ _] & A2 & Hf & Ef). set (c := snd (run_map st between b)) in *. split.
  - exists f. pose proof Hf as (_ & Hf2 & _). split; [|split; [done|rewrite <- Ef; by eapply loadIdentity_ok]].
    destruct (loadEntry_ok st L _ _ s2 e2 k M2 I2) as [(j & g & Hg & ->)|[Ha _]]; [by destruct (present_unique st s2 e2 k i f j g I2 Hf Hg) as [_ ->]|by destruct (present_not_absent _ _ _ _ Hf)].
  - apply Forall_cons in Hk3 as [Hk3 Hk4]. destruct Ho3 as [Ho3 Ho4].
    destruct (map_step_roomy st L c s2 e2 m2 removal Ce M2 I2 A2 Hk3 Ho3) as (s3 & e3 & m3 & [M3 I3 _ _] & A3 & _ & Is). specialize (Is k i f Hf). rewrite Hrem, Ef in Is.
    destruct (run_map_any st L later Ce _ s3 e3 m3 M3 I3 A3 Ho4 Hk4) as (s4 & e4 & m4 & [M4 I4 Ag _] & _). cbn [run_map]. destruct (map_exec st removal c) as [r c1]. cbn [snd] in *.
    destruct (run_map st later c1) as [rs c2]. cbn [snd] in *. eapply retired_gone; [done|done|done|]. by eapply retired_ages.
Qed.

(** C12. A map touches nothing but its own objects: whatever was in the heap before the map was made is
    there unchanged after its construction, also one that is refused and withdrawn half way, and after any
    sequence of operations, of any length.  The heaps on the way hold at most 2^29 slots and 2^30 pages,
    and the map is made with less than 2^29 allocations. *)
Theorem managed_map_spares_heap ops q b : payload (mem a) q = Some b ->
  match newManagedMap l typ es capacity a with
  | (Ok st, a1) => roomy a1 -> roomy_run st ops a1 -> Forall keyed_op ops -> payload (mem a1) q = Some b /\ payload (mem (snd (run_map st ops a1))) q = Some b
  | (Err _, a1) => payload (mem a1) q = Some b
  end.
Proof.
  intros Hq. pose proof made_any as Ma. destruct (newManagedMap l typ es capacity a) as [[st|e] a1] eqn:E; [|by apply Ma].
  intros Hr Ho Hk. destruct Ma as (L & Ce & Ma). destruct (Ma Hr) as (s & entries & m & M & I & A & _ & Sp).
  destruct (run_map_any st L ops Ce a1 s entries m M I A Ho Hk) as (s' & entries' & m' & [_ _ _ Sp'] & _). destruct (Sp q b Hq) as [Hb Hn]. split; [done|]. by apply Sp'.
Qed.
End any_length.

(** ** An example: maps from words to words *)

Definition word_bytes (x : Z) : result map_error gostring := if (0 <=? x) && (x <? 2 ^ 64) then Ok (le_bytes 8 x) else Err ElementError.

(** Key 99 stands for a key that is not equal to itself. *)
Definition word_key (x : Z) : vmMapKey := mkMapKey vmMapKeyUint [] false 0 x [] (x =? 99) 0.

#[local] Instance words : MapElements Z Z := {
  encodeKey := word_bytes; decodeKey := le_word; encodeValue := word_bytes; decodeValue := le_word; mapKey x := Ok (word_key x); maphash bytes := le_word (drop 1 bytes)
}.

Definition word_layout : preparedValueLayout := mkValueLayout 8 8 [] [] [].
Definition word_map : preparedMapLayout := mkMapLayout word_layout word_layout 32 24.

Lemma words_codec : codec_ok word_map.
Proof.
  assert (forall x b, word_bytes x = Ok b -> Z.of_nat (length b) = 8 /\ le_word b = x) as Hw.
  { intros x b. unfold word_bytes. destruct ((0 <=? x) && (x <? 2 ^ 64)) eqn:E; [|done]. breflect. intros Hb. assert (b = le_bytes 8 x) as -> by congruence. split; [by rewrite le_bytes_length|]. apply le_word_bytes. change (256 ^ Z.of_nat 8) with (2 ^ 64). lia. }
  intros ref. split; exact Hw.
Qed.

Definition word_entries : list (vmMapKey * Z * Z) := [(word_key 5, 5, 50); (word_key 7, 7, 70)].
Definition word_ops : list (map_op (K := Z) (V := Z)) := [StoreOp (word_key 7) 7 71; StoreOp (word_key 99) 99 1; DeleteOp (word_key 5); StoreOp (word_key 6) 6 60].

Definition word_storage : managedMapStorage := mkStorage (mkRef 1 1) word_map.
Definition word_heap : allocator := snd (newManagedMap word_map 0 word_entries 0 (newManagedHeap 0 0)).

Lemma words_made : newManagedMap word_map 0 word_entries 0 (newManagedHeap 0 0) = (Ok word_storage, word_heap).
Proof.
  assert (fst (newManagedMap word_map 0 word_entries 0 (newManagedHeap 0 0)) = Ok word_storage) as E by (vm_compute; reflexivity).
  rewrite <- E. exact (surjective_pairing _).
Qed.

Lemma words_keyed : Forall keyed_op (store_ops word_entries) /\ Forall keyed_op word_ops.
Proof. split; by repeat constructor. Qed.

(** The operations of the example keep the heap small. *)
Lemma words_roomy : roomy word_heap /\ roomy_run word_storage word_ops word_heap /\ roomy_run word_storage ([StoreOp (word_key 6) 6 61] ++ [StoreOp (word_key 5) 5 51] ++ DeleteOp (word_key 5) :: word_ops) word_heap.
Proof. cbn [roomy_run app word_ops]. unfold roomy. split_and!; vm_compute; first [exact I|congruence]. Qed.

Lemma managed_map_refines_map_witness :
  exists m, vm_run (store_ops word_entries ++ word_ops) [Ok tt; Ok tt; Ok tt; Ok tt; Ok tt; Ok tt] vm_empty m /\ vm_value m (word_key 7) = Some 71 /\ vm_length m = 3.
Proof.
  destruct (managed_map_refines_map word_layout word_layout word_map 0 word_entries 0 0 0 (newManagedHeap 0 0) ltac:(cbn; lia) ltac:(cbn; lia) eq_refl words_codec ltac:(lia) (steps_none _)
    ltac:(done) (proj1 words_keyed) word_storage word_heap word_ops words_made (proj1 words_roomy) (proj1 (proj2 words_roomy)) (proj2 words_keyed)) as (m & Hrun & Hload & Hlen).
  exists m. split; [|split; [rewrite <- Hload|rewrite <- Hlen]; vm_compute; reflexivity].
  assert (fst (run_map word_storage word_ops word_heap) = [Ok tt; Ok tt; Ok tt; Ok tt]) as E by (vm_compute; reflexivity). rewrite E in Hrun. exact Hrun.
Defined.

Lemma map_identity_never_returns_witness :
  let a2 := snd (run_map word_storage [StoreOp (word_key 6) 6 61; StoreOp (word_key 5) 5 51] word_heap) in
  (exists e', loadEntry word_storage (word_key 5) a2 = Some e' /\ entry_identity e' = 1 + 2 ^ 32 /\ loadIdentity word_storage (1 + 2 ^ 32) a2 = Some e') /\
  loadIdentity word_storage (1 + 2 ^ 32) (snd (run_map word_storage (DeleteOp (word_key 5) :: word_ops) a2)) = None.
Proof.
  apply (map_identity_never_returns word_layout word_layout word_map 0 word_entries 0 0 0 (newManagedHeap 0 0) ltac:(cbn; lia) ltac:(cbn; lia) eq_refl words_codec ltac:(lia) (steps_none _)
    ltac:(done) (proj1 words_keyed) word_storage word_heap [StoreOp (word_key 6) 6 61] [StoreOp (word_key 5) 5 51] (DeleteOp (word_key 5)) word_ops (word_key 5) (mkEntry (1 + 2 ^ 32) 5 50)
    words_made (proj1 words_roomy) (proj2 (proj2 words_roomy))).
  - repeat constructor.
  - by repeat constructor.
  - done.
  - vm_compute. reflexivity.
Defined.

(** The construction is refused after the identity object is published: the limit is 64 bytes, 16 of which are taken. *)
Lemma managed_map_spares_heap_witness :
  fst (newManagedMap word_map 0 word_entries 0 (after 5)) = Err (AllocError errManagedCollection) /\
  payload (mem (snd (newManagedMap word_map 0 word_entries 0 (after 5)))) (mkRef 1 1) = Some ([5; 0; 0; 0; 0; 0; 0; 0; 7; 9] ++ replicate 6 0).
Proof.
  assert (fst (newManagedMap word_map 0 word_entries 0 (after 5)) = Err (AllocError errManagedCollection)) as E by (vm_compute; reflexivity). split; [exact E|].
  pose proof (managed_map_spares_heap word_layout word_layout word_map 0 word_entries 0 64 0 (after 5) ltac:(cbn; lia) ltac:(cbn; lia) eq_refl words_codec ltac:(lia)
    (reach_steps 64 0 5 (after 5) ltac:(lia) ltac:(lia) (sample_reach 5 ltac:(lia)) ltac:(lia))
    ltac:(done) (proj1 words_keyed) word_ops (mkRef 1 1) ([5; 0; 0; 0; 0; 0; 0; 0; 7; 9] ++ replicate 6 0) ltac:(vm_compute; reflexivity)) as Hs.
  destruct (newManagedMap word_map 0 word_entries 0 (after 5)) as [[st|e] a1]; [discriminate E|exact Hs].
Defined.

Lemma map_iteration_complete_witness :
  entryIdentities word_storage (snd (run_map word_storage word_ops word_heap)) = [1 + 2 * 2 ^ 32; 2 + 2 ^ 32; 3 + 2 ^ 32] /\
  exists r, snapshot word_storage (snd (run_map word_storage word_ops word_heap)) = (Ok r, snd (run_map word_storage word_ops word_heap)) /\ NoDup (map fst r).
Proof.
  split; [vm_compute; reflexivity|].
  destruct (map_iteration_complete word_layout word_layout word_map 0 word_entries 0 0 0 0 (newManagedHeap 0 0) word_ops ltac:(cbn; lia) ltac:(cbn; lia) eq_refl words_codec ltac:(lia) (reach_new 0 0)
    ltac:(done) (proj1 words_keyed) (proj2 words_keyed) word_storage word_heap words_made) as (_ & _ & _ & _ & r & Hr & Hnd & _).
  exists r. split; [exact Hr|exact Hnd].
Defined.
