(* ===== verification/Collector.v ===== *)
(** * The collector of the managed heap (src/runtime/managed_gc.go)

    Collections run while guest code is stopped, under the owner's lock.  A major collection marks what the
    roots reach, frees old objects that were not marked, gives empty pages back and copies the marked young
    objects to the partner pages of the nursery, or promotes them to old pages.  A minor collection marks young
    objects only, through the roots and the dirty cards of old pages.

    One collector worker is modelled: the marking and sweeping loops of several workers, and the callbacks
    that follow type descriptors ([onType], [onMajor], [onReclaim]), are left out; so is the clock.  Queues
    and card logs grow within capacities that reservations admitted; the capacity of the mark queue is the
    last one of [capVectors], the capacity of the card log is not modelled, since a log has at most one entry
    for every card. *)

From S2P Require Import Prelude GoStd GoBytes Heap Allocator.

(** ** State *)

(** What one collection counts. *)
Record managedCollection : Type := mkCollection {
  reachableBytes : Z; c_reclaimed : Z; c_copied : Z; c_promoted : Z; c_roots : Z; c_cards : Z; c_references : Z
}.

(** The totals of [managedHeapStats] that only collections change. *)
Record gcTotals : Type := mkTotals {
  lastMajorReachableBytes : Z; copiedBytes : Z; promotedBytes : Z; minorCollections : Z; majorCollections : Z;
  scannedRoots : Z; scannedCards : Z; scannedReferences : Z
}.

Record collector : Type := mkGc {
  owner : allocator; epoch : Z; queue : list Z; counts : managedCollection; totals : gcTotals; poisonCollected : bool
}.

Inductive gc_error : Type :=
| HeapClosed
| errManagedCollectorBusy
| errManagedCollectorScratch
| errManagedCollectorLayout
| StaleRoot
| GcPanic.

#[export] Instance gc_error_eq_dec : EqDecision gc_error.
Proof. solve_decision. Defined.

Definition gcM (A : Type) : Type := collector -> result gc_error A * collector.

Definition gc_return {A} (x : A) : gcM A := fun g => (Ok x, g).
Definition gc_throw {A} (e : gc_error) : gcM A := fun g => (Err e, g).
Definition gc_bind {A B} (m : gcM A) (k : A -> gcM B) : gcM B :=
  fun g => match m g with (Ok x, g1) => k x g1 | (Err e, g1) => (Err e, g1) end.
Definition gc_modify (f : collector -> collector) : gcM unit := fun g => (Ok tt, f g).
Definition gc_get {A} (f : collector -> A) : gcM A := fun g => (Ok (f g), g).

Notation "'let&' x := m 'in' k" := (gc_bind m (fun x => k))
  (at level 10, x binder, m at level 150, k at level 200, format "'[v' 'let&'  x  :=  m  'in' '/' k ']'") : go_scope.

(** A check that returns [e] early. *)
Definition gc_guard (b : bool) (e : gc_error) : gcM unit := if b then gc_throw e else gc_return tt.
Definition gc_some {A} (e : gc_error) (x : option A) : gcM A := match x with Some y => gc_return y | None => gc_throw e end.

(** An allocator operation that cannot fail with an error of its own. *)
Definition gc_lift (m : allocM unit) : gcM unit := fun g =>
  match m (owner g) with
  | (Ok _, a) => (Ok tt, mkGc a (epoch g) (queue g) (counts g) (totals g) (poisonCollected g))
  | (Err _, a) => (Err GcPanic, mkGc a (epoch g) (queue g) (counts g) (totals g) (poisonCollected g))
  end.

Definition set_owner (f : allocator -> allocator) (g : collector) : collector :=
  mkGc (f (owner g)) (epoch g) (queue g) (counts g) (totals g) (poisonCollected g).
Definition set_queue (q : list Z) (g : collector) : collector := mkGc (owner g) (epoch g) q (counts g) (totals g) (poisonCollected g).
Definition set_counts (f : managedCollection -> managedCollection) (g : collector) : collector :=
  mkGc (owner g) (epoch g) (queue g) (f (counts g)) (totals g) (poisonCollected g).

Definition count_reachable (n : Z) (c : managedCollection) : managedCollection :=
  mkCollection (u64 (reachableBytes c + n)) (c_reclaimed c) (c_copied c) (c_promoted c) (c_roots c) (c_cards c) (c_references c).
Definition count_reclaimed (n : Z) (c : managedCollection) : managedCollection :=
  mkCollection (reachableBytes c) (u64 (c_reclaimed c + n)) (c_copied c) (c_promoted c) (c_roots c) (c_cards c) (c_references c).
Definition count_copied (n : Z) (c : managedCollection) : managedCollection :=
  mkCollection (reachableBytes c) (c_reclaimed c) (u64 (c_copied c + n)) (c_promoted c) (c_roots c) (c_cards c) (c_references c).
Definition count_promoted (n : Z) (c : managedCollection) : managedCollection :=
  mkCollection (reachableBytes c) (c_reclaimed c) (u64 (c_copied c + n)) (u64 (c_promoted c + n)) (c_roots c) (c_cards c) (c_references c).
Definition count_root (c : managedCollection) : managedCollection :=
  mkCollection (reachableBytes c) (c_reclaimed c) (c_copied c) (c_promoted c) (u64 (c_roots c + 1)) (c_cards c) (c_references c).
Definition count_card (c : managedCollection) : managedCollection :=
  mkCollection (reachableBytes c) (c_reclaimed c) (c_copied c) (c_promoted c) (c_roots c) (u64 (c_cards c + 1)) (c_references c).
Definition count_reference (c : managedCollection) : managedCollection :=
  mkCollection (reachableBytes c) (c_reclaimed c) (c_copied c) (c_promoted c) (c_roots c) (c_cards c) (u64 (c_references c + 1)).

Definition with_marked (n : Z) (x : objectMeta) : objectMeta :=
  mkMeta (layout x) (count x) (logical x) n (occupiedIndex x) (youngIndex x) (age x).
Definition with_age (n : Z) (x : objectMeta) : objectMeta :=
  mkMeta (layout x) (count x) (logical x) (marked x) (occupiedIndex x) (youngIndex x) n.

Definition update_meta (s : Z) (f : objectMeta -> objectMeta) (a : allocator) : allocator := set_dir (set_meta s (f (meta (dir a) s)) (dir a)) a.

Definition update_page (id : Z) (f : pageMeta -> pageMeta) (a : allocator) : allocator :=
  let g := pgs a in
  set_pgs (mkPaging (alter f (Z.to_nat id) (pmetas g)) (freePages g) (nurseryPages g) (oldAvailable g) (nurseryCapacity g)) a.

(** ** Marking *)

Definition queue_capacity (a : allocator) : Z := default 0 (capVectors (caps a) !! 3%nat).

Definition enqueue (s : Z) : gcM unit := fun g =>
  if Z.of_nat (length (queue g)) =? queue_capacity (owner g) then (Err errManagedCollectorScratch, g)
  else (Ok tt, set_queue (queue g ++ [s]) g).

Definition markReference (ref : guestRef) (major : bool) : gcM unit := fun g =>
  if negb (valid ref) then (if negb (slot ref =? 0) || negb (generation ref =? 0) then Err StaleRoot else Ok tt, g)
  else
    match resolveObject (mem (owner g)) ref with
    | Err _ => (Err StaleRoot, g)
    | Ok entry =>
        if negb major && negb (obj_young entry) then (Ok tt, g)
        else if marked (meta (dir (owner g)) (slot ref)) =? epoch g then (Ok tt, g)
        else
          (let& _ := gc_modify (set_owner (update_meta (slot ref) (with_marked (epoch g)))) in
           let& _ := gc_modify (set_counts (count_reachable (logical (meta (dir (owner g)) (slot ref))))) in
           enqueue (slot ref)) g
    end.

Definition managedRangesOverlap (start size rangeStart rangeEnd : Z) : bool :=
  if (size =? 0) || (rangeEnd <=? rangeStart) then false
  else (start <? rangeEnd) && (rangeStart <? u32 (start + size)).

Definition managedElementRange (offset count stride rangeStart rangeEnd : Z) : Z * Z :=
  if rangeEnd =? MaxUint32 then (0, count)
  else
    let rangeStart := if rangeStart <=? offset then offset else rangeStart in
    if rangeEnd <=? offset then (0, 0)
    else
      let first := Z.min ((rangeStart - offset) / stride) count in
      let last := Z.min (u32 (rangeEnd - offset + stride - 1) / stride) count in
      (first, last).

(** [binary.LittleEndian.Uint64(data[i:])] and [Uint32]. *)
Definition word_at (size : Z) (data : gostring) (i : Z) : gcM Z :=
  gc_some GcPanic (if (0 <=? i) && (i + size <=? Z.of_nat (length data)) then Some (le_word (window data i size)) else None).

Definition unpack (word : Z) : guestRef := mkRef (u32 word) (u32 (Z.shiftr word 32)).

(** [slices.BinarySearch]: the offsets from the first one that is not below [target]; the offsets are sorted. *)
Definition search_from (offsets : list Z) (target : Z) : list Z := drop_while (fun o => o <? target) offsets.

Definition is_null (ref : guestRef) : bool := (slot ref =? 0) && (generation ref =? 0).

(** A stored reference: nothing for nil, otherwise it is counted and marked. *)
Definition visit (word : Z) (major : bool) : gcM unit :=
  let child := unpack word in
  if is_null child then gc_return tt
  else let& _ := gc_modify (set_counts count_reference) in markReference child major.

Fixpoint trace_references (offsets : list Z) (data : gostring) (base stride rangeStart rangeEnd : Z) (major : bool) : gcM unit :=
  match offsets with
  | [] => gc_return tt
  | offset :: rest =>
      if (stride <? u32 (offset + 8)) || negb (managedRangesOverlap (u32 (base + offset)) 8 rangeStart rangeEnd) then
        if negb (rangeEnd =? MaxUint32) && (rangeEnd <=? u32 (base + offset)) then gc_return tt
        else trace_references rest data base stride rangeStart rangeEnd major
      else
        let& word := word_at 8 data (u32 (base + offset)) in
        let& _ := visit word major in
        trace_references rest data base stride rangeStart rangeEnd major
  end.

(** The representations of a dynamic value that hold a reference. *)
Definition holds_reference (representation : Z) : bool := (representation =? 4) || (representation =? 5).

Fixpoint trace_dynamics (offsets : list Z) (data : gostring) (base stride rangeStart rangeEnd : Z) (major : bool) : gcM unit :=
  match offsets with
  | [] => gc_return tt
  | dynamic :: rest =>
      let next := trace_dynamics rest data base stride rangeStart rangeEnd major in
      let beyond := negb (rangeEnd =? MaxUint32) && (rangeEnd <=? u32 (base + dynamic)) in
      if (stride <=? dynamic) || beyond then if beyond then gc_return tt else next
      else if (stride <? u32 (dynamic + 24)) || negb (managedRangesOverlap (u32 (base + dynamic + 4)) 12 rangeStart rangeEnd) then next
      else
        let& representation := word_at 4 data (u32 (base + dynamic + 4)) in
        if negb (holds_reference representation) then next
        else
          let& word := word_at 8 data (u32 (base + dynamic + 8)) in
          let& _ := visit word major in
          next
  end.

Fixpoint trace_elements (n : nat) (element : Z) (l : managedLayout) (data : gostring) (offset rangeStart rangeEnd : Z) (major : bool) : gcM unit :=
  match n with
  | O => gc_return tt
  | S n' =>
      let base := u32 (offset + element * lstride l) in
      let& _ := trace_references (search_from (references l) (Z.max 0 (rangeStart - base - 7))) data base (lstride l) rangeStart rangeEnd major in
      let& _ := trace_dynamics (search_from (dynamics l) (Z.max 0 (rangeStart - base - 15))) data base (lstride l) rangeStart rangeEnd major in
      trace_elements n' (element + 1) l data offset rangeStart rangeEnd major
  end.

(** The layout and the page of an object, or the error of a payload that does not fit them. *)
Definition described (a : allocator) (s : Z) (entry : managedObject) : option (managedLayout * managedPage) :=
  let x := meta (dir a) s in
  if layout x =? 0 then None
  else
    l ← nth_of (layouts a) (layout x);
    if lstride l =? 0 then None
    else
      page ← nth_of (pages (mem a)) (obj_page entry);
      if Z.of_nat (length (data page)) <? obj_offset entry + count x * lstride l then None else Some (l, page).

Definition traceObject (s : Z) (entry : managedObject) (major : bool) (rangeStart rangeEnd : Z) : gcM unit := fun g =>
  match described (owner g) s entry with
  | None => (Err errManagedCollectorLayout, g)
  | Some (l, page) =>
      let '(first, last) := managedElementRange (obj_offset entry) (count (meta (dir (owner g)) s)) (lstride l) rangeStart rangeEnd in
      trace_elements (Z.to_nat (last - first)) first l (data page) (obj_offset entry) rangeStart rangeEnd major g
  end.

(** The loop over the queue, which grows while it is traversed. *)
Fixpoint drain_loop (fuel : nat) (cursor : nat) (major : bool) : gcM unit := fun g =>
  match queue g !! cursor with
  | None => (Ok tt, g)
  | Some s =>
      match fuel with
      | O => (Ok tt, g)
      | S fuel' =>
          match object (mem (owner g)) s with
          | None => (Err StaleRoot, g)
          | Some entry =>
              if negb (bool_decide (obj_state entry = managedPublished)) || negb (marked (meta (dir (owner g)) s) =? epoch g)
              then (Err StaleRoot, g)
              else
                (let& _ := if major || obj_young entry then traceObject s entry major 0 MaxUint32 else gc_return tt in
                 drain_loop fuel' (S cursor) major) g
          end
      end
  end.

(** Every slot is enqueued once. *)
Definition drain_fuel (g : collector) : nat := S (length (occupied (dir (owner g)))).

Definition drainQueue (major : bool) : gcM unit := fun g => drain_loop (drain_fuel g) 0 major g.

Fixpoint mark_roots (roots : list guestRef) (major : bool) : gcM unit :=
  match roots with
  | [] => gc_return tt
  | root :: rest =>
      let& _ :=
        if negb (valid root) then gc_guard (negb (is_null root)) StaleRoot
        else let& _ := gc_modify (set_counts count_root) in markReference root major in
      mark_roots rest major
  end.

(** ** Cards *)

Definition managedCardEntryRange (x : pageMeta) (start end_ : Z) : Z * Z :=
  if (end_ <=? start) || bool_decide (entries x = []) then (0, 0)
  else if bool_decide (kind x = managedLargePage) then if used x <=? start then (0, 0) else (0, 1)
  else if negb (bool_decide (kind x = managedOldPage)) || (pclass x =? 0) then (0, 0)
  else
    let n := Z.of_nat (length (entries x)) in
    (Z.min (start / pclass x) n, Z.min (u32 (end_ + pclass x - 1) / pclass x) n).

(** The part of the page that a card covers. *)
Definition card_range (page : managedPage) (index : Z) : Z * Z :=
  let start := u32 (index * managedCardBytes) in
  let end_ := u32 (start + managedCardBytes) in
  (start, if u32 (Z.of_nat (length (data page))) <? end_ then u32 (Z.of_nat (length (data page))) else end_).

(** The objects of a page's entries [first, last) that overlap a card. *)
Fixpoint on_card (entries : list Z) (card start end_ : Z) (a : allocator) : list (Z * managedObject) :=
  match entries with
  | [] => []
  | s :: rest =>
      let found :=
        match object (mem a) s with
        | Some entry =>
            if negb (bool_decide (obj_state entry = managedPublished)) || negb (obj_page entry =? card)
               || negb (managedRangesOverlap (obj_offset entry) (obj_size entry) start end_)
            then [] else [(s, entry)]
        | None => []
        end in
      found ++ on_card rest card start end_ a
  end.

Definition card_objects (a : allocator) (page : managedPage) (x : pageMeta) (card index : Z) : list (Z * managedObject) :=
  let '(start, end_) := card_range page index in
  let '(first, last) := managedCardEntryRange x start end_ in
  on_card (take (Z.to_nat (last - first)) (drop (Z.to_nat first) (entries x))) card start end_ a.

Fixpoint trace_all (objects : list (Z * managedObject)) (start end_ : Z) : gcM unit :=
  match objects with
  | [] => gc_return tt
  | (s, entry) :: rest => let& _ := traceObject s entry false start end_ in trace_all rest start end_
  end.

(** [page.cards[index].Store(v)]. *)
Definition store_card (page index v : Z) (a : allocator) : allocator :=
  set_mem (mkHeap (segments (mem a)) (alter (fun p => mkPage (data p) (<[Z.to_nat index := v]> (cards p))) (Z.to_nat page) (pages (mem a)))
             (pendingCards (mem a))) a.

Definition set_pending (cs : list (Z * Z)) (a : allocator) : allocator := set_mem (mkHeap (segments (mem a)) (pages (mem a)) cs) a.

Fixpoint trace_cards (cs : list (Z * Z)) : gcM unit :=
  match cs with
  | [] => gc_return tt
  | (id, index) :: rest =>
      let& page := fun g => gc_some errManagedCollectorLayout (nth_of (pages (mem (owner g))) id) g in
      let& x := fun g => gc_some errManagedCollectorLayout (page_meta (owner g) id) g in
      let& _ := gc_guard (Z.of_nat (length (cards page)) <=? index) errManagedCollectorLayout in
      let& _ := gc_modify (set_counts count_card) in
      let& objects := gc_get (fun g => card_objects (owner g) page x id index) in
      let& _ := trace_all objects (fst (card_range page index)) (snd (card_range page index)) in
      let& _ := gc_modify (set_owner (store_card id index 1)) in
      trace_cards rest
  end.

Definition tracePendingCards : gcM unit := fun g => trace_cards (pendingCards (mem (owner g))) g.

(** One card of [markCard]'s loop. *)
Fixpoint mark_cards (n : nat) (page index : Z) : gcM unit :=
  match n with
  | O => gc_return tt
  | S n' =>
      let& p := fun g => gc_some errManagedCollectorLayout (nth_of (pages (mem (owner g))) page) g in
      let& c := gc_some errManagedCollectorLayout (nth_of (cards p) index) in
      let& _ := if c =? 0 then gc_modify (set_owner (fun a => set_pending (pendingCards (mem a) ++ [(page, index)]) (store_card page index 1 a)))
                else gc_return tt in
      mark_cards n' page (index + 1)
  end.

Definition markCard (page offset size : Z) : gcM unit := fun g =>
  if size =? 0 then (Ok tt, g)
  else
    match nth_of (pages (mem (owner g))) page with
    | None => (Err errManagedCollectorLayout, g)
    | Some p =>
        if Z.of_nat (length (data p)) <? offset + size then (Err errManagedCollectorLayout, g)
        else
          let first := offset / managedCardBytes in
          let last := u32 (offset + size - 1) / managedCardBytes in
          if Z.of_nat (length (cards p)) <=? last then (Err errManagedCollectorLayout, g)
          else mark_cards (Z.to_nat (last - first + 1)) page first g
    end.

(** The card of a stored reference to a young object is marked. *)
Definition mark_if_young (word page offset : Z) : gcM unit :=
  let child := unpack word in
  if is_null child then gc_return tt
  else
    let& resolved := fun g => match resolveObject (mem (owner g)) child with Ok e => (Ok e, g) | Err _ => (Err StaleRoot, g) end in
    if obj_young resolved then markCard page offset 8 else gc_return tt.

Fixpoint young_references (offsets : list Z) (data : gostring) (page base : Z) : gcM unit :=
  match offsets with
  | [] => gc_return tt
  | offset :: rest =>
      let& word := word_at 8 data (u32 (base + offset)) in
      let& _ := mark_if_young word page (u32 (base + offset)) in
      young_references rest data page base
  end.

Fixpoint young_dynamics (offsets : list Z) (data : gostring) (page base : Z) : gcM unit :=
  match offsets with
  | [] => gc_return tt
  | dynamic :: rest =>
      let& representation := word_at 4 data (u32 (base + dynamic + 4)) in
      let& _ :=
        if negb (holds_reference representation) then gc_return tt
        else let& word := word_at 8 data (u32 (base + dynamic + 8)) in mark_if_young word page (u32 (base + dynamic + 8)) in
      young_dynamics rest data page base
  end.

Fixpoint young_elements (n : nat) (element : Z) (l : managedLayout) (data : gostring) (page offset : Z) : gcM unit :=
  match n with
  | O => gc_return tt
  | S n' =>
      let base := u32 (offset + element * lstride l) in
      let& _ := young_references (references l) data page base in
      let& _ := young_dynamics (dynamics l) data page base in
      young_elements n' (element + 1) l data page offset
  end.

(** The layout and the page, without the check of the stride. *)
Definition shaped (a : allocator) (s : Z) (entry : managedObject) : option (managedLayout * managedPage) :=
  let x := meta (dir a) s in
  if layout x =? 0 then None
  else
    l ← nth_of (layouts a) (layout x);
    page ← nth_of (pages (mem a)) (obj_page entry);
    if Z.of_nat (length (data page)) <? obj_offset entry + count x * lstride l then None else Some (l, page).

Definition markYoungReferences (s : Z) (entry : managedObject) : gcM unit := fun g =>
  match shaped (owner g) s entry with
  | None => (Err errManagedCollectorLayout, g)
  | Some (l, page) => young_elements (Z.to_nat (count (meta (dir (owner g)) s))) 0 l (data page) (obj_page entry) (obj_offset entry) g
  end.

Definition is_old (a : allocator) (s : Z) : bool :=
  match object (mem a) s with Some e => bool_decide (obj_state e = managedPublished) && negb (obj_young e) | None => false end.

Fixpoint rebuild_loop (slots : list Z) : gcM unit :=
  match slots with
  | [] => gc_return tt
  | s :: rest =>
      let& _ := fun g => match object (mem (owner g)) s with
                         | Some e => if is_old (owner g) s then markYoungReferences s e g else (Ok tt, g)
                         | None => (Ok tt, g)
                         end in
      rebuild_loop rest
  end.

Definition rebuildYoungCards : gcM unit := fun g => rebuild_loop (occupied (dir (owner g))) g.

Definition resetCards (a : allocator) : allocator :=
  set_mem (mkHeap (segments (mem a)) (map (fun p => mkPage (data p) (replicate (length (cards p)) 0)) (pages (mem a))) []) a.

(** Whether the references of [entry] in a range name a young object. *)
Definition is_young (word : Z) (keep : bool) : gcM bool :=
  let child := unpack word in
  if is_null child then gc_return keep
  else fun g => match resolveObject (mem (owner g)) child with Ok e => (Ok (keep || obj_young e), g) | Err _ => (Err StaleRoot, g) end.

Fixpoint card_references (offsets : list Z) (data : gostring) (base start end_ : Z) (keep : bool) : gcM bool :=
  match offsets with
  | [] => gc_return keep
  | offset :: rest =>
      if end_ <=? u32 (base + offset) then gc_return keep
      else if negb (managedRangesOverlap (u32 (base + offset)) 8 start end_) then card_references rest data base start end_ keep
      else
        let& word := word_at 8 data (u32 (base + offset)) in
        let& keep := is_young word keep in
        card_references rest data base start end_ keep
  end.

Fixpoint card_dynamics (offsets : list Z) (data : gostring) (base start end_ : Z) (keep : bool) : gcM bool :=
  match offsets with
  | [] => gc_return keep
  | dynamic :: rest =>
      if end_ <=? u32 (base + dynamic) then gc_return keep
      else if negb (managedRangesOverlap (u32 (base + dynamic + 4)) 12 start end_) then card_dynamics rest data base start end_ keep
      else
        let& representation := word_at 4 data (u32 (base + dynamic + 4)) in
        if negb (holds_reference representation) then card_dynamics rest data base start end_ keep
        else
          let& word := word_at 8 data (u32 (base + dynamic + 8)) in
          let& keep := is_young word keep in
          card_dynamics rest data base start end_ keep
  end.

Fixpoint card_elements (n : nat) (element : Z) (l : managedLayout) (data : gostring) (offset start end_ : Z) (keep : bool) : gcM bool :=
  match n with
  | O => gc_return keep
  | S n' =>
      let base := u32 (offset + element * lstride l) in
      let& keep := card_references (search_from (references l) (Z.max 0 (start - base - 7))) data base start end_ keep in
      let& keep := card_dynamics (search_from (dynamics l) (Z.max 0 (start - base - 15))) data base start end_ keep in
      card_elements n' (element + 1) l data offset start end_ keep
  end.

Definition cardHasYoung (s : Z) (entry : managedObject) (start end_ : Z) (keep : bool) : gcM bool := fun g =>
  match shaped (owner g) s entry with
  | None => (Err errManagedCollectorLayout, g)
  | Some (l, page) =>
      if lstride l =? 0 then (Err GcPanic, g)
      else
        let '(first, last) := managedElementRange (obj_offset entry) (count (meta (dir (owner g)) s)) (lstride l) start end_ in
        card_elements (Z.to_nat (last - first)) first l (data page) (obj_offset entry) start end_ keep g
  end.

Fixpoint any_young (objects : list (Z * managedObject)) (start end_ : Z) (keep : bool) : gcM bool :=
  match objects with
  | [] => gc_return keep
  | (s, entry) :: rest => let& keep := cardHasYoung s entry start end_ keep in any_young rest start end_ keep
  end.

(** The cards that still cover a reference to a young object stay dirty. *)
Fixpoint refresh_loop (cs kept : list (Z * Z)) : gcM (list (Z * Z)) :=
  match cs with
  | [] => gc_return kept
  | (id, index) :: rest =>
      let& page := fun g => gc_some GcPanic (nth_of (pages (mem (owner g))) id) g in
      let& x := fun g => gc_some GcPanic (page_meta (owner g) id) g in
      let& objects := gc_get (fun g => card_objects (owner g) page x id index) in
      let& keep := any_young objects (fst (card_range page index)) (snd (card_range page index)) false in
      if keep then refresh_loop rest (kept ++ [(id, index)])
      else
        let& _ := gc_some GcPanic (nth_of (cards page) index) in
        let& _ := gc_modify (set_owner (store_card id index 0)) in
        refresh_loop rest kept
  end.

Definition refreshPendingCards : gcM unit := fun g =>
  (let& kept := refresh_loop (pendingCards (mem (owner g))) [] in gc_modify (set_owner (set_pending kept))) g.

(** ** Sweeping *)

Definition sweepable (g : collector) (s : Z) : bool := is_old (owner g) s && negb (marked (meta (dir (owner g)) s) =? epoch g).

Fixpoint free_swept (slots : list Z) : gcM unit :=
  match slots with
  | [] => gc_return tt
  | s :: rest =>
      let& _ :=
        if s =? 0 then gc_return tt
        else
          fun g =>
            match object (mem (owner g)) s with
            | Some e =>
                if negb (bool_decide (obj_state e = managedPublished)) then (Err StaleRoot, g)
                else
                  (let& _ := gc_modify (set_counts (count_reclaimed (logical (meta (dir (owner g)) s)))) in
                   gc_lift (freeObject s true)) g
            | None => (Err StaleRoot, g)
            end in
      free_swept rest
  end.

(** [sweepOldParallel] with one worker: the dead old objects are found first, then freed. *)
Definition sweepOld : gcM unit := fun g =>
  let slots := occupied (dir (owner g)) in
  if bool_decide (slots = []) then (Ok tt, g)
  else if queue_capacity (owner g) <? Z.of_nat (length slots) then (Err errManagedCollectorScratch, g)
  else
    (let& _ := gc_modify (set_queue (map (fun s => if sweepable g s then s else 0) slots)) in
     fun g => free_swept (queue g) g) g.

(** The page gives up its memory; its address becomes free. *)
Definition discard_page (id : Z) (x : pageMeta) (a : allocator) : allocator :=
  let g := pgs a in
  let resid := residentPageBytes (led a) in
  let freed := if resident x <=? resid then resident x else resid in
  set_led (add_resident (- freed))
    (set_mem (mkHeap (segments (mem a)) (<[Z.to_nat id := mkPage [] []]> (pages (mem a))) (pendingCards (mem a)))
       (set_pgs (mkPaging (<[Z.to_nat id := mkPageMeta [] [] 0 0 0 (cardCapacity x) NoPage 0 false]> (pmetas g)) (id :: freePages g) (nurseryPages g)
                   (map (List.filter (fun candidate => negb (candidate =? id))) (oldAvailable g)) (nurseryCapacity g)) a)).

Definition reclaimable (a : allocator) (x : pageMeta) : bool :=
  (used x =? 0) &&
  match kind x with
  | managedLargePage => true
  | managedOldPage =>
      let i := trailing_zeros (pclass x) - 3 in
      negb ((0 <=? i) && (i <? Z.of_nat (length (oldAvailable (pgs a))))
            && match nth_of (oldAvailable (pgs a)) i with Some l => Z.of_nat (length l) <=? 1 | None => false end)
  | _ => false
  end.

Fixpoint reclaim_loop (n : nat) (id : Z) (a : allocator) : allocator :=
  match n with
  | O => a
  | S n' =>
      reclaim_loop n' (id + 1)
        (match page_meta a id with
         | Some x => if reclaimable a x then discard_page id x a else a
         | None => a
         end)
  end.

Definition reclaimEmptyPages (a : allocator) : allocator := reclaim_loop (length (pages (mem a))) 0 a.

(** ** Copying *)

Definition with_kind (k : page_kind) (u : Z) (x : pageMeta) : pageMeta :=
  mkPageMeta (entries x) (pfree x) u (pclass x) (partner x) (cardCapacity x) k (resident x) (leased x).
Definition with_partner (p : Z) (x : pageMeta) : pageMeta :=
  mkPageMeta (entries x) (pfree x) (used x) (pclass x) p (cardCapacity x) (kind x) (resident x) (leased x).

Fixpoint open_partners (ids : list Z) : gcM unit :=
  match ids with
  | [] => gc_return tt
  | id :: rest =>
      let& from := fun g => gc_some errManagedCollectorLayout (page_meta (owner g) id) g in
      let& _ := fun g => gc_some errManagedCollectorLayout (page_meta (owner g) (partner from)) g in
      let& _ := gc_modify (set_owner (update_page (partner from) (with_kind managedYoungPage 0))) in
      open_partners rest
  end.

Definition set_available (i : Z) (l : list Z) (a : allocator) : allocator :=
  let g := pgs a in
  set_pgs (mkPaging (pmetas g) (freePages g) (nurseryPages g) (<[Z.to_nat i := l]> (oldAvailable g)) (nurseryCapacity g)) a.

(** The first size class that holds [size] and has a page with room. *)
Fixpoint find_class (lists : list (list Z)) (i size : Z) : option (Z * list Z) :=
  match lists with
  | [] => None
  | l :: rest => if (size <=? Z.shiftl 1 (i + 3)) && negb (bool_decide (l = [])) then Some (i, l) else find_class rest (i + 1) size
  end.

(** [copy(dst[at:], src)]. *)
Definition copy_from (dst : gostring) (at_ : Z) (src : gostring) : gostring := list_inserts (Z.to_nat at_) (take (length dst - Z.to_nat at_) src) dst.

Definition promoteObject (s : Z) (entry : managedObject) : gcM unit :=
  let& found := fun g => gc_some errManagedCollectorScratch (find_class (oldAvailable (pgs (owner g))) 0 (obj_size entry)) g in
  let '(class, available) := found in
  let& id := gc_some GcPanic (last available) in
  let rest := take (length available - 1) available in
  let& page := fun g => gc_some errManagedCollectorLayout (nth_of (pages (mem (owner g))) id) g in
  let& x := fun g => gc_some errManagedCollectorLayout (page_meta (owner g) id) g in
  match pfree x with
  | [] => let& _ := gc_modify (set_owner (set_available class rest)) in gc_throw errManagedCollectorScratch
  | index :: free =>
      let& _ := gc_modify (set_owner (update_page id (fun x => mkPageMeta (entries x) free (used x) (pclass x) (partner x) (cardCapacity x) (kind x) (resident x) (leased x)))) in
      let& _ := match free with [] => gc_modify (set_owner (set_available class rest)) | _ => gc_return tt end in
      let& old := fun g => gc_some errManagedCollectorLayout (nth_of (pages (mem (owner g))) (obj_page entry)) g in
      let offset := u32 (index * pclass x) in
      let& _ := gc_guard ((Z.of_nat (length (data old)) <? obj_offset entry + obj_size entry)
                          || (Z.of_nat (length (data page)) <? index * pclass x + obj_size entry)) errManagedCollectorLayout in
      let& _ := gc_modify (set_owner (fun a => set_mem (set_data (mem a) id (copy_from (data page) offset (window (data old) (obj_offset entry) (obj_size entry)))) a)) in
      let& _ := gc_some GcPanic (nth_of (entries x) index) in
      let& _ := gc_modify (set_owner (update_page id (fun x =>
        mkPageMeta (<[Z.to_nat index := s]> (entries x)) (pfree x) (u32 (used x + pclass x)) (pclass x) (partner x) (cardCapacity x) (kind x) (resident x) (leased x)))) in
      let moved := mkObject (obj_state entry) (obj_generation entry) id offset (obj_size entry) false in
      let& _ := gc_modify (set_owner (fun a => update_meta s (with_age 0) (set_mem (set_object s moved (mem a)) a))) in
      let& _ := gc_modify (set_owner (fun a => set_led (add_young (- logical (meta (dir a) s))) a)) in
      let& _ := gc_modify (set_counts (count_promoted (obj_size entry))) in
      markYoungReferences s moved
  end.

(** The copy of one young object into the partner of its page. *)
Definition evacuate (s fromID toID : Z) : gcM unit :=
  let& entry := fun g => gc_some GcPanic (object (mem (owner g)) s) g in
  let& from := fun g => gc_some GcPanic (nth_of (pages (mem (owner g))) fromID) g in
  let& to := fun g => gc_some GcPanic (nth_of (pages (mem (owner g))) toID) g in
  let& x := fun g => gc_some GcPanic (page_meta (owner g) toID) g in
  let aligned := Z.ldiff (u32 (used x + 7)) 7 in
  let& _ := gc_guard ((Z.of_nat (length (data to)) <? aligned + obj_size entry) || (Z.of_nat (length (data from)) <? obj_offset entry + obj_size entry))
              errManagedCollectorScratch in
  let& _ := gc_modify (set_owner (fun a =>
    set_mem (set_data (mem a) toID (list_inserts (Z.to_nat aligned) (window (data from) (obj_offset entry) (obj_size entry)) (data to))) a)) in
  let& _ := gc_modify (set_owner (fun a =>
    update_meta s (fun x => with_age (u8 (age x + 1)) x)
      (set_mem (set_object s (mkObject (obj_state entry) (obj_generation entry) toID aligned (obj_size entry) true) (mem a)) a))) in
  let& _ := gc_modify (set_owner (update_page toID (fun x => with_kind (kind x) (u32 (aligned + obj_size entry)) x))) in
  gc_modify (set_counts (count_copied (obj_size entry))).

(** A marked young object is promoted when it has survived before and there is room, and copied otherwise. *)
Definition move_young (s : Z) : gcM unit := fun g =>
  match object (mem (owner g)) s with
  | None => (Ok tt, g)
  | Some entry =>
      if negb (bool_decide (obj_state entry = managedPublished)) || negb (marked (meta (dir (owner g)) s) =? epoch g) then (Ok tt, g)
      else
        match page_meta (owner g) (obj_page entry) with
        | None => (Err GcPanic, g)
        | Some from =>
            if negb (bool_decide (kind from = managedYoungPage)) then (Err errManagedCollectorLayout, g)
            else
              match page_meta (owner g) (partner from) with
              | None => (Err errManagedCollectorLayout, g)
              | Some _ =>
                  if 1 <=? age (meta (dir (owner g)) s) then
                    match promoteObject s entry g with
                    | (Ok _, g1) => (Ok tt, g1)
                    | (Err GcPanic, g1) => (Err GcPanic, g1)
                    | (Err _, g1) => evacuate s (obj_page entry) (partner from) g1
                    end
                  else evacuate s (obj_page entry) (partner from) g
              end
        end
  end.

Fixpoint move_all (slots : list Z) : gcM unit :=
  match slots with
  | [] => gc_return tt
  | s :: rest => let& _ := move_young s in move_all rest
  end.

(** The partners become the nursery. *)
Fixpoint swap_partners (ids : list Z) : gcM (list Z) :=
  match ids with
  | [] => gc_return []
  | id :: rest =>
      let& from := fun g => gc_some GcPanic (page_meta (owner g) id) g in
      let toID := partner from in
      let& _ := fun g => gc_some GcPanic (page_meta (owner g) toID) g in
      let& _ := gc_modify (set_owner (update_page toID (with_partner id))) in
      let& _ := gc_modify (set_owner (update_page id (fun x => with_kind managedSparePage 0 (with_partner toID x)))) in
      let& _ := fun g =>
        if poisonCollected g then (Ok tt, set_owner (fun a =>
          match nth_of (pages (mem a)) id with Some p => set_mem (set_data (mem a) id (replicate (length (data p)) 221)) a | None => a end) g)
        else (Ok tt, g) in
      let& rest := swap_partners rest in
      gc_return (toID :: rest)
  end.

Definition removeYoungSlot (s : Z) (a : allocator) : allocator :=
  let index := youngIndex (meta (dir a) s) in
  if (Z.of_nat (length (youngSlots (dir a))) <=? index) || negb (bool_decide (youngSlots (dir a) !! Z.to_nat index = Some s)) then a
  else match remove_young s (dir a) with Some d => set_dir d a | None => a end.

(** Unmarked young objects are freed and promoted ones leave the list; the list shrinks or the index grows. *)
Fixpoint clean_loop (fuel : nat) (index : nat) : gcM unit := fun g =>
  match youngSlots (dir (owner g)) !! index with
  | None => (Ok tt, g)
  | Some s =>
      match fuel with
      | O => (Ok tt, g)
      | S fuel' =>
          match object (mem (owner g)) s with
          | None => clean_loop fuel' index g
          | Some entry =>
              let published := bool_decide (obj_state entry = managedPublished) in
              if published && obj_young entry && (marked (meta (dir (owner g)) s) =? epoch g) then clean_loop fuel' (S index) g
              else if published && negb (obj_young entry) then (let& _ := gc_modify (set_owner (removeYoungSlot s)) in clean_loop fuel' index) g
              else if published then
                (let& _ := gc_modify (set_counts (count_reclaimed (logical (meta (dir (owner g)) s)))) in
                 let& _ := gc_lift (freeObject s true) in clean_loop fuel' index) g
              else (let& _ := gc_lift (freeObject s false) in clean_loop fuel' index) g
          end
      end
  end.

Definition clean_fuel (g : collector) : nat := length (youngSlots (dir (owner g))).

Definition copyNursery : gcM unit :=
  let& ids := gc_get (fun g => nurseryPages (pgs (owner g))) in
  let& _ := open_partners ids in
  let& slots := gc_get (fun g => youngSlots (dir (owner g))) in
  let& _ := move_all slots in
  let& partners := swap_partners ids in
  let& _ := gc_modify (set_owner (fun a =>
    let g := pgs a in set_pgs (mkPaging (pmetas g) (freePages g) partners (oldAvailable g) (nurseryCapacity g)) a)) in
  fun g => clean_loop (clean_fuel g) 0 g.

(** ** Collections *)

Definition nextCollectionEpoch (g : collector) : collector :=
  let next := u64 (epoch g + 1) in
  if negb (next =? 0) then mkGc (owner g) next (queue g) (counts g) (totals g) (poisonCollected g)
  else
    mkGc (foldl (fun a s => match object (mem a) s with Some _ => update_meta s (with_marked 0) a | None => a end) (owner g) (occupied (dir (owner g))))
      1 (queue g) (counts g) (totals g) (poisonCollected g).

Definition layout_bytes (l : managedLayout) : Z := Z.of_nat (length (references l) + length (dynamics l) + length (types l)) * 4.

(** The layouts of live objects and pinned ones stay; the others are cleared. *)
Definition mark_layouts (ep : Z) (a : allocator) : allocator :=
  set_layouts (layouts a)
    (foldl (fun os s => alter (fun o => mkOwner (pins o) ep) (Z.to_nat (layout (meta (dir a) s))) os) (layoutOwners a) (occupied (dir a))) a.

Fixpoint clear_layouts (n : nat) (id : Z) (ep : Z) (a : allocator) : allocator :=
  match n with
  | O => a
  | S n' =>
      clear_layouts n' (id + 1) ep
        (match layoutOwners a !! Z.to_nat id, layouts a !! Z.to_nat id with
         | Some o, Some l =>
             if negb (pins o =? 0) || (owner_marked o =? ep) then a
             else set_led (add_resident (- layout_bytes l)) (set_layouts (<[Z.to_nat id := mkLayout 0 0 [] [] []]> (layouts a)) (layoutOwners a) a)
         | _, _ => a
         end)
  end.

Definition sweep_layouts (ep : Z) (a : allocator) : allocator :=
  let a := mark_layouts ep a in clear_layouts (length (layouts a) - 1) 1 ep a.

Definition set_next_major (n : Z) (a : allocator) : allocator :=
  let c := conf a in
  mkAlloc (mem a) (dir a) (pgs a) (led a) (mkConfig (maxGuestBytes c) (maxResidentBytes c) (nurseryLimit c) n (closed c)) (caps a)
    (layouts a) (layoutOwners a) (reservations a) (controls a).

(** [collectionRequested.Store(false)]. *)
Definition clear_request (l : ledger) : ledger :=
  mkLedger (occupiedBytes l) (reservedBytes l) (residentPageBytes l) (totalAllocatedBytes l) (allocations l) (reclaimedBytes l)
    (youngBytes l) (controlBytes l) (unpublished l) false.

(** The counters at the end of a collection. *)
Definition finish_collection (major : bool) (g : collector) : collector :=
  let c := counts g in
  let c := if major then c else mkCollection (occupiedBytes (led (owner g))) (c_reclaimed c) (c_copied c) (c_promoted c) (c_roots c) (c_cards c) (c_references c) in
  let t := totals g in
  let t := mkTotals (if major then reachableBytes c else lastMajorReachableBytes t) (u64 (copiedBytes t + c_copied c)) (u64 (promotedBytes t + c_promoted c))
             (if major then minorCollections t else u64 (minorCollections t + 1)) (if major then u64 (majorCollections t + 1) else majorCollections t)
             (u64 (scannedRoots t + c_roots c)) (u64 (scannedCards t + c_cards c)) (u64 (scannedReferences t + c_references c)) in
  let a := set_led (add_reclaimed (c_reclaimed c)) (owner g) in
  let a := if major then sweep_layouts (epoch g) (set_next_major (u64 (reachableBytes c + Z.max (reachableBytes c) managedMajorGrowthBytes)) a) else a in
  mkGc (set_led clear_request a) (epoch g) (queue g) c t (poisonCollected g).

Definition collect (roots : list guestRef) (major : bool) : gcM managedCollection := fun g =>
  let a := owner g in
  if closed (conf a) then (Err HeapClosed, g)
  else if negb (unpublished (led a) =? 0) then (Err errManagedCollectorBusy, g)
  else if queue_capacity a <? Z.of_nat (length (occupied (dir a))) then (Err errManagedCollectorScratch, g)
  else
    (let& _ := gc_modify nextCollectionEpoch in
     let& _ := gc_modify (fun g => set_queue [] (set_counts (fun _ => mkCollection (controlBytes (led (owner g))) 0 0 0 0 0 0) g)) in
     let& _ := mark_roots roots major in
     let& _ := drainQueue major in
     let& _ := if major then gc_return tt else let& _ := tracePendingCards in drainQueue major in
     let& _ := if major then let& _ := sweepOld in gc_modify (set_owner reclaimEmptyPages) else gc_return tt in
     let& _ := copyNursery in
     let& _ := if major then let& _ := gc_modify (set_owner resetCards) in rebuildYoungCards else refreshPendingCards in
     let& _ := gc_modify (finish_collection major) in
     gc_get counts) g.
