(* ===== verification/CollectorMark.v ===== *)
(** * Marking is exact (src/runtime/managed_gc.go)

    The references stored in an object, the graph they make, and the marking loops: on a heap whose stored
    references all resolve, marking ends, stays within the queue, and marks exactly the objects that the
    roots reach. *)

From S2P Require Import Prelude GoStd GoBytes Heap Allocator AllocatorSafe Collector.
From stdpp Require Import relations.

#[local] Open Scope Z_scope.
#[local] Arguments Z.to_nat : simpl never.

(** ** The references of a payload *)

(** The words of the references and dynamic values of one element that starts at [base]. *)
Definition ref_words (offsets : list Z) (data : gostring) (base : Z) : list Z := map (fun o => le_word (window data (base + o) 8)) offsets.

Definition dyn_words (offsets : list Z) (data : gostring) (base : Z) : list Z :=
  omap (fun d => if holds_reference (le_word (window data (base + d + 4) 4)) then Some (le_word (window data (base + d + 8) 8)) else None) offsets.

(** A field of [size] bytes at [start] meets the range. *)
Definition meets (start size rangeStart rangeEnd : Z) : bool := (start <? rangeEnd) && (rangeStart <? start + size).

Definition element_words (l : managedLayout) (data : gostring) (rangeStart rangeEnd base : Z) : list Z :=
  ref_words (List.filter (fun o => meets (base + o) 8 rangeStart rangeEnd) (references l)) data base ++
  dyn_words (List.filter (fun d => meets (base + d + 4) 12 rangeStart rangeEnd) (dynamics l)) data base.

Definition words_between (l : managedLayout) (data : gostring) (offset first last rangeStart rangeEnd : Z) : list Z :=
  concat (map (fun i => element_words l data rangeStart rangeEnd (offset + i * lstride l)) (seqZ first (last - first))).

(** The offsets of a layout, sorted and inside the stride. *)
Record layout_ok (l : managedLayout) : Prop := {
  lay_stride : 0 < lstride l < 2 ^ 32;
  lay_references : Forall (fun o => 0 <= o /\ o + 8 <= lstride l) (references l);
  lay_sorted : StronglySorted Z.le (references l);
  lay_dynamics : Forall (fun d => 0 <= d /\ d + 24 <= lstride l) (dynamics l);
  lay_dynamics_sorted : StronglySorted Z.le (dynamics l)
}.

(** The visits of a list of words, in order. *)
Fixpoint visits (words : list Z) (major : bool) : gcM unit :=
  match words with
  | [] => gc_return tt
  | w :: rest => let& _ := visit w major in visits rest major
  end.

Lemma gc_bind_ok {A B} (m : gcM A) (k : A -> gcM B) g x g1 : m g = (Ok x, g1) -> gc_bind m k g = k x g1.
Proof. intros E. unfold gc_bind. by rewrite E. Qed.

Lemma visits_app ws ws' major g : visits (ws ++ ws') major g = gc_bind (visits ws major) (fun _ => visits ws' major) g.
Proof.
  revert g. induction ws as [|w ws IH]; intros g; [done|]. cbn [app visits]. unfold gc_bind in *. destruct (visit w major g) as [[[]|e] g1]; [apply IH|done].
Qed.

Lemma word_at_ok size data i g : 0 <= i -> i + size <= Z.of_nat (length data) -> word_at size data i g = (Ok (le_word (window data i size)), g).
Proof. intros H1 H2. unfold word_at. by rewrite !(proj2 (Z.leb_le _ _)) by lia. Qed.

Lemma overlap_meets start size rs re : 0 < size -> 0 <= rs < re -> 0 <= start -> start + size < 2 ^ 32 -> managedRangesOverlap start size rs re = meets start size rs re.
Proof. intros. unfold managedRangesOverlap, meets. rewrite (proj2 (Z.eqb_neq _ _)), (proj2 (Z.leb_gt _ _)), u32_id by lia. done. Qed.

(** Dropping the offsets below the range changes nothing. *)
Lemma search_filter (keep : Z -> bool) target l :
  (forall o, o ∈ l -> o < target -> keep o = false) -> List.filter keep (search_from l target) = List.filter keep l.
Proof.
  unfold search_from. induction l as [|x l IH]; intros Hk; [done|]. cbn. destruct (Z.ltb_spec x target); [|done].
  rewrite IH by (intros o Ho; apply Hk; by right). rewrite (Hk x); [done|by left|done].
Qed.

Lemma search_sorted target l : StronglySorted Z.le l -> StronglySorted Z.le (search_from l target).
Proof. unfold search_from. induction 1 as [|x l Hs IH Hx]; [constructor|]. cbn. destruct (x <? target); [done|by constructor]. Qed.

Lemma trace_references_visits offsets data base stride rs re major g :
  StronglySorted Z.le offsets -> Forall (fun o => 0 <= o /\ o + 8 <= stride) offsets ->
  0 <= base -> 0 <= stride < 2 ^ 32 -> base + stride <= Z.of_nat (length data) -> Z.of_nat (length data) < 2 ^ 32 -> 0 <= rs < re -> re <= MaxUint32 ->
  trace_references offsets data base stride rs re major g = visits (ref_words (List.filter (fun o => meets (base + o) 8 rs re) offsets) data base) major g.
Proof.
  intros Hs Hf Hb Hst Hd Hlen Hr Hre. unfold MaxUint32 in *. revert g. induction Hs as [|o l Hs IH Hle]; intros g; [done|]. apply Forall_cons in Hf as [Ho Hf].
  specialize (IH Hf). cbn [trace_references List.filter]. rewrite !u32_id by lia. rewrite overlap_meets by lia. rewrite (proj2 (Z.ltb_ge _ _)) by lia. cbn [orb].
  destruct (meets (base + o) 8 rs re) eqn:Em; cbn [negb].
  - cbn [ref_words map visits]. fold (ref_words (List.filter (fun o => meets (base + o) 8 rs re) l) data base).
    rewrite (gc_bind_ok _ _ _ _ _ (word_at_ok 8 data (base + o) g ltac:(lia) ltac:(lia))). unfold gc_bind. destruct (visit _ major g) as [[[]|e] g1]; [apply IH|done].
  - destruct (negb (re =? MaxUint32) && (re <=? base + o)) eqn:Eb; [|apply IH]. apply andb_true_iff in Eb as [_ Eb]. breflect.
    assert (List.filter (fun o => meets (base + o) 8 rs re) l = []) as ->; [|done].
    clear -Hle Eb. induction Hle as [|x l' Hx Hl IH]; [done|]. cbn. unfold meets at 1. rewrite (proj2 (Z.ltb_ge _ _)) by lia. exact IH.
Qed.

Lemma trace_dynamics_visits offsets data base stride rs re major g :
  StronglySorted Z.le offsets -> Forall (fun d => 0 <= d /\ d + 24 <= stride) offsets ->
  0 <= base -> 0 <= stride < 2 ^ 32 -> base + stride <= Z.of_nat (length data) -> Z.of_nat (length data) < 2 ^ 32 -> 0 <= rs < re -> re <= MaxUint32 ->
  trace_dynamics offsets data base stride rs re major g = visits (dyn_words (List.filter (fun d => meets (base + d + 4) 12 rs re) offsets) data base) major g.
Proof.
  intros Hs Hf Hb Hst Hd Hlen Hr Hre. unfold MaxUint32 in *. revert g. induction Hs as [|d l Hs IH Hle]; intros g; [done|]. apply Forall_cons in Hf as [Ho Hf].
  specialize (IH Hf). cbn [trace_dynamics List.filter]. rewrite !u32_id by lia. rewrite overlap_meets by lia. rewrite (proj2 (Z.leb_gt _ _)) by lia. cbn [orb].
  destruct (negb (re =? MaxUint32) && (re <=? base + d)) eqn:Eb.
  - apply andb_true_iff in Eb as [_ Eb]. breflect.
    assert (List.filter (fun d => meets (base + d + 4) 12 rs re) (d :: l) = []) as E; [|cbn [List.filter] in E; by rewrite E].
    assert (Forall (Z.le d) (d :: l)) as Hle' by (by constructor). clear -Hle' Eb. induction Hle' as [|x l' Hx Hl IH]; [done|]. cbn. unfold meets at 1. rewrite (proj2 (Z.ltb_ge _ _)) by lia. exact IH.
  - rewrite (proj2 (Z.ltb_ge _ _)) by lia. cbn [orb]. destruct (meets (base + d + 4) 12 rs re) eqn:Em; cbn [negb]; [|apply IH].
    rewrite (gc_bind_ok _ _ _ _ _ (word_at_ok 4 data (base + d + 4) g ltac:(lia) ltac:(lia))). cbn [dyn_words omap list_omap].
    fold (dyn_words (List.filter (fun d => meets (base + d + 4) 12 rs re) l) data base).
    destruct (holds_reference _) eqn:Eh; cbn [negb]; [|apply IH].
    rewrite (gc_bind_ok _ _ _ _ _ (word_at_ok 8 data (base + d + 8) g ltac:(lia) ltac:(lia))). cbn [visits]. unfold gc_bind. destruct (visit _ major g) as [[[]|e] g1]; [apply IH|done].
Qed.

Lemma trace_elements_visits n first l data offset rs re major g :
  layout_ok l -> 0 <= first -> 0 <= offset -> offset + (first + Z.of_nat n) * lstride l <= Z.of_nat (length data) -> Z.of_nat (length data) < 2 ^ 32 ->
  0 <= rs < re -> re <= MaxUint32 ->
  trace_elements n first l data offset rs re major g = visits (words_between l data offset first (first + Z.of_nat n) rs re) major g.
Proof.
  intros L. pose proof (lay_stride _ L) as Hst. revert first g. induction n as [|n IH]; intros first g Hf Ho Hd Hlen Hr Hre.
  { unfold words_between. rewrite Z.add_simpl_l. done. }
  assert (0 <= first * lstride l /\ offset + first * lstride l + lstride l <= Z.of_nat (length data)) as [Hb0 Hb1].
  { replace ((first + Z.of_nat (S n)) * lstride l) with (first * lstride l + Z.of_nat n * lstride l + lstride l) in Hd by lia.
    assert (0 <= Z.of_nat n * lstride l) by (apply Z.mul_nonneg_nonneg; lia). split; [apply Z.mul_nonneg_nonneg; lia|lia]. }
  cbn [trace_elements]. rewrite u32_id by lia. set (base := offset + first * lstride l).
  assert (words_between l data offset first (first + Z.of_nat (S n)) rs re =
    element_words l data rs re base ++ words_between l data offset (first + 1) (first + 1 + Z.of_nat n) rs re) as ->.
  { unfold words_between. rewrite seqZ_cons by lia. cbn [map concat]. f_equal. do 3 f_equal; lia. }
  rewrite visits_app. unfold element_words. unfold gc_bind at 3. rewrite visits_app. unfold gc_bind.
  rewrite (trace_references_visits _ data base), (search_filter _ _ (references l)).
  - destruct (visits _ major g) as [[[]|e] g1]; [|done]. rewrite (trace_dynamics_visits _ data base), (search_filter _ _ (dynamics l)).
    + destruct (visits _ major g1) as [[[]|e] g2]; [|done]. apply IH; try done; lia.
    + intros d Hd' Hlt. destruct (proj1 (Forall_forall _ _) (lay_dynamics _ L) d Hd') as [Hd0 _]. unfold meets. apply andb_false_iff. right. apply Z.ltb_ge. lia.
    + apply search_sorted, L.
    + apply drop_while_Forall, L.
    + lia.
    + lia.
    + lia.
    + done.
    + done.
    + done.
  - intros o Ho' Hlt. destruct (proj1 (Forall_forall _ _) (lay_references _ L) o Ho') as [Ho0 _]. unfold meets. apply andb_false_iff. right. apply Z.ltb_ge. lia.
  - apply search_sorted, L.
  - apply drop_while_Forall, L.
  - lia.
  - lia.
  - lia.
  - done.
  - done.
  - done.
Qed.

(** ** The object graph *)

(** All words of an object's references. *)
Definition object_words (l : managedLayout) (n : Z) (data : gostring) (offset : Z) : list Z := words_between l data offset 0 n 0 MaxUint32.

(** The references stored in an object. *)
Definition children (l : managedLayout) (n : Z) (data : gostring) (offset : Z) : list guestRef :=
  List.filter (fun ref => negb (is_null ref)) (map unpack (object_words l n data offset)).

(** The object of slot [s] stores [ref]. *)
Definition stores (a : allocator) (s : Z) (ref : guestRef) : Prop :=
  exists e l p, object (mem a) s = Some e /\ obj_state e = managedPublished /\ described a s e = Some (l, p) /\
    ref ∈ children l (count (meta (dir a) s)) (data p) (obj_offset e).

Definition points (a : allocator) (s t : Z) : Prop := exists ref, stores a s ref /\ slot ref = t.

(** Published objects have the shape of their layouts and store only references that resolve. *)
Record graph_ok (a : allocator) : Prop := {
  gr_shape : forall s e, object (mem a) s = Some e -> obj_state e = managedPublished ->
    exists l p, described a s e = Some (l, p) /\ layout_ok l /\ 0 <= count (meta (dir a) s) /\ 0 <= obj_offset e /\ Z.of_nat (length (data p)) < 2 ^ 32 /\
      count (meta (dir a) s) * lstride l <= obj_size e;
  gr_resolves : forall s ref, stores a s ref -> valid ref = true /\ exists e, resolveObject (mem a) ref = Ok e
}.

(** What the roots reach. *)
Definition reaches (a : allocator) (roots : list guestRef) (s : Z) : Prop :=
  exists root e, root ∈ roots /\ resolveObject (mem a) root = Ok e /\ rtc (points a) (slot root) s.

(** ** The marking invariant *)

Definition wanted (major : bool) (e : managedObject) : bool := major || obj_young e.

Definition replace_metas (m : gmap Z objectMeta) (a : allocator) : allocator :=
  set_dir (mkDirectory (freeSlots (dir a)) (occupied (dir a)) (youngSlots (dir a)) (nextSlot (dir a)) m) a.

(** [a] is [a0] with other marks. *)
Definition marks_only (a0 a : allocator) : Prop :=
  exists m, a = replace_metas m a0 /\ forall s, with_marked 0 (meta (dir a) s) = with_marked 0 (meta (dir a0) s).

Lemma marks_only_refl a : marks_only a a.
Proof. exists (metas (dir a)). split; [by destruct a as [? []]|done]. Qed.

Lemma marks_only_step a0 a s n : marks_only a0 a -> marks_only a0 (update_meta s (with_marked n) a).
Proof.
  intros (m & -> & H). exists (<[s := with_marked n (meta (dir (replace_metas m a0)) s)]> m). split; [done|]. intros i. cbn [update_meta set_dir dir].
  destruct (decide (i = s)) as [->|E]; [rewrite meta_set_eq; rewrite <- H; done|]. by rewrite meta_set_ne.
Qed.

Lemma marks_only_fields a0 a : marks_only a0 a ->
  mem a = mem a0 /\ pgs a = pgs a0 /\ led a = led a0 /\ conf a = conf a0 /\ caps a = caps a0 /\ layouts a = layouts a0 /\ layoutOwners a = layoutOwners a0 /\
  reservations a = reservations a0 /\ controls a = controls a0 /\ occupied (dir a) = occupied (dir a0) /\ youngSlots (dir a) = youngSlots (dir a0) /\
  freeSlots (dir a) = freeSlots (dir a0) /\ nextSlot (dir a) = nextSlot (dir a0).
Proof. intros (m & -> & _). done. Qed.

Lemma marks_only_meta a0 a s : marks_only a0 a ->
  layout (meta (dir a) s) = layout (meta (dir a0) s) /\ count (meta (dir a) s) = count (meta (dir a0) s) /\ logical (meta (dir a) s) = logical (meta (dir a0) s) /\
  occupiedIndex (meta (dir a) s) = occupiedIndex (meta (dir a0) s) /\ youngIndex (meta (dir a) s) = youngIndex (meta (dir a0) s) /\ age (meta (dir a) s) = age (meta (dir a0) s).
Proof. intros (m & _ & H). specialize (H s). unfold with_marked in H. injection H as H1 H2 H3 H4 H5 H6. done. Qed.

Record marking (a0 : allocator) (ep : Z) (major : bool) (g : collector) : Prop := {
  mk_epoch : epoch g = ep;
  mk_same : marks_only a0 (owner g);
  mk_nodup : NoDup (queue g);
  mk_marked : forall s e, object (mem a0) s = Some e -> obj_state e = managedPublished -> (marked (meta (dir (owner g)) s) = ep <-> s ∈ queue g);
  mk_wanted : forall s, s ∈ queue g -> exists e, object (mem a0) s = Some e /\ obj_state e = managedPublished /\ wanted major e = true;
  mk_bytes : reachableBytes (counts g) = controlBytes (led a0) + sum (map (fun s => logical (meta (dir a0) s)) (queue g))
}.

(** What marking relies on of the heap, at a fixed state. *)
Record markable (a0 : allocator) : Prop := {
  mb_dir : dir_ok (mem a0) (dir a0);
  mb_ledger : ledger_ok a0;
  mb_room : Z.of_nat (length (occupied (dir a0))) <= queue_capacity a0;
  mb_graph : graph_ok a0
}.

(** A slot that is not queued yet leaves room in the queue. *)
Lemma queue_room a0 ep major g s e :
  markable a0 -> marking a0 ep major g -> object (mem a0) s = Some e -> obj_state e = managedPublished -> s ∉ queue g ->
  (length (queue g) < length (occupied (dir a0)))%nat /\ (s :: queue g) ⊆+ occupied (dir a0).
Proof.
  intros B M He Hst Hn. assert ((s :: queue g) ⊆+ occupied (dir a0)) as Hsub.
  { apply NoDup_submseteq; [constructor; [done|apply M]|]. intros t [ ->|Ht]%elem_of_cons; [by eapply B|].
    destruct (mk_wanted _ _ _ _ M t Ht) as (f & Hf & Hfs & _). by eapply B. }
  split; [|done]. apply submseteq_length in Hsub. cbn in Hsub. lia.
Qed.

(** The bytes of queued objects are occupied ones, so their sum does not wrap. *)
Lemma queue_bytes a0 l : markable a0 -> l ⊆+ occupied (dir a0) -> 0 <= sum (map (fun s => logical (meta (dir a0) s)) l) /\
  controlBytes (led a0) + sum (map (fun s => logical (meta (dir a0) s)) l) <= MaxInt64.
Proof.
  intros B Hsub. pose proof (mb_ledger _ B) as L. set (f := fun s => logical (meta (dir a0) s)).
  assert (forall l, Forall (fun x => 0 <= x) (map f l)) as Hnn by (intros l'; apply Forall_map, Forall_forall; intros; apply L).
  split; [by apply sum_nonneg|]. pose proof (sum_submseteq (map f l) (map f (occupied (dir a0))) (fmap_submseteq _ _ _ Hsub) (Hnn _)) as Hle.
  pose proof (led_word _ L). pose proof (ledger_nonneg _ L). pose proof (led_occupied _ L) as Ho. fold f in Ho. lia.
Qed.

(** The effect of marking one reference. *)
Definition marked_by (refs : list guestRef) (g g' : collector) : Prop :=
  (exists new, queue g' = queue g ++ new) /\ forall s, s ∈ queue g' -> s ∈ queue g \/ exists ref, ref ∈ refs /\ slot ref = s.

Lemma markReference_spec a0 ep major g ref e :
  markable a0 -> marking a0 ep major g -> valid ref = true -> resolveObject (mem a0) ref = Ok e ->
  exists g', markReference ref major g = (Ok tt, g') /\ marking a0 ep major g' /\ marked_by [ref] g g' /\ (wanted major e = true -> slot ref ∈ queue g').
Proof.
  intros B M Hv Hr. pose proof Hr as (He & Hst & Hg)%resolve_ok. pose proof (mk_same _ _ _ _ M) as S. destruct (marks_only_fields _ _ S) as (Em & _ & _ & _ & Ecap & _).
  pose proof (marks_only_meta _ _ (slot ref) S) as (_ & _ & El & _). unfold markReference. rewrite Hv, Em, Hr. cbn [negb].
  assert (marked_by [ref] g g) as Hrefl by (split; [exists []; by rewrite app_nil_r|by left]).
  destruct (negb major && negb (obj_young e)) eqn:Ew.
  { exists g. repeat (split; [done|]). intros Hw. unfold wanted in Hw. destruct major, (obj_young e); done. }
  destruct (Z.eqb_spec (marked (meta (dir (owner g)) (slot ref))) (epoch g)) as [E|E].
  { exists g. repeat (split; [done|]). intros _. apply (mk_marked _ _ _ _ M _ _ He Hst). by rewrite <- (mk_epoch _ _ _ _ M). }
  rewrite (mk_epoch _ _ _ _ M) in E. assert (slot ref ∉ queue g) as Hn by (intros Hq; by apply E, (mk_marked _ _ _ _ M _ _ He Hst)).
  destruct (queue_room a0 ep major g (slot ref) e) as [Hlen Hsub]; [done..|]. pose proof (mb_room _ B) as Hroom.
  unfold gc_bind. cbn [gc_modify]. unfold enqueue. cbn [set_counts set_owner queue owner]. change (queue_capacity (update_meta (slot ref) _ (owner g))) with (queue_capacity (owner g)).
  assert (queue_capacity (owner g) = queue_capacity a0) as -> by (unfold queue_capacity; by rewrite Ecap).
  rewrite (proj2 (Z.eqb_neq _ _)) by lia. eexists. split; [done|]. split; [|split].
  - destruct M as [M1 M2 M3 M4 M5 M6]. split.
    + done.
    + cbn. by apply marks_only_step.
    + cbn. apply NoDup_app. split; [done|]. split; [|apply NoDup_singleton]. by intros x Hx ->%list_elem_of_singleton.
    + intros s f Hf Hfs. cbn. destruct (decide (s = slot ref)) as [->|Hne].
      * rewrite meta_set_eq. cbn. rewrite M1. split; [intros _; apply elem_of_app; right; by left|done].
      * rewrite meta_set_ne by done. rewrite (M4 s f Hf Hfs). rewrite elem_of_app, list_elem_of_singleton. split; [by left|by intros [?|?]].
    + intros s. cbn. intros [Hs| ->%list_elem_of_singleton]%elem_of_app; [by apply M5|]. exists e. split; [done|]. split; [done|].
      unfold wanted. destruct major, (obj_young e); done.
    + cbn. rewrite M6, map_app, sum_app, El. cbn [map sum foldr]. destruct (queue_bytes a0 (slot ref :: queue g) B Hsub) as [H1 H2].
      cbn [map sum foldr] in H1, H2. fold (sum (map (fun s => logical (meta (dir a0) s)) (queue g))) in H1, H2. pose proof (led_control _ (mb_ledger _ B)). unfold MaxInt64 in H2. rewrite u64_id by lia. unfold sum. lia.
  - split; [by eexists|]. intros s. cbn. intros [Hs| ->%list_elem_of_singleton]%elem_of_app; [by left|right]. exists ref. split; [by left|done].
  - intros _. cbn. apply elem_of_app. right. by left.
Qed.

Lemma marked_by_refl refs g : marked_by refs g g.
Proof. split; [exists []; by rewrite app_nil_r|by left]. Qed.

Lemma marked_by_trans r1 r2 g g1 g2 : marked_by r1 g g1 -> marked_by r2 g1 g2 -> marked_by (r1 ++ r2) g g2.
Proof.
  intros [[n1 E1] H1] [[n2 E2] H2]. split; [exists (n1 ++ n2); by rewrite E2, E1, app_assoc|]. intros s Hs.
  destruct (H2 s Hs) as [Hs1|(ref & Hr & E)]; [|right; exists ref; split; [apply elem_of_app; by right|done]].
  destruct (H1 s Hs1) as [Hs2|(ref & Hr & E)]; [by left|right]. exists ref. split; [apply elem_of_app; by left|done].
Qed.

Lemma marked_by_keeps refs g g' s : marked_by refs g g' -> s ∈ queue g -> s ∈ queue g'.
Proof. intros [[new E] _] Hs. rewrite E. apply elem_of_app. by left. Qed.

Lemma marking_counts a0 ep major g f : marking a0 ep major g -> (forall c, reachableBytes (f c) = reachableBytes c) -> marking a0 ep major (set_counts f g).
Proof. intros [] H. split; try done. cbn. by rewrite H. Qed.

(** References that can be marked, and that they were. *)
Definition resolving (a0 : allocator) (refs : list guestRef) : Prop := forall ref, ref ∈ refs -> valid ref = true /\ exists e, resolveObject (mem a0) ref = Ok e.

Definition covers (a0 : allocator) (major : bool) (refs : list guestRef) (g : collector) : Prop :=
  forall ref e, ref ∈ refs -> resolveObject (mem a0) ref = Ok e -> wanted major e = true -> slot ref ∈ queue g.

Definition nonnull (ws : list Z) : list guestRef := List.filter (fun ref => negb (is_null ref)) (map unpack ws).

Lemma visits_spec a0 ep major ws g :
  markable a0 -> marking a0 ep major g -> resolving a0 (nonnull ws) ->
  exists g', visits ws major g = (Ok tt, g') /\ marking a0 ep major g' /\ marked_by (nonnull ws) g g' /\ covers a0 major (nonnull ws) g'.
Proof.
  intros B. revert g. induction ws as [|w ws IH]; intros g M Hr.
  { exists g. split; [done|]. split; [done|]. split; [apply marked_by_refl|]. intros ref e []%not_elem_of_nil. }
  cbn [visits]. unfold visit. unfold nonnull in *. cbn [map List.filter] in *. destruct (is_null (unpack w)) eqn:En; cbn [negb] in *; [by apply IH|].
  destruct (Hr (unpack w)) as [Hv [e He]]; [by left|].
  assert (marking a0 ep major (set_counts count_reference g)) as M0 by by apply marking_counts.
  destruct (markReference_spec a0 ep major _ (unpack w) e B M0 Hv He) as (g1 & E1 & M1 & By1 & C1).
  destruct (IH g1 M1) as (g2 & E2 & M2 & By2 & C2); [intros ref Href; apply Hr; by right|].
  exists g2. split; [unfold gc_bind; cbn [gc_modify]; by rewrite E1|]. split; [done|]. split; [exact (marked_by_trans [unpack w] _ g g1 g2 By1 By2)|].
  intros ref f [->|Href]%elem_of_cons Hf Hw; [|by eapply C2]. assert (f = e) as -> by congruence. eapply marked_by_keeps; [exact By2|by apply C1].
Qed.

Lemma described_marks a0 a s e : marks_only a0 a -> described a s e = described a0 s e.
Proof.
  intros S. destruct (marks_only_fields _ _ S) as (Em & _ & _ & _ & _ & El & _). destruct (marks_only_meta _ _ s S) as (E1 & E2 & _).
  unfold described. by rewrite Em, El, E1, E2.
Qed.

Lemma described_bound a s e l p : described a s e = Some (l, p) -> obj_offset e + count (meta (dir a) s) * lstride l <= Z.of_nat (length (data p)).
Proof.
  unfold described. destruct (layout _ =? 0); [done|]. destruct (nth_of (layouts a) _) as [l'|]; [|done]. cbn [mbind option_bind]. destruct (lstride l' =? 0); [done|].
  destruct (nth_of (pages (mem a)) _) as [p'|]; [|done]. cbn [mbind option_bind]. destruct (Z.ltb_spec (Z.of_nat (length (data p'))) (obj_offset e + count (meta (dir a) s) * lstride l')); [done|].
  intros E. injection E as -> ->. lia.
Qed.

(** Tracing a whole object marks what it stores. *)
Lemma traceObject_spec a0 ep major g s e :
  markable a0 -> marking a0 ep major g -> object (mem a0) s = Some e -> obj_state e = managedPublished ->
  exists g' refs, traceObject s e major 0 MaxUint32 g = (Ok tt, g') /\ marking a0 ep major g' /\ marked_by refs g g' /\ covers a0 major refs g' /\
    forall ref, ref ∈ refs <-> stores a0 s ref.
Proof.
  intros B M He Hst. pose proof (mk_same _ _ _ _ M) as S. destruct (marks_only_meta _ _ s S) as (_ & Ec & _).
  destruct (gr_shape _ (mb_graph _ B) s e He Hst) as (l & p & Hd & Hl & Hc & Ho & Hlen & _). pose proof (described_bound _ _ _ _ _ Hd) as Hb.
  set (n := count (meta (dir a0) s)) in *. set (ws := object_words l n (data p) (obj_offset e)).
  assert (forall ref, ref ∈ nonnull ws <-> stores a0 s ref) as Hst'.
  { intros ref. split.
    - intros Href. exists e, l, p. done.
    - intros (e' & l' & p' & He' & _ & Hd' & Href). assert (e' = e) as -> by congruence. rewrite Hd in Hd'. injection Hd' as <- <-. done. }
  destruct (visits_spec a0 ep major ws g B M) as (g' & E & M' & By & C).
  { intros ref Href. apply (gr_resolves _ (mb_graph _ B) s), Hst', Href. }
  exists g', (nonnull ws). split; [|done]. unfold traceObject. rewrite (described_marks a0), Hd by done. rewrite Ec. fold n. unfold managedElementRange. rewrite Z.eqb_refl.
  rewrite <- E. unfold ws, object_words. rewrite trace_elements_visits; [|done|lia|done| |done|unfold MaxUint32; lia|lia].
  - do 2 f_equal. lia.
  - rewrite Z.sub_0_r, Z2Nat.id by done. done.
Qed.

Lemma drain_spec a0 ep major (Q : Z -> Prop) fuel cursor g :
  markable a0 -> (forall s t e, Q s -> points a0 s t -> object (mem a0) t = Some e -> wanted major e = true -> Q t) ->
  marking a0 ep major g -> (forall s, s ∈ queue g -> Q s) ->
  (forall i s ref e, (i < cursor)%nat -> queue g !! i = Some s -> stores a0 s ref -> resolveObject (mem a0) ref = Ok e -> wanted major e = true -> slot ref ∈ queue g) ->
  (length (occupied (dir a0)) < fuel + cursor)%nat ->
  exists g', drain_loop fuel cursor major g = (Ok tt, g') /\ marking a0 ep major g' /\ (forall s, s ∈ queue g -> s ∈ queue g') /\ (forall s, s ∈ queue g' -> Q s) /\
    forall s ref e, s ∈ queue g' -> stores a0 s ref -> resolveObject (mem a0) ref = Ok e -> wanted major e = true -> slot ref ∈ queue g'.
Proof.
  intros B HQ. revert cursor g. induction fuel as [|fuel IH]; intros cursor g M Hq Hdone Hfuel; cbn [drain_loop].
  all: destruct (queue g !! cursor) as [s|] eqn:Hs.
  - exfalso. apply lookup_lt_Some in Hs. assert (queue g ⊆+ occupied (dir a0)) as Hsub%submseteq_length; [|lia].
    apply NoDup_submseteq; [apply M|]. intros t Ht. destruct (mk_wanted _ _ _ _ M t Ht) as (f & Hf & Hfs & _). by eapply B.
  - exists g. repeat (split; [done|]). intros s ref e [i Hi]%list_elem_of_lookup. eapply Hdone; [|exact Hi]. apply lookup_lt_Some in Hi. apply lookup_ge_None in Hs. lia.
  - pose proof (mk_same _ _ _ _ M) as Sm. destruct (marks_only_fields _ _ Sm) as (Em & _). assert (s ∈ queue g) as Hin by by eapply list_elem_of_lookup_2.
    destruct (mk_wanted _ _ _ _ M s Hin) as (e & He & Hst & Hw). rewrite Em, He, bool_decide_true by done. rewrite (proj2 (mk_marked _ _ _ _ M s e He Hst) Hin), (mk_epoch _ _ _ _ M), Z.eqb_refl.
    cbn [negb orb]. fold (wanted major e). rewrite Hw. destruct (traceObject_spec a0 ep major g s e B M He Hst) as (g1 & refs & E1 & M1 & By & C & Hrefs).
    rewrite (gc_bind_ok _ _ _ _ _ E1). pose proof By as [[new En] Hnew]. destruct (IH (S cursor) g1 M1) as (g' & E' & M' & Hk' & Hq' & Hc'); [| |lia|].
    + intros t Ht. destruct (Hnew t Ht) as [Hold|(ref & Href & <-)]; [by apply Hq|]. destruct (mk_wanted _ _ _ _ M1 _ Ht) as (f & Hf & _ & Hfw).
      eapply (HQ s _ f); [by apply Hq| |done|done]. exists ref. split; [by apply Hrefs|done].
    + intros i t ref f Hi Hit Hst' Hr Hwf. assert (queue g !! i = Some t) as Hit'.
      { rewrite En in Hit. rewrite lookup_app_l in Hit; [done|]. apply lookup_lt_Some in Hs. lia. }
      destruct (decide (i = cursor)) as [->|Hne].
      * assert (t = s) as -> by congruence. eapply C; [by apply Hrefs|done|done].
      * eapply marked_by_keeps; [exact By|]. eapply (Hdone i t); [lia|done|done|done|done].
    + exists g'. split; [done|]. split; [done|]. split; [|done]. intros t Ht. apply Hk'. by eapply marked_by_keeps.
  - exists g. repeat (split; [done|]). intros s ref e [i Hi]%list_elem_of_lookup. eapply Hdone; [|exact Hi]. apply lookup_lt_Some in Hi. apply lookup_ge_None in Hs. lia.
Qed.

(** ** The marking phase *)

(** Roots are nil or resolve. *)
Definition roots_ok (a0 : allocator) (roots : list guestRef) : Prop :=
  forall root, root ∈ roots -> is_null root = true \/ valid root = true /\ exists e, resolveObject (mem a0) root = Ok e.

Lemma valid_null ref : valid ref = true -> is_null ref = false.
Proof. unfold valid, is_null. destruct (slot ref =? 0), (generation ref =? 0); done. Qed.

Lemma null_valid ref : is_null ref = true -> valid ref = false.
Proof. unfold valid, is_null. destruct (slot ref =? 0), (generation ref =? 0); done. Qed.

Definition live_roots (roots : list guestRef) : list guestRef := List.filter (fun ref => negb (is_null ref)) roots.

Lemma mark_roots_spec a0 ep major roots g :
  markable a0 -> marking a0 ep major g -> roots_ok a0 roots ->
  exists g', mark_roots roots major g = (Ok tt, g') /\ marking a0 ep major g' /\ marked_by (live_roots roots) g g' /\ covers a0 major (live_roots roots) g'.
Proof.
  intros B. revert g. induction roots as [|root roots IH]; intros g M Hr.
  { exists g. split; [done|]. split; [done|]. split; [apply marked_by_refl|]. intros ref e []%not_elem_of_nil. }
  cbn [mark_roots]. unfold live_roots in *. cbn [List.filter]. assert (roots_ok a0 roots) as Hr' by (intros r Hin; apply Hr; by right).
  destruct (Hr root) as [Hn|[Hv [e He]]]; [by left| |].
  - rewrite (null_valid _ Hn), Hn. cbn [negb gc_guard]. unfold gc_bind. cbn [gc_return]. by apply IH.
  - rewrite Hv, (valid_null _ Hv). cbn [negb].
    assert (marking a0 ep major (set_counts count_root g)) as M0 by by apply marking_counts.
    destruct (markReference_spec a0 ep major _ root e B M0 Hv He) as (g1 & E1 & M1 & By1 & C1).
    destruct (IH g1 M1 Hr') as (g2 & E2 & M2 & By2 & C2).
    exists g2. split; [unfold gc_bind; cbn [gc_modify]; by rewrite E1|]. split; [done|]. split; [exact (marked_by_trans [root] _ g g1 g2 By1 By2)|].
    intros ref f [->|Href]%elem_of_cons Hf Hw; [|by eapply C2]. assert (f = e) as -> by congruence. eapply marked_by_keeps; [exact By2|by apply C1].
Qed.

(** The marks of earlier collections. *)
Definition marks_old (g : collector) : Prop :=
  0 <= epoch g < 2 ^ 64 /\
  forall s e, object (mem (owner g)) s = Some e -> obj_state e = managedPublished -> 0 <= marked (meta (dir (owner g)) s) <= epoch g.

Lemma reset_marks slots a0 a :
  marks_only a0 a -> (forall s, s ∈ slots -> is_Some (object (mem a0) s)) ->
  let b := foldl (fun a s => match object (mem a) s with Some _ => update_meta s (with_marked 0) a | None => a end) a slots in
  marks_only a0 b /\ (forall s, s ∈ slots -> marked (meta (dir b) s) = 0) /\ (forall s, s ∉ slots -> marked (meta (dir b) s) = marked (meta (dir a) s)).
Proof.
  revert a. induction slots as [|t slots IH]; intros a S Hs; [split; [done|split; [intros s []%not_elem_of_nil|done]]|].
  cbn [foldl]. destruct (marks_only_fields _ _ S) as (Em & _). destruct (Hs t) as [e He]; [by left|]. rewrite Em, He.
  destruct (IH (update_meta t (with_marked 0) a)) as (S' & H1 & H2); [by apply marks_only_step|intros s Hin; apply Hs; by right|].
  split; [done|]. split.
  - intros s Hin. destruct (decide (s ∈ slots)) as [?|Hn]; [by apply H1|]. apply elem_of_cons in Hin as [->|?]; [|done]. rewrite H2 by done. cbn. by rewrite meta_set_eq.
  - intros s [Hne Hn]%not_elem_of_cons. rewrite H2 by done. cbn. by rewrite meta_set_ne.
Qed.

Lemma nextCollectionEpoch_spec g :
  dir_ok (mem (owner g)) (dir (owner g)) -> marks_old g ->
  let g1 := nextCollectionEpoch g in
  marks_only (owner g) (owner g1) /\ 0 < epoch g1 < 2 ^ 64 /\
  (forall s e, object (mem (owner g)) s = Some e -> obj_state e = managedPublished -> marked (meta (dir (owner g1)) s) <> epoch g1) /\
  (epoch g < 2 ^ 64 - 1 -> epoch g1 = epoch g + 1 /\ owner g1 = owner g).
Proof.
  intros D [He Hm]. unfold nextCollectionEpoch. destruct (decide (epoch g = 2 ^ 64 - 1)) as [E|E].
  - assert (u64 (epoch g + 1) = 0) as -> by (by rewrite E). cbn [Z.eqb negb owner epoch].
    destruct (reset_marks (occupied (dir (owner g))) (owner g) (owner g) (marks_only_refl _)) as (S & H1 & _).
    { intros s [i Hi]%list_elem_of_lookup. destruct (dir_occupied _ _ D i s Hi) as (_ & e & Hoe & _). by eexists. }
    split; [done|]. split; [lia|]. split; [|lia]. intros s e Hs Hst. rewrite H1; [done|]. by eapply D.
  - rewrite u64_id by lia. rewrite (proj2 (Z.eqb_neq _ _)) by lia. cbn [negb owner epoch]. split; [apply marks_only_refl|]. split; [lia|].
    split; [|done]. intros s e Hs Hst. specialize (Hm s e Hs Hst). lia.
Qed.

(** The state in which marking starts. *)
Definition start_marking (g : collector) : collector :=
  let g := nextCollectionEpoch g in
  set_queue [] (set_counts (fun _ => mkCollection (controlBytes (led (owner g))) 0 0 0 0 0 0) g).

Lemma marking_start g major : dir_ok (mem (owner g)) (dir (owner g)) -> marks_old g ->
  marking (owner g) (epoch (nextCollectionEpoch g)) major (start_marking g).
Proof.
  intros D Hm. destruct (nextCollectionEpoch_spec g D Hm) as (S & _ & Hne & _). destruct (marks_only_fields _ _ S) as (_ & _ & El & _). unfold start_marking. split; cbn.
  - done.
  - exact S.
  - apply NoDup_nil_2.
  - intros s e Hs Hst. split; [|by intros []%not_elem_of_nil]. intros H. by destruct (Hne s e Hs Hst).
  - intros s []%not_elem_of_nil.
  - rewrite El. lia.
Qed.

(** Everything the roots reach through objects that are wanted. *)
Inductive reaches_wanted (a0 : allocator) (major : bool) (from : Z -> Prop) : Z -> Prop :=
| rw_root s : from s -> reaches_wanted a0 major from s
| rw_edge s t e : reaches_wanted a0 major from s -> points a0 s t -> object (mem a0) t = Some e -> wanted major e = true -> reaches_wanted a0 major from t.

(** Draining from a queue of marked objects marks exactly what they reach. *)
Lemma drainQueue_spec a0 ep major g :
  markable a0 -> marking a0 ep major g ->
  exists g', drainQueue major g = (Ok tt, g') /\ marking a0 ep major g' /\
    forall s, s ∈ queue g' <-> reaches_wanted a0 major (fun t => t ∈ queue g) s.
Proof.
  intros B M. destruct (marks_only_fields _ _ (mk_same _ _ _ _ M)) as (_ & _ & _ & _ & _ & _ & _ & _ & _ & Eo & _).
  destruct (drain_spec a0 ep major (reaches_wanted a0 major (fun t => t ∈ queue g)) (drain_fuel g) 0 g B) as (g' & E & M' & Hk & Hq & Hc).
  - intros s t e Hs Hp He Hw. by eapply rw_edge.
  - done.
  - intros s Hs. by apply rw_root.
  - intros i s ref e Hi. lia.
  - unfold drain_fuel. rewrite Eo. lia.
  - exists g'. split; [done|]. split; [done|]. intros s. split; [apply Hq|].
    induction 1 as [s Hs|s t e Hs IH (ref & Hst & <-) He Hw]; [by apply Hk|].
    destruct (gr_resolves _ (mb_graph _ B) s ref Hst) as [_ [f Hf]]. pose proof Hf as (Hf' & _)%resolve_ok. assert (f = e) as -> by congruence. by eapply Hc.
Qed.

(** A major marking phase marks exactly the objects that the roots reach. *)
Lemma major_marking_spec g roots :
  markable (owner g) -> marks_old g -> roots_ok (owner g) roots ->
  exists g', (let& _ := mark_roots roots true in drainQueue true) (start_marking g) = (Ok tt, g') /\
    marking (owner g) (epoch (nextCollectionEpoch g)) true g' /\ forall s, s ∈ queue g' <-> reaches (owner g) roots s.
Proof.
  intros B Hm Hr. pose proof (marking_start g true (mb_dir _ B) Hm) as M0.
  destruct (mark_roots_spec _ _ _ roots _ B M0 Hr) as (g1 & E1 & M1 & By & C). destruct (drainQueue_spec _ _ _ _ B M1) as (g2 & E2 & M2 & H2).
  exists g2. split; [by rewrite (gc_bind_ok _ _ _ _ _ E1)|]. split; [done|]. intros s. rewrite H2. split.
  - induction 1 as [s Hs|s t e Hs IH Hp He Hw].
    + destruct By as [_ By]. destruct (By s Hs) as [[]%not_elem_of_nil|(root & Hroot & <-)]. unfold live_roots in Hroot.
      apply list_elem_of_In, filter_In in Hroot as [Hin Hnn]. apply list_elem_of_In in Hin. destruct (Hr root Hin) as [Hn|[Hv [e He]]]; [by rewrite Hn in Hnn|].
      exists root, e. split; [done|]. split; [done|]. apply rtc_refl.
    + destruct IH as (root & f & Hin & Hf & Hrtc). exists root, f. split; [done|]. split; [done|]. by eapply rtc_r.
  - intros (root & e & Hin & He & Hrtc). assert (reaches_wanted (owner g) true (fun t => t ∈ queue g1) (slot root)) as H0.
    { apply rw_root. destruct (Hr root Hin) as [Hn|[Hv _]].
      - exfalso. pose proof He as (Hobj & _)%resolve_ok. apply object_pos in Hobj. unfold is_null in Hn. apply andb_true_iff in Hn as [Hz _]. breflect. lia.
      - eapply C; [|exact He|done]. unfold live_roots. apply list_elem_of_In, filter_In. split; [by apply list_elem_of_In|by rewrite (valid_null _ Hv)]. }
    revert H0. induction Hrtc as [s|s t u Hp Hrtc IH]; intros H0; [done|]. apply IH. destruct Hp as (ref & Hst & <-).
    destruct (gr_resolves _ (mb_graph _ B) s ref Hst) as [_ [f Hf]]. pose proof Hf as (Hf' & _)%resolve_ok.
    eapply rw_edge; [exact H0|by exists ref|exact Hf'|done].
Qed.
