(* ===== verification/CollectorPages.v ===== *)
(** * What the collector relies on of pages (src/runtime/managed_gc.go)

    Nursery pages have empty partners; the cells of old pages are counted and their free cells are empty; the
    lists of pages with free cells name such pages.  Freeing objects and giving empty pages back keep this. *)

From S2P Require Import Prelude GoStd GoBytes Heap Allocator AllocatorSafe AllocatorRun Collector.

#[local] Arguments Z.to_nat : simpl never.

(** The cells of an old page that hold an object. *)
Definition full_cells (x : pageMeta) : Z := Z.of_nat (length (List.filter (fun s => negb (s =? 0)) (entries x))).

(** An old page of cells of [2 ^ k] bytes. *)
Record cells_ok (p : managedPage) (x : pageMeta) (k : Z) : Prop := {
  ce_class : 3 <= k <= 16 /\ pclass x = 2 ^ k;
  ce_data : Z.of_nat (length (data p)) = managedPageBytes /\ managedPageBytes <= managedCardBytes * Z.of_nat (length (cards p));
  ce_entries : Z.of_nat (length (entries x)) * 2 ^ k = managedPageBytes;
  ce_free : forall i, i ∈ pfree x -> 0 <= i /\ entries x !! Z.to_nat i = Some 0;
  ce_nodup : NoDup (pfree x);
  ce_used : used x = 2 ^ k * full_cells x
}.

(** The partner of a nursery page: a spare page of the same size. *)
Record partner_ok (h : managedHeap) (g : paging) (q : Z) : Prop := {
  pa_nonneg : 0 <= q;
  pa_page : exists p y, pages h !! Z.to_nat q = Some p /\ pmetas g !! Z.to_nat q = Some y /\ Z.of_nat (length (data p)) = managedPageBytes /\ kind y = managedSparePage
}.

Record gc_pages (h : managedHeap) (g : paging) : Prop := {
  gp_nodup : NoDup (nurseryPages g);
  gp_young : forall s e, lives h s e -> obj_young e = true -> obj_page e ∈ nurseryPages g;
  gp_partner : forall id x, id ∈ nurseryPages g -> pmetas g !! Z.to_nat id = Some x -> partner_ok h g (partner x);
  gp_inj : forall id id' x x', id ∈ nurseryPages g -> id' ∈ nurseryPages g -> pmetas g !! Z.to_nat id = Some x -> pmetas g !! Z.to_nat id' = Some x' ->
    partner x = partner x' -> id = id';
  gp_size : forall s e, lives h s e -> obj_size e mod 8 = 0 /\ 8 <= obj_size e;
  gp_old : forall s e x, lives h s e -> obj_young e = false -> pmetas g !! Z.to_nat (obj_page e) = Some x ->
    (kind x = managedLargePage -> 0 < used x) /\ (kind x = managedOldPage -> obj_offset e mod pclass x = 0);
  gp_cells : forall id p x, pages h !! id = Some p -> pmetas g !! id = Some x -> kind x = managedOldPage -> exists k, cells_ok p x k;
  gp_available : forall i l id, oldAvailable g !! i = Some l -> id ∈ l ->
    0 <= id /\ exists x, pmetas g !! Z.to_nat id = Some x /\ kind x = managedOldPage /\ pclass x = 2 ^ (Z.of_nat i + 3);
  gp_free : forall id, id ∈ freePages g -> exists x, pmetas g !! Z.to_nat id = Some x /\ kind x = NoPage;
  gp_resident : forall id x, pmetas g !! id = Some x -> 0 <= resident x
}.

(** ** Cells *)

Lemma length_filter_insert (l : list Z) i s t : l !! i = Some s ->
  Z.of_nat (length (List.filter (fun s => negb (s =? 0)) (<[i := t]> l))) =
  Z.of_nat (length (List.filter (fun s => negb (s =? 0)) l)) - (if s =? 0 then 0 else 1) + (if t =? 0 then 0 else 1).
Proof.
  revert i. induction l as [|x l IH]; intros [|i] Hi; try done; cbn in Hi.
  - injection Hi as ->. cbn. destruct (s =? 0), (t =? 0); cbn; lia.
  - specialize (IH _ Hi). change (<[S i:=t]> (x :: l)) with (x :: <[i:=t]> l). cbn [List.filter]. destruct (x =? 0); cbn [negb length]; rewrite ?Nat2Z.inj_succ, IH; lia.
Qed.

Lemma full_cells_bounds x : 0 <= full_cells x <= Z.of_nat (length (entries x)).
Proof. unfold full_cells. split; [lia|]. apply Nat2Z.inj_le. apply filter_length_le. Qed.

Lemma full_cells_pos x i s : entries x !! i = Some s -> s <> 0 -> 0 < full_cells x.
Proof.
  intros Hi Hs. unfold full_cells. assert (s ∈ List.filter (fun s => negb (s =? 0)) (entries x)) as Hin.
  { apply list_elem_of_In, filter_In. split; [apply list_elem_of_In; by eapply list_elem_of_lookup_2|]. apply negb_true_iff, Z.eqb_neq. done. }
  destruct (List.filter _ _); [by apply not_elem_of_nil in Hin|]. cbn. lia.
Qed.

Lemma pow_class k : 3 <= k -> 0 < 2 ^ k.
Proof. intros. apply Z.pow_pos_nonneg; lia. Qed.

(** A live object that is not young is on a page that is used. *)
Lemma old_used h g s e x : pages_ok h g -> gc_pages h g -> lives h s e -> obj_young e = false -> pmetas g !! Z.to_nat (obj_page e) = Some x -> 0 < used x.
Proof.
  intros G C Hs Ey Hx. destruct (pg_placed _ _ G s e Hs) as [_ (p & x' & Hp & Hx' & _ & _ & Hin)]. assert (x' = x) as -> by congruence.
  unfold in_place in Hin. rewrite Ey in Hin. destruct Hin as [(Hk & _)|(Hk & k & Hkr & Hc & Hsz & He)]; [by apply (gp_old _ _ C s e x)|].
  destruct (gp_cells _ _ C _ _ _ Hp Hx Hk) as [k' Hce]. rewrite (ce_used _ _ _ Hce). pose proof (full_cells_pos x _ s He) as Hpos.
  destruct (ce_class _ _ _ Hce) as [Hk' _]. apply Z.mul_pos_pos; [apply pow_class; lia|]. apply Hpos. destruct Hs as [Hs _]. apply object_pos in Hs. lia.
Qed.

Lemma pow_inj k j : 0 <= k -> 0 <= j -> 2 ^ k = 2 ^ j -> k = j.
Proof. intros. apply (Z.pow_inj_r 2); lia. Qed.

(** ** Freeing *)

Lemma gc_pages_metas h g h' id x x' :
  pages h' = pages h -> pmetas g !! Z.to_nat id = Some x -> 0 <= id -> kind x' = kind x -> partner x' = partner x -> pclass x' = pclass x -> resident x' = resident x ->
  gc_pages h g -> pages_ok h g -> (forall s e, lives h' s e -> lives h s e) ->
  (kind x = managedLargePage -> 0 < used x' \/ forall s e, lives h' s e -> obj_page e <> id) ->
  (forall p k, pages h !! Z.to_nat id = Some p -> kind x = managedOldPage -> cells_ok p x k -> cells_ok p x' k) ->
  forall av, (forall i l, av !! i = Some l -> exists l0, oldAvailable g !! i = Some l0 /\ forall j, j ∈ l -> j ∈ l0 \/ j = id /\ kind x = managedOldPage /\ pclass x = 2 ^ (Z.of_nat i + 3)) ->
  gc_pages h' (mkPaging (<[Z.to_nat id := x']> (pmetas g)) (freePages g) (nurseryPages g) av (nurseryCapacity g)).
Proof.
  intros Ep Hx Hid Ek Epa Ec Er C G Hl Hlarge Hcells av Hav.
  assert (forall j y, <[Z.to_nat id := x']> (pmetas g) !! j = Some y -> exists y0, pmetas g !! j = Some y0 /\ kind y = kind y0 /\ partner y = partner y0 /\ pclass y = pclass y0 /\
    (y = y0 \/ j = Z.to_nat id /\ y = x' /\ y0 = x)) as Hm.
  { intros j y Hy. destruct (decide (j = Z.to_nat id)) as [->|Hne].
    - rewrite list_lookup_insert_eq in Hy by by eapply lookup_lt_Some. injection Hy as <-. exists x. repeat (split; [done|]). by right.
    - rewrite list_lookup_insert_ne in Hy by done. exists y. repeat (split; [done|]). by left. }
  assert (forall j y, pmetas g !! j = Some y -> exists y1, <[Z.to_nat id := x']> (pmetas g) !! j = Some y1 /\ kind y1 = kind y /\ partner y1 = partner y /\ pclass y1 = pclass y) as Hm'.
  { intros j y Hy. destruct (decide (j = Z.to_nat id)) as [->|Hne].
    - exists x'. rewrite list_lookup_insert_eq by by eapply lookup_lt_Some. assert (y = x) as -> by congruence. done.
    - exists y. by rewrite list_lookup_insert_ne. }
  split; cbn [nurseryPages pmetas freePages oldAvailable].
  - apply C.
  - intros s e Hs. apply (gp_young _ _ C s). by apply Hl.
  - intros j y Hj Hy. destruct (Hm _ _ Hy) as (y0 & Hy0 & _ & Epar & _). rewrite Epar. destruct (gp_partner _ _ C j y0 Hj Hy0) as [H1 (p & z & Hp & Hz & Hd & Hk)].
    split; [done|]. destruct (Hm' _ _ Hz) as (z1 & Hz1 & Ekz & _). exists p, z1. rewrite Ep, Ekz. done.
  - intros j j' y y' Hj Hj' Hy Hy'. destruct (Hm _ _ Hy) as (y0 & Hy0 & _ & -> & _), (Hm _ _ Hy') as (y0' & Hy0' & _ & -> & _). by apply C.
  - intros s e Hs. apply (gp_size _ _ C s). by apply Hl.
  - intros s e y Hs Ey Hy. destruct (Hm _ _ Hy) as (y0 & Hy0 & Eky & _ & Ecy & Hor). destruct (gp_old _ _ C s e y0) as [H1 H2]; [by apply Hl|done|done|].
    rewrite Eky, Ecy. split; [|done]. intros Hk. destruct Hor as [->|(Ej & -> & ->)]; [by apply H1|].
    destruct (Hlarge Hk) as [?|Hno]; [done|]. exfalso. apply (Hno s e Hs). apply lookup_lt_Some in Hx.
    destruct (pg_placed _ _ G s e) as [(Hpe & _) _]; [by apply Hl|]. lia.
  - intros j p y Hp Hy Hk. rewrite Ep in Hp. destruct (Hm _ _ Hy) as (y0 & Hy0 & Eky & _ & _ & Hor). rewrite Eky in Hk.
    destruct (gp_cells _ _ C j p y0 Hp Hy0 Hk) as [k Hce]. exists k. destruct Hor as [->|(-> & -> & ->)]; [done|]. by apply Hcells.
  - intros i l j Hi Hj. destruct (Hav i l Hi) as (l0 & Hl0 & Hin). destruct (Hin j Hj) as [Hj0|(-> & Hk & Hcl)].
    + destruct (gp_available _ _ C i l0 j Hl0 Hj0) as (H0 & y & Hy & Hky & Hcy). split; [done|]. destruct (Hm' _ _ Hy) as (y1 & Hy1 & E1 & _ & E2). exists y1. rewrite E1, E2. done.
    + split; [done|]. exists x'. rewrite list_lookup_insert_eq by by eapply lookup_lt_Some. rewrite Ek, Ec. done.
  - intros j Hj. destruct (gp_free _ _ C j Hj) as (y & Hy & Hk). destruct (Hm' _ _ Hy) as (y1 & Hy1 & E1 & _). exists y1. rewrite E1. done.
  - intros j y Hy. destruct (Hm _ _ Hy) as (y0 & Hy0 & _ & _ & _ & [->|(_ & -> & ->)]); [|rewrite Er]; by eapply gp_resident.
Qed.

Lemma gc_pages_subset h h' g : gc_pages h g -> pages h' = pages h -> (forall i f, lives h' i f -> lives h i f) -> gc_pages h' g.
Proof.
  intros C Ep Hl. split.
  - apply C.
  - intros s e Hs. apply (gp_young _ _ C s). by apply Hl.
  - intros id x Hid Hx. destruct (gp_partner _ _ C id x Hid Hx) as [H1 (p & y & H2)]. split; [done|]. exists p, y. by rewrite Ep.
  - apply C.
  - intros s e Hs. apply (gp_size _ _ C s). by apply Hl.
  - intros s e x Hs. apply (gp_old _ _ C s). by apply Hl.
  - rewrite Ep. apply C.
  - apply C.
  - apply C.
  - apply C.
Qed.

(** An old page after the object of cell [idx] left it. *)
Lemma cells_freed p x k s idx :
  cells_ok p x k -> 0 <= idx -> entries x !! Z.to_nat idx = Some s -> s <> 0 ->
  cells_ok p (mkPageMeta (<[Z.to_nat idx := 0]> (entries x)) (idx :: pfree x) (u32 (used x - 2 ^ k)) (pclass x) (partner x) (cardCapacity x) (kind x) (resident x) (leased x)) k.
Proof.
  intros C Hidx Hs Hs0. pose proof (full_cells_bounds x) as Hb. pose proof (full_cells_pos x _ _ Hs Hs0) as Hp. pose proof (ce_entries _ _ _ C) as He. destruct (ce_class _ _ _ C) as [Hk Hc].
  assert (forall i, i ∈ pfree x -> i <> idx) as Hne.
  { intros i Hi ->. destruct (ce_free _ _ _ C _ Hi) as [_ H0]. congruence. }
  pose proof (pow_class k ltac:(lia)) as Hpk. split; cbn.
  - done.
  - apply C.
  - rewrite length_insert. done.
  - intros i [->|Hi]%elem_of_cons; [split; [done|]; apply list_lookup_insert_eq; by eapply lookup_lt_Some|].
    destruct (ce_free _ _ _ C i Hi) as [H0 Hi0]. split; [done|]. rewrite list_lookup_insert_ne; [done|]. intros E. apply (Hne i Hi). lia.
  - constructor; [|apply C]. intros Hi. by apply (Hne idx Hi).
  - unfold full_cells at 1. cbn [entries]. rewrite (length_filter_insert _ _ s) by done. rewrite (proj2 (Z.eqb_neq s 0)), Z.eqb_refl by done. fold (full_cells x).
    rewrite (ce_used _ _ _ C). unfold managedPageBytes in He. rewrite u32_id; [lia|]. nia.
Qed.

Lemma vacate_gc a s e a1 h' :
  pages_ok (mem a) (pgs a) -> gc_pages (mem a) (pgs a) -> lives (mem a) s e -> vacate_page e a = (Ok tt, a1) ->
  pages h' = pages (mem a) -> (forall i f, lives h' i f -> i <> s /\ lives (mem a) i f) -> gc_pages h' (pgs a1).
Proof.
  intros G C Hs E Ep Hl. pose proof (pg_placed _ _ G s e Hs) as [(Hn & Ho & _) (p & x & Hp & Hx & _ & _ & Hin)].
  assert (s <> 0) as Hs0 by (destruct Hs as [Hs _]; apply object_pos in Hs; lia). unfold vacate_page, page_meta in E.
  rewrite (proj2 (nth_of_nat _ _ x)) in E by done. unfold in_place in Hin. destruct (obj_young e) eqn:Ey.
  { injection E as <-. eapply gc_pages_subset; [exact C|done|]. intros i f Hf. by apply Hl. }
  destruct Hin as [(Hk & H0 & He)|(Hk & k & Hkr & Hc & Hsz & He)].
  - rewrite bool_decide_false in E by by rewrite Hk. unfold alloc_bind, must in E. rewrite He in E. cbn [alloc_return] in E. unfold modify in E. injection E as <-.
    cbn [set_pgs pgs]. eapply (gc_pages_metas (mem a) (pgs a) h' (obj_page e) x); try done.
    + intros i f Hf. by apply Hl.
    + intros _. right. intros i f Hf Epg. destruct (Hl i f Hf) as [Hne Hf']. destruct (pg_placed _ _ G i f Hf') as [_ (p' & x' & _ & Hx' & _ & _ & Hin)].
      rewrite Epg in Hx'. assert (x' = x) as -> by congruence. unfold in_place in Hin. rewrite Hk in Hin. destruct (obj_young f); [by destruct Hin|].
      destruct Hin as [(_ & _ & ?)|(? & _)]; congruence.
    + intros q j _ Hk'. congruence.
    + intros i l Hi. exists l. split; [done|]. by left.
  - rewrite bool_decide_true, Hc in E by done. pose proof (pow_class k ltac:(lia)) as Hpk. set (idx := obj_offset e / 2 ^ k) in *.
    assert (0 <= idx) as Hidx by (apply Z.div_pos; lia). unfold alloc_bind at 1 in E. rewrite (proj2 (nth_of_nat _ _ s)) in E by done. cbn [must alloc_return] in E.
    rewrite trailing_zeros_pow in E by lia. unfold alloc_bind in E.
    assert (exists av, a1 = set_pgs (mkPaging (<[Z.to_nat (obj_page e) := mkPageMeta (<[Z.to_nat idx := 0]> (entries x)) (idx :: pfree x) (u32 (used x - 2 ^ k)) (pclass x) (partner x)
        (cardCapacity x) (kind x) (resident x) (leased x)]> (pmetas (pgs a))) (freePages (pgs a)) (nurseryPages (pgs a)) av (nurseryCapacity (pgs a))) a /\
      (av = oldAvailable (pgs a) \/ exists l, oldAvailable (pgs a) !! Z.to_nat (k - 3) = Some l /\ av = <[Z.to_nat (k - 3) := l ++ [obj_page e]]> (oldAvailable (pgs a)))) as (av & -> & Hav).
    { destruct (pfree x) as [|i fr] eqn:Ef.
      - unfold push_available in E. destruct (lookup_lt_is_Some_2 (oldAvailable (pgs a)) (Z.to_nat (k - 3))) as [l Hll]; [rewrite (pg_available _ _ G); lia|].
        rewrite (proj2 (nth_of_nat _ _ l)) in E by (split; [lia|done]). unfold modify in E. injection E as <-. eexists. split; [by rewrite Hc|]. right. by exists l.
      - cbn [alloc_return] in E. unfold modify in E. injection E as <-. eexists. split; [by rewrite Hc|]. by left. }
    cbn [set_pgs pgs]. eapply (gc_pages_metas (mem a) (pgs a) h' (obj_page e) x); try done.
    + intros i f Hf. by apply Hl.
    + intros Hk'. congruence.
    + intros q j Hq _ Hce. assert (j = k) as ->.
      { destruct (ce_class _ _ _ Hce) as [Hj Hcj]. apply pow_inj; [lia|lia|congruence]. }
      by apply (cells_freed _ _ _ s).
    + intros i l Hi. destruct Hav as [->|(l0 & Hl0 & ->)]; [exists l; split; [done|by left]|]. destruct (decide (i = Z.to_nat (k - 3))) as [->|Hne].
      * rewrite list_lookup_insert_eq in Hi by by eapply lookup_lt_Some. injection Hi as <-. exists l0. split; [done|].
        intros j [Hj| ->%list_elem_of_singleton]%elem_of_app; [by left|right]. split; [done|]. split; [done|]. rewrite Hc. f_equal. lia.
      * rewrite list_lookup_insert_ne in Hi by done. exists l. split; [done|]. by left.
Qed.

(** ** The part that does not concern the nursery *)

Record old_ok (h : managedHeap) (g : paging) : Prop := {
  oo_size : forall s e, lives h s e -> obj_size e mod 8 = 0 /\ 8 <= obj_size e;
  oo_old : forall s e x, lives h s e -> obj_young e = false -> pmetas g !! Z.to_nat (obj_page e) = Some x ->
    (kind x = managedLargePage -> 0 < used x) /\ (kind x = managedOldPage -> obj_offset e mod pclass x = 0);
  oo_cells : forall id p x, pages h !! id = Some p -> pmetas g !! id = Some x -> kind x = managedOldPage -> exists k, cells_ok p x k;
  oo_available : forall i l id, oldAvailable g !! i = Some l -> id ∈ l ->
    0 <= id /\ exists x, pmetas g !! Z.to_nat id = Some x /\ kind x = managedOldPage /\ pclass x = 2 ^ (Z.of_nat i + 3);
  oo_free : forall id, id ∈ freePages g -> exists x, pmetas g !! Z.to_nat id = Some x /\ kind x = NoPage;
  oo_resident : forall id x, pmetas g !! id = Some x -> 0 <= resident x
}.

Lemma gc_pages_old h g : gc_pages h g -> old_ok h g.
Proof. intros []. by split. Qed.

(** ** Disjoint ranges *)

(** Ranges inside [0, n) that do not meet have at most [n] bytes together. *)
Lemma disjoint_ranges {A} (l : list A) (off size : A -> Z) n :
  (forall i x, l !! i = Some x -> 0 <= off x /\ 0 <= size x /\ off x + size x <= n) ->
  (forall i j x y, l !! i = Some x -> l !! j = Some y -> i <> j -> off x + size x <= off y \/ off y + size y <= off x) -> 0 <= n ->
  sum (map size l) <= n.
Proof.
  intros Hin Hd Hn. set (cells := concat (map (fun x => seqZ (off x) (size x)) l)).
  assert (Z.of_nat (length cells) = sum (map size l)) as <-.
  { unfold cells. clear Hd. induction l as [|x l IH]; [done|]. cbn [map concat sum foldr]. rewrite length_app, length_seqZ. destruct (Hin 0%nat x eq_refl) as (_ & Hs & _).
    fold (sum (map size l)). rewrite <- IH by (intros i y Hy; by apply (Hin (S i))). lia. }
  assert (cells ⊆+ seqZ 0 n) as Hsub%submseteq_length; [|rewrite length_seqZ in Hsub; lia]. apply NoDup_submseteq.
  - unfold cells. clear Hin Hn cells. induction l as [|x l IH]; [apply NoDup_nil_2|]. cbn [map concat]. apply NoDup_app. split; [apply NoDup_seqZ|]. split.
    + intros c Hc Hc'. apply elem_of_seqZ in Hc. apply list_elem_of_In, in_concat in Hc' as (cs & Hcs & Hc'). apply in_map_iff in Hcs as (y & <- & Hy).
      apply list_elem_of_In, list_elem_of_lookup in Hy as [j Hj]. apply list_elem_of_In, elem_of_seqZ in Hc'. destruct (Hd 0%nat (S j) x y eq_refl Hj ltac:(done)); lia.
    + apply IH. intros i j y z Hy Hz Hne. apply (Hd (S i) (S j)); [done|done|congruence].
  - intros c Hc. apply list_elem_of_In, in_concat in Hc as (cs & Hcs & Hc). apply in_map_iff in Hcs as (y & <- & Hy).
    apply list_elem_of_In, list_elem_of_lookup in Hy as [j Hj]. apply list_elem_of_In, elem_of_seqZ in Hc. apply elem_of_seqZ. destruct (Hin j y Hj) as (? & ? & ?). lia.
Qed.

(** ** Resident bytes *)

Definition layout_sum (ls : list managedLayout) : Z := sum (map layout_bytes ls).

Lemma layout_sum_nonneg ls : 0 <= layout_sum ls.
Proof. apply sum_nonneg, Forall_map, Forall_forall. intros l _. unfold layout_bytes. lia. Qed.

Lemma layout_sum_insert ls i l l' : ls !! i = Some l -> layout_sum (<[i := l']> ls) = layout_sum ls - layout_bytes l + layout_bytes l'.
Proof.
  unfold layout_sum. revert i. induction ls as [|x ls IH]; intros [|i] Hi; try done; cbn in Hi.
  - injection Hi as ->. cbn. unfold sum. lia.
  - specialize (IH i Hi). change (<[S i := l']> (x :: ls)) with (x :: <[i := l']> ls). cbn [map sum foldr]. unfold sum in *. lia.
Qed.

Definition resident_sum (m : list pageMeta) : Z := sum (map resident m).

(** The resident bytes pay for pages and layouts. *)
Definition covered (a : allocator) : Prop := resident_sum (pmetas (pgs a)) + layout_sum (layouts a) <= residentPageBytes (led a).

Lemma resident_sum_ext m m' : (forall i, resident <$> m' !! i = resident <$> m !! i) -> resident_sum m' = resident_sum m.
Proof. intros H. unfold resident_sum. f_equal. apply list_eq. intros i. change (map resident m') with (resident <$> m'). change (map resident m) with (resident <$> m). by rewrite !list_lookup_fmap. Qed.

Lemma resident_sum_insert m i x x' : m !! i = Some x -> resident_sum (<[i := x']> m) = resident_sum m - resident x + resident x'.
Proof.
  unfold resident_sum. revert i. induction m as [|y m IH]; intros [|i] Hi; try done; cbn in Hi.
  - injection Hi as ->. cbn. unfold sum. lia.
  - specialize (IH i Hi). change (<[S i := x']> (y :: m)) with (y :: <[i := x']> m). cbn [map sum foldr]. unfold sum in *. lia.
Qed.

Lemma resident_sum_nonneg m : (forall i x, m !! i = Some x -> 0 <= resident x) -> 0 <= resident_sum m.
Proof. intros H. apply sum_nonneg, Forall_map, Forall_lookup. exact H. Qed.

Lemma vacate_resident e a a1 i : vacate_page e a = (Ok tt, a1) -> resident <$> pmetas (pgs a1) !! i = resident <$> pmetas (pgs a) !! i.
Proof.
  assert (forall es fr u x g, page_meta a (obj_page e) = Some x -> pmetas g = pmetas (pgs a) ->
    resident <$> <[Z.to_nat (obj_page e) := mkPageMeta es fr u (pclass x) (partner x) (cardCapacity x) (kind x) (resident x) (leased x)]> (pmetas g) !! i = resident <$> pmetas (pgs a) !! i) as Hp.
  { intros es fr u x g [_ Hx]%nth_of_nat ->. destruct (decide (i = Z.to_nat (obj_page e))) as [->|Hne]; [|by rewrite list_lookup_insert_ne]. rewrite list_lookup_insert_eq, Hx by by eapply lookup_lt_Some. done. }
  unfold vacate_page. destruct (page_meta a (obj_page e)) as [x|] eqn:Ex; [|done]. destruct (obj_young e); [intros E; by injection E as <-|]. case_bool_decide.
  - unfold alloc_bind, must. destruct (nth_of (entries x) _); [|done]. cbn [alloc_return]. destruct (pfree x).
    + unfold push_available. destruct (nth_of (oldAvailable (pgs a)) _); [|done]. cbn [modify]. intros E. injection E as <-. by apply Hp.
    + cbn [alloc_return modify]. intros E. injection E as <-. by apply Hp.
  - unfold alloc_bind, must. destruct (entries x !! 0%nat); [|done]. cbn [alloc_return modify]. intros E. injection E as <-. by apply Hp.
Qed.
