(* ===== verification/CollectorSweep.v ===== *)
(** * Sweeping old objects and empty pages (src/runtime/managed_gc.go)

    [sweepOld] frees exactly the old objects that were not marked; [reclaimEmptyPages] gives back pages on
    which nothing lives.  Both keep the invariants of the allocator and of the collector's pages. *)

From S2P Require Import Prelude GoStd GoBytes Heap Allocator AllocatorSafe AllocatorRun Collector CollectorMark CollectorPages.
From stdpp Require Import relations.

#[local] Open Scope Z_scope.
#[local] Arguments Z.to_nat : simpl never.

(** ** Freeing a list of objects *)

(** The state after the objects of [l] were freed. *)
Record swept (l : list Z) (g g' : collector) : Prop := {
  sw_objects : forall i, object (mem (owner g')) i = if decide (i ∈ l) then with_obj_state managedFree <$> object (mem (owner g)) i else object (mem (owner g)) i;
  sw_pages : pages (mem (owner g')) = pages (mem (owner g)) /\ pendingCards (mem (owner g')) = pendingCards (mem (owner g));
  sw_meta : forall i, i ∉ l -> unindexed (meta (dir (owner g')) i) = unindexed (meta (dir (owner g)) i);
  sw_static : epoch g' = epoch g /\ poisonCollected g' = poisonCollected g /\ totals g' = totals g;
  sw_fixed : conf (owner g') = conf (owner g) /\ caps (owner g') = caps (owner g) /\ layouts (owner g') = layouts (owner g) /\
    layoutOwners (owner g') = layoutOwners (owner g) /\ reservations (owner g') = reservations (owner g) /\ controls (owner g') = controls (owner g);
  sw_control : controlBytes (led (owner g')) = controlBytes (led (owner g)) /\ unpublished (led (owner g')) = unpublished (led (owner g)) /\
    residentPageBytes (led (owner g')) = residentPageBytes (led (owner g));
  sw_resident : forall i, resident <$> pmetas (pgs (owner g')) !! i = resident <$> pmetas (pgs (owner g)) !! i
}.

Lemma swept_refl l g : (forall i, i ∈ l -> object (mem (owner g)) i = None) -> swept l g g.
Proof. intros H. split; try done. intros i. destruct (decide (i ∈ l)) as [Hi|]; [by rewrite (H i Hi)|done]. Qed.

Lemma swept_trans l1 l2 g g1 g2 : (forall i, i ∈ l1 -> i ∈ l2 -> object (mem (owner g)) i = None) -> swept l1 g g1 -> swept l2 g1 g2 -> swept (l1 ++ l2) g g2.
Proof.
  intros Hd A B. destruct (sw_static _ _ _ A) as (A1 & A2 & A3), (sw_static _ _ _ B) as (B1 & B2 & B3).
  destruct (sw_pages _ _ _ A) as (A4 & A5), (sw_pages _ _ _ B) as (B4 & B5). destruct (sw_fixed _ _ _ A) as (C1 & C2 & C3 & C4 & C5 & C6), (sw_fixed _ _ _ B) as (D1 & D2 & D3 & D4 & D5 & D6).
  destruct (sw_control _ _ _ A) as (E1 & E2 & E3), (sw_control _ _ _ B) as (F1 & F2 & F3).
  split; [|split; congruence| |repeat split; congruence|repeat split; congruence|repeat split; congruence|intros i; by rewrite (sw_resident _ _ _ B), (sw_resident _ _ _ A)].
  - intros i. rewrite (sw_objects _ _ _ B), (sw_objects _ _ _ A). destruct (decide (i ∈ l1)) as [H1|H1], (decide (i ∈ l2)) as [H2|H2].
    + rewrite decide_True by (apply elem_of_app; by left). by rewrite (Hd i H1 H2).
    + by rewrite decide_True by (apply elem_of_app; by left).
    + by rewrite decide_True by (apply elem_of_app; by right).
    + rewrite decide_False; [done|]. by intros [?|?]%elem_of_app.
  - intros i [H1 H2]%not_elem_of_app. by rewrite (sw_meta _ _ _ B), (sw_meta _ _ _ A).
Qed.

(** One published object. *)
Lemma free_swept_one n g s e :
  alloc_ok n (owner g) -> gc_pages (mem (owner g)) (pgs (owner g)) -> object (mem (owner g)) s = Some e -> obj_state e = managedPublished ->
  exists g', gc_lift (freeObject s true) g = (Ok tt, g') /\ alloc_ok n (owner g') /\ gc_pages (mem (owner g')) (pgs (owner g')) /\ swept [s] g g' /\ counts g' = counts g.
Proof.
  intros A C He Hst. destruct (free_published_spec n s e (owner g) A He Hst) as (a' & Ef & A' & F & Rm). unfold gc_lift. rewrite Ef. eexists. split; [done|].
  destruct (fr_static _ _ _ _ _ F) as (S1 & S2 & S3 & S4). destruct (fr_rest _ _ _ _ _ F) as (S5 & S6 & S7). split; [done|]. cbn [owner]. split; [|split; [|done]].
  - destruct (fr_vacated _ _ _ _ _ F) as (a1 & Ev & ->). eapply (vacate_gc (owner g) s e); [apply A|done|by apply published_live|exact Ev|apply Rm|].
    intros i f [Hf Hlf]. rewrite (rm_objects _ _ _ _ Rm) in Hf. destruct (decide (i = s)) as [->|Hne]; [by injection Hf as <-|]. split; [done|]. by split.
  - split; cbn; try done.
    + intros i. rewrite (rm_objects _ _ _ _ Rm). destruct (decide (i = s)) as [->|Hne].
      * rewrite decide_True by by left. by rewrite He.
      * rewrite decide_False; [done|]. by intros ?%list_elem_of_singleton.
    + split; [apply Rm|done].
    + intros i Hi. pose proof (fr_dir _ _ _ _ _ F) as Fd. assert (i <> s) as Hne by (intros ->; apply Hi; by left).
      pose proof (sf_meta _ _ _ _ _ _ Fd i) as Hm. pose proof (sf_logical _ _ _ _ _ _ Fd i) as Hlg. rewrite decide_False in Hlg by done.
      destruct (meta (dir a') i), (meta (dir (owner g)) i). unfold unindexed, with_occupied, with_young, with_logical in *. cbn in *. congruence.
    + rewrite (fr_ledger _ _ _ _ _ F). cbn. by destruct (obj_young e).
    + intros i. destruct (fr_vacated _ _ _ _ _ F) as (a1 & Ev & ->). by eapply vacate_resident.
Qed.

Lemma swept_counts l g f g' : swept l (set_counts f g) g' -> swept l g g'.
Proof. intros []. by split. Qed.

Lemma free_swept_spec n l g :
  alloc_ok n (owner g) -> gc_pages (mem (owner g)) (pgs (owner g)) ->
  (forall s, s ∈ l -> s <> 0 -> exists e, object (mem (owner g)) s = Some e /\ obj_state e = managedPublished) -> NoDup (List.filter (fun s => negb (s =? 0)) l) ->
  exists g', free_swept l g = (Ok tt, g') /\ alloc_ok n (owner g') /\ gc_pages (mem (owner g')) (pgs (owner g')) /\ swept l g g' /\
    reachableBytes (counts g') = reachableBytes (counts g).
Proof.
  revert g. induction l as [|s l IH]; intros g A C Hl Hnd.
  { exists g. split; [done|]. split; [done|]. split; [done|]. split; [apply swept_refl; intros i []%not_elem_of_nil|done]. }
  cbn [free_swept]. destruct (Z.eqb_spec s 0) as [->|Hs0].
  - destruct (IH g) as (g' & E & A' & C' & S & Hc); [done|done|intros t Ht; apply Hl; by right|exact Hnd|].
    exists g'. split; [unfold gc_bind; cbn [gc_return]; exact E|]. split; [done|]. split; [done|]. split; [|done].
    apply (swept_trans [0] l g g g'); [|apply swept_refl|done]; intros i Hi%list_elem_of_singleton; by subst i.
  - destruct (Hl s) as (e & He & Hst); [by left|done|].
    cbn [List.filter] in Hnd. rewrite (proj2 (Z.eqb_neq s 0)) in Hnd by done. cbn [negb] in Hnd. apply NoDup_cons in Hnd as [Hni Hnd].
    assert (s ∉ l) as Hnl.
    { intros Hin. apply Hni. apply list_elem_of_In, filter_In. split; [by apply list_elem_of_In|]. by apply negb_true_iff, Z.eqb_neq. }
    set (g0 := set_counts (count_reclaimed (logical (meta (dir (owner g)) s))) g).
    destruct (free_swept_one n g0 s e A C He Hst) as (g1 & E1 & A1 & C1 & S1 & Hc1). apply swept_counts in S1.
    destruct (IH g1) as (g' & E' & A' & C' & S' & Hc'); [done|done| |done|].
    { intros t Ht Ht0. destruct (Hl t) as (f & Hf & Hfs); [by right|done|]. exists f. rewrite (sw_objects _ _ _ S1), decide_False; [done|].
      intros ->%list_elem_of_singleton. done. }
    exists g'. split; [|split; [done|split; [done|split]]].
    + unfold gc_bind at 1. rewrite He, bool_decide_true by done. cbn [negb]. rewrite (gc_bind_ok _ _ _ _ _ (eq_refl : gc_modify (set_counts (count_reclaimed (logical (meta (dir (owner g)) s)))) g = (Ok tt, g0))).
      rewrite E1. exact E'.
    + apply (swept_trans [s] l g g1 g'); [|done|done]. intros i ->%list_elem_of_singleton Hin. done.
    + by rewrite Hc', Hc1.
Qed.

(** ** Sweeping *)

Definition dead_old (g : collector) : list Z := List.filter (sweepable g) (occupied (dir (owner g))).

Lemma swept_zero l l' g g' : (forall i, i <> 0 -> i ∈ l <-> i ∈ l') -> (0 ∈ l -> 0 ∈ l') -> swept l g g' -> swept l' g g'.
Proof.
  intros H H0 S. split; try apply S.
  - intros i. rewrite (sw_objects _ _ _ S). destruct (decide (i = 0)) as [->|Hne].
    + by destruct (decide (0 ∈ l)), (decide (0 ∈ l')).
    + specialize (H i Hne). destruct (decide (i ∈ l)) as [H1|H1], (decide (i ∈ l')) as [H2|H2]; tauto.
  - intros i Hi. apply S. intros Hin. destruct (decide (i = 0)) as [->|Hne]; [by apply Hi, H0|]. by apply Hi, H.
Qed.

Lemma sweepOld_spec n g :
  alloc_ok n (owner g) -> gc_pages (mem (owner g)) (pgs (owner g)) -> Z.of_nat (length (occupied (dir (owner g)))) <= queue_capacity (owner g) ->
  exists g', sweepOld g = (Ok tt, g') /\ alloc_ok n (owner g') /\ gc_pages (mem (owner g')) (pgs (owner g')) /\ swept (0 :: dead_old g) g g' /\
    reachableBytes (counts g') = reachableBytes (counts g).
Proof.
  intros A C Hroom. unfold sweepOld. pose proof (ok_dir _ _ A) as D. case_bool_decide as He.
  { exists g. split; [done|]. split; [done|]. split; [done|]. split; [|done]. apply swept_refl. unfold dead_old. rewrite He. intros i ->%list_elem_of_singleton. done. }
  rewrite (proj2 (Z.ltb_ge _ _)) by done. set (l := map (fun s => if sweepable g s then s else 0) (occupied (dir (owner g)))).
  assert (forall s, s ∈ occupied (dir (owner g)) -> s <> 0) as Hnz.
  { intros s [i Hi]%list_elem_of_lookup. destruct (dir_occupied _ _ D i s Hi) as (_ & e & Hoe & _). apply object_pos in Hoe. lia. }
  assert (List.filter (fun s => negb (s =? 0)) l = dead_old g) as Hf.
  { unfold l, dead_old. clear -Hnz. induction (occupied (dir (owner g))) as [|s slots IH]; [done|]. cbn. assert (s <> 0) as Hs by (apply Hnz; by left).
    rewrite IH by (intros t Ht; apply Hnz; by right). destruct (sweepable g s); [|done]. by rewrite (proj2 (Z.eqb_neq s 0)). }
  assert (forall s, s <> 0 -> s ∈ l <-> s ∈ dead_old g) as Hiff.
  { intros s Hs. rewrite <- Hf. rewrite !list_elem_of_In, filter_In. split; [|tauto]. intros Hin. split; [done|]. by apply negb_true_iff, Z.eqb_neq. }
  assert (forall s, s ∈ dead_old g -> s ∈ occupied (dir (owner g))) as Hsub.
  { intros s Hs. unfold dead_old in Hs. apply list_elem_of_In, filter_In in Hs as [Hs _]. by apply list_elem_of_In. }
  destruct (free_swept_spec n l (set_queue l g)) as (g' & E & A' & C' & S & Hc); [done|done| | |].
  { intros s Hs Hs0. apply Hiff in Hs; [|done]. apply Hsub in Hs. apply list_elem_of_lookup in Hs as [i Hi]. destruct (dir_occupied _ _ D i s Hi) as (_ & Hx). exact Hx. }
  { rewrite Hf. unfold dead_old. apply NoDup_ListNoDup, List.NoDup_filter, NoDup_ListNoDup. by eapply occupied_nodup. }
  exists g'. split; [unfold gc_bind; cbn [gc_modify]; exact E|]. split; [done|]. split; [done|]. split; [|done].
  apply (swept_zero l (0 :: dead_old g) g g'); [|by left|by destruct S].
  intros i Hi. rewrite (Hiff i Hi), elem_of_cons. split; [by right|by intros [?|?]].
Qed.

(** ** Empty pages *)

(** Pages that hold nothing may change. *)
Record shed (a a' : allocator) : Prop := {
  sh_dir : dir a' = dir a;
  sh_segments : segments (mem a') = segments (mem a) /\ pendingCards (mem a') = pendingCards (mem a);
  sh_content : forall s e, lives (mem a) s e -> content (mem a') e = content (mem a) e;
  sh_fixed : conf a' = conf a /\ caps a' = caps a /\ layouts a' = layouts a /\ layoutOwners a' = layoutOwners a /\ reservations a' = reservations a /\ controls a' = controls a;
  sh_ledger : occupiedBytes (led a') = occupiedBytes (led a) /\ reservedBytes (led a') = reservedBytes (led a) /\ youngBytes (led a') = youngBytes (led a) /\
    controlBytes (led a') = controlBytes (led a) /\ unpublished (led a') = unpublished (led a);
  sh_covered : covered a -> covered a'
}.

Lemma shed_refl a : shed a a.
Proof. by split. Qed.

Lemma shed_trans a b c : shed a b -> shed b c -> shed a c.
Proof.
  intros [A1 [A2 A2'] A3 A4 A5 A6] [B1 [B2 B2'] B3 B4 B5 B6]. destruct_and!. split; [congruence|split; congruence| |repeat split; congruence|repeat split; congruence|by intros Hc%A6%B6].
  intros s e Hs. rewrite (B3 s), (A3 s); [done|done|]. by apply (lives_segments _ _ _ _ A2).
Qed.

Lemma discard_spec n a id x :
  alloc_ok n a -> gc_pages (mem a) (pgs a) -> page_meta a id = Some x -> used x = 0 -> kind x = managedOldPage \/ kind x = managedLargePage ->
  alloc_ok n (discard_page id x a) /\ gc_pages (mem (discard_page id x a)) (pgs (discard_page id x a)) /\ shed a (discard_page id x a).
Proof.
  intros [D G R L B Ly] C [Hid Hx]%nth_of_nat Hu Hk. set (a' := discard_page id x a).
  assert (forall s e, lives (mem a) s e -> obj_page e <> id) as Hno.
  { intros s e Hs Epg. destruct (pg_placed _ _ G s e Hs) as [_ (p & x' & Hp & Hx' & _ & _ & Hin)]. rewrite Epg in Hx'. assert (x' = x) as -> by congruence.
    destruct (obj_young e) eqn:Ey; [unfold in_place in Hin; rewrite Ey in Hin; destruct Hin as [Hy _]; destruct Hk; congruence|].
    pose proof (old_used _ _ s e x G C Hs Ey). rewrite Epg in H. specialize (H Hx). lia. }
  assert (id ∉ freePages (pgs a)) as Hnf by (intros Hf; destruct (gp_free _ _ C id Hf) as (y & Hy & Hky); assert (y = x) as -> by congruence; destruct Hk; congruence).
  assert (id ∉ nurseryPages (pgs a)) as Hnn.
  { intros Hf. destruct (pg_nursery _ _ G id Hf) as (_ & p & y & _ & Hy & _ & Hky & _). assert (y = x) as -> by congruence. destruct Hk; congruence. }
  assert (forall j, j <> Z.to_nat id -> pages (mem a') !! j = pages (mem a) !! j /\ pmetas (pgs a') !! j = pmetas (pgs a) !! j) as Hoth by (intros j Hj; cbn; by rewrite !list_lookup_insert_ne).
  pose proof (lookup_lt_Some _ _ _ Hx) as Hlt. pose proof (pg_length _ _ G) as Hlen.
  assert (pages (mem a') !! Z.to_nat id = Some (mkPage [] [])) as Hpid by (cbn; apply list_lookup_insert_eq; lia).
  assert (pmetas (pgs a') !! Z.to_nat id = Some (mkPageMeta [] [] 0 0 0 (cardCapacity x) NoPage 0 false)) as Hxid by (cbn; by apply list_lookup_insert_eq).
  assert (forall j, 0 <= j -> j <> id -> Z.to_nat j <> Z.to_nat id) as Hto by (intros; lia).
  assert (forall s e, lives (mem a') s e <-> lives (mem a) s e) as Hli by (intros; by apply lives_segments).
  assert (forall s e, lives (mem a) s e -> 0 <= obj_page e) as Hpos by (intros s e Hs; apply (pg_placed _ _ G s e Hs)).
  assert (forall s e, lives (mem a) s e -> content (mem a') e = content (mem a) e) as Hcon.
  { intros s e Hs. unfold content. rewrite (proj1 (Hoth _ (Hto _ (Hpos _ _ Hs) (Hno _ _ Hs)))). done. }
  split; [split|split].
  - by apply (dir_ok_segments (mem a)).
  - split.
    + cbn. rewrite !length_insert. apply G.
    + intros j p Hp. destruct (decide (j = Z.to_nat id)) as [->|Hne]; [rewrite Hpid in Hp; by injection Hp as <-|]. rewrite (proj1 (Hoth j Hne)) in Hp. by eapply pg_bytes.
    + cbn. constructor; [done|apply G].
    + intros j. cbn [a' discard_page set_led set_mem set_pgs pgs freePages nurseryPages]. intros [->|Hj]%elem_of_cons.
      * cbn. rewrite length_insert. split; [lia|]. split; [done|]. intros s e Hs. apply (Hno s), Hli, Hs.
      * destruct (pg_free _ _ G j Hj) as (H1 & H2 & H3). cbn. rewrite length_insert. split; [done|]. split; [done|]. intros s e Hs. apply (H3 s), Hli, Hs.
    + intros j Hj. destruct (pg_nursery _ _ G j Hj) as (H1 & p & y & Hp & Hy & H2). split; [done|]. exists p, y.
      destruct (Hoth (Z.to_nat j)) as [-> ->]; [|done]. apply Hto; [done|]. by intros ->.
    + cbn. rewrite length_map. apply G.
    + intros s e Hs. apply Hli in Hs. eapply placed_frame; [by apply (pg_placed _ _ G)|apply Hoth; apply Hto; eauto..].
    + intros s1 s2 e1 e2 H1 H2. apply Hli in H1, H2. by apply (pg_apart _ _ G).
  - destruct R as [R1 R2]. split; done.
  - pose proof (led_resident_word _ L) as Hw. pose proof (led_resident _ L) as Hrm. set (fr := if resident x <=? residentPageBytes (led a) then resident x else residentPageBytes (led a)).
    assert (0 <= fr <= residentPageBytes (led a)) as Hfr.
    { pose proof (gp_resident _ _ C _ _ Hx). unfold fr. destruct (Z.leb_spec (resident x) (residentPageBytes (led a))); lia. }
    assert (residentPageBytes (led a') = residentPageBytes (led a) - fr) as Er by (cbn; fold fr; unfold MaxInt64 in Hw; rewrite u64_id by lia; lia).
    clear Hoth Hpid Hxid Hto Hli Hcon. destruct L. split; try done; rewrite Er; [lia|]. intros Hne. specialize (Hrm Hne). change (conf a') with (conf a). lia.
  - destruct B. split; try done. cbn. rewrite length_insert. done.
  - done.
  - split.
    + apply C.
    + intros s e Hs. apply (gp_young _ _ C s), Hli, Hs.
    + intros j y Hj Hy. assert (j <> id) as Hne by by intros ->. destruct (pg_nursery _ _ G j Hj) as (Hj0 & _). rewrite (proj2 (Hoth _ (Hto _ Hj0 Hne))) in Hy.
      destruct (gp_partner _ _ C j y Hj Hy) as [H0 (p & z & Hp & Hz & Hd & Hkz)]. split; [done|]. exists p, z.
      destruct (Hoth (Z.to_nat (partner y))) as [-> ->]; [|done]. intros E. rewrite E in Hz. assert (z = x) as -> by congruence. destruct Hk; congruence.
    + intros j j' y y' Hj Hj' Hy Hy'. destruct (pg_nursery _ _ G j Hj) as (Hj0 & _), (pg_nursery _ _ G j' Hj') as (Hj0' & _).
      rewrite (proj2 (Hoth _ (Hto j Hj0 ltac:(by intros ->)))) in Hy. rewrite (proj2 (Hoth _ (Hto j' Hj0' ltac:(by intros ->)))) in Hy'. by apply C.
    + intros s e Hs. apply (gp_size _ _ C s), Hli, Hs.
    + intros s e y Hs Ey Hy. apply Hli in Hs. rewrite (proj2 (Hoth _ (Hto _ (Hpos _ _ Hs) (Hno _ _ Hs)))) in Hy. by apply (gp_old _ _ C s).
    + intros j p y Hp Hy Hky. destruct (decide (j = Z.to_nat id)) as [->|Hne]; [rewrite Hxid in Hy; by injection Hy as <-|].
      destruct (Hoth j Hne) as [E1 E2]. rewrite E1 in Hp. rewrite E2 in Hy. by eapply gp_cells.
    + intros i l j Hi Hj. cbn in Hi. rewrite list_lookup_fmap in Hi. destruct (oldAvailable (pgs a) !! i) as [l0|] eqn:El; [|done]. injection Hi as <-.
      apply list_elem_of_In, filter_In in Hj as [Hj Hne]. apply list_elem_of_In in Hj. breflect. destruct (gp_available _ _ C i l0 j El Hj) as (Hj0 & y & Hy & H2).
      split; [done|]. exists y. by rewrite (proj2 (Hoth _ (Hto _ Hj0 Hne))).
    + intros j Hj0. assert (j ∈ id :: freePages (pgs a)) as [->|Hj]%elem_of_cons by exact Hj0; [by eexists|]. clear Hj0.
      destruct (pg_free _ _ G j Hj) as ((Hj0 & _) & _). rewrite (proj2 (Hoth _ (Hto j Hj0 ltac:(by intros ->)))). by apply C.
    + intros j y Hy. destruct (decide (j = Z.to_nat id)) as [->|Hne]; [rewrite Hxid in Hy; by injection Hy as <-|]. rewrite (proj2 (Hoth j Hne)) in Hy. by eapply gp_resident.
  - split; try done. unfold covered. intros Hc. change (layouts a') with (layouts a).
    pose proof (resident_sum_insert _ _ _ (mkPageMeta [] [] 0 0 0 (cardCapacity x) NoPage 0 false) Hx) as Hrs. change (<[Z.to_nat id := _]> (pmetas (pgs a))) with (pmetas (pgs a')) in Hrs.
    cbn [resident] in Hrs. rewrite Hrs. pose proof (gp_resident _ _ C _ _ Hx) as Hr0. pose proof (layout_sum_nonneg (layouts a)) as Hl0. pose proof (led_resident_word _ L) as Hw.
    assert (resident x <= resident_sum (pmetas (pgs a))) as Hle.
    { assert (0 <= resident_sum (pmetas (pgs a'))) as H0; [|lia]. apply resident_sum_nonneg. intros j y Hy. destruct (decide (j = Z.to_nat id)) as [->|Hne]; [rewrite Hxid in Hy; by injection Hy as <-|].
      rewrite (proj2 (Hoth j Hne)) in Hy. by eapply gp_resident. }
    cbn. rewrite (proj2 (Z.leb_le _ _)) by lia. unfold MaxInt64 in Hw. rewrite u64_id by lia. lia.
Qed.

Lemma reclaim_spec n a : alloc_ok n a -> gc_pages (mem a) (pgs a) ->
  alloc_ok n (reclaimEmptyPages a) /\ gc_pages (mem (reclaimEmptyPages a)) (pgs (reclaimEmptyPages a)) /\ shed a (reclaimEmptyPages a).
Proof.
  unfold reclaimEmptyPages. generalize (length (pages (mem a))) as m. generalize 0 as id. intros id m. revert id a. induction m as [|m IH]; intros id a A C.
  { split; [done|]. split; [done|]. apply shed_refl. }
  cbn [reclaim_loop]. set (b := match page_meta a id with Some x => if reclaimable a x then discard_page id x a else a | None => a end).
  assert (alloc_ok n b /\ gc_pages (mem b) (pgs b) /\ shed a b) as (Ab & Cb & Sb).
  { unfold b. destruct (page_meta a id) as [x|] eqn:Ex; [|split; [done|split; [done|apply shed_refl]]].
    destruct (reclaimable a x) eqn:Er; [|split; [done|split; [done|apply shed_refl]]]. unfold reclaimable in Er. apply andb_true_iff in Er as [Eu Ek]. breflect.
    apply discard_spec; try done. destruct (kind x); try done; [by left|by right]. }
  destruct (IH (id + 1) b Ab Cb) as (A' & C' & S'). split; [done|]. split; [done|]. by eapply shed_trans.
Qed.
