(* ===== verification/CollectorCards.v ===== *)
(** * Cards (src/runtime/managed_gc.go)

    Marking the cards of references to young objects changes cards and their log only, and succeeds on objects
    whose references resolve. *)

From S2P Require Import Prelude GoStd GoBytes Heap Allocator AllocatorSafe AllocatorRun Collector CollectorMark.
From stdpp Require Import relations.

#[local] Open Scope Z_scope.
#[local] Arguments Z.to_nat : simpl never.

(** ** Heaps that differ in cards *)

Record same_bytes (h h' : managedHeap) : Prop := {
  sb_segments : segments h' = segments h;
  sb_length : length (pages h') = length (pages h);
  sb_pages : forall i p, pages h !! i = Some p -> exists p', pages h' !! i = Some p' /\ data p' = data p /\ length (cards p') = length (cards p)
}.

Lemma same_bytes_refl h : same_bytes h h.
Proof. split; [done|done|]. intros i p Hp. by exists p. Qed.

Lemma same_bytes_trans h1 h2 h3 : same_bytes h1 h2 -> same_bytes h2 h3 -> same_bytes h1 h3.
Proof.
  intros [A1 A2 A3] [B1 B2 B3]. split; [congruence|congruence|]. intros i p Hp. destruct (A3 i p Hp) as (p1 & Hp1 & E1 & E2), (B3 i p1 Hp1) as (p2 & Hp2 & E3 & E4).
  exists p2. split; [done|]. split; congruence.
Qed.

Lemma same_bytes_shape h h' : same_bytes h h' -> same_shape h h'.
Proof.
  intros S i. destruct (pages h !! i) as [p|] eqn:Hp.
  - destruct (sb_pages _ _ S i p Hp) as (p' & -> & Ed & Ec). cbn. by rewrite Ed, Ec.
  - apply lookup_ge_None in Hp. rewrite (proj2 (lookup_ge_None (pages h') i)); [done|]. by rewrite (sb_length _ _ S).
Qed.

Lemma same_bytes_content h h' e : same_bytes h h' -> content h' e = content h e.
Proof.
  intros S. pose proof (same_bytes_shape _ _ S (Z.to_nat (obj_page e))) as Hsh. unfold content. destruct (pages h !! Z.to_nat (obj_page e)) as [p|] eqn:Hp.
  - destruct (sb_pages _ _ S _ _ Hp) as (p' & -> & Ed & _). cbn. by rewrite Ed.
  - by destruct (pages h' !! Z.to_nat (obj_page e)).
Qed.

Lemma same_bytes_pages_ok h h' g : same_bytes h h' -> pages_ok h g -> pages_ok h' g.
Proof.
  intros S G. apply (pages_ok_moved h); [done| |by apply same_bytes_shape]. intros i f Hf. exists f.
  split; [by apply (lives_segments _ _ _ _ (sb_segments _ _ S))|by repeat split].
Qed.

(** ** Collectors that differ in cards *)

Definition carded (g g' : collector) : Prop := exists h', same_bytes (mem (owner g)) h' /\ g' = set_owner (set_mem h') g.

Lemma set_owner_id g : set_owner (set_mem (mem (owner g))) g = g.
Proof. by destruct g as [[]]. Qed.

Lemma carded_refl g : carded g g.
Proof. exists (mem (owner g)). split; [apply same_bytes_refl|by rewrite set_owner_id]. Qed.

Lemma carded_trans g1 g2 g3 : carded g1 g2 -> carded g2 g3 -> carded g1 g3.
Proof. intros (h1 & S1 & ->) (h2 & S2 & ->). exists h2. split; [by eapply same_bytes_trans|done]. Qed.

(** A card is stored, and possibly logged. *)
Lemma store_card_bytes page index v cs h :
  same_bytes h (mkHeap (segments h) (alter (fun p => mkPage (data p) (<[Z.to_nat index := v]> (cards p))) (Z.to_nat page) (pages h)) cs).
Proof.
  split; cbn; [done|by rewrite length_alter|]. intros i p Hp. destruct (decide (i = Z.to_nat page)) as [->|Hne].
  - rewrite list_lookup_alter_eq, Hp. cbn. eexists. split; [done|]. cbn. by rewrite length_insert.
  - rewrite list_lookup_alter_ne by done. by exists p.
Qed.

Lemma mark_cards_spec n page index p g :
  0 <= page -> 0 <= index -> pages (mem (owner g)) !! Z.to_nat page = Some p -> index + Z.of_nat n <= Z.of_nat (length (cards p)) ->
  exists g', mark_cards n page index g = (Ok tt, g') /\ carded g g'.
Proof.
  revert index g p. induction n as [|n IH]; intros index g p Hpg Hi Hp Hn; [exists g; split; [done|apply carded_refl]|].
  cbn [mark_cards]. unfold gc_bind at 1, gc_some at 1. rewrite (proj2 (nth_of_nat _ _ p)) by done. cbn [gc_return].
  destruct (lookup_lt_is_Some_2 (cards p) (Z.to_nat index)) as [c Hc]; [lia|]. unfold gc_bind at 1, gc_some at 1. rewrite (proj2 (nth_of_nat _ _ c)) by done. cbn [gc_return].
  unfold gc_bind at 1. set (m := if c =? 0 then _ else _).
  assert (exists g1, m g = (Ok tt, g1) /\ carded g g1) as (g1 & -> & C1).
  { unfold m. destruct (c =? 0); [|exists g; split; [done|apply carded_refl]]. eexists. split; [done|]. eexists. split; [apply (store_card_bytes page index 1)|]. done. }
  pose proof C1 as (h1 & S1 & ->). destruct (sb_pages _ _ S1 _ _ Hp) as (p1 & Hp1 & _ & El).
  destruct (IH (index + 1) (set_owner (set_mem h1) g) p1) as (g' & E & C'); [done|lia|exact Hp1|rewrite El; lia|].
  exists g'. split; [exact E|]. by eapply carded_trans.
Qed.

Lemma markCard_spec page offset size p g :
  0 <= page -> 0 <= offset -> 0 < size -> pages (mem (owner g)) !! Z.to_nat page = Some p -> offset + size <= Z.of_nat (length (data p)) -> Z.of_nat (length (data p)) < 2 ^ 32 ->
  Z.of_nat (length (data p)) <= managedCardBytes * Z.of_nat (length (cards p)) ->
  exists g', markCard page offset size g = (Ok tt, g') /\ carded g g'.
Proof.
  intros Hpg Ho Hs Hp Hfit Hlen Hcards. unfold markCard. rewrite (proj2 (Z.eqb_neq _ _)) by lia. rewrite (proj2 (nth_of_nat _ _ p)) by done.
  rewrite (proj2 (Z.ltb_ge _ _)) by done. rewrite u32_id by lia. unfold managedCardBytes in *.
  assert ((offset + size - 1) / 256 < Z.of_nat (length (cards p))) as Hl by (apply Z.div_lt_upper_bound; lia).
  assert (offset / 256 <= (offset + size - 1) / 256) as Hle by (apply Z.div_le_mono; lia). assert (0 <= offset / 256) as H0 by (apply Z.div_pos; lia).
  rewrite (proj2 (Z.leb_gt _ _)) by done. apply (mark_cards_spec _ page _ p); [done|done|done|]. rewrite Z2Nat.id by lia. lia.
Qed.

(** ** The references of an old object *)

(** The words that [markYoungReferences] looks at, where the object lies on a page with cards. *)
Definition carded_page (g : collector) (page : Z) (bytes : gostring) : Prop :=
  0 <= page /\ Z.of_nat (length bytes) < 2 ^ 32 /\ exists p, pages (mem (owner g)) !! Z.to_nat page = Some p /\ data p = bytes /\
    Z.of_nat (length (data p)) <= managedCardBytes * Z.of_nat (length (cards p)).

Lemma carded_page_kept g g' page bytes : carded g g' -> carded_page g page bytes -> carded_page g' page bytes.
Proof.
  intros (h & S & ->) (H0 & Hl & p & Hp & Hd & Hc). split; [done|]. split; [done|]. destruct (sb_pages _ _ S _ _ Hp) as (p' & Hp' & Ed & Ec). exists p'. split; [done|].
  split; [congruence|]. by rewrite Ed, Ec.
Qed.

Definition resolves (g : collector) (refs : list guestRef) : Prop := forall ref, ref ∈ refs -> exists e, resolveObject (mem (owner g)) ref = Ok e.

Lemma resolves_kept g g' refs : carded g g' -> resolves g refs -> resolves g' refs.
Proof. intros (h & S & ->) H ref Hr. destruct (H ref Hr) as [e He]. exists e. cbn. by rewrite (resolve_segments _ _ _ (sb_segments _ _ S)). Qed.

Lemma mark_if_young_spec word page offset bytes g :
  carded_page g page bytes -> 0 <= offset -> offset + 8 <= Z.of_nat (length bytes) -> resolves g (nonnull [word]) ->
  exists g', mark_if_young word page offset g = (Ok tt, g') /\ carded g g'.
Proof.
  intros (H0 & Hlen & p & Hp & Hd & Hc) Ho Hfit Hr. unfold mark_if_young. unfold nonnull in Hr. cbn [map List.filter] in Hr.
  destruct (is_null (unpack word)); cbn [negb] in Hr; [exists g; split; [done|apply carded_refl]|].
  destruct (Hr (unpack word)) as [e He]; [by left|]. unfold gc_bind. rewrite He. destruct (obj_young e); [|exists g; split; [done|apply carded_refl]].
  subst bytes. by apply (markCard_spec page offset 8 p).
Qed.

Lemma nonnull_app ws ws' : nonnull (ws ++ ws') = nonnull ws ++ nonnull ws'.
Proof. unfold nonnull. rewrite map_app. by rewrite List.filter_app. Qed.

Lemma nonnull_cons w ws : nonnull (w :: ws) = nonnull [w] ++ nonnull ws.
Proof. apply (nonnull_app [w]). Qed.

Lemma resolves_app g r1 r2 : resolves g (r1 ++ r2) -> resolves g r1 /\ resolves g r2.
Proof. intros H. split; intros ref Hr; apply H, elem_of_app; [by left|by right]. Qed.

Lemma young_references_spec offsets bytes page base stride g :
  carded_page g page bytes -> 0 <= base -> base + stride <= Z.of_nat (length bytes) -> Forall (fun o => 0 <= o /\ o + 8 <= stride) offsets ->
  resolves g (nonnull (ref_words offsets bytes base)) -> exists g', young_references offsets bytes page base g = (Ok tt, g') /\ carded g g'.
Proof.
  revert g. induction offsets as [|o offsets IH]; intros g Hp Hb Hfit Hf Hr; [exists g; split; [done|apply carded_refl]|]. apply Forall_cons in Hf as [Ho Hf].
  cbn [young_references]. pose proof Hp as (_ & Hlen & _). rewrite !u32_id by lia. rewrite (gc_bind_ok _ _ _ _ _ (word_at_ok 8 bytes (base + o) g ltac:(lia) ltac:(lia))).
  cbn [ref_words map] in Hr. fold (ref_words offsets bytes base) in Hr. rewrite nonnull_cons in Hr. apply resolves_app in Hr as [Hr1 Hr2].
  destruct (mark_if_young_spec (le_word (window bytes (base + o) 8)) page (base + o) bytes g) as (g1 & E1 & C1); [done|lia|lia|done|]. rewrite (gc_bind_ok _ _ _ _ _ E1).
  destruct (IH g1) as (g' & E' & C'); [by eapply carded_page_kept|done|done|done|by eapply resolves_kept|]. exists g'. split; [done|]. by eapply carded_trans.
Qed.

Lemma young_dynamics_spec offsets bytes page base stride g :
  carded_page g page bytes -> 0 <= base -> base + stride <= Z.of_nat (length bytes) -> Forall (fun d => 0 <= d /\ d + 24 <= stride) offsets ->
  resolves g (nonnull (dyn_words offsets bytes base)) -> exists g', young_dynamics offsets bytes page base g = (Ok tt, g') /\ carded g g'.
Proof.
  revert g. induction offsets as [|d offsets IH]; intros g Hp Hb Hfit Hf Hr; [exists g; split; [done|apply carded_refl]|]. apply Forall_cons in Hf as [Ho Hf].
  cbn [young_dynamics]. pose proof Hp as (_ & Hlen & _). rewrite !u32_id by lia. rewrite (gc_bind_ok _ _ _ _ _ (word_at_ok 4 bytes (base + d + 4) g ltac:(lia) ltac:(lia))).
  cbn [dyn_words omap list_omap] in Hr. fold (dyn_words offsets bytes base) in Hr. destruct (holds_reference _); cbn [negb].
  - rewrite nonnull_cons in Hr. apply resolves_app in Hr as [Hr1 Hr2].
    unfold gc_bind at 1. rewrite (gc_bind_ok _ _ _ _ _ (word_at_ok 8 bytes (base + d + 8) g ltac:(lia) ltac:(lia))).
    destruct (mark_if_young_spec (le_word (window bytes (base + d + 8) 8)) page (base + d + 8) bytes g) as (g1 & E1 & C1); [done|lia|lia|done|]. rewrite E1.
    destruct (IH g1) as (g' & E' & C'); [by eapply carded_page_kept|done|done|done|by eapply resolves_kept|]. exists g'. split; [done|]. by eapply carded_trans.
  - by apply IH.
Qed.

Lemma filter_all {A} (f : A -> bool) l : (forall x, x ∈ l -> f x = true) -> List.filter f l = l.
Proof. induction l as [|x l IH]; intros H; [done|]. cbn. rewrite (H x) by by left. by rewrite IH by (intros y Hy; apply H; by right). Qed.

(** All words of an element. *)
Lemma element_words_all l bytes base : layout_ok l -> 0 <= base -> base + lstride l <= Z.of_nat (length bytes) -> Z.of_nat (length bytes) < 2 ^ 32 ->
  element_words l bytes 0 MaxUint32 base = ref_words (references l) bytes base ++ dyn_words (dynamics l) bytes base.
Proof.
  intros L Hb0 Hb Hlen. unfold element_words, MaxUint32. f_equal; f_equal; apply filter_all.
  - intros o Ho. destruct (proj1 (Forall_forall _ _) (lay_references _ L) o Ho) as [? ?]. unfold meets. by rewrite (proj2 (Z.ltb_lt _ _)), (proj2 (Z.ltb_lt _ _)) by lia.
  - intros d Hd. destruct (proj1 (Forall_forall _ _) (lay_dynamics _ L) d Hd) as [? ?]. unfold meets. by rewrite (proj2 (Z.ltb_lt _ _)), (proj2 (Z.ltb_lt _ _)) by lia.
Qed.

Lemma young_elements_spec n first l bytes page offset g :
  layout_ok l -> carded_page g page bytes -> 0 <= first -> 0 <= offset -> offset + (first + Z.of_nat n) * lstride l <= Z.of_nat (length bytes) ->
  resolves g (nonnull (words_between l bytes offset first (first + Z.of_nat n) 0 MaxUint32)) ->
  exists g', young_elements n first l bytes page offset g = (Ok tt, g') /\ carded g g'.
Proof.
  intros L. pose proof (lay_stride _ L) as Hst. revert first g. induction n as [|n IH]; intros first g Hp Hf Ho Hd Hr; [exists g; split; [done|apply carded_refl]|].
  pose proof Hp as (_ & Hlen & _).
  assert (0 <= first * lstride l /\ offset + first * lstride l + lstride l <= Z.of_nat (length bytes)) as [Hb0 Hb1].
  { replace ((first + Z.of_nat (S n)) * lstride l) with (first * lstride l + Z.of_nat n * lstride l + lstride l) in Hd by lia.
    assert (0 <= Z.of_nat n * lstride l) by (apply Z.mul_nonneg_nonneg; lia). split; [apply Z.mul_nonneg_nonneg; lia|lia]. }
  cbn [young_elements]. rewrite u32_id by lia. set (base := offset + first * lstride l).
  assert (0 <= base /\ base + lstride l <= Z.of_nat (length bytes)) as [? ?] by (unfold base; lia).
  assert (words_between l bytes offset first (first + Z.of_nat (S n)) 0 MaxUint32 =
    (ref_words (references l) bytes base ++ dyn_words (dynamics l) bytes base) ++ words_between l bytes offset (first + 1) (first + 1 + Z.of_nat n) 0 MaxUint32) as Ew.
  { unfold words_between. rewrite seqZ_cons by lia. cbn [map concat]. f_equal; [|do 3 f_equal; lia]. by apply element_words_all. }
  rewrite Ew, !nonnull_app in Hr. apply resolves_app in Hr as [[Hr1 Hr2]%resolves_app Hr3].
  destruct (young_references_spec (references l) bytes page base (lstride l) g) as (g1 & E1 & C1); [done|lia|lia|apply L|done|]. rewrite (gc_bind_ok _ _ _ _ _ E1).
  destruct (young_dynamics_spec (dynamics l) bytes page base (lstride l) g1) as (g2 & E2 & C2); [by eapply carded_page_kept|lia|lia|apply L|by eapply resolves_kept|].
  rewrite (gc_bind_ok _ _ _ _ _ E2). pose proof (carded_trans _ _ _ C1 C2) as C12.
  destruct (IH (first + 1) g2) as (g' & E' & C'); [by eapply carded_page_kept|lia|done|lia|by eapply resolves_kept|]. exists g'. split; [done|]. by eapply carded_trans.
Qed.

Lemma described_shaped a s e l p : described a s e = Some (l, p) -> shaped a s e = Some (l, p).
Proof.
  unfold described, shaped. destruct (layout _ =? 0); [done|]. destruct (nth_of (layouts a) _) as [l'|]; [|done]. cbn [mbind option_bind].
  destruct (lstride l' =? 0); [done|]. done.
Qed.

Lemma described_page a s e l p : described a s e = Some (l, p) -> 0 <= obj_page e /\ pages (mem a) !! Z.to_nat (obj_page e) = Some p.
Proof.
  unfold described. destruct (layout _ =? 0); [done|]. destruct (nth_of (layouts a) _) as [l'|]; [|done]. cbn [mbind option_bind]. destruct (lstride l' =? 0); [done|].
  destruct (nth_of (pages (mem a)) _) as [p'|] eqn:Ep; [|done]. cbn [mbind option_bind]. destruct (_ <? _); [done|]. intros E. injection E as -> ->. by apply nth_of_nat in Ep.
Qed.

(** The cards of an old object whose references resolve. *)
Lemma markYoungReferences_spec g s e l p :
  described (owner g) s e = Some (l, p) -> layout_ok l -> 0 <= count (meta (dir (owner g)) s) -> 0 <= obj_offset e -> Z.of_nat (length (data p)) < 2 ^ 32 ->
  Z.of_nat (length (data p)) <= managedCardBytes * Z.of_nat (length (cards p)) ->
  resolves g (children l (count (meta (dir (owner g)) s)) (data p) (obj_offset e)) ->
  exists g', markYoungReferences s e g = (Ok tt, g') /\ carded g g'.
Proof.
  intros Hd Hl Hc Ho Hlen Hcards Hr. unfold markYoungReferences. rewrite (described_shaped _ _ _ _ _ Hd). destruct (described_page _ _ _ _ _ Hd) as [Hp0 Hp].
  pose proof (described_bound _ _ _ _ _ Hd) as Hb.
  apply young_elements_spec; [done| |lia|done|rewrite Z2Nat.id by lia; lia|rewrite Z2Nat.id by lia; exact Hr]. split; [done|]. split; [done|]. by exists p.
Qed.

(** The references of an object depend on its payload only. *)
Lemma children_window l n bytes offset size :
  layout_ok l -> 0 <= n -> 0 <= offset -> offset + size <= Z.of_nat (length bytes) -> Z.of_nat (length bytes) < 2 ^ 32 -> n * lstride l <= size ->
  children l n bytes offset = children l n (window bytes offset size) 0.
Proof.
  intros L Hn Ho Hs Hlen Hfit. pose proof (lay_stride _ L) as Hst. unfold children. do 2 f_equal. unfold object_words, words_between. f_equal.
  apply map_ext_in. intros i Hi%list_elem_of_In%elem_of_seqZ. assert (0 <= i < n) as Hin by lia.
  assert (0 <= i * lstride l /\ i * lstride l + lstride l <= size) as [H0 H1] by nia.
  assert (0 <= size) as Hs0 by lia. pose proof (window_length bytes offset size Ho Hs0 Hs) as Hw.
  rewrite !element_words_all; [|done|lia|rewrite Hw; lia|rewrite Hw; lia|done|lia|lia|done].
  assert (forall x w, 0 <= x -> 0 <= w -> x + w <= size -> window (window bytes offset size) x w = window bytes (offset + x) w) as Hww.
  { intros x w Hx Hw0 Hxw. apply window_window; lia. }
  f_equal.
  - unfold ref_words. apply map_ext_in. intros o Ho'%list_elem_of_In. destruct (proj1 (Forall_forall _ _) (lay_references _ L) o Ho') as [? ?].
    rewrite Hww by lia. do 2 f_equal. lia.
  - unfold dyn_words. apply list_omap_ext. pose proof (lay_dynamics _ L) as Hd. induction Hd as [|d ds Hx _ IH]; constructor; [|done].
    rewrite !Hww by lia. replace (offset + (0 + i * lstride l + d + 4)) with (offset + i * lstride l + d + 4) by lia.
    replace (offset + (0 + i * lstride l + d + 8)) with (offset + i * lstride l + d + 8) by lia. done.
Qed.
