(* ===== verification/CollectorCopy.v ===== *)
(** * Copying the nursery (src/runtime/managed_gc.go)

    Marked young objects move to the partners of their pages or to old pages.  Every object keeps its
    generation, its size and its bytes; objects stay apart; the copies fit. *)

From S2P Require Import Prelude GoStd GoBytes Heap Allocator AllocatorSafe AllocatorRun Collector CollectorMark CollectorPages CollectorCards.
From stdpp Require Import relations.

#[local] Open Scope Z_scope.
#[local] Arguments Z.to_nat : simpl never.

(** ** One object moves *)

(** The object of [s] is copied to [e'], on a page whose metadata become [x']. *)
Record relocated (h : managedHeap) (g : paging) (s : Z) (e e' : managedObject) (p p' : managedPage) (x x' : pageMeta) (h' : managedHeap) (g' : paging) : Prop := {
  rl_keeps : obj_state e' = obj_state e /\ obj_generation e' = obj_generation e /\ obj_size e' = obj_size e;
  rl_numbers : 0 <= obj_page e' /\ 0 <= obj_offset e';
  rl_page : pages h !! Z.to_nat (obj_page e') = Some p /\ pmetas g !! Z.to_nat (obj_page e') = Some x;
  rl_segments : segments h' = segments (set_object s e' h);
  rl_pages : pages h' = <[Z.to_nat (obj_page e') := p']> (pages h);
  rl_data : exists b, content h e = Some b /\ data p' = list_inserts (Z.to_nat (obj_offset e')) b (data p) /\ cards p' = cards p;
  rl_metas : pmetas g' = <[Z.to_nat (obj_page e') := x']> (pmetas g) /\ freePages g' = freePages g /\ nurseryPages g' = nurseryPages g /\
    length (oldAvailable g') = length (oldAvailable g);
  rl_other : (obj_page e' ∉ freePages g) /\ (obj_page e' ∉ nurseryPages g);
  rl_fits : obj_offset e' + obj_size e' <= Z.of_nat (length (data p)) /\ (obj_young e' = false -> Z.of_nat (length (data p)) <= managedCardBytes * Z.of_nat (length (cards p)));
  rl_place : in_place s e' x';
  rl_apart : forall i f, lives h i f -> i <> s -> obj_page f = obj_page e' -> in_place i f x -> in_place i f x' /\ apart e' f
}.

Lemma content_length h e b : content h e = Some b -> 0 <= obj_offset e -> 0 <= obj_size e ->
  (forall p, pages h !! Z.to_nat (obj_page e) = Some p -> obj_offset e + obj_size e <= Z.of_nat (length (data p))) -> length b = Z.to_nat (obj_size e).
Proof.
  unfold content. destruct (pages h !! Z.to_nat (obj_page e)) as [p|]; [|done]. cbn. intros E H1 H2 H3. injection E as <-. apply window_length; [done|done|by apply H3].
Qed.

Lemma live_content h g s e : pages_ok h g -> lives h s e -> exists b, content h e = Some b /\ length b = Z.to_nat (obj_size e).
Proof.
  intros G Hs. destruct (pg_placed _ _ G s e Hs) as [(H1 & H2 & H3) (p & x & Hp & Hx & Hfit & _)]. unfold content. rewrite Hp. cbn. eexists. split; [done|]. by apply window_length.
Qed.

Section relocation.
  Context (h : managedHeap) (g : paging) (s : Z) (e e' : managedObject) (p p' : managedPage) (x x' : pageMeta) (h' : managedHeap) (g' : paging).
  Context (G : pages_ok h g) (Hs : lives h s e) (R : relocated h g s e e' p p' x x' h' g').

Lemma relocated_objects i : object h' i = if decide (i = s) then Some e' else object h i.
Proof using Hs R. rewrite (object_segments _ _ i (rl_segments _ _ _ _ _ _ _ _ _ _ _ R)). apply (object_set h s e). apply Hs. Qed.

Lemma relocated_lives i f : lives h' i f <-> i = s /\ f = e' \/ i <> s /\ lives h i f.
Proof using Hs R.
  unfold lives. rewrite relocated_objects. destruct (decide (i = s)) as [->|Hne].
  - split; [intros [E _]; injection E as <-; by left|]. intros [[_ ->]|[? _]]; [|done]. split; [done|]. unfold live. destruct (rl_keeps _ _ _ _ _ _ _ _ _ _ _ R) as [-> _]. apply Hs.
  - split; [by right|]. by intros [[? _]|[_ ?]].
Qed.

Lemma relocated_length : length (data p') = length (data p).
Proof using R. destruct (rl_data _ _ _ _ _ _ _ _ _ _ _ R) as (b & _ & -> & _). by rewrite length_inserts. Qed.

Lemma relocated_pages : pages_ok h' g'.
Proof using G Hs R.
  pose proof relocated_lives as Hl. pose proof relocated_length as Hlen. destruct R as [(K1 & K2 & K3) (N1 & N2) (P1 & P2) _ Ep Hd (M1 & M2 & M3 & M4) (O1 & O2) (F1 & F2) Pl Ap].
  destruct Hd as (b & _ & _ & Ec). pose proof (lookup_lt_Some _ _ _ P1) as Hlt. pose proof (pg_length _ _ G) as HL. set (q := Z.to_nat (obj_page e')) in *.
  assert (forall i, i <> q -> pages h' !! i = pages h !! i /\ pmetas g' !! i = pmetas g !! i) as Hoth by (intros; rewrite Ep, M1; by rewrite !list_lookup_insert_ne).
  assert (pages h' !! q = Some p') as Hp' by (rewrite Ep; by apply list_lookup_insert_eq).
  assert (pmetas g' !! q = Some x') as Hx' by (rewrite M1; apply list_lookup_insert_eq; lia).
  assert (0 <= obj_size e') as Hsz by (rewrite K3; apply (pg_placed _ _ G s e Hs)).
  split; rewrite ?M2, ?M3, ?M4, ?Ep; try apply G.
  - rewrite M1, !length_insert. done.
  - intros i r Hr. destruct (decide (i = q)) as [->|Hne]; [rewrite list_lookup_insert_eq in Hr by done; injection Hr as <-; rewrite Hlen; by eapply pg_bytes|].
    rewrite list_lookup_insert_ne in Hr by done. by eapply pg_bytes.
  - intros id Hid. destruct (pg_free _ _ G id Hid) as (H1 & H2 & H3). rewrite length_insert. split; [done|]. split; [done|].
    intros i f [(-> & ->)|(_ & Hf)]%Hl; [by intros <-|by apply (H3 i)].
  - intros id Hid. destruct (pg_nursery _ _ G id Hid) as (H1 & r & y & H2). split; [done|]. exists r, y. rewrite <- Ep. destruct (Hoth (Z.to_nat id)) as [-> ->]; [|done].
    intros E. apply O2. assert (id = obj_page e') as <- by lia. done.
  - intros i f Hf. apply Hl in Hf as [(-> & ->)|(Hne & Hf)].
    + split; [lia|]. exists p', x'. fold q. rewrite Hlen, Ec. done.
    + destruct (pg_placed _ _ G i f Hf) as [Hn (r & y & Hr & Hy & H1 & H2 & H3)]. split; [done|]. destruct (decide (Z.to_nat (obj_page f) = q)) as [E|Hne'].
      * assert (obj_page f = obj_page e') as Epg by lia. rewrite E in *. assert (r = p) as -> by congruence. assert (y = x) as -> by congruence.
        exists p', x'. split; [done|]. split; [done|]. rewrite Hlen, Ec. split; [done|]. split; [done|]. by apply (Ap i).
      * exists r, y. destruct (Hoth _ Hne') as [-> ->]. done.
  - assert (forall i f, i <> s -> lives h i f -> apart e' f) as Hap.
    { intros i f Hne Hf. destruct (decide (obj_page f = obj_page e')) as [E|Hd]; [|left; congruence].
      destruct (pg_placed _ _ G i f Hf) as [_ (r & y & _ & Hy & _ & _ & Hin)]. rewrite E in Hy. fold q in Hy. assert (y = x) as -> by congruence. by apply (Ap i f). }
    intros s1 s2 e1 e2 [(-> & ->)|(N1' & H1)]%Hl [(-> & ->)|(N2' & H2)]%Hl Hne; [done|by eapply Hap| |by apply (pg_apart _ _ G s1 s2)].
    destruct (Hap _ _ N1' H1) as [?|[?|?]]; [left; congruence|right; by right|right; by left].
Qed.

Lemma relocated_content : content h' e' = content h e /\ forall i f, lives h i f -> i <> s -> content h' f = content h f.
Proof using G Hs R.
  pose proof relocated_pages as G'. pose proof relocated_length as Hlen. destruct (live_content _ _ _ _ G Hs) as (b & Hb & Hbl).
  destruct (pg_placed _ _ G s e Hs) as [(_ & _ & Hsz) _].
  destruct (rl_data _ _ _ _ _ _ _ _ _ _ _ R) as (b' & Hb' & Hd & _). assert (b' = b) as -> by congruence. destruct (rl_keeps _ _ _ _ _ _ _ _ _ _ _ R) as (_ & _ & K3).
  destruct (rl_fits _ _ _ _ _ _ _ _ _ _ _ R) as [Hf _], (rl_numbers _ _ _ _ _ _ _ _ _ _ _ R) as [_ Ho]. destruct (rl_page _ _ _ _ _ _ _ _ _ _ _ R) as [Hp _].
  split.
  - rewrite Hb. unfold content. rewrite (rl_pages _ _ _ _ _ _ _ _ _ _ _ R), list_lookup_insert_eq by by eapply lookup_lt_Some. cbn. rewrite Hd, K3. f_equal.
    pose proof (window_inserts_same (data p) (obj_offset e') b) as Hw. rewrite Hbl, Z2Nat.id in Hw by done. apply Hw; [lia|]. lia.
  - intros i f Hi Hne. eapply (content_kept h h' g' s e' i f p p'); try done; [by apply relocated_lives; left|by apply relocated_lives; right|apply R|].
    intros j Hj. rewrite Hd. apply inserts_outside. rewrite Hbl. lia.
Qed.

End relocation.

(** ** The pages of old objects *)

Lemma relocated_old h g s e e' p p' x x' h' g' :
  pages_ok h g -> lives h s e -> relocated h g s e e' p p' x x' h' g' -> old_ok h g ->
  kind x' = kind x -> pclass x' = pclass x -> resident x' = resident x -> kind x <> managedLargePage ->
  (kind x = managedOldPage -> obj_offset e' mod pclass x = 0 /\ forall k, cells_ok p x k -> cells_ok p' x' k) ->
  (forall i l, oldAvailable g' !! i = Some l -> exists l0, oldAvailable g !! i = Some l0 /\ l ⊆ l0) -> old_ok h' g'.
Proof.
  intros G Hs R O Ek Ec Er Hlg Hold Hav. pose proof (relocated_lives _ _ _ _ _ _ _ _ _ _ _ Hs R) as Hl.
  destruct R as [(K1 & K2 & K3) (N1 & N2) (P1 & P2) _ Ep _ (M1 & M2 & M3 & M4) _ _ _ _]. set (q := Z.to_nat (obj_page e')) in *. pose proof (lookup_lt_Some _ _ _ P2) as Hlt. pose proof (lookup_lt_Some _ _ _ P1) as Hlt'.
  assert (forall j y, pmetas g' !! j = Some y -> exists y0, pmetas g !! j = Some y0 /\ kind y = kind y0 /\ pclass y = pclass y0 /\ resident y = resident y0 /\ (y = y0 \/ j = q /\ y = x' /\ y0 = x)) as Hm.
  { intros j y Hy. rewrite M1 in Hy. destruct (decide (j = q)) as [->|Hne].
    - rewrite list_lookup_insert_eq in Hy by done. injection Hy as <-. exists x. repeat (split; [done|]). by right.
    - rewrite list_lookup_insert_ne in Hy by done. exists y. repeat (split; [done|]). by left. }
  assert (forall j y, pmetas g !! j = Some y -> exists y1, pmetas g' !! j = Some y1 /\ kind y1 = kind y /\ pclass y1 = pclass y) as Hm'.
  { intros j y Hy. rewrite M1. destruct (decide (j = q)) as [->|Hne].
    - exists x'. rewrite list_lookup_insert_eq by done. assert (y = x) as -> by congruence. done.
    - exists y. by rewrite list_lookup_insert_ne. }
  split.
  - intros i f [(-> & ->)|(_ & Hf)]%Hl; [rewrite K3|]; by eapply oo_size.
  - intros i f y Hf Ey Hy. apply Hl in Hf as [(-> & ->)|(Hne & Hf)].
    + fold q in Hy. destruct (Hm _ _ Hy) as (y0 & Hy0 & -> & -> & _). assert (y0 = x) as -> by congruence. split; [done|]. intros Hk. by apply Hold.
    + destruct (Hm _ _ Hy) as (y0 & Hy0 & -> & -> & _ & Hor). destruct (oo_old _ _ O i f y0 Hf Ey Hy0) as [H1 H2]. split; [|done]. intros Hk. destruct Hor as [->|(_ & _ & ->)]; [by apply H1|done].
  - intros j r y Hr Hy Hk. destruct (Hm _ _ Hy) as (y0 & Hy0 & Eky & _ & _ & Hor). rewrite Eky in Hk. rewrite Ep in Hr. destruct (decide (j = q)) as [->|Hne].
    + rewrite list_lookup_insert_eq in Hr by done. injection Hr as <-. assert (y0 = x) as -> by congruence. assert (y = x') as ->.
      { rewrite M1, list_lookup_insert_eq in Hy by done. congruence. }
      destruct (oo_cells _ _ O q p x P1 P2 Hk) as [k Hce]. exists k. by apply Hold.
    + rewrite list_lookup_insert_ne in Hr by done. destruct Hor as [->|(? & _)]; [by eapply (oo_cells _ _ O j)|done].
  - intros i l id Hi Hid. destruct (Hav i l Hi) as (l0 & Hl0 & Hsub). destruct (oo_available _ _ O i l0 id Hl0 (Hsub _ Hid)) as (H0 & y & Hy & Hky & Hcy).
    split; [done|]. destruct (Hm' _ _ Hy) as (y1 & Hy1 & E1 & E2). exists y1. by rewrite E1, E2.
  - intros id Hid. rewrite M2 in Hid. destruct (oo_free _ _ O id Hid) as (y & Hy & Hk). destruct (Hm' _ _ Hy) as (y1 & Hy1 & E1 & _). exists y1. by rewrite E1.
  - intros j y Hy. destruct (Hm _ _ Hy) as (y0 & Hy0 & _ & _ & -> & _). by eapply oo_resident.
Qed.

(** ** The copying phase *)

(** What copying relies on, once the partners are open. *)
Record copyable (a0 : allocator) (ep : Z) : Prop := {
  cy_dir : dir_ok (mem a0) (dir a0);
  cy_pages : pages_ok (mem a0) (pgs a0);
  cy_old : old_ok (mem a0) (pgs a0);
  cy_ledger : ledger_ok a0;
  cy_published : forall s e, lives (mem a0) s e -> obj_state e = managedPublished;
  cy_nodup : NoDup (nurseryPages (pgs a0));
  cy_young : forall s e, lives (mem a0) s e -> obj_young e = true -> obj_page e ∈ nurseryPages (pgs a0);
  cy_partner : forall id x, id ∈ nurseryPages (pgs a0) -> pmetas (pgs a0) !! Z.to_nat id = Some x ->
    0 <= partner x /\ (partner x ∉ nurseryPages (pgs a0)) /\ (partner x ∉ freePages (pgs a0)) /\
    exists p y, pages (mem a0) !! Z.to_nat (partner x) = Some p /\ pmetas (pgs a0) !! Z.to_nat (partner x) = Some y /\
      Z.of_nat (length (data p)) = managedPageBytes /\ kind y = managedYoungPage /\ used y = 0;
  cy_inj : forall id id' x x', id ∈ nurseryPages (pgs a0) -> id' ∈ nurseryPages (pgs a0) -> pmetas (pgs a0) !! Z.to_nat id = Some x ->
    pmetas (pgs a0) !! Z.to_nat id' = Some x' -> partner x = partner x' -> id = id';
  cy_graph : forall s e, object (mem a0) s = Some e -> obj_state e = managedPublished -> marked (meta (dir a0) s) = ep ->
    exists l p, described a0 s e = Some (l, p) /\ layout_ok l /\ 0 <= count (meta (dir a0) s) /\ count (meta (dir a0) s) * lstride l <= obj_size e /\
      forall ref, ref ∈ children l (count (meta (dir a0) s)) (data p) (obj_offset e) -> exists f, resolveObject (mem a0) ref = Ok f
}.

(** The bytes of the objects of [l] on a page. *)
Definition size_on (h : managedHeap) (id : Z) (s : Z) : Z :=
  match object h s with Some e => if obj_page e =? id then obj_size e else 0 | None => 0 end.
Definition bytes_on (h : managedHeap) (id : Z) (l : list Z) : Z := sum (map (size_on h id) l).

Definition young_in (h : managedHeap) (s : Z) : bool := match object h s with Some e => obj_young e | None => false end.

Definition young_sum (a : allocator) (l : list Z) : Z := sum (map (fun s => if young_in (mem a) s then logical (meta (dir a) s) else 0) l).

Definition with_young_bytes (n : Z) (l : ledger) : ledger :=
  mkLedger (occupiedBytes l) (reservedBytes l) (residentPageBytes l) (totalAllocatedBytes l) (allocations l) (reclaimedBytes l) n (controlBytes l) (unpublished l) (collectionRequested l).

(** [e] is [e0], possibly elsewhere. *)
Definition kin (e0 e : managedObject) : Prop :=
  obj_state e = obj_state e0 /\ obj_generation e = obj_generation e0 /\ obj_size e = obj_size e0 /\ (obj_young e = true -> obj_young e0 = true).

Lemma kin_refl e : kin e e.
Proof. by repeat split. Qed.

(** The object was moved by this collection, or waits for it, or stays. *)
Record carried (a0 : allocator) (ep : Z) (rest : list Z) (h : managedHeap) (s : Z) (e0 e : managedObject) : Prop := {
  ca_kin : kin e0 e;
  ca_content : live e0 -> content h e = content (mem a0) e0;
  ca_stays : s ∈ rest \/ marked (meta (dir a0) s) <> ep \/ obj_young e0 = false \/ ~ live e0 -> e = e0;
  ca_moved : live e0 -> marked (meta (dir a0) s) = ep -> s ∉ rest -> obj_young e = true ->
    exists id x, id ∈ nurseryPages (pgs a0) /\ pmetas (pgs a0) !! Z.to_nat id = Some x /\ obj_page e = partner x
}.

(** [a0] after the objects of [youngSlots] that are not in [rest] have moved. *)
Record copying (ep : Z) (g0 : collector) (rest : list Z) (g : collector) : Prop := {
  cp_gc : epoch g = ep /\ poisonCollected g = poisonCollected g0 /\ totals g = totals g0 /\ reachableBytes (counts g) = reachableBytes (counts g0);
  cp_fixed : conf (owner g) = conf (owner g0) /\ caps (owner g) = caps (owner g0) /\ layouts (owner g) = layouts (owner g0) /\
    layoutOwners (owner g) = layoutOwners (owner g0) /\ reservations (owner g) = reservations (owner g0) /\ controls (owner g) = controls (owner g0);
  cp_dir : freeSlots (dir (owner g)) = freeSlots (dir (owner g0)) /\ occupied (dir (owner g)) = occupied (dir (owner g0)) /\
    youngSlots (dir (owner g)) = youngSlots (dir (owner g0)) /\ nextSlot (dir (owner g)) = nextSlot (dir (owner g0));
  cp_meta : forall s, with_age 0 (meta (dir (owner g)) s) = with_age 0 (meta (dir (owner g0)) s);
  cp_ledger : led (owner g) = with_young_bytes (young_sum (owner g) (youngSlots (dir (owner g0)))) (led (owner g0));
  cp_full : full_segments (mem (owner g)) /\ forall s, object (mem (owner g0)) s = None -> object (mem (owner g)) s = None;
  cp_objects : forall s e0, object (mem (owner g0)) s = Some e0 -> exists e, object (mem (owner g)) s = Some e /\ carried (owner g0) ep rest (mem (owner g)) s e0 e;
  cp_pages : pages_ok (mem (owner g)) (pgs (owner g));
  cp_old : old_ok (mem (owner g)) (pgs (owner g));
  cp_from : freePages (pgs (owner g)) = freePages (pgs (owner g0)) /\ nurseryPages (pgs (owner g)) = nurseryPages (pgs (owner g0)) /\
    nurseryCapacity (pgs (owner g)) = nurseryCapacity (pgs (owner g0)) /\
    forall id, id ∈ nurseryPages (pgs (owner g0)) -> pmetas (pgs (owner g)) !! Z.to_nat id = pmetas (pgs (owner g0)) !! Z.to_nat id;
  cp_to : forall id x, id ∈ nurseryPages (pgs (owner g0)) -> pmetas (pgs (owner g0)) !! Z.to_nat id = Some x ->
    exists p y, pages (mem (owner g)) !! Z.to_nat (partner x) = Some p /\ pmetas (pgs (owner g)) !! Z.to_nat (partner x) = Some y /\
      Z.of_nat (length (data p)) = managedPageBytes /\ kind y = managedYoungPage /\ used y mod 8 = 0 /\ 0 <= used y /\
      used y + bytes_on (mem (owner g0)) id rest <= managedPageBytes;
  cp_length : length (pages (mem (owner g))) = length (pages (mem (owner g0)));
  cp_resident : forall i, resident <$> pmetas (pgs (owner g)) !! i = resident <$> pmetas (pgs (owner g0)) !! i
}.

Lemma with_age_fields x y : with_age 0 x = with_age 0 y ->
  layout x = layout y /\ count x = count y /\ logical x = logical y /\ marked x = marked y /\ occupiedIndex x = occupiedIndex y /\ youngIndex x = youngIndex y.
Proof. destruct x, y. unfold with_age. cbn. intros H. injection H as -> -> -> -> -> ->. done. Qed.

(** A sum in which one term changes. *)
Lemma sum_point (f f' : Z -> Z) s l : NoDup l -> s ∈ l -> (forall i, i <> s -> f' i = f i) -> sum (map f' l) = sum (map f l) - f s + f' s.
Proof.
  intros Hnd Hs Hf. apply elem_of_Permutation in Hs as [k Hk]. rewrite !(sum_perm (map _ l) (map _ (s :: k))) by by apply fmap_Permutation.
  rewrite Hk in Hnd. apply NoDup_cons in Hnd as [Hn _]. cbn [map sum foldr]. fold (sum (map f k)) (sum (map f' k)). rewrite (sum_kept f f' s k Hn Hf). lia.
Qed.

(** The young bytes counted so far fit a word. *)
Lemma young_sum_bounds ep g0 rest g : copyable (owner g0) ep -> copying ep g0 rest g ->
  (forall s, 0 <= logical (meta (dir (owner g)) s)) /\ 0 <= young_sum (owner g) (youngSlots (dir (owner g0))) < 2 ^ 63.
Proof.
  intros Y C. pose proof (cy_ledger _ _ Y) as L. assert (forall s, logical (meta (dir (owner g)) s) = logical (meta (dir (owner g0)) s)) as El.
  { intros s. by apply with_age_fields, C. }
  assert (forall s, 0 <= logical (meta (dir (owner g)) s)) as H0 by (intros s; rewrite El; apply L). split; [done|]. unfold young_sum.
  pose proof (young_bytes_le _ (cy_dir _ _ Y) L) as Hy. pose proof (led_young _ L) as Hly. pose proof (led_word _ L) as Hw. pose proof (ledger_nonneg _ L) as (_ & Hr & _). pose proof (led_control _ L).
  unfold MaxInt64 in Hw. revert Hly. generalize (youngSlots (dir (owner g0))). intros l Hly.
  enough (0 <= sum (map (fun s => if young_in (mem (owner g)) s then logical (meta (dir (owner g)) s) else 0) l) <= sum (map (fun s => logical (meta (dir (owner g0)) s)) l)) by lia.
  clear -El H0. induction l as [|s l IH]; [done|]. cbn [map sum foldr]. rewrite <- El. specialize (H0 s). unfold sum in IH. destruct (young_in (mem (owner g)) s); lia.
Qed.

(** The part of a step that concerns objects and pages. *)
Lemma carried_other ep a0 s rest h h' i f0 f :
  i <> s \/ marked (meta (dir a0) s) <> ep -> content h' f = content h f \/ ~ live f0 -> carried a0 ep (s :: rest) h i f0 f -> carried a0 ep rest h' i f0 f.
Proof.
  intros Hne Hc [K Co St Mo]. split; [done|..].
  - intros Hf. destruct Hc as [->|?]; [by apply Co|done].
  - intros [Hi|Hr]; apply St; [left; by right|by right].
  - intros Hf Hm Hr. destruct Hne as [Hne|Hne]; [|destruct (decide (i = s)) as [->|Hne']; [done|]]; (apply Mo; [done|done|]; by intros [?|?]%elem_of_cons).
Qed.

Lemma copying_moved ep g0 s rest g g' e e' p p' x x' :
  copyable (owner g0) ep -> copying ep g0 (s :: rest) g -> s ∉ rest -> s ∈ youngSlots (dir (owner g0)) ->
  object (mem (owner g0)) s = Some e -> live e -> obj_young e = true -> marked (meta (dir (owner g0)) s) = ep ->
  relocated (mem (owner g)) (pgs (owner g)) s e e' p p' x x' (mem (owner g')) (pgs (owner g')) -> old_ok (mem (owner g')) (pgs (owner g')) ->
  kind x' = kind x -> resident x' = resident x ->
  (if obj_young e' then exists id y, id ∈ nurseryPages (pgs (owner g0)) /\ pmetas (pgs (owner g0)) !! Z.to_nat id = Some y /\ obj_page e = id /\ obj_page e' = partner y /\ used x' = used x + obj_size e
   else kind x = managedOldPage) ->
  epoch g' = ep /\ poisonCollected g' = poisonCollected g0 /\ totals g' = totals g0 /\ reachableBytes (counts g') = reachableBytes (counts g0) ->
  conf (owner g') = conf (owner g0) /\ caps (owner g') = caps (owner g0) /\ layouts (owner g') = layouts (owner g0) /\
    layoutOwners (owner g') = layoutOwners (owner g0) /\ reservations (owner g') = reservations (owner g0) /\ controls (owner g') = controls (owner g0) ->
  freeSlots (dir (owner g')) = freeSlots (dir (owner g0)) /\ occupied (dir (owner g')) = occupied (dir (owner g0)) /\
    youngSlots (dir (owner g')) = youngSlots (dir (owner g0)) /\ nextSlot (dir (owner g')) = nextSlot (dir (owner g0)) ->
  (forall i, with_age 0 (meta (dir (owner g')) i) = with_age 0 (meta (dir (owner g)) i)) ->
  led (owner g') = (if obj_young e' then led (owner g) else add_young (- logical (meta (dir (owner g)) s)) (led (owner g))) ->
  nurseryCapacity (pgs (owner g')) = nurseryCapacity (pgs (owner g)) -> copying ep g0 rest g'.
Proof.
  intros Y C Hnr Hys He Hl Hy Hmk R O' Ek Er Hto Egc Efix Edir Emeta Eled Ecap.
  destruct (cp_objects _ _ _ _ C s e He) as (e1 & He1 & Cs). assert (e1 = e) as -> by (apply Cs; left; by left). assert (lives (mem (owner g)) s e) as Hs by done.
  pose proof (cp_pages _ _ _ _ C) as G. pose proof (relocated_objects _ _ _ _ _ _ _ _ _ _ _ Hs R) as Ho. pose proof (relocated_pages _ _ _ _ _ _ _ _ _ _ _ G Hs R) as G'.
  destruct (relocated_content _ _ _ _ _ _ _ _ _ _ _ G Hs R) as [Hc1 Hc2]. pose proof (relocated_length _ _ _ _ _ _ _ _ _ _ _ R) as Hlen.
  destruct R as [(K1 & K2 & K3) (N1 & N2) (P1 & P2) Es Ep _ (M1 & M2 & M3 & M4) (O1 & O2) (F1 & F2) Pl Ap]. set (q := Z.to_nat (obj_page e')) in *.
  pose proof (lookup_lt_Some _ _ _ P1) as Hlt. pose proof (lookup_lt_Some _ _ _ P2) as Hlt2.
  assert (forall i, i <> q -> pages (mem (owner g')) !! i = pages (mem (owner g)) !! i /\ pmetas (pgs (owner g')) !! i = pmetas (pgs (owner g)) !! i) as Hoth
    by (intros; rewrite Ep, M1; by rewrite !list_lookup_insert_ne).
  destruct (cp_from _ _ _ _ C) as (C1 & C2 & C3 & C4). assert (forall s, with_age 0 (meta (dir (owner g')) s) = with_age 0 (meta (dir (owner g0)) s)) as Em by (intros i; by rewrite Emeta, (cp_meta _ _ _ _ C)).
  split; [done|done|done|done| |split| |done|done|split; [congruence|split; [congruence|split; [congruence|]]]| | |].
  - rewrite Eled. destruct (young_sum_bounds _ _ _ _ Y C) as [Hn0 Hb]. rewrite (cp_ledger _ _ _ _ C).
    assert (young_sum (owner g') (youngSlots (dir (owner g0))) = young_sum (owner g) (youngSlots (dir (owner g0))) - (if obj_young e' then 0 else logical (meta (dir (owner g)) s))) as Hsum.
    { unfold young_sum. rewrite (sum_point (fun s => if young_in (mem (owner g)) s then logical (meta (dir (owner g)) s) else 0) _ s); [|by eapply occupied_nodup, Y|done|].
      - unfold young_in. rewrite (Ho s), decide_True, He1, Hy by done. pose proof (with_age_fields _ _ (Emeta s)) as (_ & _ & -> & _). destruct (obj_young e'); lia.
      - intros i Hi. unfold young_in. rewrite Ho, decide_False by done. by pose proof (with_age_fields _ _ (Emeta i)) as (_ & _ & -> & _). }
    destruct (obj_young e'); [rewrite Hsum; f_equal; lia|]. unfold add_young, with_young_bytes. cbn. f_equal. rewrite Hsum.
    assert (0 <= young_sum (owner g') (youngSlots (dir (owner g0)))) as H0'.
    { apply sum_nonneg, Forall_map, Forall_forall. intros i _. destruct (young_in (mem (owner g')) i); [|lia]. pose proof (with_age_fields _ _ (Emeta i)) as (_ & _ & -> & _). apply Hn0. }
    specialize (Hn0 s). rewrite u64_id by lia. lia.
  - unfold full_segments. rewrite Es. apply full_set_object, C.
  - intros i Hi. rewrite Ho, decide_False; [by apply C|]. intros ->. congruence.
  - intros i f0 Hf0. rewrite Ho. destruct (decide (i = s)) as [->|Hne].
    + assert (f0 = e) as -> by congruence. exists e'. split; [done|]. split.
      * split; [done|]. split; [done|]. split; [done|]. done.
      * intros _. rewrite Hc1. by apply Cs.
      * intros [?|[?|[?|?]]]; [done|done|congruence|done].
      * intros _ _ _ Hye. rewrite Hye in Hto. destruct Hto as (id & y & H1 & H2 & _ & H3 & _). by exists id, y.
    + destruct (cp_objects _ _ _ _ C i f0 Hf0) as (f & Hf & Cf). exists f. split; [done|]. eapply (carried_other ep (owner g0) s rest (mem (owner g))); [by left| |done].
      destruct (decide (obj_state f0 = managedFree)) as [Hfr|Hnf]; [right; unfold live; tauto|left]. apply (Hc2 i); [|done]. split; [done|]. unfold live. destruct (ca_kin _ _ _ _ _ _ _ Cf) as (-> & _). done.
  - intros id Hid. rewrite <- (C4 id Hid). apply Hoth. intros E. apply O2. rewrite C2. assert (id = obj_page e') as <-; [|done]. destruct (pg_nursery _ _ G id) as (? & _); [by rewrite C2|]. lia.
  - intros id y Hid Hyi. destruct (cp_to _ _ _ _ C id y Hid Hyi) as (r & z & Hr & Hz & H1 & H2 & H3 & H4 & H5).
    assert (bytes_on (mem (owner g0)) id (s :: rest) = size_on (mem (owner g0)) id s + bytes_on (mem (owner g0)) id rest) as Eb by done.
    assert (0 <= obj_size e) as Hsz by apply (pg_placed _ _ G s e Hs).
    assert (0 <= size_on (mem (owner g0)) id s) as Hso by (unfold size_on; rewrite He; destruct (obj_page e =? id); lia).
    destruct (decide (Z.to_nat (partner y) = q)) as [E|Hne].
    + rewrite E in Hr, Hz. assert (r = p) as -> by congruence. assert (z = x) as -> by congruence. exists p', x'. rewrite E, Ep, M1, !list_lookup_insert_eq by done.
      rewrite Hlen, Ek. repeat (split; [done|]). destruct (obj_young e'); [|congruence]. destruct Hto as (id' & y' & Hid' & Hy' & Hpe & Hpe' & Hu).
      destruct (cy_partner _ _ Y id y Hid Hyi) as (Hpn & _). assert (id' = id) as -> by (apply (cy_inj _ _ Y id' id y' y); try done; lia).
      assert (size_on (mem (owner g0)) id s = obj_size e) as Es' by (unfold size_on; by rewrite He, Hpe, Z.eqb_refl).
      destruct (oo_size _ _ (cp_old _ _ _ _ C) s e Hs) as [Hm8 _]. rewrite Hu. split; [rewrite Z.add_mod, H3, Hm8 by lia; done|]. lia.
    + exists r, z. destruct (Hoth _ Hne) as [-> ->]. repeat (split; [done|]). lia.
  - by rewrite Ep, length_insert, (cp_length _ _ _ _ C).
  - intros i. rewrite <- (cp_resident _ _ _ _ C). destruct (decide (i = q)) as [->|Hne]; [|by rewrite (proj2 (Hoth i Hne))]. rewrite M1, list_lookup_insert_eq, P2 by done. cbn. by rewrite Er.
Qed.

(** An object that was not marked stays. *)
Lemma copying_skip ep g0 s rest g : copying ep g0 (s :: rest) g -> marked (meta (dir (owner g0)) s) <> ep ->
  (forall id, 0 <= size_on (mem (owner g0)) id s) -> copying ep g0 rest g.
Proof.
  intros [] Hm Hs. split; try done.
  - intros i e0 Hi. destruct (cp_objects0 i e0 Hi) as (e & He & Ce). exists e. split; [done|]. eapply carried_other; [by right|by left|done].
  - intros id x Hid Hx. destruct (cp_to0 id x Hid Hx) as (p & y & H1 & H2 & H3 & H4 & H5 & H6 & H7). exists p, y. repeat (split; [done|]).
    assert (bytes_on (mem (owner g0)) id (s :: rest) = size_on (mem (owner g0)) id s + bytes_on (mem (owner g0)) id rest) as Eb by done. specialize (Hs id). lia.
Qed.

(** Pages leave the lists of pages with free cells. *)
Lemma copying_available ep g0 rest g i l l0 :
  copying ep g0 rest g -> oldAvailable (pgs (owner g)) !! Z.to_nat i = Some l0 -> l ⊆ l0 -> copying ep g0 rest (set_owner (set_available i l) g).
Proof.
  intros [] Hl Hsub. split; try done; cbn [set_owner set_available owner set_pgs mem pgs] in *.
  - destruct cp_pages0 as [G1 G2 G3 G4 G5 G6 G7 G8]. split; try done; [cbn; by rewrite length_insert|]. intros s e Hs. destruct (G7 s e Hs). by split.
  - destruct cp_old0 as [O1 O2 O3 O4 O5 O6]. split; try done. cbn. intros j k id Hj Hid. destruct (decide (j = Z.to_nat i)) as [->|Hne].
    + rewrite list_lookup_insert_eq in Hj by by eapply lookup_lt_Some. injection Hj as ->. eapply O4; [exact Hl|by apply Hsub].
    + rewrite list_lookup_insert_ne in Hj by done. by eapply O4.
Qed.

Lemma same_bytes_old h h' g : same_bytes h h' -> old_ok h g -> old_ok h' g.
Proof.
  intros S [O1 O2 O3 O4 O5 O6]. pose proof (fun s e => lives_segments h h' s e (sb_segments _ _ S)) as Hl. split; try done.
  - intros s e Hs. by apply (O1 s), Hl.
  - intros s e x Hs. by apply (O2 s), Hl.
  - intros id p' x Hp' Hx Hk. destruct (pages h !! id) as [p|] eqn:Hp.
    + destruct (sb_pages _ _ S id p Hp) as (p1 & Hp1 & Ed & Ec). assert (p1 = p') as -> by congruence. destruct (O3 id p x Hp Hx Hk) as [k []]. exists k. split; try done. by rewrite Ed, Ec.
    + apply lookup_ge_None in Hp. apply lookup_lt_Some in Hp'. rewrite (sb_length _ _ S) in Hp'. lia.
Qed.

(** Cards change. *)
Lemma copying_carded ep g0 rest g g' : copying ep g0 rest g -> carded g g' -> copying ep g0 rest g'.
Proof.
  intros [] (h & S & ->). pose proof (sb_segments _ _ S) as Es. split; try done; cbn [set_owner owner set_mem mem dir led pgs] in *.
  - rewrite cp_ledger0 at 1. f_equal. unfold young_sum. apply sum_map_ext. intros s _. unfold young_in. cbn. by rewrite (object_segments _ _ s Es).
  - unfold full_segments. rewrite Es. split; [apply cp_full0|]. intros s Hs. rewrite (object_segments _ _ s Es). by apply cp_full0.
  - intros s e0 He0. destruct (cp_objects0 s e0 He0) as (e & He & []). exists e. rewrite (object_segments _ _ s Es). split; [done|]. split; try done. rewrite (same_bytes_content _ _ e S). done.
  - by eapply same_bytes_pages_ok.
  - by eapply same_bytes_old.
  - intros id x Hid Hx. destruct (cp_to0 id x Hid Hx) as (p & y & H1 & H2 & H3). destruct (sb_pages _ _ S _ _ H1) as (p' & Hp' & Ed & _). exists p', y. by rewrite Ed.
  - by rewrite (sb_length _ _ S).
Qed.

(** ** A copy in the nursery *)

Lemma align_aligned u : 0 <= u -> u mod 8 = 0 -> u + 7 < 2 ^ 32 -> Z.ldiff (u32 (u + 7)) 7 = u.
Proof.
  intros H0 Hm Hb. rewrite u32_id by lia. change 7 with (Z.ones 3) at 2. rewrite Z.ldiff_ones_r, Z.shiftr_div_pow2, Z.shiftl_mul_pow2 by lia. change (2 ^ 3) with 8.
  rewrite (Z.div_mod u 8) at 1 by lia. rewrite Hm. replace (8 * (u / 8) + 0 + 7) with (7 + (u / 8) * 8) by lia. rewrite Z.div_add by lia. change (7 / 8) with 0. pose proof (Z.div_mod u 8). lia.
Qed.

Lemma size_on_nonneg a0 ep id t : copyable a0 ep -> t ∈ youngSlots (dir a0) -> 0 <= size_on (mem a0) id t.
Proof.
  intros Y [i Hi]%list_elem_of_lookup. destruct (dir_young _ _ (cy_dir _ _ Y) i t Hi) as (_ & e & He & Hst & _). unfold size_on. rewrite He.
  destruct (obj_page e =? id); [|lia]. apply (pg_placed _ _ (cy_pages _ _ Y) t e). by apply published_live.
Qed.

(** What is known of the object that moves next. *)
Record moving (ep : Z) (g0 : collector) (s : Z) (rest : list Z) (g : collector) (e : managedObject) : Prop := {
  mv_copyable : copyable (owner g0) ep;
  mv_copying : copying ep g0 (s :: rest) g;
  mv_fresh : s ∉ rest;
  mv_slot : s ∈ youngSlots (dir (owner g0));
  mv_rest : forall t, t ∈ rest -> t ∈ youngSlots (dir (owner g0));
  mv_object : object (mem (owner g0)) s = Some e;
  mv_live : live e;
  mv_young : obj_young e = true;
  mv_marked : marked (meta (dir (owner g0)) s) = ep
}.

Lemma moving_same ep g0 s rest g e : moving ep g0 s rest g e -> object (mem (owner g)) s = Some e.
Proof. intros [Y C Hn Hs _ He Hl Hy Hm]. destruct (cp_objects _ _ _ _ C s e He) as (e1 & He1 & Cs). rewrite He1. f_equal. apply Cs. left. by left. Qed.

Lemma moving_other ep g0 s rest g g' e : moving ep g0 s rest g e -> copying ep g0 (s :: rest) g' -> moving ep g0 s rest g' e.
Proof. by intros [] C. Qed.

Definition evacuated (s q offset : Z) (e : managedObject) (bytes : gostring) (a : allocator) : allocator :=
  update_page q (fun x => with_kind (kind x) (u32 (offset + obj_size e)) x)
    (update_meta s (fun x => with_age (u8 (age x + 1)) x)
       (set_mem (set_object s (mkObject (obj_state e) (obj_generation e) q offset (obj_size e) true) (set_data (mem a) q bytes)) a)).

Lemma content_window h e p b : pages h !! Z.to_nat (obj_page e) = Some p -> content h e = Some b -> b = window (data p) (obj_offset e) (obj_size e).
Proof. intros Hp. unfold content. rewrite Hp. cbn. congruence. Qed.

Lemma evacuate_spec ep g0 s rest g e x :
  moving ep g0 s rest g e -> pmetas (pgs (owner g0)) !! Z.to_nat (obj_page e) = Some x ->
  exists g', evacuate s (obj_page e) (partner x) g = (Ok tt, g') /\ copying ep g0 rest g'.
Proof.
  intros M Hx. pose proof (moving_same _ _ _ _ _ _ M) as Hobj. destruct M as [Y C Hn Hys Hrest He Hl Hy Hm]. pose proof (cp_pages _ _ _ _ C) as G.
  assert (lives (mem (owner g0)) s e) as Hs0 by done. assert (lives (mem (owner g)) s e) as Hs by done. pose proof (cy_young _ _ Y s e Hs0 Hy) as Hnur.
  destruct (cp_to _ _ _ _ C (obj_page e) x Hnur Hx) as (p & y & Hp & Hyq & Hlen & Hk & Hm8 & Hu0 & Hu). destruct (cy_partner _ _ Y _ _ Hnur Hx) as (Hq0 & Hqn & Hqf & _).
  destruct (pg_placed _ _ G s e Hs) as [(Hpe & Hoe & Hse) (pf & xf & Hpf & Hxf & Hfit & _ & Hin)]. destruct (live_content _ _ _ _ G Hs) as (b & Hb & Hbl).
  set (q := partner x) in *. destruct (cp_from _ _ _ _ C) as (C1 & C2 & C3 & C4).
  assert (obj_size e + used y <= managedPageBytes) as Hroom.
  { assert (bytes_on (mem (owner g0)) (obj_page e) (s :: rest) = size_on (mem (owner g0)) (obj_page e) s + bytes_on (mem (owner g0)) (obj_page e) rest) as Eb by done.
    unfold size_on in Eb at 1. rewrite He, Z.eqb_refl in Eb. assert (0 <= bytes_on (mem (owner g0)) (obj_page e) rest) as H0; [|lia].
    apply sum_nonneg, Forall_map, Forall_forall. intros t Ht. by eapply size_on_nonneg, Hrest. }
  unfold managedPageBytes in *. set (src := window (data pf) (obj_offset e) (obj_size e)). pose proof (content_window _ _ _ _ Hpf Hb) as Eb.
  set (bytes := list_inserts (Z.to_nat (used y)) src (data p)).
  exists (set_counts (count_copied (obj_size e)) (set_owner (evacuated s q (used y) e bytes) g)). split.
  { unfold evacuate, gc_bind, gc_some. rewrite Hobj. cbn [gc_return]. rewrite (proj2 (nth_of_nat _ _ pf)) by done. cbn [gc_return]. rewrite (proj2 (nth_of_nat _ _ p)) by done. cbn [gc_return].
    unfold page_meta. rewrite (proj2 (nth_of_nat _ _ y)) by done. cbn [gc_return]. rewrite align_aligned by lia. unfold gc_guard.
    rewrite (proj2 (Z.ltb_ge _ _)) by lia. rewrite (proj2 (Z.ltb_ge _ _)) by lia. done. }
  set (e' := mkObject (obj_state e) (obj_generation e) q (used y) (obj_size e) true). set (x' := with_kind (kind y) (used y + obj_size e) y).
  set (g' := set_counts _ _).
  assert (relocated (mem (owner g)) (pgs (owner g)) s e e' p (mkPage bytes (cards p)) y x' (mem (owner g')) (pgs (owner g'))) as R.
  { split; try done.
    - apply (set_data_pages _ _ _ _ Hp).
    - exists b. split; [done|]. by rewrite Eb.
    - cbn. split; [|done]. rewrite (alter_insert_lookup _ _ _ _ Hyq). by rewrite u32_id by lia.
    - cbn. by rewrite C1, C2.
    - cbn. split; [lia|done].
    - intros i f Hf Hne Epg Hif. unfold in_place, x' in *. rewrite Hk in Hif. destruct (obj_young f); [|destruct Hif as [(? & _)|(? & _)]; congruence]. cbn. split; [split; [done|lia]|].
      right. right. cbn. lia. }
  destruct (cp_gc _ _ _ _ C) as (Q1 & Q2 & Q3 & Q4).
  eapply (copying_moved ep g0 s rest g g' e e' p (mkPage bytes (cards p)) y x'); try done.
  - eapply (relocated_old _ _ s e); try done; [apply C|by rewrite Hk|by rewrite Hk|]. intros i l Hi. by exists l.
  - cbn. exists (obj_page e), x. done.
  - apply C.
  - apply C.
  - intros i. cbn. destruct (decide (i = s)) as [->|Hne]; [by rewrite meta_set_eq|by rewrite meta_set_ne].
Qed.

(** ** A promotion *)

Lemma find_class_spec lists i size c l : find_class lists i size = Some (c, l) -> 0 <= i ->
  i <= c /\ lists !! Z.to_nat (c - i) = Some l /\ size <= 2 ^ (c + 3) /\ l <> [].
Proof.
  revert i. induction lists as [|m lists IH]; intros i H Hi; [done|]. cbn in H. destruct ((size <=? Z.shiftl 1 (i + 3)) && negb (bool_decide (m = []))) eqn:E.
  - injection H as <- <-. apply andb_true_iff in E as [E1 E2]. apply negb_true_iff, bool_decide_eq_false in E2. breflect. rewrite Z.shiftl_1_l in E1. rewrite Z.sub_diag. done.
  - apply IH in H as (H1 & H2 & H3); [|lia]. split; [lia|]. split; [|done]. replace (Z.to_nat (c - i)) with (S (Z.to_nat (c - (i + 1)))) by lia. done.
Qed.

Definition promoted (s id index class : Z) (free rest : list Z) (e moved : managedObject) (bytes : gostring) (a : allocator) : allocator :=
  let a := update_page id (fun x => mkPageMeta (entries x) free (used x) (pclass x) (partner x) (cardCapacity x) (kind x) (resident x) (leased x)) a in
  let a := match free with [] => set_available class rest a | _ => a end in
  let a := set_mem (set_data (mem a) id bytes) a in
  let a := update_page id (fun x =>
    mkPageMeta (<[Z.to_nat index := s]> (entries x)) (pfree x) (u32 (used x + pclass x)) (pclass x) (partner x) (cardCapacity x) (kind x) (resident x) (leased x)) a in
  let a := update_meta s (with_age 0) (set_mem (set_object s moved (mem a)) a) in
  set_led (add_young (- logical (meta (dir a) s))) a.

(** A cell of an old page is filled. *)
Lemma cells_filled p p' x k s index free :
  cells_ok p x k -> pfree x = index :: free -> s <> 0 -> length (data p') = length (data p) -> cards p' = cards p ->
  cells_ok p' (mkPageMeta (<[Z.to_nat index := s]> (entries x)) free (u32 (used x + pclass x)) (pclass x) (partner x) (cardCapacity x) (kind x) (resident x) (leased x)) k.
Proof.
  intros C Ef Hs Hd Hc. destruct (ce_class _ _ _ C) as [Hk Hcl]. destruct (ce_free _ _ _ C index) as [Hi0 Hi]; [rewrite Ef; by left|].
  pose proof (ce_nodup _ _ _ C) as Hnd. rewrite Ef in Hnd. apply NoDup_cons in Hnd as [Hni Hnd]. pose proof (ce_entries _ _ _ C) as He. pose proof (pow_class k ltac:(lia)) as Hp.
  assert (full_cells x + 1 <= Z.of_nat (length (entries x))) as Hfull.
  { pose proof (length_filter_insert (entries x) _ 0 s Hi) as Hf. rewrite Z.eqb_refl, (proj2 (Z.eqb_neq s 0)) in Hf by done. fold (full_cells x) in Hf.
    pose proof (filter_length_le (fun s => negb (s =? 0)) (<[Z.to_nat index := s]> (entries x))) as Hle. rewrite length_insert in Hle. lia. }
  pose proof (full_cells_bounds x) as Hb. split; cbn.
  - done.
  - rewrite Hd, Hc. apply C.
  - by rewrite length_insert.
  - intros i Hin. destruct (ce_free _ _ _ C i) as [H0 Hi']; [rewrite Ef; by right|]. split; [done|]. rewrite list_lookup_insert_ne; [done|]. intros E. apply Hni. by assert (index = i) as -> by lia.
  - done.
  - unfold full_cells at 1. cbn [entries]. rewrite (length_filter_insert _ _ 0) by done. rewrite Z.eqb_refl, (proj2 (Z.eqb_neq s 0)) by done. fold (full_cells x).
    rewrite (ce_used _ _ _ C), Hcl. unfold managedPageBytes in He. rewrite u32_id; [lia|]. nia.
Qed.

(** The layout of an object that moved. *)
Lemma described_moved a0 a s e0 e l p0 :
  described a0 s e0 = Some (l, p0) -> layout_ok l -> 0 <= count (meta (dir a0) s) -> count (meta (dir a0) s) * lstride l <= obj_size e0 ->
  layouts a = layouts a0 -> layout (meta (dir a) s) = layout (meta (dir a0) s) -> count (meta (dir a) s) = count (meta (dir a0) s) -> obj_size e = obj_size e0 ->
  pages_ok (mem a0) (pgs a0) -> lives (mem a0) s e0 -> pages_ok (mem a) (pgs a) -> lives (mem a) s e -> content (mem a) e = content (mem a0) e0 ->
  exists p, described a s e = Some (l, p) /\ children l (count (meta (dir a) s)) (data p) (obj_offset e) = children l (count (meta (dir a0) s)) (data p0) (obj_offset e0) /\
    Z.of_nat (length (data p)) < 2 ^ 32 /\ 0 <= obj_offset e /\ (obj_young e = false -> Z.of_nat (length (data p)) <= managedCardBytes * Z.of_nat (length (cards p))).
Proof.
  intros Hd Hl Hc Hsz El Elay Ecnt Es G0 Hs0 G Hs Econ. destruct (pg_placed _ _ G s e Hs) as [(Hn & Ho & Hz) (p & x & Hp & _ & Hfit & Hcards & _)].
  destruct (pg_placed _ _ G0 s e0 Hs0) as [(Hn0 & Ho0 & Hz0) (p0' & x0 & Hp0 & _ & Hfit0 & _)]. destruct (described_page _ _ _ _ _ Hd) as [_ Hp0']. assert (p0' = p0) as -> by congruence.
  pose proof (pg_bytes _ _ G _ _ Hp) as Hlen. pose proof (pg_bytes _ _ G0 _ _ Hp0) as Hlen0. exists p. split; [|split; [|done]].
  - unfold described in *. rewrite El, Elay, Ecnt. destruct (layout (meta (dir a0) s) =? 0); [done|]. destruct (nth_of (layouts a0) _) as [l'|]; [|done]. cbn [mbind option_bind] in *.
    destruct (lstride l' =? 0); [done|]. assert (l' = l) as ->.
    { destruct (nth_of (pages (mem a0)) (obj_page e0)); [|done]. cbn [mbind option_bind] in Hd. destruct (_ <? _); [done|]. congruence. }
    rewrite (proj2 (nth_of_nat _ _ p)) by done. cbn [mbind option_bind]. by rewrite (proj2 (Z.ltb_ge _ _)) by lia.
  - rewrite Ecnt, (children_window l _ (data p) (obj_offset e) (obj_size e)) by (done || lia).
    rewrite (children_window l _ (data p0) (obj_offset e0) (obj_size e0)) by (done || lia). unfold content in Econ. rewrite Hp, Hp0 in Econ. cbn in Econ. by injection Econ as ->.
Qed.

(** References keep resolving while objects move. *)
Lemma resolve_copying ep g0 rest g ref f : copying ep g0 rest g -> resolveObject (mem (owner g0)) ref = Ok f -> exists f', resolveObject (mem (owner g)) ref = Ok f'.
Proof.
  intros C (Hf & Hst & Hg)%resolve_ok. destruct (cp_objects _ _ _ _ C _ _ Hf) as (f' & Hf' & Cf). destruct (ca_kin _ _ _ _ _ _ _ Cf) as (K1 & K2 & _).
  exists f'. apply resolve_ok. split; [done|]. by rewrite K1, K2.
Qed.

(** The cards of a marked old object are found during the copy. *)
Lemma copying_cards ep g0 rest g s e0 e :
  copyable (owner g0) ep -> copying ep g0 rest g -> object (mem (owner g0)) s = Some e0 -> live e0 -> marked (meta (dir (owner g0)) s) = ep ->
  object (mem (owner g)) s = Some e -> obj_young e = false -> exists g', markYoungReferences s e g = (Ok tt, g') /\ copying ep g0 rest g'.
Proof.
  intros Y C He0 Hl Hm He Hy. destruct (cp_objects _ _ _ _ C s e0 He0) as (e1 & He1 & Cs). assert (e1 = e) as -> by congruence. destruct (ca_kin _ _ _ _ _ _ _ Cs) as (K1 & K2 & K3 & _).
  pose proof (cy_published _ _ Y s e0 (conj He0 Hl)) as Hst. destruct (cy_graph _ _ Y s e0 He0 Hst Hm) as (l & p0 & Hd & Hlo & Hc & Hsz & Hr).
  pose proof (with_age_fields _ _ (cp_meta _ _ _ _ C s)) as (E1 & E2 & _). assert (lives (mem (owner g)) s e) as Hs by (split; [done|unfold live; by rewrite K1]).
  destruct (described_moved (owner g0) (owner g) s e0 e l p0) as (p & Hd' & Ech & Hlen & Ho & Hcards); try done; [apply C|apply Y|apply C|by apply Cs|].
  destruct (markYoungReferences_spec g s e l p) as (g' & E & Cd); try done; [by rewrite E2|by apply Hcards| |].
  - rewrite Ech. intros ref Href. destruct (Hr ref Href) as [f Hf]. by eapply resolve_copying.
  - exists g'. split; [done|]. by eapply copying_carded.
Qed.

(** An object of another cell of an old page. *)
Lemma old_cell_apart i f x k index s x' (e' : managedObject) :
  kind x = managedOldPage -> pclass x = 2 ^ k -> 0 <= k -> in_place i f x -> 0 < i -> obj_offset f mod pclass x = 0 -> 0 <= index -> entries x !! Z.to_nat index = Some 0 ->
  0 <= obj_offset f -> entries x' = <[Z.to_nat index := s]> (entries x) -> kind x' = kind x -> pclass x' = pclass x -> obj_offset e' = index * 2 ^ k -> obj_size e' <= 2 ^ k ->
  in_place i f x' /\ apart e' f.
Proof.
  intros Hk Hc Hk0 Hin Hi Hm Hi0 Hidx Ho Een Ek Ec Eo Es. unfold in_place in *. rewrite Ek, Ec, Een. destruct (obj_young f); [destruct Hin; congruence|]. destruct Hin as [(? & _)|(_ & j & Hj & Hcj & Hsz & He)]; [congruence|].
  assert (j = k) as -> by (apply pow_inj; [lia|lia|congruence]). assert (0 < 2 ^ k) as Hp by (apply Z.pow_pos_nonneg; lia). set (c := obj_offset f / 2 ^ k) in *.
  assert (obj_offset f = 2 ^ k * c) as Ef by (unfold c; rewrite Hc in Hm; pose proof (Z.div_mod (obj_offset f) (2 ^ k)); lia). assert (0 <= c) as Hc0 by (apply Z.div_pos; lia).
  assert (c <> index) as Hne by (intros E; rewrite E, Hidx in He; injection He; lia). split.
  - right. split; [done|]. exists k. repeat (split; [done|]). rewrite list_lookup_insert_ne by lia. done.
  - right. rewrite Eo, Ef. destruct (Z.lt_ge_cases c index); [right|left]; nia.
Qed.

Lemma promoteObject_spec ep g0 s rest g e : moving ep g0 s rest g e ->
  exists r g', promoteObject s e g = (r, g') /\ match r with Ok _ => copying ep g0 rest g' | Err x => x <> GcPanic /\ copying ep g0 (s :: rest) g' end.
Proof.
  intros M. pose proof (moving_same _ _ _ _ _ _ M) as Hobj. destruct M as [Y C Hn Hys Hrest He Hl Hy Hm]. pose proof (cp_pages _ _ _ _ C) as G. pose proof (cp_old _ _ _ _ C) as O.
  assert (lives (mem (owner g)) s e) as Hs by done. unfold promoteObject. unfold gc_bind at 1, gc_some at 1.
  destruct (find_class (oldAvailable (pgs (owner g))) 0 (obj_size e)) as [[class available]|] eqn:Ef; cbn [gc_return gc_throw]; [|by exists (Err errManagedCollectorScratch), g].
  apply find_class_spec in Ef as (Hc0 & Hav & Hsz & Hne); [|lia]. rewrite Z.sub_0_r in Hav.
  destruct (last available) as [id|] eqn:El; [|by apply last_None in El]. assert (id ∈ available) as Hid by (apply last_Some in El as [k ->]; apply elem_of_app; right; by left).
  destruct (oo_available _ _ O _ _ _ Hav Hid) as (Hid0 & x & Hx & Hk & Hcl). rewrite Z2Nat.id in Hcl by done.
  destruct (lookup_lt_is_Some_2 (pages (mem (owner g))) (Z.to_nat id)) as [p Hp]; [rewrite <- (pg_length _ _ G); by eapply lookup_lt_Some|].
  destruct (oo_cells _ _ O _ _ _ Hp Hx Hk) as [k Ce]. destruct (ce_class _ _ _ Ce) as [Hkr Hk']. assert (k = class + 3) as -> by (apply pow_inj; [lia|lia|congruence]).
  unfold gc_bind at 1. cbn [gc_some gc_return]. unfold gc_bind at 1, gc_some at 1. rewrite (proj2 (nth_of_nat _ _ p)) by done. cbn [gc_return].
  unfold gc_bind at 1, gc_some at 1, page_meta. rewrite (proj2 (nth_of_nat _ _ x)) by done. cbn [gc_return].
  set (others := take (length available - 1) available). assert (others ⊆ available) as Hsub by apply subseteq_take.
  destruct (pfree x) as [|index free] eqn:Efr.
  { eexists _, _. split; [done|]. split; [done|]. by eapply copying_available. }
  destruct (ce_free _ _ _ Ce index) as [Hi0 Hidx]; [rewrite Efr; by left|]. pose proof (lookup_lt_Some _ _ _ Hidx) as Hilt. pose proof (ce_entries _ _ _ Ce) as Hent.
  pose proof (pow_class (class + 3) ltac:(lia)) as Hpk. assert (index * 2 ^ (class + 3) + 2 ^ (class + 3) <= managedPageBytes) as Hcell by nia. destruct (ce_data _ _ _ Ce) as [Hlen Hcards].
  destruct (pg_placed _ _ G s e Hs) as [(Hpe & Hoe & Hse) (pf & xf & Hpf & Hxf & Hfit & _ & Hin)]. destruct (live_content _ _ _ _ G Hs) as (b & Hb & Hbl).
  pose proof (content_window _ _ _ _ Hpf Hb) as Eb. set (offset := index * pclass x).
  assert (0 <= offset /\ offset + obj_size e <= managedPageBytes) as [Hof0 Hof] by (unfold offset; rewrite Hcl; nia). unfold managedPageBytes in Hof, Hlen, Hcell.
  set (bytes := list_inserts (Z.to_nat offset) b (data p)). set (e' := mkObject (obj_state e) (obj_generation e) id offset (obj_size e) false).
  set (g1 := set_counts (count_promoted (obj_size e)) (set_owner (promoted s id index class free others e e' bytes) g)).
  assert (copy_from (data p) (u32 offset) (window (data pf) (obj_offset e) (obj_size e)) = bytes) as Ecopy.
  { unfold copy_from. rewrite u32_id, <- Eb by lia. unfold bytes. f_equal. apply firstn_all2. lia. }
  match goal with |- exists r g', ?m g = _ /\ _ => assert (m g = markYoungReferences s e' g1) as -> end.
  { unfold gc_bind. cbn [gc_modify]. fold offset. rewrite (u32_id offset) in * by lia.
    assert (forall h : managedHeap, nth_of (pages (mem (owner g))) (obj_page e) = Some pf) as Hnth by (intros _; by apply nth_of_nat).
    destruct free as [|i0 free0]; cbn [gc_modify gc_return set_owner owner update_page set_pgs set_available mem]; unfold gc_some at 1; rewrite (Hnth (mem (owner g))); cbn [gc_return]; unfold gc_guard;
      rewrite (proj2 (Z.ltb_ge _ _)) by lia; rewrite (proj2 (Z.ltb_ge _ _)) by lia; cbn [orb gc_return gc_modify]; rewrite Ecopy;
      unfold gc_some; rewrite (proj2 (nth_of_nat _ _ 0)) by done; done. }
  set (x' := mkPageMeta (<[Z.to_nat index := s]> (entries x)) free (u32 (used x + pclass x)) (pclass x) (partner x) (cardCapacity x) (kind x) (resident x) (leased x)).
  assert (pmetas (pgs (owner g1)) = <[Z.to_nat id := x']> (pmetas (pgs (owner g)))) as Hpm.
  { unfold g1, promoted. destruct free; cbn; rewrite (alter_insert_lookup _ _ _ _ Hx), (alter_insert_lookup _ _ _ _ (list_lookup_insert_eq _ _ _ (lookup_lt_Some _ _ _ Hx))), list_insert_insert_eq; done. }
  assert (mem (owner g1) = set_object s e' (set_data (mem (owner g)) id bytes)) as Hmem by (unfold g1, promoted; by destruct free).
  assert (relocated (mem (owner g)) (pgs (owner g)) s e e' p (mkPage bytes (cards p)) x x' (mem (owner g1)) (pgs (owner g1))) as R.
  { rewrite Hmem. split; try done.
    - apply (set_data_pages _ _ _ _ Hp).
    - by exists b.
    - split; [done|]. unfold g1, promoted. destruct free; cbn; by rewrite ?length_insert.
    - cbn. split; [intros Hf; destruct (oo_free _ _ O id Hf) as (z & Hz & Hkz); congruence|].
      intros Hf. destruct (pg_nursery _ _ G id Hf) as (_ & r & z & _ & Hz & _ & Hkz & _). congruence.
    - cbn. split; [lia|]. intros _. unfold managedPageBytes in Hcards. lia.
    - right. split; [done|]. exists (class + 3). split; [lia|]. split; [done|]. split; [done|]. cbn. unfold offset. rewrite Hcl, Z.div_mul by lia. by apply list_lookup_insert_eq.
    - intros i f Hf Hne' Epg Hif. cbn in Epg. destruct (pg_placed _ _ G i f Hf) as [(_ & Hof' & _) _]. destruct Hf as [Hfo Hfl]. pose proof (object_pos _ _ _ Hfo) as Hipos.
      assert (obj_young f = false) as Eyf by (destruct (obj_young f) eqn:Eyf; [unfold in_place in Hif; rewrite Eyf in Hif; destruct Hif; congruence|done]).
      apply (old_cell_apart i f x (class + 3) index s); try done; [lia| |cbn; unfold offset; by rewrite Hcl].
      apply (oo_old _ _ O i f x); try done. by rewrite Epg. }
  assert (copying ep g0 rest g1) as C1.
  { destruct (cp_gc _ _ _ _ C) as (Q1 & Q2 & Q3 & Q4).
    eapply (copying_moved ep g0 s rest g g1 e e' p (mkPage bytes (cards p)) x x'); try done.
    - eapply (relocated_old _ _ s e); try done; [by rewrite Hk| |].
      + intros _. cbn. split; [unfold offset; apply Z.mod_mul; lia|]. intros k' Ck. apply (cells_filled p); try done; [by apply object_pos in Hobj; lia|apply (relocated_length _ _ _ _ _ _ _ _ _ _ _ R)].
      + intros i l Hi. unfold g1, promoted in Hi. destruct free as [|i0 free0]; cbn in Hi; [|by exists l].
        destruct (decide (i = Z.to_nat class)) as [->|Hne']; [|rewrite list_lookup_insert_ne in Hi by done; by exists l].
        rewrite list_lookup_insert_eq in Hi by by eapply lookup_lt_Some. injection Hi as <-. by exists available.
    - unfold g1, promoted. destruct free; apply C.
    - unfold g1, promoted. destruct free; apply C.
    - intros i. unfold g1, promoted. destruct free; cbn; (destruct (decide (i = s)) as [->|Hne']; [by rewrite meta_set_eq|by rewrite meta_set_ne]).
    - unfold g1, promoted. destruct free; cbn; by rewrite meta_set_eq.
    - unfold g1, promoted. by destruct free. }
  destruct (copying_cards ep g0 rest g1 s e e') as (g' & E & C'); try done.
  - rewrite Hmem. rewrite (object_set _ s e) by done. by rewrite decide_True.
  - exists (Ok tt), g'. done.
Qed.

(** ** All objects *)

Lemma move_young_spec ep g0 s rest g :
  copyable (owner g0) ep -> copying ep g0 (s :: rest) g -> s ∉ rest -> s ∈ youngSlots (dir (owner g0)) -> (forall t, t ∈ rest -> t ∈ youngSlots (dir (owner g0))) ->
  exists g', move_young s g = (Ok tt, g') /\ copying ep g0 rest g'.
Proof.
  intros Y C Hn Hys Hrest. pose proof Hys as [i Hi]%list_elem_of_lookup. destruct (dir_young _ _ (cy_dir _ _ Y) i s Hi) as (_ & e & He & Hst & Hy).
  assert (live e) as Hl by (unfold live; by rewrite Hst). destruct (cp_objects _ _ _ _ C s e He) as (e1 & He1 & Cs). assert (e1 = e) as -> by (apply Cs; left; by left).
  pose proof (with_age_fields _ _ (cp_meta _ _ _ _ C s)) as (_ & _ & _ & Emk & _). destruct (cp_gc _ _ _ _ C) as (Eep & _). unfold move_young. rewrite He1, bool_decide_true by done. cbn [negb orb].
  rewrite Emk, Eep. destruct (Z.eqb_spec (marked (meta (dir (owner g0)) s)) ep) as [Hm|Hm]; cbn [negb].
  2: { exists g. split; [done|]. eapply copying_skip; [done|done|]. intros id. by eapply size_on_nonneg. }
  pose proof (cy_young _ _ Y s e (conj He Hl) Hy) as Hnur. destruct (pg_nursery _ _ (cy_pages _ _ Y) _ Hnur) as (Hp0 & p & x & _ & Hx & _ & Hk & _).
  destruct (cp_from _ _ _ _ C) as (_ & _ & _ & C4). assert (page_meta (owner g) (obj_page e) = Some x) as -> by (apply nth_of_nat; by rewrite C4).
  rewrite bool_decide_true by done. cbn [negb]. destruct (cp_to _ _ _ _ C _ _ Hnur Hx) as (q & y & _ & Hyq & _). destruct (cy_partner _ _ Y _ _ Hnur Hx) as (Hq0 & _).
  assert (page_meta (owner g) (partner x) = Some y) as -> by (by apply nth_of_nat). assert (moving ep g0 s rest g e) as M by by split.
  destruct (1 <=? age _); [|by apply (evacuate_spec ep g0 s rest g e x)]. destruct (promoteObject_spec ep g0 s rest g e M) as (r & g1 & -> & Hr). destruct r as [[]|err]; [by exists g1|].
  destruct Hr as [Hne C1]. destruct (evacuate_spec ep g0 s rest g1 e x (moving_other _ _ _ _ _ _ _ M C1) Hx) as (g2 & E2 & C2). exists g2. split; [|done]. by destruct err.
Qed.

Lemma move_all_spec ep g0 slots g :
  copyable (owner g0) ep -> copying ep g0 slots g -> NoDup slots -> (forall t, t ∈ slots -> t ∈ youngSlots (dir (owner g0))) ->
  exists g', move_all slots g = (Ok tt, g') /\ copying ep g0 [] g'.
Proof.
  intros Y. revert g. induction slots as [|s slots IH]; intros g C Hnd Hs; [by exists g|]. apply NoDup_cons in Hnd as [Hn Hnd].
  destruct (move_young_spec ep g0 s slots g) as (g1 & E1 & C1); [done|done|done|apply Hs; by left|intros t Ht; apply Hs; by right|].
  destruct (IH g1 C1 Hnd) as (g2 & E2 & C2); [intros t Ht; apply Hs; by right|]. exists g2. split; [|done]. cbn [move_all]. by rewrite (gc_bind_ok _ _ _ _ _ E1).
Qed.

(** The objects of a nursery page fit its partner. *)
Lemma page_room a0 ep id : copyable a0 ep -> id ∈ nurseryPages (pgs a0) -> bytes_on (mem a0) id (youngSlots (dir a0)) <= managedPageBytes.
Proof.
  intros Y Hid. pose proof (cy_pages _ _ Y) as G. pose proof (cy_dir _ _ Y) as D. destruct (occupied_nodup _ _ D) as [_ Nd]. destruct (pg_nursery _ _ G id Hid) as (Hid0 & p & x & Hp & _ & Hlen & _).
  set (off s := match object (mem a0) s with Some e => if obj_page e =? id then obj_offset e else 0 | None => 0 end).
  assert (forall i s, youngSlots (dir a0) !! i = Some s -> exists e, lives (mem a0) s e) as Hl.
  { intros i s Hi. destruct (dir_young _ _ D i s Hi) as (_ & e & He & Hst & _). exists e. by apply published_live. }
  apply (disjoint_ranges _ off); [| |unfold managedPageBytes; lia].
  - intros i s Hi. destruct (Hl i s Hi) as (e & He & Hle). unfold off, size_on. rewrite He. destruct (Z.eqb_spec (obj_page e) id) as [E|]; [|unfold managedPageBytes; lia].
    destruct (pg_placed _ _ G s e (conj He Hle)) as [(_ & H1 & H2) (q & y & Hq & _ & Hfit & _)]. rewrite E in Hq. assert (q = p) as -> by congruence. lia.
  - intros i j s t Hi Hj Hne. destruct (Hl i s Hi) as (e & He & Hle), (Hl j t Hj) as (f & Hf & Hlf). unfold off, size_on. rewrite He, Hf.
    destruct (pg_placed _ _ G s e (conj He Hle)) as [(_ & H1 & H2) _], (pg_placed _ _ G t f (conj Hf Hlf)) as [(_ & H3 & H4) _].
    destruct (Z.eqb_spec (obj_page e) id) as [E|], (Z.eqb_spec (obj_page f) id) as [E'|]; [|lia..].
    destruct (pg_apart _ _ G s t e f) as [?|[?|?]]; [done|done| |congruence|lia|lia]. intros ->. apply Hne. by eapply NoDup_lookup.
Qed.

(** The start of the copy. *)
Lemma copying_start ep g0 : copyable (owner g0) ep -> epoch g0 = ep -> copying ep g0 (youngSlots (dir (owner g0))) g0.
Proof.
  intros Y Hep. pose proof (cy_pages _ _ Y) as G. pose proof (cy_dir _ _ Y) as D. destruct (occupied_nodup _ _ D) as [_ Nd].
  split; try done; try apply Y.
  - unfold young_sum.
    assert (sum (map (fun s => if young_in (mem (owner g0)) s then logical (meta (dir (owner g0)) s) else 0) (youngSlots (dir (owner g0)))) = youngBytes (led (owner g0))) as ->; [|by destruct (led (owner g0))].
    rewrite (led_young _ (cy_ledger _ _ Y)). apply sum_map_ext. intros s [i Hi]%list_elem_of_lookup. destruct (dir_young _ _ D i s Hi) as (_ & e & He & _ & Hy). unfold young_in. by rewrite He, Hy.
  - split; [apply D|done].
  - intros s e He. exists e. split; [done|]. split; [apply kin_refl|done|done|]. intros Hl _ Hn Hy. destruct Hn. eapply (dir_young_all _ _ D); [done| |done]. by apply (cy_published _ _ Y s).
  - intros id x Hid Hx. destruct (cy_partner _ _ Y id x Hid Hx) as (_ & _ & _ & p & y & H1 & H2 & H3 & H4 & H5). exists p, y. rewrite H5. repeat (split; [done|]). rewrite Z.add_0_l.
    by eapply page_room.
Qed.
