(* ===== verification/CollectorFlip.v ===== *)
(** * Opening and flipping the nursery (src/runtime/managed_gc.go)

    The partners of the nursery's pages are opened before the copy; afterwards they become the nursery, and
    the old pages of the nursery their partners. *)

From S2P Require Import Prelude GoStd GoBytes Heap Allocator AllocatorSafe AllocatorRun Collector CollectorMark CollectorPages CollectorCards CollectorCopy.
From stdpp Require Import relations.

#[local] Open Scope Z_scope.
#[local] Arguments Z.to_nat : simpl never.

Definition set_metas (m : list pageMeta) (a : allocator) : allocator :=
  let g := pgs a in set_pgs (mkPaging m (freePages g) (nurseryPages g) (oldAvailable g) (nurseryCapacity g)) a.

Definition partner_of (m : list pageMeta) (id : Z) : Z := default 0 (partner <$> m !! Z.to_nat id).

(** Every page of [ids] has a partner, a page of its own that is not in [ids]. *)
Record paired (m : list pageMeta) (ids : list Z) : Prop := {
  pr_nodup : NoDup ids;
  pr_page : forall id, id ∈ ids -> 0 <= id /\ is_Some (m !! Z.to_nat id);
  pr_partner : forall id, id ∈ ids -> 0 <= partner_of m id /\ is_Some (m !! Z.to_nat (partner_of m id));
  pr_other : forall id id', id ∈ ids -> id' ∈ ids -> partner_of m id <> id';
  pr_inj : forall id id', id ∈ ids -> id' ∈ ids -> partner_of m id = partner_of m id' -> id = id'
}.

Lemma paired_kept m m' id ids :
  paired m (id :: ids) -> (forall i, i <> Z.to_nat id -> i <> Z.to_nat (partner_of m id) -> m' !! i = m !! i) -> length m' = length m ->
  paired m' ids /\ forall j, j ∈ ids -> partner_of m' j = partner_of m j.
Proof.
  intros [N P Q O I] Hm Hlen. apply NoDup_cons in N as [Hn N].
  assert (forall j, j ∈ ids -> m' !! Z.to_nat j = m !! Z.to_nat j) as Hj.
  { intros j Hj. destruct (P j) as [Hj0 _]; [by right|]. destruct (P id) as [Hi0 _]; [by left|]. destruct (Q id) as [Hq0 _]; [by left|].
    apply Hm; intros E; [by assert (j = id) as -> by lia|]. apply (O id j); [by left|by right|lia]. }
  assert (forall j, j ∈ ids -> partner_of m' j = partner_of m j) as Hp by (intros j Hj'; unfold partner_of; by rewrite Hj).
  split; [|done]. split.
  - done.
  - intros j Hj'. rewrite Hj by done. apply P. by right.
  - intros j Hj'. rewrite Hp by done. destruct (Q j) as [H0 H1]; [by right|]. split; [done|]. apply lookup_lt_is_Some in H1. apply lookup_lt_is_Some. lia.
  - intros j j' Hj1 Hj2. rewrite Hp by done. apply O; by right.
  - intros j j' Hj1 Hj2. rewrite !Hp by done. apply I; by right.
Qed.

(** ** Opening *)

Definition opened (m : list pageMeta) (ids : list Z) (m' : list pageMeta) : Prop :=
  length m' = length m /\ forall i, m' !! i = if decide (Z.of_nat i ∈ map (partner_of m) ids) then with_kind managedYoungPage 0 <$> m !! i else m !! i.

Lemma open_partners_spec ids g :
  paired (pmetas (pgs (owner g))) ids ->
  exists m, open_partners ids g = (Ok tt, set_owner (set_metas m) g) /\ opened (pmetas (pgs (owner g))) ids m.
Proof.
  revert g. induction ids as [|id ids IH]; intros g Pr.
  { exists (pmetas (pgs (owner g))). split; [by destruct g as [[? ? [] ? ? ? ? ? ? ?]]|]. split; [done|]. intros i. by rewrite decide_False by (intros []%not_elem_of_nil). }
  set (m := pmetas (pgs (owner g))) in *. destruct (pr_page _ _ Pr id) as [Hi0 [x Hx]]; [by left|]. destruct (pr_partner _ _ Pr id) as [Hq0 [y Hy]]; [by left|].
  assert (partner_of m id = partner x) as Eq by (unfold partner_of; by rewrite Hx). set (q := partner_of m id) in *.
  set (m1 := alter (with_kind managedYoungPage 0) (Z.to_nat q) m). destruct (paired_kept m m1 id ids Pr) as [Pr1 Hp]; [intros i _ Hi; by apply list_lookup_alter_ne|apply length_alter|].
  destruct (IH (set_owner (set_metas m1) g)) as (m' & E & Hlen & Hm'); [exact Pr1|]. exists m'. split.
  - cbn [open_partners]. unfold gc_bind at 1, gc_some at 1, page_meta at 1. rewrite (proj2 (nth_of_nat _ _ x)) by done. cbn [gc_return]. unfold gc_bind at 1, gc_some at 1, page_meta. rewrite <- Eq, (proj2 (nth_of_nat _ _ y)) by done.
    cbn [gc_return]. unfold gc_bind at 1. cbn [gc_modify]. exact E.
  - split; [rewrite Hlen; apply length_alter|]. intros i. rewrite Hm'. cbn [set_owner set_metas owner set_pgs pgs pmetas map].
    assert (map (partner_of m1) ids = map (partner_of m) ids) as -> by (apply map_ext_in; intros j Hj; apply Hp; by apply list_elem_of_In).
    destruct (decide (i = Z.to_nat q)) as [->|Hne].
    + rewrite Z2Nat.id by done. rewrite (decide_True (P := q ∈ q :: _)) by by left. unfold m1. rewrite list_lookup_alter_eq, Hy. cbn. by destruct (decide _).
    + unfold m1. rewrite list_lookup_alter_ne by done. destruct (decide (Z.of_nat i ∈ map (partner_of m) ids)) as [Hin|Hni]; [by rewrite decide_True by by right|].
      rewrite decide_False; [done|]. intros [E'|?]%elem_of_cons; [lia|done].
Qed.

(** ** Flipping *)

Record flipped (ids : list Z) (g g' : collector) : Prop := {
  fl_state : exists m h, g' = set_owner (fun a => set_metas m (set_mem h a)) g;
  fl_segments : segments (mem (owner g')) = segments (mem (owner g)) /\ pendingCards (mem (owner g')) = pendingCards (mem (owner g));
  fl_lengths : length (pages (mem (owner g'))) = length (pages (mem (owner g))) /\ length (pmetas (pgs (owner g'))) = length (pmetas (pgs (owner g)));
  fl_pages : forall i p, pages (mem (owner g)) !! i = Some p -> exists p', pages (mem (owner g')) !! i = Some p' /\ length (data p') = length (data p) /\ cards p' = cards p /\
    (Z.of_nat i ∉ ids -> p' = p);
  fl_from : forall id, id ∈ ids -> pmetas (pgs (owner g')) !! Z.to_nat id = with_kind managedSparePage 0 <$> pmetas (pgs (owner g)) !! Z.to_nat id;
  fl_to : forall id, id ∈ ids -> let q := partner_of (pmetas (pgs (owner g))) id in
    pmetas (pgs (owner g')) !! Z.to_nat q = with_partner id <$> pmetas (pgs (owner g)) !! Z.to_nat q;
  fl_other : forall i, Z.of_nat i ∉ ids -> Z.of_nat i ∉ map (partner_of (pmetas (pgs (owner g)))) ids ->
    pmetas (pgs (owner g')) !! i = pmetas (pgs (owner g)) !! i
}.

(** One page and its partner. *)
Definition flip_metas (id q : Z) (m : list pageMeta) : list pageMeta :=
  alter (fun x => with_kind managedSparePage 0 (with_partner q x)) (Z.to_nat id) (alter (with_partner id) (Z.to_nat q) m).

Definition poisoned (poison : bool) (id : Z) (h : managedHeap) : managedHeap :=
  match nth_of (pages h) id with Some p => if poison then set_data h id (replicate (length (data p)) 221) else h | None => h end.

Lemma poisoned_spec poison id h p : 0 <= id -> pages h !! Z.to_nat id = Some p ->
  segments (poisoned poison id h) = segments h /\ pendingCards (poisoned poison id h) = pendingCards h /\ length (pages (poisoned poison id h)) = length (pages h) /\
  forall i r, pages h !! i = Some r -> exists r', pages (poisoned poison id h) !! i = Some r' /\ length (data r') = length (data r) /\ cards r' = cards r /\ (Z.of_nat i <> id -> r' = r).
Proof.
  intros H0 Hp. unfold poisoned. rewrite (proj2 (nth_of_nat _ _ p)) by done. destruct poison; [|repeat (split; [done|]); intros i r Hr; by exists r].
  repeat (split; [done|]). rewrite (set_data_pages _ _ _ _ Hp). split; [by rewrite length_insert|]. intros i r Hr. destruct (decide (i = Z.to_nat id)) as [->|Hne].
  - rewrite list_lookup_insert_eq by by eapply lookup_lt_Some. eexists. split; [done|]. assert (r = p) as -> by congruence. cbn. rewrite length_replicate. repeat (split; [done|]). intros. lia.
  - rewrite list_lookup_insert_ne by done. by exists r.
Qed.

Lemma swap_partners_spec ids g :
  paired (pmetas (pgs (owner g))) ids -> length (pmetas (pgs (owner g))) = length (pages (mem (owner g))) ->
  exists g', swap_partners ids g = (Ok (map (partner_of (pmetas (pgs (owner g)))) ids), g') /\ flipped ids g g'.
Proof.
  revert g. induction ids as [|id ids IH]; intros g Pr HL.
  { exists g. split; [done|]. split; try done.
    - exists (pmetas (pgs (owner g))), (mem (owner g)). by destruct g as [[? ? [] ? ? ? ? ? ? ?]].
    - intros i p Hp. by exists p.
    - intros id []%not_elem_of_nil.
    - intros id []%not_elem_of_nil. }
  set (m := pmetas (pgs (owner g))) in *. destruct (pr_page _ _ Pr id) as [Hi0 [x Hx]]; [by left|]. destruct (pr_partner _ _ Pr id) as [Hq0 [y Hy]]; [by left|].
  assert (partner_of m id = partner x) as Eq by (unfold partner_of; by rewrite Hx). set (q := partner_of m id) in *. assert (q <> id) as Hqi by (apply (pr_other _ _ Pr); by left).
  destruct (lookup_lt_is_Some_2 (pages (mem (owner g))) (Z.to_nat id)) as [p Hp]; [rewrite <- HL; by eapply lookup_lt_Some|].
  set (h1 := poisoned (poisonCollected g) id (mem (owner g))). destruct (poisoned_spec (poisonCollected g) id (mem (owner g)) p Hi0 Hp) as (S1 & S2 & S3 & S4). fold h1 in S1, S2, S3, S4.
  set (m1 := flip_metas id q m).
  assert (forall i, i <> Z.to_nat id -> i <> Z.to_nat q -> m1 !! i = m !! i) as Hm1 by (intros i H1 H2; unfold m1, flip_metas; by rewrite !list_lookup_alter_ne).
  assert (length m1 = length m) as Hlm by (unfold m1, flip_metas; by rewrite !length_alter).
  destruct (paired_kept m m1 id ids Pr Hm1 Hlm) as [Pr1 Hp1]. set (g1 := set_owner (fun a => set_metas m1 (set_mem h1 a)) g).
  destruct (IH g1) as (g' & E & F); [exact Pr1|cbn; lia|]. exists g'.
  assert (map (partner_of m1) ids = map (partner_of m) ids) as Emap by (apply map_ext_in; intros j Hj; apply Hp1; by apply list_elem_of_In).
  split.
  - cbn [swap_partners]. unfold gc_bind at 1, gc_some at 1, page_meta at 1. rewrite (proj2 (nth_of_nat _ _ x)) by done. cbn [gc_return]. unfold gc_bind at 1, gc_some at 1, page_meta. rewrite <- Eq, (proj2 (nth_of_nat _ _ y)) by done.
    cbn [gc_return]. unfold gc_bind at 1. cbn [gc_modify]. unfold gc_bind at 1. cbn [gc_modify]. unfold gc_bind at 1.
    match goal with |- context [if poisonCollected ?s then ?t else ?u] => assert ((if poisonCollected s then t else u) = (Ok tt, g1)) as -> end.
    { unfold g1, h1, poisoned. rewrite (proj2 (nth_of_nat _ _ p)) by done. cbn [set_owner poisonCollected owner update_page set_pgs mem].
      destruct (poisonCollected g) eqn:Epo. { unfold set_owner. cbn [owner epoch queue counts totals poisonCollected update_page set_pgs mem]. by rewrite (proj2 (nth_of_nat _ _ p)) by done. } destruct g as [[? ? [] ? ? ? ? ? ? ?] ? ? ? ? ?]. done. }
    unfold gc_bind. rewrite E. cbn [gc_return map]. fold q. by rewrite <- Emap.
  - destruct F as [(m' & h' & Fs) (F1 & F1') (F2 & F2') F3 F4 F5 F6]. pose proof (pr_nodup _ _ Pr) as Nd. apply NoDup_cons in Nd as [Hni Nd].
    change (pmetas (pgs (owner g1))) with m1 in *. change (mem (owner g1)) with h1 in *. rewrite Emap in F6.
    assert (m1 !! Z.to_nat id = Some (with_kind managedSparePage 0 x)) as Hmi.
    { unfold m1, flip_metas. rewrite list_lookup_alter_eq, list_lookup_alter_ne, Hx by lia. cbn. rewrite Eq. by destruct x. }
    assert (m1 !! Z.to_nat q = Some (with_partner id y)) as Hmq by (unfold m1, flip_metas; by rewrite list_lookup_alter_ne, list_lookup_alter_eq, Hy by lia).
    assert (forall j, j ∈ ids -> q <> partner_of m j /\ id <> partner_of m j /\ q <> j) as Hd.
    { intros j Hj. split; [|split].
      - intros E'. apply Hni. by rewrite (pr_inj _ _ Pr id j) by (by left || by right || done).
      - intros E'. by apply (pr_other _ _ Pr j id); [right|left|].
      - apply (pr_other _ _ Pr id j); [by left|by right]. }
    assert ((q ∉ map (partner_of m) ids) /\ (id ∉ map (partner_of m) ids)) as [Hqm Him].
    { split; intros (j & Hj & Hjin%list_elem_of_In)%list_elem_of_In%in_map_iff; destruct (Hd j Hjin) as (? & ? & ?); congruence. }
    split; fold m.
    + exists m', h'. rewrite Fs. done.
    + split; congruence.
    + split; [congruence|]. rewrite F2'. exact Hlm.
    + intros i r Hr. destruct (S4 i r Hr) as (r1 & Hr1 & E1 & E2 & E3), (F3 i r1 Hr1) as (r2 & Hr2 & E4 & E5 & E6). exists r2. split; [done|]. split; [congruence|]. split; [congruence|].
      intros [Hne Hni']%not_elem_of_cons. rewrite E6 by done. by apply E3.
    + intros j [->|Hj]%elem_of_cons.
      * rewrite F6, Hmi, Hx; [done|by rewrite Z2Nat.id by done|by rewrite Z2Nat.id by done].
      * rewrite (F4 j Hj), Hm1; [done|..]; destruct (pr_page _ _ Pr j) as [Hj0 _]; [by right| |by right|]; destruct (Hd j Hj) as (_ & _ & ?); [|lia]. intros E'. apply Hni. by assert (id = j) as -> by lia.
    + intros j [->|Hj]%elem_of_cons; cbn zeta.
      * fold q. rewrite F6, Hmq; [by rewrite Hy|rewrite Z2Nat.id by done|by rewrite Z2Nat.id by done]. intros Hq. by destruct (Hd q Hq) as (_ & _ & ?).
      * pose proof (F5 j Hj) as F5j. cbn zeta in F5j. rewrite (Hp1 j Hj) in F5j. rewrite F5j, Hm1; [done|..]; destruct (Hd j Hj) as (H1 & H2 & _); destruct (pr_partner _ _ Pr j) as [Hj0 _]; try (by right); lia.
    + intros i [Hne Hni']%not_elem_of_cons. cbn [map]. intros [Hne2 Hni2]%not_elem_of_cons. rewrite F6 by done. apply Hm1; lia.
Qed.
