(* ===== verification/CollectorClean.v ===== *)
(** * Removing dead young objects (src/runtime/managed_gc.go)

    After the copy, promoted objects leave the list of young slots and young objects that were not marked are
    freed.  Until then the list also names promoted objects, so the invariant of the directory is weaker. *)

From S2P Require Import Prelude GoStd GoBytes Heap Allocator AllocatorSafe AllocatorRun Collector CollectorMark CollectorPages CollectorCards CollectorCopy.
From stdpp Require Import relations.

#[local] Open Scope Z_scope.
#[local] Arguments Z.to_nat : simpl never.

(** ** The directory while promoted objects are listed as young *)

Record dir_weak (h : managedHeap) (d : directory) : Prop := {
  dw_full : full_segments h;
  dw_next : 1 <= nextSlot d;
  dw_known : forall s, 0 < s < nextSlot d -> is_Some (object h s);
  dw_unused : forall s e, nextSlot d <= s -> object h s = Some e -> e = zero_object;
  dw_free_nodup : NoDup (freeSlots d);
  dw_free : forall s, s ∈ freeSlots d -> 0 < s < nextSlot d /\ exists e, object h s = Some e /\ obj_state e = managedFree /\ obj_generation e < MaxUint32;
  dw_generation : forall s e, object h s = Some e -> 0 <= obj_generation e <= MaxUint32;
  dw_occupied : forall i s, occupied d !! i = Some s -> occupiedIndex (meta d s) = Z.of_nat i /\ exists e, object h s = Some e /\ obj_state e = managedPublished;
  dw_published : forall s e, object h s = Some e -> obj_state e = managedPublished -> s ∈ occupied d;
  dw_young : forall i s, youngSlots d !! i = Some s -> youngIndex (meta d s) = Z.of_nat i /\ exists e, object h s = Some e /\ obj_state e = managedPublished;
  dw_young_all : forall s e, object h s = Some e -> obj_state e = managedPublished -> obj_young e = true -> s ∈ youngSlots d
}.

Lemma dir_weak_ok h d : dir_weak h d -> (forall s e, s ∈ youngSlots d -> object h s = Some e -> obj_young e = true) -> dir_ok h d.
Proof.
  intros [] Hy. split; try done. intros i s Hi. destruct (dw_young0 i s Hi) as (H1 & e & He & Hst). split; [done|]. exists e. split; [done|]. split; [done|].
  eapply Hy; [|exact He]. by eapply list_elem_of_lookup_2.
Qed.

Lemma weak_indexed h d : dir_weak h d -> indexed d.
Proof. intros []. split; [intros j y Hj; by apply dw_occupied0|intros j y Hj; by apply dw_young0]. Qed.

Lemma indexed_nodup d : indexed d -> NoDup (occupied d) /\ NoDup (youngSlots d).
Proof.
  intros [Ho Hy]. split; apply NoDup_alt; intros i j s Hi Hj.
  - apply Ho in Hi, Hj. lia.
  - apply Hy in Hi, Hj. lia.
Qed.

(** A young object is freed. *)
Lemma weak_freed h d s e h' d' :
  dir_weak h d -> object h s = Some e -> obj_state e = managedPublished -> obj_young e = true -> segments h' = segments (set_object s (with_obj_state managedFree e) h) ->
  slot_freed d s true true (negb (obj_generation e =? MaxUint32)) d' -> dir_weak h' d'.
Proof.
  intros D He Hst Hy Es F. set (e' := with_obj_state managedFree e). destruct (indexed_nodup _ (weak_indexed _ _ D)) as [No Ny].
  assert (forall i, object h' i = if decide (i = s) then Some e' else object h i) as Ho.
  { intros i. rewrite (object_segments _ _ i Es). by apply (object_set h s e). }
  assert (forall i f, object h' i = Some f -> obj_state f = managedPublished -> i <> s /\ object h i = Some f) as Hpub.
  { intros i f Hf Hp. rewrite Ho in Hf. destruct (decide (i = s)); [by injection Hf as <-|done]. }
  assert (forall y, y ∈ occupied d' <-> y ∈ occupied d /\ y <> s) as Hocc by (intros y; apply perm_member; [done|apply F]).
  assert (forall y, y ∈ youngSlots d' <-> y ∈ youngSlots d /\ y <> s) as Hyng by (intros y; apply perm_member; [done|apply F]).
  assert (s ∉ freeSlots d) as Hnf by (intros Hf; destruct (dw_free _ _ D s Hf) as (_ & f & Hf' & Hfs & _); congruence).
  assert (0 < s < nextSlot d) as Hs.
  { split; [by eapply object_pos|]. apply Z.nle_gt. intros H. pose proof (dw_unused _ _ D s e H He) as ->. done. }
  pose proof (dw_generation _ _ D s e He) as Hgen.
  split.
  - unfold full_segments. rewrite Es. apply full_set_object, D.
  - rewrite (sf_next _ _ _ _ _ _ F). apply D.
  - intros i Hi. rewrite (sf_next _ _ _ _ _ _ F) in Hi. rewrite Ho. destruct (decide (i = s)); [by eexists|]. by apply D.
  - intros i f Hi Hf. rewrite (sf_next _ _ _ _ _ _ F) in Hi. rewrite Ho in Hf. destruct (decide (i = s)); [lia|]. by eapply D.
  - rewrite (sf_free _ _ _ _ _ _ F). case_match; [|apply D]. apply NoDup_cons. split; [done|apply D].
  - intros i Hi. rewrite (sf_next _ _ _ _ _ _ F). rewrite (sf_free _ _ _ _ _ _ F) in Hi.
    assert (i = s /\ obj_generation e <> MaxUint32 \/ i ∈ freeSlots d) as [[-> Hne]|Hin].
    { destruct (obj_generation e =? MaxUint32) eqn:Eg; cbn [negb] in Hi; breflect; [by right|]. apply elem_of_cons in Hi as [?|?]; [by left|by right]. }
    + split; [done|]. exists e'. rewrite Ho, decide_True by done. split; [done|]. split; [done|]. cbn. lia.
    + destruct (dw_free _ _ D i Hin) as (H1 & H2). split; [done|]. rewrite Ho, decide_False; [done|]. by intros ->.
  - intros i f Hf. rewrite Ho in Hf. destruct (decide (i = s)); [injection Hf as <-; cbn; lia|by eapply D].
  - intros j y Hy'. split; [by eapply (sf_oindex _ _ _ _ _ _ F)|]. assert (y ∈ occupied d') as Hin by by eapply list_elem_of_lookup_2. apply Hocc in Hin as [Hin Hne].
    apply list_elem_of_lookup in Hin as [k Hk]. rewrite Ho, decide_False by done. by eapply (dw_occupied _ _ D k y).
  - intros i f Hf Hp. destruct (Hpub _ _ Hf Hp) as [Hne Hf']. apply Hocc. split; [by eapply D|done].
  - intros j y Hy'. split; [by eapply (sf_yindex _ _ _ _ _ _ F)|]. assert (y ∈ youngSlots d') as Hin by by eapply list_elem_of_lookup_2. apply Hyng in Hin as [Hin Hne].
    apply list_elem_of_lookup in Hin as [k Hk]. rewrite Ho, decide_False by done. by eapply (dw_young _ _ D k y).
  - intros i f Hf Hp Hy'. destruct (Hpub _ _ Hf Hp) as [Hne Hf']. apply Hyng. split; [by eapply (dw_young_all _ _ D)|done].
Qed.

(** A promoted object leaves the list. *)
Lemma weak_removed h d s e d1 :
  dir_weak h d -> object h s = Some e -> obj_young e = false -> freeSlots d1 = freeSlots d -> occupied d1 = occupied d -> nextSlot d1 = nextSlot d ->
  youngSlots d ≡ₚ s :: youngSlots d1 -> (forall j y, youngSlots d1 !! j = Some y -> youngIndex (meta d1 y) = Z.of_nat j) ->
  (forall i, with_young 0 (meta d1 i) = with_young 0 (meta d i)) -> dir_weak h d1.
Proof.
  intros D He Hy Ef Eo En Ep Hix Hm. destruct (indexed_nodup _ (weak_indexed _ _ D)) as [_ Ny].
  assert (forall y, y ∈ youngSlots d1 <-> y ∈ youngSlots d /\ y <> s) as Hyng by (intros y; by apply perm_member).
  split; rewrite ?Ef, ?Eo, ?En; try apply D.
  - intros i t Hi. destruct (dw_occupied _ _ D i t Hi) as [H1 H2]. split; [|done]. destruct (unindexed_young _ _ (Hm t)) as [_ ->]. done.
  - intros i t Hi. split; [by apply Hix|]. assert (t ∈ youngSlots d1) as Hin by by eapply list_elem_of_lookup_2. apply Hyng in Hin as [Hin _].
    apply list_elem_of_lookup in Hin as [k Hk]. by eapply (dw_young _ _ D k t).
  - intros t f Hf Hp Hyf. apply Hyng. split; [by eapply (dw_young_all _ _ D)|]. intros ->. congruence.
Qed.

(** [freeObject] for a young object needs only the lists and the page. *)
Lemma free_young a s e x :
  indexed (dir a) -> s ∈ occupied (dir a) -> s ∈ youngSlots (dir a) -> object (mem a) s = Some e -> obj_state e = managedPublished -> obj_young e = true ->
  page_meta a (obj_page e) = Some x ->
  exists d, freeObject s true a =
      (Ok tt, set_dir d (set_mem (set_object s (with_obj_state managedFree e) (mem a)) (set_led (unlist_ledger (logical (meta (dir a) s)) true true) a))) /\
    slot_freed (dir a) s true true (negb (obj_generation e =? MaxUint32)) d.
Proof.
  intros Ix Ho Hys He Hst Hy Hx. unfold freeObject. rewrite He, bool_decide_false by by rewrite Hst. fold (unlist s e (logical (meta (dir a) s)) true).
  unfold alloc_bind at 1, vacate_page. rewrite Hx, Hy.
  destruct (unlist_spec a s e (logical (meta (dir a) s)) true Ix) as (d & Eu & T); [done|done|]. unfold alloc_bind at 1. rewrite Eu. unfold alloc_bind at 1. cbn [modify].
  set (recycled := negb (obj_generation e =? MaxUint32)). exists (emptied s recycled d). rewrite Hy in *. split; [unfold recycled; by destruct (negb (obj_generation e =? MaxUint32))|].
  by apply emptied_spec.
Qed.

(** ** The ledger while promoted objects are listed as young *)

Definition slot_bytes (a : allocator) (s : Z) : Z := logical (meta (dir a) s).

Definition ledger_weak (a : allocator) : Prop :=
  ledger_ok (set_led (with_young_bytes (sum (map (slot_bytes a) (youngSlots (dir a))))) a) /\ youngBytes (led a) = young_sum a (youngSlots (dir a)).

Lemma ledger_weak_ok a : ledger_weak a -> (forall s, s ∈ youngSlots (dir a) -> young_in (mem a) s = true) -> ledger_ok a.
Proof.
  intros [L E] Hy. assert (set_led (with_young_bytes (sum (map (slot_bytes a) (youngSlots (dir a))))) a = a) as Ea; [|by rewrite Ea in L].
  replace (sum (map (slot_bytes a) (youngSlots (dir a)))) with (youngBytes (led a)); [by destruct a as [? ? ? [] ? ? ? ? ? ?]|].
  rewrite E. unfold young_sum. apply sum_map_ext. intros s Hs. by rewrite (Hy s Hs).
Qed.

Lemma young_sum_le a l : (forall s, 0 <= logical (meta (dir a) s)) -> 0 <= young_sum a l <= sum (map (slot_bytes a) l).
Proof. intros H. unfold young_sum, slot_bytes. induction l as [|s l IH]; [done|]. cbn [map sum foldr]. specialize (H s). unfold sum in IH. destruct (young_in (mem a) s); lia. Qed.

Lemma weak_sums a : dir_weak (mem a) (dir a) -> ledger_weak a ->
  (forall s, 0 <= logical (meta (dir a) s)) /\ 0 <= young_sum a (youngSlots (dir a)) <= sum (map (slot_bytes a) (occupied (dir a))) /\
  occupiedBytes (led a) = sum (map (slot_bytes a) (occupied (dir a))) + controlBytes (led a) /\ 0 <= controlBytes (led a) /\ 0 <= reservedBytes (led a) /\
  occupiedBytes (led a) + reservedBytes (led a) <= MaxInt64.
Proof.
  intros D [L _]. pose proof (led_logical _ L) as Hl. cbn [set_led dir] in Hl. split; [done|]. split.
  - pose proof (young_sum_le a (youngSlots (dir a)) Hl) as Hy. assert (youngSlots (dir a) ⊆+ occupied (dir a)) as Hs.
    { apply NoDup_submseteq; [by eapply indexed_nodup, weak_indexed|]. intros s [i Hi]%list_elem_of_lookup. destruct (dw_young _ _ D i s Hi) as (_ & e & He & Hst). by eapply D. }
    pose proof (sum_submseteq (map (slot_bytes a) (youngSlots (dir a))) (map (slot_bytes a) (occupied (dir a))) (fmap_submseteq _ _ _ Hs) ltac:(apply Forall_map, Forall_forall; intros; apply Hl)) as Hle. lia.
  - split; [apply (led_occupied _ L)|]. split; [apply (led_control _ L)|]. split; [apply (ledger_nonneg _ L)|apply (led_word _ L)].
Qed.

Lemma pending_none a : (forall r x, reservations a !! r = Some x -> res_done x = true) -> sum (pending_bytes a) = 0.
Proof.
  intros H. unfold pending_bytes. induction (reservations a) as [|x l IH]; [done|]. cbn [map sum foldr]. rewrite (H 0%nat x eq_refl). unfold sum in IH. rewrite IH; [done|].
  intros r y Hy. by apply (H (S r)).
Qed.

Lemma weak_ledger_freed a a' s e :
  dir_weak (mem a) (dir a) -> ledger_weak a -> object (mem a) s = Some e -> obj_state e = managedPublished -> obj_young e = true ->
  slot_freed (dir a) s true true (negb (obj_generation e =? MaxUint32)) (dir a') ->
  (forall i, i <> s -> young_in (mem a') i = young_in (mem a) i) -> (forall r x, reservations a !! r = Some x -> res_done x = true) ->
  led a' = unlist_ledger (slot_bytes a s) true true (led a) -> conf a' = conf a -> controls a' = controls a -> reservations a' = reservations a -> ledger_weak a'.
Proof.
  intros D W He Hst Hy F Hyi Hres El Ec Ek Er. destruct (weak_sums a D W) as (Hl & Hys & Hocc & Hctl & Hrs & Hw). destruct W as [L Ey]. set (f := slot_bytes a) in *. set (f' := slot_bytes a').
  destruct (indexed_nodup _ (weak_indexed _ _ D)) as [No Ny].
  assert (forall i, i <> s -> f' i = f i) as Hf by (intros i Hi; unfold f', f, slot_bytes; by rewrite (sf_logical _ _ _ _ _ _ F), decide_False).
  assert (forall i, 0 <= f' i) as Hf0 by (intros i; unfold f', slot_bytes; rewrite (sf_logical _ _ _ _ _ _ F); destruct (decide (i = s)); [lia|apply Hl]).
  pose proof (sum_removed f f' s _ _ No (sf_occupied _ _ _ _ _ _ F) Hf) as So.
  set (k := fun i => if young_in (mem a) i then f i else 0). set (k' := fun i => if young_in (mem a') i then f' i else 0).
  pose proof (sum_removed k k' s _ _ Ny (sf_young _ _ _ _ _ _ F) ltac:(intros i Hi; unfold k, k'; by rewrite Hyi, Hf)) as Sy.
  assert (k s = f s) as Eks by (unfold k, young_in; by rewrite He, Hy). rewrite Eks in Sy. change (sum (map k (youngSlots (dir a)))) with (young_sum a (youngSlots (dir a))) in Sy.
  assert (0 <= sum (map f' (occupied (dir a')))) as Ho0 by (apply sum_nonneg, Forall_map, Forall_forall; intros; apply Hf0).
  assert (0 <= sum (map k' (youngSlots (dir a')))) as Hy0 by (apply sum_nonneg, Forall_map, Forall_forall; intros i _; unfold k'; destruct (young_in (mem a') i); [apply Hf0|lia]).
  assert (0 <= f s) as Hs0 by apply Hl. unfold MaxInt64 in Hw.
  assert (occupiedBytes (led a') = sum (map f' (occupied (dir a'))) + controlBytes (led a)) as Eo by (rewrite El; cbn; rewrite u64_id by lia; lia).
  assert (youngBytes (led a') = young_sum a' (youngSlots (dir a'))) as Ey' by (change (young_sum a' (youngSlots (dir a'))) with (sum (map k' (youngSlots (dir a')))); rewrite El; cbn; rewrite Ey, u64_id by lia; lia).
  split; [|done]. fold f'. assert (control_bytes a' = control_bytes a) as Eb by (unfold control_bytes; by rewrite Ek).
  assert (reservedBytes (led a') = reservedBytes (led a) /\ controlBytes (led a') = controlBytes (led a) /\ residentPageBytes (led a') = residentPageBytes (led a)) as (R1 & R2 & R3) by by rewrite El.
  destruct L as [L1 L2 L3 L4 L5 L6 L7 L8 L9 L10]. cbn [set_led with_young_bytes led dir conf occupiedBytes reservedBytes residentPageBytes youngBytes controlBytes] in *.
  split; cbn [set_led with_young_bytes led dir conf occupiedBytes reservedBytes residentPageBytes youngBytes controlBytes]; rewrite ?R1, ?R2, ?R3, ?Ec.
  - done.
  - unfold control_bytes in *. cbn in *. by rewrite Ek.
  - done.
  - exact Eo.
  - rewrite L5. unfold pending_bytes, control_bytes in *. cbn in *. rewrite Ek. f_equal.
    transitivity 0; [|symmetry]; apply pending_none; [done|]. cbn. by rewrite Er.
  - done.
  - unfold MaxInt64. lia.
  - intros Hne. specialize (L8 Hne). lia.
  - done.
  - done.
Qed.

Lemma weak_ledger_removed a s e d1 :
  dir_weak (mem a) (dir a) -> ledger_weak a -> object (mem a) s = Some e -> obj_young e = false -> occupied d1 = occupied (dir a) ->
  youngSlots (dir a) ≡ₚ s :: youngSlots d1 -> (forall i, with_young 0 (meta d1 i) = with_young 0 (meta (dir a) i)) -> ledger_weak (set_dir d1 a).
Proof.
  intros D [L Ey] He Hy Eo Ep Hm. assert (forall i, logical (meta d1 i) = logical (meta (dir a) i)) as El.
  { intros i. destruct (unindexed_young _ _ (Hm i)) as [Hu _]. by apply unindexed_fields in Hu as (_ & _ & -> & _). }
  destruct (indexed_nodup _ (weak_indexed _ _ D)) as [_ Ny]. split.
  - destruct L as [L1 L2 L3 L4 L5 L6 L7 L8 L9 L10]. cbn [set_led with_young_bytes led dir conf occupiedBytes reservedBytes residentPageBytes youngBytes controlBytes] in *.
    split; cbn [set_led set_dir with_young_bytes led dir conf occupiedBytes reservedBytes residentPageBytes youngBytes controlBytes]; try done.
    + intros i. by rewrite El.
    + rewrite L4, Eo. f_equal. apply sum_map_ext. intros i _. by rewrite El.
    + rewrite L5. f_equal. f_equal. apply map_ext. intros x. cbn. by rewrite El.
  - cbn [set_dir led dir]. rewrite Ey. unfold young_sum. cbn [set_dir dir mem].
    rewrite (sum_removed (fun s => if young_in (mem a) s then logical (meta (dir a) s) else 0) (fun s => if young_in (mem a) s then logical (meta d1 s) else 0) s _ _ Ny Ep) by (intros i _; by rewrite El).
    unfold young_in at 1. by rewrite He, Hy.
Qed.

(** ** The loop *)

(** A young object that was not marked. *)
Definition dead_young (ep : Z) (a : allocator) (s : Z) (e : managedObject) : Prop :=
  object (mem a) s = Some e /\ obj_state e = managedPublished /\ obj_young e = true /\ marked (meta (dir a) s) <> ep.

Record cleaning (ep : Z) (g1 : collector) (index : nat) (g : collector) : Prop := {
  cl_gc : epoch g = ep /\ poisonCollected g = poisonCollected g1 /\ totals g = totals g1 /\ reachableBytes (counts g) = reachableBytes (counts g1);
  cl_fixed : conf (owner g) = conf (owner g1) /\ caps (owner g) = caps (owner g1) /\ layouts (owner g) = layouts (owner g1) /\
    layoutOwners (owner g) = layoutOwners (owner g1) /\ reservations (owner g) = reservations (owner g1) /\ controls (owner g) = controls (owner g1) /\ pgs (owner g) = pgs (owner g1);
  cl_mem : pages (mem (owner g)) = pages (mem (owner g1)) /\ pendingCards (mem (owner g)) = pendingCards (mem (owner g1));
  cl_weak : dir_weak (mem (owner g)) (dir (owner g));
  cl_ledger : ledger_weak (owner g);
  cl_objects : forall i, object (mem (owner g)) i = object (mem (owner g1)) i \/
    exists e, dead_young ep (owner g1) i e /\ object (mem (owner g)) i = Some (with_obj_state managedFree e);
  cl_prefix : forall j s, (j < index)%nat -> youngSlots (dir (owner g)) !! j = Some s -> young_in (mem (owner g)) s = true /\ marked (meta (dir (owner g)) s) = ep;
  cl_meta : forall i e, object (mem (owner g)) i = Some e -> obj_state e = managedPublished -> unindexed (meta (dir (owner g)) i) = unindexed (meta (dir (owner g1)) i);
  cl_led : controlBytes (led (owner g)) = controlBytes (led (owner g1)) /\ unpublished (led (owner g)) = unpublished (led (owner g1)) /\ residentPageBytes (led (owner g)) = residentPageBytes (led (owner g1));
  cl_bounds : nextSlot (dir (owner g)) = nextSlot (dir (owner g1)) /\ (length (occupied (dir (owner g))) <= length (occupied (dir (owner g1))))%nat /\
    (length (youngSlots (dir (owner g))) <= length (youngSlots (dir (owner g1))))%nat
}.

Section cleaning.
  Context (ep : Z) (g1 : collector).
  Context (Hpages : forall s e, object (mem (owner g1)) s = Some e -> obj_state e = managedPublished -> obj_young e = true -> is_Some (page_meta (owner g1) (obj_page e))).
  Context (Hdone : forall r x, reservations (owner g1) !! r = Some x -> res_done x = true).

(** An object that is still published is as it was. *)
Lemma cleaning_same index g s e : cleaning ep g1 index g -> object (mem (owner g)) s = Some e -> obj_state e = managedPublished -> object (mem (owner g1)) s = Some e.
Proof using. intros C He Hst. destruct (cl_objects _ _ _ _ C s) as [E|(f & _ & E)]; [congruence|]. rewrite E in He. by injection He as <-. Qed.

Lemma clean_promoted index g s e :
  cleaning ep g1 index g -> youngSlots (dir (owner g)) !! index = Some s -> object (mem (owner g)) s = Some e -> obj_state e = managedPublished -> obj_young e = false ->
  let g' := set_owner (removeYoungSlot s) g in cleaning ep g1 index g' /\ S (length (youngSlots (dir (owner g')))) = length (youngSlots (dir (owner g))).
Proof using.
  intros C Hs He Hst Hy g'. pose proof (cl_weak _ _ _ _ C) as D. destruct (dw_young _ _ D index s Hs) as [Eix _]. pose proof (lookup_lt_Some _ _ _ Hs) as Hlt.
  destruct (remove_young_spec s (dir (owner g))) as (d1 & E1 & F1 & O1 & N1 & P1 & I1 & M1); [by apply (weak_indexed _ _ D)|by eapply list_elem_of_lookup_2|].
  assert (g' = set_owner (set_dir d1) g) as ->.
  { unfold g', set_owner, removeYoungSlot. rewrite Eix, (proj2 (Z.leb_gt _ _)) by lia. rewrite Nat2Z.id, bool_decide_true by done. cbn [negb orb]. by rewrite E1. }
  cbn [set_owner owner set_dir dir mem]. pose proof (Permutation_length P1) as Hlen. cbn in Hlen. split; [|lia].
  assert (forall i, unindexed (meta d1 i) = unindexed (meta (dir (owner g)) i)) as U by (intros i; by apply unindexed_young).
  destruct C as [C1 C2 C3 C4 C5 C6 C7 C8 C9 C10]. split; try done.
  - cbn. by eapply (weak_removed _ _ s e).
  - by apply (weak_ledger_removed (owner g) s e).
  - cbn. intros j t Hj Ht. rewrite (remove_young_prefix s _ _ E1) in Ht by lia. destruct (C7 j t Hj Ht) as [H1 H2]. split; [done|].
    pose proof (U t) as Ut. apply unindexed_fields in Ut as (_ & _ & _ & -> & _). done.
  - cbn. intros i f Hf Hfs. rewrite U. by eapply C8.
  - cbn. rewrite O1, N1. destruct C10 as (? & ? & ?). split; [done|]. split; [done|lia].
Qed.

Lemma clean_dead index g s e :
  cleaning ep g1 index g -> youngSlots (dir (owner g)) !! index = Some s -> object (mem (owner g)) s = Some e -> obj_state e = managedPublished -> obj_young e = true ->
  marked (meta (dir (owner g)) s) <> ep ->
  exists g', (let& _ := gc_modify (set_counts (count_reclaimed (logical (meta (dir (owner g)) s)))) in gc_lift (freeObject s true)) g = (Ok tt, g') /\
    cleaning ep g1 index g' /\ S (length (youngSlots (dir (owner g')))) = length (youngSlots (dir (owner g))).
Proof using Hpages Hdone.
  intros C Hs He Hst Hy Hm. pose proof (cl_weak _ _ _ _ C) as D. destruct (dw_young _ _ D index s Hs) as [Eix _]. pose proof (lookup_lt_Some _ _ _ Hs) as Hlt.
  pose proof (cleaning_same index g s e C He Hst) as He1. destruct (Hpages s e He1 Hst Hy) as [x Hx]. destruct (cl_fixed _ _ _ _ C) as (X1 & X2 & X3 & X4 & X5 & X6 & X7).
  destruct (free_young (owner g) s e x) as (d & E & F); try done; [by apply (weak_indexed _ _ D)|by eapply D|by eapply list_elem_of_lookup_2|unfold page_meta; by rewrite X7|].
  eexists. split; [unfold gc_bind; cbn [gc_modify]; unfold gc_lift; cbn [set_counts owner]; rewrite E; done|]. set (a' := set_dir d _). pose proof (Permutation_length (sf_young _ _ _ _ _ _ F)) as Hlen. cbn in Hlen.
  pose proof (Permutation_length (sf_occupied _ _ _ _ _ _ F)) as Hleno. cbn in Hleno.
  assert (forall i, object (mem a') i = if decide (i = s) then Some (with_obj_state managedFree e) else object (mem (owner g)) i) as Ho by (intros i; by apply (object_set (mem (owner g)) s e)).
  assert (forall i, i <> s -> unindexed (meta (dir a') i) = unindexed (meta (dir (owner g)) i)) as U.
  { intros i Hi. pose proof (sf_meta _ _ _ _ _ _ F i) as Hu. pose proof (sf_logical _ _ _ _ _ _ F i) as Hlg. rewrite decide_False in Hlg by done. cbn [a' set_dir dir].
    destruct (meta d i), (meta (dir (owner g)) i). unfold unindexed, with_occupied, with_young, with_logical in *. cbn in *. congruence. }
  split; [|cbn; lia]. pose proof (cl_meta _ _ _ _ C s e He Hst) as Hms. apply unindexed_fields in Hms as (_ & _ & _ & Hms & _).
  destruct C as [C1 C2 C3 C4 C5 C6 C7 C8 C9 C10]. split; try done; cbn [owner].
  - by eapply (weak_freed (mem (owner g)) (dir (owner g)) s e).
  - eapply (weak_ledger_freed (owner g) a' s e); try done; [|by rewrite X5]. intros i Hi. unfold young_in. by rewrite Ho, decide_False.
  - intros i. rewrite Ho. destruct (decide (i = s)) as [->|Hne]; [|by apply C6]. right. exists e. split; [|done]. split; [done|]. split; [done|]. split; [done|]. by rewrite <- Hms.
  - intros j t Hj Ht. cbn [a' set_dir dir] in Ht. rewrite (sf_prefix _ _ _ _ _ _ F j) in Ht by lia. destruct (C7 j t Hj Ht) as [H1 H2].
    assert (t <> s) as Hts by (intros ->; congruence). split; [unfold young_in in *; by rewrite Ho, decide_False|]. pose proof (U t Hts) as Ut. by apply unindexed_fields in Ut as (_ & _ & _ & -> & _).
  - intros i f Hf Hfs. rewrite Ho in Hf. destruct (decide (i = s)) as [->|Hne]; [by injection Hf as <-|]. rewrite U by done. by eapply C8.
  - cbn. rewrite (sf_next _ _ _ _ _ _ F). destruct C10 as (? & ? & ?). split; [done|]. split; lia.
Qed.

Lemma clean_loop_spec fuel index g :
  cleaning ep g1 index g -> (length (youngSlots (dir (owner g))) <= fuel + index)%nat ->
  exists g', clean_loop fuel index g = (Ok tt, g') /\ cleaning ep g1 (length (youngSlots (dir (owner g')))) g'.
Proof using Hpages Hdone.
  revert index g. induction fuel as [|fuel IH]; intros index g C Hf; cbn [clean_loop]; destruct (youngSlots (dir (owner g)) !! index) as [s|] eqn:Hs.
  1: { apply lookup_lt_Some in Hs. lia. }
  2: { pose proof (lookup_lt_Some _ _ _ Hs) as Hlt. destruct (dw_young _ _ (cl_weak _ _ _ _ C) index s Hs) as (_ & e & He & Hst). rewrite He, bool_decide_true by done. cbn [andb].
    destruct (cl_gc _ _ _ _ C) as (Eep & _). rewrite Eep. destruct (obj_young e) eqn:Hy; cbn [andb negb].
    - destruct (Z.eqb_spec (marked (meta (dir (owner g)) s)) ep) as [Hm|Hm].
      + apply IH; [|lia]. destruct C. split; try done. intros j t Hj Ht. destruct (decide (j = index)) as [->|Hne]; [|by eapply cl_prefix0; [|exact Ht]; lia].
        assert (t = s) as -> by congruence. split; [unfold young_in; by rewrite He|done].
      + destruct (clean_dead index g s e C Hs He Hst Hy Hm) as (g' & E & C' & Hlen). destruct (IH index g' C') as (g2 & E2 & C2); [lia|]. exists g2. split; [|done].
        unfold gc_bind in *. cbn [gc_modify] in *. rewrite E. exact E2.
    - destruct (clean_promoted index g s e C Hs He Hst Hy) as [C' Hlen]. unfold gc_bind. cbn [gc_modify]. apply IH; [done|lia]. }
  all: exists g; split; [done|]; apply lookup_ge_None in Hs; destruct C; split; try done; intros j t Hj Ht; eapply cl_prefix0; [|exact Ht]; lia.
Qed.
End cleaning.
