(* ===== verification/CollectorMajor.v ===== *)
(** * Major collections (src/runtime/managed_gc.go)

    The phases of a collection put together: what the roots reach keeps its references and its bytes, the
    rest is freed, and the invariants of the allocator and of the collector hold again. *)

From S2P Require Import Prelude GoStd GoBytes Heap Allocator AllocatorSafe AllocatorRun Collector CollectorMark CollectorPages CollectorSweep CollectorCards.
From S2P Require Import CollectorCopy CollectorFlip CollectorClean.
From stdpp Require Import relations.

#[local] Open Scope Z_scope.
#[local] Arguments Z.to_nat : simpl never.

(** ** Opening the partners *)

(** All live objects are published: nothing is reserved. *)
Definition all_published (a : allocator) : Prop := forall s e, lives (mem a) s e -> obj_state e = managedPublished.

(** Marked objects have the shape of their layouts and store references that resolve. *)
Definition marked_graph (ep : Z) (a : allocator) : Prop :=
  forall s e, object (mem a) s = Some e -> obj_state e = managedPublished -> marked (meta (dir a) s) = ep ->
    exists l p, described a s e = Some (l, p) /\ layout_ok l /\ 0 <= count (meta (dir a) s) /\ count (meta (dir a) s) * lstride l <= obj_size e /\
      forall ref, ref ∈ children l (count (meta (dir a) s)) (data p) (obj_offset e) -> valid ref = true /\ marked (meta (dir a) (slot ref)) = ep /\ exists f, resolveObject (mem a) ref = Ok f.

Lemma nursery_metas h g id : pages_ok h g -> id ∈ nurseryPages g -> 0 <= id /\ exists x, pmetas g !! Z.to_nat id = Some x /\ kind x = managedYoungPage /\ partner_of (pmetas g) id = partner x.
Proof.
  intros G Hid. destruct (pg_nursery _ _ G id Hid) as (H0 & p & x & _ & Hx & _ & Hk & _). split; [done|]. exists x. unfold partner_of. by rewrite Hx.
Qed.

Lemma nursery_partner h g id : pages_ok h g -> gc_pages h g -> id ∈ nurseryPages g -> partner_ok h g (partner_of (pmetas g) id).
Proof. intros G C Hid. destruct (nursery_metas _ _ _ G Hid) as (_ & x & Hx & _ & ->). by apply (gp_partner _ _ C id). Qed.

Lemma gc_paired h g : pages_ok h g -> gc_pages h g -> paired (pmetas g) (nurseryPages g).
Proof.
  intros G C. split.
  - apply C.
  - intros id Hid. destruct (nursery_metas _ _ _ G Hid) as (H0 & x & Hx & _). by split.
  - intros id Hid. destruct (nursery_partner _ _ _ G C Hid) as [H0 (p & y & _ & Hy & _)]. by split.
  - intros id id' Hid Hid' E. destruct (nursery_partner _ _ _ G C Hid) as [_ (p & y & _ & Hy & _ & Hky)]. destruct (nursery_metas _ _ _ G Hid') as (_ & z & Hz & Hkz & _).
    rewrite E in Hy. congruence.
  - intros id id' Hid Hid' E. destruct (nursery_metas _ _ _ G Hid) as (_ & x & Hx & _ & Ex), (nursery_metas _ _ _ G Hid') as (_ & x' & Hx' & _ & Ex'). apply (gp_inj _ _ C id id' x x'); congruence.
Qed.

Lemma opened_copyable n a ep m :
  alloc_ok n a -> gc_pages (mem a) (pgs a) -> all_published a -> marked_graph ep a -> opened (pmetas (pgs a)) (nurseryPages (pgs a)) m -> copyable (set_metas m a) ep.
Proof.
  intros A C Pb Gr [Hlen Hm]. pose proof (ok_pages _ _ A) as G. set (g := pgs a) in *.
  assert (forall id, id ∈ map (partner_of (pmetas g)) (nurseryPages g) -> exists j, j ∈ nurseryPages g /\ id = partner_of (pmetas g) j) as Hpa.
  { intros id (j & <- & Hj%list_elem_of_In)%list_elem_of_In%in_map_iff. by exists j. }
  assert (forall i x, pmetas g !! i = Some x -> kind x <> managedSparePage -> m !! i = Some x) as Hkeep.
  { intros i x Hx Hk. rewrite Hm, decide_False; [done|]. intros (j & Hj & E)%Hpa. destruct (nursery_partner _ _ j G C Hj) as [_ (p & y & _ & Hy & _ & Hky)].
    rewrite <- E, Nat2Z.id in Hy. congruence. }
  assert (forall i x', m !! i = Some x' -> exists x, pmetas g !! i = Some x /\ (x' = x \/ kind x = managedSparePage /\ x' = with_kind managedYoungPage 0 x)) as Hback.
  { intros i x' Hx'. rewrite Hm in Hx'. destruct (decide _) as [Hin|]; [|exists x'; split; [done|by left]]. destruct (pmetas g !! i) as [x|] eqn:Hx; [|done]. cbn in Hx'. injection Hx' as <-.
    exists x. split; [done|]. right. split; [|done]. apply Hpa in Hin as (j & Hj & E). destruct (nursery_partner _ _ j G C Hj) as [_ (p & y & _ & Hy & _ & Hky)]. rewrite <- E, Nat2Z.id in Hy. congruence. }
  assert (forall id, id ∈ nurseryPages g -> m !! Z.to_nat id = pmetas g !! Z.to_nat id) as Hnur.
  { intros id Hid. destruct (nursery_metas _ _ _ G Hid) as (_ & x & Hx & Hk & _). rewrite Hx. apply Hkeep; [done|by rewrite Hk]. }
  split; cbn [set_metas set_pgs mem dir pgs led nurseryPages freePages pmetas].
  - apply A.
  - split; cbn; try apply G.
    + rewrite Hlen. apply G.
    + intros id Hid. rewrite Hnur by done. by apply (pg_nursery _ _ G).
    + intros s e Hs. destruct (pg_placed _ _ G s e Hs) as [H1 (p & x & Hp & Hx & H2 & H3 & H4)]. split; [done|]. exists p, x. split; [done|]. split; [|done]. apply Hkeep; [done|].
      intros Hk. unfold in_place in H4. rewrite Hk in H4. destruct (obj_young e); [by destruct H4|]. by destruct H4 as [(? & _)|(? & _)].
  - destruct (gc_pages_old _ _ C) as [O1 O2 O3 O4 O5 O6]. split; cbn; try done.
    + intros s e x' Hs Hy Hx'. destruct (Hback _ _ Hx') as (x & Hx & [->|[Hk ->]]); [by apply (O2 s)|]. done.
    + intros i p x' Hp Hx' Hk. destruct (Hback _ _ Hx') as (x & Hx & [->|[Hk' ->]]); [by apply (O3 i)|]. done.
    + intros i l id Hi Hid. destruct (O4 i l id Hi Hid) as (H0 & x & Hx & Hk & Hc). split; [done|]. exists x. split; [|done]. apply Hkeep; [done|by rewrite Hk].
    + intros id Hid. destruct (O5 id Hid) as (x & Hx & Hk). exists x. split; [|done]. apply Hkeep; [done|by rewrite Hk].
    + intros i x' Hx'. destruct (Hback _ _ Hx') as (x & Hx & [->|[_ ->]]); by apply (O6 i x).
  - destruct (ok_ledger _ _ A). by split.
  - done.
  - apply C.
  - apply C.
  - intros id x Hid Hx. rewrite Hnur in Hx by done. destruct (gp_partner _ _ C id x Hid Hx) as [H0 (p & y & Hp & Hy & Hd & Hk)]. split; [done|]. split; [|split].
    + intros Hin. destruct (nursery_metas _ _ _ G Hin) as (_ & z & Hz & Hkz & _). congruence.
    + intros Hin. destruct (gp_free _ _ C _ Hin) as (z & Hz & Hkz). congruence.
    + exists p, (with_kind managedYoungPage 0 y). split; [done|]. split; [|done]. rewrite Hm, decide_True, Hy; [done|]. rewrite Z2Nat.id by done. apply list_elem_of_In, in_map_iff. exists id.
      split; [unfold partner_of; by rewrite Hx|by apply list_elem_of_In].
  - intros id id' x x' Hid Hid' Hx Hx'. rewrite Hnur in Hx, Hx' by done. by apply (gp_inj _ _ C id id').
  - intros s e He Hst Hmk. destruct (Gr s e He Hst Hmk) as (l & p & H1 & H2 & H3 & H4 & H5). exists l, p. repeat (split; [done|]). intros ref Hr. by apply H5.
Qed.

(** ** The directory and the ledger after the copy *)

Lemma copying_back ep g0 rest g s e : copying ep g0 rest g -> object (mem (owner g)) s = Some e ->
  exists e0, object (mem (owner g0)) s = Some e0 /\ carried (owner g0) ep rest (mem (owner g)) s e0 e.
Proof.
  intros C He. destruct (object (mem (owner g0)) s) as [e0|] eqn:He0.
  - destruct (cp_objects _ _ _ _ C s e0 He0) as (e1 & He1 & Cs). assert (e1 = e) as -> by congruence. by exists e0.
  - rewrite (proj2 (cp_full _ _ _ _ C) s He0) in He. done.
Qed.

Lemma copying_weak ep g0 rest g : copyable (owner g0) ep -> copying ep g0 rest g -> dir_weak (mem (owner g)) (dir (owner g)).
Proof.
  intros Y C. pose proof (cy_dir _ _ Y) as D. destruct (cp_dir _ _ _ _ C) as (E1 & E2 & E3 & E4). pose proof (fun s => with_age_fields _ _ (cp_meta _ _ _ _ C s)) as Em.
  assert (forall s e0, object (mem (owner g0)) s = Some e0 -> exists e, object (mem (owner g)) s = Some e /\ kin e0 e) as Hf.
  { intros s e0 He0. destruct (cp_objects _ _ _ _ C s e0 He0) as (e & He & Cs). exists e. split; [done|apply Cs]. }
  split; rewrite ?E1, ?E2, ?E3, ?E4; try apply D.
  - apply C.
  - intros s Hs. destruct (dir_known _ _ D s Hs) as [e0 He0]. destruct (Hf s e0 He0) as (e & He & _). by exists e.
  - intros s e Hs He. destruct (copying_back _ _ _ _ _ _ C He) as (e0 & He0 & Cs). pose proof (dir_unused _ _ D s e0 Hs He0) as ->. apply Cs. right. right. right. unfold live. cbn. tauto.
  - intros s Hs. destruct (dir_free _ _ D s Hs) as (H1 & e0 & He0 & Hst & Hg). split; [done|]. destruct (Hf s e0 He0) as (e & He & K1 & K2 & _). exists e. by rewrite K1, K2.
  - intros s e He. destruct (copying_back _ _ _ _ _ _ C He) as (e0 & He0 & Cs). destruct (ca_kin _ _ _ _ _ _ _ Cs) as (_ & -> & _). by eapply D.
  - intros i s Hi. destruct (dir_occupied _ _ D i s Hi) as (H1 & e0 & He0 & Hst). destruct (Em s) as (_ & _ & _ & _ & -> & _). split; [done|].
    destruct (Hf s e0 He0) as (e & He & K1 & _). exists e. by rewrite K1.
  - intros s e He Hst. destruct (copying_back _ _ _ _ _ _ C He) as (e0 & He0 & Cs). destruct (ca_kin _ _ _ _ _ _ _ Cs) as (K1 & _). eapply D; [exact He0|congruence].
  - intros i s Hi. destruct (dir_young _ _ D i s Hi) as (H1 & e0 & He0 & Hst & _). destruct (Em s) as (_ & _ & _ & _ & _ & ->). split; [done|].
    destruct (Hf s e0 He0) as (e & He & K1 & _). exists e. by rewrite K1.
  - intros s e He Hst Hy. destruct (copying_back _ _ _ _ _ _ C He) as (e0 & He0 & Cs). destruct (ca_kin _ _ _ _ _ _ _ Cs) as (K1 & _ & _ & K4). eapply (dir_young_all _ _ D); [exact He0|congruence|by apply K4].
Qed.

Lemma copying_ledger ep g0 rest g : copyable (owner g0) ep -> copying ep g0 rest g -> ledger_weak (owner g).
Proof.
  intros Y C. destruct (cp_dir _ _ _ _ C) as (_ & E2 & E3 & _). pose proof (fun s => with_age_fields _ _ (cp_meta _ _ _ _ C s)) as Em. assert (forall s, logical (meta (dir (owner g)) s) = logical (meta (dir (owner g0)) s)) as El by (intros s; apply Em).
  pose proof (cp_ledger _ _ _ _ C) as Hl. destruct (cp_fixed _ _ _ _ C) as (X1 & _ & _ & _ & X5 & X6). unfold ledger_weak. rewrite E3. split; [|by rewrite Hl].
  assert (sum (map (slot_bytes (owner g)) (youngSlots (dir (owner g0)))) = youngBytes (led (owner g0))) as ->.
  { rewrite (led_young _ (cy_ledger _ _ Y)). apply sum_map_ext. intros s _. apply El. }
  destruct (cy_ledger _ _ Y) as [L1 L2 L3 L4 L5 L6 L7 L8 L9 L10].
  split; cbn [set_led led dir conf]; rewrite ?Hl; cbn [with_young_bytes occupiedBytes reservedBytes residentPageBytes youngBytes controlBytes]; rewrite ?X1, ?E2, ?E3; try done.
  - intros s. by rewrite El.
  - unfold control_bytes. cbn. by rewrite X6.
  - rewrite L4. f_equal. apply sum_map_ext. intros s _. by rewrite El.
  - rewrite L5. unfold pending_bytes, control_bytes. cbn. rewrite X5, X6. f_equal. f_equal. apply map_ext. intros x. by rewrite El.
  - rewrite L6. apply sum_map_ext. intros s _. by rewrite El.
Qed.

(** What a copy of the nursery does to the objects. *)
Record copied (ep : Z) (g g' : collector) : Prop := {
  co_gc : epoch g' = epoch g /\ poisonCollected g' = poisonCollected g /\ totals g' = totals g /\ reachableBytes (counts g') = reachableBytes (counts g);
  co_fixed : conf (owner g') = conf (owner g) /\ caps (owner g') = caps (owner g) /\ layouts (owner g') = layouts (owner g) /\
    layoutOwners (owner g') = layoutOwners (owner g) /\ reservations (owner g') = reservations (owner g) /\ controls (owner g') = controls (owner g);
  co_objects : forall s e, object (mem (owner g)) s = Some e -> exists e', object (mem (owner g')) s = Some e' /\
    (live e -> obj_young e = true -> marked (meta (dir (owner g)) s) <> ep -> e' = with_obj_state managedFree e) /\
    (live e -> obj_young e = false \/ marked (meta (dir (owner g)) s) = ep -> kin e e' /\ content (mem (owner g')) e' = content (mem (owner g)) e) /\
    (~ live e -> e' = e);
  co_none : forall s, object (mem (owner g)) s = None -> object (mem (owner g')) s = None;
  co_meta : forall s e, object (mem (owner g')) s = Some e -> obj_state e = managedPublished ->
    layout (meta (dir (owner g')) s) = layout (meta (dir (owner g)) s) /\ count (meta (dir (owner g')) s) = count (meta (dir (owner g)) s) /\
    logical (meta (dir (owner g')) s) = logical (meta (dir (owner g)) s) /\ marked (meta (dir (owner g')) s) = marked (meta (dir (owner g)) s);
  co_ledger : controlBytes (led (owner g')) = controlBytes (led (owner g)) /\ unpublished (led (owner g')) = unpublished (led (owner g)) /\
    residentPageBytes (led (owner g')) = residentPageBytes (led (owner g));
  co_resident : forall i, resident <$> pmetas (pgs (owner g')) !! i = resident <$> pmetas (pgs (owner g)) !! i
}.

(** ** The pages after the flip *)

Section flip.
  Context (ep : Z) (g0 g gf : collector) (a' : allocator).
  Context (Y : copyable (owner g0) ep) (C : copying ep g0 [] g).
Let ids := nurseryPages (pgs (owner g0)).
Let m := pmetas (pgs (owner g)).
  Context (F : flipped ids g gf).

Lemma flip_from id : id ∈ ids -> 0 <= id /\ exists x p, m !! Z.to_nat id = Some x /\ pmetas (pgs (owner g0)) !! Z.to_nat id = Some x /\ kind x = managedYoungPage /\ partner_of m id = partner x /\
  pages (mem (owner g)) !! Z.to_nat id = Some p /\ Z.of_nat (length (data p)) = managedPageBytes.
Proof using Y C.
  intros Hid. destruct (cp_from _ _ _ _ C) as (_ & C2 & _ & C4). destruct (pg_nursery _ _ (cp_pages _ _ _ _ C) id) as (H0 & p & x & Hp & Hx & Hd & Hk & _); [by rewrite C2|].
  split; [done|]. exists x, p. split; [done|]. split; [by rewrite <- C4|]. split; [done|]. split; [unfold partner_of; fold m in Hx; by rewrite Hx|done].
Qed.

Lemma flip_to id : id ∈ ids -> 0 <= partner_of m id /\ (partner_of m id ∉ ids) /\ (partner_of m id ∉ freePages (pgs (owner g))) /\
  exists p y, pages (mem (owner g)) !! Z.to_nat (partner_of m id) = Some p /\ m !! Z.to_nat (partner_of m id) = Some y /\
    Z.of_nat (length (data p)) = managedPageBytes /\ kind y = managedYoungPage /\ 0 <= used y <= managedPageBytes.
Proof using Y C.
  intros Hid. destruct (flip_from id Hid) as (_ & x & _ & _ & Hx & _ & -> & _). destruct (cy_partner _ _ Y id x Hid Hx) as (H1 & H2 & H3 & _). destruct (cp_from _ _ _ _ C) as (C1 & _).
  split; [done|]. split; [done|]. split; [by rewrite C1|]. destruct (cp_to _ _ _ _ C id x Hid Hx) as (p & y & Hp & Hy & Hd & Hk & _ & Hu0 & Hu). exists p, y. change (bytes_on (mem (owner g0)) id []) with 0 in Hu.
  repeat (split; [done|]). lia.
Qed.

Lemma flip_inj id id' : id ∈ ids -> id' ∈ ids -> partner_of m id = partner_of m id' -> id = id'.
Proof using Y C.
  intros Hid Hid' E. destruct (flip_from id Hid) as (_ & x & _ & _ & Hx & _ & Ex & _), (flip_from id' Hid') as (_ & x' & _ & _ & Hx' & _ & Ex' & _). apply (cy_inj _ _ Y id id' x x'); [done|done|done|done|congruence].
Qed.

Lemma flip_paired : paired m ids.
Proof using Y C.
  split.
  - apply Y.
  - intros id Hid. destruct (flip_from id Hid) as (H0 & x & _ & Hx & _). by split.
  - intros id Hid. destruct (flip_to id Hid) as (H0 & _ & _ & p & y & _ & Hy & _). by split.
  - intros id id' Hid Hid' E. destruct (flip_to id Hid) as (_ & Hn & _). congruence.
  - apply flip_inj.
Qed.

(** The metadata of a page after the flip. *)
Lemma flip_meta i x' : pmetas (pgs (owner gf)) !! i = Some x' -> exists x, m !! i = Some x /\
  (x' = x /\ (Z.of_nat i ∉ ids) /\ (Z.of_nat i ∉ map (partner_of m) ids) \/
   Z.of_nat i ∈ ids /\ x' = with_kind managedSparePage 0 x /\ kind x = managedYoungPage \/
   exists id, id ∈ ids /\ Z.of_nat i = partner_of m id /\ x' = with_partner id x /\ kind x = managedYoungPage).
Proof using Y C F.
  intros Hx'. destruct (decide (Z.of_nat i ∈ ids)) as [Hin|Hn1].
  - destruct (flip_from _ Hin) as (_ & x & _ & Hx & _ & Hk & _). rewrite Nat2Z.id in Hx. exists x. split; [done|]. right. left. split; [done|].
    pose proof (fl_from _ _ _ F _ Hin) as Hf. rewrite Nat2Z.id, Hx' in Hf. fold m in Hf. rewrite Hx in Hf. by injection Hf as ->.
  - destruct (decide (Z.of_nat i ∈ map (partner_of m) ids)) as [Hin|Hn2].
    + apply list_elem_of_In, in_map_iff in Hin as (id & Eq & Hid%list_elem_of_In). destruct (flip_to id Hid) as (_ & _ & _ & p & y & _ & Hy & _ & Hk & _). pose proof (fl_to _ _ _ F id Hid) as Ht. cbn zeta in Ht. fold m in Ht.
      rewrite Eq, Nat2Z.id in *. exists y. split; [done|]. right. right. exists id. rewrite Hx', Hy in Ht. split; [done|]. split; [done|]. by injection Ht as ->.
    + pose proof (fl_other _ _ _ F i Hn1 Hn2) as Ho. fold m in Ho. exists x'. split; [congruence|]. by left.
Qed.

Lemma flip_other i x : m !! i = Some x -> kind x <> managedYoungPage -> pmetas (pgs (owner gf)) !! i = Some x /\ (Z.of_nat i ∉ ids).
Proof using Y C F.
  intros Hx Hk. assert (Z.of_nat i ∉ ids) as Hn by (intros Hin; destruct (flip_from _ Hin) as (_ & z & _ & Hz & _ & Hkz & _); rewrite Nat2Z.id in Hz; congruence). split; [|done].
  rewrite (fl_other _ _ _ F i Hn); [done|]. intros (id & Eq & Hid%list_elem_of_In)%list_elem_of_In%in_map_iff. destruct (flip_to id Hid) as (_ & _ & _ & p & y & _ & Hy & _ & Hky & _).
  fold m in Eq. rewrite Eq, Nat2Z.id in Hy. congruence.
Qed.

Lemma flip_page i p : pages (mem (owner g)) !! i = Some p -> Z.of_nat i ∉ ids -> pages (mem (owner gf)) !! i = Some p.
Proof using F. intros Hp Hn. destruct (fl_pages _ _ _ F i p Hp) as (p' & Hp' & _ & _ & E). by rewrite (E Hn) in Hp'. Qed.

  Context (Hpg : pages (mem a') = pages (mem (owner gf))).
  Context (Hps : pgs a' = mkPaging (pmetas (pgs (owner gf))) (freePages (pgs (owner g))) (map (partner_of m) ids) (oldAvailable (pgs (owner g))) (nurseryCapacity (pgs (owner g)))).
  Context (Hlv : forall s e, lives (mem a') s e -> lives (mem (owner g)) s e /\ (obj_young e = true -> marked (meta (dir (owner g0)) s) = ep)).

Lemma flip_place s e : lives (mem a') s e -> exists p x x', placed (mem (owner g)) (pgs (owner g)) s e /\
  pages (mem (owner g)) !! Z.to_nat (obj_page e) = Some p /\ m !! Z.to_nat (obj_page e) = Some x /\
  pages (mem a') !! Z.to_nat (obj_page e) = Some p /\ pmetas (pgs a') !! Z.to_nat (obj_page e) = Some x' /\ kind x' = kind x /\ used x' = used x /\ pclass x' = pclass x /\ entries x' = entries x /\
  (obj_young e = true -> obj_page e ∈ map (partner_of m) ids).
Proof using Y C F Hpg Hps Hlv.
  intros Hs. destruct (Hlv s e Hs) as [Hg Hmk]. pose proof (pg_placed _ _ (cp_pages _ _ _ _ C) s e Hg) as Hpl. pose proof Hpl as [(Hn & _) (p & x & Hp & Hx & _ & _ & Hin)]. fold m in Hx.
  rewrite Hpg, Hps. cbn [pmetas]. destruct (obj_young e) eqn:Ey.
  - destruct Hg as [Hgo Hgl]. destruct (copying_back _ _ _ _ _ _ C Hgo) as (e0 & He0 & Cs). destruct (ca_kin _ _ _ _ _ _ _ Cs) as (K1 & _).
    destruct (ca_moved _ _ _ _ _ _ _ Cs) as (id & xi & Hid & Hxi & Epg); [unfold live; by rewrite <- K1|by apply Hmk|by intros []%not_elem_of_nil|done|].
    destruct (flip_from id Hid) as (_ & z & _ & _ & Hz & _ & Eq & _). assert (z = xi) as -> by congruence. rewrite Epg, <- Eq in *. destruct (flip_to id Hid) as (Hq0 & Hqn & _ & q & y & Hq & Hy & _).
    assert (x = y) as -> by congruence. exists p, y, (with_partner id y). split; [done|]. split; [done|]. split; [done|].
    split; [apply flip_page; [done|by rewrite Z2Nat.id]|]. split; [pose proof (fl_to _ _ _ F id Hid) as Ht; cbn zeta in Ht; fold m in Ht; by rewrite Ht, Hy|].
    repeat (split; [done|]). intros _. apply list_elem_of_In, in_map_iff. exists id. split; [done|by apply list_elem_of_In].
  - assert (kind x <> managedYoungPage) as Hk by (unfold in_place in Hin; rewrite Ey in Hin; destruct Hin as [(-> & _)|(-> & _)]; done).
    destruct (flip_other _ x Hx Hk) as [Hx' Hni]. exists p, x, x. repeat (split; [done|]). split; [by apply flip_page|]. repeat (split; [done|]). done.
Qed.

Lemma flip_pages_ok : pages_ok (mem a') (pgs a').
Proof using Y C F Hpg Hps Hlv.
  pose proof (cp_pages _ _ _ _ C) as G. destruct (fl_lengths _ _ _ F) as [L1 L2].
  split; rewrite ?Hpg; try (rewrite Hps; cbn [pmetas freePages nurseryPages oldAvailable]).
  - rewrite L1, L2. apply G.
  - intros i p' Hp'. destruct (pages (mem (owner g)) !! i) as [p|] eqn:Hp; [|apply lookup_ge_None in Hp; apply lookup_lt_Some in Hp'; lia].
    destruct (fl_pages _ _ _ F i p Hp) as (p1 & Hp1 & Hd & _). assert (p1 = p') as -> by congruence. rewrite Hd. by eapply pg_bytes.
  - apply G.
  - intros id Hid. destruct (pg_free _ _ G id Hid) as (H1 & H2 & H3). rewrite L1. split; [done|]. split.
    + intros (j & <- & Hj%list_elem_of_In)%list_elem_of_In%in_map_iff. by destruct (flip_to j Hj) as (_ & _ & ? & _).
    + intros s e Hs. apply (H3 s). by apply Hlv.
  - intros q (id & <- & Hid%list_elem_of_In)%list_elem_of_In%in_map_iff. destruct (flip_to id Hid) as (H0 & Hn & _ & p & y & Hp & Hy & Hd & Hk & Hu). split; [done|].
    exists p, (with_partner id y). split; [apply flip_page; [done|by rewrite Z2Nat.id]|]. split; [|done]. pose proof (fl_to _ _ _ F id Hid) as Ht. cbn zeta in Ht. fold m in Ht. by rewrite Ht, Hy.
  - apply G.
  - rewrite <- Hps. intros s e Hs. destruct (flip_place s e Hs) as (p & x & x' & [H1 (p0 & x0 & Hp0 & Hx0 & H2 & H3 & H4)] & Hp & Hx & Hp' & Hx' & E1 & E2 & E3 & E4 & _).
    fold m in Hx0. assert (p0 = p) as -> by congruence. assert (x0 = x) as -> by congruence. split; [done|]. exists p, x'. repeat (split; [done|]). unfold in_place in *. by rewrite E1, E2, E3, E4.
  - intros s1 s2 e1 e2 H1 H2. apply (pg_apart _ _ G s1 s2); by apply Hlv.
Qed.

Lemma flip_content s e : lives (mem a') s e -> content (mem a') e = content (mem (owner g)) e.
Proof using Y C F Hpg Hps Hlv. intros Hs. destruct (flip_place s e Hs) as (p & x & x' & _ & Hp & _ & Hp' & _). unfold content. by rewrite Hp, Hp'. Qed.

Lemma flip_gc_pages : gc_pages (mem a') (pgs a').
Proof using Y C F Hpg Hps Hlv.
  pose proof (cp_pages _ _ _ _ C) as G. destruct (cp_old _ _ _ _ C) as [O1 O2 O3 O4 O5 O6].
  assert (forall id, id ∈ map (partner_of m) ids -> exists j, j ∈ ids /\ id = partner_of m j) as Hback by (intros id (j & <- & Hj%list_elem_of_In)%list_elem_of_In%in_map_iff; by exists j).
  assert (forall q x, q ∈ map (partner_of m) ids -> pmetas (pgs a') !! Z.to_nat q = Some x -> exists j, j ∈ ids /\ q = partner_of m j /\ partner x = j) as Hq.
  { intros q x (j & Hj & ->)%Hback Hx. exists j. repeat (split; [done|]). destruct (flip_to j Hj) as (_ & _ & _ & p & y & _ & Hy & _). pose proof (fl_to _ _ _ F j Hj) as Ht. cbn zeta in Ht. fold m in Ht.
    rewrite Hps in Hx. cbn in Hx. rewrite Ht, Hy in Hx. by injection Hx as <-. }
  assert (forall i x', pmetas (pgs a') !! i = Some x' -> exists x, m !! i = Some x /\ resident x' = resident x /\ (kind x' = managedOldPage \/ kind x' = managedLargePage -> x' = x)) as Hm.
  { intros i x' Hx'. rewrite Hps in Hx'. cbn in Hx'. destruct (flip_meta i x' Hx') as (x & Hx & [(-> & _)|[(_ & -> & _)|(id & _ & _ & -> & Hk)]]); exists x; (split; [done|]); (split; [done|]); cbn; [done|by intros [?|?]|].
    rewrite Hk. by intros [?|?]. }
  assert (forall i x, m !! i = Some x -> kind x <> managedYoungPage -> pmetas (pgs a') !! i = Some x) as Hm'.
  { intros i x Hx Hk. rewrite Hps. cbn. by apply (flip_other i x Hx Hk). }
  split; try (rewrite Hps; cbn [nurseryPages oldAvailable freePages]).
  - apply NoDup_fmap_2_strong; [|apply Y]. intros id id' Hid Hid'. by apply flip_inj.
  - intros s e Hs Hy. destruct (flip_place s e Hs) as (p & x & x' & _ & _ & _ & _ & _ & _ & _ & _ & _ & Hin). by apply Hin.
  - intros q x Hin Hx. cbn [pmetas] in Hx. assert (pmetas (pgs a') !! Z.to_nat q = Some x) as Hx2 by (by rewrite Hps). destruct (Hq q x Hin Hx2) as (j & Hj & -> & ->).
    destruct (flip_from j Hj) as (Hj0 & xj & p & Hxj & _ & _ & _ & Hp & Hd). split; [done|]. destruct (fl_pages _ _ _ F _ p Hp) as (p' & Hp' & Hd' & _). exists p', (with_kind managedSparePage 0 xj). rewrite Hpg. split; [done|].
    cbn [pmetas]. rewrite (fl_from _ _ _ F j Hj). fold m. rewrite Hxj. split; [done|]. by rewrite Hd'.
  - intros q q' x x' Hin Hin' Hx Hx' E. cbn [pmetas] in Hx, Hx'. assert (pmetas (pgs a') !! Z.to_nat q = Some x) as Hx2 by (by rewrite Hps). assert (pmetas (pgs a') !! Z.to_nat q' = Some x') as Hx2' by (by rewrite Hps).
    destruct (Hq q x Hin Hx2) as (j & Hj & -> & Ej), (Hq q' x' Hin' Hx2') as (j' & Hj' & -> & Ej'). congruence.
  - intros s e Hs. apply (O1 s). by apply Hlv.
  - rewrite <- Hps. intros s e x' Hs Hy Hx'. destruct (Hlv s e Hs) as [Hg _]. destruct (Hm _ _ Hx') as (x & Hx & _ & Heq). destruct (O2 s e x Hg Hy Hx) as [H1 H2]. split; intros Hk.
    + rewrite (Heq ltac:(by right)) in Hk |- *. by apply H1.
    + rewrite (Heq ltac:(by left)) in Hk |- *. by apply H2.
  - rewrite <- Hps. intros i p' x' Hp' Hx' Hk. destruct (Hm _ _ Hx') as (x & Hx & _ & Heq). assert (x' = x) as -> by (apply Heq; by left). rewrite Hpg in Hp'.
    destruct (lookup_lt_is_Some_2 (pages (mem (owner g))) i) as [p Hp]; [rewrite <- (pg_length _ _ G); by eapply lookup_lt_Some|].
    destruct (flip_other i x Hx) as [_ Hn]; [by rewrite Hk|]. rewrite (flip_page i p Hp Hn) in Hp'. injection Hp' as <-. by apply (O3 i p x).
  - rewrite <- Hps. intros i l id Hi Hid. destruct (O4 i l id Hi Hid) as (H0 & x & Hx & Hk & Hc). split; [done|]. exists x. split; [|done]. apply Hm'; [done|by rewrite Hk].
  - rewrite <- Hps. intros id Hid. destruct (O5 id Hid) as (x & Hx & Hk). exists x. split; [|done]. apply Hm'; [done|by rewrite Hk].
  - rewrite <- Hps. intros i x' Hx'. destruct (Hm _ _ Hx') as (x & Hx & -> & _). by apply (O6 i x).
Qed.
End flip.

(** ** The whole copy *)

Lemma dir_weak_segments h h' d : segments h' = segments h -> dir_weak h d -> dir_weak h' d.
Proof.
  intros Es D. pose proof (fun s => object_segments h h' s Es) as Ho. destruct D as [W1 W2 W3 W4 W5 W6 W7 W8 W9 W10 W11]. split; try done.
  - unfold full_segments. by rewrite Es.
  - intros s. rewrite Ho. by apply W3.
  - intros s e. rewrite Ho. by apply W4.
  - intros s Hs. rewrite Ho. by apply W6.
  - intros s e. rewrite Ho. by apply W7.
  - intros i s Hs. rewrite Ho. by apply W8.
  - intros s e. rewrite Ho. by apply W9.
  - intros i s Hs. rewrite Ho. by apply W10.
  - intros s e. rewrite Ho. by apply W11.
Qed.

Lemma ledger_weak_same a a' : ledger_weak a -> dir a' = dir a -> led a' = led a -> conf a' = conf a -> controls a' = controls a -> reservations a' = reservations a ->
  segments (mem a') = segments (mem a) -> ledger_weak a'.
Proof.
  intros [L E] Ed El Ec Ek Er Es. unfold ledger_weak, slot_bytes in *. rewrite Ed, El. split.
  - destruct L as [L1 L2 L3 L4 L5 L6 L7 L8 L9 L10]. cbn [set_led led dir conf] in *.
    split; cbn [set_led led dir conf]; rewrite ?Ed, ?El, ?Ec; unfold pending_bytes, control_bytes in *; cbn in *; rewrite ?Ed, ?Ek, ?Er; done.
  - rewrite E. unfold young_sum. rewrite Ed. apply sum_map_ext. intros s _. unfold young_in. by rewrite (object_segments _ _ s Es).
Qed.

(** Nothing is reserved, so every reservation is finished. *)
Lemma all_done a : reserved_ok a -> all_published a -> forall r x, reservations a !! r = Some x -> res_done x = true.
Proof.
  intros R P r x Hx. destruct (res_done x) eqn:E; [done|]. destruct (res_held _ R r x Hx E) as (e & He & Hst & _). rewrite (P (slot (res_ref x)) e) in Hst; [done|]. split; [done|]. unfold live. by rewrite Hst.
Qed.

Lemma copyNursery_spec n g ep :
  alloc_ok n (owner g) -> gc_pages (mem (owner g)) (pgs (owner g)) -> all_published (owner g) -> marked_graph ep (owner g) -> epoch g = ep ->
  exists g', copyNursery g = (Ok tt, g') /\ alloc_ok n (owner g') /\ gc_pages (mem (owner g')) (pgs (owner g')) /\ copied ep g g'.
Proof.
  intros A C Pb Gr Hep. set (ids := nurseryPages (pgs (owner g))).
  destruct (open_partners_spec ids g (gc_paired _ _ (ok_pages _ _ A) C)) as (m & Eo & Hop). set (ga := set_owner (set_metas m) g) in *.
  pose proof (opened_copyable n (owner g) ep m A C Pb Gr Hop) as Y. change (set_metas m (owner g)) with (owner ga) in Y.
  destruct (move_all_spec ep ga (youngSlots (dir (owner ga))) ga Y) as (gb & Em & Cb); [by apply copying_start|by eapply occupied_nodup, Y|done|].
  destruct (swap_partners_spec ids gb (flip_paired ep ga gb Y Cb)) as (gc & Es & F); [apply (pg_length _ _ (cp_pages _ _ _ _ Cb))|].
  set (partners := map (partner_of (pmetas (pgs (owner gb)))) ids) in *.
  set (gd := set_owner (fun a => let g := pgs a in set_pgs (mkPaging (pmetas g) (freePages g) partners (oldAvailable g) (nurseryCapacity g)) a) gc).
  destruct (fl_state _ _ _ F) as (mf & hf & Ef). destruct (fl_segments _ _ _ F) as [Esg _].
  assert (dir (owner gd) = dir (owner gb) /\ led (owner gd) = led (owner gb) /\ conf (owner gd) = conf (owner gb) /\ controls (owner gd) = controls (owner gb) /\
    reservations (owner gd) = reservations (owner gb) /\ layouts (owner gd) = layouts (owner gb) /\ layoutOwners (owner gd) = layoutOwners (owner gb) /\ caps (owner gd) = caps (owner gb) /\
    epoch gd = epoch gb /\ counts gd = counts gb /\ totals gd = totals gb /\ poisonCollected gd = poisonCollected gb) as (D1 & D2 & D3 & D4 & D5 & D6 & D7 & D8 & D9 & D10 & D11 & D12)
    by (unfold gd; by rewrite Ef).
  assert (segments (mem (owner gd)) = segments (mem (owner gb))) as Esd by exact Esg.
  destruct (cp_gc _ _ _ _ Cb) as (B1 & B2 & B3 & B4). destruct (cp_fixed _ _ _ _ Cb) as (B5 & B6 & B7 & B8 & B9 & B10). destruct (cp_dir _ _ _ _ Cb) as (B11 & B12 & B13 & B14).
  pose proof (fun s => with_age_fields _ _ (cp_meta _ _ _ _ Cb s)) as Bm.
  pose proof (all_done _ (ok_reserved _ _ A) Pb) as Hdn.
  assert (cleaning ep gd 0 gd) as C0.
  { split; try done; [by rewrite D9| | | |].
    - eapply dir_weak_segments; [exact Esd|]. rewrite D1. by eapply copying_weak.
    - eapply (ledger_weak_same (owner gb)); try done. by eapply copying_ledger.
    - intros i. by left.
    - intros j s Hj. lia. }
  destruct (clean_loop_spec ep gd) with (fuel := clean_fuel gd) (index := 0%nat) (g := gd) as (ge & Ec & Ce).
  { intros s e He Hst _. rewrite (object_segments _ _ s Esd) in He. destruct (pg_placed _ _ (cp_pages _ _ _ _ Cb) s e (published_live _ _ _ He Hst)) as [(H0 & _) (_ & x & _ & Hx & _)].
    destruct (lookup_lt_is_Some_2 (pmetas (pgs (owner gd))) (Z.to_nat (obj_page e))) as [y Hy]; [|exists y; by apply nth_of_nat].
    change (pmetas (pgs (owner gd))) with (pmetas (pgs (owner gc))). rewrite (proj2 (fl_lengths _ _ _ F)). by eapply lookup_lt_Some. }
  { intros r x Hx. apply (Hdn r x). change (reservations (owner g)) with (reservations (owner ga)). by rewrite <- B9, <- D5. }
  { done. }
  { unfold clean_fuel. lia. }
  exists ge. split.
  { unfold copyNursery. unfold gc_bind at 1. cbn [gc_get]. fold ids. rewrite (gc_bind_ok _ _ _ _ _ Eo). unfold gc_bind at 1. cbn [gc_get]. rewrite (gc_bind_ok _ _ _ _ _ Em), (gc_bind_ok _ _ _ _ _ Es).
    unfold gc_bind. cbn [gc_modify]. exact Ec. }
  destruct (cl_gc _ _ _ _ Ce) as (G1 & G2 & G3 & G4). destruct (cl_fixed _ _ _ _ Ce) as (F1 & F2 & F3 & F4 & F5 & F6 & F7). destruct (cl_mem _ _ _ _ Ce) as [Ep _]. destruct (cl_led _ _ _ _ Ce) as (Q1 & Q2 & Q3).
  assert (forall s, s ∈ youngSlots (dir (owner ge)) -> young_in (mem (owner ge)) s = true /\ marked (meta (dir (owner ge)) s) = ep) as Hyg.
  { intros s [j Hj]%list_elem_of_lookup. apply (cl_prefix _ _ _ _ Ce j); [by eapply lookup_lt_Some|done]. }
  assert (forall s e, object (mem (owner ge)) s = Some e -> obj_state e = managedPublished -> layout (meta (dir (owner ge)) s) = layout (meta (dir (owner g)) s) /\
    count (meta (dir (owner ge)) s) = count (meta (dir (owner g)) s) /\ logical (meta (dir (owner ge)) s) = logical (meta (dir (owner g)) s) /\ marked (meta (dir (owner ge)) s) = marked (meta (dir (owner g)) s)) as Hme.
  { intros s e He Hst. pose proof (cl_meta _ _ _ _ Ce s e He Hst) as (M1 & M2 & M3 & M4 & _)%unindexed_fields. rewrite D1 in M1, M2, M3, M4. destruct (Bm s) as (N1 & N2 & N3 & N4 & _). change (dir (owner ga)) with (dir (owner g)) in N1, N2, N3, N4. repeat split; congruence. }
  assert (forall s e, lives (mem (owner ge)) s e -> obj_state e = managedPublished /\ lives (mem (owner gb)) s e /\ (obj_young e = true -> marked (meta (dir (owner ga)) s) = ep)) as Hlv.
  { intros s e [He Hl]. destruct (cl_objects _ _ _ _ Ce s) as [E|(f & _ & E)]; [|rewrite E in He; by injection He as <-]. rewrite E, (object_segments _ _ s Esd) in He.
    assert (obj_state e = managedPublished) as Hst.
    { destruct (copying_back _ _ _ _ _ _ Cb He) as (e0 & He0 & Cs). destruct (ca_kin _ _ _ _ _ _ _ Cs) as (K1 & _). rewrite K1. apply (Pb s). split; [done|]. unfold live. by rewrite <- K1. }
    split; [done|]. split; [done|]. intros Hy. assert (object (mem (owner ge)) s = Some e) as He' by by rewrite E, (object_segments _ _ s Esd).
    destruct (Hyg s) as [_ Hm]; [by eapply (dw_young_all _ _ (cl_weak _ _ _ _ Ce))|]. destruct (Hme s e He' Hst) as (_ & _ & _ & E'). change (dir (owner ga)) with (dir (owner g)). congruence. }
  assert (pages (mem (owner ge)) = pages (mem (owner gc))) as Hpg by exact Ep.
  assert (pgs (owner ge) = mkPaging (pmetas (pgs (owner gc))) (freePages (pgs (owner gb))) partners (oldAvailable (pgs (owner gb))) (nurseryCapacity (pgs (owner gb)))) as Hps by (rewrite F7; unfold gd; by rewrite Ef).
  assert (forall s e, lives (mem (owner ge)) s e -> lives (mem (owner gb)) s e /\ (obj_young e = true -> marked (meta (dir (owner ga)) s) = ep)) as Hlv' by (intros s e Hs; by destruct (Hlv s e Hs) as (_ & ? & ?)).
  pose proof (flip_pages_ok ep ga gb gc (owner ge) Y Cb F Hpg Hps Hlv') as Gp. pose proof (flip_gc_pages ep ga gb gc (owner ge) Y Cb F Hpg Hps Hlv') as Gg. pose proof (flip_content ep ga gb gc (owner ge) Y Cb F Hpg Hps Hlv') as Gc.
  destruct (cl_bounds _ _ _ _ Ce) as (Bn & Bo & By). rewrite D1 in Bn, Bo, By.
  assert (reservations (owner ge) = reservations (owner g)) as Ers by (rewrite F5, D5; exact B9).
  split; [split|split; [exact Gg|]].
  - apply dir_weak_ok; [apply Ce|]. intros s e Hs He. destruct (Hyg s Hs) as [Hy _]. unfold young_in in Hy. by rewrite He in Hy.
  - exact Gp.
  - split; rewrite Ers.
    + intros r x Hx Hd. rewrite (Hdn r x Hx) in Hd. done.
    + intros r r' x x' Hx Hx' Hd. rewrite (Hdn r x Hx) in Hd. done.
  - apply ledger_weak_ok; [apply Ce|]. intros s Hs. by apply Hyg.
  - destruct (ok_bounded _ _ A) as [U1 U2 U3 U4]. split.
    + rewrite Bn, B14. exact U1.
    + rewrite Hpg, (proj1 (fl_lengths _ _ _ F)), (cp_length _ _ _ _ Cb). exact U2.
    + rewrite B12 in Bo. cbn in Bo. lia.
    + rewrite B13 in By. cbn in By. lia.
  - rewrite F3, D6, B7. apply A.
  - assert (forall s e, object (mem (owner g)) s = Some e -> exists e1, object (mem (owner gd)) s = Some e1 /\ carried (owner ga) ep [] (mem (owner gb)) s e e1) as Hcar.
    { intros s e He. destruct (cp_objects _ _ _ _ Cb s e He) as (e1 & He1 & Cs). exists e1. by rewrite (object_segments _ _ s Esd). }
    assert (forall s, marked (meta (dir (owner gd)) s) = marked (meta (dir (owner g)) s)) as Hmk by (intros s; rewrite D1; apply Bm).
    split.
    + rewrite G1, G2, G3, G4, D10, D11, D12. split; [done|]. split; [exact B2|]. split; [exact B3|exact B4].
    + rewrite F1, F2, F3, F4, F5, F6, D3, D4, D5, D6, D7, D8. repeat split; [exact B5|exact B6|exact B7|exact B8|exact B9|exact B10].
    + intros s e He. destruct (Hcar s e He) as (e1 & He1 & Cs). destruct (ca_kin _ _ _ _ _ _ _ Cs) as (K1 & K2 & K3 & K4). destruct (cl_objects _ _ _ _ Ce s) as [E|(f & (Hf & Hfs & Hfy & Hfm) & E)].
      * exists e1. rewrite E. split; [done|]. split; [|split].
        -- intros Hl Hy Hm. exfalso. assert (e1 = e) as -> by (apply Cs; by right; left). destruct (Hlv s e) as (_ & _ & Hm'); [split; [congruence|done]|]. by apply Hm, Hm'.
        -- intros Hl _. split; [done|]. rewrite (Gc s e1) by (split; [congruence|unfold live; by rewrite K1]). by apply Cs.
        -- intros Hl. apply Cs. by right; right; right.
      * assert (f = e1) as -> by congruence. assert (e1 = e) as ->.
        { apply Cs. right. left. rewrite <- Hmk. exact Hfm. }
        exists (with_obj_state managedFree e). split; [done|]. split; [done|]. rewrite Hmk in Hfm. split; [|].
        -- intros _ [Hy|Hm]; [congruence|done].
        -- intros Hl. exfalso. apply Hl. unfold live. by rewrite Hfs.
    + intros s Hs. destruct (cl_objects _ _ _ _ Ce s) as [E|(f & (Hf & _) & E)].
      * rewrite E, (object_segments _ _ s Esd). by apply (proj2 (cp_full _ _ _ _ Cb)).
      * rewrite (object_segments _ _ s Esd), (proj2 (cp_full _ _ _ _ Cb) s Hs) in Hf. done.
    + done.
    + rewrite Q1, Q2, Q3, D2, (cp_ledger _ _ _ _ Cb). done.
    + intros i. rewrite Hps. cbn [pmetas]. transitivity (resident <$> pmetas (pgs (owner gb)) !! i).
      * destruct (pmetas (pgs (owner gc)) !! i) as [x'|] eqn:Hx'.
        -- destruct (flip_meta ep ga gb gc Y Cb F i x' Hx') as (x & Hx & Hor). rewrite Hx. cbn. f_equal. by destruct Hor as [(-> & _)|[(_ & -> & _)|(id & _ & _ & -> & _)]].
        -- apply lookup_ge_None in Hx'. rewrite (proj2 (fl_lengths _ _ _ F)) in Hx'. by rewrite (proj2 (lookup_ge_None _ _) Hx').
      * rewrite (cp_resident _ _ _ _ Cb). cbn. destruct Hop as [_ Hop]. rewrite Hop. destruct (decide _); [|done]. by destruct (pmetas (pgs (owner g)) !! i).
Qed.
