(* ===== verification/CollectorFinish.v ===== *)
(** * The end of a major collection (src/runtime/managed_gc.go)

    Cards are rebuilt from the old objects that survived, and layouts that nothing uses are cleared. *)

From S2P Require Import Prelude GoStd GoBytes Heap Allocator AllocatorSafe AllocatorRun Collector CollectorMark CollectorPages CollectorCards CollectorCopy.
From stdpp Require Import relations.

#[local] Open Scope Z_scope.
#[local] Arguments Z.to_nat : simpl never.

(** ** Heaps that differ in cards *)

Lemma same_bytes_gc h h' g : same_bytes h h' -> gc_pages h g -> gc_pages h' g.
Proof.
  intros S C. pose proof (fun s e => lives_segments h h' s e (sb_segments _ _ S)) as Hl. destruct (same_bytes_old _ _ _ S (gc_pages_old _ _ C)) as [O1 O2 O3 O4 O5 O6]. split; try done; try apply C.
  - intros s e Hs. apply (gp_young _ _ C s). by apply Hl.
  - intros id x Hid Hx. destruct (gp_partner _ _ C id x Hid Hx) as [H0 (p & y & Hp & Hy & Hd & Hk)]. split; [done|]. destruct (sb_pages _ _ S _ _ Hp) as (p' & Hp' & Ed & _).
    exists p', y. by rewrite Ed.
Qed.

Lemma same_bytes_alloc n a h' : same_bytes (mem a) h' -> alloc_ok n a -> alloc_ok n (set_mem h' a).
Proof. intros S A. apply alloc_ok_shape; [done|apply S|by apply same_bytes_shape]. Qed.

Lemma described_bytes a h' s e l p : same_bytes (mem a) h' -> described a s e = Some (l, p) -> exists p', described (set_mem h' a) s e = Some (l, p') /\ data p' = data p /\ length (cards p') = length (cards p).
Proof.
  intros S Hd. destruct (described_page _ _ _ _ _ Hd) as [H0 Hp]. destruct (sb_pages _ _ S _ _ Hp) as (p' & Hp' & Ed & Ec). exists p'. split; [|done]. unfold described in *. cbn [set_mem dir mem layouts].
  destruct (layout _ =? 0); [done|]. destruct (nth_of (layouts a) _) as [l'|]; [|done]. cbn [mbind option_bind] in *. destruct (lstride l' =? 0); [done|].
  rewrite (proj2 (nth_of_nat _ _ p)) in Hd by done. rewrite (proj2 (nth_of_nat _ _ p')) by done. cbn [mbind option_bind] in *. rewrite Ed. destruct (_ <? _); [done|]. by injection Hd as ->.
Qed.

Lemma stores_bytes a h' s ref : same_bytes (mem a) h' -> stores (set_mem h' a) s ref -> graph_ok a -> stores a s ref.
Proof.
  intros S (e & l & p & He & Hst & Hd & Hin) Gr. cbn in He. rewrite (object_segments _ _ s (sb_segments _ _ S)) in He. destruct (gr_shape _ Gr s e He Hst) as (l0 & p0 & Hd0 & _).
  destruct (described_bytes a h' s e l0 p0 S Hd0) as (p1 & Hd1 & Ed & _). rewrite Hd in Hd1. injection Hd1 as <- <-. exists e, l, p0. rewrite <- Ed. done.
Qed.

Lemma same_bytes_graph a h' : same_bytes (mem a) h' -> graph_ok a -> graph_ok (set_mem h' a).
Proof.
  intros S Gr. split.
  - intros s e He Hst. cbn in He. rewrite (object_segments _ _ s (sb_segments _ _ S)) in He. destruct (gr_shape _ Gr s e He Hst) as (l & p & Hd & H). destruct (described_bytes a h' s e l p S Hd) as (p' & Hd' & Ed & _).
    exists l, p'. rewrite Ed. done.
  - intros s ref Hs. apply stores_bytes in Hs; [|done|done]. destruct (gr_resolves _ Gr s ref Hs) as [Hv [f Hf]]. split; [done|]. exists f. cbn. by rewrite (resolve_segments _ _ _ (sb_segments _ _ S)).
Qed.

(** ** Rebuilding the cards *)

Lemma resetCards_bytes a : exists h', same_bytes (mem a) h' /\ resetCards a = set_mem h' a.
Proof.
  eexists. split; [|done]. split; cbn; [done|by rewrite length_map|]. intros i p Hp. rewrite list_lookup_fmap, Hp. cbn. eexists. split; [done|]. cbn. by rewrite length_replicate.
Qed.

Lemma rebuild_loop_spec slots g : graph_ok (owner g) -> pages_ok (mem (owner g)) (pgs (owner g)) -> exists g', rebuild_loop slots g = (Ok tt, g') /\ carded g g'.
Proof.
  revert g. induction slots as [|s slots IH]; intros g Gr G; [exists g; split; [done|apply carded_refl]|]. cbn [rebuild_loop]. unfold gc_bind.
  destruct (object (mem (owner g)) s) as [e|] eqn:He; [|by apply IH]. unfold is_old. rewrite He. case_bool_decide as Hst; cbn [andb]; [|by apply IH]. destruct (obj_young e) eqn:Hy; cbn [negb]; [by apply IH|].
  destruct (gr_shape _ Gr s e He Hst) as (l & p & Hd & Hl & Hc & Ho & Hlen & _). destruct (described_page _ _ _ _ _ Hd) as [_ Hp].
  destruct (pg_placed _ _ G s e (published_live _ _ _ He Hst)) as [_ (p0 & x & Hp0 & _ & _ & Hcards & _)]. assert (p0 = p) as -> by congruence.
  destruct (markYoungReferences_spec g s e l p) as (g1 & E1 & C1); try done; [by apply Hcards| |].
  { intros ref Hr. apply (gr_resolves _ Gr s). by exists e, l, p. }
  rewrite E1. pose proof C1 as (h & S & ->). destruct (IH (set_owner (set_mem h) g)) as (g' & E' & C'); [by apply (same_bytes_graph (owner g))|by eapply same_bytes_pages_ok|].
  exists g'. split; [done|]. by eapply carded_trans.
Qed.

(** ** Layouts *)

Definition with_resident (n : Z) (l : ledger) : ledger :=
  mkLedger (occupiedBytes l) (reservedBytes l) n (totalAllocatedBytes l) (allocations l) (reclaimedBytes l) (youngBytes l) (controlBytes l) (unpublished l) (collectionRequested l).

Definition no_layout : managedLayout := mkLayout 0 0 [] [] [].

(** The layouts that go: neither pinned nor marked. *)
Definition idle_layout (a : allocator) (ep : Z) (i : nat) : Prop := exists o, layoutOwners a !! i = Some o /\ pins o = 0 /\ owner_marked o <> ep.

Lemma clear_layouts_spec n id ep a :
  0 <= id -> layout_sum (layouts a) <= residentPageBytes (led a) -> residentPageBytes (led a) <= MaxInt64 ->
  exists ls, let r := residentPageBytes (led a) - (layout_sum (layouts a) - layout_sum ls) in
    clear_layouts n id ep a = set_led (with_resident r) (set_layouts ls (layoutOwners a) a) /\ layout_sum ls <= r <= residentPageBytes (led a) /\
    forall i, ls !! i = layouts a !! i \/ ls !! i = Some no_layout /\ idle_layout a ep i.
Proof.
  revert id a. induction n as [|n IH]; intros id a Hid Hs Hr.
  { exists (layouts a). cbn [clear_layouts]. cbn zeta. split; [|split; [lia|by left]]. rewrite Z.sub_diag, Z.sub_0_r. by destruct a as [? ? ? [] ? ? ? ? ? ?]. }
  cbn [clear_layouts]. set (b := match layoutOwners a !! Z.to_nat id, layouts a !! Z.to_nat id with Some o, Some l => _ | _, _ => a end).
  assert (b = a \/ exists l, layouts a !! Z.to_nat id = Some l /\ idle_layout a ep (Z.to_nat id) /\
    b = set_led (add_resident (- layout_bytes l)) (set_layouts (<[Z.to_nat id := no_layout]> (layouts a)) (layoutOwners a) a)) as [->|(l & Hl & Hk & ->)].
  { unfold b. destruct (layoutOwners a !! Z.to_nat id) as [o|] eqn:Eo; [|by left]. destruct (layouts a !! Z.to_nat id) as [l|]; [|by left].
    destruct (negb (pins o =? 0) || (owner_marked o =? ep)) eqn:E; [by left|right]. apply orb_false_iff in E as [E1 E2]. breflect. exists l. split; [done|]. split; [by exists o|done]. }
  { apply IH; [lia|done|done]. }
  pose proof (layout_sum_insert _ _ _ no_layout Hl) as Hins. change (layout_bytes no_layout) with 0 in Hins. pose proof (layout_sum_nonneg (<[Z.to_nat id := no_layout]> (layouts a))) as Hnn.
  assert (0 <= layout_bytes l) as Hlb by (unfold layout_bytes; lia). unfold MaxInt64 in Hr.
  set (b := set_led _ _). assert (residentPageBytes (led b) = residentPageBytes (led a) - layout_bytes l) as Eb by (cbn; rewrite u64_id by lia; lia).
  destruct (IH (id + 1) b) as (ls & E & Hb & Hi); [lia|rewrite Eb; change (layouts b) with (<[Z.to_nat id := no_layout]> (layouts a)); lia|rewrite Eb; unfold MaxInt64; lia|].
  exists ls. cbn zeta in *. rewrite Eb in *. change (layouts b) with (<[Z.to_nat id := no_layout]> (layouts a)) in *. rewrite Hins in *. split; [|split; [lia|]].
  - rewrite E. unfold set_led, set_layouts, with_resident, b. cbn. f_equal. f_equal. lia.
  - intros i. destruct (Hi i) as [Hi'|Hi']; [|by right]. destruct (decide (i = Z.to_nat id)) as [->|Hne].
    + right. split; [|done]. rewrite Hi', list_lookup_insert_eq by by eapply lookup_lt_Some. done.
    + left. by rewrite Hi', list_lookup_insert_ne.
Qed.

(** The layouts of occupied slots are marked. *)
Lemma mark_layouts_spec (lay : Z -> nat) ep (slots : list Z) (os : list managedLayoutOwner) i :
  (forall o, os !! i = Some o -> owner_marked o = ep) \/ (exists s, s ∈ slots /\ lay s = i) ->
  forall o, foldl (fun os s => alter (fun o => mkOwner (pins o) ep) (lay s) os) os slots !! i = Some o -> owner_marked o = ep.
Proof.
  revert os. induction slots as [|t slots IH]; intros os [H|(s & Hs & E)]; [exact H|by apply not_elem_of_nil in Hs|..]; cbn [foldl]; apply IH.
  - left. intros o. destruct (decide (i = lay t)) as [->|Hne]; [|rewrite list_lookup_alter_ne by done; apply H]. rewrite list_lookup_alter_eq. destruct (os !! lay t); [|done]. intros Ho. by injection Ho as <-.
  - apply elem_of_cons in Hs as [->|Hs]; [left|right; by exists s]. intros o. rewrite E, list_lookup_alter_eq. destruct (os !! i); [|done]. intros Ho. by injection Ho as <-.
Qed.

Lemma sweep_layouts_spec ep a :
  covered a -> (forall i x, pmetas (pgs a) !! i = Some x -> 0 <= resident x) -> residentPageBytes (led a) <= MaxInt64 ->
  exists ls os r, sweep_layouts ep a = set_led (with_resident r) (set_layouts ls os a) /\ covered (sweep_layouts ep a) /\ 0 <= r <= residentPageBytes (led a) /\
    (forall s, s ∈ occupied (dir a) -> nth_of ls (layout (meta (dir a) s)) = nth_of (layouts a) (layout (meta (dir a) s))) /\
    (forall i l, ls !! i = Some l -> l = no_layout \/ layouts a !! i = Some l).
Proof.
  intros Hc Hp Hr. unfold sweep_layouts. set (b := mark_layouts ep a). pose proof (resident_sum_nonneg _ Hp) as H0. unfold covered in Hc. pose proof (layout_sum_nonneg (layouts a)) as Hl0.
  destruct (clear_layouts_spec (length (layouts b) - 1) 1 ep b) as (ls & E & Hb & Hi); [lia|change (layout_sum (layouts a) <= residentPageBytes (led a)); lia|done|]. cbn zeta in *. change (layouts b) with (layouts a) in *. change (residentPageBytes (led b)) with (residentPageBytes (led a)) in *.
  set (r := residentPageBytes (led a) - (layout_sum (layouts a) - layout_sum ls)) in *. exists ls, (layoutOwners b), r. pose proof (layout_sum_nonneg ls) as Hls.
  split; [by rewrite E|]. split; [rewrite E; change (resident_sum (pmetas (pgs a)) + layout_sum ls <= r); lia|]. split; [lia|]. split.
  - intros s Hs. unfold nth_of. destruct (layout (meta (dir a) s) <? 0); [done|]. destruct (Hi (Z.to_nat (layout (meta (dir a) s)))) as [->|(_ & o & Ho & _ & Hne)]; [done|]. exfalso. apply Hne.
    eapply (mark_layouts_spec (fun s => Z.to_nat (layout (meta (dir a) s))) ep (occupied (dir a)) (layoutOwners a)); [|exact Ho]. right. by exists s.
  - intros i l Hl. destruct (Hi i) as [E'|[E' _]]; [right; congruence|left; congruence].
Qed.

(** The ledger loses resident bytes only. *)
Lemma alloc_ok_finish n a a' :
  alloc_ok n a -> mem a' = mem a -> dir a' = dir a -> pgs a' = pgs a -> reservations a' = reservations a -> controls a' = controls a ->
  maxGuestBytes (conf a') = maxGuestBytes (conf a) -> maxResidentBytes (conf a') = maxResidentBytes (conf a) ->
  occupiedBytes (led a') = occupiedBytes (led a) -> reservedBytes (led a') = reservedBytes (led a) -> youngBytes (led a') = youngBytes (led a) -> controlBytes (led a') = controlBytes (led a) ->
  0 <= residentPageBytes (led a') <= residentPageBytes (led a) -> Forall (fun l => 0 <= lstride l < 2 ^ 32) (layouts a') -> alloc_ok n a'.
Proof.
  intros [D G R L B Ly] Em Ed Ep Er Ek Eg Es E1 E2 E3 E4 E5 Hl. split; rewrite ?Em, ?Ed, ?Ep; try done.
  - destruct R as [R1 R2]. split; rewrite Er; [|done]. rewrite Em. done.
  - destruct L as [L1 L2 L3 L4 L5 L6 L7 L8 L9 L10]. unfold pending_bytes, control_bytes in *. split; unfold pending_bytes, control_bytes; rewrite ?Ed, ?Er, ?Ek, ?Eg, ?Es, ?E1, ?E2, ?E3, ?E4; try done; [lia|]. intros Hne. specialize (L10 Hne). lia.
  - destruct B. split; rewrite ?Ed, ?Em; done.
Qed.

(** The end of a major collection. *)
Record finished (g g' : collector) : Prop := {
  fi_mem : mem (owner g') = mem (owner g) /\ dir (owner g') = dir (owner g) /\ pgs (owner g') = pgs (owner g) /\ reservations (owner g') = reservations (owner g) /\ caps (owner g') = caps (owner g);
  fi_epoch : epoch g' = epoch g /\ counts g' = counts g;
  fi_closed : closed (conf (owner g')) = closed (conf (owner g)) /\ unpublished (led (owner g')) = unpublished (led (owner g)) /\
    controlBytes (led (owner g')) = controlBytes (led (owner g));
  fi_layouts : forall s, s ∈ occupied (dir (owner g)) -> nth_of (layouts (owner g')) (layout (meta (dir (owner g)) s)) = nth_of (layouts (owner g)) (layout (meta (dir (owner g)) s))
}.

Lemma finish_major_spec n g :
  alloc_ok n (owner g) -> gc_pages (mem (owner g)) (pgs (owner g)) -> covered (owner g) ->
  let g' := finish_collection true g in alloc_ok n (owner g') /\ covered (owner g') /\ finished g g'.
Proof.
  intros A C Hc g'. unfold g', finish_collection. set (a := set_next_major _ (set_led (add_reclaimed _) (owner g))).
  destruct (sweep_layouts_spec (epoch g) a) as (ls & os & r & E & Hcov & Hr & Hlay & Hls); [exact Hc|apply C|apply (led_resident_word _ (ok_ledger _ _ A))|]. rewrite E in *. cbn [owner]. split; [|split].
  - eapply (alloc_ok_finish n (owner g)); try done. apply Forall_lookup. intros i l Hl. destruct (Hls i l Hl) as [->|Hl']; [cbn; lia|]. by apply (Forall_lookup_1 _ _ _ _ (ok_layouts _ _ A) Hl').
  - exact Hcov.
  - by split.
Qed.
