(* ===== verification/CollectorWhole.v ===== *)
(** * A whole major collection (src/runtime/managed_gc.go)

    Marking, sweeping, copying, the cards and the layouts, in the order of [collectFromRoots]. *)

From S2P Require Import Prelude GoStd GoBytes Heap Allocator AllocatorSafe AllocatorRun Collector CollectorMark CollectorPages CollectorSweep CollectorCards.
From S2P Require Import CollectorCopy CollectorFlip CollectorClean CollectorMajor CollectorFinish.
From stdpp Require Import relations.

#[local] Open Scope Z_scope.
#[local] Arguments Z.to_nat : simpl never.

(** What holds between collections. *)
Record gc_ok (n : Z) (g : collector) : Prop := {
  gk_alloc : alloc_ok n (owner g);
  gk_pages : gc_pages (mem (owner g)) (pgs (owner g));
  gk_graph : graph_ok (owner g);
  gk_marks : marks_old g;
  gk_published : all_published (owner g);
  gk_covered : covered (owner g);
  gk_room : Z.of_nat (length (occupied (dir (owner g)))) <= queue_capacity (owner g)
}.

(** ** Marks *)

Lemma alloc_ok_marks n a0 a : marks_only a0 a -> alloc_ok n a0 -> alloc_ok n a.
Proof.
  intros S [D G R L B Ly]. destruct (marks_only_fields _ _ S) as (Em & Ep & El & Ec & Ecap & Ely & Elo & Er & Ek & Eo & Ey & Ef & En).
  pose proof (fun s => marks_only_meta _ _ s S) as Hm. assert (forall s, logical (meta (dir a) s) = logical (meta (dir a0) s)) as Elg by (intros s; apply Hm).
  split; rewrite ?Em, ?Ep, ?Ely; try done.
  - destruct D as [D1 D2 D3 D4 D5 D6 D7 D8 D9 D10 D11]. split; rewrite ?Eo, ?Ey, ?Ef, ?En; try done.
    + intros i s Hi. destruct (Hm s) as (_ & _ & _ & -> & _). by apply D8.
    + intros i s Hi. destruct (Hm s) as (_ & _ & _ & _ & -> & _). by apply D10.
  - destruct R as [R1 R2]. split; rewrite Er; [|done]. by rewrite Em.
  - destruct L as [L1 L2 L3 L4 L5 L6 L7 L8 L9 L10]. unfold pending_bytes, control_bytes in *. split; unfold pending_bytes, control_bytes; rewrite ?El, ?Ec, ?Eo, ?Ey, ?Er, ?Ek; try done.
    + intros s. by rewrite Elg.
    + rewrite L4. f_equal. apply sum_map_ext. intros s _. by rewrite Elg.
    + rewrite L5. f_equal. apply sum_map_ext. intros x _. by rewrite Elg.
    + rewrite L6. apply sum_map_ext. intros s _. by rewrite Elg.
  - destruct B. split; rewrite ?Em, ?En, ?Eo, ?Ey; done.
Qed.

(** ** Marking and sweeping *)

(** The heap after the sweep: old objects that were not marked are free, the others are as they were. *)
Record after_sweep (n ep : Z) (live_set : list Z) (g g' : collector) : Prop := {
  as_alloc : alloc_ok n (owner g');
  as_pages : gc_pages (mem (owner g')) (pgs (owner g'));
  as_covered : covered (owner g');
  as_epoch : epoch g' = ep;
  as_objects : forall s e, object (mem (owner g)) s = Some e ->
    (obj_state e = managedPublished -> obj_young e = false -> s ∉ live_set -> object (mem (owner g')) s = Some (with_obj_state managedFree e)) /\
    (obj_state e <> managedPublished \/ obj_young e = true \/ s ∈ live_set -> object (mem (owner g')) s = Some e /\ (live e -> content (mem (owner g')) e = content (mem (owner g)) e));
  as_none : forall s, object (mem (owner g)) s = None -> object (mem (owner g')) s = None;
  as_meta : forall s e, object (mem (owner g')) s = Some e -> obj_state e = managedPublished ->
    layout (meta (dir (owner g')) s) = layout (meta (dir (owner g)) s) /\ count (meta (dir (owner g')) s) = count (meta (dir (owner g)) s) /\
    logical (meta (dir (owner g')) s) = logical (meta (dir (owner g)) s) /\ (marked (meta (dir (owner g')) s) = ep <-> s ∈ live_set);
  as_fixed : conf (owner g') = conf (owner g) /\ caps (owner g') = caps (owner g) /\ layouts (owner g') = layouts (owner g) /\ reservations (owner g') = reservations (owner g);
  as_ledger : controlBytes (led (owner g')) = controlBytes (led (owner g)) /\ unpublished (led (owner g')) = unpublished (led (owner g))
}.

Lemma sweep_phase n g g2 ep :
  gc_ok n g -> marking (owner g) ep true g2 ->
  exists g3, sweepOld g2 = (Ok tt, g3) /\ after_sweep n ep (queue g2) g (set_owner reclaimEmptyPages g3) /\ reachableBytes (counts g3) = reachableBytes (counts g2).
Proof.
  intros [A P Gr Mk Pb Cv Rm] M. pose proof (mk_same _ _ _ _ M) as S. destruct (marks_only_fields _ _ S) as (Em & Ep & El & Ec & Ecap & Ely & Elo & Er & Ek & Eo & Ey & Ef & En).
  pose proof (fun s => marks_only_meta _ _ s S) as Hm. pose proof (alloc_ok_marks n _ _ S A) as A2.
  destruct (sweepOld_spec n g2 A2) as (g3 & E & A3 & P3 & Sw & Hc); [by rewrite Em, Ep|unfold queue_capacity; by rewrite Eo, Ecap|]. exists g3. split; [done|]. split; [|done].
  destruct (reclaim_spec n (owner g3) A3 P3) as (A4 & P4 & Sh). set (g4 := set_owner reclaimEmptyPages g3).
  assert (forall s e, object (mem (owner g)) s = Some e -> (s ∈ 0 :: dead_old g2 <-> obj_state e = managedPublished /\ obj_young e = false /\ s ∉ queue g2)) as Hdead.
  { intros s e He. unfold dead_old. rewrite elem_of_cons, list_elem_of_In, filter_In. pose proof (object_pos _ _ _ He) as Hpos. unfold sweepable, is_old. rewrite Em, He. rewrite (mk_epoch _ _ _ _ M). split.
    - intros [?|[_ Hb]]; [lia|]. apply andb_true_iff in Hb as [Hb Hb3]. apply andb_true_iff in Hb as [Hb1 Hb2]. apply bool_decide_eq_true in Hb1. apply negb_true_iff in Hb2. breflect.
      split; [done|]. split; [done|]. intros Hq. by apply Hb3, (mk_marked _ _ _ _ M s e).
    - intros (Hst & Hy & Hq). right. split; [apply list_elem_of_In; rewrite Eo; by eapply (ok_dir _ _ A)|]. rewrite bool_decide_true, Hy by done. cbn. apply negb_true_iff, Z.eqb_neq. intros Hmk. by apply Hq, (mk_marked _ _ _ _ M s e). }
  assert (forall i, object (mem (owner g4)) i = object (mem (owner g3)) i) as Ho4 by (intros i; apply object_segments; apply Sh).
  assert (forall i, object (mem (owner g2)) i = object (mem (owner g)) i) as Ho2 by (intros i; by rewrite Em).
  destruct (sw_control _ _ _ Sw) as (W1 & W2 & W3). destruct (sw_fixed _ _ _ Sw) as (X1 & X2 & X3 & X4 & X5 & X6). destruct (sh_fixed _ _ Sh) as (Y1 & Y2 & Y3 & Y4 & Y5 & Y6).
  destruct (sh_ledger _ _ Sh) as (Z1 & Z2 & Z3 & Z4 & Z5). destruct (sw_static _ _ _ Sw) as (V1 & _).
  split.
  - exact A4.
  - exact P4.
  - apply (sh_covered _ _ Sh). unfold covered in *. rewrite (resident_sum_ext _ _ (sw_resident _ _ _ Sw)), W3, X3, Ep, Ely, El. done.
  - cbn. rewrite V1. apply M.
  - intros s e He. rewrite Ho4, (sw_objects _ _ _ Sw), Ho2, He. split.
    + intros Hst Hy Hq. rewrite decide_True by (by apply (Hdead s e He)). done.
    + intros Hor. rewrite decide_False by (intros (? & ? & ?)%(Hdead s e He); destruct Hor as [?|[?|?]]; congruence). split; [done|]. intros Hl.
      change (owner g4) with (reclaimEmptyPages (owner g3)). rewrite (sh_content _ _ Sh s e). { unfold content. by rewrite (proj1 (sw_pages _ _ _ Sw)), Em. }
      split; [|done]. rewrite (sw_objects _ _ _ Sw), Ho2, He. by rewrite decide_False by (intros (? & ? & ?)%(Hdead s e He); destruct Hor as [?|[?|?]]; congruence).
  - intros s Hs. rewrite Ho4, (sw_objects _ _ _ Sw), Ho2, Hs. by destruct (decide _).
  - intros s e He Hst. cbn [set_owner owner g4]. rewrite (sh_dir _ _ Sh). rewrite Ho4, (sw_objects _ _ _ Sw), Ho2 in He. destruct (decide (s ∈ 0 :: dead_old g2)) as [Hin|Hni].
    { destruct (object (mem (owner g)) s); [|done]. cbn in He. by injection He as <-. }
    pose proof (sw_meta _ _ _ Sw s Hni) as (U1 & U2 & U3 & U4 & _)%unindexed_fields. destruct (Hm s) as (T1 & T2 & T3 & _). rewrite U1, U2, U3, U4, T1, T2, T3.
    repeat (split; [done|]). rewrite <- (mk_epoch _ _ _ _ M). rewrite (mk_epoch _ _ _ _ M). by apply (mk_marked _ _ _ _ M s e).
  - cbn. repeat split; congruence.
  - cbn. rewrite Z4, Z5, W1, W2, El. done.
Qed.

(** What is marked stores only references to what is marked. *)
Definition closed_under (a : allocator) (l : list Z) : Prop := forall s ref, s ∈ l -> stores a s ref -> slot ref ∈ l.

Section phases.
  Context (n ep : Z) (marks : list Z) (g g4 : collector).
  Context (K : gc_ok n g) (Sw : after_sweep n ep marks g g4) (Cl : closed_under (owner g) marks).

Lemma sweep_back s e : object (mem (owner g4)) s = Some e -> obj_state e = managedPublished ->
  object (mem (owner g)) s = Some e /\ content (mem (owner g4)) e = content (mem (owner g)) e /\ (obj_young e = false -> s ∈ marks).
Proof using Sw.
  intros He Hst. destruct (object (mem (owner g)) s) as [e0|] eqn:He0; [|rewrite (as_none _ _ _ _ _ Sw s He0) in He; done]. destruct (as_objects _ _ _ _ _ Sw s e0 He0) as [H1 H2].
  assert (obj_state e0 = managedPublished -> obj_young e0 = false -> s ∈ marks) as Hin.
  { intros Hs0 Hy0. destruct (decide (s ∈ marks)) as [?|Hn]; [done|]. rewrite (H1 Hs0 Hy0 Hn) in He. by injection He as <-. }
  destruct H2 as [He4 Hc].
  { destruct (decide (obj_state e0 = managedPublished)) as [Hs0|]; [|by left]. destruct (obj_young e0) eqn:Hy0; [by right; left|]. right. right. by apply Hin. }
  assert (e0 = e) as -> by congruence. split; [done|]. split; [apply Hc; unfold live; by rewrite Hst|]. by apply Hin.
Qed.

Lemma swept_published : all_published (owner g4).
Proof using K Sw.
  intros s e [He Hl]. destruct (object (mem (owner g)) s) as [e0|] eqn:He0; [|rewrite (as_none _ _ _ _ _ Sw s He0) in He; done]. destruct (as_objects _ _ _ _ _ Sw s e0 He0) as [H1 H2].
  destruct (decide (obj_state e0 = managedPublished)) as [Hs0|Hs0].
  - destruct (obj_young e0) eqn:Hy0; [destruct H2 as [He4 _]; [by right; left|]; congruence|]. destruct (decide (s ∈ marks)) as [Hin|Hn]; [destruct H2 as [He4 _]; [by right; right|]; congruence|].
    rewrite (H1 Hs0 eq_refl Hn) in He. by injection He as <-.
  - destruct H2 as [He4 _]; [by left|]. assert (e0 = e) as -> by congruence. by apply (gk_published _ _ K s).
Qed.

Lemma swept_resolves ref f : slot ref ∈ marks -> resolveObject (mem (owner g)) ref = Ok f -> resolveObject (mem (owner g4)) ref = Ok f.
Proof using Sw. intros Hin (Hf & Hst & Hg)%resolve_ok. apply resolve_ok. destruct (as_objects _ _ _ _ _ Sw _ _ Hf) as [_ [He4 _]]; [by right; right|]. done. Qed.

Lemma swept_graph : marked_graph ep (owner g4).
Proof using K Sw Cl.
  intros s e He Hst Hmk. destruct (as_meta _ _ _ _ _ Sw s e He Hst) as (M1 & M2 & _ & M4). apply M4 in Hmk. destruct (sweep_back s e He Hst) as (He0 & Hc & _).
  destruct (gr_shape _ (gk_graph _ _ K) s e He0 Hst) as (l & p0 & Hd & Hl & Hcnt & _ & _ & Hsz). destruct (as_fixed _ _ _ _ _ Sw) as (_ & _ & Ely & _).
  destruct (described_moved (owner g) (owner g4) s e e l p0) as (p & Hd' & Ech & _); try done; [apply K|by apply published_live|apply Sw|by apply published_live|].
  exists l, p. split; [done|]. split; [done|]. rewrite M2. split; [done|]. split; [done|]. rewrite <- M2, Ech. intros ref Hr. assert (stores (owner g) s ref) as Hs by (by exists e, l, p0).
  destruct (gr_resolves _ (gk_graph _ _ K) s ref Hs) as [Hv [f Hf]]. pose proof (Cl s ref Hmk Hs) as Hin. pose proof (swept_resolves ref f Hin Hf) as Hf4. split; [done|]. split; [|by exists f].
  pose proof Hf4 as (Hfo & Hfs & _)%resolve_ok. by apply (as_meta _ _ _ _ _ Sw _ _ Hfo Hfs).
Qed.

Context (g5 : collector) (A5 : alloc_ok n (owner g5)) (Co : copied ep g4 g5).

(** Every object is kept or freed. *)
Lemma collected_objects s e : object (mem (owner g)) s = Some e ->
  (obj_state e = managedPublished -> s ∈ marks -> exists e', object (mem (owner g5)) s = Some e' /\ kin e e' /\ content (mem (owner g5)) e' = content (mem (owner g)) e) /\
  (obj_state e = managedPublished -> s ∉ marks -> object (mem (owner g5)) s = Some (with_obj_state managedFree e)) /\
  (obj_state e <> managedPublished -> object (mem (owner g5)) s = Some e).
Proof using K Sw Co.
  intros He. destruct (as_objects _ _ _ _ _ Sw s e He) as [H1 H2]. split; [|split].
  - intros Hst Hin. destruct H2 as [He4 Hc]; [by right; right|]. assert (live e) as Hl by (unfold live; by rewrite Hst). destruct (co_objects _ _ _ Co s e He4) as (e' & He' & _ & Hk & _).
    exists e'. split; [done|]. rewrite <- (Hc Hl). apply Hk; [done|]. right. by apply (as_meta _ _ _ _ _ Sw s e He4 Hst).
  - intros Hst Hn. destruct (obj_young e) eqn:Hy.
    + destruct H2 as [He4 _]; [by right; left|]. destruct (co_objects _ _ _ Co s e He4) as (e' & -> & Hd & _). f_equal. apply Hd; [unfold live; by rewrite Hst|done|]. intros Hm. by apply Hn, (as_meta _ _ _ _ _ Sw s e He4 Hst).
    + specialize (H1 Hst eq_refl Hn). destruct (co_objects _ _ _ Co s _ H1) as (e' & -> & _ & _ & Hd). f_equal. apply Hd. unfold live. cbn. tauto.
  - intros Hst. destruct H2 as [He4 _]; [by left|]. destruct (co_objects _ _ _ Co s e He4) as (e' & -> & _ & _ & Hd). f_equal. apply Hd. intros Hl. apply Hst, (gk_published _ _ K s). done.
Qed.

Lemma collected_none s : object (mem (owner g)) s = None -> object (mem (owner g5)) s = None.
Proof using Sw Co. intros Hs. apply (co_none _ _ _ Co), (as_none _ _ _ _ _ Sw), Hs. Qed.

(** What is published afterwards was marked. *)
Lemma collected_back s e' : object (mem (owner g5)) s = Some e' -> obj_state e' = managedPublished ->
  s ∈ marks /\ exists e, object (mem (owner g)) s = Some e /\ obj_state e = managedPublished /\ kin e e' /\ content (mem (owner g5)) e' = content (mem (owner g)) e.
Proof using K Sw Co.
  intros He' Hst'. destruct (object (mem (owner g)) s) as [e|] eqn:He; [|rewrite (collected_none s He) in He'; done]. destruct (collected_objects s e He) as (H1 & H2 & H3).
  destruct (decide (obj_state e = managedPublished)) as [Hst|Hst]; [|rewrite (H3 Hst) in He'; congruence]. destruct (decide (s ∈ marks)) as [Hin|Hn].
  - split; [done|]. exists e. split; [done|]. split; [done|]. destruct (H1 Hst Hin) as (f & Hf & Hk). assert (f = e') as -> by congruence. done.
  - rewrite (H2 Hst Hn) in He'. by injection He' as <-.
Qed.

Lemma collected_meta s e' : object (mem (owner g5)) s = Some e' -> obj_state e' = managedPublished ->
  layout (meta (dir (owner g5)) s) = layout (meta (dir (owner g)) s) /\ count (meta (dir (owner g5)) s) = count (meta (dir (owner g)) s) /\
  logical (meta (dir (owner g5)) s) = logical (meta (dir (owner g)) s) /\ marked (meta (dir (owner g5)) s) = ep.
Proof using K Sw Co.
  intros He' Hst'. destruct (collected_back s e' He' Hst') as (Hin & e & He & Hst & _). destruct (as_objects _ _ _ _ _ Sw s e He) as [_ [He4 _]]; [by right; right|].
  destruct (as_meta _ _ _ _ _ Sw s e He4 Hst) as (M1 & M2 & M3 & M4). destruct (co_meta _ _ _ Co s e' He' Hst') as (N1 & N2 & N3 & N4). rewrite N1, N2, N3, N4, M1, M2, M3. repeat (split; [done|]). by apply M4.
Qed.

Lemma collected_graph : graph_ok (owner g5).
Proof using K Sw Cl A5 Co.
  destruct (co_fixed _ _ _ Co) as (_ & _ & L5 & _). destruct (as_fixed _ _ _ _ _ Sw) as (_ & _ & L4 & _).
  assert (forall s e', object (mem (owner g5)) s = Some e' -> obj_state e' = managedPublished -> exists e l p0 p, object (mem (owner g)) s = Some e /\ obj_state e = managedPublished /\ s ∈ marks /\
    described (owner g) s e = Some (l, p0) /\ described (owner g5) s e' = Some (l, p) /\ layout_ok l /\ 0 <= count (meta (dir (owner g5)) s) /\ 0 <= obj_offset e' /\ Z.of_nat (length (data p)) < 2 ^ 32 /\
    count (meta (dir (owner g5)) s) * lstride l <= obj_size e' /\ children l (count (meta (dir (owner g5)) s)) (data p) (obj_offset e') = children l (count (meta (dir (owner g)) s)) (data p0) (obj_offset e)) as Hs.
  { intros s e' He' Hst'. destruct (collected_back s e' He' Hst') as (Hin & e & He & Hst & (K1 & K2 & K3 & _) & Hc). destruct (collected_meta s e' He' Hst') as (M1 & M2 & _).
    destruct (gr_shape _ (gk_graph _ _ K) s e He Hst) as (l & p0 & Hd & Hl & Hcnt & _ & _ & Hsz).
    destruct (described_moved (owner g) (owner g5) s e e' l p0) as (p & Hd' & Ech & Hlen & Ho & _); try done; [congruence|apply K|by apply published_live|apply A5|by apply published_live|].
    exists e, l, p0, p. rewrite M2, K3. repeat (split; [done|]). rewrite <- M2 at 1. exact Ech. }
  split.
  - intros s e' He' Hst'. destruct (Hs s e' He' Hst') as (e & l & p0 & p & _ & _ & _ & _ & Hd & Hl & Hc & Ho & Hlen & Hsz & _). exists l, p. done.
  - intros s ref (e' & l' & p' & He' & Hst' & Hd' & Hin). destruct (Hs s e' He' Hst') as (e & l & p0 & p & He & Hst & Hmk & Hd0 & Hd & _ & _ & _ & _ & _ & Ech). rewrite Hd in Hd'. injection Hd' as <- <-. rewrite Ech in Hin.
    assert (stores (owner g) s ref) as Hst0 by (by exists e, l, p0). destruct (gr_resolves _ (gk_graph _ _ K) s ref Hst0) as [Hv [f (Hf & Hfs & Hfg)%resolve_ok]]. split; [done|].
    destruct (collected_objects _ f Hf) as (H1 & _). destruct (H1 Hfs (Cl s ref Hmk Hst0)) as (f' & Hf' & (K1 & K2 & _) & _). exists f'. apply resolve_ok. split; [done|]. by rewrite K1, K2.
Qed.
End phases.

(** ** The whole collection *)

Lemma reach_closed g roots q : markable (owner g) -> (forall s, s ∈ q <-> reaches (owner g) roots s) -> closed_under (owner g) q.
Proof.
  intros B Hq s ref Hs Hst. apply Hq in Hs as (root & e & Hin & He & Hrtc). apply Hq. exists root, e. split; [done|]. split; [done|]. eapply rtc_r; [exact Hrtc|]. by exists ref.
Qed.

(** Clearing unused layouts keeps the graph. *)
Lemma finished_graph g g' : finished g g' -> dir_ok (mem (owner g)) (dir (owner g)) -> graph_ok (owner g) -> graph_ok (owner g').
Proof.
  intros F D Gr. destruct (fi_mem _ _ F) as (Em & Ed & _). pose proof (fi_layouts _ _ F) as Hl.
  assert (forall s e, object (mem (owner g)) s = Some e -> obj_state e = managedPublished -> described (owner g') s e = described (owner g) s e) as Hd.
  { intros s e He Hst. unfold described. rewrite Em, Ed, Hl; [done|]. by eapply D. }
  split.
  - intros s e He Hst. rewrite Em in He. rewrite Ed, (Hd s e He Hst). by apply Gr.
  - intros s ref (e & l & p & He & Hst & Hde & Hin). rewrite Em in He |- *. rewrite (Hd s e He Hst) in Hde. rewrite Ed in Hin. apply (gr_resolves _ Gr s). by exists e, l, p.
Qed.

Lemma payload_survives (h h' : managedHeap) ref e e' :
  object h (slot ref) = Some e -> object h' (slot ref) = Some e' -> kin e e' -> content h' e' = content h e -> payload h' ref = payload h ref.
Proof.
  intros He He' (K1 & K2 & _) Hc. destruct (decide (obj_state e = managedPublished /\ obj_generation e = generation ref)) as [[Hs Hg]|Hn].
  - rewrite (payload_published h ref e He Hs Hg), (payload_published h' ref e' He') by congruence. done.
  - assert (obj_state e <> managedPublished \/ obj_generation e <> generation ref) as Hor by (destruct (decide (obj_state e = managedPublished)); [right; tauto|by left]).
    rewrite (payload_other h ref e He Hor), (payload_other h' ref e' He'); [done|]. by rewrite K1, K2.
Qed.

Lemma payload_gone (h : managedHeap) ref : (forall e, object h (slot ref) = Some e -> obj_state e <> managedPublished) -> payload h ref = None.
Proof.
  intros H. destruct (object h (slot ref)) as [e|] eqn:He; [apply (payload_other h ref e He); left; by apply H|]. unfold payload, resolveObject. by rewrite He.
Qed.

(** The heap after the collection: exactly the marked objects are left, with their bytes. *)
Record collected (n ep : Z) (marks : list Z) (g g' : collector) : Prop := {
  cd_alloc : alloc_ok n (owner g');
  cd_pages : gc_pages (mem (owner g')) (pgs (owner g'));
  cd_graph : graph_ok (owner g');
  cd_covered : covered (owner g');
  cd_kept : forall s e, object (mem (owner g)) s = Some e -> obj_state e = managedPublished -> s ∈ marks ->
    exists e', object (mem (owner g')) s = Some e' /\ kin e e' /\ content (mem (owner g')) e' = content (mem (owner g)) e;
  cd_back : forall s e', object (mem (owner g')) s = Some e' -> live e' -> obj_state e' = managedPublished /\ s ∈ marks /\ exists e, object (mem (owner g)) s = Some e /\ obj_state e = managedPublished;
  cd_meta : forall s e', object (mem (owner g')) s = Some e' -> obj_state e' = managedPublished ->
    logical (meta (dir (owner g')) s) = logical (meta (dir (owner g)) s) /\ marked (meta (dir (owner g')) s) = ep;
  cd_epoch : epoch g' = ep;
  cd_static : caps (owner g') = caps (owner g) /\ closed (conf (owner g')) = closed (conf (owner g)) /\ unpublished (led (owner g')) = unpublished (led (owner g)) /\
    controlBytes (led (owner g')) = controlBytes (led (owner g))
}.

(** From the copy to the end. *)
Lemma finish_phase n ep marks g g4 g5 :
  gc_ok n g -> after_sweep n ep marks g g4 -> closed_under (owner g) marks -> alloc_ok n (owner g5) -> gc_pages (mem (owner g5)) (pgs (owner g5)) -> copied ep g4 g5 ->
  exists g6, (let& _ := gc_modify (set_owner resetCards) in rebuildYoungCards) g5 = (Ok tt, g6) /\ collected n ep marks g (finish_collection true g6) /\
    reachableBytes (counts (finish_collection true g6)) = reachableBytes (counts g4).
Proof.
  intros K Sw Cl A5 P5 Co. pose proof (collected_graph n ep marks g g4 K Sw Cl g5 A5 Co) as Gr5.
  assert (carded g5 (set_owner resetCards g5)) as C5 by (destruct (resetCards_bytes (owner g5)) as (h & S & E); exists h; split; [done|]; unfold set_owner; by rewrite E).
  pose proof C5 as (h5 & S5 & E5'). destruct (rebuild_loop_spec (occupied (dir (owner (set_owner resetCards g5)))) (set_owner resetCards g5)) as (g6 & E6 & C6).
  { rewrite E5'. by apply (same_bytes_graph (owner g5)). }
  { rewrite E5'. eapply same_bytes_pages_ok; [exact S5|apply A5]. }
  exists g6. split; [exact E6|]. pose proof (carded_trans _ _ _ C5 C6) as (h6 & S6 & E6').
  assert (alloc_ok n (owner g6)) as A6 by (rewrite E6'; by apply (same_bytes_alloc n (owner g5))).
  assert (gc_pages (mem (owner g6)) (pgs (owner g6))) as P6 by (rewrite E6'; eapply same_bytes_gc; [exact S6|exact P5]).
  assert (graph_ok (owner g6)) as Gr6 by (rewrite E6'; by apply (same_bytes_graph (owner g5))).
  destruct (co_ledger _ _ _ Co) as (L1 & L2 & L3). destruct (co_fixed _ _ _ Co) as (X1 & X2 & X3 & _). destruct (as_fixed _ _ _ _ _ Sw) as (Y1 & Y2 & _). destruct (as_ledger _ _ _ _ _ Sw) as [W1 W2].
  destruct (co_gc _ _ _ Co) as (Q1 & _ & _ & Q4).
  assert (covered (owner g6)) as Cv6.
  { rewrite E6'. pose proof (as_covered _ _ _ _ _ Sw) as Hcv. unfold covered in *. cbn. rewrite (resident_sum_ext _ _ (co_resident _ _ _ Co)), X3, L3. exact Hcv. }
  destruct (finish_major_spec n g6 A6 P6 Cv6) as (A7 & Cv7 & F). set (g7 := finish_collection true g6) in *. destruct (fi_mem _ _ F) as (Em & Ed & Ep & Er & Ecap). destruct (fi_epoch _ _ F) as [Eep Ecn]. destruct (fi_closed _ _ F) as (Z1 & Z2 & Z3).
  assert (forall s, object (mem (owner g7)) s = object (mem (owner g5)) s) as Ho by (intros s; rewrite Em, E6'; apply object_segments, S6).
  assert (forall e, content (mem (owner g7)) e = content (mem (owner g5)) e) as Hc by (intros e; rewrite Em, E6'; by apply same_bytes_content).
  split; [split|].
  - exact A7.
  - rewrite Em, Ep. exact P6.
  - eapply finished_graph; [exact F|apply A6|exact Gr6].
  - exact Cv7.
  - intros s e He Hst Hin. destruct (collected_objects n ep marks g g4 K Sw g5 Co s e He) as (H1 & _). destruct (H1 Hst Hin) as (e' & He' & Hk & Hce). exists e'. by rewrite Ho, Hc.
  - intros s e' He' Hl. rewrite Ho in He'. destruct (object (mem (owner g)) s) as [e|] eqn:He; [|rewrite (collected_none n ep marks g g4 Sw g5 Co s He) in He'; done].
    assert (obj_state e' = managedPublished) as Hst'.
    { destruct (collected_objects n ep marks g g4 K Sw g5 Co s e He) as (H1 & H2 & H3). destruct (decide (obj_state e = managedPublished)) as [Hst|Hst].
      - destruct (decide (s ∈ marks)) as [Hin|Hn]; [destruct (H1 Hst Hin) as (f & Hf & (K1 & _) & _); congruence|]. rewrite (H2 Hst Hn) in He'. by injection He' as <-.
      - rewrite (H3 Hst) in He'. injection He' as <-. by destruct (Hst (gk_published _ _ K s e (conj He Hl))). }
    destruct (collected_back n ep marks g g4 K Sw g5 Co s e' He' Hst') as (Hin & f & Hf & Hfs & _). split; [done|]. split; [done|]. exists f. by rewrite <- He.
  - intros s e' He' Hst'. rewrite Ho in He'. rewrite Ed, E6'. destruct (collected_meta n ep marks g g4 K Sw g5 Co s e' He' Hst') as (_ & _ & M3 & M4). done.
  - rewrite Eep, E6'. cbn. rewrite Q1. apply Sw.
  - rewrite Ecap, Z1, Z2, Z3, E6'. cbn. by rewrite X2, Y2, X1, Y1, L2, W2, L1, W1.
  - rewrite Ecn, E6'. exact Q4.
Qed.

Lemma collected_ok n ep marks g g' : 0 <= ep < 2 ^ 64 -> gc_ok n g -> collected n ep marks g g' -> gc_ok n g'.
Proof.
  intros Hep K C. pose proof (ok_dir _ _ (cd_alloc _ _ _ _ _ C)) as D. destruct (cd_static _ _ _ _ _ C) as (E1 & _). split; try apply C.
  - split; [by rewrite (cd_epoch _ _ _ _ _ C)|]. intros s e He Hst. destruct (cd_meta _ _ _ _ _ C s e He Hst) as [_ ->]. rewrite (cd_epoch _ _ _ _ _ C). lia.
  - intros s e [He Hl]. by apply (cd_back _ _ _ _ _ C s e).
  - unfold queue_capacity. rewrite E1. etransitivity; [|exact (gk_room _ _ K)]. apply Nat2Z.inj_le, submseteq_length, NoDup_submseteq; [by eapply occupied_nodup|].
    intros s [i Hi]%list_elem_of_lookup. destruct (dir_occupied _ _ D i s Hi) as (_ & e' & He' & Hst'). destruct (cd_back _ _ _ _ _ C s e' He') as (_ & _ & e & He & Hst); [unfold live; by rewrite Hst'|]. by eapply (ok_dir _ _ (gk_alloc _ _ K)).
Qed.

(** The occupied slots are the marked ones. *)
Lemma collected_occupied n ep marks g g' s : collected n ep marks g g' -> (forall t, t ∈ marks -> exists e, object (mem (owner g)) t = Some e /\ obj_state e = managedPublished) ->
  s ∈ occupied (dir (owner g')) <-> s ∈ marks.
Proof.
  intros C Hm. pose proof (ok_dir _ _ (cd_alloc _ _ _ _ _ C)) as D. split.
  - intros [i Hi]%list_elem_of_lookup. destruct (dir_occupied _ _ D i s Hi) as (_ & e' & He' & Hst'). apply (cd_back _ _ _ _ _ C s e' He'). unfold live. by rewrite Hst'.
  - intros Hs. destruct (Hm s Hs) as (e & He & Hst). destruct (cd_kept _ _ _ _ _ C s e He Hst Hs) as (e' & He' & (K1 & _) & _). eapply D; [exact He'|congruence].
Qed.

Lemma collected_bytes n ep marks g g' :
  collected n ep marks g g' -> (forall t, t ∈ marks -> exists e, object (mem (owner g)) t = Some e /\ obj_state e = managedPublished) -> NoDup marks ->
  occupiedBytes (led (owner g')) = controlBytes (led (owner g)) + sum (map (fun s => logical (meta (dir (owner g)) s)) marks).
Proof.
  intros C Hm Hnd. pose proof (ok_dir _ _ (cd_alloc _ _ _ _ _ C)) as D. rewrite (led_occupied _ (ok_ledger _ _ (cd_alloc _ _ _ _ _ C))). destruct (cd_static _ _ _ _ _ C) as (_ & _ & _ & ->).
  rewrite Z.add_comm. f_equal. assert (occupied (dir (owner g')) ≡ₚ marks) as Hp by (apply NoDup_Permutation; [by eapply occupied_nodup|done|intros s; by eapply collected_occupied]).
  rewrite (sum_perm _ (map (fun s => logical (meta (dir (owner g')) s)) marks)) by by apply fmap_Permutation. apply sum_map_ext. intros s Hs. destruct (Hm s Hs) as (e & He & Hst).
  destruct (cd_kept _ _ _ _ _ C s e He Hst Hs) as (e' & He' & (K1 & _) & _). apply (cd_meta _ _ _ _ _ C s e' He'). congruence.
Qed.

Lemma collected_payload n ep marks g g' ref :
  collected n ep marks g g' -> (forall t, t ∈ marks -> exists e, object (mem (owner g)) t = Some e /\ obj_state e = managedPublished) ->
  (slot ref ∈ marks -> payload (mem (owner g')) ref = payload (mem (owner g)) ref) /\ (slot ref ∉ marks -> payload (mem (owner g')) ref = None).
Proof.
  intros C Hm. split.
  - intros Hs. destruct (Hm _ Hs) as (e & He & Hst). destruct (cd_kept _ _ _ _ _ C _ e He Hst Hs) as (e' & He' & Hk & Hc). by eapply payload_survives.
  - intros Hn. apply payload_gone. intros e' He' Hst'. apply Hn. apply (cd_back _ _ _ _ _ C _ e' He'). unfold live. by rewrite Hst'.
Qed.

(** A major collection. *)
Lemma major_collect_spec n g roots :
  gc_ok n g -> roots_ok (owner g) roots -> closed (conf (owner g)) = false -> unpublished (led (owner g)) = 0 ->
  exists c g' ep marks, collect roots true g = (Ok c, g') /\ 0 < ep < 2 ^ 64 /\ collected n ep marks g g' /\ NoDup marks /\
    (forall s, s ∈ marks <-> reaches (owner g) roots s) /\ (forall t, t ∈ marks -> exists e, object (mem (owner g)) t = Some e /\ obj_state e = managedPublished) /\
    reachableBytes c = controlBytes (led (owner g)) + sum (map (fun s => logical (meta (dir (owner g)) s)) marks).
Proof.
  intros K Hr Hcl Hun. assert (markable (owner g)) as B by (destruct K as [A]; split; [apply A|apply A|done|done]).
  destruct (nextCollectionEpoch_spec g (mb_dir _ B) (gk_marks _ _ K)) as (_ & Hep & _).
  destruct (major_marking_spec g roots B (gk_marks _ _ K) Hr) as (g2 & E2 & M & Hreach). set (ep := epoch (nextCollectionEpoch g)) in *.
  destruct (sweep_phase n g g2 ep K M) as (g3 & E3 & Sw & Hc3). set (g4 := set_owner reclaimEmptyPages g3) in *. pose proof (reach_closed g roots (queue g2) B Hreach) as Cl.
  destruct (copyNursery_spec n g4 ep) as (g5 & E5 & A5 & P5 & Co); [apply Sw|apply Sw|by eapply swept_published|by eapply swept_graph|apply Sw|].
  destruct (finish_phase n ep (queue g2) g g4 g5 K Sw Cl A5 P5 Co) as (g6 & E6 & C & Hc6).
  exists (counts (finish_collection true g6)), (finish_collection true g6), ep, (queue g2). split; [|split; [done|split; [done|split; [apply M|split; [done|split]]]]].
  - unfold collect. rewrite Hcl, Hun. cbn [Z.eqb negb]. rewrite (proj2 (Z.ltb_ge _ _) (gk_room _ _ K)). unfold gc_bind at 1. cbn [gc_modify]. unfold gc_bind at 1. cbn [gc_modify]. fold (start_marking g).
    unfold gc_bind in E2. unfold gc_bind at 1. destruct (mark_roots roots true (start_marking g)) as [[[]|x] g1]; [|done]. rewrite (gc_bind_ok _ _ _ _ _ E2). unfold gc_bind at 1. cbn [gc_return].
    unfold gc_bind at 1. rewrite (gc_bind_ok _ _ _ _ _ E3). cbn [gc_modify]. fold g4. rewrite (gc_bind_ok _ _ _ _ _ E5), (gc_bind_ok _ _ _ _ _ E6). done.
  - intros t Ht. destruct (mk_wanted _ _ _ _ M t Ht) as (e & He & Hst & _). by exists e.
  - rewrite Hc6. change (counts g4) with (counts g3). rewrite Hc3. apply M.
Qed.
