(* ===== verification/CollectorRun.v ===== *)
(** * Collections of the managed heap (src/runtime/managed_gc.go)

    The properties of collections, and a small heap on which they are evaluated. *)

From S2P Require Import Prelude GoStd GoBytes Heap Allocator AllocatorSafe AllocatorRun Collector CollectorMark CollectorPages CollectorSweep CollectorCards.
From S2P Require Import CollectorCopy CollectorFlip CollectorClean CollectorMajor CollectorFinish CollectorWhole.
From stdpp Require Import relations.

#[local] Open Scope Z_scope.
#[local] Arguments Z.to_nat : simpl never.

(** ** Marking fails without harm *)

(** A root that is neither nil nor a live reference. *)
Definition stale (a : allocator) (root : guestRef) : Prop := is_null root = false /\ forall e, valid root = true -> resolveObject (mem a) root <> Ok e.

Lemma gc_bind_return (m : gcM unit) (k : unit -> gcM unit) g g1 : gc_bind m (fun _ => gc_return tt) g = (Ok tt, g1) -> gc_bind m k g = k tt g1.
Proof. unfold gc_bind. destruct (m g) as [[[]|x] g2]; [|done]. cbn. intros E. by injection E as ->. Qed.

Lemma mark_roots_stale a0 ep major roots root rest g :
  markable a0 -> marking a0 ep major g -> roots_ok a0 roots -> stale a0 root ->
  exists g', mark_roots (roots ++ root :: rest) major g = (Err StaleRoot, g') /\ marks_only a0 (owner g').
Proof.
  intros B. revert g. induction roots as [|r roots IH]; intros g M Hr [Hn Hs].
  - cbn [app mark_roots]. destruct (valid root) eqn:Hv; cbn [negb].
    + destruct (marks_only_fields _ _ (mk_same _ _ _ _ M)) as (Em & _). unfold gc_bind. cbn [gc_modify]. unfold markReference. rewrite Hv. cbn [negb set_counts owner]. rewrite Em.
      destruct (resolveObject (mem a0) root) as [e|x] eqn:E; [by destruct (Hs e eq_refl)|]. eexists. split; [done|apply M].
    + rewrite Hn. cbn. eexists. split; [done|apply M].
  - destruct (mark_roots_spec a0 ep major [r] g B M) as (g1 & E1 & M1 & _); [intros q ->%list_elem_of_singleton; apply Hr; by left|].
    destruct (IH g1 M1) as (g' & E' & S'); [intros q Hq; apply Hr; by right|done|]. exists g'. split; [|done]. rewrite <- E'. cbn [app mark_roots] in *.
    exact (gc_bind_return _ (fun _ => mark_roots (roots ++ root :: rest) major) _ _ E1).
Qed.

(** The graph of a heap, checked object by object. *)
Definition layout_okb (l : managedLayout) : bool :=
  (0 <? lstride l) && (lstride l <? 2 ^ 32) && forallb (fun o => (0 <=? o) && (o + 8 <=? lstride l)) (references l) && bool_decide (StronglySorted Z.le (references l))
  && forallb (fun d => (0 <=? d) && (d + 24 <=? lstride l)) (dynamics l) && bool_decide (StronglySorted Z.le (dynamics l)).

Definition object_okb (a : allocator) (s : Z) : bool :=
  match object (mem a) s with
  | Some e =>
      match described a s e with
      | Some (l, p) =>
          layout_okb l && (0 <=? count (meta (dir a) s)) && (0 <=? obj_offset e) && (Z.of_nat (length (data p)) <? 2 ^ 32)
          && (count (meta (dir a) s) * lstride l <=? obj_size e)
          && forallb (fun ref => valid ref && match resolveObject (mem a) ref with Ok _ => true | Err _ => false end)
               (children l (count (meta (dir a) s)) (data p) (obj_offset e))
      | None => false
      end
  | None => false
  end.

Definition graph_okb (a : allocator) : bool := forallb (object_okb a) (occupied (dir a)).

Lemma layout_okb_ok l : layout_okb l = true -> layout_ok l.
Proof.
  unfold layout_okb. rewrite !andb_true_iff. intros [[[[[H1 H2] H3] H4] H5] H6]. rewrite forallb_forall in H3, H5. apply bool_decide_eq_true in H4, H6. breflect. split; [lia| |done| |done].
  - apply Forall_forall. intros o Ho%list_elem_of_In. specialize (H3 o Ho). cbn in H3. breflect. lia.
  - apply Forall_forall. intros o Ho%list_elem_of_In. specialize (H5 o Ho). cbn in H5. breflect. lia.
Qed.

Lemma graph_okb_ok a : dir_ok (mem a) (dir a) -> graph_okb a = true -> graph_ok a.
Proof.
  intros D H. unfold graph_okb in H. rewrite forallb_forall in H.
  assert (forall s e, object (mem a) s = Some e -> obj_state e = managedPublished -> object_okb a s = true) as Hs.
  { intros s e He Hst. by apply H, list_elem_of_In, (dir_published _ _ D s e). }
  split.
  - intros s e He Hst. specialize (Hs s e He Hst). unfold object_okb in Hs. rewrite He in Hs. destruct (described a s e) as [[l p]|]; [|done]. exists l, p.
    rewrite !andb_true_iff in Hs. destruct Hs as [[[[[Hl H2] H3] H4] H5] _]. apply layout_okb_ok in Hl. breflect. repeat (split; [done|]). lia.
  - intros s ref (e & l & p & He & Hst & Hd & Hin). specialize (Hs s e He Hst). unfold object_okb in Hs. rewrite He, Hd, !andb_true_iff in Hs. destruct Hs as [_ Hs].
    rewrite forallb_forall in Hs. specialize (Hs ref (proj1 (list_elem_of_In _ _) Hin)). cbn in Hs. apply andb_true_iff in Hs as [Hv Hr]. split; [done|].
    destruct (resolveObject (mem a) ref) as [f|]; [by exists f|done].
Qed.

(** ** The pages of a heap, checked *)

(** The objects of the directory, with their slots. *)
Definition all_objects (h : managedHeap) : list (Z * managedObject) :=
  omap (fun s => (fun e => (s, e)) <$> object h s) (seqZ 0 (managedSegmentSize * Z.of_nat (length (segments h)))).

Definition live_objects (h : managedHeap) : list (Z * managedObject) := List.filter (fun q => negb (bool_decide (obj_state (snd q) = managedFree))) (all_objects h).

Definition partner_of (g : paging) (id : Z) : option Z := partner <$> pmetas g !! Z.to_nat id.

Definition partner_okb (h : managedHeap) (g : paging) (q : Z) : bool :=
  (0 <=? q) && match pages h !! Z.to_nat q, pmetas g !! Z.to_nat q with
  | Some p, Some y => (Z.of_nat (length (data p)) =? managedPageBytes) && bool_decide (kind y = managedSparePage)
  | _, _ => false
  end.

(** The free cells of a page that was never used are in ascending order. *)
Fixpoint ascending (l : list Z) : bool :=
  match l with
  | i :: (j :: _) as rest => (i <? j) && ascending rest
  | _ => true
  end.

Definition cells_okb (p : managedPage) (x : pageMeta) : bool :=
  let k := Z.log2 (pclass x) in
  (3 <=? k) && (k <=? 16) && (pclass x =? 2 ^ k) && (Z.of_nat (length (data p)) =? managedPageBytes) && (managedPageBytes <=? managedCardBytes * Z.of_nat (length (cards p)))
  && (Z.of_nat (length (entries x)) * 2 ^ k =? managedPageBytes) && forallb (fun i => (0 <=? i) && bool_decide (entries x !! Z.to_nat i = Some 0)) (pfree x)
  && ascending (pfree x) && (used x =? 2 ^ k * full_cells x).

Definition available_okb (g : paging) (q : nat * list Z) : bool :=
  forallb (fun id => (0 <=? id) && match pmetas g !! Z.to_nat id with
                                   | Some x => bool_decide (kind x = managedOldPage) && (pclass x =? 2 ^ (Z.of_nat (fst q) + 3))
                                   | None => false
                                   end) (snd q).

(** The pages of a heap whose live objects are all young. *)
Definition gc_pagesb (h : managedHeap) (g : paging) : bool :=
  bool_decide (NoDup (nurseryPages g)) && bool_decide (NoDup (map (partner_of g) (nurseryPages g)))
  && forallb (fun id => match partner_of g id with Some q => partner_okb h g q | None => true end) (nurseryPages g)
  && forallb (fun q => obj_young (snd q) && bool_decide (obj_page (snd q) ∈ nurseryPages g) && (obj_size (snd q) mod 8 =? 0) && (8 <=? obj_size (snd q))) (live_objects h)
  && forallb (fun q => (0 <=? resident (snd q)) && (negb (bool_decide (kind (snd q) = managedOldPage)) || cells_okb (fst q) (snd q))) (zip (pages h) (pmetas g))
  && forallb (available_okb g) (imap pair (oldAvailable g)) && bool_decide (freePages g = []).

Lemma live_objects_in h s e : lives h s e -> In (s, e) (live_objects h).
Proof.
  intros [He Hl]. apply filter_In. split; [|cbn; by rewrite bool_decide_false]. apply list_elem_of_In, list_elem_of_omap. exists s. split; [|by rewrite He].
  pose proof (object_pos _ _ _ He). apply elem_of_seqZ. split; [lia|]. unfold object in He. destruct (_ || _) eqn:E; [done|]. apply orb_false_iff in E as [_ E%Z.leb_gt]. unfold managedSegmentSize in *.
  pose proof (Z.div_mod s 256 ltac:(lia)). pose proof (Z.mod_pos_bound s 256). lia.
Qed.

Lemma map_nodup_inj {A B} (f : A -> B) (l : list A) x y : NoDup (map f l) -> x ∈ l -> y ∈ l -> f x = f y -> x = y.
Proof.
  intros Hn [i Hi]%list_elem_of_lookup [j Hj]%list_elem_of_lookup E. assert (i = j) as ->; [|congruence].
  eapply (NoDup_lookup _ i j (f x) Hn); rewrite list_lookup_fmap, ?Hi, ?Hj; cbn; congruence.
Qed.

Lemma ascending_nodup l : ascending l = true -> NoDup l.
Proof.
  intros H. assert (Sorted Z.lt l) as Hs.
  { induction l as [|i [|j l] IH]; [done|by repeat constructor|]. cbn in H. apply andb_true_iff in H as [H1%Z.ltb_lt H2]. constructor; [by apply IH|by constructor]. }
  apply Sorted_StronglySorted in Hs; [|intros x y z; lia]. clear H. induction Hs as [|i l _ IH Hf]; constructor; [|done]. rewrite Forall_forall in Hf. intros Hi%Hf. lia.
Qed.

Lemma cells_okb_ok p x : cells_okb p x = true -> cells_ok p x (Z.log2 (pclass x)).
Proof.
  unfold cells_okb. rewrite !andb_true_iff, forallb_forall. intros [[[[[[[[H1 H2] H3] H4] H5] H6] H7] H8%ascending_nodup] H9]. breflect. split; try done.
  intros i Hi%list_elem_of_In. specialize (H7 i Hi). apply andb_true_iff in H7 as [H10 H11]. apply bool_decide_eq_true in H11. by breflect.
Qed.

Lemma available_okb_ok g i l id : available_okb g (i, l) = true -> id ∈ l ->
  0 <= id /\ exists x, pmetas g !! Z.to_nat id = Some x /\ kind x = managedOldPage /\ pclass x = 2 ^ (Z.of_nat i + 3).
Proof.
  unfold available_okb. rewrite forallb_forall. intros H Hid%list_elem_of_In. specialize (H id Hid). apply andb_true_iff in H as [H1 H2]. breflect. split; [done|].
  destruct (pmetas g !! Z.to_nat id) as [x|]; [|done]. apply andb_true_iff in H2 as [H2 H3]. apply bool_decide_eq_true in H2. breflect. by exists x.
Qed.

Lemma gc_pagesb_ok h g : length (pmetas g) = length (pages h) -> gc_pagesb h g = true -> gc_pages h g.
Proof.
  intros Hlen. unfold gc_pagesb. rewrite !andb_true_iff, !forallb_forall, !bool_decide_eq_true. intros [[[[[[Hn Hi] Hp] Hy] Hm] Ho] Hf].
  assert (forall s e, lives h s e -> obj_young e = true /\ obj_page e ∈ nurseryPages g /\ obj_size e mod 8 = 0 /\ 8 <= obj_size e) as Hl.
  { intros s e Hs%live_objects_in. specialize (Hy _ Hs). cbn in Hy. rewrite !andb_true_iff, bool_decide_eq_true in Hy. destruct Hy as [[[H1 H2] H3] H4]. breflect. done. }
  assert (forall id p x, pages h !! id = Some p -> pmetas g !! id = Some x -> 0 <= resident x /\ (kind x = managedOldPage -> exists k, cells_ok p x k)) as Hx.
  { intros id p x Hp' Hx'. assert (In (p, x) (zip (pages h) (pmetas g))) as Hc.
    { apply list_elem_of_In, list_elem_of_lookup. exists id. by rewrite lookup_zip_with, Hp', Hx'. }
    specialize (Hm _ Hc). cbn [fst snd] in Hm. apply andb_true_iff in Hm as [H1%Z.leb_le H2]. split; [done|]. intros Hk.
    rewrite bool_decide_true in H2 by done. eexists. by apply cells_okb_ok. }
  split.
  - done.
  - intros s e Hs _. by apply (Hl s e).
  - intros id x Hid Hxi. specialize (Hp id (proj1 (list_elem_of_In _ _) Hid)). unfold partner_of in Hp. rewrite Hxi in Hp. cbn in Hp. unfold partner_okb in Hp. apply andb_true_iff in Hp as [H1 H2]. breflect.
    split; [done|]. destruct (pages h !! _) as [p|]; [|done]. destruct (pmetas g !! Z.to_nat (partner x)) as [y|]; [|done]. exists p, y. apply andb_true_iff in H2 as [H2 H3]. apply bool_decide_eq_true in H3. by breflect.
  - intros id id' x x' H1 H2 H3 H4 E. apply (map_nodup_inj _ _ _ _ Hi H1 H2). unfold partner_of. rewrite H3, H4. cbn. by rewrite E.
  - intros s e Hs. by apply (Hl s e).
  - intros s e x Hs E. destruct (Hl s e Hs) as (E' & _). congruence.
  - intros id p x Hp' Hxi. by apply (Hx id).
  - intros i l id Hli. apply available_okb_ok, Ho, list_elem_of_In, list_elem_of_lookup. exists i. by rewrite list_lookup_imap, Hli.
  - intros id Hid. rewrite Hf in Hid. by apply not_elem_of_nil in Hid.
  - intros id x Hid. destruct (lookup_lt_is_Some_2 (pages h) id) as [p Hp']; [rewrite <- Hlen; by eapply lookup_lt_Some|]. by apply (Hx id p).
Qed.

(** ** The properties *)

(** The marking phase of a major collection on a heap whose stored references
    resolve ends within the queue, marks exactly the objects that the roots reach, each of them once, changes
    nothing but marks, and counts as reachable the control storage and the bytes of those objects. *)
Theorem collection_marks_reachable (n : Z) (g : collector) (roots : list guestRef) :
  alloc_ok n (owner g) -> graph_ok (owner g) -> marks_old g -> roots_ok (owner g) roots ->
  Z.of_nat (length (occupied (dir (owner g)))) <= queue_capacity (owner g) ->
  exists g', (let& _ := mark_roots roots true in drainQueue true) (start_marking g) = (Ok tt, g') /\ marks_only (owner g) (owner g') /\
    (forall s e, object (mem (owner g)) s = Some e -> obj_state e = managedPublished ->
      (marked (meta (dir (owner g')) s) = epoch g' <-> reaches (owner g) roots s)) /\
    NoDup (queue g') /\ (forall s, s ∈ queue g' <-> reaches (owner g) roots s) /\
    reachableBytes (counts g') = controlBytes (led (owner g)) + sum (map (fun s => logical (meta (dir (owner g)) s)) (queue g')).
Proof.
  intros A Gr Hm Hr Hq. destruct (major_marking_spec g roots) as (g' & E & M & Hreach); [split; [apply A|apply A|done|done]|done|done|].
  exists g'. split; [done|]. split; [apply M|]. split; [|split; [apply M|split; [done|apply M]]].
  intros s e He Hst. rewrite (mk_epoch _ _ _ _ M), (mk_marked _ _ _ _ M s e He Hst). apply Hreach.
Qed.

(** C15. A collection is refused on a closed heap, while a reservation is pending, and
    when the queue cannot hold every object, and then nothing changes; a root that is not a live reference
    makes it fail, and then nothing but marks has changed. *)
Theorem collection_refused (n : Z) (g : collector) (roots rest : list guestRef) (root : guestRef) (major : bool) :
  let a := owner g in let all := roots ++ root :: rest in
  (closed (conf a) = true -> collect all major g = (Err HeapClosed, g)) /\
  (closed (conf a) = false -> unpublished (led a) <> 0 -> collect all major g = (Err errManagedCollectorBusy, g)) /\
  (closed (conf a) = false -> unpublished (led a) = 0 -> queue_capacity a < Z.of_nat (length (occupied (dir a))) ->
    collect all major g = (Err errManagedCollectorScratch, g)) /\
  (closed (conf a) = false -> unpublished (led a) = 0 -> Z.of_nat (length (occupied (dir a))) <= queue_capacity a ->
    alloc_ok n a -> graph_ok a -> marks_old g -> roots_ok a roots -> stale a root ->
    exists g', collect all major g = (Err StaleRoot, g') /\ marks_only a (owner g')).
Proof.
  intros a all. unfold collect. fold a. split; [by intros ->|]. split; [intros -> H; by rewrite (proj2 (Z.eqb_neq _ _) H)|].
  split; [intros -> -> H; by rewrite (proj2 (Z.ltb_lt _ _) H)|]. intros -> -> Hq A Gr Hm Hr Hs. cbn [Z.eqb negb]. rewrite (proj2 (Z.ltb_ge _ _) Hq).
  pose proof (marking_start g major (ok_dir _ _ A) Hm) as M. assert (markable a) as B by (split; [apply A|apply A|done|done]).
  destruct (mark_roots_stale a _ major roots root rest _ B M Hr Hs) as (g' & E & S). exists g'. split; [|done].
  unfold gc_bind at 1. cbn [gc_modify]. unfold gc_bind at 1. cbn [gc_modify]. fold (start_marking g). unfold gc_bind at 1. unfold all. by rewrite E.
Qed.

(** C13. A major collection of a heap in good order, with live roots and no reservation pending, succeeds and is
    exactly a deletion of what the roots do not reach: every reference to a reachable slot reads the bytes it
    read before although the object may have been copied or promoted, every reference to any other slot is
    refused, the published slots are exactly the reachable ones, and the heap is again in good order. *)
Theorem major_collection_exact (n : Z) (g : collector) (roots : list guestRef) :
  gc_ok n g -> roots_ok (owner g) roots -> closed (conf (owner g)) = false -> unpublished (led (owner g)) = 0 ->
  exists c g', collect roots true g = (Ok c, g') /\ gc_ok n g' /\
    (forall ref, reaches (owner g) roots (slot ref) -> payload (mem (owner g')) ref = payload (mem (owner g)) ref) /\
    (forall ref, ~ reaches (owner g) roots (slot ref) -> payload (mem (owner g')) ref = None) /\
    (forall s, s ∈ occupied (dir (owner g')) <-> reaches (owner g) roots s) /\
    closed (conf (owner g')) = false /\ unpublished (led (owner g')) = 0.
Proof.
  intros K Hr Hc Hu. destruct (major_collect_spec n g roots K Hr Hc Hu) as (c & g' & ep & marks & E & Hep & C & Hnd & Hm & Hlive & _).
  exists c, g'. split; [done|]. split; [eapply collected_ok; [|done|done]; lia|].
  split; [intros ref H%Hm; by eapply collected_payload|]. split; [intros ref H; eapply collected_payload; [done..|by rewrite Hm]|].
  split; [intros s; rewrite <- Hm; by eapply collected_occupied|]. destruct (cd_static _ _ _ _ _ C) as (_ & -> & -> & _). done.
Qed.

(** C14. After a major collection the heap charges the guest for the control storage and the reachable objects
    and for nothing else, and the collection reports that figure. *)
Theorem collection_bytes_exact (n : Z) (g : collector) (roots : list guestRef) :
  gc_ok n g -> roots_ok (owner g) roots -> closed (conf (owner g)) = false -> unpublished (led (owner g)) = 0 ->
  exists c g' marks, collect roots true g = (Ok c, g') /\ NoDup marks /\ (forall s, s ∈ marks <-> reaches (owner g) roots s) /\
    occupiedBytes (led (owner g')) = controlBytes (led (owner g)) + sum (map (fun s => logical (meta (dir (owner g)) s)) marks) /\
    reachableBytes c = occupiedBytes (led (owner g')).
Proof.
  intros K Hr Hc Hu. destruct (major_collect_spec n g roots K Hr Hc Hu) as (c & g' & ep & marks & E & _ & C & Hnd & Hm & Hlive & Hb).
  exists c, g', marks. rewrite Hb. pose proof (collected_bytes _ _ _ _ _ C Hlive Hnd). done.
Qed.

(** ** A small heap: three objects, the first of which stores a reference to the second *)

Definition node_layout : managedLayout := mkLayout 16 0 [0] [] [].

Definition node_ops : list op :=
  [Register node_layout; Reserve 1 1 16; Fill 0 0 (le_bytes 8 (2 + 2 ^ 32)); Fill 0 8 [42]; Commit 0; Reserve 1 1 16; Fill 1 8 [43]; Commit 1; Reserve 1 1 16; Fill 2 8 [44]; Commit 2].

Definition nodes (k : nat) : allocator := foldl (fun a o => snd (exec o a)) (newManagedHeap 0 0) (take k node_ops).

Lemma nodes_next k o : node_ops !! k = Some o -> nodes (S k) = snd (exec o (nodes k)).
Proof. intros Hk. unfold nodes. rewrite (take_S_r _ _ _ Hk), foldl_app. done. Qed.

Lemma nodes_reach k : (k <= 11)%nat -> reach 0 0 (Z.of_nat k) (nodes k).
Proof.
  assert (forall k o, node_ops !! k = Some o -> legal (nodes k) o) as Hl.
  { intros i o Hi. do 11 (destruct i as [|i]; [injection Hi as <-; first [cbn; lia|by vm_compute|eexists; split; [by vm_compute|cbn; lia]]|]). done. }
  induction k as [|k IH]; intros Hk; [apply reach_new|]. specialize (IH ltac:(lia)). destruct (lookup_lt_is_Some_2 node_ops k) as [o Ho]; [cbn; lia|].
  rewrite Nat2Z.inj_succ. eapply (reach_exec _ _ _ _ o (fst (exec o (nodes k)))); [exact IH|by apply Hl|]. rewrite (nodes_next k o Ho). apply surjective_pairing.
Qed.

Definition new_collector (a : allocator) : collector := mkGc a 0 [] (mkCollection 0 0 0 0 0 0 0) (mkTotals 0 0 0 0 0 0 0 0) false.

Definition node_heap : collector := new_collector (nodes 11).

(** No object of a heap that was never collected is marked. *)
Lemma unmarked_old a : bool_decide (map_Forall (fun _ x => marked x = 0) (metas (dir a))) = true -> marks_old (new_collector a).
Proof.
  intros H%bool_decide_eq_true. split; [cbn; lia|]. intros s e _ _. cbn. unfold meta. destruct (metas (dir a) !! s) as [x|] eqn:E; [|cbn; lia].
  cbn. rewrite (H s x E). lia.
Qed.

Lemma nodes_ok : alloc_ok 11 (owner node_heap) /\ graph_ok (owner node_heap) /\ marks_old node_heap /\
  Z.of_nat (length (occupied (dir (owner node_heap)))) <= queue_capacity (owner node_heap).
Proof.
  destruct (reach_ok 0 0 11 (nodes 11)) as (A & _); [lia|lia|apply (nodes_reach 11); lia|lia|]. split; [done|].
  split; [apply graph_okb_ok; [apply A|by vm_compute]|]. split; [apply unmarked_old; by vm_compute|]. apply Z.leb_le. by vm_compute.
Qed.

Lemma root_ok a root e : valid root = true -> resolveObject (mem a) root = Ok e -> roots_ok a [root].
Proof. intros Hv He q ->%list_elem_of_singleton. right. split; [done|by exists e]. Qed.

Lemma collection_marks_reachable_witness :
  exists g', (let& _ := mark_roots [mkRef 1 1] true in drainQueue true) (start_marking node_heap) = (Ok tt, g') /\ queue g' = [1; 2] /\
    reachableBytes (counts g') = 32 /\ reaches (owner node_heap) [mkRef 1 1] 2 /\ ~ reaches (owner node_heap) [mkRef 1 1] 3.
Proof.
  destruct nodes_ok as (A & Gr & Hm & Hq).
  destruct (collection_marks_reachable 11 node_heap [mkRef 1 1] A Gr Hm) as (g' & E & _ & _ & _ & Hreach & Hb).
  { destruct (resolveObject (mem (owner node_heap)) (mkRef 1 1)) as [e|x] eqn:E; [by eapply root_ok|]. by vm_compute in E. }
  { exact Hq. }
  exists g'. split; [exact E|].
  assert (queue (snd ((let& _ := mark_roots [mkRef 1 1] true in drainQueue true) (start_marking node_heap))) = [1; 2]) as Q by by vm_compute.
  rewrite E in Q. cbn [snd] in Q. split; [exact Q|]. split; [rewrite Hb, Q; by vm_compute|]. split.
  - apply Hreach. rewrite Q. by right; left.
  - rewrite <- Hreach, Q. intros H. apply list_elem_of_In in H. cbn in H. lia.
Defined.

Lemma collection_refused_witness :
  resolveObject (mem (owner node_heap)) (mkRef 3 2) = Err errManagedReference /\
  exists g', collect [mkRef 1 1; mkRef 3 2] true node_heap = (Err StaleRoot, g') /\ marks_only (owner node_heap) (owner g').
Proof.
  destruct nodes_ok as (A & Gr & Hm & Hq). assert (resolveObject (mem (owner node_heap)) (mkRef 3 2) = Err errManagedReference) as Hs by by vm_compute.
  split; [exact Hs|]. apply (collection_refused 11 node_heap [mkRef 1 1] [] (mkRef 3 2) true); [by vm_compute|by vm_compute|exact Hq|exact A|exact Gr|exact Hm| |].
  - destruct (resolveObject (mem (owner node_heap)) (mkRef 1 1)) as [e|x] eqn:E; [by eapply root_ok|]. by vm_compute in E.
  - split; [done|]. intros e _. by rewrite Hs.
Defined.

Lemma nodes_gc_ok : gc_ok 11 node_heap.
Proof.
  destruct nodes_ok as (A & Gr & Hm & Hq). split; [exact A| |exact Gr|exact Hm| | |exact Hq].
  - apply gc_pagesb_ok; by vm_compute.
  - assert (forallb (fun q => bool_decide (obj_state (snd q) = managedPublished)) (live_objects (mem (owner node_heap))) = true) as H by by vm_compute.
    rewrite forallb_forall in H. intros s e Hs%live_objects_in. by specialize (H _ Hs); apply bool_decide_eq_true in H.
  - unfold covered. apply Z.leb_le. by vm_compute.
Qed.

(** The third object is not reachable from the first. *)
Lemma major_collection_exact_witness :
  exists c g', collect [mkRef 1 1] true node_heap = (Ok c, g') /\ gc_ok 11 g' /\
    payload (mem (owner g')) (mkRef 2 1) = payload (mem (owner node_heap)) (mkRef 2 1) /\
    payload (mem (owner g')) (mkRef 2 1) = Some (repeat 0 8 ++ [43] ++ repeat 0 7) /\
    payload (mem (owner node_heap)) (mkRef 3 1) = Some (repeat 0 8 ++ [44] ++ repeat 0 7) /\ payload (mem (owner g')) (mkRef 3 1) = None.
Proof.
  pose proof nodes_gc_ok as K. destruct (major_collection_exact 11 node_heap [mkRef 1 1] K) as (c & g' & E & K' & H1 & H2 & H3 & _); [|by vm_compute|by vm_compute|].
  { destruct (resolveObject (mem (owner node_heap)) (mkRef 1 1)) as [e|x] eqn:E; [by eapply root_ok|]. by vm_compute in E. }
  assert (occupied (dir (owner (snd (collect [mkRef 1 1] true node_heap)))) = [1; 2]) as Q by by vm_compute. rewrite E in Q. cbn [snd] in Q.
  assert (payload (mem (owner g')) (mkRef 2 1) = payload (mem (owner node_heap)) (mkRef 2 1)) as P2.
  { apply H1, H3. rewrite Q. by right; left. }
  exists c, g'. split; [exact E|]. split; [exact K'|]. split; [exact P2|]. split; [rewrite P2; by vm_compute|]. split; [by vm_compute|].
  apply H2. rewrite <- H3, Q. intros H. apply list_elem_of_In in H. cbn in H. lia.
Defined.

Lemma collection_bytes_exact_witness :
  occupiedBytes (led (owner node_heap)) = 48 /\
  exists c g' marks, collect [mkRef 1 1] true node_heap = (Ok c, g') /\ NoDup marks /\ (forall s, s ∈ marks <-> reaches (owner node_heap) [mkRef 1 1] s) /\
    occupiedBytes (led (owner g')) = 32 /\ reachableBytes c = 32.
Proof.
  split; [by vm_compute|]. destruct (collection_bytes_exact 11 node_heap [mkRef 1 1] nodes_gc_ok) as (c & g' & marks & E & Hn & Hm & Ho & Hc); [|by vm_compute|by vm_compute|].
  { destruct (resolveObject (mem (owner node_heap)) (mkRef 1 1)) as [e|x] eqn:E; [by eapply root_ok|]. by vm_compute in E. }
  assert (occupiedBytes (led (owner (snd (collect [mkRef 1 1] true node_heap)))) = 32) as Q by by vm_compute. rewrite E in Q. cbn [snd] in Q.
  exists c, g', marks. split; [exact E|]. split; [exact Hn|]. split; [exact Hm|]. split; [exact Q|]. rewrite Hc. exact Q.
Defined.
