(* ===== verification/Source.v ===== *)
(** * Source files and token kinds (src/compiler/source/input.go, src/compiler/token)

    Source files with the starts of their lines, positions and spans, the kinds of tokens and the classes of
    characters. *)

From S2P Require Import Prelude GoStd GoBytes TypeRelations.

#[local] Open Scope Z_scope.

(** ** Runes *)

(** [utf8.DecodeRuneInString]: the first rune with its width. *)
Definition RuneError : Z := 65533.

Definition DecodeRuneInString (s : gostring) : Z * nat :=
  match s with
  | [] => (RuneError, 0%nat)
  | a :: rest =>
      if a <? 128 then (a, 1%nat)
      else match rest with
           | [] => (RuneError, 1%nat)
           | b :: rest =>
               if (194 <=? a) && (a <=? 223) && utf8_cont b then ((a - 192) * 64 + (b - 128), 2%nat)
               else match rest with
                    | [] => (RuneError, 1%nat)
                    | c :: rest =>
                        if (224 <=? a) && (a <=? 239) && utf8_second3 a b && utf8_cont c then ((a - 224) * 4096 + (b - 128) * 64 + (c - 128), 3%nat)
                        else match rest with
                             | [] => (RuneError, 1%nat)
                             | d :: _ =>
                                 if (240 <=? a) && (a <=? 244) && utf8_second4 a b && utf8_cont c && utf8_cont d
                                 then ((a - 240) * 262144 + (b - 128) * 4096 + (c - 128) * 64 + (d - 128), 4%nat)
                                 else (RuneError, 1%nat)
                             end
                    end
           end
  end.

(** ** Files *)

Record File : Type := mkFile { ID : gostring; Path : gostring; OriginPath : gostring; Text : gostring; Hash : gostring; LineStarts : list nat }.

Record Position : Type := mkPosition { PFile : gostring; Offset : Z; Line : Z; Column : Z }.

Record Span : Type := mkSpan { Start : Position; End : Position }.

Definition no_position : Position := mkPosition [] 0 0 0.
Definition no_span : Span := mkSpan no_position no_position.

Record FileSet : Type := mkFileSet { Files : list File }.

Record RelatedDiagnostic : Type := mkRelated { RD_Message : gostring; RD_Span : Span }.

Record Diagnostic : Type := mkDiagnostic { D_ModulePath : gostring; D_Code : gostring; D_Severity : gostring; D_Message : gostring; D_Primary : Span; D_Related : list RelatedDiagnostic }.

Definition SeverityError : gostring := lit "error".
Definition SeverityWarning : gostring := lit "warning".
Definition SeverityInformation : gostring := lit "information".
Definition SeverityHint : gostring := lit "hint".

Definition DiagnosticTruncated : gostring := lit "compiler.diagnostics.truncated".

(** The loop of [lineStarts]: every line break starts a line. *)
Fixpoint line_starts_loop (fuel : nat) (text : gostring) (start : nat) : list nat :=
  match fuel with
  | O => []
  | S fuel =>
      if (start <? length text)%nat then
        match IndexByte (drop start text) 10 with
        | None => []
        | Some offset => let start := (start + (offset + 1))%nat in start :: line_starts_loop fuel text start
        end
      else []
  end.

Definition lineStarts (text : gostring) : list nat := 0%nat :: line_starts_loop (length text) text 0.

(** [sha256] of the text in hexadecimal is a parameter. *)
Definition NewFile (HashText : gostring -> gostring) (id path text : gostring) : File := mkFile id path [] text (HashText text) (lineStarts text).

Definition InitializeFile (HashText : gostring -> gostring) (file : File) : File :=
  mkFile (ID file) (Path file) (OriginPath file) (Text file)
    (if bool_decide (Hash file = []) then HashText (Text file) else Hash file)
    (if bool_decide (LineStarts file = []) then lineStarts (Text file) else LineStarts file).

Definition NormalizeFile (HashText : gostring -> gostring) (file : File) : File :=
  mkFile (ID file) (Path file) (OriginPath file) (Text file) (HashText (Text file)) (lineStarts (Text file)).

Definition NewFileSet (files : list File) : FileSet := mkFileSet files.

(** The new set with the index of the file. *)
Definition AddFile (file : File) (fs : FileSet) : FileSet * nat := (mkFileSet (Files fs ++ [file]), length (Files fs)).

Definition FileByPath (path : gostring) (fs : FileSet) : option File := find (fun file => bool_decide (Path file = path)) (Files fs).
Definition FileByID (id : gostring) (fs : FileSet) : option File := find (fun file => bool_decide (ID file = id)) (Files fs).

(** What [HashFiles] feeds to the hash. *)
Definition file_digest_text (HashText : gostring -> gostring) (file : File) : gostring :=
  ID file ++ [0] ++ Path file ++ [0] ++ (if bool_decide (OriginPath file = []) then [] else OriginPath file ++ [0]) ++ (if bool_decide (Hash file = []) then HashText (Text file) else Hash file) ++ [0].

Definition HashFiles (HashText : gostring -> gostring) (files : list File) : gostring :=
  if bool_decide (files = []) then [] else HashText (concat (map (file_digest_text HashText) files)).

(** The binary search of [Position]: the first line in [low, high) that starts after the offset. *)
Fixpoint position_search (fuel : nat) (starts : list nat) (offset : Z) (low high : nat) : nat :=
  match fuel with
  | O => low
  | S fuel =>
      if (low <? high)%nat then
        let middle := (low + (high - low) / 2)%nat in
        match starts !! middle with
        | Some start => if Z.of_nat start <=? offset then position_search fuel starts offset (middle + 1) high else position_search fuel starts offset low middle
        | None => low
        end
      else low
  end.

Definition filename (f : File) : gostring := if bool_decide (OriginPath f = []) then Path f else OriginPath f.

Definition file_Position (f : File) (offset : Z) : option Position :=
  if (offset <? 0) || (Z.of_nat (length (Text f)) <? offset) || bool_decide (Path f = []) then None
  else
    let starts := if bool_decide (LineStarts f = []) then lineStarts (Text f) else LineStarts f in
    let lineIndex := pred (position_search (length starts) starts offset 1 (length starts)) in
    Some (mkPosition (filename f) offset (Z.of_nat lineIndex + 1) (offset - Z.of_nat (default 0%nat (starts !! lineIndex)))).

Definition file_Span (f : File) (start end_ : Z) : option Span :=
  if (start <? 0) || (end_ <? start) || (Z.of_nat (length (Text f)) <? end_) then None
  else match file_Position f start with
       | None => None
       | Some startPos => match file_Position f end_ with None => None | Some endPos => Some (mkSpan startPos endPos) end
       end.

Definition position_Valid (p : Position) : bool := negb (bool_decide (PFile p = [])) && (0 <=? Offset p) && (0 <? Line p) && (0 <=? Column p).

Definition span_Valid (s : Span) : bool :=
  position_Valid (Start s) && position_Valid (End s) && bool_decide (PFile (Start s) = PFile (End s)) && (Offset (Start s) <=? Offset (End s)).

Definition ContainsOffset (offset : Z) (s : Span) : bool := span_Valid s && (Offset (Start s) <=? offset) && (offset <? Offset (End s)).

(** ** Token kinds *)

Module token.

Inductive Kind : Type :=
| NoKind | Illegal | EOF | Comment | Ident | Int | Float | Imag | Char | String
| Add | Sub | Mul | Quo | Rem | And | Or | Xor | Tilde | Shl | Shr | AndNot
| AddAssign | SubAssign | MulAssign | QuoAssign | RemAssign | AndAssign | OrAssign | XorAssign | ShlAssign | ShrAssign | AndNotAssign
| Land | Lor | Arrow | Inc | Dec | Eq | Lt | Gt | Assign | Not | Ne | Le | Ge | Define | Ellipsis
| Lparen | Lbrack | Lbrace | Comma | Period | Semicolon | Colon | Rparen | Rbrack | Rbrace
| Break | Case | Chan | Const | Continue | Default | Defer | Else | Fallthrough | For | Func | Go | Goto | If | Import | Interface | Map | Package | Range
| Return | Select | Struct | Switch | TypeWord | Var.

#[global] Instance Kind_eq_dec : EqDecision Kind.
Proof. solve_decision. Defined.

Definition keywords : list (gostring * Kind) :=
  [(lit "break", Break); (lit "case", Case); (lit "chan", Chan); (lit "const", Const); (lit "continue", Continue); (lit "default", Default); (lit "defer", Defer);
   (lit "else", Else); (lit "fallthrough", Fallthrough); (lit "for", For); (lit "func", Func); (lit "go", Go); (lit "goto", Goto); (lit "if", If);
   (lit "import", Import); (lit "interface", Interface); (lit "map", Map); (lit "package", Package); (lit "range", Range); (lit "return", Return);
   (lit "select", Select); (lit "struct", Struct); (lit "switch", Switch); (lit "type", TypeWord); (lit "var", Var)].

(** A Go map as the list of its entries. *)
Fixpoint find_kind (table : list (gostring * Kind)) (text : gostring) : option Kind :=
  match table with
  | [] => None
  | (name, kind) :: table => if bool_decide (name = text) then Some kind else find_kind table text
  end.

Definition Lookup (ident : gostring) : Kind := default Ident (find_kind keywords ident).

Definition IsKeyword (kind : Kind) : bool := existsb (fun e => bool_decide (snd e = kind)) keywords.

Definition CanEndStatement (kind : Kind) : bool :=
  match kind with
  | Ident | Int | Float | Imag | Char | String | Break | Continue | Fallthrough | Return | Inc | Dec | Rparen | Rbrack | Rbrace => true
  | _ => false
  end.

(** ** Classes of characters; the tables of letters and digits are generated. *)

Definition IsDecimalDigit (r : Z) : bool := (48 <=? r) && (r <=? 57).

Definition IsHexDigit (r : Z) : bool := IsDecimalDigit r || ((97 <=? r) && (r <=? 102)) || ((65 <=? r) && (r <=? 70)).

Section classes.
Context (letterRanges digitRanges : list (Z * Z * Z)).

Definition IsIdentifierStart (r : Z) : bool :=
  (r =? 95) || ((97 <=? r) && (r <=? 122)) || ((65 <=? r) && (r <=? 90)) || ((128 <=? r) && inUnicodeRanges letterRanges r).

Definition IsIdentifierPart (r : Z) : bool := IsIdentifierStart r || IsDecimalDigit r || ((128 <=? r) && inUnicodeRanges digitRanges r).

(** The runes of a string, as [range] decodes them. *)
Fixpoint runes (fuel : nat) (s : gostring) : list Z :=
  match fuel with
  | O => []
  | S fuel => match s with [] => [] | _ => fst (DecodeRuneInString s) :: runes fuel (drop (snd (DecodeRuneInString s)) s) end
  end.

Definition IsIdentifierName (name : gostring) : bool :=
  match runes (length name) name with
  | [] => false
  | r :: rest => IsIdentifierStart r && forallb IsIdentifierPart (r :: rest)
  end.
End classes.
End token.
