(* ===== verification/Diagnostics.v ===== *)
(** * Diagnostics (src/compiler/source/diagnostic.go)

    The collector of diagnostics with its budget, and their normal form: severities filled in, sorted, without
    repetitions. *)

From S2P Require Import Prelude GoStd GoBytes Source.

#[local] Open Scope Z_scope.

(** ** Normal forms *)

Definition severityRank (severity : gostring) : Z :=
  if bool_decide (severity = SeverityError) then 0
  else if bool_decide (severity = SeverityWarning) then 1
  else if bool_decide (severity = SeverityInformation) then 2
  else if bool_decide (severity = SeverityHint) then 3
  else 4.

Definition HasErrors (diagnostics : list Diagnostic) : bool :=
  existsb (fun d => bool_decide (D_Severity d = []) || bool_decide (D_Severity d = SeverityError)) diagnostics.

Definition fill_severity (d : Diagnostic) : Diagnostic :=
  if bool_decide (D_Severity d = []) then mkDiagnostic (D_ModulePath d) (D_Code d) SeverityError (D_Message d) (D_Primary d) (D_Related d) else d.

Definition string_less (s t : gostring) : bool := strings_Compare s t <? 0.

Definition diagnostic_less (left right : Diagnostic) : bool :=
  let start d := Start (D_Primary d) in
  if bool_decide (D_Code left = DiagnosticTruncated) || bool_decide (D_Code right = DiagnosticTruncated) then negb (bool_decide (D_Code left = DiagnosticTruncated))
  else if negb (bool_decide (D_ModulePath left = D_ModulePath right)) then string_less (D_ModulePath left) (D_ModulePath right)
  else if negb (bool_decide (PFile (start left) = PFile (start right))) then string_less (PFile (start left)) (PFile (start right))
  else if negb (Offset (start left) =? Offset (start right)) then Offset (start left) <? Offset (start right)
  else if negb (severityRank (D_Severity left) =? severityRank (D_Severity right)) then severityRank (D_Severity left) <? severityRank (D_Severity right)
  else if negb (bool_decide (D_Code left = D_Code right)) then string_less (D_Code left) (D_Code right)
  else string_less (D_Message left) (D_Message right).

Definition sameDiagnosticIdentity (left right : Diagnostic) : bool :=
  bool_decide (D_Code left = D_Code right) && bool_decide (D_ModulePath left = D_ModulePath right) &&
  bool_decide (PFile (Start (D_Primary left)) = PFile (Start (D_Primary right))) && (Offset (Start (D_Primary left)) =? Offset (Start (D_Primary right))) &&
  bool_decide (PFile (End (D_Primary left)) = PFile (End (D_Primary right))) && (Offset (End (D_Primary left)) =? Offset (End (D_Primary right))).

Fixpoint distinct_loop (out : list Diagnostic) (values : list Diagnostic) : list Diagnostic :=
  match values with
  | [] => out
  | d :: values => if match last out with Some previous => sameDiagnosticIdentity previous d | None => false end then distinct_loop out values else distinct_loop (out ++ [d]) values
  end.

(** [sort.SliceStable] is the insertion sort, which keeps the order of equivalent values. *)
Definition NormalizeDiagnostics (diagnostics : list Diagnostic) : list Diagnostic := distinct_loop [] (sort_slice diagnostic_less (map fill_severity diagnostics)).

(** ** The collector *)

Record DiagnosticCollector : Type := mkCollector { c_limit : Z; c_values : list Diagnostic; c_truncated : bool }.

Definition NewDiagnosticCollector (limit : Z) : DiagnosticCollector := mkCollector limit [] false.

Definition Add (diagnostic : Diagnostic) (c : DiagnosticCollector) : DiagnosticCollector :=
  if (0 <? c_limit c) && (c_limit c <=? Z.of_nat (length (c_values c))) then mkCollector (c_limit c) (c_values c) true
  else mkCollector (c_limit c) (c_values c ++ [fill_severity diagnostic]) (c_truncated c).

Fixpoint AddAll (diagnostics : list Diagnostic) (c : DiagnosticCollector) : DiagnosticCollector :=
  match diagnostics with [] => c | d :: diagnostics => AddAll diagnostics (Add d c) end.

Definition truncation : Diagnostic := mkDiagnostic [] DiagnosticTruncated SeverityError (lit "diagnostic limit reached; additional diagnostics were omitted") no_span [].

Definition collected (c : DiagnosticCollector) : list Diagnostic := NormalizeDiagnostics (if c_truncated c then c_values c ++ [truncation] else c_values c).

(** ** Comparisons *)

Record cmp_ok {A} (c : A -> A -> Z) : Prop := {
  cmp_anti : forall x y, c y x = - c x y;
  cmp_trans : forall x y z, c x y <= 0 -> c y z <= 0 -> c x z <= 0
}.

Definition then_cmp {A} (c1 c2 : A -> A -> Z) (x y : A) : Z := if c1 x y =? 0 then c2 x y else c1 x y.

Lemma then_cmp_ok {A} (c1 c2 : A -> A -> Z) : cmp_ok c1 -> cmp_ok c2 -> cmp_ok (then_cmp c1 c2).
Proof.
  intros [A1 T1] [A2 T2]. split; intros x y; unfold then_cmp.
  - rewrite A1. destruct (Z.eqb_spec (c1 x y) 0) as [->|H]; [apply A2|]. destruct (Z.eqb_spec (- c1 x y) 0); lia.
  - intros z. pose proof (A1 x y). pose proof (A1 y z). pose proof (A1 x z). pose proof (T1 x y z). pose proof (T1 z x y). pose proof (T1 y z x). pose proof (T2 x y z).
    destruct (Z.eqb_spec (c1 x y) 0), (Z.eqb_spec (c1 y z) 0), (Z.eqb_spec (c1 x z) 0); lia.
Qed.

Lemma on_cmp_ok {A B} (f : A -> B) (c : B -> B -> Z) : cmp_ok c -> cmp_ok (fun x y => c (f x) (f y)).
Proof. intros [A1 T1]. split; intros; [apply A1|by eapply T1]. Qed.

Lemma strings_cmp_ok : cmp_ok strings_Compare.
Proof. split; [intros x y; apply strings_Compare_antisym|apply strings_Compare_trans]. Qed.

Lemma number_cmp_ok : cmp_ok (fun x y => Z.sgn (x - y)).
Proof. split; intros; lia. Qed.

Lemma cmp_sorts {A} (c : A -> A -> Z) (less : A -> A -> bool) : cmp_ok c -> (forall x y, less x y = (c x y <? 0)) ->
  (forall x y z, less y x = false -> less z y = false -> less z x = false) /\ (forall x y, less x y = true -> less y x = false).
Proof.
  intros [A1 T1] Hl. split.
  - intros x y z. rewrite !Hl, !Z.ltb_ge. intros H1 H2. pose proof (A1 x y). pose proof (A1 y z). pose proof (A1 x z). pose proof (T1 x y z). lia.
  - intros x y. rewrite !Hl, Z.ltb_lt, Z.ltb_ge. pose proof (A1 x y). lia.
Qed.

(** ** The order of diagnostics *)

Definition is_truncated (d : Diagnostic) : bool := bool_decide (D_Code d = DiagnosticTruncated).

(** All truncations are equivalent, and after everything else. *)
Definition plain (d : Diagnostic) : Diagnostic := if is_truncated d then truncation else d.

Definition diagnostic_cmp : Diagnostic -> Diagnostic -> Z :=
  then_cmp (fun x y => Z.sgn (Z.b2z (is_truncated x) - Z.b2z (is_truncated y)))
  (fun x y => then_cmp (fun x y => strings_Compare (D_ModulePath x) (D_ModulePath y))
    (then_cmp (fun x y => strings_Compare (PFile (Start (D_Primary x))) (PFile (Start (D_Primary y))))
    (then_cmp (fun x y => Z.sgn (Offset (Start (D_Primary x)) - Offset (Start (D_Primary y))))
    (then_cmp (fun x y => Z.sgn (severityRank (D_Severity x) - severityRank (D_Severity y)))
    (then_cmp (fun x y => strings_Compare (D_Code x) (D_Code y)) (fun x y => strings_Compare (D_Message x) (D_Message y)))))) (plain x) (plain y)).

Lemma diagnostic_cmp_ok : cmp_ok diagnostic_cmp.
Proof.
  apply then_cmp_ok; [apply (on_cmp_ok (fun d => Z.b2z (is_truncated d)) (fun x y => Z.sgn (x - y))), number_cmp_ok|]. apply (on_cmp_ok plain).
  apply then_cmp_ok; [apply (on_cmp_ok D_ModulePath), strings_cmp_ok|]. apply then_cmp_ok; [apply (on_cmp_ok (fun d => PFile (Start (D_Primary d)))), strings_cmp_ok|].
  apply then_cmp_ok; [apply (on_cmp_ok (fun d => Offset (Start (D_Primary d))) (fun x y => Z.sgn (x - y))), number_cmp_ok|].
  apply then_cmp_ok; [apply (on_cmp_ok (fun d => severityRank (D_Severity d)) (fun x y => Z.sgn (x - y))), number_cmp_ok|].
  apply then_cmp_ok; [apply (on_cmp_ok D_Code), strings_cmp_ok|apply (on_cmp_ok D_Message), strings_cmp_ok].
Qed.

(** One comparison of the chain. *)
Lemma then_string (s t : gostring) (r : Z) (b : bool) : b = (r <? 0) -> (if negb (bool_decide (s = t)) then string_less s t else b) = ((if strings_Compare s t =? 0 then r else strings_Compare s t) <? 0).
Proof.
  intros ->. unfold string_less. case_bool_decide as E; cbn [negb].
  - rewrite (proj2 (strings_Compare_eq s t) E). done.
  - destruct (Z.eqb_spec (strings_Compare s t) 0) as [H|H]; [by apply strings_Compare_eq in H|done].
Qed.

Lemma then_number (x y r : Z) (b : bool) : b = (r <? 0) -> (if negb (x =? y) then x <? y else b) = ((if Z.sgn (x - y) =? 0 then r else Z.sgn (x - y)) <? 0).
Proof.
  intros ->. destruct (Z.eqb_spec x y) as [->|H]; cbn [negb]; [by rewrite Z.sub_diag|]. destruct (Z.eqb_spec (Z.sgn (x - y)) 0) as [E|E]; [lia|]. destruct (Z.ltb_spec x y), (Z.ltb_spec (Z.sgn (x - y)) 0); lia.
Qed.

Lemma diagnostic_less_cmp x y : diagnostic_less x y = (diagnostic_cmp x y <? 0).
Proof.
  unfold diagnostic_less, diagnostic_cmp. fold (is_truncated x) (is_truncated y). unfold then_cmp at 1, plain. destruct (is_truncated x), (is_truncated y); [done|done|done|]. cbn [orb negb Z.b2z Z.sub]. change (Z.sgn (0 - 0) =? 0) with true. cbn iota. unfold then_cmp.
  apply then_string, then_string, then_number, then_number, then_string. done.
Qed.

Definition less_facts := cmp_sorts diagnostic_cmp diagnostic_less diagnostic_cmp_ok diagnostic_less_cmp.

(** ** Removing repetitions *)

(** What is kept after [previous]. *)
Fixpoint thin (previous : option Diagnostic) (l : list Diagnostic) : list Diagnostic :=
  match l with
  | [] => []
  | d :: l => if match previous with Some p => sameDiagnosticIdentity p d | None => false end then thin previous l else d :: thin (Some d) l
  end.

Lemma distinct_loop_thin l out : distinct_loop out l = out ++ thin (last out) l.
Proof.
  revert out. induction l as [|d l IH]; intros out; cbn [distinct_loop thin]; [by rewrite app_nil_r|]. destruct (match last out with Some p => _ | None => false end); [apply IH|]. rewrite IH, last_snoc, <- app_assoc. done.
Qed.

Lemma thin_sublist previous l : thin previous l `sublist_of` l.
Proof. revert previous. induction l as [|d l IH]; intros previous; cbn [thin]; [done|]. case_if; [by apply sublist_cons|by apply sublist_skip]. Qed.

Lemma thin_idempotent previous l : thin previous (thin previous l) = thin previous l.
Proof.
  revert previous. induction l as [|d l IH]; intros previous; cbn [thin]; [done|]. destruct (match previous with Some p => sameDiagnosticIdentity p d | None => false end) eqn:E; [apply IH|]. cbn [thin]. rewrite E. by rewrite IH.
Qed.

Lemma same_refl d : sameDiagnosticIdentity d d = true.
Proof. unfold sameDiagnosticIdentity. rewrite !bool_decide_true, !Z.eqb_refl by done. done. Qed.

Lemma thin_keeps previous l d : d ∈ l -> exists d', (d' ∈ thin previous l \/ previous = Some d') /\ sameDiagnosticIdentity d' d = true.
Proof.
  revert previous. induction l as [|x l IH]; intros previous; [by intros H%not_elem_of_nil|]. cbn [thin]. intros [->|Hd]%elem_of_cons.
  - destruct previous as [p|]; [destruct (sameDiagnosticIdentity p x) eqn:E; [exists p; split; [by right|done]|]|]; exists x; (split; [left; by left|apply same_refl]).
  - destruct (match previous with Some p => sameDiagnosticIdentity p x | None => false end).
    + by apply IH.
    + destruct (IH (Some x) Hd) as (d' & [H|H] & Hs); exists d'; (split; [|done]); left; [by right|]. injection H as <-. by left.
Qed.

(** ** Errors *)

Definition is_error (d : Diagnostic) : bool := bool_decide (D_Severity d = []) || bool_decide (D_Severity d = SeverityError).

(** A diagnostic that an error repeats, and that does not come after it, is an error. *)
Lemma repeated_error p d : D_Severity p <> [] -> is_truncated d = false -> is_error d = true -> D_Severity d <> [] -> sameDiagnosticIdentity p d = true -> diagnostic_less d p = false -> is_error p = true.
Proof.
  intros Hp Ht He Hd Hs Hl. unfold sameDiagnosticIdentity in Hs. unfold is_error in *. rewrite bool_decide_false in He by done. cbn [orb] in He. apply bool_decide_eq_true in He.
  apply andb_true_iff in Hs as [Hs _]. apply andb_true_iff in Hs as [Hs _]. apply andb_true_iff in Hs as [Hs Ho]. apply andb_true_iff in Hs as [Hs Hf]. apply andb_true_iff in Hs as [Hc Hm]. apply bool_decide_eq_true in Hf, Hc, Hm. apply Z.eqb_eq in Ho.
  unfold diagnostic_less in Hl. rewrite Hc, Hm, Hf, Ho in Hl. fold (is_truncated d) in Hl. rewrite Ht in Hl. cbn [orb] in Hl. rewrite !bool_decide_true, Z.eqb_refl in Hl by done. cbn [negb] in Hl. rewrite He in Hl.
  change (severityRank SeverityError) with 0 in Hl. destruct (Z.eqb_spec 0 (severityRank (D_Severity p))) as [E|E]; cbn [negb] in Hl.
  - unfold severityRank in E. rewrite (bool_decide_true (D_Severity p = SeverityError)); [by rewrite orb_true_r|]. case_bool_decide; [done|]. exfalso. repeat case_bool_decide; lia.
  - apply Z.ltb_ge in Hl. assert (0 <= severityRank (D_Severity p)); [unfold severityRank; repeat case_bool_decide; lia|lia].
Qed.

Lemma thin_errors previous l : sorted_slice diagnostic_less l -> (forall p, previous = Some p -> D_Severity p <> [] /\ Forall (fun y => diagnostic_less y p = false) l) -> Forall (fun d => D_Severity d <> [] /\ (is_truncated d = true -> is_error d = true)) l ->
  (forall p, previous = Some p -> is_truncated p = true -> is_error p = true) -> existsb is_error l = true -> existsb is_error (thin previous l) = true \/ exists p, previous = Some p /\ is_error p = true.
Proof.
  intros Hs. revert previous. induction Hs as [|d l Hd _ IH]; intros previous Hp Hl Ht He; [done|]. apply Forall_cons in Hl as [[Hd1 Hd2] Hl]. cbn [thin existsb] in *.
  destruct (match previous with Some p => sameDiagnosticIdentity p d | None => false end) eqn:E.
  - destruct previous as [p|]; [|done]. destruct (Hp p eq_refl) as [Hp1 Hp2]. apply Forall_cons in Hp2 as [Hp2 Hp3]. destruct (is_error d) eqn:Ed; [|apply IH; [intros q Hq; by injection Hq as <-|done|done|done]].
    right. exists p. split; [done|]. destruct (is_truncated d) eqn:Etd; [|by eapply repeated_error]. apply (Ht p eq_refl). unfold is_truncated in *. unfold sameDiagnosticIdentity in E. rewrite !andb_true_iff in E. destruct E as [[[[[Hc _] _] _] _] _]. apply bool_decide_eq_true in Hc. by rewrite Hc.
  - left. cbn [existsb]. destruct (is_error d) eqn:Ed; [done|]. cbn [orb] in *. destruct (IH (Some d)) as [H|(p & Hq & H)]; try done.
    + intros p Hq. injection Hq as <-. done.
    + intros p Hq. injection Hq as <-. by rewrite Ed.
    + injection Hq as <-. congruence.
Qed.

(** ** Sorting *)

Lemma sorted_sublist {A} (less : A -> A -> bool) l1 l2 : l1 `sublist_of` l2 -> sorted_slice less l2 -> sorted_slice less l1.
Proof.
  intros H. induction H as [|x l1 l2 H IH|x l1 l2 H IH]; intros Hs; [done| |]; inversion Hs as [|y l Hy Hl]; subst; [|by apply IH]. constructor; [|by apply IH]. apply Forall_forall. intros z Hz. apply (proj1 (Forall_forall _ _) Hy). by eapply elem_of_sublist.
Qed.

Lemma sort_sorted {A} (less : A -> A -> bool) l : sorted_slice less l -> sort_slice less l = l.
Proof.
  induction 1 as [|x l Hx _ IH]; [done|]. cbn [sort_slice]. rewrite IH. destruct l as [|y l]; [done|]. apply Forall_cons in Hx as [Hx _]. cbn [insert_sorted]. by rewrite Hx.
Qed.

Lemma fill_filled d : D_Severity (fill_severity d) <> [].
Proof. unfold fill_severity. case_bool_decide; done. Qed.

Lemma fill_again l : Forall (fun d => D_Severity d <> []) l -> map fill_severity l = l.
Proof. induction 1 as [|d l Hd _ IH]; [done|]. cbn [map]. rewrite IH. unfold fill_severity. by rewrite bool_decide_false. Qed.

Lemma fill_all l : Forall (fun d => D_Severity d <> []) (map fill_severity l).
Proof. apply Forall_fmap, Forall_true. intros d. apply fill_filled. Qed.

Lemma normalize_filled l : NormalizeDiagnostics (map fill_severity l) = NormalizeDiagnostics l.
Proof. unfold NormalizeDiagnostics. by rewrite (fill_again (map fill_severity l) (fill_all l)). Qed.

Lemma fill_error d : is_error (fill_severity d) = is_error d.
Proof. unfold fill_severity, is_error. destruct (decide (D_Severity d = [])) as [E|E]; [by rewrite !(bool_decide_true (D_Severity d = []))|by rewrite !(bool_decide_false (D_Severity d = []))]. Qed.

(** ** What the collector and the normal form give *)

Lemma AddAll_exact ds c : c_truncated c = false \/ 0 < c_limit c <= Z.of_nat (length (c_values c)) -> (0 < c_limit c -> Z.of_nat (length (c_values c)) <= c_limit c) ->
  let room := Z.to_nat (c_limit c - Z.of_nat (length (c_values c))) in
  AddAll ds c = if 0 <? c_limit c then mkCollector (c_limit c) (c_values c ++ map fill_severity (take room ds)) (c_truncated c || negb (length ds <=? room)%nat) else mkCollector (c_limit c) (c_values c ++ map fill_severity ds) (c_truncated c).
Proof.
  revert c. induction ds as [|d ds IH]; intros c Hc Hl room.
  - cbn [AddAll map length]. rewrite take_nil, !app_nil_r, orb_false_r. by destruct (0 <? c_limit c), c.
  - cbn [AddAll]. unfold Add. destruct (Z.ltb_spec 0 (c_limit c)) as [Hpos|Hneg]; cbn [andb].
    + destruct (Z.leb_spec (c_limit c) (Z.of_nat (length (c_values c)))) as [Hfull|Hroom].
      * assert (room = 0%nat) as -> by (subst room; lia). rewrite IH; cbn [c_limit c_values c_truncated]; [|right; lia|done]. rewrite (proj2 (Z.ltb_lt _ _)) by done. replace (Z.to_nat (c_limit c - Z.of_nat (length (c_values c)))) with 0%nat by lia.
        cbn [take map length Nat.leb negb]. by rewrite !orb_true_r.
      * destruct Hc as [Hc|Hc]; [|lia]. rewrite IH; cbn [c_limit c_values c_truncated]; [|by left|rewrite length_app; cbn [length]; lia]. rewrite (proj2 (Z.ltb_lt _ _)) by done. rewrite length_app. cbn [length].
        assert (room = S (Z.to_nat (c_limit c - Z.of_nat (length (c_values c) + 1)))) as -> by (subst room; lia). cbn [take map length Nat.leb]. by rewrite <- app_assoc.
    + rewrite IH; cbn [c_limit c_values c_truncated]; [|destruct Hc; [by left|lia]|lia]. rewrite (proj2 (Z.ltb_ge _ _)) by done. cbn [map]. by rewrite <- app_assoc.
Qed.

Lemma normalize_append ds : NormalizeDiagnostics (map fill_severity ds ++ [truncation]) = NormalizeDiagnostics (ds ++ [truncation]).
Proof. rewrite <- (normalize_filled (ds ++ [truncation])), map_app. done. Qed.

(** ** The promise, in its own terms *)

(** What makes a diagnostic a repetition of another: the same code, module and span. *)
Definition identity (d : Diagnostic) : gostring * gostring * (gostring * Z) * (gostring * Z) :=
  (D_Code d, D_ModulePath d, (PFile (Start (D_Primary d)), Offset (Start (D_Primary d))), (PFile (End (D_Primary d)), Offset (End (D_Primary d)))).

Definition notice : Diagnostic := mkDiagnostic [] (lit "compiler.diagnostics.truncated") (lit "error") (lit "diagnostic limit reached; additional diagnostics were omitted") no_span [].

(** The known severities come first, the gravest before the others. *)
Definition gravity (d : Diagnostic) : nat := default 4%nat (fst <$> list_find (eq (D_Severity d)) [lit "error"; lit "warning"; lit "information"; lit "hint"]).

(** [x] may stand before [y]: the notices are last, the others are by module, file, offset, severity, code and message. *)
Definition in_order (x y : Diagnostic) : Prop :=
  let place d := Start (D_Primary d) in
  D_Code y = D_Code notice \/
  D_Code x <> D_Code notice /\
  (strings_Compare (D_ModulePath x) (D_ModulePath y) < 0 \/ D_ModulePath x = D_ModulePath y /\
  (strings_Compare (PFile (place x)) (PFile (place y)) < 0 \/ PFile (place x) = PFile (place y) /\
  (Offset (place x) < Offset (place y) \/ Offset (place x) = Offset (place y) /\
  ((gravity x < gravity y)%nat \/ gravity x = gravity y /\
  (strings_Compare (D_Code x) (D_Code y) < 0 \/ D_Code x = D_Code y /\ strings_Compare (D_Message x) (D_Message y) <= 0))))).

(** A diagnostic without a severity is an error. *)
Definition completed (d0 d : Diagnostic) : Prop :=
  (D_Severity d0 <> [] /\ d = d0) \/ (D_Severity d0 = [] /\ d = mkDiagnostic (D_ModulePath d0) (D_Code d0) (lit "error") (D_Message d0) (D_Primary d0) (D_Related d0)).

Definition grave (d : Diagnostic) : Prop := D_Severity d = [] \/ D_Severity d = lit "error".

Lemma severityRank_gravity d : severityRank (D_Severity d) = Z.of_nat (gravity d).
Proof.
  unfold gravity. generalize (D_Severity d). clear d. intros v. destruct (decide (v = lit "error")) as [->|N1]; [reflexivity|]. destruct (decide (v = lit "warning")) as [->|N2]; [reflexivity|].
  destruct (decide (v = lit "information")) as [->|N3]; [reflexivity|]. destruct (decide (v = lit "hint")) as [->|N4]; [reflexivity|]. unfold severityRank. rewrite !bool_decide_false by done. cbn [list_find]. by rewrite !decide_False by done.
Qed.

(** One step of the chain of comparisons. *)
Lemma string_step (s t : gostring) (b : bool) (P : Prop) : (if negb (bool_decide (t = s)) then string_less t s else b) = false -> (b = false -> P) -> strings_Compare s t < 0 \/ s = t /\ P.
Proof.
  case_bool_decide as E; cbn [negb]; intros H HP; [right; by auto|]. left. unfold string_less in H. apply Z.ltb_ge in H. rewrite strings_Compare_antisym in H.
  assert (strings_Compare s t <> 0) by (intros H0; apply strings_Compare_eq in H0; congruence). lia.
Qed.

Lemma number_step (x y : Z) (b : bool) (P : Prop) : (if negb (y =? x) then y <? x else b) = false -> (b = false -> P) -> x < y \/ x = y /\ P.
Proof. destruct (Z.eqb_spec y x) as [->|Hne]; cbn [negb]; intros H HP; [right; by auto|]. left. apply Z.ltb_ge in H. lia. Qed.

Lemma in_order_less x y : diagnostic_less y x = false -> in_order x y.
Proof.
  unfold diagnostic_less, in_order. cbv zeta. change DiagnosticTruncated with (D_Code notice). destruct (decide (D_Code y = D_Code notice)) as [Ey|Ey]; [by left|]. rewrite (bool_decide_false (D_Code y = _)) by done.
  destruct (decide (D_Code x = D_Code notice)) as [Ex|Ex]; [by rewrite bool_decide_true|]. rewrite (bool_decide_false (D_Code x = _)) by done. cbn [orb]. intros H. right. split; [done|]. revert H. rewrite !severityRank_gravity.
  intros H. eapply string_step; [exact H|]. clear H. intros H. eapply string_step; [exact H|]. clear H. intros H. eapply number_step; [exact H|]. clear H. intros H.
  assert (Z.of_nat (gravity x) < Z.of_nat (gravity y) \/ Z.of_nat (gravity x) = Z.of_nat (gravity y) /\ (strings_Compare (D_Code x) (D_Code y) < 0 \/ D_Code x = D_Code y /\ strings_Compare (D_Message x) (D_Message y) <= 0)) as [Hg|[Hg HP]]; [|left; lia|right; split; [lia|exact HP]].
  eapply number_step; [exact H|]. clear H. intros H. eapply string_step; [exact H|]. intros Hm. unfold string_less in Hm. apply Z.ltb_ge in Hm. rewrite strings_Compare_antisym in Hm. lia.
Qed.

Lemma in_order_sorted l : sorted_slice diagnostic_less l -> StronglySorted in_order l.
Proof. induction 1 as [|x l Hx _ IH]; constructor; [done|]. eapply Forall_impl; [exact Hx|]. intros y. apply in_order_less. Qed.

Lemma same_identity x y : sameDiagnosticIdentity x y = true <-> identity x = identity y.
Proof.
  unfold sameDiagnosticIdentity, identity. rewrite !andb_true_iff, !bool_decide_eq_true, !Z.eqb_eq. split; [|intros H; by injection H as -> -> -> -> -> ->]. intros (((((-> & ->) & ->) & ->) & ->) & ->). done.
Qed.

Lemma thin_neighbours previous l i x y : (match previous with Some p => p :: thin previous l | None => thin previous l end) !! i = Some x ->
  (match previous with Some p => p :: thin previous l | None => thin previous l end) !! S i = Some y -> sameDiagnosticIdentity x y = false.
Proof.
  revert previous i. induction l as [|d l IH]; intros previous i; cbn [thin]; [destruct previous; [by destruct i|done]|].
  destruct (match previous with Some p => sameDiagnosticIdentity p d | None => false end) eqn:E; [apply IH|]. destruct previous as [p|]; [|apply (IH (Some d))].
  destruct i as [|i]; [|apply (IH (Some d) i)]. cbn. intros H1 H2. by injection H1 as <-; injection H2 as <-.
Qed.

Lemma fill_completes d : completed d (fill_severity d).
Proof. unfold completed, fill_severity. case_bool_decide as E; [by right|by left]. Qed.

Lemma error_grave d : is_error d = true <-> grave d.
Proof. unfold is_error, grave. by rewrite orb_true_iff, !bool_decide_eq_true. Qed.

(** C31. A collector with a budget gives the normal form of everything it was given, or of the first ones and a notice that
    others were left out.  The normal form is in order (notices last, the others by module, file, ascending offset,
    severity with errors first, code and message), no two neighbours in it have the same code, module and span, it is
    made of the diagnostics given, those without a severity as errors, has for each of them one with the same code,
    module and span, and is its own normal form.  It has errors exactly when the diagnostics given have, provided that
    those among them with the code of a notice are errors. *)
Theorem diagnostics_exact limit ds :
  let out := collected (AddAll ds (NewDiagnosticCollector limit)) in
  let given := if (0 <? limit) && (limit <? Z.of_nat (length ds)) then take (Z.to_nat limit) ds ++ [notice] else ds in
  out = NormalizeDiagnostics given /\ StronglySorted in_order out /\ (forall i x y, out !! i = Some x -> out !! S i = Some y -> identity x <> identity y) /\ NormalizeDiagnostics out = out /\
  (forall d, d ∈ out -> exists d0, d0 ∈ given /\ completed d0 d) /\ (forall d, d ∈ given -> exists d', d' ∈ out /\ identity d' = identity d) /\
  ((forall d, d ∈ given -> D_Code d = D_Code notice -> grave d) -> HasErrors out = true <-> exists d, d ∈ given /\ grave d).
Proof.
  change notice with truncation.
  intros out given. assert (out = NormalizeDiagnostics given) as Ho.
  { unfold out, given, collected. rewrite AddAll_exact; [|by left|cbn; lia]. cbn [NewDiagnosticCollector c_limit c_values c_truncated length app orb]. rewrite Z.sub_0_r. destruct (Z.ltb_spec 0 limit) as [Hp|Hn]; cbn [andb c_truncated c_values]; [|apply normalize_filled].
    destruct (Z.ltb_spec limit (Z.of_nat (length ds))) as [Hlt|Hge].
    - rewrite (proj2 (Nat.leb_gt _ _)) by lia. cbn [negb]. apply normalize_append.
    - rewrite (proj2 (Nat.leb_le _ _)) by lia. cbn [negb]. rewrite take_ge by lia. apply normalize_filled. }
  rewrite Ho. clear Ho out. clearbody given. unfold NormalizeDiagnostics. destruct less_facts as [Htr Has]. set (filled := map fill_severity given). set (l := sort_slice diagnostic_less filled). rewrite (distinct_loop_thin l []). cbn [last app].
  assert (sorted_slice diagnostic_less l) as Hs by (by apply sort_slice_sorted). assert (l ≡ₚ filled) as Hperm by apply sort_slice_perm. pose proof (thin_sublist None l) as Hsub. assert (sorted_slice diagnostic_less (thin None l)) as Hst by (by eapply sorted_sublist).
  assert (forall d, d ∈ thin None l -> d ∈ filled) as Hin by (intros d Hd; rewrite <- Hperm; by eapply elem_of_sublist).
  assert (Forall (fun d => D_Severity d <> []) filled) as Hfill by apply fill_all. split_and!; try done.
  - by apply in_order_sorted.
  - intros i x y Hx Hy He. apply same_identity in He. by rewrite (thin_neighbours None l i x y Hx Hy) in He.
  - assert (map fill_severity (thin None l) = thin None l) as -> by (apply fill_again, Forall_forall; intros d Hd; apply (proj1 (Forall_forall _ _) Hfill), Hin, Hd). rewrite (sort_sorted _ _ Hst), (distinct_loop_thin _ []). apply thin_idempotent.
  - intros d Hd. apply Hin, list_elem_of_fmap in Hd as (d0 & -> & Hd0). exists d0. split; [done|apply fill_completes].
  - intros d Hd. assert (fill_severity d ∈ l) as Hfd by (rewrite Hperm; apply list_elem_of_fmap; by exists d). destruct (thin_keeps None l _ Hfd) as (d' & [H|H] & Hsame); [|done]. exists d'. split; [done|]. apply same_identity in Hsame. rewrite Hsame. unfold fill_severity. by destruct (bool_decide (D_Severity d = [])).
  - intros Ht. transitivity (existsb is_error given = true); [|rewrite existsb_exists; by setoid_rewrite list_elem_of_In; setoid_rewrite error_grave].
    change (existsb is_error (thin None l) = true <-> existsb is_error given = true). apply eq_iff_eq_true. assert (existsb is_error given = existsb is_error l) as ->.
    { transitivity (existsb is_error filled); [|].
      - unfold filled. clear. induction given as [|d given IH]; [done|]. cbn [map existsb]. by rewrite fill_error, IH.
      - apply eq_true_iff_eq. rewrite !existsb_exists. split; intros (d & Hd & He); exists d; (split; [|done]); apply list_elem_of_In; apply list_elem_of_In in Hd; [by rewrite Hperm|by rewrite <- Hperm]. }
    destruct (existsb is_error l) eqn:E.
    + destruct (thin_errors None l Hs) as [H|(p & H & _)]; try done. apply Forall_forall. intros d Hd. rewrite Hperm in Hd. split; [by apply (proj1 (Forall_forall _ _) Hfill)|]. apply list_elem_of_fmap in Hd as (d0 & -> & Hd0).
      rewrite fill_error. intros Htr0. apply error_grave, (Ht d0 Hd0). apply bool_decide_eq_true in Htr0. unfold fill_severity in Htr0. destruct (bool_decide (D_Severity d0 = [])); exact Htr0.
    + apply not_true_iff_false. intros (d & Hd & He)%existsb_exists. apply not_true_iff_false in E. apply E. apply existsb_exists. exists d. split; [|done]. apply list_elem_of_In. apply list_elem_of_In in Hd. rewrite Hperm. by apply Hin.
Qed.

(** ** Samples *)

Definition sample_diagnostic (severity message : gostring) (end_ : Z) : Diagnostic :=
  mkDiagnostic (lit "m") (lit "c") severity message (mkSpan (mkPosition (lit "f") 3 1 3) (mkPosition (lit "f") end_ 1 end_)) [].

(** The second of two equal diagnostics goes, the errors come before the warnings, and the notice is last. *)
Example collected_sample :
  map (fun d => (D_Severity d, D_Message d)) (collected (AddAll [sample_diagnostic SeverityWarning (lit "b") 7; sample_diagnostic [] (lit "a") 5; sample_diagnostic [] (lit "a") 5; sample_diagnostic [] (lit "z") 5] (NewDiagnosticCollector 3))) =
  [(SeverityError, lit "a"); (SeverityWarning, lit "b"); (SeverityError, lit "diagnostic limit reached; additional diagnostics were omitted")].
Proof. vm_compute. reflexivity. Qed.

(** A repetition stays where a diagnostic with another end is sorted between the two. *)
Example repetition_apart : let l := NormalizeDiagnostics [sample_diagnostic [] (lit "a") 5; sample_diagnostic [] (lit "b") 9; sample_diagnostic [] (lit "c") 5] in
  length l = 3%nat /\ length (NormalizeDiagnostics [sample_diagnostic [] (lit "a") 5; sample_diagnostic [] (lit "c") 5]) = 1%nat.
Proof. vm_compute. split; reflexivity. Qed.
