(* ===== verification/Scanner.v ===== *)
(** * The scanner (src/compiler/scanner)

    The scanner turns a source text into elements that tile the text (tokens, white space, line breaks,
    comments) and into the sequence of tokens with the semicolons that the language inserts, both as indices
    into one tape of records, with diagnostics, within limits.

    A loop whose rounds are not those of a structure has fuel, and its result is [None] when the fuel is used
    up before the loop has ended; its callers supply more rounds than there are bytes ahead.

    Offsets and lines are natural numbers, as the scanner never computes negative ones.  The generated tables
    of letters and digits, the hash of a text and the quoting of a string ([%q]) are parameters. *)

From S2P Require Import Prelude GoStd GoBytes TypeRelations Constraint Source.

#[local] Open Scope nat_scope.

(** ** Data *)

Record Limits : Type := mkLimits { MaxSourceBytes : Z; MaxTokens : Z; MaxDiagnostics : Z }.

Definition DefaultMaxSourceBytes : Z := Z.shiftl 16 20.
Definition DefaultMaxTokens : Z := 1000000.
Definition DefaultMaxDiagnostics : Z := 100.

Definition normalizeLimits (limits : Limits) : Limits :=
  mkLimits (if (MaxSourceBytes limits <=? 0)%Z then DefaultMaxSourceBytes else MaxSourceBytes limits)
    (if (MaxTokens limits <=? 0)%Z then DefaultMaxTokens else MaxTokens limits)
    (if (MaxDiagnostics limits <=? 0)%Z then DefaultMaxDiagnostics else MaxDiagnostics limits).

Inductive ElementKind : Type := NoElement | ElementToken | ElementWhitespace | ElementNewline | ElementLineComment | ElementBlockComment | ElementBOM.

#[export] Instance ElementKind_eq_dec : EqDecision ElementKind.
Proof. solve_decision. Defined.

(** The diagnostics of the scanner are errors without a module. *)
Definition scan_error (code message : gostring) (span : Span) : Diagnostic := mkDiagnostic [] code SeverityError message span [].

(** Kinds, element kinds, and start, end and line of each record. *)
Record lexicalTape : Type := mkTape { kinds : list token.Kind; elements : list ElementKind; positions : list nat }.

Definition appendRecord (kind : token.Kind) (element : ElementKind) (start end_ line : nat) (tape : lexicalTape) : lexicalTape :=
  mkTape (kinds tape ++ [kind]) (elements tape ++ [element]) (positions tape ++ [start; end_; line]).

Record scanner : Type := mkScanner {
  file : File; offset : nat; line : nat; insertSemi : bool; records : lexicalTape; s_elements : list nat; s_tokens : list nat; diagnostics : list Diagnostic;
  limits : Limits; stopped : bool; diagLimited : bool; tokenLimit : bool; headerOnly : bool; headerState : nat; headerDepth : nat
}.

Definition set_offset (n : nat) (s : scanner) : scanner :=
  mkScanner (file s) n (line s) (insertSemi s) (records s) (s_elements s) (s_tokens s) (diagnostics s) (limits s) (stopped s) (diagLimited s) (tokenLimit s) (headerOnly s) (headerState s) (headerDepth s).
Definition set_line (n : nat) (s : scanner) : scanner :=
  mkScanner (file s) (offset s) n (insertSemi s) (records s) (s_elements s) (s_tokens s) (diagnostics s) (limits s) (stopped s) (diagLimited s) (tokenLimit s) (headerOnly s) (headerState s) (headerDepth s).
Definition set_insertSemi (b : bool) (s : scanner) : scanner :=
  mkScanner (file s) (offset s) (line s) b (records s) (s_elements s) (s_tokens s) (diagnostics s) (limits s) (stopped s) (diagLimited s) (tokenLimit s) (headerOnly s) (headerState s) (headerDepth s).
Definition set_records (r : lexicalTape) (s : scanner) : scanner :=
  mkScanner (file s) (offset s) (line s) (insertSemi s) r (s_elements s) (s_tokens s) (diagnostics s) (limits s) (stopped s) (diagLimited s) (tokenLimit s) (headerOnly s) (headerState s) (headerDepth s).
Definition add_element (i : nat) (s : scanner) : scanner :=
  mkScanner (file s) (offset s) (line s) (insertSemi s) (records s) (s_elements s ++ [i]) (s_tokens s) (diagnostics s) (limits s) (stopped s) (diagLimited s) (tokenLimit s) (headerOnly s) (headerState s) (headerDepth s).
Definition add_token (i : nat) (s : scanner) : scanner :=
  mkScanner (file s) (offset s) (line s) (insertSemi s) (records s) (s_elements s) (s_tokens s ++ [i]) (diagnostics s) (limits s) (stopped s) (diagLimited s) (tokenLimit s) (headerOnly s) (headerState s) (headerDepth s).
Definition set_diagnostics (d : list Diagnostic) (limited : bool) (s : scanner) : scanner :=
  mkScanner (file s) (offset s) (line s) (insertSemi s) (records s) (s_elements s) (s_tokens s) d (limits s) (stopped s) limited (tokenLimit s) (headerOnly s) (headerState s) (headerDepth s).
Definition set_stopped (s : scanner) : scanner :=
  mkScanner (file s) (offset s) (line s) (insertSemi s) (records s) (s_elements s) (s_tokens s) (diagnostics s) (limits s) true (diagLimited s) (tokenLimit s) (headerOnly s) (headerState s) (headerDepth s).
Definition set_tokenLimit (s : scanner) : scanner :=
  mkScanner (file s) (offset s) (line s) (insertSemi s) (records s) (s_elements s) (s_tokens s) (diagnostics s) (limits s) (stopped s) (diagLimited s) true (headerOnly s) (headerState s) (headerDepth s).
Definition set_header (state depth : nat) (s : scanner) : scanner :=
  mkScanner (file s) (offset s) (line s) (insertSemi s) (records s) (s_elements s) (s_tokens s) (diagnostics s) (limits s) (stopped s) (diagLimited s) (tokenLimit s) (headerOnly s) state depth.

Definition text (s : scanner) : gostring := Text (file s).
Definition rest (s : scanner) : gostring := drop (offset s) (text s).
Definition slice (t : gostring) (start end_ : nat) : gostring := take (end_ - start) (drop start t).
Definition advance (n : nat) (s : scanner) : scanner := set_offset (offset s + n) s.
Definition at_end (s : scanner) : bool := length (text s) <=? offset s.

(** ** Emission *)

Definition addDiagnostic (code message : gostring) (start end_ : nat) (s : scanner) : scanner :=
  if (MaxDiagnostics (limits s) <=? Z.of_nat (length (diagnostics s)))%Z then
    if diagLimited s then s
    else set_diagnostics (diagnostics s ++ [scan_error DiagnosticTruncated (lit "diagnostic limit reached; additional diagnostics were omitted") no_span]) true s
  else
    let end_ := Nat.min (Nat.max start end_) (length (text s)) in
    let span := default no_span (file_Span (file s) (Z.of_nat start) (Z.of_nat end_)) in
    set_diagnostics (diagnostics s ++ [scan_error code message span]) (diagLimited s) s.

(** The line that holds [start], from [line] on. *)
Fixpoint advance_line (fuel : nat) (starts : list nat) (line start : nat) : nat :=
  match fuel with
  | O => line
  | S fuel => match starts !! (line + 1) with
              | Some next => if next <=? start then advance_line fuel starts (line + 1) start else line
              | None => line
              end
  end.

Definition move_line (start : nat) (s : scanner) : scanner :=
  set_line (advance_line (length (LineStarts (file s))) (LineStarts (file s)) (line s) start) s.

Definition emitElement (kind : ElementKind) (tokenKind : token.Kind) (start end_ : nat) (s : scanner) : scanner :=
  let s := move_line start s in
  let s := add_element (length (kinds (records s))) s in
  set_records (appendRecord tokenKind kind start end_ (line s) (records s)) s.

Definition emitTrivia (kind : ElementKind) (start end_ : nat) (s : scanner) : scanner := emitElement kind token.NoKind start end_ s.

Definition advanceHeader (kind : token.Kind) (s : scanner) : scanner :=
  if negb (headerOnly s) || bool_decide (kind = token.EOF) then s
  else match headerState s with
       | 0 => if bool_decide (kind = token.Package) then set_header 1 (headerDepth s) s else s
       | 1 => if bool_decide (kind = token.Ident) then set_header 2 (headerDepth s) s else s
       | 2 => if bool_decide (kind = token.Semicolon) then set_header 3 (headerDepth s) s else s
       | 3 => if bool_decide (kind = token.Semicolon) then s
              else if bool_decide (kind = token.Import) then set_header 4 (headerDepth s) s
              else set_stopped s
       | 4 => match kind with
              | token.Lparen => set_header 4 (headerDepth s + 1) s
              | token.Rparen => if 0 <? headerDepth s then set_header 4 (headerDepth s - 1) s else s
              | token.Semicolon => if headerDepth s =? 0 then set_header 3 (headerDepth s) s else s
              | _ => s
              end
       | _ => s
       end.

(** A token that has a record already ([Some index]), or a synthetic one ([None]). *)
Definition emitTokenIndex (kind : token.Kind) (start end_ : nat) (index : option nat) (s : scanner) : scanner :=
  if negb (bool_decide (kind = token.EOF)) && (MaxTokens (limits s) <=? Z.of_nat (length (s_tokens s)))%Z then
    let s := if tokenLimit s then s
             else addDiagnostic (lit "scanner.token.limit") (lit "source file exceeds scanner token limit") start end_ (set_tokenLimit s) in
    set_stopped s
  else
    let '(index, s) := match index with
                       | Some index => (index, s)
                       | None => let s := move_line start s in
                                 (length (kinds (records s)), set_records (appendRecord kind NoElement start end_ (line s) (records s)) s)
                       end in
    let s := add_token index s in
    let s := advanceHeader kind s in
    if negb (bool_decide (kind = token.Comment)) && negb (bool_decide (kind = token.EOF)) && negb (bool_decide (kind = token.Semicolon))
    then set_insertSemi (token.CanEndStatement kind) s
    else if bool_decide (kind = token.Semicolon) then set_insertSemi false s else s.

Definition emitToken (kind : token.Kind) (start end_ : nat) (s : scanner) : scanner :=
  let s := emitElement ElementToken kind start end_ s in
  emitTokenIndex kind start end_ (Some (length (kinds (records s)) - 1)) s.

Definition emitSynthetic (kind : token.Kind) (start end_ : nat) (s : scanner) : scanner := emitTokenIndex kind start end_ None s.

(** ** Looking ahead *)

Definition matchAt (prefix : gostring) (s : scanner) : bool := HasPrefix (rest s) prefix.

Definition peekByte (s : scanner) : Z := match rest s with [] => 0%Z | c :: _ => c end.

Definition peekRune (s : scanner) : Z * nat :=
  match rest s with
  | [] => (0%Z, 0)
  | c :: _ => if (c <? 128)%Z then (c, 1) else DecodeRuneInString (rest s)
  end.

Definition peekRuneValue (s : scanner) : Z := fst (peekRune s).

Definition hasDigitAfterDot (s : scanner) : bool :=
  match rest s with
  | 46%Z :: c :: _ => token.IsDecimalDigit c
  | _ => false
  end.

Definition byteOrderMark : Z := 65279.
Definition bom : gostring := [239; 187; 191]%Z.

(** ** The text as a whole *)

Fixpoint nul_loop (fuel start : nat) (s : scanner) : option scanner :=
  match fuel with
  | O => None
  | S fuel =>
      if start <? length (text s) then
        match IndexByte (drop start (text s)) 0 with
        | None => Some s
        | Some i => nul_loop fuel (i + start + 1) (addDiagnostic (lit "scanner.nul.invalid") (lit "NUL character is not allowed in source text") (i + start) (i + start + 1) s)
        end
      else Some s
  end.

Fixpoint bom_loop (fuel start : nat) (s : scanner) : option scanner :=
  match fuel with
  | O => None
  | S fuel =>
      if start <? length (text s) then
        match strings_Index (drop start (text s)) bom with
        | None => Some s
        | Some i => bom_loop fuel (i + start + length bom)
            (addDiagnostic (lit "scanner.bom.invalid") (lit "byte order mark is only allowed at the start of source text") (i + start) (i + start + length bom) s)
        end
      else Some s
  end.

Definition scanSourceTextDiagnostics (s : scanner) : scanner :=
  let s := default s (nul_loop (S (length (text s))) 0 s) in
  default s (bom_loop (S (length (text s))) 1 s).

(** ** White space and comments *)

Fixpoint blanks (s : gostring) : nat :=
  match s with
  | c :: s => if ((c =? 32) || (c =? 9) || (c =? 13))%Z then S (blanks s) else 0
  | [] => 0
  end.

(** One round of the loop: [Some b] when the method returns [b]. *)
Definition skip_step (s : scanner) : option bool * scanner :=
  match rest s with
  | [] => (Some false, s)
  | c :: _ =>
      if ((c =? 32) || (c =? 9) || (c =? 13))%Z then
        let s1 := advance (blanks (rest s)) s in (None, emitTrivia ElementWhitespace (offset s) (offset s1) s1)
      else if (c =? 10)%Z then
        let pos := offset s in
        let s1 := advance 1 s in
        let s1 := emitTrivia ElementNewline pos (offset s1) s1 in
        if insertSemi s1 then (Some true, set_insertSemi false (emitSynthetic token.Semicolon pos (pos + 1) s1)) else (None, s1)
      else if (c =? 47)%Z then
        if matchAt (lit "//") s then
          let start := offset s in
          let s1 := advance 2 s in
          let s1 := match IndexByte (rest s1) 10 with Some newline => advance newline s1 | None => set_offset (length (text s1)) s1 end in
          (None, emitTrivia ElementLineComment start (offset s1) s1)
        else if matchAt (lit "/*") s then
          let start := offset s in
          let semi := insertSemi s in
          let s1 := advance 2 s in
          let end_ := match strings_Index (rest s1) (lit "*/") with Some closing => offset s1 + closing | None => length (text s1) end in
          let newline := match IndexByte (slice (text s1) (offset s1) end_) 10 with Some first => Some (offset s1 + first) | None => None end in
          let s1 := set_offset end_ s1 in
          if at_end s1 then
            (Some false, addDiagnostic (lit "scanner.comment.unterminated") (lit "unterminated block comment") start (length (text s1)) (emitTrivia ElementBlockComment start (offset s1) s1))
          else
            let s1 := advance 2 s1 in
            let s1 := emitTrivia ElementBlockComment start (offset s1) s1 in
            match newline with
            | Some newline => if semi then (None, emitSynthetic token.Semicolon newline (newline + 1) s1) else (None, s1)
            | None => (None, s1)
            end
        else (Some false, s)
      else (Some false, s)
  end.

Fixpoint skipWhitespaceAndComments (fuel : nat) (s : scanner) : option (bool * scanner) :=
  match fuel with
  | O => None
  | S fuel => match skip_step s with (Some b, s) => Some (b, s) | (None, s) => skipWhitespaceAndComments fuel s end
  end.

Section scan.
Context (letterRanges digitRanges : list (Z * Z * Z)) (Quote : gostring -> gostring).

#[local] Abbreviation IsIdentifierStart := (token.IsIdentifierStart letterRanges).
#[local] Abbreviation IsIdentifierPart := (token.IsIdentifierPart letterRanges digitRanges).

(** ** Identifiers *)

Definition ascii_name (c : Z) : bool := ((c =? 95) || ((97 <=? c) && (c <=? 122)) || ((65 <=? c) && (c <=? 90)) || ((48 <=? c) && (c <=? 57)))%Z.

Fixpoint ascii_names (s : gostring) : nat :=
  match s with
  | c :: s => if ascii_name c then S (ascii_names s) else 0
  | [] => 0
  end.

Fixpoint ident_loop (fuel : nat) (s : scanner) : option scanner :=
  match fuel with
  | O => None
  | S fuel =>
      if at_end s then Some s
      else
        let s := advance (ascii_names (rest s)) s in
        match rest s with
        | [] => Some s
        | c :: _ =>
            if (c <? 128)%Z then Some s
            else
              let '(r, size) := peekRune s in
              if (r =? RuneError)%Z && (size =? 1) then Some s
              else if negb (IsIdentifierPart r) then Some s
              else ident_loop fuel (advance size s)
        end
  end.

Definition scanIdent (start : nat) (s : scanner) : scanner :=
  let s := default s (ident_loop (S (length (text s))) s) in
  emitToken (token.Lookup (slice (text s) start (offset s))) start (offset s) s.

(** ** Numbers *)

Definition digit_in (base : Z) (c : Z) : bool :=
  (((48 <=? c) && (c - 48 <? base) && (c <=? 57)) || ((base =? 16) && (((97 <=? c) && (c <=? 102)) || ((65 <=? c) && (c <=? 70)))))%Z.

(** The digits and underscores ahead, and whether there is a digit among them. *)
Fixpoint digits_ahead (base : Z) (s : gostring) : nat * bool :=
  match s with
  | c :: s =>
      if digit_in base c then (S (fst (digits_ahead base s)), true)
      else if (c =? 95)%Z then (S (fst (digits_ahead base s)), snd (digits_ahead base s))
      else (0, false)
  | [] => (0, false)
  end.

Definition scanDigits (base : Z) (s : scanner) : bool * scanner :=
  let '(n, seen) := digits_ahead base (rest s) in (seen, advance n s).

Definition scanSign (s : scanner) : scanner := if ((peekByte s =? 43) || (peekByte s =? 45))%Z then advance 1 s else s.

Definition no_digits (s : scanner) : scanner := addDiagnostic (lit "scanner.number.digits") (lit "numeric literal has no digits") (offset s) (offset s) s.

Definition digits_or_diagnostic (base : Z) (s : scanner) : scanner := let '(seen, s) := scanDigits base s in if seen then s else no_digits s.

(** A hexadecimal literal after its prefix: is it a float, has it a point, has it an exponent. *)
Definition scan_hexadecimal (s : scanner) : bool * bool * bool * scanner :=
  let '(seen, s) := scanDigits 16 s in
  let '(point, seen, s) := if (peekByte s =? 46)%Z then let '(more, s) := scanDigits 16 (advance 1 s) in (true, more || seen, s) else (false, seen, s) in
  let s := if seen then s else no_digits s in
  if ((peekByte s =? 112) || (peekByte s =? 80))%Z then
    (true, point, true, digits_or_diagnostic 10 (scanSign (advance 1 s)))
  else (point, point, false, s).

Definition scan_decimal (s : scanner) : bool * scanner :=
  let '(float, s) :=
    if (peekByte s =? 46)%Z then (true, digits_or_diagnostic 10 (advance 1 s))
    else let s := snd (scanDigits 10 s) in
         if (peekByte s =? 46)%Z then (true, snd (scanDigits 10 (advance 1 s))) else (false, s) in
  if ((peekByte s =? 101) || (peekByte s =? 69))%Z then (true, digits_or_diagnostic 10 (scanSign (advance 1 s))) else (float, s).

Definition isBasePrefixByte (ch : Z) : bool := existsb (Z.eqb ch) [98; 66; 111; 79; 120; 88]%Z.

Definition isNumberDigitAt (text : gostring) (index : nat) : bool :=
  match text !! index with
  | None => false
  | Some ch =>
      if ((48 <=? ch) && (ch <=? 57))%Z then true
      else if negb (HasPrefix text (lit "0x")) && negb (HasPrefix text (lit "0X")) then false
      else if existsb (fun c => (c =? 112) || (c =? 80))%Z (slice text 2 index) then false
      else (((97 <=? ch) && (ch <=? 102)) || ((65 <=? ch) && (ch <=? 70)))%Z
  end.

Fixpoint underscore_loop (start : nat) (text : gostring) (i : nat) (todo : gostring) (s : scanner) : scanner :=
  match todo with
  | [] => s
  | c :: todo =>
      if negb (c =? 95)%Z then underscore_loop start text (S i) todo s
      else if (i =? 2) && (2 <=? length text) && bool_decide (text !! 0 = Some 48%Z) && isBasePrefixByte (default 0%Z (text !! 1)) then underscore_loop start text (S i) todo s
      else if (i =? 0) || (length text <=? i + 1) || negb (isNumberDigitAt text (i - 1)) || negb (isNumberDigitAt text (i + 1))
      then addDiagnostic (lit "scanner.number.underscore") (lit "underscore in numeric literal must separate successive digits") (start + i) (start + i + 1) s
      else underscore_loop start text (S i) todo s
  end.

Definition trim_i (t : gostring) : gostring := if HasSuffix t (lit "i") then take (length t - 1) t else t.

Definition validateNumberUnderscores (start end_ : nat) (s : scanner) : scanner :=
  let t := trim_i (slice (text s) start end_) in underscore_loop start t 0 t s.

Definition octal_text (t : gostring) : bool :=
  (1 <? length t) && bool_decide (t !! 0 = Some 48%Z) && negb (existsb (Z.eqb (default 0%Z (t !! 1))) [98; 66; 111; 79]%Z) &&
  existsb (fun c => negb (c =? 95) && ((c <? 48) || (55 <? c)))%Z (drop 1 t).

Definition scanNumber (start : nat) (s : scanner) : scanner :=
  let '(hexadecimal, point, exponent, floating, s) :=
    if matchAt (lit "0x") s || matchAt (lit "0X") s then
      let '(float, point, exponent, s) := scan_hexadecimal (advance 2 s) in (true, point, exponent, float, s)
    else if matchAt (lit "0b") s || matchAt (lit "0B") s then (false, false, false, false, digits_or_diagnostic 2 (advance 2 s))
    else if matchAt (lit "0o") s || matchAt (lit "0O") s then (false, false, false, false, digits_or_diagnostic 8 (advance 2 s))
    else let '(float, s) := scan_decimal s in (false, false, false, float, s) in
  let '(kind, s) := if (peekByte s =? 105)%Z then (token.Imag, advance 1 s) else (if floating then token.Float else token.Int, s) in
  let s := if hexadecimal && point && negb exponent
           then addDiagnostic (lit "scanner.number.hex_exponent") (lit "hexadecimal floating-point literal requires a binary exponent") start (offset s) s else s in
  let textEnd := if bool_decide (kind = token.Imag) then offset s - 1 else offset s in
  let s := if negb hexadecimal && negb floating && octal_text (slice (text s) start textEnd)
           then addDiagnostic (lit "scanner.number.octal_digit") (lit "leading-zero octal literal contains a non-octal digit") start textEnd s else s in
  let s := if IsIdentifierStart (peekRuneValue s) then addDiagnostic (lit "scanner.number.suffix") (lit "invalid numeric literal suffix") start (offset s) s else s in
  let s := validateNumberUnderscores start (offset s) s in
  emitToken kind start (offset s) s.

(** ** Escapes, strings and runes *)

Definition isOctalDigit (r : Z) : bool := ((48 <=? r) && (r <=? 55))%Z.

Definition hexDigitValue (r : Z) : Z :=
  (if (48 <=? r) && (r <=? 57) then r - 48 else if (97 <=? r) && (r <=? 102) then r - 97 + 10 else if (65 <=? r) && (r <=? 70) then r - 65 + 10 else 0)%Z.

Fixpoint scanFixedHexEscapeValue (start digits : nat) (value : Z) (s : scanner) : option Z * scanner :=
  match digits with
  | O => (Some value, s)
  | S digits =>
      if at_end s then (None, addDiagnostic (lit "scanner.escape.short") (lit "short hexadecimal escape sequence") start (offset s) s)
      else
        let '(r, size) := peekRune s in
        if negb (token.IsHexDigit r) then
          (None, advance size (addDiagnostic (lit "scanner.escape.hex") (lit "invalid hexadecimal escape sequence") start (offset s + size) s))
        else scanFixedHexEscapeValue start digits (value * 16 + hexDigitValue r) (advance size s)
  end.

Definition scanFixedHexEscape (start digits : nat) (s : scanner) : bool * scanner :=
  let '(value, s) := scanFixedHexEscapeValue start digits 0 s in (bool_decide (is_Some value), s).

Fixpoint octal_loop (start digits : nat) (value : Z) (s : scanner) : option Z * scanner :=
  match digits with
  | O => (Some value, s)
  | S digits =>
      if at_end s then (None, addDiagnostic (lit "scanner.escape.octal") (lit "octal escape sequence requires three octal digits") start (offset s) s)
      else
        let '(r, size) := peekRune s in
        if negb (isOctalDigit r) then
          (None, advance size (addDiagnostic (lit "scanner.escape.octal") (lit "octal escape sequence requires three octal digits") start (offset s + size) s))
        else octal_loop start digits (value * 8 + (r - 48)) (advance size s)
  end.

Definition scanOctalEscape (start : nat) (s : scanner) : bool * scanner :=
  let '(value, s) := octal_loop start 3 0 s in
  match value with
  | None => (false, s)
  | Some value => if (255 <? value)%Z then (false, addDiagnostic (lit "scanner.escape.octal_range") (lit "octal escape value must not exceed 255") start (offset s) s) else (true, s)
  end.

Definition MaxRune : Z := 1114111.

Definition scanUnicodeEscape (start digits : nat) (s : scanner) : bool * scanner :=
  let '(value, s) := scanFixedHexEscapeValue start digits 0 s in
  match value with
  | None => (false, s)
  | Some value =>
      if ((MaxRune <? value) || ((55296 <=? value) && (value <=? 57343)))%Z
      then (false, addDiagnostic (lit "scanner.escape.unicode_range") (lit "escape is not a valid Unicode code point") start (offset s) s)
      else (true, s)
  end.

Definition simple_escape (r : Z) : bool := existsb (Z.eqb r) [97; 98; 102; 110; 114; 116; 118; 92; 39; 34]%Z.

Definition scanEscape (literalStart : nat) (s : scanner) : bool * scanner :=
  let start := offset s in
  let s := advance 1 s in
  if at_end s then (false, addDiagnostic (lit "scanner.escape.unterminated") (lit "unterminated escape sequence") literalStart (offset s) s)
  else
    let '(r, size) := peekRune s in
    if simple_escape r then (true, advance size s)
    else if (r =? 120)%Z then scanFixedHexEscape start 2 (advance size s)
    else if (r =? 117)%Z then scanUnicodeEscape start 4 (advance size s)
    else if (r =? 85)%Z then scanUnicodeEscape start 8 (advance size s)
    else if isOctalDigit r then scanOctalEscape start s
    else let s := advance size s in (false, addDiagnostic (lit "scanner.escape.invalid") (lit "invalid escape sequence") start (offset s) s).

Fixpoint string_loop (fuel start : nat) (valid : bool) (s : scanner) : option scanner :=
  let finish valid s :=
    let s := if valid : bool then addDiagnostic (lit "scanner.string.unterminated") (lit "unterminated string literal") start (offset s) s else s in
    Some (emitToken token.String start (offset s) s) in
  match fuel with
  | O => None
  | S fuel =>
      if at_end s then finish valid s
      else
        let '(r, size) := peekRune s in
        if (r =? 10)%Z then finish false (addDiagnostic (lit "scanner.string.newline") (lit "newline in string literal") start (offset s) s)
        else if (r =? 34)%Z then let s := advance size s in Some (emitToken token.String start (offset s) s)
        else if (r =? 92)%Z then let '(ok, s) := scanEscape start s in string_loop fuel start (valid && ok) s
        else string_loop fuel start valid (advance size s)
  end.

Definition scanInterpretedString (start : nat) (s : scanner) : scanner :=
  let s := advance 1 s in default s (string_loop (S (length (text s))) start true s).

Fixpoint raw_loop (fuel start : nat) (s : scanner) : option scanner :=
  let finish s := Some (emitToken token.String start (offset s) (addDiagnostic (lit "scanner.raw_string.unterminated") (lit "unterminated raw string literal") start (offset s) s)) in
  match fuel with
  | O => None
  | S fuel =>
      if at_end s then finish s
      else
        let '(r, size) := peekRune s in
        let s := advance size s in
        if (r =? 96)%Z then Some (emitToken token.String start (offset s) s) else raw_loop fuel start s
  end.

Definition scanRawString (start : nat) (s : scanner) : scanner :=
  let s := advance 1 s in default s (raw_loop (S (length (text s))) start s).

Fixpoint rune_loop (fuel start count : nat) (valid : bool) (s : scanner) : option scanner :=
  let finish valid s :=
    let s := if valid : bool then addDiagnostic (lit "scanner.rune.unterminated") (lit "unterminated rune literal") start (offset s) s else s in
    Some (emitToken token.Char start (offset s) s) in
  match fuel with
  | O => None
  | S fuel =>
      if at_end s then finish valid s
      else
        let '(r, size) := peekRune s in
        if (r =? 10)%Z then finish false (addDiagnostic (lit "scanner.rune.newline") (lit "newline in rune literal") start (offset s) s)
        else if (r =? 39)%Z then
          let s := advance size s in
          let s := if count =? 1 then s else addDiagnostic (lit "scanner.rune.count") (lit "rune literal must contain exactly one character") start (offset s) s in
          Some (emitToken token.Char start (offset s) s)
        else if (r =? 92)%Z then let '(ok, s) := scanEscape start s in rune_loop fuel start (S count) (valid && ok) s
        else rune_loop fuel start (S count) valid (advance size s)
  end.

Definition scanRune (start : nat) (s : scanner) : scanner :=
  let s := advance 1 s in default s (rune_loop (S (length (text s))) start 0 true s).

(** ** Operators and delimiters *)

Definition compoundTokens : list (gostring * token.Kind) :=
  [(lit "&^=", token.AndNotAssign); (lit "<<=", token.ShlAssign); (lit ">>=", token.ShrAssign); (lit "...", token.Ellipsis);
   (lit ":=", token.Define); (lit "<-", token.Arrow); (lit "++", token.Inc); (lit "--", token.Dec);
   (lit "&&", token.Land); (lit "||", token.Lor); (lit "==", token.Eq); (lit "!=", token.Ne);
   (lit "<=", token.Le); (lit ">=", token.Ge); (lit "<<", token.Shl); (lit ">>", token.Shr);
   (lit "+=", token.AddAssign); (lit "-=", token.SubAssign); (lit "*=", token.MulAssign); (lit "/=", token.QuoAssign);
   (lit "%=", token.RemAssign); (lit "&=", token.AndAssign); (lit "|=", token.OrAssign); (lit "^=", token.XorAssign);
   (lit "&^", token.AndNot)].

Definition singleCharTokens : list (gostring * token.Kind) :=
  [(lit "+", token.Add); (lit "-", token.Sub); (lit "*", token.Mul); (lit "/", token.Quo); (lit "%", token.Rem); (lit "&", token.And); (lit "|", token.Or);
   (lit "^", token.Xor); (lit "~", token.Tilde); (lit "<", token.Lt); (lit ">", token.Gt); (lit "=", token.Assign); (lit "!", token.Not);
   (lit "(", token.Lparen); (lit "[", token.Lbrack); (lit "{", token.Lbrace); (lit ",", token.Comma); (lit ".", token.Period); (lit ";", token.Semicolon);
   (lit ":", token.Colon); (lit ")", token.Rparen); (lit "]", token.Rbrack); (lit "}", token.Rbrace)].

Definition singleCharToken (ch : Z) : option token.Kind := token.find_kind singleCharTokens [ch].

(** The operator of [width] bytes ahead. *)
Definition compound_at (width : nat) (start : nat) (s : scanner) : option token.Kind :=
  if length (text s) <? start + width then None else token.find_kind compoundTokens (slice (text s) start (start + width)).

Definition scanOperatorOrDelimiter (start : nat) (s : scanner) : scanner :=
  match compound_at 3 start s with
  | Some kind => let s := advance 3 s in emitToken kind start (offset s) s
  | None =>
      match compound_at 2 start s with
      | Some kind => let s := advance 2 s in emitToken kind start (offset s) s
      | None =>
          match singleCharToken (default 0%Z (text s !! start)) with
          | Some kind => let s := advance 1 s in emitToken kind start (offset s) s
          | None =>
              let s := advance (snd (peekRune s)) s in
              let s := addDiagnostic (lit "scanner.token.illegal") (lit "illegal character " ++ Quote (slice (text s) start (offset s))) start (offset s) s in
              emitToken token.Illegal start (offset s) s
          end
      end
  end.

(** ** The scan *)

(** One token. *)
Definition scan_token (s : scanner) : scanner :=
  let start := offset s in
  let '(r, size) := peekRune s in
  if (r =? RuneError)%Z && (size =? 1) then
    let s := advance 1 s in
    emitToken token.Illegal start (offset s) (addDiagnostic (lit "scanner.utf8.invalid") (lit "invalid UTF-8 encoding") start (offset s) s)
  else if ((r =? 0) || (r =? byteOrderMark))%Z then
    let s := advance size s in emitToken token.Illegal start (offset s) s
  else if IsIdentifierStart r then scanIdent start s
  else if token.IsDecimalDigit r || ((r =? 46)%Z && hasDigitAfterDot s) then scanNumber start s
  else if (r =? 34)%Z then scanInterpretedString start s
  else if (r =? 96)%Z then scanRawString start s
  else if (r =? 39)%Z then scanRune start s
  else scanOperatorOrDelimiter start s.

Fixpoint scan_loop (fuel : nat) (s : scanner) : option scanner :=
  match fuel with
  | O => None
  | S fuel =>
      if stopped s then Some s
      else if at_end s then Some s
      else
        match skipWhitespaceAndComments (S (length (text s))) s with
        | None => None
        | Some (again, s) =>
            if again then scan_loop fuel s
            else if at_end s then Some s
            else scan_loop fuel (scan_token s)
        end
  end.

Definition scan (s : scanner) : scanner :=
  let s := scanSourceTextDiagnostics s in
  let s := if HasPrefix (text s) bom then set_offset (length bom) (emitTrivia ElementBOM 0 (length bom) s) else s in
  let s := default s (scan_loop (S (length (text s))) s) in
  let s := if insertSemi s && negb (stopped s) then set_insertSemi false (emitSynthetic token.Semicolon (offset s) (offset s) s) else s in
  emitSynthetic token.EOF (offset s) (offset s) s.

(** ** Documents *)

(** A spelling supplied from outside: lexeme and literal. *)
Record lexicalText : Type := mkText { tx_lexeme : gostring; tx_literal : gostring }.

Record Document : Type := mkDocument { d_file : File; d_records : lexicalTape; d_tokens : list nat; d_elements : list nat; d_text : gmap nat lexicalText; d_diagnostics : list Diagnostic }.

Definition new_scanner (file : File) (limits : Limits) (headerOnly : bool) : scanner :=
  mkScanner file 0 0 false (mkTape [] [] []) [] [] [] limits false false false headerOnly 0 0.

Definition scanDocument (HashText : gostring -> gostring) (file : File) (limits : Limits) (headerOnly : bool) : Document :=
  let limits := normalizeLimits limits in
  let file := InitializeFile HashText file in
  if (MaxSourceBytes limits <? Z.of_nat (length (Text file)))%Z then
    mkDocument file (mkTape [] [] []) [] [] ∅
      [scan_error (lit "scanner.source.limit") (lit "source file exceeds scanner byte limit") (default no_span (file_Span file 0 (Z.of_nat (length (Text file)))))]
  else
    let s := scan (new_scanner file limits headerOnly) in
    mkDocument file (records s) (s_tokens s) (s_elements s) ∅ (diagnostics s).
End scan.

Record Token : Type := mkToken { T_Kind : token.Kind; T_Lexeme : gostring; T_Literal : gostring; T_Span : Span }.
Record Element : Type := mkElement { E_Kind : ElementKind; E_Token : token.Kind; E_Lexeme : gostring; E_Span : Span }.
Record Result : Type := mkResult { R_File : File; R_Elements : list Element; R_Tokens : list Token; R_Diagnostics : list Diagnostic }.

(** The fields of record [index]: kind, element, start, end, line; [None] is an index out of range. *)
Definition record_at (tape : lexicalTape) (index : nat) : option (token.Kind * ElementKind * nat * nat * nat) :=
  match kinds tape !! index, elements tape !! index, positions tape !! (index * 3), positions tape !! (index * 3 + 1), positions tape !! (index * 3 + 2) with
  | Some kind, Some element, Some start, Some end_, Some line => Some (kind, element, start, end_, line)
  | _, _, _, _, _ => None
  end.

(** The text of a record without a spelling of its own. *)
Definition own_lexeme (file : File) (kind : token.Kind) (element : ElementKind) (start end_ : nat) : gostring :=
  if bool_decide (element = NoElement) && bool_decide (kind = token.Semicolon) then [10%Z]
  else if (end_ <? start) || (length (Text file) <? end_) then []
  else slice (Text file) start end_.

Definition lexeme (d : Document) (index : nat) (kind : token.Kind) (element : ElementKind) (start end_ : nat) : gostring :=
  match d_text d !! index with Some text => tx_lexeme text | None => own_lexeme (d_file d) kind element start end_ end.

Definition literal (d : Document) (index : nat) : gostring := match d_text d !! index with Some text => tx_literal text | None => [] end.

Definition document_span (file : File) (start end_ line : nat) : Span :=
  match LineStarts file !! line with
  | None => no_span
  | Some line_start =>
      if (end_ <? start) || (length (Text file) <? end_) || bool_decide (Path file = []) then no_span
      else
        let first := mkPosition (filename file) (Z.of_nat start) (Z.of_nat line + 1) (Z.of_nat start - Z.of_nat line_start) in
        let last := mkPosition (filename file) (Z.of_nat end_) (Z.of_nat line + 1) (Z.of_nat end_ - Z.of_nat line_start) in
        match LineStarts file !! (line + 1) with
        | Some next => if next <=? end_ then mkSpan first (default no_position (file_Position file (Z.of_nat end_))) else mkSpan first last
        | None => mkSpan first last
        end
  end.

(** [Token] and [Element], of the record at [i]. *)
Definition document_token (d : Document) (i : nat) : option Token :=
  match record_at (d_records d) i with
  | Some (kind, element, start, end_, line) => Some (mkToken kind (lexeme d i kind element start end_) (literal d i) (document_span (d_file d) start end_ line))
  | None => None
  end.

Definition document_element (d : Document) (i : nat) : option Element :=
  match record_at (d_records d) i with
  | Some (kind, element, start, end_, line) => Some (mkElement element kind (lexeme d i kind element start end_) (document_span (d_file d) start end_ line))
  | None => None
  end.

(** [Syntax]: the expanded views; [None] would be an index out of range. *)
Definition Syntax (d : Document) : option Result :=
  match mapM (document_token d) (d_tokens d), mapM (document_element d) (d_elements d) with
  | Some tokens, Some elements => Some (mkResult (d_file d) elements tokens (d_diagnostics d))
  | _, _ => None
  end.

Section entry_points.
Context (letterRanges digitRanges : list (Z * Z * Z)) (Quote HashText : gostring -> gostring).

Definition ScanDocument (file : File) (limits : Limits) : Document := scanDocument letterRanges digitRanges Quote HashText file limits false.
Definition ScanFileWithLimits (file : File) (limits : Limits) : option Result := Syntax (scanDocument letterRanges digitRanges Quote HashText file limits false).
Definition ScanHeaderFileWithLimits (file : File) (limits : Limits) : option Result := Syntax (scanDocument letterRanges digitRanges Quote HashText file limits true).
Definition ScanFile (file : File) : option Result := ScanFileWithLimits file (mkLimits 0 0 0).
Definition Scan (path text : gostring) : option Result := ScanFile (NewFile HashText (lit "file.0") path text).
End entry_points.

(** [None] is an index out of range. *)
Definition TokenKind (d : Document) (index : nat) : option token.Kind := match d_tokens d !! index with Some i => kinds (d_records d) !! i | None => None end.
Definition ElementKind_at (d : Document) (index : nat) : option ElementKind := match d_elements d !! index with Some i => elements (d_records d) !! i | None => None end.

Definition strings_Contains (s p : gostring) : bool := bool_decide (is_Some (strings_Index s p)).

Definition MayContainLexeme (fragment : gostring) (d : Document) : bool :=
  strings_Contains (Text (d_file d)) fragment || existsb (fun e => strings_Contains (tx_lexeme (snd e)) fragment) (map_to_list (d_text d)).

(** ** Documents from views *)

Definition spell (index : nat) (lexeme literal : gostring) (d : Document) : Document :=
  mkDocument (d_file d) (d_records d) (d_tokens d) (d_elements d) (<[index := mkText lexeme literal]> (d_text d)) (d_diagnostics d).

(** The offsets and the line of a span; [None] is a span outside the file, which is not modelled. *)
Definition span_record (file : File) (span : Span) : option (nat * nat * nat) :=
  let start := Offset (Start span) in
  let end_ := Offset (End span) in
  if ((start <? 0) || (end_ <? 0))%Z then None
  else match file_Position file start with
       | None => None
       | Some position => Some (Z.to_nat start, Z.to_nat end_, Z.to_nat (Line position - 1))
       end.

(** The map from kinds and offsets to records, as the list of its entries, the last one first. *)
Definition sharing : Type := list (token.Kind * nat * nat * nat).

Definition shared_at (shared : sharing) (kind : token.Kind) (start end_ : nat) : option nat :=
  snd <$> find (fun e => bool_decide (fst e = (kind, start, end_))) shared.

Definition from_element (st : Document * sharing) (item : Element) : option (Document * sharing) :=
  let '(d, shared) := st in
  match span_record (d_file d) (E_Span item) with
  | None => None
  | Some (start, end_, line) =>
      let index := length (kinds (d_records d)) in
      let d := mkDocument (d_file d) (appendRecord (E_Token item) (E_Kind item) start end_ line (d_records d)) (d_tokens d) (d_elements d ++ [index]) (d_text d) (d_diagnostics d) in
      let d := if bool_decide (lexeme d index (E_Token item) (E_Kind item) start end_ = E_Lexeme item) then d else spell index (E_Lexeme item) [] d in
      Some (d, if bool_decide (E_Kind item = ElementToken) then (E_Token item, start, end_, index) :: shared else shared)
  end.

(** The lexeme of record [index]. *)
Definition lexeme_at (d : Document) (index : nat) : gostring :=
  match record_at (d_records d) index with Some (kind, element, start, end_, _) => lexeme d index kind element start end_ | None => [] end.

Definition from_token (shared : sharing) (d : Document) (item : Token) : option Document :=
  match span_record (d_file d) (T_Span item) with
  | None => None
  | Some (start, end_, line) =>
      let usable index := bool_decide (lexeme_at d index = T_Lexeme item) && bool_decide (literal d index = T_Literal item) in
      let '(index, d) :=
        match shared_at shared (T_Kind item) start end_ with
        | Some index => if usable index then (index, d)
                        else (length (kinds (d_records d)), mkDocument (d_file d) (appendRecord (T_Kind item) NoElement start end_ line (d_records d)) (d_tokens d) (d_elements d) (d_text d) (d_diagnostics d))
        | None => (length (kinds (d_records d)), mkDocument (d_file d) (appendRecord (T_Kind item) NoElement start end_ line (d_records d)) (d_tokens d) (d_elements d) (d_text d) (d_diagnostics d))
        end in
      let d := mkDocument (d_file d) (d_records d) (d_tokens d ++ [index]) (d_elements d) (d_text d) (d_diagnostics d) in
      Some (if bool_decide (lexeme_at d index = T_Lexeme item) && bool_decide (T_Literal item = []) then d else spell index (T_Lexeme item) (T_Literal item) d)
  end.

Fixpoint from_elements (st : Document * sharing) (items : list Element) : option (Document * sharing) :=
  match items with
  | [] => Some st
  | item :: items => match from_element st item with None => None | Some st => from_elements st items end
  end.

Fixpoint from_tokens (shared : sharing) (d : Document) (items : list Token) : option Document :=
  match items with
  | [] => Some d
  | item :: items => match from_token shared d item with None => None | Some d => from_tokens shared d items end
  end.

Definition DocumentFromResult (HashText : gostring -> gostring) (result : Result) : option Document :=
  let file := InitializeFile HashText (R_File result) in
  let start := mkDocument file (mkTape [] [] []) [] [] ∅ (R_Diagnostics result) in
  match from_elements (start, []) (R_Elements result) with
  | None => None
  | Some (d, shared) => from_tokens shared d (R_Tokens result)
  end.
