(* ===== verification/ScannerSafe.v ===== *)
(** * Positions, emissions and steps of the scanner (src/compiler/source/input.go, src/compiler/scanner)

    The starts of lines and the two searches for the line of an offset, what an emission does to the
    sequences of elements and tokens, and every scan as a sequence of steps. *)

From S2P Require Import Prelude GoStd GoBytes TypeRelations Constraint Source Scanner.

#[local] Open Scope nat_scope.

(** ** Lines *)

(** Line [i], counted from 0, is the one that holds [offset]. *)
Definition line_at (starts : list nat) (offset i : nat) : Prop :=
  exists st, starts !! i = Some st /\ st <= offset /\ forall next, starts !! (i + 1) = Some next -> offset < next.

Definition ascending_starts (starts : list nat) : Prop :=
  starts !! 0 = Some 0 /\ forall i j a b, i < j -> starts !! i = Some a -> starts !! j = Some b -> a < b.

Lemma line_at_unique starts offset i j : ascending_starts starts -> line_at starts offset i -> line_at starts offset j -> i = j.
Proof.
  intros [_ Hs]. assert (forall i j, line_at starts offset i -> line_at starts offset j -> ~ i < j) as H.
  { intros i' j' (a & Ha & Hle & Hn) (b & Hb & Hle2 & _) Hlt. destruct (lookup_lt_is_Some_2 starts (i' + 1)) as [c Hc]; [apply lookup_lt_Some in Hb; lia|]. specialize (Hn c Hc).
    destruct (decide (i' + 1 = j')) as [<-|Hne]; [assert (c = b) by congruence; lia|]. pose proof (Hs (i' + 1) j' c b ltac:(lia) Hc Hb). lia. }
  intros Hi Hj. destruct (Nat.lt_trichotomy i j) as [Hlt|[He|Hlt]]; [by destruct (H i j)|done|by destruct (H j i)].
Qed.

Lemma index_byte_spec s c : match IndexByte s c with Some k => s !! k = Some c /\ (forall i, i < k -> s !! i <> Some c) | None => forall i, s !! i <> Some c end.
Proof.
  induction s as [|x s IH]; [done|]. cbn [IndexByte]. destruct (Z.eqb_spec x c) as [->|Hne]; [split; [done|lia]|]. destruct (IndexByte s c) as [k|]; cbn [option_map].
  - destruct IH as [H1 H2]. split; [done|]. intros [|i] Hi; [cbn; congruence|]. apply H2. lia.
  - intros [|i]; [cbn; congruence|]. apply IH.
Qed.

Lemma line_starts_loop_spec fuel txt start : length txt - start <= fuel ->
  (forall x, x ∈ line_starts_loop fuel txt start -> start < x <= length txt /\ txt !! (x - 1) = Some 10%Z) /\
  (forall i, start <= i -> txt !! i = Some 10%Z -> S i ∈ line_starts_loop fuel txt start) /\
  (forall i j a b, i < j -> line_starts_loop fuel txt start !! i = Some a -> line_starts_loop fuel txt start !! j = Some b -> a < b).
Proof.
  revert start. induction fuel as [|fuel IH]; intros start Hf; cbn [line_starts_loop].
  - split; [intros x Hx; by apply not_elem_of_nil in Hx|]. split; [|done]. intros i Hi Hl. apply lookup_lt_Some in Hl. lia.
  - destruct (Nat.ltb_spec start (length txt)) as [Hlt|Hge].
    2: { split; [intros x Hx; by apply not_elem_of_nil in Hx|]. split; [|done]. intros i Hi Hl. apply lookup_lt_Some in Hl. lia. }
    destruct (IndexByte (drop start txt) 10) as [k|] eqn:Ek.
    + assert (txt !! (start + k) = Some 10%Z /\ forall i, i < k -> txt !! (start + i) <> Some 10%Z) as [Hk Hfirst].
      { pose proof (index_byte_spec (drop start txt) 10) as Hs. rewrite Ek in Hs. destruct Hs as [H1 H2]. rewrite lookup_drop in H1. split; [done|]. intros i Hi. rewrite <- lookup_drop. by apply H2. }
      pose proof (lookup_lt_Some _ _ _ Hk) as Hkl. destruct (IH (start + (k + 1)) ltac:(lia)) as (I1 & I2 & I3). split; [|split].
      * intros x [->|Hx]%elem_of_cons; [split; [lia|]; by replace (start + (k + 1) - 1) with (start + k) by lia|]. destruct (I1 x Hx). split; [lia|done].
      * intros i Hi Hl. destruct (decide (i = start + k)) as [->|Hne]; [apply elem_of_cons; left; lia|]. apply elem_of_cons. right. apply I2; [|done].
        assert (~ i < start + k); [|lia]. intros Hik. apply (Hfirst (i - start)); [lia|]. by replace (start + (i - start)) with i by lia.
      * intros [|i] [|j] a b Hij Ha Hb; cbn in *; try lia; [|by eapply (I3 i j); [lia| |]]. injection Ha as <-. apply list_elem_of_lookup_2 in Hb. destruct (I1 b Hb). lia.
    + split; [intros x Hx; by apply not_elem_of_nil in Hx|]. split; [|done]. intros i Hi Hl. exfalso.
      pose proof (index_byte_spec (drop start txt) 10) as Hs. rewrite Ek in Hs. apply (Hs (i - start)). rewrite lookup_drop. by replace (start + (i - start)) with i by lia.
Qed.

Lemma lineStarts_ascending txt : ascending_starts (lineStarts txt).
Proof.
  destruct (line_starts_loop_spec (length txt) txt 0 ltac:(lia)) as (H1 & _ & H3). split; [done|]. unfold lineStarts. intros [|i] [|j] a b Hij Ha Hb; cbn in *; try lia.
  - injection Ha as <-. apply list_elem_of_lookup_2 in Hb. destruct (H1 b Hb). lia.
  - by eapply (H3 i j); [lia| |].
Qed.

Lemma position_search_spec starts offset : ascending_starts starts -> forall fuel low high,
  1 <= low -> low <= high -> high <= length starts -> high - low < fuel ->
  (forall st, starts !! (low - 1) = Some st -> (Z.of_nat st <= offset)%Z) -> (forall st, starts !! high = Some st -> (offset < Z.of_nat st)%Z) ->
  let i := position_search fuel starts offset low high in
  1 <= i <= length starts /\ (forall st, starts !! (i - 1) = Some st -> (Z.of_nat st <= offset)%Z) /\ (forall st, starts !! i = Some st -> (offset < Z.of_nat st)%Z).
Proof.
  intros [_ Hs]. induction fuel as [|fuel IH]; intros low high Hl Hlh Hh Hf Hlow Hhigh; [lia|]. cbn [position_search]. destruct (Nat.ltb_spec low high) as [Hlt|Hge].
  - assert (low <= low + (high - low) / 2 < high) as Hm by (pose proof (Nat.div_lt (high - low) 2 ltac:(lia) ltac:(lia)); lia). set (middle := low + (high - low) / 2) in *.
    destruct (lookup_lt_is_Some_2 starts middle ltac:(lia)) as [m Hmid]. rewrite Hmid. destruct (Z.leb_spec (Z.of_nat m) offset) as [Hle|Hgt].
    + apply IH; [lia|lia|lia|lia| |done]. replace (middle + 1 - 1) with middle by lia. intros st Hst. by assert (st = m) as -> by congruence.
    + apply IH; [lia|lia|lia|lia|done|]. intros st Hst. by assert (st = m) as -> by congruence.
  - assert (high = low) as -> by lia. done.
Qed.

(** A file whose line starts are those of its text, or not computed yet. *)
Definition file_ok (f : File) : Prop := LineStarts f = [] \/ LineStarts f = lineStarts (Text f).

Lemma file_Position_spec f offset i : file_ok f -> Path f <> [] -> offset <= length (Text f) -> line_at (lineStarts (Text f)) offset i ->
  file_Position f (Z.of_nat offset) = Some (mkPosition (filename f) (Z.of_nat offset) (Z.of_nat i + 1) (Z.of_nat offset - Z.of_nat (default 0 (lineStarts (Text f) !! i)))).
Proof.
  intros Hf Hp Ho Hi. pose proof (lineStarts_ascending (Text f)) as Ha. unfold file_Position.
  assert (((Z.of_nat offset <? 0) || (Z.of_nat (length (Text f)) <? Z.of_nat offset) || bool_decide (Path f = []))%Z = false) as ->.
  { rewrite bool_decide_false by done. rewrite !(proj2 (Z.ltb_ge _ _)) by lia. done. }
  assert ((if bool_decide (LineStarts f = []) then lineStarts (Text f) else LineStarts f) = lineStarts (Text f)) as -> by (destruct Hf as [->| ->]; [done|by case_bool_decide]).
  set (starts := lineStarts (Text f)) in *. assert (0 < length starts) as Hlen by (unfold starts, lineStarts; cbn; lia).
  destruct (position_search_spec starts (Z.of_nat offset) Ha (length starts) 1 (length starts)) as (H1 & H2 & H3); [lia|lia|lia|lia| | |].
  { intros st Hst. destruct Ha as [H0 _]. cbn in Hst. assert (st = 0) as -> by congruence. lia. }
  { intros st Hst. apply lookup_lt_Some in Hst. lia. }
  set (j := position_search (length starts) starts (Z.of_nat offset) 1 (length starts)) in *.
  assert (pred j = i) as ->; [|done]. eapply line_at_unique; [done| |done]. destruct (lookup_lt_is_Some_2 starts (j - 1) ltac:(lia)) as [st Hst]. exists st. replace (pred j) with (j - 1) by lia.
  split; [done|]. split; [specialize (H2 st Hst); lia|]. replace (j - 1 + 1) with j by lia. intros next Hn. specialize (H3 next Hn). lia.
Qed.

(** The scanner's search from the line of an earlier offset. *)
Lemma advance_line_spec starts start : ascending_starts starts -> forall fuel line, length starts <= line + fuel -> (exists st, starts !! line = Some st /\ st <= start) ->
  line_at starts start (advance_line fuel starts line start).
Proof.
  intros [_ Hs]. induction fuel as [|fuel IH]; intros line Hf (st & Hst & Hle).
  - apply lookup_lt_Some in Hst. lia.
  - cbn [advance_line]. destruct (starts !! (line + 1)) as [next|] eqn:En; [|exists st; rewrite En; done].
    destruct (Nat.leb_spec next start) as [Hn|Hn]; [apply IH; [lia|by exists next]|]. exists st. split; [done|]. split; [done|]. rewrite En. intros x Hx. assert (x = next) by congruence. lia.
Qed.

(** ** Records *)

(** Kind, element, start, end and line. *)
Abbreviation entry := (token.Kind * ElementKind * nat * nat * nat)%type.

Record good (s : scanner) : Prop := {
  gd_elements : length (elements (records s)) = length (kinds (records s));
  gd_positions : length (positions (records s)) = 3 * length (kinds (records s));
  gd_element_ids : Forall (fun i => i < length (kinds (records s))) (s_elements s);
  gd_token_ids : Forall (fun i => i < length (kinds (records s))) (s_tokens s)
}.

Definition tape_ok (tape : lexicalTape) : Prop := length (elements tape) = length (kinds tape) /\ length (positions tape) = 3 * length (kinds tape).

Lemma good_tape s : good s -> tape_ok (records s).
Proof. by intros [H1 H2 _ _]. Qed.

Lemma record_old tape k e a b ln i : tape_ok tape -> i < length (kinds tape) -> record_at (appendRecord k e a b ln tape) i = record_at tape i.
Proof. intros [H1 H2] Hi. unfold record_at, appendRecord. cbn [kinds elements positions]. rewrite !lookup_app_l by lia. done. Qed.

Lemma record_new tape k e a b ln : tape_ok tape -> record_at (appendRecord k e a b ln tape) (length (kinds tape)) = Some (k, e, a, b, ln).
Proof.
  intros [H1 H2]. unfold record_at, appendRecord. cbn [kinds elements positions]. rewrite !lookup_app_r by lia. rewrite H1, H2.
  replace (length (kinds tape) * 3 - 3 * length (kinds tape)) with 0 by lia. replace (length (kinds tape) * 3 + 1 - 3 * length (kinds tape)) with 1 by lia.
  replace (length (kinds tape) * 3 + 2 - 3 * length (kinds tape)) with 2 by lia. rewrite Nat.sub_diag. done.
Qed.

Lemma record_some tape i : tape_ok tape -> i < length (kinds tape) -> is_Some (record_at tape i).
Proof.
  intros [H1 H2] Hi. unfold record_at. destruct (lookup_lt_is_Some_2 (kinds tape) i Hi) as [? ->]. destruct (lookup_lt_is_Some_2 (elements tape) i ltac:(lia)) as [? ->].
  destruct (lookup_lt_is_Some_2 (positions tape) (i * 3) ltac:(lia)) as [? ->]. destruct (lookup_lt_is_Some_2 (positions tape) (i * 3 + 1) ltac:(lia)) as [? ->]. destruct (lookup_lt_is_Some_2 (positions tape) (i * 3 + 2) ltac:(lia)) as [? ->]. by eexists.
Qed.

(** What a list of indices stands for. *)
Definition entries_at (tape : lexicalTape) (ids : list nat) : list entry := omap (record_at tape) ids.

Lemma entries_old tape k e a b ln ids : tape_ok tape -> Forall (fun i => i < length (kinds tape)) ids -> entries_at (appendRecord k e a b ln tape) ids = entries_at tape ids.
Proof.
  intros Ht. unfold entries_at. induction 1 as [|i ids Hi _ IH]; [done|]. cbn [omap list_omap]. rewrite record_old by done. by rewrite IH.
Qed.

Lemma entries_lookup tape ids i : tape_ok tape -> Forall (fun i => i < length (kinds tape)) ids -> entries_at tape ids !! i = ids !! i ≫= record_at tape.
Proof.
  intros Ht Hf. revert i. induction Hf as [|j ids Hj _ IH]; intros i; [done|]. unfold entries_at in *. cbn [omap list_omap]. destruct (record_some tape j Ht Hj) as [x Hx]. rewrite Hx. destruct i as [|i]; [done|]. apply IH.
Qed.

Lemma entries_length tape ids : tape_ok tape -> Forall (fun i => i < length (kinds tape)) ids -> length (entries_at tape ids) = length ids.
Proof.
  intros Ht. unfold entries_at. induction 1 as [|j ids Hj _ IH]; [done|]. cbn [omap list_omap]. destruct (record_some tape j Ht Hj) as [x ->]. cbn [length]. by rewrite IH.
Qed.

Lemma entries_app tape l1 l2 : entries_at tape (l1 ++ l2) = entries_at tape l1 ++ entries_at tape l2.
Proof. apply omap_app. Qed.

Definition elems (s : scanner) : list entry := entries_at (records s) (s_elements s).
Definition toks (s : scanner) : list entry := entries_at (records s) (s_tokens s).

Lemma ids_grow (P : nat) ids : Forall (fun i => i < P) ids -> Forall (fun i => i < P + 1) ids.
Proof. intros H. eapply Forall_impl; [exact H|]. intros i Hi. cbn in *. lia. Qed.

(** ** Emissions *)

Definition line_of (start : nat) (s : scanner) : nat := advance_line (length (LineStarts (file s))) (LineStarts (file s)) (line s) start.

Lemma emitElement_good k tk a b s : good s ->
  good (emitElement k tk a b s) /\ elems (emitElement k tk a b s) = elems s ++ [(tk, k, a, b, line_of a s)] /\ toks (emitElement k tk a b s) = toks s /\
  length (kinds (records (emitElement k tk a b s))) = length (kinds (records s)) + 1 /\ record_at (records (emitElement k tk a b s)) (length (kinds (records s))) = Some (tk, k, a, b, line_of a s).
Proof.
  intros G. pose proof (good_tape s G) as Ht. pose proof G as [G1 G2 G3 G4]. unfold emitElement, move_line. fold (line_of a s). cbn [set_line add_element set_records records line s_elements s_tokens].
  assert (length (kinds (appendRecord tk k a b (line_of a s) (records s))) = length (kinds (records s)) + 1) as Hl by (unfold appendRecord; cbn [kinds]; by rewrite length_app).
  split; [|split; [|split; [|split]]].
  - split; cbn [records set_records add_element set_line s_elements s_tokens]; rewrite ?Hl; unfold appendRecord; cbn [kinds elements positions]; rewrite ?length_app; cbn [length]; try lia.
    + apply Forall_app. split; [by apply ids_grow|]. constructor; [lia|constructor].
    + by apply ids_grow.
  - unfold elems. cbn [records set_records add_element set_line s_elements]. rewrite entries_app, entries_old by done. f_equal. unfold entries_at. cbn [omap list_omap]. by rewrite record_new.
  - unfold toks. cbn [records set_records add_element set_line s_tokens]. by rewrite entries_old.
  - exact Hl.
  - by apply record_new.
Qed.

(** The number of tokens is the number of their records. *)
Lemma toks_length s : good s -> length (toks s) = length (s_tokens s).
Proof. intros G. apply entries_length; [by apply good_tape|by destruct G]. Qed.

Lemma addDiagnostic_fields c m a b s :
  file (addDiagnostic c m a b s) = file s /\ offset (addDiagnostic c m a b s) = offset s /\ line (addDiagnostic c m a b s) = line s /\ insertSemi (addDiagnostic c m a b s) = insertSemi s /\
  records (addDiagnostic c m a b s) = records s /\ s_elements (addDiagnostic c m a b s) = s_elements s /\ s_tokens (addDiagnostic c m a b s) = s_tokens s /\ limits (addDiagnostic c m a b s) = limits s /\
  stopped (addDiagnostic c m a b s) = stopped s /\ tokenLimit (addDiagnostic c m a b s) = tokenLimit s /\ headerOnly (addDiagnostic c m a b s) = headerOnly s.
Proof. unfold addDiagnostic. case_if; [case_if|]; done. Qed.

Lemma advanceHeader_fields k s :
  file (advanceHeader k s) = file s /\ offset (advanceHeader k s) = offset s /\ line (advanceHeader k s) = line s /\ insertSemi (advanceHeader k s) = insertSemi s /\
  records (advanceHeader k s) = records s /\ s_elements (advanceHeader k s) = s_elements s /\ s_tokens (advanceHeader k s) = s_tokens s /\ limits (advanceHeader k s) = limits s /\
  tokenLimit (advanceHeader k s) = tokenLimit s /\ diagnostics (advanceHeader k s) = diagnostics s /\ headerOnly (advanceHeader k s) = headerOnly s /\ diagLimited (advanceHeader k s) = diagLimited s.
Proof.
  unfold advanceHeader. destruct (negb (headerOnly s) || _); [done|]. destruct (headerState s) as [|[|[|[|[|n]]]]]; try (by repeat case_if); try done. destruct k; try done; by case_if.
Qed.

(** The diagnostics are within their limit, but for the one that says so. *)
Definition diags_ok (s : scanner) : Prop := (Z.of_nat (length (diagnostics s)) <= MaxDiagnostics (limits s) + (if diagLimited s then 1 else 0))%Z.

Lemma addDiagnostic_ok c m a b s : diags_ok s -> diags_ok (addDiagnostic c m a b s).
Proof.
  unfold diags_ok, addDiagnostic. intros H. destruct (Z.leb_spec (MaxDiagnostics (limits s)) (Z.of_nat (length (diagnostics s)))).
  - destruct (diagLimited s) eqn:E; [by rewrite E|]. cbn [set_diagnostics diagnostics limits diagLimited]. rewrite length_app. cbn [length]. lia.
  - cbn [set_diagnostics diagnostics limits diagLimited]. rewrite length_app. cbn [length]. destruct (diagLimited s); lia.
Qed.

(** ** What a scan has read *)

(** Nothing but the offset and the diagnostics has changed. *)
Record quiet (s s' : scanner) : Prop := {
  qt_file : file s' = file s;
  qt_line : line s' = line s;
  qt_semi : insertSemi s' = insertSemi s;
  qt_records : records s' = records s;
  qt_elements : s_elements s' = s_elements s;
  qt_tokens : s_tokens s' = s_tokens s;
  qt_limits : limits s' = limits s;
  qt_stopped : stopped s' = stopped s;
  qt_tokenLimit : tokenLimit s' = tokenLimit s;
  qt_header : headerOnly s' = headerOnly s;
  qt_diags : diags_ok s -> diags_ok s';
  qt_offset : offset s <= offset s'
}.

Lemma quiet_refl s : quiet s s.
Proof. by split. Qed.

Lemma quiet_trans a b c : quiet a b -> quiet b c -> quiet a c.
Proof. intros [] []. split; try congruence; [auto|lia]. Qed.

Lemma quiet_text a b : quiet a b -> text b = text a.
Proof. intros Q. unfold text. by rewrite (qt_file _ _ Q). Qed.

Lemma quiet_good a b : quiet a b -> good a -> good b.
Proof. intros Q [G1 G2 G3 G4]. split; rewrite ?(qt_records _ _ Q), ?(qt_elements _ _ Q), ?(qt_tokens _ _ Q); done. Qed.

Lemma quiet_elems a b : quiet a b -> elems b = elems a /\ toks b = toks a.
Proof. intros Q. unfold elems, toks. by rewrite (qt_records _ _ Q), (qt_elements _ _ Q), (qt_tokens _ _ Q). Qed.

Lemma quiet_diagnostic c m a b s : quiet s (addDiagnostic c m a b s).
Proof. destruct (addDiagnostic_fields c m a b s) as (H1 & H2 & H3 & H4 & H5 & H6 & H7 & H8 & H9 & H10 & H11). split; try done; [apply addDiagnostic_ok|by rewrite H2]. Qed.

Lemma quiet_advance n s : quiet s (advance n s).
Proof. split; try done. cbn. lia. Qed.

Lemma quiet_set_offset n s : offset s <= n -> quiet s (set_offset n s).
Proof. intros H. by split. Qed.

(** The token that an entry is. *)
Definition lexed (e : entry) : token.Kind * nat * nat := let '(k, _, a, b, _) := e in (k, a, b).

(** Where an element breaks the line, if it does: a line break, or the first one in a closed block comment. *)
Definition breaks (t : gostring) (e : entry) : option nat :=
  let '(_, kind, a, b, _) := e in
  match kind with
  | ElementNewline => Some a
  | ElementBlockComment =>
      let inner := slice t (a + 2) b in
      match strings_Index inner (lit "*/") with
      | Some closing => Nat.add (a + 2) <$> IndexByte (take closing inner) 10
      | None => None
      end
  | _ => None
  end.

(** The tokens after which the language ends a statement at the end of a line: names and literals, the four keywords, the
    two operators that are statements, and what closes a bracket. *)
Definition ends_statement (k : token.Kind) : bool :=
  bool_decide (k ∈ [token.Ident; token.Int; token.Float; token.Imag; token.Char; token.String] ++
                   [token.Break; token.Continue; token.Fallthrough; token.Return] ++ [token.Inc; token.Dec] ++ [token.Rparen; token.Rbrack; token.Rbrace]).

Lemma CanEndStatement_ends k : token.CanEndStatement k = ends_statement k.
Proof. by destruct k. Qed.

(** The rule for semicolons: a token that can end a statement is followed by one where the line ends. *)
Definition semicolon_step (t : gostring) (st : list (token.Kind * nat * nat) * bool) (e : entry) : list (token.Kind * nat * nat) * bool :=
  let '(k, kind, a, b, _) := e in
  if bool_decide (kind = ElementToken) then (fst st ++ [(k, a, b)], ends_statement k)
  else match breaks t e with
       | Some p => if snd st then (fst st ++ [(token.Semicolon, p, p + 1)], false) else st
       | None => st
       end.

Definition insert_semicolons (t : gostring) (es : list entry) : list (token.Kind * nat * nat) * bool := foldl (semicolon_step t) ([], false) es.

Lemma insert_semicolons_snoc t es e : insert_semicolons t (es ++ [e]) = semicolon_step t (insert_semicolons t es) e.
Proof. unfold insert_semicolons. by rewrite foldl_app. Qed.

(** The elements are non-empty, one after the other, from the beginning to [n]. *)
Inductive tiles : list entry -> nat -> Prop :=
| tiles_nil : tiles [] 0
| tiles_snoc es n k e m ln : tiles es n -> n < m -> tiles (es ++ [(k, e, n, m, ln)]) m.

Definition max_tokens (s : scanner) : nat := Z.to_nat (MaxTokens (limits s)).

(** ** Spellings *)

Section spellings.
Context (letterRanges digitRanges : list (Z * Z * Z)).

(** The one spelling of the operators, delimiters and keywords. *)
Definition spelling (k : token.Kind) : gostring :=
  match k with
  | token.Add => lit "+" | token.Sub => lit "-" | token.Mul => lit "*" | token.Quo => lit "/" | token.Rem => lit "%"
  | token.And => lit "&" | token.Or => lit "|" | token.Xor => lit "^" | token.Tilde => lit "~" | token.Shl => lit "<<" | token.Shr => lit ">>" | token.AndNot => lit "&^"
  | token.AddAssign => lit "+=" | token.SubAssign => lit "-=" | token.MulAssign => lit "*=" | token.QuoAssign => lit "/=" | token.RemAssign => lit "%="
  | token.AndAssign => lit "&=" | token.OrAssign => lit "|=" | token.XorAssign => lit "^=" | token.ShlAssign => lit "<<=" | token.ShrAssign => lit ">>=" | token.AndNotAssign => lit "&^="
  | token.Land => lit "&&" | token.Lor => lit "||" | token.Arrow => lit "<-" | token.Inc => lit "++" | token.Dec => lit "--"
  | token.Eq => lit "==" | token.Lt => lit "<" | token.Gt => lit ">" | token.Assign => lit "=" | token.Not => lit "!"
  | token.Ne => lit "!=" | token.Le => lit "<=" | token.Ge => lit ">=" | token.Define => lit ":=" | token.Ellipsis => lit "..."
  | token.Lparen => lit "(" | token.Lbrack => lit "[" | token.Lbrace => lit "{" | token.Comma => lit "," | token.Period => lit "." | token.Semicolon => lit ";"
  | token.Colon => lit ":" | token.Rparen => lit ")" | token.Rbrack => lit "]" | token.Rbrace => lit "}"
  | token.Break => lit "break" | token.Case => lit "case" | token.Chan => lit "chan" | token.Const => lit "const" | token.Continue => lit "continue"
  | token.Default => lit "default" | token.Defer => lit "defer" | token.Else => lit "else" | token.Fallthrough => lit "fallthrough" | token.For => lit "for"
  | token.Func => lit "func" | token.Go => lit "go" | token.Goto => lit "goto" | token.If => lit "if" | token.Import => lit "import" | token.Interface => lit "interface"
  | token.Map => lit "map" | token.Package => lit "package" | token.Range => lit "range" | token.Return => lit "return" | token.Select => lit "select"
  | token.Struct => lit "struct" | token.Switch => lit "switch" | token.TypeWord => lit "type" | token.Var => lit "var"
  | _ => []
  end.

(** How a token of a kind is spelled: a name is none of the spellings above. *)
Definition token_spelled (k : token.Kind) (x : gostring) : Prop :=
  match k with
  | token.NoKind | token.EOF | token.Comment => False
  | token.Illegal => True
  | token.Int | token.Float | token.Imag => exists c y, x = c :: y /\ (token.IsDecimalDigit c = true \/ c = 46%Z)
  | token.Char => HasPrefix x [39%Z] = true
  | token.String => HasPrefix x [34%Z] = true \/ HasPrefix x [96%Z] = true
  | token.Ident => token.IsIdentifierName letterRanges digitRanges x = true /\ forall k, x <> spelling k
  | _ => x = spelling k
  end.

Definition blank (c : Z) : bool := ((c =? 32) || (c =? 9) || (c =? 13))%Z.

(** How an element of a text is spelled. *)
Definition spelled (t : gostring) (e : entry) : Prop :=
  let '(k, kind, a, b, _) := e in
  let x := slice t a b in
  match kind with
  | NoElement => False
  | ElementToken => token_spelled k x
  | ElementWhitespace => forallb blank x = true
  | ElementNewline => x = [10%Z]
  | ElementLineComment => HasPrefix x (lit "//") = true /\ (10%Z ∉ x)
  | ElementBlockComment => HasPrefix x (lit "/*") = true /\ match strings_Index (drop 2 x) (lit "*/") with Some closing => closing + 4 = length x | None => b = length t end
  | ElementBOM => a = 0 /\ x = bom
  end.

(** An entry is in the text, and its line is the one of its start. *)
Definition line_ok (t : gostring) (e : entry) : Prop := let '(_, _, a, b, ln) := e in line_at (lineStarts t) a ln /\ a <= b <= length t.

(** A scan between two elements. *)
Record lexing (s : scanner) : Prop := {
  lx_good : good s;
  lx_max : (0 < MaxTokens (limits s))%Z;
  lx_starts : LineStarts (file s) = lineStarts (text s);
  lx_offset : offset s <= length (text s);
  lx_tiles : tiles (elems s) (offset s);
  lx_line : exists st, lineStarts (text s) !! line s = Some st /\ st <= offset s;
  lx_lines : Forall (line_ok (text s)) (elems s ++ toks s);
  lx_tokens : map lexed (toks s) = take (max_tokens s) (fst (insert_semicolons (text s) (elems s)));
  lx_semi : length (fst (insert_semicolons (text s) (elems s))) <= max_tokens s -> insertSemi s = snd (insert_semicolons (text s) (elems s));
  lx_stopped : stopped s = true -> headerOnly s = false -> max_tokens s < length (fst (insert_semicolons (text s) (elems s)));
  lx_spelled : Forall (spelled (text s)) (elems s);
  lx_diags : diags_ok s
}.
End spellings.

(** ** Emissions between two elements *)

Definition real (k : token.Kind) : Prop := k <> token.EOF /\ k <> token.Comment /\ k <> token.NoKind.

(** A token takes its place in the sequence unless the limit is reached. *)
Lemma emitTokenIndex_some k a b i s : good s -> real k -> (0 < MaxTokens (limits s))%Z -> i < length (kinds (records s)) ->
  let s' := emitTokenIndex k a b (Some i) s in
  good s' /\ file s' = file s /\ offset s' = offset s /\ line s' = line s /\ limits s' = limits s /\ records s' = records s /\ s_elements s' = s_elements s /\ headerOnly s' = headerOnly s /\ (diags_ok s -> diags_ok s') /\
  (if length (s_tokens s) <? max_tokens s then s_tokens s' = s_tokens s ++ [i] /\ insertSemi s' = ends_statement k /\ (stopped s' = true -> stopped s = true \/ headerOnly s = true)
   else s_tokens s' = s_tokens s /\ stopped s' = true).
Proof.
  intros G (R1 & R2 & R3) Hm Hi. cbv zeta. unfold emitTokenIndex. rewrite bool_decide_false by done. cbn [negb andb]. unfold max_tokens.
  destruct (Z.leb_spec (MaxTokens (limits s)) (Z.of_nat (length (s_tokens s)))) as [Hle|Hlt].
  - rewrite (proj2 (Nat.ltb_ge _ _)) by lia. destruct (tokenLimit s); [by destruct G|]. destruct (addDiagnostic_fields (lit "scanner.token.limit") (lit "source file exceeds scanner token limit") a b (set_tokenLimit s)) as (H1 & H2 & H3 & H4 & H5 & H6 & H7 & H8 & H9 & H10 & H11).
    cbn [set_stopped file offset line limits records s_elements s_tokens stopped headerOnly]. rewrite ?H1, ?H2, ?H3, ?H5, ?H6, ?H7, ?H8, ?H11. split; [|split_and!; try done; intros Hd; by apply (addDiagnostic_ok (lit "scanner.token.limit") (lit "source file exceeds scanner token limit") a b (set_tokenLimit s))]. destruct G as [G1 G2 G3 G4].
    split; cbn [set_stopped records s_elements s_tokens]; by rewrite ?H5, ?H6, ?H7.
  - rewrite (proj2 (Nat.ltb_lt _ _)) by lia. destruct (advanceHeader_fields k (add_token i s)) as (H1 & H2 & H3 & H4 & H5 & H6 & H7 & H8 & H9 & H10 & H11 & H12). cbn [add_token file offset line insertSemi records s_elements s_tokens limits headerOnly diagnostics diagLimited] in *.
    assert (diags_ok s -> diags_ok (advanceHeader k (add_token i s))) as Hd by (unfold diags_ok; by rewrite H8, H10, H12).
    assert (stopped (advanceHeader k (add_token i s)) = true -> stopped s = true \/ headerOnly s = true) as Hst2.
    { unfold advanceHeader. cbn [add_token headerOnly]. destruct (headerOnly s); [by right|]. cbn. by left. }
    assert (good (advanceHeader k (add_token i s))) as G'.
    { destruct G as [G1 G2 G3 G4]. split; rewrite ?H5, ?H6, ?H7; try done. apply Forall_app. split; [done|]. constructor; [done|constructor]. }
    rewrite (bool_decide_false (k = token.Comment)) by done. cbn [negb andb]. destruct (decide (k = token.Semicolon)) as [->|Hne].
    + rewrite bool_decide_true by done. cbn [negb]. split; [by destruct G'|]. cbn [set_insertSemi file offset line limits records s_elements s_tokens stopped insertSemi headerOnly]. rewrite <- CanEndStatement_ends. split_and!; try done.
    + rewrite bool_decide_false by done. cbn [negb]. split; [by destruct G'|]. cbn [set_insertSemi file offset line limits records s_elements s_tokens stopped insertSemi headerOnly]. rewrite <- CanEndStatement_ends. split_and!; try done.
Qed.
