(* ===== verification/ScannerSteps.v ===== *)
(** * The steps of the scanner (src/compiler/scanner)

    Every emission, the skipping of white space and comments and the scan of each kind of token keep the
    invariant of a scan: the elements tile the text read so far and the tokens are those of the elements with
    the semicolons that the language inserts. *)

From S2P Require Import Prelude GoStd GoBytes TypeRelations Constraint Source Scanner ScannerSafe.

#[local] Open Scope nat_scope.

(** ** Tokens within the limit *)

Lemma take_snoc {A} (n : nat) (l : list A) x : take n (l ++ [x]) = if length l <? n then l ++ [x] else take n l.
Proof. destruct (Nat.ltb_spec (length l) n); [by rewrite take_ge by (rewrite length_app; cbn; lia)|by rewrite take_app_le by lia]. Qed.

(** The state in which a synthetic token gets its record. *)
Definition with_record (k : token.Kind) (a b : nat) (s : scanner) : scanner :=
  set_records (appendRecord k NoElement a b (line_of a s) (records s)) (move_line a s).

Definition limited (k : token.Kind) (s : scanner) : bool := negb (bool_decide (k = token.EOF)) && (MaxTokens (limits s) <=? Z.of_nat (length (s_tokens s)))%Z.

Lemma emitTokenIndex_none k a b s :
  emitTokenIndex k a b None s = if limited k s then emitTokenIndex k a b (Some 0) s else emitTokenIndex k a b (Some (length (kinds (records s)))) (with_record k a b s).
Proof.
  unfold emitTokenIndex, limited. change (limits (with_record k a b s)) with (limits s). change (s_tokens (with_record k a b s)) with (s_tokens s).
  destruct (negb (bool_decide (k = token.EOF)) && (MaxTokens (limits s) <=? Z.of_nat (length (s_tokens s)))%Z) eqn:E; [done|]. done.
Qed.

Lemma with_record_good k a b s : good s ->
  good (with_record k a b s) /\ elems (with_record k a b s) = elems s /\ toks (with_record k a b s) = toks s /\
  length (kinds (records (with_record k a b s))) = length (kinds (records s)) + 1 /\ record_at (records (with_record k a b s)) (length (kinds (records s))) = Some (k, NoElement, a, b, line_of a s).
Proof.
  intros G. pose proof (good_tape s G) as Ht. pose proof G as [G1 G2 G3 G4].
  assert (length (kinds (appendRecord k NoElement a b (line_of a s) (records s))) = length (kinds (records s)) + 1) as Hl by (unfold appendRecord; cbn [kinds]; by rewrite length_app).
  split; [|split; [|split; [|split]]].
  - unfold with_record, move_line. split; cbn [records set_records set_line s_elements s_tokens]; rewrite ?Hl; unfold appendRecord; cbn [kinds elements positions]; rewrite ?length_app; cbn [length]; try lia; by apply ids_grow.
  - unfold elems. cbn [records set_records with_record move_line set_line s_elements]. by rewrite entries_old.
  - unfold toks. cbn [records set_records with_record move_line set_line s_tokens]. by rewrite entries_old.
  - exact Hl.
  - by apply record_new.
Qed.

(** What a token with a record does to the sequence of tokens. *)
Lemma token_step k a b i s x l : good s -> real k -> (0 < MaxTokens (limits s))%Z -> record_at (records s) i = Some x -> lexed x = (k, a, b) -> map lexed (toks s) = take (max_tokens s) l ->
  (stopped s = true -> headerOnly s = false -> max_tokens s < length l) ->
  let s' := emitTokenIndex k a b (Some i) s in
  good s' /\ file s' = file s /\ offset s' = offset s /\ line s' = line s /\ limits s' = limits s /\ headerOnly s' = headerOnly s /\ elems s' = elems s /\ (diags_ok s -> diags_ok s') /\
  (toks s' = toks s ++ [x] \/ toks s' = toks s) /\ map lexed (toks s') = take (max_tokens s) (l ++ [(k, a, b)]) /\
  (length (l ++ [(k, a, b)]) <= max_tokens s -> insertSemi s' = ends_statement k) /\ (stopped s' = true -> headerOnly s = false -> max_tokens s < length (l ++ [(k, a, b)])).
Proof.
  intros G R Hm Hr Hx Ht Hs s'. assert (i < length (kinds (records s))) as Hi by (unfold record_at in Hr; destruct (kinds (records s) !! i) eqn:E; [by apply lookup_lt_Some in E|done]).
  destruct (emitTokenIndex_some k a b i s G R Hm Hi) as (G' & H1 & H2 & H3 & H4 & H5 & H6 & H7 & H8 & H9). fold s' in G', H1, H2, H3, H4, H5, H6, H7, H8, H9.
  assert (length (s_tokens s) = length l `min` max_tokens s) as Hl by (rewrite <- toks_length, <- (length_map lexed), Ht, length_take by done; lia).
  assert (elems s' = elems s) as He by (unfold elems; by rewrite H5, H6). rewrite take_snoc, length_app. cbn [length].
  destruct (Nat.ltb_spec (length (s_tokens s)) (max_tokens s)) as [Hlt|Hge].
  - destruct H9 as (H9 & H10 & H11). assert (toks s' = toks s ++ [x]) as Htk.
    { unfold toks. rewrite H5, H9, entries_app. f_equal. unfold entries_at. cbn [omap list_omap]. by rewrite Hr. }
    split_and!; try done; [by left| |].
    + rewrite Htk, map_app. cbn [map]. rewrite Hx, Ht, (proj2 (Nat.ltb_lt _ _)) by lia. by rewrite take_ge by lia.
    + intros E Hh. destruct (H11 E) as [E2|]; [specialize (Hs E2 Hh); lia|congruence].
  - destruct H9 as [H9 H10]. assert (toks s' = toks s) as Htk by (unfold toks; by rewrite H5, H9). split_and!; try done; [by right| |lia|lia].
    rewrite Htk, Ht, (proj2 (Nat.ltb_ge _ _)) by lia. done.
Qed.

Lemma synthetic_step a b s l : good s -> (0 < MaxTokens (limits s))%Z -> map lexed (toks s) = take (max_tokens s) l -> (stopped s = true -> headerOnly s = false -> max_tokens s < length l) ->
  let s' := emitSynthetic token.Semicolon a b s in
  good s' /\ file s' = file s /\ offset s' = offset s /\ (line s' = line s \/ line s' = line_of a s) /\ limits s' = limits s /\ headerOnly s' = headerOnly s /\ elems s' = elems s /\ (diags_ok s -> diags_ok s') /\
  (toks s' = toks s ++ [(token.Semicolon, NoElement, a, b, line_of a s)] \/ toks s' = toks s) /\ map lexed (toks s') = take (max_tokens s) (l ++ [(token.Semicolon, a, b)]) /\
  (length (l ++ [(token.Semicolon, a, b)]) <= max_tokens s -> insertSemi s' = false) /\ (stopped s' = true -> headerOnly s = false -> max_tokens s < length (l ++ [(token.Semicolon, a, b)])).
Proof.
  intros G Hm Ht Hs. cbv zeta. unfold emitSynthetic. rewrite emitTokenIndex_none. assert (real token.Semicolon) as R by done. destruct (limited token.Semicolon s) eqn:El.
  - unfold limited in El. cbn in El. apply Z.leb_le in El. unfold emitTokenIndex. cbn [negb bool_decide andb]. rewrite bool_decide_false by done. rewrite (proj2 (Z.leb_le _ _)) by done. cbn [negb andb].
    assert (length (s_tokens s) = length l `min` max_tokens s) as Hl by (rewrite <- toks_length, <- (length_map lexed), Ht, length_take by done; lia). unfold max_tokens in *. rewrite take_snoc, length_app. cbn [length].
    rewrite (proj2 (Nat.ltb_ge _ _)) by lia. destruct (tokenLimit s).
    + split; [by destruct G|]. split_and!; try done; [by left|by right|lia|lia].
    + destruct (addDiagnostic_fields (lit "scanner.token.limit") (lit "source file exceeds scanner token limit") a b (set_tokenLimit s)) as (H1 & H2 & H3 & H4 & H5 & H6 & H7 & H8 & H9 & H10 & H11).
      unfold elems, toks. cbn [set_stopped file offset line limits records s_elements s_tokens stopped headerOnly insertSemi]. rewrite ?H1, ?H2, ?H3, ?H4, ?H5, ?H6, ?H7, ?H8, ?H11.
      split; [destruct G as [G1 G2 G3 G4]; split; cbn [set_stopped records s_elements s_tokens]; by rewrite ?H5, ?H6, ?H7|].
      split_and!; try done; [by left|intros Hd; by apply (addDiagnostic_ok (lit "scanner.token.limit") (lit "source file exceeds scanner token limit") a b (set_tokenLimit s))|by right|lia|lia].
  - destruct (with_record_good token.Semicolon a b s G) as (G' & He & Htk & Hl & Hr).
    destruct (token_step token.Semicolon a b (length (kinds (records s))) (with_record token.Semicolon a b s) _ l G' R Hm Hr eq_refl) as (H1 & H2 & H3 & H4 & H5 & H6 & H7 & H7b & H8 & H9 & H10 & H11); [by rewrite Htk|done|].
    rewrite He in H7. rewrite Htk in H8. split_and!; try done. by right.
Qed.

Section steps.
Context (letterRanges digitRanges : list (Z * Z * Z)).

#[local] Abbreviation lexing := (lexing letterRanges digitRanges).
#[local] Abbreviation spelled := (spelled letterRanges digitRanges).
#[local] Abbreviation token_spelled := (token_spelled letterRanges digitRanges).

Lemma spelled_real k x : token_spelled k x -> real k.
Proof. intros H. by destruct k. Qed.

(** ** Elements *)

(** One element, and all the tokens that come with it. *)
Record moves (s s' : scanner) : Prop := {
  mv_lexing : lexing s';
  mv_file : file s' = file s;
  mv_limits : limits s' = limits s;
  mv_header : headerOnly s' = headerOnly s;
  mv_offset : offset s < offset s'
}.

Lemma moves_trans a b c : moves a b -> moves b c -> moves a c.
Proof. intros [] []. split; [done|congruence|congruence|congruence|lia]. Qed.

Lemma moves_text a b : moves a b -> text b = text a.
Proof. intros M. unfold text. by rewrite (mv_file _ _ M). Qed.

Lemma line_of_ok s0 s a : lexing s0 -> quiet s0 s -> offset s0 <= a -> line_at (lineStarts (text s0)) a (line_of a s).
Proof.
  intros L Q Ha. unfold line_of. rewrite (qt_file _ _ Q), (qt_line _ _ Q), (lx_starts _ _ _ L). apply advance_line_spec; [apply lineStarts_ascending|lia|].
  destruct (lx_line _ _ _ L) as (st & H1 & H2). exists st. split; [done|lia].
Qed.

Lemma line_at_le starts a b i : line_at starts a i -> a <= b -> exists st, starts !! i = Some st /\ st <= b.
Proof. intros (st & H1 & H2 & _) Hab. exists st. split; [done|lia]. Qed.

(** The next element [e], with its tokens, in a state [s']. *)
Lemma lexing_next s s' k kind ln : lexing s -> good s' -> file s' = file s -> limits s' = limits s -> headerOnly s' = headerOnly s -> offset s < offset s' -> offset s' <= length (text s) ->
  elems s' = elems s ++ [(k, kind, offset s, offset s', ln)] -> line_at (lineStarts (text s)) (offset s) ln -> (exists st, lineStarts (text s) !! line s' = Some st /\ st <= offset s') -> Forall (line_ok (text s)) (toks s') ->
  (forall ln, spelled (text s) (k, kind, offset s, offset s', ln)) -> diags_ok s' ->
  (let st := semicolon_step (text s) (insert_semicolons (text s) (elems s)) (k, kind, offset s, offset s', ln) in
   map lexed (toks s') = take (max_tokens s) (fst st) /\ (length (fst st) <= max_tokens s -> insertSemi s' = snd st) /\ (stopped s' = true -> headerOnly s = false -> max_tokens s < length (fst st))) ->
  moves s s'.
Proof.
  intros L G Hf Hl Hh Ho Hlen He Hln Hline Htk Hsp Hdg. cbv zeta. intros (H1 & H2 & H3). assert (text s' = text s) as Ht by (unfold text; by rewrite Hf). assert (max_tokens s' = max_tokens s) as Hm by (unfold max_tokens; by rewrite Hl).
  split; [|done|done|done|done]. split; rewrite ?Ht, ?Hm, ?He, ?insert_semicolons_snoc, ?Hf, ?Hl, ?Hh; try done.
  - apply (lx_max _ _ _ L).
  - apply (lx_starts _ _ _ L).
  - constructor; [apply (lx_tiles _ _ _ L)|done].
  - apply Forall_app. split; [|done]. apply Forall_app. split; [|constructor; [split; [done|lia]|constructor]]. pose proof (lx_lines _ _ _ L) as H. by apply Forall_app in H as [H _].
  - apply Forall_app. split; [apply (lx_spelled _ _ _ L)|]. constructor; [apply Hsp|constructor].
Qed.

Lemma toks_lines s : lexing s -> Forall (line_ok (text s)) (toks s).
Proof. intros L. pose proof (lx_lines _ _ _ L) as H. by apply Forall_app in H as [_ H]. Qed.

Lemma emitToken_moves s0 s k : lexing s0 -> quiet s0 s -> offset s0 < offset s -> offset s <= length (text s0) -> token_spelled k (slice (text s0) (offset s0) (offset s)) -> moves s0 (emitToken k (offset s0) (offset s) s).
Proof.
  intros L Q Ho Hlen Hsp. pose proof (spelled_real _ _ Hsp) as R. pose proof (quiet_good _ _ Q (lx_good _ _ _ L)) as G. destruct (quiet_elems _ _ Q) as [Qe Qt]. unfold emitToken.
  destruct (emitElement_good ElementToken k (offset s0) (offset s) s G) as (G1 & He & Ht & Hk & Hr). set (s1 := emitElement ElementToken k (offset s0) (offset s) s) in *.
  rewrite Hk. replace (length (kinds (records s)) + 1 - 1) with (length (kinds (records s))) by lia. assert (max_tokens s1 = max_tokens s0) as Hmx by (unfold max_tokens; change (limits s1) with (limits s); by rewrite (qt_limits _ _ Q)).
  pose proof (line_of_ok s0 s (offset s0) L Q ltac:(lia)) as Hln.
  destruct (token_step k (offset s0) (offset s) (length (kinds (records s))) s1 (k, ElementToken, offset s0, offset s, line_of (offset s0) s) (fst (insert_semicolons (text s0) (elems s0))) G1 R) as (H1 & H2 & H3 & H4 & H5 & H6 & H7 & H7b & H8 & H9 & H10 & H11).
  { change (limits s1) with (limits s). rewrite (qt_limits _ _ Q). apply (lx_max _ _ _ L). }
  { exact Hr. }
  { done. }
  { rewrite Ht, Qt, Hmx. apply (lx_tokens _ _ _ L). }
  { change (stopped s1) with (stopped s). change (headerOnly s1) with (headerOnly s). rewrite Hmx, (qt_stopped _ _ Q), (qt_header _ _ Q). apply (lx_stopped _ _ _ L). }
  change (file s1) with (file s) in H2. change (offset s1) with (offset s) in H3. change (line s1) with (line_of (offset s0) s) in H4. change (limits s1) with (limits s) in H5. change (headerOnly s1) with (headerOnly s) in *.
  rewrite Hmx in *. set (s2 := emitTokenIndex _ _ _ _ s1) in *. apply (lexing_next s0 s2 k ElementToken (line_of (offset s0) s)); try done.
  - rewrite H2. apply (qt_file _ _ Q).
  - rewrite H5. apply (qt_limits _ _ Q).
  - rewrite H6. apply (qt_header _ _ Q).
  - by rewrite H3.
  - by rewrite H3.
  - by rewrite H7, He, Qe, H3.
  - rewrite H4, H3. apply (line_at_le _ (offset s0)); [done|lia].
  - rewrite Ht, Qt in H8. destruct H8 as [-> | ->]; [apply Forall_app; split; [|constructor; [split; [done|lia]|constructor]]|]; by apply toks_lines.
  - intros ln. cbn. by rewrite H3.
  - apply H7b. change (diags_ok s). apply (qt_diags _ _ Q), (lx_diags _ _ _ L).
  - cbn [semicolon_step]. rewrite bool_decide_true by done. cbn [fst snd]. rewrite H3. rewrite (qt_header _ _ Q) in H11. done.
Qed.

(** An element that is no token, before the semicolon that may follow it. *)
Lemma emitTrivia_state s0 s kind : lexing s0 -> quiet s0 s -> offset s0 < offset s -> offset s <= length (text s0) ->
  let s1 := emitTrivia kind (offset s0) (offset s) s in
  good s1 /\ file s1 = file s0 /\ offset s1 = offset s /\ limits s1 = limits s0 /\ headerOnly s1 = headerOnly s0 /\ insertSemi s1 = insertSemi s0 /\ stopped s1 = stopped s0 /\ line s1 = line_of (offset s0) s /\
  elems s1 = elems s0 ++ [(token.NoKind, kind, offset s0, offset s, line_of (offset s0) s)] /\ toks s1 = toks s0 /\ line_at (lineStarts (text s0)) (offset s0) (line s1) /\ diags_ok s1.
Proof.
  intros L Q Ho Hlen. cbv zeta. destruct (quiet_elems _ _ Q) as [Qe Qt]. destruct (emitElement_good kind token.NoKind (offset s0) (offset s) s (quiet_good _ _ Q (lx_good _ _ _ L))) as (G1 & He & Ht & _).
  unfold emitTrivia. rewrite He, Ht, Qe, Qt. split; [done|]. split; [apply (qt_file _ _ Q)|]. split; [done|]. split; [apply (qt_limits _ _ Q)|]. split; [apply (qt_header _ _ Q)|]. split; [apply (qt_semi _ _ Q)|].
  split; [apply (qt_stopped _ _ Q)|]. split; [done|]. split; [done|]. split; [done|]. split; [by apply line_of_ok|]. apply (qt_diags _ _ Q), (lx_diags _ _ _ L).
Qed.

(** An element that does not break the line, or after which no semicolon is wanted. *)
Lemma emitTrivia_moves s0 s kind : lexing s0 -> quiet s0 s -> offset s0 < offset s -> offset s <= length (text s0) -> kind <> ElementToken -> (forall ln, spelled (text s0) (token.NoKind, kind, offset s0, offset s, ln)) ->
  (forall ln, breaks (text s0) (token.NoKind, kind, offset s0, offset s, ln) = None) \/ insertSemi s0 = false -> moves s0 (emitTrivia kind (offset s0) (offset s) s).
Proof.
  intros L Q Ho Hlen Hk Hsp Hb. destruct (emitTrivia_state s0 s kind L Q Ho Hlen) as (G1 & H1 & H2 & H3 & H4 & H5 & H6 & H7 & H8 & H9 & H10 & H11). set (s1 := emitTrivia _ _ _ _) in *.
  apply (lexing_next s0 s1 token.NoKind kind (line s1)); try done; rewrite ?H2, ?H9; try done; [|by apply toks_lines|].
  { apply (line_at_le _ (offset s0)); [done|lia]. }
  cbv zeta. cbn [semicolon_step]. rewrite bool_decide_false by done. pose proof (lx_tokens _ _ _ L) as Hl1. pose proof (lx_semi _ _ _ L) as Hl2. pose proof (lx_stopped _ _ _ L) as Hl3. rewrite H5, H6.
  set (st := insert_semicolons (text s0) (elems s0)) in *. destruct Hb as [->|Hb]; [exact (conj Hl1 (conj Hl2 Hl3))|]. destruct (breaks _ _) as [p|]; [|exact (conj Hl1 (conj Hl2 Hl3))]. destruct (snd st) eqn:E; [|rewrite E; exact (conj Hl1 (conj Hl2 Hl3))]. cbn [fst snd].
  rewrite take_snoc, length_app. cbn [length]. assert (~ length (fst st) <= max_tokens s0) as Hgt by (intros Hle; specialize (Hl2 Hle); congruence). rewrite (proj2 (Nat.ltb_ge _ _)) by lia.
  split; [done|]. split; lia.
Qed.

(** An element that breaks the line at [p] after a token that can end a statement. *)
Lemma emitBreak_moves s0 s kind p final : lexing s0 -> quiet s0 s -> offset s0 < offset s -> offset s <= length (text s0) -> kind <> ElementToken -> (forall ln, spelled (text s0) (token.NoKind, kind, offset s0, offset s, ln)) -> offset s0 <= p < offset s ->
  (forall ln, breaks (text s0) (token.NoKind, kind, offset s0, offset s, ln) = Some p) -> insertSemi s0 = true -> (final = id \/ final = set_insertSemi false) ->
  moves s0 (final (emitSynthetic token.Semicolon p (p + 1) (emitTrivia kind (offset s0) (offset s) s))).
Proof.
  intros L Q Ho Hlen Hk Hsp Hp Hb Hi Hfin. destruct (emitTrivia_state s0 s kind L Q Ho Hlen) as (G1 & H1 & H2 & H3 & H4 & H5 & H6 & H7 & H8 & H9 & H10 & H11). set (s1 := emitTrivia _ _ _ _) in *.
  pose proof (lx_tokens _ _ _ L) as Hl1. pose proof (lx_semi _ _ _ L) as Hl2. pose proof (lx_stopped _ _ _ L) as Hl3. set (st := insert_semicolons (text s0) (elems s0)) in *. assert (max_tokens s1 = max_tokens s0) as Hmx by (unfold max_tokens; by rewrite H3).
  destruct (synthetic_step p (p + 1) s1 (fst st) G1) as (S1 & S2 & S3 & S4 & S5 & S6 & S7 & S7b & S8 & S9 & S10 & S11); [by rewrite H3; apply (lx_max _ _ _ L)|by rewrite H9, Hmx|by rewrite H6, H4, Hmx|].
  set (s2 := emitSynthetic _ _ _ s1) in *. rewrite Hmx in *.
  assert (line_at (lineStarts (text s0)) p (line_of p s1)) as Hlp.
  { unfold line_of. rewrite H1, (lx_starts _ _ _ L). apply advance_line_spec; [apply lineStarts_ascending|lia|]. apply (line_at_le _ (offset s0)); [done|lia]. }
  assert (exists x, lineStarts (text s0) !! line s2 = Some x /\ x <= offset s) as Hline.
  { destruct S4 as [-> | ->]; [apply (line_at_le _ (offset s0)); [done|lia]|apply (line_at_le _ p); [done|lia]]. }
  assert (good (final s2) /\ file (final s2) = file s2 /\ limits (final s2) = limits s2 /\ headerOnly (final s2) = headerOnly s2 /\ offset (final s2) = offset s2 /\ elems (final s2) = elems s2 /\ toks (final s2) = toks s2 /\
    line (final s2) = line s2 /\ stopped (final s2) = stopped s2 /\ (insertSemi s2 = false -> insertSemi (final s2) = false) /\ (diags_ok s2 -> diags_ok (final s2))) as (F1 & F2 & F3 & F4 & F5 & F6 & F7 & F8 & F9 & F10 & F11) by (destruct Hfin as [-> | ->]; [done|by destruct S1]).
  apply (lexing_next s0 (final s2) token.NoKind kind (line_of (offset s0) s)); rewrite ?F2, ?F3, ?F4, ?F5, ?F6, ?F7, ?F8, ?F9, ?S2, ?S3, ?S5, ?S6, ?S7, ?H1, ?H2, ?H3, ?H4; try done.
  - rewrite H9 in S8. destruct S8 as [-> | ->]; [apply Forall_app; split; [|constructor; [split; [done|lia]|constructor]]|]; by apply toks_lines.
  - by apply F11, S7b.
  - cbv zeta. cbn [semicolon_step]. rewrite bool_decide_false by done. rewrite Hb. fold st. destruct (snd st) eqn:E; cbn [fst snd].
    + rewrite H4 in S11. split; [done|]. split; [intros Hle; by apply F10, S10|done].
    + assert (~ length (fst st) <= max_tokens s0) as Hgt by (intros Hle; specialize (Hl2 Hle); congruence). rewrite take_snoc, (proj2 (Nat.ltb_ge _ _)) in S9 by lia. split; [done|]. split; lia.
Qed.

(** ** White space and comments *)

Lemma lexing_still s s' : quiet s s' -> offset s' = offset s -> lexing s -> lexing s'.
Proof.
  intros Q Ho L. destruct (quiet_elems _ _ Q) as [Qe Qt]. pose proof (quiet_text _ _ Q) as Qx. assert (max_tokens s' = max_tokens s) as Hm by (unfold max_tokens; by rewrite (qt_limits _ _ Q)).
  destruct L. split; rewrite ?Qe, ?Qt, ?Qx, ?Ho, ?Hm, ?(qt_file _ _ Q), ?(qt_limits _ _ Q), ?(qt_line _ _ Q), ?(qt_semi _ _ Q), ?(qt_stopped _ _ Q), ?(qt_header _ _ Q); try done; [by eapply quiet_good|by apply (qt_diags _ _ Q)].
Qed.

Lemma moves_still s s' s'' : moves s s' -> quiet s' s'' -> offset s'' = offset s' -> moves s s''.
Proof.
  intros M Q Ho. destruct M. split; [by eapply lexing_still| | | |by rewrite Ho]; rewrite ?(qt_file _ _ Q), ?(qt_limits _ _ Q), ?(qt_header _ _ Q); done.
Qed.

Lemma rest_length s : length (rest s) = length (text s) - offset s.
Proof. unfold rest. apply length_drop. Qed.

Lemma rest_some s c l : rest s = c :: l -> offset s < length (text s).
Proof. intros H. pose proof (rest_length s) as Hl. rewrite H in Hl. cbn in Hl. lia. Qed.

Lemma slice_rest (t : gostring) a b : b = length t -> slice t a b = drop a t.
Proof. intros ->. unfold slice. apply take_ge. rewrite length_drop. lia. Qed.

Lemma HasPrefix_take n s p : HasPrefix s p = false -> HasPrefix (take n s) p = false.
Proof.
  intros H. destruct (HasPrefix (take n s) p) eqn:E; [|done]. apply HasPrefix_spec in E as [t E]. rewrite <- (take_drop n s), E, <- app_assoc, HasPrefix_app in H. done.
Qed.

Lemma index_take s k : strings_Index s (lit "*/") = Some k -> strings_Index (take (k + 2) s) (lit "*/") = Some k.
Proof.
  revert k. induction s as [|c s IH]; intros k; [done|]. cbn [strings_Index]. destruct (HasPrefix (c :: s) (lit "*/")) eqn:E.
  - intros H. injection H as <-. apply HasPrefix_spec in E as [t ->]. done.
  - destruct (strings_Index s (lit "*/")) as [j|]; [|done]. intros H. injection H as <-. specialize (IH j eq_refl). replace (S j + 2) with (S (j + 2)) by lia. cbn [take strings_Index].
    pose proof (HasPrefix_take (S (j + 2)) _ _ E) as E2. cbn [take] in E2. by rewrite E2, IH.
Qed.

Lemma blanks_bound s : blanks s <= length s.
Proof. induction s as [|c s IH]; [done|]. cbn [blanks length]. case_if; lia. Qed.

Lemma matchAt_bound p s : matchAt p s = true -> p <> [] -> offset s + length p <= length (text s).
Proof.
  unfold matchAt. intros [t H]%HasPrefix_spec Hp. pose proof (rest_length s) as Hl. rewrite H, length_app in Hl. destruct p as [|c p]; [done|]. cbn in *. lia.
Qed.

(** The line break of a block comment that is closed [closing] bytes after its opening. *)
Lemma closed_breaks t a closing ln : strings_Index (drop (a + 2) t) (lit "*/") = Some closing ->
  breaks t (token.NoKind, ElementBlockComment, a, a + 2 + closing + 2, ln) = Nat.add (a + 2) <$> IndexByte (slice t (a + 2) (a + 2 + closing)) 10.
Proof.
  intros H. cbn [breaks]. unfold slice. replace (a + 2 + closing + 2 - (a + 2)) with (closing + 2) by lia. rewrite (index_take _ _ H). replace (a + 2 + closing - (a + 2)) with closing by lia.
  rewrite take_take. by replace (closing `min` (closing + 2)) with closing by lia.
Qed.

Lemma open_breaks t a ln : strings_Index (drop (a + 2) t) (lit "*/") = None -> breaks t (token.NoKind, ElementBlockComment, a, length t, ln) = None.
Proof. intros H. cbn [breaks]. by rewrite slice_rest, H. Qed.

Lemma slice_take (t : gostring) a n : slice t a (a + n) = take n (drop a t).
Proof. unfold slice. by replace (a + n - a) with n by lia. Qed.

Lemma blanks_spelled s : forallb blank (take (blanks s) s) = true.
Proof. induction s as [|c s IH]; [done|]. cbn [blanks]. destruct ((c =? 32) || (c =? 9) || (c =? 13))%Z eqn:E; [|done]. cbn [take forallb]. by rewrite IH, andb_true_r. Qed.

Lemma matchAt_rest p s : matchAt p s = true -> exists y, rest s = p ++ y /\ drop (offset s + length p) (text s) = y.
Proof.
  unfold matchAt. intros [y H]%HasPrefix_spec. exists y. split; [done|]. unfold rest in H. rewrite <- drop_drop, H. apply drop_app_length.
Qed.

Lemma line_comment_spelled t a k y ln : drop a t = lit "//" ++ y -> (forall i, i < k -> y !! i <> Some 10%Z) -> spelled t (token.NoKind, ElementLineComment, a, a + (2 + k), ln).
Proof.
  intros H Hk. cbn [ScannerSafe.spelled]. rewrite slice_take, H, take_app_add' by done. split; [apply HasPrefix_app|]. intros [Hi|[i Hi]%list_elem_of_lookup]%elem_of_app.
  - by repeat (apply elem_of_cons in Hi as [Hi|Hi]; [discriminate|]); apply not_elem_of_nil in Hi.
  - apply lookup_take_Some in Hi as [Hi Hlt]. by apply (Hk i).
Qed.

Lemma block_comment_spelled t a y ln : drop a t = lit "/*" ++ y ->
  match strings_Index y (lit "*/") with
  | Some k => spelled t (token.NoKind, ElementBlockComment, a, a + 2 + k + 2, ln)
  | None => spelled t (token.NoKind, ElementBlockComment, a, length t, ln)
  end.
Proof.
  intros H. destruct (strings_Index y (lit "*/")) as [k|] eqn:E; cbn [ScannerSafe.spelled].
  - pose proof (index_bound _ _ E) as Hb. replace (a + 2 + k + 2) with (a + (2 + (k + 2))) by lia. rewrite slice_take, H, take_app_add' by done. split; [apply HasPrefix_app|].
    change (drop 2 (lit "/*" ++ take (k + 2) y)) with (take (k + 2) y). rewrite (index_take _ _ E). rewrite length_app, length_take. cbn. lia.
  - rewrite slice_rest, H by done. split; [apply HasPrefix_app|]. change (drop 2 (lit "/*" ++ y)) with y. by rewrite E.
Qed.

(** A round of the loop reads an element, or nothing when it returns. *)
Lemma skip_step_moves s : lexing s -> moves s (snd (skip_step s)) \/ skip_step s = (Some false, s).
Proof.
  intros L. unfold skip_step. destruct (rest s) as [|c l] eqn:Er; [by right|]. pose proof (rest_some _ _ _ Er) as Hlt. pose proof (rest_length s) as Hrl. rewrite Er in Hrl.
  destruct ((c =? 32) || (c =? 9) || (c =? 13))%Z eqn:E1.
  { left. cbn [snd]. pose proof (blanks_bound (c :: l)) as Hb. assert (0 < blanks (c :: l)) by (cbn [blanks]; rewrite E1; lia).
    apply emitTrivia_moves; [done|apply quiet_advance|cbn [advance set_offset offset]; lia|cbn [advance set_offset offset]; lia|done| |by left].
    intros ln. cbn [ScannerSafe.spelled advance set_offset offset]. rewrite slice_take. fold (rest s). rewrite Er. apply blanks_spelled. }
  destruct (c =? 10)%Z eqn:E2.
  { left. assert (forall ln, spelled (text s) (token.NoKind, ElementNewline, offset s, offset (advance 1 s), ln)) as Hsp.
    { intros ln. cbn [ScannerSafe.spelled advance set_offset offset]. rewrite slice_take. fold (rest s). rewrite Er. cbn. f_equal. lia. }
    change (insertSemi (emitTrivia ElementNewline (offset s) (offset (advance 1 s)) (advance 1 s))) with (insertSemi s). destruct (insertSemi s) eqn:Es; cbn [snd].
    - apply (emitBreak_moves s (advance 1 s) ElementNewline (offset s) (set_insertSemi false)); try done; [apply quiet_advance|cbn; lia|cbn; lia|cbn; lia|by right].
    - apply emitTrivia_moves; [done|apply quiet_advance|cbn; lia|cbn; lia|done|done|by right]. }
  destruct (c =? 47)%Z eqn:E3; [|by right]. destruct (matchAt (lit "//") s) eqn:E4.
  { left. pose proof (matchAt_bound _ _ E4 ltac:(done)) as Hb. destruct (matchAt_rest _ _ E4) as (y & Hy & Hd). change (length (lit "//")) with 2 in Hb, Hd. cbn [snd].
    change (rest (advance 2 s)) with (drop (offset s + 2) (text s)). rewrite Hd. assert (length y = length (text s) - (offset s + 2)) as Hyl by (rewrite <- Hd; apply length_drop).
    assert (forall k, k <= length y -> (forall i, i < k -> y !! i <> Some 10%Z) -> moves s (emitTrivia ElementLineComment (offset s) (offset s + (2 + k)) (set_offset (offset s + (2 + k)) s))) as Hgo.
    { intros k Hk Hn. apply (emitTrivia_moves s (set_offset (offset s + (2 + k)) s)); try done; [apply quiet_set_offset; lia|cbn; lia|cbn; lia|intros ln; by eapply line_comment_spelled|by left]. }
    pose proof (index_byte_spec y 10) as Hi. destruct (IndexByte y 10) as [k|].
    - destruct Hi as [Hk%lookup_lt_Some Hf]. specialize (Hgo k ltac:(lia) Hf). replace (offset s + (2 + k)) with (offset s + 2 + k) in Hgo by lia. exact Hgo.
    - specialize (Hgo (length y) ltac:(lia) ltac:(intros; apply Hi)). replace (offset s + (2 + length y)) with (length (text s)) in Hgo by lia. exact Hgo. }
  destruct (matchAt (lit "/*") s) eqn:E5; [|by right]. left. pose proof (matchAt_bound _ _ E5 ltac:(done)) as Hb. destruct (matchAt_rest _ _ E5) as (y & Hy & Hd). change (length (lit "/*")) with 2 in Hb, Hd. change (text (advance 2 s)) with (text s).
  pose proof (fun ln => block_comment_spelled (text s) (offset s) y ln Hy) as Hsp. rewrite <- Hd in Hsp.
  change (rest (advance 2 s)) with (drop (offset s + 2) (text s)). change (offset (advance 2 s)) with (offset s + 2). destruct (strings_Index (drop (offset s + 2) (text s)) (lit "*/")) as [k|] eqn:Ek.
  - pose proof (index_bound _ _ Ek) as Hk. rewrite length_drop in Hk. pose proof (closed_breaks (text s) (offset s) k) as Hbr. set (s1 := set_offset (offset s + 2 + k) (advance 2 s)) in *.
    assert (at_end s1 = false) as -> by (apply Nat.leb_gt; cbn [s1 set_offset offset]; change (text s1) with (text s); lia).
    assert (quiet s (advance 2 s1)) as Q by (eapply quiet_trans; [apply (quiet_advance 2)|eapply quiet_trans; [apply (quiet_set_offset (offset s + 2 + k)); cbn; lia|apply quiet_advance]]).
    change (offset (advance 2 s1)) with (offset s + 2 + k + 2) in *. pose proof (index_byte_spec (slice (text s) (offset s + 2) (offset s + 2 + k)) 10) as Hi.
    destruct (IndexByte (slice (text s) (offset s + 2) (offset s + 2 + k)) 10) as [f|].
    + destruct Hi as [Hf%lookup_lt_Some _]. unfold slice in Hf. rewrite length_take in Hf. destruct (insertSemi s) eqn:Es; cbn [snd].
      * apply (emitBreak_moves s (advance 2 s1) ElementBlockComment (offset s + 2 + f) id); try done; [cbn; lia|cbn; lia|cbn; lia|intros ln; by apply Hbr|by left].
      * apply (emitTrivia_moves s (advance 2 s1)); try done; [cbn; lia|cbn; lia|by right].
    + cbn [snd]. apply (emitTrivia_moves s (advance 2 s1)); try done; [cbn; lia|cbn; lia|left; intros ln; by apply Hbr].
  - set (s1 := set_offset (length (text s)) (advance 2 s)) in *. assert (at_end s1 = true) as -> by (apply Nat.leb_le; done). cbn [snd].
    assert (quiet s s1) as Q by (eapply quiet_trans; [apply (quiet_advance 2)|apply quiet_set_offset; cbn; lia]).
    eapply moves_still; [apply (emitTrivia_moves s s1 ElementBlockComment L Q); try done; left; intros ln; by apply open_breaks|apply quiet_diagnostic|].
    by destruct (addDiagnostic_fields (lit "scanner.comment.unterminated") (lit "unterminated block comment") (offset s) (length (text s1)) (emitTrivia ElementBlockComment (offset s) (offset s1) s1)) as (_ & H & _).
Qed.

Lemma skip_moves fuel s b s' : lexing s -> skipWhitespaceAndComments fuel s = Some (b, s') -> (s' = s /\ b = false) \/ moves s s'.
Proof.
  revert s. induction fuel as [|fuel IH]; intros s L; cbn [skipWhitespaceAndComments]; [done|]. pose proof (skip_step_moves s L) as H. destruct (skip_step s) as [[b1|] s1]; cbn [snd] in H.
  - intros E. injection E as <- <-. destruct H as [H|H]; [by right|]. injection H as -> ->. by left.
  - destruct H as [H|H]; [|done]. intros E. right. destruct (IH s1 (mv_lexing _ _ H) E) as [[-> _]|M]; [done|]. by eapply moves_trans.
Qed.

(** ** The bytes ahead *)

Definition ahead (s : scanner) : nat := length (rest s).

Lemma ahead_end s : ahead s = 0 -> at_end s = true.
Proof. unfold ahead, at_end. rewrite rest_length. intros H. apply Nat.leb_le. lia. Qed.

Lemma ahead_moves s s' : moves s s' -> ahead s' < ahead s.
Proof. intros M. pose proof (mv_offset _ _ M). pose proof (lx_offset _ _ _ (mv_lexing _ _ M)) as H2. unfold ahead. rewrite !rest_length. rewrite (moves_text _ _ M) in *. lia. Qed.

Lemma ahead_text s : ahead s <= length (text s).
Proof. unfold ahead. rewrite rest_length. lia. Qed.

Lemma skip_ends fuel s : lexing s -> ahead s < fuel -> is_Some (skipWhitespaceAndComments fuel s).
Proof.
  revert s. induction fuel as [|fuel IH]; intros s L Hf; [lia|]. cbn [skipWhitespaceAndComments]. pose proof (skip_step_moves s L) as H. destruct (skip_step s) as [[b|] s1]; [done|]. cbn [snd] in H. destruct H as [M|]; [|done].
  apply IH; [apply (mv_lexing _ _ M)|]. pose proof (ahead_moves _ _ M). lia.
Qed.

(** ** Looking ahead *)

(** Some of the text has been read. *)
Definition reads (s0 s : scanner) : Prop := quiet s0 s /\ offset s <= length (text s0).

Lemma reads_refl s : offset s <= length (text s) -> reads s s.
Proof. intros H. split; [apply quiet_refl|done]. Qed.

Lemma reads_trans a b c : reads a b -> reads b c -> reads a c.
Proof. intros [Q1 H1] [Q2 H2]. split; [by eapply quiet_trans|]. by rewrite (quiet_text _ _ Q1) in H2. Qed.

Lemma reads_advance n s : n <= length (rest s) -> offset s <= length (text s) -> reads s (advance n s).
Proof. intros Hn Ho. rewrite rest_length in Hn. split; [apply quiet_advance|]. cbn. lia. Qed.

Lemma reads_diagnostic c m a b s : offset s <= length (text s) -> reads s (addDiagnostic c m a b s).
Proof. intros Ho. split; [apply quiet_diagnostic|]. by destruct (addDiagnostic_fields c m a b s) as (_ & -> & _). Qed.

Lemma reads_bound s0 s : reads s0 s -> offset s <= length (text s).
Proof. intros [Q H]. by rewrite (quiet_text _ _ Q). Qed.

Lemma ahead_reads s s' : reads s s' -> offset s < offset s' -> ahead s' < ahead s.
Proof. intros [Q H] Ho. unfold ahead. rewrite !rest_length, (quiet_text _ _ Q). lia. Qed.

Lemma at_end_rest s : at_end s = false -> rest s <> [].
Proof. unfold at_end. intros H%Nat.leb_gt E. pose proof (rest_length s) as Hl. rewrite E in Hl. cbn in Hl. lia. Qed.

Lemma decode_width s : s <> [] -> 1 <= snd (DecodeRuneInString s) <= length s.
Proof.
  intros Hs. unfold DecodeRuneInString. destruct s as [|a [|b [|c [|d s]]]]; [done|..]; repeat case_if; cbn; lia.
Qed.

Lemma peekRune_width s : rest s <> [] -> 1 <= snd (peekRune s) <= length (rest s).
Proof.
  intros Hs. unfold peekRune. pose proof (decode_width _ Hs) as H. destruct (rest s) as [|c l]; [done|]. case_if; [cbn; lia|done].
Qed.

Lemma reads_peek s : at_end s = false -> reads s (advance (snd (peekRune s)) s) /\ offset s < offset (advance (snd (peekRune s)) s).
Proof.
  intros He. pose proof (peekRune_width s (at_end_rest _ He)) as Hw. unfold at_end in He. apply Nat.leb_gt in He. split; [apply reads_advance; lia|cbn; lia].
Qed.

(** A token from where the scan of it began. *)
Lemma token_moves s0 s k : lexing s0 -> reads s0 s -> offset s0 < offset s -> token_spelled k (slice (text s0) (offset s0) (offset s)) -> moves s0 (emitToken k (offset s0) (offset s) s).
Proof. intros L [Q H] Ho Hk. by apply emitToken_moves. Qed.

(** The first bytes of what has been read. *)
Lemma slice_head (t : gostring) a b c y : drop a t = c :: y -> a < b -> exists z, slice t a b = c :: z.
Proof. intros H Hb. unfold slice. rewrite H. destruct (b - a) as [|n] eqn:E; [lia|]. cbn. by eexists. Qed.

(** ** Escapes, strings and runes *)

(** A diagnostic changes nothing that matters for what is read next. *)
Lemma diagnostic_then c m a b n s : reads s (advance n s) -> reads s (advance n (addDiagnostic c m a b s)) /\ offset (advance n (addDiagnostic c m a b s)) = offset s + n.
Proof.
  intros [Q H]. assert (offset (advance n (addDiagnostic c m a b s)) = offset s + n) as Ho by (unfold advance; by destruct (addDiagnostic_fields c m a b s) as (_ & -> & _)).
  split; [|done]. split; [|by rewrite Ho]. eapply quiet_trans; [apply quiet_diagnostic|apply quiet_advance].
Qed.

Lemma hex_reads start digits v s : offset s <= length (text s) -> reads s (snd (scanFixedHexEscapeValue start digits v s)).
Proof.
  revert v s. induction digits as [|digits IH]; intros v s Ho; cbn [scanFixedHexEscapeValue]; [by apply reads_refl|]. destruct (at_end s) eqn:E; [by apply reads_diagnostic|].
  pose proof (reads_peek s E) as [R Hlt]. destruct (peekRune s) as [r size]. cbn [snd] in R, Hlt. case_if; cbn [snd].
  - by apply diagnostic_then.
  - eapply reads_trans; [exact R|]. apply IH. by eapply reads_bound.
Qed.

Lemma octal_reads start digits v s : offset s <= length (text s) -> reads s (snd (octal_loop start digits v s)).
Proof.
  revert v s. induction digits as [|digits IH]; intros v s Ho; cbn [octal_loop]; [by apply reads_refl|]. destruct (at_end s) eqn:E; [by apply reads_diagnostic|].
  pose proof (reads_peek s E) as [R Hlt]. destruct (peekRune s) as [r size]. cbn [snd] in R, Hlt. case_if; cbn [snd].
  - by apply diagnostic_then.
  - eapply reads_trans; [exact R|]. apply IH. by eapply reads_bound.
Qed.

(** A check of the value of an escape. *)
Lemma checked_reads {A} (v : option A) (bad : A -> bool) c m a s0 s : reads s0 s -> reads s0 (snd (match v with None => (false, s) | Some x => if bad x then (false, addDiagnostic c m a (offset s) s) else (true, s) end)).
Proof. intros R. destruct v as [x|]; [|done]. destruct (bad x); [|done]. cbn [snd]. eapply reads_trans; [done|]. apply reads_diagnostic. by eapply reads_bound. Qed.

Lemma unicode_reads start digits s : offset s <= length (text s) -> reads s (snd (scanUnicodeEscape start digits s)).
Proof.
  intros Ho. unfold scanUnicodeEscape. pose proof (hex_reads start digits 0 s Ho) as R. destruct (scanFixedHexEscapeValue start digits 0 s) as [v s1]. cbn [snd] in R.
  by apply (checked_reads v (fun value => (MaxRune <? value) || ((55296 <=? value) && (value <=? 57343)))%Z).
Qed.

Lemma octal_escape_reads start s : offset s <= length (text s) -> reads s (snd (scanOctalEscape start s)).
Proof.
  intros Ho. unfold scanOctalEscape. pose proof (octal_reads start 3 0 s Ho) as R. destruct (octal_loop start 3 0 s) as [v s1]. cbn [snd] in R. by apply (checked_reads v (fun value => 255 <? value)%Z).
Qed.

(** An escape reads its backslash and more. *)
Lemma escape_reads start s : at_end s = false -> reads s (snd (scanEscape start s)) /\ offset s < offset (snd (scanEscape start s)).
Proof.
  intros He. assert (reads s (advance 1 s)) as R1 by (pose proof (at_end_rest _ He); unfold at_end in He; apply Nat.leb_gt in He; apply reads_advance; [destruct (rest s); [done|cbn; lia]|lia]).
  pose proof (reads_bound _ _ R1) as Hb. unfold scanEscape.
  assert (forall s', reads (advance 1 s) s' -> reads s s' /\ offset s < offset s') as Hgo.
  { intros s' R. split; [by eapply reads_trans|]. destruct R as [Q _]. pose proof (qt_offset _ _ Q) as H. cbn in H. lia. }
  destruct (at_end (advance 1 s)) eqn:E; [by apply Hgo, reads_diagnostic|]. pose proof (reads_peek _ E) as [R _]. destruct (peekRune (advance 1 s)) as [r size]. cbn [snd] in R. pose proof (reads_bound _ _ R) as Hb2.
  case_if; [by apply Hgo|]. case_if.
  { unfold scanFixedHexEscape. apply Hgo. pose proof (hex_reads (offset s) 2 0 _ Hb2) as R2. destruct (scanFixedHexEscapeValue _ _ _ _) as [v s2]. cbn [snd] in *. by eapply reads_trans. }
  case_if; [apply Hgo; eapply reads_trans; [exact R|by apply unicode_reads]|]. case_if; [apply Hgo; eapply reads_trans; [exact R|by apply unicode_reads]|].
  case_if; [by apply Hgo, octal_escape_reads|]. apply Hgo. eapply reads_trans; [exact R|]. by apply reads_diagnostic.
Qed.

(** What a token needs, from a state in which part of it has been read. *)
Definition inside (s0 s : scanner) : Prop := lexing s0 /\ reads s0 s /\ offset s0 < offset s.

Lemma inside_reads s0 s s' : inside s0 s -> reads s s' -> inside s0 s'.
Proof. intros (L & R & Ho) R2. split; [done|]. split; [by eapply reads_trans|]. destruct R2 as [Q _]. pose proof (qt_offset _ _ Q). lia. Qed.

Lemma inside_diagnostic s0 s c m a b : inside s0 s -> inside s0 (addDiagnostic c m a b s).
Proof. intros I. eapply inside_reads; [exact I|]. apply reads_diagnostic. destruct I as (_ & R & _). by eapply reads_bound. Qed.

Lemma inside_token s0 s k : inside s0 s -> (forall b, offset s0 < b -> token_spelled k (slice (text s0) (offset s0) b)) -> moves s0 (emitToken k (offset s0) (offset s) s).
Proof. intros (L & R & Ho) Hk. apply token_moves; auto. Qed.

Lemma string_moves fuel s0 valid s s' : inside s0 s -> (forall b, offset s0 < b -> token_spelled token.String (slice (text s0) (offset s0) b)) -> string_loop fuel (offset s0) valid s = Some s' -> moves s0 s'.
Proof.
  intros I Hk. revert valid s I. induction fuel as [|fuel IH]; intros valid s I; cbn [string_loop]; [done|].
  assert (forall valid s, inside s0 s -> Some (let s := if valid : bool then addDiagnostic (lit "scanner.string.unterminated") (lit "unterminated string literal") (offset s0) (offset s) s else s in emitToken token.String (offset s0) (offset s) s) = Some s' -> moves s0 s')
    as Hfin by (intros v s2 I'; cbv zeta; intros E; injection E as <-; apply inside_token; [destruct v; [by apply inside_diagnostic|done]|done]).
  destruct (at_end s) eqn:E; [by apply Hfin|]. pose proof (reads_peek s E) as [R _]. pose proof (escape_reads (offset s0) s E) as [R2 _]. destruct (peekRune s) as [r size]. cbn [snd] in R. pose proof (inside_reads _ _ _ I R) as I2.
  case_if; [apply (Hfin false); by apply inside_diagnostic|]. case_if; [intros H; injection H as <-; by apply inside_token|]. case_if; [|by apply IH]. destruct (scanEscape (offset s0) s) as [ok s1]. cbn [snd] in R2. apply IH. by apply (inside_reads s0 s).
Qed.

(** A round of the loop over a literal reads something. *)
Lemma string_ends fuel start valid s : ahead s < fuel -> is_Some (string_loop fuel start valid s).
Proof.
  revert valid s. induction fuel as [|fuel IH]; intros valid s Hf; [lia|]. cbn [string_loop]. destruct (at_end s) eqn:E; [done|]. destruct (reads_peek s E) as [R Hlt]. destruct (escape_reads start s E) as [R2 Hlt2].
  pose proof (ahead_reads _ _ R Hlt). pose proof (ahead_reads _ _ R2 Hlt2). destruct (peekRune s) as [r size]. cbn [snd] in *. case_if; [done|]. case_if; [done|]. case_if; [destruct (scanEscape start s) as [ok s1]; cbn [snd] in *|]; apply IH; lia.
Qed.

Lemma raw_moves fuel s0 s s' : inside s0 s -> (forall b, offset s0 < b -> token_spelled token.String (slice (text s0) (offset s0) b)) -> raw_loop fuel (offset s0) s = Some s' -> moves s0 s'.
Proof.
  intros I Hk. revert s I. induction fuel as [|fuel IH]; intros s I; cbn [raw_loop]; [done|]. destruct (at_end s) eqn:E.
  - assert (offset s = offset (addDiagnostic (lit "scanner.raw_string.unterminated") (lit "unterminated raw string literal") (offset s0) (offset s) s)) as Ho by (symmetry; apply addDiagnostic_fields).
    rewrite Ho at 1. intros H. injection H as <-. apply inside_token; [by apply inside_diagnostic|done].
  - pose proof (reads_peek s E) as [R _]. destruct (peekRune s) as [r size]. cbn [snd] in R. pose proof (inside_reads _ _ _ I R) as I2. case_if; [intros H; injection H as <-; by apply inside_token|by apply IH].
Qed.

Lemma raw_ends fuel start s : ahead s < fuel -> is_Some (raw_loop fuel start s).
Proof.
  revert s. induction fuel as [|fuel IH]; intros s Hf; [lia|]. cbn [raw_loop]. destruct (at_end s) eqn:E; [done|]. destruct (reads_peek s E) as [R Hlt]. pose proof (ahead_reads _ _ R Hlt). destruct (peekRune s) as [r size]. cbn [snd] in *.
  case_if; [done|]. apply IH; lia.
Qed.

Lemma rune_moves fuel s0 count valid s s' : inside s0 s -> (forall b, offset s0 < b -> token_spelled token.Char (slice (text s0) (offset s0) b)) -> rune_loop fuel (offset s0) count valid s = Some s' -> moves s0 s'.
Proof.
  intros I Hk. revert count valid s I. induction fuel as [|fuel IH]; intros count valid s I; cbn [rune_loop]; [done|].
  assert (forall valid s, inside s0 s -> Some (let s := if valid : bool then addDiagnostic (lit "scanner.rune.unterminated") (lit "unterminated rune literal") (offset s0) (offset s) s else s in emitToken token.Char (offset s0) (offset s) s) = Some s' -> moves s0 s')
    as Hfin by (intros v s2 I'; cbv zeta; intros E; injection E as <-; apply inside_token; [destruct v; [by apply inside_diagnostic|done]|done]).
  destruct (at_end s) eqn:E; [by apply Hfin|]. pose proof (reads_peek s E) as [R _]. pose proof (escape_reads (offset s0) s E) as [R2 _]. destruct (peekRune s) as [r size]. cbn [snd] in R. pose proof (inside_reads _ _ _ I R) as I2.
  case_if; [apply (Hfin false); by apply inside_diagnostic|]. case_if; [intros H; injection H as <-; apply inside_token; [case_if; [done|by apply inside_diagnostic]|done]|]. case_if; [|by apply IH]. destruct (scanEscape (offset s0) s) as [ok s1]. cbn [snd] in R2. apply IH. by apply (inside_reads s0 s).
Qed.

Lemma rune_ends fuel start count valid s : ahead s < fuel -> is_Some (rune_loop fuel start count valid s).
Proof.
  revert count valid s. induction fuel as [|fuel IH]; intros count valid s Hf; [lia|]. cbn [rune_loop]. destruct (at_end s) eqn:E; [done|]. destruct (reads_peek s E) as [R Hlt]. destruct (escape_reads start s E) as [R2 Hlt2].
  pose proof (ahead_reads _ _ R Hlt). pose proof (ahead_reads _ _ R2 Hlt2). destruct (peekRune s) as [r size]. cbn [snd] in *. case_if; [done|]. case_if; [done|]. case_if; [destruct (scanEscape start s) as [ok s1]; cbn [snd] in *|]; apply IH; lia.
Qed.

(** The result of a loop that ends. *)
Lemma default_ends {A} (d : A) o (P : A -> Prop) : is_Some o -> (forall x, o = Some x -> P x) -> P (default d o).
Proof. intros [x ->] H. by apply H. Qed.

(** ** Numbers *)

Lemma digits_bound base s : fst (digits_ahead base s) <= length s.
Proof. induction s as [|c s IH]; [done|]. cbn [digits_ahead length]. repeat case_if; cbn [fst]; lia. Qed.

Lemma digits_reads base s : offset s <= length (text s) -> reads s (snd (scanDigits base s)).
Proof. intros Ho. unfold scanDigits. pose proof (digits_bound base (rest s)) as Hb. destruct (digits_ahead base (rest s)) as [n seen]. cbn [fst snd] in *. by apply reads_advance. Qed.

Lemma digits_diagnostic_reads base s : offset s <= length (text s) -> reads s (digits_or_diagnostic base s).
Proof.
  intros Ho. unfold digits_or_diagnostic. pose proof (digits_reads base s Ho) as R. destruct (scanDigits base s) as [seen s1]. cbn [snd] in R. destruct seen; [done|]. unfold no_digits.
  eapply reads_trans; [exact R|]. apply reads_diagnostic. by eapply reads_bound.
Qed.

Lemma peekByte_reads s c : (peekByte s =? c)%Z = true -> c <> 0%Z -> reads s (advance 1 s).
Proof.
  unfold peekByte. intros E Hc. destruct (rest s) as [|x l] eqn:Er; [apply Z.eqb_eq in E; congruence|]. pose proof (rest_some _ _ _ Er). apply reads_advance; [rewrite Er; cbn; lia|lia].
Qed.

Lemma sign_reads s : offset s <= length (text s) -> reads s (scanSign s).
Proof. intros Ho. unfold scanSign. destruct ((peekByte s =? 43) || (peekByte s =? 45))%Z eqn:E; [|by apply reads_refl]. apply orb_true_iff in E as [E|E]; by eapply peekByte_reads. Qed.

(** The exponent of a number, after its letter. *)
Lemma exponent_reads s c1 c2 : ((peekByte s =? c1) || (peekByte s =? c2))%Z = true -> c1 <> 0%Z -> c2 <> 0%Z -> reads s (digits_or_diagnostic 10 (scanSign (advance 1 s))).
Proof.
  intros E H1 H2. assert (reads s (advance 1 s)) as R by (apply orb_true_iff in E as [E|E]; by eapply peekByte_reads). pose proof (sign_reads _ (reads_bound _ _ R)) as R2.
  eapply reads_trans; [exact R|]. eapply reads_trans; [exact R2|]. apply digits_diagnostic_reads. by eapply reads_bound.
Qed.

Lemma hexadecimal_reads s : offset s <= length (text s) -> reads s (snd (scan_hexadecimal s)).
Proof.
  intros Ho. unfold scan_hexadecimal. pose proof (digits_reads 16 s Ho) as R. destruct (scanDigits 16 s) as [seen s1]. cbn [snd] in R.
  assert (forall point seen s2, reads s s2 -> reads s (snd (let s := if seen : bool then s2 else no_digits s2 in
    if ((peekByte s =? 112) || (peekByte s =? 80))%Z then (true, point, true, digits_or_diagnostic 10 (scanSign (advance 1 s))) else (point, point, false, s)))) as Hgo.
  { intros point seen' s2 R2. assert (reads s (if seen' then s2 else no_digits s2)) as R3.
    { destruct seen'; [done|]. eapply reads_trans; [exact R2|]. apply reads_diagnostic. by eapply reads_bound. }
    cbv zeta. set (s3 := if seen' then s2 else no_digits s2) in *. destruct ((peekByte s3 =? 112) || (peekByte s3 =? 80))%Z eqn:E; cbn [snd]; [|done]. eapply reads_trans; [exact R3|]. by eapply exponent_reads. }
  destruct (peekByte s1 =? 46)%Z eqn:E; [|by apply Hgo]. pose proof (peekByte_reads _ _ E ltac:(done)) as R2. pose proof (digits_reads 16 _ (reads_bound _ _ R2)) as R3. destruct (scanDigits 16 (advance 1 s1)) as [more s2]. cbn [snd] in R3.
  apply Hgo. eapply reads_trans; [exact R|]. by eapply reads_trans.
Qed.

Lemma digits_ahead_digit c l : token.IsDecimalDigit c = true -> 0 < fst (digits_ahead 10 (c :: l)).
Proof. intros Hc. unfold token.IsDecimalDigit in Hc. cbn [digits_ahead]. assert (digit_in 10 c = true) as ->; [|cbn; lia]. unfold digit_in. breflect. lia. Qed.

Lemma decimal_reads s c l : rest s = c :: l -> token.IsDecimalDigit c = true \/ c = 46%Z -> reads s (snd (scan_decimal s)) /\ offset s < offset (snd (scan_decimal s)).
Proof.
  intros Er Hc. pose proof (rest_some _ _ _ Er) as Ho. unfold scan_decimal.
  assert (forall f s1, reads s s1 -> offset s < offset s1 -> let s2 := snd (if ((peekByte s1 =? 101) || (peekByte s1 =? 69))%Z then (true, digits_or_diagnostic 10 (scanSign (advance 1 s1))) else (f : bool, s1)) in reads s s2 /\ offset s < offset s2) as Hgo.
  { intros f s1 R H1. cbv zeta. destruct ((peekByte s1 =? 101) || (peekByte s1 =? 69))%Z eqn:E; cbn [snd]; [|done]. pose proof (exponent_reads _ _ _ E ltac:(done) ltac:(done)) as R2. split; [by eapply reads_trans|].
    destruct R2 as [Q _]. pose proof (qt_offset _ _ Q). lia. }
  destruct (peekByte s =? 46)%Z eqn:E.
  - pose proof (peekByte_reads _ _ E ltac:(done)) as R. pose proof (digits_diagnostic_reads 10 _ (reads_bound _ _ R)) as R2. apply Hgo; [by eapply reads_trans|]. destruct R2 as [Q _]. pose proof (qt_offset _ _ Q) as H. cbn in H. lia.
  - assert (token.IsDecimalDigit c = true) as Hd by (destruct Hc as [Hc| ->]; [done|unfold peekByte in E; by rewrite Er in E]). pose proof (digits_reads 10 s ltac:(lia)) as R. pose proof (digits_ahead_digit c l Hd) as Hn.
    assert (offset s < offset (snd (scanDigits 10 s))) as Hlt by (unfold scanDigits; rewrite Er; destruct (digits_ahead 10 (c :: l)) as [n seen]; cbn in *; lia).
    set (s1 := snd (scanDigits 10 s)) in *. destruct (peekByte s1 =? 46)%Z eqn:E2; [|by apply (Hgo false)].
    pose proof (peekByte_reads _ _ E2 ltac:(done)) as R2. pose proof (digits_reads 10 _ (reads_bound _ _ R2)) as R3. apply (Hgo true); [eapply reads_trans; [exact R|by eapply reads_trans]|].
    destruct R2 as [Q2 _]. destruct R3 as [Q3 _]. pose proof (qt_offset _ _ Q2). pose proof (qt_offset _ _ Q3). lia.
Qed.

Lemma underscore_reads start t i todo s : offset s <= length (text s) -> reads s (underscore_loop start t i todo s).
Proof. intros Ho. revert i. induction todo as [|c todo IH]; intros i; cbn [underscore_loop]; [by apply reads_refl|]. repeat (case_if; [apply IH || by apply reads_diagnostic|]). apply IH. Qed.

Lemma number_spelled s c l k b : rest s = c :: l -> token.IsDecimalDigit c = true \/ c = 46%Z -> k = token.Int \/ k = token.Float \/ k = token.Imag -> offset s < b -> token_spelled k (slice (text s) (offset s) b).
Proof. intros Er Hc Hk Hb. destruct (slice_head (text s) (offset s) b c l Er Hb) as [z Hz]. rewrite Hz. destruct Hk as [->|[->| ->]]; by exists c, z. Qed.

Lemma prefixed_reads p s : matchAt p s = true -> length p = 2 -> reads s (advance 2 s).
Proof. intros E Hp. pose proof (matchAt_bound p s E ltac:(by destruct p)) as Hb. apply reads_advance; rewrite ?rest_length; lia. Qed.

Lemma scanNumber_moves s c l : lexing s -> rest s = c :: l -> token.IsDecimalDigit c = true \/ c = 46%Z -> moves s (scanNumber letterRanges (offset s) s).
Proof.
  intros L Er Hc. unfold scanNumber.
  match goal with |- context [match ?x with pair _ _ => _ end] => assert (inside s (snd x)) as I; [|destruct x as [[[[hexadecimal point] exponent] floating] s1]] end.
  { assert (forall s', reads s (advance 2 s) -> reads (advance 2 s) s' -> inside s s') as Hgo.
    { intros s' R R2. split; [done|]. split; [by eapply reads_trans|]. destruct R2 as [Q _]. pose proof (qt_offset _ _ Q) as H. cbn in H. lia. }
    destruct (matchAt (lit "0x") s || matchAt (lit "0X") s) eqn:E1.
    { assert (reads s (advance 2 s)) as R by (apply orb_true_iff in E1 as [E|E]; by eapply prefixed_reads). pose proof (hexadecimal_reads _ (reads_bound _ _ R)) as R2.
      destruct (scan_hexadecimal (advance 2 s)) as [[[f p] e] s2]. cbn [snd] in *. by apply Hgo. }
    destruct (matchAt (lit "0b") s || matchAt (lit "0B") s) eqn:E2.
    { assert (reads s (advance 2 s)) as R by (apply orb_true_iff in E2 as [E|E]; by eapply prefixed_reads). cbn [snd]. apply Hgo; [done|]. apply digits_diagnostic_reads. by eapply reads_bound. }
    destruct (matchAt (lit "0o") s || matchAt (lit "0O") s) eqn:E3.
    { assert (reads s (advance 2 s)) as R by (apply orb_true_iff in E3 as [E|E]; by eapply prefixed_reads). cbn [snd]. apply Hgo; [done|]. apply digits_diagnostic_reads. by eapply reads_bound. }
    destruct (decimal_reads s c l Er Hc) as [R Hlt]. destruct (scan_decimal s) as [f s2]. cbn [snd] in *. done. }
  cbn [snd] in I. match goal with |- context [match ?x with pair _ _ => _ end] => assert (inside s (snd x) /\ (fst x = token.Int \/ fst x = token.Float \/ fst x = token.Imag)) as [I2 Hk]; [|destruct x as [kind s2]] end.
  { destruct (peekByte s1 =? 105)%Z eqn:E; cbn [fst snd].
    - split; [|by auto]. eapply inside_reads; [exact I|]. by eapply peekByte_reads.
    - split; [done|]. destruct floating; auto. }
  cbn [fst snd] in *. assert (forall (d : bool) c m a b s', inside s s' -> inside s (if d then addDiagnostic c m a b s' else s')) as Hd by (intros []; [intros; by apply inside_diagnostic|done]).
  apply inside_token; [|by intros; eapply number_spelled]. eapply inside_reads; [|unfold validateNumberUnderscores; apply underscore_reads].
  - by repeat apply Hd.
  - eapply (reads_bound s). assert (forall s', inside s s' -> reads s s') as Hr by (by intros s' (_ & H & _)). apply Hr. by repeat apply Hd.
Qed.

(** ** Identifiers *)

#[local] Abbreviation IsIdentifierStart := (token.IsIdentifierStart letterRanges).
#[local] Abbreviation IsIdentifierPart := (token.IsIdentifierPart letterRanges digitRanges).

(** The bytes [e] encode the rune [r], whatever follows. *)
Definition encodes (e : gostring) (r : Z) : Prop := e <> [] /\ forall y, DecodeRuneInString (e ++ y) = (r, length e).

Lemma encodes_ascii c : (c < 128)%Z -> encodes [c] c.
Proof. intros Hc. split; [done|]. intros y. cbn. by rewrite (proj2 (Z.ltb_lt _ _)) by lia. Qed.

Lemma decode_encodes s r n : s <> [] -> DecodeRuneInString s = (r, n) -> (r =? RuneError)%Z && (n =? 1) = false -> encodes (take n s) r.
Proof.
  intros Hs Hd He. unfold DecodeRuneInString in Hd. destruct s as [|a s]; [done|]. destruct (a <? 128)%Z eqn:E0; [injection Hd as <- <-; apply encodes_ascii; lia|]. destruct s as [|b s]; [by injection Hd as <- <-|].
  destruct ((194 <=? a) && (a <=? 223) && utf8_cont b)%Z eqn:E1.
  { injection Hd as <- <-. split; [done|]. intros y. cbn [take app DecodeRuneInString length]. by rewrite E0, E1. }
  destruct s as [|c s]; [by injection Hd as <- <-|]. destruct ((224 <=? a) && (a <=? 239) && utf8_second3 a b && utf8_cont c)%Z eqn:E2.
  { injection Hd as <- <-. split; [done|]. intros y. cbn [take app DecodeRuneInString length]. by rewrite E0, E1, E2. }
  destruct s as [|d s]; [by injection Hd as <- <-|]. destruct ((240 <=? a) && (a <=? 244) && utf8_second4 a b && utf8_cont c && utf8_cont d)%Z eqn:E3; [|by injection Hd as <- <-].
  injection Hd as <- <-. split; [done|]. intros y. cbn [take app DecodeRuneInString length]. by rewrite E0, E1, E2, E3.
Qed.

(** A sequence of encodings of the runes of names. *)
Inductive names : gostring -> Prop :=
| names_nil : names []
| names_cons e r x : encodes e r -> IsIdentifierPart r = true -> names x -> names (e ++ x).

Lemma names_app x y : names x -> names y -> names (x ++ y).
Proof. induction 1; [done|]. intros Hy. rewrite <- app_assoc. econstructor; eauto. Qed.

Lemma names_one e r : encodes e r -> IsIdentifierPart r = true -> names e.
Proof. intros H1 H2. rewrite <- (app_nil_r e). econstructor; [done|done|constructor]. Qed.

Lemma names_runes x : names x -> forall fuel, length x <= fuel -> forallb IsIdentifierPart (token.runes fuel x) = true.
Proof.
  induction 1 as [|e r x [Hne He] Hp _ IH]; intros fuel Hf; [by destruct fuel|]. destruct fuel as [|fuel]; [rewrite length_app in Hf; destruct e; [done|cbn in Hf; lia]|].
  cbn [token.runes]. destruct (e ++ x) as [|c l] eqn:E; [by destruct e|]. rewrite <- E, He. cbn [fst snd forallb]. rewrite Hp, drop_app_length. apply IH. rewrite <- E, length_app in Hf. destruct e; [done|cbn in Hf; lia].
Qed.

Lemma names_identifier e r x : encodes e r -> IsIdentifierStart r = true -> names x -> token.IsIdentifierName letterRanges digitRanges (e ++ x) = true.
Proof.
  intros [Hne He] Hs Hx. assert (IsIdentifierPart r = true) as Hp by (unfold token.IsIdentifierPart; by rewrite Hs). assert (names (e ++ x)) as Hn by (by econstructor).
  unfold token.IsIdentifierName. pose proof (names_runes _ Hn (length (e ++ x)) ltac:(lia)) as Hr. destruct (length (e ++ x)) as [|fuel] eqn:El; [rewrite length_app in El; destruct e; [done|cbn in El; lia]|].
  cbn [token.runes] in *. destruct (e ++ x) as [|c l] eqn:E; [by destruct e|]. rewrite <- E, He in *. cbn [fst snd] in *. by rewrite Hs, Hr.
Qed.

Lemma ascii_name_part c : ascii_name c = true -> (c < 128)%Z /\ IsIdentifierPart c = true.
Proof.
  unfold ascii_name, token.IsIdentifierPart, token.IsIdentifierStart, token.IsDecimalDigit. intros H. split; [breflect; lia|].
  destruct (c =? 95)%Z, ((97 <=? c) && (c <=? 122))%Z, ((65 <=? c) && (c <=? 90))%Z, ((48 <=? c) && (c <=? 57))%Z; try done; by rewrite ?orb_true_r.
Qed.

Lemma ascii_names_spec s : ascii_names s <= length s /\ names (take (ascii_names s) s).
Proof.
  induction s as [|c s [IH1 IH2]]; [split; [done|constructor]|]. cbn [ascii_names length]. destruct (ascii_name c) eqn:E; [|split; [lia|constructor]]. split; [lia|]. cbn [take].
  destruct (ascii_name_part c E) as [Hc Hp]. apply (names_cons [c] c); [by apply encodes_ascii|done|done].
Qed.

Lemma peekRune_encodes s r n : rest s <> [] -> peekRune s = (r, n) -> (r =? RuneError)%Z && (n =? 1) = false -> encodes (take n (rest s)) r.
Proof.
  intros Hne. unfold peekRune. destruct (rest s) as [|c l] eqn:E; [done|]. destruct (c <? 128)%Z eqn:Ec; [|by apply decode_encodes]. intros H _. injection H as <- <-. apply encodes_ascii. lia.
Qed.

Lemma slice_more (t : gostring) a b n : a <= b -> slice t a (b + n) = slice t a b ++ take n (drop b t).
Proof.
  intros Hab. unfold slice. replace (b + n - a) with (b - a + n) by lia. rewrite <- take_take_drop, drop_drop. by replace (a + (b - a)) with b by lia.
Qed.

(** What has been read from [s0] is a sequence of runes of names. *)
Definition naming (s0 s : scanner) : Prop := reads s0 s /\ names (slice (text s0) (offset s0) (offset s)).

Lemma naming_advance s0 s n : naming s0 s -> n <= length (rest s) -> names (take n (rest s)) -> naming s0 (advance n s).
Proof.
  intros [R Hn] Hl Hx. split; [eapply reads_trans; [exact R|]; apply reads_advance; [done|by eapply reads_bound]|]. cbn [advance set_offset offset]. rewrite slice_more; [|destruct R as [Q _]; apply (qt_offset _ _ Q)].
  apply names_app; [done|]. unfold rest in Hx. destruct R as [Q _]. by rewrite <- (quiet_text _ _ Q).
Qed.

Lemma ident_naming fuel s0 s s' : naming s0 s -> ident_loop letterRanges digitRanges fuel s = Some s' -> naming s0 s'.
Proof.
  revert s. induction fuel as [|fuel IH]; intros s N; cbn [ident_loop]; [done|]. destruct (at_end s); [intros H; by injection H as <-|]. destruct (ascii_names_spec (rest s)) as [Hb Hn]. pose proof (naming_advance s0 s _ N Hb Hn) as N1.
  set (s1 := advance (ascii_names (rest s)) s) in *. destruct (rest s1) as [|c l] eqn:Er; [intros H; by injection H as <-|]. case_if; [intros H; by injection H as <-|]. assert (rest s1 <> []) as Hne by (by rewrite Er). pose proof (peekRune_width s1 Hne) as Hw.
  destruct (peekRune s1) as [r size] eqn:Ep. cbn [snd] in Hw. destruct ((r =? RuneError)%Z && (size =? 1)) eqn:Ee; [intros H; by injection H as <-|]. destruct (IsIdentifierPart r) eqn:Epart; cbn [negb]; [|intros H; by injection H as <-].
  apply IH. apply naming_advance; [done|lia|]. eapply names_one; [by apply peekRune_encodes|done].
Qed.

Lemma ident_ends fuel s : offset s <= length (text s) -> ahead s < fuel -> is_Some (ident_loop letterRanges digitRanges fuel s).
Proof.
  revert s. induction fuel as [|fuel IH]; intros s Ho Hf; [lia|]. cbn [ident_loop]. destruct (at_end s) eqn:E; [done|]. destruct (ascii_names_spec (rest s)) as [Hb _]. pose proof (reads_advance _ s Hb Ho) as R.
  set (s1 := advance (ascii_names (rest s)) s) in *. destruct (rest s1) as [|c l] eqn:Er; [done|]. case_if; [done|]. assert (at_end s1 = false) as E1 by (apply Nat.leb_gt; by eapply rest_some). destruct (reads_peek s1 E1) as [R2 Hlt2].
  destruct (peekRune s1) as [r size]. cbn [snd] in *. case_if; [done|]. case_if; [done|]. pose proof (ahead_reads _ _ R2 Hlt2) as Ha. apply IH; [by eapply reads_bound|]. assert (ahead s1 <= ahead s); [|lia].
  destruct R as [Q _]. pose proof (qt_offset _ _ Q). unfold ahead. rewrite !rest_length, (quiet_text _ _ Q). lia.
Qed.

Lemma naming_refl s : offset s <= length (text s) -> naming s s.
Proof. intros Ho. split; [by apply reads_refl|]. unfold slice. rewrite Nat.sub_diag. constructor. Qed.

(** The rest of the loop after [n] bytes. *)
Lemma ident_mono fuel s n s' : n <= length (rest s) -> offset s <= length (text s) -> ident_loop letterRanges digitRanges fuel (advance n s) = Some s' -> offset s + n <= offset s'.
Proof.
  intros Hn Ho E. rewrite rest_length in Hn. destruct (ident_naming fuel _ _ _ (naming_refl (advance n s) ltac:(unfold advance; cbn [set_offset offset]; change (text (set_offset (offset s + n) s)) with (text s); lia)) E) as [[Q _] _].
  apply (qt_offset _ _ Q).
Qed.

Lemma ident_grows fuel s r n s' : offset s <= length (text s) -> at_end s = false -> peekRune s = (r, n) -> (r =? RuneError)%Z && (n =? 1) = false -> IsIdentifierStart r = true ->
  ident_loop letterRanges digitRanges (S fuel) s = Some s' -> offset s < offset s'.
Proof.
  intros Ho He Hp Hr Hs. cbn [ident_loop]. rewrite He. pose proof (at_end_rest _ He) as Hne. destruct (rest s) as [|c l] eqn:Er; [done|]. assert (peekRune s = if (c <? 128)%Z then (c, 1) else DecodeRuneInString (c :: l)) as Hp2 by (unfold peekRune; by rewrite Er).
  destruct (c <? 128)%Z eqn:Ec.
  - assert (r = c) as -> by congruence. assert (ascii_name c = true) as Ha.
    { unfold token.IsIdentifierStart in Hs. unfold ascii_name. rewrite (proj2 (Z.leb_gt 128 c)) in Hs by lia. cbn [andb] in Hs. rewrite orb_false_r in Hs. by rewrite Hs. }
    cbn [ascii_names]. rewrite Ha. destruct (ascii_names_spec l) as [Hal _]. pose proof (rest_length s) as Hrl. rewrite Er in Hrl. cbn [length] in Hrl.
    assert (offset s < offset (advance (S (ascii_names l)) s)) as Hlt by (unfold advance; cbn [set_offset offset]; lia). assert (offset (advance (S (ascii_names l)) s) <= length (text (advance (S (ascii_names l)) s))) as Ho2 by (unfold advance; cbn [set_offset offset]; change (text (set_offset (offset s + S (ascii_names l)) s)) with (text s); lia).
    set (s1 := advance (S (ascii_names l)) s) in *. destruct (rest s1) as [|c1 l1] eqn:Er1; [intros Heq; by injection Heq as <-|]. case_if; [intros Heq; by injection Heq as <-|].
    pose proof (peekRune_width s1 ltac:(by rewrite Er1)) as Hw. destruct (peekRune s1) as [r1 n1]. cbn [snd] in Hw. case_if; [intros Heq; by injection Heq as <-|]. case_if; [intros Heq; by injection Heq as <-|]. intros Hi. pose proof (ident_mono fuel s1 n1 s' ltac:(lia) Ho2 Hi). lia.
  - assert (ascii_names (c :: l) = 0) as Hz.
    { cbn [ascii_names]. assert (ascii_name c = false) as ->; [|done]. destruct (ascii_name c) eqn:E; [|done]. apply ascii_name_part in E as [H _]. lia. }
    rewrite Hz. assert (advance 0 s = s) as -> by (unfold advance; rewrite Nat.add_0_r; by destruct s). rewrite Er, Ec, Hp, Hr. unfold token.IsIdentifierPart at 1. rewrite Hs. cbn [orb negb].
    pose proof (peekRune_width s ltac:(by rewrite Er)) as Hw. rewrite Hp in Hw. cbn [snd] in Hw. intros H. pose proof (ident_mono fuel s n s' ltac:(lia) Ho H). lia.
Qed.

Lemma find_kind_elem table x k : token.find_kind table x = Some k -> (x, k) ∈ table.
Proof.
  induction table as [|[y k'] table IH]; [done|]. cbn [token.find_kind]. case_bool_decide as E; [intros H; injection H as <-; subst; by left|]. intros H. right. by apply IH.
Qed.

(** The kinds that are spelled in one way. *)
Definition fixed (k : token.Kind) : bool :=
  match k with
  | token.NoKind | token.Illegal | token.EOF | token.Comment | token.Ident | token.Int | token.Float | token.Imag | token.Char | token.String => false
  | _ => true
  end.

Lemma fixed_spelled k x : fixed k = true -> x = spelling k -> token_spelled k x.
Proof. intros Hk ->. by destruct k. Qed.

(** The tables of operators and keywords spell their kinds. *)
Definition spells (p : gostring * token.Kind) : bool := fixed (snd p) && bool_decide (fst p = spelling (snd p)).

Lemma table_fixed table x k : forallb spells table = true -> token.find_kind table x = Some k -> fixed k = true /\ x = spelling k.
Proof. intros Hf H%find_kind_elem. rewrite forallb_forall in Hf. assert (spells (x, k) = true) as Hs by (apply Hf; by apply list_elem_of_In). apply andb_true_iff in Hs as [H1 H2]. by apply bool_decide_eq_true in H2. Qed.

Lemma find_kind_missing table x k : token.find_kind table x = None -> (x, k) ∉ table.
Proof.
  induction table as [|[y k'] table IH]; [intros _; apply not_elem_of_nil|]. cbn [token.find_kind]. case_bool_decide as E; [done|]. intros H [Hx|Hx]%elem_of_cons; [congruence|by apply (IH H)].
Qed.

(** A name that is no keyword is no operator either. *)
Lemma not_spelled x : token.IsIdentifierName letterRanges digitRanges x = true -> token.find_kind token.keywords x = None -> forall k, x <> spelling k.
Proof.
  intros Hx Hn k ->. assert (token.IsIdentifierName letterRanges digitRanges (spelling k) = false \/ (spelling k, k) ∈ token.keywords) as [H|H]; [|congruence|by apply (find_kind_missing _ _ k Hn)].
  clear. destruct k; try (by left); right; unfold token.keywords; cbn [spelling]; repeat (apply elem_of_cons; (left; reflexivity) || right).
Qed.

Lemma word_spelled x : token.IsIdentifierName letterRanges digitRanges x = true -> token_spelled (token.Lookup x) x.
Proof.
  intros Hx. unfold token.Lookup. destruct (token.find_kind token.keywords x) as [k|] eqn:E; cbn [default].
  - destruct (table_fixed token.keywords x k eq_refl E). by apply fixed_spelled.
  - split; [done|]. by apply not_spelled.
Qed.

Lemma scanIdent_moves s r n : lexing s -> at_end s = false -> peekRune s = (r, n) -> (r =? RuneError)%Z && (n =? 1) = false -> IsIdentifierStart r = true -> moves s (scanIdent letterRanges digitRanges (offset s) s).
Proof.
  intros L He Hp Hr Hs. pose proof (lx_offset _ _ _ L) as Ho. unfold scanIdent. destruct (ident_ends (S (length (text s))) s Ho ltac:(pose proof (ahead_text s); lia)) as [s1 E1]. rewrite E1. change (default s (Some s1)) with s1.
  pose proof (ident_grows (length (text s)) s r n s1 Ho He Hp Hr Hs E1) as Hlt. destruct (ident_naming (S (length (text s))) s s s1 (naming_refl s Ho) E1) as [R Hn]. assert (text s1 = text s) as Ht by (destruct R as [Q _]; apply (quiet_text _ _ Q)). rewrite Ht. apply token_moves; [done|done|done|].
  apply word_spelled. pose proof (peekRune_encodes s r n (at_end_rest _ He) Hp Hr) as [Hne1 Hd]. specialize (Hd (drop n (rest s))). rewrite take_drop in Hd.
  assert (rest s = slice (text s) (offset s) (offset s1) ++ drop (offset s1 - offset s) (rest s)) as Hrest by (unfold slice, rest; by rewrite take_drop).
  assert (slice (text s) (offset s) (offset s1) <> []) as Hne.
  { destruct (rest s) as [|c l] eqn:Er; [by apply at_end_rest in He|]. destruct (slice_head (text s) (offset s) (offset s1) c l Er Hlt) as [z ->]. done. }
  destruct Hn as [|e r' x Henc Hp' Hx]; [done|]. pose proof Henc as [_ Hd2]. rewrite <- app_assoc in Hrest. rewrite Hrest, Hd2 in Hd. injection Hd as <- _. by apply names_identifier with r'.
Qed.

(** ** Operators, and one token *)

Context (Quote : gostring -> gostring).

Lemma compound_moves s width k : lexing s -> 0 < width -> compound_at width (offset s) s = Some k -> moves s (emitToken k (offset s) (offset (advance width s)) (advance width s)).
Proof.
  intros L Hw. unfold compound_at. destruct (Nat.ltb_spec (length (text s)) (offset s + width)) as [|Hle]; [done|]. intros Hk. destruct (table_fixed compoundTokens _ k eq_refl Hk) as [Hf Hin]. pose proof (lx_offset _ _ _ L) as Ho.
  apply token_moves; [done|apply reads_advance; [rewrite rest_length; lia|done]|cbn [advance set_offset offset]; lia|]. by apply fixed_spelled.
Qed.

Lemma operator_moves s : lexing s -> at_end s = false -> moves s (scanOperatorOrDelimiter Quote (offset s) s).
Proof.
  intros L He. unfold scanOperatorOrDelimiter. destruct (compound_at 3 (offset s) s) as [k|] eqn:E3; [apply compound_moves; [done|lia|done]|]. destruct (compound_at 2 (offset s) s) as [k|] eqn:E2; [apply compound_moves; [done|lia|done]|].
  pose proof (at_end_rest _ He) as Hne. destruct (rest s) as [|c l] eqn:Er; [done|]. pose proof (rest_some _ _ _ Er) as Ho.
  assert (text s !! offset s = Some c) as -> by (unfold rest in Er; rewrite <- (Nat.add_0_r (offset s)), <- lookup_drop, Er; done). change (default 0%Z (Some c)) with c. destruct (singleCharToken c) as [k|] eqn:E1.
  - destruct (table_fixed singleCharTokens [c] k eq_refl E1) as [Hf Hin]. apply token_moves; [done|apply reads_advance; [rewrite Er; cbn; lia|lia]|cbn; lia|]. cbn [advance set_offset offset]. rewrite slice_take. fold (rest s). rewrite Er.
    by apply fixed_spelled.
  - destruct (reads_peek s He) as [R Hlt]. apply inside_token; [|done]. apply inside_diagnostic. done.
Qed.

(** The rune ahead is the byte ahead when it is ASCII. *)
Lemma decode_wide a s : (128 <= a)%Z -> (128 <= fst (DecodeRuneInString (a :: s)))%Z.
Proof.
  intros Ha. unfold DecodeRuneInString. rewrite (proj2 (Z.ltb_ge _ _)) by done. assert (128 <= RuneError)%Z as Hre by (unfold RuneError; lia). destruct s as [|b s]; [done|].
  destruct ((194 <=? a) && (a <=? 223) && utf8_cont b)%Z eqn:E1; [unfold utf8_cont in E1; cbn [fst]; breflect; lia|]. destruct s as [|c s]; [done|].
  destruct ((224 <=? a) && (a <=? 239) && utf8_second3 a b && utf8_cont c)%Z eqn:E2.
  { cbn [fst]. unfold utf8_second3, utf8_cont in E2. destruct (Z.eqb_spec a 224); [breflect; lia|]. destruct (Z.eqb_spec a 237); breflect; lia. }
  destruct s as [|d s]; [done|]. destruct ((240 <=? a) && (a <=? 244) && utf8_second4 a b && utf8_cont c && utf8_cont d)%Z eqn:E3; [|done].
  cbn [fst]. unfold utf8_second4, utf8_cont in E3. destruct (Z.eqb_spec a 240); [breflect; lia|]. destruct (Z.eqb_spec a 244); breflect; lia.
Qed.

Lemma peekRune_ascii s c l r n : rest s = c :: l -> peekRune s = (r, n) -> (r < 128)%Z -> r = c.
Proof.
  intros Er Ep Hr. unfold peekRune in Ep. rewrite Er in Ep. destruct (Z.ltb_spec c 128); [congruence|]. pose proof (decode_wide c l ltac:(lia)) as H1. rewrite Ep in H1. cbn in H1. lia.
Qed.

(** Every round of the main loop reads a token. *)
Lemma scan_token_moves s : lexing s -> at_end s = false -> moves s (scan_token letterRanges digitRanges Quote s).
Proof.
  intros L He. unfold scan_token. pose proof (lx_offset _ _ _ L) as Ho. pose proof (reads_peek s He) as [R Hlt]. pose proof (at_end_rest _ He) as Hne. destruct (rest s) as [|c l] eqn:Er; [done|].
  assert (inside s (advance 1 s)) as I1 by (split; [done|]; split; [apply reads_advance; [rewrite Er; cbn; lia|done]|cbn; lia]).
  destruct (peekRune s) as [r size] eqn:Ep. cbn [snd] in R, Hlt. destruct ((r =? RuneError)%Z && (size =? 1)) eqn:Ee.
  { assert (offset (advance 1 s) = offset (addDiagnostic (lit "scanner.utf8.invalid") (lit "invalid UTF-8 encoding") (offset s) (offset (advance 1 s)) (advance 1 s))) as Hd by (symmetry; apply addDiagnostic_fields).
    rewrite Hd at 1. apply inside_token; [by apply inside_diagnostic|done]. }
  destruct ((r =? 0) || (r =? byteOrderMark))%Z; [by apply inside_token|]. destruct (IsIdentifierStart r) eqn:Es; [by eapply scanIdent_moves|].
  pose proof (fun H => peekRune_ascii s c l r size Er Ep H) as Hascii. assert (forall p b, r = p -> (p < 128)%Z -> offset s < b -> HasPrefix (slice (text s) (offset s) b) [p] = true) as Hhead.
  { intros p b <- Hp Hb. destruct (slice_head (text s) (offset s) b c l Er Hb) as [z ->]. rewrite (Hascii Hp). apply (HasPrefix_app [c]). }
  destruct (token.IsDecimalDigit r || (r =? 46)%Z && hasDigitAfterDot s) eqn:En.
  { apply (scanNumber_moves s c l L Er). unfold token.IsDecimalDigit in *. assert (r = c) as -> by (apply Hascii; breflect; destruct En as [En|En]; breflect; lia). destruct ((48 <=? c) && (c <=? 57))%Z; [by left|]. cbn in En. breflect. right. lia. }
  assert (ahead (advance 1 s) < S (length (text (advance 1 s)))) as Hf by (pose proof (ahead_text (advance 1 s)); lia).
  case_if; [apply (default_ends (advance 1 s) _ (moves s)); [by apply string_ends|]; intros s2; apply string_moves; [done|]; intros; left; by apply Hhead|]. case_if; [apply (default_ends (advance 1 s) _ (moves s)); [by apply raw_ends|]; intros s2; apply raw_moves; [done|]; intros; right; by apply Hhead|].
  case_if; [apply (default_ends (advance 1 s) _ (moves s)); [by apply rune_ends|]; intros s2; apply rune_moves; [done|]; intros; by apply Hhead|]. by apply operator_moves.
Qed.

(** ** The whole loop *)

Definition goes (s s' : scanner) : Prop := s' = s \/ moves s s'.

Lemma goes_trans a b c : goes a b -> goes b c -> goes a c.
Proof. intros [->|H1] [->|H2]; [by left|by right|by right|right; by eapply moves_trans]. Qed.

Lemma goes_lexing s s' : goes s s' -> lexing s -> lexing s'.
Proof. intros [->|H] L; [done|by apply mv_lexing in H]. Qed.

Lemma goes_fields s s' : goes s s' -> file s' = file s /\ limits s' = limits s /\ headerOnly s' = headerOnly s.
Proof. intros [->|[]]; done. Qed.

(** The loop stops, at the end of the text unless something stopped it before. *)
Lemma scan_loop_goes fuel s : lexing s -> ahead s < fuel ->
  exists s', scan_loop letterRanges digitRanges Quote fuel s = Some s' /\ goes s s' /\ (stopped s' = true \/ at_end s' = true).
Proof.
  revert s. induction fuel as [|fuel IH]; intros s L Hf; [lia|]. cbn [scan_loop]. destruct (stopped s) eqn:Es; [exists s; split; [done|]; split; [by left|by left]|]. destruct (at_end s) eqn:Ea; [exists s; split; [done|]; split; [by left|by right]|].
  assert (forall s1, moves s s1 -> exists s', scan_loop letterRanges digitRanges Quote fuel s1 = Some s' /\ goes s s' /\ (stopped s' = true \/ at_end s' = true)) as Hgo.
  { intros s1 M. destruct (IH s1 (mv_lexing _ _ M)) as (s' & E & G & H); [pose proof (ahead_moves _ _ M); lia|]. exists s'. split; [done|]. split; [|done]. eapply goes_trans; [by right|done]. }
  destruct (skip_ends (S (length (text s))) s L ltac:(pose proof (ahead_text s); lia)) as [[again s1] E]. rewrite E. destruct (skip_moves _ _ _ _ L E) as [[-> ->]|M].
  - rewrite Ea. apply Hgo. by apply scan_token_moves.
  - destruct again; [by apply Hgo|]. destruct (at_end s1) eqn:Ea1; [exists s1; split; [done|]; split; [by right|by right]|]. apply Hgo. eapply moves_trans; [exact M|]. apply scan_token_moves; [by apply (mv_lexing _ _ M)|done].
Qed.

(** The passes over the whole text only add diagnostics. *)
Lemma nul_still fuel start s : length (text s) - start < fuel -> exists s', nul_loop fuel start s = Some s' /\ quiet s s' /\ offset s' = offset s.
Proof.
  revert start s. induction fuel as [|fuel IH]; intros start s Hf; [lia|]. assert (exists s', Some s = Some s' /\ quiet s s' /\ offset s' = offset s) as Hstop by (exists s; split; [done|]; split; [apply quiet_refl|done]).
  cbn [nul_loop]. destruct (Nat.ltb_spec start (length (text s))) as [Hlt|]; [|done]. destruct (IndexByte _ _) as [i|]; [|done].
  match goal with |- exists s', nul_loop _ ?n ?x = _ /\ _ => destruct (IH n x) as (s' & E & Q & Ho); [rewrite (quiet_text _ _ (quiet_diagnostic _ _ _ _ s)); lia|] end.
  exists s'. split; [done|]. split; [eapply quiet_trans; [apply quiet_diagnostic|exact Q]|]. rewrite Ho. apply addDiagnostic_fields.
Qed.

Lemma bom_still fuel start s : length (text s) - start < fuel -> exists s', bom_loop fuel start s = Some s' /\ quiet s s' /\ offset s' = offset s.
Proof.
  revert start s. induction fuel as [|fuel IH]; intros start s Hf; [lia|]. assert (exists s', Some s = Some s' /\ quiet s s' /\ offset s' = offset s) as Hstop by (exists s; split; [done|]; split; [apply quiet_refl|done]).
  cbn [bom_loop]. destruct (Nat.ltb_spec start (length (text s))) as [Hlt|]; [|done]. destruct (strings_Index _ _) as [i|]; [|done].
  match goal with |- exists s', bom_loop _ ?n ?x = _ /\ _ => destruct (IH n x) as (s' & E & Q & Ho); [rewrite (quiet_text _ _ (quiet_diagnostic _ _ _ _ s)); cbn; lia|] end.
  exists s'. split; [done|]. split; [eapply quiet_trans; [apply quiet_diagnostic|exact Q]|]. rewrite Ho. apply addDiagnostic_fields.
Qed.

(** The state in which the loop begins. *)
Definition begin (s : scanner) : scanner :=
  let s := scanSourceTextDiagnostics s in
  if HasPrefix (text s) bom then set_offset (length bom) (emitTrivia ElementBOM 0 (length bom) s) else s.

Lemma new_lexing f l h : (0 < MaxTokens l)%Z -> (0 < MaxDiagnostics l)%Z -> LineStarts f = lineStarts (Text f) -> lexing (new_scanner f l h).
Proof.
  intros Hm Hd Hs. split; [by split| done | done | cbn; lia | constructor | exists 0; split; [apply lineStarts_ascending|done] | constructor | symmetry; apply take_nil | done | done | constructor | unfold diags_ok; cbn; lia].
Qed.

Lemma begin_lexing f l h : (0 < MaxTokens l)%Z -> (0 < MaxDiagnostics l)%Z -> LineStarts f = lineStarts (Text f) ->
  lexing (begin (new_scanner f l h)) /\ file (begin (new_scanner f l h)) = f /\ limits (begin (new_scanner f l h)) = l /\ headerOnly (begin (new_scanner f l h)) = h.
Proof.
  intros Hm Hd Hs. pose proof (new_lexing f l h Hm Hd Hs) as L. unfold begin, scanSourceTextDiagnostics. set (s0 := new_scanner f l h) in *.
  destruct (nul_still (S (length (text s0))) 0 s0 ltac:(lia)) as (s1 & -> & Q1 & Ho1). change (default s0 (Some s1)) with s1. destruct (bom_still (S (length (text s1))) 1 s1 ltac:(lia)) as (s2 & -> & Q2 & Ho2). change (default s1 (Some s2)) with s2.
  assert (quiet s0 s2) as Q by (by eapply quiet_trans). assert (offset s2 = offset s0) as Ho by congruence. pose proof (lexing_still _ _ Q Ho L) as L2.
  destruct (HasPrefix (text s2) bom) eqn:E; [|split; [done|]; split; [apply (qt_file _ _ Q)|split; [apply (qt_limits _ _ Q)|apply (qt_header _ _ Q)]]].
  pose proof E as E'. apply HasPrefix_spec in E' as [y Hy]. assert (length bom <= length (text s2)) as Hl by (rewrite Hy, length_app; lia). change (offset s0) with 0 in Ho.
  assert (moves s2 (emitTrivia ElementBOM 0 (length bom) (set_offset (length bom) s2))) as M.
  { rewrite <- Ho at 1. apply (emitTrivia_moves s2 (set_offset (length bom) s2)); try done; [apply quiet_set_offset; lia|rewrite Ho; cbn; lia| |by left]. intros ln. cbn [ScannerSafe.spelled]. split; [done|]. rewrite Ho, Hy. done. }
  split; [apply (mv_lexing _ _ M)|]. destruct M as [_ M1 M2 M3 _].
  exact (conj (eq_trans M1 (qt_file s0 s2 Q)) (conj (eq_trans M2 (qt_limits s0 s2 Q)) (eq_trans M3 (qt_header s0 s2 Q)))).
Qed.
End steps.
