(* ===== verification/ScannerRun.v ===== *)
(** * What a scan produces (src/compiler/scanner/scanner.go, document.go)

    The elements of a document tile its text, its tokens are those of the elements with the semicolons that
    the language inserts, every span is the one of the file, and both sequences are within the limits. *)

From S2P Require Import Prelude GoStd GoBytes TypeRelations Constraint Source Scanner ScannerSafe ScannerSteps.

#[local] Open Scope nat_scope.

Section run.
Context (letterRanges digitRanges : list (Z * Z * Z)) (Quote : gostring -> gostring) (HashText : gostring -> gostring).

#[local] Abbreviation lexing := (lexing letterRanges digitRanges).
#[local] Abbreviation spelled := (spelled letterRanges digitRanges).

(** ** The end of a scan *)

(** The tokens of the elements [es] of a text, scanned up to [n]. *)
Definition final_tokens (t : gostring) (es : list entry) (n : nat) : list (token.Kind * nat * nat) :=
  let st := insert_semicolons t es in fst st ++ (if snd st && (n =? length t) then [(token.Semicolon, n, n)] else []).

Lemma emitEOF_spec a s : good s ->
  let s' := emitSynthetic token.EOF a a s in
  good s' /\ file s' = file s /\ limits s' = limits s /\ diagnostics s' = diagnostics s /\ diagLimited s' = diagLimited s /\ elems s' = elems s /\ toks s' = toks s ++ [(token.EOF, NoElement, a, a, line_of a s)].
Proof.
  intros G. cbv zeta. unfold emitSynthetic. rewrite emitTokenIndex_none. change (limited token.EOF s) with false. cbn iota. destruct (with_record_good token.EOF a a s G) as (G1 & He & Ht & Hk & Hr). set (s1 := with_record token.EOF a a s) in *.
  change (emitTokenIndex token.EOF a a (Some (length (kinds (records s)))) s1) with (advanceHeader token.EOF (add_token (length (kinds (records s))) s1)).
  assert (advanceHeader token.EOF (add_token (length (kinds (records s))) s1) = add_token (length (kinds (records s))) s1) as -> by (unfold advanceHeader; by rewrite orb_true_r).
  split; [|split_and!; try done].
  - destruct G1 as [H1 H2 H3 H4]. split; try done. apply Forall_app. split; [done|]. constructor; [change (records (add_token (length (kinds (records s))) s1)) with (records s1); lia|constructor].
  - unfold toks. cbn [add_token records s_tokens]. rewrite entries_app. fold (toks s1). rewrite Ht. f_equal. unfold entries_at. cbn [omap list_omap]. by rewrite Hr.
Qed.

(** What is known of a finished scan of [f] that read [n] bytes. *)
Record scanned (f : File) (l : Limits) (full : bool) (n : nat) (s : scanner) : Prop := {
  sc_good : good s;
  sc_file : file s = f;
  sc_limits : limits s = l;
  sc_bound : n <= length (Text f);
  sc_tiles : tiles (elems s) n;
  sc_spelled : Forall (spelled (Text f)) (elems s);
  sc_lines : Forall (line_ok (Text f)) (elems s ++ toks s);
  sc_diags : diags_ok s;
  sc_count : length (s_tokens s) <= max_tokens s + 1;
  sc_tokens : full = true -> map lexed (toks s) = take (max_tokens s) (final_tokens (Text f) (elems s) n) ++ [(token.EOF, n, n)];
  sc_complete : full = true -> n < length (Text f) -> max_tokens s < length (fst (insert_semicolons (Text f) (elems s)))
}.

(** The last semicolon, if one is wanted. *)
Definition end_semicolon (s : scanner) : scanner :=
  if insertSemi s && negb (stopped s) then set_insertSemi false (emitSynthetic token.Semicolon (offset s) (offset s) s) else s.

Lemma end_semicolon_spec s : lexing s -> stopped s = true \/ at_end s = true ->
  let s' := end_semicolon s in
  good s' /\ file s' = file s /\ limits s' = limits s /\ offset s' = offset s /\ elems s' = elems s /\ diags_ok s' /\ Forall (line_ok (text s)) (toks s') /\ (exists st, lineStarts (text s) !! line s' = Some st /\ st <= offset s) /\
  length (toks s') <= max_tokens s /\ (headerOnly s = false -> map lexed (toks s') = take (max_tokens s) (final_tokens (text s) (elems s) (offset s))).
Proof.
  intros L He. cbv zeta. unfold end_semicolon, final_tokens. pose proof (lx_tokens _ _ _ L) as Ht. pose proof (lx_semi _ _ _ L) as Hs. pose proof (lx_stopped _ _ _ L) as Hst. pose proof (toks_lines _ _ _ L) as Hl.
  set (st := insert_semicolons (text s) (elems s)) in *. assert (length (toks s) <= max_tokens s) as Hlen by (rewrite <- (length_map lexed), Ht, length_take; lia).
  assert (max_tokens s < length (fst st) -> forall x, take (max_tokens s) (fst st ++ x) = take (max_tokens s) (fst st)) as Hover by (intros H x; by rewrite take_app_le by lia).
  destruct (insertSemi s) eqn:Ei; cbn [andb].
  2: { split_and!; try done; [apply (lx_good _ _ _ L)|apply (lx_diags _ _ _ L)|apply (lx_line _ _ _ L)|]. intros Hh. destruct (decide (length (fst st) <= max_tokens s)) as [Hle|Hgt]; [|by rewrite Hover by lia]. rewrite <- (Hs Hle). cbn [andb]. by rewrite app_nil_r. }
  destruct (stopped s) eqn:Es; cbn [negb].
  { split_and!; try done; [apply (lx_good _ _ _ L)|apply (lx_diags _ _ _ L)|apply (lx_line _ _ _ L)|]. intros Hh. by rewrite Hover by (by apply Hst). }
  destruct He as [?|He]; [done|]. assert (offset s = length (text s)) as Ho by (pose proof (lx_offset _ _ _ L); unfold at_end in He; apply Nat.leb_le in He; lia).
  destruct (synthetic_step (offset s) (offset s) s (fst st) (lx_good _ _ _ L) (lx_max _ _ _ L) Ht) as (S1 & S2 & S3 & S4 & S5 & S6 & S7 & S7b & S8 & S9 & S10 & S11); [by rewrite Es|].
  set (s1 := emitSynthetic token.Semicolon (offset s) (offset s) s) in *. pose proof (line_of_ok _ _ s s (offset s) L (quiet_refl s) ltac:(lia)) as Hln.
  split; [by destruct S1|]. split_and!; try done.
  - apply S7b, (lx_diags _ _ _ L).
  - change (toks (set_insertSemi false s1)) with (toks s1). destruct S8 as [-> | ->]; [apply Forall_app; split; [done|constructor; [split; [done|lia]|constructor]]|done].
  - cbn [set_insertSemi line]. destruct S4 as [-> | ->]; [apply (lx_line _ _ _ L)|]. by eapply line_at_le.
  - change (toks (set_insertSemi false s1)) with (toks s1). rewrite <- (length_map lexed), S9, length_take. lia.
  - intros Hh. change (toks (set_insertSemi false s1)) with (toks s1). rewrite S9. destruct (decide (length (fst st) <= max_tokens s)) as [Hle|Hgt]; [|by rewrite !Hover by lia].
    rewrite <- (Hs Hle), Ho, Nat.eqb_refl. done.
Qed.

Lemma scan_scanned f l h : (0 < MaxTokens l)%Z -> (0 < MaxDiagnostics l)%Z -> LineStarts f = lineStarts (Text f) ->
  exists n, scanned f l (negb h) n (scan letterRanges digitRanges Quote (new_scanner f l h)).
Proof.
  intros Hm Hd Hs. destruct (begin_lexing letterRanges digitRanges f l h Hm Hd Hs) as (L0 & F0 & M0 & H0). set (s0 := begin (new_scanner f l h)) in *.
  destruct (scan_loop_goes letterRanges digitRanges Quote (S (length (text s0))) s0 L0 ltac:(pose proof (ahead_text s0); lia)) as (s1 & E1 & Hg & He).
  pose proof (goes_lexing _ _ _ _ Hg L0) as L1. destruct (goes_fields _ _ _ _ Hg) as (F1 & M1 & H1). assert (text s1 = Text f) as Ht by (unfold text; by rewrite F1, F0).
  destruct (end_semicolon_spec s1 L1 He) as (G2 & F2 & M2 & O2 & E2 & D2 & T2 & N2 & C2 & X2). set (s2 := end_semicolon s1) in *.
  destruct (emitEOF_spec (offset s2) s2 G2) as (G3 & F3 & M3 & D3 & D3b & E3 & T3). exists (offset s1).
  assert (scan letterRanges digitRanges Quote (new_scanner f l h) = emitSynthetic token.EOF (offset s2) (offset s2) s2) as -> by (unfold scan; fold (begin (new_scanner f l h)); fold s0; by rewrite E1). set (s3 := emitSynthetic token.EOF (offset s2) (offset s2) s2) in *.
  assert (max_tokens s3 = max_tokens s1) as Hmx by (unfold max_tokens; by rewrite M3, M2).
  assert (line_at (lineStarts (Text f)) (offset s1) (line_of (offset s2) s2)) as Hln.
  { unfold line_of. rewrite F2, O2, (lx_starts _ _ _ L1), Ht. apply advance_line_spec; [apply lineStarts_ascending|lia|by rewrite <- Ht]. }
  split; rewrite ?E3, ?E2, ?T3, ?Hmx; try done.
  - by rewrite F3, F2, F1.
  - by rewrite M3, M2, M1.
  - rewrite <- Ht. apply (lx_offset _ _ _ L1).
  - apply (lx_tiles _ _ _ L1).
  - rewrite <- Ht. apply (lx_spelled _ _ _ L1).
  - pose proof (lx_lines _ _ _ L1) as Hl. apply Forall_app in Hl as [Hl _]. apply Forall_app. split; [by rewrite <- Ht|]. apply Forall_app. split; [by rewrite <- Ht|]. constructor; [|constructor]. unfold line_ok. rewrite O2 in Hln |- *. split; [exact Hln|]. rewrite <- Ht. pose proof (lx_offset _ _ _ L1). lia.
  - unfold diags_ok in *. by rewrite D3, D3b, M3.
  - rewrite <- (toks_length s3 G3), T3, length_app. cbn [length]. lia.
  - intros Hh. rewrite map_app. cbn [map lexed]. rewrite X2, Ht, O2; [done|]. rewrite H1, H0. by destruct h.
  - intros Hh Hlt. rewrite <- Ht in *. apply (lx_stopped _ _ _ L1); [|rewrite H1, H0; by destruct h]. destruct He as [?|He]; [done|]. unfold at_end in He. apply Nat.leb_le in He. lia.
Qed.

(** ** The loops end *)

(** C29. Every loop of the scanner ends.  A loop gives no result when its rounds are used up before it has ended; with more
    rounds than there are bytes ahead each has a result: from any state within the text the loops over strings, runes,
    raw strings and identifiers and the two passes over the whole text, and from any state between two elements the
    loop over white space and comments and the main loop, which has then reached the end of the text or been stopped. *)
Theorem scan_loops_end s fuel : offset s <= length (text s) -> ahead s < fuel ->
  (forall start valid, is_Some (string_loop fuel start valid s)) /\ (forall start, is_Some (raw_loop fuel start s)) /\ (forall start count valid, is_Some (rune_loop fuel start count valid s)) /\
  is_Some (ident_loop letterRanges digitRanges fuel s) /\ (forall start, length (text s) - start < fuel -> is_Some (nul_loop fuel start s) /\ is_Some (bom_loop fuel start s)) /\
  (lexing s -> is_Some (skipWhitespaceAndComments fuel s) /\ exists s', scan_loop letterRanges digitRanges Quote fuel s = Some s' /\ (stopped s' = true \/ at_end s' = true)).
Proof.
  intros Ho Hf. split; [intros; by apply string_ends|]. split; [intros; by apply raw_ends|]. split; [intros; by apply rune_ends|]. split; [by apply ident_ends|]. split.
  - intros start Hs. destruct (nul_still fuel start s Hs) as (s1 & -> & _). by destruct (bom_still fuel start s Hs) as (s2 & -> & _).
  - intros L. split; [by eapply skip_ends|]. destruct (scan_loop_goes _ _ Quote fuel s L Hf) as (s' & E & _ & H). by exists s'.
Qed.

(** ** Documents *)

#[local] Abbreviation scanDocument := (scanDocument letterRanges digitRanges Quote HashText).

Lemma InitializeFile_starts f : file_ok f -> LineStarts (InitializeFile HashText f) = lineStarts (Text f).
Proof. unfold InitializeFile. cbn [LineStarts]. intros [-> | ->]; [done|]. by case_bool_decide. Qed.

Lemma normalizeLimits_pos l : (0 < MaxSourceBytes (normalizeLimits l) /\ 0 < MaxTokens (normalizeLimits l) /\ 0 < MaxDiagnostics (normalizeLimits l))%Z.
Proof. unfold normalizeLimits. cbn [MaxSourceBytes MaxTokens MaxDiagnostics]. repeat case_if; (split_and!; try done; lia). Qed.

Definition small (f : File) (l : Limits) : Prop := (Z.of_nat (length (Text f)) <= MaxSourceBytes (normalizeLimits l))%Z.

Definition element_entries (d : Document) : list entry := entries_at (d_records d) (d_elements d).
Definition token_entries (d : Document) : list entry := entries_at (d_records d) (d_tokens d).

Lemma document_scanned f l h : file_ok f -> small f l ->
  exists n s, scanned (InitializeFile HashText f) (normalizeLimits l) (negb h) n s /\ scanDocument f l h = mkDocument (InitializeFile HashText f) (records s) (s_tokens s) (s_elements s) ∅ (diagnostics s).
Proof.
  intros Hf Hs. destruct (normalizeLimits_pos l) as (_ & Hm & Hd). destruct (scan_scanned (InitializeFile HashText f) (normalizeLimits l) h Hm Hd (InitializeFile_starts f Hf)) as [n S]. exists n. eexists. split; [exact S|].
  unfold Scanner.scanDocument. rewrite (proj2 (Z.ltb_ge _ _)) by exact Hs. done.
Qed.

(** The views of the tokens and elements of a document without spellings of its own. *)
Definition token_view (f : File) (e : entry) : Token := let '(k, el, a, b, ln) := e in mkToken k (own_lexeme f k el a b) [] (document_span f a b ln).
Definition element_view (f : File) (e : entry) : Element := let '(k, el, a, b, ln) := e in mkElement el k (own_lexeme f k el a b) (document_span f a b ln).

Lemma mapM_entries {A} (view : entry -> A) g tape ids : tape_ok tape -> Forall (fun i => i < length (kinds tape)) ids -> (forall i, g i = view <$> record_at tape i) -> mapM g ids = Some (view <$> entries_at tape ids).
Proof.
  intros Ht Hf Hg. unfold entries_at. induction Hf as [|j ids Hj _ IH]; [done|]. cbn [mapM]. rewrite Hg, IH. cbn [omap list_omap]. by destruct (record_some tape j Ht Hj) as [x ->].
Qed.

Lemma document_views f records ts es ds : tape_ok records -> Forall (fun i => i < length (kinds records)) ts -> Forall (fun i => i < length (kinds records)) es ->
  Syntax (mkDocument f records ts es ∅ ds) = Some (mkResult f (element_view f <$> entries_at records es) (token_view f <$> entries_at records ts) ds).
Proof.
  intros Ht H1 H2. unfold Syntax. cbn [d_tokens d_elements d_file d_diagnostics]. rewrite (mapM_entries (token_view f) (document_token (mkDocument f records ts es ∅ ds)) records ts), (mapM_entries (element_view f) (document_element (mkDocument f records ts es ∅ ds)) records es); try done; intros i.
  - unfold document_element. cbn [d_records d_file]. by destruct (record_at records i) as [[[[[k el] a] b] ln]|].
  - unfold document_token. cbn [d_records d_file]. by destruct (record_at records i) as [[[[[k el] a] b] ln]|].
Qed.

(** The span computed from the line of the start is the one found by the search. *)
Lemma document_span_exact f a b ln : file_ok f -> Path f <> [] -> line_at (lineStarts (Text f)) a ln -> a <= b <= length (Text f) ->
  Some (document_span (InitializeFile HashText f) a b ln) = file_Span f (Z.of_nat a) (Z.of_nat b).
Proof.
  intros Hf Hp Ha Hab. pose proof (InitializeFile_starts f Hf) as Hs. unfold file_Span. assert (((Z.of_nat a <? 0) || (Z.of_nat b <? Z.of_nat a) || (Z.of_nat (length (Text f)) <? Z.of_nat b))%Z = false) as -> by (rewrite !orb_false_iff, !Z.ltb_ge; lia). rewrite (file_Position_spec f a ln Hf Hp ltac:(lia) Ha).
  unfold document_span. rewrite Hs. change (Text (InitializeFile HashText f)) with (Text f). change (Path (InitializeFile HashText f)) with (Path f). change (filename (InitializeFile HashText f)) with (filename f).
  pose proof Ha as (st & Hst & Hle & Hnext). rewrite Hst. rewrite !(proj2 (Nat.ltb_ge _ _)) by lia. rewrite bool_decide_false by done. cbn [orb]. change (default 0 (Some st)) with st.
  assert (file_ok (InitializeFile HashText f)) as Hf2 by (right; exact Hs).
  assert (exists j, line_at (lineStarts (Text f)) b j) as [j Hj] by (eexists; apply (advance_line_spec _ b (lineStarts_ascending (Text f)) (length (lineStarts (Text f))) 0); [lia|]; exists 0; split; [apply lineStarts_ascending|lia]).
  rewrite (file_Position_spec f b j Hf Hp ltac:(lia) Hj), (file_Position_spec (InitializeFile HashText f) b j Hf2 Hp (proj2 Hab) Hj).
  assert ((forall next, lineStarts (Text f) !! (ln + 1) = Some next -> b < next) -> j = ln) as Heq.
  { intros H. eapply line_at_unique; [apply lineStarts_ascending|exact Hj|]. exists st. split; [done|]. split; [lia|done]. }
  destruct (lineStarts (Text f) !! (ln + 1)) as [next|].
  - destruct (Nat.leb_spec next b) as [Hn|Hn]; [done|]. rewrite Heq by (intros x Hx; by injection Hx as <-). by rewrite Hst.
  - rewrite Heq by done. by rewrite Hst.
Qed.

(** The texts of the elements, one after the other. *)
Lemma tiles_text t es n : tiles es n -> n <= length t -> concat ((fun e : entry => let '(_, _, a, b, _) := e in slice t a b) <$> es) = take n t.
Proof.
  induction 1 as [|es n k e m ln Ht IH Hlt]; intros Hn; [done|]. rewrite fmap_app, concat_app, IH by lia. cbn [fmap list_fmap concat]. rewrite app_nil_r. unfold slice.
  rewrite take_take_drop. f_equal. lia.
Qed.
Lemma element_text f e : line_ok (Text f) e -> spelled (Text f) e -> E_Lexeme (element_view (InitializeFile HashText f) e) = let '(_, _, a, b, _) := e in slice (Text f) a b.
Proof.
  destruct e as [[[[k el] a] b] ln]. intros [_ Hb] Hs. cbn [element_view E_Lexeme]. unfold own_lexeme. rewrite bool_decide_false by (intros ->; done). cbn [andb]. change (Text (InitializeFile HashText f)) with (Text f).
  by rewrite !(proj2 (Nat.ltb_ge _ _)) by lia.
Qed.

Lemma tiles_nonempty t es n : tiles es n -> n <= length t -> Forall (fun e : entry => let '(_, _, a, b, _) := e in slice t a b <> []) es.
Proof.
  induction 1 as [|es n k e m ln Ht IH Hlt]; intros Hn; [constructor|]. apply Forall_app. split; [apply IH; lia|]. constructor; [|constructor]. intros H. apply (f_equal length) in H. unfold slice in H. rewrite length_take, length_drop in H. cbn in H. lia.
Qed.

Lemma small_lossless f l : file_ok f -> small f l ->
  exists r suffix, Syntax (scanDocument f l false) = Some r /\ Text f = concat (E_Lexeme <$> R_Elements r) ++ suffix /\ Forall (fun e => E_Lexeme e <> []) (R_Elements r) /\
    (suffix = [] \/ Z.of_nat (length (R_Tokens r)) = MaxTokens (normalizeLimits l) + 1)%Z.
Proof.
  intros Hf Hs. destruct (document_scanned f l false Hf Hs) as (n & s & S & ->). pose proof (sc_good _ _ _ _ _ S) as G. rewrite document_views by (by destruct G). fold (elems s) (toks s). pose proof (sc_bound _ _ _ _ _ S) as Hn.
  assert (forall e, e ∈ elems s -> E_Lexeme (element_view (InitializeFile HashText f) e) = let '(_, _, a, b, _) := e in slice (Text f) a b) as Htext.
  { intros e He. pose proof (sc_lines _ _ _ _ _ S) as Hl. apply Forall_app in Hl as [Hl _]. apply element_text; [by apply (proj1 (Forall_forall _ _) Hl e)|by apply (proj1 (Forall_forall _ _) (sc_spelled _ _ _ _ _ S) e)]. }
  eexists _, (drop n (Text f)). split; [done|]. cbn [R_Elements R_Tokens]. split; [|split].
  - rewrite <- list_fmap_compose. erewrite list_fmap_ext; [rewrite (tiles_text (Text f) _ n (sc_tiles _ _ _ _ _ S) Hn); by rewrite take_drop|]. intros i e He. apply Htext. by eapply list_elem_of_lookup_2.
  - apply Forall_fmap. pose proof (tiles_nonempty (Text f) _ n (sc_tiles _ _ _ _ _ S) Hn) as Hne. apply Forall_forall. intros e He. cbn. rewrite (Htext e He). pose proof (proj1 (Forall_forall _ _) Hne e He) as H. by destruct e as [[[[k el] a] b] ln].
  - destruct (decide (n < length (Text f))) as [Hlt|Hge]; [|left; apply drop_ge; lia]. right. pose proof (sc_complete _ _ _ _ _ S eq_refl Hlt) as Hc. pose proof (sc_tokens _ _ _ _ _ S eq_refl) as Ht. apply (f_equal length) in Ht.
    rewrite length_map, length_app, length_take in Ht. unfold final_tokens in Ht. rewrite length_app in Ht. cbn [length] in Ht. rewrite length_fmap, Ht. pose proof (sc_limits _ _ _ _ _ S) as Hl. destruct (normalizeLimits_pos l) as (_ & Hm & _). unfold max_tokens in *. rewrite Hl in *.
    change (Text (InitializeFile HashText f)) with (Text f) in *. lia.
Qed.

(** C27. Nothing of a text within the byte limit is lost: the elements of its document are non-empty and their texts, one
    after the other, are the whole text, unless the limit on the number of tokens has been used up.  The document of a text
    above the byte limit has no elements and no tokens, and the one diagnostic that says so. *)
Theorem scan_lossless f l : file_ok f ->
  exists r, Syntax (scanDocument f l false) = Some r /\
    (small f l -> exists suffix, Text f = concat (E_Lexeme <$> R_Elements r) ++ suffix /\ Forall (fun e => E_Lexeme e <> []) (R_Elements r) /\
       (suffix = [] \/ Z.of_nat (length (R_Tokens r)) = MaxTokens (normalizeLimits l) + 1)%Z) /\
    (~ small f l -> R_Elements r = [] /\ R_Tokens r = [] /\ map D_Code (R_Diagnostics r) = [lit "scanner.source.limit"]).
Proof.
  intros Hf. destruct (decide (Z.of_nat (length (Text f)) <= MaxSourceBytes (normalizeLimits l))%Z) as [Hs|Hs].
  - destruct (small_lossless f l Hf Hs) as (r & suffix & H & H2). exists r. split; [done|]. split; [|done]. intros _. by exists suffix.
  - eexists. unfold Scanner.scanDocument. change (Text (InitializeFile HashText f)) with (Text f). rewrite (proj2 (Z.ltb_lt _ _)) by lia. split; [done|]. split; [done|]. done.
Qed.

(** C26. The tokens of the document of a text within the byte limit are those of its elements with the semicolons of the
    language: one at the end of a line whose last token is a name, a literal, break, continue, fallthrough, return, ++, --
    or a closing bracket, be the line ended by a line break or within a comment, and one at the end of the text; then the
    end of the file.  Only the first tokens are kept where there are more than the limit allows.  The elements are spelled
    as their kinds say: an operator, delimiter or keyword in its one way, a name as no such thing, literals with their
    first byte, white space, line breaks and comments with theirs. *)
Theorem scan_tokens_exact f l : file_ok f -> small f l ->
  let d := scanDocument f l false in
  exists n, tiles (element_entries d) n /\ map lexed (token_entries d) = take (Z.to_nat (MaxTokens (normalizeLimits l))) (final_tokens (Text f) (element_entries d) n) ++ [(token.EOF, n, n)] /\
    (n = length (Text f) \/ (MaxTokens (normalizeLimits l) < Z.of_nat (length (fst (insert_semicolons (Text f) (element_entries d)))))%Z) /\
    Forall (spelled (Text f)) (element_entries d).
Proof.
  intros Hf Hs d. destruct (document_scanned f l false Hf Hs) as (n & s & S & Hd). subst d. rewrite Hd. exists n. unfold element_entries, token_entries. cbn [d_records d_elements d_tokens]. fold (elems s) (toks s).
  pose proof (sc_limits _ _ _ _ _ S) as Hl. pose proof (sc_tokens _ _ _ _ _ S eq_refl) as Ht. pose proof (sc_complete _ _ _ _ _ S eq_refl) as Hc. unfold max_tokens in *. rewrite Hl in *. change (Text (InitializeFile HashText f)) with (Text f) in *.
  split; [apply (sc_tiles _ _ _ _ _ S)|]. split; [done|]. split; [|apply (sc_spelled _ _ _ _ _ S)]. pose proof (sc_bound _ _ _ _ _ S) as Hn. change (Text (InitializeFile HashText f)) with (Text f) in Hn. destruct (decide (n < length (Text f))) as [Hlt|]; [right; specialize (Hc Hlt); lia|left; lia].
Qed.

(** What a client sees of a record: its kind, the span of the file and the text there, a line break for an inserted semicolon. *)
Definition shown (f : File) (kind : token.Kind) (text : gostring) (span : Span) (e : entry) : Prop :=
  let '(k, el, a, b, _) := e in
  kind = k /\ Some span = file_Span f (Z.of_nat a) (Z.of_nat b) /\ text = if bool_decide (el = NoElement) && bool_decide (k = token.Semicolon) then [10%Z] else slice (Text f) a b.

Lemma shown_ok f e : file_ok f -> Path f <> [] -> line_ok (Text f) e ->
  shown f (T_Kind (token_view (InitializeFile HashText f) e)) (T_Lexeme (token_view (InitializeFile HashText f) e)) (T_Span (token_view (InitializeFile HashText f) e)) e.
Proof.
  intros Hf Hp. destruct e as [[[[k el] a] b] ln]. intros [Hl Hb]. cbn [token_view T_Kind T_Lexeme T_Span]. split; [done|]. split; [by apply document_span_exact|]. unfold own_lexeme. case_if; [done|].
  change (Text (InitializeFile HashText f)) with (Text f). by rewrite !(proj2 (Nat.ltb_ge _ _)) by lia.
Qed.

(** C28. Every token and element that a client sees of a text within the byte limit, in a file with a path, has the text and the span, in lines and columns, that the file gives
    for its offsets, though the scanner searches for no position: it only moves its line forward. *)
Theorem scan_positions_exact f l h : file_ok f -> Path f <> [] -> small f l ->
  let d := scanDocument f l h in
  exists r, Syntax d = Some r /\ Forall2 (fun t e => shown f (T_Kind t) (T_Lexeme t) (T_Span t) e) (R_Tokens r) (token_entries d) /\
    Forall2 (fun x e => shown f (E_Token x) (E_Lexeme x) (E_Span x) e) (R_Elements r) (element_entries d).
Proof.
  intros Hf Hp Hs d. destruct (document_scanned f l h Hf Hs) as (n & s & S & Hd). subst d. rewrite Hd. pose proof (sc_good _ _ _ _ _ S) as G. rewrite document_views by (by destruct G). unfold element_entries, token_entries. cbn [d_records d_elements d_tokens].
  fold (elems s) (toks s). pose proof (sc_lines _ _ _ _ _ S) as [Hl1 Hl2]%Forall_app. eexists. split; [done|]. cbn [R_Elements R_Tokens].
  split; apply Forall2_fmap_l, Forall_Forall2_diag; [eapply Forall_impl; [exact Hl2|]|eapply Forall_impl; [exact Hl1|]]; intros e He; [by apply shown_ok|]. pose proof (shown_ok f e Hf Hp He) as H. by destruct e as [[[[k el] a] b] ln].
Qed.

(** A document has at most the tokens and diagnostics of its limits, and one more of each: the end of the file, and the
    diagnostic that says that others were left out. *)
Theorem scan_within_limits f l h : file_ok f ->
  let d := scanDocument f l h in
  (Z.of_nat (length (d_tokens d)) <= MaxTokens (normalizeLimits l) + 1 /\ Z.of_nat (length (d_diagnostics d)) <= MaxDiagnostics (normalizeLimits l) + 1)%Z.
Proof.
  intros Hf d. destruct (normalizeLimits_pos l) as (_ & Hm & Hdg). destruct (Z.le_gt_cases (Z.of_nat (length (Text f))) (MaxSourceBytes (normalizeLimits l))) as [Hs|Hs].
  - destruct (document_scanned f l h Hf Hs) as (n & s & S & Hd). subst d. rewrite Hd. cbn [d_tokens d_diagnostics]. pose proof (sc_count _ _ _ _ _ S) as Hc. pose proof (sc_diags _ _ _ _ _ S) as Hq. unfold max_tokens, diags_ok in *. rewrite (sc_limits _ _ _ _ _ S) in *. destruct (diagLimited s); lia.
  - subst d. unfold Scanner.scanDocument. rewrite (proj2 (Z.ltb_lt _ _)) by exact Hs. cbn [d_tokens d_diagnostics length]. lia.
Qed.
End run.

(** ** A sample *)

(** Line breaks after tokens that end statements, after ones that do not, within a comment, and none at the end. *)
Definition sample_text : gostring := lit "a := 1 /*" ++ [10%Z] ++ lit "*/ f(" ++ [10%Z] ++ lit "x)" ++ [10%Z] ++ lit "y++ // end".

Definition sample_file : File := mkFile (lit "file.0") (lit "a.mgo") [] sample_text [] [].
Definition sample_limits : Limits := mkLimits 0 0 0.
Definition sample_document : Document := scanDocument [] [] (fun x => x) (fun _ => lit "hash") sample_file sample_limits false.

Example sample_kinds : option_map (fun r => map (fun t => (T_Kind t, T_Lexeme t, Line (Start (T_Span t)))) (R_Tokens r)) (Syntax sample_document) =
  Some [(token.Ident, lit "a", 1); (token.Define, lit ":=", 1); (token.Int, lit "1", 1); (token.Semicolon, [10], 1); (token.Ident, lit "f", 2); (token.Lparen, lit "(", 2);
        (token.Ident, lit "x", 3); (token.Rparen, lit ")", 3); (token.Semicolon, [10], 3); (token.Ident, lit "y", 4); (token.Inc, lit "++", 4); (token.Semicolon, [10], 4); (token.EOF, [], 4)]%Z.
Proof. vm_compute. reflexivity. Qed.

Lemma sample_small : small sample_file sample_limits.
Proof. unfold small. vm_compute. discriminate. Qed.

Lemma scan_lossless_witness : file_ok sample_file /\
  exists r, Syntax sample_document = Some r /\
    (small sample_file sample_limits -> exists suffix, sample_text = concat (E_Lexeme <$> R_Elements r) ++ suffix /\ Forall (fun e => E_Lexeme e <> []) (R_Elements r) /\
       (suffix = [] \/ Z.of_nat (length (R_Tokens r)) = MaxTokens (normalizeLimits sample_limits) + 1)%Z) /\
    (~ small sample_file sample_limits -> R_Elements r = [] /\ R_Tokens r = [] /\ map D_Code (R_Diagnostics r) = [lit "scanner.source.limit"]).
Proof.
  assert (file_ok sample_file) as Hf by (by left). split; [done|]. exact (scan_lossless [] [] (fun x => x) (fun _ => lit "hash") sample_file sample_limits Hf).
Defined.

Lemma scan_tokens_exact_witness : file_ok sample_file /\ small sample_file sample_limits /\
  exists n, tiles (element_entries sample_document) n /\
    map lexed (token_entries sample_document) = take (Z.to_nat (MaxTokens (normalizeLimits sample_limits))) (final_tokens sample_text (element_entries sample_document) n) ++ [(token.EOF, n, n)] /\
    (n = length sample_text \/ (MaxTokens (normalizeLimits sample_limits) < Z.of_nat (length (fst (insert_semicolons sample_text (element_entries sample_document)))))%Z) /\
    Forall (spelled [] [] sample_text) (element_entries sample_document).
Proof.
  assert (file_ok sample_file) as Hf by (by left). split; [done|]. split; [apply sample_small|]. exact (scan_tokens_exact [] [] (fun x => x) (fun _ => lit "hash") sample_file sample_limits Hf sample_small).
Defined.

Lemma scan_positions_exact_witness : file_ok sample_file /\ Path sample_file <> [] /\ small sample_file sample_limits /\
  exists r, Syntax sample_document = Some r /\ Forall2 (fun t e => shown sample_file (T_Kind t) (T_Lexeme t) (T_Span t) e) (R_Tokens r) (token_entries sample_document) /\
    Forall2 (fun x e => shown sample_file (E_Token x) (E_Lexeme x) (E_Span x) e) (R_Elements r) (element_entries sample_document).
Proof.
  assert (file_ok sample_file) as Hf by (by left). assert (Path sample_file <> []) as Hp by done. split; [done|]. split; [done|]. split; [apply sample_small|].
  exact (scan_positions_exact [] [] (fun x => x) (fun _ => lit "hash") sample_file sample_limits false Hf Hp sample_small).
Defined.

(** The state in which the scan of the sample begins. *)
Definition sample_scanner : scanner := new_scanner (NewFile (fun _ => lit "hash") (lit "file.0") (lit "a.mgo") sample_text) (normalizeLimits sample_limits) false.

Lemma sample_lexing : lexing [] [] sample_scanner.
Proof. by apply new_lexing. Qed.

Lemma scan_loops_end_witness : lexing [] [] sample_scanner /\ is_Some (raw_loop 100 0 sample_scanner) /\
  is_Some (skipWhitespaceAndComments 100 sample_scanner) /\ exists s', scan_loop [] [] (fun x => x) 100 sample_scanner = Some s' /\ (stopped s' = true \/ at_end s' = true).
Proof.
  split; [apply sample_lexing|]. assert (offset sample_scanner <= length (text sample_scanner)) as H1 by (cbn; lia). assert (ahead sample_scanner < 100) as H2 by (vm_compute; lia).
  destruct (scan_loops_end [] [] (fun x => x) sample_scanner 100 H1 H2) as (_ & H & _ & _ & _ & H3). split; [apply H|]. exact (H3 sample_lexing).
Defined.
