(* ===== verification/ScannerView.v ===== *)
(** * Documents from views (src/compiler/scanner/document.go)

    A document made from an expanded view, whoever supplied its spellings, shows that view again. *)

From S2P Require Import Prelude GoStd GoBytes TypeRelations Constraint Source Scanner ScannerSafe ScannerSteps ScannerRun.

#[local] Open Scope nat_scope.

Section views.
Context (HashText : gostring -> gostring).

#[local] Abbreviation init := (InitializeFile HashText).

(** ** Spans of a file *)

Definition span_in (f : File) (sp : Span) : Prop := exists a b : nat, Some sp = file_Span f (Z.of_nat a) (Z.of_nat b).

Lemma line_exists t offset : exists i, line_at (lineStarts t) offset i.
Proof. eexists. apply (advance_line_spec _ offset (lineStarts_ascending t) (length (lineStarts t)) 0); [lia|]. exists 0. split; [apply lineStarts_ascending|lia]. Qed.

(** The line of an offset, as a record has it. *)
Definition line_from (f : File) (a ln : nat) : Prop := exists pos, file_Position f (Z.of_nat a) = Some pos /\ ln = Z.to_nat (Line pos - 1).

Lemma span_record_ok f sp : file_ok f -> Path f <> [] -> span_in f sp ->
  exists a b ln, span_record (init f) sp = Some (a, b, ln) /\ document_span (init f) a b ln = sp /\ line_from (init f) a ln.
Proof.
  intros Hf Hp (a & b & Hsp). assert (file_ok (init f)) as Hf2 by (right; exact (InitializeFile_starts HashText f Hf)). assert (a <= b <= length (Text f)) as Hab.
  { unfold file_Span in Hsp. destruct (Z.ltb_spec (Z.of_nat a) 0); [done|]. destruct (Z.ltb_spec (Z.of_nat b) (Z.of_nat a)); [done|]. destruct (Z.ltb_spec (Z.of_nat (length (Text f))) (Z.of_nat b)); [done|]. lia. }
  destruct (line_exists (Text f) a) as [ln Hln]. destruct (line_exists (Text f) b) as [lb Hlb]. pose proof (document_span_exact HashText f a b ln Hf Hp Hln Hab) as Hd. rewrite <- Hsp in Hd. injection Hd as Hd.
  unfold file_Span in Hsp. assert (((Z.of_nat a <? 0) || (Z.of_nat b <? Z.of_nat a) || (Z.of_nat (length (Text f)) <? Z.of_nat b))%Z = false) as E by (rewrite !orb_false_iff, !Z.ltb_ge; lia). rewrite E in Hsp.
  rewrite (file_Position_spec f a ln Hf Hp ltac:(lia) Hln), (file_Position_spec f b lb Hf Hp ltac:(lia) Hlb) in Hsp. injection Hsp as ->. pose proof (file_Position_spec (init f) a ln Hf2 Hp (Nat.le_trans _ _ _ (proj1 Hab) (proj2 Hab)) Hln) as Hpos.
  exists a, b, ln. split; [|split; [done|]].
  - unfold span_record. cbn [Start End Offset]. rewrite !(proj2 (Z.ltb_ge _ _)) by lia. cbn [orb]. rewrite Hpos. cbn [Line]. f_equal. f_equal; [f_equal|]; lia.
  - eexists. split; [exact Hpos|]. cbn [Line]. lia.
Qed.

Lemma line_from_unique f a i j : line_from f a i -> line_from f a j -> i = j.
Proof. intros (p & H1 & ->) (q & H2 & ->). congruence. Qed.

(** ** Growing documents *)

(** The records and spellings of [d] are those of [d'] where [d] has them. *)
Definition extends (d d' : Document) : Prop :=
  d_file d' = d_file d /\ length (kinds (d_records d)) <= length (kinds (d_records d')) /\
  forall i, i < length (kinds (d_records d)) -> record_at (d_records d') i = record_at (d_records d) i /\ d_text d' !! i = d_text d !! i.

Lemma record_lt tape i x : record_at tape i = Some x -> i < length (kinds tape).
Proof. unfold record_at. destruct (kinds tape !! i) eqn:E; [|done]. by apply lookup_lt_Some in E. Qed.

Lemma extends_element d d' i x : extends d d' -> document_element d i = Some x -> document_element d' i = Some x.
Proof.
  intros (Hf & _ & He). unfold document_element, lexeme. destruct (record_at (d_records d) i) as [y|] eqn:Er; [|done]. destruct (He i (record_lt _ _ _ Er)) as [H1 H2]. by rewrite H1, H2, Er, Hf.
Qed.

Lemma extends_token d d' i x : extends d d' -> document_token d i = Some x -> document_token d' i = Some x.
Proof.
  intros (Hf & _ & He). unfold document_token, lexeme, literal. destruct (record_at (d_records d) i) as [y|] eqn:Er; [|done]. destruct (He i (record_lt _ _ _ Er)) as [H1 H2]. by rewrite H1, H2, Er, Hf.
Qed.

(** The record of an element, with its place in the file; its spelling has no literal. *)
Definition sharable (d : Document) (e : token.Kind * nat * nat * nat) : Prop :=
  let '(k, a, b, i) := e in literal d i = [] /\ exists el ln, record_at (d_records d) i = Some (k, el, a, b, ln) /\ line_from (d_file d) a ln.

Lemma extends_sharable d d' e : extends d d' -> sharable d e -> sharable d' e.
Proof.
  destruct e as [[[k a] b] i]. intros (Hf & _ & He) (Hl & el & ln & Hr & Hln). destruct (He i (record_lt _ _ _ Hr)) as [H1 H2]. split; [unfold literal in *; by rewrite H2|]. exists el, ln. rewrite H1, Hf. done.
Qed.

(** A document under construction that shows [es] and [ts]. *)
Record shows (f : File) (d : Document) (shared : sharing) (es : list Element) (ts : list Token) : Prop := {
  sh_file : d_file d = f;
  sh_tape : tape_ok (d_records d);
  sh_text : forall i x, d_text d !! i = Some x -> i < length (kinds (d_records d));
  sh_elements : Forall2 (fun i x => document_element d i = Some x) (d_elements d) es;
  sh_tokens : Forall2 (fun i x => document_token d i = Some x) (d_tokens d) ts;
  sh_shared : Forall (sharable d) shared
}.

Lemma shows_extends f d d' shared es ts : shows f d shared es ts -> extends d d' -> Forall2 (fun i x => document_element d' i = Some x) (d_elements d) es /\ Forall2 (fun i x => document_token d' i = Some x) (d_tokens d) ts /\ Forall (sharable d') shared.
Proof.
  intros S E. split; [|split].
  - eapply Forall2_impl; [apply (sh_elements _ _ _ _ _ S)|]. intros i x. by apply extends_element.
  - eapply Forall2_impl; [apply (sh_tokens _ _ _ _ _ S)|]. intros i x. by apply extends_token.
  - eapply Forall_impl; [apply (sh_shared _ _ _ _ _ S)|]. intros e. by apply extends_sharable.
Qed.

(** A new record, spelled or not. *)
Definition grown (k : token.Kind) (el : ElementKind) (a b ln : nat) (text : option lexicalText) (ts es : list nat) (d : Document) : Document :=
  mkDocument (d_file d) (appendRecord k el a b ln (d_records d)) ts es (match text with Some x => <[length (kinds (d_records d)) := x]> (d_text d) | None => d_text d end) (d_diagnostics d).

Lemma grown_ok f d shared es ts k el a b ln text ids1 ids2 : shows f d shared es ts -> let d' := grown k el a b ln text ids1 ids2 d in let i := length (kinds (d_records d)) in
  extends d d' /\ tape_ok (d_records d') /\ (forall j x, d_text d' !! j = Some x -> j < length (kinds (d_records d'))) /\ record_at (d_records d') i = Some (k, el, a, b, ln) /\ d_text d' !! i = text.
Proof.
  intros S d' i. pose proof (sh_tape _ _ _ _ _ S) as Ht. pose proof (sh_text _ _ _ _ _ S) as Hx. assert (length (kinds (d_records d')) = i + 1) as Hl by (unfold d', grown; cbn [d_records appendRecord kinds]; by rewrite length_app).
  assert (d_text d !! i = None) as Hn by (destruct (d_text d !! i) eqn:E; [|done]; apply Hx in E; unfold i in E; lia). split; [|split; [|split; [|split]]].
  - split; [done|]. split; [rewrite Hl; unfold i; lia|]. intros j Hj. split; [by apply record_old|]. unfold d', grown. cbn [d_text]. destruct text; [|done]. rewrite lookup_insert_ne; [done|unfold i in *; lia].
  - destruct Ht as [H1 H2]. split; unfold d', grown; cbn [d_records appendRecord kinds elements positions]; rewrite !length_app; cbn [length]; lia.
  - intros j x Hj. rewrite Hl. unfold d', grown in Hj. cbn [d_text] in Hj. destruct text as [y|]; [|apply Hx in Hj; unfold i; lia]. destruct (decide (j = i)) as [->|Hne]; [lia|]. rewrite lookup_insert_ne in Hj by done. apply Hx in Hj. unfold i. lia.
  - by apply record_new.
  - unfold d', grown. cbn [d_text]. destruct text; [by rewrite lookup_insert_eq|done].
Qed.
(** ** The two loops *)

Lemma from_element_shows f d shared es ts x : file_ok f -> Path f <> [] -> span_in f (E_Span x) -> shows (init f) d shared es ts -> d_tokens d = [] ->
  exists d' shared', from_element (d, shared) x = Some (d', shared') /\ shows (init f) d' shared' (es ++ [x]) ts /\ d_tokens d' = [] /\ d_diagnostics d' = d_diagnostics d.
Proof.
  intros Hf Hp Hsp S Htk. pose proof (sh_file _ _ _ _ _ S) as Hfile. destruct (span_record_ok f _ Hf Hp Hsp) as (a & b & ln & Hr & Hd & Hln). unfold from_element. rewrite Hfile, Hr. set (i := length (kinds (d_records d))).
  set (text := if bool_decide (own_lexeme (init f) (E_Token x) (E_Kind x) a b = E_Lexeme x) then None else Some (mkText (E_Lexeme x) [])).
  destruct (grown_ok (init f) d shared es ts (E_Token x) (E_Kind x) a b ln text (d_tokens d) (d_elements d ++ [i]) S) as (He & Ht & Hx & Hrec & Htext). set (d' := grown _ _ _ _ _ text _ _ d) in *.
  assert (d_text d !! i = None) as Hfresh by (destruct (d_text d !! i) eqn:E; [|done]; apply (sh_text _ _ _ _ _ S) in E; unfold i in E; lia). fold i in Hrec, Htext.
  exists d', (if bool_decide (E_Kind x = ElementToken) then (E_Token x, a, b, i) :: shared else shared). split; [|split; [|split; [exact Htk|done]]].
  - unfold lexeme. cbn [d_text d_file]. rewrite Hfresh. subst d' text. unfold grown, spell. cbn [d_file d_records d_tokens d_elements d_text d_diagnostics]. rewrite Hfile. by case_bool_decide.
  - destruct (shows_extends _ _ _ _ _ _ S He) as (H1 & H2 & H3). split; try done.
    + apply Forall2_app; [exact H1|]. constructor; [|constructor]. unfold document_element. rewrite Hrec. unfold lexeme. rewrite Htext. change (d_file d') with (d_file d). rewrite Hfile, Hd. subst text. destruct x as [ek et el es']. cbn [E_Kind E_Token E_Lexeme E_Span] in *. case_bool_decide as E; [by rewrite E|done].
    + case_bool_decide; [|done]. constructor; [|done]. split; [unfold literal; rewrite Htext; subst text; by case_bool_decide|]. exists (E_Kind x), ln. split; [done|]. change (d_file d') with (d_file d). by rewrite Hfile.
Qed.

Lemma from_elements_shows f xs : file_ok f -> Path f <> [] -> Forall (fun x => span_in f (E_Span x)) xs -> forall d shared es, shows (init f) d shared es [] -> d_tokens d = [] ->
  exists d' shared', from_elements (d, shared) xs = Some (d', shared') /\ shows (init f) d' shared' (es ++ xs) [] /\ d_diagnostics d' = d_diagnostics d.
Proof.
  intros Hf Hp. induction 1 as [|x xs Hx _ IH]; intros d shared es S Ht; cbn [from_elements]; [rewrite app_nil_r; by eexists _, _|]. destruct (from_element_shows f d shared es [] x Hf Hp Hx S Ht) as (d1 & sh1 & -> & S1 & Ht1 & Hd1).
  destruct (IH d1 sh1 (es ++ [x]) S1 Ht1) as (d2 & sh2 & -> & S2 & Hd2). exists d2, sh2. rewrite <- app_assoc in S2. split; [done|]. split; [done|congruence].
Qed.

(** The record that a token shares is one with its kind and offsets. *)
Lemma shared_at_in shared k a b i : shared_at shared k a b = Some i -> (k, a, b, i) ∈ shared.
Proof.
  unfold shared_at. intros H. destruct (find _ shared) as [[[[k' a'] b'] i']|] eqn:E; [|done]. injection H as <-. apply find_some in E as [Hin He]. cbn [fst] in He. case_bool_decide as Heq; [|done]. injection Heq as -> -> ->. by apply list_elem_of_In.
Qed.

Lemma from_token_shows f d shared es ts x : file_ok f -> Path f <> [] -> span_in f (T_Span x) -> shows (init f) d shared es ts ->
  exists d', from_token shared d x = Some d' /\ shows (init f) d' shared es (ts ++ [x]) /\ d_diagnostics d' = d_diagnostics d.
Proof.
  intros Hf Hp Hsp S. pose proof (sh_file _ _ _ _ _ S) as Hfile. destruct (span_record_ok f _ Hf Hp Hsp) as (a & b & ln & Hr & Hd & Hln). unfold from_token. rewrite Hfile, Hr. set (i := length (kinds (d_records d))).
  set (text := if bool_decide (own_lexeme (init f) (T_Kind x) NoElement a b = T_Lexeme x) && bool_decide (T_Literal x = []) then None else Some (mkText (T_Lexeme x) (T_Literal x))).
  destruct (grown_ok (init f) d shared es ts (T_Kind x) NoElement a b ln text (d_tokens d ++ [i]) (d_elements d) S) as (He & Ht & Hx & Hrec & Htext). set (d' := grown _ _ _ _ _ text _ _ d) in *.
  assert (d_text d !! i = None) as Hfresh by (destruct (d_text d !! i) eqn:E; [|done]; apply (sh_text _ _ _ _ _ S) in E; unfold i in E; lia). fold i in Hrec, Htext.
  assert (exists d', (let d := mkDocument (init f) (appendRecord (T_Kind x) NoElement a b ln (d_records d)) (d_tokens d ++ [i]) (d_elements d) (d_text d) (d_diagnostics d) in
    Some (if bool_decide (lexeme_at d i = T_Lexeme x) && bool_decide (T_Literal x = []) then d else spell i (T_Lexeme x) (T_Literal x) d)) = Some d' /\ shows (init f) d' shared es (ts ++ [x]) /\ d_diagnostics d' = d_diagnostics d) as Hnew.
  { exists d'. split; [|split; [|done]].
    - cbv zeta. unfold lexeme_at. cbn [d_records]. rewrite (record_new _ _ _ _ _ _ (sh_tape _ _ _ _ _ S)). unfold lexeme. cbn [d_text d_file]. fold i. rewrite Hfresh. subst d' text. unfold grown, spell. cbn [d_file d_records d_tokens d_elements d_text d_diagnostics]. rewrite Hfile.
      by destruct (bool_decide (own_lexeme (init f) (T_Kind x) NoElement a b = T_Lexeme x) && bool_decide (T_Literal x = [])).
    - destruct (shows_extends _ _ _ _ _ _ S He) as (H1 & H2 & H3). split; try done. apply Forall2_app; [exact H2|]. constructor; [|constructor]. unfold document_token. rewrite Hrec. unfold lexeme, literal. rewrite Htext. change (d_file d') with (d_file d). rewrite Hfile, Hd.
      subst text. destruct x as [tk tl tt tsp]. cbn [T_Kind T_Lexeme T_Literal T_Span] in *. destruct (bool_decide (own_lexeme (init f) tk NoElement a b = tl)) eqn:E1; cbn [andb]; [|done]. destruct (bool_decide (tt = [])) eqn:E2; [|done].
      apply bool_decide_eq_true in E1, E2. by rewrite E1, E2. }
  destruct (shared_at shared (T_Kind x) a b) as [j|] eqn:Esh; [|exact Hnew]. destruct (bool_decide (lexeme_at d j = T_Lexeme x) && bool_decide (literal d j = T_Literal x)) eqn:Eu; [|exact Hnew].
  apply andb_true_iff in Eu as [E1%bool_decide_eq_true E2%bool_decide_eq_true]. apply shared_at_in in Esh. destruct (proj1 (Forall_forall _ _) (sh_shared _ _ _ _ _ S) _ Esh) as (Hlit & el & ln' & Hrec' & Hln'). rewrite Hfile in Hln'. pose proof (line_from_unique _ _ _ _ Hln Hln') as <-.
  set (d1 := mkDocument (d_file d) (d_records d) (d_tokens d ++ [j]) (d_elements d) (d_text d) (d_diagnostics d)). assert (lexeme_at d1 j = lexeme_at d j) as Hl1 by done. rewrite Hl1, E1. rewrite <- E2, Hlit, !bool_decide_true by done. cbn [andb]. exists d1. split; [done|]. split; [|done].
  destruct S as [S1 S2 S3 S4 S5 S6]. split; try done. apply Forall2_app; [exact S5|]. constructor; [|constructor]. unfold document_token. change (d_records d1) with (d_records d). rewrite Hrec'. unfold lexeme_at in E1. rewrite Hrec' in E1. change (lexeme d1 j) with (lexeme d j). change (literal d1 j) with (literal d j).
  change (d_file d1) with (d_file d). rewrite E1, E2, Hfile, Hd. by destruct x.
Qed.

Lemma from_tokens_shows f xs shared : file_ok f -> Path f <> [] -> Forall (fun x => span_in f (T_Span x)) xs -> forall d es ts, shows (init f) d shared es ts ->
  exists d', from_tokens shared d xs = Some d' /\ shows (init f) d' shared es (ts ++ xs) /\ d_diagnostics d' = d_diagnostics d.
Proof.
  intros Hf Hp. induction 1 as [|x xs Hx _ IH]; intros d es ts S; cbn [from_tokens]; [rewrite app_nil_r; by eexists|]. destruct (from_token_shows f d shared es ts x Hf Hp Hx S) as (d1 & -> & S1 & Hd1).
  destruct (IH d1 es (ts ++ [x]) S1) as (d2 & -> & S2 & Hd2). exists d2. rewrite <- app_assoc in S2. split; [done|]. split; [done|congruence].
Qed.

(** ** Round trips *)

(** C30. A document made from a view shows exactly that view, whatever spellings and literals it has, if every span is one of
    the file: tokens share the records of elements only where nothing tells them apart. *)
Theorem document_view_roundtrip r : file_ok (R_File r) -> Path (R_File r) <> [] -> Forall (fun x => span_in (R_File r) (E_Span x)) (R_Elements r) -> Forall (fun x => span_in (R_File r) (T_Span x)) (R_Tokens r) ->
  exists d, DocumentFromResult HashText r = Some d /\ Syntax d = Some (mkResult (init (R_File r)) (R_Elements r) (R_Tokens r) (R_Diagnostics r)).
Proof.
  intros Hf Hp He Ht. unfold DocumentFromResult. cbv zeta. set (d0 := mkDocument (init (R_File r)) (mkTape [] [] []) [] [] ∅ (R_Diagnostics r)). assert (shows (init (R_File r)) d0 [] [] []) as S0 by (split; [done|done|done|constructor|constructor|constructor]).
  destruct (from_elements_shows _ _ Hf Hp He d0 [] [] S0 eq_refl) as (d1 & shared & Hd & S1 & D1). unfold sharing in *. rewrite Hd. destruct (from_tokens_shows _ _ shared Hf Hp Ht d1 _ _ S1) as (d2 & -> & S2 & D2). exists d2. split; [done|]. unfold Syntax.
  rewrite (proj2 (mapM_Some _ _ _) (sh_tokens _ _ _ _ _ S2)), (proj2 (mapM_Some _ _ _) (sh_elements _ _ _ _ _ S2)). by rewrite (sh_file _ _ _ _ _ S2), D2, D1.
Qed.
End views.

(** ** Searches *)

Lemma index_spec s p : is_Some (strings_Index s p) <-> exists u v, s = u ++ p ++ v.
Proof.
  split.
  - induction s as [|c s IH]; cbn [strings_Index].
    + destruct (HasPrefix [] p) eqn:E; [|intros [? ?]; done]. intros _. apply HasPrefix_spec in E as [t E]. by exists [], t.
    + destruct (HasPrefix (c :: s) p) eqn:E; [intros _; apply HasPrefix_spec in E as [t E]; by exists [], t|]. intros H. destruct IH as (u & v & ->); [by destruct (strings_Index s p)|]. by exists (c :: u), v.
  - intros (u & v & ->). induction u as [|c u IH].
    + cbn [app]. pose proof (HasPrefix_app p v) as H. destruct (p ++ v) as [|x l]; cbn [strings_Index]; rewrite H; by eexists.
    + cbn [app strings_Index]. destruct (HasPrefix (c :: u ++ p ++ v) p); [by eexists|]. destruct IH as [k ->]. by eexists.
Qed.

Lemma contains_trans s t p : (exists u v, t = u ++ s ++ v) -> strings_Contains s p = true -> strings_Contains t p = true.
Proof.
  unfold strings_Contains. rewrite !bool_decide_eq_true, !index_spec. intros (u & v & ->) (u' & v' & ->). exists (u ++ u'), (v' ++ v). by rewrite <- !app_assoc.
Qed.

(** The filter never misses an element: one whose text contains the fragment, be it the file's or a spelling of its own,
    makes it answer yes. *)
Theorem filter_conservative d i x fragment : document_element d i = Some x -> E_Kind x <> NoElement -> strings_Contains (E_Lexeme x) fragment = true -> MayContainLexeme fragment d = true.
Proof.
  unfold document_element, MayContainLexeme, lexeme. destruct (record_at (d_records d) i) as [[[[[k el] a] b] ln]|]; [|done]. intros H Hk Hc. injection H as <-. cbn [E_Kind E_Lexeme] in *. apply orb_true_iff.
  destruct (d_text d !! i) as [t|] eqn:Et.
  - right. apply existsb_exists. exists (i, t). split; [|done]. apply list_elem_of_In. by apply elem_of_map_to_list.
  - left. eapply contains_trans; [|exact Hc]. unfold own_lexeme. rewrite bool_decide_false by done. cbn [andb]. case_if; [by exists [], (Text (d_file d))|]. unfold slice. exists (take a (Text (d_file d))), (drop (b - a) (drop a (Text (d_file d)))). by rewrite !take_drop.
Qed.

(** ** A view with spellings of its own *)

(** A result whose token [x] has a literal, next to the element with the same kind and offsets, and whose comment is spelled anew. *)
Definition view_file : File := mkFile (lit "file.0") (lit "a.mgo") [] (lit "x /*") [] [].
Definition view_span (a b : Z) : Span := default no_span (file_Span view_file a b).
Definition view_result : Result :=
  mkResult view_file [mkElement ElementToken token.Ident (lit "x") (view_span 0 1); mkElement ElementBlockComment token.NoKind (lit "/* c */") (view_span 2 4)]
    [mkToken token.Ident (lit "x") (lit "lit") (view_span 0 1); mkToken token.Ident (lit "x") [] (view_span 0 1)] [].

Lemma view_span_in a b : is_Some (file_Span view_file (Z.of_nat a) (Z.of_nat b)) -> span_in view_file (view_span (Z.of_nat a) (Z.of_nat b)).
Proof. intros [sp H]. exists a, b. unfold view_span. by rewrite H. Qed.

Lemma document_view_roundtrip_witness : file_ok view_file /\ Path view_file <> [] /\ Forall (fun x => span_in view_file (E_Span x)) (R_Elements view_result) /\ Forall (fun x => span_in view_file (T_Span x)) (R_Tokens view_result) /\
  exists d, DocumentFromResult (fun _ => lit "hash") view_result = Some d /\ Syntax d = Some (mkResult (InitializeFile (fun _ => lit "hash") view_file) (R_Elements view_result) (R_Tokens view_result) []).
Proof.
  assert (file_ok view_file) as Hf by (by left). assert (Path view_file <> []) as Hp by done.
  assert (Forall (fun x => span_in view_file (E_Span x)) (R_Elements view_result)) as He by (repeat constructor; [apply (view_span_in 0 1)|apply (view_span_in 2 4)]; vm_compute; by eexists).
  assert (Forall (fun x => span_in view_file (T_Span x)) (R_Tokens view_result)) as Ht by (repeat constructor; apply (view_span_in 0 1); vm_compute; by eexists).
  split; [done|]. split; [done|]. split; [done|]. split; [done|]. exact (document_view_roundtrip (fun _ => lit "hash") view_result Hf Hp He Ht).
Defined.
